(* ===== verification/_CoqProject ===== *)
-Q . S2P
Prelude.v
Text.v
SszCodec.v
SszContainer.v
SszBitfield.v
SszTypes.v
Merkle.v
SszExtra.v
SszTree.v
Shuffling.v
Spec.v
BeaconState.v
Invariant.v
Roots.v
Accessors.v
Mutators.v
Justification.v
Rewards.v
EpochUpdates.v
Operations.v
Pools.v
Slasher.v
WeakSubjectivity.v
Transition.v
ForkStore.v
ForkHead.v
ForkHandlers.v
ForkSafety.v
Optimistic.v
Genesis.v
Forks.v
ForkInvariant.v
Altair.v
AltairFacts.v
AltairOps.v
Electra.v
Withdrawals.v
ElectraQueues.v
PendingDeposits.v
ElectraRequests.v
ElectraEpoch.v
ElectraBody.v
ElectraOps.v
ElectraBlock.v
ElectraTransition.v
ForkUpgrades.v
AltairBody.v
LightClient.v
LightServer.v
ForkExamples.v
Slashing.v
Interchange.v
Doppelganger.v
ValidatorExamples.v
NodeExamples.v
Rpc.v
RpcTypes.v
RpcCodec.v
ForkSchedule.v
Kzg.v
Fulu.v
FuluChain.v
DataColumns.v
Custody.v
Gossip.v
NetworkExamples.v
FuluExamples.v
ColumnExamples.v
