(* ===== verification/Prelude.v ===== *)
(** * pharos: a verification development

    pharos is an Ethereum consensus client in Rust.  This library is a shallow
    embedding of its consensus core, of the node's detection of slashable
    messages and of the validator client's protection against signing them.
    Every definition is written from the sources under src/crates/; paths below
    are relative to that directory.

    ** The program and how its parts interact

    - [pharos-ssz] and [pharos-ssz-derive] serialize and Merkleize every
      container.  The state, the blocks and all messages are built from them.
    - [pharos-types] holds the containers, presets, operation pools and the
      weak subjectivity computation.
    - [pharos-stf] is the state transition: slots, epochs and blocks, per fork.  A
      later fork projects its state to that of an earlier one, calls its step and
      writes the result back.  The light client (client and server) is there too.
    - [pharos-fork-choice] keeps a store of blocks and of the states the caller
      computed for them with the state transition, and selects the head.
    - [pharos-node] drives the above; its slasher watches votes and headers and
      pools slashings that block production drains.
    - [pharos-validator] signs blocks and votes after consulting the slashing
      protection database and the doppelganger guard.
    - [pharos-network] carries requests, responses and gossip between nodes; the
      node gives it the digests that mark the fork of a message.

    ** Conventions

    - Fallible code returns [result E A]: [Ok], [Err e], or [Panic] for an abort
      of the process (index out of range, [expect], [unreachable!]).  [?] is the
      bind of that monad.
    - Machine integers are [Z] with the operator of the source written out:
      [wadd], [wsub], [wmul] wrap at 64 bits, [sat_*] saturate, [checked_*]
      return an option.  The release profile leaves overflow checks off.
    - Bytes are [Byte.byte], [Vec] and slices are lists, [HashMap] is [gmap].
      Where the code iterates over a [HashMap], the result is shown not to depend
      on the order or the order is that of a sorted key.
    - A state handled by value is passed and returned.  Fork-choice handlers
      return the store beside the outcome, since writes made before an error
      remain.
    - A loop without a structural bound takes fuel, and a theorem shows that the
      fuel the definitions supply is enough (see "Fuel" below).

    ** Code that is not in the repository

    It enters as a type class of operations, with its documented behaviour in a
    second class, and concrete instances in the example files show both can hold.
    - [Crypto], [CryptoOk] (Spec): SHA-256 and BLS verification.  The only law is
      that a digest has 32 bytes; nothing is assumed about collisions.
    - [Hex], [HexOk] (Text): the hex crate.
    - [ExecutionBlock] (Optimistic): what is read of a block of any fork, with an
      instance for phase 0 blocks and one for blocks with a payload.
    - [Lru], [LruOk] (Pools): the lru crate; BLS aggregation is an argument.
    - [BeaconSpec], [SpecOk] (Spec), [WsSpecOk] (WeakSubjectivity), [ForkSpec],
      [ForkSpecOk] (Forks), [BlockSpec], [BlockSpecOk] (ElectraBody),
      [LightClientSpec] (LightClient): the preset constants and the relations
      between them; the mainnet and minimal presets are proved to satisfy them.
    - [Aggregation] (Forks): the aggregate of a list of public keys.
      [ExecutionEngine] (ElectraOps): the verdict of the execution client on a
      payload.  [BatchVerification] (ElectraOps): the joint check of the signature
      sets a block collects.
    - [Snappy], [SnappyOk] (Rpc): the snap crate, with the framing format as far as
      the reader relies on it.  [WireSpec] (RpcCodec): the block and light client
      types of a preset, each with a codec that meets its contract.
    - SQLite and RocksDB tables are finite maps on their keys; whether a commit
      reaches the disk is an argument.  The beacon node's answers to the
      validator client are arguments.

    ** Files

    Foundations.
    - Prelude: the result monad, machine integers, list and slice lemmas, tactics
      and hint databases.
    - Text: decimal and hexadecimal text (pharos-utils/src/bytes.rs).

    SSZ (pharos-ssz/src, pharos-ssz-derive/src).
    - SszCodec: encode.rs, decode.rs, error.rs and the wire format of lists and
      vectors.  [codec] is the dictionary of the two traits; the class [CodecOk]
      is what a client may rely on (round trip, canonicity, no abort), and every
      codec of the library has an instance.
    - SszContainer: [SszDecoder] and the derived codecs of structs.
    - SszBitfield: bitfield.rs over its byte storage.
    - SszTypes: the phase 0 containers with their derived codecs.
    - Merkle: tree_hash.rs, gindex.rs, merkle_proof.rs.
    - SszExtra: array.rs, progressive.rs, union.rs.
    - SszTree: sequence.rs, the persistent tree with its hash caches.

    State transition (pharos-types/src/phase0, pharos-stf/src/phase0).
    - Shuffling: the single-index and the batched swap-or-not shuffle.
    - Spec, BeaconState, Invariant, Roots: presets, state, its type invariant
      [wf_state], container roots.
    - Accessors, Mutators: helpers.rs, accessors.rs, predicates.rs, mutators.rs.
    - Justification, Rewards, EpochUpdates: epoch/.
    - Operations: operations/ and block.rs.
    - Transition: slot.rs and [phase0_state_transition] of lib.rs.

    Later forks (pharos-types/src/altair to electra, pharos-stf/src/altair to electra).
    - Forks: the states of Altair to Electra, each a record around the one before,
      with the projections of capella/, deneb/ and electra/helpers.rs and the lens
      lemmas that let an Electra step be read as an Altair or phase 0 step.
      ForkInvariant: the type invariant [electra_ok] and concrete states.
    - Altair: helpers.rs and epoch/ of Altair, with the Deneb rewards; AltairFacts:
      their theory.  AltairOps: attestations and sync aggregates.  AltairBody:
      blocks of Altair and the roots of block and state.
    - Electra: electra/helpers.rs.  Withdrawals, ElectraQueues, PendingDeposits,
      ElectraRequests: withdrawals, deposits, consolidations and exits, as block
      operations, requests and epoch steps.  ElectraEpoch: electra/epoch/mod.rs.
    - ElectraBody: blocks of Electra, their roots, the execution requests list.
      ElectraOps: the remaining operations and electra/block.rs.  ElectraBlock:
      their theory.  ElectraTransition: electra/state_transition.rs.
    - ForkUpgrades: upgrade.rs of Altair to Electra.
    - LightClient: altair/light_client.rs.  LightServer: the theory of its server.

    Node.
    - Pools: pharos-types/src/pools.rs.
    - Slasher: pharos-node/src/slasher/.
    - WeakSubjectivity: pharos-types/src/weak_subjectivity.rs.

    Fork choice (pharos-fork-choice/src).
    - ForkStore: store.rs and get_head.rs.  ForkHead: the theory of get_head.
    - ForkHandlers: handlers.rs.  ForkSafety: handlers as a step relation.
    - Optimistic: optimistic.rs and pow_block.rs over the parent root and payload
      hash of a block, which are all they read, and the VALID verdict of
      pharos-node/src/engine_driver.rs.
    - Genesis: pharos-stf/src/phase0/genesis.rs, with the theorem that connects
      genesis, state transition and fork choice.

    Validator client (pharos-validator/src).
    - Slashing: slashing.rs and the slashable signing paths of signing.rs, run.rs.
    - Interchange: interchange.rs.  Doppelganger: doppelganger.rs.

    Networking (pharos-network/src).
    - Rpc: rpc/varint.rs and the snappy framing of rpc/codec.rs.  RpcTypes: the
      containers of messages.  RpcCodec: rpc/codec.rs, with the fork context of
      host.rs as an interface.
    - ForkSchedule: pharos-types/src/fork.rs and the fork context of
      pharos-node/src/host_impl.rs, which implements that interface.
    - Gossip: topics.rs, codec/snappy_block.rs, gossip/message_id.rs and
      discovery/subnets.rs.

    ForkExamples, ValidatorExamples, NodeExamples and NetworkExamples evaluate the model on
    concrete inputs and hold the witnesses that need a whole store, database, pool or
    node.

    ** What the theorems show

    - SSZ.  Derived structs, lists and bit lists decode exactly the encodings of
      their values, and arbitrary input never aborts.  The tree and flat backends
      of [SszList] refine one bounded list, and the root depends on the elements
      only.  Merkleization with skipped zero subtrees is the padded tree's root;
      built proofs verify; two proofs of different leaves give a collision.
    - State transition.  The type invariant is kept by every epoch and block
      step.  Justification and finality never move back, and justification needs
      a two-thirds balance.  Committees partition the active validators.  Each
      operation has its effect stated branch by branch, and an accepted block is
      signed by its proposer and has the claimed state root.
    - Later forks.  The Electra transition keeps [electra_ok]; an accepted block is
      signed by its proposer, extends the latest block, records every slot's roots
      and has the claimed state root.  Withdrawals, pending deposits,
      consolidations and withdrawal requests are each given exactly: what is paid,
      queued, postponed or dropped, and to whom.  The exits of an epoch never exceed
      its balance churn.  The rewards of Deneb are a closed formula per validator,
      and a participation flag is rewarded once.  The Electra upgrade queues again
      exactly the balances that the new limits ask for, the Altair upgrade
      translates exactly the pending attestations.
    - Light client.  Whatever a client is fed, it holds only committees it was led
      to from the trusted block by signatures of the committees before.  What an
      honest node creates from its own blocks, a client accepts; of the updates of
      a period a node keeps the best.
    - Fork choice.  [get_head] returns the unique head of the greedy
      heaviest-subtree rule.  Over every sequence of handler calls checkpoints,
      votes, equivocations and blocks are only added to; stores reached from an
      anchor stay trees of valid states.  A rejected block changes nothing.  An
      INVALID verdict invalidates exactly the descendants of the block it names,
      and none of them becomes the head.
    - Genesis.  Deposits with valid branches give a state that satisfies the
      invariant; if it meets the trigger it has a proposer, and the fork choice
      started from it is sound under every sequence of handlers.
    - Pools and slasher.  Pooled aggregates stay correctly signed under the BLS
      law stated there; drained operations respect the block limits; the slasher
      reports slashable pairs only and misses none inside its window.
    - Validator client.  No sequence of duties, with commits failing at will,
      releases two slashable messages.  The hypothesis [honest_duties] says that
      the block of a duty is of the duty's slot, which the code does not check,
      that epochs fit an [i64] column, and that no two requests of a key collide
      in their signing roots.
      Export followed by import loses no row.
    - Networking.  Requests and responses are read as they were written, the blocks
      of a response by the forks their chunks are marked with; whatever a peer sends,
      reading ends without an abort, and what is accepted is within the bounds of the
      protocol.  The node recognises the digests it writes.  Topics are parsed from
      exactly their strings.

    Behaviours of the code that differ from its intent or its documentation are
    proved on concrete inputs: [surround_vote_spoils_block],
    [duty_slot_double_proposal], [import_keeps_slashable_votes],
    [on_attestation_aborts_on_index], [late_block_is_timely],
    [valid_verdict_leaves_parent], [progressive_list_ignores_bytes],
    [array_decode_aborts], [array_bytes_len_wrong], [electra_sidecars_rejected],
    [bpo_boundary_unknown], [unscheduled_next_version] and [topic_alias].

    ** Fuel

    - [get_ancestor], [filter_block_tree] and the head loop get one more turn than
      there are blocks; blocks later than their parents make every chain shorter
      ([get_ancestor_correct], [get_head_ghost]).  On a store with a cycle of
      parents, which no sequence of handlers builds, the code would not return.
    - [process_slots] and [on_tick] get the distance to the target slot, and
      every turn advances by one slot ([slots_advance], [on_tick_correct]).
    - [process_slots_electra_with_cfg] likewise ([slots_loop_electra_Ok]).  The
      proposer and sync committee loops of the later forks run up to the number of
      turns after which their counters repeat; the theorems on them are about the
      turns that are made.
    - [integer_squareroot] gets 128 rounds; the distance to the root halves in
      each ([integer_squareroot_correct]).
    - [compute_proposer_index] runs up to the [2^64] turns after which its
      counter repeats; the loop is a binary recursion on that number, so it
      evaluates only the turns it needs ([proposer_selection_returns]).
    - The walks of Optimistic get one more turn than there are blocks, its
      invalidation queue too ([path_length], [bfs_size]).
    - The loops that read frames and chunks get one more turn than there are bytes,
      and every turn takes bytes off the stream ([snappy_loop_fuel],
      [response_loop_fuel]).
    - The tree iterator gets the number of nodes on its stack, Merkle layers the
      number of chunks.

    ** Not modelled

    - Epoch and block processing of Altair to Deneb beyond what Electra calls:
      each repeats the operations of its predecessor on its own state.  Fulu.  The
      light clients of later forks repeat the one of Altair on larger headers.  The
      dispatch over forks, in the slot loop and in lib.rs, is not modelled: the
      transitions are those inside phase 0 and inside Electra, and the upgrades are
      functions of their own.
    - Loop bodies, setters and constants that a definition introduces for a part of a
      function are documented where they are declared.
    - The experimental fast confirmation rule and the read-only rewards API.
    - Libraries the sources only wrap: BLS (blst), KZG (c-kzg), SHA-256.
    - Peer management, scoring (over floating-point numbers) and discovery; the
      validation of gossip in the node.
    - Input and output: libp2p, HTTP API, engine API, storage and migrations,
      key decryption, command lines, metrics, the conformance runner.
    - Asynchronous services of the node (sync, gossip validation, import
      pipeline, block production): the model covers the operations they call. *)

From Stdlib Require Import ZArith Lia.
From stdpp Require Export base numbers list strings gmap.
From coqutil Require Export Byte Word.LittleEndianList.

#[global] Open Scope Z_scope.

(** ** Outcomes of fallible code

    [Result<A, E>] with one more outcome: [Panic] is an abort of the process
    (an index or slice out of range, an [expect] on [Err], [unreachable!]).
    The release profile of the workspace sets [panic = "abort"]. *)
Inductive result (E A : Type) : Type :=
  | Ok (a : A)
  | Err (e : E)
  | Panic.
Arguments Ok {_ _} _.
Arguments Err {_ _} _.
Arguments Panic {_ _}.

#[global] Instance result_ret E : MRet (result E) := fun A a => Ok a.
#[global] Instance result_bind E : MBind (result E) := fun A B f m =>
  match m with
  | Ok a => f a
  | Err e => Err e
  | Panic => Panic
  end.

(** Rust's [?] across error types ([From] conversions). *)
Definition map_err {E F A} (f : E -> F) (m : result E A) : result F A :=
  match m with
  | Ok a => Ok a
  | Err e => Err (f e)
  | Panic => Panic
  end.

(** [Option::ok_or]. *)
Definition ok_or {E A} (o : option A) (e : E) : result E A :=
  match o with Some a => Ok a | None => Err e end.

(** [expect] / [unwrap] on an option. *)
Definition expect {E A} (o : option A) : result E A :=
  match o with Some a => Ok a | None => Panic end.

Definition is_ok {E A} (m : result E A) : bool :=
  match m with Ok _ => true | _ => false end.

Definition ok_value {E A} (d : A) (m : result E A) : A := match m with Ok a => a | _ => d end.

(** [for x in l { acc = f(acc, x)?; }]. *)
Fixpoint foldM {E A B} (f : B -> A -> result E B) (l : list A) (b : B) : result E B :=
  match l with
  | [] => Ok b
  | a :: l => f b a ≫= foldM f l
  end.

(** [loop { ... }] run for at most [p] iterations: [inl] is the state to go on
    with, [inr] a [return].  The fuel is binary, so a bound such as [2^64] costs
    nothing until it is used. *)
Fixpoint loop_upto {S R} (p : positive) (step : S -> S + R) (s : S) : S + R :=
  match p with
  | xH => step s
  | xO q =>
      match loop_upto q step s with
      | inl s => loop_upto q step s
      | inr r => inr r
      end
  | xI q =>
      match step s with
      | inl s =>
          match loop_upto q step s with
          | inl s => loop_upto q step s
          | inr r => inr r
          end
      | inr r => inr r
      end
  end.

(** ** Machine integers

    [u64] and (64-bit targets) [usize] are [Z] in [0, 2^64).  The release
    profile sets [overflow-checks = false]: plain operators wrap. *)
Definition U32 : Z := 2 ^ 32.
Definition U64 : Z := 2 ^ 64.
Definition u64_max : Z := U64 - 1.

Definition u64 (z : Z) : Prop := 0 <= z < U64.
Definition wadd (a b : Z) : Z := (a + b) mod U64.
Definition wsub (a b : Z) : Z := (a - b) mod U64.
Definition wmul (a b : Z) : Z := (a * b) mod U64.
Definition sat_add (a b : Z) : Z := Z.min (a + b) u64_max.
Definition sat_sub (a b : Z) : Z := Z.max (a - b) 0.
Definition sat_mul (a b : Z) : Z := Z.min (a * b) u64_max.
Definition checked_add (a b : Z) : option Z :=
  if a + b <? U64 then Some (a + b) else None.
Definition checked_sub (a b : Z) : option Z :=
  if b <=? a then Some (a - b) else None.
Definition checked_mul (a b : Z) : option Z :=
  if a * b <? U64 then Some (a * b) else None.

(** [as u32]. *)
Definition as_u32 (z : Z) : Z := z mod U32.

(** ** Bytes and slices *)
Abbreviation byte := Init.Byte.byte.
Abbreviation bytes := (list byte).

#[global] Instance byte_eq_dec : EqDecision byte := Byte.byte_eq_dec.
#[global] Program Instance byte_countable : Countable byte :=
  inj_countable Byte.to_N Byte.of_N _.
Next Obligation. intros b. apply Byte.of_to_N. Qed.

(** [slice.len()]. *)
Definition zlen {A} (l : list A) : Z := Z.of_nat (length l).

(** [&l[a..b]]: aborts unless [a <= b <= l.len()]. *)
Definition slice {E A} (l : list A) (a b : Z) : result E (list A) :=
  if (0 <=? a) && (a <=? b) && (b <=? zlen l)
  then Ok (take (Z.to_nat (b - a)) (drop (Z.to_nat a) l))
  else Panic.

(** [l[i]]: aborts when out of range. *)
Definition index {E A} (l : list A) (i : Z) : result E A :=
  if (0 <=? i) && (i <? zlen l) then expect (l !! Z.to_nat i) else Panic.

(** [to_le_bytes] of an [n]-byte integer and [from_le_bytes]. *)
Definition to_le_bytes (n : nat) (z : Z) : bytes := le_split n z.
Definition from_le_bytes (bs : bytes) : Z := le_combine bs.

(** [v[i] += x] on a vector of [u64]: aborts when out of range. *)
Definition vec_add {E} (l : list Z) (i x : Z) : result E (list Z) :=
  old ← index l i; Ok (<[Z.to_nat i := wadd old x]> l).

(** [a / b] with a divisor that is not a constant: aborts on zero. *)
Definition rdiv {E} (a b : Z) : result E Z := if b =? 0 then Panic else Ok (a / b).

(** ** Generic lemmas *)
Section result_facts.
  Context {E : Type}.

Lemma bind_Ok_inv {A B} (f : A -> result E B) m b :
  m ≫= f = Ok b -> exists a, m = Ok a /\ f a = Ok b.
Proof. destruct m; cbn; naive_solver. Qed.

Lemma Ok_value_unique {A} (r : result E A) (x y : A) : r = Ok x -> r = Ok y -> x = y.
Proof. congruence. Qed.

Lemma ok_value_Ok {A} (d : A) (m : result E A) : is_ok m = true -> m = Ok (ok_value d m).
Proof. by destruct m. Qed.

Lemma bind_no_panic {A B} (f : A -> result E B) m :
  m <> Panic -> (forall a, m = Ok a -> f a <> Panic) -> m ≫= f <> Panic.
Proof. destruct m; cbn; naive_solver. Qed.

Lemma map_err_no_panic {A F} (g : E -> F) (m : result E A) : m <> Panic -> map_err g m <> Panic.
Proof. destruct m; cbn; naive_solver. Qed.

Lemma ok_or_no_panic {A} (o : option A) (e : E) : ok_or o e <> Panic.
Proof. by destruct o. Qed.

Lemma ok_or_Ok {A} (o : option A) (e : E) a : ok_or o e = Ok a <-> o = Some a.
Proof. destruct o; cbn; naive_solver. Qed.

Lemma mapM_Ok_Forall2 {A B} (f : A -> result E B) (l : list A) (k : list B) :
  mapM f l = Ok k <-> Forall2 (fun a b => f a = Ok b) l k.
Proof.
  split.
  - revert k; induction l as [|a l IH]; intros k; cbn.
    + intros [= <-]; constructor.
    + intros (b & Hb & (k' & Hk & [= <-])%bind_Ok_inv)%bind_Ok_inv. auto.
  - induction 1 as [|a b l k Hab _ IH]; [done|]. cbn. rewrite Hab. cbn.
    by rewrite IH.
Qed.

Lemma mapM_no_panic {A B} (f : A -> result E B) (l : list A) :
  (forall a, a ∈ l -> f a <> Panic) -> mapM f l <> Panic.
Proof.
  induction l as [|a l IH]; cbn; [done|]. intros H.
  apply bind_no_panic; [apply H, list_elem_of_here|]. intros b _.
  apply bind_no_panic; [|done]. apply IH. intros; apply H.
  by apply list_elem_of_further.
Qed.

Lemma foldM_app {A B} (f : B -> A -> result E B) l k b :
  foldM f (l ++ k) b = foldM f l b ≫= foldM f k.
Proof.
  revert b; induction l as [|a l IH]; intros b; cbn; [done|].
  destruct (f b a); cbn; auto.
Qed.

(** Loop invariants: one for loops that finish, one for loops that cannot
    fail. *)
Lemma foldM_inv {A B} (f : B -> A -> result E B) (I : B -> Prop) l b b' :
  (forall a b b', a ∈ l -> I b -> f b a = Ok b' -> I b') ->
  I b -> foldM f l b = Ok b' -> I b'.
Proof.
  revert b; induction l as [|a l IH]; intros b Hf Hb; cbn; [by intros [= <-]|].
  intros (b1 & H1 & H2)%bind_Ok_inv. eapply IH; [|by eapply Hf, H1; [left|]|done].
  intros; eapply Hf; [by right|done..].
Qed.

Lemma foldM_ok {A B} (f : B -> A -> result E B) (I : B -> Prop) l b :
  (forall a b, a ∈ l -> I b -> exists b', f b a = Ok b' /\ I b') ->
  I b -> exists b', foldM f l b = Ok b' /\ I b'.
Proof.
  revert b; induction l as [|a l IH]; intros b Hf Hb; cbn; [by exists b|].
  destruct (Hf a b) as (b1 & -> & H1); [left|done|]. cbn.
  apply IH; [|done]. intros; apply Hf; [by right|done].
Qed.

Lemma NoDup_to_nat (l : list Z) : NoDup l -> (forall i, i ∈ l -> 0 <= i) -> NoDup (Z.to_nat <$> l).
Proof.
  intros Hl Hp. apply NoDup_fmap_2_strong; [|done]. intros x y Hx Hy.
  pose proof (Hp x Hx). pose proof (Hp y Hy). lia.
Qed.

(** A loop that visits distinct positions and at each writes that position
    only: the result is known pointwise. *)
Lemma foldM_pointwise {A B X} (f : B -> A -> result E B) (key : A -> nat) (look : B -> nat -> option X)
    (I : B -> Prop) (g : A -> X -> X) l b :
  (forall b a x, I b -> a ∈ l -> look b (key a) = Some x ->
     exists b', f b a = Ok b' /\ I b' /\ look b' (key a) = Some (g a x) /\
       forall j, j <> key a -> look b' j = look b j) ->
  NoDup (key <$> l) -> I b -> (forall a, a ∈ l -> is_Some (look b (key a))) ->
  exists b', foldM f l b = Ok b' /\ I b' /\
    (forall a, a ∈ l -> look b' (key a) = g a <$> look b (key a)) /\
    (forall k, k ∉ key <$> l -> look b' k = look b k).
Proof.
  revert b. induction l as [|a l IH]; intros b Hf Hnd HI Hl.
  { exists b. split_and!; [done..|intros a Ha; by apply not_elem_of_nil in Ha|done]. }
  cbn [fmap list_fmap] in Hnd. apply NoDup_cons in Hnd as [Hni Hnd].
  destruct (Hl a) as [x Hx]; [left|].
  destruct (Hf b a x HI) as (b1 & H1 & HI1 & Ha1 & Ho1); [left|done|].
  assert (forall c, c ∈ l -> key c <> key a) as Hne.
  { intros c Hc Heq. apply Hni. rewrite <-Heq. by apply list_elem_of_fmap_2. }
  destruct (IH b1) as (b' & Hb' & HI' & Hin & Hout); [|done|done| |].
  { intros ? c; intros. apply Hf; [done|by right|done]. }
  { intros c Hc. rewrite Ho1 by auto. apply Hl. by right. }
  exists b'. cbn [foldM]. rewrite H1. split_and!; [done..| |].
  - intros c [->|Hc]%elem_of_cons.
    + by rewrite Hout, Ha1, Hx.
    + rewrite Hin by done. by rewrite Ho1 by auto.
  - intros k [Hk1 Hk2]%not_elem_of_cons. by rewrite Hout, Ho1.
Qed.

Lemma foldM_no_panic {A B} (f : B -> A -> result E B) (I : B -> Prop) l b :
  (forall a b, a ∈ l -> I b -> f b a <> Panic) ->
  (forall a b b', a ∈ l -> I b -> f b a = Ok b' -> I b') ->
  I b -> foldM f l b <> Panic.
Proof.
  revert b; induction l as [|a l IH]; intros b Hp Hf Hb; cbn; [done|].
  apply bind_no_panic; [by apply Hp; [left|]|]. intros b1 H1.
  apply IH; [| |by eapply Hf, H1; [left|]].
  - intros; apply Hp; [by right|done].
  - intros; eapply Hf; [by right|done..].
Qed.
End result_facts.

(** ** Bounded loops: binary and unary fuel agree *)
Section loops.
  Context {S R : Type} (step : S -> S + R).

Fixpoint loop_nat (n : nat) (s : S) : S + R :=
  match n with
  | O => inl s
  | Datatypes.S n =>
      match step s with
      | inl s => loop_nat n s
      | inr r => inr r
      end
  end.

Lemma loop_nat_add n m s :
  loop_nat (n + m) s
  = match loop_nat n s with inl s => loop_nat m s | inr r => inr r end.
Proof. revert s; induction n; intros s; cbn; [done|]. by destruct (step s). Qed.

Lemma loop_upto_nat p s : loop_upto p step s = loop_nat (Pos.to_nat p) s.
Proof.
  revert s; induction p as [p IH|p IH|]; intros s; cbn [loop_upto].
  - rewrite Pos2Nat.inj_xI. cbn [loop_nat]. destruct (step s) as [s'|r]; [|done].
    replace (2 * Pos.to_nat p)%nat with (Pos.to_nat p + Pos.to_nat p)%nat by lia.
    rewrite loop_nat_add, IH. destruct (loop_nat _ _); auto.
  - rewrite Pos2Nat.inj_xO.
    replace (2 * Pos.to_nat p)%nat with (Pos.to_nat p + Pos.to_nat p)%nat by lia.
    rewrite loop_nat_add, IH. destruct (loop_nat _ _); auto.
  - change (Pos.to_nat 1) with 1%nat. cbn. by destruct (step s).
Qed.
End loops.

(** ** Automation *)
Create HintDb pharos.

Ltac case_bool H :=
  match goal with
  | |- context [if ?b then _ else _] => destruct b eqn:H
  end.

(** Break one [Ok]-valued monadic computation in the context. *)
Ltac inv_ok :=
  repeat match goal with
  | H : Ok _ = Ok _ |- _ => injection H as H
  | H : Err _ = Ok _ |- _ => discriminate H
  | H : Panic = Ok _ |- _ => discriminate H
  | H : mret _ = Ok _ |- _ => unfold mret, result_ret in H
  | H : (_ ≫= _) = Ok _ |- _ =>
      let a := fresh "a" in let Ha := fresh "E" in
      apply bind_Ok_inv in H as (a & Ha & H)
  | H : (if ?b then _ else _) = Ok _ |- _ => destruct b eqn:?; [try discriminate H | try discriminate H]
  end.

(** Boolean comparisons to propositions, then linear arithmetic. *)
Ltac zbool :=
  repeat match goal with
  | H : (_ && _)%bool = true |- _ => apply andb_prop in H as [? ?]
  | H : (_ || _)%bool = false |- _ => apply orb_false_elim in H as [? ?]
  | H : negb _ = true |- _ => apply negb_true_iff in H
  | H : negb _ = false |- _ => apply negb_false_iff in H
  | H : (_ <? _) = true |- _ => apply Z.ltb_lt in H
  | H : (_ <? _) = false |- _ => apply Z.ltb_ge in H
  | H : (_ <=? _) = true |- _ => apply Z.leb_le in H
  | H : (_ <=? _) = false |- _ => apply Z.leb_gt in H
  | H : (_ =? _) = true |- _ => apply Z.eqb_eq in H
  | H : (_ =? _) = false |- _ => apply Z.eqb_neq in H
  end.

(** ** Lists measured in [Z] and slices *)
Section slices.
  Context {A : Type}.
  Implicit Types l k : list A.

Lemma zlen_nil : zlen (@nil A) = 0.
Proof. done. Qed.
Lemma zlen_cons x l : zlen (x :: l) = 1 + zlen l.
Proof. unfold zlen; cbn [length]; lia. Qed.
Lemma zlen_app l k : zlen (l ++ k) = zlen l + zlen k.
Proof. unfold zlen; rewrite length_app; lia. Qed.
Lemma zlen_nonneg l : 0 <= zlen l.
Proof. unfold zlen; lia. Qed.
Lemma zlen_0_nil l : zlen l = 0 -> l = [].
Proof. destruct l; [done|]. rewrite zlen_cons. pose proof (zlen_nonneg l). lia. Qed.
Lemma zlen_take n l : 0 <= n <= zlen l -> zlen (take (Z.to_nat n) l) = n.
Proof. unfold zlen; rewrite length_take; lia. Qed.
Lemma zlen_drop n l : 0 <= n <= zlen l -> zlen (drop (Z.to_nat n) l) = zlen l - n.
Proof. unfold zlen; rewrite length_drop; lia. Qed.
Lemma zlen_insert i x l : zlen (<[i:=x]> l) = zlen l.
Proof. unfold zlen; by rewrite length_insert. Qed.
Lemma zlen_replicate n (x : A) : zlen (replicate n x) = Z.of_nat n.
Proof. unfold zlen; by rewrite length_replicate. Qed.
Lemma zlen_fmap {B} (f : A -> B) l : zlen (f <$> l) = zlen l.
Proof. unfold zlen; by rewrite length_fmap. Qed.

Lemma slice_Ok_iff {E} l a b s :
  slice (E:=E) l a b = Ok s <->
  0 <= a <= b /\ b <= zlen l /\ s = take (Z.to_nat (b - a)) (drop (Z.to_nat a) l).
Proof.
  unfold slice. destruct (_ && _) eqn:H.
  - rewrite !andb_true_iff, !Z.leb_le in H.
    split; [intros [= <-]; split_and!; lia || done|by intros (_ & _ & ->)].
  - rewrite !andb_false_iff, !Z.leb_gt in H. split; [done|]. lia.
Qed.

Lemma slice_in_range {E} l a b :
  0 <= a <= b -> b <= zlen l ->
  slice (E:=E) l a b = Ok (take (Z.to_nat (b - a)) (drop (Z.to_nat a) l)).
Proof. intros; by apply slice_Ok_iff. Qed.

Lemma slice_no_panic {E} l a b :
  0 <= a <= b -> b <= zlen l -> slice (E:=E) l a b <> Panic.
Proof. intros; by rewrite slice_in_range. Qed.

Lemma slice_not_Err {E} l a b (e : E) : slice l a b <> Err e.
Proof. unfold slice. by case_match. Qed.

Lemma slice_zlen {E} l a b s : slice (E:=E) l a b = Ok s -> zlen s = b - a.
Proof.
  intros (? & ? & ->)%slice_Ok_iff. unfold zlen in *.
  rewrite length_take, length_drop. lia.
Qed.

Lemma slice_middle {E} (p s q : list A) a b :
  a = zlen p -> b = zlen p + zlen s -> slice (E:=E) (p ++ s ++ q) a b = Ok s.
Proof.
  intros -> ->. apply slice_Ok_iff. rewrite !zlen_app. pose proof (zlen_nonneg p).
  pose proof (zlen_nonneg s). pose proof (zlen_nonneg q).
  split_and!; [lia..|]. unfold zlen.
  rewrite Nat2Z.id, drop_app_length.
  replace (Z.to_nat _) with (length s) by lia. by rewrite take_app_length.
Qed.

Lemma index_Ok_iff {E} l i x :
  index (E:=E) l i = Ok x <-> 0 <= i /\ l !! Z.to_nat i = Some x.
Proof.
  unfold index, zlen. split.
  - destruct (_ && _) eqn:H; [|done]. zbool.
    destruct (l !! _) eqn:Hl; cbn; naive_solver.
  - intros [? Hl]. pose proof (lookup_lt_Some _ _ _ Hl).
    destruct (_ && _) eqn:Hb; [by rewrite Hl|].
    rewrite andb_false_iff, Z.leb_gt, Z.ltb_ge in Hb. lia.
Qed.

Lemma index_no_panic {E} l i : 0 <= i < zlen l -> index (E:=E) l i <> Panic.
Proof.
  intros Hi. destruct (lookup_lt_is_Some_2 l (Z.to_nat i)) as [x Hx].
  { unfold zlen in Hi. lia. }
  assert (index (E:=E) l i = Ok x) as -> by (apply index_Ok_iff; split; [lia|done]).
  done.
Qed.
End slices.

(** ** Little-endian integers *)
Lemma length_to_le_bytes n z : length (to_le_bytes n z) = n.
Proof. apply length_le_split. Qed.
Lemma zlen_to_le_bytes n z : zlen (to_le_bytes n z) = Z.of_nat n.
Proof. unfold zlen. by rewrite length_to_le_bytes. Qed.
Lemma from_to_le_bytes n z :
  0 <= z < 2 ^ (8 * Z.of_nat n) -> from_le_bytes (to_le_bytes n z) = z.
Proof.
  intros. unfold from_le_bytes, to_le_bytes. rewrite le_combine_split.
  apply Z.mod_small. by rewrite (Z.mul_comm _ 8).
Qed.
Lemma to_from_le_bytes n bs :
  length bs = n -> to_le_bytes n (from_le_bytes bs) = bs.
Proof. intros. by apply split_le_combine'. Qed.
Lemma from_le_bytes_bound bs :
  0 <= from_le_bytes bs < 2 ^ (8 * zlen bs).
Proof. apply le_combine_bound. Qed.
Lemma lor_high a b k : 0 <= k -> 0 <= a < 2 ^ k -> 0 <= b -> Z.lor a (Z.shiftl b k) = a + b * 2 ^ k.
Proof.
  intros Hk Ha Hb. rewrite Z.shiftl_mul_pow2 by lia. pose proof (Z.add_lor_land a (b * 2 ^ k)) as Hadd.
  assert (Z.land a (b * 2 ^ k) = 0) as Hland; [|lia].
  apply Z.bits_inj'. intros i Hi. rewrite Z.land_spec, Z.bits_0.
  destruct (Z.lt_ge_cases i k); [rewrite Z.mul_pow2_bits_low by lia; apply andb_false_r|].
  assert (Z.testbit a i = false) as ->; [|done]. apply Z.testbit_false; [done|]. rewrite Z.div_small; [done|]. split; [lia|].
  eapply Z.lt_le_trans; [apply Ha|apply Z.pow_le_mono_r; lia].
Qed.
Lemma from_le_bytes_app (a b : bytes) : from_le_bytes (a ++ b)%list = from_le_bytes a + 2 ^ (8 * zlen a) * from_le_bytes b.
Proof.
  unfold from_le_bytes. rewrite le_combine_app. pose proof (from_le_bytes_bound a) as Ha. pose proof (from_le_bytes_bound b) as Hb.
  unfold from_le_bytes, zlen in *. rewrite (Z.mul_comm (Z.of_nat _) 8), lor_high by (done || lia). lia.
Qed.

(** ** Lists in blocks of one length *)
Lemma concat_blocks_length {A} (ll : list (list A)) n : Forall (fun l => length l = n) ll -> length (concat ll) = (length ll * n)%nat.
Proof. induction 1 as [|l ll Hl _ IH]; [done|]. cbn. rewrite length_app. lia. Qed.
Lemma concat_blocks_lookup {A} (ll : list (list A)) n i j l :
  Forall (fun l => length l = n) ll -> ll !! i = Some l -> (j < n)%nat -> concat ll !! (i * n + j)%nat = l !! j.
Proof.
  intros Hll. revert i. induction Hll as [|l0 ll Hl0 _ IH]; intros i Hi Hj; [done|]. destruct i as [|i]; cbn in *.
  - injection Hi as ->. by rewrite lookup_app_l by lia.
  - rewrite lookup_app_r by lia. rewrite <- (IH i) by done. f_equal. lia.
Qed.

(** ** Equally sized chunks *)
Fixpoint chunks {A} (n count : nat) (l : list A) : list (list A) :=
  match count with
  | O => []
  | S c => take n l :: chunks n c (drop n l)
  end.

Lemma concat_chunks {A} n count (l : list A) :
  concat (chunks n count l) = take (count * n) l.
Proof.
  revert l; induction count as [|c IH]; intros l; cbn; [done|].
  rewrite IH.
  by rewrite take_take_drop.
Qed.

Lemma concat_fmap {A B} (f : A -> B) (ls : list (list A)) :
  fmap (M:=list) f (concat ls) = concat (fmap (M:=list) (fmap (M:=list) f) ls).
Proof. induction ls; cbn; [done|]. by rewrite fmap_app, IHls. Qed.

Lemma length_chunks {A} n count (l : list A) : length (chunks n count l) = count.
Proof. revert l; induction count; cbn; auto. Qed.

Lemma Forall_chunks {A} n count (l : list A) :
  (count * n <= length l)%nat -> Forall (fun c => length c = n) (chunks n count l).
Proof.
  revert l; induction count as [|c IH]; intros l Hl; cbn; constructor.
  - rewrite length_take; lia.
  - apply IH. rewrite length_drop; lia.
Qed.

Lemma chunks_concat {A} n (xs : list (list A)) rest :
  Forall (fun c => length c = n) xs ->
  chunks n (length xs) (concat xs ++ rest) = xs.
Proof.
  induction 1 as [|x xs Hx _ IH]; cbn; [done|].
  subst n. by rewrite <-app_assoc, take_app_length, drop_app_length, IH.
Qed.

(** A loop [for i in 0..count] over the slices [l[i*n .. i*n+n]] visits the
    chunks of [l] in order. *)
Lemma mapM_slices {E A B} (f : list A -> result E B) n count l :
  0 < n -> 0 <= count -> count * n <= zlen l ->
  mapM (fun i => slice l (i * n) (i * n + n) ≫= f) (seqZ 0 count)
  = mapM f (chunks (Z.to_nat n) (Z.to_nat count) l).
Proof.
  intros Hn Hc Hl.
  assert (forall c k, Z.of_nat c * n + k * n <= zlen l -> 0 <= k ->
    mapM (fun i => slice l (i * n) (i * n + n) ≫= f) (seqZ k (Z.of_nat c))
    = mapM f (chunks (Z.to_nat n) c (drop (Z.to_nat (k * n)) l))) as Hgen.
  { induction c as [|c IH]; intros k Hk Hk0; [done|].
    rewrite seqZ_cons by lia. cbn [mapM chunks].
    rewrite slice_in_range by nia. cbn [mbind result_bind].
    replace (k * n + n - k * n) with n by lia.
    replace (Z.pred (Z.of_nat (S c))) with (Z.of_nat c) by lia.
    rewrite IH by lia.
    rewrite drop_drop. replace (Z.to_nat (k * n) + Z.to_nat n)%nat
      with (Z.to_nat (Z.succ k * n)) by nia. done. }
  specialize (Hgen (Z.to_nat count) 0).
  rewrite Z2Nat.id in Hgen by lia. rewrite Hgen by lia.
  by rewrite Z.mul_0_l, drop_0.
Qed.

(** ** Wrap-around arithmetic *)
Lemma wadd_small a b : 0 <= a + b < U64 -> wadd a b = a + b.
Proof. apply Z.mod_small. Qed.
Lemma wsub_small a b : 0 <= a - b < U64 -> wsub a b = a - b.
Proof. apply Z.mod_small. Qed.
Lemma wmul_small a b : 0 <= a * b < U64 -> wmul a b = a * b.
Proof. apply Z.mod_small. Qed.
Lemma checked_add_Some a b c : checked_add a b = Some c <-> c = a + b /\ a + b < U64.
Proof. unfold checked_add. destruct (Z.ltb_spec (a + b) U64); split; [by intros [= <-]|by intros [-> ?]|done|lia]. Qed.
Lemma wadd_u64 a b : u64 (wadd a b).
Proof. apply Z.mod_pos_bound. reflexivity. Qed.
Lemma wsub_u64 a b : u64 (wsub a b).
Proof. apply Z.mod_pos_bound. reflexivity. Qed.
Lemma wmul_u64 a b : u64 (wmul a b).
Proof. apply Z.mod_pos_bound. reflexivity. Qed.
#[export] Hint Resolve wadd_u64 wsub_u64 wmul_u64 zlen_nonneg : pharos.

(** ** Sums *)
Definition zsum (l : list Z) : Z := foldr Z.add 0 l.

Lemma zsum_nil : zsum [] = 0.
Proof. done. Qed.
Lemma zsum_cons x l : zsum (x :: l) = x + zsum l.
Proof. done. Qed.
Lemma zsum_app l k : zsum (l ++ k) = zsum l + zsum k.
Proof. induction l as [|x l IH]; cbn; [done|]. fold (zsum (l ++ k)). fold (zsum l). lia. Qed.
Lemma zsum_nonneg l : Forall (Z.le 0) l -> 0 <= zsum l.
Proof. unfold zsum. induction 1; cbn [foldr]; lia. Qed.
Lemma zsum_insert l i x y : l !! i = Some x -> zsum (<[i := y]> l) = zsum l - x + y.
Proof.
  revert i. induction l as [|z l IH]; intros [|i] Hi; [done..| |]; cbn in Hi.
  - injection Hi as ->. change (zsum (y :: l) = zsum (x :: l) - x + y). rewrite !zsum_cons. lia.
  - change (zsum (z :: <[i:=y]> l) = zsum (z :: l) - x + y). rewrite !zsum_cons, (IH i) by done. lia.
Qed.
Lemma zsum_lookup_le l i x : Forall (Z.le 0) l -> l !! i = Some x -> x <= zsum l.
Proof.
  intros Hl Hi. pose proof (zsum_insert l i x 0 Hi) as Hs.
  assert (0 <= zsum (<[i:=0]> l)); [|lia]. apply zsum_nonneg, Forall_insert; [done|lia].
Qed.
Lemma zsum_filtered_le {A} (f : A -> Z) (P : A -> Prop) `{forall x, Decision (P x)} l :
  Forall (fun x => 0 <= f x) l -> 0 <= zsum (f <$> filter P l) <= zsum (f <$> l).
Proof.
  induction 1 as [|x l Hx _ IH]; [by unfold zsum; cbn|]. rewrite filter_cons, fmap_cons, zsum_cons.
  case_decide; rewrite ?fmap_cons, ?zsum_cons; lia.
Qed.
