(* ===== verification/Text.v ===== *)
(** * Numbers and bytes as text

    [u64::to_string] and [str::parse::<u64>] of the standard library, the [hex]
    crate as an interface, and [FixedBytes<N>] printing and parsing of
    crates/pharos-utils/src/bytes.rs. *)

From Stdlib Require Import ZArith Lia Ascii String.
From stdpp Require Import strings pretty.
From S2P Require Import Prelude.

(** ** Decimal numbers *)
Inductive ParseIntError : Type := Empty | InvalidDigit | PosOverflow.

Definition u64_to_string (z : Z) : string := pretty (Z.to_N z).

Definition digit_value (c : ascii) : option Z :=
  let n := Z.of_N (N_of_ascii c) in
  if (48 <=? n) && (n <=? 57) then Some (n - 48) else None.

Fixpoint parse_digits (acc : Z) (s : string) : result ParseIntError Z :=
  match s with
  | EmptyString => Ok acc
  | String c s =>
      match digit_value c with
      | None => Err InvalidDigit
      | Some d =>
          match checked_mul acc 10 with
          | None => Err PosOverflow
          | Some m => match checked_add m d with
                      | None => Err PosOverflow
                      | Some acc => parse_digits acc s
                      end
          end
      end
  end.

(** [str::parse::<u64>]: a leading [+] is skipped, unless it is all there is. *)
Definition parse_u64 (s : string) : result ParseIntError Z :=
  match s with
  | EmptyString => Err Empty
  | String c rest =>
      if (c =? "+")%char || (c =? "-")%char then
        match rest with
        | EmptyString => Err InvalidDigit
        | _ => if (c =? "+")%char then parse_digits 0 rest else parse_digits 0 s
        end
      else parse_digits 0 s
  end.

Section decimal.

Lemma pretty_char_value (d : N) : (d < 10)%N -> digit_value (pretty_N_char d) = Some (Z.of_N d).
Proof.
  intros Hd. destruct d as [|p]; [done|].
  do 4 (destruct p as [p|p|]; try done; try lia).
Qed.

Lemma parse_digit_step acc d s :
  0 <= acc -> 0 <= d < 10 -> acc * 10 + d < U64 ->
  parse_digits acc (String (pretty_N_char (Z.to_N d)) s) = parse_digits (acc * 10 + d) s.
Proof.
  intros Ha Hd Hlt. cbn [parse_digits]. rewrite pretty_char_value by lia.
  unfold checked_mul, checked_add. rewrite Z2N.id by lia.
  rewrite (proj2 (Z.ltb_lt (acc * 10) U64)), (proj2 (Z.ltb_lt (acc * 10 + d) U64)) by lia. done.
Qed.

(** Reading back the digits of [x] in front of [s]. *)
Lemma parse_pretty_go (x : N) s :
  Z.of_N x < U64 -> parse_digits 0 (pretty_N_go x s) = parse_digits (Z.of_N x) s.
Proof.
  revert s. induction x as [x IH] using (well_founded_induction N.lt_wf_0); intros s Hx.
  destruct (decide (x = 0)%N) as [->|Hne]; [by rewrite pretty_N_go_0|].
  assert (x / 10 < x)%N by (apply N.div_lt; lia).
  rewrite pretty_N_go_step by lia. rewrite IH by (done || lia).
  pose proof (N.div_mod x 10 ltac:(done)) as Hdm. pose proof (N.mod_lt x 10 ltac:(done)).
  set (d := (x mod 10)%N) in *. set (q := (x / 10)%N) in *. rewrite <-(N2Z.id d).
  rewrite parse_digit_step by lia. f_equal. lia.
Qed.

Lemma pretty_go_first (x : N) s c r : (0 < x)%N -> pretty_N_go x s = String c r -> is_Some (digit_value c).
Proof.
  revert s. induction x as [x IH] using (well_founded_induction N.lt_wf_0); intros s Hx.
  assert (x / 10 < x)%N by (apply N.div_lt; lia). rewrite pretty_N_go_step by done.
  destruct (decide (x / 10 = 0)%N) as [->|Hne].
  - rewrite pretty_N_go_0. intros [= <- _]. rewrite pretty_char_value by (apply N.mod_lt; lia). by eexists.
  - apply IH; [done|by apply N.neq_0_lt_0].
Qed.

(** Decimal text round trip. *)
Lemma parse_u64_to_string z : u64 z -> parse_u64 (u64_to_string z) = Ok z.
Proof.
  intros [Hz Hlt]. unfold u64_to_string. destruct (decide (z = 0)) as [->|Hne]; [done|].
  set (x := Z.to_N z). assert (0 < x)%N as Hx by lia.
  assert (pretty x = pretty_N_go x EmptyString) as Hp by (unfold pretty, pretty_N; by rewrite decide_False by lia).
  pose proof (parse_pretty_go x EmptyString) as Hgo. rewrite Hp. unfold parse_u64.
  destruct (pretty_N_go x EmptyString) as [|c r] eqn:E.
  { specialize (Hgo ltac:(lia)). cbn in Hgo. injection Hgo as Hgo. lia. }
  destruct (pretty_go_first x EmptyString c r Hx E) as [d Hd].
  destruct (Ascii.eqb_spec c "+") as [->|]; [done|]. destruct (Ascii.eqb_spec c "-") as [->|]; [done|]. cbn [orb].
  rewrite Hgo by lia. cbn. f_equal. lia.
Qed.
End decimal.

(** ** The hex crate *)
Class Hex : Type := {
  hex_encode : bytes -> string;
  hex_decode : string -> option bytes;
}.

(** What the code relies on: decoding undoes encoding. *)
Class HexOk (X : Hex) : Prop := {
  hex_decode_encode : forall b, hex_decode (hex_encode b) = Some b;
}.

(** [s.strip_prefix("0x").unwrap_or(s)]. *)
Definition strip_0x (s : string) : string :=
  match s with
  | String "0" (String "x" rest) => rest
  | _ => s
  end.

Inductive FixedBytesParseError : Type := HexDecode | WrongLength (n found : Z).

Section fixed_bytes.
  Context `{X : Hex}.

(** [format!("0x{}", hex::encode(..))], the [Display] of [FixedBytes]. *)
Definition to_hex (b : bytes) : string := String "0" (String "x" (hex_encode b)).

Definition fixed_bytes_from_str (n : Z) (s : string) : result FixedBytesParseError bytes :=
  bs ← ok_or (hex_decode (strip_0x s)) HexDecode;
  if negb (zlen bs =? n) then Err (WrongLength n (zlen bs)) else Ok bs.

Context `{!HexOk X}.

Lemma to_hex_inj b1 b2 : to_hex b1 = to_hex b2 -> b1 = b2.
Proof using HexOk0.
  unfold to_hex. intros [= Heq]. pose proof (hex_decode_encode b1) as H1. pose proof (hex_decode_encode b2) as H2.
  rewrite Heq in H1. congruence.
Qed.

(** Printing and parsing fixed-length bytes is the identity. *)
Lemma fixed_bytes_roundtrip b : fixed_bytes_from_str (zlen b) (to_hex b) = Ok b.
Proof using HexOk0.
  unfold fixed_bytes_from_str, to_hex. cbn [strip_0x]. rewrite hex_decode_encode. cbn. by rewrite Z.eqb_refl.
Qed.
End fixed_bytes.
