(* ===== verification/SszCodec.v ===== *)
(** * SSZ codecs: primitives, lists and vectors

    Models [crates/pharos-ssz/src/{encode,decode,error}.rs] (traits and
    primitive implementations) and the wire format of [SszList] and
    [SszVector] in [sequence.rs].  A [codec] is the dictionary of the [Encode]
    and [Decode] traits of one type; [CodecOk] is the contract that every
    client of the traits relies on, and each implementation discharges it. *)

From Stdlib Require Import ZArith Lia.
From S2P Require Import Prelude.

(** [SszError]. *)
Inductive SszError : Type :=
  | InvalidByteLength (found expected : Z)
  | InvalidBoolByte (b : byte)
  | OffsetOutOfRange (offset max : Z)
  | OffsetsNotMonotonic
  | OffsetIntoFixedRegion
  | ExtraBytes (extra : Z)
  | IncompleteData (needed found : Z)
  | ListLimitExceeded (len limit : Z)
  | VectorLengthMismatch (found expected : Z)
  | BitlistMissingLengthBit
  | BitlistOverflow (limit : Z)
  | InvalidBitvector
  | IncompleteDecode (remaining : Z)
  | Custom (msg : string).

Definition BYTES_PER_LENGTH_OFFSET : Z := 4.

(** The [Encode] and [Decode] traits of a type.  [IS_FIXED_SIZE] and
    [ssz_fixed_len] are declared by both traits, with the same value in every
    implementation. *)
Record codec (T : Type) : Type := Codec {
  IS_FIXED_SIZE : bool;
  ssz_fixed_len : Z;
  ssz_bytes_len : T -> Z;
  ssz_append : T -> bytes -> bytes;
  from_ssz_bytes : bytes -> result SszError T;
}.
Arguments Codec {_} _ _ _ _ _.
Arguments IS_FIXED_SIZE {_} _.
Arguments ssz_fixed_len {_} _.
Arguments ssz_bytes_len {_} _ _.
Arguments ssz_append {_} _ _ _.
Arguments from_ssz_bytes {_} _ _.

(** [Encode::as_ssz_bytes]. *)
Definition as_ssz_bytes {T} (c : codec T) (v : T) : bytes := ssz_append c v [].

(** ** Primitive types *)

Definition bool_ssz_append (v : bool) (buf : bytes) : bytes :=
  buf ++ [if v then Byte.x01 else Byte.x00].

Definition bool_from_ssz_bytes (bs : bytes) : result SszError bool :=
  match bs with
  | [Byte.x00] => Ok false
  | [Byte.x01] => Ok true
  | [b] => Err (InvalidBoolByte b)
  | _ => Err (InvalidByteLength (zlen bs) 1)
  end.

Definition bool_codec : codec bool :=
  Codec true 1 (fun _ => 1) bool_ssz_append bool_from_ssz_bytes.

(** [u8], [u16], [u32], [u64], [u128] ([impl_encode_uint!],
    [impl_decode_uint!]) and [Uint256]: [n] little-endian bytes. *)
Definition uint_ssz_append (n : nat) (v : Z) (buf : bytes) : bytes :=
  buf ++ to_le_bytes n v.

Definition uint_from_ssz_bytes (n : nat) (bs : bytes) : result SszError Z :=
  if negb (zlen bs =? Z.of_nat n)
  then Err (InvalidByteLength (zlen bs) (Z.of_nat n))
  else Ok (from_le_bytes bs).

Definition uint_codec (n : nat) : codec Z :=
  Codec true (Z.of_nat n) (fun _ => Z.of_nat n)
    (uint_ssz_append n) (uint_from_ssz_bytes n).

(** [FixedBytes<N>] ([Hash256], [BLSPubkey], ...): its bytes. *)
Definition fixed_bytes_from_ssz_bytes (n : nat) (bs : bytes) : result SszError bytes :=
  if negb (zlen bs =? Z.of_nat n)
  then Err (InvalidByteLength (zlen bs) (Z.of_nat n))
  else Ok bs.

Definition fixed_bytes_codec (n : nat) : codec bytes :=
  Codec true (Z.of_nat n) (fun _ => Z.of_nat n)
    (fun v buf => buf ++ v) (fixed_bytes_from_ssz_bytes n).

(** ** Sequences of elements *)
Section sequence_codec.
  Context {T : Type} (c : codec T).

Definition variable_elems_ssz_bytes_len (elems : list T) : Z :=
  let offsets_len := wmul (zlen elems) BYTES_PER_LENGTH_OFFSET in
  let data_len := foldl (fun acc e => wadd acc (ssz_bytes_len c e)) 0 elems in
  wadd offsets_len data_len.

(** First loop of [encode_variable_elems]: the offset table. *)
Fixpoint encode_offsets (elems : list T) (running_offset : Z) (buf : bytes) : bytes :=
  match elems with
  | [] => buf
  | elem :: elems =>
      encode_offsets elems (wadd running_offset (ssz_bytes_len c elem))
        (buf ++ to_le_bytes 4 (as_u32 running_offset))
  end.

(** [for elem in elems { elem.ssz_append(buf) }]. *)
Definition append_all (elems : list T) (buf : bytes) : bytes :=
  foldl (fun buf e => ssz_append c e buf) buf elems.

Definition encode_variable_elems (elems : list T) (buf : bytes) : bytes :=
  let fixed_region_len := wmul (zlen elems) BYTES_PER_LENGTH_OFFSET in
  append_all elems (encode_offsets elems fixed_region_len buf).

(** [u32::from_le_bytes(bytes[start..start + 4]) as usize]. *)
Definition read_offset (s : bytes) : result SszError Z := Ok (from_le_bytes s).

(** "Validate each offset" loop of [decode_list_items]. *)
Fixpoint validate_offsets (first_offset total : Z) (prev : option Z) (offs : list Z)
  : result SszError unit :=
  match offs with
  | [] => Ok tt
  | off :: offs =>
      if off <? first_offset then Err OffsetIntoFixedRegion
      else if total <? off then Err (OffsetOutOfRange off total)
      else if match prev with Some p => off <? p | None => false end
      then Err OffsetsNotMonotonic
      else validate_offsets first_offset total (Some off) offs
  end.

(** "Decode each element" loop: element [i] occupies [offsets[i]] up to
    [offsets[i + 1]], the last one up to the end. *)
Fixpoint decode_regions (bs : bytes) (offs : list Z) : result SszError (list T) :=
  match offs with
  | [] => Ok []
  | start :: offs' =>
      let end_ := match offs' with next :: _ => next | [] => zlen bs end in
      s ← slice bs start end_;
      v ← from_ssz_bytes c s;
      vs ← decode_regions bs offs';
      Ok (v :: vs)
  end.

Definition decode_fixed_items (bs : bytes) : result SszError (list T) :=
  let elem_len := ssz_fixed_len c in
  if elem_len =? 0 then Err (Custom "zero-size element type in list/vector")
  else if negb (zlen bs mod elem_len =? 0)
  then Err (InvalidByteLength (zlen bs) (zlen bs / elem_len * elem_len))
  else
    mapM (fun i => slice bs (i * elem_len) (i * elem_len + elem_len) ≫= from_ssz_bytes c)
      (seqZ 0 (zlen bs / elem_len)).

Definition decode_variable_items (bs : bytes) : result SszError (list T) :=
  if zlen bs <? BYTES_PER_LENGTH_OFFSET
  then Err (IncompleteData BYTES_PER_LENGTH_OFFSET (zlen bs))
  else
    first_offset ← slice bs 0 4 ≫= read_offset;
    if negb (first_offset mod BYTES_PER_LENGTH_OFFSET =? 0)
    then Err OffsetIntoFixedRegion
    else if zlen bs <? first_offset
    then Err (OffsetOutOfRange first_offset (zlen bs))
    else
      let count := first_offset / BYTES_PER_LENGTH_OFFSET in
      if count =? 0
      then (if negb (zlen bs =? 0) then Err (ExtraBytes (zlen bs)) else Ok [])
      else
        offsets ← mapM (fun i => slice bs (i * 4) (i * 4 + 4) ≫= read_offset)
                    (seqZ 0 count);
        _ ← validate_offsets first_offset (zlen bs) None offsets;
        decode_regions bs offsets.

Definition decode_list_items (bs : bytes) : result SszError (list T) :=
  if zlen bs =? 0 then Ok []
  else if IS_FIXED_SIZE c then decode_fixed_items bs
  else decode_variable_items bs.

(** [ssz_bytes_len] and [ssz_append], identical in [SszList] and [SszVector]. *)
Definition seq_ssz_bytes_len (elems : list T) : Z :=
  if IS_FIXED_SIZE c then wmul (zlen elems) (ssz_fixed_len c)
  else variable_elems_ssz_bytes_len elems.

Definition seq_ssz_append (elems : list T) (buf : bytes) : bytes :=
  if IS_FIXED_SIZE c then append_all elems buf else encode_variable_elems elems buf.

(** [SszList<T, N>] on the [Flat] backend: the elements. *)
Definition list_from_ssz_bytes (N : Z) (bs : bytes) : result SszError (list T) :=
  items ← decode_list_items bs;
  let len := zlen items in
  if N <? len then Err (ListLimitExceeded len N) else Ok items.

Definition list_codec (N : Z) : codec (list T) :=
  Codec false BYTES_PER_LENGTH_OFFSET seq_ssz_bytes_len seq_ssz_append
    (list_from_ssz_bytes N).

(** [SszVector<T, N>] on the [Flat] backend. *)
Definition vector_from_ssz_bytes (N : Z) (bs : bytes) : result SszError (list T) :=
  if N =? 0 then Err (Custom "Vector[T, 0] is not a valid SSZ type")
  else
    items ← decode_list_items bs;
    if negb (zlen items =? N) then Err (VectorLengthMismatch (zlen items) N)
    else Ok items.

Definition vector_codec (N : Z) : codec (list T) :=
  Codec (IS_FIXED_SIZE c)
    (if IS_FIXED_SIZE c then wmul (ssz_fixed_len c) N else BYTES_PER_LENGTH_OFFSET)
    seq_ssz_bytes_len seq_ssz_append (vector_from_ssz_bytes N).
End sequence_codec.

(** ** The contract of a codec

    [wf] says which model values are values of the Rust type (a [u64] is
    below 2^64, an [SszList] is within its limit, ...). *)
Class CodecOk {T} (c : codec T) (wf : T -> Prop) : Prop := {
  append_app : forall v buf, ssz_append c v buf = buf ++ as_ssz_bytes c v;
  fixed_len_bounds : 0 < ssz_fixed_len c < U64;
  variable_fixed_len :
    IS_FIXED_SIZE c = false -> ssz_fixed_len c = BYTES_PER_LENGTH_OFFSET;
  fixed_len_exact : forall v,
    IS_FIXED_SIZE c = true -> wf v -> zlen (as_ssz_bytes c v) = ssz_fixed_len c;
  bytes_len_exact : forall v,
    wf v -> zlen (as_ssz_bytes c v) < U64 ->
    ssz_bytes_len c v = zlen (as_ssz_bytes c v);
  decode_encode : forall v,
    wf v -> zlen (as_ssz_bytes c v) < U32 ->
    from_ssz_bytes c (as_ssz_bytes c v) = Ok v;
  decode_canonical : forall bs v,
    from_ssz_bytes c bs = Ok v -> wf v /\ as_ssz_bytes c v = bs;
  decode_no_panic : forall bs, from_ssz_bytes c bs <> Panic;
}.

(** ** The primitive codecs meet the contract *)
Definition wf_uint (n : nat) (z : Z) : Prop := 0 <= z < 2 ^ (8 * Z.of_nat n).
Definition wf_fixed_bytes (n : nat) (bs : bytes) : Prop := length bs = n.

#[export] Instance bool_codec_ok : CodecOk bool_codec (fun _ => True).
Proof.
  split; cbn; try done.
  - intros [] _ _; reflexivity.
  - intros [|[] [|]] v; cbn; try done; intros [= <-]; done.
  - intros [|[] [|]]; cbn; done.
Qed.

#[export] Instance uint_codec_ok n :
  (0 < n)%nat -> Z.of_nat n < U64 -> CodecOk (uint_codec n) (wf_uint n).
Proof.
  intros Hn Hn'. split; cbn; unfold as_ssz_bytes, uint_from_ssz_bytes; cbn.
  - done.
  - lia.
  - done.
  - intros v _ _. apply zlen_to_le_bytes.
  - intros v _ _. by rewrite zlen_to_le_bytes.
  - intros v Hv _. rewrite zlen_to_le_bytes, Z.eqb_refl; cbn.
    by rewrite from_to_le_bytes.
  - intros bs v. case_bool Hl; [done|]. zbool. intros [= <-].
    unfold zlen in Hl. split.
    + unfold wf_uint. rewrite <-Hl. apply from_le_bytes_bound.
    + apply to_from_le_bytes. lia.
  - intros bs. by case_bool Hl.
Qed.

#[export] Instance fixed_bytes_codec_ok n :
  (0 < n)%nat -> Z.of_nat n < U64 -> CodecOk (fixed_bytes_codec n) (wf_fixed_bytes n).
Proof.
  intros Hn Hn'. unfold wf_fixed_bytes.
  split; cbn; unfold as_ssz_bytes, fixed_bytes_from_ssz_bytes, zlen; cbn.
  - done.
  - lia.
  - done.
  - intros v _ ->. done.
  - intros v -> _. done.
  - intros v -> _. by rewrite Z.eqb_refl.
  - intros bs v. case_bool Hl; [done|]. zbool. intros [= <-]. split; [lia|done].
  - intros bs. by case_bool Hl.
Qed.

(** ** Sequences meet the contract *)
Section sequence_ok.
  Context {T : Type} (c : codec T) (wf : T -> Prop) `{Hc : !CodecOk c wf}.

(** The offsets that consecutive regions of lengths [zlen (enc e)] start at. *)
Fixpoint offsets_from (start : Z) (elems : list T) : list Z :=
  match elems with
  | [] => []
  | e :: es => start :: offsets_from (start + zlen (as_ssz_bytes c e)) es
  end.

Definition body (elems : list T) : bytes := concat (as_ssz_bytes c <$> elems).
Definition table (offs : list Z) : bytes := concat (to_le_bytes 4 <$> offs).

Lemma append_all_app elems buf : append_all c elems buf = buf ++ body elems.
Proof.
  unfold append_all, body. revert buf; induction elems as [|e es IH]; intros buf; cbn.
  - by rewrite app_nil_r.
  - by rewrite IH, append_app, <-app_assoc.
Qed.

Lemma length_offsets_from s elems : length (offsets_from s elems) = length elems.
Proof. revert s; induction elems; cbn; auto. Qed.

Lemma zlen_body_cons e es :
  zlen (body (e :: es)) = zlen (as_ssz_bytes c e) + zlen (body es).
Proof. unfold body. cbn. apply zlen_app. Qed.

Lemma zlen_table offs : zlen (table offs) = 4 * zlen offs.
Proof.
  unfold table. induction offs as [|o offs IH]; [done|].
  cbn. rewrite zlen_app, zlen_to_le_bytes, IH, zlen_cons. lia.
Qed.

(** The offset table written by the first loop, when no offset but the end of
    the last region leaves 32 bits. *)
Lemma encode_offsets_table elems s buf :
  Forall wf elems -> 0 <= s ->
  (forall o, o ∈ offsets_from s elems -> o < U32) ->
  encode_offsets c elems s buf = buf ++ table (offsets_from s elems).
Proof.
  intros Hwf. revert s buf; induction Hwf as [|e es He _ IH]; intros s buf Hs Hb; cbn.
  - by rewrite app_nil_r.
  - assert (s < U32) as Hs' by (apply Hb; left).
    unfold as_u32. rewrite (Z.mod_small s) by lia.
    destruct es as [|e' es]; [cbn; by rewrite app_nil_r|].
    assert (s + zlen (as_ssz_bytes c e) < U32) as Hn by (apply Hb; right; left).
    pose proof (zlen_nonneg (as_ssz_bytes c e)).
    unfold U32, U64 in *.
    rewrite bytes_len_exact by (done || unfold U64; lia).
    rewrite wadd_small by (unfold U64; lia).
    rewrite IH; [|lia|].
    + by rewrite <-app_assoc.
    + intros o Ho. apply Hb. by right.
Qed.

Lemma offsets_from_lower s elems o : o ∈ offsets_from s elems -> s <= o.
Proof.
  revert s; induction elems as [|e es IH]; intros s; cbn; [by intros ?%elem_of_nil|].
  intros [->|Ho]%elem_of_cons; [lia|]. apply IH in Ho.
  pose proof (zlen_nonneg (as_ssz_bytes c e)). lia.
Qed.

Lemma offsets_from_upper s elems o :
  o ∈ offsets_from s elems -> o <= s + zlen (body elems).
Proof.
  revert s; induction elems as [|e es IH]; intros s;
    cbn [offsets_from]; [by intros ?%elem_of_nil|].
  rewrite zlen_body_cons. pose proof (zlen_nonneg (as_ssz_bytes c e)).
  pose proof (zlen_nonneg (body es)).
  intros [->|Ho]%elem_of_cons; [lia|]. apply IH in Ho. lia.
Qed.

Lemma validate_offsets_from first total prev s elems :
  first <= s -> s + zlen (body elems) <= total ->
  match prev with Some p => p <= s | None => True end ->
  validate_offsets first total prev (offsets_from s elems) = Ok tt.
Proof.
  revert prev s; induction elems as [|e es IH]; intros prev s Hf Ht Hp;
    cbn [offsets_from validate_offsets]; [done|].
  rewrite zlen_body_cons in Ht.
  pose proof (zlen_nonneg (as_ssz_bytes c e)). pose proof (zlen_nonneg (body es)).
  destruct (Z.ltb_spec s first); [lia|]. destruct (Z.ltb_spec total s); [lia|].
  destruct prev as [p|]; [destruct (Z.ltb_spec s p); [lia|]|]; apply IH; lia.
Qed.

(** Decoding the regions of an encoded body returns the elements. *)
Lemma decode_regions_body pre elems :
  Forall wf elems -> zlen (pre ++ body elems) < U32 ->
  decode_regions c (pre ++ body elems) (offsets_from (zlen pre) elems) = Ok elems.
Proof.
  intros Hwf. revert pre; induction Hwf as [|e es He _ IH]; intros pre Hb; [done|].
  cbn [offsets_from decode_regions].
  pose proof (zlen_nonneg (body es)) as Hes.
  assert (body (e :: es) = as_ssz_bytes c e ++ body es) as Hbody by done.
  rewrite Hbody in *. rewrite !zlen_app in Hb.
  pose proof (zlen_nonneg pre).
  rewrite slice_middle; [|done|]; last first.
  { destruct es; [|done]. cbn. by rewrite app_nil_r, zlen_app. }
  cbn [mbind result_bind].
  rewrite decode_encode by (done || lia). cbn [mbind result_bind].
  specialize (IH (pre ++ as_ssz_bytes c e)).
  rewrite <-app_assoc, (zlen_app pre (as_ssz_bytes c e)) in IH. rewrite IH; [done|].
  rewrite !zlen_app. lia.
Qed.

Lemma decode_regions_no_panic bs total offs prev first :
  0 <= first -> total = zlen bs ->
  validate_offsets first total prev offs = Ok tt ->
  decode_regions c bs offs <> Panic.
Proof.
  intros Hf ->. revert prev; induction offs as [|o offs IH]; intros prev; [done|].
  cbn [validate_offsets decode_regions].
  destruct (Z.ltb_spec o first); [done|]. destruct (Z.ltb_spec (zlen bs) o); [done|].
  case_match; [done|]. intros Hv.
  apply bind_no_panic.
  - apply slice_no_panic; destruct offs as [|o' offs]; try lia; cbn in Hv;
      destruct (Z.ltb_spec o' first); try done; destruct (Z.ltb_spec (zlen bs) o');
      try done; destruct (Z.ltb_spec o' o); try done; lia.
  - intros s _. apply bind_no_panic; [apply decode_no_panic|]. intros v _.
    apply bind_no_panic; [|done]. eauto.
Qed.

(** Conversely, decoded regions tile the input from the first offset on, and
    the offsets are those the encoder writes. *)
Lemma decode_regions_canonical bs o offs vs :
  decode_regions c bs (o :: offs) = Ok vs ->
  Forall wf vs /\ o :: offs = offsets_from o vs /\
  0 <= o <= zlen bs /\ drop (Z.to_nat o) bs = body vs.
Proof.
  revert o vs; induction offs as [|o' offs IH]; intros o vs Hd.
  - cbn in Hd. apply bind_Ok_inv in Hd as (s & Hs & (v & Hv & [= <-])%bind_Ok_inv).
    apply decode_canonical in Hv as [Hwf Hv]. apply slice_Ok_iff in Hs as (? & ? & ->).
    unfold body; cbn. rewrite app_nil_r, Hv.
    split_and!; [by repeat constructor|done|lia..|].
    rewrite take_ge; [done|]. rewrite length_drop. unfold zlen in *. lia.
  - remember (o' :: offs) as offs' eqn:Ho. cbn in Hd.
    apply bind_Ok_inv in Hd as
      (s & Hs & (v & Hv & (vs' & Hvs & [= <-])%bind_Ok_inv)%bind_Ok_inv).
    subst offs'. apply IH in Hvs as (Hwfs & Hoffs & Hb & Hdrop).
    apply decode_canonical in Hv as [Hwf Hv].
    pose proof (slice_zlen _ _ _ _ Hs) as Hlen.
    apply slice_Ok_iff in Hs as (? & ? & Hs).
    cbn [offsets_from]. rewrite Hv, Hlen. replace (o + (o' - o)) with o' by lia.
    split_and!; [by constructor|by rewrite Hoffs|lia..|].
    unfold body in *. cbn. rewrite Hv, <-Hdrop, Hs.
    replace (Z.to_nat o') with (Z.to_nat o + Z.to_nat (o' - o))%nat by lia.
    by rewrite <-drop_drop, take_drop.
Qed.

Lemma offsets_from_table_bound elems :
  zlen elems * 4 + zlen (body elems) < U32 ->
  forall o, o ∈ offsets_from (zlen elems * 4) elems -> o < U32.
Proof. intros Hb o Ho%offsets_from_upper. lia. Qed.

Lemma encode_variable_elems_spec elems buf :
  Forall wf elems ->
  (forall o, o ∈ offsets_from (zlen elems * 4) elems -> o < U32) ->
  encode_variable_elems c elems buf
  = buf ++ table (offsets_from (zlen elems * 4) elems) ++ body elems.
Proof.
  intros Hwf Hb. unfold encode_variable_elems. rewrite append_all_app.
  destruct elems as [|e es]; [done|].
  assert (zlen (e :: es) * 4 < U32) by (apply Hb; cbn; left).
  pose proof (zlen_nonneg (e :: es)). unfold BYTES_PER_LENGTH_OFFSET.
  rewrite wmul_small by (unfold U32, U64 in *; lia).
  rewrite encode_offsets_table by (done || lia). by rewrite <-app_assoc.
Qed.

Lemma encode_offsets_app elems s buf :
  encode_offsets c elems s buf = buf ++ encode_offsets c elems s [].
Proof.
  revert s buf; induction elems as [|e es IH]; intros s buf; cbn;
    [by rewrite app_nil_r|].
  rewrite IH, (IH _ (to_le_bytes _ _)). by rewrite <-app_assoc.
Qed.

Lemma zlen_encode_offsets elems s : zlen (encode_offsets c elems s []) = 4 * zlen elems.
Proof.
  revert s; induction elems as [|e es IH]; intros s; cbn [encode_offsets]; [done|].
  rewrite encode_offsets_app, zlen_app, IH, zlen_cons. cbn [app].
  rewrite zlen_to_le_bytes. lia.
Qed.

Lemma seq_append_app elems buf :
  seq_ssz_append c elems buf = buf ++ seq_ssz_append c elems [].
Proof.
  unfold seq_ssz_append, encode_variable_elems. destruct (IS_FIXED_SIZE c);
    rewrite !append_all_app; [done|].
  by rewrite (encode_offsets_app _ _ buf), <-app_assoc.
Qed.

Lemma zlen_seq_encoding elems :
  zlen (seq_ssz_append c elems [])
  = (if IS_FIXED_SIZE c then 0 else 4 * zlen elems) + zlen (body elems).
Proof.
  unfold seq_ssz_append, encode_variable_elems. destruct (IS_FIXED_SIZE c);
    rewrite append_all_app, zlen_app; [done|]. by rewrite zlen_encode_offsets.
Qed.

Lemma zlen_body_fixed elems :
  IS_FIXED_SIZE c = true -> Forall wf elems ->
  zlen (body elems) = zlen elems * ssz_fixed_len c.
Proof.
  intros Hfix. induction 1 as [|e es He _ IH]; [done|].
  rewrite zlen_body_cons, IH, fixed_len_exact, zlen_cons by done. lia.
Qed.

Lemma sum_bytes_len elems acc :
  Forall wf elems -> 0 <= acc -> acc + zlen (body elems) < U64 ->
  foldl (fun acc e => wadd acc (ssz_bytes_len c e)) acc elems = acc + zlen (body elems).
Proof.
  intros Hwf. revert acc; induction Hwf as [|e es He _ IH]; intros acc Ha Hb.
  - unfold body; cbn. rewrite zlen_nil. lia.
  - rewrite zlen_body_cons in *. cbn [foldl].
    pose proof (zlen_nonneg (as_ssz_bytes c e)). pose proof (zlen_nonneg (body es)).
    rewrite bytes_len_exact by (done || lia). rewrite wadd_small by lia.
    rewrite IH; lia.
Qed.

Lemma seq_bytes_len_exact elems :
  Forall wf elems -> zlen (seq_ssz_append c elems []) < U64 ->
  seq_ssz_bytes_len c elems = zlen (seq_ssz_append c elems []).
Proof.
  intros Hwf Hb. rewrite zlen_seq_encoding in *.
  unfold seq_ssz_bytes_len, variable_elems_ssz_bytes_len, BYTES_PER_LENGTH_OFFSET.
  pose proof (zlen_nonneg elems). pose proof (zlen_nonneg (body elems)).
  destruct (IS_FIXED_SIZE c) eqn:Hfix.
  - rewrite zlen_body_fixed in * by done. rewrite wmul_small; lia.
  - rewrite sum_bytes_len by (done || lia).
    rewrite wmul_small by lia. rewrite wadd_small; lia.
Qed.

Lemma read_offsets_table offs rest :
  Forall (fun o => 0 <= o < U32) offs ->
  mapM (fun i => slice (table offs ++ rest) (i * 4) (i * 4 + 4) ≫= read_offset)
    (seqZ 0 (zlen offs)) = Ok offs.
Proof.
  intros Ho. rewrite mapM_slices; [|lia|apply zlen_nonneg|]; last first.
  { rewrite zlen_app, zlen_table. pose proof (zlen_nonneg rest). lia. }
  unfold zlen. rewrite Nat2Z.id, <-(length_fmap (to_le_bytes 4)). unfold table.
  rewrite chunks_concat by (apply Forall_fmap, Forall_true, length_to_le_bytes).
  apply mapM_Ok_Forall2, Forall2_fmap_l, Forall_Forall2_diag.
  eapply Forall_impl; [done|]. intros o Hb. cbv beta in *.
  unfold compose, read_offset. by rewrite from_to_le_bytes.
Qed.

Lemma read_offsets_canonical bs count offs :
  0 <= count -> count * 4 <= zlen bs ->
  mapM (fun i => slice bs (i * 4) (i * 4 + 4) ≫= read_offset) (seqZ 0 count) = Ok offs ->
  zlen offs = count /\ table offs = take (Z.to_nat (count * 4)) bs /\
  Forall (fun o => 0 <= o < U32) offs.
Proof.
  intros Hcount Hb. rewrite mapM_slices by lia. intros Hm%mapM_Ok_Forall2.
  pose proof (Forall2_length _ _ _ Hm) as Hlen. rewrite length_chunks in Hlen.
  pose proof (Forall_chunks 4 (Z.to_nat count) bs) as Hch.
  rewrite Z2Nat.inj_mul by lia. change (Z.to_nat 4) with 4%nat in *.
  rewrite <-concat_chunks. split; [unfold zlen; lia|].
  assert (Forall (fun c => length c = 4%nat) (chunks 4 (Z.to_nat count) bs)) as Hf.
  { apply Hch. unfold zlen in Hb. lia. }
  clear -Hm Hf. unfold table. induction Hm as [|s o ss os Hso _ IH]; [done|].
  apply Forall_cons in Hf as [Hs Hf]. injection Hso as <-. cbn.
  destruct (IH Hf) as [-> ?]. rewrite to_from_le_bytes by done.
  split; [done|]. constructor; [|done].
  pose proof (from_le_bytes_bound s) as Hbd. unfold zlen in Hbd. by rewrite Hs in Hbd.
Qed.

Lemma decode_fixed_items_body elems :
  IS_FIXED_SIZE c = true -> Forall wf elems -> zlen (body elems) < U32 ->
  decode_fixed_items c (body elems) = Ok elems.
Proof.
  intros Hfix Hwf Hb. pose proof fixed_len_bounds as Hfl. unfold decode_fixed_items.
  destruct (Z.eqb_spec (ssz_fixed_len c) 0); [lia|].
  rewrite zlen_body_fixed by done. rewrite Z.mod_mul by lia. cbn.
  rewrite Z.div_mul by lia. rewrite mapM_slices; [|lia|apply zlen_nonneg|]; last first.
  { by rewrite zlen_body_fixed by done. }
  unfold body, zlen at 1. rewrite <-(app_nil_r (concat _)), Nat2Z.id.
  rewrite <-(length_fmap (as_ssz_bytes c) elems), chunks_concat; last first.
  { apply Forall_fmap. eapply Forall_impl; [done|]. intros e He; cbv beta in He.
    pose proof (fixed_len_exact e Hfix He). unfold compose, zlen in *. lia. }
  apply mapM_Ok_Forall2, Forall2_fmap_l, Forall_Forall2_diag.
  apply Forall_forall. intros e He. apply decode_encode.
  - by eapply Forall_forall in Hwf.
  - apply list_elem_of_split in He as (es1 & es2 & ->). unfold body in Hb.
    rewrite fmap_app, concat_app, zlen_app in Hb. cbn in Hb. rewrite zlen_app in Hb.
    pose proof (zlen_nonneg (concat (as_ssz_bytes c <$> es1))).
    pose proof (zlen_nonneg (concat (as_ssz_bytes c <$> es2))). lia.
Qed.

Lemma decode_fixed_items_canonical bs vs :
  IS_FIXED_SIZE c = true -> decode_fixed_items c bs = Ok vs ->
  Forall wf vs /\ body vs = bs.
Proof.
  intros Hfix. unfold decode_fixed_items. pose proof fixed_len_bounds as Hfl.
  pose proof (zlen_nonneg bs).
  destruct (Z.eqb_spec (ssz_fixed_len c) 0); [done|].
  destruct (Z.eqb_spec (zlen bs mod ssz_fixed_len c) 0) as [Hm|]; [|done]. cbn.
  apply Z.mod_divide in Hm as [k Hk]; [|lia].
  rewrite Hk, Z.div_mul by lia. assert (0 <= k) by nia.
  rewrite mapM_slices by lia. intros Hd%mapM_Ok_Forall2.
  assert (concat (chunks (Z.to_nat (ssz_fixed_len c)) (Z.to_nat k) bs) = bs) as Hbs.
  { rewrite concat_chunks, take_ge; [done|]. unfold zlen in Hk. nia. }
  rewrite <-Hbs. clear Hbs. unfold body.
  induction Hd as [|s v ss vs' Hv _ IH]; [done|].
  apply decode_canonical in Hv as [Hwf <-]. destruct IH as [? IH].
  split; [by constructor|]. cbn. by rewrite IH.
Qed.

Lemma zlen_offsets_from st elems : zlen (offsets_from st elems) = zlen elems.
Proof. unfold zlen. by rewrite length_offsets_from. Qed.

Lemma decode_variable_items_encode elems :
  elems <> [] -> Forall wf elems ->
  let offs := offsets_from (zlen elems * 4) elems in
  zlen (table offs ++ body elems) < U32 ->
  decode_variable_items c (table offs ++ body elems) = Ok elems.
Proof.
  intros Hne Hwf offs Hb. unfold decode_variable_items, BYTES_PER_LENGTH_OFFSET.
  assert (zlen (table offs) = zlen elems * 4) as Htab.
  { rewrite zlen_table. subst offs. rewrite zlen_offsets_from. lia. }
  rewrite zlen_app, Htab in Hb. pose proof (zlen_nonneg (body elems)) as Hbody.
  assert (Forall (fun o => 0 <= o < U32) offs) as Hoffs.
  { apply Forall_forall. intros o Ho. pose proof (offsets_from_lower _ _ _ Ho).
    pose proof (offsets_from_upper _ _ _ Ho). pose proof (zlen_nonneg elems). lia. }
  assert (1 <= zlen elems) as Hn.
  { destruct elems; [done|]. rewrite zlen_cons. pose proof (zlen_nonneg elems). lia. }
  assert (exists offs', offs = zlen elems * 4 :: offs') as [offs' Hcons].
  { subst offs. destruct elems; [done|]. by eexists. }
  rewrite (zlen_app (table offs) (body elems)), Htab.
  destruct (Z.ltb_spec (zlen elems * 4 + zlen (body elems)) 4); [lia|].
  assert (slice (E:=SszError) (table offs ++ body elems) 0 4
          = Ok (to_le_bytes 4 (zlen elems * 4))) as ->.
  { rewrite Hcons. unfold table. cbn [fmap list_fmap concat]. rewrite <-app_assoc.
    by apply (slice_middle []). }
  cbn [mbind result_bind read_offset].
  rewrite from_to_le_bytes by (change (2 ^ _) with U32; lia).
  rewrite Z.mod_mul by lia. cbn [Z.eqb negb].
  destruct (Z.ltb_spec (zlen elems * 4 + zlen (body elems)) (zlen elems * 4)); [lia|].
  rewrite Z.div_mul by lia. destruct (Z.eqb_spec (zlen elems) 0); [lia|].
  pose proof (read_offsets_table offs (body elems) Hoffs) as Hread.
  assert (zlen offs = zlen elems) as Hlen by apply zlen_offsets_from.
  rewrite Hlen in Hread. rewrite Hread. cbn [mbind result_bind].
  pose proof (validate_offsets_from (zlen elems * 4)
    (zlen elems * 4 + zlen (body elems)) None (zlen elems * 4) elems) as Hval.
  fold offs in Hval. rewrite Hval by (done || lia).
  cbn [mbind result_bind]. subst offs. rewrite <-Htab at 2.
  apply decode_regions_body; [done|].
  rewrite zlen_app. lia.
Qed.

(** What a successful variable-size decode has established of its input. *)
Lemma decode_variable_items_inv bs vs :
  decode_variable_items c bs = Ok vs -> bs <> [] ->
  exists offs, 0 < zlen offs /\ zlen offs * 4 <= zlen bs /\
    table offs = take (Z.to_nat (zlen offs * 4)) bs /\
    Forall (fun o => 0 <= o < U32) offs /\
    offs !! 0%nat = Some (zlen offs * 4) /\ decode_regions c bs offs = Ok vs.
Proof.
  unfold decode_variable_items, BYTES_PER_LENGTH_OFFSET. intros Hd Hne.
  destruct (Z.ltb_spec (zlen bs) 4); [done|].
  apply bind_Ok_inv in Hd as (fo & (s4 & Hs & [= Hfo])%bind_Ok_inv & Hd).
  destruct (Z.eqb_spec (fo mod 4) 0) as [Hm|]; [|done]. cbn [negb] in Hd.
  destruct (Z.ltb_spec (zlen bs) fo); [done|].
  apply Z.mod_divide in Hm as [k Hk]; [|lia].
  rewrite Hk, Z.div_mul in Hd by lia.
  destruct (Z.eqb_spec k 0).
  { destruct (Z.eqb_spec (zlen bs) 0); [lia|done]. }
  pose proof (from_le_bytes_bound s4). assert (0 < k) by lia.
  apply bind_Ok_inv in Hd as (offs & Hr & (u & Hv & Hd)%bind_Ok_inv).
  apply read_offsets_canonical in Hr as (Hlen & Htab & Hb); [|lia..].
  exists offs. rewrite Hlen. split_and!; try done; try lia.
  destruct offs as [|o offs]; [rewrite zlen_nil in Hlen; lia|]. cbn.
  f_equal. rewrite <-Hk, <-Hfo. apply Forall_cons in Hb as [Ho _].
  apply slice_Ok_iff in Hs as (_ & _ & ->). cbn [drop].
  change (Z.to_nat (4 - 0)) with 4%nat. change (Z.to_nat 0) with 0%nat. rewrite drop_0.
  apply (f_equal (take 4)) in Htab. rewrite take_take, Nat.min_l in Htab by lia.
  rewrite <-Htab. unfold table. cbn [fmap list_fmap concat].
  rewrite take_app_length' by (by rewrite length_to_le_bytes).
  symmetry. by apply from_to_le_bytes.
Qed.

Lemma decode_variable_items_canonical bs vs :
  decode_variable_items c bs = Ok vs -> bs <> [] ->
  Forall wf vs /\ encode_variable_elems c vs [] = bs.
Proof.
  intros Hd Hne.
  destruct (decode_variable_items_inv _ _ Hd Hne) as (offs & Hpos & Hle & Htab & Hb & Hhd & Hr).
  destruct offs as [|o offs]; [done|]. cbn in Hhd. injection Hhd as Ho.
  apply decode_regions_canonical in Hr as (Hwf & Hoffs & Hrange & Hdrop).
  split; [done|].
  assert (zlen vs = zlen (o :: offs)) as Hlen by (rewrite Hoffs; by rewrite zlen_offsets_from).
  assert (o = zlen vs * 4) as Ho' by lia.
  rewrite Ho' in Hoffs at 2. rewrite encode_variable_elems_spec; [|done|].
  - rewrite <-Hoffs, Htab, <-Hdrop, <-Ho. cbn [app]. apply take_drop.
  - rewrite <-Hoffs. intros o' Ho1. eapply Forall_forall in Hb; [|done]. lia.
Qed.

Lemma decode_list_items_encode elems :
  Forall wf elems -> zlen (seq_ssz_append c elems []) < U32 ->
  decode_list_items c (seq_ssz_append c elems []) = Ok elems.
Proof.
  intros Hwf Hb. pose proof (zlen_seq_encoding elems) as Hlen.
  pose proof (zlen_nonneg elems). pose proof (zlen_nonneg (body elems)).
  destruct (decide (elems = [])) as [->|Hne].
  { unfold decode_list_items, seq_ssz_append. by destruct (IS_FIXED_SIZE c). }
  assert (0 < zlen elems).
  { destruct elems; [done|]. rewrite zlen_cons. pose proof (zlen_nonneg elems). lia. }
  unfold decode_list_items. pose proof fixed_len_bounds as Hfl.
  destruct (Z.eqb_spec (zlen (seq_ssz_append c elems [])) 0) as [Hz|].
  { destruct (IS_FIXED_SIZE c) eqn:Hfix; [|lia].
    rewrite zlen_body_fixed in Hlen by done. nia. }
  rewrite Hlen in Hb. unfold seq_ssz_append.
  destruct (IS_FIXED_SIZE c) eqn:Hfix.
  - rewrite append_all_app. by apply decode_fixed_items_body.
  - rewrite encode_variable_elems_spec;
      [|done|apply offsets_from_table_bound; lia].
    apply decode_variable_items_encode; [done..|].
    rewrite zlen_app, zlen_table, zlen_offsets_from. lia.
Qed.

Lemma decode_list_items_canonical bs vs :
  decode_list_items c bs = Ok vs -> Forall wf vs /\ seq_ssz_append c vs [] = bs.
Proof.
  unfold decode_list_items. destruct (Z.eqb_spec (zlen bs) 0) as [H0|H0].
  - apply zlen_0_nil in H0 as ->. intros [= <-]. split; [constructor|].
    unfold seq_ssz_append. by destruct (IS_FIXED_SIZE c).
  - intros Hd. unfold seq_ssz_append. destruct (IS_FIXED_SIZE c) eqn:Hfix.
    + rewrite append_all_app. by apply decode_fixed_items_canonical.
    + apply decode_variable_items_canonical; [done|]. by intros ->.
Qed.

Lemma decode_list_items_no_panic bs : decode_list_items c bs <> Panic.
Proof.
  unfold decode_list_items. pose proof (zlen_nonneg bs). pose proof fixed_len_bounds.
  destruct (Z.eqb_spec (zlen bs) 0); [done|]. destruct (IS_FIXED_SIZE c).
  - unfold decode_fixed_items. case_bool Hb1; [done|]. zbool.
    destruct (Z.eqb_spec (zlen bs mod ssz_fixed_len c) 0) as [Hm|]; [|done]. cbn [negb].
    apply Z.mod_divide in Hm as [k Hk]; [|lia]. rewrite Hk, Z.div_mul by lia.
    assert (0 <= k) by nia. rewrite mapM_slices by lia.
    apply mapM_no_panic. intros; apply decode_no_panic.
  - unfold decode_variable_items, BYTES_PER_LENGTH_OFFSET.
    case_bool Hb1; [done|]. zbool. apply bind_no_panic.
    { apply bind_no_panic; [apply slice_no_panic; lia|done]. }
    intros fo (s4 & Hs & [= <-])%bind_Ok_inv. pose proof (from_le_bytes_bound s4).
    destruct (Z.eqb_spec (from_le_bytes s4 mod 4) 0) as [Hm|]; [|done]. cbn [negb].
    apply Z.mod_divide in Hm as [k Hk]; [|lia]. rewrite Hk in *.
    case_bool Hb2; [done|]. zbool. rewrite Z.div_mul by lia.
    case_bool Hb3; [by case_bool Hb4|]. zbool.
    apply bind_no_panic.
    { rewrite mapM_slices by lia. by apply mapM_no_panic. }
    intros offs _. apply bind_no_panic.
    { generalize (@None Z). generalize (k * 4). clear.
      induction offs as [|o offs IH]; intros fo prev; cbn; [done|].
      repeat (case_match; try done). }
    intros [] Hv. eapply decode_regions_no_panic; [|done|exact Hv]. lia.
Qed.

Definition wf_list (N : Z) (l : list T) : Prop := Forall wf l /\ zlen l <= N.
Definition wf_vector (N : Z) (l : list T) : Prop := Forall wf l /\ zlen l = N.

#[export] Instance list_codec_ok N : CodecOk (list_codec c N) (wf_list N).
Proof.
  split; cbn; unfold as_ssz_bytes, list_from_ssz_bytes; cbn; try done.
  - apply seq_append_app.
  - intros v [Hwf _]. by apply seq_bytes_len_exact.
  - intros v [Hwf Hn] Hb. rewrite decode_list_items_encode by done. cbn.
    by destruct (Z.ltb_spec N (zlen v)); [lia|].
  - intros bs v (vs & Hd & Hl)%bind_Ok_inv.
    destruct (Z.ltb_spec N (zlen vs)); [done|]. injection Hl as <-.
    apply decode_list_items_canonical in Hd as [??]. by repeat split.
  - intros bs. apply bind_no_panic; [apply decode_list_items_no_panic|].
    intros vs _. by case_bool Hl.
Qed.

#[export] Instance vector_codec_ok N :
  0 < N -> (IS_FIXED_SIZE c = true -> ssz_fixed_len c * N < U64) ->
  CodecOk (vector_codec c N) (wf_vector N).
Proof.
  intros HN Hfl. pose proof (fixed_len_bounds (c:=c)) as Hb.
  split; cbn; unfold as_ssz_bytes, vector_from_ssz_bytes; cbn.
  - apply seq_append_app.
  - destruct (IS_FIXED_SIZE c); [|done]. rewrite wmul_small; specialize (Hfl eq_refl); nia.
  - by intros ->.
  - intros v Hfix [Hwf Hlen]. rewrite zlen_seq_encoding, Hfix, zlen_body_fixed by done.
    rewrite wmul_small; specialize (Hfl Hfix); nia.
  - intros v [Hwf _]. by apply seq_bytes_len_exact.
  - intros v [Hwf Hn] Hb'. destruct (Z.eqb_spec N 0); [lia|].
    rewrite decode_list_items_encode by done. cbn. by rewrite Hn, Z.eqb_refl.
  - intros bs v. destruct (Z.eqb_spec N 0); [done|]. intros (vs & Hd & Hl)%bind_Ok_inv.
    destruct (Z.eqb_spec (zlen vs) N); [|done]. injection Hl as <-.
    apply decode_list_items_canonical in Hd as [??]. by repeat split.
  - intros bs. destruct (Z.eqb_spec N 0); [done|].
    apply bind_no_panic; [apply decode_list_items_no_panic|]. intros vs _. by case_bool Hl.
Qed.
End sequence_ok.

(** ** Properties *)

(** [SszList<T, N>] decodes exactly the encodings of lists of at most [N]
    values of [T], for fixed-size and variable-size [T], on inputs shorter
    than 4 GiB, and never aborts on any input. *)
Theorem list_decode_iff {T} (c : codec T) (wf : T -> Prop) (N : Z) (bs : bytes) :
  CodecOk c wf ->
  (zlen bs < U32 -> forall vs,
     from_ssz_bytes (list_codec c N) bs = Ok vs <->
     Forall wf vs /\ zlen vs <= N /\ as_ssz_bytes (list_codec c N) vs = bs) /\
  from_ssz_bytes (list_codec c N) bs <> Panic.
Proof.
  intros Hc. pose proof (list_codec_ok c wf N) as Hl.
  split; [|apply decode_no_panic]. intros Hb vs. split.
  - intros [[??] ?]%decode_canonical. done.
  - intros (? & ? & <-). by apply decode_encode.
Qed.

Lemma list_decode_iff_witness :
  let bs := [Byte.x08; Byte.x00; Byte.x00; Byte.x00; Byte.x0a; Byte.x00; Byte.x00; Byte.x00;
             Byte.x05; Byte.x00; Byte.x07; Byte.x00] in
  let c := list_codec (uint_codec 2) 3 in
  from_ssz_bytes (list_codec c 4) bs = Ok [[5]; [7]] /\
  (Forall (wf_list (wf_uint 2) 3) [[5]; [7]] /\ zlen [[5]; [7]] <= 4 /\
   as_ssz_bytes (list_codec c 4) [[5]; [7]] = bs).
Proof.
  assert (CodecOk (uint_codec 2) (wf_uint 2)) as Hc by (apply uint_codec_ok; [lia|done]).
  intros bs c.
  pose proof (list_decode_iff c (wf_list (wf_uint 2) 3) 4 bs (list_codec_ok _ _ 3)) as [H _].
  specialize (H ltac:(vm_compute; reflexivity) [[5]; [7]]).
  split; [vm_compute; reflexivity|]. apply H. vm_compute. reflexivity.
Defined.
