(* ===== verification/SszContainer.v ===== *)
(** * SSZ containers: the offset decoder and the derive macros

    Models [SszDecoder] of [crates/pharos-ssz/src/decode.rs] and the code that
    [#[derive(Encode)]] and [#[derive(Decode)]] emit
    ([crates/pharos-ssz-derive/src/lib.rs]).  A struct is described by the
    list of the codecs of its wire fields; the emitted statement sequences are
    recursions over that list. *)

From Stdlib Require Import ZArith Lia.
From S2P Require Import Prelude SszCodec.

(** ** [SszDecoder] *)

Inductive FieldSlot : Type :=
  | Fixed (start len : Z)
  | Variable_ (offset end_ : Z).

Record SszDecoder : Type := mkDecoder {
  d_bytes : bytes;
  fixed_cursor : Z;
  slots : list FieldSlot;
  decode_index : nat;
  fixed_region_len : Z;
}.

Definition decoder_new (bs : bytes) : SszDecoder := mkDecoder bs 0 [] 0 0.

(** [register_type::<T>] with [len = T::ssz_fixed_len()]. *)
Definition register_type (len : Z) (d : SszDecoder) : result SszError SszDecoder :=
  let start := fixed_cursor d in
  end_ ← ok_or (checked_add start len) (Custom "fixed region overflow");
  if zlen (d_bytes d) <? end_ then Err (IncompleteData end_ (zlen (d_bytes d)))
  else Ok (mkDecoder (d_bytes d) end_ (slots d ++ [Fixed start len])
             (decode_index d) (fixed_region_len d)).

Definition register_anonymous_variable_length_item (d : SszDecoder)
  : result SszError SszDecoder :=
  let offset_start := fixed_cursor d in
  offset_end ← ok_or (checked_add offset_start BYTES_PER_LENGTH_OFFSET)
                 (Custom "offset region overflow");
  if zlen (d_bytes d) <? offset_end
  then Err (IncompleteData offset_end (zlen (d_bytes d)))
  else
    offset_bytes ← slice (d_bytes d) offset_start offset_end;
    let offset := from_le_bytes offset_bytes in
    Ok (mkDecoder (d_bytes d) offset_end (slots d ++ [Variable_ offset 0])
          (decode_index d) (fixed_region_len d)).

(** [slots.iter().enumerate().filter_map(..)], counting from [k]. *)
Fixpoint var_indices (k : nat) (l : list FieldSlot) : list nat :=
  match l with
  | [] => []
  | Variable_ _ _ :: l => k :: var_indices (S k) l
  | Fixed _ _ :: l => var_indices (S k) l
  end.

(** [match &slots[i] { Variable { offset, .. } => *offset, _ => unreachable!() }]. *)
Definition slot_offset (l : list FieldSlot) (i : nat) : result SszError Z :=
  match l !! i with
  | Some (Variable_ offset _) => Ok offset
  | _ => Panic
  end.

(** "Validate each offset" loop of [maybe_resolve_offsets]; [k0] is [k == 0]. *)
Fixpoint check_slot_offsets (l : list FieldSlot) (fixed_len total : Z)
    (k0 : bool) (prev_offset : option Z) (vis : list nat) : result SszError unit :=
  match vis with
  | [] => Ok tt
  | vi :: vis =>
      offset ← slot_offset l vi;
      if k0 && negb (offset =? fixed_len) then Err OffsetIntoFixedRegion
      else if offset <? fixed_len then Err OffsetIntoFixedRegion
      else if total <? offset then Err (OffsetOutOfRange offset total)
      else if match prev_offset with Some prev => offset <? prev | None => false end
      then Err OffsetsNotMonotonic
      else check_slot_offsets l fixed_len total false (Some offset) vis
  end.

(** "Assign [end] values" loop. *)
Fixpoint assign_ends (l : list FieldSlot) (total : Z) (vis : list nat)
  : result SszError (list FieldSlot) :=
  match vis with
  | [] => Ok l
  | vi :: vis' =>
      end_ ← match vis' with
             | vj :: _ => slot_offset l vj
             | [] => Ok total
             end;
      let l' := match l !! vi with
                | Some (Variable_ offset _) => <[vi := Variable_ offset end_]> l
                | _ => l
                end in
      assign_ends l' total vis'
  end.

Definition maybe_resolve_offsets (d : SszDecoder) : result SszError SszDecoder :=
  if negb (fixed_region_len d =? 0) then Ok d
  else
    let fixed_len := fixed_cursor d in
    let total := zlen (d_bytes d) in
    let vis := var_indices 0 (slots d) in
    match vis with
    | [] =>
        if negb (fixed_len =? total) then Err (ExtraBytes (wsub total fixed_len))
        else Ok (mkDecoder (d_bytes d) (fixed_cursor d) (slots d) (decode_index d) fixed_len)
    | _ =>
        _ ← check_slot_offsets (slots d) fixed_len total true None vis;
        l ← assign_ends (slots d) total vis;
        Ok (mkDecoder (d_bytes d) (fixed_cursor d) l (decode_index d) fixed_len)
    end.

(** The byte range of a slot. *)
Definition slot_slice (bs : bytes) (s : FieldSlot) : result SszError bytes :=
  match s with
  | Fixed start len => slice bs start (start + len)
  | Variable_ offset end_ => slice bs offset end_
  end.

Definition decode_next {T} (c : codec T) (d : SszDecoder)
  : result SszError (T * SszDecoder) :=
  d ← maybe_resolve_offsets d;
  match slots d !! decode_index d with
  | None => Err (Custom "decode_next called more times than fields registered")
  | Some s =>
      bs ← slot_slice (d_bytes d) s;
      v ← from_ssz_bytes c bs;
      Ok (v, mkDecoder (d_bytes d) (fixed_cursor d) (slots d) (S (decode_index d))
               (fixed_region_len d))
  end.

Definition finish (d : SszDecoder) : result SszError unit :=
  let remaining := sat_sub (zlen (slots d)) (Z.of_nat (decode_index d)) in
  if 0 <? remaining then Err (IncompleteDecode remaining) else Ok tt.

(** ** The derive macros *)

(** The wire fields of a struct, in declaration order. *)
Inductive Fields : Type -> Type :=
  | FNil : Fields unit
  | FCons {A B : Type} (c : codec A) (fs : Fields B) : Fields (A * B).

(** [IS_FIXED_SIZE]: [true && F1::IS_FIXED_SIZE && ...]. *)
Fixpoint fields_fixed {T} (fs : Fields T) : bool :=
  match fs with
  | FNil => true
  | FCons c fs => IS_FIXED_SIZE c && fields_fixed fs
  end.

(** [len += F::ssz_fixed_len();] for every field (wrapping). *)
Fixpoint fields_fixed_len {T} (fs : Fields T) (len : Z) : Z :=
  match fs with
  | FNil => len
  | FCons c fs => fields_fixed_len fs (wadd len (ssz_fixed_len c))
  end.

Fixpoint fields_bytes_len {T} (fs : Fields T) : T -> Z -> Z :=
  match fs with
  | FNil => fun _ len => len
  | FCons c fs => fun '(a, v) len =>
      fields_bytes_len fs v
        (if IS_FIXED_SIZE c then wadd len (ssz_fixed_len c)
         else wadd (wadd len BYTES_PER_LENGTH_OFFSET) (ssz_bytes_len c a))
  end.

(** First pass of [ssz_append]. *)
Fixpoint fixed_pass {T} (fs : Fields T) : T -> Z -> bytes -> bytes :=
  match fs with
  | FNil => fun _ _ buf => buf
  | FCons c fs => fun '(a, v) offset buf =>
      if IS_FIXED_SIZE c then fixed_pass fs v offset (ssz_append c a buf)
      else fixed_pass fs v (wadd offset (ssz_bytes_len c a))
             (buf ++ to_le_bytes 4 (as_u32 offset))
  end.

(** Second pass of [ssz_append]. *)
Fixpoint var_pass {T} (fs : Fields T) : T -> bytes -> bytes :=
  match fs with
  | FNil => fun _ buf => buf
  | FCons c fs => fun '(a, v) buf =>
      var_pass fs v (if IS_FIXED_SIZE c then buf else ssz_append c a buf)
  end.

Definition fields_append {T} (fs : Fields T) (v : T) (buf : bytes) : bytes :=
  let fixed_len := fields_fixed_len fs 0 in
  var_pass fs v (fixed_pass fs v fixed_len buf).

(** The registration calls. *)
Fixpoint register_fields {T} (fs : Fields T) (d : SszDecoder)
  : result SszError SszDecoder :=
  match fs with
  | FNil => Ok d
  | FCons c fs =>
      d ← (if IS_FIXED_SIZE c then register_type (ssz_fixed_len c) d
           else register_anonymous_variable_length_item d);
      register_fields fs d
  end.

(** The [decode_next] calls. *)
Fixpoint decode_fields {T} (fs : Fields T) : SszDecoder -> result SszError (T * SszDecoder) :=
  match fs with
  | FNil => fun d => Ok (tt, d)
  | FCons c fs => fun d =>
      '(a, d) ← decode_next c d;
      '(v, d) ← decode_fields fs d;
      Ok ((a, v), d)
  end.

(** [decode_body] of the derive: a struct without wire fields accepts only the
    empty slice. *)
Definition fields_from_ssz_bytes {T} (fs : Fields T) (bs : bytes) : result SszError T :=
  match fs in Fields T return result SszError T with
  | FNil => if negb (zlen bs =? 0) then Err (ExtraBytes (zlen bs)) else Ok tt
  | FCons c fs' =>
      d ← register_fields (FCons c fs') (decoder_new bs);
      '(v, d) ← decode_fields (FCons c fs') d;
      _ ← finish d;
      Ok v
  end.

(** The derived codec of a struct [R]: [fields] projects the wire fields out,
    [build] is the struct expression, which sets skipped fields to their
    default. *)
Definition derive_codec {T R} (fs : Fields T) (build : T -> R) (fields : R -> T) : codec R :=
  Codec (fields_fixed fs)
    (if fields_fixed fs then fields_fixed_len fs 0 else BYTES_PER_LENGTH_OFFSET)
    (fun r => fields_bytes_len fs (fields r) 0)
    (fun r buf => fields_append fs (fields r) buf)
    (fun bs => v ← fields_from_ssz_bytes fs bs; Ok (build v)).

(** ** Resolution of the slots *)

(** Where the variable region continues after the slots [l]. *)
Fixpoint next_offset (total : Z) (l : list FieldSlot) : Z :=
  match l with
  | [] => total
  | Variable_ o _ :: _ => o
  | Fixed _ _ :: l => next_offset total l
  end.

(** The slots with every [end] filled in. *)
Fixpoint resolve (total : Z) (l : list FieldSlot) : list FieldSlot :=
  match l with
  | [] => []
  | Fixed s n :: l => Fixed s n :: resolve total l
  | Variable_ o _ :: l => Variable_ o (next_offset total l) :: resolve total l
  end.

(** Offsets are in range and non-decreasing, starting from [prev]. *)
Fixpoint offsets_ok (total prev : Z) (l : list FieldSlot) : Prop :=
  match l with
  | [] => True
  | Fixed _ _ :: l => offsets_ok total prev l
  | Variable_ o _ :: l => prev <= o <= total /\ offsets_ok total o l
  end.

Lemma slot_offset_middle pre o e l :
  slot_offset (pre ++ Variable_ o e :: l) (length pre) = Ok o.
Proof. unfold slot_offset. by rewrite list_lookup_middle. Qed.

Lemma var_indices_head pre l total :
  match var_indices (length pre) l with
  | [] => next_offset total l = total
  | j :: _ => slot_offset (pre ++ l) j = Ok (next_offset total l)
  end.
Proof.
  revert pre; induction l as [|[s n|o e] l IH]; intros pre; cbn; [done|..].
  - specialize (IH (pre ++ [Fixed s n])).
    rewrite length_app, Nat.add_comm, <-app_assoc in IH. exact IH.
  - apply slot_offset_middle.
Qed.

Lemma assign_ends_resolve pre l total :
  assign_ends (pre ++ l) total (var_indices (length pre) l)
  = Ok (pre ++ resolve total l).
Proof.
  revert pre; induction l as [|[s n|o e] l IH]; intros pre; cbn [var_indices resolve].
  - done.
  - specialize (IH (pre ++ [Fixed s n])).
    rewrite length_app, Nat.add_comm, <-!app_assoc in IH. exact IH.
  - cbn [assign_ends]. rewrite list_lookup_middle by done.
    pose proof (var_indices_head (pre ++ [Variable_ o e]) l total) as Hh.
    rewrite length_app, Nat.add_comm, <-!app_assoc in Hh. cbn in Hh.
    assert ((match var_indices (S (length pre)) l with
             | vj :: _ => slot_offset (pre ++ Variable_ o e :: l) vj
             | [] => Ok total end) = Ok (next_offset total l)) as ->.
    { destruct (var_indices (S (length pre)) l); [by rewrite Hh|done]. }
    cbn [mbind result_bind].
    rewrite insert_app_r_alt, Nat.sub_diag by lia. cbn.
    specialize (IH (pre ++ [Variable_ o (next_offset total l)])).
    rewrite length_app, Nat.add_comm, <-!app_assoc in IH. exact IH.
Qed.

Lemma check_slot_offsets_rest pre l fixed_len total prev :
  fixed_len <= prev ->
  check_slot_offsets (pre ++ l) fixed_len total false (Some prev)
    (var_indices (length pre) l) = Ok tt <->
  offsets_ok total prev l.
Proof.
  revert pre prev; induction l as [|[s n|o e] l IH]; intros pre prev Hp;
    cbn [var_indices offsets_ok].
  - done.
  - specialize (IH (pre ++ [Fixed s n]) prev Hp).
    rewrite length_app, Nat.add_comm, <-!app_assoc in IH. exact IH.
  - cbn [check_slot_offsets]. rewrite slot_offset_middle. cbn [mbind result_bind andb].
    specialize (IH (pre ++ [Variable_ o e]) o).
    rewrite length_app, Nat.add_comm, <-!app_assoc in IH. cbn in IH.
    destruct (Z.ltb_spec o fixed_len); [split; [done|lia]|].
    destruct (Z.ltb_spec total o); [split; [done|lia]|].
    destruct (Z.ltb_spec o prev); [split; [done|lia]|].
    rewrite IH by lia. split; [intros; split_and!; done || lia|by intros [_ ?]].
Qed.

Lemma check_slot_offsets_spec pre l fixed_len total :
  check_slot_offsets (pre ++ l) fixed_len total true None (var_indices (length pre) l) = Ok tt <->
  var_indices (length pre) l = [] \/
  (next_offset total l = fixed_len /\ offsets_ok total fixed_len l).
Proof.
  revert pre; induction l as [|[s n|o e] l IH]; intros pre;
    cbn [var_indices offsets_ok next_offset].
  - split; [by left|done].
  - specialize (IH (pre ++ [Fixed s n])).
    rewrite length_app, Nat.add_comm, <-!app_assoc in IH. exact IH.
  - cbn [check_slot_offsets]. rewrite slot_offset_middle. cbn [mbind result_bind andb].
    destruct (Z.eqb_spec o fixed_len) as [->|]; cbn [negb];
      [|split; [done|by intros [|[??]]]].
    destruct (Z.ltb_spec fixed_len fixed_len); [lia|].
    destruct (Z.ltb_spec total fixed_len).
    { split; [done|]. intros [|(_ & ? & _)]; [done|lia]. }
    pose proof (check_slot_offsets_rest (pre ++ [Variable_ fixed_len e]) l fixed_len total
                  fixed_len) as Hr.
    rewrite length_app, Nat.add_comm, <-!app_assoc in Hr. cbn in Hr.
    rewrite Hr by lia. split; [intros; right; split_and!; done || lia|].
    intros [|(_ & _ & ?)]; done.
Qed.

Lemma check_slot_offsets_no_panic pre l fixed_len total k0 prev :
  check_slot_offsets (pre ++ l) fixed_len total k0 prev (var_indices (length pre) l) <> Panic.
Proof.
  revert pre k0 prev; induction l as [|[s n|o e] l IH]; intros pre k0 prev; cbn [var_indices].
  - done.
  - specialize (IH (pre ++ [Fixed s n]) k0 prev).
    rewrite length_app, Nat.add_comm, <-!app_assoc in IH. exact IH.
  - cbn [check_slot_offsets]. rewrite slot_offset_middle. cbn [mbind result_bind].
    specialize (IH (pre ++ [Variable_ o e]) false (Some o)).
    rewrite length_app, Nat.add_comm, <-!app_assoc in IH. cbn in IH.
    repeat (case_match; try done).
Qed.

Lemma var_indices_nil k l total fixed_len :
  var_indices k l = [] -> next_offset total l = total /\ resolve total l = l /\
                          offsets_ok total fixed_len l.
Proof.
  revert k; induction l as [|[s n|o e] l IH]; intros k; cbn; [done| |done].
  intros (? & -> & ?)%IH. done.
Qed.

(** A successful resolution: the variable region starts where the fixed region
    ends (for a struct without variable fields: the fixed region is the whole
    input), and the offsets are in range and non-decreasing. *)
Lemma maybe_resolve_offsets_Ok d d' :
  fixed_region_len d = 0 ->
  maybe_resolve_offsets d = Ok d' <->
  next_offset (zlen (d_bytes d)) (slots d) = fixed_cursor d /\
  offsets_ok (zlen (d_bytes d)) (fixed_cursor d) (slots d) /\
  d' = mkDecoder (d_bytes d) (fixed_cursor d) (resolve (zlen (d_bytes d)) (slots d))
         (decode_index d) (fixed_cursor d).
Proof.
  intros H0. unfold maybe_resolve_offsets. rewrite H0. cbn [Z.eqb negb].
  pose proof (check_slot_offsets_spec [] (slots d) (fixed_cursor d) (zlen (d_bytes d))) as Hc.
  pose proof (check_slot_offsets_no_panic [] (slots d) (fixed_cursor d) (zlen (d_bytes d)) true None) as Hp.
  pose proof (assign_ends_resolve [] (slots d) (zlen (d_bytes d))) as Ha.
  cbn [app length] in *.
  destruct (var_indices 0 (slots d)) as [|vi vis] eqn:Hv.
  - destruct (var_indices_nil _ _ (zlen (d_bytes d)) (fixed_cursor d) Hv) as (-> & -> & ?).
    destruct (Z.eqb_spec (fixed_cursor d) (zlen (d_bytes d))) as [He|]; cbn [negb].
    + split; [intros [= <-]; done|intros (_ & _ & ->); done].
    + split; [done|]. intros (? & _); lia.
  - rewrite Ha. destruct (check_slot_offsets _ _ _ _ _ _) as [[]| |] eqn:Hr; [|..|done].
    + destruct Hc as [Hc _]. destruct (Hc eq_refl) as [|[??]]; [done|]. cbn.
      split; [intros [= <-]; done|intros (_ & _ & ->); done].
    + destruct Hc as [_ Hc]. cbn. split; [done|]. intros (? & ? & _).
      discriminate Hc; auto.
Qed.

Lemma maybe_resolve_offsets_no_panic d : maybe_resolve_offsets d <> Panic.
Proof.
  unfold maybe_resolve_offsets. case_bool Hf; [done|].
  pose proof (check_slot_offsets_no_panic [] (slots d) (fixed_cursor d) (zlen (d_bytes d)) true None) as Hp.
  pose proof (assign_ends_resolve [] (slots d) (zlen (d_bytes d))) as Ha.
  cbn [app length] in *. destruct (var_indices 0 (slots d)) as [|vi vis].
  - by case_bool He.
  - apply bind_no_panic; [done|]. intros _ _. rewrite Ha. done.
Qed.

(** ** Registration *)

(** Length of the fixed region, without wrap-around. *)
Fixpoint flen {T} (fs : Fields T) : Z :=
  match fs with
  | FNil => 0
  | FCons c fs => ssz_fixed_len c + flen fs
  end.

(** The slots the registration calls record from [cur] on. *)
Fixpoint slots_of {T} (bs : bytes) (cur : Z) (fs : Fields T) : list FieldSlot :=
  match fs with
  | FNil => []
  | FCons c fs =>
      (if IS_FIXED_SIZE c then Fixed cur (ssz_fixed_len c)
       else Variable_ (from_le_bytes (take 4 (drop (Z.to_nat cur) bs))) 0)
      :: slots_of bs (cur + ssz_fixed_len c) fs
  end.

Definition wf_nil (_ : unit) : Prop := True.
Definition wf_cons {A B} (wfa : A -> Prop) (wfb : B -> Prop) (v : A * B) : Prop :=
  wfa v.1 /\ wfb v.2.

(** Every field meets the contract of its codec. *)
Inductive FieldsOk : forall {T}, Fields T -> (T -> Prop) -> Prop :=
  | FieldsOk_nil : FieldsOk FNil wf_nil
  | FieldsOk_cons {A B} (c : codec A) (wfa : A -> Prop) (fs : Fields B) (wfb : B -> Prop) :
      CodecOk c wfa -> FieldsOk fs wfb ->
      FieldsOk (FCons c fs) (wf_cons wfa wfb).
Existing Class FieldsOk.
#[export] Existing Instance FieldsOk_nil.
#[export] Existing Instance FieldsOk_cons.

Lemma flen_nonneg {T} (fs : Fields T) wf : FieldsOk fs wf -> 0 <= flen fs.
Proof.
  induction 1 as [|A B c wfa fs wfb Hc _ IH]; cbn; [done|].
  pose proof (fixed_len_bounds (c:=c)). lia.
Qed.

Lemma fields_fixed_len_flen {T} (fs : Fields T) wf len :
  FieldsOk fs wf -> 0 <= len -> len + flen fs < U64 ->
  fields_fixed_len fs len = len + flen fs.
Proof.
  intros Hfs. revert len; induction Hfs as [|A B c wfa fs wfb Hc Hfs IH];
    intros len Hl Hb; cbn in *; [lia|].
  pose proof (fixed_len_bounds (c:=c)). pose proof (flen_nonneg _ _ Hfs).
  rewrite wadd_small by lia. rewrite IH; lia.
Qed.

(** Registration succeeds exactly when the fixed region fits in the input, and
    records [slots_of]. *)
Lemma register_fields_Ok {T} (fs : Fields T) wf d d' :
  FieldsOk fs wf -> 0 <= fixed_cursor d ->
  register_fields fs d = Ok d' <->
  (flen fs = 0 \/ fixed_cursor d + flen fs <= zlen (d_bytes d) /\
                  fixed_cursor d + flen fs < U64) /\
  d' = mkDecoder (d_bytes d) (fixed_cursor d + flen fs)
         (slots d ++ slots_of (d_bytes d) (fixed_cursor d) fs)
         (decode_index d) (fixed_region_len d).
Proof.
  intros Hfs. revert d; induction Hfs as [|A B c wfa fs wfb Hc Hfs IH];
    intros d H0; cbn [register_fields flen slots_of].
  { rewrite app_nil_r, Z.add_0_r. destruct d; cbn.
    split; [intros [= <-]; by split; [left|]|by intros [_ ->]]. }
  pose proof (fixed_len_bounds (c:=c)) as Hb. pose proof (flen_nonneg _ _ Hfs) as Hf.
  unfold register_type, register_anonymous_variable_length_item, checked_add.
  pose proof (variable_fixed_len (c:=c)) as Hv. unfold BYTES_PER_LENGTH_OFFSET in *.
  destruct (IS_FIXED_SIZE c); [clear Hv|specialize (Hv eq_refl); rewrite Hv in *].
  - destruct (Z.ltb_spec (fixed_cursor d + ssz_fixed_len c) U64); cbn; [|split; [done|lia]].
    destruct (Z.ltb_spec (zlen (d_bytes d)) (fixed_cursor d + ssz_fixed_len c)); cbn;
      [split; [done|lia]|].
    rewrite IH by (cbn; lia). cbn. rewrite <-app_assoc, Z.add_assoc. cbn.
    split; intros [? ->]; (split; [lia|done]).
  - destruct (Z.ltb_spec (fixed_cursor d + 4) U64); cbn; [|split; [done|lia]].
    destruct (Z.ltb_spec (zlen (d_bytes d)) (fixed_cursor d + 4)); cbn;
      [split; [done|lia]|].
    rewrite slice_in_range by lia. cbn.
    rewrite IH by (cbn; lia). cbn. rewrite <-app_assoc, Z.add_assoc. cbn.
    replace (fixed_cursor d + 4 - fixed_cursor d) with 4 by lia.
    split; intros [? ->]; (split; [lia|done]).
Qed.

Lemma register_fields_no_panic {T} (fs : Fields T) d wf :
  FieldsOk fs wf -> 0 <= fixed_cursor d -> register_fields fs d <> Panic.
Proof.
  intros Hfs. revert d; induction Hfs as [|A B c wfa fs wfb Hc Hfs IH]; intros d H0; [done|].
  pose proof (fixed_len_bounds (c:=c)). cbn. apply bind_no_panic.
  - unfold register_type, register_anonymous_variable_length_item, checked_add,
      BYTES_PER_LENGTH_OFFSET.
    destruct (IS_FIXED_SIZE c); (case_bool Hb1; [|done]); cbn; (case_bool Hb2; [done|]); [done|].
    zbool. apply bind_no_panic; [apply slice_no_panic; lia|done].
  - intros d' Hd. apply IH. revert Hd.
    unfold register_type, register_anonymous_variable_length_item, checked_add,
      BYTES_PER_LENGTH_OFFSET.
    destruct (IS_FIXED_SIZE c); (case_bool Hb1; [|done]); cbn; (case_bool Hb2; [done|]).
    + intros [= <-]. cbn. lia.
    + intros (? & _ & [= <-])%bind_Ok_inv. cbn. lia.
Qed.

(** ** Decoding the resolved slots *)
Fixpoint decode_slots {T} (bs : bytes) (fs : Fields T) : list FieldSlot -> result SszError T :=
  match fs with
  | FNil => fun _ => Ok tt
  | FCons c fs => fun l =>
      match l with
      | [] => Panic
      | s :: l =>
          b ← slot_slice bs s;
          a ← from_ssz_bytes c b;
          v ← decode_slots bs fs l;
          Ok (a, v)
      end
  end.

Fixpoint nfields {T} (fs : Fields T) : nat :=
  match fs with FNil => 0 | FCons _ fs => S (nfields fs) end.

Lemma length_resolve total l : length (resolve total l) = length l.
Proof. induction l as [|[] ? IH]; cbn; auto. Qed.

Lemma length_slots_of {T} bs cur (fs : Fields T) :
  length (slots_of bs cur fs) = nfields fs.
Proof. revert cur; induction fs; intros cur; cbn; auto. Qed.

(** After resolution, the [decode_next] calls read the slots in order and leave
    none unread. *)
Lemma decode_fields_slots {T} (fs : Fields T) bs cur pre l frl :
  frl <> 0 -> length l = nfields fs ->
  decode_fields fs (mkDecoder bs cur (pre ++ l) (length pre) frl)
  = (v ← decode_slots bs fs l;
     Ok (v, mkDecoder bs cur (pre ++ l) (length pre + nfields fs) frl)).
Proof.
  intros Hf. revert pre l; induction fs as [|A B c fs IH]; intros pre l Hl; cbn.
  - by rewrite Nat.add_0_r.
  - destruct l as [|s l]; [done|].
    unfold decode_next, maybe_resolve_offsets. cbn.
    destruct (Z.eqb_spec frl 0); [done|]. cbn.
    rewrite list_lookup_middle by done.
    destruct (slot_slice bs s); cbn; [|done..].
    destruct (from_ssz_bytes c _); cbn; [|done..].
    specialize (IH (pre ++ [s]) l). rewrite length_app, <-app_assoc in IH. cbn in IH.
    rewrite Nat.add_1_r in IH. rewrite IH by (cbn in Hl; lia).
    destruct (decode_slots bs fs l); cbn; [|done..].
    by rewrite Nat.add_succ_r.
Qed.

Lemma flen_pos {T} (fs : Fields T) wf : FieldsOk fs wf -> nfields fs <> 0%nat -> 0 < flen fs.
Proof.
  destruct 1 as [|A B c wfa fs wfb Hc Hfs]; cbn; [done|]. intros _.
  pose proof (fixed_len_bounds (c:=c)). pose proof (flen_nonneg _ _ Hfs). lia.
Qed.

(** The emitted decoder of a struct with at least one field, in one equation:
    resolution happens once, before any field is decoded, and [finish] always
    succeeds. *)
Lemma fields_from_ssz_bytes_eq {T} (fs : Fields T) wf bs :
  FieldsOk fs wf -> nfields fs <> 0%nat ->
  fields_from_ssz_bytes fs bs
  = (d ← register_fields fs (decoder_new bs);
     d ← maybe_resolve_offsets d;
     decode_slots bs fs (slots d)).
Proof.
  intros Hfs Hn. pose proof (flen_pos _ _ Hfs Hn) as Hpos.
  destruct fs as [|A B c fs]; [done|]. unfold fields_from_ssz_bytes.
  destruct (register_fields (FCons c fs) (decoder_new bs)) as [d| |] eqn:Hr; [|done..].
  apply (register_fields_Ok _ _ _ _ Hfs) in Hr as [_ ->]; [|done].
  set (d := mkDecoder _ _ _ _ _). cbn [mbind result_bind].
  assert (decode_fields (FCons c fs) d
          = (d ← maybe_resolve_offsets d; decode_fields (FCons c fs) d)) as ->.
  { cbn [decode_fields]. unfold decode_next at 1.
    destruct (maybe_resolve_offsets d) as [d'| |] eqn:Hm; [|done..].
    apply maybe_resolve_offsets_Ok in Hm as (_ & _ & ->); [|done].
    cbn [mbind result_bind]. unfold decode_next, maybe_resolve_offsets at 1.
    cbn [fixed_region_len]. destruct (Z.eqb_spec (fixed_cursor d) 0); [|done].
    subst d; cbn [fixed_cursor decoder_new] in *. lia. }
  destruct (maybe_resolve_offsets d) as [d'| |] eqn:Hm; [|done..].
  apply maybe_resolve_offsets_Ok in Hm as (_ & _ & ->); [|done].
  cbn [mbind result_bind slots].
  pose proof (decode_fields_slots (FCons c fs) bs (fixed_cursor d) []
    (resolve (zlen bs) (slots d)) (fixed_cursor d)) as Hd.
  assert (length (resolve (zlen bs) (slots d)) = nfields (FCons c fs)) as Hlen.
  { rewrite length_resolve. subst d. cbn [slots decoder_new app]. apply length_slots_of. }
  cbn [app length] in Hd. subst d. cbn [d_bytes decoder_new decode_index slots app] in *.
  rewrite Hd; [|cbn [fixed_cursor decoder_new]; lia|done].
  destruct (decode_slots _ _ _) as [v| |]; [|done..]. cbn [mbind result_bind].
  unfold finish, sat_sub. cbn [slots decode_index]. unfold zlen at 1. rewrite Hlen.
  by rewrite Z.sub_diag.
Qed.

Lemma fields_from_ssz_bytes_Ok {T} (fs : Fields T) wf bs v :
  FieldsOk fs wf -> nfields fs <> 0%nat ->
  fields_from_ssz_bytes fs bs = Ok v <->
  flen fs <= zlen bs /\ flen fs < U64 /\
  next_offset (zlen bs) (slots_of bs 0 fs) = flen fs /\
  offsets_ok (zlen bs) (flen fs) (slots_of bs 0 fs) /\
  decode_slots bs fs (resolve (zlen bs) (slots_of bs 0 fs)) = Ok v.
Proof.
  intros Hfs Hn. rewrite (fields_from_ssz_bytes_eq _ _ _ Hfs Hn).
  pose proof (flen_pos _ _ Hfs Hn) as Hpos. split.
  - intros (d & Hr & (d' & Hm & Hd)%bind_Ok_inv)%bind_Ok_inv.
    apply (register_fields_Ok _ _ _ _ Hfs) in Hr as [Hb ->]; [|done].
    apply maybe_resolve_offsets_Ok in Hm as (? & ? & ->); [|done].
    cbn in *. split_and!; done || lia.
  - intros (? & ? & ? & ? & Hd).
    destruct (register_fields_Ok fs wf (decoder_new bs) (mkDecoder bs (flen fs) (slots_of bs 0 fs) 0 0) Hfs)
      as [_ Hr]; [done|]. rewrite Hr by (split; [right; cbn; lia|done]).
    cbn [mbind result_bind].
    set (d := mkDecoder _ _ _ _ _).
    destruct (maybe_resolve_offsets_Ok d (mkDecoder bs (flen fs)
      (resolve (zlen bs) (slots_of bs 0 fs)) 0 (flen fs))) as [_ Hm]; [done|].
    rewrite Hm by (split_and!; done). done.
Qed.

(** ** The layout the encoder writes *)

(** Fixed region with the running offset as an unbounded integer. *)
Fixpoint fixedpart {T} (fs : Fields T) : T -> Z -> bytes :=
  match fs with
  | FNil => fun _ _ => []
  | FCons c fs => fun '(a, v) off =>
      if IS_FIXED_SIZE c then as_ssz_bytes c a ++ fixedpart fs v off
      else to_le_bytes 4 off ++ fixedpart fs v (off + zlen (as_ssz_bytes c a))
  end.

Fixpoint varpart {T} (fs : Fields T) : T -> bytes :=
  match fs with
  | FNil => fun _ => []
  | FCons c fs => fun '(a, v) =>
      (if IS_FIXED_SIZE c then [] else as_ssz_bytes c a) ++ varpart fs v
  end.

(** The offsets written into the fixed region. *)
Fixpoint written {T} (fs : Fields T) : T -> Z -> list Z :=
  match fs with
  | FNil => fun _ _ => []
  | FCons c fs => fun '(a, v) off =>
      if IS_FIXED_SIZE c then written fs v off
      else off :: written fs v (off + zlen (as_ssz_bytes c a))
  end.

(** The slots that registration reads back from an encoding. *)
Fixpoint enc_slots {T} (fs : Fields T) : T -> Z -> Z -> list FieldSlot :=
  match fs with
  | FNil => fun _ _ _ => []
  | FCons c fs => fun '(a, v) cur off =>
      if IS_FIXED_SIZE c
      then Fixed cur (ssz_fixed_len c) :: enc_slots fs v (cur + ssz_fixed_len c) off
      else Variable_ off 0
             :: enc_slots fs v (cur + ssz_fixed_len c) (off + zlen (as_ssz_bytes c a))
  end.

Lemma var_pass_app {T} (fs : Fields T) wf v buf :
  FieldsOk fs wf -> var_pass fs v buf = buf ++ varpart fs v.
Proof.
  intros Hfs. revert v buf; induction Hfs as [|A B c wfa fs wfb Hc Hfs IH];
    [intros; by rewrite app_nil_r|intros [a v] buf]; cbn.
  rewrite IH. destruct (IS_FIXED_SIZE c); [done|]. by rewrite append_app, <-app_assoc.
Qed.

Lemma fixed_pass_app {T} (fs : Fields T) wf v off buf :
  FieldsOk fs wf -> fixed_pass fs v off buf = buf ++ fixed_pass fs v off [].
Proof.
  intros Hfs. revert v off buf; induction Hfs as [|A B c wfa fs wfb Hc Hfs IH];
    [intros; by rewrite app_nil_r|intros [a v] off buf]; cbn.
  destruct (IS_FIXED_SIZE c).
  - rewrite IH, (IH _ _ (ssz_append c a [])), (append_app _ buf). by rewrite <-app_assoc.
  - rewrite IH, (IH _ _ (to_le_bytes _ _)). by rewrite <-app_assoc.
Qed.

Lemma fixed_pass_length {T} (fs : Fields T) wf v off :
  FieldsOk fs wf -> wf v -> zlen (fixed_pass fs v off []) = flen fs.
Proof.
  intros Hfs. revert v off; induction Hfs as [|A B c wfa fs wfb Hc Hfs IH];
    [done|intros [a v] off [Ha Hv]]; cbn.
  pose proof (variable_fixed_len (c:=c)) as Hvl. pose proof (fixed_len_exact a) as Hfl.
  destruct (IS_FIXED_SIZE c); rewrite (fixed_pass_app _ _ _ _ _ Hfs), zlen_app, IH by done.
  - by rewrite <-(Hfl eq_refl Ha).
  - by rewrite zlen_to_le_bytes, Hvl.
Qed.

Lemma written_nil {T} (fs : Fields T) v off :
  written fs v off = [] -> forall wf o1 o2 buf, FieldsOk fs wf ->
  fixed_pass fs v o1 buf = buf ++ fixedpart fs v o2.
Proof.
  intros Hw wf o1 o2 buf Hfs. revert v Hw buf.
  induction Hfs as [|A B c wfa fs wfb Hc Hfs IH];
    [intros; by rewrite app_nil_r|intros [a v] Hw buf]; cbn in *.
  destruct (IS_FIXED_SIZE c); [|done].
  by rewrite IH, append_app, <-app_assoc.
Qed.

Lemma fixed_pass_spec {T} (fs : Fields T) wf v off buf :
  FieldsOk fs wf -> wf v -> Forall (fun o => 0 <= o < U32) (written fs v off) ->
  fixed_pass fs v off buf = buf ++ fixedpart fs v off.
Proof.
  intros Hfs. revert v off buf; induction Hfs as [|A B c wfa fs wfb Hc Hfs IH];
    [intros; by rewrite app_nil_r|intros [a v] off buf [Ha Hv] Hb]; cbn in *.
  destruct (IS_FIXED_SIZE c).
  - by rewrite IH, append_app, <-app_assoc.
  - apply Forall_cons in Hb as [Ho Hb]. unfold as_u32. rewrite Z.mod_small by lia.
    destruct (written fs v (off + zlen (as_ssz_bytes c a))) as [|o os] eqn:Hw.
    + rewrite (written_nil _ _ _ Hw _ _ (off + zlen (as_ssz_bytes c a)) _ Hfs).
      by rewrite <-app_assoc.
    + assert (off + zlen (as_ssz_bytes c a) < U32) as Hlt.
      { assert (o = off + zlen (as_ssz_bytes c a)) as <-.
        { clear -Hw. revert v Hw. generalize (off + zlen (as_ssz_bytes c a)) as off'.
          induction fs as [|A' B' c' fs IH]; [done|intros off' [a' v]]; cbn.
          destruct (IS_FIXED_SIZE c'); [apply IH|by intros [= ->]]. }
        apply Forall_cons in Hb as [? _]. lia. }
      pose proof (zlen_nonneg (as_ssz_bytes c a)). unfold U32, U64 in *.
      rewrite bytes_len_exact by (done || unfold U64; lia).
      rewrite wadd_small by (unfold U64; lia). rewrite IH; [by rewrite <-app_assoc|done|].
      by rewrite Hw.
Qed.

Lemma fields_bytes_len_spec {T} (fs : Fields T) wf v len :
  FieldsOk fs wf -> wf v -> 0 <= len -> len + flen fs + zlen (varpart fs v) < U64 ->
  fields_bytes_len fs v len = len + flen fs + zlen (varpart fs v).
Proof.
  intros Hfs. revert v len; induction Hfs as [|A B c wfa fs wfb Hc Hfs IH];
    [intros; unfold zlen; cbn; lia|intros [a v] len [Ha Hv] Hl Hb]; cbn in *.
  pose proof (variable_fixed_len (c:=c)) as Hvl. pose proof (fixed_len_bounds (c:=c)).
  pose proof (flen_nonneg _ _ Hfs). pose proof (zlen_nonneg (varpart fs v)).
  pose proof (zlen_nonneg (as_ssz_bytes c a)). rewrite zlen_app in *.
  destruct (IS_FIXED_SIZE c).
  - rewrite zlen_nil in *. rewrite wadd_small by lia. rewrite IH; lia || done.
  - rewrite Hvl in * by done. rewrite bytes_len_exact by (done || lia).
    unfold BYTES_PER_LENGTH_OFFSET in *.
    rewrite (wadd_small len 4), wadd_small by lia. rewrite IH; lia || done.
Qed.

(** ** Round trip and canonicity of the layout *)
Lemma slots_of_encoded {T} (fs : Fields T) wf v pre off rest :
  FieldsOk fs wf -> wf v -> Forall (fun o => 0 <= o < U32) (written fs v off) ->
  slots_of (pre ++ fixedpart fs v off ++ rest) (zlen pre) fs = enc_slots fs v (zlen pre) off.
Proof.
  intros Hfs. revert v pre off; induction Hfs as [|A B c wfa fs wfb Hc Hfs IH];
    [done|intros [a v] pre off [Ha Hv] Hb]; cbn in *.
  pose proof (variable_fixed_len (c:=c)) as Hvl. pose proof (fixed_len_exact a) as Hfl.
  destruct (IS_FIXED_SIZE c).
  - f_equal. specialize (IH v (pre ++ as_ssz_bytes c a) off).
    rewrite zlen_app, Hfl, <-!app_assoc in IH by done.
    rewrite <-app_assoc. by apply IH.
  - apply Forall_cons in Hb as [Ho Hb]. f_equal.
    + unfold zlen. rewrite Nat2Z.id, drop_app_length, <-app_assoc.
      rewrite take_app_length' by (by rewrite length_to_le_bytes).
      by rewrite from_to_le_bytes.
    + specialize (IH v (pre ++ to_le_bytes 4 off) (off + zlen (as_ssz_bytes c a)) Hv Hb).
      rewrite zlen_app, zlen_to_le_bytes, <-!app_assoc in IH.
      rewrite <-app_assoc, Hvl by done. exact IH.
Qed.

Lemma next_offset_enc {T} (fs : Fields T) v cur off total :
  off + zlen (varpart fs v) = total -> next_offset total (enc_slots fs v cur off) = off.
Proof.
  revert v cur off; induction fs as [|A B c fs IH];
    [intros; unfold zlen in *; cbn in *; lia|intros [a v] cur off]; cbn.
  destruct (IS_FIXED_SIZE c); cbn; [apply IH|done].
Qed.

Lemma offsets_ok_enc {T} (fs : Fields T) v cur off total prev :
  prev <= off -> off + zlen (varpart fs v) <= total ->
  offsets_ok total prev (enc_slots fs v cur off).
Proof.
  revert v cur off prev; induction fs as [|A B c fs IH];
    [done|intros [a v] cur off prev]; cbn.
  rewrite zlen_app. pose proof (zlen_nonneg (varpart fs v)).
  destruct (IS_FIXED_SIZE c); cbn; intros.
  - apply IH; rewrite ?zlen_nil in *; lia.
  - pose proof (zlen_nonneg (as_ssz_bytes c a)). split; [lia|]. apply IH; lia.
Qed.

Lemma decode_slots_enc {T} (fs : Fields T) wf v bs preF restF preV off :
  FieldsOk fs wf -> wf v -> zlen bs < U32 ->
  bs = preF ++ fixedpart fs v off ++ restF -> bs = preV ++ varpart fs v -> off = zlen preV ->
  decode_slots bs fs (resolve (zlen bs) (enc_slots fs v (zlen preF) off)) = Ok v.
Proof.
  intros Hfs. revert v preF preV off; induction Hfs as [|A B c wfa fs wfb Hc Hfs IH].
  { by intros []. }
  intros [a v] preF preV off [Ha Hv] Hb HF HV Hoff. cbn in *.
  pose proof (variable_fixed_len (c:=c)) as Hvl. pose proof (fixed_len_exact a) as Hfl.
  assert (zlen (as_ssz_bytes c a) < U32) as Hsz.
  { destruct (IS_FIXED_SIZE c).
    - rewrite HF, !zlen_app in Hb. pose proof (zlen_nonneg preF).
      pose proof (zlen_nonneg restF). pose proof (zlen_nonneg (fixedpart fs v off)). lia.
    - rewrite HV, !zlen_app in Hb. pose proof (zlen_nonneg preV).
      pose proof (zlen_nonneg (varpart fs v)). lia. }
  destruct (IS_FIXED_SIZE c); cbn [resolve decode_slots slot_slice].
  - rewrite <-Hfl by done. rewrite <-app_assoc in HF.
    rewrite HF at 1. rewrite slice_middle by done. cbn [mbind result_bind].
    rewrite decode_encode by done. cbn [mbind result_bind].
    specialize (IH v (preF ++ as_ssz_bytes c a) preV off Hv Hb).
    rewrite zlen_app, <-!app_assoc in IH. by rewrite IH.
  - rewrite next_offset_enc; last first.
    { rewrite HV at 1. rewrite !zlen_app. lia. }
    rewrite HV at 1. rewrite slice_middle by (done || lia). cbn [mbind result_bind].
    rewrite decode_encode by done. cbn [mbind result_bind].
    rewrite Hvl by done.
    specialize (IH v (preF ++ to_le_bytes 4 off) (preV ++ as_ssz_bytes c a)
      (off + zlen (as_ssz_bytes c a)) Hv Hb).
    rewrite <-!app_assoc, !zlen_app, zlen_to_le_bytes in IH. rewrite <-app_assoc in HF.
    change (Z.of_nat 4) with BYTES_PER_LENGTH_OFFSET in IH.
    rewrite IH by (done || lia). done.
Qed.

(** Splitting a window of a list. *)
Lemma window_split {A} (l : list A) (cur n m : Z) :
  0 <= cur -> 0 <= n -> 0 <= m ->
  take (Z.to_nat (n + m)) (drop (Z.to_nat cur) l)
  = take (Z.to_nat n) (drop (Z.to_nat cur) l)
    ++ take (Z.to_nat m) (drop (Z.to_nat (cur + n)) l).
Proof.
  intros. rewrite !Z2Nat.inj_add by lia. rewrite <-drop_drop.
  by rewrite take_take_drop.
Qed.

Lemma decode_slots_canonical {T} (fs : Fields T) wf bs cur v :
  FieldsOk fs wf -> 0 <= cur -> cur + flen fs <= zlen bs ->
  let off := next_offset (zlen bs) (slots_of bs cur fs) in
  decode_slots bs fs (resolve (zlen bs) (slots_of bs cur fs)) = Ok v ->
  wf v /\ Forall (fun o => 0 <= o < U32) (written fs v off) /\
  fixedpart fs v off = take (Z.to_nat (flen fs)) (drop (Z.to_nat cur) bs) /\
  0 <= off <= zlen bs /\ varpart fs v = drop (Z.to_nat off) bs.
Proof.
  intros Hfs. revert cur v; induction Hfs as [|A B c wfa fs wfb Hc Hfs IH].
  { intros cur [] H0 Hb off _. subst off. cbn in *. split_and!; try done; [lia|].
    unfold zlen. by rewrite Nat2Z.id, drop_all. }
  intros cur [a v] H0 Hb. cbn zeta. cbn [slots_of flen] in *.
  pose proof (fixed_len_bounds (c:=c)) as Hfb. pose proof (flen_nonneg _ _ Hfs) as Hfn.
  pose proof (variable_fixed_len (c:=c)) as Hvl.
  specialize (IH (cur + ssz_fixed_len c) v).
  cbn [written fixedpart varpart]. rewrite window_split by lia.
  destruct (IS_FIXED_SIZE c) eqn:Hfix; cbn [resolve next_offset decode_slots slot_slice];
    intros (s & Hs & (a' & Ha & (v' & Hv & [= -> ->])%bind_Ok_inv)%bind_Ok_inv)%bind_Ok_inv;
    (destruct IH as (IHwf & IHw & IHf & IHo & IHv); [lia|lia|done|]);
    apply decode_canonical in Ha as [Hwa Ha]; pose proof (slice_zlen _ _ _ _ Hs) as Hsl;
    apply slice_Ok_iff in Hs as (? & ? & Hs).
  - rewrite IHf, Ha, Hs. replace (cur + _ - cur) with (ssz_fixed_len c) by lia.
    split_and!; try done; lia.
  - set (o := from_le_bytes (take 4 (drop (Z.to_nat cur) bs))) in *.
    rewrite Ha, Hsl. replace (o + (_ - o)) with
      (next_offset (zlen bs) (slots_of bs (cur + ssz_fixed_len c) fs)) by lia.
    assert (length (take 4 (drop (Z.to_nat cur) bs)) = 4%nat) as H4.
    { rewrite Hvl in * by done. unfold BYTES_PER_LENGTH_OFFSET, zlen in *.
      rewrite length_take, length_drop. lia. }
    assert (0 <= o < U32) as Hob.
    { pose proof (from_le_bytes_bound (take 4 (drop (Z.to_nat cur) bs))) as Hbd.
      unfold zlen in Hbd. by rewrite H4 in Hbd. }
    split_and!; try done; try lia.
    + by constructor.
    + rewrite IHf, Hvl by done. f_equal. unfold o. by apply to_from_le_bytes.
    + rewrite IHv, Hs. set (o' := next_offset _ _) in *.
      replace (Z.to_nat o') with (Z.to_nat o + Z.to_nat (o' - o))%nat by lia.
      by rewrite <-drop_drop, take_drop.
Qed.

Lemma offsets_ok_next total prev l :
  prev <= total -> offsets_ok total prev l -> prev <= next_offset total l <= total.
Proof. induction l as [|[] l IH]; cbn; [lia|auto|lia]. Qed.

Lemma decode_slots_no_panic {T} (fs : Fields T) wf bs cur prev :
  FieldsOk fs wf -> 0 <= cur -> cur + flen fs <= zlen bs -> 0 <= prev ->
  offsets_ok (zlen bs) prev (slots_of bs cur fs) ->
  decode_slots bs fs (resolve (zlen bs) (slots_of bs cur fs)) <> Panic.
Proof.
  intros Hfs. revert cur prev; induction Hfs as [|A B c wfa fs wfb Hc Hfs IH]; [done|].
  intros cur prev H0 Hb Hp. cbn [slots_of flen] in *.
  pose proof (fixed_len_bounds (c:=c)) as Hfb. pose proof (flen_nonneg _ _ Hfs) as Hfn.
  destruct (IS_FIXED_SIZE c); cbn [resolve offsets_ok decode_slots slot_slice]; intros Ho;
    (apply bind_no_panic; [apply slice_no_panic|intros s _;
      apply bind_no_panic; [apply decode_no_panic|intros a _;
      apply bind_no_panic; [|done]]]); try lia.
  - apply (IH _ prev); done || lia.
  - destruct Ho as [? Ho]. apply offsets_ok_next in Ho; lia.
  - destruct Ho as [? Ho]. apply offsets_ok_next in Ho; lia.
  - destruct Ho as [? Ho]. eapply IH; [..|done]; lia.
Qed.

(** ** The contract of a derived codec *)
Lemma fields_append_app {T} (fs : Fields T) wf v buf :
  FieldsOk fs wf -> fields_append fs v buf = buf ++ fields_append fs v [].
Proof.
  intros Hfs. unfold fields_append.
  rewrite !(var_pass_app _ _ _ _ Hfs), (fixed_pass_app _ _ _ _ buf Hfs).
  by rewrite <-app_assoc.
Qed.

Lemma zlen_fields_append {T} (fs : Fields T) wf v :
  FieldsOk fs wf -> wf v ->
  zlen (fields_append fs v []) = flen fs + zlen (varpart fs v).
Proof.
  intros Hfs Hv. unfold fields_append.
  by rewrite (var_pass_app _ _ _ _ Hfs), zlen_app, (fixed_pass_length _ _ _ _ Hfs Hv).
Qed.

Lemma varpart_fixed {T} (fs : Fields T) v : fields_fixed fs = true -> varpart fs v = [].
Proof.
  revert v; induction fs as [|A B c fs IH]; [done|intros [a v]]; cbn.
  intros [-> ?]%andb_prop. cbn. auto.
Qed.

Lemma written_bound {T} (fs : Fields T) v off o :
  o ∈ written fs v off -> off <= o <= off + zlen (varpart fs v).
Proof.
  revert v off; induction fs as [|A B c fs IH]; [by intros v off ?%elem_of_nil|].
  intros [a v] off; cbn. rewrite zlen_app. pose proof (zlen_nonneg (varpart fs v)).
  destruct (IS_FIXED_SIZE c).
  - intros Ho%IH. rewrite zlen_nil. lia.
  - pose proof (zlen_nonneg (as_ssz_bytes c a)).
    intros [->|Ho%IH]%elem_of_cons; lia.
Qed.

Section derive_ok.
  Context {T R : Type} (fs : Fields T) (wf : T -> Prop) (build : T -> R) (fields : R -> T).
  Context (Hfs : FieldsOk fs wf) (Hne : nfields fs <> 0%nat) (Hlen : flen fs < U64).
  Context (fields_build : forall v, fields (build v) = v).

(** The values a derived decoder can produce: well-formed wire fields, and
    skipped fields at their default. *)
Definition wf_struct (r : R) : Prop := wf (fields r) /\ build (fields r) = r.

Lemma fields_decode_encode v :
  wf v -> zlen (fields_append fs v []) < U32 ->
  fields_from_ssz_bytes fs (fields_append fs v []) = Ok v.
Proof.
  intros Hv Hb. rewrite (zlen_fields_append _ _ _ Hfs Hv) in Hb.
  pose proof (flen_nonneg _ _ Hfs). pose proof (zlen_nonneg (varpart fs v)).
  assert (Forall (fun o => 0 <= o < U32) (written fs v (flen fs))) as Hw.
  { apply Forall_forall. intros o Ho%written_bound. lia. }
  unfold fields_append. rewrite (fields_fixed_len_flen _ _ _ Hfs), Z.add_0_l by lia.
  rewrite (var_pass_app _ _ _ _ Hfs), (fixed_pass_spec _ _ _ _ _ Hfs Hv Hw). cbn [app].
  set (bs := fixedpart fs v (flen fs) ++ varpart fs v).
  assert (zlen (fixedpart fs v (flen fs)) = flen fs) as Hfl.
  { pose proof (fixed_pass_length fs wf v (flen fs) Hfs Hv) as Hl.
    by rewrite (fixed_pass_spec _ _ _ _ _ Hfs Hv Hw) in Hl. }
  assert (zlen bs = flen fs + zlen (varpart fs v)) as Hbs.
  { subst bs. by rewrite zlen_app, Hfl. }
  assert (slots_of bs 0 fs = enc_slots fs v 0 (flen fs)) as Hs.
  { exact (slots_of_encoded fs wf v [] (flen fs) (varpart fs v) Hfs Hv Hw). }
  apply (fields_from_ssz_bytes_Ok _ _ _ _ Hfs Hne). rewrite Hs, next_offset_enc by lia.
  split_and!; try lia.
  - apply offsets_ok_enc; lia.
  - apply (decode_slots_enc fs wf v bs [] (varpart fs v) (fixedpart fs v (flen fs)));
      done || lia.
Qed.

Lemma fields_decode_canonical bs v :
  fields_from_ssz_bytes fs bs = Ok v -> wf v /\ fields_append fs v [] = bs.
Proof.
  intros (Hl & _ & Hnext & _ & Hd)%(fields_from_ssz_bytes_Ok _ _ _ _ Hfs Hne).
  pose proof (flen_nonneg _ _ Hfs) as Hn.
  destruct (decode_slots_canonical fs wf bs 0 v Hfs ltac:(done) Hl Hd)
    as (Hwf & Hw & Hfix & Hoff & Hvar).
  split; [done|]. rewrite Hnext in *. change (Z.to_nat 0) with 0%nat in Hfix.
  rewrite drop_0 in Hfix. unfold fields_append.
  rewrite (fields_fixed_len_flen _ _ _ Hfs), Z.add_0_l by lia.
  rewrite (var_pass_app _ _ _ _ Hfs), (fixed_pass_spec _ _ _ _ _ Hfs Hwf Hw).
  rewrite Hfix, Hvar. cbn [app]. apply take_drop.
Qed.

Lemma fields_decode_no_panic bs : fields_from_ssz_bytes fs bs <> Panic.
Proof.
  rewrite (fields_from_ssz_bytes_eq _ _ _ Hfs Hne).
  apply bind_no_panic; [by eapply register_fields_no_panic|].
  intros d Hr. apply (register_fields_Ok _ _ _ _ Hfs) in Hr as [Hb ->]; [|done].
  apply bind_no_panic; [apply maybe_resolve_offsets_no_panic|].
  intros d Hm. apply maybe_resolve_offsets_Ok in Hm as (_ & Ho & ->); [|done].
  pose proof (flen_pos _ _ Hfs Hne). cbn in *.
  apply (decode_slots_no_panic fs wf bs 0 (flen fs)); [done|lia|lia|lia|exact Ho].
Qed.

#[export] Instance derive_codec_ok : CodecOk (derive_codec fs build fields) wf_struct.
Proof.
  pose proof (flen_pos _ _ Hfs Hne) as Hpos.
  assert (fields_fixed_len fs 0 = flen fs) as Hffl.
  { rewrite (fields_fixed_len_flen _ _ _ Hfs); lia. }
  split; cbn; unfold as_ssz_bytes; cbn.
  - intros. by eapply fields_append_app.
  - rewrite Hffl. destruct (fields_fixed fs); [lia|done].
  - by intros ->.
  - intros r Hfix [Hwf _]. rewrite Hfix, Hffl, (zlen_fields_append _ _ _ Hfs Hwf).
    rewrite varpart_fixed by done. unfold zlen; cbn; lia.
  - intros r [Hwf _]. rewrite (zlen_fields_append _ _ _ Hfs Hwf). intros Hb.
    rewrite (fields_bytes_len_spec _ _ _ _ Hfs Hwf); lia.
  - intros r [Hwf Hr] Hb. rewrite fields_decode_encode by done. cbn. by rewrite Hr.
  - intros bs r (v & Hd & [= <-])%bind_Ok_inv.
    apply fields_decode_canonical in Hd as [??]. unfold wf_struct. by rewrite fields_build.
  - intros bs. apply bind_no_panic; [apply fields_decode_no_panic|done].
Qed.
End derive_ok.

(** ** Properties *)
Section derive_properties.
  Context {T R : Type} (fs : Fields T) (wf : T -> Prop) (build : T -> R) (fields : R -> T).
  Context (Hfs : FieldsOk fs wf) (Hne : nfields fs <> 0%nat) (Hlen : flen fs < U64).
  Context (fields_build : forall v, fields (build v) = v).

(** C5: the derived decoder of a struct accepts exactly the encodings of its
    values.  For every input shorter than 4 GiB, decoding returns [r] if and
    only if [r] is a value of the struct and the input is the encoding of [r]:
    round trip (encode then decode is the identity) and canonicity (no second
    byte string decodes to [r], so no gap, overlap or trailing byte is let
    through the offset table) at once. *)
Theorem derive_decode_iff bs r :
  zlen bs < U32 ->
  from_ssz_bytes (derive_codec fs build fields) bs = Ok r <->
  wf_struct wf build fields r /\ as_ssz_bytes (derive_codec fs build fields) r = bs.
Proof.
  intros Hb. pose proof (derive_codec_ok fs wf build fields Hfs Hne Hlen fields_build) as Hok.
  split; [apply decode_canonical|]. intros [Hwf <-]. by apply decode_encode.
Qed.

(** Decoding an arbitrary byte string with a derived decoder never aborts
    the process: every slice taken through the offset table is in range, and
    no [expect] or [unreachable!] of [SszDecoder] is reached. *)
Theorem derive_decode_no_panic bs :
  from_ssz_bytes (derive_codec fs build fields) bs <> Panic.
Proof.
  pose proof (derive_codec_ok fs wf build fields Hfs Hne Hlen fields_build) as Hok.
  apply decode_no_panic.
Qed.
End derive_properties.
