(* ===== verification/SszBitfield.v ===== *)
(** * SSZ bit collections

    Models [crates/pharos-ssz/src/bitfield.rs]: [Bitvector<N>] and [Bitlist<N>]
    over their byte storage, with the index arithmetic, masks and shifts of the
    source.  The abstract value of a collection is a list of booleans; the
    storage is related to it through the little-endian integer its bytes form. *)

From Stdlib Require Import ZArith Lia.
From S2P Require Import Prelude SszCodec.

(** ** Bits of a byte *)

(** [(b >> k) & 1 == 1]. *)
Definition byte_bit (b : byte) (k : Z) : bool := Z.testbit (byte.unsigned b) k.
(** [b | (1 << k)]. *)
Definition byte_set (b : byte) (k : Z) : byte :=
  byte.of_Z (Z.lor (byte.unsigned b) (Z.shiftl 1 k)).
(** [b & !(1 << k)]. *)
Definition byte_clear (b : byte) (k : Z) : byte :=
  byte.of_Z (Z.ldiff (byte.unsigned b) (Z.shiftl 1 k)).
(** [b.count_ones()]. *)
Definition count_ones (b : byte) : Z :=
  zlen (filter (fun k => byte_bit b k = true) (seqZ 0 8)).
(** [7 - b.leading_zeros()] of a non-zero byte. *)
Definition highest_bit_pos (b : byte) : Z := Z.log2 (byte.unsigned b).

Definition div_ceil (a b : Z) : Z := (a + b - 1) / b.

(** [data[i / 8]] read and written at bit [i]. *)
Definition data_bit (data : bytes) (i : Z) : result SszError bool :=
  b ← index data (i / 8); Ok (byte_bit b (i mod 8)).
Definition data_update (data : bytes) (i : Z) (f : byte -> Z -> byte)
  : result SszError bytes :=
  b ← index data (i / 8);
  Ok (<[Z.to_nat (i / 8) := f b (i mod 8)]> data).

(** ** [Bitvector<N>] *)
Section bitvector.
  Context (N : Z).

Definition bv_BYTE_LEN : Z := div_ceil N 8.
Definition bv_new : bytes := replicate (Z.to_nat bv_BYTE_LEN) Byte.x00.

Definition bv_get (data : bytes) (i : Z) : result SszError (option bool) :=
  if N <=? i then Ok None else b ← data_bit data i; Ok (Some b).

Definition bv_set (data : bytes) (i : Z) (value : bool) : result SszError bytes :=
  if N <=? i then Ok data
  else data_update data i (if value then byte_set else byte_clear).

Definition bv_iter (data : bytes) : result SszError (list bool) :=
  mapM (data_bit data) (seqZ 0 N).

Definition bv_num_set_bits (data : bytes) : Z :=
  foldl (fun acc b => acc + count_ones b) 0 data.

Definition bv_from_ssz_bytes (bs : bytes) : result SszError bytes :=
  if N =? 0 then Err InvalidBitvector
  else if negb (zlen bs =? bv_BYTE_LEN)
  then Err (InvalidByteLength (zlen bs) bv_BYTE_LEN)
  else
    let remainder := N mod 8 in
    if negb (remainder =? 0) then
      last ← expect (last bs);
      let mask := Z.shiftl 1 remainder - 1 in
      if negb (Z.ldiff (byte.unsigned last) mask =? 0) then Err InvalidBitvector
      else Ok bs
    else Ok bs.

Definition bitvector_codec : codec bytes :=
  Codec true bv_BYTE_LEN (fun _ => bv_BYTE_LEN) (fun data buf => buf ++ data)
    bv_from_ssz_bytes.
End bitvector.

(** ** [Bitlist<N>] *)
Record Bitlist : Type := mkBitlist { bl_data : bytes; bit_len : Z }.

Section bitlist.
  Context (N : Z).

Definition bl_new : Bitlist := mkBitlist [] 0.

Definition bl_get (bl : Bitlist) (i : Z) : result SszError (option bool) :=
  if bit_len bl <=? i then Ok None else b ← data_bit (bl_data bl) i; Ok (Some b).

Definition bl_set (bl : Bitlist) (i : Z) (value : bool) : result SszError Bitlist :=
  if bit_len bl <=? i then Ok bl
  else
    data ← data_update (bl_data bl) i (if value then byte_set else byte_clear);
    Ok (mkBitlist data (bit_len bl)).

Definition bl_push (bl : Bitlist) (value : bool) : result SszError Bitlist :=
  if N <=? bit_len bl then Err (BitlistOverflow N)
  else
    let data := if bit_len bl mod 8 =? 0 then bl_data bl ++ [Byte.x00] else bl_data bl in
    let i := bit_len bl in
    data ← (if value then data_update data i byte_set else Ok data);
    Ok (mkBitlist data (bit_len bl + 1)).

Definition bl_iter (bl : Bitlist) : result SszError (list bool) :=
  mapM (data_bit (bl_data bl)) (seqZ 0 (bit_len bl)).

Definition bl_num_set_bits (bl : Bitlist) : result SszError Z :=
  if bit_len bl =? 0 then Ok 0
  else
    let full_bytes := bit_len bl / 8 in
    full ← slice (bl_data bl) 0 full_bytes;
    let count := foldl (fun acc b => acc + count_ones b) 0 full in
    let rem := bit_len bl mod 8 in
    if 0 <? rem then
      b ← index (bl_data bl) full_bytes;
      let mask := Z.shiftl 1 rem - 1 in
      Ok (count + count_ones (byte.of_Z (Z.land (byte.unsigned b) mask)))
    else Ok count.

Definition bl_ssz_bytes_len (bl : Bitlist) : Z := bit_len bl / 8 + 1.

(** The copy [self.data[..data_bytes]] is in range for every [Bitlist] the type
    can hold ([wf_bitlist]). *)
Definition bl_ssz_append (bl : Bitlist) (buf : bytes) : bytes :=
  let byte_len := bl_ssz_bytes_len bl in
  let data_bytes := div_ceil (bit_len bl) 8 in
  let out := take (Z.to_nat data_bytes) (bl_data bl)
             ++ replicate (Z.to_nat (byte_len - data_bytes)) Byte.x00 in
  buf ++ alter (fun b => byte_set b (bit_len bl mod 8)) (Z.to_nat (bit_len bl / 8)) out.

Definition bl_from_ssz_bytes (bs : bytes) : result SszError Bitlist :=
  match last bs with
  | None => Err BitlistMissingLengthBit
  | Some last =>
      if byte.unsigned last =? 0 then Err BitlistMissingLengthBit
      else
        let pos := highest_bit_pos last in
        let bit_len := (zlen bs - 1) * 8 + pos in
        if N <? bit_len then Err (BitlistOverflow N)
        else if bit_len =? 0 then Ok (mkBitlist [] bit_len)
        else
          let data_bytes := div_ceil bit_len 8 in
          data ← slice bs 0 data_bytes;
          if negb (bit_len mod 8 =? 0) then
            b ← index data (data_bytes - 1);
            Ok (mkBitlist (<[Z.to_nat (data_bytes - 1) := byte_clear b pos]> data) bit_len)
          else Ok (mkBitlist data bit_len)
  end.

Definition bitlist_codec : codec Bitlist :=
  Codec false BYTES_PER_LENGTH_OFFSET bl_ssz_bytes_len bl_ssz_append bl_from_ssz_bytes.
End bitlist.

(** ** Abstraction

    The storage as a little-endian integer, and the list of its bits. *)
Definition bits (n : Z) (data : bytes) : list bool :=
  Z.testbit (le_combine data) <$> seqZ 0 n.

(** Exactly [ceil(n / 8)] bytes and no bit at or above position [n]. *)
Definition wf_storage (n : Z) (data : bytes) : Prop :=
  0 <= n /\ zlen data = div_ceil n 8 /\ le_combine data < 2 ^ n.

Definition wf_bitvector (N : Z) (data : bytes) : Prop := wf_storage N data.
Definition wf_bitlist (N : Z) (bl : Bitlist) : Prop :=
  wf_storage (bit_len bl) (bl_data bl) /\ bit_len bl <= N.

Definition bl_bits (bl : Bitlist) : list bool := bits (bit_len bl) (bl_data bl).

(** ** Bits of the storage *)
Lemma byte_unsigned_range b : 0 <= byte.unsigned b < 2 ^ 8.
Proof. apply byte.unsigned_range. Qed.

Lemma byte_unsigned_of_Z z : 0 <= z < 2 ^ 8 -> byte.unsigned (byte.of_Z z) = z.
Proof. intros. rewrite byte.unsigned_of_Z. by apply Z.mod_small. Qed.

Lemma testbit_high z n k : 0 <= z < 2 ^ n -> n <= k -> Z.testbit z k = false.
Proof.
  intros Hz Hk. destruct (decide (z = 0)) as [->|]; [apply Z.testbit_0_l|].
  apply Z.bits_above_log2; [lia|]. destruct Hz as [? Hz].
  apply Z.log2_lt_pow2 in Hz; lia.
Qed.

(** A non-negative integer is below [2^n] when it has no bit from [n] on. *)
Lemma below_pow2_testbit z n :
  0 <= z -> 0 <= n -> (forall k, n <= k -> Z.testbit z k = false) -> z < 2 ^ n.
Proof.
  intros Hz Hn Hk. destruct (decide (z = 0)) as [->|]; [by apply Z.pow_pos_nonneg|].
  apply Z.log2_lt_pow2; [lia|]. apply Z.nle_gt. intros Hle.
  specialize (Hk _ Hle). rewrite Z.bit_log2 in Hk; [done|lia].
Qed.

Lemma testbit_lor_pow2 z k i :
  0 <= i -> 0 <= k -> Z.testbit (Z.lor z (Z.shiftl 1 k)) i = Z.testbit z i || (i =? k).
Proof.
  intros. rewrite Z.lor_spec, Z.shiftl_1_l, Z.pow2_bits_eqb by lia.
  by rewrite Z.eqb_sym.
Qed.

Lemma testbit_ldiff_pow2 z k i :
  0 <= i -> 0 <= k -> Z.testbit (Z.ldiff z (Z.shiftl 1 k)) i = Z.testbit z i && negb (i =? k).
Proof.
  intros. rewrite Z.ldiff_spec, Z.shiftl_1_l, Z.pow2_bits_eqb by lia.
  by rewrite (Z.eqb_sym k).
Qed.

Lemma byte_bit_set b k i :
  0 <= k < 8 -> 0 <= i -> byte_bit (byte_set b k) i = byte_bit b i || (i =? k).
Proof.
  intros Hk Hi. unfold byte_bit, byte_set. pose proof (byte_unsigned_range b).
  rewrite byte_unsigned_of_Z; [apply testbit_lor_pow2; lia|].
  assert (0 <= Z.lor (byte.unsigned b) (Z.shiftl 1 k)).
  { apply Z.lor_nonneg. split; [lia|]. apply Z.shiftl_nonneg. lia. }
  split; [done|]. apply below_pow2_testbit; [done..|]. intros j Hj.
  rewrite testbit_lor_pow2, (testbit_high _ 8) by lia.
  destruct (Z.eqb_spec j k); [lia|done].
Qed.

Lemma byte_bit_clear b k i :
  0 <= k < 8 -> 0 <= i -> byte_bit (byte_clear b k) i = byte_bit b i && negb (i =? k).
Proof.
  intros Hk Hi. unfold byte_bit, byte_clear. pose proof (byte_unsigned_range b).
  rewrite byte_unsigned_of_Z; [apply testbit_ldiff_pow2; lia|].
  assert (0 <= Z.ldiff (byte.unsigned b) (Z.shiftl 1 k)).
  { apply Z.ldiff_nonneg. left; lia. }
  split; [done|]. apply below_pow2_testbit; [done..|]. intros j Hj.
  rewrite testbit_ldiff_pow2, (testbit_high _ 8) by lia. done.
Qed.

(** Bit [i] of the storage integer is bit [i mod 8] of byte [i / 8]. *)
Lemma le_combine_testbit data i :
  0 <= i ->
  Z.testbit (le_combine data) i
  = match data !! Z.to_nat (i / 8) with
    | Some b => byte_bit b (i mod 8)
    | None => false
    end.
Proof.
  revert i; induction data as [|b data IH]; intros i Hi.
  - apply Z.testbit_0_l.
  - change (le_combine (b :: data))
      with (Z.lor (byte.unsigned b) (Z.shiftl (le_combine data) 8)).
    rewrite Z.lor_spec. pose proof (byte_unsigned_range b).
    destruct (decide (i < 8)).
    + rewrite Z.shiftl_spec_low, orb_false_r by lia.
      rewrite Z.div_small, Z.mod_small by lia. done.
    + rewrite (testbit_high (byte.unsigned b) 8) by lia.
      rewrite Z.shiftl_spec, IH by lia. cbn [orb].
      assert (i / 8 = (i - 8) / 8 + 1) as ->.
      { rewrite <-Z.div_add by lia. f_equal. lia. }
      assert (i mod 8 = (i - 8) mod 8) as ->.
      { rewrite <-(Z.mod_add (i - 8) 1) by lia. f_equal. lia. }
      replace (Z.to_nat ((i - 8) / 8 + 1)) with (S (Z.to_nat ((i - 8) / 8))); [done|].
      pose proof (Z.div_pos (i - 8) 8). lia.
Qed.

Lemma le_combine_nonneg data : 0 <= le_combine data.
Proof. apply (from_le_bytes_bound data). Qed.

Lemma div_ceil_8_bounds n : 0 <= n -> n <= 8 * div_ceil n 8 < n + 8.
Proof.
  intros. unfold div_ceil. pose proof (Z.div_mod (n + 8 - 1) 8).
  pose proof (Z.mod_pos_bound (n + 8 - 1) 8). lia.
Qed.

Lemma div_8_lt_ceil i n : 0 <= i < n -> 0 <= i / 8 < div_ceil n 8.
Proof.
  intros. pose proof (div_ceil_8_bounds n). pose proof (Z.div_mod i 8).
  pose proof (Z.mod_pos_bound i 8). lia.
Qed.

Lemma data_bit_Ok data i :
  0 <= i -> i / 8 < zlen data -> data_bit data i = Ok (Z.testbit (le_combine data) i).
Proof.
  intros Hi Hl. unfold data_bit. rewrite le_combine_testbit by done.
  pose proof (Z.div_pos i 8). destruct (index data (i / 8)) as [b| |] eqn:Hb; cbn.
  - apply index_Ok_iff in Hb as [_ ->]. done.
  - unfold index in Hb. repeat case_match; try done.
  - exfalso. eapply (index_no_panic (E:=SszError) data (i / 8)); [lia|done].
Qed.

(** Writing byte [i / 8] with [byte_set]/[byte_clear] changes bit [i] only. *)
Lemma data_update_Ok data i (value : bool) :
  0 <= i -> i / 8 < zlen data ->
  exists data', data_update data i (if value then byte_set else byte_clear) = Ok data' /\
    zlen data' = zlen data /\
    forall j, 0 <= j -> Z.testbit (le_combine data') j
                        = if j =? i then value else Z.testbit (le_combine data) j.
Proof.
  intros Hi Hl. unfold data_update. pose proof (Z.div_pos i 8).
  destruct (lookup_lt_is_Some_2 data (Z.to_nat (i / 8))) as [b Hb].
  { unfold zlen in Hl. lia. }
  assert (index (E:=SszError) data (i / 8) = Ok b) as -> by (apply index_Ok_iff; split; [lia|done]).
  cbn. eexists. split; [done|]. split; [apply zlen_insert|]. intros j Hj.
  rewrite !le_combine_testbit by done.
  pose proof (Z.mod_pos_bound i 8). pose proof (Z.mod_pos_bound j 8).
  destruct (decide (j / 8 = i / 8)) as [He|Hne].
  - rewrite He, list_lookup_insert_eq by (by eapply lookup_lt_Some). rewrite Hb.
    pose proof (Z.div_mod i 8). pose proof (Z.div_mod j 8).
    destruct value; rewrite ?byte_bit_set, ?byte_bit_clear by lia;
      destruct (Z.eqb_spec (j mod 8) (i mod 8)), (Z.eqb_spec j i); subst; try lia;
      by rewrite ?orb_true_r, ?orb_false_r, ?andb_false_r, ?andb_true_r.
  - pose proof (Z.div_pos j 8).
    rewrite list_lookup_insert_ne by lia. by destruct (Z.eqb_spec j i); [subst|].
Qed.

(** Storage of the same length with the same bits is the same storage. *)
Lemma storage_ext d1 d2 :
  zlen d1 = zlen d2 ->
  (forall j, 0 <= j -> Z.testbit (le_combine d1) j = Z.testbit (le_combine d2) j) ->
  d1 = d2.
Proof.
  intros Hl Hb. apply le_combine_inj; [unfold zlen in Hl; lia|]. by apply Z.bits_inj'.
Qed.

Lemma wf_storage_iff n data :
  wf_storage n data <-> 0 <= n /\ zlen data = div_ceil n 8 /\
    forall j, n <= j -> Z.testbit (le_combine data) j = false.
Proof.
  pose proof (le_combine_nonneg data). unfold wf_storage. split.
  - intros (? & ? & ?). split_and!; [done..|]. intros j Hj. by apply (testbit_high _ n).
  - intros (? & ? & ?). split_and!; [done..|]. by apply below_pow2_testbit.
Qed.

Lemma bits_lookup n data i :
  0 <= i < n -> bits n data !! Z.to_nat i = Some (Z.testbit (le_combine data) i).
Proof.
  intros Hi. unfold bits. rewrite list_lookup_fmap.
  rewrite (proj2 (lookup_seqZ 0 n (Z.to_nat i) i)) by lia. done.
Qed.

Lemma zlen_bits n data : 0 <= n -> zlen (bits n data) = n.
Proof. intros. unfold bits, zlen. rewrite length_fmap, length_seqZ. lia. Qed.

(** ** Operations on the abstract value *)
Lemma data_get_refines n data i :
  wf_storage n data -> 0 <= i < n ->
  exists b, data_bit data i = Ok b /\ bits n data !! Z.to_nat i = Some b.
Proof.
  intros (? & Hl & _) Hi. pose proof (div_8_lt_ceil i n Hi).
  eexists. split; [apply data_bit_Ok; lia|by apply bits_lookup].
Qed.

Lemma data_set_refines n data i (value : bool) :
  wf_storage n data -> 0 <= i < n ->
  exists data', data_update data i (if value then byte_set else byte_clear) = Ok data' /\
    wf_storage n data' /\ bits n data' = <[Z.to_nat i := value]> (bits n data).
Proof.
  intros (Hn & Hl & Hb)%wf_storage_iff Hi. pose proof (div_8_lt_ceil i n Hi).
  destruct (data_update_Ok data i value) as (d & Hd & Hdl & Hdb); [lia..|].
  exists d. split; [done|]. split.
  - apply wf_storage_iff. split_and!; [done|lia|]. intros j Hj. rewrite Hdb by lia.
    destruct (Z.eqb_spec j i); [lia|auto].
  - apply list_eq_same_length with (n := Z.to_nat n).
    + rewrite length_insert. unfold bits. by rewrite length_fmap, length_seqZ.
    + unfold bits. by rewrite length_fmap, length_seqZ.
    + intros k x y Hk. rewrite <-(Nat2Z.id k). rewrite bits_lookup by lia.
      intros [= <-]. rewrite Hdb by lia. destruct (Z.eqb_spec (Z.of_nat k) i) as [He|He].
      * subst i. rewrite list_lookup_insert_eq; [by intros [= <-]|].
        pose proof (zlen_bits n data Hn). unfold zlen in *. lia.
      * rewrite list_lookup_insert_ne by lia. rewrite bits_lookup by lia. by intros [= <-].
Qed.

Lemma mapM_data_bit n data :
  0 <= n -> zlen data = div_ceil n 8 ->
  mapM (data_bit data) (seqZ 0 n) = Ok (bits n data).
Proof.
  intros Hn Hl. apply mapM_Ok_Forall2. unfold bits. apply Forall2_fmap_r.
  apply Forall_Forall2_diag, Forall_forall. intros i Hi%elem_of_seqZ.
  apply data_bit_Ok; [lia|]. pose proof (div_8_lt_ceil i n). lia.
Qed.

Lemma bl_push_refines N bl value :
  wf_bitlist N bl -> bit_len bl < N ->
  exists bl', bl_push N bl value = Ok bl' /\ wf_bitlist N bl' /\
    bl_bits bl' = bl_bits bl ++ [value].
Proof.
  intros [(Hn & Hl & Hb)%wf_storage_iff HN] HlN. unfold bl_push.
  destruct (Z.leb_spec N (bit_len bl)); [lia|].
  set (n := bit_len bl) in *.
  set (data := if n mod 8 =? 0 then bl_data bl ++ [Byte.x00] else bl_data bl).
  assert (zlen data = div_ceil (n + 1) 8 /\ le_combine data = le_combine (bl_data bl)) as [Hdl Hdv].
  { subst data. unfold div_ceil in *. pose proof (Z.div_mod n 8). pose proof (Z.mod_pos_bound n 8).
    pose proof (Z.div_mod (n + 8 - 1) 8). pose proof (Z.mod_pos_bound (n + 8 - 1) 8).
    pose proof (Z.div_mod (n + 1 + 8 - 1) 8). pose proof (Z.mod_pos_bound (n + 1 + 8 - 1) 8).
    destruct (Z.eqb_spec (n mod 8) 0); [|split; [lia|done]].
    rewrite zlen_app, le_combine_snoc_0. split; [change (zlen [Byte.x00]) with 1; lia|done]. }
  pose proof (div_8_lt_ceil n (n + 1) ltac:(lia)) as Hdiv.
  assert (exists d, (if value then data_update data n byte_set else Ok data) = Ok d /\
    zlen d = zlen data /\ forall j, 0 <= j -> Z.testbit (le_combine d) j =
      if j =? n then value else Z.testbit (le_combine (bl_data bl)) j) as (d & -> & Hd1 & Hd2).
  { destruct value.
    - destruct (data_update_Ok data n true) as (d & ? & ? & Hbit); [lia..|].
      exists d. rewrite Hdv in Hbit. done.
    - exists data. split_and!; [done..|]. intros j Hj. rewrite Hdv.
      destruct (Z.eqb_spec j n) as [->|]; [apply Hb; lia|done]. }
  cbn. eexists. split; [done|]. unfold wf_bitlist, bl_bits. cbn. split.
  - split; [|lia]. apply wf_storage_iff. split_and!; [lia..|]. intros j Hj.
    rewrite Hd2 by lia. destruct (Z.eqb_spec j n); [lia|]. apply Hb. lia.
  - unfold bits. rewrite seqZ_app, fmap_app by lia. f_equal.
    + apply list_fmap_ext. intros k j [-> ?]%lookup_seqZ. fold n in H0.
      rewrite Hd2 by lia. destruct (Z.eqb_spec (0 + Z.of_nat k) n); [lia|done].
    + rewrite seqZ_cons by lia. rewrite Z.add_0_l. change (Z.pred 1) with 0.
      cbn [fmap list_fmap]. rewrite Hd2, Z.eqb_refl by lia. done.
Qed.

(** ** Wire format *)
Lemma log2_top z k :
  0 <= k -> 0 <= z -> Z.testbit z k = true ->
  (forall j, k < j -> Z.testbit z j = false) -> Z.log2 z = k.
Proof.
  intros Hk Hz Ht Hj. destruct (decide (z = 0)) as [->|].
  { by rewrite Z.testbit_0_l in Ht. }
  pose proof (Z.bit_log2 z ltac:(lia)) as Hl. pose proof (Z.log2_nonneg z).
  destruct (Z.lt_trichotomy (Z.log2 z) k) as [?|[?|?]]; [|done|].
  - by rewrite Z.bits_above_log2 in Ht by lia.
  - by rewrite Hj in Hl by lia.
Qed.

Lemma last_lookup_Z (bs : bytes) b :
  last bs = Some b <-> 0 < zlen bs /\ bs !! Z.to_nat (zlen bs - 1) = Some b.
Proof.
  rewrite last_lookup. unfold zlen.
  replace (Z.to_nat (Z.of_nat (length bs) - 1)) with (pred (length bs)) by lia.
  split; [|by intros [_ ?]]. intros Hb. split; [|done].
  apply lookup_lt_Some in Hb. lia.
Qed.

(** The position of the sentinel: the top bit of the whole input. *)
Lemma sentinel_top bs b :
  last bs = Some b -> byte.unsigned b <> 0 ->
  let n := (zlen bs - 1) * 8 + highest_bit_pos b in
  0 <= highest_bit_pos b < 8 /\ n / 8 = zlen bs - 1 /\ n mod 8 = highest_bit_pos b /\
  Z.testbit (le_combine bs) n = true /\
  forall j, n < j -> Z.testbit (le_combine bs) j = false.
Proof.
  intros [Hp Hb]%last_lookup_Z H0 n. pose proof (byte_unsigned_range b) as Hr.
  assert (0 <= highest_bit_pos b < 8) as Hh.
  { split; [apply Z.log2_nonneg|]. apply Z.log2_lt_pow2; lia. }
  assert (n / 8 = zlen bs - 1 /\ n mod 8 = highest_bit_pos b) as [Hd Hm].
  { subst n. split.
    - symmetry. apply (Z.div_unique _ _ _ (highest_bit_pos b)); lia.
    - symmetry. apply (Z.mod_unique _ _ (zlen bs - 1)); lia. }
  split_and!; try done; try lia.
  - rewrite le_combine_testbit, Hd, Hm, Hb by lia. apply Z.bit_log2. lia.
  - intros j Hj. rewrite le_combine_testbit by lia.
    pose proof (Z.div_mod j 8). pose proof (Z.mod_pos_bound j 8).
    pose proof (Z.div_mod n 8).
    destruct (decide (j / 8 = zlen bs - 1)) as [He|].
    + rewrite He, Hb. apply Z.bits_above_log2; [lia|]. unfold highest_bit_pos in *. lia.
    + rewrite lookup_ge_None_2; [done|]. unfold zlen in *. lia.
Qed.

(** The data part of the input: what [bl_from_ssz_bytes] keeps. *)
Lemma bl_from_ssz_bytes_spec N bs b :
  last bs = Some b -> byte.unsigned b <> 0 ->
  let n := (zlen bs - 1) * 8 + highest_bit_pos b in
  n <= N ->
  exists data, bl_from_ssz_bytes N bs = Ok (mkBitlist data n) /\
    zlen data = div_ceil n 8 /\
    forall j, 0 <= j -> Z.testbit (le_combine data) j
                        = Z.testbit (le_combine bs) j && negb (j =? n).
Proof.
  intros Hlast H0 n HN. destruct (sentinel_top bs b Hlast H0) as (Hh & Hd & Hm & Ht & Habove).
  fold n in Hd, Hm, Ht, Habove.
  unfold bl_from_ssz_bytes. rewrite Hlast. fold n.
  destruct (Z.eqb_spec (byte.unsigned b) 0); [done|].
  destruct (Z.ltb_spec N n); [lia|]. apply last_lookup_Z in Hlast as [Hp Hb].
  assert (0 <= n) by lia. pose proof (div_ceil_8_bounds n ltac:(lia)) as Hc.
  pose proof (Z.div_mod n 8). destruct (Z.eqb_spec n 0) as [Hn|Hn].
  { eexists. split; [done|]. rewrite Hn. split; [done|]. intros j Hj.
    change (le_combine []) with 0. rewrite Z.testbit_0_l.
    destruct (Z.eqb_spec j 0) as [->|]; [by rewrite andb_false_r|].
    rewrite Habove; [done|lia]. }
  assert (div_ceil n 8 <= zlen bs) as Hle by lia.
  rewrite slice_in_range by lia. cbn [mbind result_bind].
  change (Z.to_nat 0) with 0%nat. rewrite drop_0, Z.sub_0_r.
  set (d := take (Z.to_nat (div_ceil n 8)) bs).
  assert (zlen d = div_ceil n 8) as Hdl by (apply zlen_take; lia).
  assert (forall j, 0 <= j < 8 * div_ceil n 8 ->
    Z.testbit (le_combine d) j = Z.testbit (le_combine bs) j) as Hdb.
  { intros j Hj. rewrite !le_combine_testbit by lia. subst d.
    rewrite lookup_take_lt; [done|]. pose proof (Z.div_lt_upper_bound j 8 (div_ceil n 8)).
    pose proof (Z.div_pos j 8). lia. }
  assert (forall j, 8 * div_ceil n 8 <= j -> Z.testbit (le_combine d) j = false) as Hdh.
  { intros j Hj. rewrite le_combine_testbit by lia. rewrite lookup_ge_None_2; [done|].
    pose proof (Z.div_le_lower_bound j 8 (div_ceil n 8)). unfold zlen in Hdl. lia. }
  destruct (Z.eqb_spec (n mod 8) 0) as [Hm0|Hm0]; cbn [negb].
  - exists d. split_and!; [done..|]. intros j Hj.
    assert (8 * div_ceil n 8 = n) as Hcn by lia.
    destruct (decide (j < n)).
    + rewrite Hdb by lia. destruct (Z.eqb_spec j n); [lia|]. by rewrite andb_true_r.
    + rewrite Hdh by lia. destruct (Z.eqb_spec j n); [by rewrite andb_false_r|].
      rewrite Habove; [done|lia].
  - assert (div_ceil n 8 - 1 = n / 8) as Hidx by lia. rewrite Hidx.
    destruct (data_update_Ok d n false) as (d' & Hu & Hul & Hub); [lia..|].
    unfold data_update in Hu. rewrite Hm in Hu.
    destruct (index d (n / 8)) as [b'| |]; [|done..]. cbn in *. injection Hu as <-.
    eexists. split; [done|]. split; [lia|]. intros j Hj. rewrite Hub by lia.
    destruct (Z.eqb_spec j n); [by rewrite andb_false_r|]. rewrite andb_true_r.
    destruct (decide (j < 8 * div_ceil n 8)); [apply Hdb; lia|].
    rewrite Hdh, Habove by lia. done.
Qed.

Lemma alter_update (out : bytes) i f b :
  out !! i = Some b -> alter f i out = <[i := f b]> out.
Proof.
  intros Hb. apply list_eq. intros j. destruct (decide (i = j)) as [<-|].
  - rewrite list_lookup_alter_eq, Hb, list_lookup_insert_eq; [done|].
    by eapply lookup_lt_Some.
  - by rewrite list_lookup_alter_ne, list_lookup_insert_ne.
Qed.

Lemma bl_encoding_spec bl :
  wf_storage (bit_len bl) (bl_data bl) ->
  zlen (bl_ssz_append bl []) = bit_len bl / 8 + 1 /\
  forall j, 0 <= j -> Z.testbit (le_combine (bl_ssz_append bl [])) j
                      = Z.testbit (le_combine (bl_data bl)) j || (j =? bit_len bl).
Proof.
  intros (Hn & Hl & Hb). unfold bl_ssz_append, bl_ssz_bytes_len. cbn [app].
  set (n := bit_len bl) in *. set (dbytes := div_ceil n 8) in *.
  pose proof (div_ceil_8_bounds n Hn) as Hc. fold dbytes in Hc.
  pose proof (Z.div_mod n 8). pose proof (Z.mod_pos_bound n 8). pose proof (Z.div_pos n 8).
  rewrite take_ge by (unfold zlen in Hl; lia).
  set (out := bl_data bl ++ _).
  assert (zlen out = n / 8 + 1) as Hol.
  { subst out. rewrite zlen_app, zlen_replicate. lia. }
  assert (le_combine out = le_combine (bl_data bl)) as Hov.
  { subst out. generalize (Z.to_nat (n / 8 + 1 - dbytes)). intros m.
    rewrite <-(le_combine_app_0 (bl_data bl) m). do 2 f_equal.
    induction m; cbn; [done|by f_equal]. }
  destruct (data_update_Ok out n true) as (d & Hu & Hdl & Hdb); [lia..|].
  unfold data_update in Hu. apply bind_Ok_inv in Hu as (b & Hb' & [= <-]).
  apply index_Ok_iff in Hb' as [_ Hb'].
  rewrite (alter_update _ _ _ _ Hb'). split; [lia|]. intros j Hj.
  rewrite Hdb, Hov by lia. destruct (Z.eqb_spec j n); by rewrite ?orb_true_r, ?orb_false_r.
Qed.

(** The last byte of an encoding holds the sentinel as its top bit. *)
Lemma bl_encoding_last bl :
  wf_storage (bit_len bl) (bl_data bl) ->
  exists b, last (bl_ssz_append bl []) = Some b /\ byte.unsigned b <> 0 /\
    highest_bit_pos b = bit_len bl mod 8.
Proof.
  intros Hwf. destruct (bl_encoding_spec bl Hwf) as [Hl Hb].
  apply wf_storage_iff in Hwf as (Hn & Hdl & Hdh).
  set (bs := bl_ssz_append bl []) in *. set (n := bit_len bl) in *.
  pose proof (Z.div_mod n 8). pose proof (Z.mod_pos_bound n 8). pose proof (Z.div_pos n 8).
  destruct (lookup_lt_is_Some_2 bs (Z.to_nat (n / 8))) as [b Hbn].
  { unfold zlen in Hl. lia. }
  assert (forall j, 0 <= j < 8 -> byte_bit b j = Z.testbit (le_combine bs) (8 * (n / 8) + j)) as Hbb.
  { intros j Hj. rewrite le_combine_testbit by lia.
    rewrite <-(Z.div_unique (8 * (n / 8) + j) 8 (n / 8) j) by lia.
    rewrite <-(Z.mod_unique (8 * (n / 8) + j) 8 (n / 8) j) by lia. by rewrite Hbn. }
  assert (byte_bit b (n mod 8) = true) as Ht.
  { rewrite Hbb, Hb by lia.
    destruct (Z.eqb_spec (8 * (n / 8) + n mod 8) n); [by rewrite orb_true_r|lia]. }
  exists b. split_and!.
  - apply last_lookup_Z. split; [lia|]. rewrite Hl. by rewrite Z.add_simpl_r.
  - intros Hz. unfold byte_bit in Ht. by rewrite Hz, Z.testbit_0_l in Ht.
  - pose proof (byte_unsigned_range b). apply log2_top; [lia|lia|done|].
    intros j Hj. destruct (decide (j < 8)); [|by apply (testbit_high _ 8); lia].
    change (byte_bit b j = false). rewrite Hbb, Hb, Hdh by lia.
    destruct (Z.eqb_spec (8 * (n / 8) + j) n); [lia|done].
Qed.

Lemma bl_decode_encode N bl :
  wf_bitlist N bl -> bl_from_ssz_bytes N (bl_ssz_append bl []) = Ok bl.
Proof.
  intros [Hwf HN]. destruct (bl_encoding_last bl Hwf) as (b & Hlast & H0 & Hpos).
  destruct (bl_encoding_spec bl Hwf) as [Hl Hb]. apply wf_storage_iff in Hwf as (Hn & Hdl & Hdh).
  set (bs := bl_ssz_append bl []) in *. pose proof (Z.div_mod (bit_len bl) 8).
  assert ((zlen bs - 1) * 8 + highest_bit_pos b = bit_len bl) as Hnn by lia.
  destruct (bl_from_ssz_bytes_spec N bs b Hlast H0) as (data & -> & Hdl' & Hdb'); [lia|].
  rewrite Hnn in *. f_equal. destruct bl as [d n]; cbn in *. f_equal.
  apply storage_ext; [lia|]. intros j Hj. rewrite Hdb', Hb by lia.
  destruct (Z.eqb_spec j n); cbn; rewrite ?andb_false_r, ?andb_true_r, ?orb_false_r; [|done].
  symmetry. apply Hdh. lia.
Qed.

(** A decode either fails with an error or is the one [bl_from_ssz_bytes_spec]
    describes. *)
Lemma bl_from_ssz_bytes_cases N bs :
  (exists e, bl_from_ssz_bytes N bs = Err e) \/
  (exists b, last bs = Some b /\ byte.unsigned b <> 0 /\
             (zlen bs - 1) * 8 + highest_bit_pos b <= N).
Proof.
  destruct (last bs) as [b|] eqn:Hlast; unfold bl_from_ssz_bytes; rewrite Hlast; [|eauto].
  destruct (Z.eqb_spec (byte.unsigned b) 0); [eauto|].
  destruct (Z.ltb_spec N ((zlen bs - 1) * 8 + highest_bit_pos b)); [eauto|].
  right. by exists b.
Qed.

Lemma bl_decode_canonical N bs bl :
  bl_from_ssz_bytes N bs = Ok bl -> wf_bitlist N bl /\ bl_ssz_append bl [] = bs.
Proof.
  intros Hd. destruct (bl_from_ssz_bytes_cases N bs) as [[e He]|(b & Hlast & H0 & HnN)].
  { by rewrite He in Hd. }
  destruct (sentinel_top bs b Hlast H0) as (Hh & Hdiv & Hm & Ht & Habove).
  destruct (bl_from_ssz_bytes_spec N bs b Hlast H0 HnN) as (data & Hd' & Hl & Hb).
  set (n := (zlen bs - 1) * 8 + highest_bit_pos b) in *.
  rewrite Hd' in Hd. injection Hd as <-. apply last_lookup_Z in Hlast as [Hpos _].
  assert (wf_storage n data) as Hwf.
  { apply wf_storage_iff. split_and!; [lia|done|]. intros j Hj. rewrite Hb by lia.
    destruct (Z.eqb_spec j n); [by rewrite andb_false_r|]. rewrite Habove by lia. done. }
  split; [done|]. destruct (bl_encoding_spec (mkBitlist data n) Hwf) as [Hel Heb].
  cbn [bit_len bl_data] in *.
  apply storage_ext; [lia|]. intros j Hj. rewrite Heb, Hb by lia.
  destruct (Z.eqb_spec j n) as [->|]; cbn; [by rewrite Ht, orb_true_r|].
  by rewrite andb_true_r, orb_false_r.
Qed.

#[export] Instance bitlist_codec_ok N : CodecOk (bitlist_codec N) (wf_bitlist N).
Proof.
  split; unfold as_ssz_bytes;
    cbn [IS_FIXED_SIZE ssz_fixed_len ssz_bytes_len ssz_append from_ssz_bytes bitlist_codec];
    try done.
  - intros bl [Hwf HN'] _. by destruct (bl_encoding_spec bl Hwf) as [-> _].
  - intros bl Hwf _. by apply bl_decode_encode.
  - apply bl_decode_canonical.
  - intros bs. destruct (bl_from_ssz_bytes_cases N bs) as [[e ->]|(b & Hlast & H0 & HN)]; [done|].
    by destruct (bl_from_ssz_bytes_spec N bs b Hlast H0 HN) as (data & -> & _).
Qed.

(** [last & !mask == 0] says the last byte has no bit from [rem] on. *)
Lemma ldiff_mask_0 z rem :
  0 <= z -> 0 <= rem -> Z.ldiff z (Z.shiftl 1 rem - 1) = 0 <->
  forall j, rem <= j -> Z.testbit z j = false.
Proof.
  intros Hz Hr. assert (Z.shiftl 1 rem - 1 = Z.ones rem) as ->.
  { rewrite Z.shiftl_1_l, Z.ones_equiv. lia. }
  split.
  - intros H j Hj. assert (Z.testbit (Z.ldiff z (Z.ones rem)) j = false) as Ht.
    { by rewrite H, Z.testbit_0_l. }
    rewrite Z.ldiff_spec, Z.ones_spec_high in Ht by lia. by rewrite andb_true_r in Ht.
  - intros H. apply Z.bits_inj'. intros j Hj. rewrite Z.testbit_0_l, Z.ldiff_spec.
    destruct (decide (j < rem)); [rewrite Z.ones_spec_low by lia; apply andb_false_r|].
    rewrite H by lia. done.
Qed.

(** The decoder accepts exactly the well-formed storages. *)
Lemma bv_from_ssz_bytes_Ok N bs data :
  0 < N -> bv_from_ssz_bytes N bs = Ok data <-> data = bs /\ wf_bitvector N bs.
Proof.
  intros HN. unfold bv_from_ssz_bytes, wf_bitvector, bv_BYTE_LEN. rewrite wf_storage_iff.
  pose proof (div_ceil_8_bounds N ltac:(lia)) as Hc. pose proof (Z.mod_pos_bound N 8).
  pose proof (Z.div_mod N 8).
  destruct (Z.eqb_spec N 0); [lia|].
  destruct (Z.eqb_spec (zlen bs) (div_ceil N 8)) as [Hl|]; cbn [negb];
    [|split; [done|by intros (_ & _ & ? & _)]].
  assert (forall j, 8 * div_ceil N 8 <= j -> Z.testbit (le_combine bs) j = false) as Hh.
  { intros j Hj. rewrite le_combine_testbit by lia. rewrite lookup_ge_None_2; [done|].
    pose proof (Z.div_le_lower_bound j 8 (div_ceil N 8)). unfold zlen in Hl. lia. }
  destruct (Z.eqb_spec (N mod 8) 0); cbn [negb].
  { split; [intros [= <-]|by intros [-> _]]. split_and!; [done|lia|done|].
    intros j Hj. apply Hh. lia. }
  destruct (last bs) as [b|] eqn:Hlast; last first.
  { apply last_None in Hlast as ->. rewrite zlen_nil in Hl. lia. }
  apply last_lookup_Z in Hlast as [_ Hb]. cbn [expect mbind result_bind].
  pose proof (byte_unsigned_range b). rewrite Hl in Hb.
  assert (forall k, 0 <= k < 8 ->
    byte_bit b k = Z.testbit (le_combine bs) ((div_ceil N 8 - 1) * 8 + k)) as Hbb.
  { intros k Hk. rewrite le_combine_testbit by lia.
    rewrite <-(Z.div_unique _ 8 (div_ceil N 8 - 1) k) by lia.
    rewrite <-(Z.mod_unique _ 8 (div_ceil N 8 - 1) k) by lia. by rewrite Hb. }
  destruct (Z.eqb_spec (Z.ldiff (byte.unsigned b) (Z.shiftl 1 (N mod 8) - 1)) 0) as [Hm|Hm];
    rewrite ldiff_mask_0 in Hm by lia; cbn [negb].
  - split; [intros [= <-]|by intros [-> _]]. split_and!; [done|lia|done|].
    intros j Hj. destruct (decide (8 * div_ceil N 8 <= j)); [by apply Hh|].
    replace j with ((div_ceil N 8 - 1) * 8 + (j - (div_ceil N 8 - 1) * 8)) by lia.
    rewrite <-Hbb by lia. apply Hm. lia.
  - split; [done|]. intros (_ & _ & _ & Hall). destruct Hm. intros j Hj.
    destruct (decide (j < 8)); [|apply (testbit_high _ 8); lia].
    change (byte_bit b j = false). rewrite Hbb by lia. apply Hall. lia.
Qed.

#[export] Instance bitvector_codec_ok N :
  0 < N -> N < U64 -> CodecOk (bitvector_codec N) (wf_bitvector N).
Proof.
  intros HN HU. pose proof (div_ceil_8_bounds N ltac:(lia)).
  split; unfold as_ssz_bytes;
    cbn [IS_FIXED_SIZE ssz_fixed_len ssz_bytes_len ssz_append from_ssz_bytes bitvector_codec app];
    try done.
  - unfold bv_BYTE_LEN. lia.
  - by intros v _ (_ & -> & _).
  - by intros v (_ & -> & _) _.
  - intros v Hv _. by apply bv_from_ssz_bytes_Ok.
  - by intros bs v [-> Hv]%bv_from_ssz_bytes_Ok.
  - intros bs. unfold bv_from_ssz_bytes. destruct (Z.eqb_spec N 0); [done|].
    destruct (Z.eqb_spec (zlen bs) (bv_BYTE_LEN N)) as [Hl|]; [|done]. cbn [negb].
    case_bool Hr; [|done]. destruct (last bs) eqn:Hlast; cbn.
    + by case_bool Hb.
    + apply last_None in Hlast as ->. rewrite zlen_nil in Hl. unfold bv_BYTE_LEN in Hl. lia.
Qed.

(** ** Properties *)

(** [Bitlist<N>] refines a list of at most [N] booleans.  Its storage
    invariant holds initially and is kept by every operation; [get], [set],
    [push] and [iter] act on the list, [push] fails exactly at the limit, and
    no operation indexes its storage out of range. *)
Theorem bitlist_refines_list (N : Z) (bl : Bitlist) :
  wf_bitlist N bl ->
  zlen (bl_bits bl) = bit_len bl /\
  bl_iter bl = Ok (bl_bits bl) /\
  (forall i, 0 <= i -> bl_get bl i = Ok (bl_bits bl !! Z.to_nat i)) /\
  (forall i v, 0 <= i -> exists bl', bl_set bl i v = Ok bl' /\ wf_bitlist N bl' /\
     bl_bits bl' = <[Z.to_nat i := v]> (bl_bits bl)) /\
  (forall v, if bit_len bl <? N
             then exists bl', bl_push N bl v = Ok bl' /\ wf_bitlist N bl' /\
                  bl_bits bl' = bl_bits bl ++ [v]
             else bl_push N bl v = Err (BitlistOverflow N)).
Proof.
  intros Hwf. pose proof Hwf as [Hst HN]. pose proof Hst as (Hn & Hl & _).
  pose proof (zlen_bits (bit_len bl) (bl_data bl) Hn) as Hbl. fold (bl_bits bl) in Hbl.
  split_and!; [done|by apply mapM_data_bit|..].
  - intros i Hi. unfold bl_get. destruct (Z.leb_spec (bit_len bl) i).
    + rewrite lookup_ge_None_2; [done|]. unfold zlen in Hbl. lia.
    + destruct (data_get_refines (bit_len bl) (bl_data bl) i Hst) as (b & -> & Hb); [lia|].
      unfold bl_bits. by rewrite Hb.
  - intros i v Hi. unfold bl_set. destruct (Z.leb_spec (bit_len bl) i).
    + exists bl. split_and!; [done..|]. rewrite list_insert_ge; [done|].
      unfold zlen in Hbl. lia.
    + destruct (data_set_refines (bit_len bl) (bl_data bl) i v Hst) as (d & -> & ? & ?); [lia|].
      cbn. eexists. split; [done|]. by split.
  - intros v. destruct (Z.ltb_spec (bit_len bl) N); [by apply bl_push_refines|].
    unfold bl_push. by destruct (Z.leb_spec N (bit_len bl)); [|lia].
Qed.

Lemma bitlist_refines_list_witness :
  let bl := mkBitlist [Byte.xff; Byte.x01] 9 in
  wf_bitlist 10 bl /\ bl_iter bl = Ok (bl_bits bl) /\ bl_bits bl = replicate 9 true.
Proof.
  intros bl. assert (wf_bitlist 10 bl) as Hwf.
  { split; [split_and!; vm_compute; congruence|vm_compute; congruence]. }
  split; [exact Hwf|]. split; [|vm_compute; reflexivity].
  apply (bitlist_refines_list 10 bl Hwf).
Defined.

(** The sentinel encoding of [Bitlist<N>] is canonical: a byte string
    decodes to [bl] if and only if [bl] is within its limit, has no stray
    storage bit, and the byte string is its encoding; decoding never aborts. *)
Theorem bitlist_decode_iff (N : Z) (bs : bytes) :
  (forall bl, from_ssz_bytes (bitlist_codec N) bs = Ok bl <->
     wf_bitlist N bl /\ as_ssz_bytes (bitlist_codec N) bl = bs) /\
  from_ssz_bytes (bitlist_codec N) bs <> Panic.
Proof.
  split; [|apply decode_no_panic]. intros bl. split; [apply decode_canonical|].
  intros [Hwf <-]. by apply bl_decode_encode.
Qed.
