(* ===== verification/SszTypes.v ===== *)
(** * Phase 0 containers

    The structs of [crates/pharos-types/src/phase0/{misc,operations}.rs] as
    records, with the codecs their [#[derive(Encode, Decode)]] produce.  [Slot],
    [Epoch], [Gwei], [ValidatorIndex] and [CommitteeIndex] are transparent over
    [u64] ([pharos-ssz/src/newtypes.rs]); [Root], [BLSPubkey], ... are
    [FixedBytes<N>].  The [OnceLock] root cache of [Validator] is a skipped
    field whose clone is always empty; it holds no observable value and is left
    out of the record. *)

From Stdlib Require Import ZArith Lia.
From S2P Require Import Prelude SszCodec SszContainer SszBitfield.

Definition u64_codec : codec Z := uint_codec 8.
Definition root_codec : codec bytes := fixed_bytes_codec 32.

Record Fork : Type := mkFork {
  fork_previous_version : bytes;
  fork_current_version : bytes;
  fork_epoch : Z;
}.

Definition fork_codec : codec Fork :=
  derive_codec (FCons (fixed_bytes_codec 4) (FCons (fixed_bytes_codec 4) (FCons u64_codec
    FNil)))
    (fun '(x0, (x1, (x2, _))) => mkFork x0 x1 x2)
    (fun r => (fork_previous_version r, (fork_current_version r, (fork_epoch r, tt)))).

Record ForkData : Type := mkForkData {
  fd_current_version : bytes;
  fd_genesis_validators_root : bytes;
}.

Definition fork_data_codec : codec ForkData :=
  derive_codec (FCons (fixed_bytes_codec 4) (FCons root_codec FNil))
    (fun '(x0, (x1, _)) => mkForkData x0 x1)
    (fun r => (fd_current_version r, (fd_genesis_validators_root r, tt))).

Record Checkpoint : Type := mkCheckpoint {
  cp_epoch : Z;
  cp_root : bytes;
}.

Definition checkpoint_codec : codec Checkpoint :=
  derive_codec (FCons u64_codec (FCons root_codec FNil))
    (fun '(x0, (x1, _)) => mkCheckpoint x0 x1)
    (fun r => (cp_epoch r, (cp_root r, tt))).

Record Validator : Type := mkValidator {
  v_pubkey : bytes;
  v_withdrawal_credentials : bytes;
  v_effective_balance : Z;
  v_slashed : bool;
  v_activation_eligibility_epoch : Z;
  v_activation_epoch : Z;
  v_exit_epoch : Z;
  v_withdrawable_epoch : Z;
}.

Definition validator_codec : codec Validator :=
  derive_codec (FCons (fixed_bytes_codec 48) (FCons root_codec (FCons u64_codec (FCons
    bool_codec (FCons u64_codec (FCons u64_codec (FCons u64_codec (FCons u64_codec FNil))))))))
    (fun '(x0, (x1, (x2, (x3, (x4, (x5, (x6, (x7, _)))))))) => mkValidator x0 x1 x2 x3 x4 x5 x6
      x7)
    (fun r => (v_pubkey r, (v_withdrawal_credentials r, (v_effective_balance r, (v_slashed r,
      (v_activation_eligibility_epoch r, (v_activation_epoch r, (v_exit_epoch r,
        (v_withdrawable_epoch r, tt))))))))).

Record AttestationData : Type := mkAttestationData {
  ad_slot : Z;
  ad_index : Z;
  ad_beacon_block_root : bytes;
  ad_source : Checkpoint;
  ad_target : Checkpoint;
}.

Definition attestation_data_codec : codec AttestationData :=
  derive_codec (FCons u64_codec (FCons u64_codec (FCons root_codec (FCons checkpoint_codec
    (FCons checkpoint_codec FNil)))))
    (fun '(x0, (x1, (x2, (x3, (x4, _))))) => mkAttestationData x0 x1 x2 x3 x4)
    (fun r => (ad_slot r, (ad_index r, (ad_beacon_block_root r, (ad_source r, (ad_target r,
      tt)))))).

Record Eth1Data : Type := mkEth1Data {
  e1_deposit_root : bytes;
  e1_deposit_count : Z;
  e1_block_hash : bytes;
}.

Definition eth1_data_codec : codec Eth1Data :=
  derive_codec (FCons root_codec (FCons u64_codec (FCons root_codec FNil)))
    (fun '(x0, (x1, (x2, _))) => mkEth1Data x0 x1 x2)
    (fun r => (e1_deposit_root r, (e1_deposit_count r, (e1_block_hash r, tt)))).

Record IndexedAttestation : Type := mkIndexedAttestation {
  ia_attesting_indices : list Z;
  ia_data : AttestationData;
  ia_signature : bytes;
}.

Definition indexed_attestation_codec (MAX_VALIDATORS_PER_COMMITTEE : Z) : codec
  IndexedAttestation :=
  derive_codec (FCons (list_codec u64_codec MAX_VALIDATORS_PER_COMMITTEE) (FCons
    attestation_data_codec (FCons (fixed_bytes_codec 96) FNil)))
    (fun '(x0, (x1, (x2, _))) => mkIndexedAttestation x0 x1 x2)
    (fun r => (ia_attesting_indices r, (ia_data r, (ia_signature r, tt)))).

Record PendingAttestation : Type := mkPendingAttestation {
  pa_aggregation_bits : Bitlist;
  pa_data : AttestationData;
  pa_inclusion_delay : Z;
  pa_proposer_index : Z;
}.

Definition pending_attestation_codec (MAX_VALIDATORS_PER_COMMITTEE : Z) : codec
  PendingAttestation :=
  derive_codec (FCons (bitlist_codec MAX_VALIDATORS_PER_COMMITTEE) (FCons
    attestation_data_codec (FCons u64_codec (FCons u64_codec FNil))))
    (fun '(x0, (x1, (x2, (x3, _)))) => mkPendingAttestation x0 x1 x2 x3)
    (fun r => (pa_aggregation_bits r, (pa_data r, (pa_inclusion_delay r, (pa_proposer_index r,
      tt))))).

Record DepositData : Type := mkDepositData {
  dd_pubkey : bytes;
  dd_withdrawal_credentials : bytes;
  dd_amount : Z;
  dd_signature : bytes;
}.

Definition deposit_data_codec : codec DepositData :=
  derive_codec (FCons (fixed_bytes_codec 48) (FCons root_codec (FCons u64_codec (FCons
    (fixed_bytes_codec 96) FNil))))
    (fun '(x0, (x1, (x2, (x3, _)))) => mkDepositData x0 x1 x2 x3)
    (fun r => (dd_pubkey r, (dd_withdrawal_credentials r, (dd_amount r, (dd_signature r,
      tt))))).

Record BeaconBlockHeader : Type := mkBeaconBlockHeader {
  bh_slot : Z;
  bh_proposer_index : Z;
  bh_parent_root : bytes;
  bh_state_root : bytes;
  bh_body_root : bytes;
}.

Definition beacon_block_header_codec : codec BeaconBlockHeader :=
  derive_codec (FCons u64_codec (FCons u64_codec (FCons root_codec (FCons root_codec (FCons
    root_codec FNil)))))
    (fun '(x0, (x1, (x2, (x3, (x4, _))))) => mkBeaconBlockHeader x0 x1 x2 x3 x4)
    (fun r => (bh_slot r, (bh_proposer_index r, (bh_parent_root r, (bh_state_root r,
      (bh_body_root r, tt)))))).

Record SignedBeaconBlockHeader : Type := mkSignedBeaconBlockHeader {
  sbh_message : BeaconBlockHeader;
  sbh_signature : bytes;
}.

Definition signed_beacon_block_header_codec : codec SignedBeaconBlockHeader :=
  derive_codec (FCons beacon_block_header_codec (FCons (fixed_bytes_codec 96) FNil))
    (fun '(x0, (x1, _)) => mkSignedBeaconBlockHeader x0 x1)
    (fun r => (sbh_message r, (sbh_signature r, tt))).

Record ProposerSlashing : Type := mkProposerSlashing {
  ps_signed_header_1 : SignedBeaconBlockHeader;
  ps_signed_header_2 : SignedBeaconBlockHeader;
}.

Definition proposer_slashing_codec : codec ProposerSlashing :=
  derive_codec (FCons signed_beacon_block_header_codec (FCons signed_beacon_block_header_codec
    FNil))
    (fun '(x0, (x1, _)) => mkProposerSlashing x0 x1)
    (fun r => (ps_signed_header_1 r, (ps_signed_header_2 r, tt))).

Record AttesterSlashing : Type := mkAttesterSlashing {
  as_attestation_1 : IndexedAttestation;
  as_attestation_2 : IndexedAttestation;
}.

Definition attester_slashing_codec (MAX_VALIDATORS_PER_COMMITTEE : Z) : codec AttesterSlashing
  :=
  derive_codec (FCons (indexed_attestation_codec MAX_VALIDATORS_PER_COMMITTEE) (FCons
    (indexed_attestation_codec MAX_VALIDATORS_PER_COMMITTEE) FNil))
    (fun '(x0, (x1, _)) => mkAttesterSlashing x0 x1)
    (fun r => (as_attestation_1 r, (as_attestation_2 r, tt))).

Record Attestation : Type := mkAttestation {
  att_aggregation_bits : Bitlist;
  att_data : AttestationData;
  att_signature : bytes;
}.

Definition attestation_codec (MAX_VALIDATORS_PER_COMMITTEE : Z) : codec Attestation :=
  derive_codec (FCons (bitlist_codec MAX_VALIDATORS_PER_COMMITTEE) (FCons
    attestation_data_codec (FCons (fixed_bytes_codec 96) FNil)))
    (fun '(x0, (x1, (x2, _))) => mkAttestation x0 x1 x2)
    (fun r => (att_aggregation_bits r, (att_data r, (att_signature r, tt)))).

Record VoluntaryExit : Type := mkVoluntaryExit {
  ve_epoch : Z;
  ve_validator_index : Z;
}.

Definition voluntary_exit_codec : codec VoluntaryExit :=
  derive_codec (FCons u64_codec (FCons u64_codec FNil))
    (fun '(x0, (x1, _)) => mkVoluntaryExit x0 x1)
    (fun r => (ve_epoch r, (ve_validator_index r, tt))).

Record SignedVoluntaryExit : Type := mkSignedVoluntaryExit {
  sve_message : VoluntaryExit;
  sve_signature : bytes;
}.

Definition signed_voluntary_exit_codec : codec SignedVoluntaryExit :=
  derive_codec (FCons voluntary_exit_codec (FCons (fixed_bytes_codec 96) FNil))
    (fun '(x0, (x1, _)) => mkSignedVoluntaryExit x0 x1)
    (fun r => (sve_message r, (sve_signature r, tt))).

Record Deposit : Type := mkDeposit {
  dep_proof : list bytes;
  dep_data : DepositData;
}.

Definition deposit_codec (DEPOSIT_PROOF_LENGTH : Z) : codec Deposit :=
  derive_codec (FCons (vector_codec root_codec DEPOSIT_PROOF_LENGTH) (FCons deposit_data_codec
    FNil))
    (fun '(x0, (x1, _)) => mkDeposit x0 x1)
    (fun r => (dep_proof r, (dep_data r, tt))).

(** ** Every container meets the codec contract *)
#[export] Instance u64_codec_ok : CodecOk u64_codec (wf_uint 8).
Proof. apply uint_codec_ok; [lia|done]. Qed.
#[export] Instance root_codec_ok : CodecOk root_codec (wf_fixed_bytes 32).
Proof. apply fixed_bytes_codec_ok; [lia|done]. Qed.

Ltac codec_ok :=
  first [ apply _
        | apply fixed_bytes_codec_ok; [lia|done]
        | apply list_codec_ok; codec_ok
        | apply vector_codec_ok; [codec_ok|lia|intros _; vm_compute; reflexivity] ].

(** Discharges the contract of a derived codec from those of its fields. *)
Ltac derive_ok :=
  apply derive_codec_ok;
  [ repeat first [apply FieldsOk_nil | apply FieldsOk_cons; [codec_ok|]]
  | done
  | vm_compute; reflexivity
  | intros v; repeat match goal with x : (_ * _)%type |- _ => destruct x end;
    repeat match goal with x : unit |- _ => destruct x end; reflexivity ].

Definition wf_fork : Fork -> Prop :=
  wf_struct (wf_cons (wf_fixed_bytes 4) (wf_cons (wf_fixed_bytes 4) (wf_cons (wf_uint 8)
    wf_nil)))
    (fun '(x0, (x1, (x2, _))) => mkFork x0 x1 x2)
    (fun r => (fork_previous_version r, (fork_current_version r, (fork_epoch r, tt)))).

#[export] Instance fork_codec_ok : CodecOk fork_codec wf_fork.
Proof. derive_ok. Qed.

Definition wf_fork_data : ForkData -> Prop :=
  wf_struct (wf_cons (wf_fixed_bytes 4) (wf_cons (wf_fixed_bytes 32) wf_nil))
    (fun '(x0, (x1, _)) => mkForkData x0 x1)
    (fun r => (fd_current_version r, (fd_genesis_validators_root r, tt))).

#[export] Instance fork_data_codec_ok : CodecOk fork_data_codec wf_fork_data.
Proof. derive_ok. Qed.

Definition wf_checkpoint : Checkpoint -> Prop :=
  wf_struct (wf_cons (wf_uint 8) (wf_cons (wf_fixed_bytes 32) wf_nil))
    (fun '(x0, (x1, _)) => mkCheckpoint x0 x1)
    (fun r => (cp_epoch r, (cp_root r, tt))).

#[export] Instance checkpoint_codec_ok : CodecOk checkpoint_codec wf_checkpoint.
Proof. derive_ok. Qed.

Definition wf_validator : Validator -> Prop :=
  wf_struct (wf_cons (wf_fixed_bytes 48) (wf_cons (wf_fixed_bytes 32) (wf_cons (wf_uint 8)
    (wf_cons (fun _ => True) (wf_cons (wf_uint 8) (wf_cons (wf_uint 8) (wf_cons (wf_uint 8)
      (wf_cons (wf_uint 8) wf_nil))))))))
    (fun '(x0, (x1, (x2, (x3, (x4, (x5, (x6, (x7, _)))))))) => mkValidator x0 x1 x2 x3 x4 x5 x6
      x7)
    (fun r => (v_pubkey r, (v_withdrawal_credentials r, (v_effective_balance r, (v_slashed r,
      (v_activation_eligibility_epoch r, (v_activation_epoch r, (v_exit_epoch r,
        (v_withdrawable_epoch r, tt))))))))).

#[export] Instance validator_codec_ok : CodecOk validator_codec wf_validator.
Proof. derive_ok. Qed.

Definition wf_attestation_data : AttestationData -> Prop :=
  wf_struct (wf_cons (wf_uint 8) (wf_cons (wf_uint 8) (wf_cons (wf_fixed_bytes 32) (wf_cons
    wf_checkpoint (wf_cons wf_checkpoint wf_nil)))))
    (fun '(x0, (x1, (x2, (x3, (x4, _))))) => mkAttestationData x0 x1 x2 x3 x4)
    (fun r => (ad_slot r, (ad_index r, (ad_beacon_block_root r, (ad_source r, (ad_target r,
      tt)))))).

#[export] Instance attestation_data_codec_ok : CodecOk attestation_data_codec
  wf_attestation_data.
Proof. derive_ok. Qed.

Definition wf_eth1_data : Eth1Data -> Prop :=
  wf_struct (wf_cons (wf_fixed_bytes 32) (wf_cons (wf_uint 8) (wf_cons (wf_fixed_bytes 32)
    wf_nil)))
    (fun '(x0, (x1, (x2, _))) => mkEth1Data x0 x1 x2)
    (fun r => (e1_deposit_root r, (e1_deposit_count r, (e1_block_hash r, tt)))).

#[export] Instance eth1_data_codec_ok : CodecOk eth1_data_codec wf_eth1_data.
Proof. derive_ok. Qed.

Definition wf_indexed_attestation (MAX_VALIDATORS_PER_COMMITTEE : Z) : IndexedAttestation ->
  Prop :=
  wf_struct (wf_cons (wf_list (wf_uint 8) MAX_VALIDATORS_PER_COMMITTEE) (wf_cons
    wf_attestation_data (wf_cons (wf_fixed_bytes 96) wf_nil)))
    (fun '(x0, (x1, (x2, _))) => mkIndexedAttestation x0 x1 x2)
    (fun r => (ia_attesting_indices r, (ia_data r, (ia_signature r, tt)))).

#[export] Instance indexed_attestation_codec_ok (MAX_VALIDATORS_PER_COMMITTEE : Z) : CodecOk
  (indexed_attestation_codec MAX_VALIDATORS_PER_COMMITTEE) (wf_indexed_attestation
    MAX_VALIDATORS_PER_COMMITTEE).
Proof. derive_ok. Qed.

Definition wf_pending_attestation (MAX_VALIDATORS_PER_COMMITTEE : Z) : PendingAttestation ->
  Prop :=
  wf_struct (wf_cons (wf_bitlist MAX_VALIDATORS_PER_COMMITTEE) (wf_cons wf_attestation_data
    (wf_cons (wf_uint 8) (wf_cons (wf_uint 8) wf_nil))))
    (fun '(x0, (x1, (x2, (x3, _)))) => mkPendingAttestation x0 x1 x2 x3)
    (fun r => (pa_aggregation_bits r, (pa_data r, (pa_inclusion_delay r, (pa_proposer_index r,
      tt))))).

#[export] Instance pending_attestation_codec_ok (MAX_VALIDATORS_PER_COMMITTEE : Z) : CodecOk
  (pending_attestation_codec MAX_VALIDATORS_PER_COMMITTEE) (wf_pending_attestation
    MAX_VALIDATORS_PER_COMMITTEE).
Proof. derive_ok. Qed.

Definition wf_deposit_data : DepositData -> Prop :=
  wf_struct (wf_cons (wf_fixed_bytes 48) (wf_cons (wf_fixed_bytes 32) (wf_cons (wf_uint 8)
    (wf_cons (wf_fixed_bytes 96) wf_nil))))
    (fun '(x0, (x1, (x2, (x3, _)))) => mkDepositData x0 x1 x2 x3)
    (fun r => (dd_pubkey r, (dd_withdrawal_credentials r, (dd_amount r, (dd_signature r,
      tt))))).

#[export] Instance deposit_data_codec_ok : CodecOk deposit_data_codec wf_deposit_data.
Proof. derive_ok. Qed.

Definition wf_beacon_block_header : BeaconBlockHeader -> Prop :=
  wf_struct (wf_cons (wf_uint 8) (wf_cons (wf_uint 8) (wf_cons (wf_fixed_bytes 32) (wf_cons
    (wf_fixed_bytes 32) (wf_cons (wf_fixed_bytes 32) wf_nil)))))
    (fun '(x0, (x1, (x2, (x3, (x4, _))))) => mkBeaconBlockHeader x0 x1 x2 x3 x4)
    (fun r => (bh_slot r, (bh_proposer_index r, (bh_parent_root r, (bh_state_root r,
      (bh_body_root r, tt)))))).

#[export] Instance beacon_block_header_codec_ok : CodecOk beacon_block_header_codec
  wf_beacon_block_header.
Proof. derive_ok. Qed.

Definition wf_signed_beacon_block_header : SignedBeaconBlockHeader -> Prop :=
  wf_struct (wf_cons wf_beacon_block_header (wf_cons (wf_fixed_bytes 96) wf_nil))
    (fun '(x0, (x1, _)) => mkSignedBeaconBlockHeader x0 x1)
    (fun r => (sbh_message r, (sbh_signature r, tt))).

#[export] Instance signed_beacon_block_header_codec_ok : CodecOk
  signed_beacon_block_header_codec wf_signed_beacon_block_header.
Proof. derive_ok. Qed.

Definition wf_proposer_slashing : ProposerSlashing -> Prop :=
  wf_struct (wf_cons wf_signed_beacon_block_header (wf_cons wf_signed_beacon_block_header
    wf_nil))
    (fun '(x0, (x1, _)) => mkProposerSlashing x0 x1)
    (fun r => (ps_signed_header_1 r, (ps_signed_header_2 r, tt))).

#[export] Instance proposer_slashing_codec_ok : CodecOk proposer_slashing_codec
  wf_proposer_slashing.
Proof. derive_ok. Qed.

Definition wf_attester_slashing (MAX_VALIDATORS_PER_COMMITTEE : Z) : AttesterSlashing -> Prop :=
  wf_struct (wf_cons (wf_indexed_attestation MAX_VALIDATORS_PER_COMMITTEE) (wf_cons
    (wf_indexed_attestation MAX_VALIDATORS_PER_COMMITTEE) wf_nil))
    (fun '(x0, (x1, _)) => mkAttesterSlashing x0 x1)
    (fun r => (as_attestation_1 r, (as_attestation_2 r, tt))).

#[export] Instance attester_slashing_codec_ok (MAX_VALIDATORS_PER_COMMITTEE : Z) : CodecOk
  (attester_slashing_codec MAX_VALIDATORS_PER_COMMITTEE) (wf_attester_slashing
    MAX_VALIDATORS_PER_COMMITTEE).
Proof. derive_ok. Qed.

Definition wf_attestation (MAX_VALIDATORS_PER_COMMITTEE : Z) : Attestation -> Prop :=
  wf_struct (wf_cons (wf_bitlist MAX_VALIDATORS_PER_COMMITTEE) (wf_cons wf_attestation_data
    (wf_cons (wf_fixed_bytes 96) wf_nil)))
    (fun '(x0, (x1, (x2, _))) => mkAttestation x0 x1 x2)
    (fun r => (att_aggregation_bits r, (att_data r, (att_signature r, tt)))).

#[export] Instance attestation_codec_ok (MAX_VALIDATORS_PER_COMMITTEE : Z) : CodecOk
  (attestation_codec MAX_VALIDATORS_PER_COMMITTEE) (wf_attestation
    MAX_VALIDATORS_PER_COMMITTEE).
Proof. derive_ok. Qed.

Definition wf_voluntary_exit : VoluntaryExit -> Prop :=
  wf_struct (wf_cons (wf_uint 8) (wf_cons (wf_uint 8) wf_nil))
    (fun '(x0, (x1, _)) => mkVoluntaryExit x0 x1)
    (fun r => (ve_epoch r, (ve_validator_index r, tt))).

#[export] Instance voluntary_exit_codec_ok : CodecOk voluntary_exit_codec wf_voluntary_exit.
Proof. derive_ok. Qed.

Definition wf_signed_voluntary_exit : SignedVoluntaryExit -> Prop :=
  wf_struct (wf_cons wf_voluntary_exit (wf_cons (wf_fixed_bytes 96) wf_nil))
    (fun '(x0, (x1, _)) => mkSignedVoluntaryExit x0 x1)
    (fun r => (sve_message r, (sve_signature r, tt))).

#[export] Instance signed_voluntary_exit_codec_ok : CodecOk signed_voluntary_exit_codec
  wf_signed_voluntary_exit.
Proof. derive_ok. Qed.

Definition wf_deposit (DEPOSIT_PROOF_LENGTH : Z) : Deposit -> Prop :=
  wf_struct (wf_cons (wf_vector (wf_fixed_bytes 32) DEPOSIT_PROOF_LENGTH) (wf_cons
    wf_deposit_data wf_nil))
    (fun '(x0, (x1, _)) => mkDeposit x0 x1)
    (fun r => (dep_proof r, (dep_data r, tt))).

#[export] Instance deposit_codec_ok : CodecOk (deposit_codec 33) (wf_deposit 33).
Proof. derive_ok. Qed.

(** ** Witnesses of the container theorems *)
Definition ex_root (b : byte) : bytes := replicate 32 b.
Definition ex_attestation_data : AttestationData :=
  mkAttestationData 70 1 (ex_root Byte.x11) (mkCheckpoint 1 (ex_root Byte.x22))
    (mkCheckpoint 2 (ex_root Byte.x33)).
Definition ex_indexed_attestation : IndexedAttestation :=
  mkIndexedAttestation [3; 5; 8] ex_attestation_data (replicate 96 Byte.x44).

(** [IndexedAttestation]: one variable field in front of two fixed ones. *)
Lemma derive_decode_iff_witness :
  from_ssz_bytes (indexed_attestation_codec 2048)
    (as_ssz_bytes (indexed_attestation_codec 2048) ex_indexed_attestation)
  = Ok ex_indexed_attestation.
Proof.
  unfold indexed_attestation_codec.
  eapply derive_decode_iff;
    [ repeat first [apply FieldsOk_nil | apply FieldsOk_cons; [codec_ok|]]
    | done | vm_compute; reflexivity | | vm_compute; reflexivity | ].
  - intros [x0 [x1 [x2 []]]]; reflexivity.
  - split; [|reflexivity]. split; [|reflexivity].
    repeat match goal with
    | |- True => exact I
    | |- _ /\ _ => split
    | |- wf_cons _ _ _ => split
    | |- wf_nil _ => exact I
    | |- wf_list _ _ _ => split
    | |- wf_attestation_data _ => split
    | |- wf_checkpoint _ => split
    | |- Forall _ _ => repeat constructor
    | |- _ = _ => reflexivity
    | |- _ => vm_compute; intuition congruence
    end.
Defined.

Lemma derive_decode_no_panic_witness :
  from_ssz_bytes (indexed_attestation_codec 2048) [Byte.xe4; Byte.x00; Byte.x00] <> Panic.
Proof.
  unfold indexed_attestation_codec.
  eapply derive_decode_no_panic;
    [ repeat first [apply FieldsOk_nil | apply FieldsOk_cons; [codec_ok|]]
    | done | vm_compute; reflexivity | ].
  intros [x0 [x1 [x2 []]]]; reflexivity.
Defined.
