(* ===== verification/Merkle.v ===== *)
(** * SSZ Merkleization, generalized indices and Merkle proofs

    Models [crates/pharos-ssz/src/{tree_hash,gindex,merkle_proof}.rs].  SHA-256
    is the third-party [sha2] crate: it is the parameter [sha256] of the
    section, and no theorem assumes more of it than that it is a function
    (and, for the binding theorem, nothing at all: the theorem exhibits two
    colliding inputs). *)

From Stdlib Require Import ZArith Lia.
From S2P Require Import Prelude SszCodec SszBitfield.

(** ** Integer helpers of the standard library *)

(** [usize::next_power_of_two] for [n >= 2] (wraps to 0 past [2^63]). *)
Definition next_power_of_two (n : Z) : Z := (2 ^ Z.log2_up n) mod U64.
(** [trailing_zeros]. *)
Definition trailing_zeros (n : Z) : Z := if n =? 0 then 64 else Z.log2 (Z.land n (- n)).

Definition zero_chunk : bytes := replicate 32 Byte.x00.

(** [next_pow_of_two] of tree_hash.rs. *)
Definition next_pow_of_two (n : Z) : Z := if n <=? 1 then 1 else next_power_of_two n.

(** [arr[..chunk.len()].copy_from_slice(chunk)] into 32 zero bytes. *)
Definition pad32 (chunk : bytes) : bytes :=
  chunk ++ replicate (32 - length chunk) Byte.x00.

(** [bytes.chunks(n)]: blocks of [n], the last one possibly shorter. *)
Fixpoint blocks_fuel {A} (fuel n : nat) (l : list A) : list (list A) :=
  match fuel, l with
  | S fuel, _ :: _ => take n l :: blocks_fuel fuel n (drop n l)
  | _, _ => []
  end.
Definition blocks {A} (n : nat) (l : list A) : list (list A) := blocks_fuel (length l) n l.

Definition pack_bytes_to_chunks (bs : bytes) : list bytes := pad32 <$> blocks 32 bs.

(** ** Generalized indices *)

(** [u64::BITS - g.leading_zeros() - 1], aborting on 0. *)
Definition get_generalized_index_length (g : Z) : result SszError Z :=
  if 1 <=? g then Ok (Z.log2 g) else Panic.
Definition get_generalized_index_bit (g pos : Z) : bool := Z.testbit g pos.
Definition generalized_index_sibling (g : Z) : Z := Z.lxor g 1.
Definition generalized_index_parent (g : Z) : Z := g / 2.
Definition generalized_index_child (g : Z) (right_side : bool) : Z :=
  wadd (wmul g 2) (Z.b2z right_side).
Definition concat_generalized_indices (parent child : Z) : result SszError Z :=
  if negb (1 <=? parent) then Panic
  else if negb (1 <=? child) then Panic
  else
    child_depth ← get_generalized_index_length child;
    let next_pow := Z.shiftl 1 child_depth in
    let child_path_bits := Z.lxor child next_pow in
    Ok (wadd (wmul parent next_pow) child_path_bits).

Record MerkleProof : Type := mkProof {
  leaf : bytes;
  branch : list bytes;
  gindex : Z;
}.

Section merkle.
  Context (sha256 : bytes -> bytes).

(** [pharos_utils::hash::hash_concat]. *)
Definition hash_concat (a b : bytes) : bytes := sha256 (a ++ b).

(** The table behind [zero_hash]. *)
Fixpoint zero_table (d : nat) : bytes :=
  match d with
  | O => zero_chunk
  | S d => let z := zero_table d in hash_concat z z
  end.

Definition zero_hash (depth : Z) : result SszError bytes :=
  if depth <? 64 then Ok (zero_table (Z.to_nat depth)) else Panic.

(** One level of [merkleize_padded_inner]: hash adjacent pairs, and an odd last
    node with the zero subtree of this depth.  (The parallel branch computes
    the same pairs.) *)
Fixpoint merkle_level (depth : Z) (current : list bytes) : result SszError (list bytes) :=
  match current with
  | a :: b :: rest =>
      next ← merkle_level depth rest;
      Ok (hash_concat a b :: next)
  | [last] => z ← zero_hash depth; Ok [hash_concat last z]
  | [] => Ok []
  end.

(** [for depth in 0..total_depth], with [n] levels left. *)
Fixpoint merkle_levels (n : nat) (depth : Z) (current : list bytes)
  : result SszError (list bytes) :=
  match n with
  | O => Ok current
  | S n => next ← merkle_level depth current; merkle_levels n (depth + 1) next
  end.

Definition merkleize_padded_inner (chunks : list bytes) (padded_len : Z)
  : result SszError bytes :=
  let total_depth := trailing_zeros padded_len in
  if zlen chunks =? 0 then zero_hash total_depth
  else
    current ← merkle_levels (Z.to_nat total_depth) 0 chunks;
    index current 0.

Definition merkleize (chunks : list bytes) : result SszError bytes :=
  if zlen chunks =? 0 then zero_hash 0
  else merkleize_padded_inner chunks (next_pow_of_two (zlen chunks)).

Definition merkleize_padded (chunks : list bytes) (limit : Z) : result SszError bytes :=
  if negb (zlen chunks <=? limit) then Panic
  else if (zlen chunks =? 0) && (limit =? 0) then zero_hash 0
  else merkleize_padded_inner chunks (next_pow_of_two (Z.max limit 1)).

Definition mix_in_length (root : bytes) (length : Z) : bytes :=
  hash_concat root (pad32 (to_le_bytes 8 length)).
Definition mix_in_selector (root : bytes) (selector : Z) : bytes :=
  hash_concat root (pad32 (to_le_bytes 1 selector)).

(** ** Proofs *)

(** The loop of [verify_merkle_proof]. *)
Fixpoint fold_branch (current : bytes) (index : Z) (branch : list bytes) : bytes :=
  match branch with
  | [] => current
  | sibling :: branch =>
      fold_branch (if Z.land index 1 =? 1 then hash_concat sibling current
                   else hash_concat current sibling) (index / 2) branch
  end.

Definition verify_merkle_proof (root : bytes) (proof : MerkleProof) : result SszError bool :=
  depth ← get_generalized_index_length (gindex proof);
  if negb (zlen (branch proof) =? depth) then Ok false
  else Ok (bool_decide (fold_branch (leaf proof) (gindex proof) (branch proof) = root)).

(** [for pair in cur_layer.chunks_exact(2)]. *)
Fixpoint hash_pairs (layer : list bytes) : list bytes :=
  match layer with
  | a :: b :: rest => hash_concat a b :: hash_pairs rest
  | _ => []
  end.

(** [while cur_layer.len() > 1]: every iteration halves the layer. *)
Fixpoint collect_siblings (fuel : nat) (cur_layer : list bytes) (cur_pos : Z)
  : result SszError (list bytes) :=
  match fuel with
  | O => Ok []
  | S fuel =>
      if 1 <? zlen cur_layer then
        s ← index cur_layer (Z.lxor cur_pos 1);
        rest ← collect_siblings fuel (hash_pairs cur_layer) (cur_pos / 2);
        Ok (s :: rest)
      else Ok []
  end.

Definition build_single_proof_from_leaves (leaves : list bytes) (idx : Z)
  : result SszError MerkleProof :=
  let n := next_pow_of_two (Z.max (zlen leaves) 1) in
  if negb ((n <=? idx) && (idx - n <? n)) then Panic
  else
    let leaf_pos := idx - n in
    let layer := leaves ++ replicate (Z.to_nat (n - zlen leaves)) zero_chunk in
    leaf ← index layer leaf_pos;
    depth ← get_generalized_index_length idx;
    branch ← collect_siblings (length layer) layer leaf_pos;
    Ok (mkProof leaf branch idx).
End merkle.

(** ** Reference: the root of a perfect binary tree *)
Section reference.
  Context (sha256 : bytes -> bytes).

(** Root of the perfect tree of depth [d] whose first leaves are [l] and whose
    other leaves are [z]. *)
Fixpoint tree_root_from (z : bytes) (d : nat) (l : list bytes) : bytes :=
  match d with
  | O => default z (head l)
  | S d => hash_concat sha256 (tree_root_from z d (take (2 ^ d) l))
             (tree_root_from z d (drop (2 ^ d) l))
  end.
Definition tree_root : nat -> list bytes -> bytes := tree_root_from zero_chunk.

(** Pairwise hashing with [z] for a missing right sibling. *)
Fixpoint layer_up (z : bytes) (l : list bytes) : list bytes :=
  match l with
  | a :: b :: rest => hash_concat sha256 a b :: layer_up z rest
  | [a] => [hash_concat sha256 a z]
  | [] => []
  end.

Lemma list_ind2 {A} (P : list A -> Prop) :
  P [] -> (forall a, P [a]) -> (forall a b l, P l -> P (a :: b :: l)) -> forall l, P l.
Proof.
  intros H0 H1 H2. fix IH 1. intros [|a [|b l]]; [exact H0|apply H1|apply H2, IH].
Qed.

Lemma layer_up_take z m l : layer_up z (take (2 * m) l) = take m (layer_up z l).
Proof.
  revert l; induction m as [|m IH]; intros l; [by rewrite !take_0|].
  replace (2 * S m)%nat with (S (S (2 * m))) by lia.
  destruct l as [|a [|b l]]; cbn [take layer_up]; [done|by rewrite take_nil|by rewrite IH].
Qed.

Lemma layer_up_drop z m l : layer_up z (drop (2 * m) l) = drop m (layer_up z l).
Proof.
  revert l; induction m as [|m IH]; intros l; [by rewrite !drop_0|].
  replace (2 * S m)%nat with (S (S (2 * m))) by lia.
  destruct l as [|a [|b l]]; cbn [drop layer_up]; [done|by rewrite drop_nil|by rewrite IH].
Qed.

(** Hashing one level reduces the depth by one. *)
Lemma tree_root_from_layer z d l :
  tree_root_from z (S d) l = tree_root_from (hash_concat sha256 z z) d (layer_up z l).
Proof.
  revert l; induction d as [|d IH]; intros l.
  - destruct l as [|a [|b l]]; done.
  - change (tree_root_from z (S (S d)) l) with
      (hash_concat sha256 (tree_root_from z (S d) (take (2 ^ S d) l))
         (tree_root_from z (S d) (drop (2 ^ S d) l))).
    rewrite !IH. cbn [tree_root_from].
    change (2 ^ S d)%nat with (2 * 2 ^ d)%nat. by rewrite layer_up_take, layer_up_drop.
Qed.

Lemma tree_root_from_nil z d :
  tree_root_from z d [] = Nat.iter d (fun x => hash_concat sha256 x x) z.
Proof. induction d as [|d IH]; cbn; [done|]. by rewrite take_nil, drop_nil, IH. Qed.

Lemma zero_table_iter d :
  zero_table sha256 d = Nat.iter d (fun x => hash_concat sha256 x x) zero_chunk.
Proof. induction d as [|d IH]; cbn; [done|]. by rewrite IH. Qed.

Lemma layer_up_replicate z n :
  exists k, layer_up z (replicate n z) = replicate k (hash_concat sha256 z z).
Proof.
  induction n as [n IH] using lt_wf_ind. destruct n as [|[|n]]; [by exists 0%nat|by exists 1%nat|].
  destruct (IH n ltac:(lia)) as [k Hk]. exists (S k). cbn. by rewrite Hk.
Qed.

(** Explicit padding with [z] does not change the root. *)
Lemma tree_root_from_pad z d l k :
  tree_root_from z d (l ++ replicate k z) = tree_root_from z d l.
Proof.
  revert z l k; induction d as [|d IH]; intros z l k; [by destruct l, k|].
  rewrite !tree_root_from_layer.
  assert (exists k', layer_up z (l ++ replicate k z)
    = layer_up z l ++ replicate k' (hash_concat sha256 z z)) as [k' ->]; [|apply IH].
  clear IH d. revert k. induction l as [|a|a b l IHl] using list_ind2; intros k.
  - destruct (layer_up_replicate z k) as [k' Hk']. by exists k'.
  - destruct k as [|k]; [by exists 0%nat|].
    destruct (layer_up_replicate z k) as [k' Hk']. exists k'. cbn. by rewrite Hk'.
  - destruct (IHl k) as [k' Hk']. exists k'. cbn. by rewrite Hk'.
Qed.

(** ** The optimised routine computes the reference *)
Lemma zero_hash_Ok d : 0 <= d < 64 -> zero_hash sha256 d = Ok (zero_table sha256 (Z.to_nat d)).
Proof. intros. unfold zero_hash. by destruct (Z.ltb_spec d 64); [|lia]. Qed.

Lemma merkle_level_layer_up depth l :
  0 <= depth < 64 ->
  merkle_level sha256 depth l = Ok (layer_up (zero_table sha256 (Z.to_nat depth)) l).
Proof.
  intros Hd. induction l as [|a|a b l IH] using list_ind2; cbn [merkle_level layer_up].
  - done.
  - by rewrite zero_hash_Ok.
  - by rewrite IH.
Qed.

Lemma layer_up_nonempty z l : l <> [] -> layer_up z l <> [].
Proof. by destruct l as [|a [|b l]]. Qed.

Lemma merkle_levels_root n depth l :
  0 <= depth -> depth + Z.of_nat n <= 64 -> l <> [] ->
  exists x rest, merkle_levels sha256 n depth l = Ok (x :: rest) /\
    x = tree_root_from (zero_table sha256 (Z.to_nat depth)) n l.
Proof.
  revert depth l; induction n as [|n IH]; intros depth l Hd Hn Hl; cbn [merkle_levels].
  - destruct l as [|x rest]; [done|]. by exists x, rest.
  - rewrite merkle_level_layer_up by lia. cbn [mbind result_bind].
    destruct (IH (depth + 1) (layer_up (zero_table sha256 (Z.to_nat depth)) l))
      as (x & rest & -> & ->); [lia..|by apply layer_up_nonempty|].
    do 2 eexists. split; [done|]. rewrite tree_root_from_layer.
    by replace (Z.to_nat (depth + 1)) with (S (Z.to_nat depth)) by lia.
Qed.

Lemma trailing_zeros_pow2 k : 0 <= k -> trailing_zeros (2 ^ k) = k.
Proof.
  intros Hk. unfold trailing_zeros. assert (0 < 2 ^ k) by (by apply Z.pow_pos_nonneg).
  destruct (Z.eqb_spec (2 ^ k) 0); [lia|].
  replace (Z.land (2 ^ k) (- 2 ^ k)) with (2 ^ k); [by apply Z.log2_pow2|].
  apply Z.bits_inj'. intros i Hi. rewrite Z.land_spec, Z.pow2_bits_eqb by lia.
  destruct (Z.eqb_spec k i) as [->|]; [|done].
  replace (- 2 ^ i) with (Z.lnot (2 ^ i - 1)) by (unfold Z.lnot; lia).
  rewrite Z.lnot_spec by lia. replace (2 ^ i - 1) with (Z.ones i) by (rewrite Z.ones_equiv; lia).
  by rewrite Z.ones_spec_high by lia.
Qed.

Lemma next_pow_of_two_spec n :
  n <= 2 ^ 63 -> next_pow_of_two n = 2 ^ Z.log2_up n /\ 0 <= Z.log2_up n <= 63.
Proof.
  intros Hn. pose proof (Z.log2_up_nonneg n). unfold next_pow_of_two, next_power_of_two.
  destruct (Z.leb_spec n 1) as [|H1].
  { rewrite Z.log2_up_eqn0 by lia. done. }
  assert (Z.log2_up n <= 63) by (apply Z.log2_up_le_pow2; lia).
  split; [|lia]. apply Z.mod_small.
  pose proof (Z.pow_le_mono_r 2 (Z.log2_up n) 63). pose proof (Z.pow_nonneg 2 (Z.log2_up n)).
  unfold U64. lia.
Qed.

Lemma merkleize_padded_inner_root chunks k :
  0 <= k <= 63 ->
  merkleize_padded_inner sha256 chunks (2 ^ k) = Ok (tree_root (Z.to_nat k) chunks).
Proof.
  intros Hk. unfold merkleize_padded_inner. rewrite trailing_zeros_pow2 by lia.
  destruct (Z.eqb_spec (zlen chunks) 0) as [H0|H0].
  - apply zlen_0_nil in H0 as ->. rewrite zero_hash_Ok by lia.
    unfold tree_root. by rewrite tree_root_from_nil, zero_table_iter.
  - destruct (merkle_levels_root (Z.to_nat k) 0 chunks) as (x & rest & -> & ->); [lia..| |].
    { by intros ->. }
    done.
Qed.
End reference.

(** [merkleize_padded] and [merkleize] compute the reference. *)
Lemma merkleize_padded_Ok sha256 chunks limit :
  zlen chunks <= limit -> limit <= 2 ^ 63 ->
  merkleize_padded sha256 chunks limit
  = Ok (tree_root sha256 (Z.to_nat (Z.log2_up limit)) chunks).
Proof.
  intros Hle Hlim. unfold merkleize_padded.
  destruct (Z.leb_spec (zlen chunks) limit); [|lia]. cbn [negb].
  pose proof (zlen_nonneg chunks). destruct (next_pow_of_two_spec (Z.max limit 1)) as [Hp Hb]; [lia|].
  destruct (decide (limit = 0)) as [->|].
  - assert (chunks = []) as -> by (apply zlen_0_nil; lia). done.
  - replace (Z.max limit 1) with limit in * by lia.
    destruct (Z.eqb_spec limit 0); [done|]. rewrite andb_false_r, Hp.
    by apply merkleize_padded_inner_root.
Qed.

Lemma merkleize_Ok sha256 chunks :
  zlen chunks <= 2 ^ 63 ->
  merkleize sha256 chunks
  = Ok (tree_root sha256 (Z.to_nat (Z.log2_up (zlen chunks))) chunks).
Proof.
  intros Hle. unfold merkleize. destruct (Z.eqb_spec (zlen chunks) 0) as [H0|H0].
  - apply zlen_0_nil in H0 as ->. done.
  - destruct (next_pow_of_two_spec (zlen chunks) Hle) as [-> Hb].
    by apply merkleize_padded_inner_root.
Qed.

(** ** Proof generation and verification *)
Section proofs.
  Context (sha256 : bytes -> bytes).

Lemma hash_pairs_layer_up z l :
  Nat.Even (length l) -> hash_pairs sha256 l = layer_up sha256 z l.
Proof.
  induction l as [|a|a b l IH] using list_ind2; cbn.
  - done.
  - intros [k Hk]. lia.
  - intros [k Hk]. f_equal. apply IH. exists (k - 1)%nat. lia.
Qed.

Lemma length_hash_pairs l : length (hash_pairs sha256 l) = (length l / 2)%nat.
Proof.
  induction l as [|a|a b l IH] using list_ind2; [done..|].
  cbn [hash_pairs length]. rewrite IH.
  replace (S (S (length l))) with (1 * 2 + length l)%nat by lia.
  by rewrite Nat.div_add_l by lia.
Qed.

Lemma hash_pairs_lookup l (q : nat) x y :
  l !! (2 * q)%nat = Some x -> l !! (2 * q + 1)%nat = Some y ->
  hash_pairs sha256 l !! q = Some (hash_concat sha256 x y).
Proof.
  revert l; induction q as [|q IH]; intros l Hx Hy.
  - destruct l as [|a [|b l]]; cbn in *; congruence.
  - destruct l as [|a [|b l]]; [done|by rewrite !lookup_cons_ne_0 in Hy by lia|].
    cbn. apply IH.
    + rewrite <-Hx. by replace (2 * S q)%nat with (S (S (2 * q))) by lia.
    + rewrite <-Hy. by replace (2 * S q + 1)%nat with (S (S (2 * q + 1))) by lia.
Qed.

Lemma lxor_even_1 k : Z.lxor (2 * k) 1 = 2 * k + 1.
Proof.
  rewrite <-Z.add_nocarry_lxor; [done|]. apply Z.bits_inj'. intros i Hi.
  rewrite Z.land_spec, Z.testbit_0_l.
  destruct (decide (i = 0)) as [->|]; [by rewrite Z.testbit_even_0|].
  rewrite (Z.bits_above_log2 1 i) by (cbn; lia). apply andb_false_r.
Qed.

Lemma lxor_1 n : Z.lxor n 1 = if Z.even n then n + 1 else n - 1.
Proof.
  destruct (Z.even n) eqn:He.
  - apply Z.even_spec in He as [k ->]. apply lxor_even_1.
  - assert (Z.odd n = true) as Ho by (by rewrite <-Z.negb_even, He).
    apply Z.odd_spec in Ho as [k ->].
    rewrite <-lxor_even_1, Z.lxor_assoc, Z.lxor_nilpotent, Z.lxor_0_r, lxor_even_1. lia.
Qed.

Lemma land_1_odd n : (Z.land n 1 =? 1) = Z.odd n.
Proof.
  change 1 with (Z.ones 1) at 1. rewrite Z.land_ones by lia.
  rewrite Z.pow_1_r, Zmod_odd. by destruct (Z.odd n).
Qed.

(** Walking up a perfect layer from position [pos] collects a branch that folds
    back to the root. *)
Lemma collect_siblings_fold z d fuel layer pos :
  (d <= fuel)%nat -> length layer = (2 ^ d)%nat -> 0 <= pos < 2 ^ Z.of_nat d ->
  exists x br, layer !! Z.to_nat pos = Some x /\
    collect_siblings sha256 fuel layer pos = Ok br /\ length br = d /\
    fold_branch sha256 x (2 ^ Z.of_nat d + pos) br = tree_root_from sha256 z d layer.
Proof.
  revert z fuel layer pos; induction d as [|d IH]; intros z fuel layer pos Hf Hl Hp.
  - destruct layer as [|x [|]]; [done| |done]. exists x, [].
    assert (pos = 0) as -> by (change (2 ^ Z.of_nat 0) with 1 in Hp; lia).
    split_and!; [done| |done..]. by destruct fuel.
  - destruct fuel as [|fuel]; [lia|].
    assert (Nat.Even (length layer)) as Hev by (exists (2 ^ d)%nat; rewrite Hl; cbn; lia).
    rewrite tree_root_from_layer, <-(hash_pairs_layer_up z) by done.
    rewrite Nat2Z.inj_succ, Z.pow_succ_r in * by lia.
    set (q := pos / 2).
    pose proof (Z.div_mod pos 2 ltac:(lia)) as Hdm. pose proof (Z.mod_pos_bound pos 2 ltac:(lia)).
    fold q in Hdm. assert (0 <= q < 2 ^ Z.of_nat d) as Hq by lia.
    destruct (IH (hash_concat sha256 z z) fuel (hash_pairs sha256 layer) q)
      as (h & br & Hh & Hbr & Hlen & Hfold); [lia| |lia|].
    { rewrite length_hash_pairs, Hl. cbn [Nat.pow]. rewrite Nat.mul_comm. by apply Nat.div_mul. }
    assert (Z.of_nat (length layer) = 2 * 2 ^ Z.of_nat d) as HlZ.
    { rewrite Hl. cbn [Nat.pow]. rewrite Nat2Z.inj_mul, Nat2Z.inj_pow. lia. }
    destruct (lookup_lt_is_Some_2 layer (2 * Z.to_nat q)) as [x Hx]; [lia|].
    destruct (lookup_lt_is_Some_2 layer (2 * Z.to_nat q + 1)) as [y Hy]; [lia|].
    pose proof (hash_pairs_lookup _ _ _ _ Hx Hy) as Hh'. rewrite Hh in Hh'. injection Hh' as ->.
    assert ((1 <? zlen layer) = true) as Hlt.
    { unfold zlen. rewrite HlZ. apply Z.ltb_lt. pose proof (Z.pow_pos_nonneg 2 (Z.of_nat d)). lia. }
    cbn [collect_siblings]. rewrite Hlt, lxor_1. fold q. rewrite Hbr.
    assert (forall s b, fold_branch sha256 b (2 * 2 ^ Z.of_nat d + pos) (s :: br)
      = fold_branch sha256 (if Z.odd pos then hash_concat sha256 s b else hash_concat sha256 b s)
          (2 ^ Z.of_nat d + q) br) as Hstep.
    { intros s b. cbn [fold_branch]. rewrite land_1_odd.
      replace (2 * 2 ^ Z.of_nat d + pos) with (pos + 2 ^ Z.of_nat d * 2) by lia.
      rewrite Z.div_add, (Z.add_comm (pos / 2)) by lia. fold q. f_equal.
      rewrite Z.odd_add, Z.odd_mul. by rewrite andb_false_r, xorb_false_r. }
    rewrite <-Z.negb_odd. destruct (Z.odd pos) eqn:Hodd; cbn [negb].
    + rewrite Zmod_odd, Hodd in Hdm. exists y, (x :: br).
      assert (index (E:=SszError) layer (pos - 1) = Ok x) as ->.
      { apply index_Ok_iff. split; [lia|]. by replace (Z.to_nat (pos - 1)) with (2 * Z.to_nat q)%nat by lia. }
      split_and!; [by replace (Z.to_nat pos) with (2 * Z.to_nat q + 1)%nat by lia|done|cbn; lia|].
      by rewrite Hstep.
    + rewrite Zmod_odd, Hodd in Hdm. exists x, (y :: br).
      assert (index (E:=SszError) layer (pos + 1) = Ok y) as ->.
      { apply index_Ok_iff. split; [lia|]. by replace (Z.to_nat (pos + 1)) with (2 * Z.to_nat q + 1)%nat by lia. }
      split_and!; [by replace (Z.to_nat pos) with (2 * Z.to_nat q)%nat by lia|done|cbn; lia|].
      by rewrite Hstep.
Qed.
End proofs.

(** ** Properties *)

(** Two byte strings that collide, read off two branches for the same index:
    the first level at which the hashed pairs differ and the hashes agree. *)
Fixpoint find_collision (sha256 : bytes -> bytes) (c1 c2 : bytes) (index : Z)
    (b1 b2 : list bytes) : option (bytes * bytes) :=
  match b1, b2 with
  | s1 :: b1, s2 :: b2 =>
      let x1 := if Z.land index 1 =? 1 then s1 ++ c1 else c1 ++ s1 in
      let x2 := if Z.land index 1 =? 1 then s2 ++ c2 else c2 ++ s2 in
      if bool_decide (x1 <> x2 /\ sha256 x1 = sha256 x2) then Some (x1, x2)
      else find_collision sha256 (sha256 x1) (sha256 x2) (index / 2) b1 b2
  | _, _ => None
  end.

Lemma find_collision_complete sha256 b1 b2 c1 c2 idx :
  (forall x, length (sha256 x) = 32%nat) ->
  length c1 = length c2 -> c1 <> c2 ->
  Forall (fun s => length s = 32%nat) b1 -> Forall (fun s => length s = 32%nat) b2 ->
  length b1 = length b2 ->
  fold_branch sha256 c1 idx b1 = fold_branch sha256 c2 idx b2 ->
  exists x y, find_collision sha256 c1 c2 idx b1 b2 = Some (x, y) /\
    x <> y /\ sha256 x = sha256 y.
Proof.
  intros Hsha Hc Hne H1. revert b2 c1 c2 idx Hc Hne.
  induction H1 as [|s1 b1 Hs1 _ IH]; intros b2 c1 c2 idx Hc Hne H2 Hl Hf.
  - by destruct b2.
  - destruct b2 as [|s2 b2]; [done|]. apply Forall_cons in H2 as [Hs2 H2].
    cbn [fold_branch find_collision] in *. unfold hash_concat in Hf.
    set (x1 := if Z.land idx 1 =? 1 then s1 ++ c1 else c1 ++ s1).
    set (x2 := if Z.land idx 1 =? 1 then s2 ++ c2 else c2 ++ s2).
    assert (x1 <> x2) as Hx.
    { intros Hx. subst x1 x2. destruct (Z.land idx 1 =? 1).
      - apply app_inj_1 in Hx as [_ ?]; [done|lia].
      - apply app_inj_1 in Hx as [? _]; [done|lia]. }
    case_bool_decide as Hd; [by exists x1, x2; destruct Hd|].
    apply IH; [by rewrite !Hsha| |done|cbn in Hl; lia|].
    + intros He. by apply Hd.
    + subst x1 x2. by destruct (Z.land idx 1 =? 1).
Qed.

(** The zero-subtree shortcut of [merkleize_padded] is exact.  Whenever the
    chunk count is within the limit (and the limit within [2^63]), the routine
    returns, without aborting, the root of the perfect binary tree whose
    [2^ceil(log2 limit)] leaves are the chunks followed by explicit zero
    chunks; over the limit it aborts. *)
Theorem merkleize_padded_is_padded_root sha256 chunks limit :
  limit <= 2 ^ 63 ->
  merkleize_padded sha256 chunks limit
  = if zlen chunks <=? limit
    then Ok (tree_root sha256 (Z.to_nat (Z.log2_up limit))
               (chunks ++ replicate (2 ^ Z.to_nat (Z.log2_up limit) - length chunks) zero_chunk))
    else Panic.
Proof.
  intros Hlim. destruct (Z.leb_spec (zlen chunks) limit).
  - rewrite merkleize_padded_Ok by done. unfold tree_root. by rewrite tree_root_from_pad.
  - unfold merkleize_padded. by destruct (Z.leb_spec (zlen chunks) limit); [lia|].
Qed.

Lemma merkleize_padded_is_padded_root_witness :
  let sha := fun x : bytes => take 32 (rev x ++ zero_chunk) in
  2 ^ 5 <= 2 ^ 63 /\
  merkleize_padded sha [zero_chunk; replicate 32 Byte.x07; replicate 32 Byte.x09] (2 ^ 5)
  = Ok (tree_root sha 5 ([zero_chunk; replicate 32 Byte.x07; replicate 32 Byte.x09]
          ++ replicate 29 zero_chunk)).
Proof.
  intros sha. split; [lia|].
  rewrite (merkleize_padded_is_padded_root sha _ (2 ^ 5)); [reflexivity|lia].
Defined.

(** Proof generation is correct.  For every leaf position of the padded
    tree, [build_single_proof_from_leaves] returns a proof (it does not
    abort), the proof carries the leaf at that position, and
    [verify_merkle_proof] accepts it against [merkleize] of the leaves. *)
Theorem built_proof_verifies sha256 leaves pos :
  zlen leaves <= 2 ^ 63 ->
  let n := next_pow_of_two (Z.max (zlen leaves) 1) in
  0 <= pos < n ->
  exists root proof,
    merkleize sha256 leaves = Ok root /\
    build_single_proof_from_leaves sha256 leaves (n + pos) = Ok proof /\
    verify_merkle_proof sha256 root proof = Ok true /\
    gindex proof = n + pos /\
    leaf proof = default zero_chunk (leaves !! Z.to_nat pos).
Proof.
  intros Hlen n Hpos. pose proof (zlen_nonneg leaves).
  destruct (next_pow_of_two_spec (Z.max (zlen leaves) 1)) as [Hn Hk]; [lia|].
  fold n in Hn. set (k := Z.log2_up (Z.max (zlen leaves) 1)) in *.
  assert (zlen leaves <= n) as Hle.
  { rewrite Hn. destruct (decide (zlen leaves <= 1)).
    - pose proof (Z.pow_pos_nonneg 2 k). lia.
    - subst k. rewrite Z.max_l by lia. apply Z.log2_up_spec. lia. }
  set (layer := leaves ++ replicate (Z.to_nat (n - zlen leaves)) zero_chunk).
  assert (length layer = (2 ^ Z.to_nat k)%nat) as Hll.
  { subst layer. rewrite length_app, length_replicate. apply Nat2Z.inj.
    rewrite Nat2Z.inj_pow, Z2Nat.id by lia. change (Z.of_nat 2) with 2.
    unfold zlen in *. lia. }
  destruct (collect_siblings_fold sha256 zero_chunk (Z.to_nat k) (length layer) layer pos)
    as (x & br & Hx & Hbr & Hbl & Hfold).
  { rewrite Hll. apply Nat.lt_le_incl, Nat.pow_gt_lin_r. lia. }
  { done. }
  { rewrite Z2Nat.id by lia. lia. }
  rewrite Z2Nat.id, <-Hn in Hfold by lia.
  exists (tree_root sha256 (Z.to_nat k) leaves), (mkProof x br (n + pos)).
  assert (Z.log2 (n + pos) = k) as Hlog.
  { rewrite Hn in *. apply Z.log2_unique; [lia|]. rewrite Z.pow_succ_r by lia. lia. }
  assert (get_generalized_index_length (n + pos) = Ok k) as Hgl.
  { unfold get_generalized_index_length. rewrite Hlog.
    destruct (Z.leb_spec 1 (n + pos)); [done|lia]. }
  split_and!.
  - rewrite merkleize_Ok by done. subst k. destruct (decide (zlen leaves = 0)) as [->|]; [done|].
    by rewrite Z.max_l by lia.
  - unfold build_single_proof_from_leaves. fold n layer.
    destruct (Z.leb_spec n (n + pos)); [|lia].
    destruct (Z.ltb_spec (n + pos - n) n); [|lia]. cbn [andb negb].
    replace (n + pos - n) with pos by lia.
    assert (index (E:=SszError) layer pos = Ok x) as -> by (apply index_Ok_iff; split; [lia|done]).
    cbn [mbind result_bind]. rewrite Hgl. cbn [mbind result_bind]. by rewrite Hbr.
  - unfold verify_merkle_proof. cbn [gindex branch leaf]. rewrite Hgl. cbn [mbind result_bind].
    unfold zlen. rewrite Hbl, Z2Nat.id, Z.eqb_refl by lia. cbn [negb]. rewrite Hfold.
    f_equal. apply bool_decide_eq_true. subst layer. apply tree_root_from_pad.
  - done.
  - cbn [leaf]. subst layer. destruct (decide (Z.to_nat pos < length leaves)%nat).
    + rewrite lookup_app_l in Hx by lia. by rewrite Hx.
    + rewrite lookup_app_r, lookup_replicate in Hx by lia. destruct Hx as [-> _].
      by rewrite lookup_ge_None_2 by lia.
Qed.

Lemma built_proof_verifies_witness :
  let sha := fun x : bytes => take 32 (rev x ++ zero_chunk) in
  let leaves := [zero_chunk; replicate 32 Byte.x07; replicate 32 Byte.x09] in
  exists root proof,
    merkleize sha leaves = Ok root /\
    build_single_proof_from_leaves sha leaves 6 = Ok proof /\
    verify_merkle_proof sha root proof = Ok true /\
    gindex proof = 6 /\ leaf proof = replicate 32 Byte.x09.
Proof.
  intros sha leaves.
  apply (built_proof_verifies sha leaves 2); [vm_compute; congruence|vm_compute; split; congruence].
Defined.

(** C34: Merkle proofs are binding.  If two proofs for the same generalized
    index and with different leaves are both accepted against one root, then
    [find_collision] computes two different inputs with the same SHA-256
    digest from them; the only fact used of the hash is its output length. *)
Theorem merkle_proof_binding sha256 root p1 p2 :
  (forall x, length (sha256 x) = 32%nat) ->
  Forall (fun s => length s = 32%nat) (leaf p1 :: branch p1) ->
  Forall (fun s => length s = 32%nat) (leaf p2 :: branch p2) ->
  gindex p1 = gindex p2 ->
  verify_merkle_proof sha256 root p1 = Ok true ->
  verify_merkle_proof sha256 root p2 = Ok true ->
  leaf p1 <> leaf p2 ->
  exists x y,
    find_collision sha256 (leaf p1) (leaf p2) (gindex p1) (branch p1) (branch p2) = Some (x, y) /\
    x <> y /\ sha256 x = sha256 y.
Proof.
  intros Hsha [Hl1 Hb1]%Forall_cons [Hl2 Hb2]%Forall_cons Hidx Hv1 Hv2 Hne.
  unfold verify_merkle_proof in *. rewrite <-Hidx in Hv2.
  destruct (get_generalized_index_length (gindex p1)) as [d| |]; [|done..].
  cbn [mbind result_bind] in *.
  destruct (Z.eqb_spec (zlen (branch p1)) d) as [Hd1|]; [|done].
  destruct (Z.eqb_spec (zlen (branch p2)) d) as [Hd2|]; [|done].
  cbn [negb] in *. injection Hv1 as Hv1%bool_decide_eq_true. injection Hv2 as Hv2%bool_decide_eq_true.
  apply find_collision_complete; try done; [lia| |by rewrite Hv1].
  unfold zlen in *. lia.
Qed.

Lemma merkle_proof_binding_witness :
  let sha := fun _ : bytes => zero_chunk in
  let p1 := mkProof (replicate 32 Byte.x01) [zero_chunk] 2 in
  let p2 := mkProof (replicate 32 Byte.x02) [zero_chunk] 2 in
  exists x y,
    find_collision sha (leaf p1) (leaf p2) 2 (branch p1) (branch p2) = Some (x, y) /\
    x <> y /\ sha x = sha y.
Proof.
  intros sha p1 p2. apply (merkle_proof_binding sha zero_chunk p1 p2).
  - reflexivity.
  - repeat constructor.
  - repeat constructor.
  - reflexivity.
  - vm_compute. reflexivity.
  - vm_compute. reflexivity.
  - vm_compute. congruence.
Defined.
