(* ===== verification/SszExtra.v ===== *)
(** * Further SSZ types

    crates/pharos-ssz/src/array.rs ([[T; N]]), progressive.rs (EIP-7916
    [ProgressiveList], [ProgressiveBitlist], progressive merkleization, the
    active-field mix-in of EIP-7495) and union.rs ([CompatibleUnion]).  The
    decoders are compared with those of [SszVector], [SszList] and [Bitlist]. *)

From Stdlib Require Import ZArith Lia.
From stdpp Require Import list.
From S2P Require Import Prelude SszCodec SszBitfield Merkle.

(** ** Arrays *)
Section array.
  Context {T : Type} (c : codec T).

Definition array_fixed_len (N : Z) : Z :=
  if IS_FIXED_SIZE c then wmul (ssz_fixed_len c) N else BYTES_PER_LENGTH_OFFSET.

Definition array_ssz_bytes_len (arr : list T) : Z :=
  foldl (fun acc e => wadd acc (ssz_bytes_len c e)) 0 arr.

Fixpoint array_offsets (parts : list bytes) (running_offset : Z) (buf : bytes) : bytes :=
  match parts with
  | [] => buf
  | part :: parts =>
      array_offsets parts (wadd running_offset (zlen part)) (buf ++ to_le_bytes 4 (as_u32 running_offset))
  end.

Definition array_ssz_append (arr : list T) (buf : bytes) : bytes :=
  if IS_FIXED_SIZE c then append_all c arr buf
  else
    let fixed_region_len := wmul (zlen arr) BYTES_PER_LENGTH_OFFSET in
    let variable_parts := as_ssz_bytes c <$> arr in
    foldl (fun buf part => buf ++ part) (array_offsets variable_parts fixed_region_len buf) variable_parts.

(** [offsets.windows(2)]. *)
Fixpoint windows_monotonic (offs : list Z) : result SszError unit :=
  match offs with
  | a :: ((b :: _) as rest) => if b <? a then Err OffsetsNotMonotonic else windows_monotonic rest
  | _ => Ok tt
  end.

Fixpoint array_regions (bs : bytes) (offs : list Z) : result SszError (list T) :=
  match offs with
  | [] => Ok []
  | start :: offs' =>
      let end_ := match offs' with next :: _ => next | [] => zlen bs end in
      if (zlen bs <? start) || (zlen bs <? end_) then Err (OffsetOutOfRange start (zlen bs))
      else
        s ← slice bs start end_;
        v ← from_ssz_bytes c s;
        vs ← array_regions bs offs';
        Ok (v :: vs)
  end.

Definition array_from_ssz_bytes (N : Z) (bs : bytes) : result SszError (list T) :=
  if IS_FIXED_SIZE c then
    let elem_len := ssz_fixed_len c in
    if N =? 0 then (if zlen bs =? 0 then Ok [] else Err (ExtraBytes (zlen bs)))
    else
      expected ← ok_or (checked_mul elem_len N) (Custom "array byte length overflow");
      if negb (zlen bs =? expected) then
        (if elem_len =? 0 then Panic else Err (VectorLengthMismatch (zlen bs / elem_len) N))
      else
        mapM (fun i => slice bs (i * elem_len) (i * elem_len + elem_len) ≫= from_ssz_bytes c) (seqZ 0 N)
  else if (zlen bs =? 0) && (N =? 0) then Ok []
  else if zlen bs <? BYTES_PER_LENGTH_OFFSET then Err (IncompleteData BYTES_PER_LENGTH_OFFSET (zlen bs))
  else
    first_offset ← slice bs 0 4 ≫= read_offset;
    if negb (first_offset =? wmul N BYTES_PER_LENGTH_OFFSET) then Err OffsetIntoFixedRegion
    else
      offsets ← mapM (fun i => slice bs (i * 4) (i * 4 + 4) ≫= read_offset) (seqZ 0 N);
      _ ← windows_monotonic offsets;
      array_regions bs offsets.
End array.

(** ** ProgressiveList *)
Section progressive_list.
  Context {T : Type} (c : codec T).

Definition pl_ssz_bytes_len (items : list T) : Z :=
  if IS_FIXED_SIZE c then wmul (ssz_fixed_len c) (zlen items)
  else foldl (fun len e => wadd len (ssz_bytes_len c e)) (wmul BYTES_PER_LENGTH_OFFSET (zlen items)) items.

Definition pl_ssz_append (items : list T) (buf : bytes) : bytes :=
  if IS_FIXED_SIZE c then append_all c items buf
  else append_all c items (encode_offsets c items (wmul BYTES_PER_LENGTH_OFFSET (zlen items)) buf).

Fixpoint pl_regions (bs : bytes) (offs : list Z) : result SszError (list T) :=
  match offs with
  | [] => Ok []
  | start :: offs' =>
      let end_ := match offs' with next :: _ => next | [] => zlen bs end in
      if (end_ <? start) || (zlen bs <? end_) then Err (OffsetOutOfRange start (zlen bs))
      else
        s ← slice bs start end_;
        v ← from_ssz_bytes c s;
        vs ← pl_regions bs offs';
        Ok (v :: vs)
  end.

Definition pl_from_ssz_bytes (bs : bytes) : result SszError (list T) :=
  if zlen bs =? 0 then Ok []
  else if IS_FIXED_SIZE c then
    let elem_size := ssz_fixed_len c in
    if elem_size =? 0 then Err (Custom "ProgressiveList element size is 0")
    else if negb (zlen bs mod elem_size =? 0)
    then Err (InvalidByteLength (zlen bs) (zlen bs / elem_size * elem_size))
    else
      mapM (fun i => slice bs (i * elem_size) (i * elem_size + elem_size) ≫= from_ssz_bytes c)
        (seqZ 0 (zlen bs / elem_size))
  else if zlen bs <? BYTES_PER_LENGTH_OFFSET then Err (InvalidByteLength (zlen bs) BYTES_PER_LENGTH_OFFSET)
  else
    first_offset ← slice bs 0 4 ≫= read_offset;
    if negb (first_offset mod BYTES_PER_LENGTH_OFFSET =? 0)
    then Err (Custom "ProgressiveList: first offset is not offset-aligned")
    else if zlen bs <? first_offset then Err (OffsetOutOfRange first_offset (zlen bs))
    else
      let count := first_offset / BYTES_PER_LENGTH_OFFSET in
      if zlen bs <? count * BYTES_PER_LENGTH_OFFSET
      then Err (InvalidByteLength (zlen bs) (count * BYTES_PER_LENGTH_OFFSET))
      else
        offsets ← mapM (fun i => slice bs (i * 4) (i * 4 + 4) ≫= read_offset) (seqZ 0 count);
        pl_regions bs offsets.
End progressive_list.

(** ** ProgressiveBitlist: the storage of [Bitlist], without a limit *)
Definition pbl_push (bl : Bitlist) (value : bool) : result SszError Bitlist :=
  let data := if bit_len bl mod 8 =? 0 then bl_data bl ++ [Byte.x00] else bl_data bl in
  let i := bit_len bl in
  data ← (if value then data_update data i byte_set else Ok data);
  Ok (mkBitlist data (bit_len bl + 1)).

Definition pbl_get (bl : Bitlist) (i : Z) : result SszError (option bool) :=
  if bit_len bl <=? i then Ok None else b ← data_bit (bl_data bl) i; Ok (Some b).

Definition pbl_from_ssz_bytes (bs : bytes) : result SszError Bitlist :=
  match last bs with
  | None => Err BitlistMissingLengthBit
  | Some last =>
      if byte.unsigned last =? 0 then Err BitlistMissingLengthBit
      else
        let pos := highest_bit_pos last in
        let bit_len := (zlen bs - 1) * 8 + pos in
        let data_bytes := div_ceil bit_len 8 in
        if 0 <? data_bytes then
          data ← slice bs 0 data_bytes;
          if negb (bit_len mod 8 =? 0) then
            b ← index data (data_bytes - 1);
            Ok (mkBitlist (<[Z.to_nat (data_bytes - 1) := byte_clear b pos]> data) bit_len)
          else Ok (mkBitlist data bit_len)
        else Ok (mkBitlist [] bit_len)
  end.

(** [From<Bitlist<N>>]. *)
Definition pbl_from_bitlist (bl : Bitlist) : result SszError Bitlist :=
  foldM (fun pbl i => b ← bl_get bl i; pbl_push pbl (default false b)) (seqZ 0 (bit_len bl)) (mkBitlist [] 0).

(** ** CompatibleUnion *)
Section union.
  (** [CompatibleUnionValue]: the selector, the data's encoding and the dispatch
      of the implementing enum. *)
  Context {V : Type} (selector : V -> byte) (data_ssz_append : V -> bytes -> bytes)
    (from_selector_and_bytes : byte -> bytes -> result SszError V).

Definition union_ssz_bytes_len (v : V) : Z := 1 + zlen (data_ssz_append v []).
Definition union_ssz_append (v : V) (buf : bytes) : bytes := data_ssz_append v (buf ++ [selector v]).

Definition union_from_ssz_bytes (bs : bytes) : result SszError V :=
  match bs with
  | [] => Err (Custom "CompatibleUnion: empty input")
  | sel :: data =>
      if (byte.unsigned sel =? 0) || (127 <? byte.unsigned sel)
      then Err (Custom "CompatibleUnion: illegal selector")
      else from_selector_and_bytes sel data
  end.
End union.

(** ** Progressive merkleization *)
Section progressive_root.
  Context (sha256 : bytes -> bytes).

(** Every call but the last takes at least one chunk: the number of chunks is
    enough fuel. *)
Fixpoint merkleize_progressive_fuel (fuel : nat) (chunks : list bytes) (num_leaves : Z) : result SszError bytes :=
  match chunks, fuel with
  | [], _ => Ok zero_chunk
  | _, O => Panic
  | _, S fuel =>
      let first_count := Z.min num_leaves (zlen chunks) in
      a ← merkleize_padded sha256 (take (Z.to_nat first_count) chunks) num_leaves;
      b ← merkleize_progressive_fuel fuel (drop (Z.to_nat first_count) chunks) (wmul num_leaves 4);
      Ok (hash_concat sha256 a b)
  end.
Definition merkleize_progressive (chunks : list bytes) (num_leaves : Z) : result SszError bytes :=
  merkleize_progressive_fuel (length chunks) chunks num_leaves.

(** [bytes[i / 8] |= 1 << (i % 8)] for the active fields. *)
Fixpoint active_bytes (bs : bytes) (i : Z) (active_fields : list bool) : result SszError bytes :=
  match active_fields with
  | [] => Ok bs
  | bit :: rest =>
      bs ← (if bit then data_update bs i byte_set else Ok bs);
      active_bytes bs (i + 1) rest
  end.
Definition mix_in_active_fields (root : bytes) (active_fields : list bool) : result SszError bytes :=
  bs ← active_bytes zero_chunk 0 active_fields;
  Ok (hash_concat sha256 root bs).

(** [tree_hash_root] of a [ProgressiveList] from its chunks (packed basic values
    or element roots). *)
Definition pl_root (chunks : list bytes) (len : Z) : result SszError bytes :=
  if len =? 0 then Ok (mix_in_length sha256 zero_chunk 0)
  else root ← merkleize_progressive chunks 1; Ok (mix_in_length sha256 root len).

Definition pbl_root (bl : Bitlist) : result SszError bytes :=
  data ← slice (bl_data bl) 0 (div_ceil (bit_len bl) 8);
  let chunks := pack_bytes_to_chunks data in
  if zlen chunks =? 0 then Ok (mix_in_length sha256 zero_chunk 0)
  else root ← merkleize_progressive chunks 1; Ok (mix_in_length sha256 root (bit_len bl)).
End progressive_root.

(** ** ProgressiveList and SszList accept the same bytes, but for one input *)
Section progressive_facts.
  Context {T : Type} (c : codec T) (wf : T -> Prop) `{Hc : !CodecOk c wf}.

Lemma pl_regions_Ok bs offs vs :
  Forall (fun o => 0 <= o) offs -> pl_regions c bs offs = Ok vs <-> decode_regions c bs offs = Ok vs.
Proof using.
  intros Hpos. revert vs. induction Hpos as [|o offs Ho Hpos IH]; intros vs; [done|].
  cbn [pl_regions decode_regions].
  set (end_ := match offs with next :: _ => next | [] => zlen bs end).
  destruct ((end_ <? o) || (zlen bs <? end_)) eqn:Hbad.
  - split; [done|]. intros (s & Hs & _)%bind_Ok_inv. apply slice_Ok_iff in Hs. zbool. lia.
  - split; intros (s & Hs & (v & Hv & (vs' & Hvs & [= <-])%bind_Ok_inv)%bind_Ok_inv)%bind_Ok_inv;
      rewrite Hs; cbn [mbind result_bind]; rewrite Hv; cbn [mbind result_bind]; apply IH in Hvs; by rewrite Hvs.
Qed.

(** Regions that can be cut out have valid offsets. *)
Lemma decode_regions_validates bs o offs vs first prev :
  first <= o -> match prev with Some p => p <= o | None => True end ->
  decode_regions c bs (o :: offs) = Ok vs -> validate_offsets first (zlen bs) prev (o :: offs) = Ok tt.
Proof using.
  revert o vs prev. induction offs as [|o' offs IH]; intros o vs prev Hf Hp Hd;
    cbn [decode_regions] in Hd; apply bind_Ok_inv in Hd as (s & Hs%slice_Ok_iff & Hd); cbn [validate_offsets].
  - destruct (Z.ltb_spec o first); [lia|]. destruct (Z.ltb_spec (zlen bs) o); [lia|].
    destruct prev as [p|]; [|done]. destruct (Z.ltb_spec o p); [lia|done].
  - destruct (Z.ltb_spec o first); [lia|]. destruct (Z.ltb_spec (zlen bs) o); [lia|].
    replace (match prev with Some p => o <? p | None => false end) with false.
    2: { destruct prev as [p|]; [|done]. symmetry. apply Z.ltb_ge. lia. }
    apply bind_Ok_inv in Hd as (v & _ & (vs' & Hvs & _)%bind_Ok_inv).
    eapply (IH o' vs' (Some o)); [lia|cbn; lia|done].
Qed.

(** The variable-size branch, past the checks on the first offset. *)
Lemma pl_variable_Ok bs k vs :
  0 < k -> k * 4 <= zlen bs -> from_le_bytes (take 4 bs) = k * 4 ->
  (mapM (fun i => slice bs (i * 4) (i * 4 + 4) ≫= read_offset) (seqZ 0 k) ≫= pl_regions c bs) = Ok vs <->
  (offsets ← mapM (fun i => slice bs (i * 4) (i * 4 + 4) ≫= read_offset) (seqZ 0 k);
   _ ← validate_offsets (k * 4) (zlen bs) None offsets;
   decode_regions c bs offsets) = Ok vs.
Proof using.
  intros Hk Hl Hfo. split.
  - intros (offs & Hr & Hd)%bind_Ok_inv. rewrite Hr. cbn [mbind result_bind].
    destruct (read_offsets_canonical bs k offs) as (Hlen & Htab & Hb); [lia..|done|].
    apply pl_regions_Ok in Hd; [|eapply Forall_impl; [done|]; cbn; lia].
    destruct offs as [|o offs]; [rewrite zlen_nil in Hlen; lia|].
    assert (o = k * 4) as ->.
    { rewrite <- Hfo. apply (f_equal (take 4)) in Htab. rewrite take_take, Nat.min_l in Htab by lia.
      rewrite <- Htab. unfold table. cbn [fmap list_fmap concat].
      rewrite take_app_length' by (by rewrite length_to_le_bytes). symmetry. apply from_to_le_bytes.
      by apply Forall_cons in Hb as [? _]. }
    rewrite (decode_regions_validates bs (k * 4) offs vs (k * 4) None); [done|lia|done|done].
  - intros (offs & Hr & ([] & Hv & Hd)%bind_Ok_inv)%bind_Ok_inv. rewrite Hr. cbn [mbind result_bind].
    destruct (read_offsets_canonical bs k offs) as (_ & _ & Hb); [lia..|done|].
    apply pl_regions_Ok; [|done]. eapply Forall_impl; [done|]. cbn. lia.
Qed.

(** A [ProgressiveList] decodes exactly what an unlimited [SszList] decodes,
    and, for variable-size elements, any input that begins with four zero bytes. *)
Theorem progressive_list_decode_iff bs vs :
  pl_from_ssz_bytes c bs = Ok vs <->
  decode_list_items c bs = Ok vs \/
  (IS_FIXED_SIZE c = false /\ 4 <= zlen bs /\ from_le_bytes (take 4 bs) = 0 /\ vs = []).
Proof using Hc.
  unfold pl_from_ssz_bytes, decode_list_items. destruct (Z.eqb_spec (zlen bs) 0) as [H0|H0].
  { split; [by left|]. intros [?|(_ & ? & _)]; [done|lia]. }
  destruct (IS_FIXED_SIZE c) eqn:Hfix.
  { unfold decode_fixed_items. destruct fixed_len_bounds as [Hpos _].
    destruct (Z.eqb_spec (ssz_fixed_len c) 0); [lia|]. split; [by left|]. by intros [?|(? & _)]. }
  unfold decode_variable_items, BYTES_PER_LENGTH_OFFSET.
  destruct (Z.ltb_spec (zlen bs) 4). { split; [done|]. intros [?|(_ & ? & _)]; [done|lia]. }
  assert (slice (E:=SszError) bs 0 4 = Ok (take 4 bs)) as ->.
  { apply slice_Ok_iff. split_and!; [lia..|]. by rewrite drop_0. }
  cbn [mbind result_bind read_offset]. pose proof (from_le_bytes_bound (take 4 bs)) as Hb.
  set (fo := from_le_bytes (take 4 bs)) in *.
  destruct (Z.eqb_spec (fo mod 4) 0) as [Hm|Hm]; cbn [negb].
  2: { split; [done|]. intros [?|(_ & _ & Hz & _)]; [done|]. by rewrite Hz in Hm. }
  apply Z.mod_divide in Hm as [k Hk]; [|lia].
  destruct (Z.ltb_spec (zlen bs) fo). { split; [done|]. intros [?|(_ & _ & Hz & _)]; [done|lia]. }
  rewrite Hk, Z.div_mul by lia. destruct (Z.ltb_spec (zlen bs) (k * 4)); [lia|].
  destruct (Z.eqb_spec k 0) as [->|Hk0].
  - destruct (Z.eqb_spec (zlen bs) 0); [lia|]. cbn. split; [|by intros [?|(_ & _ & _ & ->)]].
    intros [= <-]. by right.
  - rewrite pl_variable_Ok by (fold fo; lia). split; [by left|]. intros [?|(_ & _ & ? & _)]; [done|lia].
Qed.
End progressive_facts.

Lemma progressive_list_decode_iff_witness :
  let c := list_codec (uint_codec 1) 8 in
  pl_from_ssz_bytes c [Byte.x00; Byte.x00; Byte.x00; Byte.x00; Byte.x05] = Ok [] /\
  pl_from_ssz_bytes c [Byte.x04; Byte.x00; Byte.x00; Byte.x00; Byte.x05] = Ok [[5]].
Proof.
  assert (CodecOk (uint_codec 1) (wf_uint 1)) as Hu by (apply uint_codec_ok; [lia|done]).
  intros c. pose proof (list_codec_ok (uint_codec 1) (wf_uint 1) 8) as Hc. split.
  - apply (@progressive_list_decode_iff _ c (wf_list (wf_uint 1) 8) Hc). right. repeat split. vm_compute. congruence.
  - apply (@progressive_list_decode_iff _ c (wf_list (wf_uint 1) 8) Hc). left. reflexivity.
Defined.

(** The bytes an [SszList] rejects and a [ProgressiveList] silently drops. *)
Theorem progressive_list_ignores_bytes rest :
  let bs := [Byte.x00; Byte.x00; Byte.x00; Byte.x00] ++ rest in
  pl_from_ssz_bytes (list_codec (uint_codec 1) 8) bs = Ok [] /\
  decode_list_items (list_codec (uint_codec 1) 8) bs = Err (ExtraBytes (4 + zlen rest)).
Proof.
  intros bs. pose proof (zlen_nonneg rest). assert (zlen bs = 4 + zlen rest) as Hl by (unfold bs; rewrite zlen_app; done).
  assert (slice (E:=SszError) bs 0 4 = Ok [Byte.x00; Byte.x00; Byte.x00; Byte.x00]) as Hs by (by apply (slice_middle [] [Byte.x00; Byte.x00; Byte.x00; Byte.x00] rest)).
  unfold pl_from_ssz_bytes, decode_list_items, decode_variable_items, BYTES_PER_LENGTH_OFFSET. rewrite Hs, !Hl.
  destruct (Z.eqb_spec (4 + zlen rest) 0); [lia|]. destruct (Z.ltb_spec (4 + zlen rest) 4); [lia|].
  cbn [IS_FIXED_SIZE list_codec mbind result_bind read_offset]. change (from_le_bytes _) with 0.
  change (negb (0 mod 4 =? 0)) with false. change (0 / 4) with 0. cbv iota. change (0 * 4) with 0.
  destruct (Z.ltb_spec (4 + zlen rest) 0); [lia|]. done.
Qed.

(** ** Arrays *)
Section array_facts.
  Context {T : Type} (c : codec T) (wf : T -> Prop) `{Hc : !CodecOk c wf}.

(** Arrays of fixed-size elements decode as vectors. *)
Theorem array_decodes_vector N bs vs :
  IS_FIXED_SIZE c = true -> 0 < N -> ssz_fixed_len c * N < U64 ->
  array_from_ssz_bytes c N bs = Ok vs <-> vector_from_ssz_bytes c N bs = Ok vs.
Proof using Hc.
  intros Hfix HN Hov. unfold array_from_ssz_bytes, vector_from_ssz_bytes, decode_list_items. rewrite Hfix.
  destruct (Z.eqb_spec N 0); [lia|]. destruct fixed_len_bounds as [Hpos _].
  unfold checked_mul. rewrite (proj2 (Z.ltb_lt _ _) Hov). cbn [ok_or mbind result_bind].
  destruct (Z.eqb_spec (zlen bs) (ssz_fixed_len c * N)) as [Hl|Hl]; cbn [negb].
  - destruct (Z.eqb_spec (zlen bs) 0); [nia|]. unfold decode_fixed_items.
    destruct (Z.eqb_spec (ssz_fixed_len c) 0); [lia|].
    rewrite Hl, Z.mul_comm, Z.mod_mul, Z.div_mul by lia. cbn [negb Z.eqb].
    destruct (mapM _ _) as [items| |] eqn:Hm; cbn [mbind result_bind]; try done.
    apply mapM_Ok_Forall2, Forall2_length in Hm. rewrite length_seqZ in Hm.
    assert (zlen items = N) as -> by (unfold zlen; lia). by rewrite Z.eqb_refl.
  - destruct (Z.eqb_spec (ssz_fixed_len c) 0); [lia|]. split; [done|].
    destruct (Z.eqb_spec (zlen bs) 0) as [H0|H0].
    { cbn. destruct (Z.eqb_spec (zlen (@nil T)) N); [|done]. rewrite zlen_nil in *. lia. }
    intros (items & Hd & Hn)%bind_Ok_inv. destruct (Z.eqb_spec (zlen items) N) as [Hi|]; [|done]. cbn in Hn. simplify_eq.
    destruct Hl. apply (decode_fixed_items_canonical c wf) in Hd as [Hwf <-]; [|done]. rewrite (zlen_body_fixed c wf) by done. lia.
Qed.
End array_facts.

(** A short input whose first offset is right aborts the decoder: the offset
    table is read without checking that it is there. *)
Theorem array_decode_aborts :
  array_from_ssz_bytes (list_codec (uint_codec 1) 8) 2 [Byte.x08; Byte.x00; Byte.x00; Byte.x00] = Panic.
Proof. reflexivity. Qed.

(** With variable-size elements [ssz_bytes_len] leaves out the offset table. *)
Theorem array_bytes_len_wrong :
  let c := list_codec (uint_codec 1) 8 in
  array_ssz_bytes_len c [[1]; [2]] = 2 /\ zlen (array_ssz_append c [[1]; [2]] []) = 10.
Proof. split; reflexivity. Qed.

(** ** Bit lists and roots *)

(** A [ProgressiveBitlist] decodes exactly what some [Bitlist<N>] decodes. *)
Theorem progressive_bitlist_decode bs bl N :
  bl_from_ssz_bytes N bs = Ok bl <-> pbl_from_ssz_bytes bs = Ok bl /\ bit_len bl <= N.
Proof.
  unfold bl_from_ssz_bytes, pbl_from_ssz_bytes. destruct (last bs) as [b|] eqn:Hlast; [|by split; [|intros []]].
  destruct (Z.eqb_spec (byte.unsigned b) 0) as [|H0]; [by split; [|intros []]|].
  destruct (sentinel_top bs b Hlast H0) as (Hh & _).
  set (n := (zlen bs - 1) * 8 + highest_bit_pos b). apply last_lookup_Z in Hlast as [Hpos _].
  assert (0 <= n) as Hn by (unfold n; lia). pose proof (div_ceil_8_bounds n Hn).
  assert (Hlen : forall m : result SszError Bitlist, (forall bl', m = Ok bl' -> bit_len bl' = n) ->
    (if N <? n then Err (BitlistOverflow N) else m) = Ok bl <-> m = Ok bl /\ bit_len bl <= N).
  { intros m Hm. destruct (Z.ltb_spec N n); (split; [|intros [Hb Hle]; specialize (Hm _ Hb)]); try done; try lia.
    intros Hb. split; [done|]. rewrite (Hm _ Hb). lia. }
  destruct (Z.eqb_spec n 0) as [E0|E0].
  - rewrite E0. change (0 <? div_ceil 0 8) with false. cbv iota. rewrite E0 in Hlen.
    apply Hlen. by intros ? [= <-].
  - rewrite (proj2 (Z.ltb_lt 0 (div_ceil n 8))) by lia. apply Hlen.
    intros bl' (data & _ & Hd)%bind_Ok_inv. destruct (negb _); [|by injection Hd as <-].
    by apply bind_Ok_inv in Hd as (? & _ & [= <-]).
Qed.

(** The tree of EIP-7916: subtrees of 1, 4, 16, .. leaves along the right spine. *)
Fixpoint progressive_tree (sha256 : bytes -> bytes) (fuel d : nat) (chunks : list bytes) : bytes :=
  match chunks, fuel with
  | [], _ | _, O => zero_chunk
  | _, S fuel =>
      hash_concat sha256 (tree_root sha256 (2 * d) (take (4 ^ d) chunks))
        (progressive_tree sha256 fuel (S d) (drop (4 ^ d) chunks))
  end.

Lemma pow4 d : 4 ^ Z.of_nat d = Z.of_nat (4 ^ d) /\ 4 ^ Z.of_nat d = 2 ^ Z.of_nat (2 * d) /\ 4 ^ Z.of_nat (S d) = 4 * 4 ^ Z.of_nat d.
Proof.
  split_and!.
  - by rewrite Nat2Z.inj_pow.
  - rewrite Nat2Z.inj_mul, Z.pow_mul_r by lia. done.
  - rewrite Nat2Z.inj_succ, Z.pow_succ_r by lia. done.
Qed.

Lemma merkleize_progressive_fuel_spec sha256 fuel d chunks :
  (length chunks <= fuel)%nat -> 3 * zlen chunks + 4 ^ Z.of_nat d <= 2 ^ 62 ->
  merkleize_progressive_fuel sha256 fuel chunks (4 ^ Z.of_nat d) = Ok (progressive_tree sha256 fuel d chunks).
Proof.
  revert d chunks. induction fuel as [|fuel IH]; intros d [|ch chunks] Hf Hb; try done; [cbn in Hf; lia|].
  destruct (pow4 d) as (HN & H2 & HS). pose proof (Z.pow_pos_nonneg 4 (Z.of_nat d) ltac:(lia) ltac:(lia)) as Hpos.
  cbn [merkleize_progressive_fuel progressive_tree]. set (l := ch :: chunks) in *.
  pose proof (zlen_nonneg l). set (k := Z.to_nat (Z.min (4 ^ Z.of_nat d) (zlen l))).
  assert (Hl : 0 < zlen l) by (unfold l; rewrite zlen_cons; pose proof (zlen_nonneg chunks); lia).
  assert (Htake : take k l = take (4 ^ d) l).
  { destruct (decide (zlen l <= 4 ^ Z.of_nat d)); [|f_equal; unfold k; lia].
    rewrite !take_ge; [done|unfold zlen in *; lia..]. }
  assert (Hdrop : drop k l = drop (4 ^ d) l).
  { destruct (decide (zlen l <= 4 ^ Z.of_nat d)); [|f_equal; unfold k; lia].
    rewrite !drop_ge; [done|unfold zlen in *; lia..]. }
  rewrite Htake, Hdrop. rewrite merkleize_padded_Ok.
  2: { unfold zlen. rewrite length_take. lia. }
  2: lia.
  rewrite H2, Z.log2_up_pow2, Nat2Z.id by lia. cbn [mbind result_bind]. rewrite <- H2.
  assert (Hrest : zlen (drop (4 ^ d) l) = Z.max 0 (zlen l - 4 ^ Z.of_nat d)).
  { unfold zlen. rewrite length_drop. lia. }
  destruct (drop (4 ^ d) l) as [|x rest] eqn:Hr; [by destruct fuel|]. rewrite <- Hr in *.
  assert (0 < zlen (drop (4 ^ d) l)) by (rewrite Hr, zlen_cons; pose proof (zlen_nonneg rest); lia).
  unfold wmul. rewrite Z.mul_comm, <- HS, Z.mod_small by (unfold U64; lia). rewrite IH; [done| |lia].
  rewrite length_drop. unfold l in *. cbn [length] in *. pose proof (Nat.pow_nonzero 4 d). lia.
Qed.

(** [merkleize_progressive] computes the tree of EIP-7916 and does not abort. *)
Theorem merkleize_progressive_correct sha256 chunks :
  3 * zlen chunks < 2 ^ 62 ->
  merkleize_progressive sha256 chunks 1 = Ok (progressive_tree sha256 (length chunks) 0 chunks).
Proof. intros Hb. apply (merkleize_progressive_fuel_spec sha256 (length chunks) 0 chunks); cbn; lia. Qed.

Lemma active_bytes_spec active bs i :
  0 <= i -> i + zlen active <= 256 -> zlen bs = 32 ->
  exists bs', active_bytes bs i active = Ok bs' /\ zlen bs' = 32 /\
    forall j, 0 <= j -> Z.testbit (le_combine bs') j
      = Z.testbit (le_combine bs) j || ((i <=? j) && default false (active !! Z.to_nat (j - i))).
Proof.
  revert bs i. induction active as [|bit active IH]; intros bs i Hi Hn Hl.
  { exists bs. split_and!; [done..|]. intros j Hj. cbn. by rewrite andb_false_r, orb_false_r. }
  rewrite zlen_cons in Hn. pose proof (zlen_nonneg active). cbn [active_bytes].
  assert (exists bs1, (if bit then data_update bs i byte_set else Ok bs) = Ok bs1 /\ zlen bs1 = 32 /\
    forall j, 0 <= j -> Z.testbit (le_combine bs1) j = Z.testbit (le_combine bs) j || ((j =? i) && bit))
    as (bs1 & -> & Hl1 & Hb1).
  { destruct bit.
    - destruct (data_update_Ok bs i true) as (bs1 & -> & Hl1 & Hb1); [done|apply Z.div_lt_upper_bound; lia|].
      exists bs1. split_and!; [done|lia|]. intros j Hj. rewrite Hb1 by done. destruct (j =? i); by rewrite ?orb_true_r, ?orb_false_r.
    - exists bs. split_and!; [done..|]. intros j Hj. by rewrite andb_false_r, orb_false_r. }
  cbn [mbind result_bind]. destruct (IH bs1 (i + 1)) as (bs2 & -> & Hl2 & Hb2); [lia..|].
  exists bs2. split_and!; [done..|]. intros j Hj. rewrite Hb2, Hb1 by done. rewrite <- orb_assoc. f_equal.
  destruct (Z.eqb_spec j i) as [->|Hne].
  - rewrite Z.sub_diag, Z.leb_refl, (proj2 (Z.leb_gt _ _)) by lia. cbn. by rewrite orb_false_r.
  - cbn [andb orb]. destruct (Z.leb_spec (i + 1) j), (Z.leb_spec i j); try lia.
    by replace (Z.to_nat (j - i)) with (S (Z.to_nat (j - (i + 1)))) by lia.
Qed.

(** The chunk mixed in has exactly the bits of the active fields. *)
Theorem mix_in_active_fields_bits sha256 root active :
  zlen active <= 256 ->
  exists chunk, mix_in_active_fields sha256 root active = Ok (hash_concat sha256 root chunk) /\ zlen chunk = 32 /\
    forall j, 0 <= j -> Z.testbit (le_combine chunk) j = default false (active !! Z.to_nat j).
Proof.
  intros Hn. destruct (active_bytes_spec active zero_chunk 0) as (chunk & Hc & Hl & Hb); [lia..|done|].
  unfold mix_in_active_fields. rewrite Hc. exists chunk. split_and!; [done..|]. intros j Hj.
  rewrite Hb by done. change (le_combine zero_chunk) with 0. rewrite Z.testbit_0_l, Z.sub_0_r.
  by rewrite (proj2 (Z.leb_le 0 j)).
Qed.

(** A [ProgressiveList] is serialized as a list. *)
Lemma pl_ssz_append_eq {T} (c : codec T) items buf : pl_ssz_append c items buf = seq_ssz_append c items buf.
Proof. unfold pl_ssz_append, seq_ssz_append, encode_variable_elems, wmul. by rewrite (Z.mul_comm (zlen items)). Qed.
