(* ===== verification/SszTree.v ===== *)
(** * The persistent Merkle tree behind [SszList] and [SszVector]

    Models [crates/pharos-ssz/src/sequence.rs]: [Node] with its lazily filled
    hash caches, the copy-on-write updates, the tree iterator, and the [Flat]
    and [Tree] backends of the two sequence types with their Merkle roots.
    [Arc] sharing is invisible except for the caches, which are written through
    [OnceLock]s: they are part of the node here, and [cached_root] returns the
    node with the caches it has filled. *)

From Stdlib Require Import ZArith Lia.
From S2P Require Import Prelude SszCodec SszBitfield Merkle.

(** [TreeHashType]. *)
Inductive TreeHashType : Type := Basic | Container | Vector | List_.
#[global] Instance TreeHashType_eq_dec : EqDecision TreeHashType.
Proof. solve_decision. Defined.

(** The [TreeHash] trait of an element type (with [Encode::ssz_fixed_len]). *)
Record TreeHash (T : Type) : Type := mkTreeHash {
  TREE_HASH_TYPE : TreeHashType;
  PACKED_AS_FULL_CHUNK : bool;
  elem_fixed_len : Z;
  tree_hash_root : T -> bytes;
  tree_hash_packed_encoding : T -> bytes;
}.
Arguments TREE_HASH_TYPE {_} _.
Arguments PACKED_AS_FULL_CHUNK {_} _.
Arguments elem_fixed_len {_} _.
Arguments tree_hash_root {_} _ _.
Arguments tree_hash_packed_encoding {_} _ _.

Definition depth_for_limit (n : Z) : Z := if n <=? 1 then 1 else Z.log2 (n - 1) + 1.

Definition tree_depth (n epc : Z) : Z :=
  let elem_size := 32 / epc in
  let chunk_limit := Z.max (div_ceil (wmul n elem_size) 32) 1 in
  if chunk_limit <=? 1 then 0 else depth_for_limit chunk_limit.

(** ** [Node<T>] *)
Inductive Node (T : Type) : Type :=
  | Branch (lt rt : Node T) (hash : option bytes)
  | Leaf (t : T)
  | PackedLeaf (elems : list T) (chunk : option bytes)
  | ZeroSubtree (d : Z).
Arguments Branch {_} _ _ _.
Arguments Leaf {_} _.
Arguments PackedLeaf {_} _ _.
Arguments ZeroSubtree {_} _.

Section node.
  Context {T : Type}.

(** [Node::get]. *)
Fixpoint node_get (n : Node T) (i depth : Z) : result SszError (option T) :=
  match n with
  | Leaf t => Ok (if depth =? 0 then Some t else None)
  | PackedLeaf _ _ => Panic
  | ZeroSubtree _ => Ok None
  | Branch lt rt _ =>
      if depth =? 0 then Ok None
      else
        let child_depth := depth - 1 in
        let mid := 2 ^ child_depth in
        if i <? mid then node_get lt i child_depth
        else node_get rt (i - mid) child_depth
  end.

(** The [ZeroSubtree] arm of [Node::with_set]: materialise the spine.  The
    recursion is on the depth. *)
Fixpoint zero_with_set (k : nat) (d i : Z) (v : T) : Node T :=
  match k with
  | O => Leaf v
  | S k =>
      let mid := 2 ^ Z.of_nat k in
      let d' := (d - 1) mod 256 in
      if i <? mid
      then Branch (zero_with_set k d' i v) (ZeroSubtree d') None
      else Branch (ZeroSubtree d') (zero_with_set k d' (i - mid) v) None
  end.

Fixpoint node_with_set (n : Node T) (i : Z) (v : T) (depth : Z) : result SszError (Node T) :=
  match n with
  | Leaf _ => Ok (Leaf v)
  | PackedLeaf _ _ => Panic
  | ZeroSubtree d => Ok (zero_with_set (Z.to_nat depth) d i v)
  | Branch lt rt _ =>
      if depth =? 0 then Ok (Leaf v)
      else
        let child_depth := depth - 1 in
        let mid := 2 ^ child_depth in
        if i <? mid then
          lt' ← node_with_set lt i v child_depth; Ok (Branch lt' rt None)
        else
          rt' ← node_with_set rt (i - mid) v child_depth; Ok (Branch lt rt' None)
  end.

Fixpoint chunk_at (n : Node T) (chunk_idx depth : Z) : result SszError (option (list T)) :=
  match n with
  | PackedLeaf elems _ => Ok (if depth =? 0 then Some elems else None)
  | ZeroSubtree _ => Ok None
  | Leaf _ => Panic
  | Branch lt rt _ =>
      if depth =? 0 then Ok None
      else
        let child_depth := depth - 1 in
        let mid := 2 ^ child_depth in
        if chunk_idx <? mid then chunk_at lt chunk_idx child_depth
        else chunk_at rt (chunk_idx - mid) child_depth
  end.

(** [Node::with_chunk], on the depth. *)
Fixpoint with_chunk (k : nat) (n : Node T) (chunk_idx : Z) (elems : list T)
  : result SszError (Node T) :=
  match k with
  | O => Ok (PackedLeaf elems None)
  | S k =>
      let mid := 2 ^ Z.of_nat k in
      match n with
      | Branch lt rt _ =>
          if chunk_idx <? mid then
            lt' ← with_chunk k lt chunk_idx elems; Ok (Branch lt' rt None)
          else
            rt' ← with_chunk k rt (chunk_idx - mid) elems; Ok (Branch lt rt' None)
      | ZeroSubtree d =>
          let d' := (d - 1) mod 256 in
          if chunk_idx <? mid then
            lt' ← with_chunk k (ZeroSubtree d') chunk_idx elems;
            Ok (Branch lt' (ZeroSubtree d') None)
          else
            rt' ← with_chunk k (ZeroSubtree d') (chunk_idx - mid) elems;
            Ok (Branch (ZeroSubtree d') rt' None)
      | PackedLeaf _ _ | Leaf _ => Panic
      end
  end.

(** [Node::from_chunks] and [Node::from_slice] share their recursion and differ
    in the leaf they build. *)
Fixpoint node_from {A} (mk : A -> Node T) (l : list A) (k : nat) : Node T :=
  match k with
  | O => match head l with Some a => mk a | None => ZeroSubtree 0 end
  | S k =>
      let mid := 2 ^ Z.of_nat k in
      let (left_elems, right_elems) :=
        if zlen l <=? mid then (l, [])
        else (take (Z.to_nat mid) l, drop (Z.to_nat mid) l) in
      Branch (node_from mk left_elems k)
        (match right_elems with
         | [] => ZeroSubtree (Z.of_nat k)
         | _ => node_from mk right_elems k
         end) None
  end.
Definition from_chunks (chunks : list (list T)) (depth : Z) : Node T :=
  node_from (fun c => PackedLeaf c None) chunks (Z.to_nat depth).
Definition from_slice (elems : list T) (depth : Z) : Node T :=
  node_from Leaf elems (Z.to_nat depth).

(** ** [TreeIter] *)
Record TreeIter : Type := mkTreeIter {
  ti_stack : list (Node T * Z);
  ti_pending : list T;
  ti_remaining : Z;
}.

Definition tree_iter_new (root : Node T) (depth len : Z) : TreeIter :=
  mkTreeIter (if 0 <? len then [(root, depth)] else []) [] len.

Fixpoint node_size (n : Node T) : nat :=
  match n with
  | Branch l r _ => S (node_size l + node_size r)
  | _ => 1
  end.
Definition stack_size (s : list (Node T * Z)) : nat := sum_list_with (fun p => node_size p.1) s.

(** The [loop] of [next].  Every iteration that continues pops a node and pushes
    at most its two children, so the number of nodes on the stack bounds the
    iterations; [None] is [next] returning [None]. *)
Fixpoint tree_iter_loop (fuel : nat) (it : TreeIter) : option (T * TreeIter) :=
  match ti_pending it with
  | t :: pending => Some (t, mkTreeIter (ti_stack it) pending (ti_remaining it - 1))
  | [] =>
      match fuel, ti_stack it with
      | S fuel, (node, depth) :: stack =>
          match node with
          | Leaf t => Some (t, mkTreeIter stack [] (ti_remaining it - 1))
          | PackedLeaf elems _ => tree_iter_loop fuel (mkTreeIter stack elems (ti_remaining it))
          | ZeroSubtree _ => tree_iter_loop fuel (mkTreeIter stack [] (ti_remaining it))
          | Branch lt rt _ =>
              if depth =? 0 then tree_iter_loop fuel (mkTreeIter stack [] (ti_remaining it))
              else tree_iter_loop fuel
                     (mkTreeIter ((lt, depth - 1) :: (rt, depth - 1) :: stack) []
                        (ti_remaining it))
          end
      | _, _ => None
      end
  end.

Definition tree_iter_next (it : TreeIter) : option (T * TreeIter) :=
  if ti_remaining it =? 0 then None
  else tree_iter_loop (stack_size (ti_stack it)) it.

(** Collecting the iterator: at most [n] calls of [next]. *)
Fixpoint tree_iter_collect (n : nat) (it : TreeIter) : list T :=
  match n with
  | O => []
  | S n => match tree_iter_next it with
           | Some (t, it) => t :: tree_iter_collect n it
           | None => []
           end
  end.
End node.
Arguments TreeIter : clear implicits.

(** ** Backends and sequences *)
Inductive Backend (T : Type) : Type :=
  | Flat (v : list T)
  | Tree (root : Node T).
Arguments Flat {_} _.
Arguments Tree {_} _.

Record SszList (T : Type) : Type := mkSszList {
  sl_backend : Backend T;
  sl_len : Z;
  sl_epc : Z;
}.
Arguments mkSszList {_} _ _ _.
Arguments sl_backend {_} _.
Arguments sl_len {_} _.
Arguments sl_epc {_} _.

Section sequence.
  Context {T : Type} (sha256 : bytes -> bytes) (th : TreeHash T) (N : Z).

Definition elems_per_chunk : Z :=
  if bool_decide (TREE_HASH_TYPE th = Basic) && negb (PACKED_AS_FULL_CHUNK th)
  then 32 / elem_fixed_len th else 1.

(** [pack_chunk]: aborts when the encodings exceed 32 bytes. *)
Definition pack_chunk (elems : list T) : result SszError bytes :=
  let enc := concat (tree_hash_packed_encoding th <$> elems) in
  if zlen enc <=? 32 then Ok (pad32 enc) else Panic.

(** [Node::cached_root]: the root and the node with its caches filled. *)
Fixpoint cached_root (n : Node T) : result SszError (bytes * Node T) :=
  match n with
  | Leaf t => Ok (tree_hash_root th t, n)
  | PackedLeaf elems chunk =>
      match chunk with
      | Some c => Ok (c, n)
      | None => c ← pack_chunk elems; Ok (c, PackedLeaf elems (Some c))
      end
  | ZeroSubtree d => r ← zero_hash sha256 d; Ok (r, n)
  | Branch lt rt hash =>
      match hash with
      | Some h => Ok (h, n)
      | None =>
          '(l, lt') ← cached_root lt;
          '(r, rt') ← cached_root rt;
          let h := hash_concat sha256 l r in
          Ok (h, Branch lt' rt' (Some h))
      end
  end.

(** [SszList] operations. *)
Definition sl_new : SszList T := mkSszList (Flat []) 0 1.

Definition sl_from_vec (v : list T) : result SszError (SszList T) :=
  if N <? zlen v then Err (ListLimitExceeded (zlen v) N)
  else Ok (mkSszList (Flat v) (zlen v) 1).

Definition build_tree (v : list T) : Node T :=
  let epc := elems_per_chunk in
  let depth := tree_depth N epc in
  if epc =? 1 then from_slice v depth
  else from_chunks (blocks (Z.to_nat epc) v) depth.

Definition sl_from_vec_tree (v : list T) : result SszError (SszList T) :=
  if N <? zlen v then Err (ListLimitExceeded (zlen v) N)
  else Ok (mkSszList (Tree (build_tree v)) (zlen v) elems_per_chunk).

Definition sl_empty_tree : SszList T :=
  let epc := elems_per_chunk in
  mkSszList (Tree (ZeroSubtree (tree_depth N epc))) 0 epc.

Definition sl_into_tree (s : SszList T) : result SszError (SszList T) :=
  match sl_backend s with
  | Tree _ => Ok s
  | Flat v => sl_from_vec_tree v
  end.

(** Element [i] of a tree with [epc] elements per chunk. *)
Definition tree_get (root : Node T) (epc i : Z) : result SszError (option T) :=
  let depth := tree_depth N epc in
  if epc =? 1 then node_get root i depth
  else
    c ← chunk_at root (i / epc) depth;
    Ok (c ≫= fun c => c !! Z.to_nat (i mod epc)).

Definition sl_get (s : SszList T) (i : Z) : result SszError (option T) :=
  match sl_backend s with
  | Flat v => Ok (v !! Z.to_nat i)
  | Tree root => if sl_len s <=? i then Ok None else tree_get root (sl_epc s) i
  end.

(** Writing element [i < len]. *)
Definition tree_set (root : Node T) (epc i : Z) (v : T) : result SszError (Node T) :=
  let depth := tree_depth N epc in
  if epc =? 1 then node_with_set root i v depth
  else
    let chunk_idx := i / epc in
    c ← chunk_at root chunk_idx depth;
    let chunk := default [] c in
    if i mod epc <? zlen chunk
    then with_chunk (Z.to_nat depth) root chunk_idx (<[Z.to_nat (i mod epc) := v]> chunk)
    else Panic.

Definition sl_with_set (s : SszList T) (i : Z) (v : T) : result SszError (SszList T) :=
  if sl_len s <=? i then Err (OffsetOutOfRange i (sat_sub (sl_len s) 1))
  else
    match sl_backend s with
    | Flat vec =>
        if i <? zlen vec then Ok (mkSszList (Flat (<[Z.to_nat i := v]> vec)) (sl_len s) 1)
        else Panic
    | Tree root =>
        root' ← tree_set root (sl_epc s) i v;
        Ok (mkSszList (Tree root') (sl_len s) (sl_epc s))
    end.

(** Appending at position [len]. *)
Definition tree_push (root : Node T) (epc len : Z) (v : T) : result SszError (Node T) :=
  let depth := tree_depth N epc in
  if epc =? 1 then node_with_set root len v depth
  else
    let chunk_idx := len / epc in
    if len mod epc =? 0 then with_chunk (Z.to_nat depth) root chunk_idx [v]
    else
      c ← chunk_at root chunk_idx depth;
      with_chunk (Z.to_nat depth) root chunk_idx (default [] c ++ [v]).

Definition sl_with_push (s : SszList T) (v : T) : result SszError (SszList T) :=
  if N <=? sl_len s then Err (ListLimitExceeded (sl_len s + 1) N)
  else
    match sl_backend s with
    | Flat vec => Ok (mkSszList (Flat (vec ++ [v])) (zlen (vec ++ [v])) 1)
    | Tree root =>
        root' ← tree_push root (sl_epc s) (sl_len s) v;
        Ok (mkSszList (Tree root') (sl_len s + 1) (sl_epc s))
    end.

(** [iter().collect()] ([to_vec]). *)
Definition tree_to_vec (root : Node T) (epc len : Z) : list T :=
  tree_iter_collect (Z.to_nat len) (tree_iter_new root (tree_depth N epc) len).
Definition sl_to_vec (s : SszList T) : list T :=
  match sl_backend s with
  | Flat v => v
  | Tree root => tree_to_vec root (sl_epc s) (sl_len s)
  end.

(** The Merkle root of the elements on the [Flat] backend, up to the limit. *)
Definition flat_list_root (elems : list T) : result SszError bytes :=
  if bool_decide (TREE_HASH_TYPE th = Basic) then
    let limit := div_ceil (wmul N (elem_fixed_len th)) 32 in
    merkleize_padded sha256
      (pack_bytes_to_chunks (concat (tree_hash_packed_encoding th <$> elems))) limit
  else merkleize_padded sha256 (tree_hash_root th <$> elems) N.

Definition sl_tree_hash_root (s : SszList T) : result SszError (bytes * SszList T) :=
  match sl_backend s with
  | Tree root =>
      '(r, root') ← cached_root root;
      Ok (mix_in_length sha256 r (sl_len s), mkSszList (Tree root') (sl_len s) (sl_epc s))
  | Flat elems =>
      r ← flat_list_root elems;
      Ok (mix_in_length sha256 r (sl_len s), s)
  end.

(** [SszVector] operations: the length is always [N]. *)
Record SszVector : Type := mkSszVector { sv_backend : Backend T; sv_epc : Z }.

Definition sv_from_vec (v : list T) : result SszError SszVector :=
  if negb (zlen v =? N) then Err (VectorLengthMismatch (zlen v) N)
  else Ok (mkSszVector (Flat v) 1).

Definition sv_from_vec_tree (v : list T) : result SszError SszVector :=
  if negb (zlen v =? N) then Err (VectorLengthMismatch (zlen v) N)
  else Ok (mkSszVector (Tree (build_tree v)) elems_per_chunk).

Definition sv_get (s : SszVector) (i : Z) : result SszError (option T) :=
  match sv_backend s with
  | Flat v => Ok (v !! Z.to_nat i)
  | Tree root => if N <=? i then Ok None else tree_get root (sv_epc s) i
  end.

Definition sv_with_set (s : SszVector) (i : Z) (v : T) : result SszError SszVector :=
  if N <=? i then Err (OffsetOutOfRange i (wsub N 1))
  else
    match sv_backend s with
    | Flat vec =>
        if i <? zlen vec then Ok (mkSszVector (Flat (<[Z.to_nat i := v]> vec)) 1) else Panic
    | Tree root =>
        root' ← tree_set root (sv_epc s) i v; Ok (mkSszVector (Tree root') (sv_epc s))
    end.

Definition sv_with_push (s : SszVector) (v : T) : result SszError SszVector :=
  Err (ListLimitExceeded (wadd N 1) N).

Definition sv_to_vec (s : SszVector) : list T :=
  match sv_backend s with
  | Flat v => v
  | Tree root => tree_to_vec root (sv_epc s) N
  end.

Definition flat_vector_root (elems : list T) : result SszError bytes :=
  if bool_decide (TREE_HASH_TYPE th = Basic) then
    merkleize sha256 (pack_bytes_to_chunks (concat (tree_hash_packed_encoding th <$> elems)))
  else merkleize sha256 (tree_hash_root th <$> elems).

Definition sv_tree_hash_root (s : SszVector) : result SszError (bytes * SszVector) :=
  match sv_backend s with
  | Tree root =>
      '(r, root') ← cached_root root; Ok (r, mkSszVector (Tree root') (sv_epc s))
  | Flat elems => r ← flat_vector_root elems; Ok (r, s)
  end.
End sequence.

(** ** What a tree represents

    [rep k n l]: the tree [n] of depth [k] holds the leaves [l], filled from the
    left; [is_leaf] says which node a leaf is (a [Leaf] of the element, or a
    [PackedLeaf] of the chunk). *)
Section rep.
  Context {T A : Type} (is_leaf : Node T -> A -> Prop).

Fixpoint rep (k : nat) (n : Node T) (l : list A) : Prop :=
  match k with
  | O => (exists a, is_leaf n a /\ l = [a]) \/ (n = ZeroSubtree 0 /\ l = [])
  | S k =>
      (exists lt rt h l1 l2, n = Branch lt rt h /\ rep k lt l1 /\ rep k rt l2 /\
         l = l1 ++ l2 /\ (l2 = [] \/ length l1 = (2 ^ k)%nat)) \/
      (n = ZeroSubtree (Z.of_nat (S k)) /\ l = [])
  end.

Lemma rep_length k n l : rep k n l -> (length l <= 2 ^ k)%nat.
Proof.
  revert n l; induction k as [|k IH]; intros n l; cbn.
  - intros [(a & _ & ->)|[_ ->]]; cbn; lia.
  - intros [(lt & rt & h & l1 & l2 & -> & H1%IH & H2%IH & -> & _)|[_ ->]]; cbn; [|lia].
    rewrite length_app. lia.
Qed.

Lemma rep_zero k : rep k (ZeroSubtree (Z.of_nat k)) [].
Proof. destruct k; cbn; auto. Qed.

Lemma node_from_rep (mk : A -> Node T) l k :
  (forall a, is_leaf (mk a) a) -> (length l <= 2 ^ k)%nat -> rep k (node_from mk l k) l.
Proof.
  intros Hmk. revert l; induction k as [|k IH]; intros l Hl; cbn [node_from rep].
  - destruct l as [|a [|]]; cbn in *; [by right|left; eauto|lia].
  - left. assert (2 ^ Z.of_nat k = Z.of_nat (2 ^ k)%nat) as Hp by (by rewrite Nat2Z.inj_pow).
    rewrite Hp. unfold zlen. destruct (Z.leb_spec (Z.of_nat (length l)) (Z.of_nat (2 ^ k))).
    + do 5 eexists. split; [done|]. split_and!; [apply IH; lia|apply rep_zero| |by left].
      by rewrite app_nil_r.
    + rewrite Nat2Z.id. cbn in Hl.
      destruct (drop (2 ^ k) l) as [|a r] eqn:Hd.
      { apply (f_equal length) in Hd. rewrite length_drop in Hd. cbn in Hd. lia. }
      do 5 eexists. split; [done|]. split_and!; [apply IH|apply IH| |].
      * rewrite length_take. lia.
      * rewrite <-Hd, length_drop. lia.
      * by rewrite <-Hd, take_drop.
      * right. rewrite length_take. lia.
Qed.
End rep.

(** Position [i] of [l] replaced by [v]; at [i = length l], [v] appended. *)
Definition list_set {A} (l : list A) (i : nat) (v : A) : list A :=
  take i l ++ v :: drop (S i) l.

Lemma list_set_insert {A} (l : list A) i v :
  (i < length l)%nat -> list_set l i v = <[i := v]> l.
Proof.
  intros Hi. unfold list_set. rewrite insert_take_drop by done. done.
Qed.
Lemma list_set_push {A} (l : list A) v : list_set l (length l) v = l ++ [v].
Proof. unfold list_set. rewrite take_ge, drop_ge by lia. done. Qed.
Lemma list_set_app_l {A} (l1 l2 : list A) i v :
  (i < length l1)%nat \/ l2 = [] /\ i = length l1 ->
  list_set (l1 ++ l2) i v = list_set l1 i v ++ l2.
Proof.
  unfold list_set. intros [Hi|[-> ->]].
  - rewrite take_app_le, drop_app_le by lia. by rewrite <-app_assoc.
  - rewrite !app_nil_r. done.
Qed.
Lemma list_set_app_r {A} (l1 l2 : list A) i v :
  (length l1 <= i)%nat -> list_set (l1 ++ l2) i v = l1 ++ list_set l2 (i - length l1) v.
Proof.
  intros Hi. unfold list_set. rewrite take_app_ge, drop_app_ge by lia.
  rewrite <-app_assoc. do 2 f_equal. f_equal. f_equal. lia.
Qed.
Lemma length_list_set {A} (l : list A) i v :
  (i < length l)%nat -> length (list_set l i v) = length l.
Proof. intros. rewrite list_set_insert by done. apply length_insert. Qed.

(** ** Lookup and update *)
Definition elem_leaf {T} (n : Node T) (t : T) : Prop := n = Leaf t.
Definition chunk_leaf {T} (n : Node T) (c : list T) : Prop := exists o, n = PackedLeaf c o.

Section node_lemmas.
  Context {T : Type}.

Lemma pow2_nat k : 2 ^ Z.of_nat k = Z.of_nat (2 ^ k).
Proof. by rewrite Nat2Z.inj_pow. Qed.

Lemma node_get_rep k (n : Node T) l i :
  rep elem_leaf k n l -> 0 <= i < 2 ^ Z.of_nat k ->
  node_get n i (Z.of_nat k) = Ok (l !! Z.to_nat i).
Proof.
  revert n l i; induction k as [|k IH]; intros n l i Hr Hi.
  - change (2 ^ Z.of_nat 0) with 1 in Hi. assert (i = 0) as -> by lia.
    destruct Hr as [(a & -> & ->)|[-> ->]]; done.
  - destruct Hr as [(lt & rt & h & l1 & l2 & -> & H1 & H2 & -> & H12)|[-> ->]]; [|done].
    cbn [node_get]. destruct (Z.eqb_spec (Z.of_nat (S k)) 0); [lia|].
    replace (Z.of_nat (S k) - 1) with (Z.of_nat k) by lia.
    rewrite Nat2Z.inj_succ, Z.pow_succ_r in Hi by lia.
    pose proof (rep_length _ _ _ _ H1) as Hl1. pose proof (pow2_nat k).
    destruct (Z.ltb_spec i (2 ^ Z.of_nat k)).
    + rewrite (IH _ _ _ H1) by lia. f_equal.
      destruct H12 as [->|]; [by rewrite app_nil_r|]. rewrite lookup_app_l; [done|lia].
    + rewrite (IH _ _ _ H2) by lia. f_equal.
      destruct H12 as [->|Hl]; [rewrite app_nil_r; by rewrite !lookup_ge_None_2 by (cbn; lia)|].
      rewrite lookup_app_r by lia. f_equal. lia.
Qed.

Lemma chunk_at_rep k (n : Node T) l i :
  rep chunk_leaf k n l -> 0 <= i < 2 ^ Z.of_nat k ->
  chunk_at n i (Z.of_nat k) = Ok (l !! Z.to_nat i).
Proof.
  revert n l i; induction k as [|k IH]; intros n l i Hr Hi.
  - change (2 ^ Z.of_nat 0) with 1 in Hi. assert (i = 0) as -> by lia.
    destruct Hr as [(a & [o ->] & ->)|[-> ->]]; done.
  - destruct Hr as [(lt & rt & h & l1 & l2 & -> & H1 & H2 & -> & H12)|[-> ->]]; [|done].
    cbn [chunk_at]. destruct (Z.eqb_spec (Z.of_nat (S k)) 0); [lia|].
    replace (Z.of_nat (S k) - 1) with (Z.of_nat k) by lia.
    rewrite Nat2Z.inj_succ, Z.pow_succ_r in Hi by lia.
    pose proof (rep_length _ _ _ _ H1) as Hl1. pose proof (pow2_nat k).
    destruct (Z.ltb_spec i (2 ^ Z.of_nat k)).
    + rewrite (IH _ _ _ H1) by lia. f_equal.
      destruct H12 as [->|]; [by rewrite app_nil_r|]. rewrite lookup_app_l; [done|lia].
    + rewrite (IH _ _ _ H2) by lia. f_equal.
      destruct H12 as [->|Hl]; [rewrite app_nil_r; by rewrite !lookup_ge_None_2 by (cbn; lia)|].
      rewrite lookup_app_r by lia. f_equal. lia.
Qed.

Lemma zero_with_set_rep k (v : T) :
  (k < 256)%nat -> rep elem_leaf k (zero_with_set k (Z.of_nat k) 0 v) [v].
Proof.
  induction k as [|k IH]; intros Hk; cbn [zero_with_set rep].
  - left. by exists v.
  - left. destruct (Z.ltb_spec 0 (2 ^ Z.of_nat k)); [|pose proof (Z.pow_pos_nonneg 2 (Z.of_nat k)); lia].
    replace ((Z.of_nat (S k) - 1) mod 256) with (Z.of_nat k) by (rewrite Z.mod_small; lia).
    do 5 eexists. split; [done|]. split_and!; [apply IH; lia|apply rep_zero|done|by left].
Qed.

(** Two halves of a branch after an update of position [i]. *)
Lemma rep_branch_set {A} (P : Node T -> A -> Prop) k (lt rt : Node T) (l1 l2 : list A) i v :
  rep P k lt l1 -> rep P k rt l2 -> (l2 = [] \/ length l1 = (2 ^ k)%nat) ->
  0 <= i <= zlen (l1 ++ l2) -> i < 2 * 2 ^ Z.of_nat k ->
  (i < 2 ^ Z.of_nat k -> 0 <= i <= zlen l1 /\
     forall n', rep P k n' (list_set l1 (Z.to_nat i) v) ->
       rep P (S k) (Branch n' rt None) (list_set (l1 ++ l2) (Z.to_nat i) v)) /\
  (2 ^ Z.of_nat k <= i -> 0 <= i - 2 ^ Z.of_nat k <= zlen l2 /\
     forall n', rep P k n' (list_set l2 (Z.to_nat (i - 2 ^ Z.of_nat k)) v) ->
       rep P (S k) (Branch lt n' None) (list_set (l1 ++ l2) (Z.to_nat i) v)).
Proof.
  intros H1 H2 H12 Hi Hlt. rewrite zlen_app in Hi. pose proof (pow2_nat k).
  pose proof (rep_length _ _ _ _ H1). pose proof (zlen_nonneg l2). unfold zlen in *. split.
  - intros Hik. assert (i < Z.of_nat (length l1) \/ l2 = [] /\ i = Z.of_nat (length l1)) as Hc.
    { destruct H12 as [->|]; [|left; lia]. cbn in Hi.
      destruct (decide (i < Z.of_nat (length l1))); [by left|right; split; [done|lia]]. }
    split; [lia|]. intros n' Hn'. left. do 5 eexists. split; [done|].
    split; [exact Hn'|]. split; [exact H2|]. split.
    + rewrite list_set_app_l; [done|]. destruct Hc as [|[-> ?]]; [left; lia|right; split; [done|lia]].
    + destruct Hc as [Hc|[-> _]]; [|by left]. destruct H12 as [->|]; [by left|right].
      rewrite length_list_set; lia.
  - intros Hik. assert (length l1 = (2 ^ k)%nat) as Hl1.
    { destruct H12 as [->|]; [cbn in *; lia|done]. }
    split; [lia|]. intros n' Hn'. left. do 5 eexists. split; [done|].
    split; [exact H1|]. split; [exact Hn'|]. split; [|by right].
    rewrite list_set_app_r by lia. do 2 f_equal. lia.
Qed.

Lemma node_with_set_rep k (n : Node T) l i v :
  (k < 256)%nat -> rep elem_leaf k n l -> 0 <= i <= zlen l -> i < 2 ^ Z.of_nat k ->
  exists n', node_with_set n i v (Z.of_nat k) = Ok n' /\
    rep elem_leaf k n' (list_set l (Z.to_nat i) v).
Proof.
  revert n l i; induction k as [|k IH]; intros n l i Hk Hr Hi Hlt.
  - change (2 ^ Z.of_nat 0) with 1 in Hlt. assert (i = 0) as -> by lia.
    destruct Hr as [(a & -> & ->)|[-> ->]]; (eexists; split; [done|]; left; eexists; split; done).
  - destruct Hr as [(lt & rt & h & l1 & l2 & -> & H1 & H2 & -> & H12)|[-> ->]]; last first.
    { assert (i = 0) as -> by (unfold zlen in Hi; cbn in Hi; lia).
      eexists. split; [done|]. rewrite Nat2Z.id. by apply (zero_with_set_rep (S k)). }
    rewrite Nat2Z.inj_succ, Z.pow_succ_r in Hlt by lia.
    destruct (rep_branch_set _ _ _ _ _ _ _ v H1 H2 H12 Hi Hlt) as [HL HR].
    cbn [node_with_set]. destruct (Z.eqb_spec (Z.of_nat (S k)) 0); [lia|].
    replace (Z.of_nat (S k) - 1) with (Z.of_nat k) by lia.
    destruct (Z.ltb_spec i (2 ^ Z.of_nat k)) as [Hik|Hik].
    + destruct (HL Hik) as [Hr Hrep]. destruct (IH lt l1 i) as (n' & -> & Hn'); [lia|done|lia|done|].
      eexists. split; [done|]. by apply Hrep.
    + destruct (HR Hik) as [Hr Hrep].
      destruct (IH rt l2 (i - 2 ^ Z.of_nat k)) as (n' & -> & Hn'); [lia|done|lia|lia|].
      eexists. split; [done|]. by apply Hrep.
Qed.

Lemma with_chunk_zero_rep k (c : list T) :
  (k < 256)%nat -> exists n', with_chunk k (ZeroSubtree (Z.of_nat k)) 0 c = Ok n' /\
    rep chunk_leaf k n' [c].
Proof.
  induction k as [|k IH]; intros Hk; cbn [with_chunk].
  - eexists. split; [done|]. left. exists c. split; [by eexists|done].
  - destruct (Z.ltb_spec 0 (2 ^ Z.of_nat k)); [|pose proof (Z.pow_pos_nonneg 2 (Z.of_nat k)); lia].
    replace ((Z.of_nat (S k) - 1) mod 256) with (Z.of_nat k) by (rewrite Z.mod_small; lia).
    destruct IH as (n' & -> & Hn'); [lia|]. eexists. split; [done|]. left.
    do 5 eexists. split; [done|]. split_and!; [exact Hn'|apply rep_zero|done|by left].
Qed.

Lemma with_chunk_rep k (n : Node T) l i c :
  (k < 256)%nat -> rep chunk_leaf k n l -> 0 <= i <= zlen l -> i < 2 ^ Z.of_nat k ->
  exists n', with_chunk k n i c = Ok n' /\ rep chunk_leaf k n' (list_set l (Z.to_nat i) c).
Proof.
  revert n l i; induction k as [|k IH]; intros n l i Hk Hr Hi Hlt.
  - change (2 ^ Z.of_nat 0) with 1 in Hlt. assert (i = 0) as -> by lia.
    eexists. split; [done|]. left. exists c. split; [by eexists|].
    by destruct Hr as [(a & _ & ->)|[_ ->]].
  - destruct Hr as [(lt & rt & h & l1 & l2 & -> & H1 & H2 & -> & H12)|[-> ->]]; last first.
    { assert (i = 0) as -> by (unfold zlen in Hi; cbn in Hi; lia). by apply (with_chunk_zero_rep (S k)). }
    rewrite Nat2Z.inj_succ, Z.pow_succ_r in Hlt by lia.
    destruct (rep_branch_set _ _ _ _ _ _ _ c H1 H2 H12 Hi Hlt) as [HL HR].
    cbn [with_chunk]. destruct (Z.ltb_spec i (2 ^ Z.of_nat k)) as [Hik|Hik].
    + destruct (HL Hik) as [Hr Hrep]. destruct (IH lt l1 i) as (n' & -> & Hn'); [lia|done|lia|done|].
      eexists. split; [done|]. by apply Hrep.
    + destruct (HR Hik) as [Hr Hrep].
      destruct (IH rt l2 (i - 2 ^ Z.of_nat k)) as (n' & -> & Hn'); [lia|done|lia|lia|].
      eexists. split; [done|]. by apply Hrep.
Qed.
End node_lemmas.

(** ** Iteration *)
Section iteration.
  Context {T : Type}.

Fixpoint contents (n : Node T) : list T :=
  match n with
  | Branch lt rt _ => contents lt ++ contents rt
  | Leaf t => [t]
  | PackedLeaf elems _ => elems
  | ZeroSubtree _ => []
  end.

(** No branch below depth 0. *)
Fixpoint depth_ok (d : Z) (n : Node T) : Prop :=
  match n with
  | Branch lt rt _ => 0 < d /\ depth_ok (d - 1) lt /\ depth_ok (d - 1) rt
  | _ => True
  end.

Definition stack_contents (s : list (Node T * Z)) : list T := concat ((contents ∘ fst) <$> s).
Definition stack_ok (s : list (Node T * Z)) : Prop := Forall (fun p => depth_ok p.2 p.1) s.

Lemma rep_elem_contents k (n : Node T) l :
  rep elem_leaf k n l -> contents n = l /\ depth_ok (Z.of_nat k) n.
Proof.
  revert n l; induction k as [|k IH]; intros n l.
  - intros [(a & -> & ->)|[-> ->]]; done.
  - intros [(lt & rt & h & l1 & l2 & -> & [<- H1]%IH & [<- H2]%IH & -> & _)|[-> ->]]; [|done].
    cbn. replace (Z.of_nat (S k) - 1) with (Z.of_nat k) by lia. split_and!; done || lia.
Qed.

Lemma rep_chunk_contents k (n : Node T) l :
  rep chunk_leaf k n l -> contents n = concat l /\ depth_ok (Z.of_nat k) n.
Proof.
  revert n l; induction k as [|k IH]; intros n l.
  - intros [(a & [o ->] & ->)|[-> ->]]; cbn; by rewrite ?app_nil_r.
  - intros [(lt & rt & h & l1 & l2 & -> & [H1 H1']%IH & [H2 H2']%IH & -> & _)|[-> ->]]; [|done].
    cbn. rewrite concat_app, H1, H2. replace (Z.of_nat (S k) - 1) with (Z.of_nat k) by lia.
    split_and!; done || lia.
Qed.

(** One call of [next]: with the stack size as fuel it never runs out, and
    returns the first element not yet visited. *)
Lemma tree_iter_loop_spec fuel (it : TreeIter T) :
  (stack_size (ti_stack it) <= fuel)%nat -> stack_ok (ti_stack it) ->
  match ti_pending it ++ stack_contents (ti_stack it) with
  | [] => tree_iter_loop fuel it = None
  | t :: rest => exists it', tree_iter_loop fuel it = Some (t, it') /\
      ti_pending it' ++ stack_contents (ti_stack it') = rest /\
      stack_ok (ti_stack it') /\ ti_remaining it' = ti_remaining it - 1
  end.
Proof.
  revert it; induction fuel as [|fuel IH]; intros [stack pending rem] Hf Hok;
    cbn [ti_stack ti_pending ti_remaining tree_iter_loop] in *.
  - assert (stack = []) as ->.
    { destruct stack as [|[[] ] ?]; cbn in Hf; [done|lia..]. }
    destruct pending as [|t pending]; cbn; [done|]. by eexists.
  - destruct pending as [|t pending]; cbn [app]; [|by eexists].
    destruct stack as [|[node d] stack]; [done|].
    apply Forall_cons in Hok as [Hd Hok]. cbn in Hd.
    change (stack_size ((node, d) :: stack)) with (node_size node + stack_size stack)%nat in Hf.
    change (stack_contents ((node, d) :: stack)) with (contents node ++ stack_contents stack).
    destruct node as [lt rt h|t|elems o|z]; cbn [contents node_size app] in *.
    + destruct Hd as (Hpos & Hl & Hr). destruct (Z.eqb_spec d 0); [lia|].
      specialize (IH (mkTreeIter ((lt, d - 1) :: (rt, d - 1) :: stack) [] rem)).
      cbn [ti_stack ti_pending ti_remaining app] in IH.
      change (stack_contents ((lt, d - 1) :: (rt, d - 1) :: stack))
        with (contents lt ++ contents rt ++ stack_contents stack) in IH.
      rewrite <-app_assoc. apply IH.
      * change (node_size lt + (node_size rt + stack_size stack) <= fuel)%nat. lia.
      * by repeat constructor.
    + by eexists.
    + specialize (IH (mkTreeIter stack elems rem)). cbn [ti_stack ti_pending ti_remaining app] in IH. apply IH; [lia|done].
    + specialize (IH (mkTreeIter stack [] rem)). cbn [ti_stack ti_pending ti_remaining app] in IH. apply IH; [lia|done].
Qed.

Lemma tree_iter_collect_spec n (it : TreeIter T) :
  stack_ok (ti_stack it) -> ti_remaining it = Z.of_nat n ->
  tree_iter_collect n it = take n (ti_pending it ++ stack_contents (ti_stack it)).
Proof.
  revert it; induction n as [|n IH]; intros it Hok Hr; [done|].
  cbn [tree_iter_collect]. unfold tree_iter_next.
  destruct (Z.eqb_spec (ti_remaining it) 0); [lia|].
  pose proof (tree_iter_loop_spec (stack_size (ti_stack it)) it ltac:(lia) Hok) as Hl.
  destruct (ti_pending it ++ stack_contents (ti_stack it)) as [|t rest].
  - by rewrite Hl.
  - destruct Hl as (it' & -> & <- & Hok' & Hr'). cbn. f_equal. apply IH; [done|lia].
Qed.

Lemma tree_iter_new_collect (root : Node T) d l :
  contents root = l -> depth_ok d root ->
  tree_iter_collect (length l) (tree_iter_new root d (zlen l)) = l.
Proof.
  intros Hc Hd. unfold tree_iter_new. pose proof (zlen_nonneg l).
  destruct (Z.ltb_spec 0 (zlen l)).
  - rewrite tree_iter_collect_spec; [|by repeat constructor|done].
    unfold stack_contents. cbn. rewrite app_nil_r, Hc. by rewrite firstn_all.
  - assert (l = []) as -> by (apply zlen_0_nil; lia). done.
Qed.
End iteration.

(** ** Blocks *)
Section blocks.
  Context {A : Type} (n : nat) (Hn : (0 < n)%nat).
  Implicit Types l : list A.

Lemma blocks_fuel_enough fuel l :
  (length l <= fuel)%nat -> blocks_fuel fuel n l = blocks n l.
Proof.
  unfold blocks. revert l. induction fuel as [fuel IH] using lt_wf_ind. intros l Hl.
  destruct l as [|a l]; [by destruct fuel|]. destruct fuel as [|fuel]; [cbn in Hl; lia|].
  cbn [blocks_fuel length]. f_equal.
  rewrite (IH fuel); [|lia|rewrite length_drop; cbn in *; lia].
  symmetry. rewrite (IH (length l)); [done|cbn in *; lia|rewrite length_drop; cbn in *; lia].
Qed.

Lemma blocks_cons l : l <> [] -> blocks n l = take n l :: blocks n (drop n l).
Proof.
  intros Hl. unfold blocks at 1. destruct l as [|a l]; [done|]. cbn [blocks_fuel length].
  f_equal. apply blocks_fuel_enough. rewrite length_drop. cbn. lia.
Qed.

Lemma blocks_nil : blocks n (@nil A) = [].
Proof. done. Qed.

Lemma blocks_ind (P : list A -> Prop) :
  P [] -> (forall l, l <> [] -> P (drop n l) -> P l) -> forall l, P l.
Proof.
  intros H0 HS l. remember (length l) as k eqn:Hk. revert l Hk.
  induction k as [k IH] using lt_wf_ind. intros l ->.
  destruct (decide (l = [])) as [->|Hl]; [done|]. apply HS; [done|].
  eapply IH; [|done]. rewrite length_drop. destruct l; [done|]. cbn. lia.
Qed.

Lemma concat_blocks l : concat (blocks n l) = l.
Proof.
  induction l as [|l Hl IH] using blocks_ind; [done|].
  rewrite blocks_cons by done. cbn. by rewrite IH, take_drop.
Qed.

Lemma Forall_blocks l : Forall (fun b => (length b <= n)%nat /\ b <> []) (blocks n l).
Proof.
  induction l as [|l Hl IH] using blocks_ind; [constructor|].
  rewrite blocks_cons by done. constructor; [|done].
  split; [rewrite length_take; lia|]. destruct l, n; [done..|lia|done].
Qed.

(** Splitting at a chunk boundary. *)
Lemma blocks_app q l1 l2 :
  length l1 = (q * n)%nat ->
  blocks n (l1 ++ l2) = blocks n l1 ++ blocks n l2 /\ length (blocks n l1) = q.
Proof.
  revert l1; induction q as [|q IH]; intros l1 Hl.
  - destruct l1; done.
  - assert (l1 <> []) as Hne by (intros ->; cbn in Hl; lia).
    rewrite (blocks_cons l1), blocks_cons by (done || by destruct l1).
    rewrite take_app_le, drop_app_le by (cbn in Hl; lia).
    destruct (IH (drop n l1)) as [-> Hlen]; [rewrite length_drop; cbn in Hl; lia|].
    cbn. by rewrite Hlen.
Qed.

Lemma blocks_single l : l <> [] -> (length l <= n)%nat -> blocks n l = [l].
Proof. intros. rewrite blocks_cons by done. by rewrite take_ge, drop_ge. Qed.

(** Replacing the chunk that starts at [q * n]. *)
Lemma blocks_set q l1 c c' l2 :
  length l1 = (q * n)%nat -> c' <> [] ->
  (c = [] /\ l2 = [] \/ c <> [] /\ (length c <= n)%nat /\ (l2 = [] \/ length c = n)) ->
  (length c' <= n)%nat /\ (l2 = [] \/ length c' = n) ->
  list_set (blocks n (l1 ++ c ++ l2)) q c' = blocks n (l1 ++ c' ++ l2).
Proof.
  intros Hq Hc' Hc Hl'. assert (forall x, x <> [] -> (length x <= n)%nat ->
    (l2 = [] \/ length x = n) -> blocks n (x ++ l2) = x :: blocks n l2) as Hx.
  { intros x Hx Hxl [->|Hxn]; [rewrite app_nil_r; by apply blocks_single|].
    destruct (blocks_app 1 x l2) as [-> _]; [lia|]. by rewrite blocks_single. }
  destruct (blocks_app q l1 (c ++ l2) Hq) as [-> Hlen].
  destruct (blocks_app q l1 (c' ++ l2) Hq) as [-> _].
  rewrite list_set_app_r, Hlen, Nat.sub_diag by lia. f_equal.
  destruct Hl' as [Hl1 Hl2]. rewrite (Hx c') by done.
  destruct Hc as [[-> ->]|(Hc & Hcl & Hcn)]; [done|]. by rewrite (Hx c).
Qed.

Lemma blocks_lookup q l1 c l2 :
  length l1 = (q * n)%nat -> c <> [] -> (length c <= n)%nat -> (l2 = [] \/ length c = n) ->
  blocks n (l1 ++ c ++ l2) !! q = Some c.
Proof.
  intros Hq Hc Hcl Hcn. destruct (blocks_app q l1 (c ++ l2) Hq) as [-> Hlen].
  rewrite lookup_app_r, Hlen, Nat.sub_diag by lia.
  destruct Hcn as [->|Hcn]; [by rewrite app_nil_r, blocks_single|].
  destruct (blocks_app 1 c l2) as [-> _]; [lia|]. by rewrite blocks_single.
Qed.

(** The chunk of position [i]. *)
Lemma blocks_split i l :
  (i < length l)%nat ->
  exists l1 c l2, l = l1 ++ c ++ l2 /\ length l1 = (i / n * n)%nat /\
    (i mod n < length c)%nat /\ (length c <= n)%nat /\ (l2 = [] \/ length c = n).
Proof.
  intros Hi. pose proof (Nat.div_mod i n ltac:(lia)) as Hd.
  pose proof (Nat.mod_upper_bound i n ltac:(lia)).
  exists (take (i / n * n) l), (take n (drop (i / n * n) l)), (drop n (drop (i / n * n) l)).
  rewrite !take_drop, !length_take, !length_drop. split_and!; try lia; [done|].
  destruct (decide (length l - i / n * n <= n)%nat); [left|right; lia].
  apply drop_ge. rewrite length_drop. lia.
Qed.
End blocks.

(** ** Roots and caches *)
Section roots.
  Context {T : Type} (sha256 : bytes -> bytes) (th : TreeHash T).

(** The root recomputed from scratch, ignoring every cache. *)
Fixpoint node_root (n : Node T) : result SszError bytes :=
  match n with
  | Leaf t => Ok (tree_hash_root th t)
  | PackedLeaf elems _ => pack_chunk th elems
  | ZeroSubtree d => zero_hash sha256 d
  | Branch lt rt _ =>
      l ← node_root lt; r ← node_root rt; Ok (hash_concat sha256 l r)
  end.

(** Every filled cache holds the root of its node. *)
Fixpoint caches_ok (n : Node T) : Prop :=
  match n with
  | Branch lt rt h =>
      caches_ok lt /\ caches_ok rt /\
      match h with Some h => node_root n = Ok h | None => True end
  | PackedLeaf elems (Some c) => pack_chunk th elems = Ok c
  | _ => True
  end.

(** Nodes equal up to their caches. *)
Fixpoint same_tree (n m : Node T) : Prop :=
  match n, m with
  | Branch l r _, Branch l' r' _ => same_tree l l' /\ same_tree r r'
  | Leaf t, Leaf t' => t = t'
  | PackedLeaf e _, PackedLeaf e' _ => e = e'
  | ZeroSubtree d, ZeroSubtree d' => d = d'
  | _, _ => False
  end.

Lemma same_tree_refl n : same_tree n n.
Proof. induction n; cbn; auto. Qed.

Lemma same_tree_root n m : same_tree n m -> node_root m = node_root n.
Proof.
  revert m; induction n as [l IHl r IHr h|t|e o|d]; intros [] Hs; cbn in *; try done.
  - destruct Hs as [H1 H2]. by rewrite (IHl _ H1), (IHr _ H2).
  - by subst.
  - by subst.
  - by subst.
Qed.

Lemma same_tree_rep {A} (P : Node T -> A -> Prop) k n m l :
  (forall n m a, same_tree n m -> P n a -> P m a) ->
  same_tree n m -> rep P k n l -> rep P k m l.
Proof.
  intros HP. revert n m l; induction k as [|k IH]; intros n m l Hs Hr; cbn in *.
  - destruct Hr as [(a & Ha & ->)|[-> ->]]; [left; eauto|right].
    destruct m; cbn in Hs; by subst.
  - destruct Hr as [(lt & rt & h & l1 & l2 & -> & H1 & H2 & -> & H12)|[-> ->]].
    + destruct m as [lt' rt' h'| | |]; cbn in Hs; [|done..]. destruct Hs as [Hs1 Hs2].
      left. do 5 eexists. split; [done|]. split_and!; eauto.
    + right. destruct m; cbn in Hs; by subst.
Qed.

(** A root read through the caches is the recomputed root, and reading it keeps
    the caches valid and the tree unchanged. *)
Lemma cached_root_spec n r :
  caches_ok n -> node_root n = Ok r ->
  exists n', cached_root sha256 th n = Ok (r, n') /\ caches_ok n' /\ same_tree n n'.
Proof.
  revert r; induction n as [lt IHl rt IHr h|t|e o|d]; intros r Hc Hr; cbn in *.
  - destruct Hc as (Hl & Hrt & Hh). destruct h as [h|].
    + rewrite Hh in Hr. injection Hr as <-. eexists. split; [done|]. cbn.
      split_and!; try done; apply same_tree_refl.
    + apply bind_Ok_inv in Hr as (l & Hrl & (r' & Hrr & [= <-])%bind_Ok_inv).
      destruct (IHl _ Hl Hrl) as (lt' & -> & Hl' & Hs1).
      destruct (IHr _ Hrt Hrr) as (rt' & Hcr & Hr' & Hs2). cbn. rewrite Hcr. cbn.
      eexists. split; [done|]. cbn. split_and!; try done.
      by rewrite (same_tree_root _ _ Hs1), (same_tree_root _ _ Hs2), Hrl, Hrr.
  - injection Hr as <-. by eexists.
  - destruct o as [c|]; [rewrite Hc in Hr; injection Hr as <-; by eexists|].
    rewrite Hr. by eexists.
  - rewrite Hr. by eexists.
Qed.

(** The recomputed root of a tree is the padded root of its leaves. *)
Lemma node_root_rep {A} (P : Node T -> A -> Prop) (lh : A -> bytes) k n l :
  (forall n a, a ∈ l -> P n a -> node_root n = Ok (lh a)) -> (k < 64)%nat -> rep P k n l ->
  node_root n = Ok (tree_root sha256 k (lh <$> l)).
Proof.
  intros HP. revert n l HP; induction k as [|k IH]; intros n l HP Hk Hr; cbn in Hr.
  - destruct Hr as [(a & Ha & ->)|[-> ->]]; [|done]. apply HP; [left|done].
  - destruct Hr as [(lt & rt & h & l1 & l2 & -> & H1 & H2 & -> & H12)|[-> ->]]; last first.
    { cbn [node_root]. rewrite zero_hash_Ok by lia. unfold tree_root.
      by rewrite Nat2Z.id, tree_root_from_nil, zero_table_iter. }
    cbn [node_root]. rewrite (IH _ _ (fun n a Ha => HP n a (proj2 (elem_of_app _ _ _) (or_introl Ha)))
      ltac:(lia) H1).
    rewrite (IH _ _ (fun n a Ha => HP n a (proj2 (elem_of_app _ _ _) (or_intror Ha)))
      ltac:(lia) H2). cbn [mbind result_bind]. f_equal. unfold tree_root. cbn [tree_root_from].
    rewrite fmap_app. pose proof (rep_length _ _ _ _ H1).
    destruct H12 as [->|Hl].
    + cbn. rewrite app_nil_r, take_ge, drop_ge by (rewrite length_fmap; lia). done.
    + rewrite take_app_length', drop_app_length' by (by rewrite length_fmap). done.
Qed.

(** Updates keep the caches valid: the copied spine starts with empty caches. *)
Lemma node_with_set_caches n i v d n' :
  caches_ok n -> node_with_set n i v d = Ok n' -> caches_ok n'.
Proof.
  revert i d n'; induction n as [lt IHl rt IHr h|t|e o|z]; intros i d n' Hc; cbn.
  - destruct Hc as (Hl & Hr & _). destruct (d =? 0); [by intros [= <-]|].
    destruct (i <? _); intros (m & Hm & [= <-])%bind_Ok_inv; cbn; eauto.
  - by intros [= <-].
  - done.
  - intros [= <-]. generalize (Z.to_nat d) as k. clear. intros k. revert z i.
    induction k as [|k IH]; intros z i; cbn; [done|]. destruct (i <? _); cbn; auto.
Qed.

Lemma with_chunk_caches k n i c n' :
  caches_ok n -> with_chunk k n i c = Ok n' -> caches_ok n'.
Proof.
  revert n i n'; induction k as [|k IH]; intros n i n' Hc; cbn; [by intros [= <-]|].
  destruct n as [lt rt h|t|e o|z]; cbn in Hc; try done.
  - destruct Hc as (Hl & Hr & _).
    destruct (i <? _); intros (m & Hm%IH & [= <-])%bind_Ok_inv; cbn; auto.
  - destruct (i <? _); intros (m & Hm%IH & [= <-])%bind_Ok_inv; cbn; auto.
Qed.

Lemma node_from_caches {A} (mk : A -> Node T) l k :
  (forall a, caches_ok (mk a)) -> caches_ok (node_from mk l k).
Proof.
  intros Hmk. revert l; induction k as [|k IH]; intros l; cbn.
  - by destruct (head l).
  - destruct (zlen l <=? _); cbn; [auto|]. split_and!; [auto| |done].
    destruct (drop _ l); [done|auto].
Qed.
End roots.

(** ** Sequences refine lists *)

(** What the sequence code relies on of its element type: a basic type packs
    into [elem_fixed_len] bytes, which divides 32; a basic element that fills a
    chunk is its own root. *)
Class TreeHashOk {T} (th : TreeHash T) (wf : T -> Prop) : Prop := {
  packed_len : forall t, TREE_HASH_TYPE th = Basic -> wf t ->
    zlen (tree_hash_packed_encoding th t) = elem_fixed_len th;
  packed_divides : TREE_HASH_TYPE th = Basic ->
    0 < elem_fixed_len th /\ 32 / elem_fixed_len th * elem_fixed_len th = 32;
  full_chunk_len : TREE_HASH_TYPE th = Basic -> PACKED_AS_FULL_CHUNK th = true ->
    elem_fixed_len th = 32;
  full_chunk_root : forall t, TREE_HASH_TYPE th = Basic -> elem_fixed_len th = 32 -> wf t ->
    tree_hash_root th t = tree_hash_packed_encoding th t;
}.

Section refinement.
  Context {T : Type} (sha256 : bytes -> bytes) (th : TreeHash T) (wf : T -> Prop).
  Context (Hth : TreeHashOk th wf) (N : Z) (HN : 0 <= N /\ N * 32 < U64).

Abbreviation epc := (elems_per_chunk th).

(** Bytes one element takes of a chunk, in the chunk-limit computation. *)
Lemma epc_facts :
  0 < epc /\ epc * (32 / epc) = 32 /\
  (epc = 1 -> 32 / epc = 32) /\
  (TREE_HASH_TYPE th = Basic -> 32 / epc = elem_fixed_len th).
Proof.
  unfold elems_per_chunk. destruct (bool_decide_reflect (TREE_HASH_TYPE th = Basic)) as [Hb|Hb].
  - destruct (packed_divides Hb) as [Hpos Hdiv].
    assert (0 < 32 / elem_fixed_len th) by nia.
    assert (32 / (32 / elem_fixed_len th) = elem_fixed_len th) as He.
    { rewrite <-Hdiv at 1. rewrite Z.mul_comm. apply Z.div_mul. lia. }
    destruct (PACKED_AS_FULL_CHUNK th) eqn:Hp; cbn [negb andb].
    + rewrite (full_chunk_len Hb Hp). done.
    + rewrite He. split_and!; try done. intros H1. rewrite H1 in Hdiv. lia.
  - done.
Qed.

(** The chunk limit, and the depth of the tree that holds it. *)
Definition chunk_limit : Z := div_ceil (N * (32 / epc)) 32.

Lemma chunk_limit_facts :
  0 <= chunk_limit /\ N <= epc * chunk_limit /\ chunk_limit <= N /\
  tree_depth N epc = Z.log2_up chunk_limit /\ 0 <= Z.log2_up chunk_limit < 64 /\
  chunk_limit <= 2 ^ tree_depth N epc.
Proof.
  destruct epc_facts as (Hpos & H32 & _). destruct HN as [H0 HU].
  assert (0 < 32 / epc <= 32) as Hsz by nia.
  pose proof (Z.div_mod (N * (32 / epc) + 32 - 1) 32 ltac:(lia)) as Hd.
  pose proof (Z.mod_pos_bound (N * (32 / epc) + 32 - 1) 32 ltac:(lia)) as Hm.
  assert (chunk_limit = (N * (32 / epc) + 32 - 1) / 32) as Hcl by done.
  rewrite <-Hcl in *. assert (0 <= chunk_limit) by nia.
  assert (N <= epc * chunk_limit) by nia. assert (chunk_limit <= N) by nia.
  assert (tree_depth N epc = Z.log2_up chunk_limit) as Htd.
  { unfold tree_depth. rewrite wmul_small by nia. fold chunk_limit.
    destruct (Z.leb_spec (Z.max chunk_limit 1) 1).
    - by rewrite Z.log2_up_eqn0 by lia.
    - unfold depth_for_limit. destruct (Z.leb_spec (Z.max chunk_limit 1) 1); [lia|].
      rewrite Z.max_l, Z.log2_up_eqn by lia. unfold Z.succ, Z.pred. done. }
  pose proof (Z.log2_up_nonneg chunk_limit).
  assert (Z.log2_up chunk_limit <= 63).
  { destruct (decide (chunk_limit <= 1)); [rewrite Z.log2_up_eqn0; lia|].
    apply Z.log2_up_le_pow2; unfold U64 in *; lia. }
  split_and!; try done; try lia. rewrite Htd.
  destruct (decide (chunk_limit <= 1)).
  - rewrite Z.log2_up_eqn0; lia.
  - apply Z.log2_up_spec. lia.
Qed.

(** A tree that holds the elements [l], with valid caches. *)
Definition tree_holds (root : Node T) (l : list T) : Prop :=
  caches_ok sha256 th root /\
  if epc =? 1 then rep elem_leaf (Z.to_nat (tree_depth N epc)) root l
  else rep chunk_leaf (Z.to_nat (tree_depth N epc)) root (blocks (Z.to_nat epc) l).

Lemma length_blocks_bound (n : nat) (l : list T) :
  (0 < n)%nat -> (length (blocks n l) * n < length l + n)%nat.
Proof.
  intros Hn. induction l as [|l Hl IH] using (blocks_ind n Hn); [cbn; lia|].
  rewrite blocks_cons by done. cbn [length]. rewrite length_drop in IH.
  assert (0 < length l)%nat by (destruct l; [done|cbn; lia]).
  rewrite Nat.mul_succ_l. destruct (decide (n <= length l)%nat); [lia|].
  destruct (length (blocks n (drop n l))); cbn in *; lia.
Qed.

Lemma blocks_fit (l : list T) : zlen l <= N -> zlen (blocks (Z.to_nat epc) l) <= chunk_limit.
Proof.
  intros Hl. destruct epc_facts as (Hpos & _). destruct chunk_limit_facts as (H0 & HNc & _).
  pose proof (length_blocks_bound (Z.to_nat epc) l ltac:(lia)). unfold zlen in *. nia.
Qed.

Lemma depth_nat : Z.of_nat (Z.to_nat (tree_depth N epc)) = tree_depth N epc.
Proof. destruct chunk_limit_facts as (_ & _ & _ & -> & ? & _). lia. Qed.

Lemma capacity i : 0 <= i < N -> 0 <= i / epc < 2 ^ tree_depth N epc.
Proof.
  intros Hi. destruct epc_facts as (Hpos & _).
  destruct chunk_limit_facts as (? & ? & ? & ? & ? & ?).
  pose proof (Z.div_mod i epc ltac:(lia)). pose proof (Z.mod_pos_bound i epc Hpos). nia.
Qed.

Lemma leaves_fit (m : Z) : m <= chunk_limit -> m <= Z.of_nat (2 ^ Z.to_nat (tree_depth N epc)).
Proof.
  destruct chunk_limit_facts as (? & ? & ? & ? & ? & ?).
  rewrite <-pow2_nat, depth_nat. lia.
Qed.

Lemma chunk_at_holds root l q :
  epc <> 1 -> tree_holds root l -> 0 <= q < 2 ^ tree_depth N epc ->
  chunk_at root q (tree_depth N epc) = Ok (blocks (Z.to_nat epc) l !! Z.to_nat q).
Proof.
  intros He%Z.eqb_neq [_ Hr] Hq. rewrite He in Hr. rewrite <-depth_nat at 1.
  apply chunk_at_rep; [done|]. by rewrite depth_nat.
Qed.

Lemma tree_get_holds root l i :
  tree_holds root l -> zlen l <= N -> 0 <= i < zlen l ->
  tree_get N root epc i = Ok (l !! Z.to_nat i).
Proof.
  intros Hh Hl Hi. pose proof Hh as [_ Hr]. pose proof (capacity i ltac:(lia)) as Hcap.
  destruct epc_facts as (Hpos & _). unfold tree_get.
  destruct (Z.eqb_spec epc 1) as [He|He].
  - rewrite He, Z.div_1_r in Hcap. rewrite <-depth_nat. rewrite He in *.
    apply node_get_rep; [done|]. rewrite <-He in *. by rewrite depth_nat.
  - rewrite (chunk_at_holds _ _ _ He Hh Hcap). cbn [mbind result_bind].
    destruct (blocks_split (Z.to_nat epc) ltac:(lia) (Z.to_nat i) l)
      as (l1 & c & l2 & Hlc & Hl1 & Hm & Hcl & Hcn); [unfold zlen in Hi; lia|].
    assert (Z.to_nat (i / epc) = (Z.to_nat i / Z.to_nat epc)%nat) as Hq by (by apply Z2Nat.inj_div; lia).
    assert (Z.to_nat (i mod epc) = (Z.to_nat i mod Z.to_nat epc)%nat) as Hmod by (apply Z2Nat.inj_mod; lia).
    assert (blocks (Z.to_nat epc) l !! Z.to_nat (i / epc) = Some c) as ->.
    { rewrite Hlc, Hq. apply blocks_lookup; try done; [lia|]. intros ->. cbn in Hm. lia. }
    pose proof (Nat.div_mod (Z.to_nat i) (Z.to_nat epc) ltac:(lia)).
    cbn. f_equal. rewrite Hmod, Hlc, lookup_app_r by lia. rewrite lookup_app_l by lia.
    f_equal. lia.
Qed.

Lemma depth_lt_256 : (Z.to_nat (tree_depth N epc) < 256)%nat.
Proof. destruct chunk_limit_facts as (_ & _ & _ & -> & ? & _). lia. Qed.

(** Writing a chunk-aligned window of a packed tree. *)
Lemma with_chunk_holds root q l1 c c' l2 :
  epc <> 1 -> tree_holds root (l1 ++ c ++ l2) -> 0 <= q ->
  length l1 = (Z.to_nat q * Z.to_nat epc)%nat -> q < 2 ^ tree_depth N epc ->
  c' <> [] -> (c = [] /\ l2 = [] \/ c <> [] /\ (length c <= Z.to_nat epc)%nat /\
               (l2 = [] \/ length c = Z.to_nat epc)) ->
  (length c' <= Z.to_nat epc)%nat /\ (l2 = [] \/ length c' = Z.to_nat epc) ->
  exists root', with_chunk (Z.to_nat (tree_depth N epc)) root q c' = Ok root' /\
    tree_holds root' (l1 ++ c' ++ l2).
Proof.
  intros He [Hcache Hr] Hq Hl1 Hcap Hc' Hc Hl'. destruct epc_facts as (Hpos & _).
  apply Z.eqb_neq in He. unfold tree_holds. rewrite He in *.
  destruct (with_chunk_rep _ _ _ q c' depth_lt_256 Hr) as (root' & Hw & Hrep).
  - split; [done|]. destruct (blocks_app (Z.to_nat epc) ltac:(lia) (Z.to_nat q) l1 (c ++ l2) Hl1)
      as [-> Hlen]. unfold zlen. rewrite length_app. lia.
  - by rewrite depth_nat.
  - exists root'. split; [done|]. split; [by eapply with_chunk_caches|].
    rewrite (blocks_set (Z.to_nat epc) ltac:(lia) _ _ _ _ _ Hl1 Hc' Hc Hl') in Hrep. exact Hrep.
Qed.

Lemma tree_set_holds root l i v :
  tree_holds root l -> zlen l <= N -> 0 <= i < zlen l ->
  exists root', tree_set N root epc i v = Ok root' /\ tree_holds root' (<[Z.to_nat i := v]> l).
Proof.
  intros Hh Hl Hi. pose proof (capacity i ltac:(lia)) as Hcap.
  destruct epc_facts as (Hpos & _). unfold tree_set. cbv zeta.
  destruct (Z.eqb_spec epc 1) as [He|He].
  - destruct Hh as [Hcache Hr]. rewrite He, Z.div_1_r in Hcap. unfold tree_holds.
    assert ((epc =? 1) = true) as He' by (by apply Z.eqb_eq). rewrite He' in *.
    destruct (node_with_set_rep _ _ _ i v depth_lt_256 Hr) as (root' & Hw & Hrep);
      [lia|rewrite depth_nat, He; lia|].
    rewrite depth_nat in Hw. rewrite He in *. exists root'. split; [done|].
    split; [by eapply node_with_set_caches|]. rewrite list_set_insert in Hrep; [done|].
    unfold zlen in Hi. lia.
  - destruct (blocks_split (Z.to_nat epc) ltac:(lia) (Z.to_nat i) l)
      as (l1 & c & l2 & -> & Hl1 & Hm & Hcl & Hcn); [unfold zlen in Hi; lia|].
    assert (Z.to_nat (i / epc) = (Z.to_nat i / Z.to_nat epc)%nat) as Hq by (by apply Z2Nat.inj_div; lia).
    assert (Z.to_nat (i mod epc) = (Z.to_nat i mod Z.to_nat epc)%nat) as Hmod by (apply Z2Nat.inj_mod; lia).
    rewrite (chunk_at_holds _ _ _ He Hh Hcap).
    assert (c <> []) as Hcne by (intros ->; cbn in Hm; lia).
    assert (blocks (Z.to_nat epc) (l1 ++ c ++ l2) !! Z.to_nat (i / epc) = Some c) as ->.
    { rewrite Hq. apply blocks_lookup; try done; lia. }
    cbn [mbind result_bind from_option]. unfold id.
    destruct (Z.ltb_spec (i mod epc) (zlen c)); [|unfold zlen in *; lia].
    destruct (with_chunk_holds root (i / epc) l1 c (<[Z.to_nat (i mod epc) := v]> c) l2)
      as (root' & Hw & Hh'); try done; try lia.
    + intros Hn. apply (f_equal length) in Hn. rewrite length_insert in Hn. cbn in Hn. lia.
    + right. done.
    + rewrite length_insert. done.
    + exists root'. split; [exact Hw|].
      pose proof (Nat.div_mod (Z.to_nat i) (Z.to_nat epc) ltac:(lia)).
      rewrite insert_app_r_alt by lia. rewrite insert_app_l by lia.
      replace (Z.to_nat i - length l1)%nat with (Z.to_nat (i mod epc)) by lia. done.
Qed.

Lemma tree_push_holds root l v :
  tree_holds root l -> zlen l < N ->
  exists root', tree_push N root epc (zlen l) v = Ok root' /\ tree_holds root' (l ++ [v]).
Proof.
  intros Hh Hl. pose proof (zlen_nonneg l). pose proof (capacity (zlen l) ltac:(lia)) as Hcap.
  destruct epc_facts as (Hpos & _). unfold tree_push. cbv zeta.
  destruct (Z.eqb_spec epc 1) as [He|He].
  - destruct Hh as [Hcache Hr]. rewrite He, Z.div_1_r in Hcap. unfold tree_holds.
    assert ((epc =? 1) = true) as He' by (by apply Z.eqb_eq). rewrite He' in *.
    destruct (node_with_set_rep _ _ _ (zlen l) v depth_lt_256 Hr) as (root' & Hw & Hrep);
      [lia|rewrite depth_nat, He; lia|].
    rewrite depth_nat in Hw. rewrite He in *. exists root'. split; [done|].
    split; [by eapply node_with_set_caches|].
    unfold zlen in Hrep. by rewrite Nat2Z.id, list_set_push in Hrep.
  - set (q := zlen l / epc) in *.
    pose proof (Z.div_mod (zlen l) epc ltac:(lia)) as Hdm. fold q in Hdm.
    pose proof (Z.mod_pos_bound (zlen l) epc Hpos).
    destruct (Z.eqb_spec (zlen l mod epc) 0) as [Hm0|Hm0].
    + destruct (with_chunk_holds root q l [] [v] []) as (root' & Hw & Hh'); try done; try lia.
      * cbn. by rewrite app_nil_r.
      * unfold zlen in *. nia.
      * by left.
      * cbn. split; [lia|by left].
      * exists root'. split; [done|]. cbn in Hh'. done.
    + rewrite (chunk_at_holds _ _ _ He Hh Hcap).
      set (l1 := take (Z.to_nat (q * epc)) l). set (c := drop (Z.to_nat (q * epc)) l).
      assert (l = l1 ++ c) as Hlc by (by subst l1 c; rewrite take_drop).
      assert (length l1 = (Z.to_nat q * Z.to_nat epc)%nat) as Hl1.
      { subst l1. rewrite length_take. unfold zlen in *. nia. }
      assert (length c = Z.to_nat (zlen l mod epc)) as Hcl.
      { subst c. rewrite length_drop. unfold zlen in *. nia. }
      assert (c <> []) as Hcne by (intros Hn; rewrite Hn in Hcl; cbn in Hcl; lia).
      assert (blocks (Z.to_nat epc) l !! Z.to_nat q = Some c) as ->.
      { pose proof (blocks_lookup (Z.to_nat epc) ltac:(lia) _ l1 c [] Hl1 Hcne ltac:(lia)
          (or_introl eq_refl)) as Hlk. by rewrite app_nil_r, <-Hlc in Hlk. }
      cbn [mbind result_bind from_option]. unfold id.
      destruct (with_chunk_holds root q l1 c (c ++ [v]) []) as (root' & Hw & Hh'); try done; try lia.
      * by rewrite app_nil_r, <-Hlc.
      * by destruct c.
      * right. split_and!; [done|lia|by left].
      * rewrite length_app. cbn. split; [lia|by left].
      * exists root'. split; [exact Hw|].
        rewrite app_nil_r, app_assoc, <-Hlc in Hh'. exact Hh'.
Qed.

Lemma build_tree_holds l : zlen l <= N -> tree_holds (build_tree th N l) l.
Proof.
  intros Hl. unfold tree_holds, build_tree. pose proof (blocks_fit l Hl) as Hb.
  destruct chunk_limit_facts as (_ & HNc & HcN & _).
  pose proof (leaves_fit chunk_limit ltac:(lia)) as Hfit.
  destruct (Z.eqb_spec epc 1) as [He|He].
  - split; [by apply node_from_caches|]. apply node_from_rep; [done|].
    rewrite He in HNc. unfold zlen in *. lia.
  - split; [by apply node_from_caches|]. apply node_from_rep; [by eexists|].
    unfold zlen in *. lia.
Qed.

Lemma empty_tree_holds : tree_holds (ZeroSubtree (tree_depth N epc)) [].
Proof.
  unfold tree_holds. pose proof depth_nat as Hd. set (k := Z.to_nat (tree_depth N epc)) in *.
  rewrite <-Hd. split; [done|]. case_match; apply rep_zero.
Qed.

Lemma tree_to_vec_holds root l :
  tree_holds root l -> tree_to_vec N root epc (zlen l) = l.
Proof.
  intros [_ Hr]. destruct epc_facts as (Hpos & _). unfold tree_to_vec, zlen. rewrite Nat2Z.id.
  destruct (epc =? 1).
  - apply rep_elem_contents in Hr as [Hc Hd]. rewrite depth_nat in Hd.
    by apply tree_iter_new_collect.
  - apply rep_chunk_contents in Hr as [Hc Hd]. rewrite depth_nat in Hd.
    rewrite concat_blocks in Hc by lia. by apply tree_iter_new_collect.
Qed.

(** The leaves of the Merkle tree over [l]. *)
Definition leaf_hashes (l : list T) : list bytes :=
  if epc =? 1 then tree_hash_root th <$> l
  else (fun c => pad32 (concat (tree_hash_packed_encoding th <$> c))) <$> blocks (Z.to_nat epc) l.

Lemma concat_packed_len c :
  TREE_HASH_TYPE th = Basic -> Forall wf c ->
  zlen (concat (tree_hash_packed_encoding th <$> c)) = zlen c * elem_fixed_len th.
Proof.
  intros Hb. induction 1 as [|t c Ht _ IH]; [done|].
  cbn. rewrite zlen_app, IH, packed_len, zlen_cons by done. lia.
Qed.

Lemma epc_not_1_basic : epc <> 1 -> TREE_HASH_TYPE th = Basic.
Proof.
  unfold elems_per_chunk. destruct (bool_decide_reflect (TREE_HASH_TYPE th = Basic)); [done|].
  done.
Qed.

Lemma Forall_blocks_wf (n : nat) (l : list T) c :
  (0 < n)%nat -> Forall wf l -> c ∈ blocks n l -> Forall wf c /\ (length c <= n)%nat.
Proof.
  intros Hn Hwf Hc. split.
  - rewrite <-(concat_blocks n Hn l) in Hwf. rewrite Forall_concat in Hwf.
    by eapply Forall_forall in Hwf.
  - pose proof (Forall_blocks n Hn l) as Hf. eapply Forall_forall in Hf; [|done]. apply Hf.
Qed.

Lemma tree_root_holds root l :
  tree_holds root l -> Forall wf l ->
  node_root sha256 th root
  = Ok (tree_root sha256 (Z.to_nat (Z.log2_up chunk_limit)) (leaf_hashes l)).
Proof.
  intros [_ Hr] Hwf. destruct chunk_limit_facts as (_ & _ & _ & <- & Hd & _).
  destruct epc_facts as (Hpos & H32 & _ & Hsz).
  assert (Z.to_nat (tree_depth N epc) < 64)%nat as Hk.
  { destruct chunk_limit_facts as (_ & _ & _ & -> & ? & _). lia. }
  unfold leaf_hashes. destruct (Z.eqb_spec epc 1) as [He|He].
  - eapply node_root_rep; [|done|exact Hr]. by intros n a _ ->.
  - eapply (node_root_rep _ _ chunk_leaf
      (fun c => pad32 (concat (tree_hash_packed_encoding th <$> c)))); [|done|exact Hr].
    intros n c Hc [o ->]. cbn. unfold pack_chunk.
    destruct (Forall_blocks_wf (Z.to_nat epc) l c ltac:(lia) Hwf Hc) as [Hcw Hcl].
    pose proof (epc_not_1_basic He) as Hb.
    rewrite concat_packed_len, <-Hsz by done.
    destruct (Z.leb_spec (zlen c * (32 / epc)) 32); [done|]. unfold zlen in *. nia.
Qed.

(** Packing the flat bytes into chunks gives the same leaves. *)
Lemma pack_leaf_hashes l :
  TREE_HASH_TYPE th = Basic -> Forall wf l ->
  pack_bytes_to_chunks (concat (tree_hash_packed_encoding th <$> l)) = leaf_hashes l.
Proof.
  intros Hb Hwf. destruct epc_facts as (Hpos & H32 & H1 & Hsz). specialize (Hsz Hb).
  destruct (packed_divides Hb) as [Hfl _].
  set (enc := tree_hash_packed_encoding th) in *.
  assert (forall c, Forall wf c -> zlen (concat (enc <$> c)) = zlen c * elem_fixed_len th) as Hlen
    by (intros; by apply concat_packed_len).
  assert (blocks 32 (concat (enc <$> l))
          = (fun c => concat (enc <$> c)) <$> blocks (Z.to_nat epc) l) as Hbl.
  { induction l as [|l Hl IH] using (blocks_ind (Z.to_nat epc) ltac:(lia)); [done|].
    assert (concat (enc <$> l) <> []) as Hne.
    { intros Hn. pose proof (Hlen l Hwf) as Hz. rewrite Hn in Hz. destruct l; [done|].
      rewrite zlen_cons in Hz. pose proof (zlen_nonneg l). unfold zlen in Hz at 1. cbn in Hz. nia. }
    rewrite (blocks_cons 32), (blocks_cons (Z.to_nat epc)) by (done || lia).
    cbn [fmap list_fmap].
    assert (Forall wf (take (Z.to_nat epc) l) /\ Forall wf (drop (Z.to_nat epc) l)) as [Hw1 Hw2].
    { rewrite <-(take_drop (Z.to_nat epc) l), Forall_app in Hwf. done. }
    assert (concat (enc <$> l) = concat (enc <$> take (Z.to_nat epc) l)
            ++ concat (enc <$> drop (Z.to_nat epc) l)) as Hsplit.
    { by rewrite <-concat_app, <-fmap_app, take_drop. }
    pose proof (Hlen _ Hw1) as Hl1. rewrite <-Hsz in Hl1.
    destruct (decide (length l <= Z.to_nat epc)%nat).
    - rewrite (take_ge l) in * by done. rewrite (drop_ge l) by done.
      assert (length (concat (enc <$> l)) <= 32)%nat by (unfold zlen in *; nia).
      rewrite take_ge, drop_ge by done. done.
    - rewrite Hsplit, take_app_length', drop_app_length'; [by rewrite IH|..];
        unfold zlen in *; rewrite length_take in Hl1; nia. }
  unfold pack_bytes_to_chunks, leaf_hashes. rewrite Hbl, <-list_fmap_compose.
  destruct (Z.eqb_spec epc 1) as [He|He]; [|done].
  rewrite He. clear Hbl Hlen. induction Hwf as [|t l Ht _ IH]; [done|].
  rewrite blocks_cons by (done || lia). cbn. f_equal; [|exact IH].
  change (take (Z.to_nat 1) (t :: l)) with [t]. cbn [fmap list_fmap concat].
  rewrite app_nil_r. rewrite He in Hsz. change (32 / 1) with 32 in Hsz.
  rewrite full_chunk_root by done. unfold pad32.
  pose proof (packed_len t Hb Ht) as Hp. fold enc. fold enc in Hp. unfold zlen in Hp.
  replace (32 - length (enc t))%nat with 0%nat by lia. by rewrite app_nil_r.
Qed.

Lemma leaf_hashes_fit l : zlen l <= N -> zlen (leaf_hashes l) <= chunk_limit.
Proof.
  intros Hl. unfold leaf_hashes. destruct (Z.eqb_spec epc 1) as [He|He]; rewrite zlen_fmap.
  - destruct chunk_limit_facts as (_ & HNc & _). rewrite He in HNc. lia.
  - by apply blocks_fit.
Qed.

(** The flat backend hashes to the same root. *)
Lemma flat_list_root_spec l :
  zlen l <= N -> Forall wf l ->
  flat_list_root sha256 th N l
  = Ok (tree_root sha256 (Z.to_nat (Z.log2_up chunk_limit)) (leaf_hashes l)).
Proof.
  intros Hl Hwf. pose proof (leaf_hashes_fit l Hl) as Hfit.
  destruct chunk_limit_facts as (Hc0 & _ & HcN & _). destruct HN as [? HU].
  destruct epc_facts as (Hpos & _ & H1 & Hsz). unfold flat_list_root.
  destruct (bool_decide_reflect (TREE_HASH_TYPE th = Basic)) as [Hb|Hb].
  - rewrite pack_leaf_hashes by done. specialize (Hsz Hb).
    assert (0 < 32 / epc <= 32) by (destruct epc_facts as (? & ? & _); nia).
    rewrite wmul_small by nia. rewrite <-Hsz. fold chunk_limit.
    apply merkleize_padded_Ok; [done|]. unfold U64 in HU. lia.
  - assert (epc = 1) as He.
    { unfold elems_per_chunk. by rewrite bool_decide_false. }
    assert (chunk_limit = N) as Hcl.
    { unfold chunk_limit. rewrite He. change (32 / 1) with 32. unfold div_ceil.
      replace (N * 32 + 32 - 1) with (31 + N * 32) by lia.
      rewrite Z.div_add by lia. done. }
    unfold leaf_hashes in *. rewrite He in *. rewrite Hcl in *. cbn [Z.eqb] in *.
    apply merkleize_padded_Ok; [done|]. unfold U64 in HU. lia.
Qed.

(** ** Invariants of the two sequence types *)
Definition backend_holds (b : Backend T) (e : Z) (l : list T) : Prop :=
  match b with
  | Flat v => v = l
  | Tree root => e = epc /\ tree_holds root l
  end.
Definition sl_holds (s : SszList T) (l : list T) : Prop :=
  sl_len s = zlen l /\ zlen l <= N /\ backend_holds (sl_backend s) (sl_epc s) l.
Definition sv_holds (s : SszVector) (l : list T) : Prop :=
  zlen l = N /\ backend_holds (sv_backend s) (sv_epc s) l.

Lemma sl_get_holds s l i : sl_holds s l -> 0 <= i -> sl_get N s i = Ok (l !! Z.to_nat i).
Proof.
  intros (Hlen & HlN & Hb) Hi. unfold sl_get. destruct (sl_backend s) as [v|root].
  - by rewrite Hb.
  - destruct Hb as [-> Hh]. rewrite Hlen. destruct (Z.leb_spec (zlen l) i).
    + rewrite lookup_ge_None_2; [done|]. unfold zlen in *. lia.
    + by apply tree_get_holds.
Qed.

Lemma sl_with_set_holds s l i v :
  sl_holds s l -> 0 <= i ->
  if i <? zlen l
  then exists s', sl_with_set N s i v = Ok s' /\ sl_holds s' (<[Z.to_nat i := v]> l)
  else sl_with_set N s i v = Err (OffsetOutOfRange i (sat_sub (zlen l) 1)).
Proof.
  intros (Hlen & HlN & Hb) Hi. unfold sl_with_set. rewrite Hlen.
  destruct (Z.ltb_spec i (zlen l)), (Z.leb_spec (zlen l) i); try lia; [|done].
  destruct (sl_backend s) as [vec|root]; cbn in Hb.
  - subst vec. destruct (Z.ltb_spec i (zlen l)); [|lia]. eexists. split; [done|].
    split_and!; cbn; rewrite ?zlen_insert; done.
  - destruct Hb as [-> Hh]. destruct (tree_set_holds root l i v Hh HlN) as (r & -> & Hr); [lia|].
    eexists. split; [done|]. split_and!; cbn; rewrite ?zlen_insert; done.
Qed.

Lemma sl_with_push_holds s l v :
  sl_holds s l ->
  if zlen l <? N
  then exists s', sl_with_push N s v = Ok s' /\ sl_holds s' (l ++ [v])
  else sl_with_push N s v = Err (ListLimitExceeded (zlen l + 1) N).
Proof.
  intros (Hlen & HlN & Hb). unfold sl_with_push. rewrite Hlen.
  assert (zlen (l ++ [v]) = zlen l + 1) as Hl1 by (by rewrite zlen_app).
  destruct (Z.ltb_spec (zlen l) N), (Z.leb_spec N (zlen l)); try lia; [|done].
  destruct (sl_backend s) as [vec|root]; cbn in Hb.
  - subst vec. eexists. split; [done|]. split_and!; cbn; [done|lia|done].
  - destruct Hb as [-> Hh]. destruct (tree_push_holds root l v Hh) as (r & -> & Hr); [lia|].
    eexists. split; [done|]. split_and!; cbn; [lia|lia|done].
Qed.

Lemma sl_to_vec_holds s l : sl_holds s l -> sl_to_vec N s = l.
Proof.
  intros (Hlen & HlN & Hb). unfold sl_to_vec. destruct (sl_backend s) as [v|root]; [done|].
  destruct Hb as [-> Hh]. rewrite Hlen. by apply tree_to_vec_holds.
Qed.

Lemma chunk_leaf_stable (n m : Node T) c : same_tree n m -> chunk_leaf n c -> chunk_leaf m c.
Proof. intros Hs [o ->]. destruct m; cbn in Hs; try done. subst. by eexists. Qed.

Lemma elem_leaf_stable (n m : Node T) t : same_tree n m -> elem_leaf n t -> elem_leaf m t.
Proof. intros Hs ->. destruct m; cbn in Hs; try done. by subst. Qed.

Lemma cached_root_holds root l :
  tree_holds root l -> Forall wf l ->
  exists root', cached_root sha256 th root
    = Ok (tree_root sha256 (Z.to_nat (Z.log2_up chunk_limit)) (leaf_hashes l), root') /\
    tree_holds root' l.
Proof.
  intros Hh Hwf. pose proof (tree_root_holds root l Hh Hwf) as Hr. destruct Hh as [Hc Hrep].
  destruct (cached_root_spec sha256 th root _ Hc Hr) as (root' & -> & Hc' & Hs).
  exists root'. split; [done|]. split; [done|]. destruct (epc =? 1).
  - eapply same_tree_rep; [apply elem_leaf_stable|done|done].
  - eapply same_tree_rep; [apply chunk_leaf_stable|done|done].
Qed.

Lemma sl_root_holds s l :
  sl_holds s l -> Forall wf l ->
  exists s', sl_tree_hash_root sha256 th N s
    = Ok (mix_in_length sha256
            (tree_root sha256 (Z.to_nat (Z.log2_up chunk_limit)) (leaf_hashes l)) (zlen l), s') /\
    sl_holds s' l.
Proof.
  intros (Hlen & HlN & Hb) Hwf. unfold sl_tree_hash_root. destruct s as [b n e]. cbn in *.
  destruct b as [v|root].
  - rewrite Hb, flat_list_root_spec by done. rewrite Hlen. by eexists.
  - destruct Hb as [-> Hh]. destruct (cached_root_holds root l Hh Hwf) as (r & -> & Hr).
    cbn. rewrite Hlen. eexists. split; [done|]. by split_and!.
Qed.

Lemma length_le_blocks (n : nat) (l : list T) :
  (0 < n)%nat -> (length l <= n * length (blocks n l))%nat.
Proof.
  intros Hn. induction l as [|l Hl IH] using (blocks_ind n Hn); [cbn; lia|].
  rewrite blocks_cons by done. cbn [length]. rewrite length_drop in IH. lia.
Qed.

(** A vector fills its chunk limit exactly. *)
Lemma leaf_hashes_full l : zlen l = N -> zlen (leaf_hashes l) = chunk_limit.
Proof.
  intros Hl. pose proof (leaf_hashes_fit l ltac:(lia)) as Hle.
  destruct epc_facts as (Hpos & H32 & _). destruct chunk_limit_facts as (H0 & HNc & _).
  assert (0 < 32 / epc <= 32) as Hsz by nia.
  assert (32 * chunk_limit < N * (32 / epc) + 32) as Hup.
  { unfold chunk_limit, div_ceil.
    pose proof (Z.div_mod (N * (32 / epc) + 32 - 1) 32 ltac:(lia)) as Hd.
    pose proof (Z.mod_pos_bound (N * (32 / epc) + 32 - 1) 32 ltac:(lia)). lia. }
  assert (epc * (chunk_limit - 1) < N) by nia.
  apply Z.le_antisymm; [done|]. unfold leaf_hashes.
  destruct (Z.eqb_spec epc 1) as [He|He]; rewrite zlen_fmap.
  - rewrite He in *. lia.
  - pose proof (length_le_blocks (Z.to_nat epc) l ltac:(lia)). unfold zlen in *. nia.
Qed.

Lemma flat_vector_root_spec l :
  zlen l = N -> Forall wf l ->
  flat_vector_root sha256 th l
  = Ok (tree_root sha256 (Z.to_nat (Z.log2_up chunk_limit)) (leaf_hashes l)).
Proof.
  intros Hl Hwf. pose proof (leaf_hashes_full l Hl) as Hfull.
  destruct chunk_limit_facts as (Hc0 & _ & HcN & _). destruct HN as [? HU].
  unfold flat_vector_root.
  destruct (bool_decide_reflect (TREE_HASH_TYPE th = Basic)) as [Hb|Hb].
  - rewrite pack_leaf_hashes, merkleize_Ok by (done || unfold U64 in HU; lia). by rewrite Hfull.
  - assert (leaf_hashes l = tree_hash_root th <$> l) as Heq.
    { unfold leaf_hashes, elems_per_chunk. by rewrite bool_decide_false. }
    rewrite <-Heq, merkleize_Ok by (unfold U64 in HU; lia). by rewrite Hfull.
Qed.

Lemma sv_root_holds s l :
  sv_holds s l -> Forall wf l ->
  exists s', sv_tree_hash_root sha256 th s
    = Ok (tree_root sha256 (Z.to_nat (Z.log2_up chunk_limit)) (leaf_hashes l), s') /\ sv_holds s' l.
Proof.
  intros (Hlen & Hb) Hwf. unfold sv_tree_hash_root. destruct s as [b e]. cbn in *.
  destruct b as [v|root].
  - rewrite Hb, flat_vector_root_spec by done. by eexists.
  - destruct Hb as [-> Hh]. destruct (cached_root_holds root l Hh Hwf) as (r & -> & Hr).
    cbn. eexists. split; [done|]. by split_and!.
Qed.

(** ** Properties *)

(** C6: [SszList] with either backend refines a plain list of at most [N]
    elements.  Construction establishes the invariant and every operation
    keeps it: [get] is lookup, [with_set] is update (an error exactly when out
    of range), [with_push] is append (an error exactly at the limit), the tree
    iterator yields exactly the elements in order, and the conversion to the
    tree backend preserves the contents.  No operation aborts. *)
Theorem ssz_list_refines_list s l :
  sl_holds s l ->
  (forall i, 0 <= i -> sl_get N s i = Ok (l !! Z.to_nat i)) /\
  (forall i v, 0 <= i ->
     if i <? zlen l
     then exists s', sl_with_set N s i v = Ok s' /\ sl_holds s' (<[Z.to_nat i := v]> l)
     else sl_with_set N s i v = Err (OffsetOutOfRange i (sat_sub (zlen l) 1))) /\
  (forall v,
     if zlen l <? N
     then exists s', sl_with_push N s v = Ok s' /\ sl_holds s' (l ++ [v])
     else sl_with_push N s v = Err (ListLimitExceeded (zlen l + 1) N)) /\
  sl_to_vec N s = l /\
  (exists s', sl_into_tree th N s = Ok s' /\ sl_holds s' l) /\
  (exists s', sl_from_vec N l = Ok s' /\ sl_holds s' l) /\
  sl_holds sl_new [] /\ sl_holds (sl_empty_tree th N) [].
Proof.
  intros Hs. pose proof Hs as (Hlen & HlN & Hb).
  assert (forall v, zlen v <= N -> exists s', sl_from_vec_tree th N v = Ok s' /\ sl_holds s' v) as Hft.
  { intros v Hv. unfold sl_from_vec_tree. destruct (Z.ltb_spec N (zlen v)); [lia|].
    eexists. split; [done|]. split_and!; [done..|]. cbn. split; [done|].
    by apply build_tree_holds. }
  split_and!.
  - intros. by apply sl_get_holds.
  - intros. by apply sl_with_set_holds.
  - intros. by apply sl_with_push_holds.
  - by apply sl_to_vec_holds.
  - unfold sl_into_tree. destruct (sl_backend s) as [v|root] eqn:Hsb.
    + cbn in Hb. subst v. by apply Hft.
    + by exists s.
  - unfold sl_from_vec. destruct (Z.ltb_spec N (zlen l)); [lia|]. eexists. split; [done|]. by split_and!.
  - split_and!; [done|unfold zlen; cbn; lia|done].
  - split_and!; [done|unfold zlen; cbn; lia|]. split; [done|]. apply empty_tree_holds.
Qed.

(** The Merkle root does not depend on the backend or on the history of
    updates.  For every representation [s] of the list [l] (flat, or a tree
    built by any sequence of copy-on-write updates with any caches filled on
    the way), [tree_hash_root] returns the length mixed into the root of the
    padded tree over the leaves of [l], and leaves [s] a representation of
    [l]; the cached hashes are never stale. *)
Theorem ssz_list_root_canonical s l :
  sl_holds s l -> Forall wf l ->
  exists s', sl_tree_hash_root sha256 th N s
    = Ok (mix_in_length sha256
            (tree_root sha256 (Z.to_nat (Z.log2_up chunk_limit)) (leaf_hashes l)) (zlen l), s') /\
    sl_holds s' l.
Proof. apply sl_root_holds. Qed.

(** [SszVector] refines a list of exactly [N] elements, and its Merkle root
    is the same for the flat and the tree backend. *)
Theorem ssz_vector_refines_list s l :
  sv_holds s l -> Forall wf l ->
  (forall i, 0 <= i -> sv_get N s i = Ok (l !! Z.to_nat i)) /\
  (forall i v, 0 <= i < N ->
     exists s', sv_with_set N s i v = Ok s' /\ sv_holds s' (<[Z.to_nat i := v]> l)) /\
  sv_to_vec N s = l /\
  (exists s', sv_from_vec_tree th N l = Ok s' /\ sv_holds s' l) /\
  (exists s', sv_tree_hash_root sha256 th s
     = Ok (tree_root sha256 (Z.to_nat (Z.log2_up chunk_limit)) (leaf_hashes l), s') /\
     sv_holds s' l).
Proof.
  intros Hs Hwf. pose proof Hs as (Hlen & Hb). split_and!.
  - intros i Hi. unfold sv_get. destruct (sv_backend s) as [v|root]; [by rewrite Hb|].
    destruct Hb as [-> Hh]. destruct (Z.leb_spec N i).
    + rewrite lookup_ge_None_2; [done|]. unfold zlen in *. lia.
    + apply tree_get_holds; [done|lia..].
  - intros i v Hi. unfold sv_with_set. destruct (Z.leb_spec N i); [lia|].
    destruct (sv_backend s) as [vec|root]; cbn in Hb.
    + subst vec. destruct (Z.ltb_spec i (zlen l)); [|lia]. eexists. split; [done|].
      split; cbn; [by rewrite zlen_insert|done].
    + destruct Hb as [-> Hh]. destruct (tree_set_holds root l i v Hh) as (r & -> & Hr); [lia..|].
      eexists. split; [done|]. split; cbn; [by rewrite zlen_insert|done].
  - unfold sv_to_vec. destruct (sv_backend s) as [v|root]; [done|].
    destruct Hb as [-> Hh]. pose proof (tree_to_vec_holds root l Hh) as Ht. by rewrite Hlen in Ht.
  - unfold sv_from_vec_tree. destruct (Z.eqb_spec (zlen l) N); [|done]. eexists.
    split; [done|]. split; [done|]. cbn. split; [done|]. apply build_tree_holds. lia.
  - by apply sv_root_holds.
Qed.
End refinement.

(** ** Witnesses *)
Definition u64_tree_hash : TreeHash Z :=
  mkTreeHash Z Basic false 8 (fun v => pad32 (to_le_bytes 8 v)) (to_le_bytes 8).

#[export] Instance u64_tree_hash_ok : TreeHashOk u64_tree_hash (fun _ => True).
Proof. split; cbn; done. Qed.

Definition toy_sha (x : bytes) : bytes := take 32 (rev x ++ zero_chunk).

(** Five balances pushed one by one onto an empty tree, as one leaf of four and
    one of one. *)
Definition ex_balances : SszList Z :=
  mkSszList (Tree (Branch (Branch (PackedLeaf [1; 2; 3; 4] None) (PackedLeaf [5] None) None)
                     (ZeroSubtree 1) None)) 5 4.

Lemma ex_balances_holds : sl_holds toy_sha u64_tree_hash 16 ex_balances [1; 2; 3; 4; 5].
Proof.
  split_and!; [done|done|]. cbn. split; [done|]. split; [cbn; tauto|].
  change (elems_per_chunk u64_tree_hash =? 1) with false. cbv iota.
  change (Z.to_nat (tree_depth 16 (elems_per_chunk u64_tree_hash))) with 2%nat.
  change (blocks (Z.to_nat (elems_per_chunk u64_tree_hash)) [1; 2; 3; 4; 5])
    with [[1; 2; 3; 4]; [5]].
  left. do 3 eexists. exists [[1; 2; 3; 4]; [5]], []. split; [done|].
  split; [|split; [apply (rep_zero _ 1)|split; [done|by left]]].
  left. do 3 eexists. exists [[1; 2; 3; 4]], [[5]]. split; [done|].
  split_and!; [left|left|done|by right]; eexists; (split; [by eexists|done]).
Qed.

Lemma ssz_list_refines_list_witness :
  sl_to_vec 16 ex_balances = [1; 2; 3; 4; 5] /\
  exists s', sl_with_push 16 ex_balances 6 = Ok s' /\
    sl_holds toy_sha u64_tree_hash 16 s' [1; 2; 3; 4; 5; 6].
Proof.
  destruct (ssz_list_refines_list toy_sha u64_tree_hash (fun _ => True) u64_tree_hash_ok 16
    ltac:(unfold U64; lia) ex_balances [1; 2; 3; 4; 5] ex_balances_holds)
    as (_ & _ & Hpush & Hvec & _).
  split; [exact Hvec|exact (Hpush 6)].
Defined.

Lemma ssz_list_root_canonical_witness :
  exists s', sl_tree_hash_root toy_sha u64_tree_hash 16 ex_balances
    = Ok (mix_in_length toy_sha
            (tree_root toy_sha 2 [pad32 (concat (to_le_bytes 8 <$> [1; 2; 3; 4]));
                                  pad32 (to_le_bytes 8 5)]) 5, s') /\
    sl_holds toy_sha u64_tree_hash 16 s' [1; 2; 3; 4; 5].
Proof.
  apply (ssz_list_root_canonical toy_sha u64_tree_hash (fun _ => True) u64_tree_hash_ok 16
    ltac:(unfold U64; lia) ex_balances [1; 2; 3; 4; 5] ex_balances_holds).
  by repeat constructor.
Defined.

Lemma ssz_vector_refines_list_witness :
  sv_to_vec 5 (mkSszVector (Flat [1; 2; 3; 4; 5]) 1) = [1; 2; 3; 4; 5] /\
  exists s', sv_from_vec_tree u64_tree_hash 5 [1; 2; 3; 4; 5] = Ok s' /\
    sv_holds toy_sha u64_tree_hash 5 s' [1; 2; 3; 4; 5].
Proof.
  destruct (ssz_vector_refines_list toy_sha u64_tree_hash (fun _ => True) u64_tree_hash_ok 5
    ltac:(unfold U64; lia) (mkSszVector (Flat [1; 2; 3; 4; 5]) 1) [1; 2; 3; 4; 5])
    as (_ & _ & Hvec & Htree & _).
  - split; reflexivity.
  - by repeat constructor.
  - split; [exact Hvec|exact Htree].
Defined.
