(* ===== verification/Shuffling.v ===== *)
(** * The swap-or-not shuffle

    [compute_shuffled_index] (crates/pharos-types/src/shuffling.rs) and its
    batched form [compute_shuffled_permutation]
    (crates/pharos-stf/src/phase0/shuffling.rs).  SHA-256 is a parameter; what
    the code relies on is that a digest has 32 bytes. *)

From S2P Require Import Prelude.

Section shuffling.
  Variable hash : bytes -> bytes.
  Context {E : Type}.

Definition bytes_to_uint64 (data : bytes) : Z :=
  from_le_bytes (take 8 data ++ replicate (8 - length (take 8 data)) Byte.x00).

(** The shared prefix of the 37-byte buffer: the seed and [current_round as u8]. *)
Definition round_prefix (seed : bytes) (round : Z) : bytes := seed ++ to_le_bytes 1 round.

Definition round_pivot (seed : bytes) (n round : Z) : result E Z :=
  p ← slice (hash (round_prefix seed round)) 0 8;
  Ok (bytes_to_uint64 p mod n).

Definition round_source (seed : bytes) (round bucket : Z) : bytes :=
  hash (round_prefix seed round ++ to_le_bytes 4 bucket).

Definition round_flip (pivot n cur : Z) : Z := wsub (wadd pivot n) cur mod n.

Definition source_bit (source : bytes) (position : Z) : result E bool :=
  byte_val ← index source (position mod 256 / 8);
  Ok (negb (Z.land (Z.shiftr (byte.unsigned byte_val) (position mod 8)) 1 =? 0)).

(** One round for one index. *)
Definition shuffle_round (seed : bytes) (n cur round : Z) : result E Z :=
  pivot ← round_pivot seed n round;
  let flip := round_flip pivot n cur in
  let position := Z.max cur flip in
  let bucket := as_u32 (position / 256) in
  bit ← source_bit (round_source seed round bucket) position;
  Ok (if bit : bool then flip else cur).

Definition compute_shuffled_index (i n : Z) (seed : bytes) (round_count : Z) : result E Z :=
  if i <? n then foldM (shuffle_round seed n) (seqZ 0 round_count) i else Panic.

(** One round for all indices: [source_cache] holds the digests of the buckets
    met so far. *)
Fixpoint permutation_pass (seed : bytes) (n round pivot : Z) (source_cache : gmap Z bytes)
    (indices : list Z) : result E (list Z) :=
  match indices with
  | [] => Ok []
  | idx :: rest =>
      let flip := round_flip pivot n idx in
      let position := Z.max idx flip in
      let bucket := as_u32 (position / 256) in
      let '(source, source_cache) :=
        match source_cache !! bucket with
        | Some source => (source, source_cache)
        | None => let source := round_source seed round bucket in
                  (source, <[bucket := source]> source_cache)
        end in
      bit ← source_bit source position;
      rest ← permutation_pass seed n round pivot source_cache rest;
      Ok ((if bit : bool then flip else idx) :: rest)
  end.

Definition permutation_round (seed : bytes) (n : Z) (indices : list Z) (round : Z)
    : result E (list Z) :=
  pivot ← round_pivot seed n round;
  permutation_pass seed n round pivot ∅ indices.

Definition compute_shuffled_permutation (n : Z) (seed : bytes) (round_count : Z)
    : result E (list Z) :=
  if n =? 0 then Ok []
  else foldM (permutation_round seed n) (seqZ 0 round_count) (seqZ 0 n).
End shuffling.

(** ** The round is an involution of [0, n) *)
Section facts.
  Variable hash : bytes -> bytes.
  Hypothesis hash_len : forall x, length (hash x) = 32%nat.
  Context {E : Type}.
  Variable (seed : bytes) (n : Z).
  Hypothesis n_bound : 0 < n <= 2 ^ 63.
  Implicit Types (round cur : Z).
  Local Abbreviation round_fn := (shuffle_round (E:=E) hash seed n).

Lemma round_pivot_Ok round : exists p, round_pivot (E:=E) hash seed n round = Ok p /\ 0 <= p < n.
Proof using hash_len n_bound.
  unfold round_pivot. rewrite slice_in_range by (unfold zlen; rewrite ?hash_len; lia).
  cbn [mbind result_bind]. eexists; split; [done|]. apply Z.mod_pos_bound. lia.
Qed.

Lemma source_bit_Ok x p : exists b, source_bit (E:=E) (hash x) p = Ok b.
Proof using hash_len.
  unfold source_bit.
  pose proof (Z.mod_pos_bound p 256 ltac:(lia)).
  assert (0 <= p mod 256 / 8 < 32) by (split; [apply Z.div_pos|apply Z.div_lt_upper_bound]; lia).
  destruct (index (E:=E) (hash x) (p mod 256 / 8)) eqn:Hi; cbn; [eauto|..].
  - unfold index in Hi. repeat case_match; try done. by unfold expect in Hi; case_match.
  - exfalso. eapply index_no_panic; [|done]. unfold zlen. rewrite hash_len. lia.
Qed.

Lemma round_flip_spec p cur :
  0 <= p < n -> 0 <= cur < n -> round_flip p n cur = (p - cur) mod n.
Proof using n_bound.
  intros. unfold round_flip. rewrite wadd_small by (unfold U64; lia).
  rewrite wsub_small by (unfold U64; lia).
  replace (p + n - cur) with (p - cur + 1 * n) by lia. apply Z_mod_plus_full.
Qed.

Lemma round_flip_invol p cur :
  0 <= p < n -> 0 <= cur < n -> round_flip p n (round_flip p n cur) = cur.
Proof using n_bound.
  intros Hp Hc. rewrite (round_flip_spec p cur) by done.
  rewrite round_flip_spec by (done || apply Z.mod_pos_bound; lia).
  rewrite Zminus_mod_idemp_r. replace (p - (p - cur)) with cur by lia.
  by apply Z.mod_small.
Qed.

Lemma shuffle_round_Ok round cur :
  0 <= cur < n -> exists r, round_fn cur round = Ok r /\ 0 <= r < n.
Proof using hash_len n_bound.
  intros Hc. unfold shuffle_round.
  destruct (round_pivot_Ok round) as (p & -> & Hp). cbn [mbind result_bind].
  destruct (source_bit_Ok (round_prefix seed round ++
    to_le_bytes 4 (as_u32 (Z.max cur (round_flip p n cur) / 256)))
    (Z.max cur (round_flip p n cur))) as [b Hb].
  unfold round_source. rewrite Hb. cbn [mbind result_bind].
  exists (if b then round_flip p n cur else cur). split; [done|].
  destruct b; [|done]. apply Z.mod_pos_bound. lia.
Qed.

Lemma shuffle_round_invol round cur r :
  0 <= cur < n -> round_fn cur round = Ok r -> round_fn r round = Ok cur.
Proof using hash_len n_bound.
  intros Hc. unfold shuffle_round.
  destruct (round_pivot_Ok round) as (p & -> & Hp). cbn [mbind result_bind].
  destruct (source_bit _ _) as [b| |] eqn:Hb; cbn [mbind result_bind]; [|done..].
  intros [= <-]. destruct b; [|by rewrite Hb].
  rewrite round_flip_invol by done. by rewrite (Z.max_comm _ cur), Hb.
Qed.

(** A pass with the cache computes the round of every index. *)
Lemma permutation_pass_round round p cache l :
  round_pivot (E:=E) hash seed n round = Ok p ->
  (forall b s, cache !! b = Some s -> s = round_source hash seed round b) ->
  permutation_pass hash seed n round p cache l = mapM (fun i => round_fn i round) l.
Proof.
  intros Hp. revert cache; induction l as [|i l IH]; intros cache Hcache; [done|].
  cbn [permutation_pass mapM].
  set (pos := Z.max i (round_flip p n i)). set (bk := as_u32 (pos / 256)).
  assert (exists cache', (match cache !! bk with
      | Some source => (source, cache)
      | None => (round_source hash seed round bk, <[bk := round_source hash seed round bk]> cache)
      end = (round_source hash seed round bk, cache')) /\
      (forall b s, cache' !! b = Some s -> s = round_source hash seed round b)) as (c' & -> & Hc').
  { destruct (cache !! bk) as [s|] eqn:Hs; [exists cache; by rewrite (Hcache _ _ Hs)|].
    eexists; split; [done|]. intros b s [[<- <-]|[_ ?]]%lookup_insert_Some; auto. }
  rewrite IH by done.
  assert (round_fn i round = source_bit (round_source hash seed round bk) pos ≫=
    fun bit : bool => Ok (if bit then round_flip p n i else i)) as ->
    by (unfold shuffle_round; by rewrite Hp).
  by destruct (source_bit _ _).
Qed.

Lemma permutation_round_mapM round l :
  permutation_round hash seed n l round = mapM (fun i => round_fn i round) l.
Proof using hash_len n_bound.
  unfold permutation_round. destruct (round_pivot_Ok round) as (p & Hp & _). rewrite Hp.
  cbn [mbind result_bind]. by apply permutation_pass_round.
Qed.

(** A round permutes any permutation of [0, n). *)
Lemma round_permutes round l :
  l ≡ₚ seqZ 0 n -> exists l', mapM (fun i => round_fn i round) l = Ok l' /\ l' ≡ₚ seqZ 0 n.
Proof using hash_len n_bound.
  intros Hl.
  assert (forall i, i ∈ l -> 0 <= i < n) as Hr by (intros i; rewrite Hl, elem_of_seqZ; lia).
  assert (exists l', Forall2 (fun i r => round_fn i round = Ok r) l l') as (l' & H2).
  { clear Hl. induction l as [|i l IH]; [by exists []|].
    destruct IH as (l' & ?); [intros; apply Hr; by right|].
    destruct (shuffle_round_Ok round i) as (r & ? & _); [apply Hr; by left|].
    exists (r :: l'). by constructor. }
  exists l'. split; [by apply mapM_Ok_Forall2|]. rewrite <-Hl.
  assert (NoDup l) as Hnd by (rewrite Hl; apply NoDup_seqZ).
  symmetry. apply submseteq_length_Permutation; [|by rewrite (Forall2_length _ _ _ H2)].
  apply NoDup_submseteq; [done|]. intros x Hx.
  (* [x] is reached from its own image, which lies in [0, n). *)
  destruct (shuffle_round_Ok round x) as (y & Hy & Hyn); [auto|].
  assert (y ∈ l) as Hyl by (rewrite Hl, elem_of_seqZ; lia).
  apply list_elem_of_lookup in Hyl as [k Hk].
  destruct (Forall2_lookup_l _ _ _ _ _ H2 Hk) as (z & Hz & Hyz).
  rewrite (shuffle_round_invol round x y) in Hyz; [|auto..]. injection Hyz as ->.
  by eapply list_elem_of_lookup_2.
Qed.

Lemma rounds_permute rounds l :
  l ≡ₚ seqZ 0 n -> exists l',
    foldM (permutation_round (E:=E) hash seed n) rounds l = Ok l' /\ l' ≡ₚ seqZ 0 n /\
    Forall2 (fun i r => foldM round_fn rounds i = Ok r) l l'.
Proof using hash_len n_bound.
  revert l; induction rounds as [|r rounds IH]; intros l Hl.
  { exists l. split_and!; [done|done|]. cbn. clear Hl. induction l; constructor; auto. }
  destruct (round_permutes r l Hl) as (l1 & H1 & Hl1).
  destruct (IH l1 Hl1) as (l2 & H2 & Hl2 & Hf). exists l2. cbn.
  rewrite permutation_round_mapM, H1. cbn. split_and!; [done|done|].
  clear -H1 Hf. apply mapM_Ok_Forall2 in H1. revert l2 Hf.
  induction H1 as [|a b l l1 Hab _ IH]; intros l2 Hf; inversion Hf; subst; constructor; auto.
  rewrite Hab. done.
Qed.

Lemma shuffled_permutation_Ok rounds :
  exists p, compute_shuffled_permutation (E:=E) hash n seed rounds = Ok p /\ p ≡ₚ seqZ 0 n /\
    forall i, 0 <= i < n -> exists r,
      compute_shuffled_index (E:=E) hash i n seed rounds = Ok r /\ p !! Z.to_nat i = Some r.
Proof using hash_len n_bound.
  destruct (rounds_permute (seqZ 0 rounds) (seqZ 0 n)) as (p & Hp & Hperm & Hf); [done|].
  exists p. unfold compute_shuffled_permutation.
  destruct (Z.eqb_spec n 0); [lia|]. split_and!; [done|done|]. intros i Hi.
  assert (seqZ 0 n !! Z.to_nat i = Some i) as Hs by (apply lookup_seqZ; lia).
  destruct (Forall2_lookup_l _ _ _ _ _ Hf Hs) as (r & ? & ?). exists r.
  unfold compute_shuffled_index. destruct (Z.ltb_spec i n); [done|lia].
Qed.
End facts.

(** C8: Batching is sound and the shuffle is a permutation.  For any seed,
    number of rounds and [index_count] up to [2^63], the batched routine with
    its per-round digest cache returns (without aborting) a permutation of
    [0 .. index_count), and its i-th entry is what the one-index routine
    returns for [i]. *)
Theorem shuffled_permutation_correct {E} (hash : bytes -> bytes) (n : Z) (seed : bytes) (rounds : Z) :
  (forall x, length (hash x) = 32%nat) -> 0 <= n <= 2 ^ 63 ->
  exists p, compute_shuffled_permutation (E:=E) hash n seed rounds = Ok p /\ p ≡ₚ seqZ 0 n /\
    forall i, 0 <= i < n -> exists r,
      compute_shuffled_index (E:=E) hash i n seed rounds = Ok r /\ p !! Z.to_nat i = Some r.
Proof.
  intros Hh Hn. destruct (decide (n = 0)) as [->|].
  - exists []. split_and!; [done|done|lia].
  - apply shuffled_permutation_Ok; [done|lia].
Qed.

(** A digest of the right size that depends on all of its input. *)
Definition sum_digest (x : bytes) : bytes :=
  to_le_bytes 32 (foldr (fun b acc => byte.unsigned b + 257 * acc) 7 x * 2654435761).

Lemma shuffled_permutation_correct_witness :
  exists p, compute_shuffled_permutation (E:=unit) sum_digest 11 (replicate 32 Byte.x03) 10 = Ok p /\
    p ≡ₚ seqZ 0 11 /\
    forall i, 0 <= i < 11 -> exists r,
      compute_shuffled_index (E:=unit) sum_digest i 11 (replicate 32 Byte.x03) 10 = Ok r /\
      p !! Z.to_nat i = Some r.
Proof.
  apply (shuffled_permutation_correct sum_digest 11 (replicate 32 Byte.x03) 10).
  - intros x. apply length_to_le_bytes.
  - lia.
Defined.
