(* ===== verification/Spec.v ===== *)
(** * Presets and cryptographic parameters

    The phase 0 constants of the [BeaconSpec] trait
    (crates/pharos-types/src/eth_spec.rs) with the mainnet and the minimal
    preset, the laws about them the proofs use, and the two cryptographic
    libraries the state transition calls: SHA-256 ([pharos_utils::hash], a
    wrapper of the sha2 crate) and BLS verification ([pharos_utils::bls], a
    wrapper of blst), as parameters. *)

From Stdlib Require Import ZArith Lia.
From S2P Require Import Prelude.

Class Crypto : Type := {
  sha256 : bytes -> bytes;
  (** [bls::verify(pubkey, msg, signature)]; [None] is a decoding error. *)
  bls_verify : bytes -> bytes -> bytes -> option bool;
  (** [bls::fast_aggregate_verify(pubkeys, msg, signature)]. *)
  bls_fast_aggregate_verify : list bytes -> bytes -> bytes -> option bool;
}.

(** What the sources rely on: a digest is 32 bytes long. *)
Class CryptoOk (C : Crypto) : Prop := {
  sha256_length : forall x, length (sha256 x) = 32%nat;
}.

Class BeaconSpec : Type := {
  MAX_COMMITTEES_PER_SLOT : Z;
  TARGET_COMMITTEE_SIZE : Z;
  MAX_VALIDATORS_PER_COMMITTEE : Z;
  SHUFFLE_ROUND_COUNT : Z;
  HYSTERESIS_QUOTIENT : Z;
  HYSTERESIS_DOWNWARD_MULTIPLIER : Z;
  HYSTERESIS_UPWARD_MULTIPLIER : Z;
  MIN_DEPOSIT_AMOUNT : Z;
  MAX_EFFECTIVE_BALANCE : Z;
  EFFECTIVE_BALANCE_INCREMENT : Z;
  MIN_ATTESTATION_INCLUSION_DELAY : Z;
  SLOTS_PER_EPOCH : Z;
  MIN_SEED_LOOKAHEAD : Z;
  MAX_SEED_LOOKAHEAD : Z;
  EPOCHS_PER_ETH1_VOTING_PERIOD : Z;
  SLOTS_PER_HISTORICAL_ROOT : Z;
  MIN_EPOCHS_TO_INACTIVITY_PENALTY : Z;
  EPOCHS_PER_HISTORICAL_VECTOR : Z;
  EPOCHS_PER_SLASHINGS_VECTOR : Z;
  HISTORICAL_ROOTS_LIMIT : Z;
  VALIDATOR_REGISTRY_LIMIT : Z;
  BASE_REWARD_FACTOR : Z;
  WHISTLEBLOWER_REWARD_QUOTIENT : Z;
  PROPOSER_REWARD_QUOTIENT : Z;
  INACTIVITY_PENALTY_QUOTIENT : Z;
  MIN_SLASHING_PENALTY_QUOTIENT : Z;
  PROPORTIONAL_SLASHING_MULTIPLIER : Z;
  MAX_PROPOSER_SLASHINGS : Z;
  MAX_ATTESTER_SLASHINGS : Z;
  MAX_ATTESTATIONS : Z;
  MAX_DEPOSITS : Z;
  MAX_VOLUNTARY_EXITS : Z;
  DEPOSIT_CONTRACT_TREE_DEPTH : Z;
  BASE_REWARDS_PER_EPOCH : Z;
  ETH1_DATA_VOTES_LIMIT : Z;
  MAX_PENDING_ATTESTATIONS : Z;
  DEPOSIT_PROOF_LENGTH : Z;
  GENESIS_FORK_VERSION : bytes;
  MIN_VALIDATOR_WITHDRAWABILITY_DELAY : Z;
  SHARD_COMMITTEE_PERIOD : Z;
  MIN_PER_EPOCH_CHURN_LIMIT : Z;
  CHURN_LIMIT_QUOTIENT : Z;
  SLOT_DURATION_MS : Z;
  ATTESTATION_DUE_BPS : Z;
}.

Definition mainnet : BeaconSpec := {|
  MAX_COMMITTEES_PER_SLOT := 64;
  TARGET_COMMITTEE_SIZE := 128;
  MAX_VALIDATORS_PER_COMMITTEE := 2048;
  SHUFFLE_ROUND_COUNT := 90;
  HYSTERESIS_QUOTIENT := 4;
  HYSTERESIS_DOWNWARD_MULTIPLIER := 1;
  HYSTERESIS_UPWARD_MULTIPLIER := 5;
  MIN_DEPOSIT_AMOUNT := 1000000000;
  MAX_EFFECTIVE_BALANCE := 32000000000;
  EFFECTIVE_BALANCE_INCREMENT := 1000000000;
  MIN_ATTESTATION_INCLUSION_DELAY := 1;
  SLOTS_PER_EPOCH := 32;
  MIN_SEED_LOOKAHEAD := 1;
  MAX_SEED_LOOKAHEAD := 4;
  EPOCHS_PER_ETH1_VOTING_PERIOD := 64;
  SLOTS_PER_HISTORICAL_ROOT := 8192;
  MIN_EPOCHS_TO_INACTIVITY_PENALTY := 4;
  EPOCHS_PER_HISTORICAL_VECTOR := 65536;
  EPOCHS_PER_SLASHINGS_VECTOR := 8192;
  HISTORICAL_ROOTS_LIMIT := 16777216;
  VALIDATOR_REGISTRY_LIMIT := 1099511627776;
  BASE_REWARD_FACTOR := 64;
  WHISTLEBLOWER_REWARD_QUOTIENT := 512;
  PROPOSER_REWARD_QUOTIENT := 8;
  INACTIVITY_PENALTY_QUOTIENT := 67108864;
  MIN_SLASHING_PENALTY_QUOTIENT := 128;
  PROPORTIONAL_SLASHING_MULTIPLIER := 1;
  MAX_PROPOSER_SLASHINGS := 16;
  MAX_ATTESTER_SLASHINGS := 2;
  MAX_ATTESTATIONS := 128;
  MAX_DEPOSITS := 16;
  MAX_VOLUNTARY_EXITS := 16;
  DEPOSIT_CONTRACT_TREE_DEPTH := 32;
  BASE_REWARDS_PER_EPOCH := 4;
  ETH1_DATA_VOTES_LIMIT := 2048;
  MAX_PENDING_ATTESTATIONS := 4096;
  DEPOSIT_PROOF_LENGTH := 33;
  GENESIS_FORK_VERSION := [Byte.x00; Byte.x00; Byte.x00; Byte.x00];
  MIN_VALIDATOR_WITHDRAWABILITY_DELAY := 256;
  SHARD_COMMITTEE_PERIOD := 256;
  MIN_PER_EPOCH_CHURN_LIMIT := 4;
  CHURN_LIMIT_QUOTIENT := 65536;
  SLOT_DURATION_MS := 12000;
  ATTESTATION_DUE_BPS := 3333;
|}.

Definition minimal : BeaconSpec := {|
  MAX_COMMITTEES_PER_SLOT := 4;
  TARGET_COMMITTEE_SIZE := 4;
  MAX_VALIDATORS_PER_COMMITTEE := 2048;
  SHUFFLE_ROUND_COUNT := 10;
  HYSTERESIS_QUOTIENT := 4;
  HYSTERESIS_DOWNWARD_MULTIPLIER := 1;
  HYSTERESIS_UPWARD_MULTIPLIER := 5;
  MIN_DEPOSIT_AMOUNT := 1000000000;
  MAX_EFFECTIVE_BALANCE := 32000000000;
  EFFECTIVE_BALANCE_INCREMENT := 1000000000;
  MIN_ATTESTATION_INCLUSION_DELAY := 1;
  SLOTS_PER_EPOCH := 8;
  MIN_SEED_LOOKAHEAD := 1;
  MAX_SEED_LOOKAHEAD := 4;
  EPOCHS_PER_ETH1_VOTING_PERIOD := 4;
  SLOTS_PER_HISTORICAL_ROOT := 64;
  MIN_EPOCHS_TO_INACTIVITY_PENALTY := 4;
  EPOCHS_PER_HISTORICAL_VECTOR := 64;
  EPOCHS_PER_SLASHINGS_VECTOR := 64;
  HISTORICAL_ROOTS_LIMIT := 16777216;
  VALIDATOR_REGISTRY_LIMIT := 1099511627776;
  BASE_REWARD_FACTOR := 64;
  WHISTLEBLOWER_REWARD_QUOTIENT := 512;
  PROPOSER_REWARD_QUOTIENT := 8;
  INACTIVITY_PENALTY_QUOTIENT := 33554432;
  MIN_SLASHING_PENALTY_QUOTIENT := 64;
  PROPORTIONAL_SLASHING_MULTIPLIER := 2;
  MAX_PROPOSER_SLASHINGS := 16;
  MAX_ATTESTER_SLASHINGS := 2;
  MAX_ATTESTATIONS := 128;
  MAX_DEPOSITS := 16;
  MAX_VOLUNTARY_EXITS := 16;
  DEPOSIT_CONTRACT_TREE_DEPTH := 32;
  BASE_REWARDS_PER_EPOCH := 4;
  ETH1_DATA_VOTES_LIMIT := 32;
  MAX_PENDING_ATTESTATIONS := 1024;
  DEPOSIT_PROOF_LENGTH := 33;
  GENESIS_FORK_VERSION := [Byte.x00; Byte.x00; Byte.x00; Byte.x01];
  MIN_VALIDATOR_WITHDRAWABILITY_DELAY := 256;
  SHARD_COMMITTEE_PERIOD := 64;
  MIN_PER_EPOCH_CHURN_LIMIT := 2;
  CHURN_LIMIT_QUOTIENT := 32;
  SLOT_DURATION_MS := 6000;
  ATTESTATION_DUE_BPS := 3333;
|}.

(** The facts about the constants that the code is correct for.  Both presets
    meet them. *)
Class SpecOk (S : BeaconSpec) : Prop := {
  committees_pos : 0 < MAX_COMMITTEES_PER_SLOT <= 2 ^ 10;
  committee_size_pos : 0 < TARGET_COMMITTEE_SIZE;
  rounds_bound : 0 <= SHUFFLE_ROUND_COUNT <= 255;
  hysteresis_pos : 0 < HYSTERESIS_QUOTIENT;
  hysteresis_down : 0 <= HYSTERESIS_DOWNWARD_MULTIPLIER <= HYSTERESIS_QUOTIENT;
  hysteresis_up : HYSTERESIS_QUOTIENT <= HYSTERESIS_UPWARD_MULTIPLIER <= 2 * HYSTERESIS_QUOTIENT;
  increment_pos : 0 < EFFECTIVE_BALANCE_INCREMENT <= MAX_EFFECTIVE_BALANCE;
  increment_hysteresis : EFFECTIVE_BALANCE_INCREMENT mod HYSTERESIS_QUOTIENT = 0;
  max_effective_mod : MAX_EFFECTIVE_BALANCE mod EFFECTIVE_BALANCE_INCREMENT = 0;
  max_effective_bound : MAX_EFFECTIVE_BALANCE <= 2 ^ 40;
  slots_per_epoch_pos : 1 < SLOTS_PER_EPOCH <= 2 ^ 10;
  seed_lookahead : 0 <= MIN_SEED_LOOKAHEAD /\ 0 <= MAX_SEED_LOOKAHEAD <= 2 ^ 20;
  eth1_period_pos : 0 < EPOCHS_PER_ETH1_VOTING_PERIOD;
  eth1_votes_limit : ETH1_DATA_VOTES_LIMIT = EPOCHS_PER_ETH1_VOTING_PERIOD * SLOTS_PER_EPOCH;
  historical_root_pos : 0 < SLOTS_PER_HISTORICAL_ROOT <= 2 ^ 20;
  historical_root_epochs : 0 < SLOTS_PER_HISTORICAL_ROOT / SLOTS_PER_EPOCH;
  historical_root_two_epochs : 2 * SLOTS_PER_EPOCH <= SLOTS_PER_HISTORICAL_ROOT;
  historical_root_branch : SLOTS_PER_HISTORICAL_ROOT = 8192 \/ SLOTS_PER_HISTORICAL_ROOT = 64;
  historical_vector_pos : MIN_SEED_LOOKAHEAD + 1 < EPOCHS_PER_HISTORICAL_VECTOR <= 2 ^ 20;
  slashings_vector_pos : 1 < EPOCHS_PER_SLASHINGS_VECTOR <= 2 ^ 20;
  registry_limit : 0 < VALIDATOR_REGISTRY_LIMIT <= 2 ^ 40;
  base_reward_pos : 0 <= BASE_REWARD_FACTOR <= 2 ^ 10 /\ 0 < BASE_REWARDS_PER_EPOCH <= 2 ^ 10;
  quotients_pos : 0 < WHISTLEBLOWER_REWARD_QUOTIENT /\ 0 < PROPOSER_REWARD_QUOTIENT /\
    0 < INACTIVITY_PENALTY_QUOTIENT /\ 0 < MIN_SLASHING_PENALTY_QUOTIENT;
  slashing_multiplier : 0 <= PROPORTIONAL_SLASHING_MULTIPLIER <= 3;
  withdrawability_delay : 0 < MIN_VALIDATOR_WITHDRAWABILITY_DELAY <= 2 ^ 20;
  committee_period : 0 <= SHARD_COMMITTEE_PERIOD <= 2 ^ 20;
  churn_pos : 0 < MIN_PER_EPOCH_CHURN_LIMIT <= 2 ^ 20 /\ 0 < CHURN_LIMIT_QUOTIENT;
  inclusion_delay_pos : 0 < MIN_ATTESTATION_INCLUSION_DELAY <= SLOTS_PER_EPOCH;
  deposits_bound : 0 <= MAX_DEPOSITS <= 2 ^ 20;
  operation_limits : (0 <= MAX_PROPOSER_SLASHINGS <= 2 ^ 20 /\ 0 <= MAX_ATTESTER_SLASHINGS <= 2 ^ 20) /\
    0 <= MAX_ATTESTATIONS <= 2 ^ 20 /\ 0 <= MAX_VOLUNTARY_EXITS <= 2 ^ 20;
  list_limits : 0 <= MAX_PENDING_ATTESTATIONS /\ 0 <= HISTORICAL_ROOTS_LIMIT;
  fork_version_length : length GENESIS_FORK_VERSION = 4%nat;
  slot_duration : 0 < SLOT_DURATION_MS <= 2 ^ 20;
  slot_duration_seconds : SLOT_DURATION_MS mod 1000 = 0;
}.

#[global] Instance mainnet_ok : SpecOk mainnet.
Proof. split; cbn; try lia; try reflexivity; auto. Qed.
#[global] Instance minimal_ok : SpecOk minimal.
Proof. split; cbn; try lia; try reflexivity; auto. Qed.

Lemma slots_per_epoch_gt0 {S : BeaconSpec} {HS : SpecOk S} : 0 < SLOTS_PER_EPOCH.
Proof. pose proof slots_per_epoch_pos. lia. Qed.
Lemma slashings_vector_gt0 {S : BeaconSpec} {HS : SpecOk S} : 0 < EPOCHS_PER_SLASHINGS_VECTOR.
Proof. pose proof slashings_vector_pos. lia. Qed.
Lemma historical_vector_gt0 {S : BeaconSpec} {HS : SpecOk S} : 0 < EPOCHS_PER_HISTORICAL_VECTOR.
Proof. pose proof historical_vector_pos. pose proof seed_lookahead. lia. Qed.
Lemma historical_root_gt0 {S : BeaconSpec} {HS : SpecOk S} : 0 < SLOTS_PER_HISTORICAL_ROOT.
Proof. pose proof historical_root_pos. lia. Qed.
