(* ===== verification/BeaconState.v ===== *)
(** * The phase 0 beacon state

    [BeaconState] (crates/pharos-types/src/phase0/state.rs), the errors of the
    state transition (crates/pharos-stf/src/error.rs) and the write interface
    [BeaconStateWrite] of the phase 0 state
    (crates/pharos-stf/src/phase0/state_write.rs).

    A collection field is the list its [SszList] or [SszVector] represents
    (the relation [sl_holds], [sv_holds] of SszTree); [list_with_set],
    [list_with_push] and [vector_with_set] are the operations of those types
    on that list.  The [CachedRoot] field is skipped by every derive and holds
    no value the state transition reads, so it is left out. *)

From Stdlib Require Import ZArith Lia.
From S2P Require Import Prelude SszCodec SszBitfield SszTypes Spec.

(** ** Errors *)
Inductive AttestationInvalidReason : Type :=
  | SlotTooOld | SlotTooNew | TargetEpochMismatch | CommitteeIndexOutOfRange
  | AggregationBitsLengthMismatch | InvalidSourceCheckpoint | AttInvalidSignature
  | EmptyAttestingIndices | IndicesNotSortedOrUnique.
Inductive BlockHeaderInvalidReason : Type :=
  | HeaderSlotMismatch | SlotNotLater | ParentRootMismatch | ProposerSlashed
  | HeaderProposerIndexMismatch.
Inductive DepositInvalidReason : Type :=
  | DepositIndexMismatch | InvalidMerkleProof | DepositInvalidSignature.
Inductive ProposerSlashingInvalidReason : Type :=
  | SlashingSlotMismatch | SlashingProposerIndexMismatch | HeadersIdentical
  | ValidatorNotSlashable | SlashingInvalidSignature.
Inductive AttesterSlashingInvalidReason : Type :=
  | AttestationsNotSlashable | NoSlashableIndices | InvalidIndexedAttestation.
Inductive VoluntaryExitInvalidReason : Type :=
  | ValidatorNotActive | ExitAlreadyInitiated | EpochTooEarly | InsufficientActiveEpochs
  | ExitInvalidSignature.

(** The reason of a rejected payload or BLS change is a string literal. *)
Inductive StateTransitionError : Type :=
  | InvalidAttestation (reason : AttestationInvalidReason)
  | InvalidBlockHeader (reason : BlockHeaderInvalidReason)
  | InvalidDeposit (reason : DepositInvalidReason)
  | InvalidProposerSlashing (reason : ProposerSlashingInvalidReason)
  | InvalidAttesterSlashing (reason : AttesterSlashingInvalidReason)
  | InvalidVoluntaryExit (reason : VoluntaryExitInvalidReason)
  | EpochProcessing (reason : EpochProcessingError)
  | SlotOutOfRange
  | TargetSlotNotAfterCurrent (current target : Z)
  | InvalidBlockSignature
  | StateRootMismatch (expected actual : bytes)
  | InvalidDepositCount
  | InvalidRandaoReveal
  | Ssz (e : SszError)
  | UnsupportedFork
  | InvalidSyncCommittee
  | InvalidExecutionPayload (reason : string)
  | WithdrawalsMismatch
  | InvalidBlsToExecutionChange (reason : string)
  | TooManyBlobCommitments (count max : Z)
  | IndexOutOfRange (i : Z)
with EpochProcessingError : Type :=
  | BalanceIndexOutOfRange (i : Z)
  | ValidatorIndexOutOfRange (i : Z)
  | BlockRootUnavailable
  | InvalidEpochForAttestation
  | EpochUnsupportedFork
  | EpochSsz (e : SszError)
  | StateTransition (e : StateTransitionError).

(** [impl From<StateTransitionError> for EpochProcessingError]. *)
Definition epoch_error (e : StateTransitionError) : EpochProcessingError :=
  match e with
  | Ssz s => EpochSsz s
  | other => StateTransition other
  end.

(** ** The state *)
Record BeaconState : Type := mkBeaconState {
  genesis_time : Z;
  genesis_validators_root : bytes;
  slot : Z;
  fork : Fork;
  latest_block_header : BeaconBlockHeader;
  block_roots : list bytes;
  state_roots : list bytes;
  historical_roots : list bytes;
  eth1_data : Eth1Data;
  eth1_data_votes : list Eth1Data;
  eth1_deposit_index : Z;
  validators : list Validator;
  balances : list Z;
  randao_mixes : list bytes;
  slashings : list Z;
  previous_epoch_attestations : list PendingAttestation;
  current_epoch_attestations : list PendingAttestation;
  justification_bits : list bool;
  previous_justified_checkpoint : Checkpoint;
  current_justified_checkpoint : Checkpoint;
  finalized_checkpoint : Checkpoint;
}.

Definition with_slot (s : BeaconState) (x : Z) : BeaconState :=
  mkBeaconState (genesis_time s) (genesis_validators_root s) x (fork s) (latest_block_header
    s) (block_roots s) (state_roots s) (historical_roots s) (eth1_data s) (eth1_data_votes
    s) (eth1_deposit_index s) (validators s) (balances s) (randao_mixes s) (slashings s)
    (previous_epoch_attestations s) (current_epoch_attestations s) (justification_bits s)
    (previous_justified_checkpoint s) (current_justified_checkpoint s) (finalized_checkpoint
    s).
Definition with_latest_block_header (s : BeaconState) (x : BeaconBlockHeader) : BeaconState :=
  mkBeaconState (genesis_time s) (genesis_validators_root s) (slot s) (fork s) x
    (block_roots s) (state_roots s) (historical_roots s) (eth1_data s) (eth1_data_votes s)
    (eth1_deposit_index s) (validators s) (balances s) (randao_mixes s) (slashings s)
    (previous_epoch_attestations s) (current_epoch_attestations s) (justification_bits s)
    (previous_justified_checkpoint s) (current_justified_checkpoint s) (finalized_checkpoint
    s).
Definition with_block_roots (s : BeaconState) (x : list bytes) : BeaconState :=
  mkBeaconState (genesis_time s) (genesis_validators_root s) (slot s) (fork s)
    (latest_block_header s) x (state_roots s) (historical_roots s) (eth1_data s)
    (eth1_data_votes s) (eth1_deposit_index s) (validators s) (balances s) (randao_mixes s)
    (slashings s) (previous_epoch_attestations s) (current_epoch_attestations s)
    (justification_bits s) (previous_justified_checkpoint s) (current_justified_checkpoint
    s) (finalized_checkpoint s).
Definition with_state_roots (s : BeaconState) (x : list bytes) : BeaconState :=
  mkBeaconState (genesis_time s) (genesis_validators_root s) (slot s) (fork s)
    (latest_block_header s) (block_roots s) x (historical_roots s) (eth1_data s)
    (eth1_data_votes s) (eth1_deposit_index s) (validators s) (balances s) (randao_mixes s)
    (slashings s) (previous_epoch_attestations s) (current_epoch_attestations s)
    (justification_bits s) (previous_justified_checkpoint s) (current_justified_checkpoint
    s) (finalized_checkpoint s).
Definition with_historical_roots (s : BeaconState) (x : list bytes) : BeaconState :=
  mkBeaconState (genesis_time s) (genesis_validators_root s) (slot s) (fork s)
    (latest_block_header s) (block_roots s) (state_roots s) x (eth1_data s) (eth1_data_votes
    s) (eth1_deposit_index s) (validators s) (balances s) (randao_mixes s) (slashings s)
    (previous_epoch_attestations s) (current_epoch_attestations s) (justification_bits s)
    (previous_justified_checkpoint s) (current_justified_checkpoint s) (finalized_checkpoint
    s).
Definition with_eth1_data (s : BeaconState) (x : Eth1Data) : BeaconState :=
  mkBeaconState (genesis_time s) (genesis_validators_root s) (slot s) (fork s)
    (latest_block_header s) (block_roots s) (state_roots s) (historical_roots s) x
    (eth1_data_votes s) (eth1_deposit_index s) (validators s) (balances s) (randao_mixes s)
    (slashings s) (previous_epoch_attestations s) (current_epoch_attestations s)
    (justification_bits s) (previous_justified_checkpoint s) (current_justified_checkpoint
    s) (finalized_checkpoint s).
Definition with_eth1_data_votes (s : BeaconState) (x : list Eth1Data) : BeaconState :=
  mkBeaconState (genesis_time s) (genesis_validators_root s) (slot s) (fork s)
    (latest_block_header s) (block_roots s) (state_roots s) (historical_roots s) (eth1_data
    s) x (eth1_deposit_index s) (validators s) (balances s) (randao_mixes s) (slashings s)
    (previous_epoch_attestations s) (current_epoch_attestations s) (justification_bits s)
    (previous_justified_checkpoint s) (current_justified_checkpoint s) (finalized_checkpoint
    s).
Definition with_eth1_deposit_index (s : BeaconState) (x : Z) : BeaconState :=
  mkBeaconState (genesis_time s) (genesis_validators_root s) (slot s) (fork s)
    (latest_block_header s) (block_roots s) (state_roots s) (historical_roots s) (eth1_data
    s) (eth1_data_votes s) x (validators s) (balances s) (randao_mixes s) (slashings s)
    (previous_epoch_attestations s) (current_epoch_attestations s) (justification_bits s)
    (previous_justified_checkpoint s) (current_justified_checkpoint s) (finalized_checkpoint
    s).
Definition with_validators (s : BeaconState) (x : list Validator) : BeaconState :=
  mkBeaconState (genesis_time s) (genesis_validators_root s) (slot s) (fork s)
    (latest_block_header s) (block_roots s) (state_roots s) (historical_roots s) (eth1_data
    s) (eth1_data_votes s) (eth1_deposit_index s) x (balances s) (randao_mixes s) (slashings
    s) (previous_epoch_attestations s) (current_epoch_attestations s) (justification_bits s)
    (previous_justified_checkpoint s) (current_justified_checkpoint s) (finalized_checkpoint
    s).
Definition with_balances (s : BeaconState) (x : list Z) : BeaconState :=
  mkBeaconState (genesis_time s) (genesis_validators_root s) (slot s) (fork s)
    (latest_block_header s) (block_roots s) (state_roots s) (historical_roots s) (eth1_data
    s) (eth1_data_votes s) (eth1_deposit_index s) (validators s) x (randao_mixes s)
    (slashings s) (previous_epoch_attestations s) (current_epoch_attestations s)
    (justification_bits s) (previous_justified_checkpoint s) (current_justified_checkpoint
    s) (finalized_checkpoint s).
Definition with_randao_mixes (s : BeaconState) (x : list bytes) : BeaconState :=
  mkBeaconState (genesis_time s) (genesis_validators_root s) (slot s) (fork s)
    (latest_block_header s) (block_roots s) (state_roots s) (historical_roots s) (eth1_data
    s) (eth1_data_votes s) (eth1_deposit_index s) (validators s) (balances s) x (slashings
    s) (previous_epoch_attestations s) (current_epoch_attestations s) (justification_bits s)
    (previous_justified_checkpoint s) (current_justified_checkpoint s) (finalized_checkpoint
    s).
Definition with_slashings (s : BeaconState) (x : list Z) : BeaconState :=
  mkBeaconState (genesis_time s) (genesis_validators_root s) (slot s) (fork s)
    (latest_block_header s) (block_roots s) (state_roots s) (historical_roots s) (eth1_data
    s) (eth1_data_votes s) (eth1_deposit_index s) (validators s) (balances s) (randao_mixes
    s) x (previous_epoch_attestations s) (current_epoch_attestations s) (justification_bits
    s) (previous_justified_checkpoint s) (current_justified_checkpoint s)
    (finalized_checkpoint s).
Definition with_previous_epoch_attestations (s : BeaconState) (x : list PendingAttestation) : BeaconState :=
  mkBeaconState (genesis_time s) (genesis_validators_root s) (slot s) (fork s)
    (latest_block_header s) (block_roots s) (state_roots s) (historical_roots s) (eth1_data
    s) (eth1_data_votes s) (eth1_deposit_index s) (validators s) (balances s) (randao_mixes
    s) (slashings s) x (current_epoch_attestations s) (justification_bits s)
    (previous_justified_checkpoint s) (current_justified_checkpoint s) (finalized_checkpoint
    s).
Definition with_current_epoch_attestations (s : BeaconState) (x : list PendingAttestation) : BeaconState :=
  mkBeaconState (genesis_time s) (genesis_validators_root s) (slot s) (fork s)
    (latest_block_header s) (block_roots s) (state_roots s) (historical_roots s) (eth1_data
    s) (eth1_data_votes s) (eth1_deposit_index s) (validators s) (balances s) (randao_mixes
    s) (slashings s) (previous_epoch_attestations s) x (justification_bits s)
    (previous_justified_checkpoint s) (current_justified_checkpoint s) (finalized_checkpoint
    s).
Definition with_justification_bits (s : BeaconState) (x : list bool) : BeaconState :=
  mkBeaconState (genesis_time s) (genesis_validators_root s) (slot s) (fork s)
    (latest_block_header s) (block_roots s) (state_roots s) (historical_roots s) (eth1_data
    s) (eth1_data_votes s) (eth1_deposit_index s) (validators s) (balances s) (randao_mixes
    s) (slashings s) (previous_epoch_attestations s) (current_epoch_attestations s) x
    (previous_justified_checkpoint s) (current_justified_checkpoint s) (finalized_checkpoint
    s).
Definition with_previous_justified_checkpoint (s : BeaconState) (x : Checkpoint) : BeaconState :=
  mkBeaconState (genesis_time s) (genesis_validators_root s) (slot s) (fork s)
    (latest_block_header s) (block_roots s) (state_roots s) (historical_roots s) (eth1_data
    s) (eth1_data_votes s) (eth1_deposit_index s) (validators s) (balances s) (randao_mixes
    s) (slashings s) (previous_epoch_attestations s) (current_epoch_attestations s)
    (justification_bits s) x (current_justified_checkpoint s) (finalized_checkpoint s).
Definition with_current_justified_checkpoint (s : BeaconState) (x : Checkpoint) : BeaconState :=
  mkBeaconState (genesis_time s) (genesis_validators_root s) (slot s) (fork s)
    (latest_block_header s) (block_roots s) (state_roots s) (historical_roots s) (eth1_data
    s) (eth1_data_votes s) (eth1_deposit_index s) (validators s) (balances s) (randao_mixes
    s) (slashings s) (previous_epoch_attestations s) (current_epoch_attestations s)
    (justification_bits s) (previous_justified_checkpoint s) x (finalized_checkpoint s).
Definition with_finalized_checkpoint (s : BeaconState) (x : Checkpoint) : BeaconState :=
  mkBeaconState (genesis_time s) (genesis_validators_root s) (slot s) (fork s)
    (latest_block_header s) (block_roots s) (state_roots s) (historical_roots s) (eth1_data
    s) (eth1_data_votes s) (eth1_deposit_index s) (validators s) (balances s) (randao_mixes
    s) (slashings s) (previous_epoch_attestations s) (current_epoch_attestations s)
    (justification_bits s) (previous_justified_checkpoint s) (current_justified_checkpoint
    s) x.

(** ** Collections *)
Section collections.
  Context {T : Type}.

Definition list_with_set (l : list T) (i : Z) (v : T) : result SszError (list T) :=
  if zlen l <=? i then Err (OffsetOutOfRange i (sat_sub (zlen l) 1))
  else Ok (<[Z.to_nat i := v]> l).

Definition list_with_push (N : Z) (l : list T) (v : T) : result SszError (list T) :=
  if N <=? zlen l then Err (ListLimitExceeded (zlen l + 1) N) else Ok (l ++ [v]).

Definition vector_with_set (N : Z) (l : list T) (i : Z) (v : T) : result SszError (list T) :=
  if N <=? i then Err (OffsetOutOfRange i (wsub N 1)) else Ok (<[Z.to_nat i := v]> l).
End collections.

(** [Bitvector<4>::get(i).unwrap_or(false)] and [set] on the bits. *)
Definition bits_get (bits : list bool) (i : nat) : bool := default false (bits !! i).
Definition bits_set (bits : list bool) (i : nat) (b : bool) : list bool := <[i := b]> bits.

(** ** [BeaconStateView] *)
Definition validator (s : BeaconState) (i : Z) : option Validator := validators s !! Z.to_nat i.
Definition num_validators (s : BeaconState) : Z := zlen (validators s).
Definition balance_at (s : BeaconState) (i : Z) : option Z := balances s !! Z.to_nat i.
Definition block_root_at (s : BeaconState) (i : Z) : option bytes := block_roots s !! Z.to_nat i.
Definition randao_mix_at (s : BeaconState) (i : Z) : option bytes := randao_mixes s !! Z.to_nat i.

(** ** [BeaconStateWrite] *)
Section write.
  Context `{BeaconSpec}.
  Local Abbreviation outcome := (result StateTransitionError BeaconState).

Definition push_eth1_data_vote (s : BeaconState) (data : Eth1Data) : outcome :=
  l ← map_err Ssz (list_with_push ETH1_DATA_VOTES_LIMIT (eth1_data_votes s) data);
  Ok (with_eth1_data_votes s l).

Definition increment_eth1_deposit_index (s : BeaconState) : BeaconState :=
  with_eth1_deposit_index s (wadd (eth1_deposit_index s) 1).

Definition set_validator (s : BeaconState) (idx : Z) (v : Validator) : outcome :=
  l ← map_err Ssz (list_with_set (validators s) idx v); Ok (with_validators s l).

Definition push_validator (s : BeaconState) (v : Validator) : outcome :=
  l ← map_err Ssz (list_with_push VALIDATOR_REGISTRY_LIMIT (validators s) v);
  Ok (with_validators s l).

Definition set_balance (s : BeaconState) (idx val : Z) : outcome :=
  l ← map_err (fun _ => IndexOutOfRange idx) (list_with_set (balances s) idx val);
  Ok (with_balances s l).

Definition push_balance (s : BeaconState) (val : Z) : outcome :=
  l ← map_err Ssz (list_with_push VALIDATOR_REGISTRY_LIMIT (balances s) val);
  Ok (with_balances s l).

Definition set_slashing (s : BeaconState) (idx val : Z) : outcome :=
  l ← map_err Ssz (vector_with_set EPOCHS_PER_SLASHINGS_VECTOR (slashings s) idx val);
  Ok (with_slashings s l).

Definition set_randao_mix (s : BeaconState) (idx : Z) (mix : bytes) : outcome :=
  l ← map_err Ssz (vector_with_set EPOCHS_PER_HISTORICAL_VECTOR (randao_mixes s) idx mix);
  Ok (with_randao_mixes s l).

Definition push_current_epoch_attestation (s : BeaconState) (att : PendingAttestation) : outcome :=
  l ← map_err Ssz (list_with_push MAX_PENDING_ATTESTATIONS (current_epoch_attestations s) att);
  Ok (with_current_epoch_attestations s l).

Definition push_previous_epoch_attestation (s : BeaconState) (att : PendingAttestation) : outcome :=
  l ← map_err Ssz (list_with_push MAX_PENDING_ATTESTATIONS (previous_epoch_attestations s) att);
  Ok (with_previous_epoch_attestations s l).

Definition push_historical_root (s : BeaconState) (root : bytes) : outcome :=
  l ← map_err Ssz (list_with_push HISTORICAL_ROOTS_LIMIT (historical_roots s) root);
  Ok (with_historical_roots s l).

(** [SszList::from_vec(atts)?.into_tree()]. *)
Definition set_previous_epoch_attestations (s : BeaconState) (atts : list PendingAttestation)
    : outcome :=
  if MAX_PENDING_ATTESTATIONS <? zlen atts
  then Err (Ssz (ListLimitExceeded (zlen atts) MAX_PENDING_ATTESTATIONS))
  else Ok (with_previous_epoch_attestations s atts).

Definition clear_current_epoch_attestations (s : BeaconState) : BeaconState :=
  with_current_epoch_attestations s [].
Definition clear_eth1_data_votes (s : BeaconState) : BeaconState := with_eth1_data_votes s [].

Definition set_state_root (s : BeaconState) (idx : Z) (root : bytes) : outcome :=
  l ← map_err Ssz (vector_with_set SLOTS_PER_HISTORICAL_ROOT (state_roots s) idx root);
  Ok (with_state_roots s l).

Definition set_block_root (s : BeaconState) (idx : Z) (root : bytes) : outcome :=
  l ← map_err Ssz (vector_with_set SLOTS_PER_HISTORICAL_ROOT (block_roots s) idx root);
  Ok (with_block_roots s l).
End write.
