(* ===== verification/Invariant.v ===== *)
(** * The type invariant of the beacon state

    What the field types of [BeaconState] and the way its values are built
    promise: lengths of the fixed-size vectors and limits of the lists, [u64]
    ranges, one balance per validator, effective balances that are multiples of
    the increment up to the maximum.  Every write of [BeaconStateWrite] keeps
    it; the lemmas are registered in the hint database [wf]. *)

From Stdlib Require Import ZArith Lia.
From S2P Require Import Prelude SszCodec SszBitfield SszTypes Spec BeaconState.

Create HintDb wf.

Section invariant.
  Context `{S : BeaconSpec}.
  Implicit Types s : BeaconState.

Record validator_ok (v : Validator) : Prop := {
  vok_balance : 0 <= v_effective_balance v <= MAX_EFFECTIVE_BALANCE;
  vok_increment : v_effective_balance v mod EFFECTIVE_BALANCE_INCREMENT = 0;
  vok_eligibility : u64 (v_activation_eligibility_epoch v);
  vok_activation : u64 (v_activation_epoch v);
  vok_exit : u64 (v_exit_epoch v);
  vok_withdrawable : u64 (v_withdrawable_epoch v);
}.

Record wf_state s : Prop := {
  wf_slot : u64 (slot s);
  wf_registry_limit : zlen (validators s) <= VALIDATOR_REGISTRY_LIMIT;
  wf_balances_length : length (balances s) = length (validators s);
  wf_validators : Forall validator_ok (validators s);
  wf_balances : Forall u64 (balances s);
  wf_block_roots : zlen (block_roots s) = SLOTS_PER_HISTORICAL_ROOT;
  wf_state_roots : zlen (state_roots s) = SLOTS_PER_HISTORICAL_ROOT;
  wf_randao_mixes : zlen (randao_mixes s) = EPOCHS_PER_HISTORICAL_VECTOR;
  wf_slashings_length : zlen (slashings s) = EPOCHS_PER_SLASHINGS_VECTOR;
  wf_slashings : Forall u64 (slashings s);
  wf_justification_bits : length (justification_bits s) = 4%nat;
  wf_eth1_votes : zlen (eth1_data_votes s) <= ETH1_DATA_VOTES_LIMIT;
  wf_previous_attestations : zlen (previous_epoch_attestations s) <= MAX_PENDING_ATTESTATIONS;
  wf_current_attestations : zlen (current_epoch_attestations s) <= MAX_PENDING_ATTESTATIONS;
  wf_historical_roots : zlen (historical_roots s) <= HISTORICAL_ROOTS_LIMIT;
  wf_deposit_index : u64 (eth1_deposit_index s);
}.

(** ** What the collection operations do *)
Lemma list_with_set_Ok {T} (l : list T) i v l' :
  list_with_set l i v = Ok l' <-> i < zlen l /\ l' = <[Z.to_nat i := v]> l.
Proof.
  unfold list_with_set. destruct (Z.leb_spec (zlen l) i); split; try done; try lia.
  - intros [= <-]. done.
  - by intros [_ ->].
Qed.

Lemma list_with_push_Ok {T} N (l : list T) v l' :
  list_with_push N l v = Ok l' <-> zlen l < N /\ l' = l ++ [v].
Proof.
  unfold list_with_push. destruct (Z.leb_spec N (zlen l)); split; try done; try lia.
  - intros [= <-]. done.
  - by intros [_ ->].
Qed.

Lemma vector_with_set_Ok {T} N (l : list T) i v l' :
  vector_with_set N l i v = Ok l' <-> i < N /\ l' = <[Z.to_nat i := v]> l.
Proof.
  unfold vector_with_set. destruct (Z.leb_spec N i); split; try done; try lia.
  - intros [= <-]. done.
  - by intros [_ ->].
Qed.

Lemma map_err_Ok {E F A} (f : E -> F) (m : result E A) a : map_err f m = Ok a <-> m = Ok a.
Proof. destruct m; cbn; naive_solver. Qed.

(** ** What a write changes *)
Lemma set_validator_Ok s i v s' :
  set_validator s i v = Ok s' <->
  i < zlen (validators s) /\ s' = with_validators s (<[Z.to_nat i := v]> (validators s)).
Proof.
  unfold set_validator. split.
  - intros (l & (? & ->)%map_err_Ok%list_with_set_Ok & [= <-])%bind_Ok_inv. done.
  - intros [? ->]. unfold list_with_set. destruct (Z.leb_spec (zlen (validators s)) i); [lia|done].
Qed.

Lemma set_balance_Ok s i b s' :
  set_balance s i b = Ok s' <->
  i < zlen (balances s) /\ s' = with_balances s (<[Z.to_nat i := b]> (balances s)).
Proof.
  unfold set_balance. split.
  - intros (l & (? & ->)%map_err_Ok%list_with_set_Ok & [= <-])%bind_Ok_inv. done.
  - intros [? ->]. unfold list_with_set. destruct (Z.leb_spec (zlen (balances s)) i); [lia|done].
Qed.

Lemma set_slashing_Ok s i x s' :
  set_slashing s i x = Ok s' <->
  i < EPOCHS_PER_SLASHINGS_VECTOR /\ s' = with_slashings s (<[Z.to_nat i := x]> (slashings s)).
Proof.
  unfold set_slashing. split.
  - intros (l & (? & ->)%map_err_Ok%vector_with_set_Ok & [= <-])%bind_Ok_inv. done.
  - intros [? ->]. unfold vector_with_set. by destruct (Z.leb_spec EPOCHS_PER_SLASHINGS_VECTOR i); [lia|].
Qed.

Lemma set_randao_mix_Ok s i x s' :
  set_randao_mix s i x = Ok s' <->
  i < EPOCHS_PER_HISTORICAL_VECTOR /\
  s' = with_randao_mixes s (<[Z.to_nat i := x]> (randao_mixes s)).
Proof.
  unfold set_randao_mix. split.
  - intros (l & (? & ->)%map_err_Ok%vector_with_set_Ok & [= <-])%bind_Ok_inv. done.
  - intros [? ->]. unfold vector_with_set. by destruct (Z.leb_spec EPOCHS_PER_HISTORICAL_VECTOR i); [lia|].
Qed.

Lemma set_state_root_Ok s i x s' :
  set_state_root s i x = Ok s' <->
  i < SLOTS_PER_HISTORICAL_ROOT /\ s' = with_state_roots s (<[Z.to_nat i := x]> (state_roots s)).
Proof.
  unfold set_state_root. split.
  - intros (l & (? & ->)%map_err_Ok%vector_with_set_Ok & [= <-])%bind_Ok_inv. done.
  - intros [? ->]. unfold vector_with_set. by destruct (Z.leb_spec SLOTS_PER_HISTORICAL_ROOT i); [lia|].
Qed.

Lemma set_block_root_Ok s i x s' :
  set_block_root s i x = Ok s' <->
  i < SLOTS_PER_HISTORICAL_ROOT /\ s' = with_block_roots s (<[Z.to_nat i := x]> (block_roots s)).
Proof.
  unfold set_block_root. split.
  - intros (l & (? & ->)%map_err_Ok%vector_with_set_Ok & [= <-])%bind_Ok_inv. done.
  - intros [? ->]. unfold vector_with_set. by destruct (Z.leb_spec SLOTS_PER_HISTORICAL_ROOT i); [lia|].
Qed.

(** ** The invariant is kept *)
Local Ltac keep :=
  let H := fresh in
  intros H; destruct H; constructor; cbn; auto;
  rewrite ?zlen_insert, ?length_insert, ?zlen_app; auto.

Lemma wf_set_slot s x : u64 x -> wf_state s -> wf_state (with_slot s x).
Proof. intros ?. keep. Qed.
Lemma wf_set_latest_block_header s x : wf_state s -> wf_state (with_latest_block_header s x).
Proof. keep. Qed.
Lemma wf_set_eth1_data s x : wf_state s -> wf_state (with_eth1_data s x).
Proof. keep. Qed.
Lemma wf_set_previous_justified s x : wf_state s -> wf_state (with_previous_justified_checkpoint s x).
Proof. keep. Qed.
Lemma wf_set_current_justified s x : wf_state s -> wf_state (with_current_justified_checkpoint s x).
Proof. keep. Qed.
Lemma wf_set_finalized s x : wf_state s -> wf_state (with_finalized_checkpoint s x).
Proof. keep. Qed.
Lemma wf_set_bits s x : length x = 4%nat -> wf_state s -> wf_state (with_justification_bits s x).
Proof. intros ?. keep. Qed.
Lemma wf_increment_deposit_index s : wf_state s -> wf_state (increment_eth1_deposit_index s).
Proof. keep. apply wadd_u64. Qed.
Lemma wf_clear_votes s : wf_state s -> wf_state (clear_eth1_data_votes s).
Proof. keep. unfold zlen in *. cbn. lia. Qed.
Lemma wf_clear_current_attestations s : wf_state s -> wf_state (clear_current_epoch_attestations s).
Proof. keep. unfold zlen in *. cbn. lia. Qed.

Lemma wf_set_validator s i v s' :
  wf_state s -> validator_ok v -> set_validator s i v = Ok s' -> wf_state s'.
Proof.
  intros Hw Hv [? ->]%set_validator_Ok. revert Hw. keep. by apply Forall_insert.
Qed.

Lemma wf_set_balance s i b s' : wf_state s -> u64 b -> set_balance s i b = Ok s' -> wf_state s'.
Proof. intros Hw Hb [? ->]%set_balance_Ok. revert Hw. keep. by apply Forall_insert. Qed.

Lemma wf_set_slashing s i x s' : wf_state s -> u64 x -> set_slashing s i x = Ok s' -> wf_state s'.
Proof. intros Hw Hb [? ->]%set_slashing_Ok. revert Hw. keep. by apply Forall_insert. Qed.

Lemma wf_set_randao_mix s i x s' : wf_state s -> set_randao_mix s i x = Ok s' -> wf_state s'.
Proof. intros Hw [? ->]%set_randao_mix_Ok. revert Hw. keep. Qed.

Lemma wf_set_state_root s i x s' : wf_state s -> set_state_root s i x = Ok s' -> wf_state s'.
Proof. intros Hw [? ->]%set_state_root_Ok. revert Hw. keep. Qed.

Lemma wf_set_block_root s i x s' : wf_state s -> set_block_root s i x = Ok s' -> wf_state s'.
Proof. intros Hw [? ->]%set_block_root_Ok. revert Hw. keep. Qed.

Lemma wf_push_eth1_data_vote s x s' : wf_state s -> push_eth1_data_vote s x = Ok s' -> wf_state s'.
Proof.
  intros Hw (l & (? & ->)%map_err_Ok%list_with_push_Ok & [= <-])%bind_Ok_inv. revert Hw. keep.
  change (zlen [x]) with 1. lia.
Qed.

Lemma wf_push_historical_root s x s' : wf_state s -> push_historical_root s x = Ok s' -> wf_state s'.
Proof.
  intros Hw (l & (? & ->)%map_err_Ok%list_with_push_Ok & [= <-])%bind_Ok_inv. revert Hw. keep.
  change (zlen [x]) with 1. lia.
Qed.

Lemma wf_push_current_attestation s x s' :
  wf_state s -> push_current_epoch_attestation s x = Ok s' -> wf_state s'.
Proof.
  intros Hw (l & (? & ->)%map_err_Ok%list_with_push_Ok & [= <-])%bind_Ok_inv. revert Hw. keep.
  change (zlen [x]) with 1. lia.
Qed.

Lemma wf_push_previous_attestation s x s' :
  wf_state s -> push_previous_epoch_attestation s x = Ok s' -> wf_state s'.
Proof.
  intros Hw (l & (? & ->)%map_err_Ok%list_with_push_Ok & [= <-])%bind_Ok_inv. revert Hw. keep.
  change (zlen [x]) with 1. lia.
Qed.

Lemma wf_set_previous_attestations s x s' :
  wf_state s -> set_previous_epoch_attestations s x = Ok s' -> wf_state s'.
Proof.
  unfold set_previous_epoch_attestations. intros Hw.
  destruct (Z.ltb_spec MAX_PENDING_ATTESTATIONS (zlen x)); [done|]. intros [= <-]. revert Hw. keep.
Qed.

(** A new validator comes with its balance: the two pushes together. *)
Lemma wf_push_validator_balance s v b s1 s2 :
  wf_state s -> validator_ok v -> u64 b ->
  push_validator s v = Ok s1 -> push_balance s1 b = Ok s2 -> wf_state s2.
Proof.
  intros Hw Hv Hb (l & (? & ->)%map_err_Ok%list_with_push_Ok & [= <-])%bind_Ok_inv
    (l2 & (? & ->)%map_err_Ok%list_with_push_Ok & [= <-])%bind_Ok_inv. revert Hw. keep.
  - change (zlen [v]) with 1. lia.
  - rewrite !length_app. cbn in *. lia.
  - apply Forall_app; auto.
  - apply Forall_app; auto.
Qed.

Lemma wf_validator s i v : wf_state s -> validator s i = Some v -> validator_ok v.
Proof. intros [] Hv. by eapply Forall_lookup_1. Qed.

Lemma wf_balance_at s i b : wf_state s -> balance_at s i = Some b -> u64 b.
Proof. intros [] Hb. eapply (Forall_lookup_1 u64); [|done]. done. Qed.
End invariant.

#[export] Hint Resolve wf_set_slot wf_set_latest_block_header wf_set_eth1_data
  wf_set_previous_justified wf_set_current_justified wf_set_finalized wf_set_bits
  wf_increment_deposit_index wf_clear_votes wf_clear_current_attestations wf_set_validator
  wf_set_balance wf_set_slashing wf_set_randao_mix wf_set_state_root wf_set_block_root
  wf_push_eth1_data_vote wf_push_historical_root wf_push_current_attestation
  wf_push_previous_attestation wf_set_previous_attestations wf_push_validator_balance
  wf_validator wf_balance_at : wf.
