(* ===== verification/Roots.v ===== *)
(** * Merkle roots of the phase 0 containers

    [tree_hash_root] as [#[derive(TreeHash)]]
    (crates/pharos-ssz-derive/src/lib.rs) and the implementations of
    pharos-ssz generate it for the containers the state transition hashes,
    with the block containers of crates/pharos-types/src/phase0/block.rs. *)

From Stdlib Require Import ZArith Lia.
From S2P Require Import Prelude SszCodec SszBitfield SszTypes Merkle SszTree Spec BeaconState.

(** ** Blocks *)
Record BeaconBlockBody : Type := mkBeaconBlockBody {
  body_randao_reveal : bytes;
  body_eth1_data : Eth1Data;
  body_graffiti : bytes;
  body_proposer_slashings : list ProposerSlashing;
  body_attester_slashings : list AttesterSlashing;
  body_attestations : list Attestation;
  body_deposits : list Deposit;
  body_voluntary_exits : list SignedVoluntaryExit;
}.

Record BeaconBlock : Type := mkBeaconBlock {
  b_slot : Z;
  b_proposer_index : Z;
  b_parent_root : bytes;
  b_state_root : bytes;
  b_body : BeaconBlockBody;
}.

Record DepositMessage : Type := mkDepositMessage {
  dm_pubkey : bytes;
  dm_withdrawal_credentials : bytes;
  dm_amount : Z;
}.

Record SigningData : Type := mkSigningData {
  sd_object_root : bytes;
  sd_domain : bytes;
}.

Section roots.
  Context `{Crypto}.
  Local Abbreviation root := (result SszError bytes).

(** ** Basic types and collections *)
Definition u64_root (v : Z) : root := Ok (pad32 (to_le_bytes 8 v)).
Definition bool_root (b : bool) : root := Ok (pad32 [if b then Byte.x01 else Byte.x00]).

(** [FixedBytes<N>]. *)
Definition fixed_bytes_root (b : bytes) : root := merkleize sha256 (pack_bytes_to_chunks b).

Definition hash256_tree_hash : TreeHash bytes :=
  mkTreeHash bytes Basic true 32 (fun b => b) (fun b => b).

(** [Bitlist<N>]. *)
Definition bitlist_root (N : Z) (bl : Bitlist) : root :=
  data ← slice (bl_data bl) 0 (div_ceil (bit_len bl) 8);
  r ← merkleize_padded sha256 (pack_bytes_to_chunks data) (div_ceil N 256);
  Ok (mix_in_length sha256 r (bit_len bl)).

(** [Bitvector<4>] on its bits: one byte, one chunk. *)
Definition bits_byte (bits : list bool) : byte :=
  byte.of_Z (foldr (fun (b : bool) acc => (if b then 1 else 0) + 2 * acc) 0 bits).
Definition bitvector4_root (bits : list bool) : root :=
  merkleize_padded sha256 (pack_bytes_to_chunks [bits_byte bits]) 1.

(** [SszList<T, N>] of composite elements. *)
Definition list_root {T} (N : Z) (elem_root : T -> root) (l : list T) : root :=
  roots ← mapM elem_root l;
  r ← merkleize_padded sha256 roots N;
  Ok (mix_in_length sha256 r (zlen l)).

(** [SszList<T, N>] and [SszVector<T, N>] of basic elements. *)
Definition basic_list_root {T} (th : TreeHash T) (N : Z) (l : list T) : root :=
  r ← flat_list_root sha256 th N l;
  Ok (mix_in_length sha256 r (zlen l)).
Definition basic_vector_root {T} (th : TreeHash T) (l : list T) : root :=
  flat_vector_root sha256 th l.

(** The derived [tree_hash_root] of a container. *)
Definition derive_tree_hash_root (field_roots : list root) : root :=
  roots ← mapM id field_roots; merkleize sha256 roots.

(** ** Containers *)
Definition fork_root (f : Fork) : root :=
  derive_tree_hash_root [fixed_bytes_root (fork_previous_version f);
    fixed_bytes_root (fork_current_version f); u64_root (fork_epoch f)].
Definition fork_data_root (f : ForkData) : root :=
  derive_tree_hash_root [fixed_bytes_root (fd_current_version f);
    fixed_bytes_root (fd_genesis_validators_root f)].
Definition checkpoint_root (c : Checkpoint) : root :=
  derive_tree_hash_root [u64_root (cp_epoch c); fixed_bytes_root (cp_root c)].
Definition validator_root (v : Validator) : root :=
  derive_tree_hash_root [fixed_bytes_root (v_pubkey v);
    fixed_bytes_root (v_withdrawal_credentials v); u64_root (v_effective_balance v);
    bool_root (v_slashed v); u64_root (v_activation_eligibility_epoch v);
    u64_root (v_activation_epoch v); u64_root (v_exit_epoch v); u64_root (v_withdrawable_epoch v)].
Definition attestation_data_root (d : AttestationData) : root :=
  derive_tree_hash_root [u64_root (ad_slot d); u64_root (ad_index d);
    fixed_bytes_root (ad_beacon_block_root d); checkpoint_root (ad_source d);
    checkpoint_root (ad_target d)].
Definition eth1_data_root (d : Eth1Data) : root :=
  derive_tree_hash_root [fixed_bytes_root (e1_deposit_root d); u64_root (e1_deposit_count d);
    fixed_bytes_root (e1_block_hash d)].
Definition header_root (h : BeaconBlockHeader) : root :=
  derive_tree_hash_root [u64_root (bh_slot h); u64_root (bh_proposer_index h);
    fixed_bytes_root (bh_parent_root h); fixed_bytes_root (bh_state_root h);
    fixed_bytes_root (bh_body_root h)].
Definition deposit_message_root (m : DepositMessage) : root :=
  derive_tree_hash_root [fixed_bytes_root (dm_pubkey m);
    fixed_bytes_root (dm_withdrawal_credentials m); u64_root (dm_amount m)].
Definition deposit_data_root (d : DepositData) : root :=
  derive_tree_hash_root [fixed_bytes_root (dd_pubkey d);
    fixed_bytes_root (dd_withdrawal_credentials d); u64_root (dd_amount d);
    fixed_bytes_root (dd_signature d)].
Definition voluntary_exit_root (e : VoluntaryExit) : root :=
  derive_tree_hash_root [u64_root (ve_epoch e); u64_root (ve_validator_index e)].
Definition signing_data_root (d : SigningData) : root :=
  derive_tree_hash_root [fixed_bytes_root (sd_object_root d); fixed_bytes_root (sd_domain d)].

Section limits.
  Context `{BeaconSpec}.

Definition pending_attestation_root (a : PendingAttestation) : root :=
  derive_tree_hash_root [bitlist_root MAX_VALIDATORS_PER_COMMITTEE (pa_aggregation_bits a);
    attestation_data_root (pa_data a); u64_root (pa_inclusion_delay a);
    u64_root (pa_proposer_index a)].
Definition indexed_attestation_root (a : IndexedAttestation) : root :=
  derive_tree_hash_root
    [basic_list_root u64_tree_hash MAX_VALIDATORS_PER_COMMITTEE (ia_attesting_indices a);
     attestation_data_root (ia_data a); fixed_bytes_root (ia_signature a)].
Definition signed_header_root (h : SignedBeaconBlockHeader) : root :=
  derive_tree_hash_root [header_root (sbh_message h); fixed_bytes_root (sbh_signature h)].
Definition proposer_slashing_root (s : ProposerSlashing) : root :=
  derive_tree_hash_root [signed_header_root (ps_signed_header_1 s);
    signed_header_root (ps_signed_header_2 s)].
Definition attester_slashing_root (s : AttesterSlashing) : root :=
  derive_tree_hash_root [indexed_attestation_root (as_attestation_1 s);
    indexed_attestation_root (as_attestation_2 s)].
Definition attestation_root (a : Attestation) : root :=
  derive_tree_hash_root [bitlist_root MAX_VALIDATORS_PER_COMMITTEE (att_aggregation_bits a);
    attestation_data_root (att_data a); fixed_bytes_root (att_signature a)].
Definition deposit_root (d : Deposit) : root :=
  derive_tree_hash_root [basic_vector_root hash256_tree_hash (dep_proof d);
    deposit_data_root (dep_data d)].
Definition signed_voluntary_exit_root (e : SignedVoluntaryExit) : root :=
  derive_tree_hash_root [voluntary_exit_root (sve_message e); fixed_bytes_root (sve_signature e)].

Definition body_root (b : BeaconBlockBody) : root :=
  derive_tree_hash_root
    [fixed_bytes_root (body_randao_reveal b); eth1_data_root (body_eth1_data b);
     fixed_bytes_root (body_graffiti b);
     list_root MAX_PROPOSER_SLASHINGS proposer_slashing_root (body_proposer_slashings b);
     list_root MAX_ATTESTER_SLASHINGS attester_slashing_root (body_attester_slashings b);
     list_root MAX_ATTESTATIONS attestation_root (body_attestations b);
     list_root MAX_DEPOSITS deposit_root (body_deposits b);
     list_root MAX_VOLUNTARY_EXITS signed_voluntary_exit_root (body_voluntary_exits b)].

Definition historical_batch_root (block_roots state_roots : list bytes) : root :=
  derive_tree_hash_root [basic_vector_root hash256_tree_hash block_roots;
    basic_vector_root hash256_tree_hash state_roots].

Definition state_root (s : BeaconState) : root :=
  derive_tree_hash_root
    [u64_root (genesis_time s); fixed_bytes_root (genesis_validators_root s);
     u64_root (slot s); fork_root (fork s); header_root (latest_block_header s);
     basic_vector_root hash256_tree_hash (block_roots s);
     basic_vector_root hash256_tree_hash (state_roots s);
     basic_list_root hash256_tree_hash HISTORICAL_ROOTS_LIMIT (historical_roots s);
     eth1_data_root (eth1_data s);
     list_root ETH1_DATA_VOTES_LIMIT eth1_data_root (eth1_data_votes s);
     u64_root (eth1_deposit_index s);
     list_root VALIDATOR_REGISTRY_LIMIT validator_root (validators s);
     basic_list_root u64_tree_hash VALIDATOR_REGISTRY_LIMIT (balances s);
     basic_vector_root hash256_tree_hash (randao_mixes s);
     basic_vector_root u64_tree_hash (slashings s);
     list_root MAX_PENDING_ATTESTATIONS pending_attestation_root (previous_epoch_attestations s);
     list_root MAX_PENDING_ATTESTATIONS pending_attestation_root (current_epoch_attestations s);
     bitvector4_root (justification_bits s);
     checkpoint_root (previous_justified_checkpoint s);
     checkpoint_root (current_justified_checkpoint s);
     checkpoint_root (finalized_checkpoint s)].
End limits.
End roots.
