(* ===== verification/Accessors.v ===== *)
(** * Accessors and predicates of the phase 0 state

    crates/pharos-stf/src/phase0/{helpers,accessors,predicates}.rs.  A function
    that returns a plain value in the source has a [result] here whose only
    other outcome is [Panic]. *)

From Stdlib Require Import ZArith Lia.
From stdpp Require Import sorting.
From S2P Require Import Prelude SszCodec SszBitfield SszTypes Merkle SszTree Shuffling Spec BeaconState Roots.

(** ** Constants and helpers (helpers.rs) *)
Definition FAR_FUTURE_EPOCH : Z := u64_max.
Definition GENESIS_EPOCH : Z := 0.
Definition DOMAIN_BEACON_PROPOSER : bytes := [Byte.x00; Byte.x00; Byte.x00; Byte.x00].
Definition DOMAIN_BEACON_ATTESTER : bytes := [Byte.x01; Byte.x00; Byte.x00; Byte.x00].
Definition DOMAIN_RANDAO : bytes := [Byte.x02; Byte.x00; Byte.x00; Byte.x00].
Definition DOMAIN_DEPOSIT : bytes := [Byte.x03; Byte.x00; Byte.x00; Byte.x00].
Definition DOMAIN_VOLUNTARY_EXIT : bytes := [Byte.x04; Byte.x00; Byte.x00; Byte.x00].
Definition UINT64_MAX_SQRT : Z := 4294967295.

(** [while y < x { x = y; y = (x + n / x) / 2; }]. *)
Fixpoint sqrt_loop (fuel : nat) (n x y : Z) : option Z :=
  if y <? x then
    match fuel with
    | O => None
    | S fuel => sqrt_loop fuel n y (wadd y (n / y) / 2)
    end
  else Some x.

(** 128 rounds are enough for every [u64] ([integer_squareroot_Ok]). *)
Definition integer_squareroot {E} (n : Z) : result E Z :=
  if n =? u64_max then Ok UINT64_MAX_SQRT
  else expect (sqrt_loop 128 n n (wadd n 1 / 2)).

Definition xor (a b : bytes) : bytes :=
  zip_with (fun x y => byte.of_Z (Z.lxor (byte.unsigned x) (byte.unsigned y))) a b.

(** A [tree_hash_root]: it has no error outcome. *)
Definition root_value {E} (r : result SszError bytes) : result E bytes :=
  match r with Ok b => Ok b | _ => Panic end.

(** ** Slots and epochs *)
Definition compute_epoch_at_slot (slot slots_per_epoch : Z) : Z := slot / slots_per_epoch.
Definition compute_start_slot_at_epoch (epoch slots_per_epoch : Z) : Z :=
  wmul epoch slots_per_epoch.
Definition compute_activation_exit_epoch (epoch max_seed_lookahead : Z) : Z :=
  wadd (wadd epoch 1) max_seed_lookahead.

(** ** Predicates that need no preset (predicates.rs) *)
Definition is_active_validator (v : Validator) (epoch : Z) : bool :=
  (v_activation_epoch v <=? epoch) && (epoch <? v_exit_epoch v).

Definition is_eligible_for_activation (finalized_epoch : Z) (v : Validator) : bool :=
  (v_activation_eligibility_epoch v <=? finalized_epoch)
  && (v_activation_epoch v =? FAR_FUTURE_EPOCH).

Definition is_slashable_validator (v : Validator) (epoch : Z) : bool :=
  negb (v_slashed v) && (v_activation_epoch v <=? epoch) && (epoch <? v_withdrawable_epoch v).

#[global] Instance Checkpoint_eq_dec : EqDecision Checkpoint.
Proof. solve_decision. Defined.
#[global] Instance AttestationData_eq_dec : EqDecision AttestationData.
Proof. solve_decision. Defined.
#[global] Instance Eth1Data_eq_dec : EqDecision Eth1Data.
Proof. solve_decision. Defined.
#[global] Instance BeaconBlockHeader_eq_dec : EqDecision BeaconBlockHeader.
Proof. solve_decision. Defined.

Definition is_slashable_attestation_data (d1 d2 : AttestationData) : bool :=
  (bool_decide (d1 <> d2) && (cp_epoch (ad_target d1) =? cp_epoch (ad_target d2)))
  || ((cp_epoch (ad_source d1) <? cp_epoch (ad_source d2))
      && (cp_epoch (ad_target d2) <? cp_epoch (ad_target d1))).

(** ** State accessors *)
Section accessors.
  Context `{Crypto} `{BeaconSpec} {E : Type}.
  Implicit Types s : BeaconState.

Definition get_current_epoch s : Z := compute_epoch_at_slot (slot s) SLOTS_PER_EPOCH.

Definition get_previous_epoch s : Z :=
  let current := get_current_epoch s in
  if current =? GENESIS_EPOCH then GENESIS_EPOCH else wsub current 1.

Definition get_block_root_at_slot s (sl : Z) : result StateTransitionError bytes :=
  if negb ((sl <? slot s) && (slot s <=? wadd sl SLOTS_PER_HISTORICAL_ROOT))
  then Err SlotOutOfRange
  else ok_or (block_root_at s (sl mod SLOTS_PER_HISTORICAL_ROOT)) SlotOutOfRange.

Definition get_block_root s (epoch : Z) : result StateTransitionError bytes :=
  get_block_root_at_slot s (compute_start_slot_at_epoch epoch SLOTS_PER_EPOCH).

Definition get_randao_mix s (epoch : Z) : bytes :=
  default zero_chunk (randao_mix_at s (epoch mod EPOCHS_PER_HISTORICAL_VECTOR)).

(** [validators_iter().enumerate()] from index [i]. *)
Fixpoint enumerate_from {A} (i : Z) (l : list A) : list (Z * A) :=
  match l with
  | [] => []
  | a :: l => (i, a) :: enumerate_from (i + 1) l
  end.
Definition enumerate {A} (l : list A) : list (Z * A) := enumerate_from 0 l.

Definition get_active_validator_indices s (epoch : Z) : list Z :=
  omap (fun '(i, v) => if is_active_validator v epoch then Some i else None)
    (enumerate (validators s)).

Definition get_validator_churn_limit s : Z :=
  let active := get_active_validator_indices s (get_current_epoch s) in
  Z.max (zlen active / CHURN_LIMIT_QUOTIENT) MIN_PER_EPOCH_CHURN_LIMIT.

Definition get_seed s (epoch : Z) (domain_type : bytes) : bytes :=
  let mix_epoch := wsub (wsub (wadd epoch EPOCHS_PER_HISTORICAL_VECTOR) MIN_SEED_LOOKAHEAD) 1 in
  let mix := get_randao_mix s mix_epoch in
  sha256 (domain_type ++ to_le_bytes 8 epoch ++ mix).

Definition get_committee_count_per_slot s (epoch : Z) : Z :=
  let active := get_active_validator_indices s epoch in
  Z.min (Z.max (zlen active / SLOTS_PER_EPOCH / TARGET_COMMITTEE_SIZE) 1) MAX_COMMITTEES_PER_SLOT.

Definition compute_committee (indices : list Z) (seed : bytes) (idx count round_count : Z)
    : result E (list Z) :=
  let n := zlen indices in
  if count =? 0 then Panic
  else
    let first := wmul n idx / count in
    let last := wmul n (wadd idx 1) / count in
    mapM (fun i => shuffled ← compute_shuffled_index sha256 i n seed round_count;
                   index indices shuffled)
      (seqZ first (last - first)).

Definition get_beacon_committee s (sl idx : Z) : result E (list Z) :=
  let epoch := compute_epoch_at_slot sl SLOTS_PER_EPOCH in
  let committees_per_slot := get_committee_count_per_slot s epoch in
  let active := get_active_validator_indices s epoch in
  let seed := get_seed s epoch DOMAIN_BEACON_ATTESTER in
  let committee_index := wadd (wmul (sl mod SLOTS_PER_EPOCH) committees_per_slot) idx in
  let committee_count := wmul committees_per_slot SLOTS_PER_EPOCH in
  compute_committee active seed committee_index committee_count SHUFFLE_ROUND_COUNT.

(** One turn of the loop of [compute_proposer_index]: the next counter, or the
    outcome. *)
Definition proposer_step s (indices : list Z) (seed : bytes) (i : Z) : Z + result E Z :=
  let total := zlen indices in
  let turn : result E (Z * bool) :=
    shuffled_i ← compute_shuffled_index sha256 (i mod total) total seed SHUFFLE_ROUND_COUNT;
    candidate_index ← index indices shuffled_i;
    random_byte ← index (sha256 (seed ++ to_le_bytes 8 (i / 32))) (i mod 32);
    v ← expect (validator s candidate_index);
    Ok (candidate_index,
        wmul MAX_EFFECTIVE_BALANCE (byte.unsigned random_byte)
        <=? wmul (v_effective_balance v) 255) in
  match turn with
  | Ok (candidate_index, accepted) =>
      if accepted : bool then inr (Ok candidate_index) else inl (wadd i 1)
  | Err e => inr (Err e)
  | Panic => inr Panic
  end.

(** The counter is a [u64] that wraps: after [2^64] turns without a return it
    is back at zero and the loop never returns ([Panic]). *)
Definition compute_proposer_index s (indices : list Z) (seed : bytes) : result E Z :=
  if zlen indices =? 0 then Panic
  else
    match loop_upto (2 ^ 64)%positive (proposer_step s indices seed) 0 with
    | inr r => r
    | inl _ => Panic
    end.

Definition get_beacon_proposer_index s : result E Z :=
  let epoch := get_current_epoch s in
  let seed_base := get_seed s epoch DOMAIN_BEACON_PROPOSER in
  let seed := sha256 (seed_base ++ to_le_bytes 8 (slot s)) in
  let indices := get_active_validator_indices s epoch in
  compute_proposer_index s indices seed.

(** [.sum::<u64>()]. *)
Definition wsum (l : list Z) : Z := foldl wadd 0 l.

Definition get_total_balance s (indices : list Z) : Z :=
  let sum := wsum ((fun i => default 0 (v_effective_balance <$> validator s i)) <$> indices) in
  Z.max sum EFFECTIVE_BALANCE_INCREMENT.

Definition get_total_active_balance s : Z :=
  let epoch := get_current_epoch s in
  let sum := wsum (v_effective_balance <$>
    filter (fun v => is_active_validator v epoch = true) (validators s)) in
  Z.max sum EFFECTIVE_BALANCE_INCREMENT.

(** ** Domains and signing roots *)
Definition compute_fork_data_root (current_version genesis_root : bytes) : result E bytes :=
  root_value (fork_data_root (mkForkData current_version genesis_root)).

Definition compute_domain (domain_type fork_version genesis_root : bytes) : result E bytes :=
  r ← compute_fork_data_root fork_version genesis_root;
  part ← slice r 0 28;
  Ok (domain_type ++ part).

Definition get_domain s (domain_type : bytes) (epoch : option Z) : result E bytes :=
  let epoch := default (get_current_epoch s) epoch in
  let fork_version :=
    if epoch <? fork_epoch (fork s) then fork_previous_version (fork s)
    else fork_current_version (fork s) in
  compute_domain domain_type fork_version (genesis_validators_root s).

Definition compute_signing_root (object_root : result SszError bytes) (domain : bytes)
    : result E bytes :=
  r ← root_value object_root;
  root_value (signing_data_root (mkSigningData r domain)).

(** ** Attestations *)
Definition get_attesting_indices s (data : AttestationData) (aggregation_bits : Bitlist)
    : result E (list Z) :=
  committee ← get_beacon_committee s (ad_slot data) (ad_index data);
  picked ← mapM (fun '(i, idx) =>
      match bl_get aggregation_bits i with
      | Ok b => Ok (if default false b then Some idx else None)
      | _ => Panic
      end) (enumerate committee);
  Ok (omap id picked).

Definition get_indexed_attestation s (attestation : Attestation) : result E IndexedAttestation :=
  attesting ← get_attesting_indices s (att_data attestation) (att_aggregation_bits attestation);
  let attesting := merge_sort Z.le attesting in
  if MAX_VALIDATORS_PER_COMMITTEE <? zlen attesting then Panic
  else Ok (mkIndexedAttestation attesting (att_data attestation) (att_signature attestation)).

Definition is_eligible_for_activation_queue (v : Validator) : bool :=
  (v_activation_eligibility_epoch v =? FAR_FUTURE_EPOCH)
  && (v_effective_balance v =? MAX_EFFECTIVE_BALANCE).

(** [for w in indices.windows(2) { if w[0] >= w[1] { return false; } }]. *)
Fixpoint strictly_increasing (l : list Z) : bool :=
  match l with
  | x :: (y :: _) as rest => negb (y <=? x) && strictly_increasing rest
  | _ => true
  end.

Definition is_valid_indexed_attestation s (att : IndexedAttestation) (verify_signatures : bool)
    : result E bool :=
  let indices := ia_attesting_indices att in
  if zlen indices =? 0 then Ok false
  else if negb (strictly_increasing indices) then Ok false
  else if negb verify_signatures then Ok true
  else
    let pubkeys := omap (fun i => v_pubkey <$> validator s i) indices in
    if negb (zlen pubkeys =? zlen indices) then Ok false
    else
      domain ← get_domain s DOMAIN_BEACON_ATTESTER (Some (cp_epoch (ad_target (ia_data att))));
      signing_root ← compute_signing_root (attestation_data_root (ia_data att)) domain;
      Ok (default false (bls_fast_aggregate_verify pubkeys signing_root (ia_signature att))).
End accessors.

Lemma wsum_no_wrap l : Forall (Z.le 0) l -> zsum l < U64 -> wsum l = zsum l.
Proof.
  intros Hl Hs. unfold wsum. enough (forall a, 0 <= a -> a + zsum l < U64 -> foldl wadd a l = a + zsum l) as Ha by (apply Ha; lia).
  clear Hs. induction Hl as [|x l Hx Hl IH]; intros a Ha Hs; [unfold zsum; cbn; lia|].
  pose proof (zsum_nonneg l Hl). unfold zsum in *. cbn [foldl foldr] in *.
  rewrite wadd_small by lia. rewrite IH by lia. lia.
Qed.


(** ** [integer_squareroot] is Newton's method and finds the root *)
Section square_root.
  Context (n : Z).
  Hypothesis n_range : 0 < n < u64_max.
  Local Abbreviation root := (Z.sqrt n).

Lemma root_spec : root * root <= n < (root + 1) * (root + 1).
Proof using n_range. apply (Z.sqrt_spec n). lia. Qed.

Lemma newton_above x : 0 < x -> root <= (x + n / x) / 2.
Proof using n_range.
  intros Hx. pose proof root_spec. pose proof (Z.sqrt_nonneg n).
  apply Z.div_le_lower_bound; [lia|].
  destruct (Z_le_gt_dec (2 * root) x).
  { pose proof (Z.div_pos n x ltac:(lia) Hx). lia. }
  enough (2 * root - x <= n / x) by lia.
  apply Z.div_le_lower_bound; [lia|]. pose proof (Z.square_nonneg (x - root)).
  replace (x * (2 * root - x)) with (root * root - (x - root) * (x - root)) by ring. lia.
Qed.

Lemma newton_halves x : root < x -> (x + n / x) / 2 - root <= (x - root) / 2.
Proof using n_range.
  intros Hx. pose proof root_spec. pose proof (Z.sqrt_nonneg n).
  assert (n / x <= root).
  { apply Z.lt_succ_r, Z.div_lt_upper_bound; [lia|]. nia. }
  replace (x - root) with (x + root + - root * 2) by lia. rewrite Z.div_add by lia.
  enough ((x + n / x) / 2 <= (x + root) / 2) by lia.
  apply Z.div_le_mono; lia.
Qed.

Lemma newton_no_overflow x : 0 < x <= n -> wadd x (n / x) = x + n / x.
Proof using n_range.
  intros. apply wadd_small. unfold u64_max in *. pose proof (Z.div_pos n x ltac:(lia) ltac:(lia)).
  assert (n / x <= n - x + 1) by (apply Z.div_le_upper_bound; nia). lia.
Qed.

Lemma sqrt_loop_spec fuel x :
  root <= x <= n -> 0 < root -> x - root < 2 ^ Z.of_nat fuel ->
  sqrt_loop fuel n x (wadd x (n / x) / 2) = Some root.
Proof using n_range.
  revert x. induction fuel as [|fuel IH]; intros x Hx Hr Hf.
  - assert (x = root) as -> by (cbn in Hf; lia).
    pose proof (newton_above root Hr). cbn. rewrite newton_no_overflow by lia.
    destruct (Z.ltb_spec ((root + n / root) / 2) root); [lia|done].
  - rewrite (newton_no_overflow x) by lia. cbn.
    pose proof (newton_above x ltac:(lia)).
    destruct (Z.ltb_spec ((x + n / x) / 2) x) as [Hlt|Hge].
    + assert (root < x) as Hrx by lia. pose proof (newton_halves x Hrx).
      apply IH; [lia|done|].
      rewrite Nat2Z.inj_succ, Z.pow_succ_r in Hf by lia.
      assert ((x - root) / 2 < 2 ^ Z.of_nat fuel) by (apply Z.div_lt_upper_bound; lia). lia.
    + destruct (Z.eq_dec x root) as [->|]; [done|]. pose proof (newton_halves x ltac:(lia)).
      assert ((x - root) / 2 < x - root) by (apply Z.div_lt; lia). lia.
Qed.
End square_root.

Lemma integer_squareroot_Ok {E} n : 0 <= n <= u64_max -> integer_squareroot (E:=E) n = Ok (Z.sqrt n).
Proof.
  intros Hn. unfold integer_squareroot. destruct (Z.eqb_spec n u64_max) as [->|]; [done|].
  destruct (Z.eq_dec n 0) as [->|]; [done|].
  assert (0 < Z.sqrt n) by (apply Z.sqrt_pos; lia).
  pose proof (Z.sqrt_le_lin n ltac:(lia)).
  replace (wadd n 1) with (wadd n (n / n)) by (rewrite Z.div_same; lia).
  rewrite sqrt_loop_spec; [done|lia|nia|done|].
  unfold u64_max, U64 in *. change (2 ^ Z.of_nat 128) with (2 ^ 128). lia.
Qed.

(** ** Enumeration and the active set *)
Section enumeration.
  Context {A : Type}.
  Implicit Types l : list A.

Lemma enumerate_from_lookup i l k :
  enumerate_from i l !! k = (fun a => (i + Z.of_nat k, a)) <$> l !! k.
Proof.
  revert i k; induction l as [|a l IH]; intros i k; [done|].
  destruct k as [|k]; cbn; [by rewrite Z.add_0_r|]. rewrite IH.
  destruct (l !! k); cbn; [|done]. do 2 f_equal. lia.
Qed.

Lemma length_enumerate_from i l : length (enumerate_from i l) = length l.
Proof. revert i; induction l; intros; cbn; auto. Qed.

Lemma elem_of_enumerate l i a : (i, a) ∈ enumerate l <-> 0 <= i /\ l !! Z.to_nat i = Some a.
Proof.
  unfold enumerate. rewrite list_elem_of_lookup. setoid_rewrite enumerate_from_lookup. split.
  - intros [k Hk]. destruct (l !! k) eqn:Hl; cbn in Hk; [|done]. injection Hk as <- <-.
    split; [lia|]. by rewrite Z.add_0_l, Nat2Z.id.
  - intros [Hi Hl]. exists (Z.to_nat i). rewrite Hl. cbn. do 2 f_equal. lia.
Qed.

Lemma NoDup_omap_enumerate_from (f : A -> bool) i l :
  NoDup (omap (fun '(i, a) => if f a then Some i else None) (enumerate_from i l)) /\
  forall j, j ∈ omap (fun '(i, a) => if f a then Some i else None) (enumerate_from i l) -> i <= j.
Proof.
  revert i; induction l as [|a l IH]; intros i; cbn.
  { split; [constructor|]. intros j Hj. inversion Hj. }
  destruct (IH (i + 1)) as [Hn Hle]. destruct (f a); cbn.
  - split; [constructor; [|done]; intros Hi%Hle; lia|].
    intros j [->|Hj%Hle]%elem_of_cons; lia.
  - split; [done|]. intros j Hj%Hle. lia.
Qed.
End enumeration.

Section active.
  Context `{BeaconSpec}.

Lemma elem_of_active s epoch i :
  i ∈ get_active_validator_indices s epoch <->
  0 <= i /\ exists v, validator s i = Some v /\ is_active_validator v epoch = true.
Proof.
  unfold get_active_validator_indices, validator. rewrite list_elem_of_omap. split.
  - intros ([j v] & Hj & Hv). apply elem_of_enumerate in Hj as [? Hl].
    destruct (is_active_validator v epoch) eqn:Ha; [|done]. injection Hv as ->. eauto.
  - intros (? & v & Hv & Ha). exists (i, v). rewrite elem_of_enumerate, Ha. done.
Qed.

Lemma NoDup_active s epoch : NoDup (get_active_validator_indices s epoch).
Proof. apply (NoDup_omap_enumerate_from (fun v => is_active_validator v epoch)). Qed.

Lemma active_count_bound s epoch :
  zlen (get_active_validator_indices s epoch) <= num_validators s.
Proof.
  unfold zlen, num_validators, zlen, get_active_validator_indices, enumerate. generalize 0.
  induction (validators s) as [|v l IH]; intros i; cbn; [done|].
  specialize (IH (i + 1)). destruct (is_active_validator v epoch); cbn [length]; lia.
Qed.
End active.

(** ** Committees are consecutive slices of one shuffled list *)
Section committees.
  Context `{Crypto} `{!CryptoOk _} {E : Type}.

Lemma concat_slices {A} (q : list A) (f : nat -> nat) k :
  f 0%nat = 0%nat -> (forall i, (f i <= f (S i))%nat) ->
  concat ((fun i => take (f (S i) - f i) (drop (f i) q)) <$> seq 0 k) = take (f k) q.
Proof.
  intros H0 Hm. induction k as [|k IH]; [by rewrite H0|].
  rewrite seq_S, fmap_app, concat_app, IH. cbn. rewrite app_nil_r.
  rewrite take_take_drop. f_equal. pose proof (Hm k). lia.
Qed.

Lemma mapM_lookup_slice {A} (g : Z -> result E A) (q : list A) first len :
  (forall i, 0 <= i < zlen q -> exists x, g i = Ok x /\ q !! Z.to_nat i = Some x) ->
  0 <= first -> 0 <= len -> first + len <= zlen q ->
  mapM g (seqZ first len) = Ok (take (Z.to_nat len) (drop (Z.to_nat first) q)).
Proof.
  intros Hg Hf Hl Hb. apply mapM_Ok_Forall2. apply Forall2_same_length_lookup. split.
  - rewrite length_seqZ, length_take, length_drop. unfold zlen in Hb. lia.
  - intros k i x Hi Hx. apply lookup_seqZ in Hi as [-> Hk].
    destruct (Hg (first + Z.of_nat k)) as (y & Hy & Hq); [lia|].
    rewrite lookup_take_lt, lookup_drop in Hx by lia. rewrite Hy.
    replace (Z.to_nat (first + Z.of_nat k)) with (Z.to_nat first + k)%nat in Hq by lia.
    congruence.
Qed.

(** The boundary [n * i / count] of committee [i]. *)
Definition committee_start (n count : Z) (i : nat) : nat := Z.to_nat (n * Z.of_nat i / count).

Lemma committee_start_mono n count i :
  0 <= n -> 0 < count -> (committee_start n count i <= committee_start n count (S i))%nat.
Proof.
  intros. unfold committee_start. apply Z2Nat.inj_le; [apply Z.div_pos; lia..|].
  apply Z.div_le_mono; nia.
Qed.

Lemma lookup_total_seqZ (l : list Z) : (fun r => l !!! Z.to_nat r) <$> seqZ 0 (zlen l) = l.
Proof.
  apply list_eq_same_length with (length l); [done|by rewrite length_fmap, length_seqZ; unfold zlen; lia|].
  intros k x y Hk Hx Hy. rewrite list_lookup_fmap in Hx.
  rewrite (proj2 (lookup_seqZ 0 (zlen l) k (Z.of_nat k))) in Hx by (unfold zlen; lia).
  cbn in Hx. injection Hx as <-. rewrite Nat2Z.id. by apply list_lookup_total_correct.
Qed.

(** Reading [indices] through the shuffle is reading one permutation of it. *)
Lemma shuffled_members (indices : list Z) seed rounds :
  zlen indices <= 2 ^ 40 ->
  exists q : list Z, q ≡ₚ indices /\ forall i, 0 <= i < zlen indices -> exists x,
    (shuffled ← compute_shuffled_index (E:=E) sha256 i (zlen indices) seed rounds;
     index indices shuffled) = Ok x /\ q !! Z.to_nat i = Some x.
Proof using CryptoOk0.
  intros Hn. pose proof (zlen_nonneg indices).
  destruct (decide (zlen indices = 0)) as [Hz|].
  { exists []. split; [|lia]. by rewrite (zlen_0_nil indices Hz). }
  destruct (shuffled_permutation_Ok sha256 sha256_length (E:=E) seed (zlen indices)
    ltac:(lia) rounds) as (p & _ & Hp & Hi).
  exists ((fun r => indices !!! Z.to_nat r) <$> p).
  split; [rewrite Hp; by rewrite lookup_total_seqZ|].
  intros i Hi0. destruct (Hi i Hi0) as (r & -> & Hpr). cbn [mbind result_bind].
  assert (r ∈ seqZ 0 (zlen indices)) as Hr by (rewrite <-Hp; by eapply list_elem_of_lookup_2).
  apply elem_of_seqZ in Hr.
  destruct (lookup_lt_is_Some_2 indices (Z.to_nat r)) as [x Hx]; [unfold zlen in Hr; lia|].
  exists x. split; [by apply index_Ok_iff; split; [lia|]|].
  rewrite list_lookup_fmap, Hpr. cbn. f_equal. by apply list_lookup_total_correct.
Qed.

Lemma compute_committee_slices indices seed count rounds :
  0 < count < U64 -> zlen indices <= 2 ^ 40 -> zlen indices * count < U64 ->
  exists q, q ≡ₚ indices /\
    forall i, (Z.of_nat i < count) ->
      compute_committee (E:=E) indices seed (Z.of_nat i) count rounds
      = Ok (take (committee_start (zlen indices) count (S i) - committee_start (zlen indices) count i)
              (drop (committee_start (zlen indices) count i) q)).
Proof using CryptoOk0.
  intros Hc Hn Hov. destruct (shuffled_members indices seed rounds Hn) as (q & Hq & Hg).
  exists q. split; [done|]. intros i Hi. unfold compute_committee.
  assert (zlen q = zlen indices) as Hqn by (unfold zlen; by rewrite Hq).
  set (n := zlen indices) in *. pose proof (zlen_nonneg indices : 0 <= n) as Hn0.
  destruct (Z.eqb_spec count 0); [lia|]. cbv zeta.
  rewrite (wadd_small (Z.of_nat i) 1) by (unfold U64 in *; lia).
  rewrite !wmul_small by nia.
  pose proof (committee_start_mono n count i Hn0 (proj1 Hc)) as Hm. unfold committee_start in *.
  replace (Z.of_nat (S i)) with (Z.of_nat i + 1) in * by lia.
  pose proof (Z.div_pos (n * Z.of_nat i) count ltac:(lia) ltac:(lia)).
  pose proof (Z.div_pos (n * (Z.of_nat i + 1)) count ltac:(lia) ltac:(lia)).
  assert (n * (Z.of_nat i + 1) / count <= n) by (apply Z.div_le_upper_bound; nia).
  rewrite (mapM_lookup_slice _ q); [|rewrite Hqn; done|lia|lia|rewrite Hqn; lia].
  do 2 f_equal. lia.
Qed.
End committees.

(** ** The committees of an epoch *)
Section epoch_committees.
  Context `{Crypto} `{!CryptoOk _} `{S : BeaconSpec} `{!SpecOk S} {E : Type}.
  Variable s : BeaconState.
  Hypothesis registry : num_validators s <= VALIDATOR_REGISTRY_LIMIT.

Lemma committee_count_bounds epoch :
  1 <= get_committee_count_per_slot s epoch <= MAX_COMMITTEES_PER_SLOT.
Proof using SpecOk0. unfold get_committee_count_per_slot. pose proof committees_pos. lia. Qed.

Lemma committee_total_bounds epoch :
  1 <= get_committee_count_per_slot s epoch * SLOTS_PER_EPOCH <= 2 ^ 20 /\
  wmul (get_committee_count_per_slot s epoch) SLOTS_PER_EPOCH
  = get_committee_count_per_slot s epoch * SLOTS_PER_EPOCH.
Proof using SpecOk0.
  pose proof (committee_count_bounds epoch). pose proof committees_pos.
  pose proof slots_per_epoch_pos.
  assert (1 <= get_committee_count_per_slot s epoch * SLOTS_PER_EPOCH <= 2 ^ 20) by nia.
  split; [done|]. apply wmul_small. unfold U64. lia.
Qed.

(** All committees of an epoch are consecutive slices of one permutation [q]
    of the active set. *)
Lemma beacon_committees_slices epoch :
  exists q, q ≡ₚ get_active_validator_indices s epoch /\
    let n := zlen (get_active_validator_indices s epoch) in
    let cps := get_committee_count_per_slot s epoch in
    let count := cps * SLOTS_PER_EPOCH in
    forall sl idx, compute_epoch_at_slot sl SLOTS_PER_EPOCH = epoch -> 0 <= idx < cps ->
      let i := Z.to_nat (sl mod SLOTS_PER_EPOCH * cps + idx) in
      (Z.of_nat i < count) /\
      get_beacon_committee (E:=E) s sl idx
      = Ok (take (committee_start n count (Datatypes.S i) - committee_start n count i)
              (drop (committee_start n count i) q)).
Proof using All.
  destruct (committee_total_bounds epoch) as [Hb Hw]. pose proof slots_per_epoch_pos.
  pose proof (committee_count_bounds epoch). pose proof committees_pos. pose proof registry_limit.
  pose proof (active_count_bound s epoch).
  pose proof (zlen_nonneg (get_active_validator_indices s epoch)).
  destruct (compute_committee_slices (E:=E) (get_active_validator_indices s epoch)
    (get_seed s epoch DOMAIN_BEACON_ATTESTER)
    (get_committee_count_per_slot s epoch * SLOTS_PER_EPOCH) SHUFFLE_ROUND_COUNT)
    as (q & Hq & Hc); [unfold U64; lia|lia|unfold U64; nia|].
  exists q. split; [done|]. cbv zeta. intros sl idx Hsl Hidx.
  pose proof (Z.mod_pos_bound sl SLOTS_PER_EPOCH slots_per_epoch_gt0) as Hmod.
  set (cps := get_committee_count_per_slot s epoch) in *.
  assert (0 <= sl mod SLOTS_PER_EPOCH * cps + idx < cps * SLOTS_PER_EPOCH) as Hi by nia.
  split; [lia|]. rewrite <-Hc by lia.
  unfold get_beacon_committee. rewrite Hsl. cbv zeta. fold cps. rewrite Hw.
  assert (0 <= sl mod SLOTS_PER_EPOCH * cps) by nia.
  rewrite wmul_small, wadd_small, Z2Nat.id by (unfold U64; lia). done.
Qed.

Lemma seqZ_pairs (m : Z) k :
  0 <= m -> concat ((fun a => (fun b => a * m + b) <$> seqZ 0 m) <$> seqZ 0 (Z.of_nat k))
            = seqZ 0 (Z.of_nat k * m).
Proof.
  intros Hm. induction k as [|k IH]; [done|].
  rewrite Nat2Z.inj_succ, <-Z.add_1_r, seqZ_app, fmap_app, concat_app, IH by lia.
  replace (seqZ (0 + Z.of_nat k) 1) with [Z.of_nat k] by (unfold seqZ; cbn; f_equal; lia).
  cbn [fmap list_fmap concat]. rewrite app_nil_r, Z.mul_add_distr_r, Z.mul_1_l, seqZ_app by lia.
  f_equal.
  rewrite Z.add_0_l, <-(Z.add_0_r (Z.of_nat k * m)) at 1. apply fmap_add_seqZ.
Qed.

(** The slots and committee indices of an epoch, in order. *)
Definition epoch_duties (epoch : Z) : list (Z * Z) :=
  concat ((fun j => (fun i => (epoch * SLOTS_PER_EPOCH + j, i)) <$>
    seqZ 0 (get_committee_count_per_slot s epoch)) <$> seqZ 0 SLOTS_PER_EPOCH).

Lemma elem_of_epoch_duties epoch sl i :
  (sl, i) ∈ epoch_duties epoch <->
  exists j, 0 <= j < SLOTS_PER_EPOCH /\ sl = epoch * SLOTS_PER_EPOCH + j /\
    0 <= i < get_committee_count_per_slot s epoch.
Proof.
  unfold epoch_duties. rewrite list_elem_of_In, in_concat. split.
  - intros (l & Hl & Hin). rewrite <-list_elem_of_In in Hl. rewrite <-list_elem_of_In in Hin.
    apply list_elem_of_fmap in Hl as (j & -> & [Hj ?]%elem_of_seqZ).
    apply list_elem_of_fmap in Hin as (i' & [= -> ->] & [? ?]%elem_of_seqZ).
    exists j. lia.
  - intros (j & Hj & -> & Hi).
    exists ((fun i => (epoch * SLOTS_PER_EPOCH + j, i)) <$>
      seqZ 0 (get_committee_count_per_slot s epoch)).
    split; rewrite <-list_elem_of_In.
    + apply list_elem_of_fmap. exists j. rewrite elem_of_seqZ. split; [done|lia].
    + apply list_elem_of_fmap. exists i. rewrite elem_of_seqZ. split; [done|lia].
Qed.

Lemma duty_positions epoch :
  0 <= epoch ->
  (fun '(sl, i) => sl mod SLOTS_PER_EPOCH * get_committee_count_per_slot s epoch + i)
    <$> epoch_duties epoch
  = seqZ 0 (SLOTS_PER_EPOCH * get_committee_count_per_slot s epoch).
Proof using SpecOk0.
  intros He. pose proof slots_per_epoch_gt0. pose proof (committee_count_bounds epoch).
  pose proof (seqZ_pairs (get_committee_count_per_slot s epoch) (Z.to_nat SLOTS_PER_EPOCH)) as Hs.
  rewrite Z2Nat.id in Hs by lia. rewrite <-Hs by lia.
  unfold epoch_duties. rewrite concat_fmap, <-list_fmap_compose. f_equal.
  apply list_fmap_ext. intros k j Hj. apply lookup_seqZ in Hj as [-> Hj]. cbn.
  rewrite <-list_fmap_compose. apply list_fmap_ext. intros k' i _. cbn.
  f_equal. f_equal. rewrite Z.add_comm, Z_mod_plus_full. apply Z.mod_small. lia.
Qed.

Lemma epoch_committees_Ok epoch :
  0 <= epoch ->
  exists committees,
    mapM (fun '(sl, i) => get_beacon_committee (E:=E) s sl i) (epoch_duties epoch) = Ok committees /\
    concat committees ≡ₚ get_active_validator_indices s epoch.
Proof using All.
  intros He. destruct (beacon_committees_slices epoch) as (q & Hq & Hc). cbv zeta in Hc.
  pose proof slots_per_epoch_pos. pose proof (committee_count_bounds epoch).
  pose proof (duty_positions epoch He) as Hpos.
  set (n := zlen (get_active_validator_indices s epoch)) in *.
  set (cps := get_committee_count_per_slot s epoch) in *. set (count := cps * SLOTS_PER_EPOCH) in *.
  set (piece := fun i => take (committee_start n count (Datatypes.S i) - committee_start n count i)
    (drop (committee_start n count i) q)).
  exists (piece <$> seq 0 (Z.to_nat count)). split.
  - apply mapM_Ok_Forall2.
    replace (seq 0 (Z.to_nat count)) with
      ((fun '(sl, i) => Z.to_nat (sl mod SLOTS_PER_EPOCH * cps + i)) <$> epoch_duties epoch).
    + rewrite Forall2_fmap_r, Forall2_fmap_r. apply Forall_Forall2_diag, Forall_forall.
      intros [sl i] (j & Hj & -> & Hi)%elem_of_epoch_duties. apply Hc; [|done].
      unfold compute_epoch_at_slot. rewrite Z.add_comm, Z.div_add by lia.
      rewrite Z.div_small by lia. lia.
    + transitivity (Z.to_nat <$> seqZ 0 (SLOTS_PER_EPOCH * cps)).
      { rewrite <-Hpos, <-list_fmap_compose. apply list_fmap_ext. by intros ? [] _. }
      unfold count. rewrite Z.mul_comm. unfold seqZ. rewrite <-list_fmap_compose.
      etransitivity; [|apply list_fmap_id]. apply list_fmap_ext. intros ? ? _. cbn. lia.
  - unfold piece. rewrite concat_slices.
    + rewrite <-Hq. rewrite take_ge; [done|]. unfold committee_start. rewrite Z2Nat.id by lia.
      rewrite Z.div_mul by lia. unfold n, zlen. rewrite <-Hq. lia.
    + unfold committee_start. by rewrite Z.mul_0_r, Z.div_0_l by lia.
    + intros. apply committee_start_mono; [apply zlen_nonneg|lia].
Qed.
End epoch_committees.

(** ** Proposer selection *)
Section proposer.
  Context `{Crypto} `{!CryptoOk _} `{S : BeaconSpec} `{!SpecOk S} {E : Type}.
  Variables (s : BeaconState) (indices : list Z) (seed : bytes).
  Hypothesis count_bound : 0 < zlen indices <= 2 ^ 40.
  Hypothesis in_registry : forall i, i ∈ indices -> exists v, validator s i = Some v /\
    0 <= v_effective_balance v <= MAX_EFFECTIVE_BALANCE.
  Local Abbreviation step := (proposer_step (E:=E) s indices seed).

(** A turn accepts the candidate or goes on; it accepts one with the maximum
    effective balance whatever the random byte is. *)
Lemma proposer_step_cases i :
  0 <= i < 2 ^ 50 ->
  (exists c, step i = inr (Ok c) /\ c ∈ indices) \/ step i = inl (i + 1).
Proof using All.
  intros Hi. unfold proposer_step.
  pose proof (Z.mod_pos_bound i (zlen indices) ltac:(lia)) as Hm.
  destruct (shuffled_members (E:=E) indices seed SHUFFLE_ROUND_COUNT ltac:(lia)) as (q & Hq & Hsh).
  destruct (Hsh _ Hm) as (c & Hc & Hqc).
  assert (c ∈ indices) as Hci by (rewrite <-Hq; by eapply list_elem_of_lookup_2).
  destruct (in_registry c Hci) as (v & Hv & Hb).
  pose proof (Z.mod_pos_bound i 32 ltac:(lia)).
  destruct (index (E:=E) (sha256 (seed ++ to_le_bytes 8 (i / 32))) (i mod 32)) as [rb| |] eqn:Hrb.
  2: { unfold index, expect in Hrb. by repeat case_match. }
  2: { exfalso. eapply index_no_panic; [|done]. unfold zlen. rewrite sha256_length. lia. }
  destruct (compute_shuffled_index _ _ _ _ _) as [r| |]; cbn in Hc |- *; [|done..].
  rewrite Hc. cbn. rewrite Hv. cbn. case_match; [left; eauto|right].
  rewrite wadd_small by (unfold U64; lia). done.
Qed.

Lemma proposer_step_accepts v c :
  c ∈ indices -> validator s c = Some v -> v_effective_balance v = MAX_EFFECTIVE_BALANCE ->
  exists i, 0 <= i < zlen indices /\ step i = inr (Ok c).
Proof using All.
  intros Hc Hv Hmax.
  destruct (shuffled_members (E:=E) indices seed SHUFFLE_ROUND_COUNT ltac:(lia)) as (q & Hq & Hsh).
  rewrite <-Hq in Hc. apply list_elem_of_lookup in Hc as [k Hk].
  assert (0 <= Z.of_nat k < zlen indices) as Hkn.
  { pose proof (lookup_lt_Some _ _ _ Hk) as Hlt. rewrite Hq in Hlt. unfold zlen. lia. }
  exists (Z.of_nat k). split; [done|]. destruct (Hsh _ Hkn) as (x & Hx & Hqx).
  rewrite Nat2Z.id, Hk in Hqx. injection Hqx as <-.
  unfold proposer_step. rewrite (Z.mod_small (Z.of_nat k) (zlen indices)) by done.
  pose proof (Z.mod_pos_bound (Z.of_nat k) 32 ltac:(lia)).
  destruct (index (E:=E) (sha256 (seed ++ to_le_bytes 8 (Z.of_nat k / 32))) (Z.of_nat k mod 32))
    as [rb| |] eqn:Hrb.
  2: { unfold index, expect in Hrb. by repeat case_match. }
  2: { exfalso. eapply index_no_panic; [|done]. unfold zlen. rewrite sha256_length. lia. }
  destruct (compute_shuffled_index _ _ _ _ _) as [r| |]; cbn in Hx |- *; [|done..].
  rewrite Hx. cbn. rewrite Hv. cbn. rewrite Hmax.
  pose proof (byte_unsigned_range rb). pose proof max_effective_bound. pose proof increment_pos.
  rewrite !wmul_small by (unfold U64; nia).
  destruct (Z.leb_spec (MAX_EFFECTIVE_BALANCE * byte.unsigned rb) (MAX_EFFECTIVE_BALANCE * 255));
    [done|nia].
Qed.

Lemma proposer_loop k :
  Z.of_nat k <= 2 ^ 50 ->
  (exists c, loop_nat step k 0 = inr (Ok c) /\ c ∈ indices) \/
  (loop_nat step k 0 = inl (Z.of_nat k) /\
   forall i, 0 <= i < Z.of_nat k -> step i = inl (i + 1)).
Proof using All.
  induction k as [|k IH]; intros Hk; [right; split; [done|lia]|].
  rewrite <-Nat.add_1_r, loop_nat_add. destruct IH as [(c & -> & Hc)|[-> Hall]]; [lia|eauto|].
  cbn. destruct (proposer_step_cases (Z.of_nat k) ltac:(lia)) as [(c & Hs & Hc)|Hs]; rewrite Hs.
  - eauto.
  - right. split; [f_equal; lia|]. intros i Hi.
    destruct (Z.eq_dec i (Z.of_nat k)) as [->|]; [done|]. apply Hall. lia.
Qed.

Lemma compute_proposer_index_Ok v c :
  c ∈ indices -> validator s c = Some v -> v_effective_balance v = MAX_EFFECTIVE_BALANCE ->
  exists i, compute_proposer_index (E:=E) s indices seed = Ok i /\ i ∈ indices.
Proof using All.
  intros Hc Hv Hmax. destruct (proposer_step_accepts v c Hc Hv Hmax) as (i & Hi & Hacc).
  unfold compute_proposer_index. destruct (Z.eqb_spec (zlen indices) 0); [lia|].
  rewrite loop_upto_nat.
  assert (Pos.to_nat (2 ^ 64) =
    Z.to_nat (i + 1) + (Pos.to_nat (2 ^ 64) - Z.to_nat (i + 1)))%nat as -> by lia.
  rewrite loop_nat_add.
  destruct (proposer_loop (Z.to_nat (i + 1)) ltac:(lia)) as [(c' & -> & Hc')|[_ Hall]]; [eauto|].
  rewrite (Hall i) in Hacc by lia. done.
Qed.
End proposer.

(** ** Total balance in one pass *)
Lemma active_balances `{BeaconSpec} s epoch :
  (fun i => default 0 (v_effective_balance <$> validator s i)) <$>
    get_active_validator_indices s epoch
  = v_effective_balance <$> filter (fun v => is_active_validator v epoch = true) (validators s).
Proof.
  unfold get_active_validator_indices, enumerate, validator.
  assert (forall pre l, validators s = pre ++ l ->
    (fun i => default 0 (v_effective_balance <$> validators s !! Z.to_nat i)) <$>
      omap (fun '(i, v) => if is_active_validator v epoch then Some i else None)
        (enumerate_from (zlen pre) l)
    = v_effective_balance <$> filter (fun v => is_active_validator v epoch = true) l) as Hgen;
    [|by apply (Hgen [])].
  intros pre l. revert pre. induction l as [|v l IH]; intros pre Hs; [done|].
  cbn [enumerate_from omap list_omap]. specialize (IH (pre ++ [v])).
  rewrite <-app_assoc, zlen_app in IH. specialize (IH Hs).
  change (zlen [v]) with 1 in IH. rewrite filter_cons.
  destruct (is_active_validator v epoch) eqn:Ha; [|by rewrite decide_False].
  rewrite decide_True by done. cbn [fmap list_fmap]. rewrite IH. f_equal.
  unfold zlen. rewrite Nat2Z.id, Hs, lookup_app_r, Nat.sub_diag by lia. done.
Qed.

(** ** Indexed attestations *)
Section indexed.
  Context `{Crypto} `{!CryptoOk _} `{S : BeaconSpec} `{!SpecOk S} {E : Type}.

Lemma strictly_increasing_sorted l :
  NoDup l -> Sorted Z.le l -> strictly_increasing l = true.
Proof.
  induction l as [|x [|y l] IH]; intros Hn Hs; [done..|].
  change (negb (y <=? x) && strictly_increasing (y :: l) = true).
  inversion Hs as [|? ? Hs' Hhd]; subst. inversion Hhd as [|? ? Hxy]; subst.
  inversion Hn as [|? ? Hx Hn']; subst. rewrite IH by done.
  destruct (Z.leb_spec y x) as [Hle|]; [|done]. exfalso. apply Hx.
  assert (x = y) as -> by lia. left.
Qed.

Lemma committee_NoDup s sl idx committee :
  num_validators s <= VALIDATOR_REGISTRY_LIMIT -> 0 <= sl ->
  0 <= idx < get_committee_count_per_slot s (compute_epoch_at_slot sl SLOTS_PER_EPOCH) ->
  get_beacon_committee (E:=E) s sl idx = Ok committee -> NoDup committee.
Proof using All.
  intros Hreg Hsl Hidx Hc.
  destruct (beacon_committees_slices (E:=E) s Hreg (compute_epoch_at_slot sl SLOTS_PER_EPOCH))
    as (q & Hq & Hs). destruct (Hs sl idx eq_refl Hidx) as [_ Hs'].
  rewrite Hs' in Hc. injection Hc as <-.
  eapply sublist_NoDup; [|etransitivity; [apply sublist_take|apply sublist_drop]].
  rewrite Hq. apply NoDup_active.
Qed.

Lemma attesting_indices_sublist s data bits l :
  get_attesting_indices (E:=E) s data bits = Ok l ->
  exists committee, get_beacon_committee (E:=E) s (ad_slot data) (ad_index data) = Ok committee /\
    l `sublist_of` committee.
Proof.
  unfold get_attesting_indices.
  intros (committee & Hc & (picked & Hp & [= <-])%bind_Ok_inv)%bind_Ok_inv.
  exists committee. split; [done|]. clear Hc. revert Hp. unfold enumerate. generalize 0. revert picked.
  induction committee as [|c committee IH]; intros picked i; cbn.
  - by intros [= <-].
  - intros (b & Hb & (rest & Hr & [= <-])%bind_Ok_inv)%bind_Ok_inv.
    destruct (bl_get bits i) as [ob| |]; [|done..]. injection Hb as <-. cbn.
    destruct (default false ob); cbn; [apply sublist_skip|apply sublist_cons]; by eapply IH.
Qed.

Lemma indexed_attestation_increasing s att ia :
  num_validators s <= VALIDATOR_REGISTRY_LIMIT -> 0 <= ad_slot (att_data att) ->
  0 <= ad_index (att_data att) <
    get_committee_count_per_slot s (compute_epoch_at_slot (ad_slot (att_data att)) SLOTS_PER_EPOCH) ->
  get_indexed_attestation (E:=E) s att = Ok ia ->
  strictly_increasing (ia_attesting_indices ia) = true /\
  exists l, get_attesting_indices (E:=E) s (att_data att) (att_aggregation_bits att) = Ok l /\
    ia_attesting_indices ia ≡ₚ l.
Proof using All.
  intros Hreg Hsl Hidx. unfold get_indexed_attestation.
  intros (l & Hl & Hia)%bind_Ok_inv. case_match; [done|]. injection Hia as <-. cbn.
  destruct (attesting_indices_sublist s _ _ _ Hl) as (committee & Hc & Hsub). split.
  - apply strictly_increasing_sorted; [|apply Sorted_merge_sort; intros ? ?; lia].
    rewrite merge_sort_Permutation. eapply sublist_NoDup; [|done].
    by eapply committee_NoDup.
  - exists l. split; [done|]. apply merge_sort_Permutation.
Qed.
End indexed.

(** ** Properties *)

(** [integer_squareroot] terminates for every [u64] and returns the
    integer square root. *)
Theorem integer_squareroot_correct {E} n :
  u64 n -> integer_squareroot (E:=E) n = Ok (Z.sqrt n).
Proof. intros [? ?]. apply integer_squareroot_Ok. unfold u64_max, U64 in *. lia. Qed.

Lemma integer_squareroot_correct_witness :
  integer_squareroot (E:=unit) 18446744065119617025 = Ok 4294967295.
Proof.
  change 4294967295 with (Z.sqrt 18446744065119617025).
  apply integer_squareroot_correct. split; [lia|reflexivity].
Defined.

(** C35: the committees of an epoch partition its active validators.  Running
    over the slots of an epoch and the committee indices of a slot,
    [get_beacon_committee] always succeeds, and the committees together hold
    every active validator exactly once. *)
Theorem committees_partition_active {E} `{Crypto} `{!CryptoOk _} `{S : BeaconSpec} `{!SpecOk S}
    (s : BeaconState) (epoch : Z) :
  num_validators s <= VALIDATOR_REGISTRY_LIMIT -> 0 <= epoch ->
  exists committees,
    mapM (fun '(sl, i) => get_beacon_committee (E:=E) s sl i) (epoch_duties s epoch)
      = Ok committees /\
    concat committees ≡ₚ get_active_validator_indices s epoch /\ NoDup (concat committees).
Proof.
  intros Hreg He. destruct (epoch_committees_Ok (E:=E) s Hreg epoch He) as (cs & Hc & Hp).
  exists cs. split_and!; [done..|]. rewrite Hp. apply NoDup_active.
Qed.

Lemma proposer_index_returns {E} `{Crypto} `{!CryptoOk _} `{S : BeaconSpec} `{!SpecOk S}
    (s : BeaconState) c v :
  num_validators s <= VALIDATOR_REGISTRY_LIMIT ->
  Forall (fun v => 0 <= v_effective_balance v <= MAX_EFFECTIVE_BALANCE) (validators s) ->
  0 <= c -> validator s c = Some v -> is_active_validator v (get_current_epoch s) = true ->
  v_effective_balance v = MAX_EFFECTIVE_BALANCE ->
  exists i, get_beacon_proposer_index (E:=E) s = Ok i /\
    i ∈ get_active_validator_indices s (get_current_epoch s).
Proof.
  intros Hreg Hbal Hc Hv Ha Hmax. unfold get_beacon_proposer_index. cbv zeta.
  assert (c ∈ get_active_validator_indices s (get_current_epoch s)) as Hin
    by (apply elem_of_active; eauto).
  eapply compute_proposer_index_Ok; [|..|done|done|done].
  - pose proof (active_count_bound s (get_current_epoch s)). pose proof registry_limit.
    split; [|lia]. destruct (get_active_validator_indices _ _); [by inversion Hin|].
    rewrite zlen_cons. pose proof (zlen_nonneg l). lia.
  - intros i (_ & w & Hw & _)%elem_of_active. exists w. split; [done|].
    rewrite Forall_lookup in Hbal. by eapply Hbal.
Qed.


(** Summing the effective balances of the active validators in one pass
    ([get_total_active_balance]) gives the same value, wrap-around included,
    as collecting their indices and summing by index. *)
Theorem fused_active_balance `{S : BeaconSpec} (s : BeaconState) :
  get_total_active_balance s
  = get_total_balance s (get_active_validator_indices s (get_current_epoch s)).
Proof. unfold get_total_active_balance, get_total_balance. by rewrite active_balances. Qed.

(** An attestation of a committee always becomes an indexed attestation
    whose indices are sorted and without duplicates, as
    [is_valid_indexed_attestation] requires, and they are exactly the
    attesting committee members. *)
Theorem indexed_attestation_well_formed {E} `{Crypto} `{!CryptoOk _} `{S : BeaconSpec} `{!SpecOk S}
    (s : BeaconState) att ia :
  num_validators s <= VALIDATOR_REGISTRY_LIMIT -> 0 <= ad_slot (att_data att) ->
  0 <= ad_index (att_data att) <
    get_committee_count_per_slot s (compute_epoch_at_slot (ad_slot (att_data att)) SLOTS_PER_EPOCH) ->
  get_indexed_attestation (E:=E) s att = Ok ia ->
  strictly_increasing (ia_attesting_indices ia) = true /\
  exists l, get_attesting_indices (E:=E) s (att_data att) (att_aggregation_bits att) = Ok l /\
    ia_attesting_indices ia ≡ₚ l.
Proof. apply indexed_attestation_increasing. Qed.

(** ** A small state of the minimal preset *)
Definition ex_digest (x : bytes) : bytes := replicate 32 (default Byte.x00 (last x)).
Definition ex_crypto : Crypto := {|
  sha256 := ex_digest;
  bls_verify := fun _ _ _ => Some true;
  bls_fast_aggregate_verify := fun _ _ _ => Some true;
|}.
#[global] Instance ex_crypto_ok : CryptoOk ex_crypto.
Proof. constructor. intros x. apply length_replicate. Qed.

Definition ex_validator (k : Z) (exit : Z) : Validator :=
  mkValidator (to_le_bytes 48 k) zero_chunk 32000000000 false 0 0 exit u64_max.

Definition ex_header : BeaconBlockHeader := mkBeaconBlockHeader 0 0 zero_chunk zero_chunk zero_chunk.

Definition ex_state (sl : Z) : BeaconState :=
  mkBeaconState 0 zero_chunk sl (mkFork (replicate 4 Byte.x00) (replicate 4 Byte.x00) 0) ex_header
    (replicate 64 (replicate 32 Byte.x07)) (replicate 64 zero_chunk) []
    (mkEth1Data zero_chunk 0 zero_chunk) [] 0
    ((fun k => ex_validator k (if k =? 3 then 1 else u64_max)) <$> seqZ 0 20)
    (replicate 20 32000000000) (replicate 64 zero_chunk) (replicate 64 0) [] []
    [false; false; false; false] (mkCheckpoint 0 zero_chunk) (mkCheckpoint 0 zero_chunk)
    (mkCheckpoint 0 zero_chunk).

Lemma committees_partition_active_witness :
  exists committees,
    mapM (fun '(sl, i) => @get_beacon_committee ex_crypto minimal unit (ex_state 17) sl i)
      (@epoch_duties minimal (ex_state 17) 2) = Ok committees /\
    concat committees ≡ₚ @get_active_validator_indices (ex_state 17) 2 /\
    NoDup (concat committees).
Proof.
  apply (@committees_partition_active unit ex_crypto _ minimal _ (ex_state 17) 2).
  - vm_compute. discriminate.
  - lia.
Defined.


Definition ex_attestation : Attestation :=
  mkAttestation (mkBitlist [Byte.x03] 2)
    (mkAttestationData 16 0 zero_chunk (mkCheckpoint 0 zero_chunk)
      (mkCheckpoint 2 (replicate 32 Byte.x07))) (replicate 96 Byte.x00).

Lemma indexed_attestation_well_formed_witness :
  exists ia, @get_indexed_attestation ex_crypto minimal unit (ex_state 17) ex_attestation = Ok ia /\
    strictly_increasing (ia_attesting_indices ia) = true.
Proof.
  destruct (@get_indexed_attestation ex_crypto minimal unit (ex_state 17) ex_attestation)
    as [ia| |] eqn:Hia; [|vm_compute in Hia; discriminate..].
  exists ia. split; [done|].
  apply (@indexed_attestation_well_formed unit ex_crypto _ minimal _ (ex_state 17) ex_attestation ia).
  - vm_compute. discriminate.
  - vm_compute. discriminate.
  - vm_compute. split; [discriminate|reflexivity].
  - exact Hia.
Defined.
