(* ===== verification/Mutators.v ===== *)
(** * State mutators

    crates/pharos-stf/src/phase0/mutators.rs: balances, the exit queue and
    slashing.  A mutator takes the state and returns the new one; on an error
    the callers drop the state they passed. *)

From Stdlib Require Import ZArith Lia.
From S2P Require Import Prelude SszCodec SszBitfield SszTypes Shuffling Spec BeaconState Invariant Roots Accessors.

(** Field updates of a cloned validator. *)
Definition v_with_effective_balance (v : Validator) (x : Z) : Validator :=
  mkValidator (v_pubkey v) (v_withdrawal_credentials v) x (v_slashed v)
    (v_activation_eligibility_epoch v) (v_activation_epoch v) (v_exit_epoch v)
    (v_withdrawable_epoch v).
Definition v_with_activation_eligibility_epoch (v : Validator) (x : Z) : Validator :=
  mkValidator (v_pubkey v) (v_withdrawal_credentials v) (v_effective_balance v) (v_slashed v)
    x (v_activation_epoch v) (v_exit_epoch v) (v_withdrawable_epoch v).
Definition v_with_activation_epoch (v : Validator) (x : Z) : Validator :=
  mkValidator (v_pubkey v) (v_withdrawal_credentials v) (v_effective_balance v) (v_slashed v)
    (v_activation_eligibility_epoch v) x (v_exit_epoch v) (v_withdrawable_epoch v).
Definition v_with_exit (v : Validator) (exit withdrawable : Z) : Validator :=
  mkValidator (v_pubkey v) (v_withdrawal_credentials v) (v_effective_balance v) (v_slashed v)
    (v_activation_eligibility_epoch v) (v_activation_epoch v) exit withdrawable.
Definition v_with_slashed (v : Validator) (withdrawable : Z) : Validator :=
  mkValidator (v_pubkey v) (v_withdrawal_credentials v) (v_effective_balance v) true
    (v_activation_eligibility_epoch v) (v_activation_epoch v) (v_exit_epoch v) withdrawable.

Section mutators.
  Context `{Crypto} `{BeaconSpec}.
  Local Abbreviation outcome := (result StateTransitionError BeaconState).
  Implicit Types s : BeaconState.

Definition increase_balance s (idx delta : Z) : outcome :=
  let cur := default 0 (balance_at s idx) in
  set_balance s idx (sat_add cur delta).

Definition decrease_balance s (idx delta : Z) : outcome :=
  let cur := default 0 (balance_at s idx) in
  let new_val := if cur <? delta then 0 else cur - delta in
  set_balance s idx new_val.

(** The exit epochs handed out so far, their latest, and how many share one. *)
Definition max_exit_epoch s : Z :=
  foldr Z.max 0 (v_exit_epoch <$>
    filter (fun v => v_exit_epoch v <> FAR_FUTURE_EPOCH) (validators s)).
Definition exit_count s (epoch : Z) : Z :=
  zlen (filter (fun v => v_exit_epoch v = epoch) (validators s)).

Definition initiate_validator_exit s (idx : Z) : outcome :=
  v ← ok_or (validator s idx) SlotOutOfRange;
  if negb (v_exit_epoch v =? FAR_FUTURE_EPOCH) then Ok s
  else
    let activation_exit_epoch :=
      compute_activation_exit_epoch (get_current_epoch s) MAX_SEED_LOOKAHEAD in
    let exit_queue_epoch := Z.max (max_exit_epoch s) activation_exit_epoch in
    let churn_limit := get_validator_churn_limit s in
    let exit_queue_churn := exit_count s exit_queue_epoch in
    final_exit_epoch ←
      (if churn_limit <=? exit_queue_churn
       then ok_or (checked_add exit_queue_epoch 1) SlotOutOfRange
       else Ok exit_queue_epoch);
    withdrawable_epoch ←
      ok_or (checked_add final_exit_epoch MIN_VALIDATOR_WITHDRAWABILITY_DELAY) SlotOutOfRange;
    v ← ok_or (validator s idx) SlotOutOfRange;
    set_validator s idx (v_with_exit v final_exit_epoch withdrawable_epoch).

Definition slash_validator s (slashed_index : Z) (whistleblower_index : option Z) : outcome :=
  let epoch := get_current_epoch s in
  s ← initiate_validator_exit s slashed_index;
  v ← ok_or (validator s slashed_index) SlotOutOfRange;
  let effective_balance := v_effective_balance v in
  let new_withdrawable_epoch :=
    Z.max (v_withdrawable_epoch v) (wadd epoch EPOCHS_PER_SLASHINGS_VECTOR) in
  s ← set_validator s slashed_index (v_with_slashed v new_withdrawable_epoch);
  let slashing_slot := epoch mod EPOCHS_PER_SLASHINGS_VECTOR in
  let cur_slashing := default 0 (slashings s !! Z.to_nat slashing_slot) in
  s ← set_slashing s slashing_slot (sat_add cur_slashing effective_balance);
  let penalty := effective_balance / MIN_SLASHING_PENALTY_QUOTIENT in
  s ← decrease_balance s slashed_index penalty;
  proposer_index ← get_beacon_proposer_index s;
  let whistleblower_idx := default proposer_index whistleblower_index in
  let whistleblower_reward := effective_balance / WHISTLEBLOWER_REWARD_QUOTIENT in
  let proposer_reward := whistleblower_reward / PROPOSER_REWARD_QUOTIENT in
  s ← increase_balance s proposer_index proposer_reward;
  increase_balance s whistleblower_idx (wsub whistleblower_reward proposer_reward).
End mutators.

(** ** Counting in an updated list *)
Lemma filter_insert_count {A} (P : A -> Prop) `{!forall x, Decision (P x)} (l : list A) i x y :
  l !! i = Some x ->
  zlen (filter P (<[i := y]> l))
  = zlen (filter P l) - (if decide (P x) then 1 else 0) + (if decide (P y) then 1 else 0).
Proof.
  intros Hi. rewrite <-(take_drop_middle l i x Hi) at 2.
  rewrite insert_take_drop by (by eapply lookup_lt_Some).
  rewrite !filter_app, !filter_cons, !zlen_app.
  destruct (decide (P x)), (decide (P y)); rewrite ?zlen_cons; lia.
Qed.

Section facts.
  Context `{Crypto} `{S : BeaconSpec} `{!SpecOk S}.
  Implicit Types s : BeaconState.

Lemma increase_balance_wf s i d s' : wf_state s -> 0 <= d -> increase_balance s i d = Ok s' -> wf_state s'.
Proof.
  intros Hw Hd Hs. eapply wf_set_balance; [done| |exact Hs].
  unfold sat_add, u64, u64_max, U64. destruct (balance_at s i) as [b|] eqn:Hb; cbn [default from_option];
    unfold id; [apply wf_balance_at in Hb as [? _]; [lia|done]|lia].
Qed.

Lemma decrease_balance_wf s i d s' : wf_state s -> 0 <= d -> decrease_balance s i d = Ok s' -> wf_state s'.
Proof.
  intros Hw Hd Hs. eapply wf_set_balance; [done| |exact Hs].
  unfold u64. destruct (balance_at s i) as [b|] eqn:Hb; cbn [default from_option]; unfold id.
  - apply wf_balance_at in Hb as [? ?]; [|done].
    destruct (Z.ltb_spec b d); unfold U64 in *; lia.
  - destruct (Z.ltb_spec 0 d); unfold U64; lia.
Qed.

(** ** The exit queue *)
Lemma max_exit_epoch_spec s :
  0 <= max_exit_epoch s /\
  (forall w, w ∈ validators s -> v_exit_epoch w <> FAR_FUTURE_EPOCH -> v_exit_epoch w <= max_exit_epoch s).
Proof.
  unfold max_exit_epoch. induction (validators s) as [|v l [H0 IH]].
  { split; [done|]. intros w Hw. inversion Hw. }
  rewrite filter_cons. destruct (decide (v_exit_epoch v <> FAR_FUTURE_EPOCH)); cbn.
  - split; [lia|]. intros w [->|Hw]%elem_of_cons Hf; [lia|]. pose proof (IH w Hw Hf). lia.
  - split; [done|]. intros w [->|Hw]%elem_of_cons Hf; [done|]. auto.
Qed.

Lemma exit_count_beyond s e :
  max_exit_epoch s < e -> e <> FAR_FUTURE_EPOCH -> exit_count s e = 0.
Proof.
  intros He Hf. unfold exit_count.
  assert (filter (fun v => v_exit_epoch v = e) (validators s) = []) as ->; [|done].
  destruct (filter _ _) as [|w l] eqn:Hw; [done|].
  assert (w ∈ filter (fun v => v_exit_epoch v = e) (validators s)) as [Hwe Hin]%list_elem_of_filter
    by (rewrite Hw; left).
  destruct (max_exit_epoch_spec s) as [_ Hm]. specialize (Hm w Hin). lia.
Qed.

Lemma churn_limit_pos s : 1 <= get_validator_churn_limit s.
Proof using SpecOk0. unfold get_validator_churn_limit. pose proof churn_pos. lia. Qed.

Lemma current_epoch_range s : wf_state s -> 0 <= get_current_epoch s < 2 ^ 63.
Proof using SpecOk0.
  intros [[? ?]]. unfold get_current_epoch, compute_epoch_at_slot. pose proof slots_per_epoch_pos.
  unfold U64 in *. split; [apply Z.div_pos; lia|]. apply Z.div_lt_upper_bound; nia.
Qed.

Lemma activation_exit_epoch_value s :
  wf_state s ->
  compute_activation_exit_epoch (get_current_epoch s) MAX_SEED_LOOKAHEAD
  = get_current_epoch s + 1 + MAX_SEED_LOOKAHEAD.
Proof using SpecOk0.
  intros Hw. pose proof (current_epoch_range s Hw). pose proof seed_lookahead.
  unfold compute_activation_exit_epoch. rewrite !wadd_small by (rewrite ?wadd_small; unfold U64; lia).
  done.
Qed.

(** The epoch an exit is given: the tail of the queue, or the next one when the
    tail is full. *)
Lemma initiate_validator_exit_Ok s idx v s' :
  wf_state s -> validator s idx = Some v -> v_exit_epoch v = FAR_FUTURE_EPOCH ->
  initiate_validator_exit s idx = Ok s' ->
  exists e, s' = with_validators s
      (<[Z.to_nat idx := v_with_exit v e (e + MIN_VALIDATOR_WITHDRAWABILITY_DELAY)]> (validators s)) /\
    e + MIN_VALIDATOR_WITHDRAWABILITY_DELAY < U64 /\
    Z.max (max_exit_epoch s) (get_current_epoch s + 1 + MAX_SEED_LOOKAHEAD) <= e /\
    exit_count s e < get_validator_churn_limit s.
Proof using SpecOk0.
  intros Hw Hv Hf. unfold initiate_validator_exit. rewrite Hv. cbn [ok_or mbind result_bind].
  rewrite Hf, Z.eqb_refl. cbn [negb]. rewrite activation_exit_epoch_value by done.
  set (q := Z.max (max_exit_epoch s) (get_current_epoch s + 1 + MAX_SEED_LOOKAHEAD)).
  pose proof withdrawability_delay. pose proof (churn_limit_pos s).
  destruct (max_exit_epoch_spec s) as [Hm0 _].
  intros (e & He & (w & Hwd & [Hidx ->]%set_validator_Ok)%bind_Ok_inv)%bind_Ok_inv.
  apply ok_or_Ok, checked_add_Some in Hwd as [-> Hov]. exists e. split; [done|]. split; [done|].
  destruct (Z.leb_spec (get_validator_churn_limit s) (exit_count s q)); cycle 1.
  { injection He as <-. done. }
  apply ok_or_Ok, checked_add_Some in He as [-> _].
  split; [lia|]. rewrite exit_count_beyond; [lia|lia|].
  unfold FAR_FUTURE_EPOCH, u64_max. lia.
Qed.

Lemma initiate_validator_exit_noop s idx v :
  validator s idx = Some v -> v_exit_epoch v <> FAR_FUTURE_EPOCH ->
  initiate_validator_exit s idx = Ok s.
Proof.
  intros Hv Hf. unfold initiate_validator_exit. rewrite Hv. cbn.
  by apply Z.eqb_neq in Hf as ->.
Qed.

Lemma validator_ok_exit v e w :
  validator_ok v -> u64 e -> u64 w -> validator_ok (v_with_exit v e w).
Proof. by intros [] ? ?. Qed.

Lemma initiate_validator_exit_wf s idx s' :
  wf_state s -> initiate_validator_exit s idx = Ok s' -> wf_state s'.
Proof using SpecOk0.
  intros Hw Hs. destruct (validator s idx) as [v|] eqn:Hv; cycle 1.
  { unfold initiate_validator_exit in Hs. by rewrite Hv in Hs. }
  destruct (Z.eq_dec (v_exit_epoch v) FAR_FUTURE_EPOCH) as [Hf|Hf]; cycle 1.
  { rewrite (initiate_validator_exit_noop s idx v) in Hs by done. by injection Hs as <-. }
  destruct (initiate_validator_exit_Ok s idx v s' Hw Hv Hf Hs) as (e & -> & Hov & Hq & _).
  pose proof withdrawability_delay. pose proof (current_epoch_range s Hw).
  pose proof seed_lookahead. pose proof (wf_validator s idx v Hw Hv) as Hvok.
  destruct Hw; constructor; cbn; rewrite ?zlen_insert, ?length_insert; auto.
  apply Forall_insert; [done|]. apply validator_ok_exit; [done|unfold u64; lia..].
Qed.

(** Either way the validator is exiting afterwards and no other entry moved. *)
Lemma initiate_validator_exit_exiting s idx s' v' :
  wf_state s -> 0 <= idx -> initiate_validator_exit s idx = Ok s' -> validator s' idx = Some v' ->
  v_exit_epoch v' <> FAR_FUTURE_EPOCH /\
  forall i, 0 <= i -> i <> idx -> validator s' i = validator s i.
Proof using SpecOk0.
  intros Hw Hidx Hs Hv'. destruct (validator s idx) as [v|] eqn:Hv;
    [|unfold initiate_validator_exit in Hs; by rewrite Hv in Hs].
  destruct (Z.eq_dec (v_exit_epoch v) FAR_FUTURE_EPOCH) as [Hf|Hf]; cycle 1.
  { rewrite (initiate_validator_exit_noop s idx v) in Hs by done. injection Hs as <-.
    split; [congruence|done]. }
  destruct (initiate_validator_exit_Ok s idx v s' Hw Hv Hf Hs) as (e & -> & Hov & _).
  unfold validator in *. cbn in *. rewrite list_lookup_insert_eq in Hv'
    by (by eapply lookup_lt_Some). injection Hv' as <-. cbn. split.
  - pose proof withdrawability_delay. unfold FAR_FUTURE_EPOCH, u64_max. lia.
  - intros i Hi Hne. apply list_lookup_insert_ne. lia.
Qed.

(** ** Slashing *)

Lemma initiate_validator_exit_frame s idx s' :
  initiate_validator_exit s idx = Ok s' -> exists l, s' = with_validators s l.
Proof.
  unfold initiate_validator_exit. intros (v & _ & Hs)%bind_Ok_inv. case_match.
  - injection Hs as <-. exists (validators s). by destruct s.
  - apply bind_Ok_inv in Hs as (e & _ & (w & _ & (v' & _ & [_ ->]%set_validator_Ok)%bind_Ok_inv)%bind_Ok_inv).
    eauto.
Qed.

Lemma balance_frame s i b s' : set_balance s i b = Ok s' -> exists l, s' = with_balances s l.
Proof. intros [_ ->]%set_balance_Ok. eauto. Qed.

Lemma validator_ok_slashed v w : validator_ok v -> u64 w -> validator_ok (v_with_slashed v w).
Proof. by intros [] ?. Qed.

(** The registry entry and the slashings vector after a slashing. *)
Lemma slash_validator_Ok s idx w s' :
  wf_state s -> slash_validator s idx w = Ok s' ->
  exists s1 v1, initiate_validator_exit s idx = Ok s1 /\ validator s1 idx = Some v1 /\ wf_state s' /\
    validators s' = <[Z.to_nat idx := v_with_slashed v1
      (Z.max (v_withdrawable_epoch v1) (get_current_epoch s + EPOCHS_PER_SLASHINGS_VECTOR))]>
      (validators s1) /\
    slashings s' = <[Z.to_nat (get_current_epoch s mod EPOCHS_PER_SLASHINGS_VECTOR) :=
      sat_add (default 0 (slashings s !!
        Z.to_nat (get_current_epoch s mod EPOCHS_PER_SLASHINGS_VECTOR))) (v_effective_balance v1)]>
      (slashings s) /\ slot s' = slot s.
Proof using SpecOk0.
  intros Hw. unfold slash_validator.
  intros (s1 & H1 & (v1 & Hv1%ok_or_Ok & (s2 & H2 & Hs)%bind_Ok_inv)%bind_Ok_inv)%bind_Ok_inv.
  apply bind_Ok_inv in Hs as (s3 & H3 & (s4 & H4 & (pi & _ & (s5 & H5 & H6)%bind_Ok_inv)%bind_Ok_inv)%bind_Ok_inv).
  pose proof (current_epoch_range s Hw) as He. pose proof slashings_vector_pos.
  pose proof quotients_pos as (? & ? & ? & ?).
  rewrite wadd_small in H2 by (unfold U64; lia).
  pose proof (initiate_validator_exit_wf s idx s1 Hw H1) as Hw1.
  pose proof (wf_validator s1 idx v1 Hw1 Hv1) as Hvok. pose proof (vok_balance v1 Hvok).
  exists s1, v1. split_and!; [done|done| | | |].
  - assert (wf_state s2) as Hw2.
    { eapply wf_set_validator; [exact Hw1| |exact H2]. apply validator_ok_slashed; [done|].
      destruct (vok_withdrawable v1 Hvok). unfold u64, U64 in *. lia. }
    assert (wf_state s3) as Hw3.
    { eapply wf_set_slashing; [exact Hw2| |exact H3]. unfold sat_add, u64, u64_max, U64.
      enough (0 <= default 0 (slashings s2 !! Z.to_nat (get_current_epoch s mod EPOCHS_PER_SLASHINGS_VECTOR)))
        by lia.
      destruct (slashings s2 !! _) as [x|] eqn:Hx; cbn; [|done].
      by apply (Forall_lookup_1 _ _ _ _ (wf_slashings s2 Hw2)) in Hx as [? _]. }
    eapply increase_balance_wf; [eapply increase_balance_wf; [eapply decrease_balance_wf;
      [exact Hw3| |exact H4]| |exact H5]| |exact H6].
    + apply Z.div_pos; lia.
    + apply Z.div_pos; [apply Z.div_pos; lia|lia].
    + apply wsub_u64.
  - apply balance_frame in H4 as [? ->], H5 as [? ->], H6 as [? ->].
    apply set_slashing_Ok in H3 as [_ ->]. apply set_validator_Ok in H2 as [_ ->]. done.
  - apply balance_frame in H4 as [? ->], H5 as [? ->], H6 as [? ->].
    apply set_slashing_Ok in H3 as [_ ->]. apply set_validator_Ok in H2 as [_ ->].
    apply initiate_validator_exit_frame in H1 as [? ->]. done.
  - apply balance_frame in H4 as [? ->], H5 as [? ->], H6 as [? ->].
    apply set_slashing_Ok in H3 as [_ ->]. apply set_validator_Ok in H2 as [_ ->].
    apply initiate_validator_exit_frame in H1 as [? ->]. done.
Qed.
End facts.

(** ** Properties *)

(** The exit queue respects the churn limit.  An exit that is accepted is
    placed at an epoch after the look-ahead, not before any exit handed out
    earlier; afterwards at most [get_validator_churn_limit] validators leave in
    that epoch and the count of every other epoch is unchanged.  Only the
    validator's own entry changes, and it stays active until its exit. *)
Theorem exit_queue_churn `{Crypto} `{S : BeaconSpec} `{!SpecOk S} (s : BeaconState) idx v s' :
  wf_state s -> validator s idx = Some v -> v_exit_epoch v = FAR_FUTURE_EPOCH ->
  initiate_validator_exit s idx = Ok s' ->
  exists e,
    validators s' = <[Z.to_nat idx :=
      v_with_exit v e (e + MIN_VALIDATOR_WITHDRAWABILITY_DELAY)]> (validators s) /\
    get_current_epoch s + 1 + MAX_SEED_LOOKAHEAD <= e < FAR_FUTURE_EPOCH /\
    (forall w, w ∈ validators s -> v_exit_epoch w <> FAR_FUTURE_EPOCH -> v_exit_epoch w <= e) /\
    exit_count s' e <= get_validator_churn_limit s /\
    (forall e', e' <> e -> e' <> FAR_FUTURE_EPOCH -> exit_count s' e' = exit_count s e') /\
    (forall t, t < e -> is_active_validator
       (v_with_exit v e (e + MIN_VALIDATOR_WITHDRAWABILITY_DELAY)) t = is_active_validator v t).
Proof.
  intros Hw Hv Hf Hs.
  destruct (initiate_validator_exit_Ok s idx v s' Hw Hv Hf Hs) as (e & -> & Hov & Hq & Hc).
  pose proof withdrawability_delay. destruct (max_exit_epoch_spec s) as [_ Hm].
  assert (e < FAR_FUTURE_EPOCH) as Hef by (unfold FAR_FUTURE_EPOCH, u64_max; lia).
  exists e. split_and!; [done|lia|done| | | |].
  - intros w Hwin Hwf. specialize (Hm w Hwin Hwf). lia.
  - unfold exit_count in *. cbn [validators with_validators].
    rewrite (filter_insert_count _ _ _ v) by done.
    rewrite decide_False by (rewrite Hf; lia). rewrite decide_True by done. lia.
  - intros e' He' Hfe. unfold exit_count. cbn [validators with_validators].
    rewrite (filter_insert_count _ _ _ v) by done.
    rewrite !decide_False by (cbn; congruence). lia.
  - intros t Ht. unfold is_active_validator. cbn. rewrite Hf.
    destruct (Z.ltb_spec t e), (Z.ltb_spec t FAR_FUTURE_EPOCH); [done|lia..].
Qed.

Lemma ex_state_wf sl : u64 sl -> @wf_state minimal (ex_state sl).
Proof.
  intros Hsl.
  constructor; lazymatch goal with
  | |- Forall _ _ => idtac
  | |- u64 _ => idtac
  | |- _ => vm_compute; reflexivity || discriminate
  end.
  - done.
  - apply Forall_fmap, Forall_true. intros k. unfold compose, ex_validator.
    constructor; [cbn; lia|reflexivity|..]; cbn; unfold u64, u64_max, U64; [lia..| |lia].
    destruct (k =? 3); lia.
  - apply Forall_replicate. unfold u64, U64. lia.
  - apply Forall_replicate. unfold u64, U64. lia.
  - cbn. unfold u64, U64. lia.
Qed.

Lemma exit_queue_churn_witness :
  exists s' e, @initiate_validator_exit minimal (ex_state 17) 4 = Ok s' /\
    @exit_count s' e <= @get_validator_churn_limit minimal (ex_state 17).
Proof.
  destruct (@initiate_validator_exit minimal (ex_state 17) 4) as [s'| |] eqn:Hs;
    [|vm_compute in Hs; discriminate..].
  destruct (@exit_queue_churn ex_crypto minimal _ (ex_state 17) 4 (ex_validator 4 u64_max) s')
    as (e & _ & _ & _ & He & _).
  - apply ex_state_wf. vm_compute. split; congruence.
  - vm_compute. reflexivity.
  - reflexivity.
  - exact Hs.
  - exists s', e. split; [reflexivity|exact He].
Defined.

(** A slashing marks the validator slashed, makes it exit, keeps its stake
    locked for at least [EPOCHS_PER_SLASHINGS_VECTOR] epochs, and adds its
    effective balance to the entry of the current epoch in the slashings
    vector; no other registry entry and no other slashings entry changes, and
    the state stays well formed. *)
Theorem slash_validator_effect `{Crypto} `{S : BeaconSpec} `{!SpecOk S} (s : BeaconState) idx w s' :
  wf_state s -> 0 <= idx -> slash_validator s idx w = Ok s' ->
  wf_state s' /\
  (exists v', validator s' idx = Some v' /\ v_slashed v' = true /\
     v_exit_epoch v' <> FAR_FUTURE_EPOCH /\
     get_current_epoch s + EPOCHS_PER_SLASHINGS_VECTOR <= v_withdrawable_epoch v' /\
     slashings s' !! Z.to_nat (get_current_epoch s mod EPOCHS_PER_SLASHINGS_VECTOR)
     = Some (sat_add (default 0 (slashings s !!
         Z.to_nat (get_current_epoch s mod EPOCHS_PER_SLASHINGS_VECTOR))) (v_effective_balance v'))) /\
  (forall i, 0 <= i -> i <> idx -> validator s' i = validator s i) /\
  (forall k, k <> Z.to_nat (get_current_epoch s mod EPOCHS_PER_SLASHINGS_VECTOR) ->
     slashings s' !! k = slashings s !! k).
Proof.
  intros Hw Hidx Hs.
  destruct (slash_validator_Ok s idx w s' Hw Hs) as (s1 & v1 & H1 & Hv1 & Hw' & Hval & Hsl & _).
  destruct (initiate_validator_exit_exiting s idx s1 v1 Hw Hidx H1 Hv1) as [Hexit Hother].
  pose proof (lookup_lt_Some _ _ _ Hv1) as Hlt. pose proof slashings_vector_pos.
  pose proof (Z.mod_pos_bound (get_current_epoch s) EPOCHS_PER_SLASHINGS_VECTOR slashings_vector_gt0).
  split_and!; [done| | |].
  - eexists. unfold validator. rewrite Hval, list_lookup_insert_eq by done.
    split_and!; [done|done|done|cbn; lia|].
    rewrite Hsl, list_lookup_insert_eq; [done|].
    pose proof (wf_slashings_length s Hw) as Hlen. unfold zlen in Hlen. lia.
  - intros i Hi Hne. unfold validator. rewrite Hval, list_lookup_insert_ne by lia. by apply Hother.
  - intros k Hk. rewrite Hsl. by apply list_lookup_insert_ne.
Qed.

Lemma slash_validator_effect_witness :
  exists s', @slash_validator ex_crypto minimal (ex_state 17) 4 None = Ok s' /\ @wf_state minimal s' /\
    (v_slashed <$> validator s' 4) = Some true.
Proof.
  destruct (@slash_validator ex_crypto minimal (ex_state 17) 4 None) as [s'| |] eqn:Hs;
    [|vm_compute in Hs; discriminate..].
  destruct (@slash_validator_effect ex_crypto minimal _ (ex_state 17) 4 None s')
    as (Hw & (v' & Hv & Hsl & _) & _).
  - apply ex_state_wf. vm_compute. split; congruence.
  - lia.
  - exact Hs.
  - exists s'. split; [reflexivity|]. split; [exact Hw|]. rewrite Hv. cbn. by rewrite Hsl.
Defined.
