(* ===== verification/Justification.v ===== *)
(** * Justification and finalization

    crates/pharos-stf/src/phase0/epoch/{helpers,justification_and_finalization}.rs. *)

From Stdlib Require Import ZArith Lia.
From S2P Require Import Prelude SszCodec SszBitfield SszTypes Merkle Shuffling Spec BeaconState Invariant Roots Accessors Mutators.

Section definitions.
  Context `{Crypto} `{BeaconSpec}.
  Implicit Types s : BeaconState.
  Local Abbreviation fallible := (result EpochProcessingError).

(** ** Matching attestations (epoch/helpers.rs) *)
Definition get_matching_source_attestations s (epoch : Z) : fallible (list PendingAttestation) :=
  if epoch =? get_current_epoch s then Ok (current_epoch_attestations s)
  else if epoch =? get_previous_epoch s then Ok (previous_epoch_attestations s)
  else Err InvalidEpochForAttestation.

Definition get_matching_target_attestations s (epoch : Z) : fallible (list PendingAttestation) :=
  source ← get_matching_source_attestations s epoch;
  if zlen source =? 0 then Ok []
  else
    block_root ← map_err (fun _ => BlockRootUnavailable) (get_block_root s epoch);
    Ok (filter (fun a => cp_root (ad_target (pa_data a)) = block_root) source).

Definition get_matching_head_attestations s (epoch : Z) : fallible (list PendingAttestation) :=
  target ← get_matching_target_attestations s epoch;
  foldM (fun acc a =>
      slot_root ← map_err (fun _ => BlockRootUnavailable)
                    (get_block_root_at_slot s (ad_slot (pa_data a)));
      Ok (if bool_decide (ad_beacon_block_root (pa_data a) = slot_root) then acc ++ [a] else acc))
    target [].

(** The [HashSet] is a finite set; the order in which it is read does not
    matter to any of the callers' sums and updates. *)
Definition get_unslashed_attesting_indices s (attestations : list PendingAttestation)
    : fallible (gset Z) :=
  output ← foldM (fun (acc : gset Z) a =>
      indices ← get_attesting_indices s (pa_data a) (pa_aggregation_bits a);
      Ok (acc ∪ list_to_set indices)) attestations ∅;
  Ok (filter (fun idx => (negb ∘ v_slashed) <$> validator s idx = Some true) output).

Definition get_attesting_balance s (attestations : list PendingAttestation) : fallible Z :=
  indices ← get_unslashed_attesting_indices s attestations;
  Ok (get_total_balance s (elements indices)).

(** ** Weighing *)

(** [bits[1:] = bits[:3]; bits[0] = 0], as the four [set] calls do it. *)
Definition shift_bits (bits : list bool) : list bool :=
  let b0 := bits_get bits 0 in
  let b1 := bits_get bits 1 in
  let b2 := bits_get bits 2 in
  bits_set (bits_set (bits_set (bits_set bits 3 b2) 2 b1) 1 b0) 0 false.

Definition supermajority (target_balance total_active_balance : Z) : bool :=
  wmul total_active_balance 2 <=? wmul target_balance 3.

(** Justify [epoch] with the root of its first slot, setting bit [i]. *)
Definition justify s (bits : list bool) (epoch : Z) (i : nat) (target_balance total : Z)
    : fallible (BeaconState * list bool) :=
  if supermajority target_balance total then
    root ← map_err (fun _ => BlockRootUnavailable) (get_block_root s epoch);
    Ok (with_current_justified_checkpoint s (mkCheckpoint epoch root), bits_set bits i true)
  else Ok (s, bits).

(** The four finalization rules, the last one that applies wins. *)
Definition finalize s (bits : list bool) (old_previous old_current : Checkpoint) (current_epoch : Z)
    : BeaconState :=
  let b0 := bits_get bits 0 in
  let b1 := bits_get bits 1 in
  let b2 := bits_get bits 2 in
  let b3 := bits_get bits 3 in
  let s := if b1 && b2 && b3 && (wadd (cp_epoch old_previous) 3 =? current_epoch)
           then with_finalized_checkpoint s old_previous else s in
  let s := if b1 && b2 && (wadd (cp_epoch old_previous) 2 =? current_epoch)
           then with_finalized_checkpoint s old_previous else s in
  let s := if b0 && b1 && b2 && (wadd (cp_epoch old_current) 2 =? current_epoch)
           then with_finalized_checkpoint s old_current else s in
  if b0 && b1 && (wadd (cp_epoch old_current) 1 =? current_epoch)
  then with_finalized_checkpoint s old_current else s.

Definition weigh_justification_and_finalization s
    (total_active_balance previous_epoch_target_balance current_epoch_target_balance : Z)
    : fallible BeaconState :=
  let previous_epoch := get_previous_epoch s in
  let current_epoch := get_current_epoch s in
  let old_previous := previous_justified_checkpoint s in
  let old_current := current_justified_checkpoint s in
  let s := with_previous_justified_checkpoint s (current_justified_checkpoint s) in
  let bits := shift_bits (justification_bits s) in
  '(s, bits) ← justify s bits previous_epoch 1 previous_epoch_target_balance total_active_balance;
  '(s, bits) ← justify s bits current_epoch 0 current_epoch_target_balance total_active_balance;
  let s := with_justification_bits s bits in
  Ok (finalize s (justification_bits s) old_previous old_current current_epoch).

Definition process_justification_and_finalization s : fallible BeaconState :=
  let current_epoch := get_current_epoch s in
  if current_epoch <=? GENESIS_EPOCH + 1 then Ok s
  else
    let previous_epoch := get_previous_epoch s in
    previous_target_attestations ← get_matching_target_attestations s previous_epoch;
    current_target_attestations ← get_matching_target_attestations s current_epoch;
    let active_indices := get_active_validator_indices s current_epoch in
    let total_active_balance := get_total_balance s active_indices in
    previous_target_balance ← get_attesting_balance s previous_target_attestations;
    current_target_balance ← get_attesting_balance s current_target_attestations;
    weigh_justification_and_finalization s total_active_balance previous_target_balance
      current_target_balance.
End definitions.

(** ** Facts *)
Section facts.
  Context `{Crypto} `{S : BeaconSpec} `{!SpecOk S}.
  Implicit Types s : BeaconState.

(** The order of the checkpoints of a state between two epoch transitions. *)
Definition checkpoints_ordered s : Prop :=
  0 <= cp_epoch (finalized_checkpoint s) <= cp_epoch (previous_justified_checkpoint s) /\
  cp_epoch (previous_justified_checkpoint s) <= cp_epoch (current_justified_checkpoint s) /\
  cp_epoch (current_justified_checkpoint s) <= get_previous_epoch s.

Lemma epoch_at_range s : u64 (slot s) -> 0 <= get_current_epoch s < 2 ^ 63.
Proof using SpecOk0.
  intros [? Hu]. pose proof slots_per_epoch_pos. unfold get_current_epoch, compute_epoch_at_slot, U64 in *.
  split; [apply Z.div_pos; lia|]. apply Z.div_lt_upper_bound; nia.
Qed.

Lemma previous_epoch_at s :
  u64 (slot s) -> get_previous_epoch s = Z.max 0 (get_current_epoch s - 1).
Proof using SpecOk0.
  intros Hw. pose proof (epoch_at_range s Hw). unfold get_previous_epoch, GENESIS_EPOCH.
  destruct (Z.eqb_spec (get_current_epoch s) 0); [lia|].
  rewrite wsub_small by (unfold U64; lia). lia.
Qed.

Lemma previous_epoch_value s :
  wf_state s -> get_previous_epoch s = Z.max 0 (get_current_epoch s - 1).
Proof using SpecOk0. intros Hw. apply previous_epoch_at, Hw. Qed.

(** The finalized checkpoint after the rules is the old one or one of the two
    that were justified before, and nothing else changes. *)
Lemma finalize_spec s bits op oc e :
  exists c, finalize s bits op oc e = with_finalized_checkpoint s c /\
    (c = finalized_checkpoint s \/
     (c = op /\ bits_get bits 1 = true /\ bits_get bits 2 = true) \/
     (c = oc /\ bits_get bits 0 = true /\ bits_get bits 1 = true)).
Proof.
  assert (s = with_finalized_checkpoint s (finalized_checkpoint s)) as Heta by (by destruct s).
  unfold finalize.
  destruct (bits_get bits 0), (bits_get bits 1), (bits_get bits 2), (bits_get bits 3); cbn [andb];
    repeat case_match; cbn; first
    [ exists op; split; [done|]; by auto 6
    | exists oc; split; [done|]; by auto 6
    | exists (finalized_checkpoint s); split; [exact Heta|by left] ].
Qed.

Lemma finalize_rule4 s bits op oc e :
  bits_get bits 0 = true -> bits_get bits 1 = true -> wadd (cp_epoch oc) 1 = e ->
  finalized_checkpoint (finalize s bits op oc e) = oc.
Proof. intros H0 H1 He. unfold finalize. rewrite H0, H1, He, Z.eqb_refl. done. Qed.

Lemma justify_spec s bits e i tb total s' bits' :
  justify s bits e i tb total = Ok (s', bits') ->
  (supermajority tb total = false /\ s' = s /\ bits' = bits) \/
  (supermajority tb total = true /\ exists root, get_block_root s e = Ok root /\
     s' = with_current_justified_checkpoint s (mkCheckpoint e root) /\ bits' = bits_set bits i true).
Proof.
  unfold justify. destruct (supermajority tb total).
  - intros (root & Hr%map_err_Ok & [= <- <-])%bind_Ok_inv. right. eauto.
  - intros [= <- <-]. by left.
Qed.

Lemma length_shift_bits bits : length (shift_bits bits) = length bits.
Proof. unfold shift_bits, bits_set. by rewrite !length_insert. Qed.

(** ** Block roots of the two epochs at the end of an epoch *)
Lemma start_slot_value s e :
  u64 (slot s) -> 0 <= e <= get_current_epoch s ->
  compute_start_slot_at_epoch e SLOTS_PER_EPOCH = e * SLOTS_PER_EPOCH /\
  e * SLOTS_PER_EPOCH <= slot s.
Proof using SpecOk0.
  intros [? Hu] He. pose proof slots_per_epoch_gt0.
  assert (e * SLOTS_PER_EPOCH <= slot s).
  { unfold get_current_epoch, compute_epoch_at_slot in He.
    pose proof (Z.mul_div_le (slot s) SLOTS_PER_EPOCH ltac:(done)). nia. }
  split; [|done]. apply wmul_small. unfold U64 in *. nia.
Qed.

Definition epoch_end s : Prop := (slot s + 1) mod SLOTS_PER_EPOCH = 0.

Lemma epoch_end_slot s :
  u64 (slot s) -> epoch_end s -> slot s = get_current_epoch s * SLOTS_PER_EPOCH + SLOTS_PER_EPOCH - 1.
Proof using SpecOk0.
  intros [? ?] He. unfold epoch_end, get_current_epoch, compute_epoch_at_slot in *.
  pose proof slots_per_epoch_pos.
  apply Z.mod_divide in He as [k Hk]; [|lia].
  assert (slot s = (k - 1) * SLOTS_PER_EPOCH + (SLOTS_PER_EPOCH - 1)) as -> by lia.
  rewrite Z.div_add_l, Z.div_small by lia. lia.
Qed.

Lemma get_block_root_total s e :
  u64 (slot s) -> zlen (block_roots s) = SLOTS_PER_HISTORICAL_ROOT -> slot s + SLOTS_PER_HISTORICAL_ROOT < U64 -> epoch_end s ->
  get_current_epoch s - 1 <= e <= get_current_epoch s -> 0 <= e ->
  exists root, get_block_root s e = Ok root.
Proof using SpecOk0.
  intros Hw Hl Hb Hend He H0. pose proof (epoch_end_slot s Hw Hend) as Hsl.
  destruct (start_slot_value s e Hw ltac:(lia)) as [Hv Hle].
  pose proof slots_per_epoch_pos. pose proof historical_root_two_epochs. pose proof historical_root_pos.
  unfold get_block_root, get_block_root_at_slot. rewrite Hv.
  rewrite wadd_small by nia.
  destruct (Z.ltb_spec (e * SLOTS_PER_EPOCH) (slot s)); [|nia].
  destruct (Z.leb_spec (slot s) (e * SLOTS_PER_EPOCH + SLOTS_PER_HISTORICAL_ROOT)); [|nia].
  cbn [andb negb]. unfold block_root_at.
  pose proof (Z.mod_pos_bound (e * SLOTS_PER_EPOCH) SLOTS_PER_HISTORICAL_ROOT historical_root_gt0).
  unfold zlen in Hl.
  destruct (lookup_lt_is_Some_2 (block_roots s)
    (Z.to_nat ((e * SLOTS_PER_EPOCH) mod SLOTS_PER_HISTORICAL_ROOT))) as [root Hr]; [lia|].
  exists root. by rewrite Hr.
Qed.

(** ** One weighing step *)
Definition justified_checkpoint s (t p c : Z) (cj : Checkpoint) : Prop :=
  (supermajority c t = true /\ cp_epoch cj = get_current_epoch s /\
     get_block_root s (get_current_epoch s) = Ok (cp_root cj)) \/
  (supermajority c t = false /\ supermajority p t = true /\ cp_epoch cj = get_previous_epoch s /\
     get_block_root s (get_previous_epoch s) = Ok (cp_root cj)) \/
  (supermajority c t = false /\ supermajority p t = false /\ cj = current_justified_checkpoint s).

Definition next_bits s (t p c : Z) : list bool :=
  let bits := shift_bits (justification_bits s) in
  let bits := if supermajority p t then bits_set bits 1 true else bits in
  if supermajority c t then bits_set bits 0 true else bits.

Lemma weigh_spec s t p c s' :
  weigh_justification_and_finalization s t p c = Ok s' ->
  exists cj fin,
    s' = with_finalized_checkpoint (with_justification_bits (with_current_justified_checkpoint
      (with_previous_justified_checkpoint s (current_justified_checkpoint s)) cj) (next_bits s t p c)) fin /\
    justified_checkpoint s t p c cj /\
    (fin = finalized_checkpoint s \/ fin = previous_justified_checkpoint s \/
     fin = current_justified_checkpoint s) /\
    (bits_get (next_bits s t p c) 0 = true -> bits_get (next_bits s t p c) 1 = true ->
     wadd (cp_epoch (current_justified_checkpoint s)) 1 = get_current_epoch s ->
     fin = current_justified_checkpoint s).
Proof.
  unfold weigh_justification_and_finalization, next_bits, justified_checkpoint.
  set (s0 := with_previous_justified_checkpoint s (current_justified_checkpoint s)).
  intros ([s1 b1] & H1%justify_spec & ([s2 b2] & H2%justify_spec & [= <-])%bind_Ok_inv)%bind_Ok_inv.
  change (justification_bits (with_justification_bits s2 b2)) with b2.
  destruct (finalize_spec (with_justification_bits s2 b2) b2 (previous_justified_checkpoint s)
    (current_justified_checkpoint s) (get_current_epoch s)) as (fin & Hfin & Hc).
  pose proof (finalize_rule4 (with_justification_bits s2 b2) b2 (previous_justified_checkpoint s)
    (current_justified_checkpoint s) (get_current_epoch s)) as H4.
  rewrite Hfin in H4 |- *. cbn in H4.
  assert (fin = finalized_checkpoint s \/ fin = previous_justified_checkpoint s \/
    fin = current_justified_checkpoint s) as Hf.
  { destruct H1 as [(_ & -> & _)|(_ & ? & _ & -> & _)], H2 as [(_ & -> & _)|(_ & ? & _ & -> & _)];
      cbn in Hc; tauto. }
  destruct H2 as [(-> & -> & ->)|(-> & r2 & Hr2 & -> & ->)],
    H1 as [(-> & -> & ->)|(-> & r1 & Hr1 & -> & ->)];
    (eexists _, fin; split; [reflexivity|]; split; [|split; [exact Hf|exact H4]]).
  - right; right. done.
  - right; left. done.
  - left. done.
  - left. done.
Qed.

Lemma next_bits_length s t p c : length (next_bits s t p c) = length (justification_bits s).
Proof.
  unfold next_bits, bits_set. repeat case_match; rewrite ?length_insert; apply length_shift_bits.
Qed.

Lemma weigh_total s t p c :
  u64 (slot s) -> zlen (block_roots s) = SLOTS_PER_HISTORICAL_ROOT -> slot s + SLOTS_PER_HISTORICAL_ROOT < U64 -> epoch_end s ->
  exists s', weigh_justification_and_finalization s t p c = Ok s'.
Proof using SpecOk0.
  intros Hw Hl Hb He. unfold weigh_justification_and_finalization, justify.
  pose proof (epoch_at_range s Hw). pose proof (previous_epoch_at s Hw).
  destruct (get_block_root_total s (get_previous_epoch s) Hw Hl Hb He) as [rp Hp]; [lia|lia|].
  destruct (get_block_root_total s (get_current_epoch s) Hw Hl Hb He) as [rc Hc]; [lia|lia|].
  set (s0 := with_previous_justified_checkpoint s (current_justified_checkpoint s)).
  change (get_block_root s0 (get_previous_epoch s)) with (get_block_root s (get_previous_epoch s)).
  rewrite Hp. destruct (supermajority p t); cbn [map_err mbind result_bind].
  - change (get_block_root (with_current_justified_checkpoint s0 _) (get_current_epoch s))
      with (get_block_root s (get_current_epoch s)).
    rewrite Hc. destruct (supermajority c t); cbn; eauto.
  - change (get_block_root s0 (get_current_epoch s)) with (get_block_root s (get_current_epoch s)).
    rewrite Hc. destruct (supermajority c t); cbn; eauto.
Qed.

(** The balance that attested to the target of [epoch]. *)
Definition target_balance s (epoch b : Z) : Prop :=
  exists atts, get_matching_target_attestations s epoch = Ok atts /\ get_attesting_balance s atts = Ok b.

Lemma process_jf_cases s s' :
  process_justification_and_finalization s = Ok s' ->
  (get_current_epoch s <= 1 /\ s' = s) \/
  (1 < get_current_epoch s /\ exists p c,
     target_balance s (get_previous_epoch s) p /\ target_balance s (get_current_epoch s) c /\
     weigh_justification_and_finalization s (get_total_active_balance s) p c = Ok s').
Proof.
  unfold process_justification_and_finalization, GENESIS_EPOCH.
  destruct (Z.leb_spec (get_current_epoch s) (0 + 1)).
  { intros [= <-]. left. split; [lia|done]. }
  intros (pa & Hpa & (ca & Hca & (p & Hp & (c & Hc & Hs)%bind_Ok_inv)%bind_Ok_inv)%bind_Ok_inv)%bind_Ok_inv.
  right. split; [lia|]. exists p, c. split_and!; [by exists pa|by exists ca|].
  unfold get_total_active_balance. unfold get_total_balance in Hs. by rewrite active_balances in Hs.
Qed.

Lemma weigh_wf s t p c s' :
  wf_state s -> weigh_justification_and_finalization s t p c = Ok s' -> wf_state s' /\ slot s' = slot s.
Proof.
  intros Hw (cj & fin & -> & _)%weigh_spec. split; [|done].
  apply wf_set_finalized, wf_set_bits; [|by apply wf_set_current_justified, wf_set_previous_justified].
  rewrite next_bits_length. by apply wf_justification_bits.
Qed.

Lemma process_jf_wf s s' :
  wf_state s -> process_justification_and_finalization s = Ok s' -> wf_state s' /\ slot s' = slot s.
Proof.
  intros Hw [[_ ->]|(_ & p & c & _ & _ & Hs)]%process_jf_cases; [done|]. by eapply weigh_wf.
Qed.

Lemma weigh_ordered s t p c s' :
  u64 (slot s) -> checkpoints_ordered s -> 1 < get_current_epoch s ->
  weigh_justification_and_finalization s t p c = Ok s' ->
  cp_epoch (finalized_checkpoint s) <= cp_epoch (finalized_checkpoint s') /\
  cp_epoch (current_justified_checkpoint s) <= cp_epoch (current_justified_checkpoint s') /\
  cp_epoch (finalized_checkpoint s') <= cp_epoch (previous_justified_checkpoint s') /\
  cp_epoch (previous_justified_checkpoint s') <= cp_epoch (current_justified_checkpoint s') /\
  cp_epoch (current_justified_checkpoint s') <= get_current_epoch s'.
Proof using SpecOk0.
  intros Hw (Ho1 & Ho2 & Ho3) He Hs. pose proof (previous_epoch_at s Hw) as Hp.
  apply weigh_spec in Hs as (cj & fin & -> & Hj & Hf & _). cbn.
  change (get_current_epoch _) with (get_current_epoch s).
  assert (cp_epoch (current_justified_checkpoint s) <= cp_epoch cj <= get_current_epoch s)
    by (destruct Hj as [(_ & -> & _)|[(_ & _ & -> & _)|(_ & _ & ->)]]; lia).
  destruct Hf as [-> | [-> | ->] ]; lia.
Qed.

Lemma process_jf_ordered s s' :
  wf_state s -> checkpoints_ordered s -> process_justification_and_finalization s = Ok s' ->
  cp_epoch (finalized_checkpoint s) <= cp_epoch (finalized_checkpoint s') /\
  cp_epoch (current_justified_checkpoint s) <= cp_epoch (current_justified_checkpoint s') /\
  cp_epoch (finalized_checkpoint s') <= cp_epoch (previous_justified_checkpoint s') /\
  cp_epoch (previous_justified_checkpoint s') <= cp_epoch (current_justified_checkpoint s') /\
  cp_epoch (current_justified_checkpoint s') <= get_current_epoch s'.
Proof.
  intros Hw Ho Hs. destruct (process_jf_cases s s' Hs) as [[He ->]|(He & p & c & _ & _ & Hweigh)].
  - destruct Ho as (? & ? & ?). pose proof (previous_epoch_value s Hw).
    pose proof (current_epoch_range s Hw). split_and!; lia.
  - by apply (weigh_ordered s (get_total_active_balance s) p c s' (wf_slot s Hw) Ho He).
Qed.
End facts.

(** ** Properties *)

(** C7: finality never goes back.  From a state whose checkpoints are in order
    (finalized, previous justified, current justified, previous epoch), the
    epoch's justification and finalization keep the finalized and the justified
    epoch from decreasing, keep the order, keep the state well formed, and can
    only finalize a checkpoint that was justified before; a newly justified
    checkpoint is the block at the start of its epoch and was attested by two
    thirds of the active balance. *)
Theorem justification_safe `{Crypto} `{S : BeaconSpec} `{!SpecOk S} (s s' : BeaconState) :
  wf_state s -> checkpoints_ordered s -> process_justification_and_finalization s = Ok s' ->
  wf_state s' /\
  cp_epoch (finalized_checkpoint s) <= cp_epoch (finalized_checkpoint s') /\
  cp_epoch (current_justified_checkpoint s) <= cp_epoch (current_justified_checkpoint s') /\
  cp_epoch (finalized_checkpoint s') <= cp_epoch (previous_justified_checkpoint s') /\
  cp_epoch (previous_justified_checkpoint s') <= cp_epoch (current_justified_checkpoint s') /\
  cp_epoch (current_justified_checkpoint s') <= get_current_epoch s' /\
  (finalized_checkpoint s' = finalized_checkpoint s \/
   finalized_checkpoint s' = previous_justified_checkpoint s \/
   finalized_checkpoint s' = current_justified_checkpoint s) /\
  (current_justified_checkpoint s' = current_justified_checkpoint s \/
   exists b, target_balance s (cp_epoch (current_justified_checkpoint s')) b /\
     supermajority b (get_total_active_balance s) = true /\
     get_block_root s (cp_epoch (current_justified_checkpoint s'))
     = Ok (cp_root (current_justified_checkpoint s'))).
Proof.
  intros Hw Ho Hs. destruct (process_jf_wf s s' Hw Hs) as [Hw' _]. split; [done|].
  destruct (process_jf_ordered s s' Hw Ho Hs) as (? & ? & ? & ? & ?).
  destruct (process_jf_cases s s' Hs) as [[He ->]|(He & p & c & Hp & Hc & Hweigh)].
  { split_and!; [lia..|by left|by left]. }
  split_and!; [done..| |]; apply weigh_spec in Hweigh as (cj & fin & -> & Hj & Hf & _); cbn.
  - done.
  - destruct Hj as [(Hsm & He' & Hr)|[(_ & Hsm & He' & Hr)|(_ & _ & ->)]];
      [right; rewrite He'; by exists c|right; rewrite He'; by exists p|by left].
Qed.

(** Two consecutive justified epochs finalize the first.  When the current
    epoch's target has the supermajority, the current justified checkpoint is
    that of the previous epoch, and the previous epoch is (or becomes)
    justified, that checkpoint is finalized; at the end of an epoch the step
    cannot fail once the balances are known. *)
Theorem consecutive_justification_finalizes `{Crypto} `{S : BeaconSpec} `{!SpecOk S}
    (s : BeaconState) t p c :
  wf_state s -> slot s + SLOTS_PER_HISTORICAL_ROOT < U64 -> epoch_end s ->
  1 < get_current_epoch s ->
  cp_epoch (current_justified_checkpoint s) = get_previous_epoch s ->
  supermajority c t = true ->
  supermajority p t = true \/ bits_get (justification_bits s) 0 = true ->
  exists s', weigh_justification_and_finalization s t p c = Ok s' /\
    finalized_checkpoint s' = current_justified_checkpoint s /\
    cp_epoch (current_justified_checkpoint s') = get_current_epoch s.
Proof.
  intros Hw Hb He H1 Hcj Hc Hp. destruct (weigh_total s t p c (wf_slot s Hw) (wf_block_roots s Hw) Hb He) as [s' Hs].
  exists s'. split; [done|]. pose proof (current_epoch_range s Hw).
  rewrite (previous_epoch_value s Hw) in Hcj.
  apply weigh_spec in Hs as (cj & fin & -> & Hj & _ & H4). cbn.
  pose proof (wf_justification_bits s Hw) as Hlen.
  destruct (justification_bits s) as [|b0 [|b1 [|b2 [|b3 [|]]]]] eqn:Hbits; try done.
  assert (bits_get (next_bits s t p c) 0 = true /\ bits_get (next_bits s t p c) 1 = true) as [Hn0 Hn1].
  { unfold next_bits. rewrite Hc, Hbits. destruct Hp as [Hp|Hp].
    - rewrite Hp. split; reflexivity.
    - cbn in Hp. subst b0. destruct (supermajority p t); split; reflexivity. }
  split.
  - apply H4; [done|done|]. rewrite wadd_small by (unfold U64; lia). lia.
  - destruct Hj as [(_ & Hj & _)|[(Hj & _)|(Hj & _)]]; congruence.
Qed.

(** ** Witnesses: the last slot of epoch 2, every committee having attested *)
Definition ex_pending (sl : Z) : PendingAttestation :=
  mkPendingAttestation (mkBitlist [Byte.x07] 3)
    (mkAttestationData sl 0 (replicate 32 Byte.x07) (mkCheckpoint 0 zero_chunk)
      (mkCheckpoint 2 (replicate 32 Byte.x07))) 1 0.

Definition ex_attested : BeaconState :=
  with_current_epoch_attestations (ex_state 23) (ex_pending <$> seqZ 16 8).

Lemma ex_attested_wf : @wf_state minimal ex_attested.
Proof.
  assert (@wf_state minimal (ex_state 23)) as [] by (apply ex_state_wf; unfold u64, U64; lia).
  constructor; try assumption; cbn; unfold zlen; rewrite ?length_fmap, ?length_seqZ; lia.
Qed.

Lemma justification_safe_witness :
  exists s', @process_justification_and_finalization ex_crypto minimal ex_attested = Ok s' /\
    @wf_state minimal s' /\ cp_epoch (current_justified_checkpoint s') = 2 /\
    cp_epoch (finalized_checkpoint ex_attested) <= cp_epoch (finalized_checkpoint s').
Proof.
  destruct (@process_justification_and_finalization ex_crypto minimal ex_attested) as [s'| |] eqn:Hs;
    [|vm_compute in Hs; discriminate..].
  destruct (@justification_safe ex_crypto minimal _ ex_attested s') as (Hw & Hf & _).
  - apply ex_attested_wf.
  - vm_compute. split_and!; discriminate.
  - exact Hs.
  - exists s'. split_and!; [reflexivity|exact Hw| |exact Hf].
    assert ((cp_epoch ∘ current_justified_checkpoint) <$>
      (match @process_justification_and_finalization ex_crypto minimal ex_attested with
       | Ok s => Some s | _ => None end) = Some 2) as He by (vm_compute; reflexivity).
    rewrite Hs in He. by injection He.
Defined.

Lemma consecutive_justification_finalizes_witness :
  let s := with_current_justified_checkpoint ex_attested (mkCheckpoint 1 zero_chunk) in
  exists s', @weigh_justification_and_finalization minimal s 90 60 60 = Ok s' /\
    cp_epoch (finalized_checkpoint s') = 1.
Proof.
  intros s. destruct (@consecutive_justification_finalizes ex_crypto minimal _ s 90 60 60)
    as (s' & Hs & Hf & _).
  - apply wf_set_current_justified, ex_attested_wf.
  - vm_compute. reflexivity.
  - vm_compute. reflexivity.
  - vm_compute. reflexivity.
  - vm_compute. reflexivity.
  - vm_compute. reflexivity.
  - left. vm_compute. reflexivity.
  - exists s'. split; [exact Hs|]. rewrite Hf. reflexivity.
Defined.
