(* ===== verification/Rewards.v ===== *)
(** * Rewards and penalties

    crates/pharos-stf/src/phase0/epoch/rewards_and_penalties.rs. *)

From Stdlib Require Import ZArith Lia.
From S2P Require Import Prelude SszCodec SszBitfield SszTypes Merkle Shuffling Spec BeaconState Invariant Roots Accessors Mutators Justification.

Section definitions.
  Context `{Crypto} `{BeaconSpec}.
  Implicit Types s : BeaconState.
  Local Abbreviation fallible := (result EpochProcessingError).

Definition get_finality_delay s : Z :=
  sat_sub (get_previous_epoch s) (cp_epoch (finalized_checkpoint s)).

Definition is_in_inactivity_leak s : bool := MIN_EPOCHS_TO_INACTIVITY_PENALTY <? get_finality_delay s.

Definition is_eligible (previous_epoch : Z) (v : Validator) : bool :=
  is_active_validator v previous_epoch
  || (v_slashed v && (wadd previous_epoch 1 <? v_withdrawable_epoch v)).

Definition get_eligible_validator_indices s : list Z :=
  let previous_epoch := get_previous_epoch s in
  omap (fun '(i, v) => if is_eligible previous_epoch v then Some i else None)
    (enumerate (validators s)).

(** The [base_reward] closures: [sqrt_total_balance] is computed once. *)
Definition base_reward s (sqrt_total_balance idx : Z) : fallible Z :=
  let effective_balance := default 0 (v_effective_balance <$> validator s idx) in
  q ← rdiv (wmul effective_balance BASE_REWARD_FACTOR) sqrt_total_balance;
  Ok (q / BASE_REWARDS_PER_EPOCH).

Definition zeros s : list Z := replicate (Z.to_nat (num_validators s)) 0.

(** One turn of the loop of [get_attestation_component_deltas]. *)
Definition component_step s (unslashed : gset Z) (attesting_balance total_balance sqrt : Z)
    (inactivity_leak : bool) (acc : list Z * list Z) (idx : Z) : fallible (list Z * list Z) :=
  let '(rewards, penalties) := acc in
  base ← base_reward s sqrt idx;
  if decide (idx ∈ unslashed) then
    if inactivity_leak then
      rewards ← vec_add rewards idx base; Ok (rewards, penalties)
    else
      let reward_numerator := wmul base (attesting_balance / EFFECTIVE_BALANCE_INCREMENT) in
      r ← rdiv reward_numerator (total_balance / EFFECTIVE_BALANCE_INCREMENT);
      rewards ← vec_add rewards idx r; Ok (rewards, penalties)
  else
    penalties ← vec_add penalties idx base; Ok (rewards, penalties).

Definition get_attestation_component_deltas s (attestations : list PendingAttestation)
    : fallible (list Z * list Z) :=
  let total_balance := get_total_active_balance s in
  unslashed ← get_unslashed_attesting_indices s attestations;
  let attesting_balance := get_total_balance s (elements unslashed) in
  let inactivity_leak := is_in_inactivity_leak s in
  sqrt_total_balance ← integer_squareroot total_balance;
  foldM (component_step s unslashed attesting_balance total_balance sqrt_total_balance inactivity_leak)
    (get_eligible_validator_indices s) (zeros s, zeros s).

(** [Deltas<1_099_511_627_776>]. *)
Definition build_deltas (deltas : list Z * list Z) : fallible (list Z * list Z) :=
  let '(rewards, penalties) := deltas in
  if 1099511627776 <? zlen rewards
  then Err (EpochSsz (ListLimitExceeded (zlen rewards) 1099511627776))
  else if 1099511627776 <? zlen penalties
  then Err (EpochSsz (ListLimitExceeded (zlen penalties) 1099511627776))
  else Ok (rewards, penalties).

Definition get_source_deltas s : fallible (list Z * list Z) :=
  atts ← get_matching_source_attestations s (get_previous_epoch s);
  d ← get_attestation_component_deltas s atts; build_deltas d.
Definition get_target_deltas s : fallible (list Z * list Z) :=
  atts ← get_matching_target_attestations s (get_previous_epoch s);
  d ← get_attestation_component_deltas s atts; build_deltas d.
Definition get_head_deltas s : fallible (list Z * list Z) :=
  atts ← get_matching_head_attestations s (get_previous_epoch s);
  d ← get_attestation_component_deltas s atts; build_deltas d.

(** [.iter().filter(..).min_by_key(|a| a.inclusion_delay)]: the first of the
    least delay among those [idx] attested in. *)
Definition best_attestation s (idx : Z) (atts : list PendingAttestation)
    : fallible (option PendingAttestation) :=
  foldM (fun best a =>
      indices ← get_attesting_indices s (pa_data a) (pa_aggregation_bits a);
      Ok (if decide (idx ∈ indices) then
            match best with
            | Some b => if pa_inclusion_delay a <? pa_inclusion_delay b then Some a else Some b
            | None => Some a
            end
          else best)) atts None.

Definition inclusion_step s (matching_source : list PendingAttestation) (sqrt : Z)
    (rewards : list Z) (idx : Z) : fallible (list Z) :=
  let n := num_validators s in
  best ← best_attestation s idx matching_source;
  match best with
  | None => Ok rewards
  | Some att =>
      base ← base_reward s sqrt idx;
      let proposer_reward := base / PROPOSER_REWARD_QUOTIENT in
      let proposer_i := pa_proposer_index att in
      rewards ← (if proposer_i <? n then vec_add rewards proposer_i proposer_reward else Ok rewards);
      let max_attester_reward := sat_sub base proposer_reward in
      let delay := Z.max (pa_inclusion_delay att) 1 in
      if idx <? n then vec_add rewards idx (max_attester_reward / delay) else Ok rewards
  end.

Definition get_inclusion_delay_deltas s : fallible (list Z * list Z) :=
  matching_source ← get_matching_source_attestations s (get_previous_epoch s);
  unslashed ← get_unslashed_attesting_indices s matching_source;
  sqrt_total_balance ← integer_squareroot (get_total_active_balance s);
  rewards ← foldM (inclusion_step s matching_source sqrt_total_balance) (elements unslashed) (zeros s);
  build_deltas (rewards, zeros s).

Definition inactivity_step s (matching_target_attesting : gset Z) (finality_delay sqrt : Z)
    (penalties : list Z) (idx : Z) : fallible (list Z) :=
  base ← base_reward s sqrt idx;
  let proposer_reward := base / PROPOSER_REWARD_QUOTIENT in
  penalties ← vec_add penalties idx (wsub (wmul BASE_REWARDS_PER_EPOCH base) proposer_reward);
  if decide (idx ∈ matching_target_attesting) then Ok penalties
  else
    let effective_balance := default 0 (v_effective_balance <$> validator s idx) in
    vec_add penalties idx (wmul effective_balance finality_delay / INACTIVITY_PENALTY_QUOTIENT).

Definition get_inactivity_penalty_deltas s : fallible (list Z * list Z) :=
  if is_in_inactivity_leak s then
    matching_target ← get_matching_target_attestations s (get_previous_epoch s);
    matching_target_attesting ← get_unslashed_attesting_indices s matching_target;
    let finality_delay := get_finality_delay s in
    sqrt_total_balance ← integer_squareroot (get_total_active_balance s);
    penalties ← foldM (inactivity_step s matching_target_attesting finality_delay sqrt_total_balance)
                  (get_eligible_validator_indices s) (zeros s);
    build_deltas (zeros s, penalties)
  else build_deltas (zeros s, zeros s).

(** [list.get(i).copied().unwrap_or(Gwei(0))]. *)
Definition delta_at (l : list Z) (i : Z) : Z := default 0 (l !! Z.to_nat i).

Definition get_attestation_deltas s : fallible (list Z * list Z) :=
  source ← get_source_deltas s;
  target ← get_target_deltas s;
  head ← get_head_deltas s;
  inclusion ← get_inclusion_delay_deltas s;
  inactivity ← get_inactivity_penalty_deltas s;
  let indices := seqZ 0 (num_validators s) in
  Ok ((fun i => wadd (wadd (wadd (delta_at source.1 i) (delta_at target.1 i)) (delta_at head.1 i))
                  (delta_at inclusion.1 i)) <$> indices,
      (fun i => wadd (wadd (wadd (delta_at source.2 i) (delta_at target.2 i)) (delta_at head.2 i))
                  (delta_at inactivity.2 i)) <$> indices).

Definition apply_deltas (rewards penalties : list Z) s (i : Z) : fallible BeaconState :=
  r ← index rewards i;
  s ← map_err epoch_error (increase_balance s i r);
  p ← index penalties i;
  map_err epoch_error (decrease_balance s i p).

Definition process_rewards_and_penalties s : fallible BeaconState :=
  if get_current_epoch s =? GENESIS_EPOCH then Ok s
  else
    '(rewards, penalties) ← get_attestation_deltas s;
    foldM (apply_deltas rewards penalties) (seqZ 0 (num_validators s)) s.
End definitions.

(** ** The deltas, position by position *)
Section facts.
  Context `{Crypto} `{S : BeaconSpec} `{!SpecOk S}.
  Implicit Types s : BeaconState.

(** What one validator earns and loses in one component. *)
Definition base_reward_of s (i : Z) : Z :=
  wmul (default 0 (v_effective_balance <$> validator s i)) BASE_REWARD_FACTOR
  / Z.sqrt (get_total_active_balance s) / BASE_REWARDS_PER_EPOCH.
Definition participation_reward s (unslashed : gset Z) (i : Z) : Z :=
  if is_in_inactivity_leak s then base_reward_of s i
  else wmul (base_reward_of s i)
         (get_total_balance s (elements unslashed) / EFFECTIVE_BALANCE_INCREMENT)
       / (get_total_active_balance s / EFFECTIVE_BALANCE_INCREMENT).
Definition component_delta s (unslashed : gset Z) (i : Z) : Z * Z :=
  if decide (i ∈ get_eligible_validator_indices s) then
    if decide (i ∈ unslashed) then (participation_reward s unslashed i, 0) else (0, base_reward_of s i)
  else (0, 0).
Definition add_delta s (unslashed : gset Z) (i : Z) (d : Z * Z) : Z * Z :=
  if decide (i ∈ unslashed) then (wadd d.1 (participation_reward s unslashed i), d.2)
  else (d.1, wadd d.2 (base_reward_of s i)).

Definition both (d : list Z * list Z) (k : nat) : option (Z * Z) :=
  a ← d.1 !! k; b ← d.2 !! k; Some (a, b).

Lemma both_Some r p i a b : both (r, p) i = Some (a, b) <-> r !! i = Some a /\ p !! i = Some b.
Proof.
  unfold both. cbn. destruct (r !! i), (p !! i); cbn; split; intros Hb; try done;
    [by simplify_eq|by destruct Hb; simplify_eq|by destruct Hb..].
Qed.

Lemma both_insert r p r' p' i a b a' b' :
  both (r, p) i = Some (a, b) ->
  (r' = r /\ a' = a \/ r' = <[i := a']> r) -> (p' = p /\ b' = b \/ p' = <[i := b']> p) ->
  both (r', p') i = Some (a', b') /\ forall j, j <> i -> both (r', p') j = both (r, p) j.
Proof.
  intros [Hr Hp]%both_Some Hr' Hp'. rewrite both_Some. unfold both. cbn.
  destruct Hr' as [ [-> ->]| ->], Hp' as [ [-> ->]| ->]; split_and!; try done;
    try (apply list_lookup_insert_eq; by eapply lookup_lt_Some);
    intros j Hj; by rewrite ?list_lookup_insert_ne.
Qed.

Lemma vec_add_Ok {E} (l : list Z) i old x :
  0 <= i -> l !! Z.to_nat i = Some old ->
  vec_add (E:=E) l i x = Ok (<[Z.to_nat i := wadd old x]> l).
Proof. intros Hi Hl. unfold vec_add. by rewrite (proj2 (index_Ok_iff l i old)). Qed.

Lemma wsum_u64 l : u64 (wsum l).
Proof.
  unfold wsum. assert (u64 0) as H0 by (unfold u64, U64; lia). revert H0. generalize 0.
  induction l as [|x l IH]; intros a Ha; cbn; [done|]. apply IH, wadd_u64.
Qed.

Lemma total_active_balance_bounds s :
  EFFECTIVE_BALANCE_INCREMENT <= get_total_active_balance s < U64.
Proof.
  unfold get_total_active_balance. pose proof increment_pos. pose proof max_effective_bound.
  assert (2 ^ 40 < U64) by done.
  pose proof (wsum_u64 (v_effective_balance <$>
    filter (fun v => is_active_validator v (get_current_epoch s) = true) (validators s))) as [? ?]. lia.
Qed.

Lemma div_u64 a b : u64 a -> 0 <= b -> u64 (a / b).
Proof.
  intros [? ?] Hb. destruct (decide (b = 0)) as [->|]; [by rewrite Z.div_0_r|].
  split; [by apply Z.div_pos; lia|]. eapply Z.le_lt_trans; [|done].
  apply Z.div_le_upper_bound; nia.
Qed.

Lemma base_reward_Ok s i :
  base_reward s (Z.sqrt (get_total_active_balance s)) i = Ok (base_reward_of s i) /\
  u64 (base_reward_of s i).
Proof.
  pose proof (total_active_balance_bounds s). pose proof increment_pos.
  assert (0 < Z.sqrt (get_total_active_balance s)) by (apply Z.sqrt_pos; lia). split.
  - unfold base_reward, rdiv. rewrite (proj2 (Z.eqb_neq _ _)) by lia. done.
  - unfold base_reward_of. pose proof base_reward_pos.
    repeat apply div_u64; [apply wmul_u64|lia..].
Qed.

Lemma wadd_0_l x : u64 x -> wadd 0 x = x.
Proof. intros [? ?]. apply wadd_small. lia. Qed.

Lemma component_step_Ok s unslashed d i x :
  0 <= i -> both d (Z.to_nat i) = Some x ->
  exists d', component_step s unslashed (get_total_balance s (elements unslashed))
      (get_total_active_balance s) (Z.sqrt (get_total_active_balance s)) (is_in_inactivity_leak s) d i
    = Ok d' /\ True /\ both d' (Z.to_nat i) = Some (add_delta s unslashed i x) /\
    forall j, j <> Z.to_nat i -> both d' j = both d j.
Proof.
  intros Hi Hd. destruct d as [r p], x as [a b]. destruct (base_reward_Ok s i) as [Hbase Hb].
  pose proof (total_active_balance_bounds s). pose proof increment_pos.
  assert (0 < get_total_active_balance s / EFFECTIVE_BALANCE_INCREMENT) by (apply Z.div_str_pos; lia).
  pose proof (proj1 (both_Some _ _ _ _ _) Hd) as [Hr Hp].
  unfold component_step, add_delta, participation_reward. rewrite Hbase. cbn.
  destruct (decide (i ∈ unslashed)); [destruct (is_in_inactivity_leak s)|].
  - rewrite (vec_add_Ok r i a) by done. eexists. do 2 (split; [done|]).
    eapply both_insert; [done|by right|by left].
  - unfold rdiv. rewrite (proj2 (Z.eqb_neq _ _)) by lia. cbn. rewrite (vec_add_Ok r i a) by done.
    eexists. do 2 (split; [done|]). eapply both_insert; [done|by right|by left].
  - rewrite (vec_add_Ok p i b) by done. eexists. do 2 (split; [done|]).
    eapply both_insert; [done|by left|by right].
Qed.

Lemma elem_of_eligible s i :
  i ∈ get_eligible_validator_indices s <->
  0 <= i /\ exists v, validator s i = Some v /\ is_eligible (get_previous_epoch s) v = true.
Proof.
  unfold get_eligible_validator_indices. rewrite list_elem_of_omap. split.
  - intros ([j v] & (Hj & Hv)%elem_of_enumerate & Hb). destruct (is_eligible _ v) eqn:He; simplify_eq. eauto.
  - intros (Hi & v & Hv & Ha). exists (i, v). rewrite elem_of_enumerate, Ha. done.
Qed.

Lemma NoDup_eligible s : NoDup (get_eligible_validator_indices s).
Proof. apply NoDup_omap_enumerate_from. Qed.

Lemma zeros_lookup s k : (k < length (validators s))%nat -> zeros s !! k = Some 0.
Proof. intros Hk. unfold zeros, num_validators, zlen. by apply lookup_replicate_2; lia. Qed.

Lemma add_delta_0 s unslashed i :
  i ∈ get_eligible_validator_indices s ->
  add_delta s unslashed i (0, 0) = component_delta s unslashed i.
Proof.
  intros Hi. unfold add_delta, component_delta.
  rewrite (decide_True (P := i ∈ get_eligible_validator_indices s)) by done. cbn.
  destruct (base_reward_Ok s i) as [_ Hb]. pose proof (total_active_balance_bounds s).
  pose proof increment_pos. destruct (decide (i ∈ unslashed)); rewrite wadd_0_l; try done.
  unfold participation_reward. destruct (is_in_inactivity_leak s); [done|].
  apply div_u64; [apply wmul_u64|]. apply Z.div_pos; lia.
Qed.

Lemma component_deltas_Ok s atts unslashed :
  get_unslashed_attesting_indices s atts = Ok unslashed ->
  exists d, get_attestation_component_deltas s atts = Ok d /\
    forall k, both d k = if decide (Z.of_nat k < num_validators s)
      then Some (component_delta s unslashed (Z.of_nat k)) else None.
Proof.
  intros Hu. unfold get_attestation_component_deltas. rewrite Hu. cbn.
  pose proof (total_active_balance_bounds s). pose proof increment_pos.
  rewrite integer_squareroot_Ok by (unfold u64_max; lia). cbn.
  assert (forall k, both (zeros s, zeros s) k =
    if decide (Z.of_nat k < num_validators s) then Some (0, 0) else None) as Hz.
  { intros k. unfold both, zeros, num_validators, zlen. cbn. destruct (decide _).
    - by rewrite lookup_replicate_2 by lia.
    - by rewrite (lookup_ge_None_2 (replicate _ _)) by (rewrite length_replicate; lia). }
  destruct (foldM_pointwise (component_step s unslashed (get_total_balance s (elements unslashed))
      (get_total_active_balance s) (Z.sqrt (get_total_active_balance s)) (is_in_inactivity_leak s))
    Z.to_nat both (fun _ => True) (add_delta s unslashed) (get_eligible_validator_indices s)
    (zeros s, zeros s)) as (d & Hd & _ & Hin & Hout).
  - intros d i x _ [Hi _]%elem_of_eligible. by apply component_step_Ok.
  - apply NoDup_to_nat; [apply NoDup_eligible|]. by intros i [Hi _]%elem_of_eligible.
  - done.
  - intros i (Hi & v & Hv & _)%elem_of_eligible. rewrite Hz, decide_True; [by eexists|].
    apply lookup_lt_Some in Hv. unfold num_validators, zlen. lia.
  - exists d. split; [done|]. intros k.
    destruct (decide (Z.of_nat k ∈ get_eligible_validator_indices s)) as [He|He].
    + specialize (Hin _ He). rewrite Nat2Z.id, Hz in Hin. rewrite Hin.
      destruct (decide _); [|done]. cbn. by rewrite add_delta_0.
    + rewrite Hout, Hz.
      { unfold component_delta. by rewrite (decide_False (P := _ ∈ _)) by done. }
      intros (i & -> & Hi)%list_elem_of_fmap. pose proof (proj1 (elem_of_eligible _ _) Hi) as [? _].
      rewrite Z2Nat.id in He by done. done.
Qed.

(** ** Applying the deltas *)
Definition apply_delta (rewards penalties : list Z) (i b : Z) : Z :=
  sat_sub (sat_add b (delta_at rewards i)) (delta_at penalties i).

Lemma set_balance_at s i b :
  0 <= i < zlen (balances s) ->
  set_balance s i b = Ok (with_balances s (<[Z.to_nat i := b]> (balances s))).
Proof. intros Hi. apply set_balance_Ok. split; [lia|done]. Qed.

Lemma apply_deltas_Ok rewards penalties s i b :
  0 <= i < zlen rewards -> 0 <= i < zlen penalties -> balances s !! Z.to_nat i = Some b ->
  apply_deltas rewards penalties s i
  = Ok (with_balances s (<[Z.to_nat i := apply_delta rewards penalties i b]> (balances s))).
Proof.
  intros Hr Hp Hb. pose proof (lookup_lt_Some _ _ _ Hb) as Hlt. unfold zlen in Hr, Hp.
  destruct (lookup_lt_is_Some_2 rewards (Z.to_nat i)) as [r Hr']; [lia|].
  destruct (lookup_lt_is_Some_2 penalties (Z.to_nat i)) as [p Hp']; [lia|].
  unfold apply_deltas, apply_delta, delta_at.
  rewrite (proj2 (index_Ok_iff rewards i r)), (proj2 (index_Ok_iff penalties i p)) by (split; [lia|done]).
  rewrite Hr', Hp'. unfold increase_balance, decrease_balance, balance_at. rewrite Hb. cbn.
  rewrite set_balance_at by (unfold zlen; lia). cbn. unfold balance_at. cbn.
  rewrite list_lookup_insert_eq by done. cbn. unfold id. cbn.
  rewrite set_balance_at by (cbn; rewrite zlen_insert; unfold zlen; lia). cbn.
  rewrite list_insert_insert_eq. do 2 f_equal. f_equal. unfold sat_sub.
  destruct (Z.ltb_spec (sat_add b r) p); lia.
Qed.

Lemma attestation_deltas_ranges s r p :
  get_attestation_deltas s = Ok (r, p) ->
  zlen r = num_validators s /\ zlen p = num_validators s /\ Forall u64 r /\ Forall u64 p.
Proof.
  unfold get_attestation_deltas. intros Hd.
  repeat (apply bind_Ok_inv in Hd as (? & _ & Hd)). injection Hd as <- <-.
  rewrite !zlen_fmap. unfold zlen at 1 2. rewrite length_seqZ. unfold num_validators.
  pose proof (zlen_nonneg (validators s)).
  split_and!; [lia|lia|..]; apply Forall_fmap, Forall_forall; intros; apply wadd_u64.
Qed.

Lemma delta_at_u64 l i : Forall u64 l -> u64 (delta_at l i).
Proof.
  intros Hl. unfold delta_at. destruct (l !! Z.to_nat i) as [x|] eqn:Hx; cbn.
  - by eapply Forall_lookup_1 in Hl.
  - unfold u64, id, U64. lia.
Qed.

Lemma apply_delta_u64 r p i b : Forall u64 r -> Forall u64 p -> u64 b -> u64 (apply_delta r p i b).
Proof.
  intros Hr Hp Hb. pose proof (delta_at_u64 r i Hr). pose proof (delta_at_u64 p i Hp).
  unfold apply_delta, sat_sub, sat_add, u64, u64_max, U64 in *. lia.
Qed.

Lemma apply_all_deltas s r p :
  wf_state s -> zlen r = num_validators s -> zlen p = num_validators s -> Forall u64 r -> Forall u64 p ->
  exists bs, foldM (apply_deltas r p) (seqZ 0 (num_validators s)) s = Ok (with_balances s bs) /\
    wf_state (with_balances s bs) /\
    (forall k b, balances s !! k = Some b -> bs !! k = Some (apply_delta r p (Z.of_nat k) b)).
Proof.
  intros Hw Hr Hp Hur Hup. pose proof (wf_balances_length s Hw) as Hlen.
  destruct (foldM_pointwise (apply_deltas r p) Z.to_nat (fun s' k => balances s' !! k)
    (fun s' => wf_state s' /\ exists bs, s' = with_balances s bs) (apply_delta r p)
    (seqZ 0 (num_validators s)) s) as (s' & Hs' & [Hw' [bs ->] ] & Hin & _).
  - intros s1 i b [Hw1 [bs ->] ] [? ?]%elem_of_seqZ Hb.
    rewrite (apply_deltas_Ok r p _ i b) by (done || lia). eexists. split; [done|].
    pose proof (lookup_lt_Some _ _ _ Hb). split_and!.
    + eapply (wf_set_balance _ i); [exact Hw1| |apply set_balance_Ok; split; [unfold zlen; lia|done] ].
      apply apply_delta_u64; [done..|]. by eapply Forall_lookup_1 in Hb; [|apply wf_balances].
    + by eexists.
    + by apply list_lookup_insert_eq.
    + intros j Hj. by apply list_lookup_insert_ne.
  - apply NoDup_to_nat; [apply NoDup_seqZ|]. by intros i [? ?]%elem_of_seqZ.
  - split; [done|]. exists (balances s). by destruct s.
  - intros i [? ?]%elem_of_seqZ. apply lookup_lt_is_Some_2. unfold num_validators, zlen in *. lia.
  - exists bs. split_and!; [done..|]. intros k b Hb. specialize (Hin (Z.of_nat k)).
    rewrite Nat2Z.id, Hb in Hin. apply Hin.
    apply lookup_lt_Some in Hb. apply elem_of_seqZ. unfold num_validators, zlen. lia.
Qed.
End facts.

(** ** Properties *)

(** The attestation deltas of one component.  Once the attesting set is
    known the computation cannot fail, and each validator is treated on its own:
    an ineligible one gets nothing; an eligible attester gets the base reward in
    a leak, and otherwise the base reward scaled by the attesting share of the
    active balance; an eligible absentee is charged the base reward.  Nobody is
    both rewarded and charged, and no divisor is zero. *)
Theorem component_deltas_pointwise `{Crypto} `{S : BeaconSpec} `{!SpecOk S} (s : BeaconState) atts unslashed :
  get_unslashed_attesting_indices s atts = Ok unslashed ->
  exists rewards penalties,
    get_attestation_component_deltas s atts = Ok (rewards, penalties) /\
    forall k, Z.of_nat k < num_validators s ->
      rewards !! k = Some (component_delta s unslashed (Z.of_nat k)).1 /\
      penalties !! k = Some (component_delta s unslashed (Z.of_nat k)).2.
Proof.
  intros Hu. destruct (component_deltas_Ok s atts unslashed Hu) as ([r p] & Hd & Hk).
  exists r, p. split; [done|]. intros k Hlt. specialize (Hk k). rewrite decide_True in Hk by done.
  destruct (component_delta s unslashed (Z.of_nat k)) as [a b]. by apply both_Some in Hk.
Qed.

(** Rewards and penalties touch the balances only.  Given the epoch's
    deltas the step succeeds; the balance of every validator becomes its old
    balance plus its own reward minus its own penalty, saturating at both ends
    of [u64], and the state stays well formed. *)
Theorem rewards_applied_pointwise `{Crypto} `{S : BeaconSpec} `{!SpecOk S} (s : BeaconState) rewards penalties :
  wf_state s -> get_current_epoch s <> GENESIS_EPOCH ->
  get_attestation_deltas s = Ok (rewards, penalties) ->
  exists bs, process_rewards_and_penalties s = Ok (with_balances s bs) /\
    wf_state (with_balances s bs) /\
    (forall k b, balances s !! k = Some b ->
       bs !! k = Some (sat_sub (sat_add b (delta_at rewards (Z.of_nat k)))
                         (delta_at penalties (Z.of_nat k)))).
Proof.
  intros Hw He Hd. destruct (attestation_deltas_ranges s rewards penalties Hd) as (? & ? & ? & ?).
  unfold process_rewards_and_penalties. rewrite (proj2 (Z.eqb_neq _ _)), Hd by done.
  by apply apply_all_deltas.
Qed.

Lemma component_deltas_pointwise_witness :
  exists unslashed rewards penalties,
    @get_unslashed_attesting_indices ex_crypto minimal ex_attested [ex_pending 16] = Ok unslashed /\
    @get_attestation_component_deltas ex_crypto minimal ex_attested [ex_pending 16]
      = Ok (rewards, penalties) /\
    forall k, Z.of_nat k < num_validators ex_attested ->
      rewards !! k = Some (@component_delta minimal ex_attested unslashed (Z.of_nat k)).1.
Proof.
  destruct (@get_unslashed_attesting_indices ex_crypto minimal ex_attested [ex_pending 16])
    as [u| |] eqn:Hu; [|vm_compute in Hu; discriminate..].
  destruct (@component_deltas_pointwise ex_crypto minimal _ ex_attested [ex_pending 16] u Hu)
    as (r & p & Hd & Hk).
  exists u, r, p. split_and!; [reflexivity|exact Hd|]. intros k Hlt. by apply Hk.
Defined.

Lemma rewards_applied_pointwise_witness :
  exists rewards penalties bs,
    @get_attestation_deltas ex_crypto minimal ex_attested = Ok (rewards, penalties) /\
    @process_rewards_and_penalties ex_crypto minimal ex_attested = Ok (with_balances ex_attested bs).
Proof.
  destruct (@get_attestation_deltas ex_crypto minimal ex_attested) as [ [r p]| |] eqn:Hd;
    [|vm_compute in Hd; discriminate..].
  destruct (@rewards_applied_pointwise ex_crypto minimal _ ex_attested r p) as (bs & Hs & _).
  - apply ex_attested_wf.
  - vm_compute. discriminate.
  - exact Hd.
  - exists r, p, bs. split; [reflexivity|exact Hs].
Defined.
