(* ===== verification/EpochUpdates.v ===== *)
(** * The rest of epoch processing

    crates/pharos-stf/src/phase0/epoch: registry_updates.rs, slashings.rs,
    final_updates.rs and [process_epoch] of mod.rs.  The parallel map of
    [process_effective_balance_updates] reads a snapshot and writes nothing, so
    it is the map over that snapshot. *)

From Stdlib Require Import ZArith Lia.
From stdpp Require Import sorting.
From S2P Require Import Prelude SszCodec SszBitfield SszTypes Merkle Shuffling Spec BeaconState Invariant Roots Accessors Mutators Justification Rewards.

(** The key [(activation_eligibility_epoch, index)] of the activation queue, on
    entries [(index, epoch)]. *)
Definition queue_le (a b : Z * Z) : Prop := a.2 < b.2 \/ (a.2 = b.2 /\ a.1 <= b.1).
#[global] Instance queue_le_dec a b : Decision (queue_le a b).
Proof. unfold queue_le. apply _. Defined.

Section definitions.
  Context `{Crypto} `{BeaconSpec}.
  Implicit Types s : BeaconState.
  Local Abbreviation fallible := (result EpochProcessingError).

(** ** registry_updates.rs *)
Definition EJECTION_BALANCE : Z := 16000000000.

Definition registry_step (current_epoch : Z) s (idx : Z) : fallible BeaconState :=
  v ← ok_or (validator s idx) (ValidatorIndexOutOfRange idx);
  let is_queue_eligible := is_eligible_for_activation_queue v in
  let should_eject :=
    is_active_validator v current_epoch && (v_effective_balance v <=? EJECTION_BALANCE) in
  s ← (if is_queue_eligible then
         v ← ok_or (validator s idx) (ValidatorIndexOutOfRange idx);
         map_err epoch_error
           (set_validator s idx (v_with_activation_eligibility_epoch v (wadd current_epoch 1)))
       else Ok s);
  if should_eject
  then map_err (fun _ => ValidatorIndexOutOfRange idx) (initiate_validator_exit s idx)
  else Ok s.

Definition activation_queue s : list (Z * Z) :=
  let finalized_epoch := cp_epoch (finalized_checkpoint s) in
  merge_sort queue_le
    (omap (fun '(i, v) => if is_eligible_for_activation finalized_epoch v
                          then Some (i, v_activation_eligibility_epoch v) else None)
       (enumerate (validators s))).

Definition activation_step (current_epoch : Z) s (entry : Z * Z) : fallible BeaconState :=
  let idx := entry.1 in
  v ← ok_or (validator s idx) (ValidatorIndexOutOfRange idx);
  map_err epoch_error (set_validator s idx
    (v_with_activation_epoch v (compute_activation_exit_epoch current_epoch MAX_SEED_LOOKAHEAD))).

Definition process_registry_updates s : fallible BeaconState :=
  let current_epoch := get_current_epoch s in
  s ← foldM (registry_step current_epoch) (seqZ 0 (num_validators s)) s;
  let queue := activation_queue s in
  let churn_limit := get_validator_churn_limit s in
  foldM (activation_step current_epoch) (take (Z.to_nat churn_limit) queue) s.

(** ** slashings.rs *)
Definition slashing_step (adjusted total_balance : Z) s (entry : Z * Z) : fallible BeaconState :=
  let '(i, effective_balance) := entry in
  let increment := EFFECTIVE_BALANCE_INCREMENT in
  let penalty_numerator := wmul (effective_balance / increment) adjusted in
  q ← rdiv penalty_numerator total_balance;
  map_err epoch_error (decrease_balance s i (wmul q increment)).

Definition process_slashings s : fallible BeaconState :=
  let epoch := get_current_epoch s in
  let total_balance := get_total_active_balance s in
  let total_slashings := wsum (slashings s) in
  let adjusted := Z.min (wmul total_slashings PROPORTIONAL_SLASHING_MULTIPLIER) total_balance in
  let slashing_epoch_mid := wadd epoch (EPOCHS_PER_SLASHINGS_VECTOR / 2) in
  let slashable :=
    omap (fun '(i, v) => if v_slashed v && (slashing_epoch_mid =? v_withdrawable_epoch v)
                         then Some (i, v_effective_balance v) else None)
      (enumerate (validators s)) in
  foldM (slashing_step adjusted total_balance) slashable s.

(** ** final_updates.rs *)
Definition process_eth1_data_reset s : fallible BeaconState :=
  let next_epoch := wadd (get_current_epoch s) 1 in
  if next_epoch mod EPOCHS_PER_ETH1_VOTING_PERIOD =? 0 then Ok (clear_eth1_data_votes s) else Ok s.

Definition hysteresis_increment : Z := EFFECTIVE_BALANCE_INCREMENT / HYSTERESIS_QUOTIENT.
Definition downward_threshold : Z := wmul hysteresis_increment HYSTERESIS_DOWNWARD_MULTIPLIER.
Definition upward_threshold : Z := wmul hysteresis_increment HYSTERESIS_UPWARD_MULTIPLIER.

Definition effective_balance_update (balance eff_bal : Z) : option Z :=
  if (wadd balance downward_threshold <? eff_bal) || (wadd eff_bal upward_threshold <? balance)
  then Some (Z.min (balance - balance mod EFFECTIVE_BALANCE_INCREMENT) MAX_EFFECTIVE_BALANCE)
  else None.

Definition effective_balance_step s (entry : Z * option Z) : fallible BeaconState :=
  let '(i, maybe_new) := entry in
  match maybe_new with
  | Some new_eff =>
      v ← ok_or (validator s i) (ValidatorIndexOutOfRange i);
      map_err epoch_error (set_validator s i (v_with_effective_balance v new_eff))
  | None => Ok s
  end.

Definition process_effective_balance_updates s : fallible BeaconState :=
  let updates := (fun i => effective_balance_update (default 0 (balance_at s i))
                             (default 0 (v_effective_balance <$> validator s i)))
                 <$> seqZ 0 (num_validators s) in
  foldM effective_balance_step (enumerate updates) s.

Definition process_slashings_reset s : fallible BeaconState :=
  let next_epoch := wadd (get_current_epoch s) 1 in
  map_err epoch_error (set_slashing s (next_epoch mod EPOCHS_PER_SLASHINGS_VECTOR) 0).

Definition process_randao_mixes_reset s : fallible BeaconState :=
  let current_epoch := get_current_epoch s in
  let next_epoch := wadd current_epoch 1 in
  let mix := get_randao_mix s current_epoch in
  map_err epoch_error (set_randao_mix s (next_epoch mod EPOCHS_PER_HISTORICAL_VECTOR) mix).

(** [SszVector::from_vec(..).expect(..)] of both vectors, then the container
    root; [unreachable!] for any other vector length. *)
Definition compute_historical_batch_root s : fallible bytes :=
  if decide (SLOTS_PER_HISTORICAL_ROOT = 8192 \/ SLOTS_PER_HISTORICAL_ROOT = 64) then
    if decide (zlen (block_roots s) = SLOTS_PER_HISTORICAL_ROOT
               /\ zlen (state_roots s) = SLOTS_PER_HISTORICAL_ROOT)
    then root_value (historical_batch_root (block_roots s) (state_roots s))
    else Panic
  else Panic.

Definition process_historical_roots_update s : fallible BeaconState :=
  let next_epoch := wadd (get_current_epoch s) 1 in
  let epochs_per_period := SLOTS_PER_HISTORICAL_ROOT / SLOTS_PER_EPOCH in
  if next_epoch mod epochs_per_period =? 0 then
    historical_root ← compute_historical_batch_root s;
    map_err (fun e => match e with Ssz err => EpochSsz err | _ => ValidatorIndexOutOfRange 0 end)
      (push_historical_root s historical_root)
  else Ok s.

Definition process_participation_record_updates s : fallible BeaconState :=
  let current := current_epoch_attestations s in
  s ← map_err epoch_error (set_previous_epoch_attestations s current);
  Ok (clear_current_epoch_attestations s).

(** ** mod.rs *)
Definition process_epoch s : fallible BeaconState :=
  s ← process_justification_and_finalization s;
  s ← process_rewards_and_penalties s;
  s ← process_registry_updates s;
  s ← process_slashings s;
  s ← process_eth1_data_reset s;
  s ← process_effective_balance_updates s;
  s ← process_slashings_reset s;
  s ← process_randao_mixes_reset s;
  s ← process_historical_roots_update s;
  process_participation_record_updates s.
End definitions.

(** ** Lists of selected entries *)
Section selected.
  Context {A B : Type} (P : A -> bool) (f : A -> B).
  Implicit Types l : list A.
  Local Abbreviation selected l :=
    (omap (fun '(i, v) => if P v then Some (i, f v) else None) (enumerate l)).

Lemma elem_of_selected l i b :
  (i, b) ∈ selected l <-> 0 <= i /\ exists v, l !! Z.to_nat i = Some v /\ P v = true /\ b = f v.
Proof.
  rewrite list_elem_of_omap. split.
  - intros ([j v] & (Hj & Hv)%elem_of_enumerate & Hb). destruct (P v) eqn:HP; simplify_eq. eauto.
  - intros (Hi & v & Hv & HP & ->). exists (i, v). rewrite elem_of_enumerate, HP. done.
Qed.

Lemma selected_keys l :
  (selected l).*1 = omap (fun '(i, v) => if P v then Some i else None) (enumerate l).
Proof.
  unfold enumerate. generalize 0. induction l as [|v l IH]; intros i; cbn; [done|].
  destruct (P v); cbn; by rewrite IH.
Qed.

Lemma selected_NoDup l : NoDup ((Z.to_nat ∘ fst) <$> selected l).
Proof.
  rewrite (list_fmap_compose fst Z.to_nat), selected_keys.
  destruct (NoDup_omap_enumerate_from P 0 l) as [Hn Hp]. by apply NoDup_to_nat.
Qed.
End selected.

Section facts.
  Context `{Crypto} `{S : BeaconSpec} `{!SpecOk S}.
  Implicit Types s : BeaconState.

(** ** Slashing penalties *)
Definition proportional_penalty (adjusted total_balance effective_balance : Z) : Z :=
  wmul (wmul (effective_balance / EFFECTIVE_BALANCE_INCREMENT) adjusted / total_balance)
    EFFECTIVE_BALANCE_INCREMENT.
Definition slashing_penalty s (v : Validator) : Z :=
  if v_slashed v && (wadd (get_current_epoch s) (EPOCHS_PER_SLASHINGS_VECTOR / 2)
                     =? v_withdrawable_epoch v)
  then proportional_penalty
         (Z.min (wmul (wsum (slashings s)) PROPORTIONAL_SLASHING_MULTIPLIER) (get_total_active_balance s))
         (get_total_active_balance s) (v_effective_balance v)
  else 0.

Lemma wmul_le a b : 0 <= a -> 0 <= b -> 0 <= wmul a b <= a * b.
Proof.
  intros Ha Hb. unfold wmul, U64. split; [by apply Z.mod_pos_bound|]. apply Z.mod_le; nia.
Qed.

Lemma proportional_penalty_bound adjusted total eff :
  0 <= adjusted <= total -> 0 < total -> 0 <= eff ->
  0 <= proportional_penalty adjusted total eff <= eff.
Proof.
  intros Ha Ht He. pose proof increment_pos. unfold proportional_penalty.
  set (inc := EFFECTIVE_BALANCE_INCREMENT) in *.
  pose proof (Z.mul_div_le eff inc ltac:(lia)). assert (0 <= eff / inc) by (apply Z.div_pos; lia).
  pose proof (wmul_le (eff / inc) adjusted ltac:(lia) ltac:(lia)).
  assert (wmul (eff / inc) adjusted / total <= eff / inc) by (apply Z.div_le_upper_bound; nia).
  assert (0 <= wmul (eff / inc) adjusted / total) by (apply Z.div_pos; lia).
  pose proof (wmul_le (wmul (eff / inc) adjusted / total) inc ltac:(lia) ltac:(lia)). nia.
Qed.

Lemma decrease_balance_at s i b d :
  0 <= i -> balances s !! Z.to_nat i = Some b -> 0 <= b -> 0 <= d ->
  decrease_balance s i d = Ok (with_balances s (<[Z.to_nat i := sat_sub b d]> (balances s))).
Proof.
  intros Hi Hb Hb0 Hd. pose proof (lookup_lt_Some _ _ _ Hb).
  unfold decrease_balance, balance_at. rewrite Hb. cbn. unfold id, sat_sub.
  rewrite set_balance_at by (unfold zlen; lia). do 3 f_equal. destruct (Z.ltb_spec b d); lia.
Qed.

Definition slashable_now s (v : Validator) : bool :=
  v_slashed v && (wadd (get_current_epoch s) (EPOCHS_PER_SLASHINGS_VECTOR / 2) =? v_withdrawable_epoch v).
Definition adjusted_slashings s : Z :=
  Z.min (wmul (wsum (slashings s)) PROPORTIONAL_SLASHING_MULTIPLIER) (get_total_active_balance s).

Lemma adjusted_bounds s : 0 <= adjusted_slashings s <= get_total_active_balance s.
Proof.
  pose proof (total_active_balance_bounds s). pose proof increment_pos. unfold adjusted_slashings.
  pose proof (wmul_u64 (wsum (slashings s)) PROPORTIONAL_SLASHING_MULTIPLIER) as [? ?]. lia.
Qed.

Lemma slashing_penalty_bound s v :
  validator_ok v -> 0 <= slashing_penalty s v <= v_effective_balance v.
Proof.
  intros [? _]. pose proof (total_active_balance_bounds s). pose proof increment_pos.
  unfold slashing_penalty. destruct (_ && _); [|lia].
  apply proportional_penalty_bound; [apply adjusted_bounds|lia..].
Qed.

(** A balance update at position [i] of a state that differs from [s] in its
    balances only. *)
Lemma balances_frame_step s bs i b b' :
  wf_state (with_balances s bs) -> bs !! i = Some b -> u64 b' ->
  (wf_state (with_balances s (<[i := b']> bs)) /\
   exists bs', with_balances s (<[i := b']> bs) = with_balances s bs') /\
  (<[i := b']> bs) !! i = Some b' /\ forall j, j <> i -> (<[i := b']> bs) !! j = bs !! j.
Proof.
  intros Hw Hb Hu. pose proof (lookup_lt_Some _ _ _ Hb). split_and!.
  - eapply (wf_set_balance _ (Z.of_nat i)); [exact Hw|exact Hu|].
    apply set_balance_Ok. rewrite Nat2Z.id. split; [unfold zlen; cbn; lia|done].
  - by eexists.
  - by apply list_lookup_insert_eq.
  - intros j Hj. by apply list_lookup_insert_ne.
Qed.

Lemma slashing_step_Ok s i eff b :
  0 <= i -> balances s !! Z.to_nat i = Some b -> 0 <= b -> 0 <= eff ->
  forall adjusted total, 0 <= adjusted <= total -> 0 < total ->
  slashing_step adjusted total s (i, eff) = Ok (with_balances s
    (<[Z.to_nat i := sat_sub b (proportional_penalty adjusted total eff)]> (balances s))).
Proof.
  intros Hi Hb Hb0 Heff adjusted total Ha Ht. unfold slashing_step, rdiv.
  rewrite (proj2 (Z.eqb_neq _ _)) by lia. cbn.
  erewrite decrease_balance_at; [done|done|done|done|].
  by apply (proportional_penalty_bound adjusted total eff).
Qed.

Lemma slashings_applied s :
  wf_state s ->
  exists bs, process_slashings s = Ok (with_balances s bs) /\ wf_state (with_balances s bs) /\
    forall k v b, validators s !! k = Some v -> balances s !! k = Some b ->
      bs !! k = Some (sat_sub b (slashing_penalty s v)).
Proof.
  intros Hw. pose proof (adjusted_bounds s). pose proof (total_active_balance_bounds s).
  pose proof increment_pos. set (sel := omap (fun '(i, v) => if slashable_now s v
    then Some (i, v_effective_balance v) else None) (enumerate (validators s))).
  assert (forall i e, (i, e) ∈ sel <-> 0 <= i /\ exists v, validators s !! Z.to_nat i = Some v /\
    slashable_now s v = true /\ e = v_effective_balance v) as Hsel by (intros; apply elem_of_selected).
  destruct (foldM_pointwise (slashing_step (adjusted_slashings s) (get_total_active_balance s))
    (Z.to_nat ∘ fst) (fun s' k => balances s' !! k)
    (fun s' => wf_state s' /\ exists bs, s' = with_balances s bs)
    (fun e b => sat_sub b (proportional_penalty (adjusted_slashings s) (get_total_active_balance s) e.2))
    sel s) as (s' & Hs' & [Hw' [bs ->] ] & Hin & Hout).
  - intros s1 [i e] b [Hw1 [bs ->] ] (Hi & v & Hv & _ & ->)%Hsel Hb. cbn in Hb |- *.
    assert (u64 b) as [? ?] by (eapply Forall_lookup_1; [apply (wf_balances _ Hw1)|done]).
    assert (validator_ok v) as [? _] by (eapply Forall_lookup_1; [apply (wf_validators _ Hw)|done]).
    eexists. split; [by apply (slashing_step_Ok _ i _ b); (done || lia)|].
    apply (balances_frame_step s bs _ b); [done..|].
    assert (0 <= proportional_penalty (adjusted_slashings s) (get_total_active_balance s)
      (v_effective_balance v)) by (apply proportional_penalty_bound; lia).
    unfold sat_sub, u64. lia.
  - apply selected_NoDup.
  - split; [done|]. exists (balances s). by destruct s.
  - intros [i e] (_ & v & Hv & _)%Hsel. apply lookup_lt_is_Some_2. rewrite (wf_balances_length s Hw).
    by eapply lookup_lt_Some.
  - exists bs. split_and!; [done..|]. intros k v b Hv Hb. unfold slashing_penalty.
    change (v_slashed v && _) with (slashable_now s v). destruct (slashable_now s v) eqn:Hnow.
    + specialize (Hin (Z.of_nat k, v_effective_balance v)). cbn in Hin. rewrite Nat2Z.id, Hb in Hin.
      apply Hin, Hsel. rewrite Nat2Z.id. split; [lia|eauto].
    + cbn in Hout. rewrite Hout, Hb.
      * assert (u64 b) by (eapply Forall_lookup_1; [apply (wf_balances _ Hw)|done]).
        unfold sat_sub, u64 in *. f_equal. lia.
      * intros ([i e] & -> & (Hi & w & Hw0 & Hn & _)%Hsel)%list_elem_of_fmap. cbn in Hv. congruence.
Qed.

(** ** Effective balances *)
Lemma thresholds :
  0 <= downward_threshold <= EFFECTIVE_BALANCE_INCREMENT /\
  EFFECTIVE_BALANCE_INCREMENT <= upward_threshold <= 2 * EFFECTIVE_BALANCE_INCREMENT.
Proof.
  pose proof increment_pos. pose proof hysteresis_pos. pose proof hysteresis_down.
  pose proof hysteresis_up. pose proof increment_hysteresis. pose proof max_effective_bound.
  unfold downward_threshold, upward_threshold, hysteresis_increment.
  assert (EFFECTIVE_BALANCE_INCREMENT
    = HYSTERESIS_QUOTIENT * (EFFECTIVE_BALANCE_INCREMENT / HYSTERESIS_QUOTIENT))
    by (apply Z_div_exact_full_2; [lia|done]).
  assert (0 <= EFFECTIVE_BALANCE_INCREMENT / HYSTERESIS_QUOTIENT) by (apply Z.div_pos; lia).
  assert (2 * 2 ^ 40 < U64) by done.
  rewrite !wmul_small by nia. nia.
Qed.

Lemma effective_balance_update_spec b e e' :
  u64 b -> 0 <= e <= MAX_EFFECTIVE_BALANCE -> e mod EFFECTIVE_BALANCE_INCREMENT = 0 ->
  e' = default e (effective_balance_update b e) ->
  0 <= e' <= MAX_EFFECTIVE_BALANCE /\ e' mod EFFECTIVE_BALANCE_INCREMENT = 0 /\
  e' <= b + downward_threshold /\ (b <= e' + upward_threshold \/ e' = MAX_EFFECTIVE_BALANCE).
Proof.
  intros [Hb0 Hb] He Hm ->. pose proof thresholds. pose proof increment_pos. pose proof max_effective_mod.
  pose proof max_effective_bound. assert (2 ^ 40 + 2 * 2 ^ 40 < U64) by done.
  set (inc := EFFECTIVE_BALANCE_INCREMENT) in *.
  pose proof (Z.mod_pos_bound b inc ltac:(lia)). pose proof (Z.mod_le b inc ltac:(lia) ltac:(lia)).
  unfold effective_balance_update. rewrite (wadd_small e) by lia.
  destruct (Z.ltb_spec (wadd b downward_threshold) e) as [Hd|Hd],
    (Z.ltb_spec (e + upward_threshold) b) as [Hu|Hu]; cbn [default from_option orb]; unfold id; fold inc.
  1-3: split_and!; [lia|lia| |lia|lia];
    destruct (Z.min_spec (b - b mod inc) MAX_EFFECTIVE_BALANCE) as [ [_ ->]|[_ ->] ]; [|done];
    rewrite Zminus_mod_idemp_r, Z.sub_diag; done.
  split_and!; [lia|lia|done| |by left].
  assert (wadd b downward_threshold <= b + downward_threshold) by (apply Z.mod_le; unfold U64; lia). lia.
Qed.

Lemma enumerate_keys {A} i (l : list A) : (enumerate_from i l).*1 = seqZ i (zlen l).
Proof.
  revert i. induction l as [|a l IH]; intros i; [done|].
  rewrite zlen_cons, seqZ_cons by (pose proof (zlen_nonneg l); lia).
  cbn. rewrite IH. unfold Z.succ. do 2 f_equal. lia.
Qed.

Lemma enumerate_NoDup {A} (l : list A) : NoDup ((Z.to_nat ∘ fst) <$> enumerate l).
Proof.
  rewrite (list_fmap_compose fst Z.to_nat). unfold enumerate. rewrite enumerate_keys.
  apply NoDup_to_nat; [apply NoDup_seqZ|]. by intros i [? _]%elem_of_seqZ.
Qed.

Lemma validators_frame_step s vs i v v' :
  wf_state (with_validators s vs) -> vs !! i = Some v -> validator_ok v' ->
  (wf_state (with_validators s (<[i := v']> vs)) /\
   exists vs', with_validators s (<[i := v']> vs) = with_validators s vs') /\
  (<[i := v']> vs) !! i = Some v' /\ forall j, j <> i -> (<[i := v']> vs) !! j = vs !! j.
Proof.
  intros Hw Hb Hu. pose proof (lookup_lt_Some _ _ _ Hb). split_and!.
  - eapply (wf_set_validator _ (Z.of_nat i)); [exact Hw|exact Hu|].
    apply set_validator_Ok. rewrite Nat2Z.id. split; [unfold zlen; cbn; lia|done].
  - by eexists.
  - by apply list_lookup_insert_eq.
  - intros j Hj. by apply list_lookup_insert_ne.
Qed.

Lemma set_validator_at s i v :
  0 <= i < zlen (validators s) ->
  set_validator s i v = Ok (with_validators s (<[Z.to_nat i := v]> (validators s))).
Proof. intros Hi. apply set_validator_Ok. split; [lia|done]. Qed.

Lemma v_with_effective_balance_id v : v_with_effective_balance v (v_effective_balance v) = v.
Proof. by destruct v. Qed.

Lemma validator_ok_effective v e :
  validator_ok v -> 0 <= e <= MAX_EFFECTIVE_BALANCE -> e mod EFFECTIVE_BALANCE_INCREMENT = 0 ->
  validator_ok (v_with_effective_balance v e).
Proof. intros [] ? ?. by split. Qed.

Definition new_effective_balance (b : Z) (v : Validator) : Z :=
  default (v_effective_balance v) (effective_balance_update b (v_effective_balance v)).

Lemma effective_balance_step_Ok s i v o :
  0 <= i -> validators s !! Z.to_nat i = Some v ->
  effective_balance_step s (i, o) = Ok (with_validators s
    (<[Z.to_nat i := v_with_effective_balance v (default (v_effective_balance v) o)]> (validators s))).
Proof.
  intros Hi Hv. pose proof (lookup_lt_Some _ _ _ Hv). destruct o as [e|]; cbn; unfold id.
  - unfold validator. rewrite Hv. cbn. by rewrite set_validator_at by (unfold zlen; lia).
  - rewrite v_with_effective_balance_id, list_insert_id by done. by destruct s.
Qed.

(** Each entry of the update list belongs to a validator and keeps its
    effective balance in range. *)
Lemma effective_balance_updates_spec s i o :
  wf_state s ->
  (i, o) ∈ enumerate ((fun i => effective_balance_update (default 0 (balance_at s i))
     (default 0 (v_effective_balance <$> validator s i))) <$> seqZ 0 (num_validators s)) <->
  0 <= i /\ exists v b, validators s !! Z.to_nat i = Some v /\ balances s !! Z.to_nat i = Some b /\
    o = effective_balance_update b (v_effective_balance v).
Proof.
  intros Hw. rewrite elem_of_enumerate, list_lookup_fmap_Some. unfold balance_at, validator. split.
  - intros (Hi & j & -> & [-> Hj]%lookup_seqZ). split; [done|].
    rewrite Z.add_0_l, Z2Nat.id by lia. unfold num_validators, zlen in Hj.
    destruct (lookup_lt_is_Some_2 (validators s) (Z.to_nat i)) as [v Hv]; [lia|].
    destruct (lookup_lt_is_Some_2 (balances s) (Z.to_nat i)) as [b Hb];
      [rewrite (wf_balances_length s Hw); lia|].
    exists v, b. by rewrite Hv, Hb.
  - intros (Hi & v & b & Hv & Hb & ->). split; [done|]. exists i. rewrite Hv, Hb. split; [done|].
    apply lookup_seqZ. apply lookup_lt_Some in Hv. unfold num_validators, zlen. lia.
Qed.

Lemma updated_validator_ok s i v b w :
  wf_state s -> validators s !! i = Some v -> balances s !! i = Some b -> validator_ok w ->
  validator_ok (v_with_effective_balance w
    (default (v_effective_balance w) (effective_balance_update b (v_effective_balance v)))).
Proof.
  intros Hw Hv Hb Hok. assert (u64 b) as Hu by (eapply Forall_lookup_1; [apply (wf_balances _ Hw)|done]).
  assert (validator_ok v) as [He Hm _ _ _ _] by (eapply Forall_lookup_1; [apply (wf_validators _ Hw)|done]).
  destruct (effective_balance_update b (v_effective_balance v)) as [e|] eqn:Heq; cbn; unfold id;
    [|by rewrite v_with_effective_balance_id].
  destruct (effective_balance_update_spec b (v_effective_balance v) e Hu He Hm) as (? & ? & _);
    [by rewrite Heq|]. by apply validator_ok_effective.
Qed.

Lemma effective_balances_updated s :
  wf_state s ->
  exists vs, process_effective_balance_updates s = Ok (with_validators s vs) /\
    wf_state (with_validators s vs) /\
    forall k v b, validators s !! k = Some v -> balances s !! k = Some b ->
      vs !! k = Some (v_with_effective_balance v (new_effective_balance b v)).
Proof.
  intros Hw. destruct (foldM_pointwise effective_balance_step (Z.to_nat ∘ fst)
    (fun s' k => validators s' !! k) (fun s' => wf_state s' /\ exists vs, s' = with_validators s vs)
    (fun e v => v_with_effective_balance v (default (v_effective_balance v) e.2))
    (enumerate ((fun i => effective_balance_update (default 0 (balance_at s i))
       (default 0 (v_effective_balance <$> validator s i))) <$> seqZ 0 (num_validators s))) s)
    as (s' & Hs' & [Hw' [vs ->] ] & Hin & _).
  - intros s1 [i o] w [Hw1 [vs ->] ] (Hi & v & b & Hv & Hb & ->)%effective_balance_updates_spec Hx; [|done].
    cbn in Hx |- *. eexists. split; [by apply (effective_balance_step_Ok _ i w)|].
    apply (validators_frame_step s vs _ w); [done..|]. apply (updated_validator_ok s (Z.to_nat i)); [done..|].
    eapply Forall_lookup_1; [apply (wf_validators _ Hw1)|done].
  - apply enumerate_NoDup.
  - split; [done|]. exists (validators s). by destruct s.
  - intros [i o] (Hi & v & b & Hv & _)%effective_balance_updates_spec; [by eexists|done].
  - exists vs. split_and!; [done..|]. intros k v b Hv Hb.
    specialize (Hin (Z.of_nat k, effective_balance_update b (v_effective_balance v))). cbn in Hin.
    rewrite Nat2Z.id, Hv in Hin. apply Hin. apply effective_balance_updates_spec; [done|].
    rewrite Nat2Z.id. split; [lia|eauto].
Qed.

(** ** The registry: ejections *)
(** What the first loop of [process_registry_updates] leaves alone. *)
Definition kept (epoch : Z) (v w : Validator) : Prop :=
  v_activation_epoch w = v_activation_epoch v /\
  is_active_validator w epoch = is_active_validator v epoch.

Lemma kept_refl epoch v : kept epoch v v.
Proof. done. Qed.

Lemma kept_insert epoch (l vs : list Validator) i v w :
  Forall2 (kept epoch) l vs -> vs !! i = Some v -> kept epoch v w ->
  Forall2 (kept epoch) l (<[i := w]> vs).
Proof.
  intros Hl Hv [Hk1 Hk2]. destruct (Forall2_lookup_r _ _ _ _ _ Hl Hv) as (v0 & Hv0 & Hk3 & Hk4).
  rewrite <-(list_insert_id l i v0) by done. apply Forall2_insert; [done|].
  split; congruence.
Qed.

Definition registry_inv s0 s : Prop :=
  wf_state s /\ exists vs, s = with_validators s0 vs /\
    Forall2 (kept (get_current_epoch s0)) (validators s0) vs.

Lemma registry_inv_refl s : wf_state s -> registry_inv s s.
Proof.
  intros Hw. split; [done|]. exists (validators s). split; [by destruct s|].
  apply Forall_Forall2_diag, Forall_forall. intros v _. apply kept_refl.
Qed.

Lemma registry_inv_set s0 s i v w s' :
  registry_inv s0 s -> validator s i = Some v -> kept (get_current_epoch s0) v w -> validator_ok w ->
  set_validator s i w = Ok s' -> registry_inv s0 s'.
Proof.
  intros [Hw (vs & -> & Hk)] Hv Hkw Hok Hs. split; [by eapply wf_set_validator|].
  apply set_validator_Ok in Hs as [_ ->]. eexists. split; [done|]. by eapply kept_insert.
Qed.

Lemma registry_inv_exit s0 s i s' :
  registry_inv s0 s -> initiate_validator_exit s i = Ok s' -> registry_inv s0 s'.
Proof using SpecOk0.
  intros Hinv Hs. pose proof Hinv as [Hw (vs & Hvs & Hk)].
  destruct (validator s i) as [v|] eqn:Hv; [|unfold initiate_validator_exit in Hs; by rewrite Hv in Hs].
  destruct (Z.eq_dec (v_exit_epoch v) FAR_FUTURE_EPOCH) as [Hf|Hf]; cycle 1.
  { rewrite (initiate_validator_exit_noop s i v) in Hs by done. by injection Hs as <-. }
  split; [by eapply initiate_validator_exit_wf|].
  destruct (initiate_validator_exit_Ok s i v s' Hw Hv Hf Hs) as (e & -> & Hov & Hq & _). subst s.
  eexists. split; [done|]. eapply kept_insert; [done|done|]. split; [done|].
  pose proof withdrawability_delay. pose proof seed_lookahead.
  assert (get_current_epoch (with_validators s0 vs) = get_current_epoch s0) as Hce by done.
  rewrite Hce in Hq. unfold is_active_validator. cbn. rewrite Hf.
  destruct (Z.ltb_spec (get_current_epoch s0) e); [|lia].
  destruct (Z.ltb_spec (get_current_epoch s0) FAR_FUTURE_EPOCH); [done|].
  unfold FAR_FUTURE_EPOCH, u64_max in *. lia.
Qed.

Lemma registry_step_inv s0 s i s' :
  registry_inv s0 s -> registry_step (get_current_epoch s0) s i = Ok s' -> registry_inv s0 s'.
Proof using SpecOk0.
  intros Hinv. unfold registry_step. intros (v & Hv%ok_or_Ok & (s1 & H1 & H2)%bind_Ok_inv)%bind_Ok_inv.
  assert (registry_inv s0 s1) as Hinv1.
  { destruct (is_eligible_for_activation_queue v); [|by injection H1 as <-].
    apply bind_Ok_inv in H1 as (w & Hw%ok_or_Ok & H1%map_err_Ok). simplify_eq.
    eapply registry_inv_set; [exact Hinv|exact Hv| | |exact H1]; [by split|].
    pose proof (wf_validator s i v (proj1 Hinv) Hv) as []. split; try done. apply wadd_u64. }
  destruct (_ && _); [|by injection H2 as <-]. apply map_err_Ok in H2. by eapply registry_inv_exit.
Qed.

Lemma registry_loop_inv s0 l s s' :
  registry_inv s0 s -> foldM (registry_step (get_current_epoch s0)) l s = Ok s' -> registry_inv s0 s'.
Proof using SpecOk0.
  intros Hinv. apply (foldM_inv _ (registry_inv s0)); [|done].
  intros s1 i s2 _. apply registry_step_inv.
Qed.

Lemma active_indices_kept epoch l vs s :
  Forall2 (kept epoch) l vs ->
  get_active_validator_indices (with_validators s vs) epoch
  = get_active_validator_indices (with_validators s l) epoch.
Proof.
  intros Hk. unfold get_active_validator_indices, enumerate. cbn. generalize 0.
  induction Hk as [|v w l vs [_ Ha] _ IH]; intros i; [done|]. cbn. by rewrite Ha, IH.
Qed.

Lemma registry_inv_churn s0 s :
  registry_inv s0 s -> get_validator_churn_limit s = get_validator_churn_limit s0.
Proof.
  intros [_ (vs & -> & Hk)]. unfold get_validator_churn_limit.
  change (get_current_epoch (with_validators s0 vs)) with (get_current_epoch s0).
  rewrite (active_indices_kept _ (validators s0) vs s0 Hk). by destruct s0.
Qed.

(** ** The registry: activations *)
#[local] Instance queue_le_trans : Transitive queue_le.
Proof. intros [] [] []; unfold queue_le; cbn; lia. Qed.
#[local] Instance queue_le_total : Total queue_le.
Proof. intros [] []; unfold queue_le; cbn; lia. Qed.

Lemma elem_of_queue s i e :
  (i, e) ∈ activation_queue s <-> 0 <= i /\ exists v, validators s !! Z.to_nat i = Some v /\
    is_eligible_for_activation (cp_epoch (finalized_checkpoint s)) v = true /\
    e = v_activation_eligibility_epoch v.
Proof. unfold activation_queue. rewrite merge_sort_Permutation. apply elem_of_selected. Qed.

Lemma queue_NoDup s n : NoDup ((Z.to_nat ∘ fst) <$> take n (activation_queue s)).
Proof.
  rewrite fmap_take. eapply sublist_NoDup; [|apply sublist_take].
  unfold activation_queue. rewrite merge_sort_Permutation. apply selected_NoDup.
Qed.

Lemma queue_order s n a b :
  a ∈ take n (activation_queue s) -> b ∈ drop n (activation_queue s) -> queue_le a b.
Proof.
  intros Ha Hb. eapply StronglySorted_app_1_elem_of; [|done|done]. rewrite take_drop.
  apply StronglySorted_merge_sort; apply _.
Qed.

Lemma activations_applied s n :
  wf_state s ->
  exists vs, foldM (activation_step (get_current_epoch s)) (take n (activation_queue s)) s
      = Ok (with_validators s vs) /\ wf_state (with_validators s vs) /\
    forall k v, validators s !! k = Some v ->
      vs !! k = Some (if decide (Z.of_nat k ∈ (take n (activation_queue s)).*1)
        then v_with_activation_epoch v (get_current_epoch s + 1 + MAX_SEED_LOOKAHEAD) else v).
Proof using SpecOk0.
  intros Hw. set (q := take n (activation_queue s)).
  assert (forall i e, (i, e) ∈ q -> 0 <= i /\ is_Some (validators s !! Z.to_nat i)) as Hq.
  { intros i e (Hi & v & Hv & _)%subseteq_take%elem_of_queue. split; [done|by eexists]. }
  pose proof (activation_exit_epoch_value s Hw) as HE. pose proof (current_epoch_range s Hw).
  pose proof seed_lookahead.
  destruct (foldM_pointwise (activation_step (get_current_epoch s)) (Z.to_nat ∘ fst)
    (fun s' k => validators s' !! k) (fun s' => wf_state s' /\ exists vs, s' = with_validators s vs)
    (fun _ v => v_with_activation_epoch v (get_current_epoch s + 1 + MAX_SEED_LOOKAHEAD)) q s)
    as (s' & Hs' & [Hw' [vs ->] ] & Hin & Hout).
  - intros s1 [i e] v [Hw1 [vs ->] ] [Hi _]%Hq Hv. cbn in Hv |- *. rewrite <-HE.
    pose proof (lookup_lt_Some _ _ _ Hv). unfold activation_step. cbn. unfold validator. cbn. rewrite Hv. cbn.
    rewrite set_validator_at by (unfold zlen; cbn; lia). eexists. split; [done|].
    apply (validators_frame_step s vs _ v); [done..|]. rewrite HE.
    assert (validator_ok v) as [] by (eapply Forall_lookup_1; [apply (wf_validators _ Hw1)|done]).
    split; try done. cbn. unfold u64, U64. lia.
  - apply queue_NoDup.
  - split; [done|]. exists (validators s). by destruct s.
  - intros [i e] [_ ?]%Hq. done.
  - exists vs. split_and!; [done..|]. intros k v Hv. case_decide as Hk.
    + apply list_elem_of_fmap in Hk as ([i e] & Hi & He). cbn in Hi. subst i.
      specialize (Hin _ He). cbn in Hin. by rewrite Nat2Z.id, Hv in Hin.
    + cbn in Hout. rewrite Hout; [done|]. intros ([i e] & -> & He)%list_elem_of_fmap. cbn in Hk.
      destruct (Hq i e He) as [Hi _]. rewrite Z2Nat.id in Hk by done. apply Hk.
      by apply (list_elem_of_fmap_2 fst _ _ He).
Qed.

Lemma registry_updates_Ok s s' :
  wf_state s -> process_registry_updates s = Ok s' ->
  exists s1 vs, registry_inv s s1 /\ s' = with_validators s1 vs /\ wf_state s' /\
    let q := take (Z.to_nat (get_validator_churn_limit s)) (activation_queue s1) in
    forall k v, validators s1 !! k = Some v ->
      vs !! k = Some (if decide (Z.of_nat k ∈ q.*1)
        then v_with_activation_epoch v (get_current_epoch s + 1 + MAX_SEED_LOOKAHEAD) else v).
Proof using SpecOk0.
  intros Hw. unfold process_registry_updates. intros (s1 & H1 & H2)%bind_Ok_inv.
  apply registry_loop_inv in H1; [|by apply registry_inv_refl].
  rewrite (registry_inv_churn s s1 H1) in H2. pose proof H1 as [Hw1 (vs1 & Hvs1 & _)].
  assert (get_current_epoch s1 = get_current_epoch s) as Hce by (by subst).
  destruct (activations_applied s1 (Z.to_nat (get_validator_churn_limit s)) Hw1) as (vs & Hs & Hw' & Hk).
  rewrite Hce in Hs, Hk. rewrite Hs in H2. injection H2 as <-. by exists s1, vs.
Qed.

(** The validators after the activations: those taken from the queue, and
    those that still wait. *)
Section dequeue.
  Context s1 (vs : list Validator) (epoch : Z) (n : nat).
  Hypothesis epoch_bound : epoch < FAR_FUTURE_EPOCH.
  Hypothesis lookups : forall k v, validators s1 !! k = Some v ->
    vs !! k = Some (if decide (Z.of_nat k ∈ (take n (activation_queue s1)).*1)
                    then v_with_activation_epoch v epoch else v).
  Hypothesis same_length : length vs = length (validators s1).

Lemma dequeued_validator i :
  i ∈ (take n (activation_queue s1)).*1 ->
  exists v, (i, v_activation_eligibility_epoch v) ∈ take n (activation_queue s1) /\
    vs !! Z.to_nat i = Some v /\
    v_activation_eligibility_epoch v <= cp_epoch (finalized_checkpoint s1).
Proof using lookups.
  intros Hi. pose proof Hi as ([j e] & -> & Hin)%list_elem_of_fmap. cbn in *.
  pose proof (subseteq_take _ _ _ Hin) as (Hj & v & Hv & Hel & ->)%elem_of_queue.
  exists (v_with_activation_epoch v epoch). split_and!; [done| |].
  - rewrite (lookups _ v Hv), Z2Nat.id by done. by rewrite decide_True.
  - unfold is_eligible_for_activation in Hel. cbn. apply andb_prop in Hel as [? _]. by apply Z.leb_le.
Qed.

Lemma waiting_validator j w :
  0 <= j -> vs !! Z.to_nat j = Some w ->
  is_eligible_for_activation (cp_epoch (finalized_checkpoint s1)) w = true ->
  (j, v_activation_eligibility_epoch w) ∈ drop n (activation_queue s1).
Proof using lookups same_length epoch_bound.
  intros Hj Hw Hel. pose proof (lookup_lt_Some _ _ _ Hw) as Hlt. rewrite same_length in Hlt.
  destruct (lookup_lt_is_Some_2 (validators s1) _ Hlt) as [v Hv].
  rewrite (lookups _ v Hv), Z2Nat.id in Hw by done. injection Hw as Hw. case_decide as Hin.
  { subst w. unfold is_eligible_for_activation in Hel. cbn in Hel. apply andb_prop in Hel as [_ ?]. lia. }
  subst w. assert ((j, v_activation_eligibility_epoch v) ∈ activation_queue s1) as Hq
    by (apply elem_of_queue; split; [done|eauto]).
  rewrite <-(take_drop n (activation_queue s1)) in Hq. apply elem_of_app in Hq as [Hq|Hq]; [|done].
  destruct Hin. by apply (list_elem_of_fmap_2 fst _ _ Hq).
Qed.
End dequeue.

(** ** Composition *)
(** Steps that only touch the validators, their balances and the eth1 votes. *)
Definition registry_only s s' : Prop :=
  exists vs bs votes, s' = with_eth1_data_votes (with_balances (with_validators s vs) bs) votes.

Lemma registry_only_refl s : registry_only s s.
Proof. exists (validators s), (balances s), (eth1_data_votes s). by destruct s. Qed.

Lemma registry_only_trans s1 s2 s3 : registry_only s1 s2 -> registry_only s2 s3 -> registry_only s1 s3.
Proof. intros (? & ? & ? & ->) (vs & bs & votes & ->). by exists vs, bs, votes. Qed.

Lemma registry_only_validators s vs : registry_only s (with_validators s vs).
Proof. exists vs, (balances s), (eth1_data_votes s). by destruct s. Qed.

Lemma registry_only_balances s bs : registry_only s (with_balances s bs).
Proof. exists (validators s), bs, (eth1_data_votes s). by destruct s. Qed.

Lemma rewards_frame s s' :
  wf_state s -> process_rewards_and_penalties s = Ok s' -> wf_state s' /\ registry_only s s'.
Proof using SpecOk0.
  intros Hw. unfold process_rewards_and_penalties. destruct (Z.eqb_spec (get_current_epoch s) GENESIS_EPOCH).
  { intros [= <-]. split; [done|apply registry_only_refl]. }
  intros ([r p] & (? & ? & ? & ?)%attestation_deltas_ranges & Hs)%bind_Ok_inv.
  destruct (apply_all_deltas s r p) as (bs & Hbs & Hw' & _); [done..|].
  rewrite Hbs in Hs. injection Hs as <-. split; [done|apply registry_only_balances].
Qed.

Lemma registry_frame s s' :
  wf_state s -> process_registry_updates s = Ok s' -> wf_state s' /\ registry_only s s'.
Proof using SpecOk0.
  intros Hw (s1 & vs & [_ (vs1 & -> & _)] & -> & Hw' & _)%registry_updates_Ok; [|done].
  split; [done|]. exact (registry_only_validators s vs).
Qed.

Lemma slashings_frame s s' :
  wf_state s -> process_slashings s = Ok s' -> wf_state s' /\ registry_only s s'.
Proof using SpecOk0.
  intros Hw Hs. destruct (slashings_applied s Hw) as (bs & Hbs & Hw' & _).
  rewrite Hbs in Hs. injection Hs as <-. split; [done|apply registry_only_balances].
Qed.

Lemma eth1_reset_frame s s' :
  wf_state s -> process_eth1_data_reset s = Ok s' -> wf_state s' /\ registry_only s s'.
Proof.
  intros Hw. unfold process_eth1_data_reset. case_match; intros [= <-].
  - split; [by apply wf_clear_votes|]. exists (validators s), (balances s), []. by destruct s.
  - split; [done|apply registry_only_refl].
Qed.

Lemma effective_balances_frame s s' :
  wf_state s -> process_effective_balance_updates s = Ok s' -> wf_state s' /\ registry_only s s'.
Proof using SpecOk0.
  intros Hw Hs. destruct (effective_balances_updated s Hw) as (vs & Hvs & Hw' & _).
  rewrite Hvs in Hs. injection Hs as <-. split; [done|apply registry_only_validators].
Qed.

Lemma historical_roots_frame s s' :
  wf_state s -> process_historical_roots_update s = Ok s' ->
  wf_state s' /\ exists roots, s' = with_historical_roots s roots.
Proof.
  intros Hw. unfold process_historical_roots_update. case_match.
  - intros (r & _ & Hs%map_err_Ok)%bind_Ok_inv. split; [by eapply wf_push_historical_root|].
    unfold push_historical_root in Hs.
    apply bind_Ok_inv in Hs as (l & _ & [= <-]). by eexists.
  - intros [= <-]. split; [done|]. exists (historical_roots s). by destruct s.
Qed.

Lemma justification_frame s s' :
  process_justification_and_finalization s = Ok s' ->
  slot s' = slot s /\ slashings s' = slashings s /\ randao_mixes s' = randao_mixes s /\
  current_epoch_attestations s' = current_epoch_attestations s.
Proof.
  intros [ [_ ->]|(_ & p & c & _ & _ & (cj & fin & -> & _)%weigh_spec)]%process_jf_cases; done.
Qed.

Lemma registry_phase s s' :
  wf_state s ->
  (s ← process_rewards_and_penalties s; s ← process_registry_updates s; s ← process_slashings s;
   s ← process_eth1_data_reset s; process_effective_balance_updates s) = Ok s' ->
  wf_state s' /\ registry_only s s'.
Proof using SpecOk0.
  intros Hw (s2 & [Hw2 R2]%rewards_frame & (s3 & [Hw3 R3]%registry_frame & (s4 & [Hw4 R4]%slashings_frame
    & (s5 & [Hw5 R5]%eth1_reset_frame & [Hw6 R6]%effective_balances_frame
    )%bind_Ok_inv)%bind_Ok_inv)%bind_Ok_inv)%bind_Ok_inv; try done.
  split; [done|]. eauto using registry_only_trans.
Qed.

Definition next_slashings s : list Z :=
  <[Z.to_nat (wadd (get_current_epoch s) 1 mod EPOCHS_PER_SLASHINGS_VECTOR) := 0]> (slashings s).
Definition next_randao_mixes s : list bytes :=
  <[Z.to_nat (wadd (get_current_epoch s) 1 mod EPOCHS_PER_HISTORICAL_VECTOR)
    := get_randao_mix s (get_current_epoch s)]> (randao_mixes s).

Lemma final_phase s s' :
  wf_state s ->
  (s ← process_slashings_reset s; s ← process_randao_mixes_reset s;
   s ← process_historical_roots_update s; process_participation_record_updates s) = Ok s' ->
  wf_state s' /\ exists roots, s' = with_current_epoch_attestations (with_previous_epoch_attestations
    (with_historical_roots (with_randao_mixes (with_slashings s (next_slashings s)) (next_randao_mixes s))
       roots) (current_epoch_attestations s)) [].
Proof.
  intros Hw (s1 & H1%map_err_Ok & (s2 & H2%map_err_Ok & (s3 & H3 & (s4 & H4%map_err_Ok & [= <-])%bind_Ok_inv
    )%bind_Ok_inv)%bind_Ok_inv)%bind_Ok_inv.
  assert (wf_state s1) as Hw1 by (eapply wf_set_slashing; [done| |done]; unfold u64, U64; lia).
  assert (wf_state s2) as Hw2 by (by eapply wf_set_randao_mix).
  apply historical_roots_frame in H3 as [Hw3 [roots ->] ]; [|done].
  split; [apply wf_clear_current_attestations; eapply wf_set_previous_attestations; [|exact H4]; done|].
  apply set_slashing_Ok in H1 as [_ ->]. apply set_randao_mix_Ok in H2 as [_ ->].
  unfold set_previous_epoch_attestations in H4. case_match; [done|]. injection H4 as <-.
  by exists roots.
Qed.

(** [process_epoch] is justification followed by updates of everything but the
    slot, the checkpoints and the block header. *)
Lemma process_epoch_Ok s s' :
  wf_state s -> process_epoch s = Ok s' ->
  exists s1 s2 roots, process_justification_and_finalization s = Ok s1 /\ registry_only s1 s2 /\
    wf_state s' /\
    s' = with_current_epoch_attestations (with_previous_epoch_attestations
      (with_historical_roots (with_randao_mixes (with_slashings s2 (next_slashings s)) (next_randao_mixes s))
         roots) (current_epoch_attestations s)) [].
Proof using SpecOk0.
  intros Hw. unfold process_epoch. intros (s1 & H1 & Hr)%bind_Ok_inv.
  destruct (process_jf_wf s s1 Hw H1) as [Hw1 _].
  assert (exists s2, (s ← process_rewards_and_penalties s1; s ← process_registry_updates s;
    s ← process_slashings s; s ← process_eth1_data_reset s; process_effective_balance_updates s) = Ok s2 /\
    (s ← process_slashings_reset s2; s ← process_randao_mixes_reset s;
     s ← process_historical_roots_update s; process_participation_record_updates s) = Ok s')
    as (s2 & H2 & H3).
  { apply bind_Ok_inv in Hr as (s2 & E2 & (s3 & E3 & (s4 & E4 & (s5 & E5 & (s6 & E6 & Hr)%bind_Ok_inv
      )%bind_Ok_inv)%bind_Ok_inv)%bind_Ok_inv).
    exists s6. rewrite E2. cbn. rewrite E3. cbn. rewrite E4. cbn. rewrite E5. done. }
  apply registry_phase in H2 as [Hw2 R2]; [|done].
  apply final_phase in H3 as [Hw' [roots ->] ]; [|done].
  destruct (justification_frame s s1 H1) as (Hslot & Hsl & Hrm & Hatts).
  exists s1, s2, roots. split_and!; [done..|].
  destruct R2 as (vs & bs & votes & ->).
  unfold next_slashings, next_randao_mixes, get_randao_mix, randao_mix_at, get_current_epoch. cbn.
  by rewrite Hslot, Hsl, Hrm, Hatts.
Qed.
End facts.

(** ** Properties *)

(** The activation queue.  Of the validators waiting, at most the churn
    limit is activated, all of them eligible at the finalized epoch, and they
    start after the look-ahead; every other validator keeps its activation
    epoch.  The queue is fair and work-conserving: a validator left waiting has
    a later key [(eligibility epoch, index)] than every one activated, and
    somebody waits only if the churn limit is used up. *)
Theorem activation_queue_fair `{S : BeaconSpec} `{!SpecOk S} (s s' : BeaconState) :
  wf_state s -> process_registry_updates s = Ok s' ->
  wf_state s' /\ exists activated : list Z,
    zlen activated <= get_validator_churn_limit s /\
    (forall k v, validators s !! k = Some v -> exists v', validators s' !! k = Some v' /\
       v_activation_epoch v' = if decide (Z.of_nat k ∈ activated)
         then get_current_epoch s + 1 + MAX_SEED_LOOKAHEAD else v_activation_epoch v) /\
    (forall i, i ∈ activated -> exists v', validator s' i = Some v' /\
       v_activation_eligibility_epoch v' <= cp_epoch (finalized_checkpoint s)) /\
    (forall j w, 0 <= j -> validator s' j = Some w ->
       is_eligible_for_activation (cp_epoch (finalized_checkpoint s)) w = true ->
       zlen activated = get_validator_churn_limit s /\
       forall i v, i ∈ activated -> validator s' i = Some v ->
         queue_le (i, v_activation_eligibility_epoch v) (j, v_activation_eligibility_epoch w)).
Proof.
  intros Hw (s1 & vs & [Hw1 (vs1 & -> & Hkept)] & -> & Hw' & Hvs)%registry_updates_Ok; [|done].
  split; [done|]. cbv zeta in Hvs. set (s1 := with_validators s vs1) in *.
  set (n := Z.to_nat (get_validator_churn_limit s)) in *. set (q := take n (activation_queue s1)) in *.
  pose proof (churn_limit_pos s). pose proof (current_epoch_range s Hw). pose proof seed_lookahead.
  assert (get_current_epoch s + 1 + MAX_SEED_LOOKAHEAD < FAR_FUTURE_EPOCH)
    by (unfold FAR_FUTURE_EPOCH, u64_max, U64; lia).
  assert (length vs = length (validators s1)) as Hlen.
  { pose proof (wf_balances_length _ Hw') as E1. pose proof (wf_balances_length _ Hw1) as E2.
    cbn in E1, E2. cbn. congruence. }
  exists q.*1. split_and!.
  - unfold zlen, q. rewrite length_fmap, length_take. lia.
  - intros k v Hv. destruct (Forall2_lookup_l _ _ _ _ _ Hkept Hv) as (v1 & Hv1 & Ha & _).
    eexists. split; [exact (Hvs k v1 Hv1)|]. by case_decide.
  - intros i (v & _ & Hv & He)%(dequeued_validator s1 vs _ n Hvs). by exists v.
  - intros j w Hj Hjw Hel.
    assert ((j, v_activation_eligibility_epoch w) ∈ drop n (activation_queue s1)) as Hdrop
      by (by eapply (waiting_validator s1 vs)). split.
    + unfold zlen, q. rewrite length_fmap, length_take. destruct (decide (n <= length (activation_queue s1))%nat); [lia|].
      rewrite drop_ge in Hdrop by lia. by apply not_elem_of_nil in Hdrop.
    + intros i v (v' & Hq & Hv' & _)%(dequeued_validator s1 vs _ n Hvs) Hv.
      unfold validator in Hv. cbn in Hv. simplify_eq. by eapply queue_order.
Qed.

(** Proportional slashing penalties.  The step always succeeds and changes
    balances only: a slashed validator half-way to its withdrawal pays
    [effective_balance / increment * adjusted / total * increment] (products
    wrap at 64 bits), never more than its effective balance, and everyone else
    pays nothing. *)
Theorem slashings_charge_pointwise `{S : BeaconSpec} `{!SpecOk S} (s : BeaconState) :
  wf_state s ->
  exists bs, process_slashings s = Ok (with_balances s bs) /\ wf_state (with_balances s bs) /\
    forall k v b, validators s !! k = Some v -> balances s !! k = Some b ->
      bs !! k = Some (sat_sub b (slashing_penalty s v)) /\
      0 <= slashing_penalty s v <= v_effective_balance v.
Proof.
  intros Hw. destruct (slashings_applied s Hw) as (bs & Hs & Hw' & Hk). exists bs. split_and!; [done..|].
  intros k v b Hv Hb. split; [by apply Hk|]. apply slashing_penalty_bound.
  by eapply Forall_lookup_1; [apply (wf_validators _ Hw)|].
Qed.

(** Hysteresis of effective balances.  The update always succeeds and
    changes nothing but effective balances; afterwards every effective balance
    is a multiple of the increment and at most the maximum, does not exceed the
    balance by more than the downward threshold, and does not fall short of it
    by more than the upward threshold unless it is at the maximum; it is left
    alone while the balance stays within the two thresholds. *)
Theorem effective_balance_hysteresis `{S : BeaconSpec} `{!SpecOk S} (s : BeaconState) :
  wf_state s ->
  exists vs, process_effective_balance_updates s = Ok (with_validators s vs) /\
    wf_state (with_validators s vs) /\
    forall k v b, validators s !! k = Some v -> balances s !! k = Some b ->
      exists e, vs !! k = Some (v_with_effective_balance v e) /\
        0 <= e <= MAX_EFFECTIVE_BALANCE /\ e mod EFFECTIVE_BALANCE_INCREMENT = 0 /\
        e <= b + downward_threshold /\ (b <= e + upward_threshold \/ e = MAX_EFFECTIVE_BALANCE) /\
        (b + downward_threshold < U64 -> v_effective_balance v <= b + downward_threshold ->
         b <= v_effective_balance v + upward_threshold -> e = v_effective_balance v).
Proof.
  intros Hw. destruct (effective_balances_updated s Hw) as (vs & Hs & Hw' & Hk).
  exists vs. split_and!; [done..|]. intros k v b Hv Hb. exists (new_effective_balance b v).
  assert (u64 b) as [? ?] by (eapply Forall_lookup_1; [apply (wf_balances _ Hw)|done]).
  assert (validator_ok v) as [He Hm _ _ _ _] by (eapply Forall_lookup_1; [apply (wf_validators _ Hw)|done]).
  pose proof thresholds. pose proof increment_pos. pose proof max_effective_bound.
  assert (2 ^ 40 + 2 * 2 ^ 40 < U64) by done.
  destruct (effective_balance_update_spec b (v_effective_balance v) (new_effective_balance b v))
    as (? & ? & ? & ?); [done..|].
  split_and!; [by apply Hk|lia|lia|done|done|done|]. intros Hsm Hd Hu.
  unfold new_effective_balance, effective_balance_update. rewrite !wadd_small by lia.
  destruct (Z.ltb_spec (b + downward_threshold) (v_effective_balance v)); [lia|].
  by destruct (Z.ltb_spec (v_effective_balance v + upward_threshold) b); [lia|].
Qed.

(** C23: an epoch transition that succeeds keeps the state well formed and its
    slot, never takes back a finalized or justified epoch, keeps the
    checkpoints in order, moves the current attestations to the previous epoch,
    clears the next epoch's slashings entry and hands the current randao mix on
    to the next epoch. *)
Theorem epoch_transition `{Crypto} `{S : BeaconSpec} `{!SpecOk S} (s s' : BeaconState) :
  wf_state s -> checkpoints_ordered s -> process_epoch s = Ok s' ->
  wf_state s' /\ slot s' = slot s /\
  cp_epoch (finalized_checkpoint s) <= cp_epoch (finalized_checkpoint s') /\
  cp_epoch (current_justified_checkpoint s) <= cp_epoch (current_justified_checkpoint s') /\
  cp_epoch (finalized_checkpoint s') <= cp_epoch (previous_justified_checkpoint s') /\
  cp_epoch (previous_justified_checkpoint s') <= cp_epoch (current_justified_checkpoint s')
    <= get_current_epoch s /\
  previous_epoch_attestations s' = current_epoch_attestations s /\
  current_epoch_attestations s' = [] /\
  slashings s' !! Z.to_nat ((get_current_epoch s + 1) mod EPOCHS_PER_SLASHINGS_VECTOR) = Some 0 /\
  get_randao_mix s' (get_current_epoch s + 1) = get_randao_mix s (get_current_epoch s).
Proof.
  intros Hw Ho Hs. destruct (process_epoch_Ok s s' Hw Hs) as (s1 & s2 & roots & H1 & (vs & bs & votes & ->) & Hw' & ->).
  destruct (process_jf_ordered s s1 Hw Ho H1) as (? & ? & ? & ? & Hce).
  destruct (justification_frame s s1 H1) as (Hslot & Hsl & Hrm & Hatts).
  pose proof (current_epoch_range s Hw). pose proof slashings_vector_gt0. pose proof historical_vector_gt0.
  assert (get_current_epoch s1 = get_current_epoch s) as Hce1 by (unfold get_current_epoch; by rewrite Hslot).
  split_and!; try done; [by rewrite <-Hce1| |].
  - cbn. unfold next_slashings. rewrite wadd_small by (unfold U64; lia). apply list_lookup_insert_eq.
    pose proof (wf_slashings_length s Hw) as Hl. unfold zlen in Hl.
    pose proof (Z.mod_pos_bound (get_current_epoch s + 1) _ slashings_vector_gt0). lia.
  - unfold get_randao_mix at 1, randao_mix_at. cbn. unfold next_randao_mixes.
    rewrite wadd_small by (unfold U64; lia). rewrite list_lookup_insert_eq; [done|].
    pose proof (wf_randao_mixes s Hw) as Hl. unfold zlen in Hl.
    pose proof (Z.mod_pos_bound (get_current_epoch s + 1) _ historical_vector_gt0). lia.
Qed.

(** ** Witnesses: a waiting and a slashed validator in epoch 2 *)
Definition ex_waiting : Validator :=
  mkValidator (to_le_bytes 48 0) zero_chunk 32000000000 false 0 u64_max u64_max u64_max.
Definition ex_slashed : Validator :=
  mkValidator (to_le_bytes 48 1) zero_chunk 32000000000 true 0 0 2 34.
Definition ex_registry : BeaconState :=
  with_validators ex_attested (<[1%nat := ex_slashed]> (<[0%nat := ex_waiting]> (validators ex_attested))).

Lemma ex_registry_wf : @wf_state minimal ex_registry.
Proof.
  assert (@wf_state minimal (with_validators ex_attested (<[0%nat := ex_waiting]> (validators ex_attested))))
    as Hw0.
  { apply (validators_frame_step ex_attested (validators ex_attested) 0 (ex_validator 0 u64_max));
      [exact ex_attested_wf|reflexivity|].
    split; cbn; unfold u64, u64_max, U64; try lia; reflexivity. }
  apply (validators_frame_step ex_attested _ 1 (ex_validator 1 u64_max)); [exact Hw0|reflexivity|].
  split; cbn; unfold u64, u64_max, U64; try lia; reflexivity.
Qed.

Lemma activation_queue_fair_witness :
  exists s', @process_registry_updates minimal ex_registry = Ok s' /\ @wf_state minimal s'.
Proof.
  destruct (@process_registry_updates minimal ex_registry) as [s'| |] eqn:Hs;
    [|vm_compute in Hs; discriminate..].
  destruct (@activation_queue_fair minimal _ ex_registry s' ex_registry_wf Hs) as [Hw _].
  exists s'. split; [reflexivity|exact Hw].
Defined.

Lemma slashings_charge_pointwise_witness :
  exists bs, @process_slashings minimal ex_registry = Ok (with_balances ex_registry bs) /\
    @wf_state minimal (with_balances ex_registry bs).
Proof.
  destruct (@slashings_charge_pointwise minimal _ ex_registry ex_registry_wf) as (bs & Hs & Hw & _).
  exists bs. split; [exact Hs|exact Hw].
Defined.

Lemma effective_balance_hysteresis_witness :
  exists vs, @process_effective_balance_updates minimal ex_registry
      = Ok (with_validators ex_registry vs) /\ @wf_state minimal (with_validators ex_registry vs).
Proof.
  destruct (@effective_balance_hysteresis minimal _ ex_registry ex_registry_wf)
    as (vs & Hs & Hw & _).
  exists vs. split; [exact Hs|exact Hw].
Defined.

Lemma epoch_transition_witness :
  exists s', @process_epoch ex_crypto minimal ex_registry = Ok s' /\ @wf_state minimal s'.
Proof.
  destruct (@process_epoch ex_crypto minimal ex_registry) as [s'| |] eqn:Hs;
    [|vm_compute in Hs; discriminate..].
  destruct (@epoch_transition ex_crypto minimal _ ex_registry s' ex_registry_wf) as [Hw _].
  - vm_compute. split_and!; discriminate.
  - exact Hs.
  - exists s'. split; [reflexivity|exact Hw].
Defined.
