(* ===== verification/Operations.v ===== *)
(** * Block operations

    crates/pharos-stf/src/phase0/operations: the block header, randao, eth1
    votes, slashings, attestations, deposits and voluntary exits, and
    [process_operations] / [process_block] of block.rs. *)

From Stdlib Require Import ZArith Lia.
From stdpp Require Import sorting.
From S2P Require Import Prelude SszCodec SszBitfield SszTypes Merkle SszTree Shuffling Spec BeaconState Invariant Roots Accessors Mutators.

Section definitions.
  Context `{Crypto} `{BeaconSpec}.
  Implicit Types s : BeaconState.
  Local Abbreviation fallible := (result StateTransitionError).

(** ** block_header.rs *)
Definition process_block_header s (block : BeaconBlock) : fallible BeaconState :=
  if negb (b_slot block =? slot s) then Err (InvalidBlockHeader HeaderSlotMismatch)
  else if b_slot block <=? bh_slot (latest_block_header s) then Err (InvalidBlockHeader SlotNotLater)
  else
    proposer_index ← get_beacon_proposer_index s;
    if negb (b_proposer_index block =? proposer_index)
    then Err (InvalidBlockHeader HeaderProposerIndexMismatch)
    else
      expected_parent_root ← root_value (header_root (latest_block_header s));
      if negb (bool_decide (b_parent_root block = expected_parent_root))
      then Err (InvalidBlockHeader ParentRootMismatch)
      else
        body_root ← root_value (body_root (b_body block));
        let s := with_latest_block_header s
          (mkBeaconBlockHeader (b_slot block) (b_proposer_index block) (b_parent_root block)
             zero_chunk body_root) in
        let proposer_slashed := default false (v_slashed <$> validator s proposer_index) in
        if proposer_slashed then Err (InvalidBlockHeader ProposerSlashed) else Ok s.

(** ** randao.rs *)
Definition process_randao s (body : BeaconBlockBody) (verify_signatures : bool) : fallible BeaconState :=
  let epoch := get_current_epoch s in
  _ ← (if verify_signatures then
         proposer_index ← get_beacon_proposer_index s;
         proposer ← ok_or (validator s proposer_index) InvalidRandaoReveal;
         domain ← get_domain s DOMAIN_RANDAO (Some epoch);
         signing_root ← compute_signing_root (u64_root epoch) domain;
         if default false (bls_verify (v_pubkey proposer) signing_root (body_randao_reveal body))
         then Ok tt else Err InvalidRandaoReveal
       else Ok tt);
  let prev_mix := get_randao_mix s epoch in
  let new_mix := xor prev_mix (sha256 (body_randao_reveal body)) in
  set_randao_mix s (epoch mod EPOCHS_PER_HISTORICAL_VECTOR) new_mix.

(** ** eth1_data.rs *)
Definition eth1_data_votes_count_matching s (data : Eth1Data) : Z :=
  zlen (filter (fun v => v = data) (eth1_data_votes s)).

Definition process_eth1_data s (body : BeaconBlockBody) : fallible BeaconState :=
  let eth1_data := body_eth1_data body in
  s ← push_eth1_data_vote s eth1_data;
  let count := eth1_data_votes_count_matching s eth1_data in
  let threshold := wmul EPOCHS_PER_ETH1_VOTING_PERIOD SLOTS_PER_EPOCH in
  if threshold <? wmul count 2 then Ok (with_eth1_data s eth1_data) else Ok s.

(** ** proposer_slashing.rs *)
Definition check_header_signature s (proposer : Validator) (signed_header : SignedBeaconBlockHeader)
    : fallible unit :=
  let slot_epoch := compute_epoch_at_slot (bh_slot (sbh_message signed_header)) SLOTS_PER_EPOCH in
  domain ← get_domain s DOMAIN_BEACON_PROPOSER (Some slot_epoch);
  signing_root ← compute_signing_root (header_root (sbh_message signed_header)) domain;
  if default false (bls_verify (v_pubkey proposer) signing_root (sbh_signature signed_header))
  then Ok tt else Err (InvalidProposerSlashing SlashingInvalidSignature).

Definition process_proposer_slashing s (slashing : ProposerSlashing) (verify_signatures : bool)
    : fallible BeaconState :=
  let header_1 := sbh_message (ps_signed_header_1 slashing) in
  let header_2 := sbh_message (ps_signed_header_2 slashing) in
  if negb (bh_slot header_1 =? bh_slot header_2)
  then Err (InvalidProposerSlashing SlashingSlotMismatch)
  else if negb (bh_proposer_index header_1 =? bh_proposer_index header_2)
  then Err (InvalidProposerSlashing SlashingProposerIndexMismatch)
  else if bool_decide (header_1 = header_2) then Err (InvalidProposerSlashing HeadersIdentical)
  else
    let proposer_idx := bh_proposer_index header_1 in
    proposer ← ok_or (validator s proposer_idx) (InvalidProposerSlashing ValidatorNotSlashable);
    if negb (is_slashable_validator proposer (get_current_epoch s))
    then Err (InvalidProposerSlashing ValidatorNotSlashable)
    else
      _ ← (if verify_signatures
           then foldM (fun _ h => check_header_signature s proposer h)
                  [ps_signed_header_1 slashing; ps_signed_header_2 slashing] tt
           else Ok tt);
      slash_validator s proposer_idx None.

(** ** attester_slashing.rs *)
(** The two-cursor loop over sorted index lists; the cursors are the suffixes
    still to be read. *)
Fixpoint intersect (indices1 : list Z) : list Z -> list Z :=
  fix advance (indices2 : list Z) : list Z :=
    match indices1, indices2 with
    | x :: rest1, y :: rest2 =>
        if x <? y then intersect rest1 indices2
        else if y <? x then advance rest2
        else x :: intersect rest1 rest2
    | _, _ => []
    end.

Definition attester_slashing_step (epoch : Z) (acc : BeaconState * bool) (idx : Z)
    : fallible (BeaconState * bool) :=
  let '(s, slashed_any) := acc in
  let is_slashable := default false ((fun v => is_slashable_validator v epoch) <$> validator s idx) in
  if is_slashable then s ← slash_validator s idx None; Ok (s, true) else Ok (s, slashed_any).

Definition process_attester_slashing s (slashing : AttesterSlashing) (verify_signatures : bool)
    : fallible BeaconState :=
  let att1 := as_attestation_1 slashing in
  let att2 := as_attestation_2 slashing in
  if negb (is_slashable_attestation_data (ia_data att1) (ia_data att2))
  then Err (InvalidAttesterSlashing AttestationsNotSlashable)
  else
    valid1 ← is_valid_indexed_attestation s att1 verify_signatures;
    if negb valid1 then Err (InvalidAttesterSlashing InvalidIndexedAttestation)
    else
      valid2 ← is_valid_indexed_attestation s att2 verify_signatures;
      if negb valid2 then Err (InvalidAttesterSlashing InvalidIndexedAttestation)
      else
        let epoch := get_current_epoch s in
        let intersection := intersect (ia_attesting_indices att1) (ia_attesting_indices att2) in
        '(s, slashed_any) ← foldM (attester_slashing_step epoch) intersection (s, false);
        if negb slashed_any then Err (InvalidAttesterSlashing NoSlashableIndices) else Ok s.

(** ** attestation.rs *)
Definition attestation_timing s (data : AttestationData) : fallible unit :=
  let current_epoch := get_current_epoch s in
  let previous_epoch := get_previous_epoch s in
  let min_slot := wmul previous_epoch SLOTS_PER_EPOCH in
  let max_slot_incl := sat_add (wmul current_epoch SLOTS_PER_EPOCH) (SLOTS_PER_EPOCH - 1) in
  if ad_slot data <? min_slot then Err (InvalidAttestation SlotTooOld)
  else if max_slot_incl <? ad_slot data then Err (InvalidAttestation SlotTooNew)
  else if slot s <? wadd (ad_slot data) MIN_ATTESTATION_INCLUSION_DELAY
  then Err (InvalidAttestation SlotTooNew)
  else if wadd (ad_slot data) SLOTS_PER_EPOCH <? slot s then Err (InvalidAttestation SlotTooOld)
  else if negb (cp_epoch (ad_target data) =? compute_epoch_at_slot (ad_slot data) SLOTS_PER_EPOCH)
  then Err (InvalidAttestation TargetEpochMismatch)
  else if negb (cp_epoch (ad_target data) =? current_epoch)
          && negb (cp_epoch (ad_target data) =? previous_epoch)
  then Err (InvalidAttestation TargetEpochMismatch)
  else Ok tt.

Definition attestation_source_ok s (data : AttestationData) : bool :=
  if cp_epoch (ad_target data) =? get_current_epoch s
  then bool_decide (ad_source data = current_justified_checkpoint s)
  else bool_decide (ad_source data = previous_justified_checkpoint s).

Definition process_attestation s (attestation : Attestation) (verify_signatures : bool)
    : fallible BeaconState :=
  let data := att_data attestation in
  let current_epoch := get_current_epoch s in
  _ ← attestation_timing s data;
  let committee_count := get_committee_count_per_slot s (cp_epoch (ad_target data)) in
  if committee_count <=? ad_index data then Err (InvalidAttestation CommitteeIndexOutOfRange)
  else
    committee ← get_beacon_committee s (ad_slot data) (ad_index data);
    if negb (bit_len (att_aggregation_bits attestation) =? zlen committee)
    then Err (InvalidAttestation AggregationBitsLengthMismatch)
    else if negb (attestation_source_ok s data) then Err (InvalidAttestation InvalidSourceCheckpoint)
    else
      indexed ← get_indexed_attestation s attestation;
      if zlen (ia_attesting_indices indexed) =? 0 then Err (InvalidAttestation EmptyAttestingIndices)
      else
        valid ← is_valid_indexed_attestation s indexed verify_signatures;
        if negb valid then Err (InvalidAttestation AttInvalidSignature)
        else
          proposer_index ← get_beacon_proposer_index s;
          let inclusion_delay := wsub (slot s) (ad_slot data) in
          let pending := mkPendingAttestation (att_aggregation_bits attestation) data inclusion_delay
                           proposer_index in
          if cp_epoch (ad_target data) =? current_epoch
          then push_current_epoch_attestation s pending
          else push_previous_epoch_attestation s pending.

(** ** deposit.rs *)
Definition branch_step (idx : Z) (value : bytes) (entry : Z * bytes) : bytes :=
  let '(i, branch_hash) := entry in
  if Z.land (Z.shiftr idx i) 1 =? 1 then sha256 (branch_hash ++ value)
  else sha256 (value ++ branch_hash).

(** [branch[i]] for [i in 0..depth] with [depth == branch.len()]. *)
Definition is_valid_merkle_branch (leaf : bytes) (branch : list bytes) (depth idx : Z) (root : bytes)
    : bool :=
  if negb (depth =? zlen branch) then false
  else bool_decide (foldl (branch_step idx) leaf (enumerate branch) = root).

(** [.position(|v| &v.pubkey == pubkey)]. *)
Definition position_of s (pubkey : bytes) : option Z :=
  fst <$> head (filter (fun e => v_pubkey e.2 = pubkey) (enumerate (validators s))).

Definition apply_deposit s (pubkey withdrawal_credentials : bytes) (amount : Z) (signature : bytes)
    (verify_signatures : bool) : fallible BeaconState :=
  match position_of s pubkey with
  | Some idx => increase_balance s idx amount
  | None =>
      valid ← (if verify_signatures then
                 let deposit_message := mkDepositMessage pubkey withdrawal_credentials amount in
                 domain ← compute_domain DOMAIN_DEPOSIT GENESIS_FORK_VERSION zero_chunk;
                 signing_root ← compute_signing_root (deposit_message_root deposit_message) domain;
                 Ok (default false (bls_verify pubkey signing_root signature))
               else Ok true);
      if negb valid then Ok s
      else
        let effective_balance :=
          Z.min (amount - amount mod EFFECTIVE_BALANCE_INCREMENT) MAX_EFFECTIVE_BALANCE in
        let v := mkValidator pubkey withdrawal_credentials effective_balance false FAR_FUTURE_EPOCH
                   FAR_FUTURE_EPOCH FAR_FUTURE_EPOCH FAR_FUTURE_EPOCH in
        s ← push_validator s v;
        push_balance s amount
  end.

Definition process_deposit s (deposit : Deposit) (verify_signatures : bool) : fallible BeaconState :=
  leaf ← root_value (deposit_data_root (dep_data deposit));
  let depth := DEPOSIT_CONTRACT_TREE_DEPTH + 1 in
  if negb (is_valid_merkle_branch leaf (dep_proof deposit) depth (eth1_deposit_index s)
             (e1_deposit_root (eth1_data s)))
  then Err (InvalidDeposit InvalidMerkleProof)
  else
    let s := increment_eth1_deposit_index s in
    apply_deposit s (dd_pubkey (dep_data deposit)) (dd_withdrawal_credentials (dep_data deposit))
      (dd_amount (dep_data deposit)) (dd_signature (dep_data deposit)) verify_signatures.

(** ** voluntary_exit.rs *)
Definition process_voluntary_exit s (signed_exit : SignedVoluntaryExit) (verify_signatures : bool)
    : fallible BeaconState :=
  let exit := sve_message signed_exit in
  v ← ok_or (validator s (ve_validator_index exit)) (InvalidVoluntaryExit ValidatorNotActive);
  let current_epoch := get_current_epoch s in
  if negb (is_active_validator v current_epoch) then Err (InvalidVoluntaryExit ValidatorNotActive)
  else if negb (v_exit_epoch v =? FAR_FUTURE_EPOCH)
  then Err (InvalidVoluntaryExit ExitAlreadyInitiated)
  else if current_epoch <? ve_epoch exit then Err (InvalidVoluntaryExit EpochTooEarly)
  else if current_epoch <? wadd (v_activation_epoch v) SHARD_COMMITTEE_PERIOD
  then Err (InvalidVoluntaryExit InsufficientActiveEpochs)
  else
    _ ← (if verify_signatures then
           domain ← get_domain s DOMAIN_VOLUNTARY_EXIT (Some (ve_epoch exit));
           signing_root ← compute_signing_root (voluntary_exit_root exit) domain;
           if default false (bls_verify (v_pubkey v) signing_root (sve_signature signed_exit))
           then Ok tt else Err (InvalidVoluntaryExit ExitInvalidSignature)
         else Ok tt);
    initiate_validator_exit s (ve_validator_index exit).

(** ** block.rs *)
Definition process_operations s (body : BeaconBlockBody) (verify_signatures : bool)
    : fallible BeaconState :=
  let expected_deposits :=
    Z.min MAX_DEPOSITS (sat_sub (e1_deposit_count (eth1_data s)) (eth1_deposit_index s)) in
  if negb (zlen (body_deposits body) =? expected_deposits) then Err InvalidDepositCount
  else
    s ← foldM (fun s x => process_proposer_slashing s x verify_signatures) (body_proposer_slashings body) s;
    s ← foldM (fun s x => process_attester_slashing s x verify_signatures) (body_attester_slashings body) s;
    s ← foldM (fun s x => process_attestation s x verify_signatures) (body_attestations body) s;
    s ← foldM (fun s x => process_deposit s x verify_signatures) (body_deposits body) s;
    foldM (fun s x => process_voluntary_exit s x verify_signatures) (body_voluntary_exits body) s.

Definition process_block s (block : BeaconBlock) (verify_signatures : bool) : fallible BeaconState :=
  let body := b_body block in
  s ← process_block_header s block;
  s ← process_randao s body verify_signatures;
  s ← process_eth1_data s body;
  process_operations s body verify_signatures.
End definitions.

(** ** The intersection of sorted index lists *)
Lemma intersect_cons x l1 y l2 :
  intersect (x :: l1) (y :: l2)
  = if x <? y then intersect l1 (y :: l2)
    else if y <? x then intersect (x :: l1) l2
    else x :: intersect l1 l2.
Proof. done. Qed.

Lemma intersect_nil_r l : intersect l [] = [].
Proof. by destruct l. Qed.

Lemma elem_of_intersect l1 l2 x :
  StronglySorted Z.lt l1 -> StronglySorted Z.lt l2 ->
  x ∈ intersect l1 l2 <-> x ∈ l1 /\ x ∈ l2.
Proof.
  intros H1. revert l2. induction H1 as [|a l1 H1 IH1 Ha]; intros l2 H2.
  { destruct l2; cbn; rewrite elem_of_nil; tauto. }
  induction H2 as [|b l2 H2 IH2 Hb]; [cbn; rewrite elem_of_nil; tauto|].
  rewrite intersect_cons. rewrite Forall_forall in Ha, Hb.
  pose proof (Ha x) as Hax. pose proof (Hb x) as Hbx.
  destruct (Z.ltb_spec a b) as [Hab|Hab]; [|destruct (Z.ltb_spec b a) as [Hba|Hba] ].
  - rewrite IH1 by (constructor; [done|by apply Forall_forall]). rewrite !elem_of_cons.
    assert (x = a -> x = b \/ x ∈ l2 -> False) by (intros ? [?|?%Hbx]; lia). tauto.
  - rewrite IH2. rewrite !elem_of_cons.
    assert (x = b -> x = a \/ x ∈ l1 -> False) by (intros ? [?|?%Hax]; lia). tauto.
  - assert (a = b) as <- by lia. rewrite !elem_of_cons, IH1 by done. tauto.
Qed.

Lemma intersect_sorted l1 l2 :
  StronglySorted Z.lt l1 -> StronglySorted Z.lt l2 -> StronglySorted Z.lt (intersect l1 l2).
Proof.
  intros H1. revert l2. induction H1 as [|a l1 H1 IH1 Ha]; intros l2 H2; [destruct l2; constructor|].
  induction H2 as [|b l2 H2 IH2 Hb]; [constructor|]. rewrite intersect_cons.
  destruct (a <? b); [apply IH1; by constructor|]. destruct (b <? a); [done|].
  constructor; [by apply IH1|]. apply Forall_forall. intros x Hx.
  apply elem_of_intersect in Hx as [Hx _]; [|done..]. rewrite Forall_forall in Ha. by apply Ha.
Qed.

Lemma strictly_increasing_StronglySorted l : strictly_increasing l = true -> StronglySorted Z.lt l.
Proof.
  intros Hl. apply Sorted_StronglySorted; [intros ? ? ?; lia|].
  induction l as [|x [|y l] IH]; [constructor..|repeat constructor|].
  change (negb (y <=? x) && strictly_increasing (y :: l) = true) in Hl.
  apply andb_prop in Hl as [Hxy Hl]. constructor; [by apply IH|]. constructor. lia.
Qed.

Section facts.
  Context `{Crypto} `{S : BeaconSpec} `{!SpecOk S}.
  Implicit Types s : BeaconState.

(** ** Slashing several validators *)
(** What slashings and exits may change. *)
Definition slashing_frame s s' : Prop :=
  exists vs bs sl, s' = with_slashings (with_balances (with_validators s vs) bs) sl.

Lemma slashing_frame_refl s : slashing_frame s s.
Proof. exists (validators s), (balances s), (slashings s). by destruct s. Qed.

Lemma slashing_frame_trans s1 s2 s3 : slashing_frame s1 s2 -> slashing_frame s2 s3 -> slashing_frame s1 s3.
Proof. intros (? & ? & ? & ->) (vs & bs & sl & ->). by exists vs, bs, sl. Qed.

Lemma slash_validator_frame s idx w s' : slash_validator s idx w = Ok s' -> slashing_frame s s'.
Proof.
  unfold slash_validator.
  intros (s1 & H1 & (v1 & _ & (s2 & H2 & (s3 & H3 & (s4 & H4 & (pi & _ & (s5 & H5 & H6)%bind_Ok_inv
    )%bind_Ok_inv)%bind_Ok_inv)%bind_Ok_inv)%bind_Ok_inv)%bind_Ok_inv)%bind_Ok_inv.
  apply initiate_validator_exit_frame in H1 as [? ->]. apply set_validator_Ok in H2 as [_ ->].
  apply set_slashing_Ok in H3 as [_ ->].
  apply balance_frame in H4 as [? ->], H5 as [? ->], H6 as [? ->].
  by do 3 eexists.
Qed.

Lemma slash_validator_registry s idx w s' :
  wf_state s -> 0 <= idx -> slash_validator s idx w = Ok s' ->
  wf_state s' /\ (exists v', validator s' idx = Some v' /\ v_slashed v' = true) /\
  forall i, 0 <= i -> i <> idx -> validator s' i = validator s i.
Proof using SpecOk0.
  intros Hw Hidx Hs.
  destruct (slash_validator_Ok s idx w s' Hw Hs) as (s1 & v1 & H1 & Hv1 & Hw' & Hval & _).
  destruct (initiate_validator_exit_exiting s idx s1 v1 Hw Hidx H1 Hv1) as [_ Hother].
  pose proof (lookup_lt_Some _ _ _ Hv1). split_and!; [done| |].
  - eexists. unfold validator. rewrite Hval, list_lookup_insert_eq by done. by split.
  - intros i Hi Hne. unfold validator. rewrite Hval, list_lookup_insert_ne by lia. by apply Hother.
Qed.

Definition slashable_in s (epoch idx : Z) : bool :=
  default false ((fun v => is_slashable_validator v epoch) <$> validator s idx).

Lemma attester_slashing_fold epoch l s b s' b' :
  wf_state s -> NoDup l -> (forall i, i ∈ l -> 0 <= i) ->
  foldM (attester_slashing_step epoch) l (s, b) = Ok (s', b') ->
  wf_state s' /\ slashing_frame s s' /\
  (forall i, 0 <= i -> i ∉ l \/ slashable_in s epoch i = false -> validator s' i = validator s i) /\
  (forall i, i ∈ l -> slashable_in s epoch i = true ->
     exists v', validator s' i = Some v' /\ v_slashed v' = true) /\
  b' = b || existsb (slashable_in s epoch) l.
Proof using SpecOk0.
  intros Hw Hnd. revert s b Hw. induction Hnd as [|i l Hni Hnd IH]; intros s b Hw Hpos Hf.
  { injection Hf as <- <-. rewrite orb_false_r. split_and!; [done|apply slashing_frame_refl|done| |done].
    intros i Hi. by apply not_elem_of_nil in Hi. }
  cbn [foldM] in Hf. apply bind_Ok_inv in Hf as ([s1 b1] & Hstep & Hf). unfold attester_slashing_step in Hstep.
  change (default false _) with (slashable_in s epoch i) in Hstep. cbn [existsb].
  assert (0 <= i) as Hi by (apply Hpos; left).
  destruct (slashable_in s epoch i) eqn:Hsl; cycle 1.
  { injection Hstep as <- <-. destruct (IH s b) as (? & ? & Hno & Hyes & ->); [done| |done|].
    { intros j Hj. apply Hpos. by right. }
    split_and!; [done|done| | |done].
    - intros j Hj [Hn|Hn]; apply Hno; auto. left. intros ?. apply Hn. by right.
    - intros j [->|Hj]%elem_of_cons Hs; [congruence|auto]. }
  apply bind_Ok_inv in Hstep as (s2 & H2 & [= -> <-]).
  destruct (slash_validator_registry s i None s1 Hw Hi H2) as (Hw1 & (v1 & Hv1 & Hsl1) & Hother).
  destruct (IH s1 true) as (? & Hfr & Hno & Hyes & ->); [done| |done|].
  { intros j Hj. apply Hpos. by right. }
  assert (forall j, 0 <= j -> j <> i -> slashable_in s1 epoch j = slashable_in s epoch j) as Hsame
    by (intros; unfold slashable_in; by rewrite Hother).
  split_and!; [done| | | |by rewrite orb_true_r].
  - eapply slashing_frame_trans; [by eapply slash_validator_frame|done].
  - intros j Hj Hor. assert (j <> i) as Hne.
    { intros ->. destruct Hor as [Hn|Hn]; [apply Hn; left|congruence]. }
    rewrite Hno; [by apply Hother|done|]. rewrite Hsame by done.
    destruct Hor as [Hn|Hn]; [left; intros ?; apply Hn; by right|by right].
  - intros j Hj Hs. apply elem_of_cons in Hj as [->|Hj].
    + exists v1. rewrite Hno; [done|done|by left].
    + apply Hyes; [done|]. rewrite Hsame; [done|apply Hpos; by right|]. intros ->. done.
Qed.

Lemma valid_indexed_sorted {E} s att verify :
  is_valid_indexed_attestation (E:=E) s att verify = Ok true ->
  StronglySorted Z.lt (ia_attesting_indices att).
Proof.
  unfold is_valid_indexed_attestation. case_match; [done|]. case_match eqn:Hs; [done|].
  intros _. apply strictly_increasing_StronglySorted. by apply negb_false_iff in Hs.
Qed.

Lemma process_attester_slashing_Ok s sl verify s' :
  wf_state s ->
  Forall (fun i => 0 <= i) (ia_attesting_indices (as_attestation_1 sl)) ->
  process_attester_slashing s sl verify = Ok s' ->
  let l := intersect (ia_attesting_indices (as_attestation_1 sl))
             (ia_attesting_indices (as_attestation_2 sl)) in
  (forall i, i ∈ l <-> i ∈ ia_attesting_indices (as_attestation_1 sl) /\
                      i ∈ ia_attesting_indices (as_attestation_2 sl)) /\
  wf_state s' /\ slashing_frame s s' /\
  (forall i, 0 <= i -> i ∉ l \/ slashable_in s (get_current_epoch s) i = false ->
     validator s' i = validator s i) /\
  (forall i, i ∈ l -> slashable_in s (get_current_epoch s) i = true ->
     exists v', validator s' i = Some v' /\ v_slashed v' = true) /\
  existsb (slashable_in s (get_current_epoch s)) l = true.
Proof using SpecOk0.
  intros Hw Hpos. unfold process_attester_slashing. cbv zeta. case_match; [done|].
  intros (v1 & Hv1 & Hs)%bind_Ok_inv. destruct v1; [|done]. cbn in Hs.
  apply bind_Ok_inv in Hs as (v2 & Hv2 & Hs). destruct v2; [|done]. cbn in Hs.
  apply bind_Ok_inv in Hs as ([s1 any] & Hf & Hs).
  apply valid_indexed_sorted in Hv1, Hv2. destruct any; [|done]. injection Hs as ->.
  assert (forall i, i ∈ intersect (ia_attesting_indices (as_attestation_1 sl))
    (ia_attesting_indices (as_attestation_2 sl)) <-> i ∈ ia_attesting_indices (as_attestation_1 sl) /\
    i ∈ ia_attesting_indices (as_attestation_2 sl)) as Hin by (intros i; by apply elem_of_intersect).
  assert (NoDup (intersect (ia_attesting_indices (as_attestation_1 sl))
    (ia_attesting_indices (as_attestation_2 sl)))) as Hnd.
  { pose proof (intersect_sorted _ _ Hv1 Hv2) as Hsort. clear -Hsort.
    induction Hsort as [|a l _ IH Ha]; constructor; [|done].
    intros Hin. rewrite Forall_forall in Ha. specialize (Ha a Hin). lia. }
  apply attester_slashing_fold in Hf as (? & ? & ? & ? & ?); [by split_and!|done|done|].
  intros i [Hi _]%Hin. rewrite Forall_forall in Hpos. by apply Hpos.
Qed.

(** ** Deposit proofs are SSZ Merkle proofs *)
Lemma fold_branch_high_bits cur i m branch :
  fold_branch sha256 cur (i + 2 ^ zlen branch * m) branch = fold_branch sha256 cur i branch.
Proof.
  revert cur i. induction branch as [|h branch IH]; intros cur i; [done|].
  rewrite zlen_cons, Z.pow_add_r by (pose proof (zlen_nonneg branch); lia). cbn [fold_branch].
  rewrite !land_1_odd.
  replace (i + 2 ^ 1 * 2 ^ zlen branch * m) with (i + (2 ^ zlen branch * m) * 2) by lia.
  rewrite Z.div_add, IH by lia. by rewrite Z.odd_add, Z.odd_mul, andb_false_r, xorb_false_r.
Qed.

Lemma branch_steps_fold idx branch :
  0 <= idx -> forall cur k, 0 <= k ->
  foldl (branch_step idx) cur (enumerate_from k branch) = fold_branch sha256 cur (Z.shiftr idx k) branch.
Proof.
  intros Hidx. induction branch as [|h branch IH]; intros cur k Hk; [done|]. cbn [enumerate_from foldl fold_branch].
  rewrite IH by lia. unfold branch_step. rewrite <-Z.div2_div, Z.div2_spec, Z.shiftr_shiftr by lia.
  done.
Qed.

(** ** Deposits *)
Definition pubkeys s : list bytes := v_pubkey <$> validators s.

Lemma position_of_Some s pubkey idx :
  position_of s pubkey = Some idx ->
  0 <= idx /\ exists v, validator s idx = Some v /\ v_pubkey v = pubkey.
Proof.
  unfold position_of. destruct (filter _ _) as [|[i v] l] eqn:Hf; [done|]. intros [= <-].
  assert ((i, v) ∈ filter (fun e => v_pubkey e.2 = pubkey) (enumerate (validators s))) as Hin
    by (rewrite Hf; left).
  apply list_elem_of_filter in Hin as [Hpk (Hi & Hv)%elem_of_enumerate]. split; [done|by exists v].
Qed.

Lemma position_of_None s pubkey : position_of s pubkey = None -> pubkey ∉ pubkeys s.
Proof.
  unfold position_of. intros Hnone Hin. apply list_elem_of_fmap in Hin as (v & -> & Hv).
  apply list_elem_of_lookup in Hv as [k Hk].
  assert ((Z.of_nat k, v) ∈ filter (fun e => v_pubkey e.2 = v_pubkey v) (enumerate (validators s))) as Hin.
  { apply list_elem_of_filter. split; [done|]. apply elem_of_enumerate. rewrite Nat2Z.id. split; [lia|done]. }
  by destruct (filter _ _); [apply not_elem_of_nil in Hin|].
Qed.

Definition deposited_validator (pubkey withdrawal_credentials : bytes) (amount : Z) : Validator :=
  mkValidator pubkey withdrawal_credentials
    (Z.min (amount - amount mod EFFECTIVE_BALANCE_INCREMENT) MAX_EFFECTIVE_BALANCE) false
    FAR_FUTURE_EPOCH FAR_FUTURE_EPOCH FAR_FUTURE_EPOCH FAR_FUTURE_EPOCH.

Lemma deposited_validator_ok pk wc amount : u64 amount -> validator_ok (deposited_validator pk wc amount).
Proof using SpecOk0.
  intros [? ?]. pose proof increment_pos. pose proof max_effective_mod. pose proof max_effective_bound.
  set (inc := EFFECTIVE_BALANCE_INCREMENT) in *.
  assert (0 <= amount mod inc <= amount).
  { split; [apply Z.mod_pos_bound; lia|apply Z.mod_le; lia]. }
  split; cbn; try (unfold FAR_FUTURE_EPOCH, u64, u64_max, U64; lia); fold inc; [lia|].
  destruct (Z.min_spec (amount - amount mod inc) MAX_EFFECTIVE_BALANCE) as [ [_ ->]|[_ ->] ]; [|done].
  by rewrite Zminus_mod_idemp_r, Z.sub_diag.
Qed.

(** The three outcomes of [apply_deposit]. *)
Lemma apply_deposit_Ok s pk wc amount sig verify s' :
  apply_deposit s pk wc amount sig verify = Ok s' ->
  (exists i v, 0 <= i /\ validator s i = Some v /\ v_pubkey v = pk /\ increase_balance s i amount = Ok s') \/
  ((pk ∉ pubkeys s) /\ verify = true /\ s' = s) \/
  ((pk ∉ pubkeys s) /\ exists s1, push_validator s (deposited_validator pk wc amount) = Ok s1 /\
     push_balance s1 amount = Ok s').
Proof.
  unfold apply_deposit. destruct (position_of s pk) as [idx|] eqn:Hpos.
  { apply position_of_Some in Hpos as (? & v & ? & ?). left. eauto 6. }
  apply position_of_None in Hpos. intros (valid & Hvalid & Hs)%bind_Ok_inv. right.
  destruct valid; cbn in Hs.
  - right. split; [done|]. apply bind_Ok_inv in Hs as (s1 & H1 & H2). by exists s1.
  - left. split_and!; [done| |by injection Hs]. by destruct verify.
Qed.

(** ** What no operation changes *)
Record ops_frame s s' : Prop := {
  of_slot : slot s' = slot s;
  of_header : latest_block_header s' = latest_block_header s;
  of_finalized : finalized_checkpoint s' = finalized_checkpoint s;
  of_current : current_justified_checkpoint s' = current_justified_checkpoint s;
  of_previous : previous_justified_checkpoint s' = previous_justified_checkpoint s;
  of_mixes : randao_mixes s' = randao_mixes s;
  of_pubkeys : NoDup (pubkeys s) -> NoDup (pubkeys s');
}.

Lemma ops_frame_refl s : ops_frame s s.
Proof. by constructor. Qed.
Lemma ops_frame_trans s1 s2 s3 : ops_frame s1 s2 -> ops_frame s2 s3 -> ops_frame s1 s3.
Proof. intros [] []; constructor; first [congruence|auto]. Qed.

Lemma set_validator_pubkeys s i v w s' :
  validator s i = Some v -> v_pubkey w = v_pubkey v -> set_validator s i w = Ok s' -> pubkeys s' = pubkeys s.
Proof.
  intros Hv Hpk [_ ->]%set_validator_Ok. unfold pubkeys. cbn. rewrite list_fmap_insert, Hpk.
  apply list_insert_id. rewrite list_lookup_fmap. unfold validator in Hv. by rewrite Hv.
Qed.

Lemma initiate_validator_exit_pubkeys s i s' :
  initiate_validator_exit s i = Ok s' -> pubkeys s' = pubkeys s.
Proof.
  unfold initiate_validator_exit. intros (v & _ & Hs)%bind_Ok_inv. case_match; [by injection Hs as <-|].
  apply bind_Ok_inv in Hs as (e & _ & (w & _ & (v' & Hv%ok_or_Ok & Hs)%bind_Ok_inv)%bind_Ok_inv).
  by eapply set_validator_pubkeys in Hs.
Qed.

Lemma slash_validator_pubkeys s i w s' : slash_validator s i w = Ok s' -> pubkeys s' = pubkeys s.
Proof.
  unfold slash_validator.
  intros (s1 & H1 & (v1 & Hv1%ok_or_Ok & (s2 & H2 & (s3 & H3 & (s4 & H4 & (pi & _ & (s5 & H5 & H6)%bind_Ok_inv
    )%bind_Ok_inv)%bind_Ok_inv)%bind_Ok_inv)%bind_Ok_inv)%bind_Ok_inv)%bind_Ok_inv.
  apply balance_frame in H4 as [? ->], H5 as [? ->], H6 as [? ->]. apply set_slashing_Ok in H3 as [_ ->].
  apply initiate_validator_exit_pubkeys in H1. by eapply set_validator_pubkeys in H2; [|done|];
    [rewrite <-H1, <-H2|].
Qed.

Lemma slash_validator_ops s i w s' : slash_validator s i w = Ok s' -> ops_frame s s'.
Proof.
  intros Hs. pose proof (slash_validator_pubkeys s i w s' Hs) as Hpk.
  apply slash_validator_frame in Hs as (vs & bs & sl & ->). by constructor; [..|rewrite Hpk].
Qed.

Lemma initiate_validator_exit_ops s i s' : initiate_validator_exit s i = Ok s' -> ops_frame s s'.
Proof.
  intros Hs. pose proof (initiate_validator_exit_pubkeys s i s' Hs) as Hpk.
  apply initiate_validator_exit_frame in Hs as [l ->]. by constructor; [..|rewrite Hpk].
Qed.

(** An operation of the given number of deposits keeps the invariant. *)
Definition op_ok (deposits : Z) s s' : Prop :=
  wf_state s -> wf_state s' /\ ops_frame s s' /\
    eth1_deposit_index s' = (eth1_deposit_index s + deposits) mod U64.

Lemma op_ok_0 s s' :
  (wf_state s -> wf_state s') -> ops_frame s s' -> eth1_deposit_index s' = eth1_deposit_index s ->
  op_ok 0 s s'.
Proof.
  intros Hw Hf He Hs. split_and!; [auto|done|]. rewrite He, Z.add_0_r, Z.mod_small; [done|].
  by apply wf_deposit_index in Hs.
Qed.

Lemma op_ok_trans n m s1 s2 s3 : op_ok n s1 s2 -> op_ok m s2 s3 -> op_ok (n + m) s1 s3.
Proof.
  intros H1 H2 (Hw2 & Hf2 & He2)%H1. destruct (H2 Hw2) as (Hw3 & Hf3 & He3).
  split_and!; [done|by eapply ops_frame_trans|].
  rewrite He3, He2, Zplus_mod_idemp_l. f_equal. lia.
Qed.

Lemma foldM_op_ok {A} (f : BeaconState -> A -> result StateTransitionError BeaconState) n l s s' :
  (forall s x s', x ∈ l -> f s x = Ok s' -> op_ok n s s') ->
  foldM f l s = Ok s' -> op_ok (n * zlen l) s s'.
Proof.
  revert s. induction l as [|x l IH]; intros s Hf Hs.
  { injection Hs as <-. rewrite Z.mul_0_r. apply op_ok_0; [done|apply ops_frame_refl|done]. }
  cbn in Hs. apply bind_Ok_inv in Hs as (s1 & H1 & H2). rewrite zlen_cons, Z.mul_add_distr_l, Z.mul_1_r.
  eapply op_ok_trans; [eapply Hf; [left|done]|]. apply IH; [|done]. intros; eapply Hf; [by right|done].
Qed.

Lemma slash_validator_op_ok s i w s' : slash_validator s i w = Ok s' -> op_ok 0 s s'.
Proof using SpecOk0.
  intros Hs. apply op_ok_0; [|by eapply slash_validator_ops|].
  - intros Hw. by destruct (slash_validator_Ok s i w s' Hw Hs) as (? & ? & _ & _ & ? & _).
  - by apply slash_validator_frame in Hs as (? & ? & ? & ->).
Qed.

Lemma process_proposer_slashing_op s x verify s' :
  process_proposer_slashing s x verify = Ok s' -> op_ok 0 s s'.
Proof using SpecOk0.
  unfold process_proposer_slashing. repeat (case_match; [done|]).
  intros (v & _ & Hs)%bind_Ok_inv. case_match; [done|]. apply bind_Ok_inv in Hs as (_ & _ & Hs).
  by eapply slash_validator_op_ok.
Qed.

Lemma attester_slashing_fold_op epoch l s b s' b' :
  foldM (attester_slashing_step epoch) l (s, b) = Ok (s', b') -> op_ok 0 s s'.
Proof using SpecOk0.
  revert s b. induction l as [|i l IH]; intros s b Hf.
  { injection Hf as <- <-. apply op_ok_0; [done|apply ops_frame_refl|done]. }
  cbn [foldM] in Hf. apply bind_Ok_inv in Hf as ([s1 b1] & Hstep & Hf). unfold attester_slashing_step in Hstep.
  destruct (default _ _); [|injection Hstep as <- <-; by eapply IH].
  apply bind_Ok_inv in Hstep as (s2 & H2 & [= -> <-]).
  apply (op_ok_trans 0 0 s s1 s'); [by eapply slash_validator_op_ok|by eapply IH].
Qed.

Lemma process_attester_slashing_op s x verify s' :
  process_attester_slashing s x verify = Ok s' -> op_ok 0 s s'.
Proof using SpecOk0.
  unfold process_attester_slashing. case_match; [done|]. intros (v1 & _ & Hs)%bind_Ok_inv.
  case_match; [done|]. apply bind_Ok_inv in Hs as (v2 & _ & Hs). case_match; [done|].
  apply bind_Ok_inv in Hs as ([s1 any] & Hf & Hs). case_match; [done|]. injection Hs as <-.
  by eapply attester_slashing_fold_op.
Qed.

Lemma process_attestation_op s x verify s' :
  process_attestation s x verify = Ok s' -> op_ok 0 s s'.
Proof.
  unfold process_attestation. intros (_ & _ & Hs)%bind_Ok_inv. case_match; [done|].
  apply bind_Ok_inv in Hs as (c & _ & Hs). do 2 (case_match; [done|]).
  apply bind_Ok_inv in Hs as (ind & _ & Hs). case_match; [done|].
  apply bind_Ok_inv in Hs as (valid & _ & Hs). case_match; [done|].
  apply bind_Ok_inv in Hs as (pi & _ & Hs). case_match; apply op_ok_0.
  1: intros; by eapply wf_push_current_attestation.
  3: intros; by eapply wf_push_previous_attestation.
  all: apply bind_Ok_inv in Hs as (l & _ & [= <-]); by try constructor.
Qed.

Lemma process_voluntary_exit_op s x verify s' :
  process_voluntary_exit s x verify = Ok s' -> op_ok 0 s s'.
Proof using SpecOk0.
  unfold process_voluntary_exit. intros (v & _ & Hs)%bind_Ok_inv. repeat (case_match; [done|]).
  apply bind_Ok_inv in Hs as (_ & _ & Hs). apply op_ok_0; [|by eapply initiate_validator_exit_ops|].
  - intros Hw. by eapply initiate_validator_exit_wf.
  - by apply initiate_validator_exit_frame in Hs as [l ->].
Qed.

Lemma process_deposit_op s x verify s' :
  u64 (dd_amount (dep_data x)) -> process_deposit s x verify = Ok s' -> op_ok 1 s s'.
Proof using SpecOk0.
  unfold process_deposit. intros Hu (leaf & _ & Hs)%bind_Ok_inv. case_match; [done|]. intros Hw.
  pose proof (wf_increment_deposit_index s Hw) as Hw1. destruct Hu as [Hu0 Hu1].
  apply apply_deposit_Ok in Hs as [(i & v & _ & _ & _ & Hi)|[(_ & _ & ->)|(Hpk & s1 & H1 & H2)] ].
  - split_and!; [by eapply increase_balance_wf| |]; apply balance_frame in Hi as [bs ->]; by try constructor.
  - split_and!; [done|by constructor|done].
  - split; [eapply wf_push_validator_balance; [exact Hw1|by apply deposited_validator_ok|done|done|done]|].
    apply bind_Ok_inv in H1 as (vs & [_ ->]%map_err_Ok%list_with_push_Ok & [= <-]).
    apply bind_Ok_inv in H2 as (bs & _ & [= <-]). split; [|done]. constructor; try done.
    unfold pubkeys in *. cbn. rewrite fmap_app. intros Hnd. apply NoDup_app. split_and!; [done| |].
    + intros k Hk. cbn. intros ->%list_elem_of_singleton. done.
    + apply NoDup_singleton.
Qed.

Lemma process_operations_op s body verify s' :
  Forall (fun d => u64 (dd_amount (dep_data d))) (body_deposits body) ->
  process_operations s body verify = Ok s' -> op_ok (zlen (body_deposits body)) s s'.
Proof using SpecOk0.
  intros Hd. unfold process_operations. case_match; [done|].
  intros (s1 & H1 & (s2 & H2 & (s3 & H3 & (s4 & H4 & H5)%bind_Ok_inv)%bind_Ok_inv)%bind_Ok_inv)%bind_Ok_inv.
  apply (foldM_op_ok _ 0) in H1; [|intros; by eapply process_proposer_slashing_op].
  apply (foldM_op_ok _ 0) in H2; [|intros; by eapply process_attester_slashing_op].
  apply (foldM_op_ok _ 0) in H3; [|intros; by eapply process_attestation_op].
  apply (foldM_op_ok _ 1) in H4;
    [|intros; eapply process_deposit_op; [|done]; rewrite Forall_forall in Hd; by apply Hd].
  apply (foldM_op_ok _ 0) in H5; [|intros; by eapply process_voluntary_exit_op].
  rewrite Z.mul_0_l in H1, H2, H3, H5.
  replace (zlen (body_deposits body)) with (0 + (0 + (0 + (1 * zlen (body_deposits body) + 0)))) by lia.
  repeat (eapply op_ok_trans; [eassumption|]). done.
Qed.

Lemma process_block_header_Ok s b s' :
  process_block_header s b = Ok s' ->
  b_slot b = slot s /\ bh_slot (latest_block_header s) < b_slot b /\
  get_beacon_proposer_index (E:=StateTransitionError) s = Ok (b_proposer_index b) /\
  header_root (latest_block_header s) = Ok (b_parent_root b) /\
  exists r, body_root (b_body b) = Ok r /\
    s' = with_latest_block_header s (mkBeaconBlockHeader (b_slot b) (b_proposer_index b)
           (b_parent_root b) zero_chunk r).
Proof.
  unfold process_block_header. case_match eqn:Hslot; [done|]. case_match eqn:Hlater; [done|].
  intros (pi & Hpi & Hs)%bind_Ok_inv. case_match eqn:Hidx; [done|].
  apply bind_Ok_inv in Hs as (pr & Hpr & Hs). case_match eqn:Hparent; [done|].
  apply bind_Ok_inv in Hs as (r & Hr & Hs). case_match; [done|]. injection Hs as <-.
  apply negb_false_iff in Hslot, Hidx, Hparent. apply bool_decide_eq_true in Hparent. subst pr.
  assert (b_proposer_index b = pi) as <- by lia.
  split_and!; [lia|lia|done|by destruct (header_root _); simplify_eq/=|].
  exists r. split; [|done]. by destruct (body_root _); simplify_eq/=.
Qed.

Lemma process_randao_Ok s body verify s' :
  process_randao s body verify = Ok s' ->
  set_randao_mix s (get_current_epoch s mod EPOCHS_PER_HISTORICAL_VECTOR)
    (xor (get_randao_mix s (get_current_epoch s)) (sha256 (body_randao_reveal body))) = Ok s'.
Proof. unfold process_randao. by intros (_ & _ & Hs)%bind_Ok_inv. Qed.

Lemma process_eth1_data_op s body s' : process_eth1_data s body = Ok s' -> op_ok 0 s s'.
Proof.
  unfold process_eth1_data. intros (s1 & H1 & Hs)%bind_Ok_inv.
  assert (op_ok 0 s s1) as Hop.
  { apply op_ok_0; [intros; by eapply wf_push_eth1_data_vote| |];
      apply bind_Ok_inv in H1 as (l & _ & [= <-]); by try constructor. }
  case_match; injection Hs as <-; [|done]. apply (op_ok_trans 0 0 s s1); [done|].
  apply op_ok_0; [apply wf_set_eth1_data|by constructor|done].
Qed.
End facts.

(** ** Properties *)

(** Attester slashings.  An accepted slashing slashes exactly the
    validators that are in both index lists and slashable in the current epoch
    (the two-cursor loop computes the intersection of the sorted lists); there
    is at least one, every other registry entry is unchanged, and the state
    stays well formed. *)
Theorem attester_slashing_exact `{Crypto} `{S : BeaconSpec} `{!SpecOk S} (s s' : BeaconState) sl verify :
  wf_state s ->
  Forall (fun i => 0 <= i) (ia_attesting_indices (as_attestation_1 sl)) ->
  process_attester_slashing s sl verify = Ok s' ->
  let double i := (i ∈ ia_attesting_indices (as_attestation_1 sl)) /\
                  (i ∈ ia_attesting_indices (as_attestation_2 sl)) in
  wf_state s' /\
  (exists i, double i /\ slashable_in s (get_current_epoch s) i = true) /\
  (forall i, double i -> slashable_in s (get_current_epoch s) i = true ->
     exists v', validator s' i = Some v' /\ v_slashed v' = true) /\
  (forall i, 0 <= i -> ~ (double i /\ slashable_in s (get_current_epoch s) i = true) ->
     validator s' i = validator s i).
Proof.
  intros Hw Hpos Hs. destruct (process_attester_slashing_Ok s sl verify s' Hw Hpos Hs)
    as (Hin & Hw' & _ & Hno & Hyes & Hany). cbv zeta. split_and!; [done| | |].
  - apply existsb_exists in Hany as (i & Hi%list_elem_of_In & Hsl). exists i. split; [by apply Hin|done].
  - intros i Hi. apply Hyes. by apply Hin.
  - intros i Hi Hn. apply Hno; [done|].
    destruct (slashable_in s (get_current_epoch s) i) eqn:E; [left|by right].
    intros Hi'%Hin. by apply Hn.
Qed.

(** The Merkle branch check of deposits is the SSZ proof verification at
    generalized index [2^depth + index]. *)
Theorem deposit_branch_is_ssz_proof `{Crypto} leaf branch depth idx root :
  0 <= depth -> 0 <= idx ->
  verify_merkle_proof sha256 root (mkProof leaf branch (2 ^ depth + idx mod 2 ^ depth))
  = Ok (is_valid_merkle_branch leaf branch depth idx root).
Proof.
  intros Hd Hi. assert (0 < 2 ^ depth) by (apply Z.pow_pos_nonneg; lia).
  pose proof (Z.mod_pos_bound idx (2 ^ depth) ltac:(lia)).
  unfold verify_merkle_proof, is_valid_merkle_branch, get_generalized_index_length. cbn [Merkle.gindex Merkle.branch Merkle.leaf].
  destruct (Z.leb_spec 1 (2 ^ depth + idx mod 2 ^ depth)); [|lia]. cbn [mbind result_bind].
  rewrite (Z.log2_unique' (2 ^ depth + idx mod 2 ^ depth) depth (idx mod 2 ^ depth)) by lia.
  rewrite (Z.eqb_sym depth). destruct (Z.eqb_spec (zlen branch) depth) as [<-|]; cbn [negb]; [|done].
  unfold enumerate. rewrite branch_steps_fold, Z.shiftr_0_r by lia. do 2 f_equal.
  apply bool_decide_ext.
  replace (2 ^ zlen branch + idx mod 2 ^ zlen branch) with (idx mod 2 ^ zlen branch + 2 ^ zlen branch * 1) by lia.
  rewrite fold_branch_high_bits, <-(fold_branch_high_bits leaf _ (idx / 2 ^ zlen branch)).
  by rewrite Z.add_comm, <-Z.div_mod by lia.
Qed.

(** Deposits.  An accepted deposit has a valid Merkle branch at the current
    deposit index, which then advances by one, and does one of three things: it
    tops up the balance of the validator with that public key; or, for a new
    key, appends a validator that is not yet in any queue together with its
    balance; or, for a new key with a bad signature, nothing.  The state stays
    well formed and no two validators ever share a public key. *)
Theorem deposit_effect `{Crypto} `{S : BeaconSpec} `{!SpecOk S} (s s' : BeaconState) d verify :
  wf_state s -> u64 (dd_amount (dep_data d)) -> NoDup (pubkeys s) ->
  process_deposit s d verify = Ok s' ->
  let pk := dd_pubkey (dep_data d) in
  let amount := dd_amount (dep_data d) in
  wf_state s' /\ NoDup (pubkeys s') /\
  eth1_deposit_index s' = (eth1_deposit_index s + 1) mod U64 /\
  (exists leaf, deposit_data_root (dep_data d) = Ok leaf /\
     is_valid_merkle_branch leaf (dep_proof d) (DEPOSIT_CONTRACT_TREE_DEPTH + 1) (eth1_deposit_index s)
       (e1_deposit_root (eth1_data s)) = true) /\
  ((exists i v b, validator s i = Some v /\ v_pubkey v = pk /\ balance_at s i = Some b /\
      validators s' = validators s /\ balances s' = <[Z.to_nat i := sat_add b amount]> (balances s)) \/
   ((pk ∉ pubkeys s) /\ balances s' = balances s ++ [amount] /\
      validators s' = validators s ++
        [deposited_validator pk (dd_withdrawal_credentials (dep_data d)) amount]) \/
   ((pk ∉ pubkeys s) /\ verify = true /\ validators s' = validators s /\ balances s' = balances s)).
Proof.
  intros Hw Hu Hnd Hs. destruct (process_deposit_op s d verify s' Hu Hs Hw) as (Hw' & [] & Hidx).
  cbv zeta. split_and!; [done|auto|done| |].
  - unfold process_deposit in Hs. apply bind_Ok_inv in Hs as (leaf & Hleaf & Hs).
    case_match eqn:Hb; [done|]. exists leaf. split; [by destruct (deposit_data_root _); simplify_eq/=|].
    by apply negb_false_iff.
  - unfold process_deposit in Hs. apply bind_Ok_inv in Hs as (leaf & _ & Hs). case_match; [done|].
    apply apply_deposit_Ok in Hs as [(i & v & Hi & Hv & Hpk & Hb)|[(? & ? & ->)|(? & s1 & H1 & H2)] ].
    + left. destruct (lookup_lt_is_Some_2 (balances s) (Z.to_nat i)) as [b Hbal].
      { rewrite (wf_balances_length s Hw). by eapply lookup_lt_Some. }
      exists i, v, b. unfold increase_balance, balance_at in *. cbn in Hb. rewrite Hbal in Hb.
      apply set_balance_Ok in Hb as [_ ->]. by split_and!.
    + right. right. by split_and!.
    + right. left. split; [done|].
      apply bind_Ok_inv in H1 as (vs & [_ ->]%map_err_Ok%list_with_push_Ok & [= <-]).
      by apply bind_Ok_inv in H2 as (bs & [_ ->]%map_err_Ok%list_with_push_Ok & [= <-]).
Qed.

(** C9: block processing.  A block that is accepted is for the state's slot,
    later than the last block, by the slot's proposer and on top of the last
    block; it becomes the latest header, its reveal is mixed into the randao,
    the deposit index advances by the number of its deposits, no checkpoint
    moves, and the state stays well formed with distinct public keys. *)
Theorem block_processing `{Crypto} `{S : BeaconSpec} `{!SpecOk S} (s s' : BeaconState) b verify :
  wf_state s -> Forall (fun d => u64 (dd_amount (dep_data d))) (body_deposits (b_body b)) ->
  process_block s b verify = Ok s' ->
  wf_state s' /\ slot s' = slot s /\ b_slot b = slot s /\ bh_slot (latest_block_header s) < b_slot b /\
  get_beacon_proposer_index (E:=StateTransitionError) s = Ok (b_proposer_index b) /\
  header_root (latest_block_header s) = Ok (b_parent_root b) /\
  (exists r, body_root (b_body b) = Ok r /\ latest_block_header s' =
     mkBeaconBlockHeader (b_slot b) (b_proposer_index b) (b_parent_root b) zero_chunk r) /\
  get_randao_mix s' (get_current_epoch s) =
    xor (get_randao_mix s (get_current_epoch s)) (sha256 (body_randao_reveal (b_body b))) /\
  eth1_deposit_index s' = (eth1_deposit_index s + zlen (body_deposits (b_body b))) mod U64 /\
  finalized_checkpoint s' = finalized_checkpoint s /\
  current_justified_checkpoint s' = current_justified_checkpoint s /\
  previous_justified_checkpoint s' = previous_justified_checkpoint s /\
  (NoDup (pubkeys s) -> NoDup (pubkeys s')).
Proof.
  intros Hw Hd. unfold process_block. intros (s1 & H1 & (s2 & H2 & (s3 & H3 & H4)%bind_Ok_inv)%bind_Ok_inv)%bind_Ok_inv.
  apply process_block_header_Ok in H1 as (Hslot & Hlater & Hpi & Hpr & r & Hr & ->).
  apply process_randao_Ok in H2.
  pose proof (wf_set_randao_mix _ _ _ _ (wf_set_latest_block_header s _ Hw) H2) as Hw2.
  apply process_eth1_data_op in H3. apply process_operations_op in H4; [|done].
  destruct (op_ok_trans _ _ _ _ _ H3 H4 Hw2) as (Hw' & [Hs' Hh Hf Hc Hp Hm Hk] & Hidx). clear H3 H4.
  apply set_randao_mix_Ok in H2 as [_ ->]. rewrite Z.add_0_l in Hidx.
  split_and!; try done; [by exists r|].
  unfold get_randao_mix at 1, randao_mix_at. rewrite Hm. cbn. rewrite list_lookup_insert_eq; [done|].
  pose proof (wf_randao_mixes s Hw) as Hl. unfold zlen in Hl.
  pose proof (Z.mod_pos_bound (get_current_epoch s) _ historical_vector_gt0).
  change (get_current_epoch _) with (get_current_epoch s). lia.
Qed.

(** ** Witnesses *)
Definition ex_vote (root : bytes) : AttestationData :=
  mkAttestationData 16 0 root (mkCheckpoint 0 zero_chunk) (mkCheckpoint 2 zero_chunk).
Definition ex_attester_slashing : AttesterSlashing :=
  mkAttesterSlashing
    (mkIndexedAttestation [5; 6] (ex_vote zero_chunk) (replicate 96 Byte.x00))
    (mkIndexedAttestation [6; 7] (ex_vote (replicate 32 Byte.x01)) (replicate 96 Byte.x00)).

Lemma ex_state_17_wf : @wf_state minimal (ex_state 17).
Proof. apply ex_state_wf. unfold u64, U64. lia. Qed.

Lemma attester_slashing_exact_witness :
  exists s', @process_attester_slashing ex_crypto minimal (ex_state 17) ex_attester_slashing true = Ok s' /\
    @wf_state minimal s'.
Proof.
  destruct (@process_attester_slashing ex_crypto minimal (ex_state 17) ex_attester_slashing true)
    as [s'| |] eqn:Hs; [|vm_compute in Hs; discriminate..].
  destruct (@attester_slashing_exact ex_crypto minimal _ (ex_state 17) s' ex_attester_slashing true)
    as [Hw _].
  - exact ex_state_17_wf.
  - repeat constructor; lia.
  - exact Hs.
  - exists s'. split; [reflexivity|exact Hw].
Defined.

Lemma deposit_branch_is_ssz_proof_witness :
  @verify_merkle_proof (@sha256 ex_crypto) zero_chunk
    (mkProof (replicate 32 Byte.x05) (replicate 3 zero_chunk) (2 ^ 3 + 6 mod 2 ^ 3))
  = Ok (@is_valid_merkle_branch ex_crypto (replicate 32 Byte.x05) (replicate 3 zero_chunk) 3 6 zero_chunk).
Proof. apply (@deposit_branch_is_ssz_proof ex_crypto); lia. Defined.

Definition ex_deposit : Deposit :=
  mkDeposit (replicate 33 zero_chunk)
    (mkDepositData (replicate 48 Byte.xff) zero_chunk 32000000000 (replicate 96 Byte.x00)).

Lemma deposit_effect_witness :
  exists s', @process_deposit ex_crypto minimal (ex_state 17) ex_deposit true = Ok s' /\
    @wf_state minimal s' /\ NoDup (pubkeys s').
Proof.
  destruct (@process_deposit ex_crypto minimal (ex_state 17) ex_deposit true) as [s'| |] eqn:Hs;
    [|vm_compute in Hs; discriminate..].
  destruct (@deposit_effect ex_crypto minimal _ (ex_state 17) s' ex_deposit true) as (Hw & Hn & _).
  - exact ex_state_17_wf.
  - split; [vm_compute; discriminate|reflexivity].
  - apply (bool_decide_unpack _). vm_compute. exact I.
  - exact Hs.
  - exists s'. split_and!; [reflexivity|exact Hw|exact Hn].
Defined.

Definition ex_block : BeaconBlock :=
  mkBeaconBlock 17 (ok_value 0 (@get_beacon_proposer_index ex_crypto minimal unit (ex_state 17)))
    (ok_value [] (@header_root ex_crypto ex_header)) zero_chunk
    (mkBeaconBlockBody (replicate 96 Byte.x01) (mkEth1Data zero_chunk 0 zero_chunk) zero_chunk
       [] [] [] [] []).

Lemma block_processing_witness :
  exists s', @process_block ex_crypto minimal (ex_state 17) ex_block true = Ok s' /\
    @wf_state minimal s' /\ slot s' = 17.
Proof.
  destruct (@process_block ex_crypto minimal (ex_state 17) ex_block true) as [s'| |] eqn:Hs;
    [|vm_compute in Hs; discriminate..].
  destruct (@block_processing ex_crypto minimal _ (ex_state 17) s' ex_block true) as (Hw & Hsl & _).
  - exact ex_state_17_wf.
  - constructor.
  - exact Hs.
  - exists s'. split_and!; [reflexivity|exact Hw|exact Hsl].
Defined.
