(* ===== verification/Pools.v ===== *)
(** * Operation pools

    crates/pharos-types/src/pools.rs: the pools gossip fills and block
    production drains.  [LruCache] (crate lru) and the BLS [aggregate] are
    arguments: the class [Lru] lists the cache operations the pools use and
    [LruOk] their documented behaviour.  Each pool sits behind its own lock; an
    operation is the critical section of its pool. *)

From Stdlib Require Import ZArith Lia.
From stdpp Require Import list sorting.
From S2P Require Import Prelude SszCodec SszBitfield SszTypes Merkle Spec BeaconState Roots Accessors Operations.

(** ** The cache *)
Class Lru : Type := {
  lru : Type -> Type -> Type;
  lru_new {K V} : Z -> lru K V;
  lru_cap {K V} : lru K V -> Z;
  (** Most recently used entry first. *)
  lru_iter {K V} : lru K V -> list (K * V);
  lru_peek {K V} `{EqDecision K} : K -> lru K V -> option V;
  lru_put {K V} `{EqDecision K} : K -> V -> lru K V -> lru K V;
  lru_pop {K V} `{EqDecision K} : K -> lru K V -> lru K V;
}.

(** The entry of a key in a list of entries, and the entries without it. *)
Definition assoc {K V} `{EqDecision K} (k : K) (l : list (K * V)) : option V :=
  snd <$> List.find (fun e => bool_decide (e.1 = k)) l.
Definition without {K V} `{EqDecision K} (k : K) (l : list (K * V)) : list (K * V) :=
  base.filter (fun e => e.1 <> k) l.

Class LruOk (L : Lru) : Prop := {
  lru_new_iter {K V} cap : lru_iter (lru_new (K:=K) (V:=V) cap) = [];
  lru_new_cap {K V} cap : lru_cap (lru_new (K:=K) (V:=V) cap) = cap;
  lru_nodup {K V} (c : lru K V) : NoDup (lru_iter c).*1;
  lru_peek_iter {K V} `{EqDecision K} (k : K) (c : lru K V) : lru_peek k c = assoc k (lru_iter c);
  lru_put_iter {K V} `{EqDecision K} (k : K) (v : V) (c : lru K V) :
    lru_iter (lru_put k v c) = take (Z.to_nat (lru_cap c)) ((k, v) :: without k (lru_iter c));
  lru_put_cap {K V} `{EqDecision K} (k : K) (v : V) (c : lru K V) : lru_cap (lru_put k v c) = lru_cap c;
  lru_pop_iter {K V} `{EqDecision K} (k : K) (c : lru K V) : lru_iter (lru_pop k c) = without k (lru_iter c);
  lru_pop_cap {K V} `{EqDecision K} (k : K) (c : lru K V) : lru_cap (lru_pop k c) = lru_cap c;
}.

(** ** Types *)
Record BLSToExecutionChange : Type := mkBLSToExecutionChange {
  bc_validator_index : Z;
  bc_from_bls_pubkey : bytes;
  bc_to_execution_address : bytes;
}.
Record SignedBLSToExecutionChange : Type := mkSignedBLSToExecutionChange {
  sbc_message : BLSToExecutionChange;
  sbc_signature : bytes;
}.
Record SyncCommitteeMessage : Type := mkSyncCommitteeMessage {
  scm_slot : Z;
  scm_beacon_block_root : bytes;
  scm_validator_index : Z;
  scm_signature : bytes;
}.

Record AttKey : Type := mkAttKey { ak_data_root : bytes; ak_subkey : Z }.
#[global] Instance AttKey_eq_dec : EqDecision AttKey.
Proof. solve_decision. Defined.

Record SyncMessageKey : Type := mkSyncMessageKey {
  smk_slot : Z;
  smk_subcommittee_index : Z;
  smk_beacon_block_root : bytes;
}.
#[global] Instance SyncMessageKey_eq_dec : EqDecision SyncMessageKey.
Proof. solve_decision. Defined.

Definition MAX_POOL_ENTRIES : Z := 16384.

(** [b'\xc0' + b'\x00' * 95]. *)
Definition empty_sync_committee_signature : bytes := Byte.xc0 :: replicate 95 Byte.x00.

Section pools.
  Context `{L : Lru}.

Record OperationPools : Type := mkOperationPools {
  op_attestations : lru AttKey Attestation;
  op_attester_slashings : lru Z AttesterSlashing;
  op_proposer_slashings : lru Z ProposerSlashing;
  op_voluntary_exits : lru Z SignedVoluntaryExit;
  op_bls_to_execution_changes : lru Z SignedBLSToExecutionChange;
  op_sync_messages : lru SyncMessageKey (list SyncCommitteeMessage);
}.

Definition pools_new : OperationPools :=
  mkOperationPools (lru_new MAX_POOL_ENTRIES) (lru_new MAX_POOL_ENTRIES) (lru_new MAX_POOL_ENTRIES)
    (lru_new MAX_POOL_ENTRIES) (lru_new MAX_POOL_ENTRIES) (lru_new MAX_POOL_ENTRIES).

(** ** Attestations *)

(** Lowest unused subkey: one of [1 .. n + 1] is free among [n] entries. *)
Definition next_free_subkey {V} (cache : lru AttKey V) (data_root : bytes) : result SszError Z :=
  expect (List.find (fun sk => negb (bool_decide (is_Some (lru_peek (mkAttKey data_root sk) cache))))
            (seqZ 1 (zlen (lru_iter cache) + 1))).

(** Setting the bits of the incoming attestation in the pooled one. *)
Definition merge_bits (merged : Bitlist) (bits : list bool) : result SszError Bitlist :=
  foldM (fun merged '(i, bit) => if (bit : bool) then bl_set merged (Z.of_nat i) true else Ok merged)
    (imap (fun i b => (i, b)) bits) merged.

Definition bits_disjoint (a b : list bool) : bool := forallb (fun '(a, b) => negb (a && b)) (zip a b).

Context `{Crypto}.
(** [bls::aggregate]; [None] is an error. *)
Variable aggregate : list bytes -> option bytes.

Definition put_subkey (cache : lru AttKey Attestation) (data_root : bytes) (att : Attestation)
    : result SszError (lru AttKey Attestation) :=
  subkey ← next_free_subkey cache data_root;
  Ok (lru_put (mkAttKey data_root subkey) att cache).

Definition insert_attestation (cache : lru AttKey Attestation) (att : Attestation)
    : result SszError (lru AttKey Attestation) :=
  data_root ← attestation_data_root (att_data att);
  let primary_key := mkAttKey data_root 0 in
  match lru_peek primary_key cache with
  | Some existing =>
      existing_bits ← bl_iter (att_aggregation_bits existing);
      new_bits ← bl_iter (att_aggregation_bits att);
      if bits_disjoint existing_bits new_bits then
        merged ← merge_bits (att_aggregation_bits existing) new_bits;
        match aggregate [att_signature existing; att_signature att] with
        | Some agg_sig => Ok (lru_put primary_key (mkAttestation merged (att_data existing) agg_sig) cache)
        | None => put_subkey cache data_root att
        end
      else put_subkey cache data_root att
  | None => Ok (lru_put primary_key att cache)
  end.

(** The number of participants; [max_by_key] keeps the last of the maxima. *)
Definition participation (att : Attestation) : result SszError Z :=
  bits ← bl_iter (att_aggregation_bits att);
  Ok (zlen (List.filter id bits)).

Definition better_aggregate (data_root : bytes) (best : option (Z * Attestation)) (e : AttKey * Attestation)
    : result SszError (option (Z * Attestation)) :=
  if bool_decide (ak_data_root e.1 = data_root) then
    n ← participation e.2;
    match best with
    | Some (m, b) => if m <=? n then Ok (Some (n, e.2)) else Ok (Some (m, b))
    | None => Ok (Some (n, e.2))
    end
  else Ok best.

Definition best_aggregate_for (cache : lru AttKey Attestation) (data_root : bytes)
    : result SszError (option Attestation) :=
  best ← foldM (better_aggregate data_root) (lru_iter cache) None;
  Ok (option_map snd best).

(** ** The pools with one entry per key *)
Definition insert_new {K V} `{EqDecision K} (key : K) (v : V) (cache : lru K V) : lru K V :=
  match lru_peek key cache with
  | None => lru_put key v cache
  | Some _ => cache
  end.

Definition xor_all (l : list Z) : Z := foldl Z.lxor 0 l.

(** [BTreeSet::collect], [intersection] and [sort_unstable]: the distinct
    members in increasing order. *)
Definition dedup_sorted (l : list Z) : list Z := merge_sort Z.le (remove_dups l).
Definition attester_slashing_key (slashing : AttesterSlashing) : Z :=
  let set1 := dedup_sorted (ia_attesting_indices (as_attestation_1 slashing)) in
  let set2 := dedup_sorted (ia_attesting_indices (as_attestation_2 slashing)) in
  match base.filter (fun i => i ∈ set2) set1 with
  | [] => Z.lor (xor_all set1) (Z.shiftl (xor_all set2) 64)
  | [a] => a
  | a :: b :: _ => Z.lor a (Z.shiftl b 64)
  end.

Definition insert_attester_slashing (slashing : AttesterSlashing) (p : OperationPools) : OperationPools :=
  mkOperationPools (op_attestations p)
    (insert_new (attester_slashing_key slashing) slashing (op_attester_slashings p))
    (op_proposer_slashings p) (op_voluntary_exits p) (op_bls_to_execution_changes p) (op_sync_messages p).

Definition insert_proposer_slashing (slashing : ProposerSlashing) (p : OperationPools) : OperationPools :=
  mkOperationPools (op_attestations p) (op_attester_slashings p)
    (insert_new (bh_proposer_index (sbh_message (ps_signed_header_1 slashing))) slashing (op_proposer_slashings p))
    (op_voluntary_exits p) (op_bls_to_execution_changes p) (op_sync_messages p).

Definition insert_voluntary_exit (exit : SignedVoluntaryExit) (p : OperationPools) : OperationPools :=
  mkOperationPools (op_attestations p) (op_attester_slashings p) (op_proposer_slashings p)
    (insert_new (ve_validator_index (sve_message exit)) exit (op_voluntary_exits p))
    (op_bls_to_execution_changes p) (op_sync_messages p).

Definition insert_bls_to_execution_change (change : SignedBLSToExecutionChange) (p : OperationPools) : OperationPools :=
  mkOperationPools (op_attestations p) (op_attester_slashings p) (op_proposer_slashings p) (op_voluntary_exits p)
    (insert_new (bc_validator_index (sbc_message change)) change (op_bls_to_execution_changes p)) (op_sync_messages p).

(** ** Sync committee messages *)

(** Replace the message of the same validator, or append. *)
Fixpoint upsert_message (msg : SyncCommitteeMessage) (entry : list SyncCommitteeMessage) : list SyncCommitteeMessage :=
  match entry with
  | [] => [msg]
  | m :: entry =>
      if scm_validator_index m =? scm_validator_index msg then msg :: entry else m :: upsert_message msg entry
  end.

(** [get_or_insert_mut] makes the entry the most recent one. *)
Definition insert_sync_message (msg : SyncCommitteeMessage) (subcommittee_index : Z)
    (cache : lru SyncMessageKey (list SyncCommitteeMessage)) : lru SyncMessageKey (list SyncCommitteeMessage) :=
  let key := mkSyncMessageKey (scm_slot msg) subcommittee_index (scm_beacon_block_root msg) in
  lru_put key (upsert_message msg (default [] (lru_peek key cache))) cache.

(** The positions of a message's validator among the keys of a subcommittee,
    with its signature. *)
Definition message_positions (validator_pubkey : Z -> option bytes) (subc_slice : list bytes)
    (msg : SyncCommitteeMessage) : list (nat * bytes) :=
  match validator_pubkey (scm_validator_index msg) with
  | Some pubkey =>
      (fun '(pos, _) => (pos, scm_signature msg)) <$>
        base.filter (fun '(_, pk) => pk = pubkey) (imap (fun pos pk => (pos, pk)) subc_slice)
  | None => []
  end.

(** [E::SYNC_SUBCOMMITTEE_SIZE] and [E::SYNC_COMMITTEE_SUBNET_COUNT]. *)
Variables (SYNC_SUBCOMMITTEE_SIZE SYNC_COMMITTEE_SUBNET_COUNT : Z).

Fixpoint drain_subcommittees (subcommittees : list Z) (slot : Z) (block_root : bytes)
    (committee_pubkeys : list bytes) (validator_pubkey : Z -> option bytes)
    (cache : lru SyncMessageKey (list SyncCommitteeMessage))
    : lru SyncMessageKey (list SyncCommitteeMessage) * result SszError (list (Z * bytes)) :=
  match subcommittees with
  | [] => (cache, Ok [])
  | subc_idx :: rest =>
      let key := mkSyncMessageKey slot subc_idx block_root in
      match lru_peek key cache with
      | Some msgs =>
          let cache := lru_pop key cache in
          let subc_start := subc_idx * SYNC_SUBCOMMITTEE_SIZE in
          let subc_end := Z.min (subc_start + SYNC_SUBCOMMITTEE_SIZE) (zlen committee_pubkeys) in
          match slice (E := SszError) committee_pubkeys subc_start subc_end with
          | Ok subc_slice =>
              let found := msgs ≫= message_positions validator_pubkey subc_slice in
              let '(cache, more) := drain_subcommittees rest slot block_root committee_pubkeys validator_pubkey cache in
              (cache, more ≫= fun more => Ok (((fun '(pos, sig) => (subc_start + Z.of_nat pos, sig)) <$> found) ++ more))
          | Err e => (cache, Err e)
          | Panic => (cache, Panic)
          end
      | None => drain_subcommittees rest slot block_root committee_pubkeys validator_pubkey cache
      end
  end.

(** [aggregate(&sigs).unwrap_or_default()]; nothing to aggregate gives the point
    at infinity. *)
Definition aggregate_or_empty (sigs : list bytes) : bytes :=
  if zlen sigs =? 0 then empty_sync_committee_signature
  else default (replicate 96 Byte.x00) (aggregate sigs).

Definition drain_sync_aggregate_raw (cache : lru SyncMessageKey (list SyncCommitteeMessage)) (slot : Z)
    (block_root : bytes) (committee_pubkeys : list bytes) (validator_pubkey : Z -> option bytes)
    : lru SyncMessageKey (list SyncCommitteeMessage) * result SszError (list Z * bytes) :=
  let '(cache, found) := drain_subcommittees (seqZ 0 SYNC_COMMITTEE_SUBNET_COUNT) slot block_root
                           committee_pubkeys validator_pubkey cache in
  (cache, found ≫= fun found => Ok (found.*1, aggregate_or_empty found.*2)).

Definition contribution_for (cache : lru SyncMessageKey (list SyncCommitteeMessage)) (slot subcommittee_index : Z)
    (block_root : bytes) (subc_pubkeys : list bytes) (validator_pubkey : Z -> option bytes)
    : option (list nat * bytes) :=
  match lru_peek (mkSyncMessageKey slot subcommittee_index block_root) cache with
  | Some msgs =>
      let found := msgs ≫= message_positions validator_pubkey subc_pubkeys in
      if zlen found =? 0 then None else Some (found.*1, default (replicate 96 Byte.x00) (aggregate found.*2))
  | None => None
  end.

(** ** Draining for a block *)
Context `{BeaconSpec}.
Variable MAX_BLS_TO_EXECUTION_CHANGES : Z.

Record BlockOperations : Type := mkBlockOperations {
  bo_proposer_slashings : list ProposerSlashing;
  bo_attester_slashings : list AttesterSlashing;
  bo_attestations : list Attestation;
  bo_voluntary_exits : list SignedVoluntaryExit;
  bo_bls_to_execution_changes : list SignedBLSToExecutionChange;
}.

(** [keys.into_iter().filter_map(|k| cache.pop(&k)).collect()]. *)
Fixpoint pop_all {K V} `{EqDecision K} (keys : list K) (cache : lru K V) : lru K V * list V :=
  match keys with
  | [] => (cache, [])
  | k :: keys =>
      let '(cache', vs) := pop_all keys (lru_pop k cache) in
      (cache', option_list (lru_peek k cache) ++ vs)
  end.

Definition drain_pool {K V} `{EqDecision K} (max : Z) (keep : V -> bool) (cache : lru K V) : lru K V * list V :=
  pop_all (take (Z.to_nat max) (base.filter (fun e => keep e.2 = true) (lru_iter cache)).*1) cache.

Definition in_inclusion_window (block_slot : Z) (att : Attestation) : bool :=
  let att_slot := ad_slot (att_data att) in
  (sat_add att_slot MIN_ATTESTATION_INCLUSION_DELAY <=? block_slot) &&
  (block_slot <=? sat_add att_slot SLOTS_PER_EPOCH).

Definition drain_for_block (p : OperationPools) (block_slot : Z) : OperationPools * BlockOperations :=
  let '(proposer_cache, proposer_slashings) :=
    drain_pool MAX_PROPOSER_SLASHINGS (fun _ => true) (op_proposer_slashings p) in
  let '(attester_cache, attester_slashings) :=
    drain_pool MAX_ATTESTER_SLASHINGS (fun _ => true) (op_attester_slashings p) in
  let '(att_cache, attestations) :=
    drain_pool MAX_ATTESTATIONS (in_inclusion_window block_slot) (op_attestations p) in
  let '(exit_cache, voluntary_exits) :=
    drain_pool MAX_VOLUNTARY_EXITS (fun _ => true) (op_voluntary_exits p) in
  let '(bls_cache, bls_changes) :=
    drain_pool MAX_BLS_TO_EXECUTION_CHANGES (fun _ => true) (op_bls_to_execution_changes p) in
  (mkOperationPools att_cache attester_cache proposer_cache exit_cache bls_cache (op_sync_messages p),
   mkBlockOperations proposer_slashings attester_slashings attestations voluntary_exits bls_changes).
End pools.

(** ** The cache as a list of entries *)
Section lru_facts.
  Context {K V : Type} `{EqDecision K}.
  Implicit Types (l : list (K * V)) (k : K).

Lemma assoc_Some l k v : NoDup l.*1 -> assoc k l = Some v <-> (k, v) ∈ l.
Proof.
  unfold assoc. induction l as [|[k' v'] l IH]; cbn; intros Hnd; [split; [done|by intros ?%elem_of_nil]|].
  inversion Hnd as [|? ? Hni Hnd']; subst. rewrite elem_of_cons. case_bool_decide as Heq; cbn in Heq.
  - subst. cbn. split; [intros [= ->]; by left|]. intros [[= <-]|Hin]; [done|].
    destruct Hni. apply list_elem_of_fmap. by exists (k, v).
  - rewrite IH by done. split; [by right|]. intros [[= <- <-]|?]; [by destruct Heq|done].
Qed.

Lemma assoc_None l k : assoc k l = None <-> k ∉ l.*1.
Proof.
  unfold assoc. induction l as [|[k' v'] l IH]; cbn; [split; [by intros _ ?%elem_of_nil|done]|].
  rewrite not_elem_of_cons. case_bool_decide as Heq; cbn in Heq; [subst; cbn; naive_solver|].
  rewrite IH. naive_solver.
Qed.

Lemma elem_of_without l k e : e ∈ without k l <-> e.1 <> k /\ e ∈ l.
Proof. unfold without. by rewrite list_elem_of_filter. Qed.

Lemma without_cons k' v' l k :
  without k ((k', v') :: l) = if decide (k' = k) then without k l else (k', v') :: without k l.
Proof. unfold without. rewrite filter_cons. cbn. by repeat case_decide. Qed.

Lemma without_notin l k : k ∉ l.*1 -> without k l = l.
Proof.
  induction l as [|[k' v'] l IH]; [done|]. cbn [fmap list_fmap fst]. intros [Hne Hni]%not_elem_of_cons.
  rewrite without_cons, decide_False by congruence. by rewrite IH.
Qed.

Lemma without_perm l k v : NoDup l.*1 -> (k, v) ∈ l -> l ≡ₚ (k, v) :: without k l.
Proof.
  induction l as [|[k' v'] l IH]; [by intros _ ?%elem_of_nil|]. cbn [fmap list_fmap fst].
  intros [Hni Hnd]%NoDup_cons [[= <- <-]|Hin]%elem_of_cons; rewrite without_cons.
  - by rewrite decide_True, without_notin.
  - rewrite decide_False; [by rewrite (IH Hnd Hin) at 1; apply perm_swap|].
    intros ->. destruct Hni. apply list_elem_of_fmap. by exists (k, v).
Qed.

Lemma without_sublist l k : without k l `sublist_of` l.
Proof. apply sublist_filter. Qed.
End lru_facts.

Section pool_facts.
  Context `{L : Lru} `{HL : !LruOk L}.

Lemma next_free_subkey_Ok {V} (cache : lru AttKey V) root :
  exists sk, next_free_subkey cache root = Ok sk /\ 1 <= sk /\ lru_peek (mkAttKey root sk) cache = None.
Proof using HL.
  unfold next_free_subkey. destruct (List.find _ _) as [sk|] eqn:Hf.
  - exists sk. apply List.find_some in Hf as [Hin Hb]. split; [done|].
    apply list_elem_of_In, elem_of_seqZ in Hin. split; [lia|].
    destruct (lru_peek _ cache); [|done]. by rewrite bool_decide_eq_true_2 in Hb.
  - exfalso. set (keys := mkAttKey root <$> seqZ 1 (zlen (lru_iter cache) + 1)).
    assert (Hsub : forall k, k ∈ keys -> k ∈ (lru_iter cache).*1).
    { intros k (sk & -> & Hin)%list_elem_of_fmap. apply list_elem_of_In in Hin.
      pose proof (List.find_none _ _ Hf _ Hin) as Hb. apply negb_false_iff in Hb. apply bool_decide_eq_true in Hb. rewrite lru_peek_iter in Hb.
      destruct (decide (mkAttKey root sk ∈ (lru_iter cache).*1)) as [|Hni]; [done|].
      apply assoc_None in Hni. rewrite Hni in Hb. by destruct Hb. }
    apply NoDup_submseteq, submseteq_length in Hsub.
    + unfold keys in Hsub. rewrite !length_fmap, length_seqZ in Hsub. unfold zlen in Hsub. lia.
    + unfold keys. apply NoDup_fmap_2; [by intros ?? [=]|]. apply NoDup_seqZ.
Qed.

(** *** Draining *)
Lemma pop_all_spec {K V} `{EqDecision K} (es : list (K * V)) (cache : lru K V) :
  NoDup es.*1 -> (forall e, e ∈ es -> e ∈ lru_iter cache) ->
  exists cache', pop_all es.*1 cache = (cache', es.*2) /\ lru_cap cache' = lru_cap cache /\
    lru_iter cache ≡ₚ es ++ lru_iter cache'.
Proof using HL.
  revert cache. induction es as [|[k v] es IH]; intros cache Hnd Hsub.
  { exists cache. by split_and!. }
  cbn [fmap list_fmap fst snd] in *. apply NoDup_cons in Hnd as [Hni Hnd].
  assert (Hkv : (k, v) ∈ lru_iter cache) by (apply Hsub; by left).
  destruct (IH (lru_pop k cache) Hnd) as (cache' & Hp & Hcap & Hperm).
  { intros [k' v'] Hin. rewrite lru_pop_iter. apply elem_of_without. split; [|apply Hsub; by right].
    cbn. intros ->. destruct Hni. apply list_elem_of_fmap. by exists (k, v'). }
  exists cache'. cbn [pop_all]. rewrite Hp, lru_peek_iter, (proj2 (assoc_Some _ _ _ (lru_nodup _)) Hkv).
  split_and!; [done|by rewrite Hcap, lru_pop_cap|].
  rewrite lru_pop_iter in Hperm. rewrite (without_perm _ _ _ (lru_nodup cache) Hkv), Hperm. done.
Qed.

Lemma sublist_fmap {A B} (f : A -> B) (l k : list A) : l `sublist_of` k -> f <$> l `sublist_of` f <$> k.
Proof using. induction 1; cbn; by constructor. Qed.

(** The entries a drain takes: the most recent ones that qualify, up to [max]. *)
Definition drained {K V} (max : Z) (keep : V -> bool) (l : list (K * V)) : list (K * V) :=
  take (Z.to_nat max) (base.filter (fun e => keep e.2 = true) l).

Lemma drained_sublist {K V} max keep (l : list (K * V)) : drained max keep l `sublist_of` l.
Proof using. unfold drained. etransitivity; [apply sublist_take|apply sublist_filter]. Qed.

Lemma drain_pool_spec {K V} `{EqDecision K} max keep (cache : lru K V) :
  exists cache', drain_pool max keep cache = (cache', (drained max keep (lru_iter cache)).*2) /\
    lru_cap cache' = lru_cap cache /\
    lru_iter cache ≡ₚ drained max keep (lru_iter cache) ++ lru_iter cache'.
Proof using HL.
  unfold drain_pool. rewrite <- fmap_take. apply pop_all_spec.
  - eapply sublist_NoDup; [apply (lru_nodup cache)|]. apply sublist_fmap, drained_sublist.
  - intros e He. eapply elem_of_sublist; [done|apply drained_sublist].
Qed.

Lemma drained_spec {K V} max keep (l : list (K * V)) :
  zlen (drained max keep l).*2 <= Z.max 0 max /\ Forall (fun v => keep v = true) (drained max keep l).*2.
Proof using.
  split.
  - unfold zlen, drained. rewrite length_fmap, length_take. lia.
  - apply Forall_fmap, Forall_take, Forall_forall. intros e He. by apply list_elem_of_filter in He as [? _].
Qed.
End pool_facts.

(** ** What a block gets from the pools *)
Section drain.
  Context `{L : Lru} `{HL : !LruOk L} `{HS : SpecOk}.

Lemma window_arith a b n :
  1 < n -> 0 <= a -> a <= b -> b <= a + n -> b < 2 ^ 63 ->
  exists p, (if b / n =? 0 then 0 else wsub (b / n) 1) = p /\ wmul p n = p * n /\ wmul (b / n) n = b / n * n /\
    p * n <= a /\ a <= b / n * n + (n - 1) /\ (a / n = b / n \/ a / n = p).
Proof using.
  intros Hn Ha Hlo Hhi Hb. assert (U64 = 2 * 2 ^ 63) as HU by done.
  pose proof (Z.div_mod b n ltac:(lia)) as Eb. pose proof (Z.mod_pos_bound b n ltac:(lia)) as Rb.
  assert (0 <= a / n <= b / n) as Hle by (split; [apply Z.div_pos|apply Z.div_le_mono]; lia).
  assert (b / n - 1 <= a / n) as Hge.
  { replace (b / n - 1) with ((b - n) / n); [apply Z.div_le_mono; lia|].
    replace (b - n) with (b + (-1) * n) by lia. rewrite Z.div_add; lia. }
  assert (0 <= b / n * n <= b) as Hbn by (split; [apply Z.mul_nonneg_nonneg|]; lia).
  assert (b / n <= b) as Hq by (apply Z.div_le_upper_bound; nia).
  destruct (Z.eqb_spec (b / n) 0) as [E|E]; eexists; (split; [reflexivity|]).
  - unfold wmul. rewrite !Z.mod_small by lia. lia.
  - assert (n <= b / n * n) by nia. unfold wsub. rewrite (Z.mod_small (b / n - 1)) by lia. unfold wmul. rewrite !Z.mod_small by lia. lia.
Qed.

(** A pooled attestation in the inclusion window passes the slot checks of
    [process_attestation]. *)
Lemma window_timing (s : BeaconState) att :
  0 <= ad_slot (att_data att) -> slot s < 2 ^ 63 ->
  cp_epoch (ad_target (att_data att)) = compute_epoch_at_slot (ad_slot (att_data att)) SLOTS_PER_EPOCH ->
  in_inclusion_window (slot s) att = true -> attestation_timing s (att_data att) = Ok tt.
Proof using HS.
  intros Ha Hb Ht Hw. unfold in_inclusion_window, sat_add in Hw. destruct slots_per_epoch_pos as [Hn1 Hn2].
  destruct inclusion_delay_pos as [Hd1 Hd2]. set (n := SLOTS_PER_EPOCH) in *. set (a := ad_slot (att_data att)) in *.
  set (d := MIN_ATTESTATION_INCLUSION_DELAY) in *. assert (U64 = 2 * 2 ^ 63) as HU by done.
  unfold u64_max in Hw. zbool. set (b := slot s) in *.
  destruct (window_arith a b n) as (p & Hprev & Hm1 & Hm2 & Hpa & Hmax & Hep); [lia..|].
  unfold attestation_timing, get_previous_epoch, get_current_epoch, compute_epoch_at_slot, GENESIS_EPOCH in *.
  fold n d a b. fold n a in Ht. rewrite Ht, Hprev, Hm1, Hm2. unfold wadd, sat_add, u64_max.
  rewrite !Z.mod_small by lia. rewrite Z.eqb_refl. cbn [negb].
  rewrite (proj2 (Z.ltb_ge a (p * n))), (proj2 (Z.ltb_ge (Z.min (b / n * n + (n - 1)) (U64 - 1)) a)),
    (proj2 (Z.ltb_ge b (a + d))), (proj2 (Z.ltb_ge (a + n) b)) by lia.
  destruct Hep as [->| ->]; rewrite Z.eqb_refl; cbn [negb andb]; [done|]. by rewrite andb_false_r.
Qed.

(** Draining fills a block within the limits, with attestations whose slot and
    target a block of that slot accepts, and loses nothing: what is drained and
    what stays pooled are together what was pooled. *)
Theorem drain_for_block_correct (max_bls : Z) p block_slot :
  0 <= max_bls -> block_slot < 2 ^ 63 ->
  (forall k att, (k, att) ∈ lru_iter (op_attestations p) -> 0 <= ad_slot (att_data att) /\
    cp_epoch (ad_target (att_data att)) = compute_epoch_at_slot (ad_slot (att_data att)) SLOTS_PER_EPOCH) ->
  let '(p', ops) := drain_for_block max_bls p block_slot in
  (zlen (bo_proposer_slashings ops) <= Z.max 0 MAX_PROPOSER_SLASHINGS /\
   zlen (bo_attester_slashings ops) <= Z.max 0 MAX_ATTESTER_SLASHINGS /\
   zlen (bo_attestations ops) <= Z.max 0 MAX_ATTESTATIONS /\
   zlen (bo_voluntary_exits ops) <= Z.max 0 MAX_VOLUNTARY_EXITS /\
   zlen (bo_bls_to_execution_changes ops) <= max_bls) /\
  (forall s att, att ∈ bo_attestations ops -> slot s = block_slot -> attestation_timing s (att_data att) = Ok tt) /\
  ((lru_iter (op_proposer_slashings p)).*2 ≡ₚ bo_proposer_slashings ops ++ (lru_iter (op_proposer_slashings p')).*2 /\
   (lru_iter (op_attester_slashings p)).*2 ≡ₚ bo_attester_slashings ops ++ (lru_iter (op_attester_slashings p')).*2 /\
   (lru_iter (op_attestations p)).*2 ≡ₚ bo_attestations ops ++ (lru_iter (op_attestations p')).*2 /\
   (lru_iter (op_voluntary_exits p)).*2 ≡ₚ bo_voluntary_exits ops ++ (lru_iter (op_voluntary_exits p')).*2 /\
   (lru_iter (op_bls_to_execution_changes p)).*2 ≡ₚ
     bo_bls_to_execution_changes ops ++ (lru_iter (op_bls_to_execution_changes p')).*2 /\
   op_sync_messages p' = op_sync_messages p).
Proof using HL HS.
  intros Hbls Hslot Hatts. unfold drain_for_block.
  destruct (drain_pool_spec MAX_PROPOSER_SLASHINGS (fun _ => true) (op_proposer_slashings p)) as (c1 & -> & _ & P1).
  destruct (drain_pool_spec MAX_ATTESTER_SLASHINGS (fun _ => true) (op_attester_slashings p)) as (c2 & -> & _ & P2).
  destruct (drain_pool_spec MAX_ATTESTATIONS (in_inclusion_window block_slot) (op_attestations p)) as (c3 & -> & _ & P3).
  destruct (drain_pool_spec MAX_VOLUNTARY_EXITS (fun _ => true) (op_voluntary_exits p)) as (c4 & -> & _ & P4).
  destruct (drain_pool_spec max_bls (fun _ => true) (op_bls_to_execution_changes p)) as (c5 & -> & _ & P5).
  cbn [bo_proposer_slashings bo_attester_slashings bo_attestations bo_voluntary_exits bo_bls_to_execution_changes
    op_attestations op_attester_slashings op_proposer_slashings op_voluntary_exits op_bls_to_execution_changes op_sync_messages].
  split_and!; try done; try (rewrite <- fmap_app; by apply fmap_Permutation); try apply drained_spec.
  - etransitivity; [apply drained_spec|]. lia.
  - intros s att ((k & att') & -> & Hin)%list_elem_of_fmap Hs. cbn [snd].
    assert (He : (k, att') ∈ lru_iter (op_attestations p)) by (eapply elem_of_sublist; [done|apply drained_sublist]).
    destruct (Hatts _ _ He) as [Ha Ht]. apply window_timing; [done|lia|done|]. rewrite Hs.
    pose proof (proj2 (drained_spec MAX_ATTESTATIONS (in_inclusion_window block_slot) (lru_iter (op_attestations p)))) as Hf.
    rewrite Forall_fmap, Forall_forall in Hf. exact (Hf _ Hin).
Qed.
End drain.

(** ** Inserting attestations *)
Section insert.
  Context `{L : Lru} `{HL : !LruOk L} `{Crypto}.
  Variable aggregate : list bytes -> option bytes.
  (** That a signature covers the participants of an attestation, and that
      aggregation combines disjoint ones. *)
  Variable signed : AttestationData -> list bool -> bytes -> Prop.
  Hypothesis aggregate_signed : forall d b1 s1 b2 s2 s,
    length b1 = length b2 -> bits_disjoint b1 b2 = true -> signed d b1 s1 -> signed d b2 s2 ->
    aggregate [s1; s2] = Some s -> signed d (zip_with orb b1 b2) s.
  Variable N : Z.

(** A well-formed attestation signed by its participants. *)
Definition att_ok (att : Attestation) : Prop :=
  wf_bitlist N (att_aggregation_bits att) /\ signed (att_data att) (bl_bits (att_aggregation_bits att)) (att_signature att).

Definition att_pool_ok (cache : lru AttKey Attestation) : Prop :=
  forall k att, (k, att) ∈ lru_iter cache -> att_ok att /\ attestation_data_root (att_data att) = Ok (ak_data_root k).

Lemma bl_set_bits bl i v :
  wf_bitlist N bl -> 0 <= i < bit_len bl ->
  exists bl', bl_set bl i v = Ok bl' /\ wf_bitlist N bl' /\ bit_len bl' = bit_len bl /\
    bl_bits bl' = <[Z.to_nat i := v]> (bl_bits bl).
Proof using.
  intros [Hst HN] Hi. unfold bl_set. rewrite (proj2 (Z.leb_gt _ _)) by lia.
  destruct (data_set_refines (bit_len bl) (bl_data bl) i v Hst Hi) as (d & -> & ? & ?). cbn. eexists. by split_and!.
Qed.

Lemma bl_iter_bits bl : wf_bitlist N bl -> bl_iter bl = Ok (bl_bits bl).
Proof using. intros [(? & ? & _) _]. by apply mapM_data_bit. Qed.

Lemma merge_bits_from bl bits k :
  wf_bitlist N bl -> Z.of_nat k + zlen bits = bit_len bl ->
  exists bl', foldM (fun merged '(i, bit) => if (bit : bool) then bl_set merged (Z.of_nat i) true else Ok merged)
                (imap (fun i b => ((k + i)%nat, b)) bits) bl = Ok bl' /\
    wf_bitlist N bl' /\ bit_len bl' = bit_len bl /\
    forall i, bl_bits bl' !! i = (fun b => b || default false (bits !! (i - k)%nat) && bool_decide (k <= i)%nat) <$> bl_bits bl !! i.
Proof using.
  revert bl k. induction bits as [|bit bits IH]; intros bl k Hwf Hlen.
  { exists bl. split_and!; [done..|]. intros i. cbn. destruct (bl_bits bl !! i); cbn; [by rewrite orb_false_r|done]. }
  rewrite zlen_cons in Hlen. pose proof (zlen_nonneg bits). rewrite imap_cons, Nat.add_0_r. cbn [foldM].
  assert (exists bl1, (if bit then bl_set bl (Z.of_nat k) true else Ok bl) = Ok bl1 /\ wf_bitlist N bl1 /\
    bit_len bl1 = bit_len bl /\ forall i, bl_bits bl1 !! i = (fun b => b || bit && bool_decide (i = k)) <$> bl_bits bl !! i)
    as (bl1 & -> & Hwf1 & Hl1 & Hb1).
  { destruct bit; cycle 1.
    { exists bl. split_and!; [done|done|done|]. intros i. by destruct (bl_bits bl !! i) as [[]|]. }
    destruct (bl_set_bits bl (Z.of_nat k) true Hwf) as (bl1 & Hs & Hwf1 & Hl1 & Hb1); [lia|]. exists bl1.
    split_and!; [done..|]. intros i. rewrite Hb1, Nat2Z.id. case_bool_decide as Hik.
    - subst. destruct (lookup_lt_is_Some_2 (bl_bits bl) k) as [x Hx].
      { pose proof (zlen_bits (bit_len bl) (bl_data bl)) as Hz. fold (bl_bits bl) in Hz. unfold zlen in *. lia. }
      rewrite list_lookup_insert_eq, Hx by (by eapply lookup_lt_Some). cbn. by rewrite orb_true_r.
    - rewrite list_lookup_insert_ne by done. by destruct (bl_bits bl !! i) as [[]|]. }
  cbn [mbind result_bind]. destruct (IH bl1 (S k)) as (bl2 & Hf & Hwf2 & Hl2 & Hb2); [done|lia|].
  exists bl2. split_and!; [|done|lia|].
  - rewrite <- Hf. f_equal. apply imap_ext. intros i x _. cbn. do 2 f_equal. lia.
  - intros i. rewrite Hb2, Hb1. destruct (bl_bits bl !! i) as [x|]; cbn; [|done]. f_equal. rewrite <- orb_assoc. f_equal.
    destruct (decide (i = k)) as [->|Hne].
    + rewrite Nat.sub_diag. cbn. rewrite (bool_decide_eq_false_2 (S k <= k)%nat) by lia.
      by rewrite !bool_decide_eq_true_2, andb_false_r, orb_false_r by lia.
    + rewrite (bool_decide_eq_false_2 (i = k)) by done. rewrite andb_false_r. cbn.
      repeat case_bool_decide; try lia.
      rewrite !andb_true_r. replace (i - k)%nat with (S (i - S k)) by lia. done.
Qed.

Lemma merge_bits_spec bl bits :
  wf_bitlist N bl -> zlen bits = bit_len bl ->
  exists bl', merge_bits bl bits = Ok bl' /\ wf_bitlist N bl' /\ bit_len bl' = bit_len bl /\
    bl_bits bl' = zip_with orb (bl_bits bl) bits.
Proof using.
  intros Hwf Hl. destruct (merge_bits_from bl bits 0 Hwf) as (bl' & Hf & Hwf' & Hl' & Hb); [lia|].
  exists bl'. split_and!; [exact Hf|done..|]. apply list_eq. intros i. rewrite Hb, lookup_zip_with, Nat.sub_0_r.
  destruct (bl_bits bl !! i) as [x|] eqn:Hx; cbn; [|done]. rewrite andb_true_r.
  destruct (lookup_lt_is_Some_2 bits i) as [y Hy]; [|by rewrite Hy].
  pose proof (zlen_bits (bit_len bl) (bl_data bl)) as Hz. fold (bl_bits bl) in Hz. pose proof (zlen_nonneg bits).
  apply lookup_lt_Some in Hx. unfold zlen in *. lia.
Qed.

Lemma lru_put_elem {K V} `{EqDecision K} (k : K) (v : V) (cache : lru K V) :
  0 < lru_cap cache -> (k, v) ∈ lru_iter (lru_put k v cache).
Proof using HL.
  intros Hc. rewrite lru_put_iter. destruct (Z.to_nat (lru_cap cache)) eqn:E; [lia|]. by left.
Qed.

Lemma lru_put_sub {K V} `{EqDecision K} (k : K) (v : V) (cache : lru K V) e :
  e ∈ lru_iter (lru_put k v cache) -> e = (k, v) \/ e ∈ lru_iter cache.
Proof using HL.
  rewrite lru_put_iter. intros He. eapply elem_of_sublist in He; [|apply sublist_take].
  apply elem_of_cons in He as [->|[_ He]%elem_of_without]; [by left|by right].
Qed.

Lemma put_pool_ok cache k att :
  att_pool_ok cache -> att_ok att -> attestation_data_root (att_data att) = Ok (ak_data_root k) ->
  att_pool_ok (lru_put k att cache).
Proof using HL. intros Hp Ha Hr k' e [[= -> ->]|?]%lru_put_sub; [done|by apply Hp]. Qed.

Lemma implied_refl (l : list bool) : Forall2 (fun a b : bool => a = true -> b = true) l l.
Proof using. by apply Forall_Forall2_diag, Forall_forall. Qed.

Lemma implied_orb (l k : list bool) : length l = length k ->
  Forall2 (fun a b : bool => a = true -> b = true) k (zip_with orb l k).
Proof using.
  revert k. induction l as [|a l IH]; intros [|b k] Hlen; cbn in *; try done. constructor; [intros ->; by destruct a|].
  apply IH. lia.
Qed.

(** An inserted attestation is pooled: alone, or merged into an aggregate of the
    same data that contains its participants and is signed by all of its own.
    The pool stays one of signed attestations under the root of their data. *)
Theorem insert_attestation_correct cache att r :
  0 < lru_cap cache -> att_pool_ok cache -> att_ok att -> attestation_data_root (att_data att) = Ok r ->
  (forall k e, (k, e) ∈ lru_iter cache -> ak_data_root k = r ->
    att_data e = att_data att /\ bit_len (att_aggregation_bits e) = bit_len (att_aggregation_bits att)) ->
  exists cache', insert_attestation aggregate cache att = Ok cache' /\ att_pool_ok cache' /\
    exists k e, (k, e) ∈ lru_iter cache' /\ att_data e = att_data att /\
      Forall2 (fun a b : bool => a = true -> b = true) (bl_bits (att_aggregation_bits att)) (bl_bits (att_aggregation_bits e)).
Proof using HL aggregate_signed.
  intros Hcap Hpool Hatt Hr Hsame. unfold insert_attestation. rewrite Hr. cbn [mbind result_bind].
  assert (Hsub : exists cache', put_subkey cache r att = Ok cache' /\ att_pool_ok cache' /\
    exists k e, (k, e) ∈ lru_iter cache' /\ att_data e = att_data att /\
      Forall2 (fun a b : bool => a = true -> b = true) (bl_bits (att_aggregation_bits att)) (bl_bits (att_aggregation_bits e))).
  { destruct (next_free_subkey_Ok cache r) as (sk & Hsk & _ & _). unfold put_subkey. rewrite Hsk. eexists. split; [done|].
    split; [by apply put_pool_ok|]. exists (mkAttKey r sk), att. split_and!; [by apply lru_put_elem|done|apply implied_refl]. }
  destruct (lru_peek (mkAttKey r 0) cache) as [ex|] eqn:Hpeek.
  2: { eexists. split; [done|]. split; [by apply put_pool_ok|].
       exists (mkAttKey r 0), att. split_and!; [by apply lru_put_elem|done|apply implied_refl]. }
  rewrite lru_peek_iter in Hpeek. apply assoc_Some in Hpeek; [|apply lru_nodup].
  destruct (Hpool _ _ Hpeek) as [[Hwf Hsig] Hroot]. destruct (Hsame _ _ Hpeek eq_refl) as [Hd Hl]. destruct Hatt as [Hwfa Hsiga].
  rewrite (bl_iter_bits _ Hwf), (bl_iter_bits _ Hwfa). cbn [mbind result_bind].
  destruct (bits_disjoint _ _) eqn:Hdis; [|exact Hsub].
  pose proof (zlen_bits _ (bl_data (att_aggregation_bits ex)) (proj1 (proj1 Hwf))) as Hz1.
  pose proof (zlen_bits _ (bl_data (att_aggregation_bits att)) (proj1 (proj1 Hwfa))) as Hz2.
  fold (bl_bits (att_aggregation_bits ex)) in Hz1. fold (bl_bits (att_aggregation_bits att)) in Hz2.
  destruct (merge_bits_spec (att_aggregation_bits ex) (bl_bits (att_aggregation_bits att)) Hwf) as (m & -> & Hwfm & _ & Hm); [lia|].
  cbn [mbind result_bind]. destruct (aggregate _) as [agg|] eqn:Hagg; [|exact Hsub].
  assert (length (bl_bits (att_aggregation_bits ex)) = length (bl_bits (att_aggregation_bits att))) as Hlen.
  { unfold zlen in *. lia. }
  eexists. split; [done|]. split.
  - apply put_pool_ok; [done| |done]. split; cbn [att_aggregation_bits att_data att_signature]; [done|].
    rewrite Hm. eapply aggregate_signed; [done|done|exact Hsig| |exact Hagg]. by rewrite Hd.
  - exists (mkAttKey r 0), (mkAttestation m (att_data ex) agg). split_and!; [by apply lru_put_elem|done|].
    cbn [att_aggregation_bits]. rewrite Hm. by apply implied_orb.
Qed.
End insert.
