(* ===== verification/Slasher.v ===== *)
(** * The slasher of the beacon node

    crates/pharos-node/src/slasher: the in-memory detector of double and
    surround votes (mod.rs) and the detector of double proposals (proposer.rs).
    Both turn what they find into slashings of the operation pools.  The index of
    headers is a RocksDB column family, modelled as a finite map on its keys
    [(slot, proposer, root)] read in key order within a prefix. *)

From Stdlib Require Import ZArith Lia.
From stdpp Require Import list gmap sorting.
From S2P Require Import Prelude SszCodec SszBitfield SszTypes Merkle Spec BeaconState Roots Accessors Operations Pools.

(** ** mod.rs *)
Definition HISTORY_EPOCHS : Z := 54.

Record AttestRecord : Type := mkAttestRecord {
  ar_source_epoch : Z;
  ar_target_epoch : Z;
  ar_data_root : bytes;
  ar_indexed : IndexedAttestation;
}.

Inductive SlashKind : Type := NoSlashing | DoubleVote | SurroundVoteFound.

Definition is_slashable_pair (existing : AttestRecord) (new_source new_target : Z) (new_root : bytes) : SlashKind :=
  if (ar_target_epoch existing =? new_target) && negb (bool_decide (ar_data_root existing = new_root)) then DoubleVote
  else if (ar_source_epoch existing <? new_source) && (new_target <? ar_target_epoch existing) then SurroundVoteFound
  else if (new_source <? ar_source_epoch existing) && (ar_target_epoch existing <? new_target) then SurroundVoteFound
  else NoSlashing.

Definition slashable_kind (k : SlashKind) : bool := match k with NoSlashing => false | _ => true end.

(** [SszList::<_, 2048>::from_items(..).expect(..)]. *)
Definition repack_indexed (src : IndexedAttestation) : result SszError IndexedAttestation :=
  if zlen (ia_attesting_indices src) <=? 2048 then Ok src else Panic.

(** The body of the loop over the attesting indices, on the validator's history. *)
Definition observe_history (history : list AttestRecord) (new_indexed : IndexedAttestation) (new_root : bytes)
    (current_epoch : Z) : list AttestRecord * option IndexedAttestation :=
  let new_source := cp_epoch (ad_source (ia_data new_indexed)) in
  let new_target := cp_epoch (ad_target (ia_data new_indexed)) in
  let cutoff := sat_sub current_epoch HISTORY_EPOCHS in
  let history := base.filter (fun r => cutoff <= ar_target_epoch r) history in
  let detection := List.find (fun r => slashable_kind (is_slashable_pair r new_source new_target new_root)) history in
  let already_stored :=
    existsb (fun r => (ar_target_epoch r =? new_target) && bool_decide (ar_data_root r = new_root)) history in
  (if already_stored then history
   else history ++ [mkAttestRecord new_source new_target new_root new_indexed],
   ar_indexed <$> detection).

(** Lexicographic order of keys. *)
Fixpoint bytes_leb (a b : bytes) : bool :=
  match a, b with
  | [], _ => true
  | _, [] => false
  | x :: a, y :: b =>
      (byte.unsigned x <? byte.unsigned y) || ((byte.unsigned x =? byte.unsigned y) && bytes_leb a b)
  end.
Definition row_key_le {A} (a b : bytes * A) : Prop := bytes_leb a.1 b.1 = true.
#[global] Instance row_key_le_dec {A} (a b : bytes * A) : Decision (row_key_le a b).
Proof. unfold row_key_le. apply _. Defined.

Section slasher.
  Context `{L : Lru} `{C : Crypto}.

Record AttestationSlasher : Type := mkAttestationSlasher {
  sl_records : gmap Z (list AttestRecord);
  sl_op_pools : OperationPools;
}.

Fixpoint observe_indices (indices : list Z) (new_indexed : IndexedAttestation) (new_root : bytes) (current_epoch : Z)
    (records : gmap Z (list AttestRecord)) : gmap Z (list AttestRecord) * list IndexedAttestation :=
  match indices with
  | [] => (records, [])
  | validator :: indices =>
      let '(history, found) := observe_history (default [] (records !! validator)) new_indexed new_root current_epoch in
      let '(records, more) := observe_indices indices new_indexed new_root current_epoch (<[validator := history]> records) in
      (records, option_list found ++ more)
  end.

Definition observe (sl : AttestationSlasher) (indexed : IndexedAttestation) (current_epoch : Z)
    : result SszError AttestationSlasher :=
  new_root ← attestation_data_root (ia_data indexed);
  new_indexed ← repack_indexed indexed;
  let '(records, detections) :=
    observe_indices (ia_attesting_indices indexed) new_indexed new_root current_epoch (sl_records sl) in
  Ok (mkAttestationSlasher records
        (foldl (fun p prior => insert_attester_slashing (mkAttesterSlashing prior new_indexed) p)
           (sl_op_pools sl) detections)).

(** ** proposer.rs, on a store that does not fail *)
Record ProposerSlasher : Type := mkProposerSlasher {
  pr_headers : gmap (Z * Z * bytes) SignedBeaconBlockHeader;
  pr_op_pools : OperationPools;
}.

(** [slasher_proposer_headers_at]: the rows of the prefix, in key order. *)
Definition headers_at (headers : gmap (Z * Z * bytes) SignedBeaconBlockHeader) (slot proposer_index : Z)
    : list SignedBeaconBlockHeader :=
  snd <$> merge_sort row_key_le
    (omap (fun '((sl, p, root), h) => if decide (sl = slot /\ p = proposer_index) then Some (root, h) else None)
       (map_to_list headers)).

Fixpoint find_other_header (root : bytes) (existing : list SignedBeaconBlockHeader)
    : result SszError (option SignedBeaconBlockHeader) :=
  match existing with
  | [] => Ok None
  | prior :: existing =>
      prior_root ← header_root (sbh_message prior);
      if bool_decide (prior_root = root) then find_other_header root existing else Ok (Some prior)
  end.

Definition observe_header (sl : ProposerSlasher) (header : SignedBeaconBlockHeader) : result SszError ProposerSlasher :=
  let slot := bh_slot (sbh_message header) in
  let proposer := bh_proposer_index (sbh_message header) in
  root ← header_root (sbh_message header);
  detected ← find_other_header root (headers_at (pr_headers sl) slot proposer);
  Ok (mkProposerSlasher (<[(slot, proposer, root) := header]> (pr_headers sl))
        (match detected with
         | Some prior => insert_proposer_slashing (mkProposerSlashing prior header) (pr_op_pools sl)
         | None => pr_op_pools sl
         end)).
End slasher.

(** ** What is detected *)
Section slasher_facts.
  Context `{L : Lru} `{C : Crypto}.

(** A record describes the attestation it keeps. *)
Definition genuine (r : AttestRecord) : Prop :=
  ar_source_epoch r = cp_epoch (ad_source (ia_data (ar_indexed r))) /\
  ar_target_epoch r = cp_epoch (ad_target (ia_data (ar_indexed r))) /\
  attestation_data_root (ia_data (ar_indexed r)) = Ok (ar_data_root r).

(** [new] surrounds [old]. *)
Definition surrounds_data (new old : AttestationData) : bool :=
  (cp_epoch (ad_source new) <? cp_epoch (ad_source old)) && (cp_epoch (ad_target old) <? cp_epoch (ad_target new)).

(** The pair check is the slashing condition of the state transition, in either
    order of the votes. *)
Lemma is_slashable_pair_spec r d root :
  genuine r -> attestation_data_root d = Ok root ->
  (attestation_data_root (ia_data (ar_indexed r)) = Ok root -> ia_data (ar_indexed r) = d) ->
  slashable_kind (is_slashable_pair r (cp_epoch (ad_source d)) (cp_epoch (ad_target d)) root) =
  is_slashable_attestation_data (ia_data (ar_indexed r)) d || is_slashable_attestation_data d (ia_data (ar_indexed r)).
Proof using.
  intros (Hs & Ht & Hr) Hd Hinj. unfold is_slashable_pair, is_slashable_attestation_data. rewrite Hs, Ht.
  set (d0 := ia_data (ar_indexed r)) in *.
  assert (Hroot : bool_decide (ar_data_root r = root) = bool_decide (d0 = d)).
  { apply bool_decide_ext. split; [intros <-; by apply Hinj|]. intros Heq. rewrite Heq in Hr. congruence. }
  rewrite Hroot, (Z.eqb_sym (cp_epoch (ad_target d)) (cp_epoch (ad_target d0))).
  assert (bool_decide (d0 <> d) = negb (bool_decide (d0 = d)) /\ bool_decide (d <> d0) = negb (bool_decide (d0 = d))) as [-> ->].
  { split; repeat case_bool_decide; naive_solver. }
  destruct (cp_epoch (ad_target d0) =? cp_epoch (ad_target d)), (bool_decide (d0 = d)); cbn;
    repeat case_match; cbn in *; try done; by repeat (rewrite ?andb_false_r, ?orb_false_r, ?orb_true_r in *; cbn in * ).
Qed.

Definition all_genuine (records : gmap Z (list AttestRecord)) : Prop :=
  forall v history r, records !! v = Some history -> r ∈ history -> genuine r.

(** Stored data with the root of [d] is [d]. *)
Definition distinguishes (records : gmap Z (list AttestRecord)) (d : AttestationData) : Prop :=
  forall v history r, records !! v = Some history -> r ∈ history ->
    attestation_data_root (ia_data (ar_indexed r)) = attestation_data_root d -> ia_data (ar_indexed r) = d.

Definition slashable_pair (d1 d2 : AttestationData) : bool :=
  is_slashable_attestation_data d1 d2 || is_slashable_attestation_data d2 d1.

Lemma all_genuine_insert records v history :
  all_genuine records -> Forall genuine history -> all_genuine (<[v := history]> records).
Proof using.
  intros Hg Hh v' h r [[<- <-]|[_ Hl]]%lookup_insert_Some Hr; [|by eapply Hg]. by eapply Forall_forall in Hh.
Qed.

Lemma distinguishes_insert records v history d :
  distinguishes records d ->
  Forall (fun r => attestation_data_root (ia_data (ar_indexed r)) = attestation_data_root d -> ia_data (ar_indexed r) = d) history ->
  distinguishes (<[v := history]> records) d.
Proof using.
  intros Hg Hh v' h r [[<- <-]|[_ Hl]]%lookup_insert_Some Hr; [|by eapply Hg]. by eapply Forall_forall in Hh.
Qed.

Section observe.
  Variables (new_indexed : IndexedAttestation) (new_root : bytes) (current_epoch : Z).
  Hypothesis new_root_ok : attestation_data_root (ia_data new_indexed) = Ok new_root.
  Abbreviation d := (ia_data new_indexed).

Definition history_ok (history : list AttestRecord) : Prop :=
  Forall genuine history /\
  Forall (fun r => attestation_data_root (ia_data (ar_indexed r)) = attestation_data_root d -> ia_data (ar_indexed r) = d) history.

Lemma observe_history_spec history history' found :
  history_ok history -> observe_history history new_indexed new_root current_epoch = (history', found) ->
  history_ok history' /\
  (forall p, found = Some p -> slashable_pair (ia_data p) d = true) /\
  (forall r, r ∈ history -> sat_sub current_epoch HISTORY_EPOCHS <= ar_target_epoch r ->
    slashable_pair (ia_data (ar_indexed r)) d = true -> is_Some found).
Proof using new_root_ok.
  intros [Hg Hi] [= <- <-]. set (kept := base.filter _ history).
  assert (Hk : history_ok kept).
  { rewrite Forall_forall in Hg, Hi. split; apply Forall_forall; intros r [_ Hr]%list_elem_of_filter; auto. }
  assert (Hpair : forall r, r ∈ kept ->
    slashable_kind (is_slashable_pair r (cp_epoch (ad_source d)) (cp_epoch (ad_target d)) new_root) =
    slashable_pair (ia_data (ar_indexed r)) d).
  { intros r Hr. destruct Hk as [Hkg Hki]. rewrite Forall_forall in Hkg, Hki. apply is_slashable_pair_spec; [by apply Hkg|done|].
    intros Heq. apply Hki; [done|]. congruence. }
  split_and!.
  - case_match; [done|]. destruct Hk. split; apply Forall_app; (split; [done|]); apply Forall_singleton; [by split|done].
  - intros p Hp. apply fmap_Some in Hp as (r & Hf & ->). apply List.find_some in Hf as [Hin Hs].
    apply list_elem_of_In in Hin. by rewrite Hpair in Hs.
  - intros r Hr Ht Hs. assert (Hin : r ∈ kept) by (by apply list_elem_of_filter).
    destruct (List.find _ kept) as [x|] eqn:Hf; [by eexists|]. apply list_elem_of_In in Hin as Hin'.
    pose proof (List.find_none _ _ Hf _ Hin') as Hn. cbn in Hn. rewrite Hpair in Hn by done. congruence.
Qed.

Lemma observe_indices_spec indices records records' emitted :
  all_genuine records -> distinguishes records d ->
  observe_indices indices new_indexed new_root current_epoch records = (records', emitted) ->
  all_genuine records' /\
  (forall p, p ∈ emitted -> slashable_pair (ia_data p) d = true) /\
  (forall v history r, v ∈ indices -> records !! v = Some history -> r ∈ history ->
    sat_sub current_epoch HISTORY_EPOCHS <= ar_target_epoch r ->
    slashable_pair (ia_data (ar_indexed r)) d = true -> emitted <> []).
Proof using new_root_ok.
  revert records emitted. induction indices as [|v indices IH]; intros records emitted Hg Hi Ho.
  { injection Ho as <- <-. split_and!; [done|by intros ? ?%elem_of_nil|by intros ? ? ? ?%elem_of_nil]. }
  cbn [observe_indices] in Ho. destruct (observe_history _ _ _ _) as [history' found] eqn:Hh.
  destruct (observe_indices _ _ _ _ _) as [records1 more] eqn:Hm. injection Ho as <- <-.
  assert (Hok : history_ok (default [] (records !! v))).
  { destruct (records !! v) as [h|] eqn:Hv; cbn; [|done]. split; apply Forall_forall; intros r Hr; [by eapply Hg|].
    intros Heq. by eapply Hi. }
  destruct (observe_history_spec _ _ _ Hok Hh) as ([Hg' Hi'] & Hsound & Hcomp).
  destruct (IH _ _ (all_genuine_insert _ _ _ Hg Hg') (distinguishes_insert _ _ _ _ Hi Hi') Hm) as (Hg1 & Hs1 & Hc1).
  split_and!; [done| |].
  - intros p [Hp|Hp]%elem_of_app; [|by apply Hs1]. destruct found as [q|]; apply list_elem_of_singleton in Hp || apply elem_of_nil in Hp; [subst; by apply Hsound|done].
  - intros v' history r [->|Hv']%elem_of_cons Hl Hr Ht Hs.
    + rewrite Hl in Hcomp. destruct (Hcomp r Hr Ht Hs) as [p ->]. done.
    + destruct (decide (v = v')) as [->|Hne].
      { rewrite Hl in Hcomp. destruct (Hcomp r Hr Ht Hs) as [p ->]. done. }
      intros [_ Hmore]%app_eq_nil. eapply Hc1; [exact Hv'|by rewrite lookup_insert_ne|done..].
Qed.
End observe.

(** C28: feeding an attestation to the slasher keeps its records genuine, surfaces
    only pairs of votes that are slashable in one order or the other, and
    surfaces one whenever some recorded vote of an attesting validator within
    the history window is slashable with it. *)
Theorem observe_correct (sl : AttestationSlasher) indexed root current_epoch :
  all_genuine (sl_records sl) -> distinguishes (sl_records sl) (ia_data indexed) ->
  attestation_data_root (ia_data indexed) = Ok root -> zlen (ia_attesting_indices indexed) <= 2048 ->
  exists sl' emitted, observe sl indexed current_epoch = Ok sl' /\ all_genuine (sl_records sl') /\
    sl_op_pools sl' = foldl (fun p prior => insert_attester_slashing (mkAttesterSlashing prior indexed) p)
                        (sl_op_pools sl) emitted /\
    (forall p, p ∈ emitted -> slashable_pair (ia_data p) (ia_data indexed) = true) /\
    (forall v history r, v ∈ ia_attesting_indices indexed -> sl_records sl !! v = Some history -> r ∈ history ->
      sat_sub current_epoch HISTORY_EPOCHS <= ar_target_epoch r ->
      slashable_pair (ia_data (ar_indexed r)) (ia_data indexed) = true -> emitted <> []).
Proof using.
  intros Hg Hi Hr Hlen. unfold observe. rewrite Hr. cbn [mbind result_bind]. unfold repack_indexed.
  rewrite (proj2 (Z.leb_le _ _) Hlen). cbn [mbind result_bind].
  destruct (observe_indices _ _ _ _ _) as [records emitted] eqn:Ho.
  destruct (observe_indices_spec _ _ _ Hr _ _ _ _ Hg Hi Ho) as (Hg' & Hs & Hc).
  eexists _, emitted. split; [reflexivity|]. by split_and!.
Qed.

(** The state transition accepts the order the slasher writes only if the
    recorded vote surrounds the new one or both have the same target: a slashing
    found because the new vote surrounds a recorded one is rejected. *)
Theorem surrounding_vote_slashing_rejected `{BeaconSpec} s prior indexed verify :
  surrounds_data (ia_data indexed) (ia_data prior) = true ->
  process_attester_slashing s (mkAttesterSlashing prior indexed) verify =
  Err (InvalidAttesterSlashing AttestationsNotSlashable).
Proof using.
  unfold surrounds_data, process_attester_slashing, is_slashable_attestation_data. cbn [as_attestation_1 as_attestation_2].
  intros Hs. zbool. rewrite (proj2 (Z.eqb_neq _ _)) by lia. rewrite andb_false_r.
  rewrite (proj2 (Z.ltb_ge (cp_epoch (ad_source (ia_data prior))) _)) by lia. done.
Qed.
End slasher_facts.

(** ** Double proposals *)
Section proposer_facts.
  Context `{L : Lru} `{C : Crypto}.

Definition header_rows_ok (headers : gmap (Z * Z * bytes) SignedBeaconBlockHeader) : Prop :=
  forall sl p root h, headers !! (sl, p, root) = Some h ->
    bh_slot (sbh_message h) = sl /\ bh_proposer_index (sbh_message h) = p /\ header_root (sbh_message h) = Ok root.

Lemma elem_of_headers_at headers sl p h :
  h ∈ headers_at headers sl p <-> exists root, headers !! (sl, p, root) = Some h.
Proof using.
  unfold headers_at. rewrite list_elem_of_fmap. split.
  - intros ([root h'] & -> & Hin). rewrite merge_sort_Permutation in Hin.
    apply list_elem_of_omap in Hin as ([[[sl' p'] root'] h''] & Hin & Heq). case_decide as Hd; [|done].
    destruct Hd as [-> ->]. injection Heq as -> ->. exists root. by apply elem_of_map_to_list in Hin.
  - intros [root Hl]. exists (root, h). split; [done|]. rewrite merge_sort_Permutation. apply list_elem_of_omap.
    exists ((sl, p, root), h). split; [by apply elem_of_map_to_list|]. by rewrite decide_True.
Qed.

Lemma find_other_header_spec root existing :
  Forall (fun h => exists r, header_root (sbh_message h) = Ok r) existing ->
  exists found, find_other_header root existing = Ok found /\
    (forall h, found = Some h -> h ∈ existing /\ header_root (sbh_message h) <> Ok root) /\
    (found = None -> Forall (fun h => header_root (sbh_message h) = Ok root) existing).
Proof using.
  induction existing as [|h existing IH]; intros Hok; [by exists None; split_and!|].
  apply Forall_cons in Hok as [[r Hr] Hok]. cbn [find_other_header]. rewrite Hr. cbn [mbind result_bind].
  case_bool_decide as Heq.
  - subst r. destruct (IH Hok) as (found & -> & Hs & Hn). exists found. split_and!; [done| |].
    + intros h' Hf. destruct (Hs h' Hf). split; [by right|done].
    + intros Hf. constructor; [done|by apply Hn].
  - exists (Some h). split_and!; [done| |done]. intros h' [= <-]. split; [by left|]. rewrite Hr. congruence.
Qed.

(** Observing a header records it; if a different header of the same slot and
    proposer is on record the pool receives a slashing of the two that passes
    the checks of [process_proposer_slashing] on the headers, and otherwise the
    pools are untouched. *)
Theorem observe_header_correct sl header root :
  header_rows_ok (pr_headers sl) -> header_root (sbh_message header) = Ok root ->
  exists sl', observe_header sl header = Ok sl' /\ header_rows_ok (pr_headers sl') /\
    ((exists prior, pr_op_pools sl' = insert_proposer_slashing (mkProposerSlashing prior header) (pr_op_pools sl) /\
       bh_slot (sbh_message prior) = bh_slot (sbh_message header) /\
       bh_proposer_index (sbh_message prior) = bh_proposer_index (sbh_message header) /\
       sbh_message prior <> sbh_message header) \/
     (pr_op_pools sl' = pr_op_pools sl /\
      forall r h, pr_headers sl !! (bh_slot (sbh_message header), bh_proposer_index (sbh_message header), r) = Some h ->
        r = root)).
Proof using.
  intros Hrows Hroot. unfold observe_header. rewrite Hroot. cbn [mbind result_bind].
  set (slot := bh_slot (sbh_message header)). set (p := bh_proposer_index (sbh_message header)).
  destruct (find_other_header_spec root (headers_at (pr_headers sl) slot p)) as (found & -> & Hs & Hn).
  { apply Forall_forall. intros h [r Hl]%elem_of_headers_at. apply Hrows in Hl as (_ & _ & ?). eauto. }
  cbn [mbind result_bind]. eexists. split; [reflexivity|]. cbn [pr_headers pr_op_pools]. split.
  { intros sl' p' r h [[[= <- <- <-] <-]|[_ Hl]]%lookup_insert_Some; [done|by apply Hrows]. }
  destruct found as [prior|].
  - left. exists prior. destruct (Hs prior eq_refl) as [Hin Hne]. apply elem_of_headers_at in Hin as [r Hl].
    apply Hrows in Hl as (? & ? & ?). split_and!; try done. intros Heq. rewrite Heq in Hne. done.
  - right. split; [done|]. intros r h Hl. assert (Hin : h ∈ headers_at (pr_headers sl) slot p) by (apply elem_of_headers_at; eauto).
    specialize (Hn eq_refl). rewrite Forall_forall in Hn. apply Hn in Hin. apply Hrows in Hl as (_ & _ & Hr). congruence.
Qed.
End proposer_facts.
