(* ===== verification/WeakSubjectivity.v ===== *)
(** * Weak subjectivity

    crates/pharos-types/src/weak_subjectivity.rs: the weak subjectivity period
    and the freshness check of a checkpoint.  The [u64] arithmetic of the source
    is shown to be the unbounded formula of the specification on every registry
    the state can hold. *)

From Stdlib Require Import ZArith Lia.
From stdpp Require Import list.
From S2P Require Import Prelude SszTypes Spec Accessors.

Definition ETH_TO_GWEI : Z := 1000000000.
Definition SAFETY_DECAY : Z := 10.

(** Integer division by zero and failed assertions abort. *)
Definition udiv (a b : Z) : result unit Z := if b =? 0 then Panic else Ok (a / b).

Section weak_subjectivity.
  Context `{S : BeaconSpec}.

Definition compute_weak_subjectivity_period (active_validator_count total_active_balance_gwei : Z) : result unit Z :=
  if negb (0 <? active_validator_count) then Panic
  else
    let n := active_validator_count in
    t ← udiv total_active_balance_gwei n;
    t ← udiv t ETH_TO_GWEI;
    t_max ← udiv MAX_EFFECTIVE_BALANCE ETH_TO_GWEI;
    churn ← udiv n CHURN_LIMIT_QUOTIENT;
    let delta := Z.max MIN_PER_EPOCH_CHURN_LIMIT churn in
    let delta_cap := wmul MAX_DEPOSITS SLOTS_PER_EPOCH in
    let d := SAFETY_DECAY in
    let ws_period := MIN_VALIDATOR_WITHDRAWABILITY_DELAY in
    if wmul t_max (200 + 3 * d) <? wmul t (200 + 12 * d) then
      epochs_for_validator_set_churn ←
        udiv (wmul n (wsub (wmul t (200 + 12 * d)) (wmul t_max (200 + 3 * d))))
          (wmul (wmul 600 delta) (wadd (wmul 2 t) t_max));
      epochs_for_balance_top_ups ← udiv (wmul n (200 + 3 * d)) (wmul 600 delta_cap);
      Ok (wadd ws_period (Z.max epochs_for_validator_set_churn epochs_for_balance_top_ups))
    else
      rest ← udiv (wmul (wmul (wmul 3 n) d) t) (wmul (wmul 200 delta_cap) (wsub t_max t));
      Ok (wadd ws_period rest).

Definition is_within_weak_subjectivity_period (ws_state_slot current_slot active_validator_count
    total_active_balance_gwei : Z) : result unit bool :=
  ws_period ← compute_weak_subjectivity_period active_validator_count total_active_balance_gwei;
  let ws_state_epoch := ws_state_slot / SLOTS_PER_EPOCH in
  let current_epoch := current_slot / SLOTS_PER_EPOCH in
  Ok (current_epoch <=? wadd ws_state_epoch ws_period).

Definition active_validator_stats (validators : list Validator) (epoch : Z) : Z * Z :=
  foldl (fun '(count, total_balance) v =>
    if (v_activation_epoch v <=? epoch) && (epoch <? v_exit_epoch v)
    then (wadd count 1, wadd total_balance (v_effective_balance v)) else (count, total_balance))
    (0, 0) validators.

(** The formula of the specification, on unbounded integers. *)
Definition ws_period_spec (N balance : Z) : Z :=
  let t := balance / N / ETH_TO_GWEI in
  let T := MAX_EFFECTIVE_BALANCE / ETH_TO_GWEI in
  let delta := Z.max MIN_PER_EPOCH_CHURN_LIMIT (N / CHURN_LIMIT_QUOTIENT) in
  let Delta := MAX_DEPOSITS * SLOTS_PER_EPOCH in
  let D := SAFETY_DECAY in
  MIN_VALIDATOR_WITHDRAWABILITY_DELAY +
  (if T * (200 + 3 * D) <? t * (200 + 12 * D)
   then Z.max (N * (t * (200 + 12 * D) - T * (200 + 3 * D)) / (600 * delta * (2 * t + T)))
          (N * (200 + 3 * D) / (600 * Delta))
   else 3 * N * D * t / (200 * Delta * (T - t))).
End weak_subjectivity.

(** What the formula needs of a preset beyond [SpecOk]. *)
Class WsSpecOk (S : BeaconSpec) : Prop := {
  ws_spec_ok :: SpecOk S;
  ws_deposits : 0 < MAX_DEPOSITS <= 2 ^ 10;
  ws_effective : ETH_TO_GWEI <= MAX_EFFECTIVE_BALANCE;
}.
#[global] Instance mainnet_ws_ok : WsSpecOk mainnet.
Proof. split; [apply _|cbn; lia|vm_compute; congruence]. Qed.
#[global] Instance minimal_ws_ok : WsSpecOk minimal.
Proof. split; [apply _|cbn; lia|vm_compute; congruence]. Qed.

Section facts.
  Context `{S : BeaconSpec} `{HS : !WsSpecOk S}.

Lemma udiv_Ok a b : 0 < b -> udiv a b = Ok (a / b).
Proof using. intros Hb. unfold udiv. by rewrite (proj2 (Z.eqb_neq b 0)) by lia. Qed.

(** The two branches without wrap-around. *)
Lemma churn_branch n t T delta :
  0 < n <= 2 ^ 40 -> 0 <= t <= 2 ^ 11 -> 0 < T <= 2 ^ 11 -> 0 < delta <= 2 ^ 40 -> T * 230 < t * 320 ->
  wmul n (wsub (wmul t 320) (wmul T 230)) = n * (t * 320 - T * 230) /\
  wmul (wmul 600 delta) (wadd (wmul 2 t) T) = 600 * delta * (2 * t + T) /\ 0 < 600 * delta * (2 * t + T) /\
  0 <= n * (t * 320 - T * 230) <= 2 ^ 60.
Proof using.
  intros Hn Ht HT Hd Hlt. assert (U64 = 2 ^ 64) as HU by done.
  assert (0 <= n * (t * 320 - T * 230) <= 2 ^ 40 * (2 ^ 11 * 320)) by (split; [|apply Z.mul_le_mono_nonneg]; lia || nia).
  assert (0 < 600 * delta * (2 * t + T) <= 600 * 2 ^ 40 * (2 ^ 12 + 2 ^ 11)).
  { split; [nia|]. apply Z.mul_le_mono_nonneg; lia. }
  unfold wmul, wsub, wadd. rewrite (Z.mod_small (t * 320)), (Z.mod_small (T * 230)), (Z.mod_small (t * 320 - T * 230)) by lia.
  rewrite (Z.mod_small (600 * delta)), (Z.mod_small (2 * t)), (Z.mod_small (2 * t + T)) by lia.
  rewrite !Z.mod_small by lia. lia.
Qed.

Lemma topup_branch n t T Delta :
  0 < n <= 2 ^ 40 -> 0 <= t <= 2 ^ 11 -> 0 < T <= 2 ^ 11 -> 0 < Delta <= 2 ^ 20 -> t * 320 <= T * 230 ->
  wmul (wmul (wmul 3 n) 10) t = 3 * n * 10 * t /\ wmul (wmul 200 Delta) (wsub T t) = 200 * Delta * (T - t) /\
  0 < 200 * Delta * (T - t) /\ 0 <= 3 * n * 10 * t <= 2 ^ 60.
Proof using.
  intros Hn Ht HT Hd Hle. assert (U64 = 2 ^ 64) as HU by done. assert (0 < T - t) by lia.
  assert (0 <= 3 * n * 10 * t <= 30 * 2 ^ 40 * 2 ^ 11) by (split; [nia|apply Z.mul_le_mono_nonneg; lia]).
  assert (0 < 200 * Delta * (T - t) <= 200 * 2 ^ 20 * 2 ^ 11) by (split; [nia|apply Z.mul_le_mono_nonneg; lia]).
  unfold wmul, wsub. rewrite (Z.mod_small (3 * n)), (Z.mod_small (3 * n * 10)), (Z.mod_small (200 * Delta)),
    (Z.mod_small (T - t)) by lia. rewrite !Z.mod_small by lia. lia.
Qed.

Lemma div_bound a b m : 0 <= a <= m -> 0 < b -> 0 <= a / b <= m.
Proof using. intros Ha Hb. split; [apply Z.div_pos; lia|]. apply Z.div_le_upper_bound; [lia|nia]. Qed.

(** Up to [2^40] active validators of up to [2^11] Ether each the source
    computes the specification's period, without wrap-around or abort. *)
Lemma ws_period_correct n balance :
  0 < n <= 2 ^ 40 -> 0 <= balance <= n * (2 ^ 11 * ETH_TO_GWEI) ->
  compute_weak_subjectivity_period n balance = Ok (ws_period_spec n balance) /\
  MIN_VALIDATOR_WITHDRAWABILITY_DELAY <= ws_period_spec n balance < 2 ^ 62.
Proof using HS.
  intros Hn Hb. unfold compute_weak_subjectivity_period, ws_period_spec.
  destruct slots_per_epoch_pos as [Hs1 Hs2]. destruct ws_deposits as [Hd1 Hd2]. pose proof ws_effective as He.
  pose proof max_effective_bound as Hm. destruct churn_pos as [[Hc1 Hc2] Hc3]. destruct withdrawability_delay as [Hw1 Hw2].
  assert (0 < ETH_TO_GWEI) as HE by done.
  rewrite (proj2 (Z.ltb_lt 0 n)) by lia. cbn [negb].
  rewrite (udiv_Ok balance n), (udiv_Ok MAX_EFFECTIVE_BALANCE ETH_TO_GWEI), (udiv_Ok n CHURN_LIMIT_QUOTIENT) by lia.
  cbn [mbind result_bind]. rewrite (udiv_Ok (balance / n) ETH_TO_GWEI) by lia. cbn [mbind result_bind].
  set (t := balance / n / ETH_TO_GWEI). set (T := MAX_EFFECTIVE_BALANCE / ETH_TO_GWEI).
  assert (Ht : 0 <= t <= 2 ^ 11).
  { split; [apply Z.div_pos; [apply Z.div_pos|]; lia|]. unfold t. apply Z.div_le_upper_bound; [lia|].
    apply Z.div_le_upper_bound; lia. }
  assert (HT : 0 < T <= 2 ^ 11).
  { split; [apply Z.div_str_pos; lia|]. unfold T. apply Z.div_le_upper_bound; [lia|]. unfold ETH_TO_GWEI. lia. }
  assert (Hq : 0 <= n / CHURN_LIMIT_QUOTIENT <= 2 ^ 40) by (apply div_bound; lia).
  set (delta := Z.max MIN_PER_EPOCH_CHURN_LIMIT (n / CHURN_LIMIT_QUOTIENT)).
  assert (Hdelta : 0 < delta <= 2 ^ 40) by lia.
  assert (HD : 0 < MAX_DEPOSITS * SLOTS_PER_EPOCH <= 2 ^ 20).
  { split; [apply Z.mul_pos_pos; lia|]. change (2 ^ 20) with (2 ^ 10 * 2 ^ 10). apply Z.mul_le_mono_nonneg; lia. }
  assert (wmul MAX_DEPOSITS SLOTS_PER_EPOCH = MAX_DEPOSITS * SLOTS_PER_EPOCH) as ->.
  { unfold wmul. apply Z.mod_small. unfold U64. lia. }
  set (Delta := MAX_DEPOSITS * SLOTS_PER_EPOCH) in *. unfold SAFETY_DECAY.
  change (200 + 3 * 10) with 230. change (200 + 12 * 10) with 320.
  assert (wmul T 230 = T * 230 /\ wmul t 320 = t * 320) as [-> ->].
  { unfold wmul. rewrite !Z.mod_small by (unfold U64; lia). done. }
  destruct (Z.ltb_spec (T * 230) (t * 320)) as [Hlt|Hle].
  - destruct (churn_branch n t T delta Hn Ht HT Hdelta Hlt) as (E1 & E2 & Hp & Hr).
    assert (wmul n 230 = n * 230 /\ wmul 600 Delta = 600 * Delta) as [-> ->].
    { unfold wmul. rewrite !Z.mod_small by (unfold U64; lia). done. }
    assert (wmul t 320 = t * 320 /\ wmul T 230 = T * 230) as [F1 F2].
    { unfold wmul. rewrite !Z.mod_small by (unfold U64; lia). done. }
    rewrite F1, F2 in E1. rewrite E1, E2, !udiv_Ok by lia. cbn [mbind result_bind].
    pose proof (div_bound _ _ _ Hr Hp) as B1.
    assert (B2 : 0 <= n * 230 / (600 * Delta) <= 2 ^ 60) by (apply div_bound; lia).
    unfold wadd. rewrite Z.mod_small by (unfold U64; lia). split; [done|lia].
  - destruct (topup_branch n t T Delta Hn Ht HT HD Hle) as (E1 & E2 & Hp & Hr).
    rewrite E1, E2, udiv_Ok by lia. cbn [mbind result_bind]. pose proof (div_bound _ _ _ Hr Hp) as B1.
    unfold wadd. rewrite Z.mod_small by (unfold U64; lia). split; [done|lia].
Qed.

(** The statistics are the number and the balance of the active validators. *)
Definition active_at (epoch : Z) (validators : list Validator) : list Validator :=
  base.filter (fun v => is_active_validator v epoch = true) validators.
Definition total_balance (validators : list Validator) : Z := foldr (fun v acc => v_effective_balance v + acc) 0 validators.

Lemma total_balance_app l k : total_balance (l ++ k) = total_balance l + total_balance k.
Proof using. induction l as [|v l IH]; cbn; [done|]. unfold total_balance in *. lia. Qed.

Lemma total_balance_nonneg l : Forall (fun v => 0 <= v_effective_balance v) l -> 0 <= total_balance l.
Proof using. induction 1; cbn; [done|]. unfold total_balance in *. lia. Qed.

Lemma active_validator_stats_spec validators epoch :
  Forall (fun v => 0 <= v_effective_balance v) validators ->
  total_balance (active_at epoch validators) < U64 -> zlen validators < U64 ->
  active_validator_stats validators epoch = (zlen (active_at epoch validators), total_balance (active_at epoch validators)).
Proof using.
  unfold active_validator_stats, active_at. induction validators as [|v l IH] using rev_ind; [done|].
  rewrite Forall_app, Forall_singleton, filter_app, total_balance_app, zlen_app. intros [Hl Hv] Hb Hn.
  change (zlen [v]) with 1 in Hn. pose proof (zlen_nonneg l).
  assert (Hle : zlen (base.filter (fun v => is_active_validator v epoch = true) l) <= zlen l).
  { unfold zlen. pose proof (length_filter (fun v => is_active_validator v epoch = true) l). lia. }
  assert (0 <= total_balance (base.filter (fun v => is_active_validator v epoch = true) l)).
  { apply total_balance_nonneg, Forall_forall. intros w [_ Hw]%list_elem_of_filter. by eapply Forall_forall in Hl. }
  pose proof (zlen_nonneg (base.filter (fun v => is_active_validator v epoch = true) l)).
  rewrite foldl_app, IH; [|done| |lia].
  2: { destruct (decide (is_active_validator v epoch = true)); [rewrite filter_cons_True in Hb by done|rewrite filter_cons_False in Hb by done]; cbn in Hb; lia. }
  cbn [foldl]. destruct (is_active_validator v epoch) eqn:Ha; unfold is_active_validator in Ha; rewrite Ha.
  - rewrite filter_cons_True in Hb |- * by done. rewrite ?zlen_app, ?total_balance_app. cbn in *.
    unfold wadd. rewrite !Z.mod_small by (unfold zlen in *; cbn; lia). f_equal. lia.
  - rewrite filter_cons_False in Hb |- * by (by unfold is_active_validator; rewrite Ha). cbn in *. rewrite app_nil_r. f_equal. lia.
Qed.

(** A checkpoint counts as fresh exactly as the specification says: the
    [u64] check, on the statistics of the active validators of its state, is the
    formula on unbounded integers, without wrap-around or abort. *)
Theorem checkpoint_freshness_correct validators ws_slot current_slot :
  let epoch := ws_slot / SLOTS_PER_EPOCH in
  let active := active_at epoch validators in
  Forall (fun v => 0 <= v_effective_balance v <= 2 ^ 11 * ETH_TO_GWEI) validators ->
  active <> [] -> zlen validators <= 2 ^ 22 -> 0 <= ws_slot < 2 ^ 63 ->
  let '(count, balance) := active_validator_stats validators epoch in
  is_within_weak_subjectivity_period ws_slot current_slot count balance =
  Ok (current_slot / SLOTS_PER_EPOCH <=? epoch + ws_period_spec (zlen active) (total_balance active)).
Proof using HS.
  intros epoch active Hv Hne Hn Hs.
  assert (Hle : zlen active <= zlen validators).
  { unfold zlen, active, active_at. pose proof (length_filter (fun v => is_active_validator v epoch = true) validators). lia. }
  assert (Hb : 0 <= total_balance active <= zlen active * (2 ^ 11 * ETH_TO_GWEI)).
  { assert (Hf : Forall (fun v => 0 <= v_effective_balance v <= 2 ^ 11 * ETH_TO_GWEI) active).
    { apply Forall_forall. intros w [_ Hw]%list_elem_of_filter. by eapply Forall_forall in Hv. }
    clear -Hf. induction Hf as [|v l Hb Hf IH]; cbn; [done|]. rewrite zlen_cons. unfold total_balance in *. lia. }
  assert (0 < zlen active) by (destruct active; [done|rewrite zlen_cons; pose proof (zlen_nonneg active); lia]).
  assert (total_balance active < U64) by (unfold U64, ETH_TO_GWEI in *; lia).
  rewrite active_validator_stats_spec; [|eapply Forall_impl; [exact Hv|]; cbn; lia|done|unfold U64; lia].
  fold active. destruct (ws_period_correct (zlen active) (total_balance active)) as [Hp Hr]; [lia|done|].
  unfold is_within_weak_subjectivity_period. rewrite Hp. cbn [mbind result_bind]. fold epoch.
  destruct slots_per_epoch_pos as [Hs1 _].
  assert (0 <= epoch <= ws_slot).
  { unfold epoch. split; [apply Z.div_pos; lia|]. apply Z.div_le_upper_bound; [lia|]. nia. }
  destruct withdrawability_delay as [Hw _]. unfold wadd. rewrite Z.mod_small by (unfold U64; lia). done.
Qed.
End facts.

(** Rows of the specification's table. *)
Example ws_period_table :
  @compute_weak_subjectivity_period mainnet 32768 (32768 * 28 * ETH_TO_GWEI) = Ok 504 /\
  @compute_weak_subjectivity_period mainnet 262144 (262144 * 32 * ETH_TO_GWEI) = Ok 3532.
Proof. split; vm_compute; reflexivity. Qed.

Definition ex_validator : Validator := mkValidator [] [] (32 * ETH_TO_GWEI) false 0 0 (2 ^ 64 - 1) (2 ^ 64 - 1).

Lemma checkpoint_freshness_correct_witness :
  @is_within_weak_subjectivity_period minimal 80 2160 3 (96 * ETH_TO_GWEI) = Ok false.
Proof.
  pose proof (@checkpoint_freshness_correct minimal minimal_ws_ok [ex_validator; ex_validator; ex_validator] 80 2160) as Hf.
  cbv zeta in Hf. change (active_validator_stats _ _) with (3, 96 * ETH_TO_GWEI) in Hf. rewrite Hf.
  - vm_compute. reflexivity.
  - repeat constructor; vm_compute; congruence.
  - vm_compute. congruence.
  - vm_compute. congruence.
  - lia.
Defined.
