(* ===== verification/Transition.v ===== *)
(** * Slots and the phase 0 state transition

    crates/pharos-stf/src/phase0/slot.rs and [phase0_state_transition] of
    crates/pharos-stf/src/lib.rs. *)

From Stdlib Require Import ZArith Lia.
From S2P Require Import Prelude SszCodec SszBitfield SszTypes Merkle SszTree Shuffling Spec BeaconState Invariant Roots Accessors Mutators Justification Rewards EpochUpdates Operations.

Record SignedBeaconBlock : Type := mkSignedBeaconBlock {
  sb_message : BeaconBlock;
  sb_signature : bytes;
}.

Section definitions.
  Context `{Crypto} `{BeaconSpec}.
  Implicit Types s : BeaconState.
  Local Abbreviation fallible := (result StateTransitionError).

Definition block_root (b : BeaconBlock) : result SszError bytes :=
  derive_tree_hash_root [u64_root (b_slot b); u64_root (b_proposer_index b);
    fixed_bytes_root (b_parent_root b); fixed_bytes_root (b_state_root b); body_root (b_body b)].

(** ** slot.rs *)
Definition process_slot s : fallible BeaconState :=
  previous_state_root ← root_value (state_root s);
  let slot_idx := slot s mod SLOTS_PER_HISTORICAL_ROOT in
  s ← set_state_root s slot_idx previous_state_root;
  '(s, previous_block_root) ←
    (if bool_decide (bh_state_root (latest_block_header s) = zero_chunk) then
       let h := latest_block_header s in
       let updated := mkBeaconBlockHeader (bh_slot h) (bh_proposer_index h) (bh_parent_root h)
                        previous_state_root (bh_body_root h) in
       r ← root_value (header_root updated);
       Ok (with_latest_block_header s updated, r)
     else
       r ← root_value (header_root (latest_block_header s));
       Ok (s, r));
  set_block_root s slot_idx previous_block_root.

Definition slot_error (e : EpochProcessingError) : StateTransitionError :=
  match e with
  | EpochSsz s => Ssz s
  | other => EpochProcessing other
  end.

Definition slot_step s : fallible BeaconState :=
  s ← process_slot s;
  s ← (if wadd (slot s) 1 mod SLOTS_PER_EPOCH =? 0 then map_err slot_error (process_epoch s) else Ok s);
  Ok (with_slot s (wadd (slot s) 1)).

(** [while state.slot() < target_slot]. *)
Fixpoint slots_loop (fuel : nat) (target_slot : Z) s : fallible BeaconState :=
  match fuel with
  | O => Ok s
  | Datatypes.S fuel =>
      if slot s <? target_slot then s ← slot_step s; slots_loop fuel target_slot s else Ok s
  end.

(** Each turn advances the slot by one, so [target_slot - slot] turns are all
    the loop makes. *)
Definition process_slots s (target_slot : Z) : fallible BeaconState :=
  if target_slot <? slot s then Err (TargetSlotNotAfterCurrent (slot s) target_slot)
  else slots_loop (Z.to_nat (target_slot - slot s)) target_slot s.

(** ** lib.rs *)
Definition phase0_state_transition s (signed_block : SignedBeaconBlock) (validate_result : bool)
    : fallible BeaconState :=
  let block := sb_message signed_block in
  s ← process_slots s (b_slot block);
  _ ← (if validate_result then
         proposer ← ok_or (validator s (b_proposer_index block)) InvalidBlockSignature;
         domain ← get_domain s DOMAIN_BEACON_PROPOSER None;
         signing_root ← compute_signing_root (block_root block) domain;
         if default false (bls_verify (v_pubkey proposer) signing_root (sb_signature signed_block))
         then Ok tt else Err InvalidBlockSignature
       else Ok tt);
  s ← process_block s block validate_result;
  _ ← (if validate_result then
         actual ← root_value (state_root s);
         let expected := b_state_root block in
         if bool_decide (actual = expected) then Ok tt else Err (StateRootMismatch expected actual)
       else Ok tt);
  Ok s.
End definitions.

Lemma root_value_Ok {E} r b : root_value (E:=E) r = Ok b -> r = Ok b.
Proof. destruct r; cbn; congruence. Qed.

Section facts.
  Context `{Crypto} `{S : BeaconSpec} `{!SpecOk S}.
  Implicit Types s : BeaconState.

(** The header [process_slot] completes with the state root. *)
Definition completed_header s (state_root : bytes) : BeaconBlockHeader :=
  let h := latest_block_header s in
  if bool_decide (bh_state_root h = zero_chunk)
  then mkBeaconBlockHeader (bh_slot h) (bh_proposer_index h) (bh_parent_root h) state_root (bh_body_root h)
  else h.

Lemma process_slot_Ok s s' :
  wf_state s -> process_slot s = Ok s' ->
  exists sr br, state_root s = Ok sr /\ header_root (completed_header s sr) = Ok br /\ wf_state s' /\
    s' = with_block_roots (with_latest_block_header (with_state_roots s
      (<[Z.to_nat (slot s mod SLOTS_PER_HISTORICAL_ROOT) := sr]> (state_roots s))) (completed_header s sr))
      (<[Z.to_nat (slot s mod SLOTS_PER_HISTORICAL_ROOT) := br]> (block_roots s)).
Proof.
  intros Hw. unfold process_slot, completed_header. intros (sr & Hsr & (s1 & H1 & Hs)%bind_Ok_inv)%bind_Ok_inv.
  apply root_value_Ok in Hsr.
  pose proof (wf_set_state_root _ _ _ _ Hw H1) as Hw1. apply set_state_root_Ok in H1 as [_ ->]. cbn in Hs.
  apply bind_Ok_inv in Hs as ([s2 br] & H2 & Hs).
  case_bool_decide as Hz; apply bind_Ok_inv in H2 as (r & Hr & [= <- <-]); exists sr, r.
  - rewrite bool_decide_true by done.
    assert (wf_state s') as Hw' by (eapply wf_set_block_root; [|exact Hs]; by apply wf_set_latest_block_header).
    apply set_block_root_Ok in Hs as [_ ->].
    split_and!; [done| |done|done]. by apply root_value_Ok in Hr.
  - rewrite bool_decide_false by done.
    assert (wf_state s') as Hw' by (eapply wf_set_block_root; [exact Hw1|exact Hs]).
    apply set_block_root_Ok in Hs as [_ ->].
    split_and!; [done| |done|by destruct s]. by apply root_value_Ok in Hr.
Qed.

(** What moving forward in time keeps: the invariant, the order of the
    checkpoints and everything finalized or justified. *)
Record progress s s' : Prop := {
  pg_wf : wf_state s';
  pg_ordered : checkpoints_ordered s';
  pg_finalized : cp_epoch (finalized_checkpoint s) <= cp_epoch (finalized_checkpoint s');
  pg_justified :
    cp_epoch (current_justified_checkpoint s) <= cp_epoch (current_justified_checkpoint s');
}.

Lemma progress_trans s1 s2 s3 : progress s1 s2 -> progress s2 s3 -> progress s1 s3.
Proof. intros [] []. constructor; first [done|lia]. Qed.

Lemma next_slot_epoch s :
  (slot s + 1) mod SLOTS_PER_EPOCH = 0 -> (slot s + 1) / SLOTS_PER_EPOCH = get_current_epoch s + 1.
Proof using SpecOk0.
  intros Hm. pose proof slots_per_epoch_pos. unfold get_current_epoch, compute_epoch_at_slot.
  assert (slot s + 1 = SLOTS_PER_EPOCH * ((slot s + 1) / SLOTS_PER_EPOCH) + (slot s + 1) mod SLOTS_PER_EPOCH)
    as E by (apply Z.div_mod; lia).
  replace (slot s) with ((SLOTS_PER_EPOCH - 1) + ((slot s + 1) / SLOTS_PER_EPOCH - 1) * SLOTS_PER_EPOCH) at 2 by lia.
  rewrite Z.div_add, (Z.div_small (SLOTS_PER_EPOCH - 1)) by lia. lia.
Qed.

Lemma same_epoch s :
  (slot s + 1) mod SLOTS_PER_EPOCH <> 0 -> (slot s + 1) / SLOTS_PER_EPOCH = get_current_epoch s.
Proof using SpecOk0.
  intros Hm. pose proof slots_per_epoch_pos. unfold get_current_epoch, compute_epoch_at_slot.
  pose proof (Z.mod_pos_bound (slot s + 1) SLOTS_PER_EPOCH slots_per_epoch_gt0).
  assert (slot s + 1 = SLOTS_PER_EPOCH * ((slot s + 1) / SLOTS_PER_EPOCH) + (slot s + 1) mod SLOTS_PER_EPOCH)
    as E by (apply Z.div_mod; lia).
  replace (slot s) with (((slot s + 1) mod SLOTS_PER_EPOCH - 1) + ((slot s + 1) / SLOTS_PER_EPOCH) * SLOTS_PER_EPOCH) at 2 by lia.
  rewrite Z.div_add, (Z.div_small ((slot s + 1) mod SLOTS_PER_EPOCH - 1)) by lia. lia.
Qed.

Lemma slot_step_Ok s s' :
  wf_state s -> checkpoints_ordered s -> slot s + 1 < U64 -> slot_step s = Ok s' ->
  slot s' = slot s + 1 /\ progress s s'.
Proof using SpecOk0.
  intros Hw Ho Hlt. unfold slot_step. intros (s1 & H1 & (s2 & H2 & [= <-])%bind_Ok_inv)%bind_Ok_inv.
  pose proof (wf_slot s Hw) as [Hs0 _].
  apply process_slot_Ok in H1 as (sr & br & _ & _ & Hw1 & E1); [|done].
  assert (slot s1 = slot s /\ get_current_epoch s1 = get_current_epoch s /\
    finalized_checkpoint s1 = finalized_checkpoint s /\
    current_justified_checkpoint s1 = current_justified_checkpoint s /\ checkpoints_ordered s1)
    as (Hs1 & He1 & Hf1 & Hj1 & Ho1) by (subst s1; by split_and!).
  clear E1. rewrite <-Hs1 in Hlt, Hs0 |- *. rewrite wadd_small in H2 by lia.
  pose proof (current_epoch_range s1 Hw1).
  destruct (Z.eqb_spec ((slot s1 + 1) mod SLOTS_PER_EPOCH) 0) as [Hm|Hm].
  - apply map_err_Ok, process_epoch_Ok in H2 as (s3 & s4 & roots & H3 & (vs & bs & votes & ->) & Hw2 & ->); [|done].
    destruct (process_jf_ordered s1 s3 Hw1 Ho1 H3) as (? & ? & ? & ? & Hce).
    destruct (justification_frame s1 s3 H3) as (Hslot & _). cbn. rewrite Hslot.
    assert (get_current_epoch s3 = get_current_epoch s1) as Hce3 by (unfold get_current_epoch; by rewrite Hslot).
    rewrite wadd_small by lia. split; [done|].
    assert (wf_state (with_slot _ (slot s1 + 1))) as Hw3 by (apply wf_set_slot; [unfold u64; lia|exact Hw2]).
    constructor; [exact Hw3| |cbn; rewrite <-?Hf1, <-?Hj1; lia..].
    unfold checkpoints_ordered. rewrite previous_epoch_value by exact Hw3.
    assert (get_current_epoch (with_slot s1 (slot s1 + 1)) = get_current_epoch s1 + 1) as Hnext
      by (by apply next_slot_epoch).
    change (get_current_epoch (with_slot _ _)) with (get_current_epoch (with_slot s1 (slot s1 + 1))).
    rewrite Hnext. destruct Ho1 as (? & ? & ?). cbn. rewrite Hce3 in Hce. lia.
  - injection H2 as <-. cbn. rewrite wadd_small by lia. split; [done|].
    assert (wf_state (with_slot s1 (slot s1 + 1))) as Hw3 by (apply wf_set_slot; [unfold u64; lia|done]).
    constructor; [done| |cbn; rewrite ?Hf1, ?Hj1; lia..].
    unfold checkpoints_ordered in *. rewrite previous_epoch_value in * by done.
    assert (get_current_epoch (with_slot s1 (slot s1 + 1)) = get_current_epoch s1) as -> by (by apply same_epoch).
    done.
Qed.

(** Moving forward completes the latest header but keeps its slot. *)
Lemma slot_step_header s s' :
  wf_state s -> slot_step s = Ok s' -> bh_slot (latest_block_header s') = bh_slot (latest_block_header s).
Proof using SpecOk0.
  intros Hw. unfold slot_step. intros (s1 & H1 & (s2 & H2 & [= <-])%bind_Ok_inv)%bind_Ok_inv. cbn.
  apply process_slot_Ok in H1 as (sr & br & _ & _ & Hw1 & E1); [|done].
  assert (bh_slot (latest_block_header s1) = bh_slot (latest_block_header s)) as <-.
  { subst s1. unfold completed_header. by case_bool_decide. }
  clear E1. destruct (_ =? 0); [|by injection H2 as <-].
  apply map_err_Ok, process_epoch_Ok in H2 as (s3 & s4 & roots & H3 & (vs & bs & votes & ->) & _ & ->); [|done].
  cbn. apply process_jf_cases in H3 as [ [_ ->]|(_ & p & c & _ & _ & (cj & fin & -> & _)%weigh_spec)]; done.
Qed.

Lemma slots_loop_Ok fuel target s s' :
  wf_state s -> checkpoints_ordered s -> target < U64 -> slot s <= target ->
  Z.of_nat fuel = target - slot s ->
  slots_loop fuel target s = Ok s' ->
  slot s' = target /\ progress s s' /\ bh_slot (latest_block_header s') = bh_slot (latest_block_header s).
Proof using SpecOk0.
  revert s. induction fuel as [|fuel IH]; intros s Hw Ho Ht Hle Hfuel Hs; cbn in Hs.
  { injection Hs as <-. split_and!; [lia| |done]. by constructor. }
  destruct (Z.ltb_spec (slot s) target); [|lia]. apply bind_Ok_inv in Hs as (s1 & H1 & Hs).
  pose proof (slot_step_header s s1 Hw H1) as Hh.
  apply slot_step_Ok in H1 as [Hslot Hp]; [|done|done|lia]. pose proof Hp as [].
  destruct (IH s1) as (Hs' & Hp' & Hh'); [done|done|done|lia|lia|done|].
  split_and!; [done|by eapply progress_trans|congruence].
Qed.

Lemma process_slots_Ok target s s' :
  wf_state s -> checkpoints_ordered s -> target < U64 -> process_slots s target = Ok s' ->
  slot s' = target /\ progress s s' /\ bh_slot (latest_block_header s') = bh_slot (latest_block_header s).
Proof using SpecOk0.
  intros Hw Ho Ht. unfold process_slots. destruct (Z.ltb_spec target (slot s)); [done|].
  apply slots_loop_Ok; [done..|lia].
Qed.
End facts.

Lemma header_proposer_unslashed `{Crypto} `{BeaconSpec} s b s' v :
  process_block_header s b = Ok s' -> validator s (b_proposer_index b) = Some v -> v_slashed v = false.
Proof.
  intros Hs Hv. pose proof (process_block_header_Ok s b s' Hs) as (_ & _ & Hpi & _).
  unfold process_block_header in Hs. do 2 (case_match; [done|]).
  rewrite Hpi in Hs. cbn in Hs. case_match; [done|].
  apply bind_Ok_inv in Hs as (pr & _ & Hs). case_match; [done|].
  apply bind_Ok_inv in Hs as (r & _ & Hs). case_match eqn:Hsl; [done|].
  unfold validator in Hsl, Hv. cbn in Hsl. by rewrite Hv in Hsl.
Qed.

(** ** Properties *)

(** [process_slots] fails for a target before the current slot, does
    nothing for the current slot, and otherwise, when no step fails, ends
    exactly at the target; on the way the state stays well formed, the
    checkpoints stay in order, and finality and justification only advance. *)
Theorem slots_advance `{Crypto} `{S : BeaconSpec} `{!SpecOk S} (s : BeaconState) target :
  wf_state s -> checkpoints_ordered s -> target < U64 ->
  (target < slot s -> process_slots s target = Err (TargetSlotNotAfterCurrent (slot s) target)) /\
  process_slots s (slot s) = Ok s /\
  (forall s', process_slots s target = Ok s' -> slot s' = target /\ progress s s').
Proof.
  intros Hw Ho Ht. unfold process_slots. split_and!.
  - intros Hlt. by rewrite (proj2 (Z.ltb_lt _ _) Hlt).
  - by rewrite Z.ltb_irrefl, Z.sub_diag.
  - intros s' Hs. by destruct (process_slots_Ok target s s' Hw Ho Ht Hs) as (? & ? & _).
Qed.

Lemma phase0_transition_Ok `{Crypto} `{S : BeaconSpec} `{!SpecOk S} (s s' : BeaconState) sb :
  wf_state s -> checkpoints_ordered s -> u64 (b_slot (sb_message sb)) ->
  Forall (fun d => u64 (dd_amount (dep_data d))) (body_deposits (b_body (sb_message sb))) ->
  phase0_state_transition s sb true = Ok s' ->
  let b := sb_message sb in
  progress s s' /\ slot s' = b_slot b /\ state_root s' = Ok (b_state_root b) /\
  bh_slot (latest_block_header s') = b_slot b /\
  bh_slot (latest_block_header s) < b_slot b /\
  exists s1 v domain signing_root,
    process_slots s (b_slot b) = Ok s1 /\
    get_beacon_proposer_index (E:=StateTransitionError) s1 = Ok (b_proposer_index b) /\
    validator s1 (b_proposer_index b) = Some v /\ v_slashed v = false /\
    get_domain (E:=StateTransitionError) s1 DOMAIN_BEACON_PROPOSER None = Ok domain /\
    compute_signing_root (E:=StateTransitionError) (block_root b) domain = Ok signing_root /\
    bls_verify (v_pubkey v) signing_root (sb_signature sb) = Some true.
Proof.
  intros Hw Ho [_ Hsl] Hd. unfold phase0_state_transition. cbv zeta.
  intros (s1 & H1 & (u1 & Hsig & (s2 & H2 & (u2 & Hroot & [= <-])%bind_Ok_inv)%bind_Ok_inv)%bind_Ok_inv)%bind_Ok_inv.
  apply bind_Ok_inv in Hsig as (v & Hv%ok_or_Ok & (domain & Hdom & (sr & Hsr & Hok)%bind_Ok_inv)%bind_Ok_inv).
  apply bind_Ok_inv in Hroot as (actual & Hact%root_value_Ok & Hroot). case_bool_decide as Heq; [subst actual|done].
  destruct (process_slots_Ok _ _ _ Hw Ho Hsl H1) as (Hslot & [Hw1 Ho1 Hf1 Hj1] & Hbh).
  pose proof H2 as (s3 & H3 & (s4 & H4%process_randao_Ok & (s5 & H5%process_eth1_data_op & H6)%bind_Ok_inv
    )%bind_Ok_inv)%bind_Ok_inv.
  pose proof (header_proposer_unslashed s1 _ s3 v H3 Hv) as Hun.
  apply process_block_header_Ok in H3 as (_ & Hlater & Hpi & _ & r & _ & ->).
  pose proof (wf_set_randao_mix _ _ _ _ (wf_set_latest_block_header s1 _ Hw1) H4) as Hw4.
  apply process_operations_op in H6; [|done].
  destruct (op_ok_trans _ _ _ _ _ H5 H6 Hw4) as (Hw2 & [Es Eh Ef Ej Ep _ _] & _).
  apply set_randao_mix_Ok in H4 as [_ ->]. cbn in Es, Eh, Ef, Ej, Ep.
  assert (checkpoints_ordered s2) as Ho2.
  { unfold checkpoints_ordered, get_previous_epoch, get_current_epoch in *.
    rewrite Es, Ef, Ej, Ep. exact Ho1. }
  split_and!; [constructor; rewrite ?Ef, ?Ej; done|congruence|done|by rewrite Eh|lia|].
  exists s1, v, domain, sr. split_and!; try done.
  destruct (bls_verify _ _ _) as [[]|]; done.
Qed.

(** C4: the phase 0 state transition.  A block accepted with validation was
    signed by the proposer of its slot, who is not slashed; the resulting state
    is at the block's slot, has the state root the block claims and the block as
    its latest header, is well formed, and has lost nothing that was finalized
    or justified. *)
Theorem phase0_transition_sound `{Crypto} `{S : BeaconSpec} `{!SpecOk S} (s s' : BeaconState) sb :
  wf_state s -> checkpoints_ordered s -> u64 (b_slot (sb_message sb)) ->
  Forall (fun d => u64 (dd_amount (dep_data d))) (body_deposits (b_body (sb_message sb))) ->
  phase0_state_transition s sb true = Ok s' ->
  let b := sb_message sb in
  progress s s' /\ slot s' = b_slot b /\ state_root s' = Ok (b_state_root b) /\
  bh_slot (latest_block_header s') = b_slot b /\
  exists s1 v domain signing_root,
    process_slots s (b_slot b) = Ok s1 /\
    get_beacon_proposer_index (E:=StateTransitionError) s1 = Ok (b_proposer_index b) /\
    validator s1 (b_proposer_index b) = Some v /\ v_slashed v = false /\
    get_domain (E:=StateTransitionError) s1 DOMAIN_BEACON_PROPOSER None = Ok domain /\
    compute_signing_root (E:=StateTransitionError) (block_root b) domain = Ok signing_root /\
    bls_verify (v_pubkey v) signing_root (sb_signature sb) = Some true.
Proof.
  intros Hw Ho Hsl Hd Hs. by destruct (phase0_transition_Ok s s' sb Hw Ho Hsl Hd Hs) as (? & ? & ? & ? & _ & ?).
Qed.

(** ** Witnesses *)
Lemma slots_advance_witness :
  exists s', @process_slots ex_crypto minimal (ex_state 15) 17 = Ok s' /\ slot s' = 17 /\
    @wf_state minimal s'.
Proof.
  destruct (@process_slots ex_crypto minimal (ex_state 15) 17) as [s'| |] eqn:Hs;
    [|vm_compute in Hs; discriminate..].
  destruct (@slots_advance ex_crypto minimal _ (ex_state 15) 17) as (_ & _ & Hadv).
  - apply ex_state_wf. unfold u64, U64. lia.
  - vm_compute. split_and!; discriminate.
  - unfold U64. lia.
  - destruct (Hadv s' Hs) as [Hsl Hp]. exists s'. split_and!; [reflexivity|exact Hsl|apply Hp].
Defined.

Definition ex_before : BeaconState := ok_value (ex_state 17) (@process_slots ex_crypto minimal (ex_state 16) 17).
Definition ex_block_at (root : bytes) : BeaconBlock :=
  mkBeaconBlock 17 (ok_value 0 (@get_beacon_proposer_index ex_crypto minimal unit ex_before))
    (ok_value [] (@header_root ex_crypto (latest_block_header ex_before))) root (b_body ex_block).
Definition ex_signed_block : SignedBeaconBlock :=
  mkSignedBeaconBlock
    (ex_block_at (ok_value [] (@state_root ex_crypto minimal
       (ok_value ex_before (@process_block ex_crypto minimal ex_before (ex_block_at zero_chunk) true)))))
    (replicate 96 Byte.x00).

Lemma phase0_transition_sound_witness :
  exists s', @phase0_state_transition ex_crypto minimal (ex_state 16) ex_signed_block true = Ok s' /\
    slot s' = 17.
Proof.
  destruct (@phase0_state_transition ex_crypto minimal (ex_state 16) ex_signed_block true)
    as [s'| |] eqn:Hs; [|vm_compute in Hs; discriminate..].
  destruct (@phase0_transition_sound ex_crypto minimal _ (ex_state 16) s' ex_signed_block) as (_ & Hsl & _).
  - apply ex_state_wf. unfold u64, U64. lia.
  - vm_compute. split_and!; discriminate.
  - split; [vm_compute; discriminate|vm_compute; reflexivity].
  - constructor.
  - exact Hs.
  - exists s'. split; [reflexivity|rewrite Hsl; reflexivity].
Defined.
