(* ===== verification/ForkStore.v ===== *)
(** * The fork-choice store and its queries

    crates/pharos-fork-choice/src/store.rs and get_head.rs: the store, the slot
    clock, ancestors, vote weights, the filtered block tree, the head and the
    proposer's head.

    The store is that of a network on the phase 0 fork: blocks and states are
    the phase 0 ones, and the fork epochs, terminal-block constants and the rest
    of the runtime configuration, which only later forks read, are left out.
    [HashMap] is [gmap] (its iteration order is one of the orders the code may
    see; the results are shown not to depend on it). *)

From Stdlib Require Import ZArith Lia.
From S2P Require Import Prelude SszCodec SszBitfield SszTypes Merkle SszTree Shuffling Spec BeaconState Invariant Roots Accessors Mutators Justification Rewards EpochUpdates Operations Transition.

(** ** store.rs *)
Abbreviation Root := bytes.

#[global] Instance checkpoint_eq_dec : EqDecision Checkpoint.
Proof. solve_decision. Defined.
#[global] Program Instance checkpoint_countable : Countable Checkpoint :=
  inj_countable' (fun c => (cp_epoch c, cp_root c)) (fun p => mkCheckpoint p.1 p.2) _.
Next Obligation. by intros []. Qed.

Inductive PayloadStatus : Type := Valid | Invalid | NotValidated.

Record LatestMessage : Type := mkLatestMessage {
  lm_epoch : Z;
  lm_root : Root;
}.

Record Store : Type := mkStore {
  st_time : Z;
  st_genesis_time : Z;
  st_justified : Checkpoint;
  st_finalized : Checkpoint;
  st_unrealized_justified : Checkpoint;
  st_unrealized_finalized : Checkpoint;
  st_proposer_boost_root : Root;
  st_equivocating : gset Z;
  st_blocks : gmap Root BeaconBlock;
  st_block_states : gmap Root BeaconState;
  st_block_timeliness : gmap Root bool;
  st_checkpoint_states : gmap Checkpoint BeaconState;
  st_latest_messages : gmap Z LatestMessage;
  st_unrealized_justifications : gmap Root Checkpoint;
  st_payload_statuses : gmap Root PayloadStatus;
  st_seconds_per_slot : Z;
}.

Definition checkpoint_default : Checkpoint := mkCheckpoint 0 zero_chunk.

(** ** get_head.rs *)
Definition PROPOSER_SCORE_BOOST : Z := 40.
Definition REORG_HEAD_WEIGHT_THRESHOLD : Z := 20.
Definition REORG_PARENT_WEIGHT_THRESHOLD : Z := 160.
Definition REORG_MAX_EPOCHS_SINCE_FINALIZATION : Z := 2.
Definition PROPOSER_REORG_CUTOFF_BPS : Z := 1667.
Definition BASIS_POINTS : Z := 10000.

Definition seconds_to_milliseconds (seconds : Z) : Z := sat_mul seconds 1000.

Definition slot_from_time (time genesis_time slot_ms : Z) : Z :=
  wmul (sat_sub time genesis_time) 1000 / Z.max slot_ms 1.

Definition slot_start_time (sl genesis_time slot_ms : Z) : Z :=
  wadd genesis_time (wmul sl slot_ms / 1000).

(** The order of [FixedBytes]: lexicographic. *)
Fixpoint root_leb (a b : bytes) : bool :=
  match a, b with
  | [], _ => true
  | _ :: _, [] => false
  | x :: a, y :: b =>
      if byte.unsigned x <? byte.unsigned y then true
      else if byte.unsigned y <? byte.unsigned x then false
      else root_leb a b
  end.

(** The order of the pairs [(u64, Root)]. *)
Definition key_leb (k1 k2 : Z * Root) : bool :=
  (k1.1 <? k2.1) || ((k1.1 =? k2.1) && root_leb k1.2 k2.2).

(** [cur = parent(cur)] until the block is unknown or not after [sl].  A chain
    of known blocks has at most as many links as there are blocks. *)
Fixpoint ancestor_loop (blocks : gmap Root BeaconBlock) (fuel : nat) (cur : Root) (sl : Z) : Root :=
  match fuel with
  | O => cur
  | Datatypes.S fuel =>
      match blocks !! cur with
      | None => cur
      | Some block => if sl <? b_slot block then ancestor_loop blocks fuel (b_parent_root block) sl else cur
      end
  end.

Definition get_ancestor (st : Store) (root : Root) (sl : Z) : Root :=
  ancestor_loop (st_blocks st) (Datatypes.S (size (st_blocks st))) root sl.

(** [idx.entry(b.parent_root()).or_default().push(root)]. *)
Definition children_push (idx : gmap Root (list Root)) (rb : Root * BeaconBlock) : gmap Root (list Root) :=
  let p := b_parent_root rb.2 in <[p := default [] (idx !! p) ++ [rb.1]]> idx.

Definition children_index (blocks : gmap Root BeaconBlock) : gmap Root (list Root) :=
  foldl children_push ∅ (map_to_list blocks).

Section definitions.
  Context `{Crypto} `{BeaconSpec}.
  Implicit Types st : Store.

Definition store_slot_ms st : Z :=
  let ms := sat_mul (st_seconds_per_slot st) 1000 in
  if ms =? 0 then SLOT_DURATION_MS else ms.

Definition time_into_current_slot_ms st : Z :=
  let seconds_since_genesis := sat_sub (st_time st) (st_genesis_time st) in
  seconds_to_milliseconds seconds_since_genesis mod Z.max (store_slot_ms st) 1.

Definition get_slots_since_genesis st : Z :=
  slot_from_time (st_time st) (st_genesis_time st) (store_slot_ms st).

Definition get_current_slot st : Z := get_slots_since_genesis st.

Definition get_current_store_epoch st : Z := compute_epoch_at_slot (get_current_slot st) SLOTS_PER_EPOCH.

Definition compute_slots_since_epoch_start (sl : Z) : Z :=
  let epoch := compute_epoch_at_slot sl SLOTS_PER_EPOCH in
  let start := compute_start_slot_at_epoch epoch SLOTS_PER_EPOCH in
  wsub sl start.

Definition get_checkpoint_block st (root : Root) (epoch : Z) : Root :=
  let epoch_first_slot := compute_start_slot_at_epoch epoch SLOTS_PER_EPOCH in
  get_ancestor st root epoch_first_slot.

Definition active_indices_for_justified st : list Z :=
  match st_checkpoint_states st !! st_justified st with
  | Some s => get_active_validator_indices s (get_current_epoch s)
  | None => []
  end.

Definition block_slot_or_zero st (root : Root) : Z := default 0 (b_slot <$> st_blocks st !! root).

(** The second filter of [get_attestation_score]. *)
Definition votes_for st (root : Root) (i : Z) : bool :=
  bool_decide (is_Some (st_latest_messages st !! i))
  && negb (bool_decide (i ∈ st_equivocating st))
  && match st_latest_messages st !! i with
     | Some msg => bool_decide (get_ancestor st (lm_root msg) (block_slot_or_zero st root) = root)
     | None => false
     end.

(** The first filter: [!state.validator(i).is_none_or(|v| v.slashed)]. *)
Definition unslashed_at (s : BeaconState) (i : Z) : bool :=
  match validator s i with Some v => negb (v_slashed v) | None => false end.

Definition get_attestation_score st (root : Root) (s : BeaconState) (active_indices : list Z) : Z :=
  let unslashed := filter (fun i => unslashed_at s i = true) active_indices in
  let voting := filter (fun i => votes_for st root i = true) unslashed in
  wsum ((fun i => default 0 (v_effective_balance <$> validator s i)) <$> voting).

Definition compute_proposer_score (s : BeaconState) : Z :=
  let committee_weight := get_total_active_balance s / SLOTS_PER_EPOCH in
  wmul committee_weight PROPOSER_SCORE_BOOST / 100.

Definition get_proposer_score st : Z :=
  match st_checkpoint_states st !! st_justified st with
  | Some s => compute_proposer_score s
  | None => 0
  end.

Definition get_weight_with st (root : Root) (active_indices : list Z) : Z :=
  match st_checkpoint_states st !! st_justified st with
  | None => 0
  | Some s =>
      let attestation_score := get_attestation_score st root s active_indices in
      if bool_decide (st_proposer_boost_root st = zero_chunk) then attestation_score
      else
        let block_slot := block_slot_or_zero st root in
        let proposer_score :=
          if bool_decide (get_ancestor st (st_proposer_boost_root st) block_slot = root)
          then get_proposer_score st else 0 in
        wadd attestation_score proposer_score
  end.

Definition get_weight st (root : Root) : Z := get_weight_with st root (active_indices_for_justified st).

Definition get_voting_source st (block_root : Root) : Checkpoint :=
  match st_blocks st !! block_root with
  | None => checkpoint_default
  | Some block =>
      let current_epoch := get_current_store_epoch st in
      let block_epoch := compute_epoch_at_slot (b_slot block) SLOTS_PER_EPOCH in
      if block_epoch <? current_epoch then
        default checkpoint_default (st_unrealized_justifications st !! block_root)
      else
        default checkpoint_default (current_justified_checkpoint <$> st_block_states st !! block_root)
  end.

(** The viability test of a leaf in [filter_block_tree]. *)
Definition leaf_viable st (block_root : Root) : bool :=
  let current_epoch := get_current_store_epoch st in
  let voting_source := get_voting_source st block_root in
  let correct_justified :=
    (cp_epoch (st_justified st) =? GENESIS_EPOCH)
    || (cp_epoch voting_source =? cp_epoch (st_justified st))
    || (current_epoch <=? wadd (cp_epoch voting_source) 2) in
  let finalized_checkpoint_block := get_checkpoint_block st block_root (cp_epoch (st_finalized st)) in
  let correct_finalized :=
    (cp_epoch (st_finalized st) =? GENESIS_EPOCH)
    || bool_decide (cp_root (st_finalized st) = finalized_checkpoint_block) in
  correct_justified && correct_finalized.

Definition payload_invalid st (root : Root) : bool :=
  match st_payload_statuses st !! root with
  | Some Invalid => true
  | _ => false
  end.

(** The recursion goes from a block to its children, so it is at most as deep
    as there are blocks. *)
Fixpoint filter_block_tree (fuel : nat) st (block_root : Root) (blocks : gmap Root BeaconBlock)
    (children_idx : gmap Root (list Root)) : bool * gmap Root BeaconBlock :=
  match fuel with
  | O => (false, blocks)
  | Datatypes.S fuel =>
      match st_blocks st !! block_root with
      | None => (false, blocks)
      | Some block =>
          if payload_invalid st block_root then (false, blocks)
          else
            match default [] (children_idx !! block_root) with
            | [] =>
                if leaf_viable st block_root then (true, <[block_root := block]> blocks)
                else (false, blocks)
            | children =>
                let '(any_viable, blocks) :=
                  foldl (fun '(any_viable, blocks) child =>
                      let '(viable, blocks) := filter_block_tree fuel st child blocks children_idx in
                      (any_viable || viable, blocks))
                    (false, blocks) children in
                if any_viable then (true, <[block_root := block]> blocks) else (false, blocks)
            end
      end
  end.

Definition effective_base st : Root :=
  if bool_decide (is_Some (st_blocks st !! cp_root (st_justified st)))
  then cp_root (st_justified st) else cp_root (st_finalized st).

Definition get_filtered_block_tree st : gmap Root BeaconBlock :=
  let base := effective_base st in
  let children_idx := children_index (st_blocks st) in
  (filter_block_tree (Datatypes.S (size (st_blocks st))) st base ∅ children_idx).2.

(** [weights.entry(root).or_insert_with(..)]. *)
Definition memo_weight st (active_indices : list Z) (weights : gmap Root Z) (root : Root)
    : gmap Root Z * Z :=
  match weights !! root with
  | Some w => (weights, w)
  | None => let w := get_weight_with st root active_indices in (<[root := w]> weights, w)
  end.

(** [children.max_by_key(..)] with the weights looked up in the memo. *)
Definition max_by_weight st (active_indices : list Z) (weights : gmap Root Z) (children : list Root)
    : gmap Root Z * option (Z * Root) :=
  foldl (fun '(weights, best) root =>
      let '(weights, w) := memo_weight st active_indices weights root in
      (weights, match best with
                | Some k => if key_leb k (w, root) then Some (w, root) else Some k
                | None => Some (w, root)
                end))
    (weights, None) children.

(** The descent of [get_head].  [None] is the [expect] on an empty child
    list. *)
Fixpoint head_loop (fuel : nat) st (active_indices : list Z) (children_idx : gmap Root (list Root))
    (weights : gmap Root Z) (head : Root) : option Root :=
  match fuel with
  | O => Some head
  | Datatypes.S fuel =>
      match children_idx !! head with
      | None => Some head
      | Some children =>
          match max_by_weight st active_indices weights children with
          | (weights, Some (_, child)) => head_loop fuel st active_indices children_idx weights child
          | (_, None) => None
          end
      end
  end.

Definition get_head {E} st : result E Root :=
  let blocks := get_filtered_block_tree st in
  let children_idx := children_index blocks in
  let active_indices := active_indices_for_justified st in
  expect (head_loop (Datatypes.S (size blocks)) st active_indices children_idx ∅ (effective_base st)).

(** ** The proposer's head *)
Definition calculate_committee_fraction (s : BeaconState) (committee_percent : Z) : Z :=
  let committee_weight := get_total_active_balance s / SLOTS_PER_EPOCH in
  wmul committee_weight committee_percent / 100.

Definition get_slot_component_duration_ms (basis_points : Z) : Z :=
  wmul basis_points SLOT_DURATION_MS / BASIS_POINTS.

Definition get_proposer_reorg_cutoff_ms : Z := get_slot_component_duration_ms PROPOSER_REORG_CUTOFF_BPS.

Definition is_head_late st (head_root : Root) : bool :=
  negb (default false (st_block_timeliness st !! head_root)).

Definition is_shuffling_stable (sl : Z) : bool := negb (sl mod SLOTS_PER_EPOCH =? 0).

Definition is_ffg_competitive st (head_root parent_root : Root) : bool :=
  match st_unrealized_justifications st !! head_root, st_unrealized_justifications st !! parent_root with
  | Some h, Some p => bool_decide (h = p)
  | _, _ => false
  end.

Definition is_finalization_ok st (sl : Z) : bool :=
  let current_epoch := compute_epoch_at_slot sl SLOTS_PER_EPOCH in
  let epochs_since_finalization := sat_sub current_epoch (cp_epoch (st_finalized st)) in
  epochs_since_finalization <=? REORG_MAX_EPOCHS_SINCE_FINALIZATION.

Definition is_proposing_on_time st : bool := time_into_current_slot_ms st <=? get_proposer_reorg_cutoff_ms.

Definition is_head_weak_with st (head_root : Root) (active_indices : list Z) (weights : gmap Root Z)
    : gmap Root Z * bool :=
  match st_checkpoint_states st !! st_justified st with
  | None => (weights, false)
  | Some s =>
      let reorg_threshold := calculate_committee_fraction s REORG_HEAD_WEIGHT_THRESHOLD in
      let '(weights, head_weight) := memo_weight st active_indices weights head_root in
      (weights, head_weight <? reorg_threshold)
  end.

Definition is_head_weak st (head_root : Root) : bool :=
  (is_head_weak_with st head_root (active_indices_for_justified st) ∅).2.

Definition is_parent_strong_with st (root : Root) (active_indices : list Z) (weights : gmap Root Z)
    : gmap Root Z * bool :=
  match st_checkpoint_states st !! st_justified st with
  | None => (weights, false)
  | Some s =>
      let parent_threshold := calculate_committee_fraction s REORG_PARENT_WEIGHT_THRESHOLD in
      match st_blocks st !! root with
      | None => (weights, false)
      | Some b =>
          let parent_root := b_parent_root b in
          let '(weights, parent_weight) := memo_weight st active_indices weights parent_root in
          (weights, parent_threshold <? parent_weight)
      end
  end.

Definition is_parent_strong st (root : Root) : bool :=
  (is_parent_strong_with st root (active_indices_for_justified st) ∅).2.

Definition is_proposer_equivocation st (root : Root) : bool :=
  match st_blocks st !! root with
  | None => false
  | Some block =>
      let matching_count := zlen (filter (fun rb : Root * BeaconBlock =>
          b_proposer_index rb.2 = b_proposer_index block /\ b_slot rb.2 = b_slot block)
        (map_to_list (st_blocks st))) in
      1 <? matching_count
  end.

Definition get_proposer_head st (head_root : Root) (sl : Z) : Root :=
  match st_blocks st !! head_root with
  | None => head_root
  | Some head_block =>
      let parent_root := b_parent_root head_block in
      match st_blocks st !! parent_root with
      | None => head_root
      | Some parent_block =>
          let head_late := is_head_late st head_root in
          let shuffling_stable := is_shuffling_stable sl in
          let ffg_competitive := is_ffg_competitive st head_root parent_root in
          let finalization_ok := is_finalization_ok st sl in
          let proposing_on_time := is_proposing_on_time st in
          let parent_slot_ok := wadd (b_slot parent_block) 1 =? b_slot head_block in
          let current_time_ok := wadd (b_slot head_block) 1 =? sl in
          let single_slot_reorg := parent_slot_ok && current_time_ok in
          if bool_decide (st_proposer_boost_root st = head_root) then head_root
          else
            let active_indices := active_indices_for_justified st in
            let '(weights, head_weak) := is_head_weak_with st head_root active_indices ∅ in
            let '(_, parent_strong) := is_parent_strong_with st head_root active_indices weights in
            let proposer_equivocation := is_proposer_equivocation st head_root in
            if head_late && shuffling_stable && ffg_competitive && finalization_ok
               && proposing_on_time && single_slot_reorg && head_weak && parent_strong
            then parent_root
            else if head_weak && current_time_ok && proposer_equivocation then parent_root
            else head_root
      end
  end.
End definitions.

(** ** The block tree *)
Definition parents_older (bs : gmap Root BeaconBlock) : Prop :=
  forall r b p, bs !! r = Some b -> bs !! b_parent_root b = Some p -> b_slot p < b_slot b.

(** [ancestor bs r a]: following parents from [r] through known blocks reaches
    [a]. *)
Inductive ancestor (bs : gmap Root BeaconBlock) : Root -> Root -> Prop :=
  | ancestor_self r : ancestor bs r r
  | ancestor_parent r b a : bs !! r = Some b -> ancestor bs (b_parent_root b) a -> ancestor bs r a.

(** How many known blocks are before, or after, a slot. *)
Definition before (bs : gmap Root BeaconBlock) (s : Z) : nat :=
  size (filter (fun rb : Root * BeaconBlock => b_slot rb.2 < s) bs).
Definition after (bs : gmap Root BeaconBlock) (s : Z) : nat :=
  size (filter (fun rb : Root * BeaconBlock => s < b_slot rb.2) bs).

Section tree.
  Context (bs : gmap Root BeaconBlock).

Lemma filter_size_lt (P Q : Root * BeaconBlock -> Prop) `{!forall x, Decision (P x)} `{!forall x, Decision (Q x)} r b :
  (forall x, P x -> Q x) -> bs !! r = Some b -> Q (r, b) -> ~ P (r, b) ->
  (size (filter P bs) < size (filter Q bs))%nat.
Proof.
  intros HPQ Hr HQ HP. apply map_subset_size. split.
  - apply map_subseteq_spec. intros k x. rewrite !map_lookup_filter_Some. naive_solver.
  - rewrite map_subseteq_spec. intros Hs. specialize (Hs r b).
    rewrite !map_lookup_filter_Some in Hs. naive_solver.
Qed.

Lemma before_lt r b s : bs !! r = Some b -> b_slot b < s -> (before bs (b_slot b) < before bs s)%nat.
Proof. intros Hr Hs. eapply filter_size_lt; [|exact Hr|..]; cbn; intros; lia. Qed.

Lemma after_lt r b s : bs !! r = Some b -> s < b_slot b -> (after bs (b_slot b) < after bs s)%nat.
Proof. intros Hr Hs. eapply filter_size_lt; [|exact Hr|..]; cbn; intros; lia. Qed.

Lemma before_size r b : bs !! r = Some b -> (before bs (b_slot b) < size bs)%nat.
Proof.
  intros Hr. rewrite <-(map_filter_id (fun _ => True) bs) at 2 by done.
  eapply filter_size_lt; [done|exact Hr|done|cbn; lia].
Qed.

Lemma after_size r b : bs !! r = Some b -> (after bs (b_slot b) < size bs)%nat.
Proof.
  intros Hr. rewrite <-(map_filter_id (fun _ => True) bs) at 2 by done.
  eapply filter_size_lt; [done|exact Hr|done|cbn; lia].
Qed.

Lemma ancestor_trans x y z : ancestor bs x y -> ancestor bs y z -> ancestor bs x z.
Proof. induction 1; [done|]. intros. eapply ancestor_parent; eauto. Qed.
End tree.

(** What [get_ancestor] is to compute: the first block on the way from [root]
    that is unknown or not after [sl]. *)
Definition first_not_after (bs : gmap Root BeaconBlock) (root : Root) (sl : Z) (a : Root) : Prop :=
  ancestor bs root a /\
  (forall b, bs !! a = Some b -> b_slot b <= sl) /\
  (forall c, ancestor bs root c -> ancestor bs c a -> c <> a -> exists b, bs !! c = Some b /\ sl < b_slot b).

Section ancestors.
  Context (bs : gmap Root BeaconBlock) (Hold : parents_older bs).

Lemma ancestor_unknown r a : bs !! r = None -> ancestor bs r a -> a = r.
Proof using. intros Hr. by inversion 1; simplify_eq. Qed.

(** Proper ancestors are older, so no block is its own proper ancestor. *)
Lemma ancestor_slot r a c :
  bs !! a = Some c -> ancestor bs r a -> r = a \/ exists b, bs !! r = Some b /\ b_slot c < b_slot b.
Proof using Hold.
  intros Ha. induction 1 as [r|r b a Hr Hra IH]; [by left|]. right. exists b. split; [done|].
  destruct (IH Ha) as [<-|(p & Hp & Hs)]; [by eapply Hold|].
  pose proof (Hold _ _ _ Hr Hp). lia.
Qed.

Lemma ancestor_antisym r a : ancestor bs r a -> ancestor bs a r -> r = a.
Proof using Hold.
  intros H1 H2. destruct (bs !! a) as [c|] eqn:Ha; [|by eapply ancestor_unknown].
  destruct (ancestor_slot _ _ _ Ha H1) as [?|(b & Hr & Hs)]; [done|].
  destruct (ancestor_slot _ _ _ Hr H2) as [?|(c' & ? & ?)]; [done|]. simplify_eq. lia.
Qed.

Lemma ancestor_loop_first fuel r sl :
  (match bs !! r with None => 0 | Some b => Datatypes.S (before bs (b_slot b)) end <= fuel)%nat ->
  first_not_after bs r sl (ancestor_loop bs fuel r sl).
Proof using Hold.
  assert (forall r, (forall b, bs !! r = Some b -> b_slot b <= sl) -> first_not_after bs r sl r) as Hstop.
  { intros r0 Hb. split_and!; [constructor|done|]. intros c H1 H2 Hne. by destruct Hne; apply ancestor_antisym. }
  revert r. induction fuel as [|fuel IH]; intros r Hf; cbn.
  - apply Hstop. destruct (bs !! r); [lia|done].
  - destruct (bs !! r) as [b|] eqn:Hr; [|by apply Hstop; intros; simplify_eq].
    destruct (sl <? b_slot b) eqn:Hs; zbool; [|apply Hstop; intros; by simplify_eq].
    destruct (IH (b_parent_root b)) as (H1 & H2 & H3).
    { destruct (bs !! b_parent_root b) as [p|] eqn:Hp; [|lia].
      pose proof (before_lt bs _ _ _ Hp (Hold _ _ _ Hr Hp)). lia. }
    split_and!; [by eapply ancestor_parent|done|].
    intros c Hrc Hca Hne. inversion Hrc; simplify_eq; eauto.
Qed.

Lemma ancestor_linear r x y : ancestor bs r x -> ancestor bs r y -> ancestor bs x y \/ ancestor bs y x.
Proof using.
  intros Hx. revert y. induction Hx as [r|r b x Hr Hx IH]; intros y Hy; [by left|].
  inversion Hy; simplify_eq; [right; by eapply ancestor_parent|auto].
Qed.

Lemma first_not_after_unique r sl a a' :
  first_not_after bs r sl a -> first_not_after bs r sl a' -> a = a'.
Proof using Hold.
  intros (H1 & H2 & H3) (H1' & H2' & H3').
  destruct (decide (a = a')) as [|Hne]; [done|].
  destruct (ancestor_linear r a a') as [Hl|Hl]; [done..| |].
  - destruct (H3' a) as (b & Hb & Hs); [done..|]. specialize (H2 _ Hb). lia.
  - destruct (H3 a') as (b & Hb & Hs); [done..|]. specialize (H2' _ Hb). lia.
Qed.
End ancestors.

Section get_ancestor_facts.
  Context (st : Store) (Hold : parents_older (st_blocks st)).

Lemma get_ancestor_first r sl : first_not_after (st_blocks st) r sl (get_ancestor st r sl).
Proof using Hold.
  apply ancestor_loop_first; [done|]. destruct (st_blocks st !! r) as [b|] eqn:Hr; [|lia].
  pose proof (before_size _ _ _ Hr). lia.
Qed.

Lemma get_ancestor_unique r sl a : first_not_after (st_blocks st) r sl a -> get_ancestor st r sl = a.
Proof using Hold. intros Ha. by eapply first_not_after_unique, Ha; [|apply get_ancestor_first]. Qed.

(** Ancestors.  On a store whose parents are older than their children the
    walk of [get_ancestor] ends within the number of known blocks, at the one
    block that is reached from [root] through known blocks all after [sl] and is
    itself unknown or not after [sl]. *)
Theorem get_ancestor_correct r sl :
  first_not_after (st_blocks st) r sl (get_ancestor st r sl) /\
  forall a, first_not_after (st_blocks st) r sl a -> a = get_ancestor st r sl.
Proof using Hold.
  split; [by apply get_ancestor_first|]. intros a Ha. by rewrite (get_ancestor_unique r sl a).
Qed.
End get_ancestor_facts.
