(* ===== verification/ForkHead.v ===== *)
(** * The head of the chain

    The filtered block tree and [get_head] of
    crates/pharos-fork-choice/src/get_head.rs against the greedy heaviest-subtree
    rule stated as relations, the inheritance of votes, and the proposer's
    head. *)

From Stdlib Require Import ZArith Lia.
From S2P Require Import Prelude SszCodec SszBitfield SszTypes Merkle SszTree Shuffling Spec BeaconState Invariant Roots Accessors Mutators Justification Rewards EpochUpdates Operations Transition ForkStore.

(** ** Children *)
Definition child_of (bs : gmap Root BeaconBlock) (p c : Root) : Prop :=
  exists b, bs !! c = Some b /\ b_parent_root b = p.

Section children.
  Implicit Types bs : gmap Root BeaconBlock.

Lemma children_fold (l : list (Root * BeaconBlock)) idx :
  let idx' := foldl children_push idx l in
  (forall p, idx !! p <> Some []) ->
  (forall p, idx' !! p <> Some []) /\
  (forall p c, c ∈ default [] (idx' !! p) <->
     c ∈ default [] (idx !! p) \/ exists b, (c, b) ∈ l /\ b_parent_root b = p).
Proof.
  revert idx. induction l as [|[r b] l IH]; intros idx; cbn; intros Hne.
  - split; [done|]. intros p c. split; [by left|]. intros [?|(? & []%not_elem_of_nil & ?)]; done.
  - destruct (IH (children_push idx (r, b))) as [H1 H2]; unfold children_push in *; cbn in *.
    { intros p. destruct (decide (p = b_parent_root b)) as [->|].
      - rewrite lookup_insert_eq. by intros [= []%app_nil].
      - by rewrite lookup_insert_ne. }
    split; [done|]. intros p c. rewrite H2. setoid_rewrite elem_of_cons.
    destruct (decide (p = b_parent_root b)) as [->|].
    + rewrite lookup_insert_eq. cbn. rewrite elem_of_app, list_elem_of_singleton. naive_solver.
    + rewrite lookup_insert_ne by done. naive_solver.
Qed.

(** The index lists the children of every block, and no empty lists. *)
Lemma children_index_spec bs p c : c ∈ default [] (children_index bs !! p) <-> child_of bs p c.
Proof.
  destruct (children_fold (map_to_list bs) ∅) as [_ Hc]; [done|]. unfold children_index. rewrite Hc.
  unfold child_of. setoid_rewrite elem_of_map_to_list. rewrite lookup_empty. cbn.
  rewrite elem_of_nil. naive_solver.
Qed.

Lemma children_index_nonempty bs p : children_index bs !! p <> Some [].
Proof. apply (children_fold (map_to_list bs) ∅). done. Qed.
End children.

(** ** Viability *)
Section viability.
  Context `{BeaconSpec} (st : Store).
  Local Abbreviation bs := (st_blocks st).

(** A block is viable when its payload is not invalid and it is a leaf with the
    right checkpoints, or has a viable child. *)
Inductive viable : Root -> Prop :=
  | viable_leaf r : is_Some (bs !! r) -> payload_invalid st r = false ->
      (forall c, ~ child_of bs r c) -> leaf_viable st r = true -> viable r
  | viable_inner r c : is_Some (bs !! r) -> payload_invalid st r = false ->
      child_of bs r c -> viable c -> viable r.

(** [viable_below r k]: [k] is reached from [r] through viable blocks. *)
Inductive viable_below : Root -> Root -> Prop :=
  | viable_below_self r : viable r -> viable_below r r
  | viable_below_child r c k : viable r -> child_of bs r c -> viable_below c k -> viable_below r k.

Lemma viable_below_viable r k : viable_below r k -> viable r /\ viable k.
Proof. induction 1; naive_solver. Qed.

Lemma viable_below_snoc r k c : viable_below r k -> child_of bs k c -> viable c -> viable_below r c.
Proof.
  induction 1; intros.
  - eapply viable_below_child; [done..|by constructor].
  - eapply viable_below_child; eauto.
Qed.

Lemma exists_cons {A} (P : A -> Prop) x l : (exists c, c ∈ x :: l /\ P c) <-> P x \/ exists c, c ∈ l /\ P c.
Proof.
  split; [intros (c & [->|?]%elem_of_cons & ?)|intros [?|(c & ? & ?)]]; eauto using list_elem_of_here, list_elem_of_further.
Qed.

(** What one call of [filter_block_tree] on [r] returns and collects. *)
Definition filter_ok (r : Root) (acc : gmap Root BeaconBlock) (res : bool * gmap Root BeaconBlock) : Prop :=
  (res.1 = true <-> viable r) /\
  forall k b, res.2 !! k = Some b <-> acc !! k = Some b \/ (bs !! k = Some b /\ viable_below r k).

Lemma filter_fold (f : Root -> gmap Root BeaconBlock -> bool * gmap Root BeaconBlock) l any acc :
  (forall c acc, c ∈ l -> acc ⊆ bs -> filter_ok c acc (f c acc)) -> acc ⊆ bs ->
  let res := foldl (fun '(any_viable, blocks) child =>
      let '(viable, blocks) := f child blocks in (any_viable || viable, blocks)) (any, acc) l in
  (res.1 = true <-> any = true \/ exists c, c ∈ l /\ viable c) /\
  forall k b, res.2 !! k = Some b <->
    acc !! k = Some b \/ (bs !! k = Some b /\ exists c, c ∈ l /\ viable_below c k).
Proof.
  revert any acc. induction l as [|c l IH]; intros any acc Hf Hacc; cbn.
  { split; [|intros k b]; (split; [by left|]).
    - intros [?|(c & []%not_elem_of_nil & _)]; done.
    - intros [?|(_ & c & []%not_elem_of_nil & _)]; done. }
  destruct (f c acc) as [v acc'] eqn:E. destruct (Hf c acc) as [Hv Hk]; [left|done|]. rewrite E in Hv, Hk. cbn in Hv, Hk.
  destruct (IH (any || v) acc') as [H1 H2].
  { intros; apply Hf; [by right|done]. }
  { apply map_subseteq_spec. intros k b [?|[? _]]%Hk; [by eapply map_subseteq_spec|done]. }
  split.
  - rewrite H1, orb_true_iff, Hv, exists_cons. tauto.
  - intros k b. rewrite H2, Hk, exists_cons. tauto.
Qed.

Context (Hold : parents_older bs).

Lemma viable_unfold r b :
  bs !! r = Some b -> payload_invalid st r = false ->
  (viable r <-> match default [] (children_index bs !! r) with
                | [] => leaf_viable st r = true
                | l => exists c, c ∈ l /\ viable c
                end).
Proof using.
  intros Hr Hp. pose proof (children_index_spec bs r) as Hc.
  destruct (default [] (children_index bs !! r)) as [|c0 l] eqn:E.
  - split.
    + inversion 1 as [|? c ? ? Hrc]; [done|]. apply Hc in Hrc. by apply not_elem_of_nil in Hrc.
    + intros Hl. apply viable_leaf; eauto. intros c Hrc. apply Hc in Hrc. by apply not_elem_of_nil in Hrc.
  - split.
    + inversion 1 as [? ? ? Hno|? c ? ? Hrc]; [|exists c; split; [by apply Hc|done]].
      destruct (Hno c0). apply Hc. left.
    + intros (c & Hin & Hv). eapply viable_inner; eauto. by apply Hc.
Qed.

Lemma viable_known r : viable r -> is_Some (bs !! r) /\ payload_invalid st r = false.
Proof using. by inversion 1. Qed.

Lemma viable_below_unfold r k :
  viable_below r k <-> viable r /\ (k = r \/ exists c, c ∈ default [] (children_index bs !! r) /\ viable_below c k).
Proof using.
  setoid_rewrite children_index_spec. split.
  - inversion 1; subst; eauto.
  - intros [Hv [->|(c & Hc & Hk)]]; [by constructor|by eapply viable_below_child].
Qed.

Lemma filter_rejects r acc acc' :
  ~ viable r -> (forall k x, acc' !! k = Some x <-> acc !! k = Some x) -> filter_ok r acc (false, acc').
Proof using.
  intros Hv Hk. split; cbn; [split; [done|tauto]|]. intros k b. rewrite Hk, viable_below_unfold. tauto.
Qed.

Lemma filter_accepts r b acc acc' (Q : Root -> Prop) :
  bs !! r = Some b -> acc ⊆ bs ->
  (forall k x, acc' !! k = Some x <-> acc !! k = Some x \/ (bs !! k = Some x /\ Q k)) ->
  viable r -> (forall k, viable_below r k <-> k = r \/ Q k) ->
  filter_ok r acc (true, <[r := b]> acc').
Proof using.
  intros Hr Hacc Hk Hv HQ. split; cbn; [tauto|]. intros k x. rewrite HQ.
  destruct (decide (k = r)) as [->|Hne].
  - rewrite lookup_insert_eq. split; [intros [= <-]; auto|].
    intros [Hx|[Hx _]]; [eapply map_subseteq_spec in Hx; [|done]|]; congruence.
  - rewrite lookup_insert_ne, Hk by done. tauto.
Qed.

Lemma filter_block_tree_ok fuel r acc :
  (match bs !! r with None => 0 | Some b => Datatypes.S (after bs (b_slot b)) end <= fuel)%nat -> acc ⊆ bs ->
  filter_ok r acc (filter_block_tree fuel st r acc (children_index bs)).
Proof using Hold.
  revert r acc. induction fuel as [|fuel IH]; intros r acc Hf Hacc; cbn [filter_block_tree].
  - apply filter_rejects; [|done]. intros [[b Hb] _]%viable_known. rewrite Hb in Hf. lia.
  - destruct (bs !! r) as [b|] eqn:Hr; [|apply filter_rejects; [intros [[? ?] _]%viable_known; congruence|done]].
    destruct (payload_invalid st r) eqn:Hp; [apply filter_rejects; [intros [_ ?]%viable_known; congruence|done]|].
    pose proof (viable_unfold r b Hr Hp) as Hv. pose proof (viable_below_unfold r) as Hb.
    pose proof (children_index_spec bs r) as Hc.
    destruct (default [] (children_index bs !! r)) as [|c0 l] eqn:E.
    + destruct (leaf_viable st r); [|by apply filter_rejects; [rewrite Hv|]].
      apply (filter_accepts r b acc acc (fun _ => False)); [done..|tauto|tauto|]. intros k. rewrite Hb.
      split; [|tauto]. intros (_ & [->|(c & Hn & _)]); [tauto|by apply not_elem_of_nil in Hn].
    + set (l' := c0 :: l) in *.
      destruct (filter_fold (fun c acc => filter_block_tree fuel st c acc (children_index bs)) l' false acc)
        as [H1 H2]; [|done|].
      { intros c acc0 Hin Hacc0. apply IH; [|done]. apply Hc in Hin as (cb & Hcb & <-).
        rewrite Hcb. pose proof (after_lt bs c cb (b_slot b) Hcb (Hold _ _ _ Hcb Hr)). lia. }
      destruct (foldl _ _ _) as [any acc'] eqn:Ef. cbn in H1, H2. destruct any.
      * assert (viable r) as Hvr by (apply Hv; by destruct (proj1 H1 eq_refl)).
        apply (filter_accepts r b acc acc' (fun k => exists c, c ∈ l' /\ viable_below c k)); [done..|]. intros k. rewrite Hb. tauto.
      * assert (~ exists c, c ∈ l' /\ viable c) as Hno by (intros Hx; assert (false = true) by tauto; done).
        apply filter_rejects; [tauto|]. intros k x. rewrite H2. split; [|tauto].
        intros [?|(_ & c & Hin & [Hcv _]%viable_below_viable)]; [done|]. destruct Hno; eauto.
Qed.

(** The filtered tree is the viable part of the tree below the base. *)
Lemma filtered_tree_spec r b :
  get_filtered_block_tree st !! r = Some b <-> bs !! r = Some b /\ viable_below (effective_base st) r.
Proof using Hold.
  unfold get_filtered_block_tree.
  destruct (filter_block_tree_ok (Datatypes.S (size bs)) (effective_base st) ∅) as [_ Hk].
  - destruct (bs !! effective_base st) as [b0|] eqn:E; [|lia]. pose proof (after_size _ _ _ E). lia.
  - apply map_empty_subseteq.
  - rewrite Hk, lookup_empty. naive_solver.
Qed.
End viability.

(** ** The order on (weight, root) *)
Section order.

Lemma root_leb_total a b : root_leb a b = true \/ root_leb b a = true.
Proof.
  revert b. induction a as [|x a IH]; intros [|y b]; cbn; auto.
  destruct (byte.unsigned x <? byte.unsigned y) eqn:E1, (byte.unsigned y <? byte.unsigned x) eqn:E2; zbool; auto; lia.
Qed.

Lemma root_leb_trans a b c : root_leb a b = true -> root_leb b c = true -> root_leb a c = true.
Proof.
  revert b c. induction a as [|x a IH]; intros [|y b] [|z c]; cbn; try done.
  destruct (Z.ltb_spec (byte.unsigned x) (byte.unsigned y)), (Z.ltb_spec (byte.unsigned y) (byte.unsigned x)),
    (Z.ltb_spec (byte.unsigned y) (byte.unsigned z)), (Z.ltb_spec (byte.unsigned z) (byte.unsigned y)),
    (Z.ltb_spec (byte.unsigned x) (byte.unsigned z)), (Z.ltb_spec (byte.unsigned z) (byte.unsigned x));
    try done; try lia; eauto.
Qed.

Lemma root_leb_antisym a b : root_leb a b = true -> root_leb b a = true -> a = b.
Proof.
  revert b. induction a as [|x a IH]; intros [|y b]; cbn; try done.
  destruct (Z.ltb_spec (byte.unsigned x) (byte.unsigned y)), (Z.ltb_spec (byte.unsigned y) (byte.unsigned x)); try done; try lia.
  intros H1 H2. f_equal; [|auto]. assert (byte.unsigned x = byte.unsigned y) as E by lia.
  rewrite <-(byte.of_Z_unsigned x), <-(byte.of_Z_unsigned y). by rewrite E.
Qed.

Lemma key_leb_spec k1 k2 :
  key_leb k1 k2 = true <-> k1.1 < k2.1 \/ (k1.1 = k2.1 /\ root_leb k1.2 k2.2 = true).
Proof. unfold key_leb. rewrite orb_true_iff, andb_true_iff, Z.ltb_lt, Z.eqb_eq. done. Qed.

Lemma key_leb_total k1 k2 : key_leb k1 k2 = true \/ key_leb k2 k1 = true.
Proof. rewrite !key_leb_spec. destruct (root_leb_total k1.2 k2.2), (Z.lt_total k1.1 k2.1) as [|[]]; auto. Qed.

Lemma key_leb_trans k1 k2 k3 : key_leb k1 k2 = true -> key_leb k2 k3 = true -> key_leb k1 k3 = true.
Proof.
  rewrite !key_leb_spec. intros [?|[? ?]] [?|[? ?]]; [left; lia..|].
  right. split; [lia|by eapply root_leb_trans].
Qed.

Lemma key_leb_antisym k1 k2 : key_leb k1 k2 = true -> key_leb k2 k1 = true -> k1 = k2.
Proof.
  rewrite !key_leb_spec. destruct k1 as [w1 r1], k2 as [w2 r2]; cbn.
  intros [?|[-> H1]] [?|[? H2]]; try lia. f_equal. by apply root_leb_antisym.
Qed.
End order.

(** ** The memo of weights *)
Section weights.
  Context `{BeaconSpec} (st : Store) (active : list Z).

Definition memo_ok (weights : gmap Root Z) : Prop :=
  forall r w, weights !! r = Some w -> w = get_weight_with st r active.

Lemma memo_weight_ok weights r :
  memo_ok weights -> memo_ok (memo_weight st active weights r).1 /\
    (memo_weight st active weights r).2 = get_weight_with st r active.
Proof.
  intros Hm. unfold memo_weight. destruct (weights !! r) as [w|] eqn:E; cbn; [auto|].
  split; [|done]. intros r' w'. destruct (decide (r' = r)) as [->|].
  - by rewrite lookup_insert_eq; intros [= <-].
  - rewrite lookup_insert_ne by done. apply Hm.
Qed.

Definition weight_key (r : Root) : Z * Root := (get_weight_with st r active, r).

Lemma max_fold l weights best :
  memo_ok weights ->
  let res := foldl (fun '(weights, best) root =>
      let '(weights, w) := memo_weight st active weights root in
      (weights, match best with
                | Some k => if key_leb k (w, root) then Some (w, root) else Some k
                | None => Some (w, root)
                end)) (weights, best) l in
  memo_ok res.1 /\
  (res.2 = None -> best = None /\ l = []) /\
  forall k, res.2 = Some k ->
    (best = Some k \/ exists r, r ∈ l /\ k = weight_key r) /\
    (forall k', best = Some k' -> key_leb k' k = true) /\ (forall r, r ∈ l -> key_leb (weight_key r) k = true).
Proof.
  assert (forall k, key_leb k k = true) as Hrefl by (intros k; by destruct (key_leb_total k k)).
  revert weights best. induction l as [|r l IH]; intros weights best Hm; cbn.
  { split_and!; [done..|]. intros k ->. split_and!; [by left|by intros ? [= <-]|].
    by intros ? []%not_elem_of_nil. }
  destruct (memo_weight_ok weights r Hm) as [Hm' Hw].
  destruct (memo_weight st active weights r) as [weights' w]. cbn in Hm', Hw. subst w.
  change (get_weight_with st r active, r) with (weight_key r).
  set (best' := match best with Some k => _ | None => _ end).
  assert (exists kb, best' = Some kb /\ (best = Some kb \/ kb = weight_key r) /\
            (forall k', best = Some k' -> key_leb k' kb = true) /\ key_leb (weight_key r) kb = true) as (kb & Hkb & Hor & Hge & Hr).
  { unfold best'. destruct best as [k|]; [|exists (weight_key r); naive_solver].
    destruct (key_leb k (weight_key r)) eqn:E; [exists (weight_key r)|exists k]; split_and!; auto; try (intros ? [= <-]; auto).
    by destruct (key_leb_total k (weight_key r)); [congruence|]. }
  rewrite Hkb. destruct (IH weights' (Some kb) Hm') as (H1 & H2 & H3). split_and!; [done|by intros [? _]%H2|].
  intros k Hk. destruct (H3 k Hk) as (Ho & Hb & Hl). specialize (Hb kb eq_refl). split_and!.
  - destruct Ho as [[= <-]|(r' & ? & ->)].
    + destruct Hor as [?| ->]; [by left|]. right. exists r. split; [left|done].
    + right. exists r'. split; [by right|done].
  - intros k' Hk'. apply (key_leb_trans k' kb k); auto.
  - intros r' [->|?]%elem_of_cons; [by apply (key_leb_trans _ kb k)|auto].
Qed.

(** [max_by_key] with the memo picks the child with the greatest pair of weight
    and root. *)
Lemma max_by_weight_ok weights l :
  memo_ok weights -> l <> [] ->
  exists weights' c, max_by_weight st active weights l = (weights', Some (weight_key c)) /\ memo_ok weights' /\
    c ∈ l /\ forall r, r ∈ l -> key_leb (weight_key r) (weight_key c) = true.
Proof.
  intros Hm Hl. destruct (max_fold l weights None Hm) as (H1 & H2 & H3). unfold max_by_weight.
  destruct (foldl _ _ _) as [weights' [k|]]; cbn in *; [|by destruct (H2 eq_refl)].
  destruct (H3 k eq_refl) as ([?|(c & Hc & ->)] & _ & Hge); [done|]. eauto 10.
Qed.
End weights.

(** ** LMD-GHOST *)
Section ghost.
  Context `{BeaconSpec} (st : Store).
  Local Abbreviation bs := (st_blocks st).

(** A viable child of a viable block. *)
Definition ghost_child (r c : Root) : Prop := viable st r /\ child_of bs r c /\ viable st c.

(** Going from [r] to the child of greatest weight, ties to the greater root,
    until there is none, ends at [h]. *)
Inductive ghost : Root -> Root -> Prop :=
  | ghost_end r : (forall c, ~ ghost_child r c) -> ghost r r
  | ghost_step r c h : ghost_child r c ->
      (forall c', ghost_child r c' -> key_leb (get_weight st c', c') (get_weight st c, c) = true) ->
      ghost c h -> ghost r h.

Lemma ghost_deterministic r h h' : ghost r h -> ghost r h' -> h = h'.
Proof.
  intros Hg. revert h'. induction Hg as [r Hno|r c h Hc Hmax _ IH]; intros h' Hg'.
  - inversion Hg' as [|? c]; [done|]. by destruct (Hno c).
  - inversion Hg' as [? Hno|? c' ? Hc' Hmax']; subst; [by destruct (Hno c)|].
    pose proof (key_leb_antisym _ _ (Hmax c' Hc') (Hmax' c Hc)) as [= _ ->]. auto.
Qed.

Context (Hold : parents_older bs).
Local Abbreviation tree := (get_filtered_block_tree st).

Lemma filtered_older : parents_older tree.
Proof using Hold.
  intros r b p [Hr _]%filtered_tree_spec [Hp _]%filtered_tree_spec; [|done..]. by eapply Hold.
Qed.

(** Below the base, the children the descent looks at are the viable ones. *)
Lemma filtered_children r c :
  (r = effective_base st \/ viable_below st (effective_base st) r) -> child_of tree r c <-> ghost_child r c.
Proof using Hold.
  intros Hr. split.
  - intros (b & [Hb Hc]%filtered_tree_spec & <-); [|done].
    destruct (viable_below_viable _ _ _ Hc) as [Hbase Hv].
    split_and!; [|by exists b|done]. destruct Hr as [->|Hr]; [done|by apply (viable_below_viable _ _ _ Hr)].
  - intros (Hvr & (b & Hb & Hp) & Hv). exists b. split; [|done]. apply filtered_tree_spec; [done|].
    split; [done|]. eapply viable_below_snoc; [|by exists b|done].
    destruct Hr as [->|]; [by constructor|done].
Qed.

Lemma head_loop_ghost fuel weights r :
  memo_ok st (active_indices_for_justified st) weights ->
  (r = effective_base st \/ viable_below st (effective_base st) r) ->
  (match tree !! r with None => 0 | Some b => after tree (b_slot b) end < fuel)%nat ->
  exists h, head_loop fuel st (active_indices_for_justified st) (children_index tree) weights r = Some h /\ ghost r h.
Proof using Hold.
  revert weights r. induction fuel as [|fuel IH]; intros weights r Hm Hr Hf; [lia|]. cbn [head_loop].
  pose proof (children_index_spec tree r) as Hc. setoid_rewrite (fun c => filtered_children r c Hr) in Hc.
  destruct (children_index tree !! r) as [l|] eqn:E; cbn in Hc.
  - destruct (max_by_weight_ok st (active_indices_for_justified st) weights l Hm) as (w' & c & -> & Hm' & Hin & Hmax).
    { intros ->. by eapply children_index_nonempty. }
    cbn. pose proof (proj1 (Hc c) Hin) as Hg.
    assert (viable_below st (effective_base st) c) as Hvc.
    { destruct Hg as (Hvr & Hrc & Hv). eapply viable_below_snoc; [|done..].
      destruct Hr as [->|]; [by constructor|done]. }
    destruct (IH w' c Hm' (or_intror Hvc)) as (h & Hh & Hgh).
    { destruct Hg as (Hvr & (b & Hb & Hp) & Hv).
      assert (tree !! c = Some b) as Htc by (by apply filtered_tree_spec).
      destruct (viable_known _ _ Hvr) as [[rb Hrb] _].
      assert (tree !! r = Some rb) as Htr.
      { apply filtered_tree_spec; [done|]. split; [done|]. destruct Hr as [->|]; [by constructor|done]. }
      rewrite Htc. rewrite Htr in Hf. subst r.
      pose proof (after_lt tree c b (b_slot rb) Htc (Hold _ _ _ Hb Hrb)). lia. }
    exists h. split; [done|]. eapply ghost_step; [done| |done].
    intros c' Hc'. by apply (Hmax c'), Hc.
  - exists r. split; [done|]. constructor. intros c Hg. apply Hc in Hg. by apply not_elem_of_nil in Hg.
Qed.

Lemma get_head_ok {E : Type} :
  exists h, get_head (E:=E) st = Ok h /\ ghost (effective_base st) h /\
    forall h', ghost (effective_base st) h' -> h' = h.
Proof using Hold.
  destruct (head_loop_ghost (Datatypes.S (size tree)) ∅ (effective_base st)) as (h & Hh & Hg).
  - intros r w Hw. by rewrite lookup_empty in Hw.
  - by left.
  - destruct (tree !! effective_base st) as [b|] eqn:Eb; [|lia]. pose proof (after_size _ _ _ Eb). lia.
  - exists h. unfold get_head. rewrite Hh. split_and!; [done..|]. intros h' Hg'. by eapply ghost_deterministic.
Qed.

(** C3: LMD-GHOST.  On a store whose parents are older than their children,
    [get_head] returns, and returns what the greedy rule gives: from the base,
    repeatedly the viable child with the greatest weight, ties to the greater
    root, until no viable child is left.  The rule has one outcome, so the
    head depends on neither the iteration order of the maps nor the memo. *)
Theorem get_head_ghost {E : Type} :
  exists h, get_head (E:=E) st = Ok h /\ ghost (effective_base st) h /\
    forall h', ghost (effective_base st) h' -> h' = h.
Proof using Hold. apply get_head_ok. Qed.
End ghost.

(** ** Votes *)
Section votes.
  Context `{S : BeaconSpec} `{!SpecOk S} (st : Store).
  Local Abbreviation bs := (st_blocks st).

(** The walk from a descendant of [r] to the slot of [r] and on to the slot of
    an ancestor [a] of [r] is the walk to the slot of [a]. *)
Lemma get_ancestor_inherited m r a b c :
  parents_older bs -> bs !! r = Some b -> bs !! a = Some c -> ancestor bs r a ->
  get_ancestor st m (b_slot b) = r -> get_ancestor st m (b_slot c) = a.
Proof.
  intros Hold Hr Ha Hra Hm. apply get_ancestor_unique; [done|].
  destruct (get_ancestor_first st Hold m (b_slot b)) as (H1 & _ & H3). rewrite Hm in H1, H3. clear Hm.
  split_and!; [by eapply ancestor_trans|intros; by simplify_eq|].
  intros x Hmx Hxa Hne. destruct (ancestor_slot bs Hold r a c Ha Hra) as [<-|(b' & ? & Hs)].
  - simplify_eq. by apply H3.
  - simplify_eq. destruct (decide (x = r)) as [->|Hxr]; [by exists b|].
    destruct (ancestor_linear bs m x r Hmx H1) as [Hxr'|Hrx].
    + destruct (H3 x Hmx Hxr' Hxr) as (bx & ? & ?). exists bx. split; [done|lia].
    + destruct (ancestor_slot bs Hold x a c Ha Hxa) as [->|(bx & ? & ?)]; [done|]. by exists bx.
Qed.

Lemma votes_for_inherited r a b c i :
  parents_older bs -> bs !! r = Some b -> bs !! a = Some c -> ancestor bs r a ->
  votes_for st r i = true -> votes_for st a i = true.
Proof.
  unfold votes_for, block_slot_or_zero. intros Hold Hr Ha Hra. rewrite Hr, Ha. cbn.
  destruct (st_latest_messages st !! i) as [m|]; [|by rewrite !andb_false_r].
  rewrite !andb_true_iff. intros [? Hm]. split; [done|].
  apply bool_decide_eq_true in Hm. apply bool_decide_eq_true. by apply (get_ancestor_inherited _ r a b c).
Qed.

Lemma zsum_filter_le (f : Z -> Z) (P Q : Z -> bool) M l :
  (forall i, 0 <= f i <= M) -> (forall i, P i = true -> Q i = true) ->
  0 <= zsum (f <$> filter (fun i => P i = true) l) <= zsum (f <$> filter (fun i => Q i = true) l) /\
  zsum (f <$> filter (fun i => Q i = true) l) <= zlen l * M.
Proof.
  intros Hf HPQ. unfold zsum. induction l as [|x l IH]; [done|]. rewrite !filter_cons, zlen_cons. specialize (Hf x).
  destruct (decide (P x = true)) as [HP|];
    [rewrite (decide_True (P := Q x = true)) by auto|destruct (decide (Q x = true))];
    cbn [fmap list_fmap foldr]; lia.
Qed.

(** Votes are inherited.  Every vote for a block is a vote for each of its
    known ancestors: as long as the balances of the active validators do not
    overflow a u64 together, the attestation score of a block is at most that
    of any of its ancestors. *)
Theorem votes_inherited s active r a b c :
  parents_older bs -> wf_state s -> zlen active * MAX_EFFECTIVE_BALANCE < U64 ->
  bs !! r = Some b -> bs !! a = Some c -> ancestor bs r a ->
  get_attestation_score st r s active <= get_attestation_score st a s active.
Proof.
  intros Hold Hw Hn Hr Ha Hra. unfold get_attestation_score. rewrite !list_filter_filter.
  set (f := fun i => default 0 (v_effective_balance <$> validator s i)).
  assert (forall i, 0 <= f i <= MAX_EFFECTIVE_BALANCE) as Hf.
  { intros i. unfold f. pose proof increment_pos. destruct (validator s i) as [v|] eqn:Ev; cbn; [|lia].
    by destruct (wf_validator _ _ _ Hw Ev). }
  set (P r i := (votes_for st r i && unslashed_at s i)).
  assert (forall r, filter (fun i => votes_for st r i = true /\ unslashed_at s i = true) active
                    = filter (fun i => P r i = true) active) as HP.
  { intros r'. apply list_filter_iff. intros i. unfold P. by rewrite andb_true_iff. }
  rewrite !HP. destruct (zsum_filter_le f (P r) (P a) MAX_EFFECTIVE_BALANCE active Hf) as [Hle Hmax].
  { unfold P. intros i. rewrite !andb_true_iff. intros [? ?]. split; [by apply (votes_for_inherited r a b c)|done]. }
  rewrite !wsum_no_wrap; try lia; apply Forall_fmap, Forall_true; intros i; apply (Hf i).
Qed.
End votes.

(** ** The proposer's head *)
Section proposer_head.
  Context `{BeaconSpec} (st : Store).

Lemma is_head_weak_memo r :
  let res := is_head_weak_with st r (active_indices_for_justified st) ∅ in
  memo_ok st (active_indices_for_justified st) res.1 /\ res.2 = is_head_weak st r.
Proof.
  cbn zeta. split; [|done]. unfold is_head_weak_with.
  assert (memo_ok st (active_indices_for_justified st) ∅) as Hm by (intros ? ? Hw; by rewrite lookup_empty in Hw).
  destruct (_ !! st_justified st); [|done].
  destruct (memo_weight_ok st (active_indices_for_justified st) ∅ r Hm) as [Hm' _].
  by destruct (memo_weight _ _ _ _).
Qed.

Lemma is_parent_strong_memo r weights :
  memo_ok st (active_indices_for_justified st) weights ->
  (is_parent_strong_with st r (active_indices_for_justified st) weights).2 = is_parent_strong st r.
Proof.
  assert (memo_ok st (active_indices_for_justified st) ∅) as He by (intros ? ? Hw; by rewrite lookup_empty in Hw).
  intros Hm. unfold is_parent_strong, is_parent_strong_with.
  destruct (_ !! st_justified st) as [s|]; [|done]. destruct (st_blocks st !! r) as [rb|]; [|done].
  destruct (memo_weight_ok _ _ _ (b_parent_root rb) Hm) as [_ H1].
  destruct (memo_weight_ok _ _ _ (b_parent_root rb) He) as [_ H2].
  destruct (memo_weight _ _ weights _), (memo_weight _ _ ∅ _). cbn in *. by rewrite H1, H2.
Qed.

(** The shared active set and memo do not change the decision: the proposer
    builds on the parent exactly when the boost has worn off and either all
    conditions of a single-slot re-org hold or a weak head equivocates. *)
Theorem proposer_head_decision head_root sl hb pb :
  st_blocks st !! head_root = Some hb -> st_blocks st !! b_parent_root hb = Some pb ->
  get_proposer_head st head_root sl =
    let current_time_ok := wadd (b_slot hb) 1 =? sl in
    let single_slot := (wadd (b_slot pb) 1 =? b_slot hb) && current_time_ok in
    if negb (bool_decide (st_proposer_boost_root st = head_root)) && is_head_weak st head_root &&
       ((is_head_late st head_root && is_shuffling_stable sl && is_ffg_competitive st head_root (b_parent_root hb)
         && is_finalization_ok st sl && is_proposing_on_time st && single_slot && is_parent_strong st head_root)
        || (current_time_ok && is_proposer_equivocation st head_root))
    then b_parent_root hb else head_root.
Proof.
  intros Hh Hp. unfold get_proposer_head. rewrite Hh, Hp. cbn zeta.
  case_bool_decide; [done|]. cbn [negb andb].
  destruct (is_head_weak_memo head_root) as [Hm Hw].
  destruct (is_head_weak_with _ _ _ _) as [weights weak]. cbn in Hm, Hw. subst weak.
  pose proof (is_parent_strong_memo head_root weights Hm) as Hs.
  destruct (is_parent_strong_with _ _ _ _) as [w strong]. cbn in Hs. subst strong.
  destruct (is_head_weak st head_root); cbn [andb]; rewrite ?andb_true_r, ?andb_false_r; cbn [andb]; [|done].
  by destruct (is_head_late _ _ && _ && _ && _ && _ && _ && _), (_ && is_proposer_equivocation _ _).
Qed.
End proposer_head.
