(* ===== verification/ForkHandlers.v ===== *)
(** * Fork-choice handlers

    crates/pharos-fork-choice/src/handlers.rs on the phase 0 store:
    [on_tick], [on_block], [on_attestation] and [on_attester_slashing] with
    their helpers, and [get_forkchoice_store].

    A handler returns the store it leaves behind beside its outcome: what it has
    written before an error stays written.  [is_merge_transition_block] is false
    for phase 0 blocks, so the proof-of-work guard of [on_block] does not run. *)

From Stdlib Require Import ZArith Lia.
From S2P Require Import Prelude SszCodec SszBitfield SszTypes Merkle SszTree Shuffling Spec BeaconState Invariant Roots Accessors Mutators Justification Rewards EpochUpdates Operations Transition ForkStore ForkHead.

(** ** error.rs *)

(** The [reason] strings. *)
Inductive InvalidReason : Type :=
  | NotFinalizedDescendant
  | TargetEpochNotRecent (target current previous : Z)
  | TargetEpochNotOfSlot (target sl expected : Z)
  | AttestedBlockTooNew (attested sl : Z)
  | TargetNotCheckpoint
  | AttestationNotPast (sl current : Z)
  | InvalidIndexedSignature
  | DataNotSlashable
  | Attestation1Invalid
  | Attestation2Invalid.

Inductive ForkChoiceError : Type :=
  | FcInvalidBlock (reason : InvalidReason)
  | FcInvalidAttestation (reason : InvalidReason)
  | FcMissingBlock (root : Root)
  | FcBeforeFinalized (sl finalized_slot : Z)
  | FcFutureSlot (current block_slot : Z)
  | FcStateTransition (e : StateTransitionError)
  | FcEpochProcessing (e : EpochProcessingError).

(** ** Field updates *)
Definition set_st_time (st : Store) (x : Z) : Store :=
  mkStore x (st_genesis_time st) (st_justified st) (st_finalized st) (st_unrealized_justified st)
    (st_unrealized_finalized st) (st_proposer_boost_root st) (st_equivocating st) (st_blocks st)
    (st_block_states st) (st_block_timeliness st) (st_checkpoint_states st) (st_latest_messages st)
    (st_unrealized_justifications st) (st_payload_statuses st) (st_seconds_per_slot st).
Definition set_st_justified (st : Store) (x : Checkpoint) : Store :=
  mkStore (st_time st) (st_genesis_time st) x (st_finalized st) (st_unrealized_justified st)
    (st_unrealized_finalized st) (st_proposer_boost_root st) (st_equivocating st) (st_blocks st)
    (st_block_states st) (st_block_timeliness st) (st_checkpoint_states st) (st_latest_messages st)
    (st_unrealized_justifications st) (st_payload_statuses st) (st_seconds_per_slot st).
Definition set_st_finalized (st : Store) (x : Checkpoint) : Store :=
  mkStore (st_time st) (st_genesis_time st) (st_justified st) x (st_unrealized_justified st)
    (st_unrealized_finalized st) (st_proposer_boost_root st) (st_equivocating st) (st_blocks st)
    (st_block_states st) (st_block_timeliness st) (st_checkpoint_states st) (st_latest_messages st)
    (st_unrealized_justifications st) (st_payload_statuses st) (st_seconds_per_slot st).
Definition set_st_unrealized_justified (st : Store) (x : Checkpoint) : Store :=
  mkStore (st_time st) (st_genesis_time st) (st_justified st) (st_finalized st) x
    (st_unrealized_finalized st) (st_proposer_boost_root st) (st_equivocating st) (st_blocks st)
    (st_block_states st) (st_block_timeliness st) (st_checkpoint_states st) (st_latest_messages st)
    (st_unrealized_justifications st) (st_payload_statuses st) (st_seconds_per_slot st).
Definition set_st_unrealized_finalized (st : Store) (x : Checkpoint) : Store :=
  mkStore (st_time st) (st_genesis_time st) (st_justified st) (st_finalized st)
    (st_unrealized_justified st) x (st_proposer_boost_root st) (st_equivocating st) (st_blocks st)
    (st_block_states st) (st_block_timeliness st) (st_checkpoint_states st) (st_latest_messages st)
    (st_unrealized_justifications st) (st_payload_statuses st) (st_seconds_per_slot st).
Definition set_st_proposer_boost_root (st : Store) (x : Root) : Store :=
  mkStore (st_time st) (st_genesis_time st) (st_justified st) (st_finalized st)
    (st_unrealized_justified st) (st_unrealized_finalized st) x (st_equivocating st) (st_blocks st)
    (st_block_states st) (st_block_timeliness st) (st_checkpoint_states st) (st_latest_messages st)
    (st_unrealized_justifications st) (st_payload_statuses st) (st_seconds_per_slot st).
Definition set_st_equivocating (st : Store) (x : gset Z) : Store :=
  mkStore (st_time st) (st_genesis_time st) (st_justified st) (st_finalized st)
    (st_unrealized_justified st) (st_unrealized_finalized st) (st_proposer_boost_root st) x
    (st_blocks st) (st_block_states st) (st_block_timeliness st) (st_checkpoint_states st)
    (st_latest_messages st) (st_unrealized_justifications st) (st_payload_statuses st)
    (st_seconds_per_slot st).
Definition set_st_blocks (st : Store) (x : gmap Root BeaconBlock) : Store :=
  mkStore (st_time st) (st_genesis_time st) (st_justified st) (st_finalized st)
    (st_unrealized_justified st) (st_unrealized_finalized st) (st_proposer_boost_root st)
    (st_equivocating st) x (st_block_states st) (st_block_timeliness st) (st_checkpoint_states st)
    (st_latest_messages st) (st_unrealized_justifications st) (st_payload_statuses st)
    (st_seconds_per_slot st).
Definition set_st_block_states (st : Store) (x : gmap Root BeaconState) : Store :=
  mkStore (st_time st) (st_genesis_time st) (st_justified st) (st_finalized st)
    (st_unrealized_justified st) (st_unrealized_finalized st) (st_proposer_boost_root st)
    (st_equivocating st) (st_blocks st) x (st_block_timeliness st) (st_checkpoint_states st)
    (st_latest_messages st) (st_unrealized_justifications st) (st_payload_statuses st)
    (st_seconds_per_slot st).
Definition set_st_block_timeliness (st : Store) (x : gmap Root bool) : Store :=
  mkStore (st_time st) (st_genesis_time st) (st_justified st) (st_finalized st)
    (st_unrealized_justified st) (st_unrealized_finalized st) (st_proposer_boost_root st)
    (st_equivocating st) (st_blocks st) (st_block_states st) x (st_checkpoint_states st)
    (st_latest_messages st) (st_unrealized_justifications st) (st_payload_statuses st)
    (st_seconds_per_slot st).
Definition set_st_checkpoint_states (st : Store) (x : gmap Checkpoint BeaconState) : Store :=
  mkStore (st_time st) (st_genesis_time st) (st_justified st) (st_finalized st)
    (st_unrealized_justified st) (st_unrealized_finalized st) (st_proposer_boost_root st)
    (st_equivocating st) (st_blocks st) (st_block_states st) (st_block_timeliness st) x
    (st_latest_messages st) (st_unrealized_justifications st) (st_payload_statuses st)
    (st_seconds_per_slot st).
Definition set_st_latest_messages (st : Store) (x : gmap Z LatestMessage) : Store :=
  mkStore (st_time st) (st_genesis_time st) (st_justified st) (st_finalized st)
    (st_unrealized_justified st) (st_unrealized_finalized st) (st_proposer_boost_root st)
    (st_equivocating st) (st_blocks st) (st_block_states st) (st_block_timeliness st)
    (st_checkpoint_states st) x (st_unrealized_justifications st) (st_payload_statuses st)
    (st_seconds_per_slot st).
Definition set_st_unrealized_justifications (st : Store) (x : gmap Root Checkpoint) : Store :=
  mkStore (st_time st) (st_genesis_time st) (st_justified st) (st_finalized st)
    (st_unrealized_justified st) (st_unrealized_finalized st) (st_proposer_boost_root st)
    (st_equivocating st) (st_blocks st) (st_block_states st) (st_block_timeliness st)
    (st_checkpoint_states st) (st_latest_messages st) x (st_payload_statuses st)
    (st_seconds_per_slot st).
Definition set_st_payload_statuses (st : Store) (x : gmap Root PayloadStatus) : Store :=
  mkStore (st_time st) (st_genesis_time st) (st_justified st) (st_finalized st)
    (st_unrealized_justified st) (st_unrealized_finalized st) (st_proposer_boost_root st)
    (st_equivocating st) (st_blocks st) (st_block_states st) (st_block_timeliness st)
    (st_checkpoint_states st) (st_latest_messages st) (st_unrealized_justifications st) x
    (st_seconds_per_slot st).

(** ** handlers.rs *)
Definition update_checkpoints (st : Store) (justified finalized : Checkpoint) : Store :=
  let st := if cp_epoch (st_justified st) <? cp_epoch justified
            then set_st_justified st justified else st in
  if cp_epoch (st_finalized st) <? cp_epoch finalized then set_st_finalized st finalized else st.

Definition update_unrealized_checkpoints (st : Store) (justified finalized : Checkpoint) : Store :=
  let st := if cp_epoch (st_unrealized_justified st) <? cp_epoch justified
            then set_st_unrealized_justified st justified else st in
  if cp_epoch (st_unrealized_finalized st) <? cp_epoch finalized
  then set_st_unrealized_finalized st finalized else st.

Definition mark_payload_status (st : Store) (root : Root) (status : PayloadStatus) : Store :=
  set_st_payload_statuses st (<[root := status]> (st_payload_statuses st)).

Definition mark_payload_status_if_absent (st : Store) (root : Root) (status : PayloadStatus) : Store :=
  match st_payload_statuses st !! root with
  | Some _ => st
  | None => set_st_payload_statuses st (<[root := status]> (st_payload_statuses st))
  end.

(** What a handler leaves and returns. *)
Abbreviation outcome := (Store * result ForkChoiceError unit)%type.

(** [expr?] in a handler: an error ends it with the store as it is. *)
Definition try_ {A} (st : Store) (m : result ForkChoiceError A) (k : A -> outcome) : outcome :=
  match m with
  | Ok a => k a
  | Err e => (st, Err e)
  | Panic => (st, Panic)
  end.

(** One turn of the loop of [update_latest_messages_data]. *)
Definition update_latest_message (data : AttestationData) (st : Store) (i : Z) : Store :=
  if bool_decide (i ∈ st_equivocating st) then st
  else
    let should_update := match st_latest_messages st !! i with
                         | Some msg => lm_epoch msg <? cp_epoch (ad_target data)
                         | None => true
                         end in
    if should_update then
      set_st_latest_messages st
        (<[i := mkLatestMessage (cp_epoch (ad_target data)) (ad_beacon_block_root data)]> (st_latest_messages st))
    else st.

Definition update_latest_messages (st : Store) (attesting_indices : list Z) (data : AttestationData) : Store :=
  foldl (update_latest_message data) st attesting_indices.

Section handlers.
  Context `{Crypto} `{BeaconSpec}.
  Implicit Types st : Store.

(** [process_slots_fork] on a phase 0 state of a network without later forks:
    one turn of its loop reaches the target. *)
Definition process_slots_fork (s : BeaconState) (target_slot : Z) : result StateTransitionError BeaconState :=
  if target_slot <=? slot s then Ok s else process_slots s target_slot.

Definition compute_pulled_up_tip st (root : Root) : outcome :=
  try_ st (ok_or (st_block_states st !! root) (FcMissingBlock root)) (fun state =>
  try_ st (map_err FcEpochProcessing (process_justification_and_finalization state)) (fun state =>
    let unrealized_justified := current_justified_checkpoint state in
    let unrealized_finalized := finalized_checkpoint state in
    let st := set_st_unrealized_justifications st
                (<[root := unrealized_justified]> (st_unrealized_justifications st)) in
    let st := update_unrealized_checkpoints st unrealized_justified unrealized_finalized in
    let block_epoch := default 0 ((fun b => compute_epoch_at_slot (b_slot b) SLOTS_PER_EPOCH)
                                    <$> st_blocks st !! root) in
    let current_epoch := get_current_store_epoch st in
    let st := if block_epoch <? current_epoch
              then update_checkpoints st unrealized_justified unrealized_finalized else st in
    (st, Ok tt))).

Definition on_tick_per_slot st (time : Z) : Store :=
  let previous_slot := get_current_slot st in
  let st := set_st_time st time in
  let current_slot := get_current_slot st in
  let st := if previous_slot <? current_slot then set_st_proposer_boost_root st zero_chunk else st in
  if (previous_slot <? current_slot) && (compute_slots_since_epoch_start current_slot =? 0)
  then update_checkpoints st (st_unrealized_justified st) (st_unrealized_finalized st) else st.

(** [while get_current_slot(store).0 < tick_slot]. *)
Fixpoint tick_loop (fuel : nat) (slot_ms tick_slot : Z) st : Store :=
  match fuel with
  | O => st
  | Datatypes.S fuel =>
      if get_current_slot st <? tick_slot then
        let previous_time := slot_start_time (wadd (get_current_slot st) 1) (st_genesis_time st) slot_ms in
        tick_loop fuel slot_ms tick_slot (on_tick_per_slot st previous_time)
      else st
  end.

(** Every turn advances the store by one slot. *)
Definition on_tick st (time : Z) : Store :=
  let slot_ms := store_slot_ms st in
  let tick_slot := slot_from_time time (st_genesis_time st) slot_ms in
  let st := tick_loop (Z.to_nat (tick_slot - get_current_slot st)) slot_ms tick_slot st in
  on_tick_per_slot st time.

Definition record_block_timeliness st (root : Root) : Store :=
  let block_slot := block_slot_or_zero st root in
  let time_into_slot_ms := time_into_current_slot_ms st in
  let attestation_threshold_ms := get_slot_component_duration_ms ATTESTATION_DUE_BPS in
  let is_before_attesting_interval := time_into_slot_ms <? attestation_threshold_ms in
  let is_timely := (get_current_slot st =? block_slot) && is_before_attesting_interval in
  set_st_block_timeliness st (<[root := is_timely]> (st_block_timeliness st)).

Definition update_proposer_boost_root st (root : Root) : outcome :=
  let is_first_block := bool_decide (st_proposer_boost_root st = zero_chunk) in
  let is_timely := default false (st_block_timeliness st !! root) in
  if is_timely && is_first_block then
    try_ st (get_head st) (fun head_root =>
    match st_block_states st !! head_root with
    | None => (st, Ok tt)
    | Some head_state =>
        let sl := get_current_slot st in
        let advanced := if slot head_state <? sl then process_slots_fork head_state sl else Ok head_state in
        match advanced with
        | Err _ => (st, Ok tt)
        | Panic => (st, Panic)
        | Ok head_state =>
            match st_blocks st !! root with
            | None => (st, Ok tt)
            | Some block =>
                try_ st (get_beacon_proposer_index head_state) (fun computed_proposer =>
                  if b_proposer_index block =? computed_proposer
                  then (set_st_proposer_boost_root st root, Ok tt) else (st, Ok tt))
            end
        end
    end)
  else (st, Ok tt).

(** The checks of [on_block]: the root of an acceptable block. *)
Definition check_block st (block : BeaconBlock) : result ForkChoiceError Root :=
  _ ← ok_or (st_block_states st !! b_parent_root block) (FcMissingBlock (b_parent_root block));
  let current_slot := get_current_slot st in
  if current_slot <? b_slot block then Err (FcFutureSlot current_slot (b_slot block))
  else
    let finalized_slot := compute_start_slot_at_epoch (cp_epoch (st_finalized st)) SLOTS_PER_EPOCH in
    if b_slot block <=? finalized_slot then Err (FcBeforeFinalized (b_slot block) finalized_slot)
    else
      let finalized_checkpoint_block :=
        get_checkpoint_block st (b_parent_root block) (cp_epoch (st_finalized st)) in
      if negb (bool_decide (cp_root (st_finalized st) = finalized_checkpoint_block))
      then Err (FcInvalidBlock NotFinalizedDescendant)
      else root_value (block_root block).

(** The writes of [on_block] up to the proposer boost. *)
Definition insert_block st (root : Root) (block : BeaconBlock) (post_state : BeaconState) (now : Z) : Store :=
  let st := set_st_blocks st (<[root := block]> (st_blocks st)) in
  let st := set_st_block_states st (<[root := post_state]> (st_block_states st)) in
  let st := mark_payload_status_if_absent st root NotValidated in
  let saved_time := st_time st in
  let st := set_st_time st now in
  let st := record_block_timeliness st root in
  set_st_time st saved_time.

Definition on_block st (signed_block : SignedBeaconBlock) (post_state : BeaconState) (now : Z) : outcome :=
  let block := sb_message signed_block in
  try_ st (check_block st block) (fun root =>
    let st := insert_block st root block post_state now in
    let '(st, boost) := update_proposer_boost_root st root in
    try_ st boost (fun _ =>
      let st := update_checkpoints st (current_justified_checkpoint post_state)
                  (finalized_checkpoint post_state) in
      compute_pulled_up_tip st root)).

Definition validate_target_epoch_against_current_time st (data : AttestationData)
    : result ForkChoiceError unit :=
  let target := ad_target data in
  let current_epoch := get_current_store_epoch st in
  let previous_epoch := if GENESIS_EPOCH <? current_epoch then current_epoch - 1 else GENESIS_EPOCH in
  if negb (cp_epoch target =? current_epoch) && negb (cp_epoch target =? previous_epoch)
  then Err (FcInvalidAttestation (TargetEpochNotRecent (cp_epoch target) current_epoch previous_epoch))
  else Ok tt.

Definition validate_on_attestation st (data : AttestationData) (is_from_block : bool)
    : result ForkChoiceError unit :=
  let target := ad_target data in
  _ ← (if negb is_from_block then validate_target_epoch_against_current_time st data else Ok tt);
  let expected_epoch := compute_epoch_at_slot (ad_slot data) SLOTS_PER_EPOCH in
  if negb (cp_epoch target =? expected_epoch)
  then Err (FcInvalidAttestation (TargetEpochNotOfSlot (cp_epoch target) (ad_slot data) expected_epoch))
  else if negb (bool_decide (is_Some (st_blocks st !! cp_root target)))
  then Err (FcMissingBlock (cp_root target))
  else if negb (bool_decide (is_Some (st_blocks st !! ad_beacon_block_root data)))
  then Err (FcMissingBlock (ad_beacon_block_root data))
  else
    let attested_slot := block_slot_or_zero st (ad_beacon_block_root data) in
    if ad_slot data <? attested_slot
    then Err (FcInvalidAttestation (AttestedBlockTooNew attested_slot (ad_slot data)))
    else
      let checkpoint_block := get_checkpoint_block st (ad_beacon_block_root data) (cp_epoch target) in
      if negb (bool_decide (cp_root target = checkpoint_block))
      then Err (FcInvalidAttestation TargetNotCheckpoint)
      else
        let current_slot := get_current_slot st in
        if current_slot <? wadd (ad_slot data) 1
        then Err (FcInvalidAttestation (AttestationNotPast (ad_slot data) current_slot))
        else Ok tt.

Definition store_target_checkpoint_state st (target : Checkpoint) : outcome :=
  if bool_decide (is_Some (st_checkpoint_states st !! target)) then (st, Ok tt)
  else
    try_ st (ok_or (st_block_states st !! cp_root target) (FcMissingBlock (cp_root target))) (fun base_state =>
    let target_slot := compute_start_slot_at_epoch (cp_epoch target) SLOTS_PER_EPOCH in
    try_ st (if slot base_state <? target_slot
             then map_err FcStateTransition (process_slots_fork base_state target_slot)
             else Ok base_state) (fun base_state =>
      (set_st_checkpoint_states st (<[target := base_state]> (st_checkpoint_states st)), Ok tt))).

(** The indexed attestation is the one [get_indexed_attestation] builds. *)
Definition on_attestation st (attestation : Attestation) (is_from_block : bool) : outcome :=
  try_ st (validate_on_attestation st (att_data attestation) is_from_block) (fun _ =>
    let target := ad_target (att_data attestation) in
    let '(st, stored) := store_target_checkpoint_state st target in
    try_ st stored (fun _ =>
    try_ st (ok_or (st_checkpoint_states st !! target) (FcMissingBlock (cp_root target))) (fun target_state =>
    try_ st (get_indexed_attestation target_state attestation) (fun indexed =>
    try_ st (is_valid_indexed_attestation target_state indexed true) (fun valid =>
      if negb valid then (st, Err (FcInvalidAttestation InvalidIndexedSignature))
      else (update_latest_messages st (ia_attesting_indices indexed) (att_data attestation), Ok tt)))))).

Definition on_attester_slashing st (slashing : AttesterSlashing) : outcome :=
  let att1 := as_attestation_1 slashing in
  let att2 := as_attestation_2 slashing in
  if negb (is_slashable_attestation_data (ia_data att1) (ia_data att2))
  then (st, Err (FcInvalidAttestation DataNotSlashable))
  else
    try_ st (ok_or (st_block_states st !! cp_root (st_justified st)) (FcMissingBlock (cp_root (st_justified st)))) (fun state =>
    try_ st (is_valid_indexed_attestation state att1 true) (fun valid1 =>
    if negb valid1 then (st, Err (FcInvalidAttestation Attestation1Invalid))
    else
      try_ st (is_valid_indexed_attestation state att2 true) (fun valid2 =>
      if negb valid2 then (st, Err (FcInvalidAttestation Attestation2Invalid))
      else
        let indices1 : gset Z := list_to_set (ia_attesting_indices att1) in
        let indices2 : gset Z := list_to_set (ia_attesting_indices att2) in
        (set_st_equivocating st (st_equivocating st ∪ (indices1 ∩ indices2)), Ok tt)))).

(** [assert_eq!] on the state root; the phase 0 part of the store. *)
Definition get_forkchoice_store {E} (anchor_state : BeaconState) (anchor_block : BeaconBlock) : result E Store :=
  r ← root_value (state_root anchor_state);
  if negb (bool_decide (b_state_root anchor_block = r)) then Panic
  else
    anchor_root ← root_value (block_root anchor_block);
    let anchor_epoch := get_current_epoch anchor_state in
    let anchor := mkCheckpoint anchor_epoch anchor_root in
    let time := slot_start_time (slot anchor_state) (genesis_time anchor_state) SLOT_DURATION_MS in
    Ok (mkStore time (genesis_time anchor_state) anchor anchor anchor anchor zero_chunk ∅
          {[anchor_root := anchor_block]} {[anchor_root := anchor_state]} ∅ {[anchor := anchor_state]} ∅
          {[anchor_root := anchor]} {[anchor_root := Valid]} (SLOT_DURATION_MS / 1000)).
End handlers.

(** ** The clock *)
Section clock.
  Context `{S : BeaconSpec} `{!SpecOk S}.
  Implicit Types st : Store.

(** Seconds per slot. *)
Definition slot_seconds st : Z := store_slot_ms st / 1000.

(** The times at which no product of the slot clock overflows. *)
Definition clock_ok st (time : Z) : Prop :=
  0 <= st_genesis_time st /\ (0 <= st_seconds_per_slot st /\ st_seconds_per_slot st * 1000 < U64) /\ 0 <= time < U64 /\
  (time - st_genesis_time st) * 1000 < U64.

Lemma slot_ms_seconds st :
  0 <= st_seconds_per_slot st /\ st_seconds_per_slot st * 1000 < U64 -> store_slot_ms st = 1000 * slot_seconds st /\ 0 < slot_seconds st.
Proof using SpecOk0.
  intros Hs. pose proof slot_duration. pose proof slot_duration_seconds as Hm.
  pose proof (Z.div_mod SLOT_DURATION_MS 1000 ltac:(lia)) as Hd. unfold slot_seconds, store_slot_ms.
  unfold sat_mul, u64_max. rewrite Z.min_l by lia.
  destruct (Z.eqb_spec (st_seconds_per_slot st * 1000) 0); [split; lia|].
  rewrite Z.div_mul by lia. lia.
Qed.

Lemma slot_from_time_value g t q :
  0 < q -> (t - g) * 1000 < U64 -> slot_from_time t g (1000 * q) = Z.max (t - g) 0 / q.
Proof.
  intros Hq Ht. unfold slot_from_time, wmul, sat_sub. rewrite (Z.max_l (1000 * q)) by lia.
  rewrite Z.mod_small by (unfold U64 in *; lia). rewrite (Z.mul_comm _ 1000). apply Z.div_mul_cancel_l; lia.
Qed.

Lemma slot_start_time_value k g q :
  0 <= k -> 0 <= g -> 0 < q -> k * q * 1000 < U64 -> g + k * q < U64 ->
  slot_start_time k g (1000 * q) = g + k * q.
Proof.
  intros Hk Hg Hq H1 H2. unfold slot_start_time, wmul, wadd.
  assert (0 <= k * q) by nia. rewrite (Z.mod_small (k * _)) by lia.
  replace (k * (1000 * q)) with (k * q * 1000) by lia. rewrite Z.div_mul by lia. apply Z.mod_small. lia.
Qed.

Lemma slots_since_epoch_start_value sl :
  0 <= sl < U64 -> compute_slots_since_epoch_start sl = sl mod SLOTS_PER_EPOCH.
Proof using SpecOk0.
  intros Hs. pose proof slots_per_epoch_gt0 as Hp.
  unfold compute_slots_since_epoch_start, compute_start_slot_at_epoch, compute_epoch_at_slot.
  set (n := SLOTS_PER_EPOCH) in *. assert (n <> 0) as Hn by lia. destruct Hs as [Hs0 Hs].
  pose proof (Z.div_mod sl n Hn). pose proof (Z.mod_pos_bound sl n Hp). pose proof (Z.div_pos sl n Hs0 Hp).
  unfold wmul, wsub. rewrite (Z.mod_small (_ * _)) by nia. rewrite Z.mod_small; lia.
Qed.

(** The slot of the store at [time]. *)
Definition slot_at st (time : Z) : Z := Z.max (time - st_genesis_time st) 0 / slot_seconds st.

Lemma slot_at_value st time :
  clock_ok st time -> slot_from_time time (st_genesis_time st) (store_slot_ms st) = slot_at st time.
Proof using SpecOk0.
  intros (Hg & Hs & Ht & Hl). destruct (slot_ms_seconds st Hs) as [-> Hq]. by apply slot_from_time_value.
Qed.

Lemma current_slot_nonneg st : 0 <= get_current_slot st.
Proof.
  unfold get_current_slot, get_slots_since_genesis, slot_from_time, wmul.
  apply Z.div_pos; [|lia]. by apply Z.mod_pos_bound.
Qed.

(** The first instant of the next slot, if the clock of [time] is past it. *)
Lemma next_slot_time st time :
  clock_ok st time -> get_current_slot st < slot_at st time ->
  let t := slot_start_time (wadd (get_current_slot st) 1) (st_genesis_time st) (store_slot_ms st) in
  clock_ok st t /\ slot_at st t = get_current_slot st + 1 /\ get_current_slot st + 1 < U64.
Proof using SpecOk0.
  intros (Hg & Hs & Ht & Hl) Hlt. destruct (slot_ms_seconds st Hs) as [-> Hq]. unfold slot_at in *.
  set (g := st_genesis_time st) in *. set (q := slot_seconds st) in *.
  pose proof (current_slot_nonneg st) as Hk. set (k := get_current_slot st) in *.
  assert ((k + 1) * q <= Z.max (time - g) 0) as Hle.
  { pose proof (Z.mul_div_le (Z.max (time - g) 0) q Hq). nia. }
  assert (0 <= k * q) by nia. assert (time - g = Z.max (time - g) 0) as Hm by nia.
  assert (k + 1 < U64) as Hk1 by nia.
  unfold wadd. rewrite Z.mod_small by lia. rewrite slot_start_time_value by lia.
  unfold clock_ok. fold g. split_and!; [lia..| |done].
  rewrite Z.max_l by lia. replace (g + (k + 1) * q - g) with ((k + 1) * q) by lia. by apply Z.div_mul; lia.
Qed.

(** What reaching [time] does: whether a slot and an epoch boundary passed. *)
Definition ticked st (time : Z) (advanced crossed : bool) : Store :=
  let st := set_st_time st time in
  let st := if advanced then set_st_proposer_boost_root st zero_chunk else st in
  if crossed then update_checkpoints st (st_unrealized_justified st) (st_unrealized_finalized st) else st.

Lemma ticked_ticked st t1 a1 c1 t2 a2 c2 :
  ticked (ticked st t1 a1 c1) t2 a2 c2 = ticked st t2 (a1 || a2) (c1 || c2).
Proof.
  unfold ticked, update_checkpoints. destruct a1, c1, a2, c2; cbn; try done;
    repeat (case_match; cbn in *; zbool; try lia; try done).
Qed.

Lemma ticked_clock st t a c :
  st_time (ticked st t a c) = t /\ st_genesis_time (ticked st t a c) = st_genesis_time st /\
  st_seconds_per_slot (ticked st t a c) = st_seconds_per_slot st.
Proof. unfold ticked, update_checkpoints. destruct a, c; cbn; repeat case_match; done. Qed.

Lemma current_slot_ticked st t a c : clock_ok st t -> get_current_slot (ticked st t a c) = slot_at st t.
Proof using SpecOk0.
  intros Hc. destruct (ticked_clock st t a c) as (Ht & Hg & Hs).
  rewrite <-slot_at_value by done. unfold get_current_slot, get_slots_since_genesis, store_slot_ms.
  by rewrite Ht, Hg, Hs.
Qed.

Lemma on_tick_per_slot_ticked st t :
  clock_ok st t -> slot_at st t < U64 ->
  on_tick_per_slot st t = ticked st t (get_current_slot st <? slot_at st t)
    ((get_current_slot st <? slot_at st t) && (slot_at st t mod SLOTS_PER_EPOCH =? 0)).
Proof using SpecOk0.
  intros Hc Hlt. unfold on_tick_per_slot.
  assert (get_current_slot (set_st_time st t) = slot_at st t) as -> by (by apply (current_slot_ticked st t false false)).
  rewrite slots_since_epoch_start_value; [done|]. split; [|done].
  destruct Hc as (_ & Hs & _). destruct (slot_ms_seconds st Hs). apply Z.div_pos; lia.
Qed.

Lemma epoch_of_previous k n :
  0 < n -> k / n = (k + 1) / n - (if (k + 1) mod n =? 0 then 1 else 0).
Proof.
  intros Hn. assert (n <> 0) as Hn0 by lia. pose proof (Z.div_mod (k + 1) n Hn0). pose proof (Z.mod_pos_bound (k + 1) n Hn).
  symmetry. destruct (Z.eqb_spec ((k + 1) mod n) 0).
  - apply (Z.div_unique_pos _ _ _ (n - 1)); lia.
  - apply (Z.div_unique_pos _ _ _ ((k + 1) mod n - 1)); lia.
Qed.

Local Abbreviation epoch k := (compute_epoch_at_slot k SLOTS_PER_EPOCH).

Lemma slot_at_bounds st t : clock_ok st t -> 0 <= slot_at st t < U64.
Proof using SpecOk0.
  intros (Hg & Hs & Ht & _). destruct (slot_ms_seconds st Hs) as [_ Hq]. unfold slot_at. split.
  - apply Z.div_pos; lia.
  - apply Z.div_lt_upper_bound; nia.
Qed.

Lemma ticked_same_clock st t a c x :
  (clock_ok (ticked st t a c) x <-> clock_ok st x) /\ slot_at (ticked st t a c) x = slot_at st x /\
  store_slot_ms (ticked st t a c) = store_slot_ms st.
Proof.
  destruct (ticked_clock st t a c) as (_ & Hg & Hs).
  assert (store_slot_ms (ticked st t a c) = store_slot_ms st) as Hms by (unfold store_slot_ms; by rewrite Hs).
  unfold clock_ok, slot_at, slot_seconds. by rewrite Hms, Hg, Hs.
Qed.

(** One turn of the loop. *)
Lemma tick_step st t :
  clock_ok st t -> get_current_slot st < slot_at st t ->
  let t1 := slot_start_time (wadd (get_current_slot st) 1) (st_genesis_time st) (store_slot_ms st) in
  clock_ok st t1 /\ slot_at st t1 = get_current_slot st + 1 /\
  on_tick_per_slot st t1 = ticked st t1 true (epoch (get_current_slot st) <? epoch (get_current_slot st + 1)).
Proof using SpecOk0.
  intros Hc Hlt. destruct (next_slot_time st t Hc Hlt) as (Hc1 & Hk1 & Hb). cbn zeta. split_and!; [done..|].
  rewrite on_tick_per_slot_ticked by (done || lia). rewrite Hk1, (proj2 (Z.ltb_lt _ (_ + 1))) by lia. f_equal.
  unfold compute_epoch_at_slot. rewrite (epoch_of_previous _ _ slots_per_epoch_gt0). cbn [andb].
  destruct (_ =? 0); [symmetry; apply Z.ltb_lt|symmetry; apply Z.ltb_ge]; lia.
Qed.

Lemma tick_loop_ticked n st t :
  clock_ok st t -> slot_at st t = get_current_slot st + Z.of_nat (Datatypes.S n) ->
  exists t', tick_loop (Datatypes.S n) (store_slot_ms st) (slot_at st t) st
    = ticked st t' true (epoch (get_current_slot st) <? epoch (slot_at st t)) /\
    clock_ok st t' /\ slot_at st t' = slot_at st t.
Proof using SpecOk0.
  assert (forall a b, a <= b -> epoch a <= epoch b) as Hmono.
  { intros. apply Z.div_le_mono; [apply slots_per_epoch_gt0|done]. }
  revert st. induction n as [|n IH]; intros st Hc Hk.
  all: destruct (tick_step st t Hc) as (Hc1 & Hk1 & Hs1); [lia|]; cbn [tick_loop];
    rewrite (proj2 (Z.ltb_lt _ _)) by lia; rewrite Hs1; clear Hs1; set (t1 := slot_start_time _ _ _) in *.
  - exists t1. replace (slot_at st t) with (get_current_slot st + 1) by lia. done.
  - set (c1 := epoch _ <? epoch (_ + 1)). set (st1 := ticked st t1 true c1).
    pose proof (fun x => ticked_same_clock st t1 true c1 x) as Hsame. fold st1 in Hsame.
    assert (get_current_slot st1 = get_current_slot st + 1) as Hcur by (unfold st1; by rewrite current_slot_ticked).
    destruct (IH st1) as (t' & HE & Hc' & Hs').
    { by apply Hsame. }
    { destruct (Hsame t) as (_ & -> & _). lia. }
    destruct (Hsame t) as (_ & Hat & Hms). destruct (Hsame t') as (Hck & Hat' & _).
    rewrite Hms, Hat, Hcur in HE. exists t'. split_and!; [|by apply Hck|congruence].
    etransitivity; [exact HE|]. unfold st1. rewrite ticked_ticked. f_equal. unfold c1.
    assert (get_current_slot st + 1 <= slot_at st t) as Hle%Hmono by lia.
    assert (get_current_slot st <= get_current_slot st + 1) as Hle1%Hmono by lia.
    destruct (Z.ltb_spec (epoch (get_current_slot st)) (epoch (get_current_slot st + 1))); cbn [orb].
    + symmetry. apply Z.ltb_lt. lia.
    + by replace (epoch (get_current_slot st + 1)) with (epoch (get_current_slot st)) by lia.
Qed.

(** The clock.  [on_tick] ends with the store at the given time and the
    slot that time falls in, whatever the number of slots in between; the
    proposer boost is reset when a slot boundary passed, and the unrealized
    checkpoints are adopted exactly when an epoch boundary passed, even if the
    final time is in the middle of a later epoch; nothing else changes. *)
Theorem on_tick_correct st t :
  clock_ok st t ->
  get_current_slot (on_tick st t) = slot_at st t /\
  on_tick st t = ticked st t (get_current_slot st <? slot_at st t)
                   (epoch (get_current_slot st) <? epoch (slot_at st t)).
Proof using SpecOk0.
  intros Hc. pose proof (slot_at_bounds st t Hc).
  enough (on_tick st t = ticked st t (get_current_slot st <? slot_at st t)
    (epoch (get_current_slot st) <? epoch (slot_at st t))) as -> by (split; [by apply current_slot_ticked|done]).
  unfold on_tick. rewrite slot_at_value by done.
  destruct (Z.ltb_spec (get_current_slot st) (slot_at st t)) as [Hlt|Hge].
  - destruct (Z.to_nat (slot_at st t - get_current_slot st)) as [|n] eqn:En; [lia|].
    destruct (tick_loop_ticked n st t Hc) as (t' & -> & Hc' & Hs'); [lia|]. set (c := epoch _ <? _).
    destruct (ticked_same_clock st t' true c t) as (Hck & Hat & _).
    rewrite on_tick_per_slot_ticked by (by apply Hck || lia).
    rewrite current_slot_ticked, Hat, Hs', Z.ltb_irrefl by done. cbn [andb].
    by rewrite ticked_ticked, !orb_false_r.
  - replace (Z.to_nat _) with 0%nat by lia. cbn [tick_loop].
    rewrite on_tick_per_slot_ticked by (done || lia). rewrite (proj2 (Z.ltb_ge _ _)) by lia. f_equal. cbn [andb].
    symmetry. apply Z.ltb_ge. apply Z.div_le_mono; [apply slots_per_epoch_gt0|lia].
Qed.
End clock.
