(* ===== verification/ForkSafety.v ===== *)
(** * Safety of the fork choice

    The handlers of crates/pharos-fork-choice/src/handlers.rs as a step relation
    on stores: what no sequence of steps can undo, the checks and effects of
    [on_block], and the tree invariant of stores built from an anchor with blocks
    that pass the state transition. *)

From Stdlib Require Import ZArith Lia.
From S2P Require Import Prelude SszCodec SszBitfield SszTypes Merkle SszTree Shuffling Spec BeaconState Invariant Roots Accessors Mutators Justification Rewards EpochUpdates Operations Transition ForkStore ForkHead ForkHandlers.

(** ** What a store may not lose *)
Definition message_le (m m' : LatestMessage) : Prop := m = m' \/ lm_epoch m < lm_epoch m'.

Record store_le (st st' : Store) : Prop := {
  le_justified : cp_epoch (st_justified st) <= cp_epoch (st_justified st');
  le_finalized : cp_epoch (st_finalized st) <= cp_epoch (st_finalized st');
  le_unrealized_justified :
    cp_epoch (st_unrealized_justified st) <= cp_epoch (st_unrealized_justified st');
  le_unrealized_finalized :
    cp_epoch (st_unrealized_finalized st) <= cp_epoch (st_unrealized_finalized st');
  le_equivocating : st_equivocating st ⊆ st_equivocating st';
  (** Votes are replaced only by votes of later epochs, ... *)
  le_messages : forall i m, st_latest_messages st !! i = Some m ->
    exists m', st_latest_messages st' !! i = Some m' /\ message_le m m';
  (** ... and those of equivocating validators not at all. *)
  le_frozen : forall i, i ∈ st_equivocating st ->
    st_latest_messages st' !! i = st_latest_messages st !! i;
  le_blocks : forall r, is_Some (st_blocks st !! r) -> is_Some (st_blocks st' !! r);
  le_states : forall r, is_Some (st_block_states st !! r) -> is_Some (st_block_states st' !! r);
  le_genesis : st_genesis_time st' = st_genesis_time st;
}.

#[global] Instance store_le_preorder : PreOrder store_le.
Proof.
  split.
  - intros st. constructor; try done. intros i m Hm. exists m. split; [done|by left].
  - intros a b c [] []. constructor; [lia..|by etransitivity| | |auto|auto|congruence].
    + intros i m (m' & (m'' & ? & H2)%le_messages1 & H1)%le_messages0. exists m''. split; [done|].
      destruct H1 as [<-|H1]; [done|]. right. destruct H2 as [<-|]; [done|lia].
    + intros i Hi. rewrite le_frozen1 by auto. auto.
Qed.

(** Steps that touch only the fields [store_le] does not mention. *)
Ltac same_fields := constructor; cbn; try done; intros i m Hm; exists m; (split; [done|by left]).

Section monotone.
  Context `{Crypto} `{BeaconSpec}.
  Implicit Types st : Store.

Lemma update_checkpoints_le st j f : store_le st (update_checkpoints st j f).
Proof.
  unfold update_checkpoints. repeat (case_match; cbn in *; zbool); constructor; cbn; try done; try lia;
    intros i m Hm; exists m; (split; [done|by left]).
Qed.

Lemma update_unrealized_le st j f : store_le st (update_unrealized_checkpoints st j f).
Proof.
  unfold update_unrealized_checkpoints. repeat (case_match; cbn in *; zbool); constructor; cbn; try done; try lia;
    intros i m Hm; exists m; (split; [done|by left]).
Qed.

Lemma foldl_rel {A B} (R : relation A) `{!PreOrder R} (f : A -> B -> A) l a :
  (forall a b, R a (f a b)) -> R a (foldl f a l).
Proof. intros Hf. revert a. induction l as [|b l IH]; intros a; cbn [foldl]; [done|]. etransitivity; [apply Hf|apply IH]. Qed.

Lemma update_latest_messages_le st l d : store_le st (update_latest_messages st l d).
Proof.
  apply (foldl_rel store_le). clear. intros st i. unfold update_latest_message. case_bool_decide as Hi; [done|]. cbn zeta.
  destruct (match st_latest_messages st !! i with Some m => _ | None => _ end) eqn:Hu; [|done].
  constructor; cbn; try done.
  - intros j m Hm. destruct (decide (j = i)) as [->|]; [|rewrite lookup_insert_ne by done; exists m; split; [done|by left]].
    rewrite lookup_insert_eq. rewrite Hm in Hu. zbool. eexists. split; [done|by right].
  - intros j Hj. rewrite lookup_insert_ne; [done|congruence].
Qed.

(** The loop of [on_tick], for any relation its body respects. *)
Lemma on_tick_rel (R : relation Store) `{!PreOrder R} st t :
  (forall st t, R st (on_tick_per_slot st t)) -> R st (on_tick st t).
Proof.
  intros Hone. unfold on_tick. etransitivity; [|apply Hone].
  generalize (store_slot_ms st), (slot_from_time t (st_genesis_time st) (store_slot_ms st)). intros ms tick.
  generalize (Z.to_nat (tick - get_current_slot st)). intros fuel. revert st.
  induction fuel as [|fuel IH]; intros st; cbn [tick_loop]; [done|]. case_match; [|done].
  etransitivity; [apply Hone|apply IH].
Qed.

Lemma on_tick_per_slot_le st t : store_le st (on_tick_per_slot st t).
Proof.
  unfold on_tick_per_slot. case_match; [etransitivity; [|apply update_checkpoints_le]|]; case_match; same_fields.
Qed.

Lemma on_tick_le st t : store_le st (on_tick st t).
Proof. apply (on_tick_rel store_le), on_tick_per_slot_le. Qed.

(** A handler that ends early leaves the store as it is. *)
Lemma try_rel (R : relation Store) {A} st st' (m : result ForkChoiceError A) k :
  R st st' -> (forall a, m = Ok a -> R st (k a).1) -> R st (try_ st' m k).1.
Proof. destruct m; cbn; auto. Qed.

Lemma try_Ok {A} st (a : A) k : try_ st (Ok a) k = k a.
Proof. done. Qed.

Lemma mark_payload_le st r x : store_le st (mark_payload_status st r x).
Proof. same_fields. Qed.

Lemma mark_if_absent_le st r x : store_le st (mark_payload_status_if_absent st r x).
Proof. unfold mark_payload_status_if_absent. case_match; [done|same_fields]. Qed.

Lemma insert_block_le st r b s now : store_le st (insert_block st r b s now).
Proof.
  unfold insert_block. set (st1 := set_st_block_states _ _). transitivity st1.
  { constructor; cbn; try done; [intros i m Hm; exists m; split; [done|by left]|..];
      intros k [x Hk]; destruct (decide (k = r)) as [->|];
      rewrite ?lookup_insert_eq, ?lookup_insert_ne by done; eauto. }
  etransitivity; [apply (mark_if_absent_le st1 r NotValidated)|]. same_fields.
Qed.

Lemma boost_fields st r st' res :
  update_proposer_boost_root st r = (st', res) -> exists x, st' = set_st_proposer_boost_root st x.
Proof.
  assert (st = set_st_proposer_boost_root st (st_proposer_boost_root st)) as Hsame by (by destruct st).
  unfold update_proposer_boost_root, try_. repeat case_match; intros [= <- _]; eauto.
Qed.

Lemma compute_pulled_up_tip_le st r : store_le st (compute_pulled_up_tip st r).1.
Proof.
  unfold compute_pulled_up_tip. apply (try_rel store_le); [done|]. intros s _. apply (try_rel store_le); [done|]. intros s' _. cbn zeta.
  set (st1 := set_st_unrealized_justifications _ _).
  transitivity st1; [same_fields|].
  etransitivity; [apply (update_unrealized_le st1 (current_justified_checkpoint s') (finalized_checkpoint s'))|].
  cbn. case_match; [apply update_checkpoints_le|done].
Qed.

Lemma on_block_le st sb post now : store_le st (on_block st sb post now).1.
Proof.
  unfold on_block. apply (try_rel store_le); [done|]. intros r _. etransitivity; [apply (insert_block_le st r (sb_message sb) post now)|].
  set (st1 := insert_block _ _ _ _ _). destruct (update_proposer_boost_root st1 r) as [st2 res] eqn:E.
  apply boost_fields in E as [x ->].
  assert (store_le st1 (set_st_proposer_boost_root st1 x)) as Hle by same_fields.
  apply (try_rel store_le); [done|]. intros _ _. transitivity (set_st_proposer_boost_root st1 x); [done|].
  etransitivity; [apply update_checkpoints_le|]. apply compute_pulled_up_tip_le.
Qed.

Lemma store_target_le st c : store_le st (store_target_checkpoint_state st c).1.
Proof.
  unfold store_target_checkpoint_state. case_bool_decide; [done|].
  apply (try_rel store_le); [done|]. intros s _. apply (try_rel store_le); [done|]. intros s' _. same_fields.
Qed.

Lemma on_attestation_le st a b : store_le st (on_attestation st a b).1.
Proof.
  unfold on_attestation. apply (try_rel store_le); [done|]. intros _ _.
  pose proof (store_target_le st (ad_target (att_data a))) as Hle.
  destruct (store_target_checkpoint_state _ _) as [st1 res]. cbn in Hle.
  do 4 (apply (try_rel store_le); [done|]; intros ? _). transitivity st1; [done|].
  case_match; [done|]. apply update_latest_messages_le.
Qed.

Lemma on_attester_slashing_le st a : store_le st (on_attester_slashing st a).1.
Proof.
  unfold on_attester_slashing. case_match; [done|]. do 2 (apply (try_rel store_le); [done|]; intros ? _).
  case_match; [done|]. apply (try_rel store_le); [done|]; intros ? _. case_match; [done|].
  constructor; cbn; try done; [apply union_subseteq_l|]. intros i m Hm. exists m. split; [done|by left].
Qed.

(** ** The handlers as steps *)
Inductive fc_step : Store -> Store -> Prop :=
  | step_tick st t : fc_step st (on_tick st t)
  | step_block st sb post now : fc_step st (on_block st sb post now).1
  | step_attestation st a from_block : fc_step st (on_attestation st a from_block).1
  | step_slashing st a : fc_step st (on_attester_slashing st a).1
  | step_payload st r status : fc_step st (mark_payload_status st r status).

(** C24: Nothing settled is undone.  Whatever sequence of ticks, blocks,
    attestations, slashings and payload verdicts the store goes through,
    successful or not: the justified, finalized and unrealized checkpoints never
    move to an earlier epoch; a validator once seen equivocating stays marked
    and its vote no longer changes; every other vote is only replaced by one of
    a later target epoch; no block and no state is dropped. *)
Theorem fork_choice_monotone st st' : rtc fc_step st st' -> store_le st st'.
Proof.
  induction 1 as [|st st1 st' Hs _ IH]; [done|]. etransitivity; [|exact IH].
  destruct Hs; [apply on_tick_le|apply on_block_le|apply on_attestation_le|apply on_attester_slashing_le|
    apply mark_payload_le].
Qed.
End monotone.

(** ** What [on_block] accepts and writes *)
Section blocks.
  Context `{Crypto} `{BeaconSpec}.
  Implicit Types st : Store.

(** The conditions under which a block may enter the store. *)
Record acceptable st (b : BeaconBlock) (r : Root) : Prop := {
  ac_root : block_root b = Ok r;
  ac_parent : is_Some (st_block_states st !! b_parent_root b);
  ac_not_future : b_slot b <= get_current_slot st;
  ac_after_finalized : compute_start_slot_at_epoch (cp_epoch (st_finalized st)) SLOTS_PER_EPOCH < b_slot b;
  ac_descends : get_checkpoint_block st (b_parent_root b) (cp_epoch (st_finalized st)) = cp_root (st_finalized st);
}.

Lemma check_block_Ok st b r : check_block st b = Ok r <-> acceptable st b r.
Proof.
  unfold check_block. split.
  - intros (s & Hs%ok_or_Ok & Hc)%bind_Ok_inv. repeat (case_match; [done|]). zbool.
    apply root_value_Ok in Hc. constructor; [done|by eexists|lia|lia|].
    match goal with H : bool_decide _ = true |- _ => by apply bool_decide_eq_true in H end.
  - intros [Hr [s Hs] ? ? Hd]. rewrite Hs, Hr. cbn [ok_or mbind result_bind].
    by rewrite (proj2 (Z.ltb_ge _ _)), (proj2 (Z.leb_gt _ _)), bool_decide_true by (done || lia).
Qed.

(** The fields the rest of [on_block] leaves as [insert_block] wrote them. *)
Record same_tree st st' : Prop := {
  tr_blocks : st_blocks st' = st_blocks st;
  tr_states : st_block_states st' = st_block_states st;
  tr_payload : st_payload_statuses st' = st_payload_statuses st;
  tr_timeliness : st_block_timeliness st' = st_block_timeliness st;
  tr_time : st_time st' = st_time st;
  tr_messages : st_latest_messages st' = st_latest_messages st;
  tr_equivocating : st_equivocating st' = st_equivocating st;
}.

#[global] Instance same_tree_preorder : PreOrder same_tree.
Proof. split; [by constructor|]. intros a b c [] []. constructor; congruence. Qed.

Lemma update_checkpoints_tree st j f : same_tree st (update_checkpoints st j f).
Proof. unfold update_checkpoints. repeat case_match; by constructor. Qed.

Lemma update_unrealized_tree st j f : same_tree st (update_unrealized_checkpoints st j f).
Proof. unfold update_unrealized_checkpoints. repeat case_match; by constructor. Qed.

Lemma compute_pulled_up_tip_tree st r : same_tree st (compute_pulled_up_tip st r).1.
Proof.
  unfold compute_pulled_up_tip. destruct (ok_or _ _); cbn [try_]; [|done..].
  destruct (map_err _ _); cbn [try_]; [|done..]. cbn [fst].
  set (st1 := set_st_unrealized_justifications _ _). transitivity st1; [by constructor|].
  etransitivity; [apply update_unrealized_tree|]. case_match; [apply update_checkpoints_tree|done].
Qed.

Lemma insert_block_fields st r b post now :
  let st' := insert_block st r b post now in
  st_blocks st' = <[r := b]> (st_blocks st) /\ st_block_states st' = <[r := post]> (st_block_states st) /\
  st_payload_statuses st' = <[r := default NotValidated (st_payload_statuses st !! r)]> (st_payload_statuses st) /\
  st_time st' = st_time st /\ st_latest_messages st' = st_latest_messages st /\
  st_equivocating st' = st_equivocating st.
Proof.
  unfold insert_block, mark_payload_status_if_absent, record_block_timeliness. cbn zeta.
  destruct (st_payload_statuses (set_st_block_states _ _) !! r) as [x|] eqn:Ep; cbn in Ep; rewrite Ep; cbn; split_and!; try done.
  by rewrite insert_id.
Qed.

(** The rest of [on_block] after the block is stored. *)
Definition on_block_rest st (r : Root) (post : BeaconState) : outcome :=
  let '(st, boost) := update_proposer_boost_root st r in
  try_ st boost (fun _ =>
    let st := update_checkpoints st (current_justified_checkpoint post) (finalized_checkpoint post) in
    compute_pulled_up_tip st r).

Lemma on_block_unfold st sb post now :
  on_block st sb post now = try_ st (check_block st (sb_message sb)) (fun r =>
    on_block_rest (insert_block st r (sb_message sb) post now) r post).
Proof. unfold on_block, on_block_rest. cbn zeta. exact eq_refl. Qed.

Lemma on_block_rest_tree st r post : same_tree st (on_block_rest st r post).1.
Proof.
  unfold on_block_rest.
  destruct (update_proposer_boost_root st r) as [st2 boost] eqn:Eb. apply boost_fields in Eb as [x ->].
  transitivity (set_st_proposer_boost_root st x); [by constructor|].
  destruct boost; cbn [try_]; [|done..].
  etransitivity; [apply update_checkpoints_tree|]. apply compute_pulled_up_tip_tree.
Qed.

(** C10: Block import.  Either [on_block] rejects the block and leaves the store
    as it was, or the block is acceptable (its parent's state is known, it is
    not from the future, it is after the finalized slot and descends from the
    finalized block), and then the store gains exactly that block with the given
    post-state under its root, keeps a payload verdict that was already there
    and otherwise marks the payload as not validated, and keeps its clock and
    its votes. *)
Theorem on_block_effect st sb post now st' res :
  on_block st sb post now = (st', res) ->
  let b := sb_message sb in
  (st' = st /\ res <> Ok tt /\ forall r, ~ acceptable st b r) \/
  exists r, acceptable st b r /\
    st_blocks st' = <[r := b]> (st_blocks st) /\ st_block_states st' = <[r := post]> (st_block_states st) /\
    st_payload_statuses st' = <[r := default NotValidated (st_payload_statuses st !! r)]> (st_payload_statuses st) /\
    st_time st' = st_time st /\ st_latest_messages st' = st_latest_messages st /\
    st_equivocating st' = st_equivocating st.
Proof.
  intros Hob b. subst b. rewrite on_block_unfold in Hob. pose proof (check_block_Ok st (sb_message sb)) as Hc.
  destruct (check_block st (sb_message sb)) as [r|e|].
  2,3: left; injection Hob as <- <-; split_and!; [done..|]; intros r Hr; by apply Hc in Hr.
  right. exists r. split; [by apply Hc|]. rewrite try_Ok in Hob.
  pose proof (on_block_rest_tree (insert_block st r (sb_message sb) post now) r post) as Ht.
  rewrite Hob in Ht. destruct Ht as [Hb Hs Hp _ Ht Hm He]. unfold fst in *.
  rewrite Hb, Hs, Hp, Ht, Hm, He. apply insert_block_fields.
Qed.
End blocks.

(** ** Stores built from valid blocks *)
Section chains.
  Context `{Crypto} `{S : BeaconSpec} `{!SpecOk S}.
  Implicit Types st : Store.

(** A state the store may hold for a block. *)
Definition state_of (b : BeaconBlock) (s : BeaconState) : Prop :=
  wf_state s /\ checkpoints_ordered s /\ bh_slot (latest_block_header s) = b_slot b.

Record chain_ok st : Prop := {
  ch_older : parents_older (st_blocks st);
  ch_states : forall r b s, st_blocks st !! r = Some b -> st_block_states st !! r = Some s -> state_of b s;
  ch_dom : forall r, is_Some (st_blocks st !! r) <-> is_Some (st_block_states st !! r);
}.

(** The handlers with the caller's part of [on_block]: the post-state is the
    outcome of the state transition on the parent's state.  The last two
    conditions say that a root names one block, and that no block names as its
    parent a block that does not exist yet. *)
Inductive valid_step : Store -> Store -> Prop :=
  | vstep_tick st t : valid_step st (on_tick st t)
  | vstep_attestation st a from_block : valid_step st (on_attestation st a from_block).1
  | vstep_slashing st a : valid_step st (on_attester_slashing st a).1
  | vstep_payload st r status : valid_step st (mark_payload_status st r status)
  | vstep_block st sb pre post now r :
      let b := sb_message sb in
      st_block_states st !! b_parent_root b = Some pre ->
      phase0_state_transition pre sb true = Ok post ->
      u64 (b_slot b) -> Forall (fun d => u64 (dd_amount (dep_data d))) (body_deposits (b_body b)) ->
      block_root b = Ok r ->
      (forall b', st_blocks st !! r = Some b' -> b' = b) ->
      (forall c cb, st_blocks st !! c = Some cb -> b_parent_root cb = r -> is_Some (st_blocks st !! r)) ->
      valid_step st (on_block st sb post now).1.

(** Steps that leave the blocks and their states alone. *)
Definition same_chain st st' : Prop :=
  st_blocks st' = st_blocks st /\ st_block_states st' = st_block_states st.

#[local] Instance same_chain_preorder : PreOrder same_chain.
Proof. split; [done|]. intros a b c [] []. split; congruence. Qed.

Lemma same_chain_ok st st' : same_chain st st' -> chain_ok st -> chain_ok st'.
Proof. intros [Hb Hs] []. constructor; rewrite ?Hb, ?Hs; done. Qed.

Lemma same_tree_chain st st' : same_tree st st' -> same_chain st st'.
Proof. by intros []. Qed.

Lemma on_tick_same st t : same_chain st (on_tick st t).
Proof.
  apply (on_tick_rel same_chain). clear. intros st t. unfold on_tick_per_slot.
  case_match; [etransitivity; [|apply same_tree_chain, update_checkpoints_tree]|]; by case_match.
Qed.

Lemma on_attestation_same st a from_block : same_chain st (on_attestation st a from_block).1.
Proof.
  unfold on_attestation. apply (try_rel same_chain); [done|]. intros _ _.
  assert (same_chain st (store_target_checkpoint_state st (ad_target (att_data a))).1) as Hs.
  { unfold store_target_checkpoint_state. case_bool_decide; [done|]. by do 2 (apply (try_rel same_chain); [done|]; intros ? _). }
  destruct (store_target_checkpoint_state _ _) as [st1 res]. cbn in Hs.
  do 4 (apply (try_rel same_chain); [done|]; intros ? _). transitivity st1; [done|]. case_match; [done|].
  apply (foldl_rel same_chain). clear. intros st i. unfold update_latest_message. by repeat case_match.
Qed.

Lemma on_attester_slashing_same st a : same_chain st (on_attester_slashing st a).1.
Proof.
  unfold on_attester_slashing. case_match; [done|]. do 2 (apply (try_rel same_chain); [done|]; intros ? _).
  case_match; [done|]. apply (try_rel same_chain); [done|]; intros ? _. by case_match.
Qed.

Lemma on_block_chain st sb post now :
  same_chain st (on_block st sb post now).1 \/
  exists r, acceptable st (sb_message sb) r /\
    st_blocks (on_block st sb post now).1 = <[r := sb_message sb]> (st_blocks st) /\
    st_block_states (on_block st sb post now).1 = <[r := post]> (st_block_states st).
Proof.
  rewrite on_block_unfold. pose proof (check_block_Ok st (sb_message sb)) as Hc.
  destruct (check_block st (sb_message sb)) as [r|e|]; [|by left..]. right. exists r. split; [by apply Hc|].
  rewrite try_Ok. destruct (on_block_rest_tree (insert_block st r (sb_message sb) post now) r post) as [-> -> _ _ _ _ _].
  by destruct (insert_block_fields st r (sb_message sb) post now) as (-> & -> & _).
Qed.

(** Storing a new block whose parent is older, or a known block again. *)
Lemma parents_older_insert bs r b :
  parents_older bs -> (forall b', bs !! r = Some b' -> b' = b) ->
  (forall c cb, bs !! c = Some cb -> b_parent_root cb = r -> is_Some (bs !! r)) ->
  (forall p, bs !! b_parent_root b = Some p -> b_slot p < b_slot b) -> b_parent_root b <> r \/ is_Some (bs !! r) ->
  parents_older (<[r := b]> bs).
Proof.
  intros Hold Hsame Hfresh Hp Hself. destruct (bs !! r) as [b0|] eqn:Hr.
  - assert (b0 = b) as -> by auto. by rewrite insert_id.
  - intros k x p. destruct (decide (k = r)) as [->|Hk].
    + rewrite lookup_insert_eq. intros [= <-]. destruct Hself as [Hne|[? ?] ]; [|done].
      rewrite lookup_insert_ne by done. apply Hp.
    + rewrite lookup_insert_ne by done. intros Hx. destruct (decide (b_parent_root x = r)) as [Heq|].
      * destruct (Hfresh k x Hx Heq). done.
      * rewrite lookup_insert_ne by done. by apply (Hold k).
Qed.

Lemma valid_block_chain st sb pre post now r :
  let b := sb_message sb in
  chain_ok st -> st_block_states st !! b_parent_root b = Some pre ->
  phase0_state_transition pre sb true = Ok post ->
  u64 (b_slot b) -> Forall (fun d => u64 (dd_amount (dep_data d))) (body_deposits (b_body b)) ->
  block_root b = Ok r ->
  (forall b', st_blocks st !! r = Some b' -> b' = b) ->
  (forall c cb, st_blocks st !! c = Some cb -> b_parent_root cb = r -> is_Some (st_blocks st !! r)) ->
  chain_ok (on_block st sb post now).1.
Proof using SpecOk0.
  intros b Hch Hpre Htr Hsl Hdep Hroot Hsame Hfresh. pose proof Hch as [Hold Hst Hdom].
  destruct (on_block_chain st sb post now) as [Hs|(r' & [Hr' _ _ _ _] & Hb & Hs)]; [by eapply same_chain_ok|].
  fold b in Hb, Hr'. assert (r' = r) as -> by congruence.
  destruct (Hdom (b_parent_root b)) as [_ [pb Hpb]]; [by eexists|].
  destruct (Hst _ _ _ Hpb Hpre) as (Hw & Ho & Hbh).
  destruct (phase0_transition_Ok pre post sb Hw Ho Hsl Hdep Htr) as ([Hw' Ho' _ _] & _ & _ & Hbh' & Hlt & _).
  fold b in Hbh', Hlt. constructor; rewrite Hb, ?Hs.
  - apply parents_older_insert; [done..| |].
    + intros p Hp. simplify_eq. lia.
    + destruct (decide (b_parent_root b = r)) as [He|]; [right|by left]. rewrite <-He. by eexists.
  - intros k x s. destruct (decide (k = r)) as [->|].
    + rewrite !lookup_insert_eq. intros [= <-] [= <-]. done.
    + rewrite !lookup_insert_ne by done. apply Hst.
  - intros k. destruct (decide (k = r)) as [->|]; [rewrite !lookup_insert_eq; split; by eexists|].
    by rewrite !lookup_insert_ne by done.
Qed.

Lemma get_forkchoice_store_Ok {E} s b st :
  get_forkchoice_store (E:=E) s b = Ok st ->
  exists r, block_root b = Ok r /\ st_blocks st = {[r := b]} /\ st_block_states st = {[r := s]}.
Proof using.
  unfold get_forkchoice_store. intros (sr & _ & H0)%bind_Ok_inv. case_match; [done|].
  apply bind_Ok_inv in H0 as (r & Hr%root_value_Ok & [= <-]). by exists r.
Qed.

Lemma reachable_chain {E} anchor_state anchor_block st0 st :
  wf_state anchor_state -> checkpoints_ordered anchor_state ->
  bh_slot (latest_block_header anchor_state) = b_slot anchor_block ->
  (forall r, block_root anchor_block = Ok r -> b_parent_root anchor_block <> r) ->
  get_forkchoice_store (E:=E) anchor_state anchor_block = Ok st0 -> rtc valid_step st0 st ->
  chain_ok st /\ exists h, get_head (E:=E) st = Ok h /\ ghost st (effective_base st) h.
Proof using SpecOk0.
  intros Hw Ho Hbh Hself H0 Hsteps.
  enough (chain_ok st) as Hch.
  { split; [done|]. destruct (get_head_ok st (ch_older st Hch) (E:=E)) as (h & ? & ? & _). by exists h. }
  assert (chain_ok st0) as Hch0.
  { apply get_forkchoice_store_Ok in H0 as (ar & Har & Hb & Hs). constructor; rewrite Hb, ?Hs.
    - intros k b p [<- <-]%lookup_singleton_Some [Heq _]%lookup_singleton_Some. by destruct (Hself ar Har).
    - intros k b s [<- <-]%lookup_singleton_Some [_ <-]%lookup_singleton_Some. done.
    - intros k. rewrite !lookup_singleton_is_Some. done. }
  clear H0. induction Hsteps as [|st0 st1 st Hs _ IH]; [done|]. apply IH.
  destruct Hs; [eapply same_chain_ok, Hch0; apply on_tick_same|eapply same_chain_ok, Hch0; apply on_attestation_same
    |eapply same_chain_ok, Hch0; apply on_attester_slashing_same|by eapply same_chain_ok, Hch0|].
  by eapply valid_block_chain.
Qed.

(** C2: The tree of a running node.  Start from an anchor whose state is well
    formed and matches the anchor block, and apply any sequence of handlers in
    which every imported block comes with the outcome of the phase 0 state
    transition on its parent's state: in the resulting store every block is
    later than its parent and has a well-formed post-state with that block as
    its latest header, so [get_head] returns the block that LMD-GHOST gives. *)
Theorem reachable_store_ok {E} anchor_state anchor_block st0 st :
  wf_state anchor_state -> checkpoints_ordered anchor_state ->
  bh_slot (latest_block_header anchor_state) = b_slot anchor_block ->
  (forall r, block_root anchor_block = Ok r -> b_parent_root anchor_block <> r) ->
  get_forkchoice_store (E:=E) anchor_state anchor_block = Ok st0 -> rtc valid_step st0 st ->
  chain_ok st /\ exists h, get_head (E:=E) st = Ok h /\ ghost st (effective_base st) h.
Proof using SpecOk0. apply reachable_chain. Qed.
End chains.
