(* ===== verification/Optimistic.v ===== *)
(** * Optimistic sync

    crates/pharos-fork-choice/src/optimistic.rs: which blocks the execution
    client has verified, and what its verdicts do to the payload statuses of the
    fork-choice store, with the two execution helpers of pow_block.rs, the merge
    block check of that file, and the verdict handling of
    crates/pharos-node/src/engine_driver.rs.

    Of a block these functions read its parent root and the block hash of its
    execution payload; [ExecutionBlock] lists the two, so that the theorems hold
    for the blocks of every fork.  Of the store they read the blocks, the payload
    statuses and the finalized root ([OptStore]). *)

From Stdlib Require Import ZArith Lia.
From S2P Require Import Prelude SszCodec SszBitfield SszTypes Merkle SszTree Shuffling Spec BeaconState Invariant Roots Accessors ForkStore ForkHead ForkHandlers.

(** [BeaconBlockView::parent_root] and [BeaconSpec::get_execution_block_hash],
    which is [None] for the blocks of phase 0 and Altair. *)
Class ExecutionBlock (B : Type) : Type := {
  block_parent_root : B -> Root;
  get_execution_block_hash : B -> option bytes;
}.

#[global] Instance phase0_execution_block : ExecutionBlock BeaconBlock := {|
  block_parent_root := b_parent_root;
  get_execution_block_hash := fun _ => None;
|}.

(** A block of Bellatrix or later, as far as it is read here. *)
Record PayloadBlock : Type := mkPayloadBlock {
  pb_parent_root : Root;
  pb_block_hash : bytes;
}.

#[global] Instance payload_execution_block : ExecutionBlock PayloadBlock := {|
  block_parent_root := pb_parent_root;
  get_execution_block_hash := fun b => Some (pb_block_hash b);
|}.

Record OptStore (B : Type) : Type := mkOptStore {
  os_blocks : gmap Root B;
  os_payload_statuses : gmap Root PayloadStatus;
  os_finalized_root : Root;
}.
Arguments mkOptStore {_} _ _ _.
Arguments os_blocks {_} _.
Arguments os_payload_statuses {_} _.
Arguments os_finalized_root {_} _.

Definition SAFE_SLOTS_TO_IMPORT_OPTIMISTICALLY : Z := 128.

Section optimistic.
  Context {B : Type} `{ExecutionBlock B}.
  Implicit Types st : OptStore B.

(** ** pow_block.rs *)
Definition execution_block_hash_at_root st (root : Root) : bytes :=
  default zero_chunk (os_blocks st !! root ≫= get_execution_block_hash).

Definition block_is_execution_enabled (block : B) : bool :=
  match get_execution_block_hash block with
  | Some hash => negb (bool_decide (hash = zero_chunk))
  | None => false
  end.

(** ** Reading the statuses *)
Definition opt_mark st (root : Root) (status : PayloadStatus) : OptStore B :=
  mkOptStore (os_blocks st) (<[root := status]> (os_payload_statuses st)) (os_finalized_root st).

Definition is_optimistic_candidate_block st (current_slot : Z) (parent_root : Root) (block_slot : Z) : bool :=
  match os_blocks st !! parent_root with
  | Some parent_block => block_is_execution_enabled parent_block
  | None => false
  end || (wadd block_slot SAFE_SLOTS_TO_IMPORT_OPTIMISTICALLY <=? current_slot).

Definition is_optimistic st (root : Root) : bool :=
  match os_blocks st !! root with
  | None => false
  | Some block =>
      block_is_execution_enabled block &&
      match os_payload_statuses st !! root with Some Valid => false | _ => true end
  end.

(** [parent == Root::default() || parent == cur]. *)
Definition last_parent (cur parent : Root) : bool :=
  bool_decide (parent = zero_chunk) || bool_decide (parent = cur).

(** A walk towards genesis visits every known block at most once and ends at
    the latest at an unknown one. *)
Definition walk_fuel st : nat := Datatypes.S (size (os_blocks st)).

Fixpoint first_exec_loop (fuel : nat) st (cur : Root) (first_exec : option Root) : option Root :=
  match fuel, os_blocks st !! cur with
  | Datatypes.S fuel, Some block =>
      let first_exec := if block_is_execution_enabled block then Some cur else first_exec in
      let parent := block_parent_root block in
      if last_parent cur parent then first_exec else first_exec_loop fuel st parent first_exec
  | _, _ => first_exec
  end.

(** [Some] of what the loop returns, [None] when it breaks. *)
Fixpoint matching_loop (fuel : nat) st (lvh : bytes) (block_in_question cur : Root) (prev_child : option Root)
    : option Root :=
  match fuel with
  | O => None
  | Datatypes.S fuel =>
      if bool_decide (execution_block_hash_at_root st cur = lvh)
      then Some (default block_in_question prev_child)
      else
        match os_blocks st !! cur with
        | None => None
        | Some block =>
            let parent := block_parent_root block in
            if last_parent cur parent then None
            else matching_loop fuel st lvh block_in_question parent (Some cur)
        end
  end.

Definition resolve_invalid_block st (block_in_question : Root) (latest_valid_hash : option bytes) : Root :=
  match latest_valid_hash with
  | None => block_in_question
  | Some lvh =>
      if bool_decide (lvh = zero_chunk)
      then default block_in_question (first_exec_loop (walk_fuel st) st block_in_question None)
      else default block_in_question
             (matching_loop (walk_fuel st) st lvh block_in_question block_in_question None)
  end.

(** ** Verdicts *)
Fixpoint promote_loop (fuel : nat) st (cur : Root) : OptStore B :=
  match fuel with
  | O => st
  | Datatypes.S fuel =>
      match os_payload_statuses st !! cur with
      | Some Valid | Some Invalid => st
      | _ =>
          let st := opt_mark st cur Valid in
          match os_blocks st !! cur with
          | None => st
          | Some block =>
              let parent := block_parent_root block in
              if last_parent cur parent then st else promote_loop fuel st parent
          end
      end
  end.

Definition promote_valid_ancestors st (root : Root) : OptStore B := promote_loop (walk_fuel st) st root.

Fixpoint verified_loop (fuel : nat) st (cur : Root) : Root :=
  match fuel with
  | O => cur
  | Datatypes.S fuel =>
      if negb (is_optimistic st cur) then cur
      else
        match os_blocks st !! cur with
        | None => os_finalized_root st
        | Some block =>
            let parent := block_parent_root block in
            if last_parent cur parent then cur
            else if bool_decide (os_blocks st !! parent = None) then os_finalized_root st
            else verified_loop fuel st parent
        end
  end.

Definition latest_verified_ancestor st (root : Root) : Root := verified_loop (walk_fuel st) st root.

(** [head] is [get_head(store)], [base] is [effective_base(store)]. *)
Definition is_optimistic_node st (head base : Root) : bool :=
  is_optimistic st head ||
  (bool_decide (head = base) &&
   existsb (fun '(root, b) =>
       bool_decide (block_parent_root b = base) && block_is_execution_enabled b &&
       match os_payload_statuses st !! root with Some Invalid => true | _ => false end)
     (map_to_list (os_blocks st))).

(** [children_of.entry(block.parent_root()).or_default().push(root)]. *)
Definition opt_children_of (blocks : gmap Root B) : gmap Root (list Root) :=
  foldl (fun idx '(root, block) =>
      let p := block_parent_root block in <[p := default [] (idx !! p) ++ [root]]> idx)
    ∅ (map_to_list blocks).

(** Every turn takes another block off the queue. *)
Fixpoint invalidate_loop (fuel : nat) (children_of : gmap Root (list Root)) st (queue : list Root) : OptStore B :=
  match fuel, queue with
  | Datatypes.S fuel, root :: queue =>
      invalidate_loop fuel children_of (opt_mark st root Invalid) (queue ++ default [] (children_of !! root))
  | _, _ => st
  end.

Definition apply_invalid_payload st (block_in_question : Root) (latest_valid_hash : option bytes) : OptStore B :=
  let invalid_root := resolve_invalid_block st block_in_question latest_valid_hash in
  let children_of := opt_children_of (os_blocks st) in
  invalidate_loop (walk_fuel st) children_of st [invalid_root].

(** The engine driver on a VALID answer to newPayload. *)
Definition on_valid_verdict st (block_root : Root) : OptStore B :=
  let st := opt_mark st block_root Valid in
  promote_valid_ancestors st block_root.

(** The engine driver's [safe_block_hash], [safe_root] being the ancestor of the
    head at the justified epoch, and [finalized_block_hash]. *)
Definition compute_safe_block_hash st (safe_root : Root) : bytes :=
  execution_block_hash_at_root st (latest_verified_ancestor st safe_root).
Definition compute_finalized_block_hash st : bytes :=
  execution_block_hash_at_root st (latest_verified_ancestor st (os_finalized_root st)).
End optimistic.

(** ** Walks towards genesis *)
Section walks.
  Context {B : Type} `{ExecutionBlock B}.
  Implicit Types (bs : gmap Root B) (st : OptStore B).

(** No block is its own ancestor. *)
Definition acyclic bs : Prop :=
  exists rank : Root -> nat, forall r b,
    bs !! r = Some b -> is_Some (bs !! block_parent_root b) -> (rank (block_parent_root b) < rank r)%nat.

(** The roots the walk from [r] visits: known blocks, and last a block without
    predecessor or a root that is not known. *)
Inductive path bs : Root -> list Root -> Prop :=
  | path_unknown r : bs !! r = None -> path bs r [r]
  | path_last r b : bs !! r = Some b -> last_parent r (block_parent_root b) = true -> path bs r [r]
  | path_step r b l : bs !! r = Some b -> last_parent r (block_parent_root b) = false ->
      path bs (block_parent_root b) l -> path bs r (r :: l).

Definition opt_child bs (p c : Root) : Prop := exists b, bs !! c = Some b /\ block_parent_root b = p.

(** [descends bs a r]: [r] is [a] or reached from [a] through children. *)
Definition descends bs : Root -> Root -> Prop := rtc (opt_child bs).

Lemma path_total bs r : acyclic bs -> exists l, path bs r l.
Proof.
  intros [rank Hr]. remember (rank r) as n eqn:Hn. revert r Hn.
  induction (Nat.lt_wf_0 n) as [n _ IH]; intros r ->.
  destruct (bs !! r) as [b|] eqn:Eb; [|by exists [r]; constructor].
  destruct (last_parent r (block_parent_root b)) eqn:El; [by exists [r]; eapply path_last|].
  destruct (bs !! block_parent_root b) as [p|] eqn:Ep.
  - edestruct (IH _ (Hr r b Eb ltac:(by rewrite Ep)) _ eq_refl) as [l Hl]. exists (r :: l). by eapply path_step.
  - exists [r; block_parent_root b]. by eapply path_step; [..|constructor].
Qed.

Lemma path_unique bs r l l' : path bs r l -> path bs r l' -> l = l'.
Proof.
  intros Hp. revert l'. induction Hp as [|r b ? ?|r b l ? ? ? IH]; intros l'; inversion 1; simplify_eq; try congruence.
  f_equal. eauto.
Qed.

Lemma path_descends bs r l a : path bs r l -> a ∈ l -> descends bs a r.
Proof.
  induction 1 as [| |r b l Hb ? ? IH]; [intros ->%list_elem_of_singleton; constructor..|].
  intros [->|Ha%IH]%elem_of_cons; [constructor|]. eapply rtc_r; [exact Ha|]. by exists b.
Qed.

Lemma path_rank bs rank r l :
  (forall r b, bs !! r = Some b -> is_Some (bs !! block_parent_root b) -> (rank (block_parent_root b) < rank r)%nat) ->
  path bs r l -> NoDup l /\ forall x, x ∈ l -> is_Some (bs !! x) -> (rank x <= rank r)%nat /\ is_Some (bs !! r).
Proof.
  intros Hr. induction 1 as [r|r b|r b l Hb Hl Hp [IHn IHr] ].
  1,2: split; [apply NoDup_singleton|]; intros x ->%list_elem_of_singleton; auto with lia.
  assert (forall x, x ∈ l -> is_Some (bs !! x) -> (rank x < rank r)%nat) as Hlt.
  { intros x Hx [Hle Hk]%IHr; [|done]. specialize (Hr r b Hb Hk). lia. }
  split.
  - constructor; [|done]. intros Hin. specialize (Hlt r Hin ltac:(by rewrite Hb)). lia.
  - intros x [->|Hx]%elem_of_cons Hk; [by rewrite Hb|]. specialize (Hlt x Hx Hk). rewrite Hb. split; [lia|done].
Qed.

Lemma path_known bs r l : path bs r l -> (length l <= Datatypes.S (length (filter (fun x => is_Some (bs !! x)) l)))%nat.
Proof.
  induction 1 as [r|r b|r b l Hb ? ? IH]; [cbn; lia..|]. rewrite filter_cons_True by (by rewrite Hb).
  cbn [length]. lia.
Qed.

Lemma path_length st r l : acyclic (os_blocks st) -> path (os_blocks st) r l -> (length l <= walk_fuel st)%nat.
Proof.
  intros [rank Hr] Hp. destruct (path_rank _ _ _ _ Hr Hp) as [Hn _].
  pose proof (path_known _ _ _ Hp) as Hk. unfold walk_fuel.
  enough (length (filter (fun x => is_Some (os_blocks st !! x)) l) <= size (os_blocks st))%nat by lia.
  rewrite <-size_dom, <-(size_list_to_set (C:=gset Root)) by (by apply NoDup_filter).
  apply subseteq_size. intros x. rewrite elem_of_list_to_set, list_elem_of_filter, elem_of_dom. tauto.
Qed.
End walks.

(** ** The invalid block *)
Section invalid.
  Context {B : Type} `{ExecutionBlock B}.
  Implicit Types (bs : gmap Root B) (st : OptStore B).

Definition exec_at st (r : Root) : bool :=
  match os_blocks st !! r with Some b => block_is_execution_enabled b | None => false end.

(** The table of the specification, for the walk [l] from the block in
    question: nothing known, the execution-enabled block nearest to genesis, or
    the child of the latest valid block. *)
Definition invalid_block st (block_in_question : Root) (l : list Root) (lvh : option bytes) (r : Root) : Prop :=
  match lvh with
  | None => r = block_in_question
  | Some h =>
      if bool_decide (h = zero_chunk)
      then r = default block_in_question (last (filter (fun x => exec_at st x = true) l))
      else
        (exists l1 a l2, l = l1 ++ a :: l2 /\ execution_block_hash_at_root st a = h /\
           Forall (fun x => execution_block_hash_at_root st x <> h) l1 /\
           r = default block_in_question (last l1)) \/
        (Forall (fun x => execution_block_hash_at_root st x <> h) l /\ r = block_in_question)
  end.

Lemma first_exec_path fuel st r l acc :
  path (os_blocks st) r l -> (length l <= fuel)%nat ->
  first_exec_loop fuel st r acc =
    match last (filter (fun x => exec_at st x = true) l) with Some x => Some x | None => acc end.
Proof.
  intros Hp. revert fuel acc. induction Hp as [r Hr|r b Hb Hl|r b l Hb Hl Hp IH]; intros [|fuel] acc; cbn [length]; try lia;
    intros Hf; cbn [first_exec_loop]; rewrite filter_cons; case_decide as He; unfold exec_at in He;
    rewrite ?Hr, ?Hb, ?Hl in *; rewrite ?IH by lia; try done;
    [by rewrite He|by destruct (block_is_execution_enabled b)|..].
  - rewrite He, last_cons. by destruct (last _).
  - apply not_true_is_false in He. by rewrite He.
Qed.

Lemma matching_path fuel st h q r l prev :
  path (os_blocks st) r l -> (length l <= fuel)%nat ->
  match matching_loop fuel st h q r prev with
  | Some x => exists l1 a l2, l = l1 ++ a :: l2 /\ execution_block_hash_at_root st a = h /\
      Forall (fun x => execution_block_hash_at_root st x <> h) l1 /\
      x = match last l1 with Some c => c | None => default q prev end
  | None => Forall (fun x => execution_block_hash_at_root st x <> h) l
  end.
Proof.
  intros Hp. revert fuel prev. induction Hp as [r Hr|r b Hb Hl|r b l Hb Hl Hp IH]; intros [|fuel] prev; cbn [length]; try lia;
    intros Hf; cbn [matching_loop]; case_bool_decide as Hh; try (by exists [], r; eexists); rewrite ?Hr, ?Hb, ?Hl;
    [by constructor..|].
  specialize (IH fuel (Some r) ltac:(lia)). destruct (matching_loop _ _ _ _ _ _) as [x|]; [|by constructor].
  destruct IH as (l1 & a & l2 & -> & Ha & Hl1 & ->). exists (r :: l1), a, l2.
  split_and!; [done..|by constructor|]. rewrite last_cons. by destruct (last l1).
Qed.

Lemma resolve_invalid_block_ok st q l lvh :
  acyclic (os_blocks st) -> path (os_blocks st) q l -> invalid_block st q l lvh (resolve_invalid_block st q lvh).
Proof.
  intros Ha Hp. pose proof (path_length _ _ _ Ha Hp) as Hf. destruct lvh as [h|]; [|done].
  unfold invalid_block, resolve_invalid_block.
  case_bool_decide as Hz.
  - rewrite (first_exec_path _ _ _ _ _ Hp Hf). by destruct (last _).
  - pose proof (matching_path _ _ h q _ _ None Hp Hf) as Hm. destruct (matching_loop _ _ _ _ _ _) as [x|]; [left|by right].
    destruct Hm as (l1 & a & l2 & ? & ? & ? & ->). exists l1, a, l2. split_and!; [done..|]. by destruct (last l1).
Qed.

Lemma path_head bs r l : path bs r l -> r ∈ l.
Proof. inversion 1; set_solver. Qed.

(** The invalid block is on the walk, so the block in question is below it. *)
Lemma invalid_block_on_path st q l lvh r : path (os_blocks st) q l -> invalid_block st q l lvh r -> r ∈ l.
Proof.
  intros Hp. pose proof (path_head _ _ _ Hp) as Hq. unfold invalid_block. destruct lvh as [h|]; [|by intros ->].
  case_bool_decide.
  - intros ->. destruct (last _) as [x|] eqn:E; [|done]. cbn. by apply last_Some_elem_of, list_elem_of_filter in E as [_ ?].
  - intros [(l1 & a & l2 & -> & _ & _ & ->)|[_ ->] ]; [|done]. destruct (last l1) as [x|] eqn:E; [|done].
    apply elem_of_app. left. by apply last_Some_elem_of.
Qed.
End invalid.

(** ** Invalidation *)
Section invalidation.
  Context {B : Type} `{ExecutionBlock B}.
  Implicit Types (bs : gmap Root B) (st : OptStore B).

Lemma opt_children_fold (l : list (Root * B)) (idx : gmap Root (list Root)) p :
  default [] (foldl (fun idx '(root, block) =>
      let p := block_parent_root block in <[p := default [] (idx !! p) ++ [root]]> idx) idx l !! p) =
  default [] (idx !! p) ++ (filter (fun rb => block_parent_root rb.2 = p) l).*1.
Proof.
  revert idx. induction l as [|[r b] l IH]; intros idx; [by rewrite app_nil_r|]. cbn [foldl]. rewrite IH, filter_cons.
  cbv zeta. cbn [snd]. case_decide as Hd; [subst p; rewrite lookup_insert_eq|by rewrite lookup_insert_ne].
  cbn. by rewrite <-app_assoc.
Qed.

Lemma opt_children_spec bs p c : c ∈ default [] (opt_children_of bs !! p) <-> opt_child bs p c.
Proof.
  unfold opt_children_of. rewrite opt_children_fold, lookup_empty. cbn [default from_option app].
  rewrite list_elem_of_fmap. split.
  - intros ([r b] & -> & [Hp Hin]%list_elem_of_filter). exists b. by apply elem_of_map_to_list in Hin.
  - intros (b & Hb & Hp). exists (c, b). split; [done|]. apply list_elem_of_filter. by rewrite elem_of_map_to_list.
Qed.

Lemma opt_children_NoDup bs p : NoDup (default [] (opt_children_of bs !! p)).
Proof.
  unfold opt_children_of. rewrite opt_children_fold, lookup_empty. cbn [default from_option app].
  eapply sublist_NoDup; [apply (NoDup_fst_map_to_list bs)|]. apply fmap_sublist, sublist_filter.
Qed.

Lemma descends_rank bs rank a b :
  (forall r b, bs !! r = Some b -> is_Some (bs !! block_parent_root b) -> (rank (block_parent_root b) < rank r)%nat) ->
  is_Some (bs !! a) -> descends bs a b -> is_Some (bs !! b) /\ (rank a <= rank b)%nat.
Proof.
  intros Hr Ha Hd. induction Hd as [|a x b (c & Hx & <-) _ IH]; [done|]. specialize (Hr x c Hx Ha).
  destruct IH; [by rewrite Hx|]. split; [done|lia].
Qed.

Lemma acyclic_child bs r x : acyclic bs -> descends bs r x -> opt_child bs x r -> False.
Proof.
  intros [rank Hr] Hd (b & Hb & Hp). destruct (descends_rank bs rank r x Hr) as [Hx Hle]; [by rewrite Hb|done|].
  subst x. specialize (Hr r b Hb Hx). lia.
Qed.

(** [V] has been taken off the queue, [Q] is on it. *)
Record bfs_inv bs (r : Root) (V Q : list Root) : Prop := {
  bi_nodup : NoDup (V ++ Q);
  bi_reached : forall x, x ∈ V ++ Q -> x = r \/ exists p, p ∈ V /\ opt_child bs p x;
  bi_closed : forall p c, p ∈ V -> opt_child bs p c -> c ∈ V ++ Q;
  bi_descends : forall x, x ∈ V ++ Q -> descends bs r x;
}.

Lemma bfs_pop bs r V x Q :
  acyclic bs -> bfs_inv bs r V (x :: Q) -> bfs_inv bs r (V ++ [x]) (Q ++ default [] (opt_children_of bs !! x)).
Proof.
  intros Hac [Hnd Hre Hcl Hde]. set (ch := default [] _).
  assert ((V ++ [x]) ++ Q ++ ch = (V ++ x :: Q) ++ ch) as Heq by (by rewrite <-!app_assoc).
  assert (forall c, c ∈ ch <-> opt_child bs x c) as Hch by apply opt_children_spec.
  assert (x ∈ V ++ x :: Q) as Hx by set_solver.
  split; rewrite ?Heq.
  - apply NoDup_app. split_and!; [done| |apply opt_children_NoDup]. intros c Hc Hxc%Hch.
    destruct (Hre c Hc) as [->|(p & Hp & b & Hb & Hpb)]; [exact (acyclic_child bs r x Hac (Hde x Hx) Hxc)|].
    destruct Hxc as (b' & Hb' & Hx'). simplify_eq. apply NoDup_app in Hnd as (_ & Hd & _).
    eapply Hd; [exact Hp|set_solver].
  - intros c [Hc|Hc%Hch]%elem_of_app; [|right; exists x; split; [set_solver|done] ].
    destruct (Hre c Hc) as [->|(p & Hp & Hpc)]; [by left|right; exists p; split; [set_solver|done] ].
  - intros p c [Hp| ->%list_elem_of_singleton]%elem_of_app Hpc; apply elem_of_app; [left; eauto|right; by apply Hch].
  - intros c [Hc|Hc%Hch]%elem_of_app; [auto|]. eapply rtc_r; [by apply Hde|done].
Qed.

Lemma bfs_size bs r V Q : bfs_inv bs r V Q -> (length V + length Q <= Datatypes.S (size bs))%nat.
Proof.
  intros [Hnd Hre _ _]. rewrite <-length_app, <-(size_list_to_set (C:=gset Root)) by done.
  trans (size ({[r]} ∪ dom bs)).
  - apply subseteq_size. intros x. rewrite elem_of_list_to_set, elem_of_union, elem_of_singleton, elem_of_dom.
    intros [->|(p & _ & b & Hb & _)]%Hre; [by left|right]. by rewrite Hb.
  - rewrite size_union_alt, size_singleton, <-(size_dom bs). apply le_n_S, subseteq_size. set_solver.
Qed.

Lemma invalidate_loop_ok fuel st r V Q :
  let bs := os_blocks st in
  acyclic bs -> bfs_inv bs r V Q -> (Datatypes.S (size bs) <= length V + fuel)%nat ->
  let st' := invalidate_loop fuel (opt_children_of bs) st Q in
  os_blocks st' = bs /\ os_finalized_root st' = os_finalized_root st /\
  exists W, Q ⊆ W /\ bfs_inv bs r (V ++ W) [] /\
    (forall k, k ∈ W -> os_payload_statuses st' !! k = Some Invalid) /\
    (forall k, k ∉ W -> os_payload_statuses st' !! k = os_payload_statuses st !! k).
Proof.
  cbv zeta. revert st V Q. induction fuel as [|fuel IH]; intros st V Q Hac Hinv Hf;
    (destruct Q as [|x Q]; [cbn; split_and!; [done..|]; exists []; rewrite app_nil_r;
       split_and!; [done|done|by intros k ?%elem_of_nil|done]|]).
  { pose proof (bfs_size _ _ _ _ Hinv) as Hs. cbn [length] in Hs. lia. }
  cbn [invalidate_loop]. specialize (IH (opt_mark st x Invalid) (V ++ [x]) (Q ++ default [] (opt_children_of (os_blocks st) !! x))).
  destruct IH as (Hb & Hfin & W & HQ & HW & Hin & Hout); [done|by apply bfs_pop|rewrite length_app; cbn; lia|].
  change (os_blocks (opt_mark st x Invalid)) with (os_blocks st) in *.
  split_and!; [done..|]. exists (x :: W). split_and!.
  - set_solver.
  - by rewrite <-app_assoc in HW.
  - intros k Hk. destruct (decide (k ∈ W)) as [|Hn]; [by apply Hin|]. apply elem_of_cons in Hk as [->|]; [|done].
    rewrite (Hout _ Hn). cbn [os_payload_statuses opt_mark]. by rewrite lookup_insert_eq.
  - intros k [Hk Hn]%not_elem_of_cons. rewrite (Hout _ Hn). cbn [os_payload_statuses opt_mark]. by rewrite lookup_insert_ne.
Qed.
End invalidation.

(** ** What the verdicts do *)
Section verdicts.
  Context {B : Type} `{ExecutionBlock B}.
  Implicit Types st : OptStore B.

Lemma apply_invalid_payload_ok st q lvh :
  acyclic (os_blocks st) ->
  let st' := apply_invalid_payload st q lvh in
  os_blocks st' = os_blocks st /\ os_finalized_root st' = os_finalized_root st /\
  forall k, (descends (os_blocks st) (resolve_invalid_block st q lvh) k -> os_payload_statuses st' !! k = Some Invalid) /\
    (~ descends (os_blocks st) (resolve_invalid_block st q lvh) k ->
       os_payload_statuses st' !! k = os_payload_statuses st !! k).
Proof.
  intros Hac. unfold apply_invalid_payload. set (r := resolve_invalid_block st q lvh).
  destruct (invalidate_loop_ok (walk_fuel st) st r [] [r]) as (Hb & Hf & W & HQ & HW & Hin & Hout); [done| |done|].
  { split; cbn.
    - apply NoDup_singleton.
    - intros x ->%list_elem_of_singleton. by left.
    - by intros p c ?%elem_of_nil.
    - intros x ->%list_elem_of_singleton. constructor. }
  split_and!; [done..|]. destruct HW as [_ _ Hcl Hde]. rewrite app_nil_r in *. cbn [app] in *.
  assert (forall k, descends (os_blocks st) r k -> k ∈ W) as Hall.
  { intros k. apply (rtc_ind_r (fun k => k ∈ W)); [set_solver|]. intros x y _ Hxy Hx. by eapply Hcl. }
  intros k. split; [intros Hk; by apply Hin, Hall|]. intros Hk. apply Hout. intros Hw. by apply Hk, Hde.
Qed.

(** C26: an INVALID verdict.  On a block tree, [apply_invalid_payload] marks the
    block that the latest valid hash singles out on the way from the block in
    question to genesis, and all its descendants, among them the block in
    question itself; it marks nothing else. *)
Theorem invalid_payload_exact st q lvh :
  acyclic (os_blocks st) ->
  let st' := apply_invalid_payload st q lvh in
  exists l r, path (os_blocks st) q l /\ invalid_block st q l lvh r /\
    os_blocks st' = os_blocks st /\ os_payload_statuses st' !! q = Some Invalid /\
    forall k, (descends (os_blocks st) r k -> os_payload_statuses st' !! k = Some Invalid) /\
      (~ descends (os_blocks st) r k -> os_payload_statuses st' !! k = os_payload_statuses st !! k).
Proof.
  intros Hac st'. destruct (path_total _ q Hac) as [l Hl]. pose proof (resolve_invalid_block_ok st q l lvh Hac Hl) as Hr.
  destruct (apply_invalid_payload_ok st q lvh Hac) as (Hb & _ & Hk). fold st' in Hb, Hk.
  exists l, (resolve_invalid_block st q lvh). split_and!; [done..| |done].
  apply Hk. eapply path_descends; [exact Hl|]. by eapply invalid_block_on_path.
Qed.

(** Settled by the execution client. *)
Definition settled st (r : Root) : bool :=
  match os_payload_statuses st !! r with Some Valid | Some Invalid => true | _ => false end.

Lemma promote_path fuel st r l :
  path (os_blocks st) r l -> NoDup l -> (length l <= fuel)%nat ->
  let st' := promote_loop fuel st r in
  os_blocks st' = os_blocks st /\
  exists l1 l2, l = l1 ++ l2 /\ Forall (fun x => settled st x = false) l1 /\
    (forall x, head l2 = Some x -> settled st x = true) /\
    (forall k, k ∈ l1 -> os_payload_statuses st' !! k = Some Valid) /\
    (forall k, k ∉ l1 -> os_payload_statuses st' !! k = os_payload_statuses st !! k).
Proof.
  cbv zeta. revert st r l. induction fuel as [|fuel IH]; intros st r l Hp Hnd Hf.
  { by destruct Hp; cbn in Hf; lia. }
  cbn [promote_loop]. destruct (settled st r) eqn:Es.
  { assert (promote_loop (Datatypes.S fuel) st r = st) as Hst
      by (unfold settled in Es; cbn; by destruct (os_payload_statuses st !! r) as [[]|]).
    cbn [promote_loop] in Hst. rewrite Hst. split; [done|]. exists [], l.
    split_and!; [done..| |by intros k ?%elem_of_nil|done]. intros x Hx. destruct Hp; cbn in Hx; congruence. }
  assert (forall (A : Type) (a b : A), match os_payload_statuses st !! r with Some Valid | Some Invalid => a | _ => b end = b)
    as Hm by (intros; unfold settled in Es; by destruct (os_payload_statuses st !! r) as [[]|]).
  rewrite Hm. cbn [os_blocks opt_mark].
  assert (forall k, k ∉ [r] -> os_payload_statuses (opt_mark st r Valid) !! k = os_payload_statuses st !! k) as Hmark
    by (intros k Hk; cbn; rewrite lookup_insert_ne; set_solver).
  destruct Hp as [r Hr|r b Hb Hl|r b l Hb Hl Hp].
  1,2: rewrite ?Hr, ?Hb, ?Hl; split; [done|]; exists [r], []; split_and!; [done|by constructor|done| |exact Hmark];
    intros k ->%list_elem_of_singleton; cbn; by rewrite lookup_insert_eq.
  rewrite Hb, Hl. apply NoDup_cons in Hnd as [Hrl Hnd].
  destruct (IH (opt_mark st r Valid) (block_parent_root b) l) as (Hbs & l1 & l2 & -> & Hu & Hs & Hin & Hout); [done..|cbn in Hf; lia|].
  split; [done|]. exists (r :: l1), l2.
  assert (forall x, x ∈ l1 ++ l2 -> settled (opt_mark st r Valid) x = settled st x) as Hsame.
  { intros x Hx. unfold settled. rewrite Hmark; [done|]. intros ->%list_elem_of_singleton. done. }
  split_and!; [done| | | |].
  - constructor; [done|]. apply Forall_forall. intros x Hx. rewrite <-Hsame by set_solver. by eapply Forall_forall in Hu.
  - intros x Hx. rewrite <-Hsame; [by apply Hs|]. destruct l2; simplify_eq/=. set_solver.
  - intros k Hk. destruct (decide (k ∈ l1)) as [|Hn]; [by apply Hin|]. apply elem_of_cons in Hk as [->|]; [|done].
    rewrite Hout by done. cbn. by rewrite lookup_insert_eq.
  - intros k [Hk Hn]%not_elem_of_cons. rewrite Hout by done. apply Hmark. set_solver.
Qed.
End verdicts.

Section verified.
  Context {B : Type} `{ExecutionBlock B}.
  Implicit Types st : OptStore B.

(** [promote_valid_ancestors] marks the walk from [root] up to the first block
    the execution client has already settled, and nothing else.  If no block of
    the walk is invalid and the blocks beyond a valid one are valid, the whole
    walk is valid afterwards. *)
Theorem promote_valid_ancestors_correct st root l :
  acyclic (os_blocks st) -> path (os_blocks st) root l ->
  let st' := promote_valid_ancestors st root in
  (exists l1 l2, l = l1 ++ l2 /\ Forall (fun x => settled st x = false) l1 /\
    (forall x, head l2 = Some x -> settled st x = true) /\
    (forall k, k ∈ l1 -> os_payload_statuses st' !! k = Some Valid) /\
    (forall k, k ∉ l1 -> os_payload_statuses st' !! k = os_payload_statuses st !! k)) /\
  ((forall x, x ∈ l -> os_payload_statuses st !! x <> Some Invalid) ->
   (forall l1 x l2, l = l1 ++ x :: l2 -> os_payload_statuses st !! x = Some Valid ->
      Forall (fun y => os_payload_statuses st !! y = Some Valid) l2) ->
   Forall (fun x => os_payload_statuses st' !! x = Some Valid) l).
Proof.
  intros Hac Hp st'. destruct Hac as [rank Hr] eqn:Hac'. destruct (path_rank _ _ _ _ Hr Hp) as [Hnd _].
  destruct (promote_path _ st root l Hp Hnd (path_length _ _ _ Hac Hp)) as (_ & l1 & l2 & -> & Hu & Hs & Hin & Hout).
  fold (promote_valid_ancestors st root) in Hin, Hout. fold st' in Hin, Hout. split; [by exists l1, l2|].
  intros Hinv Hval. apply Forall_app. split; [by apply Forall_forall|].
  destruct l2 as [|x l2]; [done|]. assert (os_payload_statuses st !! x = Some Valid) as Hx.
  { specialize (Hs x eq_refl). specialize (Hinv x ltac:(set_solver)). unfold settled in Hs.
    by destruct (os_payload_statuses st !! x) as [[]|]. }
  assert (Forall (fun y => os_payload_statuses st !! y = Some Valid) (x :: l2)) as Hall
    by (constructor; [done|by eapply Hval]).
  apply Forall_forall. intros y Hy. rewrite Hout; [by eapply Forall_forall in Hall|].
  intros Hy1. apply NoDup_app in Hnd as (_ & Hd & _). by eapply Hd.
Qed.

(** The engine driver marks the block valid before it promotes the ancestors, so
    the promotion stops at the block itself: no ancestor is promoted. *)
Lemma on_valid_verdict_marks_one st root : on_valid_verdict st root = opt_mark st root Valid.
Proof.
  unfold on_valid_verdict, promote_valid_ancestors, walk_fuel. cbn [promote_loop os_payload_statuses opt_mark].
  by rewrite lookup_insert_eq.
Qed.

Lemma verified_path fuel st r l :
  path (os_blocks st) r l -> (length l <= fuel)%nat ->
  let x := verified_loop fuel st r in
  exists l1 a l2, l = l1 ++ a :: l2 /\ Forall (fun y => is_optimistic st y = true) l1 /\
    ((is_optimistic st a = false /\ x = a) \/ (os_blocks st !! a = None /\ x = os_finalized_root st) \/
     (is_optimistic st a = true /\ x = a /\ exists b, os_blocks st !! a = Some b /\ last_parent a (block_parent_root b) = true)).
Proof.
  intros Hp. cbv zeta. revert fuel.
  induction Hp as [r Hr|r b Hb Hl|r b l Hb Hl Hp IH]; intros [|fuel]; cbn [length]; try lia; intros Hf;
    cbn [verified_loop]; destruct (is_optimistic st r) eqn:Eo; cbn [negb];
    try (by exists [], r; eexists; split_and!; [done..|]; left).
  - unfold is_optimistic in Eo. by rewrite Hr in Eo.
  - rewrite Hb, Hl. exists [], r, []. split_and!; [done..|]. right. right. eauto.
  - rewrite Hb, Hl. case_bool_decide as Hn.
    + exists [r], (block_parent_root b), []. inversion Hp; simplify_eq. split_and!; [done|by constructor|]. by right; left.
    + destruct (IH fuel ltac:(lia)) as (l1 & a & l2 & -> & Ho & Hx). exists (r :: l1), a, l2.
      split_and!; [done|by constructor|done].
Qed.

(** What the node calls verified.  Let the finalized block and every block
    without a predecessor be verified.  Then [latest_verified_ancestor] never
    names an optimistic block: it is the first block that is not optimistic on
    the walk from [root] towards genesis, or the finalized block when the walk
    leaves the store first.  The hash sent to the execution client as safe is
    that of a verified block. *)
Theorem safe_hash_verified st root :
  acyclic (os_blocks st) -> is_optimistic st (os_finalized_root st) = false ->
  (forall r b, os_blocks st !! r = Some b -> last_parent r (block_parent_root b) = true -> is_optimistic st r = false) ->
  let x := latest_verified_ancestor st root in
  is_optimistic st x = false /\ compute_safe_block_hash st root = execution_block_hash_at_root st x /\
  exists l l1 a l2, path (os_blocks st) root l /\ l = l1 ++ a :: l2 /\
    Forall (fun y => is_optimistic st y = true) l1 /\ is_optimistic st a = false /\
    (x = a \/ (os_blocks st !! a = None /\ x = os_finalized_root st)).
Proof.
  intros Hac Hfin Hlast x. destruct (path_total _ root Hac) as [l Hl].
  destruct (verified_path _ st root l Hl (path_length _ _ _ Hac Hl)) as (l1 & a & l2 & Heq & Ho & Hx).
  fold (latest_verified_ancestor st root) in Hx. fold x in Hx.
  destruct Hx as [[Ha Hx]|[[Ha Hx]|(Ha & Hx & b & Hb & Hlp)] ].
  - rewrite Hx. split_and!; [done|unfold compute_safe_block_hash; by fold x; rewrite Hx|].
    exists l, l1, a, l2. split_and!; [done..|by left].
  - split_and!; [by rewrite Hx|done|]. exists l, l1, a, l2.
    split_and!; [done..| |by right]. unfold is_optimistic. by rewrite Ha.
  - specialize (Hlast a b Hb Hlp). congruence.
Qed.
End verified.

(** ** The head after an INVALID verdict *)
Section heads.
  Context `{S : BeaconSpec}.
  Implicit Types st : Store.

Definition opt_store st : OptStore BeaconBlock :=
  mkOptStore (st_blocks st) (st_payload_statuses st) (cp_root (st_finalized st)).

(** [apply_invalid_payload] on the store of the fork choice. *)
Definition store_apply_invalid st (q : Root) (lvh : option bytes) : Store :=
  set_st_payload_statuses st (os_payload_statuses (apply_invalid_payload (opt_store st) q lvh)).

Lemma parents_older_acyclic (bs : gmap Root BeaconBlock) : parents_older bs -> acyclic bs.
Proof.
  intros Hold. exists (fun r => match bs !! r with Some b => before bs (b_slot b) | None => 0%nat end).
  intros r b Hb [p Hp]. cbn in *. rewrite Hb, Hp. eapply before_lt; [exact Hp|]. by eapply Hold.
Qed.

Lemma ghost_viable st r h : ghost st r h -> h = r \/ viable st h.
Proof. induction 1 as [|r c h (_ & _ & Hv) _ _ [->|IH] ]; [by left|by right|by right]. Qed.

End heads.

(** ** The merge block *)
Record PowBlock : Type := mkPowBlock {
  pow_block_hash : bytes;
  pow_parent_hash : bytes;
  pow_total_difficulty : Z;
}.

Definition is_valid_terminal_pow_block (block parent : PowBlock) (ttd : Z) : bool :=
  (ttd <=? pow_total_difficulty block) && (pow_total_difficulty parent <? ttd).

Inductive ValidateMergeBlockError (PowBlockError : Type) : Type :=
  | ActivationEpochNotReached
  | ParentHashMismatch
  | PowBlockNotFound (hash : bytes)
  | PowParentNotFound (hash : bytes)
  | InvalidTerminalPowBlock
  | Provider (e : PowBlockError).
Arguments ActivationEpochNotReached {_}.
Arguments ParentHashMismatch {_}.
Arguments PowBlockNotFound {_} _.
Arguments PowParentNotFound {_} _.
Arguments InvalidTerminalPowBlock {_}.
Arguments Provider {_} _.

(** [get_pow_block] is the method of [PowBlockProvider], a query to the execution
    client. *)
Definition validate_merge_block {PowBlockError} (payload_parent_hash : bytes) (current_epoch : Z)
    (terminal_block_hash : bytes) (terminal_block_hash_activation_epoch terminal_total_difficulty : Z)
    (get_pow_block : bytes -> result PowBlockError (option PowBlock))
    : result (ValidateMergeBlockError PowBlockError) unit :=
  if negb (bool_decide (terminal_block_hash = zero_chunk)) then
    if current_epoch <? terminal_block_hash_activation_epoch then Err ActivationEpochNotReached
    else if negb (bool_decide (payload_parent_hash = terminal_block_hash)) then Err ParentHashMismatch
    else Ok tt
  else
    found ← map_err Provider (get_pow_block payload_parent_hash);
    pow_block ← ok_or found (PowBlockNotFound payload_parent_hash);
    if bool_decide (pow_parent_hash pow_block = zero_chunk) then
      if terminal_total_difficulty <=? pow_total_difficulty pow_block then Ok tt
      else Err InvalidTerminalPowBlock
    else
      found ← map_err Provider (get_pow_block (pow_parent_hash pow_block));
      pow_parent ← ok_or found (PowParentNotFound (pow_parent_hash pow_block));
      if negb (is_valid_terminal_pow_block pow_block pow_parent terminal_total_difficulty)
      then Err InvalidTerminalPowBlock
      else Ok tt.

(** A proof-of-work chain from its genesis, as the execution client reports it. *)
Record pow_chain {E} (chain : list PowBlock) (get_pow_block : bytes -> result E (option PowBlock)) : Prop := {
  pc_found : forall i b, chain !! i = Some b -> get_pow_block (pow_block_hash b) = Ok (Some b);
  pc_genesis : forall b, chain !! 0%nat = Some b -> pow_parent_hash b = zero_chunk;
  pc_parent : forall i b p, chain !! Datatypes.S i = Some b -> chain !! i = Some p ->
    pow_parent_hash b = pow_block_hash p /\ pow_block_hash p <> zero_chunk;
  pc_difficulty : forall i b p, chain !! Datatypes.S i = Some b -> chain !! i = Some p ->
    pow_total_difficulty p <= pow_total_difficulty b;
}.

Section merge.
  Context {E : Type} (chain : list PowBlock) (get_pow_block : bytes -> result E (option PowBlock)).
  Context (Hchain : pow_chain chain get_pow_block).

Lemma pow_difficulty_mono i j b c :
  (i <= j)%nat -> chain !! i = Some b -> chain !! j = Some c -> pow_total_difficulty b <= pow_total_difficulty c.
Proof using Hchain.
  intros Hij Hb. revert c. induction Hij as [|j Hij IH]; intros c Hc; [by simplify_eq|].
  destruct (lookup_lt_is_Some_2 chain j) as [d Hd]; [apply lookup_lt_Some in Hc; lia|].
  specialize (IH d Hd). pose proof (pc_difficulty _ _ Hchain _ _ _ Hc Hd). lia.
Qed.

Lemma merge_block_difficulty i b epoch act ttd :
  chain !! i = Some b ->
  validate_merge_block (pow_block_hash b) epoch zero_chunk act ttd get_pow_block = Ok tt <->
  ttd <= pow_total_difficulty b /\ (forall j p, i = Datatypes.S j -> chain !! j = Some p -> pow_total_difficulty p < ttd).
Proof using Hchain.
  intros Hb. unfold validate_merge_block. rewrite bool_decide_true by done. cbn [negb].
  rewrite (pc_found _ _ Hchain _ _ Hb). cbn [map_err mbind result_bind ok_or]. destruct i as [|i].
  - rewrite bool_decide_true by (by eapply pc_genesis).
    destruct (Z.leb_spec ttd (pow_total_difficulty b)); split; try done; intros; lia.
  - destruct (lookup_lt_is_Some_2 chain i) as [p Hp]; [apply lookup_lt_Some in Hb; lia|].
    destruct (pc_parent _ _ Hchain _ _ _ Hb Hp) as [Hpar Hz].
    rewrite Hpar, bool_decide_false, (pc_found _ _ Hchain _ _ Hp) by done. cbn [map_err mbind result_bind ok_or].
    unfold is_valid_terminal_pow_block.
    destruct (Z.leb_spec ttd (pow_total_difficulty b)), (Z.ltb_spec (pow_total_difficulty p) ttd); cbn; split;
      try done; try lia; [intros _; split; [done|]; intros j q [= <-] Hq; by simplify_eq|].
    intros [_ Hj]. specialize (Hj i p eq_refl Hp). lia.
Qed.

(** At most one block of a proof-of-work chain passes as the terminal block. *)
Theorem terminal_block_unique i j b c epoch act ttd :
  chain !! i = Some b -> chain !! j = Some c ->
  validate_merge_block (pow_block_hash b) epoch zero_chunk act ttd get_pow_block = Ok tt ->
  validate_merge_block (pow_block_hash c) epoch zero_chunk act ttd get_pow_block = Ok tt -> i = j.
Proof using Hchain.
  assert (forall i j b c, (i < j)%nat -> chain !! i = Some b -> chain !! j = Some c ->
    validate_merge_block (pow_block_hash b) epoch zero_chunk act ttd get_pow_block = Ok tt ->
    validate_merge_block (pow_block_hash c) epoch zero_chunk act ttd get_pow_block = Ok tt -> False) as Hlt.
  { clear i j b c. intros i [|j] b c Hij Hb Hc; [lia|]. rewrite (merge_block_difficulty _ _ _ _ _ Hb), (merge_block_difficulty _ _ _ _ _ Hc).
    intros [Htb _] [_ Hp]. destruct (lookup_lt_is_Some_2 chain j) as [p Hjp]; [apply lookup_lt_Some in Hc; lia|].
    specialize (Hp j p eq_refl Hjp). pose proof (pow_difficulty_mono i j b p ltac:(lia) Hb Hjp). lia. }
  intros Hb Hc Hvb Hvc. destruct (Nat.lt_trichotomy i j) as [|[|] ]; [by destruct (Hlt i j b c)|done|by destruct (Hlt j i c b)].
Qed.
End merge.

(** ** A chain of three blocks *)
Definition ex_root (b : byte) : Root := replicate 32 b.
Definition ex_opt_store : OptStore PayloadBlock :=
  mkOptStore
    (list_to_map
       [(ex_root Byte.x0a, mkPayloadBlock zero_chunk (ex_root Byte.xa0));
        (ex_root Byte.x0b, mkPayloadBlock (ex_root Byte.x0a) (ex_root Byte.xb0));
        (ex_root Byte.x0c, mkPayloadBlock (ex_root Byte.x0b) (ex_root Byte.xc0))])
    (list_to_map
       [(ex_root Byte.x0a, Valid); (ex_root Byte.x0b, NotValidated); (ex_root Byte.x0c, NotValidated)])
    (ex_root Byte.x0a).

Lemma ex_opt_acyclic : acyclic (os_blocks ex_opt_store).
Proof.
  exists (fun r => if bool_decide (r = ex_root Byte.x0a) then 0 else if bool_decide (r = ex_root Byte.x0b) then 1 else 2)%nat.
  intros r b Hr%elem_of_list_to_map_2 Hp. revert Hp.
  rewrite !elem_of_cons, elem_of_nil in Hr. destruct Hr as [[= -> ->]|[[= -> ->]|[[= -> ->]|[] ] ] ]; cbn [block_parent_root payload_execution_block pb_parent_root].
  - intros [x Hx]. vm_compute in Hx. discriminate.
  - intros _. vm_compute. lia.
  - intros _. vm_compute. lia.
Qed.

Lemma invalid_payload_exact_witness :
  exists l r, path (os_blocks ex_opt_store) (ex_root Byte.x0c) l /\
    invalid_block ex_opt_store (ex_root Byte.x0c) l (Some (ex_root Byte.xa0)) r.
Proof.
  destruct (invalid_payload_exact ex_opt_store (ex_root Byte.x0c) (Some (ex_root Byte.xa0)) ex_opt_acyclic)
    as (l & r & Hl & Hr & _).
  exists l, r. split; [exact Hl|exact Hr].
Defined.

Lemma ex_opt_last r b :
  os_blocks ex_opt_store !! r = Some b -> last_parent r (block_parent_root b) = true -> is_optimistic ex_opt_store r = false.
Proof.
  intros Hr%elem_of_list_to_map_2. rewrite !elem_of_cons, elem_of_nil in Hr.
  destruct Hr as [[= -> ->]|[[= -> ->]|[[= -> ->]|[] ] ] ]; vm_compute; done.
Qed.

Lemma safe_hash_verified_witness :
  is_optimistic ex_opt_store (latest_verified_ancestor ex_opt_store (ex_root Byte.x0c)) = false.
Proof.
  destruct (safe_hash_verified ex_opt_store (ex_root Byte.x0c) ex_opt_acyclic ltac:(vm_compute; reflexivity) ex_opt_last) as [Hx _].
  exact Hx.
Defined.

(** The execution client has verified the last block of the chain, and the node
    still takes its parent for unverified. *)
Example valid_verdict_leaves_parent :
  let st := on_valid_verdict ex_opt_store (ex_root Byte.x0c) in
  is_optimistic st (ex_root Byte.x0c) = false /\ is_optimistic st (ex_root Byte.x0b) = true /\
  is_optimistic (promote_valid_ancestors ex_opt_store (ex_root Byte.x0c)) (ex_root Byte.x0b) = false.
Proof. vm_compute. done. Qed.
