(* ===== verification/Genesis.v ===== *)
(** * Genesis

    crates/pharos-stf/src/phase0/genesis.rs: the state built from the deposits of
    the deposit contract, the trigger condition, and the genesis block.  The
    theorems connect it with the rest: the state satisfies the invariant every
    other theorem starts from, it has a proposer, and the fork choice started
    from it stays sound. *)

From Stdlib Require Import ZArith Lia.
From S2P Require Import Prelude SszCodec SszBitfield SszTypes Merkle SszTree Shuffling Spec BeaconState Invariant Roots Accessors Mutators Justification Rewards EpochUpdates Operations Transition ForkStore ForkHead ForkHandlers ForkSafety.

(** The constants only genesis reads. *)
Class GenesisSpec : Type := {
  GENESIS_DELAY : Z;
  MIN_GENESIS_ACTIVE_VALIDATOR_COUNT : Z;
  MIN_GENESIS_TIME : Z;
}.
Definition mainnet_genesis : GenesisSpec := {|
  GENESIS_DELAY := 604800;
  MIN_GENESIS_ACTIVE_VALIDATOR_COUNT := 16384;
  MIN_GENESIS_TIME := 1606824000;
|}.
Definition minimal_genesis : GenesisSpec := {|
  GENESIS_DELAY := 300;
  MIN_GENESIS_ACTIVE_VALIDATOR_COUNT := 64;
  MIN_GENESIS_TIME := 1578009600;
|}.

(** [.expect(..)] and [.unwrap()] on a [Result]. *)
Definition expect_ok {E F A} (m : result E A) : result F A :=
  match m with Ok a => Ok a | _ => Panic end.

Section genesis.
  Context `{Crypto} `{S : BeaconSpec} `{G : GenesisSpec} {E : Type}.

Definition default_body : BeaconBlockBody :=
  mkBeaconBlockBody (replicate 96 Byte.x00) (mkEth1Data zero_chunk 0 zero_chunk) zero_chunk [] [] [] [] [].

(** [BeaconState::default()]. *)
Definition default_state : BeaconState :=
  let checkpoint := mkCheckpoint 0 zero_chunk in
  mkBeaconState 0 zero_chunk 0 (mkFork (replicate 4 Byte.x00) (replicate 4 Byte.x00) 0)
    (mkBeaconBlockHeader 0 0 zero_chunk zero_chunk zero_chunk)
    (replicate (Z.to_nat SLOTS_PER_HISTORICAL_ROOT) zero_chunk)
    (replicate (Z.to_nat SLOTS_PER_HISTORICAL_ROOT) zero_chunk)
    [] (mkEth1Data zero_chunk 0 zero_chunk) [] 0 [] []
    (replicate (Z.to_nat EPOCHS_PER_HISTORICAL_VECTOR) zero_chunk)
    (replicate (Z.to_nat EPOCHS_PER_SLASHINGS_VECTOR) 0)
    [] [] (replicate 4 false) checkpoint checkpoint checkpoint.

Definition genesis_state (genesis_time : Z) (fork : Fork) (eth1_data : Eth1Data) (body_root eth1_block_hash : bytes)
    : result E BeaconState :=
  let d := default_state in
  let state :=
    mkBeaconState genesis_time (genesis_validators_root d) (slot d) fork
      (mkBeaconBlockHeader 0 0 zero_chunk zero_chunk body_root)
      (block_roots d) (state_roots d) (historical_roots d) eth1_data (eth1_data_votes d) (eth1_deposit_index d)
      (validators d) (balances d) (randao_mixes d) (slashings d) (previous_epoch_attestations d)
      (current_epoch_attestations d) (justification_bits d) (previous_justified_checkpoint d)
      (current_justified_checkpoint d) (finalized_checkpoint d) in
  mixes ← foldM (fun mixes i => expect_ok (vector_with_set EPOCHS_PER_HISTORICAL_VECTOR mixes i eth1_block_hash))
            (seqZ 0 EPOCHS_PER_HISTORICAL_VECTOR) (randao_mixes state);
  Ok (with_randao_mixes state mixes).

(** [hash_tree_root(List[DepositData, 2**32](data))]. *)
Definition compute_deposit_data_root (data : list DepositData) : result SszError bytes :=
  leaves ← mapM deposit_data_root data;
  root ← merkleize_padded sha256 leaves (2 ^ 32);
  Ok (mix_in_length sha256 root (zlen data)).

Definition set_eth1_deposit_root (s : BeaconState) (root : bytes) : BeaconState :=
  with_eth1_data s (mkEth1Data root (e1_deposit_count (eth1_data s)) (e1_block_hash (eth1_data s))).

(** A turn of the deposit loop. *)
Definition genesis_deposit (leaves : list DepositData) (state : BeaconState) (e : Z * Deposit) : result E BeaconState :=
  deposit_root ← root_value (compute_deposit_data_root (take (Z.to_nat (e.1 + 1)) leaves));
  expect_ok (process_deposit (set_eth1_deposit_root state deposit_root) e.2 true).

(** [set_validator_effective_balance] and the like: read, change, write back. *)
Definition update_validator (f : Validator -> Validator) (state : BeaconState) (index : Z) : result E BeaconState :=
  v ← expect (validator state index);
  l ← expect_ok (list_with_set (validators state) index (f v));
  Ok (with_validators state l).
Definition set_validator_effective_balance (x : Z) : BeaconState -> Z -> result E BeaconState :=
  update_validator (fun v => mkValidator (v_pubkey v) (v_withdrawal_credentials v) x (v_slashed v)
    (v_activation_eligibility_epoch v) (v_activation_epoch v) (v_exit_epoch v) (v_withdrawable_epoch v)).
Definition set_validator_activation_eligibility_epoch (x : Z) : BeaconState -> Z -> result E BeaconState :=
  update_validator (fun v => mkValidator (v_pubkey v) (v_withdrawal_credentials v) (v_effective_balance v) (v_slashed v)
    x (v_activation_epoch v) (v_exit_epoch v) (v_withdrawable_epoch v)).
Definition set_validator_activation_epoch (x : Z) : BeaconState -> Z -> result E BeaconState :=
  update_validator (fun v => mkValidator (v_pubkey v) (v_withdrawal_credentials v) (v_effective_balance v) (v_slashed v)
    (v_activation_eligibility_epoch v) x (v_exit_epoch v) (v_withdrawable_epoch v)).

(** A turn of the activation loop. *)
Definition genesis_activation (state : BeaconState) (index : Z) : result E BeaconState :=
  balance ← expect (balance_at state index);
  let eff := Z.min (balance - balance mod EFFECTIVE_BALANCE_INCREMENT) MAX_EFFECTIVE_BALANCE in
  state ← set_validator_effective_balance eff state index;
  if eff =? MAX_EFFECTIVE_BALANCE then
    state ← set_validator_activation_eligibility_epoch GENESIS_EPOCH state index;
    set_validator_activation_epoch GENESIS_EPOCH state index
  else Ok state.

Definition set_genesis_validators_root (s : BeaconState) (root : bytes) : BeaconState :=
  mkBeaconState (genesis_time s) root (slot s) (fork s) (latest_block_header s) (block_roots s) (state_roots s)
    (historical_roots s) (eth1_data s) (eth1_data_votes s) (eth1_deposit_index s) (validators s) (balances s)
    (randao_mixes s) (slashings s) (previous_epoch_attestations s) (current_epoch_attestations s)
    (justification_bits s) (previous_justified_checkpoint s) (current_justified_checkpoint s) (finalized_checkpoint s).

Definition initialize_beacon_state_from_eth1 (eth1_block_hash : bytes) (eth1_timestamp : Z) (deposits : list Deposit)
    : result E BeaconState :=
  let fork := mkFork GENESIS_FORK_VERSION GENESIS_FORK_VERSION GENESIS_EPOCH in
  empty_body_root ← root_value (body_root default_body);
  let genesis_time := wadd eth1_timestamp GENESIS_DELAY in
  let eth1_data := mkEth1Data zero_chunk (zlen deposits) eth1_block_hash in
  state ← genesis_state genesis_time fork eth1_data empty_body_root eth1_block_hash;
  let leaves := dep_data <$> deposits in
  state ← foldM (genesis_deposit leaves) (enumerate deposits) state;
  state ← foldM genesis_activation (seqZ 0 (num_validators state)) state;
  gvr ← root_value (list_root VALIDATOR_REGISTRY_LIMIT validator_root (validators state));
  Ok (set_genesis_validators_root state gvr).

Definition is_valid_genesis_state (state : BeaconState) : bool :=
  if genesis_time state <? MIN_GENESIS_TIME then false
  else
    let active := get_active_validator_indices state GENESIS_EPOCH in
    MIN_GENESIS_ACTIVE_VALIDATOR_COUNT <=? zlen active.

Definition get_genesis_block (genesis_state_root : bytes) : BeaconBlock :=
  mkBeaconBlock 0 0 zero_chunk genesis_state_root default_body.
End genesis.

(** ** Roots that exist *)
Section root_values.
  Context `{Crypto} `{!CryptoOk _} `{S : BeaconSpec} `{!SpecOk S}.

(** A root that is computed without aborting, of 32 bytes. *)
Definition root_ok (r : result SszError bytes) : Prop := exists b, r = Ok b /\ length b = 32%nat.

Lemma tree_root_length d l : Forall (fun c : bytes => length c = 32%nat) l -> length (tree_root sha256 d l) = 32%nat.
Proof using CryptoOk0.
  unfold tree_root. destruct d as [|d]; [|intros _; apply sha256_length].
  intros Hl. cbn. by destruct Hl.
Qed.

Lemma derive_root_ok fields :
  zlen fields <= 2 ^ 63 -> Forall root_ok fields -> root_ok (derive_tree_hash_root fields).
Proof using CryptoOk0.
  intros Hlen Hf. assert (exists roots, mapM id fields = Ok roots /\ Forall (fun c : bytes => length c = 32%nat) roots /\
    length roots = length fields) as (roots & Hr & Hl & Hn).
  { clear Hlen. induction Hf as [|f fields (b & Hb & Hb') _ (roots & Hr & Hl & Hn)]; [by exists []|].
    exists (b :: roots). split_and!; [|by constructor|cbn; lia].
    apply mapM_Ok_Forall2. constructor; [exact Hb|by apply mapM_Ok_Forall2]. }
  unfold derive_tree_hash_root. rewrite Hr. cbn [mbind result_bind]. rewrite merkleize_Ok by (unfold zlen in *; lia).
  eexists. split; [done|]. by apply tree_root_length.
Qed.

Lemma pad32_length b : (length b <= 32)%nat -> length (pad32 b) = 32%nat.
Proof. intros Hb. unfold pad32. rewrite length_app, length_replicate. lia. Qed.

Lemma u64_root_ok v : root_ok (u64_root v).
Proof. eexists. split; [done|]. apply pad32_length. pose proof (zlen_to_le_bytes 8 v). unfold zlen in *. lia. Qed.

Lemma bool_root_ok b : root_ok (bool_root b).
Proof. eexists. split; [done|]. apply pad32_length. cbn. lia. Qed.

Lemma blocks_fuel_bounds {A} fuel n (l : list A) :
  (length (blocks_fuel fuel n l) <= fuel)%nat /\ Forall (fun c : list A => (length c <= n)%nat) (blocks_fuel fuel n l).
Proof.
  revert l. induction fuel as [|fuel IH]; intros [|x l]; cbn; try (split; [lia|constructor]).
  destruct (IH (drop n (x :: l))) as [H1 H2]. split; [lia|]. constructor; [|done]. rewrite length_take. lia.
Qed.

Lemma fixed_bytes_root_ok b : (length b <= 96)%nat -> root_ok (fixed_bytes_root b).
Proof using CryptoOk0.
  intros Hb. unfold fixed_bytes_root, pack_bytes_to_chunks. destruct (blocks_fuel_bounds (length b) 32 b) as [Hn Hl].
  fold (blocks 32 b) in Hn, Hl. assert (zlen (pad32 <$> blocks 32 b) <= 96) as Hz.
  { rewrite zlen_fmap. unfold zlen. lia. }
  rewrite merkleize_Ok by lia. eexists. split; [done|]. apply tree_root_length, Forall_fmap.
  eapply Forall_impl; [exact Hl|]. intros c Hc. by apply pad32_length.
Qed.

Lemma list_root_ok {T} N (elem_root : T -> result SszError bytes) l :
  zlen l <= N <= 2 ^ 63 -> Forall (fun x => root_ok (elem_root x)) l -> root_ok (list_root N elem_root l).
Proof using CryptoOk0.
  intros [Hl HN] Hf. unfold list_root.
  assert (exists roots, mapM elem_root l = Ok roots /\ length roots = length l) as (roots & -> & Hn).
  { clear Hl. induction Hf as [|x l (b & Hb & _) _ (roots & Hr & Hn)]; [by exists []|].
    exists (b :: roots). split; [|cbn; lia]. apply mapM_Ok_Forall2. constructor; [exact Hb|by apply mapM_Ok_Forall2]. }
  cbn [mbind result_bind]. rewrite merkleize_padded_Ok by (unfold zlen in *; lia). cbn [mbind result_bind].
  eexists. split; [done|]. apply sha256_length.
Qed.
End root_values.

(** ** The deposit loop *)
Section deposits.
  Context `{Crypto} `{!CryptoOk _} `{S : BeaconSpec} `{!SpecOk S}.

(** The fixed sizes of the byte strings. *)
Definition deposit_data_sized (d : DepositData) : Prop :=
  length (dd_pubkey d) = 48%nat /\ length (dd_withdrawal_credentials d) = 32%nat /\ length (dd_signature d) = 96%nat.
Definition validator_sized (v : Validator) : Prop :=
  length (v_pubkey v) = 48%nat /\ length (v_withdrawal_credentials v) = 32%nat.

Local Ltac roots :=
  repeat first [apply derive_root_ok; [unfold zlen; cbn [length]; lia|] | apply Forall_cons_2 | apply Forall_nil_2 |
    apply u64_root_ok | apply bool_root_ok | apply fixed_bytes_root_ok; first [lia|cbn; lia] ].

Lemma deposit_data_root_ok d : deposit_data_sized d -> root_ok (deposit_data_root d).
Proof using CryptoOk0.
  intros (? & ? & ?). unfold deposit_data_root. roots.
Qed.

Lemma deposit_message_root_ok d :
  deposit_data_sized d -> root_ok (deposit_message_root (mkDepositMessage (dd_pubkey d) (dd_withdrawal_credentials d) (dd_amount d))).
Proof using CryptoOk0. intros (? & ? & ?). unfold deposit_message_root. cbn [dm_pubkey dm_withdrawal_credentials dm_amount]. roots. Qed.

Lemma validator_root_ok v : validator_sized v -> root_ok (validator_root v).
Proof using CryptoOk0. intros [? ?]. unfold validator_root. roots. Qed.

Lemma default_body_root_ok : root_ok (body_root default_body).
Proof using CryptoOk0 SpecOk0.
  pose proof deposits_bound. destruct operation_limits as [[? ?] [? ?] ]. unfold body_root, default_body.
  cbn [body_randao_reveal body_eth1_data body_graffiti body_proposer_slashings body_attester_slashings
    body_attestations body_deposits body_voluntary_exits].
  assert (root_ok (eth1_data_root (mkEth1Data zero_chunk 0 zero_chunk))) by (unfold eth1_data_root; cbn [e1_deposit_root e1_deposit_count e1_block_hash]; roots).
  assert (forall T N (f : T -> result SszError bytes), 0 <= N <= 2 ^ 20 -> root_ok (list_root N f [])) as Hnil.
  { intros T N f HN. apply list_root_ok; [rewrite zlen_nil; lia|by constructor]. }
  apply derive_root_ok; [unfold zlen; cbn [length]; lia|]. repeat apply Forall_cons_2; roots; auto.
Qed.

Lemma compute_deposit_data_root_ok data :
  zlen data <= 2 ^ 32 -> Forall deposit_data_sized data -> root_ok (compute_deposit_data_root data).
Proof using CryptoOk0.
  intros Hl Hd. apply (list_root_ok (2 ^ 32) deposit_data_root); [lia|].
  eapply Forall_impl; [exact Hd|]. apply deposit_data_root_ok.
Qed.

(** The signature check of a deposit does not abort. *)
Lemma deposit_signing_root_ok {E} d :
  deposit_data_sized d ->
  exists domain sr, compute_domain (E:=E) DOMAIN_DEPOSIT GENESIS_FORK_VERSION zero_chunk = Ok domain /\
    compute_signing_root (E:=E)
      (deposit_message_root (mkDepositMessage (dd_pubkey d) (dd_withdrawal_credentials d) (dd_amount d))) domain = Ok sr.
Proof using CryptoOk0 SpecOk0.
  intros Hd. assert (root_ok (fork_data_root (mkForkData GENESIS_FORK_VERSION zero_chunk))) as (r & Hr & Hlen).
  { pose proof fork_version_length. unfold fork_data_root.
    cbn [fd_current_version fd_genesis_validators_root]. roots. }
  unfold compute_domain, compute_fork_data_root. rewrite Hr. cbn [root_value mbind result_bind].
  assert (slice (E:=E) r 0 28 = Ok (take 28 r)) as ->.
  { apply slice_Ok_iff. unfold zlen. rewrite Hlen. split_and!; try lia. by rewrite drop_0. }
  cbn [mbind result_bind]. destruct (deposit_message_root_ok d Hd) as (m & Hm & Hml).
  assert (root_ok (signing_data_root (mkSigningData m (DOMAIN_DEPOSIT ++ take 28 r)))) as (sr & Hsr & _).
  { unfold signing_data_root. cbn [sd_object_root sd_domain]. roots.
    apply fixed_bytes_root_ok. rewrite length_app, length_take, Hlen. cbn. lia. }
  exists (DOMAIN_DEPOSIT ++ take 28 r), sr. split; [done|]. unfold compute_signing_root. rewrite Hm. cbn [root_value mbind result_bind].
  by rewrite Hsr.
Qed.

Lemma apply_deposit_total s d :
  wf_state s -> deposit_data_sized d -> num_validators s < VALIDATOR_REGISTRY_LIMIT ->
  exists s', apply_deposit s (dd_pubkey d) (dd_withdrawal_credentials d) (dd_amount d) (dd_signature d) true = Ok s'.
Proof using CryptoOk0 SpecOk0.
  intros Hw Hd Hn. unfold apply_deposit. destruct (position_of s (dd_pubkey d)) as [i|] eqn:Hp.
  - apply position_of_Some in Hp as (Hi & v & Hv & _). eexists. apply set_balance_Ok. split; [|done].
    unfold validator in Hv. apply lookup_lt_Some in Hv. rewrite <-(wf_balances_length s Hw) in Hv. unfold zlen. lia.
  - destruct (deposit_signing_root_ok (E:=StateTransitionError) d Hd) as (dom & sr & -> & Hsr).
    cbn [mbind result_bind]. rewrite Hsr. cbn [mbind result_bind]. destruct (negb _); [by eexists|].
    unfold push_validator, push_balance, list_with_push. unfold num_validators in Hn.
    destruct (Z.leb_spec VALIDATOR_REGISTRY_LIMIT (zlen (validators s))); [lia|]. cbn.
    replace (zlen (balances s)) with (zlen (validators s)) by (unfold zlen; by rewrite (wf_balances_length s Hw)).
    destruct (Z.leb_spec VALIDATOR_REGISTRY_LIMIT (zlen (validators s))); [lia|]. by eexists.
Qed.
End deposits.

Section genesis_loops.
  Context `{Crypto} `{!CryptoOk _} `{S : BeaconSpec} `{!SpecOk S} {E : Type}.

(** The deposit at index [i] has a branch to the root of the first [i + 1]
    deposits. *)
Definition deposit_proved (leaves : list DepositData) (i : Z) (d : Deposit) : Prop :=
  deposit_data_sized (dep_data d) /\ u64 (dd_amount (dep_data d)) /\
  exists leaf root, deposit_data_root (dep_data d) = Ok leaf /\
    compute_deposit_data_root (take (Z.to_nat (i + 1)) leaves) = Ok root /\
    is_valid_merkle_branch leaf (dep_proof d) (DEPOSIT_CONTRACT_TREE_DEPTH + 1) i root = true.

Definition fresh_validator (v : Validator) : Prop :=
  validator_sized v /\ v_slashed v = false /\ v_activation_eligibility_epoch v = FAR_FUTURE_EPOCH /\
  v_activation_epoch v = FAR_FUTURE_EPOCH /\ v_exit_epoch v = FAR_FUTURE_EPOCH /\ v_withdrawable_epoch v = FAR_FUTURE_EPOCH.

(** The state after [i] deposits. *)
Record genesis_pre (hash : bytes) (time i : Z) (s : BeaconState) : Prop := {
  gp_wf : wf_state s;
  gp_pubkeys : NoDup (pubkeys s);
  gp_index : eth1_deposit_index s = i;
  gp_count : num_validators s <= i;
  gp_fresh : Forall fresh_validator (validators s);
  gp_slot : slot s = 0;
  gp_mixes : randao_mixes s = replicate (Z.to_nat EPOCHS_PER_HISTORICAL_VECTOR) hash;
  gp_time : genesis_time s = time;
  gp_header : bh_slot (latest_block_header s) = 0;
  gp_checkpoints : previous_justified_checkpoint s = mkCheckpoint 0 zero_chunk /\
    current_justified_checkpoint s = mkCheckpoint 0 zero_chunk /\ finalized_checkpoint s = mkCheckpoint 0 zero_chunk;
}.

Lemma process_deposit_shape s d verify s' :
  process_deposit s d verify = Ok s' ->
  exists vs bs, s' = with_balances (with_validators (increment_eth1_deposit_index s) vs) bs /\
    (vs = validators s \/ vs = validators s ++ [deposited_validator (dd_pubkey (dep_data d))
       (dd_withdrawal_credentials (dep_data d)) (dd_amount (dep_data d))]).
Proof.
  unfold process_deposit. intros (leaf & _ & Hs)%bind_Ok_inv. case_match; [done|].
  apply apply_deposit_Ok in Hs as [(i & v & _ & _ & _ & Hb)|[(_ & _ & ->)|(_ & s1 & H1 & H2)] ].
  - apply balance_frame in Hb as [bs ->]. exists (validators s), bs. split; [by destruct s|by left].
  - exists (validators s), (balances s). split; [by destruct s|by left].
  - apply bind_Ok_inv in H1 as (vs & [_ ->]%map_err_Ok%list_with_push_Ok & [= <-]).
    apply bind_Ok_inv in H2 as (bs & _ & [= <-]). eexists _, bs. split; [done|by right].
Qed.

Lemma genesis_deposit_step hash time leaves i s d :
  genesis_pre hash time i s -> deposit_proved leaves i d -> i < VALIDATOR_REGISTRY_LIMIT ->
  exists s', genesis_deposit (E:=E) leaves s (i, d) = Ok s' /\ genesis_pre hash time (i + 1) s'.
Proof using CryptoOk0 SpecOk0.
  intros [Hw Hnd Hi Hc Hf Hsl Hm Ht Hh Hcp] (Hsz & Hu & leaf & root & Hleaf & Hroot & Hb) Hlim. unfold genesis_deposit.
  cbn [fst snd]. rewrite Hroot. cbn [root_value mbind result_bind]. set (s0 := set_eth1_deposit_root s root).
  assert (wf_state s0) as Hw0 by (by apply wf_set_eth1_data).
  assert (exists s', process_deposit s0 d true = Ok s') as [s' Hs'].
  { unfold process_deposit. rewrite Hleaf. cbn [root_value mbind result_bind]. subst i. cbv zeta.
    change (eth1_deposit_index s0) with (eth1_deposit_index s). cbn [e1_deposit_root eth1_data s0 set_eth1_deposit_root with_eth1_data].
    rewrite Hb. cbn [negb]. apply apply_deposit_total; [by apply wf_increment_deposit_index|done|]. cbn. unfold num_validators in *. cbn. lia. }
  rewrite Hs'. exists s'. split; [done|]. destruct (process_deposit_op s0 d true s' Hu Hs' Hw0) as (Hw' & [] & Hidx).
  apply process_deposit_shape in Hs' as (vs & bs & -> & Hvs). pose proof registry_limit.
  pose proof (zlen_nonneg (validators s)). unfold num_validators in *.
  constructor; try done; [by apply of_pubkeys| | |].
  - rewrite Hidx. cbn. rewrite Hi, Z.mod_small by (unfold U64; lia). done.
  - unfold num_validators. cbn. destruct Hvs as [->| ->]; [cbn; lia|]. rewrite zlen_app. cbn. change (zlen [_]) with 1. lia.
  - cbn. destruct Hvs as [->| ->]; [done|]. apply Forall_app. split; [done|]. constructor; [|done].
    destruct Hsz as (? & ? & ?). done.
Qed.

Lemma genesis_deposits_ok hash time leaves l i s :
  genesis_pre hash time i s -> (forall k d, l !! k = Some d -> deposit_proved leaves (i + Z.of_nat k) d) ->
  i + zlen l <= VALIDATOR_REGISTRY_LIMIT ->
  exists s', foldM (genesis_deposit (E:=E) leaves) (enumerate_from i l) s = Ok s' /\ genesis_pre hash time (i + zlen l) s'.
Proof using CryptoOk0 SpecOk0.
  revert i s. induction l as [|d l IH]; intros i s Hp Hd Hlim.
  { exists s. split; [done|]. by rewrite zlen_nil, Z.add_0_r. }
  rewrite zlen_cons in *. pose proof (zlen_nonneg l).
  destruct (genesis_deposit_step hash time leaves i s d Hp) as (s1 & H1 & Hp1); [|lia|].
  { specialize (Hd 0%nat d eq_refl). by rewrite Z.add_0_r in Hd. }
  cbn [enumerate_from foldM]. rewrite H1. cbn [mbind result_bind].
  destruct (IH (i + 1) s1 Hp1) as (s' & Hs' & Hp'); [|lia|].
  { intros k e Hk. specialize (Hd (Datatypes.S k) e Hk). by replace (i + 1 + Z.of_nat k) with (i + Z.of_nat (Datatypes.S k)) by lia. }
  exists s'. split; [done|]. by replace (i + (1 + zlen l)) with (i + 1 + zlen l) by lia.
Qed.
End genesis_loops.

(** ** The activation loop *)
Section activation.
  Context `{Crypto} `{S : BeaconSpec} `{!SpecOk S} {E : Type}.

(** A validator after the activation loop, from its balance. *)
Definition activated (balance : Z) (v : Validator) : Validator :=
  let eff := Z.min (balance - balance mod EFFECTIVE_BALANCE_INCREMENT) MAX_EFFECTIVE_BALANCE in
  let epoch old := if eff =? MAX_EFFECTIVE_BALANCE then GENESIS_EPOCH else old in
  mkValidator (v_pubkey v) (v_withdrawal_credentials v) eff (v_slashed v) (epoch (v_activation_eligibility_epoch v))
    (epoch (v_activation_epoch v)) (v_exit_epoch v) (v_withdrawable_epoch v).

Lemma update_validator_Ok f s i v :
  validators s !! Z.to_nat i = Some v ->
  update_validator (E:=E) f s i = Ok (with_validators s (<[Z.to_nat i := f v]> (validators s))).
Proof.
  intros Hv. unfold update_validator, validator. rewrite Hv. cbn [expect mbind result_bind].
  unfold list_with_set. pose proof (lookup_lt_Some _ _ _ Hv). unfold zlen.
  destruct (Z.leb_spec (Z.of_nat (length (validators s))) i); [lia|done].
Qed.

Lemma genesis_activation_Ok s i v b :
  validators s !! Z.to_nat i = Some v -> balances s !! Z.to_nat i = Some b ->
  genesis_activation (E:=E) s i = Ok (with_validators s (<[Z.to_nat i := activated b v]> (validators s))).
Proof.
  intros Hv Hb. pose proof (lookup_lt_Some _ _ _ Hv). unfold genesis_activation, balance_at. rewrite Hb. cbn [expect mbind result_bind].
  unfold set_validator_effective_balance at 1. erewrite update_validator_Ok by exact Hv. cbn [mbind result_bind].
  unfold activated. case_match; [|done].
  unfold set_validator_activation_eligibility_epoch. 
  erewrite update_validator_Ok; [|cbn; apply list_lookup_insert_eq; by rewrite ?length_insert].
  cbn [mbind result_bind]. unfold set_validator_activation_epoch.
  erewrite update_validator_Ok; [|cbn; apply list_lookup_insert_eq; by rewrite ?length_insert].
  cbn. by rewrite !list_insert_insert_eq.
Qed.

Lemma genesis_activations_ok s :
  length (balances s) = length (validators s) ->
  foldM (genesis_activation (E:=E)) (seqZ 0 (num_validators s)) s =
    Ok (with_validators s (zip_with activated (balances s) (validators s))).
Proof.
  intros Hlen. set (look := fun (s : BeaconState) k => validators s !! k).
  set (I := fun t => exists l, t = with_validators s l /\ length l = length (validators s)).
  assert (forall i, i ∈ seqZ 0 (num_validators s) -> 0 <= i < Z.of_nat (length (validators s))) as Hseq
    by (intros i ?%elem_of_seqZ; unfold num_validators, zlen in *; lia).
  destruct (foldM_pointwise (genesis_activation (E:=E)) Z.to_nat look I
    (fun i v => activated (default 0 (balances s !! Z.to_nat i)) v) (seqZ 0 (num_validators s)) s)
    as (s' & -> & (l & -> & Hl) & Hin & Hout).
  - intros t i v (l & -> & Hl) Hi Hv. cbn in Hv. apply Hseq in Hi.
    destruct (lookup_lt_is_Some_2 (balances s) (Z.to_nat i)) as [b Hb]; [lia|].
    rewrite (genesis_activation_Ok _ i v b) by done. rewrite Hb. eexists. split; [done|]. split_and!.
    + exists (<[Z.to_nat i := activated b v]> l). split; [done|]. by rewrite length_insert.
    + unfold look. cbn. rewrite list_lookup_insert_eq; [done|lia].
    + intros j Hj. unfold look. cbn. by rewrite list_lookup_insert_ne.
  - apply NoDup_to_nat; [apply NoDup_seqZ|]. intros i Hi%Hseq. lia.
  - exists (validators s). split; [by destruct s|done].
  - intros i Hi%Hseq. apply lookup_lt_is_Some_2. lia.
  - do 2 f_equal. apply list_eq. intros k. rewrite lookup_zip_with.
    destruct (decide (k < length (validators s))%nat) as [Hk|Hk].
    + destruct (lookup_lt_is_Some_2 (balances s) k) as [b Hb]; [lia|].
      specialize (Hin (Z.of_nat k)). rewrite Nat2Z.id in Hin. unfold look in Hin. cbn in Hin. rewrite Hin, Hb; [by destruct (validators s !! k)|].
      apply elem_of_seqZ. unfold num_validators, zlen. lia.
    + rewrite !(lookup_ge_None_2 (balances s)), lookup_ge_None_2 by lia. done.
Qed.

Lemma activated_ok b v :
  u64 b -> fresh_validator v -> validator_ok (activated b v).
Proof using SpecOk0.
  intros Hb (_ & _ & He & Ha & Hx & Hw). destruct (deposited_validator_ok (v_pubkey v) (v_withdrawal_credentials v) b Hb) as [Hb1 Hb2 ? ? ? ?].
  unfold activated. cbv zeta. split; cbn in *; try done; rewrite ?He, ?Ha, ?Hx, ?Hw; try done; case_match; done.
Qed.
End activation.

(** ** The genesis state *)
Section built.
  Context `{Crypto} `{!CryptoOk _} `{S : BeaconSpec} `{!SpecOk S} `{G : GenesisSpec} {E : Type}.

Lemma genesis_state_Ok time f e1 body hash :
  exists s, genesis_state (E:=E) time f e1 body hash = Ok s /\ genesis_pre hash time 0 s /\ balances s = [].
Proof using SpecOk0.
  pose proof historical_vector_pos. pose proof seed_lookahead. pose proof slashings_vector_pos. pose proof historical_root_pos.
  set (n := EPOCHS_PER_HISTORICAL_VECTOR) in *. unfold genesis_state. fold n.
  destruct (foldM_pointwise (fun mixes i => expect_ok (F:=E) (vector_with_set n mixes i hash)) Z.to_nat
    (fun (m : list bytes) k => m !! k) (fun m => length m = Z.to_nat n) (fun _ _ => hash)
    (seqZ 0 n) (replicate (Z.to_nat n) zero_chunk)) as (m & Hm & Hl & Hin & _).
  - intros m i x Hl [Hi1 Hi2]%elem_of_seqZ Hx. unfold vector_with_set. destruct (Z.leb_spec n i); [lia|].
    eexists. split; [done|]. rewrite length_insert. split_and!; [done|rewrite list_lookup_insert_eq; [done|lia]|].
    intros j Hj. by rewrite list_lookup_insert_ne.
  - apply NoDup_to_nat; [apply NoDup_seqZ|]. intros i ?%elem_of_seqZ. lia.
  - apply length_replicate.
  - intros i ?%elem_of_seqZ. rewrite lookup_replicate_2 by lia. done.
  - cbn [randao_mixes default_state] in *. fold n. rewrite Hm. eexists. split; [done|]. split; [|done].
    assert (m = replicate (Z.to_nat n) hash) as ->.
    { apply list_eq. intros k. destruct (decide (k < Z.to_nat n)%nat) as [Hk|Hk].
      - specialize (Hin (Z.of_nat k)). rewrite Nat2Z.id, !lookup_replicate_2 in * by lia.
        apply Hin, elem_of_seqZ. lia.
      - rewrite !lookup_ge_None_2; [done|rewrite length_replicate; lia|lia]. }
    pose proof (registry_limit (S:=S)). pose proof list_limits.
    assert (0 <= ETH1_DATA_VOTES_LIMIT) by (rewrite eth1_votes_limit; pose proof eth1_period_pos; pose proof slots_per_epoch_pos; nia).
    constructor; cbn; try done; try (by constructor); try apply NoDup_nil_2.
    constructor; cbn; rewrite ?zlen_nil, ?zlen_replicate; try done; try (unfold u64, U64; lia); try lia; [by constructor..|].
    apply Forall_replicate. unfold u64, U64. lia.
Qed.

(** What genesis promises of the validators: rounded effective balances, and
    activation at once with the maximum one, not at all otherwise. *)
Definition genesis_validator (b : Z) (v : Validator) : Prop :=
  v_effective_balance v = Z.min (b - b mod EFFECTIVE_BALANCE_INCREMENT) MAX_EFFECTIVE_BALANCE /\
  v_slashed v = false /\ v_exit_epoch v = FAR_FUTURE_EPOCH /\ v_withdrawable_epoch v = FAR_FUTURE_EPOCH /\
  v_activation_epoch v = (if v_effective_balance v =? MAX_EFFECTIVE_BALANCE then GENESIS_EPOCH else FAR_FUTURE_EPOCH) /\
  v_activation_eligibility_epoch v = v_activation_epoch v.

Record genesis_ok (hash : bytes) (time count : Z) (s : BeaconState) : Prop := {
  go_wf : wf_state s;
  go_ordered : checkpoints_ordered s;
  go_pubkeys : NoDup (pubkeys s);
  go_index : eth1_deposit_index s = count;
  go_slot : slot s = 0;
  go_time : genesis_time s = time;
  go_mixes : randao_mixes s = replicate (Z.to_nat EPOCHS_PER_HISTORICAL_VECTOR) hash;
  go_header : bh_slot (latest_block_header s) = 0;
  go_validators : Forall2 genesis_validator (balances s) (validators s);
}.

Lemma activated_genesis b v : fresh_validator v -> genesis_validator b (activated b v).
Proof. intros (_ & ? & He & Ha & ? & ?). unfold genesis_validator, activated. cbn. rewrite He, Ha. done. Qed.

Lemma zip_fst_snd {A B} (f : A -> B -> B) (R : B -> Prop) l k :
  length l = length k -> (forall a b, a ∈ l -> b ∈ k -> R (f a b)) -> Forall R (zip_with f l k).
Proof.
  intros Hl HR. apply Forall_lookup. intros i x (a & b & -> & Ha & Hb)%lookup_zip_with_Some.
  apply HR; by eapply list_elem_of_lookup_2.
Qed.

Lemma genesis_ok_activated hash time i s gvr :
  genesis_pre hash time i s ->
  genesis_ok hash time i (set_genesis_validators_root (with_validators s (zip_with activated (balances s) (validators s))) gvr).
Proof using SpecOk0.
  intros [Hw Hnd Hi Hc Hf Hsl Hm Ht Hh (Hp & Hj & Hfi)]. pose proof (wf_balances_length s Hw) as Hlen.
  set (vs := zip_with activated (balances s) (validators s)).
  assert (length vs = length (validators s)) as Hvs by (unfold vs; rewrite length_zip_with; lia).
  assert (v_pubkey <$> vs = v_pubkey <$> validators s) as Hpk.
  { apply list_eq. intros k. rewrite !list_lookup_fmap. unfold vs. rewrite lookup_zip_with.
    destruct (validators s !! k) as [v|] eqn:Ev; [|by destruct (balances s !! k)].
    destruct (lookup_lt_is_Some_2 (balances s) k) as [b ->]; [apply lookup_lt_Some in Ev; lia|done]. }
  constructor; cbn; try done.
  - destruct Hw. constructor; cbn; try done; [unfold zlen in *; by rewrite Hvs|by rewrite Hvs|].
    apply zip_fst_snd; [done|]. intros b v Hb Hv. apply activated_ok;
      [exact (proj1 (Forall_forall _ _) wf_balances b Hb)|exact (proj1 (Forall_forall _ _) Hf v Hv)].
  - unfold checkpoints_ordered, get_previous_epoch, get_current_epoch, compute_epoch_at_slot. cbn.
    rewrite Hp, Hj, Hfi, Hsl, Zdiv_0_l.
    cbn. unfold GENESIS_EPOCH. lia.
  - change (NoDup (v_pubkey <$> vs)). by rewrite Hpk.
  - apply Forall2_same_length_lookup_2; [lia|]. intros k b v Hb Hv. unfold vs in Hv.
    apply lookup_zip_with_Some in Hv as (b' & w & -> & Hb' & Hw'). simplify_eq.
    apply activated_genesis. by eapply Forall_lookup_1.
Qed.

Lemma genesis_builds hash timestamp deposits :
  zlen deposits <= VALIDATOR_REGISTRY_LIMIT ->
  (forall k d, deposits !! k = Some d -> deposit_proved (dep_data <$> deposits) (Z.of_nat k) d) ->
  exists s, initialize_beacon_state_from_eth1 (E:=E) hash timestamp deposits = Ok s /\
    genesis_ok hash (wadd timestamp GENESIS_DELAY) (zlen deposits) s.
Proof using CryptoOk0 SpecOk0.
  intros Hlim Hd. unfold initialize_beacon_state_from_eth1. destruct default_body_root_ok as (br & -> & _).
  cbn [root_value mbind result_bind].
  edestruct (genesis_state_Ok (wadd timestamp GENESIS_DELAY)) as (s0 & -> & Hp0 & _). cbn [mbind result_bind].
  destruct (genesis_deposits_ok (E:=E) hash (wadd timestamp GENESIS_DELAY) (dep_data <$> deposits) deposits 0 s0 Hp0)
    as (s1 & Hs1 & Hp1); [done|lia|].
  unfold enumerate. rewrite Hs1. cbn [mbind result_bind]. pose proof (gp_wf _ _ _ _ Hp1) as Hw1.
  rewrite genesis_activations_ok by (by apply wf_balances_length). cbn [mbind result_bind].
  set (vs := zip_with activated (balances s1) (validators s1)).
  assert (root_ok (list_root VALIDATOR_REGISTRY_LIMIT validator_root vs)) as (gvr & Hg & _).
  { pose proof registry_limit. apply list_root_ok.
    - unfold zlen, vs. rewrite length_zip_with. pose proof (wf_registry_limit _ Hw1). unfold zlen in *. lia.
    - apply zip_fst_snd; [by apply wf_balances_length|]. intros b v _ Hv. apply validator_root_ok.
      pose proof (proj1 (Forall_forall _ _) (gp_fresh _ _ _ _ Hp1) v Hv) as [Hsz _]. exact Hsz. }
  cbn [validators with_validators]. rewrite Hg. cbn [root_value mbind result_bind]. eexists. split; [done|].
  by apply genesis_ok_activated.
Qed.

(** Genesis.  When every deposit carries a branch to the root of the deposits up
    to it, [initialize_beacon_state_from_eth1] does not abort, and its state
    satisfies the invariant of the state transition: at slot 0 with all
    checkpoints at genesis, all deposits counted, no public key twice, randao
    seeded with the block hash, and every validator with the effective balance
    of its balance, active at once if that is the maximum and never otherwise. *)
Theorem genesis_correct hash timestamp deposits :
  zlen deposits <= VALIDATOR_REGISTRY_LIMIT ->
  (forall k d, deposits !! k = Some d -> deposit_proved (dep_data <$> deposits) (Z.of_nat k) d) ->
  exists s, initialize_beacon_state_from_eth1 (E:=E) hash timestamp deposits = Ok s /\
    genesis_ok hash (wadd timestamp GENESIS_DELAY) (zlen deposits) s.
Proof using CryptoOk0 SpecOk0. apply genesis_builds. Qed.

(** The validators active at genesis have the maximum effective balance. *)
Lemma genesis_active hash time count s i :
  genesis_ok hash time count s -> i ∈ get_active_validator_indices s GENESIS_EPOCH ->
  exists v, 0 <= i /\ validator s i = Some v /\ is_active_validator v GENESIS_EPOCH = true /\
    v_effective_balance v = MAX_EFFECTIVE_BALANCE.
Proof using.
  intros Hg (Hi & v & Hv & Ha)%elem_of_active. exists v. split_and!; [done..|].
  destruct (Forall2_lookup_r _ _ _ _ _ (go_validators _ _ _ _ Hg) Hv) as (b & _ & _ & _ & _ & _ & Hact & _).
  unfold is_active_validator in Ha. rewrite Hact in Ha. destruct (Z.eqb_spec (v_effective_balance v) MAX_EFFECTIVE_BALANCE); done.
Qed.

(** C25: genesis starts a chain.  A genesis state that meets the trigger condition
    has a proposer.  The fork choice started from it and the genesis block, fed
    with blocks that pass the state transition, keeps a tree of well-formed
    states and returns the LMD-GHOST head, whatever sequence of handlers runs. *)
Theorem genesis_starts_chain {E'} hash timestamp deposits s :
  zlen deposits <= VALIDATOR_REGISTRY_LIMIT -> 0 < MIN_GENESIS_ACTIVE_VALIDATOR_COUNT ->
  (forall k d, deposits !! k = Some d -> deposit_proved (dep_data <$> deposits) (Z.of_nat k) d) ->
  initialize_beacon_state_from_eth1 (E:=E) hash timestamp deposits = Ok s -> is_valid_genesis_state s = true ->
  (exists i, get_beacon_proposer_index (E:=E) s = Ok i /\ i ∈ get_active_validator_indices s GENESIS_EPOCH) /\
  (forall r st0 st, (forall br, block_root (get_genesis_block r) = Ok br -> zero_chunk <> br) ->
    get_forkchoice_store (E:=E') s (get_genesis_block r) = Ok st0 -> rtc valid_step st0 st ->
    chain_ok st /\ exists h, get_head (E:=E') st = Ok h /\ ghost st (effective_base st) h).
Proof using CryptoOk0 SpecOk0.
  intros Hlim Hmin Hd Hs Hval. destruct (genesis_builds hash timestamp deposits Hlim Hd) as (s' & Hs' & Hg).
  assert (s' = s) as -> by congruence. clear Hs' Hs. pose proof (go_wf _ _ _ _ Hg) as Hw. split.
  - assert (get_current_epoch s = GENESIS_EPOCH) as He.
    { unfold get_current_epoch, compute_epoch_at_slot. by rewrite (go_slot _ _ _ _ Hg), Zdiv_0_l. }
    unfold is_valid_genesis_state in Hval. destruct (_ <? _) in Hval; [done|]. apply Z.leb_le in Hval.
    destruct (get_active_validator_indices s GENESIS_EPOCH) as [|i l] eqn:El; [rewrite zlen_nil in Hval; lia|].
    destruct (genesis_active _ _ _ s i Hg) as (v & Hi & Hv & Ha & Hb); [rewrite El; left|]. rewrite <-El, <-He.
    eapply proposer_index_returns; [exact (wf_registry_limit s Hw)| |exact Hi|exact Hv|by rewrite He|exact Hb].
    eapply Forall_impl; [exact (wf_validators s Hw)|]. by intros w [].
  - intros r st0 st Hself H0 Hsteps. eapply reachable_chain; [exact Hw|by eapply go_ordered| | |exact H0|exact Hsteps].
    + by rewrite (go_header _ _ _ _ Hg).
    + exact Hself.
Qed.
End built.

(** ** A genesis with one deposit *)
Definition small_genesis : GenesisSpec := {|
  GENESIS_DELAY := 300;
  MIN_GENESIS_ACTIVE_VALIDATOR_COUNT := 1;
  MIN_GENESIS_TIME := 1578009600;
|}.
Definition genesis_deposit_1 : Deposit :=
  mkDeposit (replicate 32 zero_chunk ++ [pad32 [Byte.x01] ])
    (mkDepositData (replicate 48 Byte.x0a) zero_chunk 32000000000 (replicate 96 Byte.x01)).

Lemma genesis_deposit_1_proved k d :
  [genesis_deposit_1] !! k = Some d ->
  @deposit_proved ex_crypto minimal (dep_data <$> [genesis_deposit_1]) (Z.of_nat k) d.
Proof.
  intros [-> <-]%list_lookup_singleton_Some. split; [by vm_compute|]. split; [split; [vm_compute; discriminate|reflexivity]|].
  eexists _, _. split; [vm_compute; reflexivity|]. split; [vm_compute; reflexivity|]. vm_compute. reflexivity.
Qed.

Lemma genesis_correct_witness :
  exists s, @initialize_beacon_state_from_eth1 ex_crypto minimal small_genesis unit zero_chunk 1600000000 [genesis_deposit_1] = Ok s /\
    @genesis_ok minimal zero_chunk 1600000300 1 s.
Proof.
  apply (@genesis_correct ex_crypto _ minimal _ small_genesis unit zero_chunk 1600000000 [genesis_deposit_1]).
  - vm_compute. discriminate.
  - exact genesis_deposit_1_proved.
Defined.

Lemma genesis_starts_chain_witness :
  let s := ok_value (ex_state 0)
    (@initialize_beacon_state_from_eth1 ex_crypto minimal small_genesis unit zero_chunk 1600000000 [genesis_deposit_1]) in
  exists i, @get_beacon_proposer_index ex_crypto minimal unit s = Ok i /\
    i ∈ get_active_validator_indices s GENESIS_EPOCH.
Proof.
  intros s. apply (@genesis_starts_chain ex_crypto _ minimal _ small_genesis unit unit zero_chunk 1600000000 [genesis_deposit_1] s).
  - vm_compute. discriminate.
  - reflexivity.
  - exact genesis_deposit_1_proved.
  - apply ok_value_Ok. vm_compute. reflexivity.
  - vm_compute. reflexivity.
Defined.
