(* ===== verification/Forks.v ===== *)
(** * The states of the later forks

    The beacon states of Altair, Capella, Deneb and Electra
    (crates/pharos-types/src/{altair,capella,deneb,electra}/state.rs), the
    constants of [BeaconSpec] those forks add, and the projections between the
    states (crates/pharos-stf/src/{capella,deneb,electra}/helpers.rs) through
    which a fork runs the unchanged steps of an earlier one.

    The fields a state shares with phase 0 are grouped in a [BeaconState]: field
    [slot] of an Electra state is [slot] of that group, reached by coercions.
    The two attestation lists of the group belong to phase 0 only; no later fork
    reads or writes them.  The projections are written field by field as in the
    sources; [electra_altair_lens] and its siblings show that they lose and mix
    up nothing. *)

From Stdlib Require Import ZArith Lia.
From S2P Require Import Prelude SszCodec SszBitfield SszTypes Spec BeaconState Invariant.

(** ** Constants *)
Class ForkSpec : Type := {
  SYNC_COMMITTEE_SIZE : Z;
  SYNC_COMMITTEE_SUBNET_COUNT : Z;
  MIN_SYNC_COMMITTEE_PARTICIPANTS : Z;
  EPOCHS_PER_SYNC_COMMITTEE_PERIOD : Z;
  TARGET_AGGREGATORS_PER_SYNC_SUBCOMMITTEE : Z;
  UPDATE_TIMEOUT : Z;
  INACTIVITY_PENALTY_QUOTIENT_ALTAIR : Z;
  MIN_SLASHING_PENALTY_QUOTIENT_ALTAIR : Z;
  PROPORTIONAL_SLASHING_MULTIPLIER_ALTAIR : Z;
  INACTIVITY_SCORE_BIAS : Z;
  INACTIVITY_SCORE_RECOVERY_RATE : Z;
  INACTIVITY_PENALTY_QUOTIENT_BELLATRIX : Z;
  MIN_SLASHING_PENALTY_QUOTIENT_BELLATRIX : Z;
  PROPORTIONAL_SLASHING_MULTIPLIER_BELLATRIX : Z;
  MAX_WITHDRAWALS_PER_PAYLOAD : Z;
  MAX_VALIDATORS_PER_WITHDRAWALS_SWEEP : Z;
  MAX_PENDING_DEPOSITS_LIMIT : Z;
  MAX_PENDING_DEPOSITS_PER_EPOCH : Z;
  MAX_PENDING_PARTIAL_WITHDRAWALS_LIMIT : Z;
  MAX_PENDING_CONSOLIDATIONS_LIMIT : Z;
  MAX_PENDING_PARTIALS_PER_WITHDRAWALS_SWEEP : Z;
  MAX_EFFECTIVE_BALANCE_ELECTRA : Z;
  MIN_ACTIVATION_BALANCE : Z;
  MIN_SLASHING_PENALTY_QUOTIENT_ELECTRA : Z;
  WHISTLEBLOWER_REWARD_QUOTIENT_ELECTRA : Z;
  MIN_PER_EPOCH_CHURN_LIMIT_ELECTRA : Z;
  MAX_PER_EPOCH_ACTIVATION_EXIT_CHURN_LIMIT : Z;
  ELECTRA_FORK_VERSION : bytes;
}.

Definition mainnet_forks : ForkSpec := {|
  SYNC_COMMITTEE_SIZE := 512;
  SYNC_COMMITTEE_SUBNET_COUNT := 4;
  MIN_SYNC_COMMITTEE_PARTICIPANTS := 1;
  EPOCHS_PER_SYNC_COMMITTEE_PERIOD := 256;
  TARGET_AGGREGATORS_PER_SYNC_SUBCOMMITTEE := 16;
  UPDATE_TIMEOUT := 8192;
  INACTIVITY_PENALTY_QUOTIENT_ALTAIR := 50331648;
  MIN_SLASHING_PENALTY_QUOTIENT_ALTAIR := 64;
  PROPORTIONAL_SLASHING_MULTIPLIER_ALTAIR := 2;
  INACTIVITY_SCORE_BIAS := 4;
  INACTIVITY_SCORE_RECOVERY_RATE := 16;
  INACTIVITY_PENALTY_QUOTIENT_BELLATRIX := 16777216;
  MIN_SLASHING_PENALTY_QUOTIENT_BELLATRIX := 32;
  PROPORTIONAL_SLASHING_MULTIPLIER_BELLATRIX := 3;
  MAX_WITHDRAWALS_PER_PAYLOAD := 16;
  MAX_VALIDATORS_PER_WITHDRAWALS_SWEEP := 16384;
  MAX_PENDING_DEPOSITS_LIMIT := 134217728;
  MAX_PENDING_DEPOSITS_PER_EPOCH := 16;
  MAX_PENDING_PARTIAL_WITHDRAWALS_LIMIT := 134217728;
  MAX_PENDING_CONSOLIDATIONS_LIMIT := 262144;
  MAX_PENDING_PARTIALS_PER_WITHDRAWALS_SWEEP := 8;
  MAX_EFFECTIVE_BALANCE_ELECTRA := 2048000000000;
  MIN_ACTIVATION_BALANCE := 32000000000;
  MIN_SLASHING_PENALTY_QUOTIENT_ELECTRA := 4096;
  WHISTLEBLOWER_REWARD_QUOTIENT_ELECTRA := 4096;
  MIN_PER_EPOCH_CHURN_LIMIT_ELECTRA := 128000000000;
  MAX_PER_EPOCH_ACTIVATION_EXIT_CHURN_LIMIT := 256000000000;
  ELECTRA_FORK_VERSION := [Byte.x05; Byte.x00; Byte.x00; Byte.x00];
|}.

Definition minimal_forks : ForkSpec := {|
  SYNC_COMMITTEE_SIZE := 32;
  SYNC_COMMITTEE_SUBNET_COUNT := 4;
  MIN_SYNC_COMMITTEE_PARTICIPANTS := 1;
  EPOCHS_PER_SYNC_COMMITTEE_PERIOD := 8;
  TARGET_AGGREGATORS_PER_SYNC_SUBCOMMITTEE := 16;
  UPDATE_TIMEOUT := 64;
  INACTIVITY_PENALTY_QUOTIENT_ALTAIR := 50331648;
  MIN_SLASHING_PENALTY_QUOTIENT_ALTAIR := 64;
  PROPORTIONAL_SLASHING_MULTIPLIER_ALTAIR := 2;
  INACTIVITY_SCORE_BIAS := 4;
  INACTIVITY_SCORE_RECOVERY_RATE := 16;
  INACTIVITY_PENALTY_QUOTIENT_BELLATRIX := 16777216;
  MIN_SLASHING_PENALTY_QUOTIENT_BELLATRIX := 32;
  PROPORTIONAL_SLASHING_MULTIPLIER_BELLATRIX := 3;
  MAX_WITHDRAWALS_PER_PAYLOAD := 4;
  MAX_VALIDATORS_PER_WITHDRAWALS_SWEEP := 16;
  MAX_PENDING_DEPOSITS_LIMIT := 134217728;
  MAX_PENDING_DEPOSITS_PER_EPOCH := 16;
  MAX_PENDING_PARTIAL_WITHDRAWALS_LIMIT := 64;
  MAX_PENDING_CONSOLIDATIONS_LIMIT := 64;
  MAX_PENDING_PARTIALS_PER_WITHDRAWALS_SWEEP := 2;
  MAX_EFFECTIVE_BALANCE_ELECTRA := 2048000000000;
  MIN_ACTIVATION_BALANCE := 32000000000;
  MIN_SLASHING_PENALTY_QUOTIENT_ELECTRA := 4096;
  WHISTLEBLOWER_REWARD_QUOTIENT_ELECTRA := 4096;
  MIN_PER_EPOCH_CHURN_LIMIT_ELECTRA := 64000000000;
  MAX_PER_EPOCH_ACTIVATION_EXIT_CHURN_LIMIT := 128000000000;
  ELECTRA_FORK_VERSION := [Byte.x05; Byte.x00; Byte.x00; Byte.x01];
|}.

(** [PARTICIPATION_FLAG_WEIGHTS], [WEIGHT_DENOMINATOR] and the other constants
    that are the same in both presets. *)
Definition PARTICIPATION_FLAG_WEIGHTS : list Z := [14; 26; 14].
Definition WEIGHT_DENOMINATOR : Z := 64.
Definition SYNC_REWARD_WEIGHT : Z := 2.
Definition PROPOSER_WEIGHT : Z := 8.
Definition TIMELY_SOURCE_FLAG_INDEX : Z := 0.
Definition TIMELY_TARGET_FLAG_INDEX : Z := 1.
Definition TIMELY_HEAD_FLAG_INDEX : Z := 2.
Definition UNSET_DEPOSIT_REQUESTS_START_INDEX : Z := u64_max.
Definition FULL_EXIT_REQUEST_AMOUNT : Z := 0.

(** What the code relies on; both presets meet it. *)
Class ForkSpecOk (S : BeaconSpec) (F : ForkSpec) : Prop := {
  sync_size : 0 < SYNC_COMMITTEE_SIZE <= 2 ^ 20;
  sync_subnets : 0 < SYNC_COMMITTEE_SUBNET_COUNT /\ SYNC_COMMITTEE_SIZE mod SYNC_COMMITTEE_SUBNET_COUNT = 0;
  sync_participants : 1 <= MIN_SYNC_COMMITTEE_PARTICIPANTS <= SYNC_COMMITTEE_SIZE;
  sync_period : 0 < EPOCHS_PER_SYNC_COMMITTEE_PERIOD <= 2 ^ 20;
  sync_aggregators : 0 < TARGET_AGGREGATORS_PER_SYNC_SUBCOMMITTEE;
  update_timeout : UPDATE_TIMEOUT = EPOCHS_PER_SYNC_COMMITTEE_PERIOD * SLOTS_PER_EPOCH;
  fork_quotients : 0 < INACTIVITY_PENALTY_QUOTIENT_ALTAIR <= 2 ^ 30 /\
    0 < INACTIVITY_PENALTY_QUOTIENT_BELLATRIX <= 2 ^ 30 /\
    0 < MIN_SLASHING_PENALTY_QUOTIENT_ALTAIR /\ 0 < MIN_SLASHING_PENALTY_QUOTIENT_BELLATRIX /\
    0 < MIN_SLASHING_PENALTY_QUOTIENT_ELECTRA /\ 0 < WHISTLEBLOWER_REWARD_QUOTIENT_ELECTRA;
  fork_multipliers : 0 <= PROPORTIONAL_SLASHING_MULTIPLIER_ALTAIR <= 3 /\
    0 <= PROPORTIONAL_SLASHING_MULTIPLIER_BELLATRIX <= 3;
  inactivity_score_bounds : 0 < INACTIVITY_SCORE_BIAS <= 2 ^ 10 /\ 0 <= INACTIVITY_SCORE_RECOVERY_RATE;
  withdrawals_per_payload : 1 < MAX_WITHDRAWALS_PER_PAYLOAD <= 2 ^ 20;
  withdrawals_sweep : 0 < MAX_VALIDATORS_PER_WITHDRAWALS_SWEEP <= 2 ^ 20;
  partials_per_sweep : 0 < MAX_PENDING_PARTIALS_PER_WITHDRAWALS_SWEEP < MAX_WITHDRAWALS_PER_PAYLOAD;
  pending_limits : 0 < MAX_PENDING_DEPOSITS_LIMIT <= 2 ^ 40 /\
    0 < MAX_PENDING_PARTIAL_WITHDRAWALS_LIMIT <= 2 ^ 40 /\ 0 < MAX_PENDING_CONSOLIDATIONS_LIMIT <= 2 ^ 40;
  deposits_per_epoch : 0 < MAX_PENDING_DEPOSITS_PER_EPOCH <= 2 ^ 20;
  activation_balance : EFFECTIVE_BALANCE_INCREMENT <= MIN_ACTIVATION_BALANCE <= MAX_EFFECTIVE_BALANCE_ELECTRA;
  activation_balance_mod : MIN_ACTIVATION_BALANCE mod EFFECTIVE_BALANCE_INCREMENT = 0;
  electra_balance_mod : MAX_EFFECTIVE_BALANCE_ELECTRA mod EFFECTIVE_BALANCE_INCREMENT = 0;
  electra_balance_bound : MAX_EFFECTIVE_BALANCE_ELECTRA <= 2 ^ 42;
  churn_electra : EFFECTIVE_BALANCE_INCREMENT <= MIN_PER_EPOCH_CHURN_LIMIT_ELECTRA
    <= MAX_PER_EPOCH_ACTIVATION_EXIT_CHURN_LIMIT;
  churn_electra_mod : MIN_PER_EPOCH_CHURN_LIMIT_ELECTRA mod EFFECTIVE_BALANCE_INCREMENT = 0;
  churn_electra_bound : MAX_PER_EPOCH_ACTIVATION_EXIT_CHURN_LIMIT <= 2 ^ 40;
}.

#[global] Instance mainnet_forks_ok : ForkSpecOk mainnet mainnet_forks.
Proof. split; cbn; repeat split; try lia; reflexivity. Qed.
#[global] Instance minimal_forks_ok : ForkSpecOk minimal minimal_forks.
Proof. split; cbn; repeat split; try lia; reflexivity. Qed.

(** [bls::aggregate_pubkeys]; [None] is its error (no key, or an invalid one). *)
Class Aggregation : Type := { aggregate_pubkeys : list bytes -> option bytes }.

(** ** Containers *)
Record SyncCommittee : Type := mkSyncCommittee {
  sc_pubkeys : list bytes;
  sc_aggregate_pubkey : bytes;
}.

Record HistoricalSummary : Type := mkHistoricalSummary {
  block_summary_root : bytes;
  state_summary_root : bytes;
}.

Record CapellaHeader : Type := mkCapellaHeader {
  cph_parent_hash : bytes;
  cph_fee_recipient : bytes;
  cph_state_root : bytes;
  cph_receipts_root : bytes;
  cph_logs_bloom : bytes;
  cph_prev_randao : bytes;
  cph_block_number : Z;
  cph_gas_limit : Z;
  cph_gas_used : Z;
  cph_timestamp : Z;
  cph_extra_data : bytes;
  cph_base_fee_per_gas : Z;
  cph_block_hash : bytes;
  cph_transactions_root : bytes;
  cph_withdrawals_root : bytes;
}.

Record DenebHeader : Type := mkDenebHeader {
  dph_parent_hash : bytes;
  dph_fee_recipient : bytes;
  dph_state_root : bytes;
  dph_receipts_root : bytes;
  dph_logs_bloom : bytes;
  dph_prev_randao : bytes;
  dph_block_number : Z;
  dph_gas_limit : Z;
  dph_gas_used : Z;
  dph_timestamp : Z;
  dph_extra_data : bytes;
  dph_base_fee_per_gas : Z;
  dph_block_hash : bytes;
  dph_transactions_root : bytes;
  dph_withdrawals_root : bytes;
  dph_blob_gas_used : Z;
  dph_excess_blob_gas : Z;
}.

Record PendingDeposit : Type := mkPendingDeposit {
  pd_pubkey : bytes;
  pd_withdrawal_credentials : bytes;
  pd_amount : Z;
  pd_signature : bytes;
  pd_slot : Z;
}.

Record PendingPartialWithdrawal : Type := mkPendingPartialWithdrawal {
  ppw_validator_index : Z;
  ppw_amount : Z;
  ppw_withdrawable_epoch : Z;
}.

Record PendingConsolidation : Type := mkPendingConsolidation {
  pc_source_index : Z;
  pc_target_index : Z;
}.

(** ** States *)
Record AltairState : Type := mkAltairState {
  al_base :> BeaconState;
  al_previous_epoch_participation : list Z;
  al_current_epoch_participation : list Z;
  al_inactivity_scores : list Z;
  al_current_sync_committee : SyncCommittee;
  al_next_sync_committee : SyncCommittee;
}.

Record CapellaState : Type := mkCapellaState {
  ca_altair :> AltairState;
  ca_latest_execution_payload_header : CapellaHeader;
  ca_next_withdrawal_index : Z;
  ca_next_withdrawal_validator_index : Z;
  ca_historical_summaries : list HistoricalSummary;
}.

Record DenebState : Type := mkDenebState {
  de_altair :> AltairState;
  de_latest_execution_payload_header : DenebHeader;
  de_next_withdrawal_index : Z;
  de_next_withdrawal_validator_index : Z;
  de_historical_summaries : list HistoricalSummary;
}.

Record ElectraState : Type := mkElectraState {
  el_deneb :> DenebState;
  el_deposit_requests_start_index : Z;
  el_deposit_balance_to_consume : Z;
  el_exit_balance_to_consume : Z;
  el_earliest_exit_epoch : Z;
  el_consolidation_balance_to_consume : Z;
  el_earliest_consolidation_epoch : Z;
  el_pending_deposits : list PendingDeposit;
  el_pending_partial_withdrawals : list PendingPartialWithdrawal;
  el_pending_consolidations : list PendingConsolidation;
}.

Definition al_with_base (s : AltairState) (x : BeaconState) : AltairState :=
mkAltairState x (al_previous_epoch_participation s) (al_current_epoch_participation s)
    (al_inactivity_scores s) (al_current_sync_committee s) (al_next_sync_committee s).
Definition al_with_previous_epoch_participation (s : AltairState) (x : list Z) : AltairState :=
mkAltairState (al_base s) x (al_current_epoch_participation s) (al_inactivity_scores s)
    (al_current_sync_committee s) (al_next_sync_committee s).
Definition al_with_current_epoch_participation (s : AltairState) (x : list Z) : AltairState :=
mkAltairState (al_base s) (al_previous_epoch_participation s) x (al_inactivity_scores s)
    (al_current_sync_committee s) (al_next_sync_committee s).
Definition al_with_inactivity_scores (s : AltairState) (x : list Z) : AltairState :=
mkAltairState (al_base s) (al_previous_epoch_participation s) (al_current_epoch_participation s)
    x (al_current_sync_committee s) (al_next_sync_committee s).
Definition al_with_current_sync_committee (s : AltairState) (x : SyncCommittee) : AltairState :=
mkAltairState (al_base s) (al_previous_epoch_participation s) (al_current_epoch_participation s)
    (al_inactivity_scores s) x (al_next_sync_committee s).
Definition al_with_next_sync_committee (s : AltairState) (x : SyncCommittee) : AltairState :=
mkAltairState (al_base s) (al_previous_epoch_participation s) (al_current_epoch_participation s)
    (al_inactivity_scores s) (al_current_sync_committee s) x.
Definition ca_with_altair (s : CapellaState) (x : AltairState) : CapellaState :=
mkCapellaState x (ca_latest_execution_payload_header s) (ca_next_withdrawal_index s)
    (ca_next_withdrawal_validator_index s) (ca_historical_summaries s).
Definition ca_with_historical_summaries (s : CapellaState) (x : list HistoricalSummary) : CapellaState :=
  mkCapellaState (ca_altair s) (ca_latest_execution_payload_header s) (ca_next_withdrawal_index s)
    (ca_next_withdrawal_validator_index s) x.
Definition de_with_altair (s : DenebState) (x : AltairState) : DenebState :=
mkDenebState x (de_latest_execution_payload_header s) (de_next_withdrawal_index s)
    (de_next_withdrawal_validator_index s) (de_historical_summaries s).
Definition de_with_latest_execution_payload_header (s : DenebState) (x : DenebHeader) : DenebState :=
mkDenebState (de_altair s) x (de_next_withdrawal_index s) (de_next_withdrawal_validator_index s)
    (de_historical_summaries s).
Definition de_with_next_withdrawal_index (s : DenebState) (x : Z) : DenebState :=
mkDenebState (de_altair s) (de_latest_execution_payload_header s) x
    (de_next_withdrawal_validator_index s) (de_historical_summaries s).
Definition de_with_next_withdrawal_validator_index (s : DenebState) (x : Z) : DenebState :=
mkDenebState (de_altair s) (de_latest_execution_payload_header s) (de_next_withdrawal_index s) x
    (de_historical_summaries s).
Definition de_with_historical_summaries (s : DenebState) (x : list HistoricalSummary) : DenebState :=
mkDenebState (de_altair s) (de_latest_execution_payload_header s) (de_next_withdrawal_index s)
    (de_next_withdrawal_validator_index s) x.
Definition el_with_deneb (s : ElectraState) (x : DenebState) : ElectraState :=
mkElectraState x (el_deposit_requests_start_index s) (el_deposit_balance_to_consume s)
    (el_exit_balance_to_consume s) (el_earliest_exit_epoch s)
    (el_consolidation_balance_to_consume s) (el_earliest_consolidation_epoch s)
    (el_pending_deposits s) (el_pending_partial_withdrawals s) (el_pending_consolidations s).
Definition el_with_deposit_requests_start_index (s : ElectraState) (x : Z) : ElectraState :=
mkElectraState (el_deneb s) x (el_deposit_balance_to_consume s) (el_exit_balance_to_consume s)
    (el_earliest_exit_epoch s) (el_consolidation_balance_to_consume s)
    (el_earliest_consolidation_epoch s) (el_pending_deposits s) (el_pending_partial_withdrawals
    s) (el_pending_consolidations s).
Definition el_with_deposit_balance_to_consume (s : ElectraState) (x : Z) : ElectraState :=
mkElectraState (el_deneb s) (el_deposit_requests_start_index s) x (el_exit_balance_to_consume s)
    (el_earliest_exit_epoch s) (el_consolidation_balance_to_consume s)
    (el_earliest_consolidation_epoch s) (el_pending_deposits s) (el_pending_partial_withdrawals
    s) (el_pending_consolidations s).
Definition el_with_exit_balance_to_consume (s : ElectraState) (x : Z) : ElectraState :=
mkElectraState (el_deneb s) (el_deposit_requests_start_index s) (el_deposit_balance_to_consume
    s) x (el_earliest_exit_epoch s) (el_consolidation_balance_to_consume s)
    (el_earliest_consolidation_epoch s) (el_pending_deposits s) (el_pending_partial_withdrawals
    s) (el_pending_consolidations s).
Definition el_with_earliest_exit_epoch (s : ElectraState) (x : Z) : ElectraState :=
mkElectraState (el_deneb s) (el_deposit_requests_start_index s) (el_deposit_balance_to_consume
    s) (el_exit_balance_to_consume s) x (el_consolidation_balance_to_consume s)
    (el_earliest_consolidation_epoch s) (el_pending_deposits s) (el_pending_partial_withdrawals
    s) (el_pending_consolidations s).
Definition el_with_consolidation_balance_to_consume (s : ElectraState) (x : Z) : ElectraState :=
mkElectraState (el_deneb s) (el_deposit_requests_start_index s) (el_deposit_balance_to_consume
    s) (el_exit_balance_to_consume s) (el_earliest_exit_epoch s) x
    (el_earliest_consolidation_epoch s) (el_pending_deposits s) (el_pending_partial_withdrawals
    s) (el_pending_consolidations s).
Definition el_with_earliest_consolidation_epoch (s : ElectraState) (x : Z) : ElectraState :=
mkElectraState (el_deneb s) (el_deposit_requests_start_index s) (el_deposit_balance_to_consume
    s) (el_exit_balance_to_consume s) (el_earliest_exit_epoch s)
    (el_consolidation_balance_to_consume s) x (el_pending_deposits s)
    (el_pending_partial_withdrawals s) (el_pending_consolidations s).
Definition el_with_pending_deposits (s : ElectraState) (x : list PendingDeposit) : ElectraState :=
mkElectraState (el_deneb s) (el_deposit_requests_start_index s) (el_deposit_balance_to_consume
    s) (el_exit_balance_to_consume s) (el_earliest_exit_epoch s)
    (el_consolidation_balance_to_consume s) (el_earliest_consolidation_epoch s) x
    (el_pending_partial_withdrawals s) (el_pending_consolidations s).
Definition el_with_pending_partial_withdrawals (s : ElectraState) (x : list PendingPartialWithdrawal) : ElectraState :=
mkElectraState (el_deneb s) (el_deposit_requests_start_index s) (el_deposit_balance_to_consume
    s) (el_exit_balance_to_consume s) (el_earliest_exit_epoch s)
    (el_consolidation_balance_to_consume s) (el_earliest_consolidation_epoch s)
    (el_pending_deposits s) x (el_pending_consolidations s).
Definition el_with_pending_consolidations (s : ElectraState) (x : list PendingConsolidation) : ElectraState :=
mkElectraState (el_deneb s) (el_deposit_requests_start_index s) (el_deposit_balance_to_consume
    s) (el_exit_balance_to_consume s) (el_earliest_exit_epoch s)
    (el_consolidation_balance_to_consume s) (el_earliest_consolidation_epoch s)
    (el_pending_deposits s) (el_pending_partial_withdrawals s) x.

(** ** Projections *)
Definition capella_state_to_altair (s : CapellaState) : AltairState :=
mkAltairState (mkBeaconState (genesis_time s) (genesis_validators_root s) (slot s) (fork s)
    (latest_block_header s) (block_roots s) (state_roots s) (historical_roots s) (eth1_data s)
    (eth1_data_votes s) (eth1_deposit_index s) (validators s) (balances s) (randao_mixes s)
    (slashings s) (previous_epoch_attestations s) (current_epoch_attestations s)
    (justification_bits s) (previous_justified_checkpoint s) (current_justified_checkpoint s)
    (finalized_checkpoint s)) (al_previous_epoch_participation s)
    (al_current_epoch_participation s) (al_inactivity_scores s) (al_current_sync_committee s)
    (al_next_sync_committee s).
Definition update_capella_from_altair_ref (s : CapellaState) (altair : AltairState) : CapellaState :=
mkCapellaState (mkAltairState (mkBeaconState (genesis_time altair) (genesis_validators_root
    altair) (slot altair) (fork altair) (latest_block_header altair) (block_roots altair)
    (state_roots altair) (historical_roots altair) (eth1_data altair) (eth1_data_votes altair)
    (eth1_deposit_index altair) (validators altair) (balances altair) (randao_mixes altair)
    (slashings altair) (previous_epoch_attestations altair) (current_epoch_attestations altair)
    (justification_bits altair) (previous_justified_checkpoint altair)
    (current_justified_checkpoint altair) (finalized_checkpoint altair))
    (al_previous_epoch_participation altair) (al_current_epoch_participation altair)
    (al_inactivity_scores altair) (al_current_sync_committee altair) (al_next_sync_committee
    altair)) (ca_latest_execution_payload_header s) (ca_next_withdrawal_index s)
    (ca_next_withdrawal_validator_index s) (ca_historical_summaries s).
Definition deneb_state_to_altair (s : DenebState) : AltairState :=
mkAltairState (mkBeaconState (genesis_time s) (genesis_validators_root s) (slot s) (fork s)
    (latest_block_header s) (block_roots s) (state_roots s) (historical_roots s) (eth1_data s)
    (eth1_data_votes s) (eth1_deposit_index s) (validators s) (balances s) (randao_mixes s)
    (slashings s) (previous_epoch_attestations s) (current_epoch_attestations s)
    (justification_bits s) (previous_justified_checkpoint s) (current_justified_checkpoint s)
    (finalized_checkpoint s)) (al_previous_epoch_participation s)
    (al_current_epoch_participation s) (al_inactivity_scores s) (al_current_sync_committee s)
    (al_next_sync_committee s).
Definition deneb_state_to_capella (s : DenebState) : CapellaState :=
  let h := de_latest_execution_payload_header s in
let capella_header := mkCapellaHeader (dph_parent_hash h) (dph_fee_recipient h) (dph_state_root
    h) (dph_receipts_root h) (dph_logs_bloom h) (dph_prev_randao h) (dph_block_number h)
    (dph_gas_limit h) (dph_gas_used h) (dph_timestamp h) (dph_extra_data h)
    (dph_base_fee_per_gas h) (dph_block_hash h) (dph_transactions_root h) (dph_withdrawals_root
    h) in
mkCapellaState (mkAltairState (mkBeaconState (genesis_time s) (genesis_validators_root s) (slot
    s) (fork s) (latest_block_header s) (block_roots s) (state_roots s) (historical_roots s)
    (eth1_data s) (eth1_data_votes s) (eth1_deposit_index s) (validators s) (balances s)
    (randao_mixes s) (slashings s) (previous_epoch_attestations s) (current_epoch_attestations
    s) (justification_bits s) (previous_justified_checkpoint s) (current_justified_checkpoint s)
    (finalized_checkpoint s)) (al_previous_epoch_participation s)
    (al_current_epoch_participation s) (al_inactivity_scores s) (al_current_sync_committee s)
    (al_next_sync_committee s)) capella_header (de_next_withdrawal_index s)
    (de_next_withdrawal_validator_index s) (de_historical_summaries s).
Definition update_deneb_from_capella (s : DenebState) (capella : CapellaState) : DenebState :=
mkDenebState (mkAltairState (mkBeaconState (genesis_time capella) (genesis_validators_root
    capella) (slot capella) (fork capella) (latest_block_header capella) (block_roots capella)
    (state_roots capella) (historical_roots capella) (eth1_data capella) (eth1_data_votes
    capella) (eth1_deposit_index capella) (validators capella) (balances capella) (randao_mixes
    capella) (slashings capella) (previous_epoch_attestations capella)
    (current_epoch_attestations capella) (justification_bits capella)
    (previous_justified_checkpoint capella) (current_justified_checkpoint capella)
    (finalized_checkpoint capella)) (al_previous_epoch_participation capella)
    (al_current_epoch_participation capella) (al_inactivity_scores capella)
    (al_current_sync_committee capella) (al_next_sync_committee capella))
    (de_latest_execution_payload_header s) (ca_next_withdrawal_index capella)
    (ca_next_withdrawal_validator_index capella) (ca_historical_summaries capella).
Definition electra_state_to_altair (s : ElectraState) : AltairState :=
mkAltairState (mkBeaconState (genesis_time s) (genesis_validators_root s) (slot s) (fork s)
    (latest_block_header s) (block_roots s) (state_roots s) (historical_roots s) (eth1_data s)
    (eth1_data_votes s) (eth1_deposit_index s) (validators s) (balances s) (randao_mixes s)
    (slashings s) (previous_epoch_attestations s) (current_epoch_attestations s)
    (justification_bits s) (previous_justified_checkpoint s) (current_justified_checkpoint s)
    (finalized_checkpoint s)) (al_previous_epoch_participation s)
    (al_current_epoch_participation s) (al_inactivity_scores s) (al_current_sync_committee s)
    (al_next_sync_committee s).
Definition update_electra_from_altair (s : ElectraState) (altair : AltairState) : ElectraState :=
mkElectraState (mkDenebState (mkAltairState (mkBeaconState (genesis_time altair)
    (genesis_validators_root altair) (slot altair) (fork altair) (latest_block_header altair)
    (block_roots altair) (state_roots altair) (historical_roots altair) (eth1_data altair)
    (eth1_data_votes altair) (eth1_deposit_index altair) (validators altair) (balances altair)
    (randao_mixes altair) (slashings altair) (previous_epoch_attestations altair)
    (current_epoch_attestations altair) (justification_bits altair)
    (previous_justified_checkpoint altair) (current_justified_checkpoint altair)
    (finalized_checkpoint altair)) (al_previous_epoch_participation altair)
    (al_current_epoch_participation altair) (al_inactivity_scores altair)
    (al_current_sync_committee altair) (al_next_sync_committee altair))
    (de_latest_execution_payload_header s) (de_next_withdrawal_index s)
    (de_next_withdrawal_validator_index s) (de_historical_summaries s))
    (el_deposit_requests_start_index s) (el_deposit_balance_to_consume s)
    (el_exit_balance_to_consume s) (el_earliest_exit_epoch s)
    (el_consolidation_balance_to_consume s) (el_earliest_consolidation_epoch s)
    (el_pending_deposits s) (el_pending_partial_withdrawals s) (el_pending_consolidations s).
Definition electra_state_to_deneb (s : ElectraState) : DenebState :=
mkDenebState (mkAltairState (mkBeaconState (genesis_time s) (genesis_validators_root s) (slot s)
    (fork s) (latest_block_header s) (block_roots s) (state_roots s) (historical_roots s)
    (eth1_data s) (eth1_data_votes s) (eth1_deposit_index s) (validators s) (balances s)
    (randao_mixes s) (slashings s) (previous_epoch_attestations s) (current_epoch_attestations
    s) (justification_bits s) (previous_justified_checkpoint s) (current_justified_checkpoint s)
    (finalized_checkpoint s)) (al_previous_epoch_participation s)
    (al_current_epoch_participation s) (al_inactivity_scores s) (al_current_sync_committee s)
    (al_next_sync_committee s)) (de_latest_execution_payload_header s) (de_next_withdrawal_index
    s) (de_next_withdrawal_validator_index s) (de_historical_summaries s).
Definition update_electra_from_deneb (s : ElectraState) (deneb : DenebState) : ElectraState :=
mkElectraState (mkDenebState (mkAltairState (mkBeaconState (genesis_time deneb)
    (genesis_validators_root deneb) (slot deneb) (fork deneb) (latest_block_header deneb)
    (block_roots deneb) (state_roots deneb) (historical_roots deneb) (eth1_data deneb)
    (eth1_data_votes deneb) (eth1_deposit_index deneb) (validators deneb) (balances deneb)
    (randao_mixes deneb) (slashings deneb) (previous_epoch_attestations deneb)
    (current_epoch_attestations deneb) (justification_bits deneb) (previous_justified_checkpoint
    deneb) (current_justified_checkpoint deneb) (finalized_checkpoint deneb))
    (al_previous_epoch_participation deneb) (al_current_epoch_participation deneb)
    (al_inactivity_scores deneb) (al_current_sync_committee deneb) (al_next_sync_committee
    deneb)) (de_latest_execution_payload_header deneb) (de_next_withdrawal_index deneb)
    (de_next_withdrawal_validator_index deneb) (de_historical_summaries deneb))
    (el_deposit_requests_start_index s) (el_deposit_balance_to_consume s)
    (el_exit_balance_to_consume s) (el_earliest_exit_epoch s)
    (el_consolidation_balance_to_consume s) (el_earliest_consolidation_epoch s)
    (el_pending_deposits s) (el_pending_partial_withdrawals s) (el_pending_consolidations s).

(** [sync_altair_into_electra] of electra/epoch/mod.rs. *)
Definition sync_altair_into_electra (s : ElectraState) (altair : AltairState) : ElectraState :=
  let capella := deneb_state_to_capella (electra_state_to_deneb s) in
  let capella := update_capella_from_altair_ref capella altair in
  let deneb := electra_state_to_deneb s in
  let deneb := update_deneb_from_capella deneb capella in
  update_electra_from_deneb s deneb.

(** ** Operations on a part of a state

    A step of the phase 0 fields, of the Altair fields or of the Deneb fields,
    run on a later state. *)
Section lift.
  Context {E : Type}.

Definition al_on (f : BeaconState -> result E BeaconState) (s : AltairState) : result E AltairState :=
  b ← f (al_base s); Ok (al_with_base s b).
Definition el_on_altair (f : AltairState -> result E AltairState) (s : ElectraState)
    : result E ElectraState :=
  a ← f (de_altair (el_deneb s)); Ok (el_with_deneb s (de_with_altair (el_deneb s) a)).
Definition el_on (f : BeaconState -> result E BeaconState) (s : ElectraState) : result E ElectraState :=
  el_on_altair (al_on f) s.
End lift.

(** A new group of phase 0 fields in an Electra state. *)
Definition el_with_base (s : ElectraState) (b : BeaconState) : ElectraState :=
  el_with_deneb s (de_with_altair (el_deneb s) (al_with_base (de_altair (el_deneb s)) b)).

(** ** The projections are projections *)
Lemma capella_altair_lens s a :
  capella_state_to_altair s = ca_altair s /\ update_capella_from_altair_ref s a = ca_with_altair s a.
Proof. by destruct s as [[[] ? ? ? ? ?] ? ? ? ?], a as [[] ? ? ? ? ?]. Qed.

Lemma deneb_capella_lens s c :
  ca_altair (deneb_state_to_capella s) = de_altair s /\
  update_deneb_from_capella s c = mkDenebState (ca_altair c) (de_latest_execution_payload_header s)
    (ca_next_withdrawal_index c) (ca_next_withdrawal_validator_index c) (ca_historical_summaries c).
Proof. by destruct s as [[[] ? ? ? ? ?] ? ? ? ?], c as [[[] ? ? ? ? ?] ? ? ? ?]. Qed.

Lemma deneb_altair_lens s : deneb_state_to_altair s = de_altair s.
Proof. by destruct s as [[[] ? ? ? ? ?] ? ? ? ?]. Qed.

Lemma electra_deneb_lens s d :
  electra_state_to_deneb s = el_deneb s /\ update_electra_from_deneb s d = el_with_deneb s d.
Proof.
  by destruct s as [[[[] ? ? ? ? ?] ? ? ? ?] ? ? ? ? ? ? ? ? ?], d as [[[] ? ? ? ? ?] ? ? ? ?].
Qed.

Lemma electra_altair_lens s a :
  electra_state_to_altair s = de_altair (el_deneb s) /\
  update_electra_from_altair s a = el_with_deneb s (de_with_altair (el_deneb s) a) /\
  sync_altair_into_electra s a = el_with_deneb s (de_with_altair (el_deneb s) a).
Proof.
  by destruct s as [[[[] ? ? ? ? ?] ? ? ? ?] ? ? ? ? ? ? ? ? ?], a as [[] ? ? ? ? ?].
Qed.
