(* ===== verification/ForkInvariant.v ===== *)
(** * The type invariants of the later states

    What the field types of the Altair to Electra states and the way their values
    are built promise: one balance, one participation entry per epoch and one
    inactivity score for each validator, [u64] ranges, the lengths of vectors and
    the limits of lists.  [base_ok] bounds effective balances by a parameter, since
    Electra raises the maximum.  The lemmas say which writes keep the invariants
    and are registered in the hint database [fwf]. *)

From Stdlib Require Import ZArith Lia.
From S2P Require Import Prelude SszCodec SszBitfield SszTypes Spec BeaconState Invariant Mutators Forks.

Create HintDb fwf.

Section invariant.
  Context `{BeaconSpec} `{ForkSpec}.

Record validator_within (M : Z) (v : Validator) : Prop := {
  vw_balance : 0 <= v_effective_balance v <= M;
  vw_increment : v_effective_balance v mod EFFECTIVE_BALANCE_INCREMENT = 0;
  vw_eligibility : u64 (v_activation_eligibility_epoch v);
  vw_activation : u64 (v_activation_epoch v);
  vw_exit : u64 (v_exit_epoch v);
  vw_withdrawable : u64 (v_withdrawable_epoch v);
}.

Record base_ok (M : Z) (s : BeaconState) : Prop := {
  bo_slot : u64 (slot s);
  bo_registry_limit : zlen (validators s) <= VALIDATOR_REGISTRY_LIMIT;
  bo_balances_length : length (balances s) = length (validators s);
  bo_validators : Forall (validator_within M) (validators s);
  bo_balances : Forall u64 (balances s);
  bo_block_roots : zlen (block_roots s) = SLOTS_PER_HISTORICAL_ROOT;
  bo_state_roots : zlen (state_roots s) = SLOTS_PER_HISTORICAL_ROOT;
  bo_randao_mixes : zlen (randao_mixes s) = EPOCHS_PER_HISTORICAL_VECTOR;
  bo_slashings_length : zlen (slashings s) = EPOCHS_PER_SLASHINGS_VECTOR;
  bo_slashings : Forall u64 (slashings s);
  bo_bits : length (justification_bits s) = 4%nat;
  bo_votes : zlen (eth1_data_votes s) <= ETH1_DATA_VOTES_LIMIT;
  bo_deposit_index : u64 (eth1_deposit_index s);
}.

Definition flags_ok (f : Z) : Prop := 0 <= f < 256.

Record altair_ok (M : Z) (s : AltairState) : Prop := {
  ao_base : base_ok M s;
  ao_previous_length : length (al_previous_epoch_participation s) = length (validators s);
  ao_current_length : length (al_current_epoch_participation s) = length (validators s);
  ao_scores_length : length (al_inactivity_scores s) = length (validators s);
  ao_previous : Forall flags_ok (al_previous_epoch_participation s);
  ao_current : Forall flags_ok (al_current_epoch_participation s);
  ao_scores : Forall u64 (al_inactivity_scores s);
}.

Definition partial_ok (w : PendingPartialWithdrawal) : Prop :=
  u64 (ppw_validator_index w) /\ u64 (ppw_amount w) /\ u64 (ppw_withdrawable_epoch w).
Definition consolidation_ok (c : PendingConsolidation) : Prop :=
  u64 (pc_source_index c) /\ u64 (pc_target_index c).
Definition pending_deposit_ok (d : PendingDeposit) : Prop := u64 (pd_amount d) /\ u64 (pd_slot d).

Record electra_ok (s : ElectraState) : Prop := {
  eo_altair : altair_ok MAX_EFFECTIVE_BALANCE_ELECTRA s;
  eo_withdrawal_index : u64 (de_next_withdrawal_index s);
  eo_withdrawal_validator_index : u64 (de_next_withdrawal_validator_index s);
  eo_summaries : zlen (de_historical_summaries s) <= HISTORICAL_ROOTS_LIMIT;
  eo_deposit_start : u64 (el_deposit_requests_start_index s);
  eo_deposit_balance : u64 (el_deposit_balance_to_consume s);
  eo_exit_balance : u64 (el_exit_balance_to_consume s);
  eo_exit_epoch : u64 (el_earliest_exit_epoch s);
  eo_consolidation_balance : u64 (el_consolidation_balance_to_consume s);
  eo_consolidation_epoch : u64 (el_earliest_consolidation_epoch s);
  eo_deposits_limit : zlen (el_pending_deposits s) <= MAX_PENDING_DEPOSITS_LIMIT;
  eo_deposits : Forall pending_deposit_ok (el_pending_deposits s);
  eo_partials_limit : zlen (el_pending_partial_withdrawals s) <= MAX_PENDING_PARTIAL_WITHDRAWALS_LIMIT;
  eo_partials : Forall partial_ok (el_pending_partial_withdrawals s);
  eo_consolidations_limit : zlen (el_pending_consolidations s) <= MAX_PENDING_CONSOLIDATIONS_LIMIT;
  eo_consolidations : Forall consolidation_ok (el_pending_consolidations s);
}.

(** ** Writes that keep them *)
Local Ltac keep := let Hk := fresh in intros Hk; destruct Hk; constructor; cbn; auto.

Lemma base_ok_balances M s bs :
  base_ok M s -> length bs = length (balances s) -> Forall u64 bs -> base_ok M (with_balances s bs).
Proof. intros Hs Hl Hb. revert Hs. keep. by rewrite Hl. Qed.

Lemma base_ok_validators M s vs :
  base_ok M s -> length vs = length (validators s) -> Forall (validator_within M) vs ->
  base_ok M (with_validators s vs).
Proof.
  intros Hs Hl Hb. revert Hs. keep; [|by rewrite Hl]. unfold zlen in *. by rewrite Hl.
Qed.

Lemma base_ok_slashings M s l :
  base_ok M s -> length l = length (slashings s) -> Forall u64 l -> base_ok M (with_slashings s l).
Proof. intros Hs Hl Hb. revert Hs. keep. unfold zlen in *. by rewrite Hl. Qed.

Lemma base_ok_randao_mixes M s l :
  base_ok M s -> length l = length (randao_mixes s) -> base_ok M (with_randao_mixes s l).
Proof. intros Hs Hl. revert Hs. keep. unfold zlen in *. by rewrite Hl. Qed.

Lemma base_ok_clear_votes M s :
  0 <= ETH1_DATA_VOTES_LIMIT -> base_ok M s -> base_ok M (clear_eth1_data_votes s).
Proof. intros Hv. keep. Qed.

Lemma altair_ok_base M s b :
  altair_ok M s -> base_ok M b -> length (validators b) = length (validators s) ->
  altair_ok M (al_with_base s b).
Proof. intros Hs Hb Hl. revert Hs. keep; by rewrite Hl. Qed.

Lemma electra_ok_altair s a :
  electra_ok s -> altair_ok MAX_EFFECTIVE_BALANCE_ELECTRA a ->
  electra_ok (el_with_deneb s (de_with_altair (el_deneb s) a)).
Proof. intros Hs Ha. revert Hs. keep. Qed.

Lemma electra_ok_base s b :
  electra_ok s -> base_ok MAX_EFFECTIVE_BALANCE_ELECTRA b ->
  length (validators b) = length (validators s) -> electra_ok (el_with_base s b).
Proof. intros Hs Hb Hl. apply electra_ok_altair; [done|]. by apply altair_ok_base; [apply Hs|..]. Qed.

(** The fields the later theorems read most. *)
Lemma electra_base s : electra_ok s -> base_ok MAX_EFFECTIVE_BALANCE_ELECTRA s.
Proof. intros Hs. apply ao_base, Hs. Qed.

Lemma validator_within_at M s i v :
  base_ok M s -> validators s !! i = Some v -> validator_within M v.
Proof. intros Hs Hv. by eapply Forall_lookup_1; [apply Hs|]. Qed.

Lemma balance_u64_at M s i b : base_ok M s -> balances s !! i = Some b -> u64 b.
Proof. intros Hs Hb. by eapply (Forall_lookup_1 u64); [apply Hs|]. Qed.

Lemma balance_of_validator M s i v :
  base_ok M s -> validators s !! i = Some v -> is_Some (balances s !! i).
Proof.
  intros Hs Hv. apply lookup_lt_is_Some_2. rewrite (bo_balances_length M s Hs).
  by eapply lookup_lt_Some.
Qed.

(** One entry replaced. *)
Lemma base_ok_set_balance M s i b :
  base_ok M s -> u64 b -> base_ok M (with_balances s (<[i := b]> (balances s))).
Proof.
  intros Hs Hb. apply base_ok_balances; [done|by rewrite length_insert|].
  apply Forall_insert; [apply Hs|done].
Qed.

Lemma base_ok_set_validator M s i v :
  base_ok M s -> validator_within M v -> base_ok M (with_validators s (<[i := v]> (validators s))).
Proof.
  intros Hs Hv. apply base_ok_validators; [done|by rewrite length_insert|].
  apply Forall_insert; [apply Hs|done].
Qed.

Lemma validator_within_exit M v e w :
  validator_within M v -> u64 e -> u64 w -> validator_within M (v_with_exit v e w).
Proof. intros []. by constructor. Qed.
Lemma validator_within_slashed M v w :
  validator_within M v -> u64 w -> validator_within M (v_with_slashed v w).
Proof. intros []. by constructor. Qed.
Lemma validator_within_eligibility M v e :
  validator_within M v -> u64 e -> validator_within M (v_with_activation_eligibility_epoch v e).
Proof. intros []. by constructor. Qed.
Lemma validator_within_activation M v e :
  validator_within M v -> u64 e -> validator_within M (v_with_activation_epoch v e).
Proof. intros []. by constructor. Qed.
Lemma validator_within_effective M v b :
  validator_within M v -> 0 <= b <= M -> b mod EFFECTIVE_BALANCE_INCREMENT = 0 ->
  validator_within M (v_with_effective_balance v b).
Proof. intros []. by constructor. Qed.
End invariant.

#[export] Hint Resolve base_ok_balances base_ok_validators base_ok_slashings base_ok_randao_mixes
  base_ok_clear_votes altair_ok_base electra_ok_altair electra_ok_base electra_base
  validator_within_at balance_u64_at base_ok_set_balance base_ok_set_validator
  validator_within_exit validator_within_slashed validator_within_eligibility
  validator_within_activation validator_within_effective : fwf.

(** ** A concrete state of the minimal preset, by its registry and queues *)
Definition ex_committee : SyncCommittee :=
  mkSyncCommittee (replicate 32 (to_le_bytes 48 0)) (to_le_bytes 48 0).
Definition ex_payload_header : DenebHeader :=
  mkDenebHeader (replicate 32 Byte.x00) (replicate 20 Byte.x00) (replicate 32 Byte.x00)
    (replicate 32 Byte.x00) [] (replicate 32 Byte.x00) 0 0 0 0 [] 0 (replicate 32 Byte.x00)
    (replicate 32 Byte.x00) (replicate 32 Byte.x00) 0 0.

Definition ex_base (sl : Z) (vs : list Validator) (bs : list Z) : BeaconState :=
  mkBeaconState 0 (replicate 32 Byte.x00) sl (mkFork (replicate 4 Byte.x00) (replicate 4 Byte.x00) 0)
    (mkBeaconBlockHeader 0 0 (replicate 32 Byte.x00) (replicate 32 Byte.x00) (replicate 32 Byte.x00))
    (replicate 64 (replicate 32 Byte.x07)) (replicate 64 (replicate 32 Byte.x00)) []
    (mkEth1Data (replicate 32 Byte.x00) 0 (replicate 32 Byte.x00)) [] 0 vs bs
    (replicate 64 (replicate 32 Byte.x00)) (replicate 64 0) [] [] [false; false; false; false]
    (mkCheckpoint 0 (replicate 32 Byte.x00)) (mkCheckpoint 0 (replicate 32 Byte.x00))
    (mkCheckpoint 0 (replicate 32 Byte.x00)).

Definition ex_altair (sl : Z) (vs : list Validator) (bs : list Z) : AltairState :=
  mkAltairState (ex_base sl vs bs) (replicate (length vs) 7) (replicate (length vs) 0)
    (replicate (length vs) 8) ex_committee ex_committee.

Definition ex_electra (sl : Z) (vs : list Validator) (bs : list Z) (deposits : list PendingDeposit)
    (partials : list PendingPartialWithdrawal) (consolidations : list PendingConsolidation)
    : ElectraState :=
  mkElectraState (mkDenebState (ex_altair sl vs bs) ex_payload_header 5 0 []) u64_max 0 0 0 0 0
    deposits partials consolidations.

(** A validator with key number [k], credentials of the given prefix, effective
    balance in increments and a withdrawable epoch. *)
Definition ex_member (k : Z) (prefix : byte) (increments exit withdrawable : Z) : Validator :=
  mkValidator (to_le_bytes 48 k) (prefix :: replicate 11 Byte.x00 ++ replicate 20 Byte.xaa)
    (increments * 1000000000) false 0 0 exit withdrawable.

Lemma ex_base_ok M sl vs bs :
  u64 sl -> length bs = length vs -> zlen vs <= 2 ^ 40 ->
  Forall (@validator_within minimal M) vs -> Forall u64 bs -> @base_ok minimal M (ex_base sl vs bs).
Proof.
  intros Hsl Hl Hn Hv Hb. split; try done.
  by apply (Forall_replicate u64 64 0).
Qed.

Lemma ex_altair_ok M sl vs bs :
  u64 sl -> length bs = length vs -> zlen vs <= 2 ^ 40 ->
  Forall (@validator_within minimal M) vs -> Forall u64 bs -> @altair_ok minimal M (ex_altair sl vs bs).
Proof.
  intros. split; cbn; try by rewrite length_replicate.
  - by apply ex_base_ok.
  - by apply Forall_replicate.
  - by apply Forall_replicate.
  - by apply Forall_replicate.
Qed.

Lemma ex_electra_ok sl vs bs deposits partials consolidations :
  u64 sl -> length bs = length vs -> zlen vs <= 2 ^ 40 ->
  Forall (@validator_within minimal 2048000000000) vs -> Forall u64 bs ->
  zlen deposits <= 64 -> Forall pending_deposit_ok deposits ->
  zlen partials <= 64 -> Forall partial_ok partials ->
  zlen consolidations <= 64 -> Forall consolidation_ok consolidations ->
  @electra_ok minimal minimal_forks (ex_electra sl vs bs deposits partials consolidations).
Proof.
  intros. split; try done.
  - by apply ex_altair_ok.
  - cbn. lia.
Qed.

(** Side conditions of the examples: every entry of a concrete list in range. *)
Ltac ex_ranges :=
  repeat lazymatch goal with
  | |- Forall _ [] => constructor
  | |- Forall _ (_ :: _) => constructor
  | |- Forall _ (_ <$> _) => cbn [fmap list_fmap]
  | |- _ /\ _ => split
  | |- validator_within _ _ => constructor; cbn
  | |- u64 _ => split; [vm_compute; congruence|vm_compute; reflexivity]
  | |- partial_ok _ => split
  | |- consolidation_ok _ => split
  | |- pending_deposit_ok _ => split
  | |- _ <= _ => vm_compute; congruence
  | |- _ < _ => vm_compute; reflexivity
  | |- _ = _ => reflexivity
  end.
