(* ===== verification/Altair.v ===== *)
(** * Altair: participation flags, rewards and epoch processing

    crates/pharos-stf/src/altair/{helpers.rs, epoch/}: the flags that replace the
    pending attestations of phase 0, the deltas computed from them, inactivity
    scores, the sync committee, slashing and [process_epoch].  The deneb variant of
    the rewards (deneb/epoch/mod.rs, deneb/helpers.rs), which Electra runs, is
    here too.

    Where the Altair copy of a phase 0 function is the same computation on the
    shared fields with the same errors, it is that function lifted by [al_on] or
    applied through the coercion to the shared fields. *)

From Stdlib Require Import ZArith Lia.
From stdpp Require Import sorting.
From S2P Require Import Prelude SszCodec SszBitfield SszTypes Merkle Shuffling Spec BeaconState Invariant Roots Accessors Mutators Justification Rewards EpochUpdates Forks.

Definition DOMAIN_SYNC_COMMITTEE : bytes := [Byte.x07; Byte.x00; Byte.x00; Byte.x00].

(** ** Flags: a [u8], the shift count taken modulo its width *)
Definition add_flag (flags flag_index : Z) : Z := Z.lor flags (Z.shiftl 1 (flag_index mod 8)).
Definition has_flag (flags flag_index : Z) : bool :=
  let flag := Z.shiftl 1 (flag_index mod 8) in Z.land flags flag =? flag.

Section helpers.
  Context `{Crypto} `{S : BeaconSpec} `{ForkSpec} `{Aggregation} {E : Type}.
  Implicit Types s : AltairState.

(** ** Block roots and participation *)
Definition get_block_root_at_slot_altair s (sl : Z) : result StateTransitionError bytes :=
  if negb ((sl <? slot s) && (slot s <=? wadd sl SLOTS_PER_HISTORICAL_ROOT)) then Err SlotOutOfRange
  else ok_or (block_roots s !! Z.to_nat (sl mod SLOTS_PER_HISTORICAL_ROOT)) SlotOutOfRange.

Definition get_block_root_altair s (epoch : Z) : result StateTransitionError bytes :=
  get_block_root_at_slot_altair s (wmul epoch SLOTS_PER_EPOCH).

Definition get_attestation_participation_flag_indices s (data : AttestationData)
    (inclusion_delay : Z) (eip7045_target_flag : bool) : result StateTransitionError (list Z) :=
  let current_epoch := compute_epoch_at_slot (slot s) SLOTS_PER_EPOCH in
  let justified_checkpoint :=
    if cp_epoch (ad_target data) =? current_epoch then current_justified_checkpoint s
    else previous_justified_checkpoint s in
  let is_matching_source := bool_decide (ad_source data = justified_checkpoint) in
  target_root ← get_block_root_altair s (cp_epoch (ad_target data));
  let is_matching_target :=
    is_matching_source && bool_decide (cp_root (ad_target data) = target_root) in
  head_root ← get_block_root_at_slot_altair s (ad_slot data);
  let is_matching_head :=
    is_matching_target && bool_decide (ad_beacon_block_root data = head_root) in
  if negb is_matching_source then Err (InvalidAttestation InvalidSourceCheckpoint)
  else
    sqrt ← integer_squareroot SLOTS_PER_EPOCH;
    Ok ((if is_matching_source && (inclusion_delay <=? sqrt) then [TIMELY_SOURCE_FLAG_INDEX] else [])
        ++ (if is_matching_target && (eip7045_target_flag || (inclusion_delay <=? SLOTS_PER_EPOCH))
            then [TIMELY_TARGET_FLAG_INDEX] else [])
        ++ (if is_matching_head && (inclusion_delay =? MIN_ATTESTATION_INCLUSION_DELAY)
            then [TIMELY_HEAD_FLAG_INDEX] else [])).

Definition get_unslashed_participating_indices s (flag_index epoch : Z) : list Z :=
  let current_epoch := compute_epoch_at_slot (slot s) SLOTS_PER_EPOCH in
  let epoch_participation :=
    if epoch =? current_epoch then al_current_epoch_participation s
    else al_previous_epoch_participation s in
  omap (fun '(i, v) =>
      if is_active_validator v epoch
         && has_flag (default 0 (epoch_participation !! Z.to_nat i)) flag_index
         && negb (v_slashed v)
      then Some i else None)
    (enumerate (validators s)).

(** ** Balances and base reward *)
Definition get_total_balance_altair s (indices : list Z) : Z :=
  let sum := wsum ((fun i => default 0 (v_effective_balance <$> validators s !! Z.to_nat i))
                     <$> indices) in
  Z.max sum EFFECTIVE_BALANCE_INCREMENT.

Definition get_total_active_balance_altair s : Z :=
  let current_epoch := compute_epoch_at_slot (slot s) SLOTS_PER_EPOCH in
  let sum := wsum (v_effective_balance <$>
    filter (fun v => is_active_validator v current_epoch = true) (validators s)) in
  Z.max sum EFFECTIVE_BALANCE_INCREMENT.

Definition get_base_reward_per_increment s : result E Z :=
  sqrt_total ← integer_squareroot (get_total_active_balance_altair s);
  rdiv (wmul EFFECTIVE_BALANCE_INCREMENT BASE_REWARD_FACTOR) sqrt_total.

(** [effective_balance / EFFECTIVE_BALANCE_INCREMENT] of a validator, 0 out of range. *)
Definition increments_of s (index : Z) : Z :=
  default 0 ((fun v => v_effective_balance v / EFFECTIVE_BALANCE_INCREMENT)
               <$> validators s !! Z.to_nat index).

Definition get_base_reward s (index : Z) : result E Z :=
  brpi ← get_base_reward_per_increment s; Ok (wmul (increments_of s index) brpi).

Definition get_eligible_validator_indices_altair s : list Z :=
  let current_epoch := compute_epoch_at_slot (slot s) SLOTS_PER_EPOCH in
  let previous_epoch := if current_epoch =? 0 then 0 else wsub current_epoch 1 in
  omap (fun '(i, v) =>
      let active_prev := is_active_validator v previous_epoch in
      let slashed_in_window := v_slashed v && (wadd previous_epoch 1 <? v_withdrawable_epoch v) in
      if active_prev || slashed_in_window then Some i else None)
    (enumerate (validators s)).

Definition is_in_inactivity_leak_altair s : bool :=
  let current_epoch := compute_epoch_at_slot (slot s) SLOTS_PER_EPOCH in
  let previous_epoch := if current_epoch =? 0 then 0 else wsub current_epoch 1 in
  let finality_delay := sat_sub previous_epoch (cp_epoch (finalized_checkpoint s)) in
  MIN_EPOCHS_TO_INACTIVITY_PENALTY <? finality_delay.

(** ** Deltas *)

(** One turn of the loop of [get_flag_index_deltas]. *)
Definition flag_delta_step s (unslashed : gset Z) (weight unslashed_increments active_increments brpi : Z)
    (in_leak : bool) (flag_index : Z) (acc : list Z * list Z) (index : Z) : result E (list Z * list Z) :=
  let '(rewards, penalties) := acc in
  let base_reward := wmul (increments_of s index) brpi in
  if decide (index ∈ unslashed) then
    if negb in_leak then
      let reward_numerator := wmul (wmul base_reward weight) unslashed_increments in
      r ← rdiv reward_numerator (wmul active_increments WEIGHT_DENOMINATOR);
      rewards ← vec_add rewards index r; Ok (rewards, penalties)
    else Ok (rewards, penalties)
  else if negb (flag_index =? TIMELY_HEAD_FLAG_INDEX) then
    penalties ← vec_add penalties index (wmul base_reward weight / WEIGHT_DENOMINATOR);
    Ok (rewards, penalties)
  else Ok (rewards, penalties).

Definition get_flag_index_deltas s (flag_index : Z) : result E (list Z * list Z) :=
  let current_epoch := compute_epoch_at_slot (slot s) SLOTS_PER_EPOCH in
  let previous_epoch := if current_epoch =? 0 then 0 else wsub current_epoch 1 in
  let unslashed := get_unslashed_participating_indices s flag_index previous_epoch in
  weight ← Prelude.index PARTICIPATION_FLAG_WEIGHTS flag_index;
  let unslashed_increments := get_total_balance_altair s unslashed / EFFECTIVE_BALANCE_INCREMENT in
  let total_active := get_total_active_balance_altair s in
  let active_increments := total_active / EFFECTIVE_BALANCE_INCREMENT in
  sqrt_total ← integer_squareroot total_active;
  brpi ← rdiv (wmul EFFECTIVE_BALANCE_INCREMENT BASE_REWARD_FACTOR) sqrt_total;
  foldM (flag_delta_step s (list_to_set unslashed) weight unslashed_increments active_increments brpi
           (is_in_inactivity_leak_altair s) flag_index)
    (get_eligible_validator_indices_altair s) (zeros s, zeros s).

(** [get_inactivity_penalty_deltas] with the fork's penalty quotient. *)
Definition inactivity_delta_step s (quotient : Z) (matching : gset Z) (penalties : list Z) (index : Z)
    : result E (list Z) :=
  if decide (index ∈ matching) then Ok penalties
  else
    let effective_balance := default 0 (v_effective_balance <$> validators s !! Z.to_nat index) in
    let inactivity_score := default 0 (al_inactivity_scores s !! Z.to_nat index) in
    let penalty_numerator := wmul effective_balance inactivity_score in
    penalty ← rdiv penalty_numerator (wmul INACTIVITY_SCORE_BIAS quotient);
    vec_add penalties index penalty.

Definition inactivity_penalty_deltas (quotient : Z) s : result E (list Z * list Z) :=
  let current_epoch := compute_epoch_at_slot (slot s) SLOTS_PER_EPOCH in
  let previous_epoch := if current_epoch =? 0 then 0 else wsub current_epoch 1 in
  let matching_target :=
    get_unslashed_participating_indices s TIMELY_TARGET_FLAG_INDEX previous_epoch in
  penalties ← foldM (inactivity_delta_step s quotient (list_to_set matching_target))
                (get_eligible_validator_indices_altair s) (zeros s);
  Ok (zeros s, penalties).

Definition get_inactivity_penalty_deltas_altair s : result E (list Z * list Z) :=
  inactivity_penalty_deltas INACTIVITY_PENALTY_QUOTIENT_ALTAIR s.
Definition get_inactivity_penalty_deltas_deneb (d : DenebState) : result E (list Z * list Z) :=
  inactivity_penalty_deltas INACTIVITY_PENALTY_QUOTIENT_BELLATRIX (deneb_state_to_altair d).

(** ** Seeds, the proposer and the next sync committee *)
Definition get_seed_altair s (epoch : Z) (domain_type : bytes) : bytes :=
  let mix_epoch_raw := wsub (wsub (wadd epoch EPOCHS_PER_HISTORICAL_VECTOR) MIN_SEED_LOOKAHEAD) 1 in
  let mix := default zero_chunk (randao_mixes s !! Z.to_nat (mix_epoch_raw mod EPOCHS_PER_HISTORICAL_VECTOR)) in
  sha256 (domain_type ++ to_le_bytes 8 epoch ++ mix).

Definition active_indices_at s (epoch : Z) : list Z :=
  omap (fun '(i, v) => if is_active_validator v epoch then Some i else None)
    (enumerate (validators s)).

(** One candidate of the two sampling loops: the shuffled index at counter [i]
    and whether its balance passes the random byte. *)
Definition candidate_altair s (active : list Z) (seed : bytes) (i : Z) : result E (Z * bool) :=
  let total := zlen active in
  if total =? 0 then Panic
  else
    shuffled ← compute_shuffled_index sha256 (i mod total) total seed SHUFFLE_ROUND_COUNT;
    candidate ← Prelude.index active shuffled;
    random_byte ← Prelude.index (sha256 (seed ++ to_le_bytes 8 (i / 32))) (i mod 32);
    let effective_balance := default 0 (v_effective_balance <$> validators s !! Z.to_nat candidate) in
    Ok (candidate, wmul MAX_EFFECTIVE_BALANCE (byte.unsigned random_byte)
                   <=? wmul effective_balance 255).

Definition get_proposer_index_altair s : result E Z :=
  let epoch := compute_epoch_at_slot (slot s) SLOTS_PER_EPOCH in
  let seed_base := get_seed_altair s epoch DOMAIN_BEACON_PROPOSER in
  let seed := sha256 (seed_base ++ to_le_bytes 8 (slot s)) in
  let active := active_indices_at s epoch in
  match loop_upto (2 ^ 64)%positive (fun i =>
      match candidate_altair s active seed i with
      | Ok (candidate, true) => inr (Ok candidate)
      | Ok (_, false) => inl (wadd i 1)
      | Err e => inr (Err e)
      | Panic => inr Panic
      end) 0 with
  | inr r => r
  | inl _ => Panic
  end.

(** The loop adds at least one index in every [2^64] turns or never ends; the
    bound is [2^64] turns for each of at most [2^20] members. *)
Definition sample_committee (candidate : Z -> result E (Z * bool)) : result E (list Z) :=
  match loop_upto (2 ^ 84)%positive (fun '(i, chosen) =>
      if zlen chosen <? SYNC_COMMITTEE_SIZE then
        match candidate i with
        | Ok (c, accepted) => inl (wadd i 1, if accepted : bool then chosen ++ [c] else chosen)
        | Err e => inr (Err e)
        | Panic => inr Panic
        end
      else inr (Ok chosen)) (0, []) with
  | inr r => r
  | inl _ => Panic
  end.

Definition get_next_sync_committee_indices s : result E (list Z) :=
  let current_epoch := compute_epoch_at_slot (slot s) SLOTS_PER_EPOCH in
  let epoch := wadd current_epoch 1 in
  let active := active_indices_at s epoch in
  if zlen active =? 0 then Ok []
  else
    let seed := get_seed_altair s epoch DOMAIN_SYNC_COMMITTEE in
    sample_committee (candidate_altair s active seed).

(** The keys of the chosen validators with their aggregate;
    [SszVector::from_vec] checks the length. *)
Definition committee_of s (indices : list Z) : result StateTransitionError SyncCommittee :=
  let pubkeys := (fun i => default (replicate 48 Byte.x00) (v_pubkey <$> validators s !! Z.to_nat i))
                   <$> indices in
  aggregate_pubkey ← ok_or (aggregate_pubkeys pubkeys) InvalidBlockSignature;
  if zlen pubkeys =? SYNC_COMMITTEE_SIZE then Ok (mkSyncCommittee pubkeys aggregate_pubkey)
  else Err (Ssz (VectorLengthMismatch (zlen pubkeys) SYNC_COMMITTEE_SIZE)).
End helpers.

Section mutators.
  Context `{Crypto} `{S : BeaconSpec} `{ForkSpec} `{Aggregation}.
  Implicit Types s : AltairState.
  Local Abbreviation outcome := (result StateTransitionError AltairState).

Definition get_next_sync_committee s : result StateTransitionError SyncCommittee :=
  indices ← get_next_sync_committee_indices s; committee_of s indices.

(** ** Balances, exits and slashing *)
Definition increase_balance_altair s (index delta : Z) : outcome :=
  let cur := default 0 (balances s !! Z.to_nat index) in
  bs ← map_err (fun _ => IndexOutOfRange index) (list_with_set (balances s) index (sat_add cur delta));
  Ok (al_with_base s (with_balances s bs)).

Definition decrease_balance_altair s (index delta : Z) : outcome :=
  let cur := default 0 (balances s !! Z.to_nat index) in
  let new_val := if cur <? delta then 0 else cur - delta in
  bs ← map_err (fun _ => IndexOutOfRange index) (list_with_set (balances s) index new_val);
  Ok (al_with_base s (with_balances s bs)).

Definition al_set_validator s (index : Z) (v : Validator) : outcome :=
  vs ← map_err Ssz (list_with_set (validators s) index v);
  Ok (al_with_base s (with_validators s vs)).

Definition initiate_validator_exit_altair s (index : Z) : outcome :=
  v ← ok_or (validators s !! Z.to_nat index) SlotOutOfRange;
  if negb (v_exit_epoch v =? FAR_FUTURE_EPOCH) then Ok s
  else
    let current_epoch := compute_epoch_at_slot (slot s) SLOTS_PER_EPOCH in
    let activation_exit_epoch := wadd (wadd current_epoch 1) MAX_SEED_LOOKAHEAD in
    let exit_queue_epoch := Z.max (max_exit_epoch s) activation_exit_epoch in
    let active_count := zlen (active_indices_at s current_epoch) in
    let churn_limit := Z.max (active_count / CHURN_LIMIT_QUOTIENT) MIN_PER_EPOCH_CHURN_LIMIT in
    let exit_queue_churn := exit_count s exit_queue_epoch in
    let final_exit_epoch :=
      if churn_limit <=? exit_queue_churn then wadd exit_queue_epoch 1 else exit_queue_epoch in
    withdrawable_epoch ←
      ok_or (checked_add final_exit_epoch MIN_VALIDATOR_WITHDRAWABILITY_DELAY) SlotOutOfRange;
    al_set_validator s index (v_with_exit v final_exit_epoch withdrawable_epoch).

Definition slash_validator_altair s (slashed_index : Z) (whistleblower_index : option Z) : outcome :=
  let epoch := compute_epoch_at_slot (slot s) SLOTS_PER_EPOCH in
  s ← initiate_validator_exit_altair s slashed_index;
  v ← ok_or (validators (al_base s) !! Z.to_nat slashed_index) SlotOutOfRange;
  let effective_balance := v_effective_balance v in
  let new_withdrawable_epoch :=
    Z.max (v_withdrawable_epoch v) (wadd epoch EPOCHS_PER_SLASHINGS_VECTOR) in
  s ← al_set_validator s slashed_index (v_with_slashed v new_withdrawable_epoch);
  let slashing_slot := epoch mod EPOCHS_PER_SLASHINGS_VECTOR in
  let cur_slashing := default 0 (slashings (al_base s) !! Z.to_nat slashing_slot) in
  s ← al_on (fun b => set_slashing b slashing_slot (sat_add cur_slashing effective_balance)) s;
  let penalty := effective_balance / MIN_SLASHING_PENALTY_QUOTIENT_ALTAIR in
  s ← decrease_balance_altair s slashed_index penalty;
  proposer_index ← get_proposer_index_altair s;
  let whistleblower_idx := default proposer_index whistleblower_index in
  let whistleblower_reward := effective_balance / WHISTLEBLOWER_REWARD_QUOTIENT in
  let proposer_reward := wmul whistleblower_reward PROPOSER_WEIGHT / WEIGHT_DENOMINATOR in
  s ← increase_balance_altair s proposer_index proposer_reward;
  increase_balance_altair s whistleblower_idx (wsub whistleblower_reward proposer_reward).
End mutators.

(** ** Epoch processing *)
Section epoch.
  Context `{Crypto} `{S : BeaconSpec} `{ForkSpec} `{Aggregation}.
  Implicit Types s : AltairState.
  Local Abbreviation fallible := (result EpochProcessingError).

(** justification_and_finalization.rs: the weighing is the computation of phase 0
    ([Justification.weigh_justification_and_finalization]) on the shared fields. *)
Definition weigh_justification_and_finalization_altair s
    (total_active_balance previous_epoch_target_balance current_epoch_target_balance : Z)
    : fallible AltairState :=
  al_on (fun b => weigh_justification_and_finalization b total_active_balance
                    previous_epoch_target_balance current_epoch_target_balance) s.

Definition process_justification_and_finalization_altair s : fallible AltairState :=
  let current_epoch := get_current_epoch s in
  if current_epoch <=? GENESIS_EPOCH + 1 then Ok s
  else
    let previous_epoch := get_previous_epoch s in
    let previous_indices :=
      get_unslashed_participating_indices s TIMELY_TARGET_FLAG_INDEX previous_epoch in
    let current_indices :=
      get_unslashed_participating_indices s TIMELY_TARGET_FLAG_INDEX current_epoch in
    let total_active_balance := get_total_active_balance_altair s in
    let previous_target_balance := get_total_balance_altair s previous_indices in
    let current_target_balance := get_total_balance_altair s current_indices in
    weigh_justification_and_finalization_altair s total_active_balance previous_target_balance
      current_target_balance.

(** inactivity_updates.rs *)
Definition new_inactivity_score (participating in_leak : bool) (score : Z) : Z :=
  let score := if participating then score - Z.min score 1 else wadd score INACTIVITY_SCORE_BIAS in
  if negb in_leak then score - Z.min score INACTIVITY_SCORE_RECOVERY_RATE else score.

Definition inactivity_score_step s (entry : Z * Z) : fallible AltairState :=
  let '(i, new_score) := entry in
  let old_score := default 0 (al_inactivity_scores s !! Z.to_nat i) in
  if negb (new_score =? old_score) then
    l ← map_err EpochSsz (list_with_set (al_inactivity_scores s) i new_score);
    Ok (al_with_inactivity_scores s l)
  else Ok s.

Definition process_inactivity_updates s : fallible AltairState :=
  let current_epoch := get_current_epoch s in
  if current_epoch =? GENESIS_EPOCH then Ok s
  else
    let previous_epoch := get_previous_epoch s in
    let eligible := get_eligible_validator_indices_altair s in
    let participating_set : gset Z :=
      list_to_set (get_unslashed_participating_indices s TIMELY_TARGET_FLAG_INDEX previous_epoch) in
    let in_leak := is_in_inactivity_leak_altair s in
    let new_scores := (fun i => new_inactivity_score (bool_decide (i ∈ participating_set)) in_leak
                                  (default 0 (al_inactivity_scores s !! Z.to_nat i))) <$> eligible in
    foldM inactivity_score_step (zip eligible new_scores) s.

(** rewards_and_penalties.rs *)

(** [for i in 0..n { total_rewards[i] += rewards[i]; total_penalties[i] += penalties[i]; }]. *)
Definition accumulate (n : Z) (total d : list Z * list Z) : fallible (list Z * list Z) :=
  foldM (fun '(tr, tp) i =>
      r ← Prelude.index d.1 i; tr ← vec_add tr i r;
      p ← Prelude.index d.2 i; tp ← vec_add tp i p;
      Ok (tr, tp)) (seqZ 0 n) total.

(** Both loops read the deltas of a snapshot; only the balances change. *)
Definition total_deltas (n : Z) (flag_deltas : list (list Z * list Z)) (inactivity : list Z * list Z)
    : fallible (list Z * list Z) :=
  let zero := replicate (Z.to_nat n) 0 in
  t ← foldM (accumulate n) flag_deltas (zero, zero);
  accumulate n t inactivity.

Definition apply_delta_step (t : list Z * list Z) s (i : Z) : fallible AltairState :=
  r ← Prelude.index t.1 i;
  s ← (if 0 <? r then map_err epoch_error (increase_balance_altair s i r) else Ok s);
  p ← Prelude.index t.2 i;
  if 0 <? p then map_err epoch_error (decrease_balance_altair s i p) else Ok s.

Definition process_rewards_and_penalties_altair s : fallible AltairState :=
  if get_current_epoch s =? GENESIS_EPOCH then Ok s
  else
    let n := num_validators s in
    flag_deltas ← mapM (get_flag_index_deltas s) (seqZ 0 (zlen PARTICIPATION_FLAG_WEIGHTS));
    inactivity_deltas ← get_inactivity_penalty_deltas_altair s;
    t ← total_deltas n flag_deltas inactivity_deltas;
    foldM (apply_delta_step t) (seqZ 0 n) s.

(** The deneb function reads the deltas off the projected state and writes the
    balances of the Deneb state. *)
Definition process_rewards_and_penalties_deneb (d : DenebState) : fallible DenebState :=
  if get_current_epoch d =? GENESIS_EPOCH then Ok d
  else
    let n := num_validators d in
    let altair := capella_state_to_altair (deneb_state_to_capella d) in
    flag_deltas ← mapM (get_flag_index_deltas altair) (seqZ 0 (zlen PARTICIPATION_FLAG_WEIGHTS));
    inactivity_deltas ← get_inactivity_penalty_deltas_deneb d;
    t ← total_deltas n flag_deltas inactivity_deltas;
    a ← foldM (apply_delta_step t) (seqZ 0 n) (de_altair d);
    Ok (de_with_altair d a).

(** registry_updates.rs *)
Definition registry_step_altair (current_epoch : Z) s (index : Z) : fallible AltairState :=
  v ← ok_or (validators s !! Z.to_nat index) (ValidatorIndexOutOfRange index);
  s ← (if is_eligible_for_activation_queue v then
         map_err epoch_error
           (al_set_validator s index (v_with_activation_eligibility_epoch v (wadd current_epoch 1)))
       else Ok s);
  if is_active_validator v current_epoch && (v_effective_balance v <=? EJECTION_BALANCE)
  then map_err (fun _ => ValidatorIndexOutOfRange index) (initiate_validator_exit_altair s index)
  else Ok s.

Definition process_registry_updates_altair s : fallible AltairState :=
  let current_epoch := get_current_epoch s in
  s ← foldM (registry_step_altair current_epoch) (seqZ 0 (num_validators s)) s;
  let queue := activation_queue (al_base s) in
  let active_count := zlen (active_indices_at s current_epoch) in
  let churn_limit := Z.max (active_count / CHURN_LIMIT_QUOTIENT) MIN_PER_EPOCH_CHURN_LIMIT in
  al_on (fun b => foldM (activation_step current_epoch) (take (Z.to_nat churn_limit) queue) b) s.

(** slashings.rs *)
Definition process_slashings_altair s : fallible AltairState :=
  let epoch := get_current_epoch s in
  let total_balance := get_total_active_balance_altair s in
  let total_slashings := wsum (slashings s) in
  let adjusted := Z.min (wmul total_slashings PROPORTIONAL_SLASHING_MULTIPLIER_ALTAIR) total_balance in
  let slashing_epoch_mid := wadd epoch (EPOCHS_PER_SLASHINGS_VECTOR / 2) in
  let slashable :=
    omap (fun '(i, v) => if v_slashed v && (slashing_epoch_mid =? v_withdrawable_epoch v)
                         then Some (i, v_effective_balance v) else None)
      (enumerate (validators s)) in
  al_on (foldM (slashing_step adjusted total_balance) slashable) s.

(** participation_flag_updates.rs; [SszList::from_vec] checks the limit. *)
Definition process_participation_flag_updates s : fallible AltairState :=
  let s := al_with_previous_epoch_participation s (al_current_epoch_participation s) in
  let zeroes := replicate (length (validators s)) 0 in
  if VALIDATOR_REGISTRY_LIMIT <? zlen zeroes
  then Err (EpochSsz (ListLimitExceeded (zlen zeroes) VALIDATOR_REGISTRY_LIMIT))
  else Ok (al_with_current_epoch_participation s zeroes).

(** sync_committee_updates.rs *)
Definition sync_committee_error (e : StateTransitionError) : EpochProcessingError :=
  match e with Ssz x => EpochSsz x | _ => ValidatorIndexOutOfRange 0 end.

Definition process_sync_committee_updates s : fallible AltairState :=
  let next_epoch := wadd (get_current_epoch s) 1 in
  if next_epoch mod EPOCHS_PER_SYNC_COMMITTEE_PERIOD =? 0 then
    let s := al_with_current_sync_committee s (al_next_sync_committee s) in
    new_next ← map_err sync_committee_error (get_next_sync_committee s);
    Ok (al_with_next_sync_committee s new_next)
  else Ok s.

(** mod.rs; effective_balance_updates.rs, eth1_data_reset.rs, slashings_reset.rs,
    randao_mixes_reset.rs and historical_roots_update.rs are the phase 0 steps on
    the shared fields. *)
Definition process_epoch_altair s : fallible AltairState :=
  s ← process_justification_and_finalization_altair s;
  s ← process_inactivity_updates s;
  s ← process_rewards_and_penalties_altair s;
  s ← process_registry_updates_altair s;
  s ← process_slashings_altair s;
  s ← al_on process_eth1_data_reset s;
  s ← al_on process_effective_balance_updates s;
  s ← al_on process_slashings_reset s;
  s ← al_on process_randao_mixes_reset s;
  s ← al_on process_historical_roots_update s;
  s ← process_participation_flag_updates s;
  process_sync_committee_updates s.
End epoch.
