(* ===== verification/AltairFacts.v ===== *)
(** * What Altair's epoch steps do

    Justification from participation flags, inactivity scores, and rewards and
    penalties (the Deneb variant, which Deneb and Electra run): each step of
    Altair.v succeeds on a well-formed state and is described validator by
    validator. *)

From stdpp Require Import gmap.
From Stdlib Require Import ZArith Lia.
From S2P Require Import Prelude SszCodec SszBitfield SszTypes Merkle Shuffling Spec BeaconState Invariant Roots Accessors Mutators Justification Rewards EpochUpdates Forks ForkInvariant Altair.

(** The fields of the chain that no later step of an epoch changes. *)
Record chain_frame (b b' : BeaconState) : Prop := {
  cf_slot : slot b' = slot b;
  cf_header : latest_block_header b' = latest_block_header b;
  cf_block_roots : block_roots b' = block_roots b;
  cf_slashings : slashings b' = slashings b;
  cf_mixes : randao_mixes b' = randao_mixes b;
  cf_bits : justification_bits b' = justification_bits b;
  cf_previous : previous_justified_checkpoint b' = previous_justified_checkpoint b;
  cf_current : current_justified_checkpoint b' = current_justified_checkpoint b;
  cf_finalized : finalized_checkpoint b' = finalized_checkpoint b;
}.
Lemma chain_frame_refl b : chain_frame b b.
Proof. by constructor. Qed.
Lemma chain_frame_trans a b c : chain_frame a b -> chain_frame b c -> chain_frame a c.
Proof. intros [] []. constructor; congruence. Qed.

Section facts.
  Context `{Crypto} `{Sp : BeaconSpec} `{Fs : ForkSpec} `{!SpecOk Sp} `{!ForkSpecOk Sp Fs}.
  Context (M : Z).
  Implicit Types s : AltairState.

(** ** Justification *)
Definition target_participants s (epoch : Z) : list Z :=
  get_unslashed_participating_indices s TIMELY_TARGET_FLAG_INDEX epoch.
Definition participating_balance s (epoch : Z) : Z :=
  get_total_balance_altair s (target_participants s epoch).

Lemma altair_jf_cases s s' :
  process_justification_and_finalization_altair s = Ok s' ->
  (get_current_epoch s <= 1 /\ s' = s) \/
  (1 < get_current_epoch s /\ exists b,
     weigh_justification_and_finalization s (get_total_active_balance_altair s)
       (participating_balance s (get_previous_epoch s)) (participating_balance s (get_current_epoch s)) = Ok b /\
     s' = al_with_base s b).
Proof.
  unfold process_justification_and_finalization_altair, GENESIS_EPOCH.
  destruct (Z.leb_spec (get_current_epoch s) (0 + 1)).
  { intros [= <-]. left. split; [lia|done]. }
  intros (b & Hb & [= <-])%bind_Ok_inv. right. split; [lia|]. by exists b.
Qed.

Lemma altair_jf_total s :
  altair_ok M s -> epoch_end s -> slot s + SLOTS_PER_HISTORICAL_ROOT < U64 ->
  exists s', process_justification_and_finalization_altair s = Ok s'.
Proof.
  intros Hs He Hsl. unfold process_justification_and_finalization_altair. case_match; [by eexists|].
  destruct (ao_base M s Hs) as [Hu _ _ _ _ Hr _ _ _ _ _ _ _].
  unfold weigh_justification_and_finalization_altair, al_on.
  edestruct (weigh_total (al_base s)) as [b Hb]; [exact Hu|exact Hr|exact Hsl|exact He|].
  rewrite Hb. by eexists.
Qed.

Lemma weigh_base_ok (b b' : BeaconState) t p c :
  base_ok M b -> weigh_justification_and_finalization b t p c = Ok b' ->
  base_ok M b' /\ validators b' = validators b /\ slot b' = slot b.
Proof.
  intros Hb (cj & fin & -> & _)%weigh_spec. split; [|done]. destruct Hb. split; try done.
  cbn. by rewrite next_bits_length.
Qed.

Lemma altair_jf_ok s s' :
  altair_ok M s -> process_justification_and_finalization_altair s = Ok s' ->
  altair_ok M s' /\ validators s' = validators s /\ slot s' = slot s.
Proof.
  intros Hs [[_ ->]|(_ & b & Hb & ->)]%altair_jf_cases; [done|].
  destruct (weigh_base_ok _ _ _ _ _ (ao_base M s Hs) Hb) as (? & Hv & ?). split; [|done].
  apply altair_ok_base; [done|done|by rewrite Hv].
Qed.

Lemma altair_jf_ordered s s' :
  u64 (slot s) -> checkpoints_ordered s -> process_justification_and_finalization_altair s = Ok s' ->
  cp_epoch (finalized_checkpoint s) <= cp_epoch (finalized_checkpoint s') /\
  cp_epoch (current_justified_checkpoint s) <= cp_epoch (current_justified_checkpoint s') /\
  cp_epoch (finalized_checkpoint s') <= cp_epoch (previous_justified_checkpoint s') /\
  cp_epoch (previous_justified_checkpoint s') <= cp_epoch (current_justified_checkpoint s') /\
  cp_epoch (current_justified_checkpoint s') <= get_current_epoch s'.
Proof.
  intros Hu Ho [[He ->]|(He & b & Hb & ->)]%altair_jf_cases; [|by eapply weigh_ordered].
  destruct Ho as (? & ? & ?). pose proof (previous_epoch_at s Hu). pose proof (epoch_at_range s Hu).
  split_and!; lia.
Qed.

(** ** Eligible validators *)
Lemma previous_epoch_altair s :
  (if compute_epoch_at_slot (slot s) SLOTS_PER_EPOCH =? 0 then 0
   else wsub (compute_epoch_at_slot (slot s) SLOTS_PER_EPOCH) 1) = get_previous_epoch s.
Proof. done. Qed.

Definition eligible_altair s (i : Z) : bool :=
  match validators s !! Z.to_nat i with
  | Some v => is_active_validator v (get_previous_epoch s)
              || (v_slashed v && (wadd (get_previous_epoch s) 1 <? v_withdrawable_epoch v))
  | None => false
  end.

Lemma elem_of_eligible_altair s i :
  i ∈ get_eligible_validator_indices_altair s <-> 0 <= i /\ eligible_altair s i = true.
Proof.
  unfold get_eligible_validator_indices_altair, eligible_altair. rewrite previous_epoch_altair, list_elem_of_omap.
  split.
  - intros ([j v] & (Hj & Hv)%elem_of_enumerate & Hb).
    destruct (_ || _) eqn:He in Hb; simplify_eq. by rewrite Hv.
  - intros (Hi & He). destruct (validators s !! Z.to_nat i) as [v|] eqn:Hv; [|done].
    exists (i, v). by rewrite elem_of_enumerate, He.
Qed.

Lemma NoDup_eligible_altair s : NoDup (Z.to_nat <$> get_eligible_validator_indices_altair s).
Proof.
  apply NoDup_to_nat; [|by intros i [Hi _]%elem_of_eligible_altair].
  unfold get_eligible_validator_indices_altair. apply (NoDup_omap_enumerate_from (fun v : Validator =>
    is_active_validator v _ || (v_slashed v && (wadd _ 1 <? v_withdrawable_epoch v)))).
Qed.

Lemma eligible_altair_range s i : eligible_altair s i = true -> (Z.to_nat i < length (validators s))%nat.
Proof. unfold eligible_altair. case_match eqn:Hv; [|done]. intros _. by eapply lookup_lt_Some. Qed.

(** ** Inactivity scores *)
Definition participates s (flag i : Z) : bool :=
  bool_decide (i ∈ get_unslashed_participating_indices s flag (get_previous_epoch s)).

Definition next_score s (i score : Z) : Z :=
  if eligible_altair s i
  then new_inactivity_score (participates s TIMELY_TARGET_FLAG_INDEX i) (is_in_inactivity_leak_altair s) score
  else score.

Lemma new_inactivity_score_u64 part leak x : u64 x -> u64 (new_inactivity_score part leak x).
Proof.
  intros Hx. unfold new_inactivity_score. pose proof inactivity_score_bounds.
  assert (u64 (if part then x - Z.min x 1 else wadd x INACTIVITY_SCORE_BIAS)) as Hy.
  { destruct part; [|apply wadd_u64]. unfold u64 in *. lia. }
  destruct leak; cbn [negb]; [done|]. unfold u64 in *. lia.
Qed.

Lemma zip_fmap_self {A B} (f : A -> B) l : zip l (f <$> l) = (fun x => (x, f x)) <$> l.
Proof. induction l as [|x l IH]; cbn; [done|]. by rewrite IH. Qed.

Lemma inactivity_step_Ok s (e : Z * Z) x :
  0 <= e.1 -> al_inactivity_scores s !! Z.to_nat e.1 = Some x ->
  inactivity_score_step s e
  = Ok (al_with_inactivity_scores s (<[Z.to_nat e.1 := e.2]> (al_inactivity_scores s))).
Proof.
  destruct e as [i y]. cbn [fst snd]. intros Hi Hx. unfold inactivity_score_step. rewrite Hx.
  cbn [default from_option id]. destruct (Z.eqb_spec y x) as [->|Hne]; cbn [negb].
  - rewrite list_insert_id by done. by destruct s.
  - unfold list_with_set. apply lookup_lt_Some in Hx.
    destruct (Z.leb_spec (zlen (al_inactivity_scores s)) i) as [Hle|_]; [unfold zlen in Hle; lia|]. done.
Qed.

Lemma inactivity_updates_spec s :
  altair_ok M s ->
  exists l, process_inactivity_updates s = Ok (al_with_inactivity_scores s l) /\
    altair_ok M (al_with_inactivity_scores s l) /\
    forall k x, al_inactivity_scores s !! k = Some x ->
      l !! k = Some (if get_current_epoch s =? GENESIS_EPOCH then x else next_score s (Z.of_nat k) x).
Proof.
  intros Hs. pose proof (ao_scores_length M s Hs) as Hlen. unfold process_inactivity_updates.
  destruct (get_current_epoch s =? GENESIS_EPOCH).
  { exists (al_inactivity_scores s). assert (al_with_inactivity_scores s (al_inactivity_scores s) = s) as -> by (by destruct s).
    done. }
  match goal with |- context [?f <$> get_eligible_validator_indices_altair s] => set (new := f) end.
  rewrite zip_fmap_self.
  destruct (foldM_pointwise inactivity_score_step (fun e : Z * Z => Z.to_nat e.1)
    (fun s' k => al_inactivity_scores s' !! k)
    (fun s' => (exists l, s' = al_with_inactivity_scores s l /\ length l = length (al_inactivity_scores s)))
    (fun e _ => e.2) ((fun i => (i, new i)) <$> get_eligible_validator_indices_altair s) s)
    as (s' & -> & (l & -> & Hl) & Hin & Hout).
  - intros s1 e x (l & -> & Hl) He Hx. apply list_elem_of_fmap in He as (i & -> & [Hi _]%elem_of_eligible_altair).
    cbn [fst snd] in *. rewrite (inactivity_step_Ok _ (i, new i) x) by done. eexists. split; [done|].
    split_and!; [|by apply list_lookup_insert_eq; eapply lookup_lt_Some|intros j Hj; by apply list_lookup_insert_ne].
    eexists. split; [done|]. cbn. by rewrite length_insert.
  - rewrite <-list_fmap_compose. apply NoDup_eligible_altair.
  - exists (al_inactivity_scores s). split; [by destruct s|done].
  - intros e (i & -> & [Hi He]%elem_of_eligible_altair)%list_elem_of_fmap. cbn.
    apply lookup_lt_is_Some_2. rewrite Hlen. by apply eligible_altair_range.
  - cbn [al_inactivity_scores al_with_inactivity_scores] in Hin, Hout. exists l. split; [done|].
    assert (forall k x, al_inactivity_scores s !! k = Some x -> l !! k = Some (next_score s (Z.of_nat k) x)) as Hk.
    { intros k x Hx. unfold next_score. destruct (eligible_altair s (Z.of_nat k)) eqn:He.
      - specialize (Hin (Z.of_nat k, new (Z.of_nat k))). cbn [fst snd] in Hin. rewrite Nat2Z.id, Hx in Hin.
        rewrite Hin.
        + cbn. unfold new. rewrite Nat2Z.id, Hx. cbn [default from_option id]. do 2 f_equal.
          unfold participates. apply bool_decide_ext. by rewrite elem_of_list_to_set.
        + apply list_elem_of_fmap. exists (Z.of_nat k). split; [done|]. apply elem_of_eligible_altair. split; [lia|done].
      - rewrite Hout; [done|]. rewrite <-list_fmap_compose. intros (i & Heq & [Hi Hel]%elem_of_eligible_altair)%list_elem_of_fmap.
        cbn in Heq. assert (i = Z.of_nat k) as -> by lia. congruence. }
    split; [|exact Hk]. destruct Hs. split; cbn; try done; [by rewrite Hl|].
    apply Forall_lookup. intros k y Hy. destruct (lookup_lt_is_Some_2 (al_inactivity_scores s) k) as [x Hx].
    { rewrite <-Hl. by eapply lookup_lt_Some. }
    rewrite (Hk k x Hx) in Hy. injection Hy as <-. pose proof (Forall_lookup_1 _ _ _ _ ao_scores Hx) as Hux.
    unfold next_score. case_match; [by apply new_inactivity_score_u64|done].
Qed.

(** ** Rewards and penalties *)
Definition reward_per_increment s : Z :=
  wmul EFFECTIVE_BALANCE_INCREMENT BASE_REWARD_FACTOR / Z.sqrt (get_total_active_balance_altair s).
Definition base_reward_altair s (i : Z) : Z := wmul (increments_of s i) (reward_per_increment s).
Definition flag_weight (flag : Z) : Z := default 0 (PARTICIPATION_FLAG_WEIGHTS !! Z.to_nat flag).
Definition participating_increments s (flag : Z) : Z :=
  get_total_balance_altair s (get_unslashed_participating_indices s flag (get_previous_epoch s))
  / EFFECTIVE_BALANCE_INCREMENT.
Definition active_increments_of s : Z := get_total_active_balance_altair s / EFFECTIVE_BALANCE_INCREMENT.

Definition flag_reward s (flag i : Z) : Z :=
  if eligible_altair s i && participates s flag i && negb (is_in_inactivity_leak_altair s)
  then wmul (wmul (base_reward_altair s i) (flag_weight flag)) (participating_increments s flag)
       / wmul (active_increments_of s) WEIGHT_DENOMINATOR
  else 0.
Definition flag_penalty s (flag i : Z) : Z :=
  if eligible_altair s i && negb (participates s flag i) && negb (flag =? TIMELY_HEAD_FLAG_INDEX)
  then wmul (base_reward_altair s i) (flag_weight flag) / WEIGHT_DENOMINATOR
  else 0.
Definition score_penalty s (quotient i : Z) : Z :=
  if eligible_altair s i && negb (participates s TIMELY_TARGET_FLAG_INDEX i)
  then wmul (default 0 (v_effective_balance <$> validators s !! Z.to_nat i))
         (default 0 (al_inactivity_scores s !! Z.to_nat i))
       / wmul INACTIVITY_SCORE_BIAS quotient
  else 0.

Lemma total_active_altair_bounds s :
  EFFECTIVE_BALANCE_INCREMENT <= get_total_active_balance_altair s < U64.
Proof. apply (total_active_balance_bounds (al_base s)). Qed.

Lemma zeros_both s k :
  both (zeros s, zeros s) k = if decide (Z.of_nat k < num_validators s) then Some (0, 0) else None.
Proof.
  unfold both, zeros, num_validators, zlen. cbn. destruct (decide _).
  - by rewrite lookup_replicate_2 by lia.
  - by rewrite (lookup_ge_None_2 (replicate _ _)) by (rewrite length_replicate; lia).
Qed.

(** A loop over the eligible validators that adds to each one's own entries. *)
Lemma eligible_loop {E B} (f : B -> Z -> result E B) (look : B -> nat -> option (Z * Z)) s
    (g : Z -> Z * Z -> Z * Z) b :
  (forall b i x, i ∈ get_eligible_validator_indices_altair s -> look b (Z.to_nat i) = Some x ->
     exists b', f b i = Ok b' /\ look b' (Z.to_nat i) = Some (g i x) /\
       forall j, j <> Z.to_nat i -> look b' j = look b j) ->
  (forall k, look b k = if decide (Z.of_nat k < num_validators s) then Some (0, 0) else None) ->
  exists b', foldM f (get_eligible_validator_indices_altair s) b = Ok b' /\
    forall k, look b' k = if decide (Z.of_nat k < num_validators s)
      then Some (if eligible_altair s (Z.of_nat k) then g (Z.of_nat k) (0, 0) else (0, 0)) else None.
Proof.
  intros Hf Hb. destruct (foldM_pointwise f Z.to_nat look (fun _ => True) g
    (get_eligible_validator_indices_altair s) b) as (b' & -> & _ & Hin & Hout).
  - intros b0 i x _ Hi Hx. destruct (Hf b0 i x Hi Hx) as (b' & ? & ? & ?). eauto 6.
  - apply NoDup_eligible_altair.
  - done.
  - intros i [Hi He]%elem_of_eligible_altair. rewrite Hb, decide_True; [by eexists|].
    apply eligible_altair_range in He. unfold num_validators, zlen. lia.
  - exists b'. split; [done|]. intros k. destruct (eligible_altair s (Z.of_nat k)) eqn:He.
    + specialize (Hin (Z.of_nat k)). rewrite Nat2Z.id in Hin. rewrite Hin, Hb.
      * by destruct (decide _).
      * apply elem_of_eligible_altair. split; [lia|done].
    + rewrite Hout, Hb; [done|]. intros (i & -> & [Hi Hel]%elem_of_eligible_altair)%list_elem_of_fmap.
      rewrite Z2Nat.id in He by done. congruence.
Qed.

Lemma flag_deltas_Ok {E} s flag :
  0 <= flag < 3 -> get_total_active_balance_altair s < 2 ^ 58 ->
  exists d, get_flag_index_deltas (E:=E) s flag = Ok d /\
    forall k, both d k = if decide (Z.of_nat k < num_validators s)
      then Some (flag_reward s flag (Z.of_nat k), flag_penalty s flag (Z.of_nat k)) else None.
Proof.
  intros Hflag Ht. pose proof (total_active_altair_bounds s) as [Hinc _]. pose proof increment_pos as [Hi0 _].
  assert (0 < active_increments_of s < 2 ^ 58) as [Ha0 Ha1].
  { unfold active_increments_of. split; [apply Z.div_str_pos; lia|]. apply Z.div_lt_upper_bound; nia. }
  assert (0 < Z.sqrt (get_total_active_balance_altair s)) by (apply Z.sqrt_pos; lia).
  unfold get_flag_index_deltas. rewrite previous_epoch_altair.
  assert (Prelude.index (E:=E) PARTICIPATION_FLAG_WEIGHTS flag = Ok (flag_weight flag)) as ->.
  { apply index_Ok_iff. split; [lia|]. unfold flag_weight.
    assert (flag = 0 \/ flag = 1 \/ flag = 2) as [->|[->| ->]] by lia; done. }
  cbn [mbind result_bind]. rewrite integer_squareroot_Ok by (unfold u64_max, U64; lia). cbn [mbind result_bind].
  unfold rdiv at 1. rewrite (proj2 (Z.eqb_neq _ _)) by lia. cbn [mbind result_bind].
  fold (reward_per_increment s) (active_increments_of s) (participating_increments s flag).
  set (g := fun (i : Z) (x : Z * Z) =>
    if participates s flag i
    then (if is_in_inactivity_leak_altair s then x.1 else
            wadd x.1 (wmul (wmul (base_reward_altair s i) (flag_weight flag)) (participating_increments s flag)
                        / wmul (active_increments_of s) WEIGHT_DENOMINATOR), x.2)
    else (x.1, if flag =? TIMELY_HEAD_FLAG_INDEX then x.2
               else wadd x.2 (wmul (base_reward_altair s i) (flag_weight flag) / WEIGHT_DENOMINATOR))).
  destruct (eligible_loop (E:=E) (flag_delta_step s (list_to_set
      (get_unslashed_participating_indices s flag (get_previous_epoch s))) (flag_weight flag)
      (participating_increments s flag) (active_increments_of s) (reward_per_increment s)
      (is_in_inactivity_leak_altair s) flag) both s g (zeros s, zeros s)) as (d & -> & Hd).
  - intros [r p] i [a b] [Hi _]%elem_of_eligible_altair Hx. pose proof (proj1 (both_Some _ _ _ _ _) Hx) as [Hr Hp].
    unfold flag_delta_step, g, participates. fold (base_reward_altair s i).
    case_decide as Hin; rewrite elem_of_list_to_set in Hin.
    + rewrite bool_decide_eq_true_2 by done. destruct (is_in_inactivity_leak_altair s); cbn [negb fst snd].
      { eexists. split; [done|]. done. }
      rewrite (wmul_small (active_increments_of s)) by (unfold WEIGHT_DENOMINATOR, U64; lia).
      unfold rdiv. rewrite (proj2 (Z.eqb_neq _ _)) by (unfold WEIGHT_DENOMINATOR; lia). cbn [mbind result_bind].
      rewrite (vec_add_Ok r i a) by done. eexists. split; [done|]. eapply both_insert; [done|by right|by left].
    + rewrite bool_decide_eq_false_2 by done. destruct (flag =? TIMELY_HEAD_FLAG_INDEX); cbn [negb fst snd].
      { eexists. split; [done|]. done. }
      rewrite (vec_add_Ok p i b) by done. eexists. split; [done|]. eapply both_insert; [done|by left|by right].
  - apply zeros_both.
  - exists d. split; [done|]. intros k. rewrite Hd. case_decide; [|done]. f_equal.
    unfold flag_reward, flag_penalty, g. cbn [fst snd].
    destruct (eligible_altair s (Z.of_nat k)), (participates s flag (Z.of_nat k)), (is_in_inactivity_leak_altair s),
      (flag =? TIMELY_HEAD_FLAG_INDEX); cbn [andb negb]; rewrite ?wadd_0_l; try done;
      (apply div_u64; [apply wmul_u64|]); try (by unfold WEIGHT_DENOMINATOR);
      apply wmul_u64.
Qed.

Lemma score_deltas_Ok {E} s quotient :
  0 < quotient <= 2 ^ 30 ->
  exists p, inactivity_penalty_deltas (E:=E) quotient s = Ok (zeros s, p) /\
    forall k, p !! k = if decide (Z.of_nat k < num_validators s)
      then Some (score_penalty s quotient (Z.of_nat k)) else None.
Proof.
  intros Hq. pose proof inactivity_score_bounds as [Hbias _].
  unfold inactivity_penalty_deltas. rewrite previous_epoch_altair.
  set (look := fun (p : list Z) k => (fun x => (0, x)) <$> p !! k).
  set (g := fun (i : Z) (x : Z * Z) => if participates s TIMELY_TARGET_FLAG_INDEX i then (0, x.2)
    else (0, wadd x.2 (wmul (default 0 (v_effective_balance <$> validators s !! Z.to_nat i))
         (default 0 (al_inactivity_scores s !! Z.to_nat i)) / wmul INACTIVITY_SCORE_BIAS quotient))).
  destruct (eligible_loop (E:=E) (inactivity_delta_step s quotient (list_to_set
      (get_unslashed_participating_indices s TIMELY_TARGET_FLAG_INDEX (get_previous_epoch s)))) look s g
      (zeros s)) as (p & -> & Hp).
  - intros p i [a b] [Hi _]%elem_of_eligible_altair (x & Hx & [= -> ->])%fmap_Some.
    unfold inactivity_delta_step, g, participates. case_decide as Hin; rewrite elem_of_list_to_set in Hin.
    + rewrite bool_decide_eq_true_2 by done. eexists. split; [done|]. split; [|done]. unfold look. by rewrite Hx.
    + rewrite bool_decide_eq_false_2 by done. unfold rdiv.
      rewrite (wmul_small INACTIVITY_SCORE_BIAS) by (unfold U64; nia).
      rewrite (proj2 (Z.eqb_neq _ _)) by nia. cbn [mbind result_bind]. rewrite (vec_add_Ok p i x) by done.
      eexists. split; [done|]. unfold look. split; [|intros j Hj; by rewrite list_lookup_insert_ne].
      rewrite list_lookup_insert_eq by (by eapply lookup_lt_Some). done.
  - intros k. pose proof (zeros_both s k) as Hz. unfold both in Hz. cbn [fst snd] in Hz. unfold look.
    destruct (zeros s !! k) as [x|]; cbn in Hz |- *; [|done]. by case_decide; simplify_eq.
  - exists p. split; [done|]. intros k. specialize (Hp k). unfold look in Hp.
    destruct (p !! k) as [x|] eqn:Hx; cbn in Hp; case_decide; try done. injection Hp as Hp. f_equal.
    unfold score_penalty. destruct (eligible_altair s (Z.of_nat k)); cbn [andb]; [|by injection Hp].
    unfold g in Hp. destruct (participates s TIMELY_TARGET_FLAG_INDEX (Z.of_nat k)); cbn [negb]; injection Hp as ->; [done|].
    apply wadd_0_l, div_u64; [apply wmul_u64|apply wmul_u64].
Qed.

(** ** Adding the deltas up *)
Definition delta_pair (d : list Z * list Z) (n : Z) (f : nat -> Z * Z) : Prop :=
  forall k, both d k = if decide (Z.of_nat k < n) then Some (f k) else None.

Lemma accumulate_Ok n t d f g :
  0 <= n -> delta_pair t n f -> delta_pair d n g ->
  exists t', accumulate n t d = Ok t' /\
    delta_pair t' n (fun k => (wadd (f k).1 (g k).1, wadd (f k).2 (g k).2)).
Proof.
  intros Hn Ht Hd. unfold accumulate.
  destruct (foldM_pointwise (E:=EpochProcessingError) (fun '(tr, tp) i =>
      r ← Prelude.index d.1 i; tr ← vec_add tr i r; p ← Prelude.index d.2 i; tp ← vec_add tp i p; Ok (tr, tp))
    Z.to_nat both (fun _ => True) (fun i x => (wadd x.1 (g (Z.to_nat i)).1, wadd x.2 (g (Z.to_nat i)).2))
    (seqZ 0 n) t) as (t' & -> & _ & Hin & Hout).
  - intros [tr tp] i [a b] _ [Hi0 Hi]%elem_of_seqZ Hx. pose proof (Hd (Z.to_nat i)) as Hg.
    rewrite decide_True in Hg by lia. destruct d as [dr dp], (g (Z.to_nat i)) as [r p].
    apply both_Some in Hg as [Hr Hp]. apply both_Some in Hx as [Ha Hb]. cbn [fst snd].
    rewrite (proj2 (index_Ok_iff dr i r)) by done. cbn [mbind result_bind].
    rewrite (vec_add_Ok tr i a) by done. cbn [mbind result_bind].
    rewrite (proj2 (index_Ok_iff dp i p)) by done. cbn [mbind result_bind].
    rewrite (vec_add_Ok tp i b) by done. eexists. do 2 (split; [done|]).
    eapply both_insert; [by apply both_Some|by right|by right].
  - apply NoDup_to_nat; [apply NoDup_seqZ|]. by intros i [? ?]%elem_of_seqZ.
  - done.
  - intros i [? ?]%elem_of_seqZ. rewrite Ht, decide_True by lia. by eexists.
  - exists t'. split; [done|]. intros k. case_decide as Hk.
    + specialize (Hin (Z.of_nat k)). rewrite Nat2Z.id, Ht, decide_True in Hin by done. apply Hin.
      apply elem_of_seqZ. lia.
    + rewrite Hout; [by rewrite Ht, decide_False|].
      intros (i & -> & [? ?]%elem_of_seqZ)%list_elem_of_fmap. lia.
Qed.

(** ** Applying them *)
Lemma apply_delta_step_Ok (t : list Z * list Z) s i r p b :
  0 <= i -> both t (Z.to_nat i) = Some (r, p) -> balances s !! Z.to_nat i = Some b -> u64 b -> 0 <= r -> 0 <= p ->
  apply_delta_step t s i
  = Ok (al_with_base s (with_balances s (<[Z.to_nat i := sat_sub (sat_add b r) p]> (balances s)))).
Proof.
  intros Hi Ht Hb [Hb0 Hb1] Hr Hp. destruct t as [tr tp]. apply both_Some in Ht as [Htr Htp].
  apply lookup_lt_Some in Hb as Hlt. unfold apply_delta_step. cbn [fst snd].
  rewrite (proj2 (index_Ok_iff tr i r)), (proj2 (index_Ok_iff tp i p)) by done. cbn [mbind result_bind].
  assert (forall s' : AltairState, length (balances s') = length (balances s) -> (zlen (balances s') <=? i) = false) as Hle.
  { intros s' Hl. apply Z.leb_gt. unfold zlen. lia. }
  assert ((if 0 <? r then map_err epoch_error (increase_balance_altair s i r) else Ok s)
    = Ok (al_with_base s (with_balances s (<[Z.to_nat i := sat_add b r]> (balances s))))) as ->.
  { destruct (Z.ltb_spec 0 r).
    - unfold increase_balance_altair, list_with_set. rewrite Hle, Hb by done. done.
    - assert (r = 0) as -> by lia. assert (sat_add b 0 = b) as -> by (unfold sat_add, u64_max; lia).
      rewrite list_insert_id by done. by destruct s as [[] ? ? ? ? ?]. }
  cbn [mbind result_bind]. destruct (Z.ltb_spec 0 p).
  - unfold decrease_balance_altair, list_with_set. rewrite Hle by (cbn; apply length_insert). cbn.
    rewrite list_lookup_insert_eq by done. cbn [default from_option id]. rewrite list_insert_insert_eq.
    unfold sat_sub. do 5 f_equal. destruct (Z.ltb_spec (sat_add b r) p); lia.
  - assert (p = 0) as -> by lia. unfold sat_sub. rewrite Z.sub_0_r, Z.max_l by (unfold sat_add, u64_max, U64; lia). done.
Qed.

Lemma apply_all_altair s t f :
  altair_ok M s -> delta_pair t (num_validators s) f -> (forall k, 0 <= (f k).1 /\ 0 <= (f k).2) ->
  exists bs, foldM (apply_delta_step t) (seqZ 0 (num_validators s)) s = Ok (al_with_base s (with_balances s bs)) /\
    altair_ok M (al_with_base s (with_balances s bs)) /\
    forall k b, balances s !! k = Some b -> bs !! k = Some (sat_sub (sat_add b (f k).1) (f k).2).
Proof.
  intros Hs Ht Hf. pose proof (bo_balances_length M s (ao_base M s Hs)) as Hlen.
  destruct (foldM_pointwise (apply_delta_step t) Z.to_nat (fun s' k => balances s' !! k)
    (fun s' => exists bs, s' = al_with_base s (with_balances s bs) /\ length bs = length (balances s) /\ Forall u64 bs)
    (fun i b => sat_sub (sat_add b (f (Z.to_nat i)).1) (f (Z.to_nat i)).2) (seqZ 0 (num_validators s)) s)
    as (s' & -> & (bs & -> & Hl & Hu) & Hin & _).
  - intros s1 i b (bs & -> & Hl & Hu) [Hi0 Hi]%elem_of_seqZ Hb. change (balances _) with bs in Hb.
    pose proof (Ht (Z.to_nat i)) as Hti. rewrite decide_True in Hti by lia.
    destruct (Hf (Z.to_nat i)) as [? ?]. destruct (f (Z.to_nat i)) as [r p]. cbn [fst snd] in *.
    assert (u64 b) as Hub by (by eapply (Forall_lookup_1 u64)).
    rewrite (apply_delta_step_Ok t _ i r p b) by done. apply lookup_lt_Some in Hb as Hlt.
    eexists. split; [done|]. split_and!; [|by apply list_lookup_insert_eq|intros j Hj; by apply list_lookup_insert_ne].
    exists (<[Z.to_nat i := sat_sub (sat_add b r) p]> bs). split_and!; [done|by rewrite length_insert|].
    apply Forall_insert; [done|]. unfold sat_sub, sat_add, u64, u64_max, U64 in *. lia.
  - apply NoDup_to_nat; [apply NoDup_seqZ|]. by intros i [? ?]%elem_of_seqZ.
  - exists (balances s). split_and!; [by destruct s as [[] ? ? ? ? ?]|done|apply (ao_base M s Hs)].
  - intros i [? ?]%elem_of_seqZ. apply lookup_lt_is_Some_2. unfold num_validators, zlen in *. lia.
  - exists bs. split_and!; [done| |].
    + apply altair_ok_base; [done|by apply base_ok_balances; [apply ao_base|..]|done].
    + intros k b Hb. specialize (Hin (Z.of_nat k)). rewrite Nat2Z.id, Hb in Hin. apply Hin.
      apply lookup_lt_Some in Hb. apply elem_of_seqZ. unfold num_validators, zlen. lia.
Qed.

(** The sums the loops compute. *)
Definition reward_sum s (i : Z) : Z := wsum [flag_reward s 0 i; flag_reward s 1 i; flag_reward s 2 i; 0].
Definition penalty_sum s (quotient i : Z) : Z :=
  wsum [flag_penalty s 0 i; flag_penalty s 1 i; flag_penalty s 2 i; score_penalty s quotient i].

Lemma rewards_loop_Ok (a : AltairState) s quotient :
  0 < quotient <= 2 ^ 30 -> get_total_active_balance_altair s < 2 ^ 58 -> altair_ok M a ->
  num_validators a = num_validators s ->
  exists bs,
    (flag_deltas ← mapM (get_flag_index_deltas s) (seqZ 0 (zlen PARTICIPATION_FLAG_WEIGHTS));
     inactivity_deltas ← inactivity_penalty_deltas quotient s;
     t ← total_deltas (num_validators s) flag_deltas inactivity_deltas;
     foldM (apply_delta_step t) (seqZ 0 (num_validators s)) a) = Ok (al_with_base a (with_balances a bs)) /\
    altair_ok M (al_with_base a (with_balances a bs)) /\
    forall k b, balances a !! k = Some b ->
      bs !! k = Some (sat_sub (sat_add b (reward_sum s (Z.of_nat k))) (penalty_sum s quotient (Z.of_nat k))).
Proof.
  intros Hq Ht Ha Hn.
  destruct (flag_deltas_Ok (E:=EpochProcessingError) s 0) as (d0 & H0 & P0); [lia|done|].
  destruct (flag_deltas_Ok (E:=EpochProcessingError) s 1) as (d1 & H1 & P1); [lia|done|].
  destruct (flag_deltas_Ok (E:=EpochProcessingError) s 2) as (d2 & H2 & P2); [lia|done|].
  destruct (score_deltas_Ok (E:=EpochProcessingError) s quotient Hq) as (p & -> & P3).
  change (seqZ 0 (zlen PARTICIPATION_FLAG_WEIGHTS)) with [0; 1; 2].
  assert (mapM (get_flag_index_deltas (E:=EpochProcessingError) s) [0; 1; 2] = Ok [d0; d1; d2]) as ->.
  { apply mapM_Ok_Forall2. by repeat constructor. }
  cbn [mbind result_bind]. unfold total_deltas. cbn [foldM].
  change (replicate (Z.to_nat (num_validators s)) 0) with (zeros s).
  assert (0 <= num_validators s) as Hn0 by (unfold num_validators; apply zlen_nonneg).
  pose proof (fun k => zeros_both s k) as Z0.
  destruct (accumulate_Ok _ _ d0 (fun _ => (0, 0)) _ Hn0 Z0 P0) as (t0 & -> & T0). cbn [mbind result_bind].
  destruct (accumulate_Ok _ t0 d1 _ _ Hn0 T0 P1) as (t1 & -> & T1). cbn [mbind result_bind].
  destruct (accumulate_Ok _ t1 d2 _ _ Hn0 T1 P2) as (t2 & -> & T2). cbn [mbind result_bind].
  assert (delta_pair (zeros s, p) (num_validators s) (fun k => (0, score_penalty s quotient (Z.of_nat k)))) as P3'.
  { intros k. specialize (P3 k). pose proof (Z0 k) as Hz. unfold both in *. cbn [fst snd] in *.
    case_decide; destruct (zeros s !! k); cbn in Hz; try done; rewrite P3; cbn; by simplify_eq. }
  destruct (accumulate_Ok _ t2 (zeros s, p) _ _ Hn0 T2 P3') as (t3 & -> & T3). cbn [mbind result_bind].
  rewrite <-Hn in T3 |- *.
  destruct (apply_all_altair a t3 _ Ha T3) as (bs & -> & Hok & Hbs).
  - intros k. cbn [fst snd]. split; apply wadd_u64.
  - exists bs. split_and!; [done|done|]. exact Hbs.
Qed.

(** ** No product or sum overflows *)

(** The presets' constants, and a chain whose active balance is below 2^58 Gwei,
    whose previous epoch had at most twice that and whose inactivity scores are
    below 2^22. *)
Record rewards_in_range s : Prop := {
  ri_increment : EFFECTIVE_BALANCE_INCREMENT = 1000000000;
  ri_factor : BASE_REWARD_FACTOR = 64;
  ri_max : M <= 2048000000000;
  ri_total : get_total_active_balance_altair s < 2 ^ 58;
  ri_participating : forall flag, get_total_balance_altair s
      (get_unslashed_participating_indices s flag (get_previous_epoch s)) <= 2 * get_total_active_balance_altair s;
  ri_scores : Forall (fun x => x < 2 ^ 22) (al_inactivity_scores s);
}.

Lemma base_rate_bounds T Tu :
  1000000000 <= T < 2 ^ 58 -> 0 <= Tu <= 2 * T ->
  let brpi := 64000000000 / Z.sqrt T in
  0 <= brpi <= 2100000 /\ 0 <= brpi * (Tu / 1000000000) <= 2 ^ 37.
Proof.
  intros HT HTu. cbv zeta. pose proof (Z.sqrt_spec T ltac:(lia)) as [Hs1 Hs2]. set (q := Z.sqrt T) in *.
  assert (31622 <= q).
  { destruct (Z.le_gt_cases 31622 q); [done|]. assert (Z.succ q <= 31622) by lia. nia. }
  assert (q < 2 ^ 29) by (destruct (Z.lt_ge_cases q (2 ^ 29)); [done|nia]).
  pose proof (Z.mul_div_le 64000000000 q ltac:(lia)) as Hb. set (b := 64000000000 / q) in *.
  assert (0 <= b) by (apply Z.div_pos; lia).
  pose proof (Z.mul_div_le Tu 1000000000 ltac:(lia)) as Hu. set (u := Tu / 1000000000) in *.
  assert (0 <= u) by (apply Z.div_pos; lia).
  assert (b <= 2100000) by nia. split; [lia|]. split; [nia|].
  assert (b * (Z.succ q * Z.succ q) <= 64000000000 * (q + 2) + b) by nia.
  assert (b * u * 1000000000 <= 2 * (b * (Z.succ q * Z.succ q))) by nia. lia.
Qed.

Lemma increments_bound s i : altair_ok M s -> rewards_in_range s -> 0 <= increments_of s i <= 2048.
Proof.
  intros Hs [Hinc _ HM _ _ _]. unfold increments_of. rewrite Hinc.
  destruct (validators s !! Z.to_nat i) as [v|] eqn:Hv; cbn; [|lia].
  destruct (validator_within_at M _ _ _ (ao_base M s Hs) Hv) as [[? ?] _ _ _ _ _].
  split; [apply Z.div_pos; lia|]. apply Z.div_le_upper_bound; lia.
Qed.

(** Rewards and penalties in plain arithmetic. *)
Definition plain_reward s (flag i : Z) : Z :=
  if eligible_altair s i && participates s flag i && negb (is_in_inactivity_leak_altair s)
  then increments_of s i * reward_per_increment s * flag_weight flag * participating_increments s flag
       / (active_increments_of s * WEIGHT_DENOMINATOR)
  else 0.
Definition plain_penalty s (flag i : Z) : Z :=
  if eligible_altair s i && negb (participates s flag i) && negb (flag =? TIMELY_HEAD_FLAG_INDEX)
  then increments_of s i * reward_per_increment s * flag_weight flag / WEIGHT_DENOMINATOR
  else 0.
Definition plain_score_penalty s (quotient i : Z) : Z :=
  if eligible_altair s i && negb (participates s TIMELY_TARGET_FLAG_INDEX i)
  then default 0 (v_effective_balance <$> validators s !! Z.to_nat i)
       * default 0 (al_inactivity_scores s !! Z.to_nat i) / (INACTIVITY_SCORE_BIAS * quotient)
  else 0.

Lemma flag_weight_bounds flag : 0 <= flag_weight flag <= 26.
Proof.
  unfold flag_weight, PARTICIPATION_FLAG_WEIGHTS. destruct (Z.to_nat flag) as [|[|[|]]]; vm_compute; split; congruence.
Qed.

Lemma div_below a b B : 0 <= a < B -> 0 < b -> 0 <= a / b < B.
Proof. intros Ha Hb. split; [apply Z.div_pos; lia|]. apply Z.div_lt_upper_bound; nia. Qed.

Lemma flag_delta_plain s flag i :
  altair_ok M s -> rewards_in_range s ->
  flag_reward s flag i = plain_reward s flag i /\ 0 <= plain_reward s flag i < 2 ^ 60 /\
  flag_penalty s flag i = plain_penalty s flag i /\ 0 <= plain_penalty s flag i < 2 ^ 60.
Proof.
  intros Hs Hr. pose proof (increments_bound s i Hs Hr) as Hi. destruct Hr as [Hinc Hf HM HT Hp _].
  pose proof (total_active_altair_bounds s) as [HT0 _]. rewrite Hinc in HT0.
  pose proof (flag_weight_bounds flag) as Hw. specialize (Hp flag).
  set (Tu := get_total_balance_altair s _) in Hp.
  assert (0 <= Tu) as HTu by (unfold Tu, get_total_balance_altair; lia).
  destruct (base_rate_bounds (get_total_active_balance_altair s) Tu) as [Hb Hbu]; [lia..|].
  assert (reward_per_increment s = 64000000000 / Z.sqrt (get_total_active_balance_altair s)) as Hrpi.
  { unfold reward_per_increment. by rewrite Hinc, Hf. }
  rewrite <-Hrpi in Hb, Hbu. assert (participating_increments s flag = Tu / 1000000000) as Hpi.
  { unfold participating_increments. by rewrite Hinc. }
  rewrite <-Hpi in Hbu. assert (0 <= participating_increments s flag) as Hu by (rewrite Hpi; apply Z.div_pos; lia).
  assert (0 < active_increments_of s < 2 ^ 58) as Ha.
  { unfold active_increments_of. rewrite Hinc. split; [apply Z.div_str_pos; lia|apply Z.div_lt_upper_bound; lia]. }
  set (inc := increments_of s i) in *. set (rpi := reward_per_increment s) in *. set (w := flag_weight flag) in *.
  set (u := participating_increments s flag) in *.
  assert (0 <= inc * rpi <= 2048 * 2100000) as H1 by nia.
  assert (0 <= inc * rpi * w <= 2048 * 2100000 * 26) as H2 by nia.
  assert (0 <= inc * rpi * w * u <= 2048 * 26 * 2 ^ 37) as H3.
  { replace (inc * rpi * w * u) with ((inc * w) * (rpi * u)) by lia. assert (0 <= inc * w <= 2048 * 26) by nia. nia. }
  assert (base_reward_altair s i = inc * rpi) as Hbase by (apply wmul_small; unfold U64; lia).
  unfold flag_reward, plain_reward, flag_penalty, plain_penalty. rewrite Hbase. fold inc rpi w u.
  rewrite (wmul_small (inc * rpi) w) by (unfold U64; lia).
  rewrite (wmul_small (inc * rpi * w) u) by (unfold U64; lia).
  rewrite (wmul_small (active_increments_of s)) by (unfold WEIGHT_DENOMINATOR, U64; lia).
  split; [done|]. split; [case_match; [apply div_below; unfold WEIGHT_DENOMINATOR; lia|lia]|].
  split; [done|]. case_match; [apply div_below; unfold WEIGHT_DENOMINATOR; lia|lia].
Qed.

Lemma score_penalty_plain s quotient i :
  altair_ok M s -> rewards_in_range s -> 0 < quotient <= 2 ^ 30 ->
  score_penalty s quotient i = plain_score_penalty s quotient i /\ 0 <= plain_score_penalty s quotient i < 2 ^ 63.
Proof.
  intros Hs [_ _ HM _ _ Hsc] Hq. pose proof inactivity_score_bounds as [Hbias _].
  assert (0 <= default 0 (v_effective_balance <$> validators s !! Z.to_nat i) <= 2048000000000) as He.
  { destruct (validators s !! Z.to_nat i) as [v|] eqn:Hv; cbn; [|lia].
    destruct (validator_within_at M _ _ _ (ao_base M s Hs) Hv) as [[? ?] _ _ _ _ _]. unfold id. lia. }
  assert (0 <= default 0 (al_inactivity_scores s !! Z.to_nat i) < 2 ^ 22) as Hx.
  { destruct (al_inactivity_scores s !! Z.to_nat i) as [x|] eqn:Hx; cbn; [|lia].
    pose proof (Forall_lookup_1 _ _ _ _ Hsc Hx). pose proof (Forall_lookup_1 _ _ _ _ (ao_scores M s Hs) Hx) as [? _].
    cbn in *. unfold id. lia. }
  unfold score_penalty, plain_score_penalty. set (e := default 0 (_ <$> _)) in *. set (x := default 0 (_ !! _)) in *.
  assert (0 <= e * x < 2 ^ 63) by nia. assert (0 < INACTIVITY_SCORE_BIAS * quotient <= 2 ^ 40) by nia.
  rewrite !wmul_small by (unfold U64; lia). split; [done|]. case_match; [|lia]. apply div_below; lia.
Qed.

Lemma sums_plain s quotient i :
  altair_ok M s -> rewards_in_range s -> 0 < quotient <= 2 ^ 30 ->
  reward_sum s i = plain_reward s 0 i + plain_reward s 1 i + plain_reward s 2 i /\
  penalty_sum s quotient i
  = plain_penalty s 0 i + plain_penalty s 1 i + plain_penalty s 2 i + plain_score_penalty s quotient i.
Proof.
  intros Hs Hr Hq.
  destruct (flag_delta_plain s 0 i Hs Hr) as (R0 & B0 & P0 & C0), (flag_delta_plain s 1 i Hs Hr) as (R1 & B1 & P1 & C1),
    (flag_delta_plain s 2 i Hs Hr) as (R2 & B2 & P2 & C2), (score_penalty_plain s quotient i Hs Hr Hq) as (Q & D).
  unfold reward_sum, penalty_sum. rewrite R0, R1, R2, P0, P1, P2, Q.
  rewrite !wsum_no_wrap; try (repeat constructor; lia); unfold zsum; cbn [foldr]; unfold U64; lia.
Qed.
End facts.

(** ** Properties *)

(** Finality from participation flags.  At the end of an epoch the step always
    succeeds on a well-formed state whose checkpoints are in order, and keeps both.
    The finalized and the justified epoch never decrease, only a checkpoint that was
    justified before becomes finalized, and a newly justified checkpoint is the block
    at the start of its epoch, whose target flag is set for unslashed validators
    with two thirds of the active balance. *)
Theorem altair_justification_safe `{Crypto} `{Sp : BeaconSpec} `{!SpecOk Sp} (M : Z) (s : AltairState) :
  altair_ok M s -> checkpoints_ordered s -> epoch_end s -> slot s + SLOTS_PER_HISTORICAL_ROOT < U64 ->
  exists s', process_justification_and_finalization_altair s = Ok s' /\ altair_ok M s' /\
    cp_epoch (finalized_checkpoint s) <= cp_epoch (finalized_checkpoint s') /\
    cp_epoch (current_justified_checkpoint s) <= cp_epoch (current_justified_checkpoint s') /\
    cp_epoch (finalized_checkpoint s') <= cp_epoch (previous_justified_checkpoint s') /\
    cp_epoch (previous_justified_checkpoint s') <= cp_epoch (current_justified_checkpoint s')
      <= get_current_epoch s /\
    (finalized_checkpoint s' = finalized_checkpoint s \/
     finalized_checkpoint s' = previous_justified_checkpoint s \/
     finalized_checkpoint s' = current_justified_checkpoint s) /\
    (current_justified_checkpoint s' = current_justified_checkpoint s \/
     supermajority (participating_balance s (cp_epoch (current_justified_checkpoint s')))
       (get_total_active_balance_altair s) = true /\
     get_block_root s (cp_epoch (current_justified_checkpoint s'))
     = Ok (cp_root (current_justified_checkpoint s'))).
Proof.
  intros Hs Ho He Hsl. destruct (altair_jf_total M s Hs He Hsl) as [s' Hs']. exists s'.
  destruct (altair_jf_ok M s s' Hs Hs') as (Hok & _ & Hslot).
  destruct (altair_jf_ordered s s' (bo_slot M s (ao_base M s Hs)) Ho Hs') as (H1 & H2 & H3 & H4 & H5).
  assert (get_current_epoch s' = get_current_epoch s) as Hce by (unfold get_current_epoch; by rewrite Hslot).
  rewrite Hce in H5. do 5 (split; [done|]). split; [lia|].
  destruct (altair_jf_cases s s' Hs') as [[_ ->]|(_ & b & (cj & fin & -> & Hj & Hf & _)%weigh_spec & ->)].
  { split; by left. }
  split; [exact Hf|]. cbn.
  destruct Hj as [(Hsm & Hc & Hr)|[(_ & Hsm & Hc & Hr)|(_ & _ & ->)]]; [right|right|by left]; rewrite Hc; done.
Qed.

(** C20: rewards and penalties of an epoch, validator by validator.  Within the
    ranges of [rewards_in_range] no product or sum overflows and no divisor is zero:
    the step succeeds, keeps the invariant, and changes balances only.  Each
    validator gains, for each of the three flags it earned, its base reward times
    the flag's weight times the participating share of the active balance (nothing
    in a leak); loses base reward times weight for a source or target flag it
    missed; and loses effective balance times inactivity score over the bias and the
    quotient if it missed the target.  Ineligible validators keep their balance. *)
Theorem deneb_rewards_exact `{Crypto} `{Sp : BeaconSpec} `{Fs : ForkSpec} `{!SpecOk Sp} `{!ForkSpecOk Sp Fs}
    (M : Z) (d : DenebState) :
  altair_ok M d -> rewards_in_range M d -> get_current_epoch d <> GENESIS_EPOCH ->
  exists bs, process_rewards_and_penalties_deneb d
      = Ok (de_with_altair d (al_with_base d (with_balances d bs))) /\
    altair_ok M (al_with_base d (with_balances d bs)) /\
    forall k b, balances d !! k = Some b ->
      let i := Z.of_nat k in
      bs !! k = Some (sat_sub
        (sat_add b (plain_reward d 0 i + plain_reward d 1 i + plain_reward d 2 i))
        (plain_penalty d 0 i + plain_penalty d 1 i + plain_penalty d 2 i
         + plain_score_penalty d INACTIVITY_PENALTY_QUOTIENT_BELLATRIX i)).
Proof.
  intros Hd Hr Hg. destruct fork_quotients as (_ & Hq & _).
  unfold process_rewards_and_penalties_deneb. rewrite (proj2 (Z.eqb_neq _ _)) by done.
  destruct (capella_altair_lens (deneb_state_to_capella d) (de_altair d)) as [Hl1 _].
  destruct (deneb_capella_lens d (deneb_state_to_capella d)) as [Hl2 _].
  rewrite Hl1, Hl2. unfold get_inactivity_penalty_deltas_deneb. rewrite deneb_altair_lens.
  destruct (rewards_loop_Ok M (de_altair d) (de_altair d) INACTIVITY_PENALTY_QUOTIENT_BELLATRIX)
    as (bs & Hloop & Hok & Hbs); [done|apply Hr|done|done|].
  exists bs. split; [|split; [done|]].
  - destruct (mapM _ _) as [fd| |]; cbn in Hloop |- *; try done.
    destruct (inactivity_penalty_deltas _ _) as [id| |]; cbn in Hloop |- *; try done.
    destruct (total_deltas _ _ _) as [t| |]; cbn in Hloop |- *; try done. by rewrite Hloop.
  - intros k b Hb. cbv zeta. rewrite (Hbs k b Hb).
    destruct (sums_plain M (de_altair d) _ (Z.of_nat k) Hd Hr Hq) as [-> ->]. done.
Qed.

(** ** Witnesses: a chain of two validators at the end of epoch 2 *)
Definition ex_flags : AltairState :=
  ex_altair 23 [ex_member 0 Byte.x01 32 u64_max u64_max; ex_member 1 Byte.x01 32 u64_max u64_max]
    [32000000000; 32000000000].

Lemma ex_flags_ok : @altair_ok minimal 2048000000000 ex_flags.
Proof. apply ex_altair_ok; ex_ranges. Qed.

Lemma altair_justification_safe_witness :
  exists s', @process_justification_and_finalization_altair minimal ex_flags = Ok s' /\
    cp_epoch (current_justified_checkpoint s') = 1 /\
    (finalized_checkpoint s' = finalized_checkpoint ex_flags \/
     finalized_checkpoint s' = previous_justified_checkpoint ex_flags \/
     finalized_checkpoint s' = current_justified_checkpoint ex_flags).
Proof.
  destruct (@altair_justification_safe ex_crypto minimal _ 2048000000000 ex_flags)
    as (s' & Hs & _ & _ & _ & _ & _ & Hf & _).
  - exact ex_flags_ok.
  - repeat split; vm_compute; congruence.
  - vm_compute. reflexivity.
  - vm_compute. reflexivity.
  - exists s'. split; [exact Hs|]. split; [|exact Hf].
    assert (ok_value ex_flags (@process_justification_and_finalization_altair minimal ex_flags) = s') as <-
      by (by rewrite Hs).
    vm_compute. reflexivity.
Defined.

Lemma ex_flags_range : @rewards_in_range minimal 2048000000000 ex_flags.
Proof.
  split; [reflexivity|reflexivity|lia|vm_compute; reflexivity| |].
  - intros flag. assert (get_total_active_balance_altair ex_flags = 64000000000) as -> by (vm_compute; reflexivity).
    assert (get_unslashed_participating_indices ex_flags flag (get_previous_epoch ex_flags) = [] \/
      get_unslashed_participating_indices ex_flags flag (get_previous_epoch ex_flags) = [0; 1]) as [-> | ->];
      [|vm_compute; congruence..].
    unfold get_unslashed_participating_indices. lazy -[has_flag].
    by destruct (has_flag 7 flag); [right|left].
  - by repeat constructor.
Qed.

Lemma deneb_rewards_exact_witness :
  exists bs, let d := mkDenebState ex_flags ex_payload_header 5 0 [] in
    @process_rewards_and_penalties_deneb minimal minimal_forks d
    = Ok (de_with_altair d (al_with_base d (with_balances d bs))) /\
    bs !! 0%nat = Some 32006830514 /\ bs !! 1%nat = Some 32006830514.
Proof.
  destruct (@deneb_rewards_exact ex_crypto minimal minimal_forks _ _ 2048000000000
    (mkDenebState ex_flags ex_payload_header 5 0 [])) as (bs & Hd & _ & Hbs).
  - exact ex_flags_ok.
  - exact ex_flags_range.
  - vm_compute. congruence.
  - exists bs. split; [exact Hd|].
    split; [rewrite (Hbs 0%nat 32000000000 eq_refl)|rewrite (Hbs 1%nat 32000000000 eq_refl)]; vm_compute; reflexivity.
Defined.
