(* ===== verification/AltairOps.v ===== *)
(** * Altair: attestations, the sync aggregate and sync subcommittees

    crates/pharos-stf/src/altair/operations/{attestation,sync_aggregate}.rs and the
    subcommittee helpers of altair/helpers.rs.  Later forks run
    [accumulate_attestation_participation_altair] and the reward arithmetic of the
    sync aggregate on their Altair part.

    Theorem [attestation_rewards_once]: the proposer rewards of any sequence of
    attestations add up to the weight of the flags that are new at its end, so no
    flag of a validator is paid twice and the order does not matter. *)

From Stdlib Require Import ZArith Lia.
From stdpp Require Import gmap sorting.
From S2P Require Import Prelude SszCodec SszBitfield SszTypes Merkle Shuffling Spec BeaconState Invariant Roots Accessors Mutators Forks ForkInvariant Altair.

(** [BLSPubkey::default()]. *)
Definition default_pubkey : bytes := replicate 48 Byte.x00.

(** [bits.get(i).unwrap_or(false)]. *)
Definition bl_bit {E} (bl : Bitlist) (i : Z) : result E bool :=
  match bl_get bl i with Ok b => Ok (default false b) | _ => Panic end.
Definition bv_bit {E} (N : Z) (data : bytes) (i : Z) : result E bool :=
  match bv_get N data i with Ok b => Ok (default false b) | _ => Panic end.

(** [iter().enumerate().filter_map(..)] on the bit of each position. *)
Definition picked_by {E A} (bit : Z -> result E bool) (l : list A) : result E (list A) :=
  picked ← mapM (fun '(i, a) => b ← bit i; Ok (if b : bool then Some a else None)) (enumerate l);
  Ok (omap id picked).

Record SignatureSet : Type := mkSignatureSet {
  ss_pubkey : bytes;
  ss_message : bytes;
  ss_signature : bytes;
}.

Record SyncAggregate : Type := mkSyncAggregate {
  sync_committee_bits : bytes;
  sync_committee_signature : bytes;
}.

Section participation.
  Context `{Crypto} `{S : BeaconSpec} `{ForkSpec}.
  Implicit Types s : AltairState.
  Local Abbreviation fallible := (result StateTransitionError).

(** ** Participation flags of the attesters *)
Definition participation s (is_current : bool) : list Z :=
  if is_current then al_current_epoch_participation s else al_previous_epoch_participation s.
Definition with_participation s (is_current : bool) (l : list Z) : AltairState :=
  if is_current then al_with_current_epoch_participation s l
  else al_with_previous_epoch_participation s l.

(** The loop over [PARTICIPATION_FLAG_WEIGHTS]: the flags and the numerator. *)
Definition flag_turn (participation_flag_indices : list Z) (base_reward : Z) (acc : Z * Z)
    (entry : Z * Z) : Z * Z :=
  let '(new_flags, numerator) := acc in
  let '(flag_index, weight) := entry in
  if bool_decide (flag_index ∈ participation_flag_indices) && negb (has_flag new_flags flag_index)
  then (add_flag new_flags flag_index, wadd numerator (wmul base_reward weight))
  else (new_flags, numerator).

Definition participation_step (participation_flag_indices : list Z) (is_current : bool) (brpi : Z)
    (acc : AltairState * Z) (validator_index : Z) : fallible (AltairState * Z) :=
  let '(s, numerator) := acc in
  let ep_flags := default 0 (participation s is_current !! Z.to_nat validator_index) in
  let base_reward := wmul (increments_of s validator_index) brpi in
  let '(new_flags, numerator) :=
    foldl (flag_turn participation_flag_indices base_reward) (ep_flags, numerator)
      (enumerate PARTICIPATION_FLAG_WEIGHTS) in
  if negb (new_flags =? ep_flags) then
    l ← map_err Ssz (list_with_set (participation s is_current) validator_index new_flags);
    Ok (with_participation s is_current l, numerator)
  else Ok (s, numerator).

Definition accumulate_attestation_participation_altair s (attesting_indices : list Z)
    (participation_flag_indices : list Z) (is_current : bool) (brpi : Z)
    : fallible (AltairState * Z) :=
  foldM (participation_step participation_flag_indices is_current brpi) attesting_indices (s, 0).

(** ** Committees *)
Definition get_committee_count_per_slot_altair s (epoch : Z) : Z :=
  let active_count := zlen (filter (fun v => is_active_validator v epoch = true) (validators s)) in
  Z.min (Z.max (active_count / SLOTS_PER_EPOCH / TARGET_COMMITTEE_SIZE) 1) MAX_COMMITTEES_PER_SLOT.

Definition get_beacon_committee_altair s (sl index : Z) : fallible (list Z) :=
  let epoch := compute_epoch_at_slot sl SLOTS_PER_EPOCH in
  let committees_per_slot := get_committee_count_per_slot_altair s epoch in
  let active := active_indices_at s epoch in
  let seed := get_seed_altair s epoch DOMAIN_BEACON_ATTESTER in
  let committee_index := wadd (wmul (sl mod SLOTS_PER_EPOCH) committees_per_slot) index in
  let committee_count := wmul committees_per_slot SLOTS_PER_EPOCH in
  compute_committee active seed committee_index committee_count SHUFFLE_ROUND_COUNT.

Definition get_domain_altair s (domain_type : bytes) (epoch : option Z) : fallible bytes :=
  let epoch := default (compute_epoch_at_slot (slot s) SLOTS_PER_EPOCH) epoch in
  let fork_version :=
    if epoch <? fork_epoch (fork s) then fork_previous_version (fork s)
    else fork_current_version (fork s) in
  compute_domain domain_type fork_version (genesis_validators_root s).

Definition pubkey_or_default s (index : Z) : bytes :=
  default default_pubkey (v_pubkey <$> validators s !! Z.to_nat index).

(** The proposer's share of the rewards of an attestation. *)
Definition proposer_reward_denominator : Z :=
  wmul (WEIGHT_DENOMINATOR - PROPOSER_WEIGHT) WEIGHT_DENOMINATOR / PROPOSER_WEIGHT.

Definition process_attestation_altair s (attestation : Attestation) (verify_signatures : bool)
    : fallible AltairState :=
  let data := att_data attestation in
  let bits := att_aggregation_bits attestation in
  let target_epoch := cp_epoch (ad_target data) in
  let current_epoch := compute_epoch_at_slot (slot s) SLOTS_PER_EPOCH in
  let previous_epoch := if current_epoch =? 0 then 0 else wsub current_epoch 1 in
  if negb (target_epoch =? current_epoch) && negb (target_epoch =? previous_epoch)
  then Err (InvalidAttestation TargetEpochMismatch)
  else if negb (target_epoch =? compute_epoch_at_slot (ad_slot data) SLOTS_PER_EPOCH)
  then Err (InvalidAttestation TargetEpochMismatch)
  else if slot s <? wadd (ad_slot data) MIN_ATTESTATION_INCLUSION_DELAY
  then Err (InvalidAttestation SlotTooNew)
  else if wadd (ad_slot data) SLOTS_PER_EPOCH <? slot s then Err (InvalidAttestation SlotTooOld)
  else if get_committee_count_per_slot_altair s target_epoch <=? ad_index data
  then Err (InvalidAttestation CommitteeIndexOutOfRange)
  else
    committee ← get_beacon_committee_altair s (ad_slot data) (ad_index data);
    if negb (bit_len bits =? zlen committee)
    then Err (InvalidAttestation AggregationBitsLengthMismatch)
    else
      let inclusion_delay := wsub (slot s) (ad_slot data) in
      participation_flag_indices ←
        get_attestation_participation_flag_indices s data inclusion_delay false;
      _ ← (if verify_signatures then
             attesting ← picked_by (bl_bit bits) committee;
             let attesting_sorted := merge_sort Z.le attesting in
             if zlen attesting_sorted =? 0 then Err (InvalidAttestation EmptyAttestingIndices)
             else if 2048 <? zlen attesting_sorted then Panic
             else
               let pubkeys := pubkey_or_default s <$> attesting_sorted in
               domain ← get_domain_altair s DOMAIN_BEACON_ATTESTER (Some target_epoch);
               msg ← compute_signing_root (attestation_data_root data) domain;
               if default false (bls_fast_aggregate_verify pubkeys msg (att_signature attestation))
               then Ok tt else Err (InvalidAttestation AttInvalidSignature)
           else Ok tt);
      attesting_indices ← picked_by (bl_bit bits) committee;
      brpi ← get_base_reward_per_increment s;
      let is_current := target_epoch =? current_epoch in
      '(s, proposer_reward_numerator) ←
        accumulate_attestation_participation_altair s attesting_indices participation_flag_indices
          is_current brpi;
      let proposer_reward := proposer_reward_numerator / proposer_reward_denominator in
      proposer_index ← get_proposer_index_altair s;
      increase_balance_altair s proposer_index proposer_reward.

Definition attestation_signature_set `{Aggregation} s (attestation : Attestation)
    : fallible SignatureSet :=
  let data := att_data attestation in
  committee ← get_beacon_committee_altair s (ad_slot data) (ad_index data);
  attesting ← picked_by (bl_bit (att_aggregation_bits attestation)) committee;
  let attesting_sorted := merge_sort Z.le attesting in
  if zlen attesting_sorted =? 0 then Err (InvalidAttestation EmptyAttestingIndices)
  else
    let pubkeys := pubkey_or_default s <$> attesting_sorted in
    agg_pubkey ← ok_or (aggregate_pubkeys pubkeys) (InvalidAttestation AttInvalidSignature);
    domain ← get_domain_altair s DOMAIN_BEACON_ATTESTER (Some (cp_epoch (ad_target data)));
    msg ← compute_signing_root (attestation_data_root data) domain;
    Ok (mkSignatureSet agg_pubkey msg (att_signature attestation)).
End participation.

(** ** sync_aggregate.rs *)
Section sync.
  Context `{Crypto} `{S : BeaconSpec} `{ForkSpec}.
  Implicit Types s : AltairState.
  Local Abbreviation fallible := (result StateTransitionError).

(** [bls.G2_POINT_AT_INFINITY], the aggregate of no signature. *)
Definition infinity_signature : bytes := Byte.xc0 :: replicate 95 Byte.x00.

(** The members whose bit is set, and [eth_fast_aggregate_verify] over the root of
    the previous slot. *)
Definition sync_participant_pubkeys s (aggregate : SyncAggregate) : fallible (list bytes) :=
  picked_by (bv_bit SYNC_COMMITTEE_SIZE (sync_committee_bits aggregate))
    (sc_pubkeys (al_current_sync_committee s)).

Definition check_sync_signature s (aggregate : SyncAggregate) (participant_pubkeys : list bytes)
    : fallible unit :=
  if zlen participant_pubkeys =? 0 then
    if bool_decide (sync_committee_signature aggregate = infinity_signature) then Ok tt
    else Err InvalidBlockSignature
  else
    let previous_slot := if slot s =? 0 then 0 else wsub (slot s) 1 in
    if negb ((previous_slot <? slot s) && (slot s <=? wadd previous_slot SLOTS_PER_HISTORICAL_ROOT))
    then Err SlotOutOfRange
    else
      previous_slot_root ←
        ok_or (block_roots s !! Z.to_nat (previous_slot mod SLOTS_PER_HISTORICAL_ROOT)) SlotOutOfRange;
      let epoch := compute_epoch_at_slot previous_slot SLOTS_PER_EPOCH in
      domain ← get_domain_altair s DOMAIN_SYNC_COMMITTEE (Some epoch);
      signing_root ← root_value (signing_data_root (mkSigningData previous_slot_root domain));
      if default false (bls_fast_aggregate_verify participant_pubkeys signing_root
                          (sync_committee_signature aggregate))
      then Ok tt else Err InvalidBlockSignature.

Definition sync_aggregate_rewards_altair s : fallible (Z * Z) :=
  let total_active_increments := get_total_active_balance_altair s / EFFECTIVE_BALANCE_INCREMENT in
  base_reward_per_increment ← get_base_reward_per_increment s;
  let total_base_rewards := wmul base_reward_per_increment total_active_increments in
  let max_participant_rewards :=
    wmul total_base_rewards SYNC_REWARD_WEIGHT / WEIGHT_DENOMINATOR / SLOTS_PER_EPOCH in
  let participant_reward := max_participant_rewards / SYNC_COMMITTEE_SIZE in
  let proposer_reward :=
    wmul participant_reward PROPOSER_WEIGHT / (WEIGHT_DENOMINATOR - PROPOSER_WEIGHT) in
  Ok (participant_reward, proposer_reward).

(** [.map(|(i, v)| (v.pubkey, i)).collect::<HashMap<_, _>>()]: a later validator
    with the same key replaces an earlier one. *)
Definition pubkey_to_index (vs : list Validator) : gmap bytes Z :=
  foldl (fun m '(i, v) => <[v_pubkey v := i]> m) ∅ (enumerate vs).

Definition sync_committee_indices s : fallible (list Z) :=
  let index_of := pubkey_to_index (validators s) in
  mapM (fun pk => ok_or (index_of !! pk) InvalidSyncCommittee)
    (sc_pubkeys (al_current_sync_committee s)).

Definition sync_step (bits : bytes) (proposer_index participant_reward proposer_reward : Z) s
    (entry : Z * Z) : fallible AltairState :=
  let '(i, participant_index) := entry in
  participation_bit ← bv_bit SYNC_COMMITTEE_SIZE bits i;
  if participation_bit : bool then
    s ← increase_balance_altair s participant_index participant_reward;
    increase_balance_altair s proposer_index proposer_reward
  else decrease_balance_altair s participant_index participant_reward.

Definition process_sync_aggregate s (aggregate : SyncAggregate) (verify_signatures : bool)
    : fallible AltairState :=
  participant_pubkeys ← sync_participant_pubkeys s aggregate;
  _ ← (if verify_signatures then check_sync_signature s aggregate participant_pubkeys else Ok tt);
  '(participant_reward, proposer_reward) ← sync_aggregate_rewards_altair s;
  committee_indices ← sync_committee_indices s;
  proposer_index ← get_proposer_index_altair s;
  foldM (sync_step (sync_committee_bits aggregate) proposer_index participant_reward proposer_reward)
    (enumerate committee_indices) s.

(** ** Subcommittees (helpers.rs) *)
Definition is_sync_committee_aggregator (selection_proof_bytes : bytes) : fallible bool :=
  let modulo := Z.max 1 (SYNC_COMMITTEE_SIZE / SYNC_COMMITTEE_SUBNET_COUNT
                         / TARGET_AGGREGATORS_PER_SYNC_SUBCOMMITTEE) in
  first8 ← slice (sha256 selection_proof_bytes) 0 8;
  Ok (from_le_bytes first8 mod modulo =? 0).

(** The committee in charge of the next slot. *)
Definition sync_pubkeys_at (current_pubkeys next_pubkeys : list bytes) (state_slot : Z) : list bytes :=
  let current_epoch := compute_epoch_at_slot state_slot SLOTS_PER_EPOCH in
  let next_slot_epoch := compute_epoch_at_slot (wadd state_slot 1) SLOTS_PER_EPOCH in
  let current_period := current_epoch / EPOCHS_PER_SYNC_COMMITTEE_PERIOD in
  let next_period := next_slot_epoch / EPOCHS_PER_SYNC_COMMITTEE_PERIOD in
  if current_period =? next_period then current_pubkeys else next_pubkeys.

(** The [BTreeSet] of subnets, read in order. *)
Definition compute_subnets_for_sync_committee (current_pubkeys next_pubkeys : list bytes)
    (state_slot : Z) (validator_pubkey : bytes) : list Z :=
  let sync_pubkeys := sync_pubkeys_at current_pubkeys next_pubkeys state_slot in
  let subcommittee_size := SYNC_COMMITTEE_SIZE / SYNC_COMMITTEE_SUBNET_COUNT in
  let subnets : gset Z := foldl (fun acc '(i, pk) =>
      if bool_decide (pk = validator_pubkey) then {[ i / subcommittee_size ]} ∪ acc else acc)
    ∅ (enumerate sync_pubkeys) in
  merge_sort Z.le (elements subnets).

Definition get_sync_subcommittee_pubkeys (current_pubkeys next_pubkeys : list bytes)
    (state_slot subcommittee_index : Z) : list bytes :=
  let sync_pubkeys := sync_pubkeys_at current_pubkeys next_pubkeys state_slot in
  if SYNC_COMMITTEE_SUBNET_COUNT <=? subcommittee_index then []
  else
    let subcommittee_size := SYNC_COMMITTEE_SIZE / SYNC_COMMITTEE_SUBNET_COUNT in
    let start := wmul subcommittee_index subcommittee_size in
    let stop := wadd start subcommittee_size in
    match slice (E:=unit) sync_pubkeys start stop with Ok l => l | _ => [] end.
End sync.

(** ** Flags *)
Lemma has_flag_testbit f k : 0 <= k < 8 -> has_flag f k = Z.testbit f k.
Proof.
  intros Hk. unfold has_flag. rewrite Z.mod_small, Z.shiftl_1_l by lia.
  destruct (Z.testbit f k) eqn:Hb.
  - apply Z.eqb_eq, Z.bits_inj. intros i. rewrite Z.land_spec.
    destruct (Z.eq_dec k i) as [<-|]; [by rewrite Hb, Z.pow2_bits_true by lia|].
    rewrite (Z.pow2_bits_false k i) by lia. apply andb_false_r.
  - apply Z.eqb_neq. intros Heq. apply (f_equal (fun z => Z.testbit z k)) in Heq. revert Heq.
    by rewrite Z.land_spec, Hb, Z.pow2_bits_true by lia.
Qed.

Lemma has_flag_add f k j : 0 <= k < 8 -> 0 <= j < 8 -> has_flag (add_flag f k) j = has_flag f j || (j =? k).
Proof.
  intros Hk Hj. rewrite !has_flag_testbit by done. unfold add_flag. rewrite Z.mod_small by lia.
  apply testbit_lor_pow2; lia.
Qed.

Lemma add_flag_ok f k : 0 <= k < 8 -> flags_ok f -> flags_ok (add_flag f k).
Proof.
  unfold add_flag, flags_ok. intros Hk Hf. rewrite Z.mod_small by lia.
  assert (0 <= Z.lor f (Z.shiftl 1 k)) as Hn.
  { apply Z.lor_nonneg. rewrite Z.shiftl_nonneg. lia. }
  split; [done|]. apply (below_pow2_testbit _ 8); [done|lia|]. intros i Hi.
  rewrite testbit_lor_pow2 by lia. rewrite (testbit_high f 8) by (done || lia).
  destruct (Z.eqb_spec i k); [lia|done].
Qed.

(** The weight of the flags a validator has. *)
Definition flag_weight (f : Z) : Z :=
  zsum ((fun '(k, w) => if has_flag f k then w else 0) <$> enumerate PARTICIPATION_FLAG_WEIGHTS).

(** [f'] has the flags of [f] and those of [indices]. *)
Definition flags_joined (indices : list Z) (f f' : Z) : Prop :=
  forall k, 0 <= k < 3 -> has_flag f' k = has_flag f k || bool_decide (k ∈ indices).

Lemma flag_turn_spec indices base f n k w f' n' :
  0 <= k < 3 -> flag_turn indices base (f, n) (k, w) = (f', n') ->
  (forall j, 0 <= j < 3 -> has_flag f' j = has_flag f j || (j =? k) && bool_decide (k ∈ indices)) /\
  n' mod U64 = (n + base * ((if has_flag f' k then w else 0) - (if has_flag f k then w else 0))) mod U64 /\
  (flags_ok f -> flags_ok f') /\ (u64 n -> u64 n').
Proof.
  intros Hk. unfold flag_turn.
  destruct (bool_decide_reflect (k ∈ indices)) as [Hin|Hin]; cbn [andb];
    [destruct (has_flag f k) eqn:Hf; cbn [negb]|]; intros [= <- <-].
  - split_and!; [|f_equal; rewrite Hf; lia|done|done]. intros j Hj. rewrite andb_true_r.
    destruct (Z.eqb_spec j k) as [->|]; by rewrite ?Hf, ?orb_false_r.
  - split_and!; [| |by apply add_flag_ok; lia|intros _; apply wadd_u64].
    + intros j Hj. rewrite has_flag_add by lia. by rewrite andb_true_r.
    + rewrite has_flag_add, Z.eqb_refl, orb_true_r by lia. unfold wadd, wmul.
      rewrite Z.mod_mod, Z.add_mod_idemp_r by done. f_equal. lia.
  - split_and!; [|f_equal; destruct (has_flag f k); lia|done|done]. intros j Hj.
    by rewrite andb_false_r, orb_false_r.
Qed.

Lemma mod_shift a b x : a mod U64 = b mod U64 -> (a + x) mod U64 = (b + x) mod U64.
Proof. intros Hab. by rewrite Z.add_mod, Hab, <-Z.add_mod by done. Qed.

Lemma flag_turns_spec indices base f n f' n' :
  foldl (flag_turn indices base) (f, n) (enumerate PARTICIPATION_FLAG_WEIGHTS) = (f', n') ->
  flags_joined indices f f' /\ n' mod U64 = (n + base * (flag_weight f' - flag_weight f)) mod U64 /\
  (flags_ok f -> flags_ok f') /\ (u64 n -> u64 n').
Proof.
  unfold enumerate, PARTICIPATION_FLAG_WEIGHTS. cbn [enumerate_from foldl]. change (0 + 1) with 1. change (1 + 1) with 2.
  destruct (flag_turn indices base (f, n) (0, 14)) as [f1 n1] eqn:E1.
  destruct (flag_turn indices base (f1, n1) (1, 26)) as [f2 n2] eqn:E2.
  intros E3. apply flag_turn_spec in E1 as (H1 & N1 & O1 & U1), E2 as (H2 & N2 & O2 & U2), E3 as (H3 & N3 & O3 & U3);
    [|lia..].
  assert (flags_joined indices f f') as Hj.
  { intros k Hk. rewrite H3, H2, H1 by lia. assert (k = 0 \/ k = 1 \/ k = 2) as [->|[->| ->] ] by lia; cbn;
      by rewrite ?orb_false_r. }
  split_and!; [done| |tauto|tauto]. rewrite N3, (mod_shift _ _ _ N2), <-Z.add_assoc, (mod_shift _ _ _ N1).
  f_equal. unfold flag_weight, enumerate, PARTICIPATION_FLAG_WEIGHTS. cbn [enumerate_from fmap list_fmap].
  change (0 + 1) with 1. change (1 + 1) with 2. rewrite !zsum_cons, zsum_nil.
  rewrite (H3 0), (H2 0), (H3 1), (H2 1), (H1 1), (H2 2), (H1 2) by lia. cbn. rewrite ?orb_false_r. lia.
Qed.

Lemma zsum_fmap_update (f g : nat -> Z) i l :
  NoDup l -> i ∈ l -> (forall j, j ∈ l -> j <> i -> g j = f j) -> zsum (g <$> l) = zsum (f <$> l) + (g i - f i).
Proof.
  intros Hnd Hi Hg. induction Hnd as [|j l Hj Hnd IH]; [by apply elem_of_nil in Hi|].
  rewrite !fmap_cons, !zsum_cons. apply elem_of_cons in Hi as [->|Hi].
  - replace (g <$> l) with (f <$> l); [lia|]. apply list_fmap_ext. intros k x Hx%list_elem_of_lookup_2.
    symmetry. apply Hg; [by right|]. by intros ->.
  - rewrite IH, (Hg j); [lia|by left|by intros ->|done|]. intros x Hx. apply Hg. by right.
Qed.

(** ** What the attestations of a sequence are paid *)
Section rewards.
  Context `{Crypto} `{Sp : BeaconSpec} `{Fs : ForkSpec}.
  Implicit Types s : AltairState.

(** The base rewards of the flags set in a participation list. *)
Definition flag_value s (brpi : Z) (l : list Z) : Z :=
  zsum ((fun j => wmul (increments_of s (Z.of_nat j)) brpi * flag_weight (default 0 (l !! j)))
          <$> seq 0 (length l)).
Definition total_flag_value s (brpi : Z) : Z :=
  flag_value s brpi (al_previous_epoch_participation s) + flag_value s brpi (al_current_epoch_participation s).

(** An attestation as the accumulation sees it. *)
Record counted_attestation : Type := mkCountedAttestation {
  ca_attesters : list Z;
  ca_flags : list Z;
  ca_is_current : bool;
}.

Definition reward_step (brpi : Z) (acc : AltairState * Z) (a : counted_attestation)
    : result StateTransitionError (AltairState * Z) :=
  '(s, n) ← accumulate_attestation_participation_altair acc.1 (ca_attesters a) (ca_flags a)
              (ca_is_current a) brpi;
  Ok (s, wadd acc.2 n).

(** Flag [k] of validator [i] in a participation list. *)
Definition flagged s (c : bool) (i k : Z) : bool := has_flag (default 0 (participation s c !! Z.to_nat i)) k.

(** [s'] is [s] with the flags [new] added. *)
Record flags_added (new : bool -> Z -> Z -> Prop) s s' : Prop := {
  fa_base : al_base s' = al_base s;
  fa_scores : al_inactivity_scores s' = al_inactivity_scores s;
  fa_current_committee : al_current_sync_committee s' = al_current_sync_committee s;
  fa_next_committee : al_next_sync_committee s' = al_next_sync_committee s;
  fa_length : forall c, length (participation s' c) = length (participation s c);
  fa_flags : forall c i k, 0 <= i -> 0 <= k < 3 -> flagged s' c i k = true <-> flagged s c i k = true \/ new c i k;
  fa_ok : forall c, Forall flags_ok (participation s c) -> Forall flags_ok (participation s' c);
}.

Lemma flags_added_refl s : flags_added (fun _ _ _ => False) s s.
Proof. split; try done. intros. tauto. Qed.

Lemma flags_added_trans new1 new2 new s1 s2 s3 :
  flags_added new1 s1 s2 -> flags_added new2 s2 s3 ->
  (forall c i k, 0 <= i -> 0 <= k < 3 -> new c i k <-> new1 c i k \/ new2 c i k) -> flags_added new s1 s3.
Proof.
  intros [B1 S1 C1 N1 L1 F1 O1] [B2 S2 C2 N2 L2 F2 O2] Hnew. split; [congruence..| |].
  - intros c i k Hi Hk. rewrite F2, F1, Hnew by done. tauto.
  - intros c Hc. apply O2, O1, Hc.
Qed.

Lemma participation_with s c l c' :
  participation (with_participation s c l) c' = if Bool.eqb c c' then l else participation s c'.
Proof. by destruct c, c'. Qed.

Lemma flag_value_base s s' brpi l : al_base s' = al_base s -> flag_value s' brpi l = flag_value s brpi l.
Proof. intros Hb. unfold flag_value, increments_of. by rewrite Hb. Qed.

Lemma flag_value_insert s s' brpi l i f :
  al_base s' = al_base s -> 0 <= i < zlen l ->
  flag_value s' brpi (<[Z.to_nat i := f]> l)
  = flag_value s brpi l
    + wmul (increments_of s i) brpi * (flag_weight f - flag_weight (default 0 (l !! Z.to_nat i))).
Proof.
  unfold zlen. intros Hb Hi. unfold flag_value. rewrite length_insert.
  rewrite (zsum_fmap_update (fun j => wmul (increments_of s (Z.of_nat j)) brpi * flag_weight (default 0 (l !! j)))
    _ (Z.to_nat i)); [|apply NoDup_seq|apply elem_of_seq; lia|].
  - rewrite list_lookup_insert_eq by lia. rewrite Z2Nat.id by lia. unfold increments_of. rewrite Hb. cbn. lia.
  - intros j _ Hj. rewrite list_lookup_insert_ne by done. unfold increments_of. by rewrite Hb.
Qed.

Lemma participation_insert_added s c i f flags :
  0 <= i < zlen (participation s c) ->
  flags_joined flags (default 0 (participation s c !! Z.to_nat i)) f ->
  (flags_ok (default 0 (participation s c !! Z.to_nat i)) -> flags_ok f) ->
  flags_added (fun c' j k => c' = c /\ j = i /\ k ∈ flags) s
    (with_participation s c (<[Z.to_nat i := f]> (participation s c))).
Proof.
  intros [Hi Hlt] Hj Hok. unfold zlen in Hlt.
  split; try by destruct c.
  - intros c'. rewrite participation_with. destruct (Bool.eqb c c') eqn:Hc; [|done].
    apply eqb_prop in Hc as <-. apply length_insert.
  - intros c' j k Hj0 Hk. unfold flagged. rewrite participation_with.
    destruct (Bool.eqb c c') eqn:Hc; [|split; [tauto|intros [?|[-> _] ]; [done|by rewrite eqb_reflx in Hc]]].
    apply eqb_prop in Hc as <-. destruct (Z.eq_dec j i) as [->|Hne].
    + rewrite list_lookup_insert_eq by lia. cbn [default from_option id]. unfold id. rewrite (Hj k Hk), orb_true_iff, bool_decide_eq_true.
      tauto.
    + rewrite list_lookup_insert_ne by lia. split; [tauto|]. intros [?|(_ & -> & _)]; done.
  - intros c' Hc'. rewrite participation_with. destruct (Bool.eqb c c') eqn:Hc; [|done].
    apply eqb_prop in Hc as <-. apply Forall_insert; [done|]. apply Hok.
    destruct (lookup_lt_is_Some_2 (participation s c) (Z.to_nat i)) as [x Hx]; [lia|].
    rewrite Hx. by apply (Forall_lookup_1 flags_ok _ _ _ Hc' Hx).
Qed.

Lemma participation_step_spec flags c brpi s n i s' n' :
  0 <= i -> u64 n -> participation_step flags c brpi (s, n) i = Ok (s', n') ->
  flags_added (fun c' j k => c' = c /\ j = i /\ k ∈ flags) s s' /\ u64 n' /\
  n' mod U64 = (n + (total_flag_value s' brpi - total_flag_value s brpi)) mod U64.
Proof.
  intros Hi Hn. unfold participation_step.
  destruct (foldl _ _ _) as [f' n1] eqn:Hf. apply flag_turns_spec in Hf as (Hj & Hv & Hok & Hu).
  destruct (Z.eqb_spec f' (default 0 (participation s c !! Z.to_nat i))) as [->|Hne]; cbn [negb].
  { intros [= <- <-]. split_and!; [|by apply Hu|rewrite Hv; f_equal; lia].
    split; try done. intros c' j k Hj' Hk. split; [tauto|]. intros [?|(-> & -> & Hin)]; [done|].
    unfold flagged. by rewrite (Hj k Hk), bool_decide_true, orb_true_r by done. }
  intros (l' & Hset & [= <- <-])%bind_Ok_inv. apply map_err_Ok in Hset. unfold list_with_set in Hset.
  destruct (Z.leb_spec (zlen (participation s c)) i) as [|Hlt]; [done|]. injection Hset as <-.
  split_and!; [by apply participation_insert_added|by apply Hu|]. rewrite Hv. f_equal. f_equal.
  unfold total_flag_value. pose proof (flag_value_insert s (with_participation s c
    (<[Z.to_nat i := f']> (participation s c))) brpi (participation s c) i f') as Hins.
  pose proof (flag_value_base s (with_participation s c (<[Z.to_nat i := f']> (participation s c))) brpi) as Hb.
  destruct c; cbn -[flag_value flag_weight] in *; rewrite Hins, Hb by done; lia.
Qed.

Lemma accumulate_spec flags c brpi l : forall s n s' n',
  Forall (Z.le 0) l -> u64 n -> foldM (participation_step flags c brpi) l (s, n) = Ok (s', n') ->
  flags_added (fun c' j k => c' = c /\ j ∈ l /\ k ∈ flags) s s' /\ u64 n' /\
  n' mod U64 = (n + (total_flag_value s' brpi - total_flag_value s brpi)) mod U64.
Proof.
  induction l as [|i l IH]; intros s n s' n' Hl Hn; cbn [foldM].
  { intros [= <- <-]. split_and!; [|done|f_equal; lia]. split; try done. intros. set_solver. }
  apply Forall_cons in Hl as [Hi Hl]. intros ([s1 n1] & H1 & H2)%bind_Ok_inv.
  apply participation_step_spec in H1 as (A1 & U1 & V1); [|done..].
  apply IH in H2 as (A2 & U2 & V2); [|done..]. split_and!; [|done|].
  - eapply flags_added_trans; [exact A1|exact A2|]. intros c' j k _ _. rewrite elem_of_cons. tauto.
  - rewrite V2, (mod_shift _ _ _ V1). f_equal. lia.
Qed.

(** Over any sequence of attestations the numerators of the proposer reward add
    up, as [u64] values, to the base rewards of the flags that the validators have
    at the end and did not have at the start; the flags at the end are those of the
    start and those the attestations carry, for exactly their attesters; nothing
    else in the state changes.  So a flag of a validator is rewarded once, whichever
    attestation brings it and however often it is included. *)
Theorem attestation_rewards_once s brpi atts s' total :
  Forall (fun a => Forall (Z.le 0) (ca_attesters a)) atts ->
  foldM (reward_step brpi) atts (s, 0) = Ok (s', total) ->
  total = (total_flag_value s' brpi - total_flag_value s brpi) mod U64 /\
  flags_added (fun c i k => exists a, a ∈ atts /\ ca_is_current a = c /\ i ∈ ca_attesters a /\ k ∈ ca_flags a) s s'.
Proof.
  intros Ha Hrun.
  enough (forall n, u64 n -> foldM (reward_step brpi) atts (s, n) = Ok (s', total) ->
    u64 total /\ total mod U64 = (n + (total_flag_value s' brpi - total_flag_value s brpi)) mod U64 /\
    flags_added (fun c i k => exists a, a ∈ atts /\ ca_is_current a = c /\ i ∈ ca_attesters a /\ k ∈ ca_flags a) s s') as Hgen.
  { destruct (Hgen 0) as (Hu & Hv & Hf); [by split|done|]. split; [|done].
    rewrite Z.add_0_l in Hv. by rewrite <-Hv, Z.mod_small by apply Hu. }
  clear Hrun. revert s. induction Ha as [|a atts Ha Hatts IH]; intros s n Hn; cbn [foldM].
  { intros [= <- <-]. split_and!; [apply Hn..|f_equal; lia|]. split; try done. intros. set_solver. }
  intros ([s1 n1] & H1 & H2)%bind_Ok_inv. unfold reward_step in H1. cbn [fst snd] in H1.
  apply bind_Ok_inv in H1 as ([s2 m] & Hacc & [= <- <-]).
  apply accumulate_spec in Hacc as (A1 & U1 & V1); [|done|by split].
  apply IH in H2 as (U2 & V2 & A2); [|apply wadd_u64]. split_and!; [apply U2..| |].
  - rewrite V2. unfold wadd. rewrite Z.add_mod_idemp_l by done.
    rewrite (Z.add_comm n m), <-Z.add_assoc, (mod_shift _ _ _ V1). f_equal. lia.
  - eapply flags_added_trans; [exact A1|exact A2|]. intros c i k _ _. split.
    + intros (x & [->|Hx]%elem_of_cons & Hc & Hi & Hk); [by left|right; eauto].
    + intros [(-> & Hi & Hk)|(x & Hx & ?)]; [exists a; by split; [left|]|exists x; by split; [right|]].
Qed.
End rewards.

(** ** The registry by key *)
Lemma pubkey_to_index_spec vs pk :
  (forall i, pubkey_to_index vs !! pk = Some i -> 0 <= i /\ v_pubkey <$> vs !! Z.to_nat i = Some pk) /\
  (pk ∈ v_pubkey <$> vs -> is_Some (pubkey_to_index vs !! pk)).
Proof.
  unfold pubkey_to_index, enumerate.
  enough (forall k (m : gmap bytes Z), 0 <= k ->
    (forall i, foldl (fun m '(i, v) => <[v_pubkey v := i]> m) m (enumerate_from k vs) !! pk = Some i ->
       m !! pk = Some i \/ k <= i /\ v_pubkey <$> vs !! Z.to_nat (i - k) = Some pk) /\
    (pk ∈ v_pubkey <$> vs \/ is_Some (m !! pk) ->
       is_Some (foldl (fun m '(i, v) => <[v_pubkey v := i]> m) m (enumerate_from k vs) !! pk))) as Hgen.
  { destruct (Hgen 0 ∅) as [H1 H2]; [lia|]. split; [|tauto]. intros i Hi.
    destruct (H1 i Hi) as [|[? ?] ]; [done|]. by rewrite Z.sub_0_r in *. }
  induction vs as [|v vs IH]; intros k m Hk; cbn [enumerate_from foldl fmap list_fmap].
  { split; [tauto|]. intros [[]%elem_of_nil|]; done. }
  destruct (IH (k + 1) (<[v_pubkey v := k]> m)) as [H1 H2]; [lia|]. split.
  - intros i [Hi|[Hi Hl] ]%H1.
    + destruct (decide (v_pubkey v = pk)) as [<-|Hne]; [|rewrite lookup_insert_ne in Hi by done; by left].
      rewrite lookup_insert_eq in Hi. injection Hi as <-. right. split; [lia|]. by rewrite Z.sub_diag.
    + right. split; [lia|]. by replace (Z.to_nat (i - k)) with (S (Z.to_nat (i - (k + 1)))) by lia.
  - intros Hin. apply H2. destruct (decide (v_pubkey v = pk)) as [<-|Hne]; [right; rewrite lookup_insert_eq; eauto|].
    rewrite lookup_insert_ne by done. rewrite elem_of_cons in Hin. destruct Hin as [[?|?]|?]; [congruence|by left|by right].
Qed.

(** ** What the sync aggregate moves *)
Section sync_rewards.
  Context `{Crypto} `{Sp : BeaconSpec} `{Fs : ForkSpec} `{!SpecOk Sp} `{!ForkSpecOk Sp Fs}.
  Implicit Types s : AltairState.

Definition sync_bit (data : bytes) (i : Z) : bool :=
  default false (bits SYNC_COMMITTEE_SIZE data !! Z.to_nat i).

(** What one seat of the committee adds to the balance of validator [v]. *)
Definition seat_delta (data : bytes) (proposer participant_reward proposer_reward v : Z) (seat : Z * Z) : Z :=
  if sync_bit data seat.1
  then (if seat.2 =? v then participant_reward else 0) + (if proposer =? v then proposer_reward else 0)
  else (if seat.2 =? v then - participant_reward else 0).

Definition sync_delta (data : bytes) (proposer participant_reward proposer_reward : Z) (seats : list (Z * Z))
    (v : Z) : Z :=
  zsum (seat_delta data proposer participant_reward proposer_reward v <$> seats).

Lemma bv_bit_Ok {E} data i :
  wf_bitvector SYNC_COMMITTEE_SIZE data -> 0 <= i < SYNC_COMMITTEE_SIZE ->
  bv_bit (E:=E) SYNC_COMMITTEE_SIZE data i = Ok (sync_bit data i).
Proof.
  intros Hw Hi. unfold bv_bit, bv_get, sync_bit. destruct (data_get_refines _ _ i Hw Hi) as (b & Hb & Hbits).
  destruct (Z.leb_spec SYNC_COMMITTEE_SIZE i); [lia|]. rewrite Hb, Hbits. done.
Qed.

(** The balances with [f v] added to each. *)
Definition shifted (f : Z -> Z) (bs : list Z) : list Z := imap (fun i b => b + f (Z.of_nat i)) bs.

Lemma increase_altair_Ok s i d b :
  0 <= i -> balances s !! Z.to_nat i = Some b -> b + d <= u64_max ->
  increase_balance_altair s i d = Ok (al_with_base s (with_balances s (<[Z.to_nat i := b + d]> (balances s)))).
Proof.
  intros Hi Hb Hd. pose proof (lookup_lt_Some _ _ _ Hb). unfold increase_balance_altair, list_with_set, zlen.
  rewrite Hb. destruct (Z.leb_spec (Z.of_nat (length (balances s))) i); [lia|]. cbn. unfold id, sat_add.
  by rewrite Z.min_l by lia.
Qed.

Lemma decrease_altair_Ok s i d b :
  0 <= i -> balances s !! Z.to_nat i = Some b -> d <= b ->
  decrease_balance_altair s i d = Ok (al_with_base s (with_balances s (<[Z.to_nat i := b - d]> (balances s)))).
Proof.
  intros Hi Hb Hd. pose proof (lookup_lt_Some _ _ _ Hb). unfold decrease_balance_altair, list_with_set, zlen.
  rewrite Hb. destruct (Z.leb_spec (Z.of_nat (length (balances s))) i); [lia|]. cbn. unfold id.
  destruct (Z.ltb_spec b d); [lia|done].
Qed.
Lemma shifted_lookup f bs j : shifted f bs !! j = (fun b => b + f (Z.of_nat j)) <$> bs !! j.
Proof. apply list_lookup_imap. Qed.
Lemma shifted_shifted f g bs : shifted g (shifted f bs) = shifted (fun v => f v + g v) bs.
Proof. apply list_eq. intros j. rewrite !shifted_lookup. destruct (bs !! j); cbn; [|done]. f_equal. lia. Qed.
Lemma shifted_0 f bs : (forall v, f v = 0) -> shifted f bs = bs.
Proof. intros Hf. apply list_eq. intros j. rewrite shifted_lookup. destruct (bs !! j); cbn; [|done]. f_equal. rewrite Hf. lia. Qed.
Lemma shifted_ext f g bs : (forall v, f v = g v) -> shifted f bs = shifted g bs.
Proof. intros Hf. apply list_eq. intros j. rewrite !shifted_lookup. destruct (bs !! j); cbn; [|done]. by rewrite Hf. Qed.

Lemma insert_shifted bs i b d :
  0 <= i -> bs !! Z.to_nat i = Some b ->
  <[Z.to_nat i := b + d]> bs = shifted (fun v => if i =? v then d else 0) bs.
Proof.
  intros Hi Hb. apply list_eq. intros j. rewrite shifted_lookup. pose proof (lookup_lt_Some _ _ _ Hb).
  destruct (decide (j = Z.to_nat i)) as [->|Hne].
  - rewrite list_lookup_insert_eq, Hb by done. cbn. by rewrite Z2Nat.id, Z.eqb_refl by done.
  - rewrite list_lookup_insert_ne by done. destruct (Z.eqb_spec i (Z.of_nat j)); [lia|].
    destruct (bs !! j); cbn; [|done]. f_equal. lia.
Qed.

Lemma sync_step_Ok s data p pr pp i v :
  wf_bitvector SYNC_COMMITTEE_SIZE data -> 0 <= i < SYNC_COMMITTEE_SIZE ->
  0 <= v < zlen (balances s) -> 0 <= p < zlen (balances s) -> 0 <= pr -> 0 <= pp ->
  Forall (fun b => pr <= b /\ b + pr + pp <= u64_max) (balances s) ->
  sync_step data p pr pp s (i, v)
  = Ok (al_with_base s (with_balances s (shifted (fun w => seat_delta data p pr pp w (i, v)) (balances s)))).
Proof.
  unfold zlen. intros Hw Hi Hv Hp Hpr Hpp Hb. unfold sync_step. rewrite bv_bit_Ok by done. cbn [mbind result_bind].
  destruct (lookup_lt_is_Some_2 (balances s) (Z.to_nat v)) as [b Hbv]; [lia|].
  destruct (lookup_lt_is_Some_2 (balances s) (Z.to_nat p)) as [bp Hbp]; [lia|].
  pose proof (Forall_lookup_1 _ _ _ _ Hb Hbv) as [? ?]. pose proof (Forall_lookup_1 _ _ _ _ Hb Hbp) as [? ?].
  unfold seat_delta. cbn [fst snd]. destruct (sync_bit data i).
  - rewrite (increase_altair_Ok s v pr b) by (done || lia). rewrite insert_shifted by (done || lia). cbn [mbind result_bind].
    set (s1 := al_with_base _ _).
    assert (balances s1 !! Z.to_nat p = Some (bp + if v =? p then pr else 0)) as Hp1.
    { unfold s1. cbn. rewrite shifted_lookup, Hbp. cbn. by rewrite Z2Nat.id by lia. }
    rewrite (increase_altair_Ok s1 p pp _ ltac:(lia) Hp1) by (destruct (v =? p); lia).
    rewrite insert_shifted by (done || lia). unfold s1. cbn -[shifted]. rewrite shifted_shifted. done.
  - rewrite (decrease_altair_Ok s v pr b) by (done || lia).
    replace (b - pr) with (b + - pr) by lia. by rewrite insert_shifted by (done || lia).
Qed.
(** While every balance can pay and take a reward for each seat left, nothing is
    clamped and the loop adds the sum of the seats' shares. *)
Lemma sync_loop_Ok data p pr pp seats : forall s,
  wf_bitvector SYNC_COMMITTEE_SIZE data -> 0 <= p < zlen (balances s) -> 0 <= pr -> 0 <= pp ->
  Forall (fun seat => 0 <= seat.1 < SYNC_COMMITTEE_SIZE /\ 0 <= seat.2 < zlen (balances s)) seats ->
  Forall (fun b => zlen seats * pr <= b /\ b + zlen seats * (pr + pp) <= u64_max) (balances s) ->
  foldM (sync_step data p pr pp) seats s
  = Ok (al_with_base s (with_balances s (shifted (sync_delta data p pr pp seats) (balances s)))).
Proof.
  induction seats as [|[i v] seats IH]; intros s Hw Hp Hpr Hpp Hseats Hb; cbn [foldM].
  { f_equal. rewrite shifted_0 by done. by destruct s as [[] ? ? ? ? ?]. }
  apply Forall_cons in Hseats as [[Hi Hv] Hseats]. cbn [fst snd] in Hi, Hv.
  rewrite zlen_cons in Hb. pose proof (zlen_nonneg seats).
  rewrite sync_step_Ok; [|done..|].
  2: { eapply Forall_impl; [exact Hb|]. cbn. intros. nia. }
  cbn [mbind result_bind]. set (bs1 := shifted _ _).
  assert (zlen bs1 = zlen (balances s)) as Hl by (unfold zlen, bs1, shifted; by rewrite length_imap).
  rewrite IH; cbn [al_with_base al_base with_balances balances]; rewrite ?Hl; try done.
  - f_equal. unfold al_with_base. cbn -[shifted sync_delta]. f_equal. unfold with_balances. cbn -[shifted sync_delta]. f_equal.
    unfold bs1. rewrite shifted_shifted. apply shifted_ext. intros w. done.
  - apply Forall_lookup. intros j x. unfold bs1. rewrite shifted_lookup.
    destruct (balances s !! j) as [b|] eqn:Hj; cbn; [|done]. intros [= <-].
    pose proof (Forall_lookup_1 _ _ _ _ Hb Hj) as [? ?]. unfold seat_delta. cbn [fst snd].
    destruct (sync_bit data i), (v =? Z.of_nat j), (p =? Z.of_nat j); nia.
Qed.

Lemma sync_rewards_nonneg s pr pp : sync_aggregate_rewards_altair s = Ok (pr, pp) -> 0 <= pr /\ 0 <= pp.
Proof.
  intros (brpi & _ & [= <- <-])%bind_Ok_inv. pose proof sync_size. pose proof slots_per_epoch_pos.
  assert (0 <= wmul (wmul brpi (get_total_active_balance_altair s / EFFECTIVE_BALANCE_INCREMENT)) SYNC_REWARD_WEIGHT
    / WEIGHT_DENOMINATOR / SLOTS_PER_EPOCH / SYNC_COMMITTEE_SIZE).
  { repeat (apply Z.div_pos; [|unfold WEIGHT_DENOMINATOR; lia]). apply wmul_u64. }
  split; [done|]. apply Z.div_pos; [apply wmul_u64|done].
Qed.

(** Every key of the committee is a validator's, or the aggregate is refused. *)
Lemma sync_committee_indices_cases s :
  (Forall (fun pk => pk ∈ v_pubkey <$> validators s) (sc_pubkeys (al_current_sync_committee s)) /\
   exists idxs, sync_committee_indices s = Ok idxs /\
     Forall2 (fun pk i => 0 <= i /\ v_pubkey <$> validators s !! Z.to_nat i = Some pk)
       (sc_pubkeys (al_current_sync_committee s)) idxs) \/
  (~ Forall (fun pk => pk ∈ v_pubkey <$> validators s) (sc_pubkeys (al_current_sync_committee s)) /\
   sync_committee_indices s = Err InvalidSyncCommittee).
Proof.
  unfold sync_committee_indices. set (m := pubkey_to_index (validators s)).
  induction (sc_pubkeys (al_current_sync_committee s)) as [|pk pks IH]; [left; split; [constructor|exists []; done]|].
  cbn [mapM]. destruct (pubkey_to_index_spec (validators s) pk) as [Hs Hc]. fold m in Hs, Hc.
  destruct (m !! pk) as [i|] eqn:Hi; cbn [ok_or mbind result_bind].
  - destruct (Hs i eq_refl) as [Hi0 Hk].
    destruct IH as [[Hall (idxs & Hm & Hf)]|[Hall Hm] ]; rewrite Hm; cbn.
    + left. split; [constructor; [|done]|exists (i :: idxs); split; [done|by constructor]].
      apply fmap_Some in Hk as (v & Hv & ->). by apply list_elem_of_fmap_2, (list_elem_of_lookup_2 _ (Z.to_nat i)).
    + right. split; [|done]. by intros [_ ?]%Forall_cons.
  - right. split; [|done]. intros [Hin _]%Forall_cons. destruct (Hc Hin). done.
Qed.
(** ** Subnets and subcommittees *)
Lemma subnet_set_spec (pk : bytes) size entries (acc : gset Z) x :
  x ∈ foldl (fun acc '(i, k) => if bool_decide (k = pk) then {[ i / size ]} ∪ acc else acc) acc entries <->
  x ∈ acc \/ exists i, (i, pk) ∈ entries /\ x = i / size.
Proof.
  revert acc. induction entries as [|[i k] entries IH]; intros acc; cbn [foldl].
  { split; [by left|]. intros [?|(i & []%elem_of_nil & _)]. done. }
  rewrite IH. setoid_rewrite elem_of_cons. destruct (bool_decide_reflect (k = pk)) as [->|Hne].
  - rewrite elem_of_union, elem_of_singleton. split.
    + intros [[->|?]|(j & ? & ->)]; [right; exists i; tauto|by left|right; exists j; tauto].
    + intros [?|(j & [[= ->]|?] & ->)]; [tauto|tauto|right; eauto].
  - split; [intros [?|(j & ? & ->)]; [by left|right; exists j; tauto]|].
    intros [?|(j & [[= -> ->]|?] & ->)]; [by left|done|right; eauto].
Qed.

Lemma subcommittee_slice (l : list bytes) k size count pk :
  0 < size -> 0 <= k < count -> zlen l = count * size -> count * size <= 2 ^ 20 ->
  pk ∈ match slice (E:=unit) l (wmul k size) (wadd (wmul k size) size) with Ok x => x | _ => [] end <->
  exists i, 0 <= i /\ l !! Z.to_nat i = Some pk /\ i / size = k.
Proof.
  intros Hs Hk Hl Hc. assert (0 <= k * size /\ k * size + size <= count * size) by nia.
  rewrite (wmul_small k), wadd_small by (unfold U64; nia).
  destruct (slice l (k * size) (k * size + size)) as [x|u|] eqn:Hx;
    [|by apply slice_not_Err in Hx|exfalso; eapply (slice_no_panic (E:=unit) l); [| |exact Hx]; lia].
  apply slice_Ok_iff in Hx as (_ & _ & ->). rewrite list_elem_of_lookup. split.
  - intros (j & Hj). rewrite lookup_take_Some, lookup_drop in Hj. destruct Hj as [Hj Hlt].
    exists (Z.of_nat (Z.to_nat (k * size) + j)). split; [lia|]. rewrite Nat2Z.id. split; [done|].
    symmetry. apply (Z.div_unique_pos _ _ _ (Z.of_nat j)); lia.
  - intros (i & Hi & Hli & <-). pose proof (Z.div_mod i size ltac:(lia)). pose proof (Z.mod_pos_bound i size Hs).
    exists (Z.to_nat (i mod size)). rewrite lookup_take_Some, lookup_drop. split; [|lia]. rewrite <-Hli. f_equal. nia.
Qed.
(** The subnets a validator sends its sync messages to are, in ascending order and
    without repetition, those whose subcommittee has its key: the duty and the check
    of a received message agree. *)
Theorem subnets_are_subcommittees current next sl pk :
  zlen current = SYNC_COMMITTEE_SIZE -> zlen next = SYNC_COMMITTEE_SIZE ->
  StronglySorted Z.lt (compute_subnets_for_sync_committee current next sl pk) /\
  forall x, x ∈ compute_subnets_for_sync_committee current next sl pk <->
    0 <= x < SYNC_COMMITTEE_SUBNET_COUNT /\ pk ∈ get_sync_subcommittee_pubkeys current next sl x.
Proof.
  intros Hc Hn. unfold compute_subnets_for_sync_committee, get_sync_subcommittee_pubkeys. cbv zeta.
  set (l := sync_pubkeys_at current next sl). set (size := SYNC_COMMITTEE_SIZE / SYNC_COMMITTEE_SUBNET_COUNT).
  assert (zlen l = SYNC_COMMITTEE_SIZE) as Hl by (unfold l, sync_pubkeys_at; by case_match).
  pose proof sync_size. destruct sync_subnets as [Hk Hmod].
  assert (SYNC_COMMITTEE_SIZE = SYNC_COMMITTEE_SUBNET_COUNT * size) as Hsz.
  { assert (SYNC_COMMITTEE_SUBNET_COUNT <> 0) as Hnz by lia. unfold size.
    pose proof (Z.div_mod SYNC_COMMITTEE_SIZE SYNC_COMMITTEE_SUBNET_COUNT Hnz). lia. }
  assert (0 < size) by nia. set (subnets := foldl _ _ _). split.
  - assert (NoDup (merge_sort Z.le (elements subnets))) as Hnd by (rewrite merge_sort_Permutation; apply NoDup_elements).
    pose proof (StronglySorted_merge_sort Z.le (elements subnets)) as Hs.
    induction Hs as [|x xs Hs IH Hx]; [constructor|]. apply NoDup_cons in Hnd as [Hx' Hnd]. constructor; [by apply IH|].
    rewrite Forall_forall in *. intros y Hy. specialize (Hx y Hy). assert (x <> y) by (by intros ->). lia.
  - intros x. rewrite merge_sort_Permutation, elem_of_elements. unfold subnets. rewrite subnet_set_spec.
    setoid_rewrite elem_of_enumerate. split.
    + intros [[]%elem_of_empty|(i & [Hi Hli] & ->)]. pose proof (lookup_lt_Some _ _ _ Hli) as Hlt.
      assert (0 <= i / size < SYNC_COMMITTEE_SUBNET_COUNT) as Hx.
      { split; [apply Z.div_pos; lia|]. apply Z.div_lt_upper_bound; unfold zlen in Hl; lia. }
      split; [done|]. destruct (Z.leb_spec SYNC_COMMITTEE_SUBNET_COUNT (i / size)); [lia|].
      apply (subcommittee_slice l _ size SYNC_COMMITTEE_SUBNET_COUNT); [done..|lia|lia|]. eauto.
    + intros [Hx Hin]. destruct (Z.leb_spec SYNC_COMMITTEE_SUBNET_COUNT x); [lia|].
      apply (subcommittee_slice l _ size SYNC_COMMITTEE_SUBNET_COUNT) in Hin as (i & Hi & Hli & <-); [|done..|lia|lia].
      right. eauto.
Qed.
End sync_rewards.

(** ** Example *)
Definition ex_attested : AltairState :=
  ex_altair 9 [ex_member 1 Byte.x01 32 u64_max u64_max; ex_member 2 Byte.x01 16 u64_max u64_max]
    [32000000000; 16000000000].
Definition ex_counted : list counted_attestation :=
  [mkCountedAttestation [1] [0; 1] true; mkCountedAttestation [0; 1] [0; 1; 2] true].

(** Two attestations of validator 1: the second is paid for its head flag only. *)
Lemma attestation_rewards_once_witness :
  exists s', foldM (@reward_step minimal 10) ex_counted (ex_attested, 0) = Ok (s', 25920) /\
    25920 = (@total_flag_value minimal s' 10 - @total_flag_value minimal ex_attested 10) mod U64 /\
    flagged s' true 1 2 = true.
Proof.
  eexists. split; [vm_compute; reflexivity|].
  edestruct (@attestation_rewards_once minimal ex_attested 10 ex_counted) as [Hv Hf];
    [|vm_compute; reflexivity|].
  - repeat constructor; vm_compute; congruence.
  - split; [exact Hv|]. vm_compute. reflexivity.
Defined.
