(* ===== verification/Electra.v ===== *)
(** * Electra: balances, churn, exits and slashing

    crates/pharos-stf/src/electra/helpers.rs: the accessors and mutators that
    Electra (EIP-7251) changes.  Exits and consolidations are limited by the
    balance that leaves per epoch rather than by the number of validators. *)

From Stdlib Require Import ZArith Lia.
From S2P Require Import Prelude SszCodec SszBitfield SszTypes Merkle Shuffling Spec BeaconState Invariant Roots Accessors Mutators Justification Rewards EpochUpdates Forks ForkInvariant Altair.

(** ** Withdrawal credentials: the first byte of the 32 *)
Definition credential_prefix (withdrawal_credentials : bytes) (b : byte) : bool :=
  bool_decide (withdrawal_credentials !! 0%nat = Some b).
Definition has_eth1_withdrawal_credential (v : Validator) : bool :=
  credential_prefix (v_withdrawal_credentials v) Byte.x01.
Definition is_compounding_withdrawal_credential (withdrawal_credentials : bytes) : bool :=
  credential_prefix withdrawal_credentials Byte.x02.
Definition has_compounding_withdrawal_credential (v : Validator) : bool :=
  is_compounding_withdrawal_credential (v_withdrawal_credentials v).
Definition has_execution_withdrawal_credential (v : Validator) : bool :=
  has_eth1_withdrawal_credential v || has_compounding_withdrawal_credential v.

(** [bls.G2_POINT_AT_INFINITY], the signature of a deposit nobody signed. *)
Definition G2_POINT_AT_INFINITY : bytes := Byte.xc0 :: replicate 95 Byte.x00.

Definition v_with_credentials (v : Validator) (creds : bytes) : Validator :=
  mkValidator (v_pubkey v) creds (v_effective_balance v) (v_slashed v)
    (v_activation_eligibility_epoch v) (v_activation_epoch v) (v_exit_epoch v)
    (v_withdrawable_epoch v).

Section electra.
  Context `{Crypto} `{S : BeaconSpec} `{F : ForkSpec} `{Aggregation}.
  Implicit Types s : ElectraState.
  Local Abbreviation outcome := (result StateTransitionError ElectraState).

Definition get_current_epoch_electra s : Z := compute_epoch_at_slot (slot s) SLOTS_PER_EPOCH.

Definition get_total_active_balance_electra s : Z :=
  let current_epoch := compute_epoch_at_slot (slot s) SLOTS_PER_EPOCH in
  let sum := wsum (v_effective_balance <$>
    filter (fun v => is_active_validator v current_epoch = true) (validators s)) in
  Z.max sum EFFECTIVE_BALANCE_INCREMENT.

Definition el_set_balance s (index val : Z) : outcome :=
  bs ← map_err (fun _ => IndexOutOfRange index) (list_with_set (balances s) index val);
  Ok (el_with_base s (with_balances s bs)).

Definition decrease_balance_electra s (index delta : Z) : outcome :=
  let cur := default 0 (balances s !! Z.to_nat index) in
  el_set_balance s index (if cur <? delta then 0 else cur - delta).

Definition increase_balance_electra s (index delta : Z) : outcome :=
  let cur := default 0 (balances s !! Z.to_nat index) in
  el_set_balance s index (sat_add cur delta).

Definition el_set_validator s (index : Z) (v : Validator) : outcome :=
  vs ← map_err Ssz (list_with_set (validators s) index v);
  Ok (el_with_base s (with_validators s vs)).

(** ** Sampling with 16-bit random values *)

(** One candidate: the shuffled index at counter [i] and whether its balance
    passes the random value. *)
Definition candidate_electra (effective_balance_of : Z -> result StateTransitionError Z)
    (indices : list Z) (seed : bytes) (i : Z) : result StateTransitionError (Z * bool) :=
  let total := zlen indices in
  if total =? 0 then Panic
  else
    shuffled ← compute_shuffled_index sha256 (i mod total) total seed SHUFFLE_ROUND_COUNT;
    candidate ← Prelude.index indices shuffled;
    let random_bytes := sha256 (seed ++ to_le_bytes 8 (i / 16)) in
    let offset := (i mod 16) * 2 in
    part ← slice random_bytes offset (offset + 2);
    let random_value := from_le_bytes part in
    effective_balance ← effective_balance_of candidate;
    Ok (candidate, wmul MAX_EFFECTIVE_BALANCE_ELECTRA random_value
                   <=? wmul effective_balance 65535).

Definition compute_proposer_index_electra s (indices : list Z) (seed : bytes)
    : result StateTransitionError Z :=
  if zlen indices =? 0 then Panic
  else
    let effective_balance_of i := v ← expect (validators s !! Z.to_nat i); Ok (v_effective_balance v) in
    match loop_upto (2 ^ 64)%positive (fun i =>
        match candidate_electra effective_balance_of indices seed i with
        | Ok (candidate, true) => inr (Ok candidate)
        | Ok (_, false) => inl (wadd i 1)
        | Err e => inr (Err e)
        | Panic => inr Panic
        end) 0 with
    | inr r => r
    | inl _ => Panic
    end.

Definition get_beacon_proposer_index_electra s : result StateTransitionError Z :=
  let epoch := get_current_epoch s in
  let seed_base := get_seed s epoch DOMAIN_BEACON_PROPOSER in
  let seed := sha256 (seed_base ++ to_le_bytes 8 (slot s)) in
  compute_proposer_index_electra s (get_active_validator_indices s epoch) seed.

Definition get_seed_electra s (epoch : Z) (domain_type : bytes) : bytes :=
  get_seed_altair s epoch domain_type.

Definition get_next_sync_committee_indices_electra s : result StateTransitionError (list Z) :=
  let current_epoch := compute_epoch_at_slot (slot s) SLOTS_PER_EPOCH in
  let epoch := wadd current_epoch 1 in
  let active := active_indices_at s epoch in
  if zlen active =? 0 then Ok []
  else
    let seed := get_seed_electra s epoch DOMAIN_SYNC_COMMITTEE in
    let effective_balance_of i := Ok (default 0 (v_effective_balance <$> validators s !! Z.to_nat i)) in
    sample_committee (candidate_electra effective_balance_of active seed).

Definition get_next_sync_committee_electra s : result StateTransitionError SyncCommittee :=
  indices ← get_next_sync_committee_indices_electra s; committee_of s indices.

(** ** Churn as balance *)
Definition get_max_effective_balance (v : Validator) : Z :=
  if has_compounding_withdrawal_credential v then MAX_EFFECTIVE_BALANCE_ELECTRA
  else MIN_ACTIVATION_BALANCE.

Definition get_balance_churn_limit_electra s : Z :=
  let total_active := get_total_active_balance_electra s in
  let churn := Z.max MIN_PER_EPOCH_CHURN_LIMIT_ELECTRA (total_active / CHURN_LIMIT_QUOTIENT) in
  churn - churn mod EFFECTIVE_BALANCE_INCREMENT.

Definition get_activation_exit_churn_limit_electra s : Z :=
  Z.min MAX_PER_EPOCH_ACTIVATION_EXIT_CHURN_LIMIT (get_balance_churn_limit_electra s).

Definition get_consolidation_churn_limit_electra s : Z :=
  get_balance_churn_limit_electra s - get_activation_exit_churn_limit_electra s.

Definition get_pending_balance_to_withdraw_electra s (validator_index : Z) : Z :=
  wsum (ppw_amount <$> filter (fun w => ppw_validator_index w = validator_index)
          (el_pending_partial_withdrawals s)).

(** The churn step both kinds of exit share: [earliest] and [to_consume] are the
    recorded epoch and the balance left in it, [churn] the balance per epoch.  The
    result is the epoch assigned and the balance left in it. *)
Definition churn_step (activation_exit_epoch churn earliest to_consume balance : Z)
    : result StateTransitionError (Z * Z) :=
  let epoch := Z.max earliest activation_exit_epoch in
  let available := if earliest <? epoch then churn else to_consume in
  '(epoch, available) ←
    (if available <? balance then
       let balance_to_process := balance - available in
       q ← rdiv (balance_to_process - 1) churn;
       let additional_epochs := wadd q 1 in
       Ok (wadd epoch additional_epochs, wadd available (wmul additional_epochs churn))
     else Ok (epoch, available));
  Ok (epoch, wsub available balance).

Definition compute_exit_epoch_and_update_churn_electra s (exit_balance : Z)
    : result StateTransitionError (ElectraState * Z) :=
  let current_epoch := compute_epoch_at_slot (slot s) SLOTS_PER_EPOCH in
  let activation_exit_epoch := wadd (wadd current_epoch 1) MAX_SEED_LOOKAHEAD in
  let per_epoch_churn := get_activation_exit_churn_limit_electra s in
  '(epoch, rest) ← churn_step activation_exit_epoch per_epoch_churn
                     (el_earliest_exit_epoch s) (el_exit_balance_to_consume s) exit_balance;
  Ok (el_with_earliest_exit_epoch (el_with_exit_balance_to_consume s rest) epoch, epoch).

Definition compute_consolidation_epoch_and_update_churn_electra s (consolidation_balance : Z)
    : result StateTransitionError (ElectraState * Z) :=
  let current_epoch := compute_epoch_at_slot (slot s) SLOTS_PER_EPOCH in
  let activation_exit_epoch := wadd (wadd current_epoch 1) MAX_SEED_LOOKAHEAD in
  let per_epoch_consolidation_churn := get_consolidation_churn_limit_electra s in
  '(epoch, rest) ← churn_step activation_exit_epoch per_epoch_consolidation_churn
                     (el_earliest_consolidation_epoch s) (el_consolidation_balance_to_consume s)
                     consolidation_balance;
  Ok (el_with_earliest_consolidation_epoch
        (el_with_consolidation_balance_to_consume s rest) epoch, epoch).

(** ** Compounding *)
Definition el_push_pending_deposit s (d : PendingDeposit) : outcome :=
  l ← map_err Ssz (list_with_push MAX_PENDING_DEPOSITS_LIMIT (el_pending_deposits s) d);
  Ok (el_with_pending_deposits s l).

Definition queue_excess_active_balance_electra s (index : Z) : outcome :=
  let balance := default 0 (balances s !! Z.to_nat index) in
  if MIN_ACTIVATION_BALANCE <? balance then
    let excess_balance := balance - MIN_ACTIVATION_BALANCE in
    bs ← map_err Ssz (list_with_set (balances s) index MIN_ACTIVATION_BALANCE);
    let s := el_with_base s (with_balances s bs) in
    v ← ok_or (validators s !! Z.to_nat index) SlotOutOfRange;
    el_push_pending_deposit s
      (mkPendingDeposit (v_pubkey v) (v_withdrawal_credentials v) excess_balance
         G2_POINT_AT_INFINITY 0)
  else Ok s.

Definition switch_to_compounding_validator_electra s (index : Z) : outcome :=
  v ← ok_or (validators s !! Z.to_nat index) SlotOutOfRange;
  let creds := <[0%nat := Byte.x02]> (v_withdrawal_credentials v) in
  s ← el_set_validator s index (v_with_credentials v creds);
  queue_excess_active_balance_electra s index.

(** ** Exits and slashing *)
Definition initiate_validator_exit_electra s (index : Z) : outcome :=
  v ← ok_or (validators s !! Z.to_nat index) SlotOutOfRange;
  if negb (v_exit_epoch v =? FAR_FUTURE_EPOCH) then Ok s
  else
    '(s, exit_queue_epoch) ← compute_exit_epoch_and_update_churn_electra s (v_effective_balance v);
    withdrawable_epoch ←
      ok_or (checked_add exit_queue_epoch MIN_VALIDATOR_WITHDRAWABILITY_DELAY) SlotOutOfRange;
    v ← ok_or (validators (el_deneb s) !! Z.to_nat index) SlotOutOfRange;
    el_set_validator s index (v_with_exit v exit_queue_epoch withdrawable_epoch).

Definition slash_validator_electra s (slashed_index : Z) (whistleblower_index : option Z)
    (proposer_override : option Z) : outcome :=
  let epoch := compute_epoch_at_slot (slot s) SLOTS_PER_EPOCH in
  s ← initiate_validator_exit_electra s slashed_index;
  v ← ok_or (validators (el_deneb s) !! Z.to_nat slashed_index) SlotOutOfRange;
  let effective_balance := v_effective_balance v in
  let new_withdrawable_epoch :=
    Z.max (v_withdrawable_epoch v) (wadd epoch EPOCHS_PER_SLASHINGS_VECTOR) in
  s ← el_set_validator s slashed_index (v_with_slashed v new_withdrawable_epoch);
  let slashing_slot := epoch mod EPOCHS_PER_SLASHINGS_VECTOR in
  let cur_slashing := default 0 (slashings (el_deneb s) !! Z.to_nat slashing_slot) in
  s ← el_on (fun b => set_slashing b slashing_slot (sat_add cur_slashing effective_balance)) s;
  let penalty := effective_balance / MIN_SLASHING_PENALTY_QUOTIENT_ELECTRA in
  s ← decrease_balance_electra s slashed_index penalty;
  proposer_index ← match proposer_override with
                   | Some p => Ok p
                   | None => get_beacon_proposer_index_electra s
                   end;
  let whistleblower_idx := default proposer_index whistleblower_index in
  let whistleblower_reward := effective_balance / WHISTLEBLOWER_REWARD_QUOTIENT_ELECTRA in
  let proposer_reward := wmul whistleblower_reward PROPOSER_WEIGHT / WEIGHT_DENOMINATOR in
  s ← increase_balance_electra s proposer_index proposer_reward;
  increase_balance_electra s whistleblower_idx (wsub whistleblower_reward proposer_reward).

(** ** Withdrawal predicates and the deposit signature *)
Definition is_fully_withdrawable_validator_electra (v : Validator) (balance epoch : Z) : bool :=
  has_execution_withdrawal_credential v && (v_withdrawable_epoch v <=? epoch) && (0 <? balance).

Definition is_partially_withdrawable_validator_electra (v : Validator) (balance : Z) : bool :=
  let max_effective_balance := get_max_effective_balance v in
  has_execution_withdrawal_credential v && (v_effective_balance v =? max_effective_balance)
  && (max_effective_balance <? balance).

Definition is_eligible_for_partial_withdrawals_electra (v : Validator) (balance : Z) : bool :=
  (v_exit_epoch v =? FAR_FUTURE_EPOCH) && (MIN_ACTIVATION_BALANCE <=? v_effective_balance v)
  && (MIN_ACTIVATION_BALANCE <? balance).

Definition is_valid_deposit_signature (pubkey withdrawal_credentials : bytes) (amount : Z)
    (signature : bytes) : result StateTransitionError bool :=
  domain ← compute_domain DOMAIN_DEPOSIT GENESIS_FORK_VERSION zero_chunk;
  signing_root ← compute_signing_root
                   (deposit_message_root (mkDepositMessage pubkey withdrawal_credentials amount)) domain;
  Ok (default false (bls_verify pubkey signing_root signature)).
End electra.

(** ** Churn *)

(** Arithmetic of one churn step, on plain integers: the whole epochs needed for
    what does not fit in the room left. *)
Lemma churn_epochs c x : 0 < c -> 0 < x -> let k := (x - 1) / c + 1 in 0 < k /\ x <= k * c < x + c.
Proof.
  cbn. intros Hc Hx. pose proof (Z.div_mod (x - 1) c ltac:(lia)). pose proof (Z.mod_pos_bound (x - 1) c Hc).
  pose proof (Z.div_pos (x - 1) c ltac:(lia) Hc). split; nia.
Qed.

Lemma churn_epochs_le c x : 0 < c -> 0 < x -> (x - 1) / c + 1 <= x.
Proof. intros Hc Hx. pose proof (Z.div_le_upper_bound (x - 1) c (x - 1) Hc ltac:(nia)). lia. Qed.

Section churn.
  Context `{Crypto} `{Sp : BeaconSpec} `{Fs : ForkSpec} `{!SpecOk Sp} `{!ForkSpecOk Sp Fs}.
  Implicit Types s : ElectraState.

(** The epoch an exit is assigned and the room left in it: the room used and the
    room left add up to what the epochs passed over offer, the epoch is not before
    [front], and no earlier epoch would do. *)
Lemma churn_step_Ok activation c earliest to_consume b :
  0 < c <= 2 ^ 60 -> 0 <= to_consume <= 2 ^ 60 -> 0 <= b <= 2 ^ 60 ->
  0 <= activation <= 2 ^ 62 -> 0 <= earliest <= 2 ^ 62 ->
  let front := Z.max earliest activation in
  let room := if earliest <? front then c else to_consume in
  exists e rest, churn_step activation c earliest to_consume b = Ok (e, rest) /\
    front <= e <= front + b /\ 0 <= rest <= Z.max room c /\ b + rest = room + c * (e - front) /\
    (front < e -> rest < c).
Proof.
  intros Hc Ht Hb Ha He. cbn zeta. set (front := Z.max earliest activation).
  set (room := if _ <? _ then _ else _).
  assert (0 <= room <= 2 ^ 60) by (unfold room; case_match; lia).
  assert (0 <= front <= 2 ^ 62) by lia.
  unfold churn_step. fold front. fold room.
  destruct (Z.ltb_spec room b) as [Hlt|Hge]; cbn.
  - unfold rdiv. destruct (Z.eqb_spec c 0); [lia|]. cbn.
    destruct (churn_epochs c (b - room)) as [Hk0 Hk]; [lia..|].
    pose proof (churn_epochs_le c (b - room) ltac:(lia) ltac:(lia)).
    set (k := (b - room - 1) / c + 1) in *.
    assert (wadd ((b - room - 1) / c) 1 = k) as -> by (apply wadd_small; unfold U64, k in *; lia).
    assert (k * c < U64) by (unfold U64; lia).
    rewrite (wmul_small k c) by lia.
    rewrite (wadd_small front), (wadd_small room), wsub_small by (unfold U64 in *; lia).
    eexists _, _. split; [done|]. split_and!; lia || nia.
  - rewrite wsub_small by (unfold U64; lia). eexists _, _. split; [done|]. split_and!; lia || nia.
Qed.

(** ** Exits in sequence *)
Definition activation_exit s : Z := get_current_epoch s + 1 + MAX_SEED_LOOKAHEAD.
Definition exit_front s : Z := Z.max (el_earliest_exit_epoch s) (activation_exit s).
Definition exit_room s : Z :=
  if el_earliest_exit_epoch s <? exit_front s then get_activation_exit_churn_limit_electra s
  else el_exit_balance_to_consume s.

Lemma activation_exit_value s :
  0 <= slot s < 2 ^ 61 ->
  wadd (wadd (compute_epoch_at_slot (slot s) SLOTS_PER_EPOCH) 1) MAX_SEED_LOOKAHEAD = activation_exit s /\
  0 < activation_exit s <= 2 ^ 61 /\ get_current_epoch s < activation_exit s.
Proof.
  intros Hs. pose proof slots_per_epoch_pos. pose proof seed_lookahead.
  unfold activation_exit, get_current_epoch, compute_epoch_at_slot.
  assert (0 <= slot s / SLOTS_PER_EPOCH <= 2 ^ 60).
  { split; [apply Z.div_pos; lia|]. apply Z.div_le_upper_bound; lia. }
  rewrite (wadd_small (slot s / SLOTS_PER_EPOCH) 1), wadd_small by (unfold U64; lia). lia.
Qed.

Lemma balance_churn_bounds s :
  MIN_PER_EPOCH_CHURN_LIMIT_ELECTRA <= get_balance_churn_limit_electra s.
Proof.
  unfold get_balance_churn_limit_electra. pose proof churn_electra. pose proof churn_electra_mod as Hm.
  pose proof increment_pos. set (churn := Z.max _ _).
  assert (MIN_PER_EPOCH_CHURN_LIMIT_ELECTRA <= churn) as Hle by (unfold churn; lia).
  assert (0 < EFFECTIVE_BALANCE_INCREMENT) as Hpos by lia.
  assert (EFFECTIVE_BALANCE_INCREMENT <> 0) as Hnz by lia.
  pose proof (Z.div_mod churn EFFECTIVE_BALANCE_INCREMENT Hnz).
  pose proof (Z.div_mod MIN_PER_EPOCH_CHURN_LIMIT_ELECTRA EFFECTIVE_BALANCE_INCREMENT Hnz).
  pose proof (Z.div_le_mono _ _ EFFECTIVE_BALANCE_INCREMENT Hpos Hle). nia.
Qed.

Lemma exit_churn_bounds s : 0 < get_activation_exit_churn_limit_electra s <= 2 ^ 40.
Proof.
  unfold get_activation_exit_churn_limit_electra. pose proof (balance_churn_bounds s).
  pose proof churn_electra. pose proof churn_electra_bound. pose proof increment_pos. lia.
Qed.

(** Replacing a validator by one with the same activity and balance leaves the
    active balance as it is. *)
Lemma active_balances_insert epoch (l : list Validator) i v w :
  l !! i = Some v -> is_active_validator w epoch = is_active_validator v epoch ->
  v_effective_balance w = v_effective_balance v ->
  v_effective_balance <$> filter (fun v => is_active_validator v epoch = true) (<[i := w]> l)
  = v_effective_balance <$> filter (fun v => is_active_validator v epoch = true) l.
Proof.
  intros Hi Ha Hb. revert i Hi. induction l as [|x l IH]; intros [|i] Hi; [done..| |]; cbn in Hi.
  - injection Hi as ->. cbn [insert list_insert]. rewrite !filter_cons, Ha. case_decide; [|done].
    by rewrite !fmap_cons, Hb.
  - cbn [insert list_insert]. rewrite !filter_cons. case_decide; [rewrite !fmap_cons; f_equal|]; auto.
Qed.

(** One exit: the validator's epochs, the churn fields and nothing else change. *)
Definition exited s (idx : Z) (v : Validator) (e rest : Z) : ElectraState :=
  let s1 := el_with_earliest_exit_epoch (el_with_exit_balance_to_consume s rest) e in
  el_with_base s1 (with_validators s1 (<[Z.to_nat idx := v_with_exit v e (e + MIN_VALIDATOR_WITHDRAWABILITY_DELAY)]> (validators s))).

(** What the epoch counters must satisfy for the exit epoch to stay in range. *)
Record exits_in_range s : Prop := {
  eir_slot : 0 <= slot s < 2 ^ 61;
  eir_epoch : 0 <= el_earliest_exit_epoch s <= 2 ^ 61;
  eir_room : 0 <= el_exit_balance_to_consume s <= 2 ^ 60;
}.

(** The epoch assigned to a balance that leaves, and the room left in it. *)
Lemma exit_epoch_Ok s b :
  exits_in_range s -> 0 <= b <= 2 ^ 60 ->
  exists e rest, compute_exit_epoch_and_update_churn_electra s b
      = Ok (el_with_earliest_exit_epoch (el_with_exit_balance_to_consume s rest) e, e) /\
    exit_front s <= e <= exit_front s + b /\ exit_front s <= 2 ^ 61 /\ 0 <= exit_front s /\
    0 <= rest <= Z.max (exit_room s) (get_activation_exit_churn_limit_electra s) /\
    b + rest = exit_room s + get_activation_exit_churn_limit_electra s * (e - exit_front s).
Proof.
  intros [Hsl He Hr] Hb. pose proof (exit_churn_bounds s).
  destruct (activation_exit_value s Hsl) as (Hae & Har & _).
  unfold compute_exit_epoch_and_update_churn_electra. rewrite Hae.
  destruct (churn_step_Ok (activation_exit s) (get_activation_exit_churn_limit_electra s)
    (el_earliest_exit_epoch s) (el_exit_balance_to_consume s) b)
    as (e & rest & -> & Hf & Hrest & Heq & _); [lia..|].
  fold (exit_front s) in Hf, Hrest, Heq. fold (exit_room s) in Hrest, Heq.
  assert (0 <= exit_front s <= 2 ^ 61) by (unfold exit_front; lia).
  exists e, rest. split_and!; try done; lia.
Qed.

Lemma initiate_exit_Ok s idx v :
  electra_ok s -> exits_in_range s -> 0 <= idx -> validators s !! Z.to_nat idx = Some v ->
  v_exit_epoch v = FAR_FUTURE_EPOCH ->
  exists e rest, initiate_validator_exit_electra s idx = Ok (exited s idx v e rest) /\
    exit_front s <= e <= exit_front s + v_effective_balance v /\
    0 <= rest <= Z.max (exit_room s) (get_activation_exit_churn_limit_electra s) /\
    v_effective_balance v + rest
      = exit_room s + get_activation_exit_churn_limit_electra s * (e - exit_front s).
Proof.
  intros Hs Hr Hi Hv Hx. unfold initiate_validator_exit_electra. rewrite Hv. cbn [ok_or mbind result_bind].
  rewrite Hx, Z.eqb_refl. cbn [negb].
  destruct (validator_within_at _ _ _ _ (electra_base s Hs) Hv) as [Hb _ _ _ _ _].
  pose proof electra_balance_bound. pose proof withdrawability_delay.
  destruct (exit_epoch_Ok s (v_effective_balance v) Hr ltac:(lia)) as (e & rest & -> & Hf & ? & ? & Hrest & Heq).
  cbn. unfold checked_add. destruct (Z.ltb_spec (e + MIN_VALIDATOR_WITHDRAWABILITY_DELAY) U64);
    [|unfold U64 in *; lia].
  cbn. rewrite Hv. cbn. unfold el_set_validator, list_with_set. cbn [validators].
  apply lookup_lt_Some in Hv as Hlt. cbn.
  destruct (Z.leb_spec (zlen (validators s)) idx) as [Hle|_]; [unfold zlen in Hle; lia|].
  exists e, rest. split; [done|]. split; [done|]. split; [lia|done].
Qed.

Lemma exited_same s idx v e rest :
  0 <= slot s < 2 ^ 61 -> validators s !! Z.to_nat idx = Some v -> v_exit_epoch v = FAR_FUTURE_EPOCH ->
  exit_front s <= e -> 
  get_activation_exit_churn_limit_electra (exited s idx v e rest) = get_activation_exit_churn_limit_electra s /\
  exit_front (exited s idx v e rest) = e /\ exit_room (exited s idx v e rest) = rest.
Proof.
  intros Hsl Hv Hx He.
  assert (activation_exit (exited s idx v e rest) = activation_exit s) as Ha by done.
  assert (exit_front (exited s idx v e rest) = e) as Hf.
  { unfold exit_front in *. rewrite Ha. change (el_earliest_exit_epoch (exited s idx v e rest)) with e. lia. }
  split_and!; [|done|].
  - unfold get_activation_exit_churn_limit_electra, get_balance_churn_limit_electra,
      get_total_active_balance_electra. cbn.
    rewrite (active_balances_insert _ _ _ v); [done|done| |done].
    destruct (activation_exit_value s Hsl) as (_ & ? & Hlt). unfold exit_front, activation_exit, get_current_epoch in *.
    unfold is_active_validator. cbn. rewrite Hx. unfold FAR_FUTURE_EPOCH, u64_max, U64.
    destruct (Z.ltb_spec (compute_epoch_at_slot (slot s) SLOTS_PER_EPOCH) e);
      destruct (Z.ltb_spec (compute_epoch_at_slot (slot s) SLOTS_PER_EPOCH) (2 ^ 64 - 1)); lia || done.
  - unfold exit_room. rewrite Hf. change (el_earliest_exit_epoch (exited s idx v e rest)) with e.
    by rewrite Z.ltb_irrefl.
Qed.

Lemma exited_ok s idx v e rest :
  electra_ok s -> validators s !! Z.to_nat idx = Some v -> 0 <= e <= 2 ^ 62 -> u64 rest ->
  electra_ok (exited s idx v e rest).
Proof.
  intros Hs Hv He Hr. pose proof withdrawability_delay.
  assert (electra_ok (el_with_earliest_exit_epoch (el_with_exit_balance_to_consume s rest) e)) as H1.
  { destruct Hs. constructor; cbn; auto. unfold u64, U64. lia. }
  unfold exited. apply electra_ok_base; [done| |cbn; apply length_insert].
  apply (base_ok_set_validator _ (el_with_earliest_exit_epoch (el_with_exit_balance_to_consume s rest) e));
    [by apply electra_base|].
  apply validator_within_exit; [|unfold u64, U64; lia..].
  eapply validator_within_at; [by apply electra_base|done].
Qed.

(** Effective balances of a list of validators, and whether one leaves by [e]. *)
Definition effective_at s (i : Z) : Z := default 0 (v_effective_balance <$> validators s !! Z.to_nat i).
Definition exits_by s (e i : Z) : bool :=
  match validators s !! Z.to_nat i with Some v => v_exit_epoch v <=? e | None => false end.
Definition leaving s' s (e : Z) (idxs : list Z) : Z :=
  zsum (effective_at s <$> filter (fun i => exits_by s' e i = true) idxs).

Lemma effective_at_nonneg s i : electra_ok s -> 0 <= effective_at s i.
Proof.
  intros Hs. unfold effective_at. destruct (validators s !! _) as [v|] eqn:Hv; cbn; [|done].
  by destruct (validator_within_at _ _ _ _ (electra_base s Hs) Hv) as [[? ?] _ _ _ _ _].
Qed.

(** What a run of exits from [s] to [s'] does. *)
Record exits_run s s' (idxs : list Z) : Prop := {
  er_ok : electra_ok s';
  er_front : exit_front s <= exit_front s';
  er_exits : forall i v, i ∈ idxs -> validators s !! Z.to_nat i = Some v ->
    exists e, validators s' !! Z.to_nat i = Some (v_with_exit v e (e + MIN_VALIDATOR_WITHDRAWABILITY_DELAY)) /\
      exit_front s <= e <= exit_front s';
  er_others : forall k, k ∉ Z.to_nat <$> idxs -> validators s' !! k = validators s !! k;
  er_churn : forall e, leaving s' s e idxs
    <= if e <? exit_front s then 0
       else exit_room s + get_activation_exit_churn_limit_electra s * (e - exit_front s);
}.

Lemma exits_run_cons s s1 s' idx v e rest idxs :
  exits_run s1 s' idxs -> s1 = exited s idx v e rest -> electra_ok s -> 0 <= slot s < 2 ^ 61 ->
  0 <= idx -> Z.to_nat idx ∉ Z.to_nat <$> idxs ->
  validators s !! Z.to_nat idx = Some v -> v_exit_epoch v = FAR_FUTURE_EPOCH ->
  exit_front s <= e -> 0 <= exit_room s ->
  v_effective_balance v + rest
    = exit_room s + get_activation_exit_churn_limit_electra s * (e - exit_front s) ->
  exits_run s s' (idx :: idxs).
Proof.
  intros [Hok Hfr Hex Hot Hch] -> Hs Hsl Hi Hni Hv Hx He Hroom Heq.
  destruct (exited_same s idx v e rest Hsl Hv Hx He) as (Hc & Hf & Hr). rewrite Hc, Hf, Hr in *.
  set (s1 := exited s idx v e rest) in *.
  assert (validators s1 = <[Z.to_nat idx := v_with_exit v e (e + MIN_VALIDATOR_WITHDRAWABILITY_DELAY)]> (validators s))
    as Hv1 by done.
  assert (validators s' !! Z.to_nat idx = Some (v_with_exit v e (e + MIN_VALIDATOR_WITHDRAWABILITY_DELAY))) as Hself.
  { rewrite Hot by done. rewrite Hv1. apply list_lookup_insert_eq. by eapply lookup_lt_Some. }
  assert (forall i, i ∈ idxs -> validators s1 !! Z.to_nat i = validators s !! Z.to_nat i) as Hsame.
  { intros i Hin. rewrite Hv1. apply list_lookup_insert_ne. intros Hne. apply Hni. rewrite Hne.
    by apply list_elem_of_fmap_2. }
  split; [done|lia|..].
  - intros i u [->|Hin]%elem_of_cons Hu.
    + rewrite Hv in Hu. injection Hu as <-. exists e. split; [done|lia].
    + rewrite <-Hsame in Hu by done. destruct (Hex i u Hin Hu) as (e' & ? & ?). exists e'. split; [done|lia].
  - intros k [Hk1 Hk2]%not_elem_of_cons. rewrite Hot by done. rewrite Hv1. by apply list_lookup_insert_ne.
  - intros e'. specialize (Hch e').
    assert (leaving s' s e' (idx :: idxs)
      = (if e <=? e' then v_effective_balance v else 0) + leaving s' s1 e' idxs) as ->.
    { assert (exits_by s' e' idx = (e <=? e')) as Hby by (unfold exits_by; by rewrite Hself).
      unfold leaving. rewrite filter_cons.
      assert (effective_at s <$> filter (fun i => exits_by s' e' i = true) idxs
        = effective_at s1 <$> filter (fun i => exits_by s' e' i = true) idxs) as Heffs.
      { apply list_fmap_ext. intros k i [_ Hin]%list_elem_of_lookup_2%list_elem_of_filter.
        unfold effective_at. by rewrite Hsame. }
      case_decide as Hd; rewrite Hby in Hd; [rewrite Hd|].
      - rewrite fmap_cons, zsum_cons, Heffs. f_equal. unfold effective_at. by rewrite Hv.
      - apply not_true_is_false in Hd. rewrite Hd, Heffs. lia. }
    pose proof (exit_churn_bounds s).
    destruct (Z.leb_spec e e'), (Z.ltb_spec e' e), (Z.ltb_spec e' (exit_front s)); try lia; nia.
Qed.

Lemma exits_run_exists idxs s :
  electra_ok s -> 0 <= slot s < 2 ^ 61 -> 0 <= el_exit_balance_to_consume s <= 2 ^ 60 ->
  exit_front s + zsum (effective_at s <$> idxs) <= 2 ^ 61 -> NoDup (Z.to_nat <$> idxs) ->
  (forall i, i ∈ idxs -> 0 <= i /\ exists v, validators s !! Z.to_nat i = Some v /\ v_exit_epoch v = FAR_FUTURE_EPOCH) ->
  exists s', foldM initiate_validator_exit_electra idxs s = Ok s' /\ exits_run s s' idxs.
Proof.
  revert s. induction idxs as [|idx idxs IH]; intros s Hs Hsl Hrm Hfs Hnd Hin.
  { exists s. split; [done|]. split; [done|lia|by intros ? ? ?%not_elem_of_nil|done|].
    intros e. unfold leaving. cbn. pose proof (exit_churn_bounds s). unfold exit_room.
    destruct (Z.ltb_spec e (exit_front s)); [done|]. case_match; nia. }
  cbn [fmap list_fmap] in Hnd, Hfs. apply NoDup_cons in Hnd as [Hni Hnd].
  destruct (Hin idx) as (Hi & v & Hv & Hx); [left|].
  destruct (validator_within_at _ _ _ _ (electra_base s Hs) Hv) as [Hb _ _ _ _ _].
  assert (effective_at s idx = v_effective_balance v) as Hev by (unfold effective_at; by rewrite Hv).
  change (effective_at s idx :: list_fmap Z Z (effective_at s) idxs)
    with (effective_at s idx :: (effective_at s <$> idxs)) in Hfs.
  rewrite zsum_cons, Hev in Hfs.
  assert (0 <= zsum (effective_at s <$> idxs)) as Hpos.
  { apply zsum_nonneg, Forall_fmap, Forall_true. intros i. by apply effective_at_nonneg. }
  assert (exits_in_range s) as Hr.
  { destruct (eo_exit_epoch s Hs). split; [done| |done]. unfold exit_front in Hfs. lia. }
  destruct (initiate_exit_Ok s idx v Hs Hr Hi Hv Hx) as (e & rest & Hstep & He & Hrest & Heq).
  pose proof (exit_churn_bounds s).
  assert (0 <= exit_room s <= 2 ^ 60) by (unfold exit_room; case_match; lia).
  destruct (exited_same s idx v e rest Hsl Hv Hx ltac:(lia)) as (Hc & Hf & Hro).
  assert (0 <= exit_front s) by (unfold exit_front; destruct (eo_exit_epoch s Hs); lia).
  set (s1 := exited s idx v e rest) in *.
  assert (electra_ok s1) as Hs1 by (apply exited_ok; [done|done|lia|unfold u64, U64; lia]).
  assert (forall i, i ∈ idxs -> validators s1 !! Z.to_nat i = validators s !! Z.to_nat i) as Hsame.
  { intros i Hini. unfold s1. cbn. apply list_lookup_insert_ne. intros Hne. apply Hni. rewrite Hne.
    by apply list_elem_of_fmap_2. }
  assert (effective_at s1 <$> idxs = effective_at s <$> idxs) as Heff.
  { apply list_fmap_ext. intros k i Hk%list_elem_of_lookup_2. unfold effective_at. by rewrite Hsame. }
  destruct (IH s1) as (s' & Hfold & Hrun); [done|done|cbn; lia|rewrite Heff, Hf; lia|done| |].
  { intros i Hini. destruct (Hin i) as (? & u & ? & ?); [by right|]. split; [done|]. exists u.
    by rewrite Hsame. }
  exists s'. cbn [foldM]. rewrite Hstep. split; [exact Hfold|].
  by eapply exits_run_cons; [exact Hrun|done..|lia|lia|done].
Qed.
End churn.

(** C21: the exit queue of Electra limits the balance that leaves.  A sequence of
    exits of validators that have not begun to exit succeeds; each gets an exit
    epoch no earlier than the queue's front, becomes withdrawable
    [MIN_VALIDATOR_WITHDRAWABILITY_DELAY] epochs later, and nobody else changes.
    For every epoch [e], the effective balance that leaves by [e] is at most the
    room left in the front epoch plus one churn limit for each later epoch up to
    [e]. *)
Theorem exit_churn_respected `{Crypto} `{Sp : BeaconSpec} `{Fs : ForkSpec} `{!SpecOk Sp} `{!ForkSpecOk Sp Fs}
    (s : ElectraState) idxs :
  electra_ok s -> 0 <= slot s < 2 ^ 61 -> 0 <= el_exit_balance_to_consume s <= 2 ^ 60 ->
  exit_front s + zsum (effective_at s <$> idxs) <= 2 ^ 61 -> NoDup (Z.to_nat <$> idxs) ->
  (forall i, i ∈ idxs -> 0 <= i /\
     exists v, validators s !! Z.to_nat i = Some v /\ v_exit_epoch v = FAR_FUTURE_EPOCH) ->
  exists s', foldM initiate_validator_exit_electra idxs s = Ok s' /\ electra_ok s' /\
    (forall i v, i ∈ idxs -> validators s !! Z.to_nat i = Some v ->
       exists e, validators s' !! Z.to_nat i
                 = Some (v_with_exit v e (e + MIN_VALIDATOR_WITHDRAWABILITY_DELAY)) /\
         exit_front s <= e <= exit_front s') /\
    (forall k, k ∉ Z.to_nat <$> idxs -> validators s' !! k = validators s !! k) /\
    (forall e, leaving s' s e idxs
       <= if e <? exit_front s then 0
          else exit_room s + get_activation_exit_churn_limit_electra s * (e - exit_front s)).
Proof.
  intros Hs Hsl Hr Hf Hnd Hin.
  destruct (exits_run_exists idxs s Hs Hsl Hr Hf Hnd Hin) as (s' & Hs' & []). eauto 10.
Qed.

(** Three exits of 32 units under a churn limit of 64: two leave in epoch 7, the
    third in epoch 8. *)
Definition ex_exiting : ElectraState :=
  ex_electra 16 ((fun k => ex_member k Byte.x01 32 u64_max u64_max) <$> [0; 1; 2])
    [32000000000; 32000000000; 32000000000] [] [] [].

Lemma exit_churn_respected_witness :
  exists s', foldM (@initiate_validator_exit_electra minimal minimal_forks) [0; 1; 2] ex_exiting = Ok s' /\
    v_exit_epoch <$> validators s' = [7; 7; 8] /\
    @leaving s' ex_exiting 7 [0; 1; 2] <= 64000000000.
Proof.
  destruct (@exit_churn_respected ex_crypto minimal minimal_forks _ _ ex_exiting [0; 1; 2])
    as (s' & Hs' & _ & _ & _ & Hch).
  - apply ex_electra_ok; ex_ranges.
  - split; vm_compute; congruence || reflexivity.
  - split; vm_compute; congruence.
  - vm_compute; congruence.
  - apply (bool_decide_unpack _). vm_compute. exact I.
  - intros i Hi. repeat (apply elem_of_cons in Hi as [->|Hi]; [split; [done|by eexists]|]).
    by apply not_elem_of_nil in Hi.
  - exists s'. split; [exact Hs'|]. split; [|exact (Hch 7)].
    assert (ok_value ex_exiting (foldM (@initiate_validator_exit_electra minimal minimal_forks) [0; 1; 2] ex_exiting)
      = s') as <- by (by rewrite Hs').
    vm_compute. reflexivity.
Defined.
