(* ===== verification/Withdrawals.v ===== *)
(** * Electra withdrawals

    crates/pharos-stf/src/electra/operations/withdrawals.rs: the withdrawals a
    payload must contain (first the queue of requested partial withdrawals, then
    the sweep over the registry) and their application.

    Theorem [withdrawals_exact]: a payload is accepted exactly if it lists the
    expected withdrawals; then every balance falls by exactly what was withdrawn
    from it, no withdrawal exceeds what is left, and a validator that is not
    withdrawable keeps its minimum balance. *)

From Stdlib Require Import ZArith Lia.
From S2P Require Import Prelude SszCodec SszBitfield SszTypes Merkle Shuffling Spec BeaconState Invariant Roots Accessors Mutators Justification Rewards EpochUpdates Forks ForkInvariant Altair Electra.

Record Withdrawal : Type := mkWithdrawal {
  wd_index : Z;
  wd_validator_index : Z;
  wd_address : bytes;
  wd_amount : Z;
}.
#[global] Instance Withdrawal_eq_dec : EqDecision Withdrawal.
Proof. solve_decision. Defined.

Section withdrawals.
  Context `{BeaconSpec} `{ForkSpec}.
  Implicit Types s : ElectraState.

Definition withdrawn_from (validator_index : Z) (ws : list Withdrawal) : list Z :=
  wd_amount <$> filter (fun w => wd_validator_index w = validator_index) ws.

Definition get_balance_after_withdrawals_electra s (validator_index : Z) (ws : list Withdrawal) : Z :=
  let balance := default 0 (balances s !! Z.to_nat validator_index) in
  let withdrawn := wsum (withdrawn_from validator_index ws) in
  sat_sub balance withdrawn.

(** Bytes 12 to 32 of the credentials, a [Bytes32]. *)
Definition withdrawal_address (v : Validator) : bytes := take 20 (drop 12 (v_withdrawal_credentials v)).

(** The loop over the queue: withdrawals emitted so far, next index, entries
    examined; [break] returns. *)
Fixpoint partials_loop s (epoch withdrawals_limit : Z) (prior : list Withdrawal)
    (queue : list PendingPartialWithdrawal) (ws : list Withdrawal) (current_index processed : Z)
    : list Withdrawal * Z * Z :=
  match queue with
  | [] => (ws, current_index, processed)
  | pending :: queue =>
      let all_len := zlen prior + zlen ws in
      let is_withdrawable := ppw_withdrawable_epoch pending <=? epoch in
      let has_reached_limit := withdrawals_limit <=? all_len in
      if negb is_withdrawable || has_reached_limit then (ws, current_index, processed)
      else
        let validator_index := ppw_validator_index pending in
        match validators s !! Z.to_nat validator_index with
        | None =>
            partials_loop s epoch withdrawals_limit prior queue ws current_index (wadd processed 1)
        | Some v =>
            let balance := get_balance_after_withdrawals_electra s validator_index (prior ++ ws) in
            if is_eligible_for_partial_withdrawals_electra v balance then
              let amount := Z.min (balance - MIN_ACTIVATION_BALANCE) (ppw_amount pending) in
              partials_loop s epoch withdrawals_limit prior queue
                (ws ++ [mkWithdrawal current_index validator_index (withdrawal_address v) amount])
                (wadd current_index 1) (wadd processed 1)
            else
              partials_loop s epoch withdrawals_limit prior queue ws current_index (wadd processed 1)
        end
  end.

Definition get_pending_partial_withdrawals s (withdrawal_index : Z) (prior : list Withdrawal)
    : list Withdrawal * Z * Z :=
  let epoch := compute_epoch_at_slot (slot s) SLOTS_PER_EPOCH in
  let withdrawals_limit :=
    Z.min (sat_add (zlen prior) MAX_PENDING_PARTIALS_PER_WITHDRAWALS_SWEEP)
      (sat_sub MAX_WITHDRAWALS_PER_PAYLOAD 1) in
  partials_loop s epoch withdrawals_limit prior (el_pending_partial_withdrawals s) []
    withdrawal_index 0.

(** What the sweep pushes for one validator. *)
Definition sweep_withdrawal s (epoch : Z) (seen : list Withdrawal) (validator_index current_index : Z)
    : option Withdrawal :=
  match validators s !! Z.to_nat validator_index with
  | None => None
  | Some v =>
      let balance := get_balance_after_withdrawals_electra s validator_index seen in
      if is_fully_withdrawable_validator_electra v balance epoch then
        Some (mkWithdrawal current_index validator_index (withdrawal_address v) balance)
      else if is_partially_withdrawable_validator_electra v balance then
        Some (mkWithdrawal current_index validator_index (withdrawal_address v)
                (balance - get_max_effective_balance v))
      else None
  end.

Fixpoint sweep_loop s (epoch : Z) (prior : list Withdrawal) (turns : nat) (ws : list Withdrawal)
    (current_index validator_index processed : Z) : list Withdrawal * Z * Z :=
  match turns with
  | O => (ws, current_index, processed)
  | S turns =>
      if MAX_WITHDRAWALS_PER_PAYLOAD <=? zlen prior + zlen ws then (ws, current_index, processed)
      else
        let '(ws, current_index) :=
          match sweep_withdrawal s epoch (prior ++ ws) validator_index current_index with
          | Some w => (ws ++ [w], wadd current_index 1)
          | None => (ws, current_index)
          end in
        sweep_loop s epoch prior turns ws current_index
          (wadd validator_index 1 mod Z.max (num_validators s) 1) (wadd processed 1)
  end.

Definition get_validators_sweep_withdrawals_electra s (withdrawal_index : Z) (prior : list Withdrawal)
    : list Withdrawal * Z * Z :=
  let epoch := compute_epoch_at_slot (slot s) SLOTS_PER_EPOCH in
  let validators_limit := Z.min (num_validators s) MAX_VALIDATORS_PER_WITHDRAWALS_SWEEP in
  sweep_loop s epoch prior (Z.to_nat validators_limit) [] withdrawal_index
    (de_next_withdrawal_validator_index s) 0.

Definition get_expected_withdrawals_electra s : list Withdrawal * Z :=
  let '(partial_withdrawals, withdrawal_index, processed) :=
    get_pending_partial_withdrawals s (de_next_withdrawal_index s) [] in
  let '(sweep, _, _) :=
    get_validators_sweep_withdrawals_electra s withdrawal_index partial_withdrawals in
  (partial_withdrawals ++ sweep, processed).

Definition apply_withdrawals_electra s (ws : list Withdrawal) : result StateTransitionError ElectraState :=
  foldM (fun s w => decrease_balance_electra s (wd_validator_index w) (wd_amount w)) ws s.

Definition update_next_withdrawal_index_electra s (ws : list Withdrawal) : ElectraState :=
  match last ws with
  | Some latest => el_with_deneb s (de_with_next_withdrawal_index s (wadd (wd_index latest) 1))
  | None => s
  end.

Definition update_pending_partial_withdrawals s (processed : Z)
    : result StateTransitionError ElectraState :=
  if processed =? 0 then Ok s
  else
    let remaining := drop (Z.to_nat processed) (el_pending_partial_withdrawals s) in
    if MAX_PENDING_PARTIAL_WITHDRAWALS_LIMIT <? zlen remaining
    then Err (Ssz (ListLimitExceeded (zlen remaining) MAX_PENDING_PARTIAL_WITHDRAWALS_LIMIT))
    else Ok (el_with_pending_partial_withdrawals s remaining).

Definition update_next_withdrawal_validator_index_electra s (ws : list Withdrawal)
    : result StateTransitionError ElectraState :=
  let n := num_validators s in
  if n =? 0 then Ok s
  else if zlen ws =? MAX_WITHDRAWALS_PER_PAYLOAD then
    latest ← expect (last ws);
    Ok (el_with_deneb s (de_with_next_withdrawal_validator_index s
          (wadd (wd_validator_index latest) 1 mod n)))
  else
    let next_index :=
      wadd (de_next_withdrawal_validator_index s) MAX_VALIDATORS_PER_WITHDRAWALS_SWEEP in
    Ok (el_with_deneb s (de_with_next_withdrawal_validator_index s (next_index mod n))).

(** [payload.withdrawals] is all that is read of the payload. *)
Definition process_withdrawals_electra s (payload_withdrawals : list Withdrawal)
    : result StateTransitionError ElectraState :=
  let '(expected, processed) := get_expected_withdrawals_electra s in
  if negb (bool_decide (payload_withdrawals = expected)) then Err WithdrawalsMismatch
  else
    s ← apply_withdrawals_electra s expected;
    let s := update_next_withdrawal_index_electra s expected in
    s ← update_pending_partial_withdrawals s processed;
    update_next_withdrawal_validator_index_electra s expected.
End withdrawals.

(** ** Accounting *)
Section facts.
  Context `{Sp : BeaconSpec} `{Fs : ForkSpec} `{!SpecOk Sp} `{!ForkSpecOk Sp Fs}.
  Implicit Types s : ElectraState.
  Implicit Types ws : list Withdrawal.

(** What a list of withdrawals takes from a validator. *)
Definition withdrawn ws (i : Z) : Z := zsum (withdrawn_from i ws).
Definition balance_of s (i : Z) : Z := default 0 (balances s !! Z.to_nat i).

Lemma withdrawn_app ws ws' i : withdrawn (ws ++ ws') i = withdrawn ws i + withdrawn ws' i.
Proof. unfold withdrawn, withdrawn_from. by rewrite filter_app, fmap_app, zsum_app. Qed.

Lemma withdrawn_single w i :
  withdrawn [w] i = if decide (wd_validator_index w = i) then wd_amount w else 0.
Proof.
  unfold withdrawn, withdrawn_from. rewrite filter_cons, filter_nil.
  case_decide; cbn; lia.
Qed.

Lemma withdrawn_cons w ws i :
  withdrawn (w :: ws) i = (if decide (wd_validator_index w = i) then wd_amount w else 0) + withdrawn ws i.
Proof. change (w :: ws) with ([w] ++ ws). by rewrite withdrawn_app, withdrawn_single. Qed.

Lemma withdrawn_negative n ws i :
  Forall (fun w => 0 <= wd_validator_index w < n) ws -> i < 0 -> withdrawn ws i = 0.
Proof.
  intros Hw Hi. induction Hw as [|w ws Hw _ IH]; [done|].
  rewrite withdrawn_cons, decide_False by lia. lia.
Qed.

(** Withdrawals a state covers: they name validators, take nothing negative, and
    together no more than each balance. *)
Record covered s ws : Prop := {
  cov_index : Forall (fun w => 0 <= wd_validator_index w < num_validators s) ws;
  cov_amount : Forall (fun w => 0 <= wd_amount w) ws;
  cov_balance : forall i, withdrawn ws i <= balance_of s i;
}.

(** What a withdrawal leaves: all of it, the minimum balance at least, or nothing
    of a validator that is withdrawable in [epoch]. *)
Definition leaves s (epoch : Z) ws : Prop :=
  forall i v, 0 <= i -> validators s !! Z.to_nat i = Some v ->
    withdrawn ws i = 0 \/ MIN_ACTIVATION_BALANCE <= balance_of s i - withdrawn ws i \/
    (withdrawn ws i = balance_of s i /\ has_execution_withdrawal_credential v = true /\
     v_withdrawable_epoch v <= epoch).

Lemma withdrawn_nonneg ws i : Forall (fun w => 0 <= wd_amount w) ws -> 0 <= withdrawn ws i.
Proof.
  intros Ha. apply zsum_nonneg. unfold withdrawn_from. apply Forall_fmap.
  apply Forall_forall. intros w [_ Hw]%list_elem_of_filter. by eapply Forall_forall in Ha.
Qed.

Lemma balance_of_u64 s i : electra_ok s -> u64 (balance_of s i).
Proof.
  intros Hs. unfold balance_of. destruct (balances s !! _) as [b|] eqn:Hb; cbn; [|done].
  eapply balance_u64_at; [by apply electra_base|done].
Qed.

(** The balance the code computes is what is left; it never wraps. *)
Lemma balance_after s ws i :
  electra_ok s -> covered s ws ->
  get_balance_after_withdrawals_electra s i ws = balance_of s i - withdrawn ws i.
Proof.
  intros Hs Hc. pose proof (cov_balance s ws Hc i). pose proof (balance_of_u64 s i Hs) as [? ?].
  unfold get_balance_after_withdrawals_electra. rewrite wsum_no_wrap.
  - fold (withdrawn ws i). fold (balance_of s i). unfold sat_sub. lia.
  - unfold withdrawn_from. apply Forall_fmap, Forall_forall. intros w [_ Hw]%list_elem_of_filter.
    by eapply Forall_forall in Hw; [|apply (cov_amount s ws Hc)].
  - fold (withdrawn ws i). lia.
Qed.

Lemma covered_snoc s ws w :
  covered s ws -> 0 <= wd_validator_index w < num_validators s ->
  0 <= wd_amount w <= balance_of s (wd_validator_index w) - withdrawn ws (wd_validator_index w) ->
  covered s (ws ++ [w]).
Proof.
  intros [Hi Ha Hb] Hw Hle. split.
  - apply Forall_app. auto.
  - apply Forall_app. split; [done|]. constructor; [lia|done].
  - intros i. rewrite withdrawn_app, withdrawn_single. specialize (Hb i).
    case_decide; subst; lia.
Qed.

Lemma leaves_snoc s epoch ws w v :
  leaves s epoch ws -> 0 <= wd_validator_index w ->
  validators s !! Z.to_nat (wd_validator_index w) = Some v ->
  let rest := balance_of s (wd_validator_index w) - withdrawn ws (wd_validator_index w) - wd_amount w in
  MIN_ACTIVATION_BALANCE <= rest \/
  (rest = 0 /\ has_execution_withdrawal_credential v = true /\ v_withdrawable_epoch v <= epoch) ->
  leaves s epoch (ws ++ [w]).
Proof.
  cbn. intros Hl H0 Hv Hr i u Hi Hu. specialize (Hl i u Hi Hu).
  rewrite withdrawn_app, withdrawn_single. case_decide; [|by rewrite Z.add_0_r]. subst i.
  rewrite Hv in Hu. injection Hu as <-. right. destruct Hr as [|[? ?]]; [left; lia|right; split; [lia|done]].
Qed.

(** Indices count up from [first]. *)
Definition numbered (first : Z) ws : Prop := wd_index <$> ws = seqZ first (zlen ws).

Lemma numbered_nil first : numbered first [].
Proof. done. Qed.

Lemma numbered_snoc first ws w :
  numbered first ws -> wd_index w = first + zlen ws -> numbered first (ws ++ [w]).
Proof.
  unfold numbered. intros Hn Hw. rewrite fmap_app, Hn, zlen_app. change (zlen [w]) with 1.
  rewrite seqZ_app by (pose proof (zlen_nonneg ws); lia). f_equal. cbn. by rewrite Hw.
Qed.

Lemma in_registry s i v : 0 <= i -> validators s !! Z.to_nat i = Some v -> 0 <= i < num_validators s.
Proof.
  intros Hi Hv%lookup_lt_Some. unfold num_validators, zlen. lia.
Qed.

Lemma get_max_effective_bounds v :
  MIN_ACTIVATION_BALANCE <= get_max_effective_balance v <= MAX_EFFECTIVE_BALANCE_ELECTRA.
Proof.
  pose proof activation_balance. unfold get_max_effective_balance. case_match; lia.
Qed.

(** ** The two loops *)
Record loop_ok s (epoch first : Z) ws (next : Z) : Prop := {
  lo_covered : covered s ws;
  lo_leaves : leaves s epoch ws;
  lo_numbered : numbered first ws;
  lo_next : next = first + zlen ws;
}.

Lemma loop_ok_push s epoch first ws w v next limit :
  loop_ok s epoch first ws next -> 0 <= first -> zlen ws < limit -> first + limit < U64 ->
  0 <= wd_validator_index w -> validators s !! Z.to_nat (wd_validator_index w) = Some v ->
  wd_index w = next ->
  let left := balance_of s (wd_validator_index w) - withdrawn ws (wd_validator_index w) in
  0 <= wd_amount w <= left ->
  MIN_ACTIVATION_BALANCE <= left - wd_amount w \/
  (left - wd_amount w = 0 /\ has_execution_withdrawal_credential v = true /\ v_withdrawable_epoch v <= epoch) ->
  loop_ok s epoch first (ws ++ [w]) (wadd next 1).
Proof.
  cbn. intros [Hc Hl Hn ->] Hf Hlt Hu Hi Hv Hw Ha Hr. pose proof (zlen_nonneg ws). split.
  - apply covered_snoc; [done|by eapply in_registry|done].
  - by eapply leaves_snoc.
  - by apply numbered_snoc.
  - rewrite wadd_small by lia. rewrite zlen_app. change (zlen [w]) with 1. lia.
Qed.

(** The queue: the entries taken are a prefix, all of them due. *)
Lemma partials_loop_ok s epoch limit queue first ws next processed ws' next' processed' :
  electra_ok s -> Forall partial_ok queue -> 0 <= first -> first + limit < U64 ->
  0 <= processed -> processed + zlen queue < U64 ->
  loop_ok s epoch first ws next ->
  partials_loop s epoch limit [] queue ws next processed = (ws', next', processed') ->
  loop_ok s epoch first ws' next' /\ zlen ws' <= Z.max limit (zlen ws) /\
  exists k, 0 <= k <= zlen queue /\ processed' = processed + k /\
    Forall (fun p => ppw_withdrawable_epoch p <= epoch) (take (Z.to_nat k) queue) /\
    zlen ws' <= zlen ws + k.
Proof.
  intros Hs Hq Hf Hu. revert ws next processed.
  induction Hq as [|p queue Hp Hq IH]; intros ws next processed H0 Hpr Hlo; cbn [partials_loop].
  { intros [= <- <- <-]. split_and!; [done|lia|]. exists 0.
    pose proof (zlen_nonneg (@nil PendingPartialWithdrawal)). split_and!; [lia..|done|lia]. }
  rewrite zlen_cons in *. pose proof (zlen_nonneg queue).
  destruct (negb _ || _) eqn:Hb.
  { intros [= <- <- <-]. split_and!; [done|lia|]. exists 0. split_and!; [lia..|done|lia]. }
  change (zlen []) with 0 in Hb. zbool.
  assert (forall ws1 next1, loop_ok s epoch first ws1 next1 ->
    zlen ws <= zlen ws1 <= zlen ws + 1 -> zlen ws1 <= Z.max limit (zlen ws) ->
    partials_loop s epoch limit [] queue ws1 next1 (wadd processed 1) = (ws', next', processed') ->
    loop_ok s epoch first ws' next' /\ zlen ws' <= Z.max limit (zlen ws) /\
    exists k, 0 <= k <= 1 + zlen queue /\ processed' = processed + k /\
      Forall (fun p => ppw_withdrawable_epoch p <= epoch) (take (Z.to_nat k) (p :: queue)) /\
      zlen ws' <= zlen ws + k) as Hgo.
  { intros ws1 next1 Hlo1 Hz1 Hm1 Hr. rewrite wadd_small in Hr by lia.
    destruct (IH ws1 next1 (processed + 1)) as (? & ? & k & ? & ? & Hk & ?); [lia|lia|done|done|].
    split_and!; [done|lia|]. exists (k + 1). split_and!; [lia..| |lia].
    replace (Z.to_nat (k + 1)) with (S (Z.to_nat k)) by lia. cbn [take]. by constructor. }
  destruct Hp as (Hpi & Hpa & _).
  destruct (validators s !! _) as [v|] eqn:Hv; [|by apply Hgo; [done|lia..]].
  rewrite balance_after by (done || apply Hlo). cbn [app].
  destruct (is_eligible_for_partial_withdrawals_electra _ _) eqn:He; [|by apply Hgo; [done|lia..]].
  unfold is_eligible_for_partial_withdrawals_electra in He. zbool.
  destruct Hpi, Hpa. apply Hgo.
  - pose proof activation_balance. pose proof increment_pos.
    eapply (loop_ok_push s epoch first ws _ v next limit);
      [done|done|lia|done|cbn; lia|done|done|cbn; lia|cbn; lia].
  - rewrite zlen_app. change (zlen [_]) with 1. lia.
  - rewrite zlen_app. change (zlen [_]) with 1. lia.
Qed.

Lemma sweep_withdrawal_ok s epoch first all vi next w :
  electra_ok s -> loop_ok s epoch first all next -> 0 <= first -> zlen all < MAX_WITHDRAWALS_PER_PAYLOAD ->
  first + MAX_WITHDRAWALS_PER_PAYLOAD < U64 -> 0 <= vi ->
  sweep_withdrawal s epoch all vi next = Some w ->
  loop_ok s epoch first (all ++ [w]) (wadd next 1).
Proof.
  intros Hs Hlo Hf Hlt Hu Hvi. unfold sweep_withdrawal.
  destruct (validators s !! Z.to_nat vi) as [v|] eqn:Hv; [|done].
  rewrite balance_after by (done || apply Hlo).
  pose proof (cov_balance s all (lo_covered _ _ _ _ _ Hlo) vi).
  destruct (is_fully_withdrawable_validator_electra _ _ _) eqn:Hfull.
  { unfold is_fully_withdrawable_validator_electra in Hfull. zbool. intros [= <-].
    eapply (loop_ok_push s epoch first all _ v next MAX_WITHDRAWALS_PER_PAYLOAD);
      [done..|cbn; lia|right; cbn; split_and!; [lia|done|done]]. }
  destruct (is_partially_withdrawable_validator_electra _ _) eqn:Hpart; [|done].
  unfold is_partially_withdrawable_validator_electra in Hpart. zbool. intros [= <-].
  pose proof (get_max_effective_bounds v). pose proof activation_balance. pose proof increment_pos.
  eapply (loop_ok_push s epoch first all _ v next MAX_WITHDRAWALS_PER_PAYLOAD);
    [done..|cbn; lia|left; cbn; lia].
Qed.

Lemma sweep_loop_ok s epoch first prior turns ws next vi processed ws' next' processed' :
  electra_ok s -> 0 <= first -> first + MAX_WITHDRAWALS_PER_PAYLOAD < U64 -> 0 <= vi ->
  loop_ok s epoch first (prior ++ ws) next -> zlen (prior ++ ws) <= MAX_WITHDRAWALS_PER_PAYLOAD ->
  sweep_loop s epoch prior turns ws next vi processed = (ws', next', processed') ->
  loop_ok s epoch first (prior ++ ws') next' /\ zlen (prior ++ ws') <= MAX_WITHDRAWALS_PER_PAYLOAD.
Proof.
  intros Hs Hf Hu. revert ws next vi processed.
  induction turns as [|turns IH]; intros ws next vi processed Hvi Hlo Hz; cbn [sweep_loop].
  { intros [= <- <- <-]. done. }
  destruct (Z.leb_spec MAX_WITHDRAWALS_PER_PAYLOAD (zlen prior + zlen ws)) as [|Hlt].
  { intros [= <- <- <-]. done. }
  rewrite <-zlen_app in Hlt.
  assert (0 <= wadd vi 1 `mod` Z.max (num_validators s) 1) by (apply Z.mod_pos_bound; lia).
  destruct (sweep_withdrawal _ _ _ _ _) as [w|] eqn:Hw; apply IH; try done.
  - rewrite app_assoc. apply (sweep_withdrawal_ok s epoch first (prior ++ ws) vi); [done|done|done|lia|done|done|done].
  - rewrite app_assoc, zlen_app. change (zlen [w]) with 1. lia.
Qed.

(** ** The expected withdrawals *)
Definition next_index_ok s : Prop := de_next_withdrawal_index s + MAX_WITHDRAWALS_PER_PAYLOAD < U64.

Lemma expected_ok s ws processed :
  electra_ok s -> next_index_ok s -> get_expected_withdrawals_electra s = (ws, processed) ->
  (exists next, loop_ok s (get_current_epoch s) (de_next_withdrawal_index s) ws next) /\
  zlen ws <= MAX_WITHDRAWALS_PER_PAYLOAD /\
  0 <= processed <= zlen (el_pending_partial_withdrawals s) /\
  Forall (fun p => ppw_withdrawable_epoch p <= get_current_epoch s)
    (take (Z.to_nat processed) (el_pending_partial_withdrawals s)).
Proof.
  intros Hs Hn. unfold get_expected_withdrawals_electra, get_pending_partial_withdrawals.
  destruct (partials_loop _ _ _ _ _ _ _ _) as [[ps next] k] eqn:Hp.
  destruct (get_validators_sweep_withdrawals_electra _ _ _) as [[sw next'] k'] eqn:Hsw. intros [= <- <-].
  destruct (eo_withdrawal_index s Hs) as [Hi0 _]. unfold next_index_ok in Hn.
  pose proof withdrawals_per_payload. pose proof partials_per_sweep. pose proof pending_limits as [_ [? _]].
  pose proof (eo_partials_limit s Hs).
  assert (loop_ok s (get_current_epoch s) (de_next_withdrawal_index s) [] (de_next_withdrawal_index s)) as Hlo0.
  { split; [|by intros ? ? ? ?; left|done|unfold zlen; cbn; lia].
    split; [done..|]. intros i. pose proof (balance_of_u64 s i Hs) as [? ?]. done. }
  unfold get_current_epoch. set (epoch := compute_epoch_at_slot _ _) in *.
  change (get_current_epoch s) with epoch in Hlo0.
  set (limit := _ `min` _) in Hp.
  assert (limit < MAX_WITHDRAWALS_PER_PAYLOAD) as Hlim by (unfold limit, sat_sub; lia).
  destruct (partials_loop_ok s epoch limit _ (de_next_withdrawal_index s) [] _ 0 _ _ _ Hs (eo_partials s Hs)
    Hi0 ltac:(lia) ltac:(lia) ltac:(unfold U64; lia) Hlo0 Hp) as (Hlo & Hz & j & Hj & -> & Hdue & _).
  change (zlen []) with 0 in Hz.
  apply (sweep_loop_ok s epoch (de_next_withdrawal_index s)) in Hsw as [Hlo' Hz'];
    [|done|lia|lia|apply (eo_withdrawal_validator_index s Hs)|by rewrite app_nil_r|rewrite app_nil_r; lia].
  split_and!; eauto; lia.
Qed.

(** ** Their application *)
Definition settled (bs : list Z) ws : list Z :=
  imap (fun i b => b - withdrawn ws (Z.of_nat i)) bs.

Lemma settled_nil bs : settled bs [] = bs.
Proof.
  apply list_eq. intros i. unfold settled. rewrite list_lookup_imap.
  destruct (bs !! i); cbn; [|done]. f_equal. unfold withdrawn. cbn. lia.
Qed.

Lemma settled_cons bs w ws b :
  0 <= wd_validator_index w -> bs !! Z.to_nat (wd_validator_index w) = Some b ->
  settled (<[Z.to_nat (wd_validator_index w) := b - wd_amount w]> bs) ws = settled bs (w :: ws).
Proof.
  intros Hi Hb. apply list_eq. intros i. unfold settled. rewrite !list_lookup_imap.
  destruct (decide (i = Z.to_nat (wd_validator_index w))) as [->|Hne].
  - rewrite list_lookup_insert_eq by (by eapply lookup_lt_Some). rewrite Hb. cbn [fmap option_fmap option_map]. f_equal.
    rewrite withdrawn_cons, Z2Nat.id by done. rewrite decide_True by done. lia.
  - rewrite list_lookup_insert_ne by done. destruct (bs !! i); cbn [fmap option_fmap option_map]; [|done]. f_equal.
    rewrite withdrawn_cons, decide_False by lia. lia.
Qed.

Lemma decrease_covered s w ws b :
  electra_ok s -> covered s (w :: ws) -> balances s !! Z.to_nat (wd_validator_index w) = Some b ->
  decrease_balance_electra s (wd_validator_index w) (wd_amount w)
  = Ok (el_with_base s (with_balances s (<[Z.to_nat (wd_validator_index w) := b - wd_amount w]> (balances s)))).
Proof.
  intros Hs Hc Hb. unfold decrease_balance_electra. rewrite Hb. change (default 0 (Some b)) with b.
  pose proof (cov_balance _ _ Hc (wd_validator_index w)) as Hle. rewrite withdrawn_cons in Hle.
  rewrite decide_True in Hle by done. unfold balance_of in Hle. rewrite Hb in Hle. cbn in Hle.
  pose proof (cov_amount _ _ Hc) as Ha. inversion_clear Ha as [|? ? _ Ha'].
  pose proof (withdrawn_nonneg ws (wd_validator_index w) Ha').
  destruct (Z.ltb_spec b (wd_amount w)); [lia|]. unfold el_set_balance, list_with_set.
  assert (wd_validator_index w < zlen (balances s)).
  { apply lookup_lt_Some in Hb. unfold zlen. lia. }
  by destruct (Z.leb_spec (zlen (balances s)) (wd_validator_index w)); [lia|].
Qed.

Lemma el_with_balances_twice s bs bs' :
  el_with_base (el_with_base s (with_balances s bs)) (with_balances (el_with_base s (with_balances s bs)) bs')
  = el_with_base s (with_balances s bs').
Proof. done. Qed.

Lemma apply_covered s ws :
  electra_ok s -> covered s ws ->
  apply_withdrawals_electra s ws = Ok (el_with_base s (with_balances s (settled (balances s) ws))).
Proof.
  unfold apply_withdrawals_electra. revert s. induction ws as [|w ws IH]; intros s Hs Hc; cbn [foldM].
  { rewrite settled_nil. by destruct s as [[[[] ? ? ? ? ?] ? ? ? ?] ? ? ? ? ? ? ? ? ?]. }
  pose proof (electra_base s Hs) as Hbase.
  destruct Hc as [Hi Ha Hcb] eqn:Hceq. pose proof Hc as Hc'. clear Hceq. inversion Hi as [|? ? Hi0 Hi']; subst.
  inversion Ha as [|? ? Ha0 Ha']; subst.
  assert (is_Some (balances s !! Z.to_nat (wd_validator_index w))) as [b Hb].
  { apply lookup_lt_is_Some_2. rewrite (bo_balances_length _ _ Hbase).
    unfold num_validators, zlen in Hi0. lia. }
  rewrite (decrease_covered s w ws b) by done. cbn [mbind result_bind].
  set (s1 := el_with_base _ _).
  assert (forall i, balance_of s1 i = if decide (Z.to_nat (wd_validator_index w) = Z.to_nat i)
                                      then b - wd_amount w else balance_of s i) as Hb1.
  { intros i. unfold balance_of, s1. cbn. case_decide as Heq.
    - rewrite <-Heq, list_lookup_insert_eq by (by eapply lookup_lt_Some). done.
    - by rewrite list_lookup_insert_ne. }
  pose proof (Hcb (wd_validator_index w)) as Hself. rewrite withdrawn_cons, decide_True in Hself by done.
  unfold balance_of in Hself. rewrite Hb in Hself. cbn in Hself.
  pose proof (withdrawn_nonneg ws (wd_validator_index w) Ha').
  assert (covered s1 ws) as Hc1.
  { split; [done..|]. intros i. rewrite Hb1. case_decide as Heq.
    - destruct (decide (0 <= i)); [assert (i = wd_validator_index w) as -> by lia; lia|].
      rewrite (withdrawn_negative (num_validators s) ws i Hi') by lia. lia.
    - pose proof (Hcb i) as Hbi. rewrite withdrawn_cons in Hbi. case_decide; lia. }
  assert (electra_ok s1) as Hs1.
  { apply electra_ok_base; [done| |done]. apply base_ok_set_balance; [done|].
    pose proof (balance_u64_at _ _ _ _ Hbase Hb) as [? ?].
    split; lia. }
  rewrite (IH s1 Hs1 Hc1). f_equal. unfold s1. cbn [balances].
  rewrite el_with_balances_twice. do 2 f_equal. by apply settled_cons; [lia|].
Qed.

Lemma settled_total n bs ws :
  n <= zlen bs -> Forall (fun w => 0 <= wd_validator_index w < n) ws ->
  zsum (settled bs ws) = zsum bs - zsum (wd_amount <$> ws).
Proof.
  intros Hn Hw. revert bs Hn. induction Hw as [|w ws Hw _ IH]; intros bs Hn.
  { rewrite settled_nil. cbn. lia. }
  assert (is_Some (bs !! Z.to_nat (wd_validator_index w))) as [b Hb].
  { apply lookup_lt_is_Some_2. unfold zlen in Hn. lia. }
  rewrite <-(settled_cons bs w ws b) by (done || lia). rewrite IH by (by rewrite zlen_insert).
  rewrite (zsum_insert _ _ b) by done. rewrite fmap_cons, zsum_cons. lia.
Qed.

Lemma settled_lookup bs ws i b :
  0 <= i -> bs !! Z.to_nat i = Some b -> settled bs ws !! Z.to_nat i = Some (b - withdrawn ws i).
Proof.
  intros Hi Hb. unfold settled. rewrite list_lookup_imap, Hb. cbn [fmap option_fmap option_map].
  by rewrite Z2Nat.id.
Qed.

Lemma settled_ok s ws : electra_ok s -> covered s ws -> Forall u64 (settled (balances s) ws).
Proof.
  intros Hs Hc. apply Forall_lookup_2. intros i b' Hb'. unfold settled in Hb'.
  rewrite list_lookup_imap in Hb'. destruct (balances s !! i) as [b|] eqn:Hb; [|done].
  cbn [fmap option_fmap option_map] in Hb'. injection Hb' as <-.
  pose proof (cov_balance s ws Hc (Z.of_nat i)) as Hle. unfold balance_of in Hle.
  rewrite Nat2Z.id, Hb in Hle. change (default 0 (Some b)) with b in Hle.
  pose proof (withdrawn_nonneg ws (Z.of_nat i) (cov_amount s ws Hc)).
  pose proof (balance_u64_at _ _ _ _ (electra_base s Hs) Hb) as [? ?]. split; lia.
Qed.

(** The counters after a block's withdrawals. *)
Lemma next_index_after s first ws :
  numbered first ws -> 0 <= first -> first + zlen ws < U64 -> de_next_withdrawal_index s = first ->
  update_next_withdrawal_index_electra s ws
  = el_with_deneb s (de_with_next_withdrawal_index s (first + zlen ws)).
Proof.
  intros Hn Hi Hu Hf. unfold update_next_withdrawal_index_electra. destruct (last ws) as [w|] eqn:Hl.
  - assert (wd_index w = first + zlen ws - 1) as ->.
    { unfold numbered in Hn. apply last_Some in Hl as [l ->].
      rewrite fmap_app, zlen_app in Hn. change (zlen [w]) with 1 in Hn.
      rewrite seqZ_app in Hn by (pose proof (zlen_nonneg l); lia).
      apply app_inj_2 in Hn as [_ Hn]; [|done]. rewrite zlen_app. change (zlen [w]) with 1.
      unfold seqZ in Hn. cbn [fmap list_fmap Z.to_nat Pos.to_nat Pos.iter_op seq] in Hn.
      injection Hn as Hn. lia. }
    pose proof (zlen_nonneg ws). rewrite wadd_small by lia. do 2 f_equal. lia.
  - apply last_None in Hl as ->. change (zlen []) with 0. rewrite Z.add_0_r, <-Hf.
    by destruct s as [[] ? ? ? ? ? ? ? ? ?].
Qed.

Lemma partials_after s processed :
  electra_ok s -> 0 <= processed ->
  update_pending_partial_withdrawals s processed
  = Ok (el_with_pending_partial_withdrawals s
          (drop (Z.to_nat processed) (el_pending_partial_withdrawals s))).
Proof.
  intros Hs Hp. unfold update_pending_partial_withdrawals.
  destruct (Z.eqb_spec processed 0) as [->|]; [by destruct s|].
  pose proof (eo_partials_limit s Hs) as Hl. unfold zlen in *. rewrite length_drop.
  by destruct (Z.ltb_spec MAX_PENDING_PARTIAL_WITHDRAWALS_LIMIT
    (Z.of_nat (length (el_pending_partial_withdrawals s) - Z.to_nat processed))); [lia|].
Qed.

Lemma sweep_cursor_after s ws :
  0 < num_validators s -> exists c, 0 <= c < num_validators s /\
    update_next_withdrawal_validator_index_electra s ws
    = Ok (el_with_deneb s (de_with_next_withdrawal_validator_index s c)).
Proof.
  intros Hn. unfold update_next_withdrawal_validator_index_electra.
  destruct (Z.eqb_spec (num_validators s) 0); [lia|].
  destruct (Z.eqb_spec (zlen ws) MAX_WITHDRAWALS_PER_PAYLOAD) as [Hz|].
  - destruct (last ws) as [w|] eqn:Hl.
    + cbn. eexists. split; [|done]. by apply Z.mod_pos_bound.
    + apply last_None in Hl as ->. change (zlen []) with 0 in Hz. pose proof withdrawals_per_payload. lia.
  - eexists. split; [|done]. by apply Z.mod_pos_bound.
Qed.

(** The state after the expected withdrawals, with the sweep cursor at [c]. *)
Definition after_withdrawals s ws (k c : Z) : ElectraState :=
  mkElectraState
    (mkDenebState (al_with_base s (with_balances s (settled (balances s) ws)))
       (de_latest_execution_payload_header s) (de_next_withdrawal_index s + zlen ws) c
       (de_historical_summaries s))
    (el_deposit_requests_start_index s) (el_deposit_balance_to_consume s)
    (el_exit_balance_to_consume s) (el_earliest_exit_epoch s) (el_consolidation_balance_to_consume s)
    (el_earliest_consolidation_epoch s) (el_pending_deposits s)
    (drop (Z.to_nat k) (el_pending_partial_withdrawals s)) (el_pending_consolidations s).

Lemma withdrawals_applied s ws k next :
  electra_ok s -> next_index_ok s -> 0 < num_validators s ->
  get_expected_withdrawals_electra s = (ws, k) ->
  loop_ok s (get_current_epoch s) (de_next_withdrawal_index s) ws next ->
  zlen ws <= MAX_WITHDRAWALS_PER_PAYLOAD -> 0 <= k <= zlen (el_pending_partial_withdrawals s) ->
  exists c, 0 <= c < num_validators s /\
    process_withdrawals_electra s ws = Ok (after_withdrawals s ws k c).
Proof.
  intros Hs Hx Hn He Hlo Hz Hk. pose proof (lo_covered _ _ _ _ _ Hlo) as Hc.
  unfold process_withdrawals_electra. rewrite He, bool_decide_true by done. cbn [negb].
  rewrite apply_covered by done. cbn [mbind result_bind].
  set (s1 := el_with_base s _).
  assert (electra_ok s1) as Hs1.
  { apply electra_ok_base; [done| |done]. apply base_ok_balances; [by apply electra_base|..].
    - apply length_imap.
    - by apply settled_ok. }
  unfold next_index_ok in Hx. destruct (eo_withdrawal_index s Hs) as [Hi _].
  rewrite (next_index_after s1 (de_next_withdrawal_index s)) by (done || lia || apply Hlo).
  set (s2 := el_with_deneb s1 _).
  assert (electra_ok s2) as Hs2.
  { destruct Hs1. constructor; cbn in *; auto. split; pose proof (zlen_nonneg ws); lia. }
  rewrite partials_after by (done || lia). cbn [mbind result_bind].
  destruct (sweep_cursor_after (el_with_pending_partial_withdrawals s2
    (drop (Z.to_nat k) (el_pending_partial_withdrawals s2))) ws) as (c & Hcr & ->); [done|].
  by exists c.
Qed.

Lemma withdrawals_applied_ok s ws k c next :
  electra_ok s -> next_index_ok s -> loop_ok s (get_current_epoch s) (de_next_withdrawal_index s) ws next ->
  zlen ws <= MAX_WITHDRAWALS_PER_PAYLOAD -> 0 <= c < num_validators s ->
  electra_ok (after_withdrawals s ws k c).
Proof.
  intros Hs Hx Hlo Hz Hcr. pose proof (lo_covered _ _ _ _ _ Hlo) as Hc.
  pose proof (electra_base s Hs) as Hb. unfold next_index_ok in Hx.
  assert (altair_ok MAX_EFFECTIVE_BALANCE_ELECTRA (al_with_base s (with_balances s (settled (balances s) ws)))).
  { apply altair_ok_base; [apply Hs| |done]. apply base_ok_balances; [done|apply length_imap|].
    by apply settled_ok. }
  pose proof (zlen_nonneg ws). pose proof registry_limit.
  pose proof (bo_registry_limit _ _ Hb) as Hrl. unfold num_validators in Hcr.
  destruct Hs. constructor; cbn; auto.
  - destruct eo_withdrawal_index. split; lia.
  - unfold u64, U64. lia.
  - unfold zlen in *. rewrite length_drop. lia.
  - by apply Forall_drop.
Qed.
End facts.

(** ** The theorem *)

(** C15: a payload passes [process_withdrawals_electra] exactly if it lists the
    expected withdrawals.  They are at most [MAX_WITHDRAWALS_PER_PAYLOAD], numbered
    consecutively from the state's counter.  Applying them takes from every balance
    exactly the amounts listed for it (no withdrawal exceeds what is left, so no
    amount is lost to the clamp at zero), and leaves a validator untouched, or with
    at least [MIN_ACTIVATION_BALANCE], or with nothing if it is fully withdrawable.
    The processed requests, all of them due, leave the front of the queue, the
    counters advance, and the state stays well formed. *)
Theorem withdrawals_exact `{Sp : BeaconSpec} `{Fs : ForkSpec} `{!SpecOk Sp} `{!ForkSpecOk Sp Fs}
    (s : ElectraState) payload :
  electra_ok s -> next_index_ok s -> 0 < num_validators s ->
  let ws := (get_expected_withdrawals_electra s).1 in
  let processed := (get_expected_withdrawals_electra s).2 in
  zlen ws <= MAX_WITHDRAWALS_PER_PAYLOAD /\
  wd_index <$> ws = seqZ (de_next_withdrawal_index s) (zlen ws) /\
  leaves s (get_current_epoch s) ws /\
  Forall (fun p => ppw_withdrawable_epoch p <= get_current_epoch s)
    (take (Z.to_nat processed) (el_pending_partial_withdrawals s)) /\
  (payload <> ws -> process_withdrawals_electra s payload = Err WithdrawalsMismatch) /\
  exists s', process_withdrawals_electra s ws = Ok s' /\ electra_ok s' /\
    validators s' = validators s /\
    (forall i b, 0 <= i -> balances s !! Z.to_nat i = Some b ->
       balances s' !! Z.to_nat i = Some (b - withdrawn ws i) /\ 0 <= withdrawn ws i <= b) /\
    zsum (balances s') = zsum (balances s) - zsum (wd_amount <$> ws) /\
    el_pending_partial_withdrawals s' = drop (Z.to_nat processed) (el_pending_partial_withdrawals s) /\
    de_next_withdrawal_index s' = de_next_withdrawal_index s + zlen ws /\
    0 <= de_next_withdrawal_validator_index s' < num_validators s.
Proof.
  intros Hs Hx Hn. destruct (get_expected_withdrawals_electra s) as [ws k] eqn:He. cbn [fst snd].
  destruct (expected_ok s ws k Hs Hx He) as ((next & Hlo) & Hz & Hk & Hdue).
  pose proof (lo_covered _ _ _ _ _ Hlo) as Hc.
  split_and!; [done|apply (lo_numbered _ _ _ _ _ Hlo)|apply (lo_leaves _ _ _ _ _ Hlo)|done| |].
  { intros Hne. unfold process_withdrawals_electra. rewrite He. by rewrite bool_decide_false. }
  destruct (withdrawals_applied s ws k next Hs Hx Hn He Hlo Hz Hk) as (c & Hcr & Hp).
  eexists. split; [exact Hp|]. split; [|split_and!].
  - by eapply withdrawals_applied_ok.
  - done.
  - intros i b Hi Hb. split; [by apply settled_lookup|].
    pose proof (cov_balance s ws Hc i) as Hle. unfold balance_of in Hle. rewrite Hb in Hle.
    change (default 0 (Some b)) with b in Hle.
    pose proof (withdrawn_nonneg ws i (cov_amount s ws Hc)). lia.
  - apply (settled_total (num_validators s)); [|apply Hc].
    unfold num_validators, zlen. rewrite (bo_balances_length _ _ (electra_base s Hs)). lia.
  - done.
  - done.
  - apply Hcr.
  - apply Hcr.
Qed.

(** Three validators: a compounding one with a due request of 5 units, one that is
    fully withdrawable and one with an excess of one unit; a second request is not
    due yet. *)
Definition ex_withdrawing : ElectraState :=
  ex_electra 16
    [ex_member 0 Byte.x02 40 u64_max u64_max; ex_member 1 Byte.x01 32 1 2;
     ex_member 2 Byte.x01 32 u64_max u64_max]
    [40000000000; 31000000000; 33000000000] []
    [mkPendingPartialWithdrawal 0 5000000000 2; mkPendingPartialWithdrawal 0 1000000000 3] [].

Lemma withdrawals_exact_witness :
  let ws := (@get_expected_withdrawals_electra minimal minimal_forks ex_withdrawing).1 in
  (wd_validator_index <$> ws, wd_amount <$> ws)
    = ([0; 1; 2], [5000000000; 31000000000; 1000000000]) /\
  exists s', @process_withdrawals_electra minimal minimal_forks ex_withdrawing ws = Ok s' /\
    zsum (balances s') = zsum (balances ex_withdrawing) - zsum (wd_amount <$> ws).
Proof.
  cbn zeta. split; [vm_compute; reflexivity|].
  destruct (@withdrawals_exact minimal minimal_forks _ _ ex_withdrawing [])
    as (_ & _ & _ & _ & _ & s' & Hp & _ & _ & _ & Hsum & _).
  - apply ex_electra_ok; ex_ranges.
  - vm_compute. reflexivity.
  - vm_compute. reflexivity.
  - exists s'. split; [exact Hp|exact Hsum].
Defined.
