(* ===== verification/ElectraQueues.v ===== *)
(** * Electra: deposits, consolidations and the requests that queue them

    crates/pharos-stf/src/electra/operations (deposit, deposit_request,
    withdrawal_request, consolidation_request, voluntary_exit) and
    electra/epoch (pending_deposits, pending_consolidations).

    A pubkey-to-index [HashMap] is a [gmap]; [registry_index] is the map both users
    build, first entry wins.

    Theorem [consolidations_exact]: the queue of consolidations is taken in order and
    moves balance without creating or losing any.  The theorems on pending deposits
    and on withdrawal requests are in PendingDeposits and ElectraRequests. *)

From stdpp Require Import gmap.
From Stdlib Require Import ZArith Lia.
From S2P Require Import Prelude SszCodec SszBitfield SszTypes Merkle Shuffling Spec BeaconState Invariant Roots Accessors Mutators Justification Rewards EpochUpdates Operations Forks ForkInvariant Altair Electra Withdrawals.

(** ** Requests of the execution layer *)
Record DepositRequest : Type := mkDepositRequest {
  dr_pubkey : bytes;
  dr_withdrawal_credentials : bytes;
  dr_amount : Z;
  dr_signature : bytes;
  dr_index : Z;
}.

Record WithdrawalRequest : Type := mkWithdrawalRequest {
  wr_source_address : bytes;
  wr_validator_pubkey : bytes;
  wr_amount : Z;
}.

Record ConsolidationRequest : Type := mkConsolidationRequest {
  cr_source_address : bytes;
  cr_source_pubkey : bytes;
  cr_target_pubkey : bytes;
}.

(** [GENESIS_SLOT] marks a deposit of the deposit contract's tree. *)
Definition GENESIS_SLOT : Z := 0.

(** [validators.iter().position(|v| v.pubkey == pubkey)]. *)
Definition position_in (vs : list Validator) (pubkey : bytes) : option nat :=
  fst <$> list_find (fun v => v_pubkey v = pubkey) vs.

(** [entry(k).or_insert(i)]. *)
Definition or_insert (m : gmap bytes nat) (k : bytes) (i : nat) : gmap bytes nat :=
  match m !! k with Some _ => m | None => <[k := i]> m end.

(** The loop over [validators.iter().enumerate()]. *)
Definition registry_index (vs : list Validator) : gmap bytes nat :=
  foldl (fun m iv => or_insert m (v_pubkey iv.2) iv.1) ∅ (zip (seq 0 (length vs)) vs).

Section queues.
  Context `{Crypto} `{S : BeaconSpec} `{F : ForkSpec}.
  Implicit Types s : ElectraState.
  Local Abbreviation outcome := (result StateTransitionError ElectraState).

(** ** deposit.rs *)
Definition get_validator_from_deposit_electra (pubkey withdrawal_credentials : bytes) (amount : Z)
    : Validator :=
  let v := mkValidator pubkey withdrawal_credentials 0 false FAR_FUTURE_EPOCH FAR_FUTURE_EPOCH
             FAR_FUTURE_EPOCH FAR_FUTURE_EPOCH in
  let max_effective_balance := get_max_effective_balance v in
  v_with_effective_balance v
    (Z.min (amount - amount mod EFFECTIVE_BALANCE_INCREMENT) max_effective_balance).

Definition al_push_participation (a : AltairState) : result StateTransitionError AltairState :=
  previous ← map_err Ssz (list_with_push VALIDATOR_REGISTRY_LIMIT (al_previous_epoch_participation a) 0);
  let a := al_with_previous_epoch_participation a previous in
  current ← map_err Ssz (list_with_push VALIDATOR_REGISTRY_LIMIT (al_current_epoch_participation a) 0);
  let a := al_with_current_epoch_participation a current in
  scores ← map_err Ssz (list_with_push VALIDATOR_REGISTRY_LIMIT (al_inactivity_scores a) 0);
  Ok (al_with_inactivity_scores a scores).

Definition add_validator_to_registry_electra s (pubkey withdrawal_credentials : bytes) (amount : Z)
    : outcome :=
  let v := get_validator_from_deposit_electra pubkey withdrawal_credentials amount in
  s ← el_on (fun b => push_validator b v) s;
  s ← el_on (fun b => push_balance b amount) s;
  el_on_altair al_push_participation s.

Definition apply_deposit_electra s (pubkey withdrawal_credentials : bytes) (amount : Z)
    (signature : bytes) (verify_signatures : bool) : outcome :=
  let pending := mkPendingDeposit pubkey withdrawal_credentials amount signature GENESIS_SLOT in
  match position_in (validators s) pubkey with
  | Some _ => el_push_pending_deposit s pending
  | None =>
      sig_ok ← (if verify_signatures
                then is_valid_deposit_signature pubkey withdrawal_credentials amount signature
                else Ok true);
      if sig_ok : bool then
        s ← add_validator_to_registry_electra s pubkey withdrawal_credentials 0;
        el_push_pending_deposit s pending
      else Ok s
  end.

Definition process_deposit_electra s (deposit : Deposit) (verify_signatures : bool) : outcome :=
  leaf ← root_value (deposit_data_root (dep_data deposit));
  let depth := DEPOSIT_CONTRACT_TREE_DEPTH + 1 in
  if negb (is_valid_merkle_branch leaf (dep_proof deposit) depth (eth1_deposit_index s)
             (e1_deposit_root (eth1_data s)))
  then Err (InvalidDeposit InvalidMerkleProof)
  else
    let s := el_with_base s (increment_eth1_deposit_index s) in
    apply_deposit_electra s (dd_pubkey (dep_data deposit))
      (dd_withdrawal_credentials (dep_data deposit)) (dd_amount (dep_data deposit))
      (dd_signature (dep_data deposit)) verify_signatures.

(** ** deposit_request.rs *)
Definition process_deposit_request s (r : DepositRequest) : outcome :=
  let s := if el_deposit_requests_start_index s =? UNSET_DEPOSIT_REQUESTS_START_INDEX
           then el_with_deposit_requests_start_index s (dr_index r) else s in
  el_push_pending_deposit s
    (mkPendingDeposit (dr_pubkey r) (dr_withdrawal_credentials r) (dr_amount r) (dr_signature r)
       (slot s)).

(** ** withdrawal_request.rs *)

Definition process_withdrawal_request s (r : WithdrawalRequest) : outcome :=
  let amount := wr_amount r in
  let is_full_exit_request := amount =? FULL_EXIT_REQUEST_AMOUNT in
  if (zlen (el_pending_partial_withdrawals s) =? MAX_PENDING_PARTIAL_WITHDRAWALS_LIMIT)
     && negb is_full_exit_request
  then Ok s
  else
    match position_in (validators s) (wr_validator_pubkey r) with
    | None => Ok s
    | Some i =>
        let index := Z.of_nat i in
        v ← ok_or (validators s !! i) SlotOutOfRange;
        if negb (has_execution_withdrawal_credential v
                 && bool_decide (drop 12 (v_withdrawal_credentials v) = wr_source_address r))
        then Ok s
        else
          let current_epoch := compute_epoch_at_slot (slot s) SLOTS_PER_EPOCH in
          if negb (is_active_validator v current_epoch) then Ok s
          else if negb (v_exit_epoch v =? FAR_FUTURE_EPOCH) then Ok s
          else if current_epoch <? wadd (v_activation_epoch v) SHARD_COMMITTEE_PERIOD then Ok s
          else
            let pending_balance_to_withdraw := get_pending_balance_to_withdraw_electra s index in
            if is_full_exit_request then
              if pending_balance_to_withdraw =? 0 then initiate_validator_exit_electra s index
              else Ok s
            else
              let balance := default 0 (balances s !! i) in
              let has_sufficient_effective_balance :=
                MIN_ACTIVATION_BALANCE <=? v_effective_balance v in
              let has_excess_balance :=
                wadd MIN_ACTIVATION_BALANCE pending_balance_to_withdraw <? balance in
              if has_compounding_withdrawal_credential v && has_sufficient_effective_balance
                 && has_excess_balance
              then
                let to_withdraw :=
                  Z.min (wsub (wsub balance MIN_ACTIVATION_BALANCE) pending_balance_to_withdraw)
                    amount in
                '(s, exit_queue_epoch) ← compute_exit_epoch_and_update_churn_electra s to_withdraw;
                let withdrawable_epoch :=
                  wadd exit_queue_epoch MIN_VALIDATOR_WITHDRAWABILITY_DELAY in
                let pending := mkPendingPartialWithdrawal index to_withdraw withdrawable_epoch in
                l ← map_err Ssz (list_with_push MAX_PENDING_PARTIAL_WITHDRAWALS_LIMIT
                                   (el_pending_partial_withdrawals s) pending);
                Ok (el_with_pending_partial_withdrawals s l)
              else Ok s
    end.

(** ** consolidation_request.rs *)
Definition is_valid_switch_to_compounding_request s (r : ConsolidationRequest)
    (pubkey_to_index : gmap bytes nat) : bool :=
  if negb (bool_decide (cr_source_pubkey r = cr_target_pubkey r)) then false
  else
    match pubkey_to_index !! cr_source_pubkey r with
    | None => false
    | Some source_index =>
        match validators s !! source_index with
        | None => false
        | Some v =>
            if negb (bool_decide (drop 12 (v_withdrawal_credentials v) = cr_source_address r)) then false
            else if negb (has_eth1_withdrawal_credential v) then false
            else
              let current_epoch := compute_epoch_at_slot (slot s) SLOTS_PER_EPOCH in
              if negb (is_active_validator v current_epoch) then false
              else if negb (v_exit_epoch v =? FAR_FUTURE_EPOCH) then false
              else true
        end
    end.

Definition process_consolidation_request s (r : ConsolidationRequest) : outcome :=
  let pubkey_to_index := registry_index (validators s) in
  if is_valid_switch_to_compounding_request s r pubkey_to_index then
    source_index ← ok_or (pubkey_to_index !! cr_source_pubkey r) SlotOutOfRange;
    switch_to_compounding_validator_electra s (Z.of_nat source_index)
  else if bool_decide (cr_source_pubkey r = cr_target_pubkey r) then Ok s
  else if zlen (el_pending_consolidations s) =? MAX_PENDING_CONSOLIDATIONS_LIMIT then Ok s
  else if get_consolidation_churn_limit_electra s <=? MIN_ACTIVATION_BALANCE then Ok s
  else
    match pubkey_to_index !! cr_source_pubkey r, pubkey_to_index !! cr_target_pubkey r with
    | Some source_index, Some target_index =>
        source ← ok_or (validators s !! source_index) SlotOutOfRange;
        target ← ok_or (validators s !! target_index) SlotOutOfRange;
        let current_epoch := compute_epoch_at_slot (slot s) SLOTS_PER_EPOCH in
        if negb (has_execution_withdrawal_credential source
                 && bool_decide (drop 12 (v_withdrawal_credentials source) = cr_source_address r))
        then Ok s
        else if negb (has_compounding_withdrawal_credential target) then Ok s
        else if negb (is_active_validator source current_epoch) then Ok s
        else if negb (is_active_validator target current_epoch) then Ok s
        else if negb (v_exit_epoch source =? FAR_FUTURE_EPOCH) then Ok s
        else if negb (v_exit_epoch target =? FAR_FUTURE_EPOCH) then Ok s
        else if current_epoch <? wadd (v_activation_epoch source) SHARD_COMMITTEE_PERIOD then Ok s
        else if 0 <? get_pending_balance_to_withdraw_electra s (Z.of_nat source_index) then Ok s
        else
          '(s, exit_epoch) ← compute_consolidation_epoch_and_update_churn_electra s
                               (v_effective_balance source);
          let withdrawable_epoch := wadd exit_epoch MIN_VALIDATOR_WITHDRAWABILITY_DELAY in
          source ← ok_or (validators (el_deneb s) !! source_index) SlotOutOfRange;
          s ← el_set_validator s (Z.of_nat source_index)
                (v_with_exit source exit_epoch withdrawable_epoch);
          l ← map_err Ssz (list_with_push MAX_PENDING_CONSOLIDATIONS_LIMIT
                (el_pending_consolidations s)
                (mkPendingConsolidation (Z.of_nat source_index) (Z.of_nat target_index)));
          Ok (el_with_pending_consolidations s l)
    | _, _ => Ok s
    end.

(** ** voluntary_exit.rs: the domain is that of the Capella fork version, which is
    part of the runtime configuration. *)
Definition process_voluntary_exit_electra s (signed_exit : SignedVoluntaryExit)
    (verify_signatures : bool) (capella_fork_version : bytes) : outcome :=
  let exit := sve_message signed_exit in
  v ← ok_or (validator s (ve_validator_index exit)) (InvalidVoluntaryExit ValidatorNotActive);
  let current_epoch := compute_epoch_at_slot (slot s) SLOTS_PER_EPOCH in
  if negb (is_active_validator v current_epoch) then Err (InvalidVoluntaryExit ValidatorNotActive)
  else if negb (v_exit_epoch v =? FAR_FUTURE_EPOCH)
  then Err (InvalidVoluntaryExit ExitAlreadyInitiated)
  else if current_epoch <? ve_epoch exit then Err (InvalidVoluntaryExit EpochTooEarly)
  else if current_epoch <? wadd (v_activation_epoch v) SHARD_COMMITTEE_PERIOD
  then Err (InvalidVoluntaryExit InsufficientActiveEpochs)
  else if negb (get_pending_balance_to_withdraw_electra s (ve_validator_index exit) =? 0)
  then Err (InvalidVoluntaryExit ValidatorNotActive)
  else
    _ ← (if verify_signatures then
           domain ← compute_domain DOMAIN_VOLUNTARY_EXIT capella_fork_version
                      (genesis_validators_root s);
           signing_root ← compute_signing_root (voluntary_exit_root exit) domain;
           if default false (bls_verify (v_pubkey v) signing_root (sve_signature signed_exit))
           then Ok tt else Err (InvalidVoluntaryExit ExitInvalidSignature)
         else Ok tt);
    initiate_validator_exit_electra s (ve_validator_index exit).
End queues.

(** ** The queues at the end of an epoch *)
Section epoch_queues.
  Context `{Crypto} `{S : BeaconSpec} `{F : ForkSpec}.
  Implicit Types s : ElectraState.
  Local Abbreviation fallible := (result EpochProcessingError).

(** ** pending_deposits.rs *)
Definition apply_pending_deposit s (d : PendingDeposit) : fallible ElectraState :=
  match position_in (validators s) (pd_pubkey d) with
  | None =>
      valid ← map_err epoch_error
                (is_valid_deposit_signature (pd_pubkey d) (pd_withdrawal_credentials d) (pd_amount d)
                   (pd_signature d));
      if valid : bool then
        map_err (fun _ => ValidatorIndexOutOfRange (num_validators s))
          (add_validator_to_registry_electra s (pd_pubkey d) (pd_withdrawal_credentials d)
             (pd_amount d))
      else Ok s
  | Some i => map_err epoch_error (increase_balance_electra s (Z.of_nat i) (pd_amount d))
  end.

(** What the loop carries. *)
Record deposit_loop : Type := mkDepositLoop {
  dl_state : ElectraState;
  dl_processed_amount : Z;
  dl_next_deposit_index : Z;
  dl_deposits_to_postpone : list PendingDeposit;
  dl_is_churn_limit_reached : bool;
  dl_pubkey_to_index : gmap bytes nat;
}.

(** One iteration after the two gates that do not look at the validator; [inr] is
    [break]. *)
Definition pending_deposit_step (next_epoch available_for_processing : Z) (l : deposit_loop)
    (d : PendingDeposit) : fallible (deposit_loop + deposit_loop) :=
  let s := dl_state l in
  let v := dl_pubkey_to_index l !! pd_pubkey d ≫= fun i => validators s !! i in
  let is_validator_exited := match v with Some v => v_exit_epoch v <? FAR_FUTURE_EPOCH | None => false end in
  let is_validator_withdrawn := match v with Some v => v_withdrawable_epoch v <? next_epoch | None => false end in
  let next := wadd (dl_next_deposit_index l) 1 in
  if is_validator_withdrawn then
    s ← apply_pending_deposit s d;
    Ok (inl (mkDepositLoop s (dl_processed_amount l) next (dl_deposits_to_postpone l)
               (dl_is_churn_limit_reached l) (dl_pubkey_to_index l)))
  else if is_validator_exited then
    Ok (inl (mkDepositLoop s (dl_processed_amount l) next (dl_deposits_to_postpone l ++ [d])
               (dl_is_churn_limit_reached l) (dl_pubkey_to_index l)))
  else
    let processed := wadd (dl_processed_amount l) (pd_amount d) in
    let reached := available_for_processing <? processed in
    if reached then
      Ok (inr (mkDepositLoop s (dl_processed_amount l) (dl_next_deposit_index l)
                 (dl_deposits_to_postpone l) reached (dl_pubkey_to_index l)))
    else
      let len_before := length (validators s) in
      s ← apply_pending_deposit s d;
      let m := if (len_before <? length (validators (el_deneb s)))%nat
               then or_insert (dl_pubkey_to_index l) (pd_pubkey d) len_before
               else dl_pubkey_to_index l in
      Ok (inl (mkDepositLoop s processed next (dl_deposits_to_postpone l) reached m)).

Fixpoint pending_deposits_loop (next_epoch available_for_processing finalized_slot : Z)
    (queue : list PendingDeposit) (l : deposit_loop) : fallible deposit_loop :=
  match queue with
  | [] => Ok l
  | d :: queue =>
      let s := dl_state l in
      if (GENESIS_SLOT <? pd_slot d) && (eth1_deposit_index s <? el_deposit_requests_start_index s)
      then Ok l
      else if finalized_slot <? pd_slot d then Ok l
      else if MAX_PENDING_DEPOSITS_PER_EPOCH <=? dl_next_deposit_index l then Ok l
      else
        r ← pending_deposit_step next_epoch available_for_processing l d;
        match r with
        | inl l => pending_deposits_loop next_epoch available_for_processing finalized_slot queue l
        | inr l => Ok l
        end
  end.

Definition process_pending_deposits s : fallible ElectraState :=
  let current_epoch := compute_epoch_at_slot (slot s) SLOTS_PER_EPOCH in
  let next_epoch := wadd current_epoch 1 in
  let available_for_processing :=
    wadd (el_deposit_balance_to_consume s) (get_activation_exit_churn_limit_electra s) in
  let finalized_slot :=
    compute_start_slot_at_epoch (cp_epoch (finalized_checkpoint s)) SLOTS_PER_EPOCH in
  let queue := el_pending_deposits s in
  l ← pending_deposits_loop next_epoch available_for_processing finalized_slot queue
        (mkDepositLoop s 0 0 [] false (registry_index (validators s)));
  let s := dl_state l in
  let remaining := drop (Z.to_nat (dl_next_deposit_index l)) queue ++ dl_deposits_to_postpone l in
  if MAX_PENDING_DEPOSITS_LIMIT <? zlen remaining
  then Err (EpochSsz (ListLimitExceeded (zlen remaining) MAX_PENDING_DEPOSITS_LIMIT))
  else
    let s := el_with_pending_deposits s remaining in
    Ok (el_with_deposit_balance_to_consume s
          (if dl_is_churn_limit_reached l
           then wsub available_for_processing (dl_processed_amount l) else 0)).

(** ** pending_consolidations.rs: the state and the number of entries taken. *)
Fixpoint consolidations_loop (next_epoch : Z) (queue : list PendingConsolidation) s (next : Z)
    : fallible (ElectraState * Z) :=
  match queue with
  | [] => Ok (s, next)
  | c :: queue =>
      source ← ok_or (validators s !! Z.to_nat (pc_source_index c))
                 (ValidatorIndexOutOfRange (pc_source_index c));
      if v_slashed source : bool then consolidations_loop next_epoch queue s (wadd next 1)
      else if next_epoch <? v_withdrawable_epoch source then Ok (s, next)
      else
        let source_balance := default 0 (balances s !! Z.to_nat (pc_source_index c)) in
        let source_effective_balance := Z.min source_balance (v_effective_balance source) in
        s ← map_err epoch_error
              (decrease_balance_electra s (pc_source_index c) source_effective_balance);
        s ← map_err epoch_error
              (increase_balance_electra s (pc_target_index c) source_effective_balance);
        consolidations_loop next_epoch queue s (wadd next 1)
  end.

Definition process_pending_consolidations s : fallible ElectraState :=
  let next_epoch := wadd (compute_epoch_at_slot (slot s) SLOTS_PER_EPOCH) 1 in
  let pending := el_pending_consolidations s in
  '(s, next) ← consolidations_loop next_epoch pending s 0;
  let remaining := drop (Z.to_nat next) pending in
  if MAX_PENDING_CONSOLIDATIONS_LIMIT <? zlen remaining
  then Err (EpochSsz (ListLimitExceeded (zlen remaining) MAX_PENDING_CONSOLIDATIONS_LIMIT))
  else Ok (el_with_pending_consolidations s remaining).
End epoch_queues.

(** ** Looking up a pubkey *)
Lemma position_in_Some vs pk i :
  position_in vs pk = Some i <->
  exists v, vs !! i = Some v /\ v_pubkey v = pk /\
    forall j w, vs !! j = Some w -> (j < i)%nat -> v_pubkey w <> pk.
Proof.
  unfold position_in. split.
  - intros ([j v] & Hf & [= <-])%fmap_Some. apply list_find_Some in Hf. naive_solver.
  - intros (v & Hv & Hpk & Hb). apply fmap_Some. exists (i, v). split; [|done].
    apply list_find_Some. naive_solver.
Qed.

Lemma position_in_None vs pk : position_in vs pk = None <-> Forall (fun v => v_pubkey v <> pk) vs.
Proof. unfold position_in. by rewrite fmap_None, list_find_None. Qed.

Lemma position_in_lookup vs pk i : position_in vs pk = Some i -> exists v, vs !! i = Some v /\ v_pubkey v = pk.
Proof. intros (v & ? & ? & _)%position_in_Some. eauto. Qed.

Lemma position_in_lt vs pk i : position_in vs pk = Some i -> (i < length vs)%nat.
Proof. intros (v & ? & _)%position_in_lookup. by eapply lookup_lt_Some. Qed.

Lemma position_in_app vs ws pk :
  position_in (vs ++ ws) pk =
  match position_in vs pk with Some i => Some i | None => Nat.add (length vs) <$> position_in ws pk end.
Proof.
  unfold position_in. destruct (list_find _ vs) as [[i v]|] eqn:Hf.
  - by rewrite (list_find_app_l _ _ _ _ _ Hf).
  - rewrite list_find_app_r by done. destruct (list_find _ ws) as [[i v]|]; cbn; [|done].
    f_equal. lia.
Qed.

Lemma position_in_single v pk : position_in [v] pk = if decide (v_pubkey v = pk) then Some 0%nat else None.
Proof. unfold position_in. cbn. by case_decide. Qed.

(** The map both loops build answers as the scan it replaces. *)
Lemma or_insert_lookup m k i k' :
  or_insert m k i !! k' = match m !! k' with Some j => Some j | None => if decide (k = k') then Some i else None end.
Proof.
  unfold or_insert. destruct (m !! k) eqn:Hk; (case_decide as Hd; [subst k'|]).
  - by rewrite Hk.
  - by destruct (m !! k').
  - by rewrite lookup_insert_eq, Hk.
  - rewrite lookup_insert_ne by done. by destruct (m !! k').
Qed.

Lemma registry_index_lookup vs pk : registry_index vs !! pk = position_in vs pk.
Proof.
  induction vs as [|v vs IH] using rev_ind; [apply lookup_empty|].
  unfold registry_index in *. rewrite length_app, Nat.add_1_r, seq_S, zip_with_app by (by rewrite length_seq).
  rewrite foldl_app. cbn [zip_with foldl fst snd Nat.add]. rewrite or_insert_lookup, IH, position_in_app, position_in_single.
  destruct (position_in vs pk); [done|]. case_decide; cbn; [by rewrite Nat.add_0_r|done].
Qed.

(** ** Consolidations *)
Section consolidations.
  Context `{Sp : BeaconSpec} `{Fs : ForkSpec} `{!SpecOk Sp} `{!ForkSpecOk Sp Fs}.
  Implicit Types (s : ElectraState) (c : PendingConsolidation) (bs : list Z).

Definition source_of s c : option Validator := validators s !! Z.to_nat (pc_source_index c).
Definition source_slashed s c : bool := default false (v_slashed <$> source_of s c).
Definition source_withdrawable s c : bool :=
  default false ((fun v => v_withdrawable_epoch v <=? get_current_epoch s + 1) <$> source_of s c).

(** The balance that one entry moves, and the balances after it. *)
Definition moved s bs c : Z :=
  if source_slashed s c then 0
  else Z.min (default 0 (bs !! Z.to_nat (pc_source_index c)))
             (default 0 (v_effective_balance <$> source_of s c)).
Definition add_at bs (i x : Z) : list Z := <[Z.to_nat i := default 0 (bs !! Z.to_nat i) + x]> bs.
Definition move s bs c : list Z :=
  add_at (add_at bs (pc_source_index c) (- moved s bs c)) (pc_target_index c) (moved s bs c).

Definition consolidation_in_range s c : Prop :=
  0 <= pc_source_index c < num_validators s /\ 0 <= pc_target_index c < num_validators s.

Lemma zsum_add_at bs i x : 0 <= i < zlen bs -> zsum (add_at bs i x) = zsum bs + x.
Proof.
  intros [Hi Hlt]. destruct (lookup_lt_is_Some_2 bs (Z.to_nat i)) as [b Hb]; [unfold zlen in Hlt; lia|].
  unfold add_at. rewrite Hb, (zsum_insert _ _ b) by done. cbn [default from_option id]. lia.
Qed.

Lemma add_at_length bs i x : length (add_at bs i x) = length bs.
Proof. apply length_insert. Qed.

Lemma add_at_nonneg bs i x :
  Forall (Z.le 0) bs -> 0 <= default 0 (bs !! Z.to_nat i) + x -> Forall (Z.le 0) (add_at bs i x).
Proof. intros Hb Hx. by apply Forall_insert. Qed.

Lemma add_at_0 bs i : add_at bs i 0 = bs.
Proof.
  unfold add_at. rewrite Z.add_0_r. destruct (bs !! Z.to_nat i) as [b|] eqn:Hb; cbn.
  - by apply list_insert_id.
  - apply list_insert_ge. by apply lookup_ge_None_1.
Qed.

Lemma default_nonneg bs (i : nat) : Forall (Z.le 0) bs -> 0 <= default 0 (bs !! i).
Proof. intros Hb. destruct (bs !! i) eqn:Hi; [|done]. by eapply (Forall_lookup_1 (Z.le 0)). Qed.

(** Both writes of a balance, on a state whose balances are [bs]. *)
Definition balanced s bs : ElectraState := el_with_base s (with_balances s bs).

Lemma set_balanced s bs i b :
  0 <= i < zlen bs -> el_set_balance (balanced s bs) i b = Ok (balanced s (<[Z.to_nat i := b]> bs)).
Proof.
  intros [_ Hi]. unfold el_set_balance, list_with_set. cbn.
  destruct (Z.leb_spec (zlen bs) i); [lia|]. done.
Qed.

Lemma decrease_balanced s bs i x :
  0 <= i < zlen bs -> x <= default 0 (bs !! Z.to_nat i) ->
  decrease_balance_electra (balanced s bs) i x = Ok (balanced s (add_at bs i (- x))).
Proof.
  intros Hi Hx. unfold decrease_balance_electra. rewrite set_balanced by done. cbn.
  destruct (Z.ltb_spec (default 0 (bs !! Z.to_nat i)) x); [lia|]. done.
Qed.

Lemma increase_balanced s bs i x :
  0 <= i < zlen bs -> default 0 (bs !! Z.to_nat i) + x < U64 ->
  increase_balance_electra (balanced s bs) i x = Ok (balanced s (add_at bs i x)).
Proof.
  intros Hi Hx. unfold increase_balance_electra. rewrite set_balanced by done. cbn.
  unfold sat_add. rewrite Z.min_l by (unfold u64_max, U64 in *; lia). done.
Qed.

(** One entry moves balance and keeps the sum. *)
Lemma move_sum s bs c :
  length bs = length (validators s) -> consolidation_in_range s c -> Forall (Z.le 0) bs -> electra_ok s ->
  zsum (move s bs c) = zsum bs /\ Forall (Z.le 0) (move s bs c) /\ length (move s bs c) = length bs /\
  0 <= moved s bs c.
Proof.
  intros Hl [Hs Ht] Hb Hok. unfold num_validators, zlen in *.
  assert (0 <= moved s bs c <= default 0 (bs !! Z.to_nat (pc_source_index c))) as [Hm0 Hm].
  { pose proof (default_nonneg bs (Z.to_nat (pc_source_index c)) Hb). unfold moved. case_match; [lia|].
    unfold source_of. destruct (validators s !! _) as [v|] eqn:Hv; cbn; [|lia].
    destruct (validator_within_at _ _ _ _ (electra_base s Hok) Hv) as [[? _] _ _ _ _ _]. lia. }
  assert (Forall (Z.le 0) (add_at bs (pc_source_index c) (- moved s bs c))) as Hb1 by (apply add_at_nonneg; [done|lia]).
  unfold move. rewrite !zsum_add_at by (unfold zlen; rewrite ?add_at_length; lia).
  split_and!; [lia| |by rewrite !add_at_length|done].
  apply add_at_nonneg; [done|]. pose proof (default_nonneg _ (Z.to_nat (pc_target_index c)) Hb1). lia.
Qed.

(** An entry whose source is slashed or withdrawable is taken. *)
Lemma consolidation_taken s bs c queue n :
  electra_ok s -> length bs = length (validators s) -> Forall (Z.le 0) bs -> zsum bs < U64 ->
  consolidation_in_range s c -> 0 <= n < U64 - 1 -> source_slashed s c || source_withdrawable s c = true ->
  consolidations_loop (get_current_epoch s + 1) (c :: queue) (balanced s bs) n
  = consolidations_loop (get_current_epoch s + 1) queue (balanced s (move s bs c)) (n + 1).
Proof.
  intros Hok Hl Hb Hsum Hc Hn Htake.
  destruct (move_sum s bs c Hl Hc Hb Hok) as (Hs' & Hb' & Hl' & Hm).
  destruct Hc as [[Hs0 Hs1] [Ht0 Ht1]]. unfold num_validators, zlen in Hs1, Ht1.
  destruct (lookup_lt_is_Some_2 (validators s) (Z.to_nat (pc_source_index c))) as [v Hv]; [lia|].
  cbn [consolidations_loop]. change (validators (balanced s bs)) with (validators s). rewrite Hv.
  change (balances (balanced s bs)) with bs. cbn [ok_or mbind result_bind]. rewrite wadd_small by lia.
  unfold source_slashed, source_withdrawable, source_of in Htake. rewrite Hv in Htake. cbn in Htake.
  assert (source_slashed s c = v_slashed v) as Hsl by (unfold source_slashed, source_of; by rewrite Hv).
  destruct (v_slashed v); [unfold move, moved; rewrite Hsl; cbn [Z.opp]; by rewrite !add_at_0|].
  cbn [orb] in Htake. apply Z.leb_le in Htake.
  destruct (Z.ltb_spec (get_current_epoch s + 1) (v_withdrawable_epoch v)); [lia|].
  assert (moved s bs c = Z.min (default 0 (bs !! Z.to_nat (pc_source_index c))) (v_effective_balance v)) as <-.
  { unfold moved. rewrite Hsl. unfold source_of. by rewrite Hv. }
  rewrite decrease_balanced; [|unfold zlen; lia|unfold moved; rewrite Hsl; lia]. cbn [map_err mbind result_bind].
  rewrite increase_balanced; [done|unfold zlen; rewrite add_at_length; lia|].
  assert (default 0 (move s bs c !! Z.to_nat (pc_target_index c)) <= zsum (move s bs c)) as Hle.
  { destruct (move s bs c !! _) as [x|] eqn:Hx; cbn; [by eapply zsum_lookup_le|by apply zsum_nonneg]. }
  unfold move in Hle. unfold add_at at 1 in Hle. rewrite list_lookup_insert_eq in Hle by (rewrite add_at_length; lia).
  cbn [default from_option id] in Hle. fold (move s bs c) in Hle. lia.
Qed.

Lemma consolidations_loop_Ok s queue : forall bs n,
  electra_ok s -> length bs = length (validators s) -> Forall (Z.le 0) bs -> zsum bs < U64 ->
  Forall (consolidation_in_range s) queue -> 0 <= n -> n + zlen queue < U64 ->
  exists k, consolidations_loop (get_current_epoch s + 1) queue (balanced s bs) n
      = Ok (balanced s (foldl (move s) bs (take k queue)), n + Z.of_nat k) /\ (k <= length queue)%nat /\
    Forall (fun c => source_slashed s c || source_withdrawable s c = true) (take k queue) /\
    (forall c, queue !! k = Some c -> source_slashed s c || source_withdrawable s c = false) /\
    zsum (foldl (move s) bs (take k queue)) = zsum bs /\
    Forall (Z.le 0) (foldl (move s) bs (take k queue)) /\
    length (foldl (move s) bs (take k queue)) = length bs.
Proof.
  induction queue as [|c queue IH]; intros bs n Hok Hl Hb Hsum Hin Hn Hnq.
  { exists 0%nat. cbn. rewrite Z.add_0_r. split_and!; try done; lia. }
  apply Forall_cons in Hin as [Hc Hin]. rewrite zlen_cons in Hnq. pose proof (zlen_nonneg queue).
  destruct (move_sum s bs c Hl Hc Hb Hok) as (Hs' & Hb' & Hl' & Hm).
  destruct (source_slashed s c || source_withdrawable s c) eqn:Htake.
  - rewrite consolidation_taken by (done || lia).
    destruct (IH (move s bs c) (n + 1)) as (k & -> & Hk & Hall & Hstop & Hsum' & Hnn & Hlen);
      [done|lia|done|lia|done|lia|lia|].
    exists (Datatypes.S k). cbn [take foldl length]. split_and!; [do 2 f_equal; lia|lia| |done|lia|done|lia].
    by constructor.
  - exists 0%nat. cbn [take foldl]. rewrite Z.add_0_r. split_and!; try done; [|cbn; lia|by intros c' [= <-]].
    destruct Hc as [[Hs0 Hs1] _]. unfold num_validators, zlen in Hs1.
    destruct (lookup_lt_is_Some_2 (validators s) (Z.to_nat (pc_source_index c))) as [v Hv]; [lia|].
    cbn [consolidations_loop]. change (validators (balanced s bs)) with (validators s). rewrite Hv.
    unfold source_slashed, source_withdrawable, source_of in Htake. rewrite Hv in Htake. cbn in Htake.
    apply orb_false_iff in Htake as [Hvs Hw%Z.leb_gt]. cbn [ok_or mbind result_bind]. rewrite Hvs.
    destruct (Z.ltb_spec (get_current_epoch s + 1) (v_withdrawable_epoch v)); [done|lia].
Qed.

Lemma balanced_ok s bs :
  electra_ok s -> length bs = length (balances s) -> Forall (Z.le 0) bs -> zsum bs < U64 ->
  electra_ok (balanced s bs).
Proof.
  intros Hs Hl Hb Hsum. apply electra_ok_base; [done| |done]. apply base_ok_balances; [by apply electra_base|done|].
  apply Forall_lookup. intros i b Hi. pose proof (Forall_lookup_1 _ _ _ _ Hb Hi).
  pose proof (zsum_lookup_le bs i b Hb Hi). unfold u64. lia.
Qed.

Lemma current_epoch_step s : electra_ok s -> slot s < 2 ^ 63 ->
  wadd (compute_epoch_at_slot (slot s) SLOTS_PER_EPOCH) 1 = get_current_epoch s + 1 /\
  0 <= get_current_epoch s < 2 ^ 63.
Proof.
  intros Hs Hsl. pose proof slots_per_epoch_pos. destruct (bo_slot _ _ (electra_base s Hs)).
  unfold get_current_epoch, compute_epoch_at_slot.
  assert (0 <= slot s / SLOTS_PER_EPOCH < 2 ^ 63).
  { split; [apply Z.div_pos; lia|]. apply Z.div_lt_upper_bound; nia. }
  split; [|done]. apply wadd_small; unfold U64; lia.
Qed.
End consolidations.

(** C18: consolidations are processed in order and conserve balance.  With every
    entry's validators in the registry and the sum of the balances below 2^64,
    [process_pending_consolidations] succeeds and keeps the invariant.  Exactly a
    prefix of the queue is taken: each entry of it has a slashed or withdrawable
    source, the next entry has neither.  Each entry in turn moves the smaller of the
    source's balance and its effective balance to the target, nothing if the source
    is slashed; the sum of all balances stays the same and nothing else changes. *)
Theorem consolidations_exact `{Sp : BeaconSpec} `{Fs : ForkSpec} `{!SpecOk Sp} `{!ForkSpecOk Sp Fs}
    (s : ElectraState) :
  electra_ok s -> slot s < 2 ^ 63 -> zsum (balances s) < U64 ->
  Forall (consolidation_in_range s) (el_pending_consolidations s) ->
  exists k, let queue := el_pending_consolidations s in
    let bs := foldl (move s) (balances s) (take k queue) in
    let s' := el_with_pending_consolidations (balanced s bs) (drop k queue) in
    process_pending_consolidations s = Ok s' /\ electra_ok s' /\ (k <= length queue)%nat /\
    Forall (fun c => source_slashed s c || source_withdrawable s c = true) (take k queue) /\
    (forall c, queue !! k = Some c -> source_slashed s c || source_withdrawable s c = false) /\
    zsum bs = zsum (balances s).
Proof.
  intros Hs Hsl Hsum Hin. destruct (current_epoch_step s Hs Hsl) as [Hnext _].
  pose proof (bo_balances_length _ _ (electra_base s Hs)) as Hl.
  assert (Forall (Z.le 0) (balances s)) as Hb.
  { eapply Forall_impl; [apply (electra_base s Hs)|]. by intros b [? _]. }
  pose proof (eo_consolidations_limit s Hs). destruct pending_limits as (_ & _ & _ & ?).
  destruct (consolidations_loop_Ok s (el_pending_consolidations s) (balances s) 0)
    as (k & Hloop & Hk & Hall & Hstop & Hsum' & Hnn & Hlen); [done|done|done|done|done|lia|unfold U64; lia|].
  exists k. cbv zeta. unfold process_pending_consolidations. rewrite Hnext.
  assert (balanced s (balances s) = s) as Hself by (by destruct s as [[[[] ? ? ? ? ?] ? ? ? ?] ? ? ? ? ? ? ? ? ?]).
  rewrite Hself in Hloop. rewrite Hloop. cbn [mbind result_bind]. rewrite Z.add_0_l, Nat2Z.id.
  assert (zlen (drop k (el_pending_consolidations s)) <= MAX_PENDING_CONSOLIDATIONS_LIMIT).
  { unfold zlen in *. rewrite length_drop. lia. }
  destruct (Z.ltb_spec MAX_PENDING_CONSOLIDATIONS_LIMIT (zlen (drop k (el_pending_consolidations s)))); [lia|].
  split_and!; try done. assert (electra_ok (balanced s (foldl (move s) (balances s) (take k (el_pending_consolidations s))))) as Hg.
  { apply balanced_ok; [done|done|done|lia]. }
  pose proof (eo_consolidations s Hs) as Hc. destruct Hg. split; try done. by apply Forall_drop.
Qed.

(** A consolidation of a withdrawable validator, one of a slashed validator and one
    that must wait. *)
Definition ex_consolidating : ElectraState :=
  ex_electra 16
    [ex_member 0 Byte.x02 32 1 2; v_with_slashed (ex_member 1 Byte.x01 32 1 2) 2; ex_member 2 Byte.x01 32 9 300;
     ex_member 3 Byte.x02 32 u64_max u64_max]
    [33000000000; 32000000000; 32000000000; 32000000000] [] []
    [mkPendingConsolidation 0 3; mkPendingConsolidation 1 3; mkPendingConsolidation 2 3].

Lemma consolidations_exact_witness :
  exists k, let queue := el_pending_consolidations ex_consolidating in
    @process_pending_consolidations minimal minimal_forks ex_consolidating
    = Ok (el_with_pending_consolidations
            (balanced ex_consolidating [1000000000; 32000000000; 32000000000; 64000000000])
            [mkPendingConsolidation 2 3]) /\
    zsum (foldl (move ex_consolidating) (balances ex_consolidating) (take k queue)) = 129000000000.
Proof.
  destruct (@consolidations_exact minimal minimal_forks _ _ ex_consolidating) as (k & _ & _ & _ & _ & _ & Hsum).
  - apply ex_electra_ok; ex_ranges.
  - vm_compute. reflexivity.
  - vm_compute. reflexivity.
  - repeat constructor; vm_compute; congruence.
  - exists k. split; [vm_compute; reflexivity|]. rewrite Hsum. vm_compute. reflexivity.
Defined.
