(* ===== verification/PendingDeposits.v ===== *)
(** * The queue of pending deposits

    What [process_pending_deposits] (electra/epoch/pending_deposits.rs) does with
    the queue, the registry and the balances, stated without the loop, its lookup
    map and its early exits. *)

From stdpp Require Import gmap.
From Stdlib Require Import ZArith Lia.
From S2P Require Import Prelude SszCodec SszBitfield SszTypes Merkle Shuffling Spec BeaconState Invariant Roots Accessors Mutators Justification Rewards EpochUpdates Operations Genesis Forks ForkInvariant Altair Electra Withdrawals ElectraQueues.

Lemma amounts_snoc l d : zsum (pd_amount <$> (l ++ [d])) = zsum (pd_amount <$> l) + pd_amount d.
Proof. rewrite fmap_app, zsum_app. f_equal. cbn. unfold zsum. cbn. lia. Qed.

(** ** Crediting a list of deposits, on the registry and the balances alone *)
Section credit.
  Context (vs0 : list Validator) (bs0 : list Z) (signed : PendingDeposit -> bool)
    (make : PendingDeposit -> Validator) (make_pubkey : forall d, v_pubkey (make d) = pd_pubkey d).
  Implicit Types (l : list PendingDeposit) (d : PendingDeposit) (st : list Validator * list Z).

(** Top up, register or ignore. *)
Definition credit st d : list Validator * list Z :=
  let '(news, bs) := st in
  match position_in (vs0 ++ news) (pd_pubkey d) with
  | Some i => (news, <[i := default 0 (bs !! i) + pd_amount d]> bs)
  | None => if signed d then (news ++ [make d], bs ++ [pd_amount d]) else (news, bs)
  end.

Fixpoint drop_unsigned l : list PendingDeposit :=
  match l with
  | [] => []
  | d :: l' => if signed d then l else drop_unsigned l'
  end.

Definition deposits_of (pk : bytes) l : list PendingDeposit := filter (fun d => pd_pubkey d = pk) l.

(** The deposits that count for a pubkey: all of them if it was registered, else
    those from the first with a valid signature on. *)
Definition counted (pk : bytes) l : list PendingDeposit :=
  match position_in vs0 pk with
  | Some _ => deposits_of pk l
  | None => drop_unsigned (deposits_of pk l)
  end.
Definition counted_amount (pk : bytes) l : Z := zsum (pd_amount <$> counted pk l).

(** The registry [vs0 ++ news] and the balances [bs] after the deposits [l]. *)
Record credited_as l st : Prop := {
  ca_length : length st.2 = (length vs0 + length st.1)%nat;
  ca_old : forall i b, bs0 !! i = Some b -> st.2 !! i
    = Some (b + zsum (pd_amount <$> filter (fun d => position_in vs0 (pd_pubkey d) = Some i) l));
  ca_new : forall pk, position_in vs0 pk = None ->
    match position_in (vs0 ++ st.1) pk with
    | None => counted pk l = []
    | Some i => exists d, head (counted pk l) = Some d /\ (vs0 ++ st.1) !! i = Some (make d) /\
        st.2 !! i = Some (counted_amount pk l)
    end;
  ca_own : forall j v, (vs0 ++ st.1) !! j = Some v -> (length vs0 <= j)%nat ->
    position_in (vs0 ++ st.1) (v_pubkey v) = Some j;
  ca_nonneg : Forall (fun b => 0 <= b) st.2;
  ca_sum : zsum st.2 <= zsum bs0 + zsum (pd_amount <$> l);
}.

Lemma drop_unsigned_snoc l d :
  drop_unsigned (l ++ [d]) =
  match drop_unsigned l with [] => if signed d then [d] else [] | x :: r => x :: r ++ [d] end.
Proof. induction l as [|x l IH]; cbn; [done|]. by destruct (signed x). Qed.

Lemma deposits_of_snoc pk l d :
  deposits_of pk (l ++ [d]) = deposits_of pk l ++ if decide (pd_pubkey d = pk) then [d] else [].
Proof. unfold deposits_of. rewrite filter_app. f_equal. Qed.

Lemma counted_snoc_other pk l d : pd_pubkey d <> pk -> counted pk (l ++ [d]) = counted pk l.
Proof.
  intros Hne. unfold counted. rewrite deposits_of_snoc, decide_False by done. by rewrite app_nil_r.
Qed.

Lemma counted_snoc_new l d :
  position_in vs0 (pd_pubkey d) = None ->
  counted (pd_pubkey d) (l ++ [d]) =
  match counted (pd_pubkey d) l with [] => if signed d then [d] else [] | x :: r => x :: r ++ [d] end.
Proof.
  intros Hn. unfold counted. rewrite Hn, deposits_of_snoc, decide_True by done. apply drop_unsigned_snoc.
Qed.

Lemma credited_nil : length bs0 = length vs0 -> Forall (fun b => 0 <= b) bs0 -> credited_as [] ([], bs0).
Proof.
  intros Hl H0. split; cbn [fst snd].
  - cbn. lia.
  - intros i b Hb. change (zsum _) with 0. by rewrite Hb, Z.add_0_r.
  - intros pk Hpk. rewrite app_nil_r, Hpk. unfold counted. by rewrite Hpk.
  - intros j v. rewrite app_nil_r. intros Hv%lookup_lt_Some. lia.
  - done.
  - change (zsum (pd_amount <$> [])) with 0. lia.
Qed.

Lemma zsum_old_snoc i l d :
  zsum (pd_amount <$> filter (fun d => position_in vs0 (pd_pubkey d) = Some i) (l ++ [d]))
  = zsum (pd_amount <$> filter (fun d => position_in vs0 (pd_pubkey d) = Some i) l)
    + if decide (position_in vs0 (pd_pubkey d) = Some i) then pd_amount d else 0.
Proof.
  rewrite filter_app, fmap_app, zsum_app. f_equal. rewrite filter_cons, filter_nil.
  case_decide; cbn; lia.
Qed.

(** A top-up of a validator of the original registry. *)
Lemma credited_old l news bs d i :
  credited_as l (news, bs) -> length bs0 = length vs0 -> 0 <= pd_amount d -> position_in vs0 (pd_pubkey d) = Some i ->
  credited_as (l ++ [d]) (news, <[i := default 0 (bs !! i) + pd_amount d]> bs).
Proof.
  intros [Hlen Hold Hnew Hown Hpos Hsum] Hl0 Ha Hi. cbn [fst snd] in *.
  pose proof (position_in_lt _ _ _ Hi) as Hlt.
  assert (exists b, bs !! i = Some b) as [b Hb] by (apply lookup_lt_is_Some_2; lia).
  split; cbn [fst snd].
  - by rewrite length_insert.
  - intros j bj Hj. rewrite zsum_old_snoc. specialize (Hold j bj Hj).
    case_decide as Hd; rewrite Hi in Hd.
    + injection Hd as ->. rewrite list_lookup_insert_eq by lia. rewrite Hold. cbn. f_equal. lia.
    + rewrite list_lookup_insert_ne by congruence. rewrite Hold. f_equal. lia.
  - intros pk Hpk. specialize (Hnew pk Hpk).
    assert (pd_pubkey d <> pk) as Hne by congruence.
    unfold counted_amount in *. rewrite counted_snoc_other by done.
    destruct (position_in (vs0 ++ news) pk) as [j|] eqn:Hj; [|done].
    destruct Hnew as (x & ? & ? & ?). exists x. split_and!; [done..|].
    rewrite list_lookup_insert_ne; [done|]. intros <-.
    rewrite position_in_app, Hpk in Hj. destruct (position_in news pk); [injection Hj as Hj; lia|done].
  - done.
  - apply Forall_insert; [done|]. pose proof (Forall_lookup_1 _ _ _ _ Hpos Hb). rewrite Hb. cbn in *. lia.
  - rewrite (zsum_insert _ _ b _ Hb), Hb, amounts_snoc. cbn [default from_option id]. lia.
Qed.

(** A top-up of a validator registered by an earlier deposit. *)
Lemma credited_again l news bs d i :
  credited_as l (news, bs) -> length bs0 = length vs0 -> 0 <= pd_amount d -> position_in vs0 (pd_pubkey d) = None ->
  position_in (vs0 ++ news) (pd_pubkey d) = Some i ->
  credited_as (l ++ [d]) (news, <[i := default 0 (bs !! i) + pd_amount d]> bs).
Proof.
  intros [Hlen Hold Hnew Hown Hpos Hsum] Hl0 Ha Hn Hi. cbn [fst snd] in *.
  assert (length vs0 <= i)%nat as Hge.
  { rewrite position_in_app, Hn in Hi. destruct (position_in news _); [injection Hi as <-; lia|done]. }
  pose proof (Hnew _ Hn) as Hd. rewrite Hi in Hd. destruct Hd as (x & Hx & Hv & Hb).
  pose proof (lookup_lt_Some _ _ _ Hb) as Hlt.
  split; cbn [fst snd].
  - by rewrite length_insert.
  - intros j bj Hj. rewrite zsum_old_snoc. specialize (Hold j bj Hj).
    rewrite decide_False by (rewrite Hn; done).
    rewrite list_lookup_insert_ne by (apply lookup_lt_Some in Hj; lia). rewrite Hold. f_equal. lia.
  - intros pk Hpk. unfold counted_amount in *.
    destruct (decide (pd_pubkey d = pk)) as [<-|Hne].
    + rewrite Hi, counted_snoc_new by done. destruct (counted _ l) as [|y r]; [done|]. injection Hx as ->.
      exists x. split_and!; [done..|]. rewrite list_lookup_insert_eq by done. f_equal. rewrite Hb.
      change (x :: r ++ [d]) with ((x :: r) ++ [d]). by rewrite amounts_snoc.
    + specialize (Hnew pk Hpk). rewrite counted_snoc_other by done.
      destruct (position_in (vs0 ++ news) pk) as [j|] eqn:Hj; [|done].
      destruct Hnew as (y & ? & ? & ?). exists y. split_and!; [done..|].
      rewrite list_lookup_insert_ne; [done|]. intros <-.
      apply position_in_lookup in Hi as (? & ? & ?), Hj as (? & ? & ?). congruence.
  - done.
  - apply Forall_insert; [done|]. pose proof (Forall_lookup_1 _ _ _ _ Hpos Hb). rewrite Hb. cbn in *. lia.
  - rewrite (zsum_insert _ _ _ _ Hb), Hb, amounts_snoc. cbn [default from_option id]. lia.
Qed.

(** A new pubkey. *)
Lemma credited_register l news bs d :
  credited_as l (news, bs) -> length bs0 = length vs0 -> 0 <= pd_amount d -> position_in (vs0 ++ news) (pd_pubkey d) = None ->
  signed d = true -> credited_as (l ++ [d]) (news ++ [make d], bs ++ [pd_amount d]).
Proof.
  intros [Hlen Hold Hnew Hown Hnn Hsum] Hl0 Ha Hi Hsg. cbn [fst snd] in *.
  assert (position_in vs0 (pd_pubkey d) = None) as Hn.
  { rewrite position_in_app in Hi. by destruct (position_in vs0 _). }
  assert (forall pk, position_in (vs0 ++ news ++ [make d]) pk =
    match position_in (vs0 ++ news) pk with
    | Some i => Some i
    | None => if decide (pd_pubkey d = pk) then Some (length bs) else None end) as Hpos.
  { intros pk. rewrite app_assoc, position_in_app, position_in_single, make_pubkey.
    destruct (position_in (vs0 ++ news) pk); [done|]. rewrite length_app, Hlen. case_decide; cbn; [|done].
    f_equal. lia. }
  assert ((vs0 ++ news ++ [make d]) !! length bs = Some (make d)) as Hlast.
  { rewrite app_assoc, lookup_app_r; rewrite length_app, Hlen; [|lia]. by rewrite Nat.sub_diag. }
  split; cbn [fst snd].
  - rewrite !length_app. cbn. lia.
  - intros j bj Hj. rewrite zsum_old_snoc, decide_False by (rewrite Hn; done).
    specialize (Hold j bj Hj). rewrite (lookup_app_l_Some _ _ _ _ Hold). f_equal. lia.
  - intros pk Hpk. unfold counted_amount in *. specialize (Hnew pk Hpk). rewrite Hpos.
    destruct (position_in (vs0 ++ news) pk) as [j|] eqn:Hj.
    + assert (pd_pubkey d <> pk) by congruence. rewrite counted_snoc_other by done.
      destruct Hnew as (x & ? & Hx & Hb). exists x. split_and!; [done| |].
      * rewrite app_assoc. by apply lookup_app_l_Some.
      * by apply lookup_app_l_Some.
    + case_decide as Hd; [subst pk|by rewrite counted_snoc_other].
      rewrite counted_snoc_new, Hnew, Hsg by done. exists d. split_and!; [done..|].
      rewrite lookup_app_r, Nat.sub_diag by lia. cbn. f_equal. lia.
  - intros j v Hj Hge. rewrite Hpos. rewrite app_assoc in Hj.
    apply lookup_app_Some in Hj as [Hj|[Hge' Hj]].
    + by rewrite (Hown j v Hj Hge).
    + apply list_lookup_singleton_Some in Hj as [Hz <-]. rewrite make_pubkey, Hi, decide_True by done.
      f_equal. rewrite length_app in *. lia.
  - apply Forall_app. split; [done|]. by constructor.
  - rewrite zsum_app, amounts_snoc. change (zsum [pd_amount d]) with (pd_amount d + 0). lia.
Qed.

(** A deposit that is not signed and whose pubkey is unknown. *)
Lemma credited_ignore l news bs d :
  credited_as l (news, bs) -> 0 <= pd_amount d -> position_in (vs0 ++ news) (pd_pubkey d) = None ->
  signed d = false -> credited_as (l ++ [d]) (news, bs).
Proof.
  intros [Hlen Hold Hnew Hown Hnn Hsum] Ha Hi Hsg. cbn [fst snd] in *.
  assert (position_in vs0 (pd_pubkey d) = None) as Hn.
  { rewrite position_in_app in Hi. by destruct (position_in vs0 _). }
  split; cbn [fst snd]; [done| | |done|done|].
  - intros j bj Hj. rewrite zsum_old_snoc, decide_False by (rewrite Hn; done). rewrite (Hold j bj Hj). f_equal. lia.
  - intros pk Hpk. unfold counted_amount in *. specialize (Hnew pk Hpk).
    destruct (decide (pd_pubkey d = pk)) as [<-|Hne]; [|by rewrite counted_snoc_other].
    rewrite Hi in *. by rewrite counted_snoc_new, Hnew, Hsg.
  - rewrite amounts_snoc. lia.
Qed.

Lemma credit_step l st d :
  credited_as l st -> length bs0 = length vs0 -> 0 <= pd_amount d -> credited_as (l ++ [d]) (credit st d).
Proof.
  destruct st as [news bs]. intros Hst Hl Ha. unfold credit.
  destruct (position_in (vs0 ++ news) (pd_pubkey d)) as [i|] eqn:Hi.
  - destruct (position_in vs0 (pd_pubkey d)) as [j|] eqn:Hj.
    + rewrite position_in_app, Hj in Hi. injection Hi as ->. by apply credited_old.
    + by apply credited_again.
  - destruct (signed d) eqn:Hsg; [by apply credited_register|by apply credited_ignore].
Qed.
End credit.

(** ** The state after crediting *)
Section grown.
  Context `{Crypto} `{!CryptoOk _} `{Sp : BeaconSpec} `{Fs : ForkSpec} `{!SpecOk Sp} `{!ForkSpecOk Sp Fs}.
  Implicit Types (s : ElectraState) (d : PendingDeposit).

(** [news] registered and the balances replaced; nobody new has participated. *)
Definition grown s (st : list Validator * list Z) : ElectraState :=
  let zeroes := replicate (length st.1) 0 in
  let a := mkAltairState (with_balances (with_validators s (validators s ++ st.1)) st.2)
    (al_previous_epoch_participation s ++ zeroes) (al_current_epoch_participation s ++ zeroes)
    (al_inactivity_scores s ++ zeroes) (al_current_sync_committee s) (al_next_sync_committee s) in
  el_with_deneb s (de_with_altair (el_deneb s) a).

Definition deposit_signed d : bool :=
  ok_value false (is_valid_deposit_signature (pd_pubkey d) (pd_withdrawal_credentials d) (pd_amount d)
    (pd_signature d)).
Definition deposit_validator d : Validator :=
  get_validator_from_deposit_electra (pd_pubkey d) (pd_withdrawal_credentials d) (pd_amount d).
Definition pending_sized d : Prop :=
  length (pd_pubkey d) = 48%nat /\ length (pd_withdrawal_credentials d) = 32%nat.

Lemma grown_start s : grown s ([], balances s) = s.
Proof.
  unfold grown. cbn [fst snd length replicate]. rewrite !app_nil_r.
  by destruct s as [[[[] ? ? ? ? ?] ? ? ? ?] ? ? ? ? ? ? ? ? ?].
Qed.

Lemma deposit_signed_Ok d :
  pending_sized d ->
  is_valid_deposit_signature (pd_pubkey d) (pd_withdrawal_credentials d) (pd_amount d) (pd_signature d)
  = Ok (deposit_signed d).
Proof using CryptoOk0 SpecOk0.
  intros [Hpk Hwc]. unfold deposit_signed, is_valid_deposit_signature.
  destruct (@deposit_signing_root_ok _ _ _ _ StateTransitionError (mkDepositData (pd_pubkey d)
    (pd_withdrawal_credentials d) (pd_amount d) (replicate 96 Byte.x00))) as (dom & sr & -> & Hsr).
  { split_and!; [done..|]. apply length_replicate. }
  cbn [dd_pubkey dd_withdrawal_credentials dd_amount] in Hsr. cbn [mbind result_bind]. by rewrite Hsr.
Qed.

Lemma push_participation_Ok (a : AltairState) :
  zlen (al_previous_epoch_participation a) < VALIDATOR_REGISTRY_LIMIT ->
  zlen (al_current_epoch_participation a) < VALIDATOR_REGISTRY_LIMIT ->
  zlen (al_inactivity_scores a) < VALIDATOR_REGISTRY_LIMIT ->
  al_push_participation a = Ok (mkAltairState (al_base a) (al_previous_epoch_participation a ++ [0])
    (al_current_epoch_participation a ++ [0]) (al_inactivity_scores a ++ [0])
    (al_current_sync_committee a) (al_next_sync_committee a)).
Proof.
  intros Hp Hc Hi. unfold al_push_participation, list_with_push.
  destruct (Z.leb_spec VALIDATOR_REGISTRY_LIMIT (zlen (al_previous_epoch_participation a))); [lia|]. cbn.
  destruct (Z.leb_spec VALIDATOR_REGISTRY_LIMIT (zlen (al_current_epoch_participation a))); [lia|]. cbn.
  by destruct (Z.leb_spec VALIDATOR_REGISTRY_LIMIT (zlen (al_inactivity_scores a))); [lia|].
Qed.

(** [add_validator_to_registry] appends. *)
Lemma add_validator_grown s news bs pk wc amount :
  electra_ok s -> length bs = (length (validators s) + length news)%nat ->
  num_validators s + zlen news < VALIDATOR_REGISTRY_LIMIT ->
  add_validator_to_registry_electra (grown s (news, bs)) pk wc amount
  = Ok (grown s (news ++ [get_validator_from_deposit_electra pk wc amount], bs ++ [amount])).
Proof using CryptoOk0.
  intros Hs Hl Hlim. destruct (eo_altair s Hs) as [_ Hp Hc Hi _ _ _]. unfold num_validators in Hlim.
  assert (forall A (l : list A), length l = (length (validators s) + length news)%nat ->
    (VALIDATOR_REGISTRY_LIMIT <=? zlen l) = false) as Hle.
  { intros A l Hll. apply Z.leb_gt. unfold zlen in *. rewrite Hll. lia. }
  unfold add_validator_to_registry_electra, el_on, el_on_altair, al_on, push_validator, push_balance.
  cbn. unfold list_with_push. rewrite Hle by (by rewrite length_app). cbn. rewrite Hle by done. cbn.
  unfold el_on_altair. cbn.
  assert (forall l : list Z, length l = length (validators s) ->
    zlen (l ++ replicate (length news) 0) < VALIDATOR_REGISTRY_LIMIT) as Hlt.
  { intros l Hll. apply Z.leb_gt, Hle. rewrite length_app, length_replicate. lia. }
  rewrite push_participation_Ok by (cbn; by apply Hlt). cbn.
  unfold grown. cbn [fst snd]. rewrite length_app, Nat.add_1_r, replicate_S_end, !app_assoc. done.
Qed.

Lemma increase_grown s news bs i b amount :
  bs !! i = Some b -> 0 <= b -> 0 <= amount -> b + amount < U64 ->
  increase_balance_electra (grown s (news, bs)) (Z.of_nat i) amount
  = Ok (grown s (news, <[i := b + amount]> bs)).
Proof.
  intros Hb Hb0 Ha Hlt. pose proof (lookup_lt_Some _ _ _ Hb).
  unfold increase_balance_electra, el_set_balance, list_with_set. cbn. rewrite Nat2Z.id, Hb.
  destruct (Z.leb_spec (zlen bs) (Z.of_nat i)) as [Hle|_]; [unfold zlen in Hle; lia|]. cbn.
  unfold sat_add. by rewrite Z.min_l by (unfold u64_max, U64 in *; lia).
Qed.
End grown.

(** ** What becomes of each entry *)
Section specification.
  Context `{Crypto} `{Sp : BeaconSpec} `{Fs : ForkSpec}.
  Implicit Types (s : ElectraState) (d : PendingDeposit) (l : list PendingDeposit).

(** Credited without using the churn, kept for later, or credited if the churn
    allows. *)
Inductive deposit_fate : Type := Unlimited | Postponed | Limited.
#[global] Instance deposit_fate_eq_dec : EqDecision deposit_fate.
Proof. solve_decision. Defined.

(** Decided by the registry before any deposit is applied. *)
Definition fate s d : deposit_fate :=
  match position_in (validators s) (pd_pubkey d) ≫= fun i => validators s !! i with
  | None => Limited
  | Some v => if v_withdrawable_epoch v <? get_current_epoch s + 1 then Unlimited
              else if v_exit_epoch v <? FAR_FUTURE_EPOCH then Postponed else Limited
  end.

Definition postponed s l : list PendingDeposit := filter (fun d => fate s d = Postponed) l.
Definition credited s l : list PendingDeposit := filter (fun d => fate s d <> Postponed) l.
Definition churned s l : Z := zsum (pd_amount <$> filter (fun d => fate s d = Limited) l).

(** The deposits of the contract's tree are all applied, and the entry is of a
    finalized slot. *)
Definition may_be_processed s d : bool :=
  negb ((GENESIS_SLOT <? pd_slot d) && (eth1_deposit_index s <? el_deposit_requests_start_index s))
  && negb (compute_start_slot_at_epoch (cp_epoch (finalized_checkpoint s)) SLOTS_PER_EPOCH <? pd_slot d).

Definition available s : Z := el_deposit_balance_to_consume s + get_activation_exit_churn_limit_electra s.

(** Entry [k] is the first that the churn holds back. *)
Definition churn_holds s (k : nat) : bool :=
  match el_pending_deposits s !! k with
  | None => false
  | Some d => may_be_processed s d && (Z.of_nat k <? MAX_PENDING_DEPOSITS_PER_EPOCH)
      && bool_decide (fate s d = Limited)
      && (available s <? churned s (take k (el_pending_deposits s)) + pd_amount d)
  end.

(** The first [k] entries are taken: no further entry may be, and the result is
    the state with those entries credited or moved to the end of the queue. *)
Record deposits_applied s (k : nat) s' : Prop := {
  da_length : (k <= length (el_pending_deposits s))%nat /\ Z.of_nat k <= MAX_PENDING_DEPOSITS_PER_EPOCH;
  da_allowed : Forall (fun d => may_be_processed s d = true) (take k (el_pending_deposits s));
  da_churn : churned s (take k (el_pending_deposits s)) <= available s;
  da_most : forall d, el_pending_deposits s !! k = Some d ->
    may_be_processed s d = false \/ Z.of_nat k = MAX_PENDING_DEPOSITS_PER_EPOCH \/ churn_holds s k = true;
  da_result : exists news bs,
    credited_as (validators s) (balances s) deposit_signed deposit_validator
      (credited s (take k (el_pending_deposits s))) (news, bs) /\
    s' = el_with_deposit_balance_to_consume
           (el_with_pending_deposits (grown s (news, bs))
              (drop k (el_pending_deposits s) ++ postponed s (take k (el_pending_deposits s))))
           (if churn_holds s k then available s - churned s (take k (el_pending_deposits s)) else 0);
}.

Lemma churned_snoc s l d :
  churned s (l ++ [d]) = churned s l + if decide (fate s d = Limited) then pd_amount d else 0.
Proof.
  unfold churned. rewrite filter_app, fmap_app, zsum_app. f_equal. rewrite filter_cons, filter_nil.
  case_decide; cbn; unfold zsum; cbn; lia.
Qed.

Lemma postponed_snoc s l d :
  postponed s (l ++ [d]) = postponed s l ++ if decide (fate s d = Postponed) then [d] else [].
Proof. unfold postponed. rewrite filter_app. f_equal. Qed.

Lemma credited_snoc s l d :
  credited s (l ++ [d]) = credited s l ++ if decide (fate s d <> Postponed) then [d] else [].
Proof. unfold credited. rewrite filter_app. f_equal. Qed.
End specification.

(** ** The loop *)
Section loop.
  Context `{Crypto} `{!CryptoOk _} `{Sp : BeaconSpec} `{Fs : ForkSpec} `{!SpecOk Sp} `{!ForkSpecOk Sp Fs}.
  Context (s : ElectraState) (s_ok : electra_ok s) (s_slot : slot s < 2 ^ 63).
  Context (all_sized : Forall pending_sized (el_pending_deposits s)).
  Context (total : zsum (balances s) + zsum (pd_amount <$> el_pending_deposits s) < U64).
  Context (room : num_validators s + zlen (el_pending_deposits s) <= VALIDATOR_REGISTRY_LIMIT).
  Context (funds : 0 <= el_deposit_balance_to_consume s < 2 ^ 62).
  Implicit Types (d : PendingDeposit) (l : deposit_loop) (taken : list PendingDeposit).

Local Abbreviation queue := (el_pending_deposits s).
Local Abbreviation as_credited taken st :=
  (credited_as (validators s) (balances s) deposit_signed deposit_validator (credited s taken) st).

(** The loop's variables after the entries [taken]. *)
Record loop_at taken (reached : bool) l : Prop := {
  la_state : exists st, as_credited taken st /\ dl_state l = grown s st /\ zlen st.1 <= zlen taken;
  la_processed : dl_processed_amount l = churned s taken;
  la_next : dl_next_deposit_index l = zlen taken;
  la_postponed : dl_deposits_to_postpone l = postponed s taken;
  la_reached : dl_is_churn_limit_reached l = reached;
  la_index : forall pk, dl_pubkey_to_index l !! pk = position_in (validators (dl_state l)) pk;
}.

Lemma loop_at_start : loop_at [] false (mkDepositLoop s 0 0 [] false (registry_index (validators s))).
Proof using s_ok.
  split; try done.
  - exists ([], balances s). split_and!; [|by rewrite grown_start|done].
    apply credited_nil; [apply (bo_balances_length _ _ (electra_base s s_ok))|].
    eapply Forall_impl; [apply (electra_base s s_ok)|]. by intros b [? _].
  - intros pk. apply registry_index_lookup.
Qed.

Lemma deposit_make_pubkey d : v_pubkey (deposit_validator d) = pd_pubkey d.
Proof. done. Qed.

Lemma current_epoch_next : wadd (compute_epoch_at_slot (slot s) SLOTS_PER_EPOCH) 1 = get_current_epoch s + 1 /\
  0 <= get_current_epoch s < 2 ^ 63.
Proof using s_ok s_slot SpecOk0. by apply current_epoch_step. Qed.

(** What the loop reads of the validator is what the original registry says. *)
Lemma fate_in_loop taken st d :
  as_credited taken st ->
  let v := position_in (validators s ++ st.1) (pd_pubkey d) ≫= fun i => (validators s ++ st.1) !! i in
  fate s d = if match v with Some v => v_withdrawable_epoch v <? get_current_epoch s + 1 | None => false end
             then Unlimited
             else if match v with Some v => v_exit_epoch v <? FAR_FUTURE_EPOCH | None => false end
             then Postponed else Limited.
Proof using s_ok s_slot SpecOk0.
  intros Hc. cbv zeta. unfold fate. destruct (position_in (validators s) (pd_pubkey d)) as [i|] eqn:Hi.
  - rewrite position_in_app, Hi. cbn [mbind option_bind]. rewrite lookup_app_l by (by eapply position_in_lt).
    destruct (position_in_lookup _ _ _ Hi) as (v & -> & _). done.
  - pose proof (ca_new _ _ _ _ _ _ Hc _ Hi) as Hn.
    destruct (position_in (validators s ++ st.1) (pd_pubkey d)) as [j|]; [|done].
    destruct Hn as (x & _ & Hx & _). cbn [mbind option_bind]. rewrite Hx. cbn.
    destruct current_epoch_next as [_ ?]. rewrite Z.ltb_irrefl.
    destruct (Z.ltb_spec FAR_FUTURE_EPOCH (get_current_epoch s + 1)) as [Hlt|]; [|done].
    unfold FAR_FUTURE_EPOCH, u64_max, U64 in Hlt. lia.
Qed.

Lemma queue_nonneg : Forall (fun d => 0 <= pd_amount d) queue.
Proof using s_ok. eapply Forall_impl; [apply (eo_deposits s s_ok)|]. by intros d [[? _] _]. Qed.

Lemma taken_amounts taken d rest :
  queue = taken ++ d :: rest ->
  0 <= pd_amount d /\ 0 <= zsum (pd_amount <$> credited s taken) /\ 0 <= churned s taken /\
  zsum (balances s) + zsum (pd_amount <$> credited s taken) + pd_amount d < U64 /\
  churned s taken + pd_amount d < U64 /\ pending_sized d /\
  num_validators s + zlen taken < VALIDATOR_REGISTRY_LIMIT.
Proof using s_ok total room all_sized.
  intros Hq. pose proof queue_nonneg as Hn. rewrite Hq in Hn, all_sized.
  apply Forall_app in Hn as [Ht [Hd Hr]%Forall_cons]. apply Forall_app in all_sized as [_ [Hsz _]%Forall_cons].
  pose proof (zsum_filtered_le pd_amount (fun d => fate s d <> Postponed) taken Ht).
  pose proof (zsum_filtered_le pd_amount (fun d => fate s d = Limited) taken Ht).
  pose proof (zsum_filtered_le pd_amount (fun _ => True) rest Hr).
  assert (0 <= zsum (balances s)).
  { apply zsum_nonneg. eapply Forall_impl; [apply (electra_base s s_ok)|]. by intros b [? _]. }
  rewrite Hq, fmap_app, fmap_cons, zsum_app, zsum_cons in total.
  rewrite Hq, zlen_app, zlen_cons in room. pose proof (zlen_nonneg rest).
  unfold credited, churned. split_and!; try lia; done.
Qed.

(** One deposit applied in the loop is one deposit credited. *)
Lemma apply_in_loop taken st d rest :
  queue = taken ++ d :: rest -> as_credited taken st -> zlen st.1 <= zlen taken ->
  apply_pending_deposit (grown s st) d
  = Ok (grown s (credit (validators s) deposit_signed deposit_validator st d)).
Proof using s_ok total room all_sized CryptoOk0 SpecOk0.
  destruct st as [news bs]. intros Hq Hc Hn. cbn [fst] in Hn.
  destruct (taken_amounts taken d rest Hq) as (Ha & _ & _ & Hlt & _ & Hsz & Hroom).
  destruct Hc as [Hlen _ _ _ Hnn Hsum]. cbn [fst snd] in *.
  unfold apply_pending_deposit, credit. change (validators (grown s (news, bs))) with (validators s ++ news).
  destruct (position_in (validators s ++ news) (pd_pubkey d)) as [i|] eqn:Hi.
  - apply position_in_lt in Hi. rewrite length_app in Hi.
    destruct (lookup_lt_is_Some_2 bs i) as [b Hb]; [lia|].
    pose proof (Forall_lookup_1 _ _ _ _ Hnn Hb) as Hb0. pose proof (zsum_lookup_le bs i b Hnn Hb).
    rewrite (increase_grown s news bs i b) by (done || (cbn in *; lia)). by rewrite Hb.
  - rewrite deposit_signed_Ok by done. cbn [map_err mbind result_bind].
    destruct (deposit_signed d); [|done]. rewrite add_validator_grown; [done|done|lia|lia].
Qed.

Lemma credit_length st d :
  let st' := credit (validators s) deposit_signed deposit_validator st d in
  (length st.1 <= length st'.1)%nat /\ zlen st'.1 <= zlen st.1 + 1 /\
  (forall pk, position_in (validators s ++ st'.1) pk =
     match position_in (validators s ++ st.1) pk with
     | Some i => Some i
     | None => if (length st.1 <? length st'.1)%nat && bool_decide (pd_pubkey d = pk)
               then Some (length (validators s ++ st.1)) else None
     end).
Proof.
  destruct st as [news bs]. cbn [fst snd]. unfold credit. cbv zeta.
  assert (forall pk, position_in (validators s ++ news) pk =
    match position_in (validators s ++ news) pk with
    | Some i => Some i
    | None => if (length news <? length news)%nat && bool_decide (pd_pubkey d = pk)
              then Some (length (validators s ++ news)) else None
    end) as Hsame.
  { intros pk. rewrite Nat.ltb_irrefl. by destruct (position_in _ pk). }
  destruct (position_in (validators s ++ news) (pd_pubkey d)); cbn [fst snd]; [split_and!; [done|lia|done]|].
  destruct (deposit_signed d); cbn [fst snd]; [|split_and!; [done|lia|done]].
  rewrite length_app, zlen_app. change (zlen [deposit_validator d]) with 1. split_and!; [cbn; lia|lia|].
  intros pk. rewrite app_assoc, position_in_app. destruct (position_in (validators s ++ news) pk); [done|].
  rewrite position_in_single. cbn [length]. destruct (Nat.ltb_spec (length news) (length news + 1)); [|lia].
  rewrite deposit_make_pubkey. cbn [andb]. case_bool_decide; case_decide; try done. cbn. by rewrite Nat.add_0_r.
Qed.

(** The loop's variables after an entry that is credited. *)
Lemma loop_at_credit taken st d processed m :
  as_credited taken st -> zlen st.1 <= zlen taken -> 0 <= pd_amount d -> fate s d <> Postponed ->
  processed = churned s taken + (if decide (fate s d = Limited) then pd_amount d else 0) ->
  (forall pk, m !! pk =
     position_in (validators s ++ (credit (validators s) deposit_signed deposit_validator st d).1) pk) ->
  loop_at (taken ++ [d]) false
    (mkDepositLoop (grown s (credit (validators s) deposit_signed deposit_validator st d)) processed
       (zlen (taken ++ [d])) (postponed s taken) false m).
Proof using s_ok.
  intros Hc Hn Ha Hf Hp Hm. split; cbn; [|by rewrite churned_snoc|done| |done|done].
  - eexists. split_and!; [|done|].
    + rewrite credited_snoc, decide_True by done. apply credit_step; [done|done| |done].
      apply (bo_balances_length _ _ (electra_base s s_ok)).
    + destruct (credit_length st d) as (_ & Hl & _). rewrite zlen_app. change (zlen [d]) with 1. lia.
  - by rewrite postponed_snoc, decide_False, app_nil_r.
Qed.

Lemma credit_known st d :
  fate s d <> Limited -> (credit (validators s) deposit_signed deposit_validator st d).1 = st.1.
Proof.
  unfold fate. destruct st as [news bs]. unfold credit. rewrite position_in_app.
  by destruct (position_in (validators s) (pd_pubkey d)).
Qed.

(** The map follows the registry. *)
Lemma index_after_credit (m : gmap bytes nat) st d pk :
  (forall pk, m !! pk = position_in (validators s ++ st.1) pk) ->
  let s' := grown s (credit (validators s) deposit_signed deposit_validator st d) in
  (if (length (validators s ++ st.1) <? length (validators (el_deneb s')))%nat
   then or_insert m (pd_pubkey d) (length (validators s ++ st.1)) else m) !! pk
  = position_in (validators s') pk.
Proof.
  intros Hm s'. destruct (credit_length st d) as (Hle & _ & Hpos). 
  change (validators s') with (validators s ++ (credit (validators s) deposit_signed deposit_validator st d).1).
  rewrite Hpos, !length_app, <-Hm. set (n := length st.1) in *. set (n' := length (credit _ _ _ st d).1) in *.
  destruct (Nat.ltb_spec (length (validators s) + n) (length (validators s) + n')),
    (Nat.ltb_spec n n'); try lia; cbn [andb].
  - rewrite or_insert_lookup. destruct (m !! pk); [done|]. by case_decide; case_bool_decide.
  - by destruct (m !! pk).
Qed.

(** One iteration. *)
Lemma step_in_loop taken l d rest :
  queue = taken ++ d :: rest -> loop_at taken false l ->
  exists l', pending_deposit_step (get_current_epoch s + 1) (available s) l d =
    Ok (if bool_decide (fate s d = Limited) && (available s <? churned s taken + pd_amount d)
        then inr l' else inl l') /\
    if bool_decide (fate s d = Limited) && (available s <? churned s taken + pd_amount d)
    then loop_at taken true l' else loop_at (taken ++ [d]) false l'.
Proof using s_ok s_slot total room all_sized CryptoOk0 SpecOk0.
  intros Hq [(st & Hc & Hst & Hn) Hp Hx Hpp Hr Hi].
  destruct (taken_amounts taken d rest Hq) as (Ha & _ & Hch0 & _ & Hch & _ & Hroom).
  assert (wadd (dl_next_deposit_index l) 1 = zlen (taken ++ [d])) as Hnext.
  { rewrite Hx, zlen_app. change (zlen [d]) with 1. pose proof (zlen_nonneg taken).
    destruct registry_limit. unfold num_validators, zlen in *. apply wadd_small; unfold U64; lia. }
  pose proof (fate_in_loop taken st d Hc) as Hf. cbv zeta in Hf.
  unfold pending_deposit_step. rewrite Hi, Hp, Hnext, Hst, Hpp, Hr.
  change (validators (grown s st)) with (validators s ++ st.1).
  set (v := position_in (validators s ++ st.1) (pd_pubkey d) ≫= _) in *.
  destruct (match v with Some v => v_withdrawable_epoch v <? _ | None => false end);
    [|destruct (match v with Some v => v_exit_epoch v <? _ | None => false end)];
    rewrite Hf; [rewrite bool_decide_eq_false_2 by done..|rewrite bool_decide_eq_true_2 by done]; cbn [andb].
  - rewrite (apply_in_loop taken st d rest) by done. eexists. split; [done|].
    apply (loop_at_credit taken st d); auto; [by rewrite Hf|rewrite decide_False by (by rewrite Hf); lia|].
    intros pk. rewrite Hi, Hst, credit_known by (by rewrite Hf). done.
  - eexists. split; [done|]. split; cbn; [|rewrite churned_snoc, decide_False by (by rewrite Hf); lia|done| |done|].
    + exists st. rewrite credited_snoc, decide_False, app_nil_r by (rewrite Hf; auto). split_and!; [done..|].
      rewrite zlen_app. change (zlen [d]) with 1. lia.
    + by rewrite postponed_snoc, decide_True.
    + intros pk. rewrite Hi, Hst. done.
  - rewrite wadd_small by lia. destruct (Z.ltb_spec (available s) (churned s taken + pd_amount d)).
    + eexists. split; [done|]. split; cbn; [by exists st|done|by rewrite Hx|done|done|].
      intros pk. by rewrite Hi, Hst.
    + rewrite (apply_in_loop taken st d rest) by done. cbn [mbind result_bind].
      eexists. split; [done|]. apply (loop_at_credit taken st d); auto; [by rewrite Hf|by rewrite decide_True|].
      intros pk. rewrite Hst in Hi. by apply index_after_credit.
Qed.

(** Where the loop stops. *)
Record stops_at (k : nat) : Prop := {
  sa_length : (k <= length queue)%nat /\ Z.of_nat k <= MAX_PENDING_DEPOSITS_PER_EPOCH;
  sa_allowed : Forall (fun d => may_be_processed s d = true) (take k queue);
  sa_churn : churned s (take k queue) <= available s;
  sa_most : forall d, queue !! k = Some d ->
    may_be_processed s d = false \/ Z.of_nat k = MAX_PENDING_DEPOSITS_PER_EPOCH \/ churn_holds s k = true;
}.

Lemma queue_at taken d rest :
  queue = taken ++ d :: rest ->
  take (length taken) queue = taken /\ queue !! length taken = Some d /\ (length taken <= length queue)%nat.
Proof.
  intros ->. split_and!; [by apply take_app_length'| |rewrite length_app; lia].
  by rewrite lookup_app_r, Nat.sub_diag.
Qed.

Lemma loop_result rest : forall taken l,
  queue = taken ++ rest -> loop_at taken false l -> zlen taken <= MAX_PENDING_DEPOSITS_PER_EPOCH ->
  Forall (fun d => may_be_processed s d = true) taken -> churned s taken <= available s ->
  exists k l', pending_deposits_loop (get_current_epoch s + 1) (available s)
      (compute_start_slot_at_epoch (cp_epoch (finalized_checkpoint s)) SLOTS_PER_EPOCH) rest l = Ok l' /\
    loop_at (take k queue) (churn_holds s k) l' /\ stops_at k.
Proof using s_ok s_slot total room all_sized CryptoOk0 SpecOk0.
  induction rest as [|d rest IH]; intros taken l Hq Hl Hmax Hall Hch.
  { rewrite app_nil_r in Hq. exists (length taken), l.
    assert (take (length taken) queue = taken) as Ht by (rewrite Hq; by apply take_ge).
    assert (queue !! length taken = None) as Hnone by (rewrite Hq; by apply lookup_ge_None_2).
    split_and!; [done|unfold churn_holds; by rewrite Ht, Hnone|].
    split; [rewrite Hq; split; [done|exact Hmax]|by rewrite Ht..|by rewrite Hnone]. }
  destruct (queue_at taken d rest Hq) as (Ht & Hd & Hlen).
  assert (forall l, (may_be_processed s d = false \/ zlen taken = MAX_PENDING_DEPOSITS_PER_EPOCH) ->
    loop_at taken false l -> loop_at (take (length taken) queue) (churn_holds s (length taken)) l /\
      stops_at (length taken)) as Hstop.
  { intros l0 Hwhy Hl0. assert (churn_holds s (length taken) = false) as Hno.
    { unfold churn_holds. rewrite Hd. destruct Hwhy as [->|Hm]; [done|].
      destruct (Z.ltb_spec (Z.of_nat (length taken)) MAX_PENDING_DEPOSITS_PER_EPOCH) as [Hlt|];
        [unfold zlen in Hm; lia|]. by rewrite andb_false_r. }
    rewrite Hno, Ht. split; [done|]. split; [done|by rewrite Ht..|].
    intros x Hx. rewrite Hd in Hx. injection Hx as <-. destruct Hwhy; [by left|right; by left]. }
  cbn [pending_deposits_loop].
  destruct (la_state _ _ _ Hl) as (st & Hc & Hst & Hn). pose proof (la_next _ _ _ Hl) as Hx. rewrite Hst.
  change (eth1_deposit_index (grown s st)) with (eth1_deposit_index s).
  change (el_deposit_requests_start_index (grown s st)) with (el_deposit_requests_start_index s).
  unfold may_be_processed in Hstop at 1.
  destruct ((GENESIS_SLOT <? pd_slot d) && _) eqn:Hg1; [exists (length taken), l; split; [done|]; auto|].
  destruct (compute_start_slot_at_epoch _ _ <? pd_slot d) eqn:Hg2; [exists (length taken), l; split; [done|]; auto|].
  assert (may_be_processed s d = true) as Hmay by (unfold may_be_processed; by rewrite Hg1, Hg2).
  rewrite Hx. destruct (Z.leb_spec MAX_PENDING_DEPOSITS_PER_EPOCH (zlen taken)) as [Hm|Hm].
  { exists (length taken), l. split; [done|]. apply Hstop; [right; lia|done]. }
  destruct (step_in_loop taken l d rest Hq Hl) as (l' & -> & Hl'). cbn [mbind result_bind].
  destruct (bool_decide (fate s d = Limited) && (available s <? churned s taken + pd_amount d)) eqn:Hov.
  - assert (churn_holds s (length taken) = true) as Hyes.
    { unfold churn_holds. rewrite Hd, Hmay, Ht. rewrite <-andb_assoc, Hov, andb_true_r. cbn [andb].
      apply Z.ltb_lt. exact Hm. }
    exists (length taken), l'. split; [done|]. rewrite Hyes, Ht. split; [done|].
    split; [done|by rewrite Ht..|]. intros x _. right. by right.
  - apply (IH (taken ++ [d])); [by rewrite <-app_assoc|done| | |].
    + rewrite zlen_app. change (zlen [d]) with 1. lia.
    + apply Forall_app. split; [done|by constructor].
    + rewrite churned_snoc. apply andb_false_iff in Hov. case_decide as Hdec; [|by rewrite Z.add_0_r].
      destruct Hov as [Hov|Hov%Z.ltb_ge]; [by apply bool_decide_eq_false in Hov|exact Hov].
Qed.

(** ** The invariant *)
Lemma drop_unsigned_elem signed (l : list PendingDeposit) d : d ∈ drop_unsigned signed l -> d ∈ l.
Proof.
  induction l as [|x l IH]; cbn; [done|]. destruct (signed x); [done|]. intros ?. right. auto.
Qed.

Lemma counted_elem vs signed pk (l : list PendingDeposit) d : d ∈ counted vs signed pk l -> d ∈ l.
Proof.
  unfold counted, deposits_of. destruct (position_in vs pk); [|intros Hd%drop_unsigned_elem; revert Hd];
    by intros [_ ?]%list_elem_of_filter.
Qed.

Lemma deposit_validator_within d :
  u64 (pd_amount d) -> validator_within MAX_EFFECTIVE_BALANCE_ELECTRA (deposit_validator d).
Proof using SpecOk0 ForkSpecOk0.
  intros [? ?]. pose proof increment_pos. pose proof electra_balance_mod. pose proof activation_balance.
  pose proof activation_balance_mod. set (inc := EFFECTIVE_BALANCE_INCREMENT) in *.
  assert (0 <= pd_amount d mod inc <= pd_amount d).
  { split; [apply Z.mod_pos_bound; lia|apply Z.mod_le; lia]. }
  unfold deposit_validator, get_validator_from_deposit_electra. fold inc. set (v := mkValidator _ _ _ _ _ _ _ _).
  assert (0 <= get_max_effective_balance v <= MAX_EFFECTIVE_BALANCE_ELECTRA /\
    get_max_effective_balance v mod inc = 0) as [? ?].
  { unfold get_max_effective_balance. case_match; split; lia || done. }
  split; cbn; try (unfold FAR_FUTURE_EPOCH, u64, u64_max, U64; lia); fold inc.
  destruct (Z.min_spec (pd_amount d - pd_amount d mod inc) (get_max_effective_balance v)) as [ [_ ->]|[_ ->] ]; [|done].
  by rewrite Zminus_mod_idemp_r, Z.sub_diag.
Qed.

Lemma news_within taken st :
  as_credited taken st -> (forall d, d ∈ taken -> d ∈ queue) ->
  Forall (validator_within MAX_EFFECTIVE_BALANCE_ELECTRA) st.1.
Proof using s_ok SpecOk0 ForkSpecOk0.
  intros [_ _ Hnew Hown _ _] Hin. apply Forall_lookup. intros j v Hv.
  assert ((validators s ++ st.1) !! (length (validators s) + j)%nat = Some v) as Hv'.
  { rewrite lookup_app_r by lia. by rewrite Nat.add_comm, Nat.add_sub. }
  pose proof (Hown _ _ Hv' ltac:(lia)) as Hpos.
  assert (position_in (validators s) (v_pubkey v) = None) as Hnone.
  { rewrite position_in_app in Hpos. destruct (position_in (validators s) _) as [i|] eqn:Hi; [|done].
    injection Hpos as ->. apply position_in_lt in Hi. lia. }
  specialize (Hnew _ Hnone). rewrite Hpos in Hnew. destruct Hnew as (d & Hd & Hvd & _).
  rewrite Hv' in Hvd. injection Hvd as ->. apply deposit_validator_within.
  assert (d ∈ counted (validators s) deposit_signed (v_pubkey (deposit_validator d)) (credited s taken)) as Hc.
  { destruct (counted _ _ _ _); [done|]. injection Hd as ->. left. }
  apply counted_elem, list_elem_of_filter in Hc as [_ Hc].
  apply (proj1 (Forall_forall _ _) (eo_deposits s s_ok)). by apply Hin.
Qed.

Lemma grown_ok taken st q c :
  as_credited taken st -> (forall d, d ∈ taken -> d ∈ queue) -> zlen st.1 <= zlen taken -> zlen taken <= zlen queue ->
  zsum (pd_amount <$> credited s taken) <= zsum (pd_amount <$> queue) ->
  zlen q <= MAX_PENDING_DEPOSITS_LIMIT -> Forall pending_deposit_ok q -> u64 c ->
  electra_ok (el_with_deposit_balance_to_consume (el_with_pending_deposits (grown s st) q) c).
Proof using s_ok total room SpecOk0 ForkSpecOk0.
  intros Hc Hin Hn Ht Hle Hq Hqs Hcc. pose proof (news_within taken st Hc Hin) as Hw.
  destruct Hc as [Hlen _ _ _ Hnn Hsum].
  assert (Forall flags_ok (replicate (length st.1) 0)) as Hz by (apply Forall_replicate; unfold flags_ok; lia).
  assert (Forall u64 (replicate (length st.1) 0)) as Hz' by (apply Forall_replicate; unfold u64, U64; lia).
  assert (electra_ok (grown s st)) as Hg.
  { apply electra_ok_altair; [done|]. destruct (eo_altair s s_ok) as [Hb Hp Hcu Hi Hpf Hcf Hif].
    split; cbn [al_base al_previous_epoch_participation al_current_epoch_participation al_inactivity_scores
      validators with_balances with_validators].
    - destruct Hb. split; cbn; auto.
      + rewrite zlen_app. unfold num_validators in room. lia.
      + rewrite length_app. lia.
      + by apply Forall_app.
      + apply Forall_lookup. intros i b Hib. pose proof (Forall_lookup_1 _ _ _ _ Hnn Hib).
        pose proof (zsum_lookup_le st.2 i b Hnn Hib). cbn in *. unfold u64. lia.
    - by rewrite !length_app, length_replicate, Hp.
    - by rewrite !length_app, length_replicate, Hcu.
    - by rewrite !length_app, length_replicate, Hi.
    - by apply Forall_app.
    - by apply Forall_app.
    - by apply Forall_app. }
  destruct Hg. by split.
Qed.

Lemma process_pending_deposits_spec :
  exists k s', process_pending_deposits s = Ok s' /\ electra_ok s' /\ deposits_applied s k s'.
Proof using All.
  pose proof (exit_churn_bounds s) as Hch. destruct current_epoch_next as [Hnext _].
  destruct (loop_result queue [] _ (eq_refl _) loop_at_start) as (k & l & Hloop & Hat & Hk).
  { destruct deposits_per_epoch. change (zlen (@nil PendingDeposit)) with 0. lia. }
  { constructor. }
  { unfold churned, available. cbn. unfold zsum. cbn. lia. }
  destruct Hat as [(st & Hc & Hst & Hn) Hp Hx Hpp Hr _], Hk as [[Hk1 Hk2] Ha Hc1 Hm].
  unfold process_pending_deposits. rewrite Hnext.
  rewrite wadd_small by (unfold U64; lia). fold (available s). rewrite Hloop. cbn [mbind result_bind].
  assert (zlen (take k queue) = Z.of_nat k) as Hzk by (unfold zlen; rewrite length_take; lia).
  assert (Z.to_nat (dl_next_deposit_index l) = k) as -> by (rewrite Hx; lia).
  rewrite Hpp, Hst, Hr, Hp.
  assert (zlen (drop k queue ++ postponed s (take k queue)) <= MAX_PENDING_DEPOSITS_LIMIT) as Hlim.
  { pose proof (eo_deposits_limit s s_ok). unfold zlen in *. rewrite length_app, length_drop.
    pose proof (length_filter (fun d => fate s d = Postponed) (take k queue)) as Hf.
    rewrite length_take in Hf. unfold postponed. lia. }
  destruct (Z.ltb_spec MAX_PENDING_DEPOSITS_LIMIT (zlen (drop k queue ++ postponed s (take k queue)))); [lia|].
  pose proof (Forall_take _ k _ queue_nonneg) as Hnn.
  pose proof (zsum_filtered_le pd_amount (fun d => fate s d = Limited) (take k queue) Hnn) as Hpos.
  fold (churned s (take k queue)) in Hpos.
  assert ((if churn_holds s k then wsub (available s) (churned s (take k queue)) else 0)
    = if churn_holds s k then available s - churned s (take k queue) else 0) as ->.
  { destruct (churn_holds s k); [|done]. apply wsub_small. unfold available, U64 in *. lia. }
  exists k. eexists. split; [done|]. split.
  - apply (grown_ok (take k queue) st); try done.
    + intros d (i & Hi)%list_elem_of_lookup. apply lookup_take_Some in Hi as [Hi _].
      by eapply list_elem_of_lookup_2.
    + rewrite Hzk. unfold zlen. lia.
    + pose proof (zsum_filtered_le pd_amount (fun d => fate s d <> Postponed) (take k queue) Hnn).
      rewrite <-(take_drop k queue) at 2. rewrite fmap_app, zsum_app.
      pose proof (zsum_filtered_le pd_amount (fun _ => True) (drop k queue) (Forall_drop _ k _ queue_nonneg)).
      unfold credited. lia.
    + pose proof (eo_deposits s s_ok) as Hd. apply Forall_app. split; [by apply Forall_drop|].
      apply Forall_forall. intros d [_ Hin]%list_elem_of_filter.
      by apply (proj1 (Forall_forall _ _) (Forall_take _ k _ Hd)).
    + destruct (churn_holds s k); unfold u64, available, U64 in *; lia.
  - split; [done..|]. destruct st as [news bs]. exists news, bs. split; done.
Qed.
End loop.

(** C16: the queue of pending deposits is processed in order and within the churn.
    With the deposits' sizes as their types fix them and room for their amounts and
    validators, [process_pending_deposits] succeeds, keeps the invariant, and there
    is [k] such that exactly the first [k] entries are taken: each of them may be
    processed, [k] is within the limit per epoch, those that use the churn sum to at
    most what is available, and the next entry may not be processed or does not fit
    in the churn.  The new queue is the rest followed by the postponed entries (those
    of exiting validators); the unused churn is carried over exactly if the churn
    stopped the loop.  Every validator of the registry keeps its record and gains
    exactly its credited deposits; a pubkey outside the registry joins it exactly if
    one of its credited deposits is validly signed, with the record of the first such
    deposit and the sum of its deposits from that one on; nothing else changes.  The
    lookup map, kept across the loop, never disagrees with a scan of the registry. *)
Theorem pending_deposits_exact `{Crypto} `{!CryptoOk _} `{Sp : BeaconSpec} `{Fs : ForkSpec} `{!SpecOk Sp}
    `{!ForkSpecOk Sp Fs} (s : ElectraState) :
  electra_ok s -> slot s < 2 ^ 63 -> Forall pending_sized (el_pending_deposits s) ->
  zsum (balances s) + zsum (pd_amount <$> el_pending_deposits s) < U64 ->
  num_validators s + zlen (el_pending_deposits s) <= VALIDATOR_REGISTRY_LIMIT ->
  0 <= el_deposit_balance_to_consume s < 2 ^ 62 ->
  exists k s', process_pending_deposits s = Ok s' /\ electra_ok s' /\ deposits_applied s k s'.
Proof. intros. by apply process_pending_deposits_spec. Qed.

(** Four entries: a top-up, one of an exiting validator, a new validator and one
    that exceeds the churn of 64 units. *)
Definition ex_deposit_of (k increments : Z) : PendingDeposit :=
  mkPendingDeposit (to_le_bytes 48 k) (replicate 32 Byte.x00) (increments * 1000000000)
    (replicate 96 Byte.x00) 0.
Definition ex_depositing : ElectraState :=
  ex_electra 16 [ex_member 0 Byte.x01 32 u64_max u64_max; ex_member 1 Byte.x01 32 9 300]
    [32000000000; 32000000000]
    [ex_deposit_of 0 1; ex_deposit_of 1 2; ex_deposit_of 2 32; ex_deposit_of 0 40] [] [].

Lemma pending_deposits_exact_witness :
  exists k s', @process_pending_deposits ex_crypto minimal minimal_forks ex_depositing = Ok s' /\
    @deposits_applied ex_crypto minimal minimal_forks ex_depositing k s' /\
    el_pending_deposits s' = [ex_deposit_of 0 40; ex_deposit_of 1 2] /\
    balances s' = [33000000000; 32000000000; 32000000000] /\
    el_deposit_balance_to_consume s' = 31000000000.
Proof.
  destruct (@pending_deposits_exact ex_crypto _ minimal minimal_forks _ _ ex_depositing) as (k & s' & Hs & _ & Hd).
  - apply ex_electra_ok; ex_ranges.
  - vm_compute. reflexivity.
  - repeat constructor.
  - vm_compute. reflexivity.
  - vm_compute. congruence.
  - split; vm_compute; congruence || reflexivity.
  - exists k, s'. split; [exact Hs|]. split; [exact Hd|].
    assert (ok_value ex_depositing (@process_pending_deposits ex_crypto minimal minimal_forks ex_depositing) = s')
      as <- by (by rewrite Hs).
    split_and!; vm_compute; reflexivity.
Defined.
