(* ===== verification/ElectraRequests.v ===== *)
(** * Requests of the execution layer

    What [process_withdrawal_request], [process_consolidation_request] and
    [process_deposit_request] (crates/pharos-stf/src/electra/operations) do, on
    every branch. *)

From stdpp Require Import gmap.
From Stdlib Require Import ZArith Lia.
From S2P Require Import Prelude SszCodec SszBitfield SszTypes Merkle Shuffling Spec BeaconState Invariant Roots Accessors Mutators Justification Rewards EpochUpdates Operations Forks ForkInvariant Altair Electra Withdrawals ElectraQueues.

Section requests.
  Context `{Crypto} `{Sp : BeaconSpec} `{Fs : ForkSpec} `{!SpecOk Sp} `{!ForkSpecOk Sp Fs}.
  Implicit Types s : ElectraState.

(** The request comes from the validator's withdrawal address, and the validator
    is active, has not begun to exit and was active long enough. *)
Definition may_leave s (v : Validator) (source_address : bytes) : bool :=
  has_execution_withdrawal_credential v
  && bool_decide (drop 12 (v_withdrawal_credentials v) = source_address)
  && is_active_validator v (get_current_epoch s)
  && (v_exit_epoch v =? FAR_FUTURE_EPOCH)
  && (wadd (v_activation_epoch v) SHARD_COMMITTEE_PERIOD <=? get_current_epoch s).

(** The validator a request names, if it may leave. *)
Definition leaver s (pubkey source_address : bytes) : option (nat * Validator) :=
  i ← position_in (validators s) pubkey;
  v ← validators s !! i;
  if may_leave s v source_address then Some (i, v) else None.

Definition pending_of s (i : nat) : Z :=
  zsum (ppw_amount <$> filter (fun w => ppw_validator_index w = Z.of_nat i) (el_pending_partial_withdrawals s)).

(** What validator [i] may withdraw beyond the minimum and what is already queued. *)
Definition excess_of s (i : nat) : Z := default 0 (balances s !! i) - MIN_ACTIVATION_BALANCE - pending_of s i.

Definition partial_allowed s (i : nat) (v : Validator) : bool :=
  has_compounding_withdrawal_credential v && (MIN_ACTIVATION_BALANCE <=? v_effective_balance v)
  && (0 <? excess_of s i).

(** A partial withdrawal queued, with the churn fields it leaves. *)
Definition queued s (i : nat) (amount e rest : Z) : ElectraState :=
  el_with_pending_partial_withdrawals
    (el_with_earliest_exit_epoch (el_with_exit_balance_to_consume s rest) e)
    (el_pending_partial_withdrawals s
       ++ [mkPendingPartialWithdrawal (Z.of_nat i) amount (e + MIN_VALIDATOR_WITHDRAWABILITY_DELAY)]).

Lemma may_leave_gates {A} s v addr (no yes : A) :
  (if negb (has_execution_withdrawal_credential v
            && bool_decide (drop 12 (v_withdrawal_credentials v) = addr)) then no
   else if negb (is_active_validator v (get_current_epoch s)) then no
   else if negb (v_exit_epoch v =? FAR_FUTURE_EPOCH) then no
   else if get_current_epoch s <? wadd (v_activation_epoch v) SHARD_COMMITTEE_PERIOD then no
   else yes)
  = if may_leave s v addr then yes else no.
Proof.
  unfold may_leave. rewrite Z.ltb_antisym.
  destruct (_ && bool_decide _), (is_active_validator v _), (v_exit_epoch v =? _), (_ <=? _); done.
Qed.

Lemma pending_value s i :
  electra_ok s -> zsum (ppw_amount <$> el_pending_partial_withdrawals s) < 2 ^ 60 ->
  get_pending_balance_to_withdraw_electra s (Z.of_nat i) = pending_of s i /\ 0 <= pending_of s i < 2 ^ 60.
Proof.
  intros Hs Hsum. assert (Forall (fun w => 0 <= ppw_amount w) (el_pending_partial_withdrawals s)) as Hn.
  { eapply Forall_impl; [apply (eo_partials s Hs)|]. by intros w (_ & [? _] & _). }
  pose proof (zsum_filtered_le ppw_amount (fun w => ppw_validator_index w = Z.of_nat i) _ Hn) as Hle.
  unfold get_pending_balance_to_withdraw_electra. fold (pending_of s i) in Hle.
  rewrite wsum_no_wrap; [split; [done|lia]| |fold (pending_of s i); unfold U64; lia].
  apply Forall_fmap, Forall_forall. intros w [_ Hw]%list_elem_of_filter. by apply (proj1 (Forall_forall _ _) Hn).
Qed.

Lemma position_in_registry s pk i : position_in (validators s) pk = Some i -> exists v, validators s !! i = Some v.
Proof. intros (v & Hv & _)%position_in_lookup. eauto. Qed.

(** The test the code makes on a sum is one on the excess. *)
Lemma excess_test s i v :
  electra_ok s -> zsum (ppw_amount <$> el_pending_partial_withdrawals s) < 2 ^ 60 ->
  has_compounding_withdrawal_credential v && (MIN_ACTIVATION_BALANCE <=? v_effective_balance v)
  && (wadd MIN_ACTIVATION_BALANCE (get_pending_balance_to_withdraw_electra s (Z.of_nat i)) <? default 0 (balances s !! i))
  = has_compounding_withdrawal_credential v && (MIN_ACTIVATION_BALANCE <=? v_effective_balance v)
    && (0 <? excess_of s i).
Proof.
  intros Hs Hq. destruct (pending_value s i Hs Hq) as [-> Hp]. pose proof activation_balance.
  pose proof electra_balance_bound. pose proof increment_pos.
  rewrite wadd_small by (unfold U64; lia). f_equal. unfold excess_of.
  destruct (Z.ltb_spec (MIN_ACTIVATION_BALANCE + pending_of s i) (default 0 (balances s !! i)));
    symmetry; [apply Z.ltb_lt|apply Z.ltb_ge]; lia.
Qed.

Lemma pending_queued s i amount e rest : pending_of (queued s i amount e rest) i = pending_of s i + amount.
Proof.
  unfold pending_of. cbn [queued el_pending_partial_withdrawals el_with_pending_partial_withdrawals].
  rewrite filter_app, fmap_app, zsum_app. f_equal. rewrite filter_cons, filter_nil. cbn.
  rewrite decide_True by done. cbn. unfold zsum. cbn. lia.
Qed.

Lemma may_leave_exit s v addr : may_leave s v addr = true -> v_exit_epoch v = FAR_FUTURE_EPOCH.
Proof. unfold may_leave. rewrite !andb_true_iff. by intros ((_ & ?%Z.eqb_eq) & _). Qed.

(** The two outcomes of a request that passes its gates. *)
Lemma full_request_Ok s i v addr :
  electra_ok s -> exits_in_range s -> validators s !! i = Some v -> may_leave s v addr = true ->
  exists s', initiate_validator_exit_electra s (Z.of_nat i) = Ok s' /\ electra_ok s' /\
    exists e rest, s' = exited s (Z.of_nat i) v e rest /\ exit_front s <= e.
Proof.
  intros Hs Hr Hv Hml%may_leave_exit.
  destruct (initiate_exit_Ok s (Z.of_nat i) v Hs Hr) as (e & rest & Hi & He & Hrest & _); [lia|by rewrite Nat2Z.id|done|].
  exists (exited s (Z.of_nat i) v e rest). split; [done|]. split; [|by exists e, rest; split; [|lia]].
  destruct Hr as [Hsl Hee [Hr0 Hr1]]. pose proof (exit_churn_bounds s). pose proof electra_balance_bound.
  destruct (validator_within_at _ _ _ _ (electra_base s Hs) Hv) as [Hb _ _ _ _ _].
  destruct (activation_exit_value s Hsl) as (_ & Har & _).
  assert (0 <= exit_front s <= 2 ^ 61) by (unfold exit_front; lia).
  assert (exit_room s <= 2 ^ 60) by (unfold exit_room; case_match; lia).
  apply exited_ok; [done|by rewrite Nat2Z.id|lia|unfold u64, U64; lia].
Qed.

Lemma partial_request_Ok s i v amount :
  electra_ok s -> exits_in_range s -> validators s !! i = Some v ->
  zsum (ppw_amount <$> el_pending_partial_withdrawals s) < 2 ^ 60 ->
  zsum (balances s) < 2 ^ 60 -> 0 < amount -> 0 < excess_of s i ->
  zlen (el_pending_partial_withdrawals s) < MAX_PENDING_PARTIAL_WITHDRAWALS_LIMIT ->
  let balance := default 0 (balances s !! i) in
  let pending := get_pending_balance_to_withdraw_electra s (Z.of_nat i) in
  let to_withdraw := Z.min (wsub (wsub balance MIN_ACTIVATION_BALANCE) pending) amount in
  exists e rest,
    ('(s, exit_queue_epoch) ← compute_exit_epoch_and_update_churn_electra s to_withdraw;
     let withdrawable_epoch := wadd exit_queue_epoch MIN_VALIDATOR_WITHDRAWABILITY_DELAY in
     let pending := mkPendingPartialWithdrawal (Z.of_nat i) to_withdraw withdrawable_epoch in
     l ← map_err Ssz (list_with_push MAX_PENDING_PARTIAL_WITHDRAWALS_LIMIT
                        (el_pending_partial_withdrawals s) pending);
     Ok (el_with_pending_partial_withdrawals s l))
    = Ok (queued s i (Z.min (excess_of s i) amount) e rest) /\ exit_front s <= e /\
      electra_ok (queued s i (Z.min (excess_of s i) amount) e rest).
Proof.
  intros Hs Hr Hv Hq Hb Ha Hx Hlen. cbv zeta. destruct (pending_value s i Hs Hq) as [-> Hp].
  pose proof activation_balance. pose proof increment_pos. pose proof withdrawability_delay.
  assert (Forall (Z.le 0) (balances s)) as Hnn.
  { eapply Forall_impl; [apply (electra_base s Hs)|]. by intros b [? _]. }
  assert (default 0 (balances s !! i) < 2 ^ 60).
  { destruct (balances s !! i) as [b|] eqn:Hbi; cbn; [|lia]. pose proof (zsum_lookup_le _ _ _ Hnn Hbi). lia. }
  unfold excess_of in Hx. rewrite !wsub_small by (rewrite ?wsub_small; unfold U64; lia). fold (excess_of s i) in *.
  destruct (exit_epoch_Ok s (Z.min (excess_of s i) amount) Hr) as (e & rest & -> & He & Hf1 & Hf0 & Hrest & Heq).
  { unfold excess_of in *. lia. }
  cbn [mbind result_bind]. rewrite wadd_small by (unfold excess_of, U64 in *; lia).
  unfold list_with_push. cbn [el_pending_partial_withdrawals el_with_earliest_exit_epoch el_with_exit_balance_to_consume].
  destruct (Z.leb_spec MAX_PENDING_PARTIAL_WITHDRAWALS_LIMIT (zlen (el_pending_partial_withdrawals s))); [lia|].
  exists e, rest. split; [done|]. split; [lia|].
  destruct (eir_room s Hr). pose proof (exit_churn_bounds s).
  assert (exit_room s <= 2 ^ 60) by (unfold exit_room; case_match; lia).
  destruct Hs. split; cbn; auto.
  - unfold u64, U64. lia.
  - unfold u64, U64, excess_of in *. lia.
  - rewrite zlen_app. change (zlen [_]) with 1. lia.
  - apply Forall_app. split; [done|]. constructor; [|done].
    apply lookup_lt_Some in Hv. destruct eo_altair as [[] _ _ _ _ _ _]. destruct registry_limit. unfold zlen in *.
    split_and!; cbn; unfold u64, U64, excess_of in *; lia.
Qed.
End requests.

(** A withdrawal request does only what its validator's owner may ask for.  It
    always succeeds and keeps the invariant.  It changes nothing unless it names a
    registered validator, comes from its withdrawal address, and the validator is
    active, has not begun to exit and was active long enough.  A request of amount 0
    then starts the exit, unless a withdrawal of the validator is still queued.  Any
    other amount queues a partial withdrawal, if the queue has room, the credentials
    are compounding and the validator has an excess over the minimum balance and
    what it has queued; the amount queued is at most the request and at most that
    excess, so the minimum balance stays covered. *)
Theorem withdrawal_request_exact `{Crypto} `{Sp : BeaconSpec} `{Fs : ForkSpec} `{!SpecOk Sp}
    `{!ForkSpecOk Sp Fs} (s : ElectraState) (r : WithdrawalRequest) :
  electra_ok s -> exits_in_range s -> zsum (ppw_amount <$> el_pending_partial_withdrawals s) < 2 ^ 60 ->
  zsum (balances s) < 2 ^ 60 -> 0 <= wr_amount r ->
  exists s', process_withdrawal_request s r = Ok s' /\ electra_ok s' /\
    match leaver s (wr_validator_pubkey r) (wr_source_address r) with
    | None => s' = s
    | Some (i, v) =>
        if wr_amount r =? 0 then
          if pending_of s i =? 0
          then exists e rest, s' = exited s (Z.of_nat i) v e rest /\ exit_front s <= e
          else s' = s
        else if partial_allowed s i v
                && negb (zlen (el_pending_partial_withdrawals s) =? MAX_PENDING_PARTIAL_WITHDRAWALS_LIMIT)
        then exists e rest, s' = queued s i (Z.min (excess_of s i) (wr_amount r)) e rest /\
               exit_front s <= e /\
               MIN_ACTIVATION_BALANCE + pending_of s' i <= default 0 (balances s' !! i)
        else s' = s
    end.
Proof.
  intros Hs Hr Hq Hb Ha. unfold process_withdrawal_request, leaver, FULL_EXIT_REQUEST_AMOUNT.
  pose proof (eo_partials_limit s Hs) as Hlim.
  destruct (position_in (validators s) (wr_validator_pubkey r)) as [i|] eqn:Hi.
  2:{ cbn [mbind option_bind]. case_match; by exists s. }
  destruct (position_in_registry s _ i Hi) as [v Hv]. cbn [mbind option_bind]. rewrite Hv. cbn [ok_or mbind result_bind].
  fold (get_current_epoch s). cbv zeta. rewrite may_leave_gates.
  destruct (pending_value s i Hs Hq) as [Hpv Hp0]. cbn [option_bind].
  destruct (may_leave s v (wr_source_address r)) eqn:Hml; [|case_match; by exists s].
  destruct (Z.eqb_spec (wr_amount r) 0) as [H0|H0].
  - rewrite andb_false_r, Hpv. destruct (pending_of s i =? 0); [|by exists s].
    by apply (full_request_Ok s i v (wr_source_address r)).
  - rewrite andb_true_r. destruct (Z.eqb_spec (zlen (el_pending_partial_withdrawals s)) MAX_PENDING_PARTIAL_WITHDRAWALS_LIMIT)
      as [Hfull|Hfull]; [rewrite andb_false_r; by exists s|]. rewrite andb_true_r.
    rewrite excess_test by done. unfold partial_allowed. destruct (_ && (0 <? excess_of s i)) eqn:Hx; [|by exists s].
    apply andb_true_iff in Hx as [_ Hx%Z.ltb_lt].
    destruct (partial_request_Ok s i v (wr_amount r)) as (e & rest & Hok & He & Hk); [try done; lia..|].
    eexists. split; [exact Hok|]. split; [exact Hk|]. exists e, rest. split; [done|]. split; [done|].
    rewrite pending_queued. change (balances (queued s i _ e rest)) with (balances s). unfold excess_of. lia.
Qed.

(** A compounding validator of 40 units with 3 already queued asks for 9: 5 are
    queued. *)
Definition ex_withdrawing : ElectraState :=
  ex_electra 800 [ex_member 0 Byte.x02 40 u64_max u64_max] [40000000000] []
    [mkPendingPartialWithdrawal 0 3000000000 0] [].
Definition ex_withdrawal_request : WithdrawalRequest :=
  mkWithdrawalRequest (replicate 20 Byte.xaa) (to_le_bytes 48 0) 9000000000.

Lemma withdrawal_request_exact_witness :
  exists s', @process_withdrawal_request minimal minimal_forks ex_withdrawing ex_withdrawal_request = Ok s' /\
    @electra_ok minimal minimal_forks s' /\
    el_pending_partial_withdrawals s'
    = [mkPendingPartialWithdrawal 0 3000000000 0; mkPendingPartialWithdrawal 0 5000000000 361].
Proof.
  destruct (@withdrawal_request_exact ex_crypto minimal minimal_forks _ _ ex_withdrawing ex_withdrawal_request)
    as (s' & Hs & Hok & _).
  - apply ex_electra_ok; ex_ranges.
  - split; split; vm_compute; congruence || reflexivity.
  - vm_compute. reflexivity.
  - vm_compute. reflexivity.
  - vm_compute. congruence.
  - exists s'. split; [exact Hs|]. split; [exact Hok|].
    assert (ok_value ex_withdrawing (@process_withdrawal_request minimal minimal_forks ex_withdrawing ex_withdrawal_request)
      = s') as <- by (by rewrite Hs).
    vm_compute. reflexivity.
Defined.
