(* ===== verification/ElectraEpoch.v ===== *)
(** * Electra epoch processing

    crates/pharos-stf/src/electra/epoch (registry_updates, slashings,
    effective_balance_updates, sync_committee_updates, mod) and
    process_historical_summaries_update of capella/epoch/mod.rs.  The steps that
    Electra does not change run on the Altair, Capella or Deneb part of the state,
    as the code runs them on a projection and copies the fields back. *)

From stdpp Require Import gmap.
From Stdlib Require Import ZArith Lia.
From S2P Require Import Prelude SszCodec SszBitfield SszTypes Merkle SszTree Shuffling Spec BeaconState Invariant Roots Accessors Mutators Justification Rewards EpochUpdates Operations Genesis Forks ForkInvariant Altair AltairFacts Electra Withdrawals ElectraQueues PendingDeposits.

Section epoch.
  Context `{Crypto} `{S : BeaconSpec} `{F : ForkSpec} `{Aggregation}.
  Implicit Types s : ElectraState.
  Local Abbreviation fallible := (result EpochProcessingError).

(** ** registry_updates.rs *)
Definition is_eligible_for_activation_queue_electra (v : Validator) : bool :=
  (v_activation_eligibility_epoch v =? FAR_FUTURE_EPOCH)
  && (MIN_ACTIVATION_BALANCE <=? v_effective_balance v).

Definition registry_step_electra (current_epoch activation_epoch finalized_epoch : Z) s (index : Z)
    : fallible ElectraState :=
  v ← ok_or (validator s index) (ValidatorIndexOutOfRange index);
  if is_eligible_for_activation_queue_electra v then
    map_err epoch_error
      (el_set_validator s index (v_with_activation_eligibility_epoch v (wadd current_epoch 1)))
  else if is_active_validator v current_epoch && (v_effective_balance v <=? EJECTION_BALANCE) then
    map_err (fun _ => ValidatorIndexOutOfRange index) (initiate_validator_exit_electra s index)
  else if is_eligible_for_activation finalized_epoch v then
    map_err epoch_error (el_set_validator s index (v_with_activation_epoch v activation_epoch))
  else Ok s.

Definition process_registry_updates_electra s : fallible ElectraState :=
  let current_epoch := get_current_epoch_electra s in
  let activation_epoch := compute_activation_exit_epoch current_epoch MAX_SEED_LOOKAHEAD in
  let finalized_epoch := cp_epoch (finalized_checkpoint s) in
  foldM (registry_step_electra current_epoch activation_epoch finalized_epoch)
    (seqZ 0 (num_validators s)) s.

(** ** slashings.rs *)
Definition slashing_step_electra (penalty_per_effective_balance_increment : Z) s (entry : Z * Z)
    : fallible ElectraState :=
  let '(i, effective_balance) := entry in
  let effective_balance_increments := effective_balance / EFFECTIVE_BALANCE_INCREMENT in
  let penalty := wmul penalty_per_effective_balance_increment effective_balance_increments in
  map_err epoch_error (decrease_balance_electra s i penalty).

Definition process_slashings_electra s : fallible ElectraState :=
  let epoch := get_current_epoch_electra s in
  let total_balance := get_total_active_balance_electra s in
  let total_slashings := wsum (slashings s) in
  let adjusted_total_slashing_balance :=
    Z.min (wmul total_slashings PROPORTIONAL_SLASHING_MULTIPLIER_BELLATRIX) total_balance in
  penalty_per_effective_balance_increment ←
    rdiv adjusted_total_slashing_balance (total_balance / EFFECTIVE_BALANCE_INCREMENT);
  let slashing_epoch_mid := wadd epoch (EPOCHS_PER_SLASHINGS_VECTOR / 2) in
  let slashable :=
    omap (fun '(i, v) => if v_slashed v && (slashing_epoch_mid =? v_withdrawable_epoch v)
                         then Some (i, v_effective_balance v) else None)
      (enumerate (validators s)) in
  foldM (slashing_step_electra penalty_per_effective_balance_increment) slashable s.

(** ** effective_balance_updates.rs *)
Definition effective_balance_update_electra (balance eff_bal max_eff : Z) : option Z :=
  if (wadd balance downward_threshold <? eff_bal) || (wadd eff_bal upward_threshold <? balance)
  then Some (Z.min (balance - balance mod EFFECTIVE_BALANCE_INCREMENT) max_eff)
  else None.

Definition effective_balance_step_electra s (entry : Z * option Z) : fallible ElectraState :=
  let '(i, maybe_new) := entry in
  match maybe_new with
  | Some new_eff =>
      v ← ok_or (validator s i) (ValidatorIndexOutOfRange i);
      map_err epoch_error (el_set_validator s i (v_with_effective_balance v new_eff))
  | None => Ok s
  end.

Definition process_effective_balance_updates_electra s : fallible ElectraState :=
  let updates :=
    (fun i => effective_balance_update_electra (default 0 (balance_at s i))
                (default 0 (v_effective_balance <$> validator s i))
                (default 0 (get_max_effective_balance <$> validator s i)))
    <$> seqZ 0 (num_validators s) in
  foldM effective_balance_step_electra (enumerate updates) s.

(** ** sync_committee_updates.rs *)
Definition process_sync_committee_updates_electra s : fallible ElectraState :=
  let next_epoch := wadd (get_current_epoch_electra s) 1 in
  if next_epoch mod EPOCHS_PER_SYNC_COMMITTEE_PERIOD =? 0 then
    let rotate a := al_with_current_sync_committee a (al_next_sync_committee a) in
    let s := el_with_deneb s (de_with_altair (el_deneb s) (rotate (de_altair (el_deneb s)))) in
    new_next ← map_err sync_committee_error (get_next_sync_committee_electra s);
    Ok (el_with_deneb s (de_with_altair (el_deneb s)
          (al_with_next_sync_committee (de_altair (el_deneb s)) new_next)))
  else Ok s.

(** ** capella/epoch/mod.rs *)
Definition process_historical_summaries_update (c : CapellaState) : fallible CapellaState :=
  let current_epoch := compute_epoch_at_slot (slot c) SLOTS_PER_EPOCH in
  let next_epoch := wadd current_epoch 1 in
  let period := SLOTS_PER_HISTORICAL_ROOT / SLOTS_PER_EPOCH in
  if next_epoch mod period =? 0 then
    block_summary_root ← root_value (basic_vector_root hash256_tree_hash (block_roots c));
    state_summary_root ← root_value (basic_vector_root hash256_tree_hash (state_roots c));
    l ← map_err EpochSsz (list_with_push HISTORICAL_ROOTS_LIMIT (ca_historical_summaries c)
          (mkHistoricalSummary block_summary_root state_summary_root));
    Ok (ca_with_historical_summaries c l)
  else Ok c.

(** ** mod.rs *)

(** A step on the Altair projection, copied back. *)
Definition on_altair_projection (f : AltairState -> fallible AltairState) s : fallible ElectraState :=
  altair ← f (capella_state_to_altair (deneb_state_to_capella (electra_state_to_deneb s)));
  Ok (sync_altair_into_electra s altair).

Definition process_epoch_electra s : fallible ElectraState :=
  s ← on_altair_projection process_justification_and_finalization_altair s;
  s ← on_altair_projection process_inactivity_updates s;
  deneb ← process_rewards_and_penalties_deneb (electra_state_to_deneb s);
  let s := update_electra_from_deneb s deneb in
  s ← process_registry_updates_electra s;
  s ← process_slashings_electra s;
  s ← on_altair_projection (al_on process_eth1_data_reset) s;
  s ← process_pending_deposits s;
  s ← process_pending_consolidations s;
  s ← process_effective_balance_updates_electra s;
  s ← on_altair_projection (fun altair =>
        altair ← al_on process_slashings_reset altair; al_on process_randao_mixes_reset altair) s;
  capella ← process_historical_summaries_update (deneb_state_to_capella (electra_state_to_deneb s));
  let deneb := update_deneb_from_capella (electra_state_to_deneb s) capella in
  let s := update_electra_from_deneb s deneb in
  s ← on_altair_projection process_participation_flag_updates s;
  process_sync_committee_updates_electra s.
End epoch.

(** ** Every step keeps the invariant *)
Section keeps.
  Context `{Crypto} `{Sp : BeaconSpec} `{Fs : ForkSpec} `{Aggregation} `{!SpecOk Sp} `{!ForkSpecOk Sp Fs}.
  Implicit Types s : ElectraState.

(** What belongs to the blocks' payloads. *)
Definition payload_fields s :=
  (de_latest_execution_payload_header s, de_next_withdrawal_index s, de_next_withdrawal_validator_index s).

(** What every step after justification promises. *)
Record kept s s' : Prop := {
  kp_ok : electra_ok s';
  kp_chain : chain_frame s s';
  kp_payload : payload_fields s' = payload_fields s;
  kp_flags : exists n, al_current_epoch_participation s' = al_current_epoch_participation s ++ replicate n 0;
}.

Lemma same_flags s s' :
  al_current_epoch_participation s' = al_current_epoch_participation s ->
  exists n, al_current_epoch_participation s' = al_current_epoch_participation s ++ replicate n 0.
Proof. intros ->. exists 0%nat. by rewrite app_nil_r. Qed.

Lemma epoch_kept_refl s : electra_ok s -> kept s s.
Proof. intros Hs. split; [done|apply chain_frame_refl|done|by apply same_flags]. Qed.
Lemma kept_trans s1 s2 s3 : kept s1 s2 -> kept s2 s3 -> kept s1 s3.
Proof.
  intros [_ H1 P1 [n Hn]] [H2 H3 P2 [m Hm]]. split; [done|by eapply chain_frame_trans|congruence|].
  exists (n + m)%nat. by rewrite Hm, Hn, replicate_add, app_assoc.
Qed.

Lemma foldM_kept {E A} (f : ElectraState -> A -> result E ElectraState) l s s' :
  (forall s a s', electra_ok s -> a ∈ l -> f s a = Ok s' -> kept s s') ->
  electra_ok s -> foldM f l s = Ok s' -> kept s s'.
Proof.
  revert s. induction l as [|a l IH]; intros s Hf Hs; cbn [foldM].
  { intros [= <-]. by apply epoch_kept_refl. }
  intros (s1 & H1 & H2)%bind_Ok_inv. pose proof (Hf s a s1 Hs ltac:(left) H1) as K1.
  eapply kept_trans; [exact K1|]. apply IH; [|apply K1|done]. intros s0 x s0' ? Hx. apply Hf; [done|by right].
Qed.

(** ** Single writes *)
Lemma list_with_set_inv {T} (l : list T) i v l' :
  list_with_set l i v = Ok l' -> i < zlen l /\ l' = <[Z.to_nat i := v]> l.
Proof. unfold list_with_set. destruct (Z.leb_spec (zlen l) i); [done|]. by intros [= <-]. Qed.

Lemma list_with_push_inv {T} N (l : list T) v l' :
  list_with_push N l v = Ok l' -> zlen l < N /\ l' = l ++ [v].
Proof. unfold list_with_push. destruct (Z.leb_spec N (zlen l)); [done|]. by intros [= <-]. Qed.

Lemma set_validator_kept s i v s' :
  electra_ok s -> validator_within MAX_EFFECTIVE_BALANCE_ELECTRA v -> el_set_validator s i v = Ok s' ->
  kept s s' /\ validators s' = <[Z.to_nat i := v]> (validators s) /\ balances s' = balances s.
Proof.
  intros Hs Hv (vs & [_ ->]%map_err_Ok%list_with_set_inv & [= <-])%bind_Ok_inv.
  split; [|done]. split; [|done|done|by apply same_flags]. apply electra_ok_base; [done| |cbn; apply length_insert].
  apply (base_ok_set_validator _ s); [by apply electra_base|done].
Qed.

Lemma set_balance_kept s i b s' :
  electra_ok s -> u64 b -> el_set_balance s i b = Ok s' ->
  kept s s' /\ validators s' = validators s /\ balances s' = <[Z.to_nat i := b]> (balances s).
Proof.
  intros Hs Hb (bs & Hset & [= <-])%bind_Ok_inv. apply map_err_Ok in Hset.
  apply list_with_set_inv in Hset as [_ ->]. split; [|done].
  split; [|done|done|by apply same_flags]. apply electra_ok_base; [done| |done].
  apply (base_ok_set_balance _ s); [by apply electra_base|done].
Qed.

Lemma balance_default_u64 s i : electra_ok s -> u64 (default 0 (balances s !! i)).
Proof.
  intros Hs. destruct (balances s !! i) as [b|] eqn:Hb; cbn; [|by split].
  by eapply balance_u64_at; [apply electra_base|].
Qed.

Lemma decrease_kept s i d s' :
  electra_ok s -> 0 <= d -> decrease_balance_electra s i d = Ok s' -> kept s s' /\ validators s' = validators s.
Proof.
  intros Hs Hd Hs'. pose proof (balance_default_u64 s (Z.to_nat i) Hs) as Hb.
  apply set_balance_kept in Hs' as (? & ? & _); [done|done|].
  destruct (Z.ltb_spec (default 0 (balances s !! Z.to_nat i)) d); unfold u64, U64 in *; lia.
Qed.

Lemma increase_kept s i d s' :
  electra_ok s -> 0 <= d -> increase_balance_electra s i d = Ok s' -> kept s s' /\ validators s' = validators s.
Proof.
  intros Hs Hd Hs'. pose proof (balance_default_u64 s (Z.to_nat i) Hs) as Hb.
  apply set_balance_kept in Hs' as (? & ? & _); [done|done|]. unfold sat_add, u64, u64_max, U64 in *. lia.
Qed.

(** ** Exits *)
Lemma churn_step_u64 a c e t b e' r :
  u64 a -> u64 c -> u64 e -> u64 t -> churn_step a c e t b = Ok (e', r) -> u64 e' /\ u64 r.
Proof.
  intros Ha Hc He Ht. unfold churn_step. intros ([e1 x] & Hx & [= <- <-])%bind_Ok_inv.
  split; [|apply wsub_u64]. destruct (_ <? b).
  - apply bind_Ok_inv in Hx as (q & _ & [= <- <-]). apply wadd_u64.
  - injection Hx as <- <-. unfold u64 in *. lia.
Qed.

Lemma compute_epoch_u64 s : electra_ok s -> u64 (get_current_epoch s).
Proof.
  intros Hs. pose proof (epoch_at_range s (bo_slot _ _ (electra_base s Hs))). unfold u64, U64. lia.
Qed.

Lemma exit_epoch_kept s b s' e :
  electra_ok s -> compute_exit_epoch_and_update_churn_electra s b = Ok (s', e) ->
  kept s s' /\ validators s' = validators s /\ balances s' = balances s /\ u64 e.
Proof.
  intros Hs ([e1 rest] & Hc & [= <- <-])%bind_Ok_inv. pose proof (exit_churn_bounds s).
  assert (u64 (get_activation_exit_churn_limit_electra s)) as Hl by (unfold u64, U64; lia).
  destruct (churn_step_u64 _ _ _ _ _ _ _ (wadd_u64 _ _) Hl (eo_exit_epoch s Hs) (eo_exit_balance s Hs) Hc) as [He Hr].
  split; [|done]. split; [|done|done|by apply same_flags]. destruct Hs. by split.
Qed.

Lemma initiate_exit_kept s i s' :
  electra_ok s -> initiate_validator_exit_electra s i = Ok s' ->
  kept s s' /\ length (validators s') = length (validators s) /\ balances s' = balances s.
Proof.
  intros Hs (v & Hv%ok_or_Ok & Hs')%bind_Ok_inv. destruct (negb _); [injection Hs' as <-; split; [by apply epoch_kept_refl|done]|].
  apply bind_Ok_inv in Hs' as ([s1 e] & H1 & (w & Hw%ok_or_Ok & (v1 & Hv1%ok_or_Ok & Hset)%bind_Ok_inv)%bind_Ok_inv).
  destruct (exit_epoch_kept s _ s1 e Hs H1) as (K1 & Hvs & Hbs & He).
  assert (u64 w) as Hwu.
  { pose proof withdrawability_delay. unfold checked_add in Hw. destruct (Z.ltb_spec (e + MIN_VALIDATOR_WITHDRAWABILITY_DELAY) U64);
      [|done]. injection Hw as <-. unfold u64 in *. lia. }
  apply set_validator_kept in Hset as (K2 & Hvs2 & Hbs2); [|apply K1|].
  - split; [by eapply kept_trans|]. by rewrite Hvs2, length_insert, Hvs, Hbs2.
  - apply validator_within_exit; [|done..]. eapply validator_within_at; [apply electra_base, K1|done].
Qed.

(** ** The registry, slashings and effective balances *)
Lemma registry_updates_kept s s' :
  electra_ok s -> process_registry_updates_electra s = Ok s' -> kept s s'.
Proof.
  intros Hs. apply foldM_kept; [|done]. intros s1 i s2 Hs1 _ (v & Hv%ok_or_Ok & Hs')%bind_Ok_inv.
  pose proof (validator_within_at _ _ _ _ (electra_base s1 Hs1) Hv) as Hw.
  destruct (is_eligible_for_activation_queue_electra v);
    [|destruct (_ && _); [|destruct (is_eligible_for_activation _ v)]].
  - apply map_err_Ok, set_validator_kept in Hs' as [? _]; [done|done|].
    apply validator_within_eligibility; [done|apply wadd_u64].
  - apply map_err_Ok, initiate_exit_kept in Hs' as [? _]; done.
  - apply map_err_Ok, set_validator_kept in Hs' as [? _]; [done|done|].
    apply validator_within_activation; [done|apply wadd_u64].
  - injection Hs' as <-. by apply epoch_kept_refl.
Qed.

Lemma slashings_kept s s' : electra_ok s -> process_slashings_electra s = Ok s' -> kept s s'.
Proof.
  intros Hs (q & _ & Hs')%bind_Ok_inv. revert Hs'. apply foldM_kept; [|done].
  intros s1 [i e] s2 Hs1 _ Hs'%map_err_Ok. apply decrease_kept in Hs' as [? _]; [done|done|]. apply wmul_u64.
Qed.

(** The new effective balance stays within the maximum of the credentials. *)
Lemma effective_update_bounds balance eff max_eff e :
  u64 balance -> 0 <= max_eff <= MAX_EFFECTIVE_BALANCE_ELECTRA ->
  max_eff mod EFFECTIVE_BALANCE_INCREMENT = 0 ->
  effective_balance_update_electra balance eff max_eff = Some e ->
  0 <= e <= MAX_EFFECTIVE_BALANCE_ELECTRA /\ e mod EFFECTIVE_BALANCE_INCREMENT = 0 /\ e <= balance /\ e <= max_eff.
Proof.
  intros [? ?] Hm Hmod. unfold effective_balance_update_electra. case_match; [|done]. intros [= <-].
  pose proof increment_pos. set (inc := EFFECTIVE_BALANCE_INCREMENT) in *.
  assert (0 <= balance mod inc <= balance) by (split; [apply Z.mod_pos_bound; lia|apply Z.mod_le; lia]).
  split_and!; try lia. destruct (Z.min_spec (balance - balance mod inc) max_eff) as [ [_ ->]|[_ ->] ]; [|done].
  by rewrite Zminus_mod_idemp_r, Z.sub_diag.
Qed.

Lemma effective_balances_kept s s' :
  electra_ok s -> process_effective_balance_updates_electra s = Ok s' -> kept s s'.
Proof.
  intros Hs. apply foldM_kept; [|done].
  intros s1 [i [e|]] s2 Hs1 Hin Hs'; cbn in Hs'; [|injection Hs' as <-; by apply epoch_kept_refl].
  apply elem_of_enumerate in Hin as [_ Hin]. apply list_lookup_fmap_Some in Hin as (j & He & Hj).
  apply bind_Ok_inv in Hs' as (v & Hv%ok_or_Ok & Hset%map_err_Ok).
  apply set_validator_kept in Hset as [? _]; [done|done|].
  assert (0 <= default 0 (get_max_effective_balance <$> validator s j) <= MAX_EFFECTIVE_BALANCE_ELECTRA /\
    default 0 (get_max_effective_balance <$> validator s j) mod EFFECTIVE_BALANCE_INCREMENT = 0) as [Hm1 Hm2].
  { pose proof activation_balance. pose proof increment_pos. pose proof activation_balance_mod. pose proof electra_balance_mod.
    destruct (validator s j) as [w|]; cbn; unfold id; [|split; [lia|by rewrite Z.mod_0_l by lia]].
    unfold get_max_effective_balance. case_match; split; lia || done. }
  destruct (effective_update_bounds _ _ _ _ (balance_default_u64 s (Z.to_nat j) Hs) Hm1 Hm2 (eq_sym He)) as (? & ? & _).
  apply validator_within_effective; [|done..]. by eapply validator_within_at; [apply electra_base|].
Qed.

(** ** Deposits *)
Lemma push_validator_kept s v amount s' :
  electra_ok s -> validator_within MAX_EFFECTIVE_BALANCE_ELECTRA v -> u64 amount ->
  (s ← el_on (fun b => push_validator b v) s; s ← el_on (fun b => push_balance b amount) s;
   el_on_altair al_push_participation s) = Ok s' -> kept s s'.
Proof.
  intros Hs Hv Ha.
  intros (s1 & (a1 & (b1 & (vs & [Hl1 ->]%map_err_Ok%list_with_push_inv & [= <-])%bind_Ok_inv & [= <-])%bind_Ok_inv & [= <-])%bind_Ok_inv &
    (s2 & (a2 & (b2 & (bs & [Hl2 ->]%map_err_Ok%list_with_push_inv & [= <-])%bind_Ok_inv & [= <-])%bind_Ok_inv & [= <-])%bind_Ok_inv &
    (a3 & Hp & [= <-])%bind_Ok_inv)%bind_Ok_inv)%bind_Ok_inv.
  apply bind_Ok_inv in Hp as (pp & [_ ->]%map_err_Ok%list_with_push_inv &
    (cp & [_ ->]%map_err_Ok%list_with_push_inv & (sc & [_ ->]%map_err_Ok%list_with_push_inv & [= <-])%bind_Ok_inv)%bind_Ok_inv).
  cbn in *. destruct Hs as [[Hb Hpl Hcl Hsl Hpf Hcf Hsf] ? ? ? ? ? ? ? ? ? ? ? ? ? ? ?].
  split; [|done|done|by exists 1%nat]. split; try done. split; cbn; rewrite ?length_app, ?Hpl, ?Hcl, ?Hsl; try done.
  - destruct Hb. split; cbn; try done.
    + rewrite zlen_app. change (zlen [v]) with 1. lia.
    + rewrite !length_app. cbn. lia.
    + apply Forall_app. split; [done|by constructor].
    + apply Forall_app. split; [done|by constructor].
  - apply Forall_app. split; [done|]. by constructor.
  - apply Forall_app. split; [done|]. by constructor.
  - apply Forall_app. split; [done|]. by constructor.
Qed.

Lemma add_validator_kept s pk wc amount s' :
  electra_ok s -> u64 amount -> add_validator_to_registry_electra s pk wc amount = Ok s' -> kept s s'.
Proof.
  intros Hs Ha. pose proof (deposit_validator_within (mkPendingDeposit pk wc amount [] 0) Ha) as Hv.
  by apply push_validator_kept.
Qed.

Lemma apply_pending_deposit_kept s d s' :
  electra_ok s -> pending_deposit_ok d -> apply_pending_deposit s d = Ok s' -> kept s s'.
Proof.
  intros Hs [Ha _]. unfold apply_pending_deposit. destruct (position_in _ _) as [i|].
  - intros Hs'%map_err_Ok. by apply increase_kept in Hs' as [? _]; [|done|apply Ha].
  - intros ([] & _ & Hs')%bind_Ok_inv; [|injection Hs' as <-; by apply epoch_kept_refl].
    apply map_err_Ok in Hs'. by eapply add_validator_kept.
Qed.

Lemma pending_deposits_loop_kept next_epoch avail fin queue : forall l l',
  electra_ok (dl_state l) -> Forall pending_deposit_ok queue ->
  Forall pending_deposit_ok (dl_deposits_to_postpone l) ->
  pending_deposits_loop next_epoch avail fin queue l = Ok l' ->
  kept (dl_state l) (dl_state l') /\ Forall pending_deposit_ok (dl_deposits_to_postpone l').
Proof.
  induction queue as [|d queue IH]; intros l l' Hs Hq Hp; cbn [pending_deposits_loop].
  { intros [= <-]. split; [by apply epoch_kept_refl|done]. }
  apply Forall_cons in Hq as [Hd Hq].
  assert (forall r, Ok (E:=EpochProcessingError) l = Ok r -> kept (dl_state l) (dl_state r) /\ Forall pending_deposit_ok (dl_deposits_to_postpone r)) as Hsame.
  { intros r [= <-]. split; [by apply epoch_kept_refl|done]. }
  do 3 (case_match; [by apply Hsame|]). intros (r & Hr & Hloop)%bind_Ok_inv.
  assert (match r with inl l1 | inr l1 => kept (dl_state l) (dl_state l1) /\
    Forall pending_deposit_ok (dl_deposits_to_postpone l1) end) as Hstep.
  { unfold pending_deposit_step in Hr.
    destruct (match _ with Some v => v_withdrawable_epoch v <? _ | None => false end);
      [|destruct (match _ with Some v => v_exit_epoch v <? _ | None => false end); [|destruct (avail <? _)]].
    - apply bind_Ok_inv in Hr as (s1 & Hs1 & [= <-]). split; [by eapply apply_pending_deposit_kept|done].
    - injection Hr as <-. split; [by apply epoch_kept_refl|]. apply Forall_app. split; [done|by constructor].
    - injection Hr as <-. split; [by apply epoch_kept_refl|done].
    - apply bind_Ok_inv in Hr as (s1 & Hs1 & [= <-]). split; [by eapply apply_pending_deposit_kept|done]. }
  destruct r as [l1|l1], Hstep as [K1 Hp1].
  - destruct (IH l1 l') as [K2 Hp2]; [apply K1|done..|]. split; [by eapply kept_trans|done].
  - by injection Hloop as <-.
Qed.

Lemma pending_deposits_kept s s' : electra_ok s -> process_pending_deposits s = Ok s' -> kept s s'.
Proof.
  intros Hs (l & Hl & Hs')%bind_Ok_inv.
  apply pending_deposits_loop_kept in Hl as [[Hok Hch Hpf Hfl] Hp]; [|done|apply (eo_deposits s Hs)|constructor].
  revert Hs'. cbv zeta. set (remaining := drop _ _ ++ _).
  destruct (Z.ltb_spec MAX_PENDING_DEPOSITS_LIMIT (zlen remaining)); [done|]. intros [= <-].
  split; [|exact Hch|exact Hpf|exact Hfl].
  assert (Forall pending_deposit_ok remaining) as Hr.
  { apply Forall_app. split; [apply Forall_drop, (eo_deposits s Hs)|done]. }
  destruct Hok. split; try done. cbn. destruct (dl_is_churn_limit_reached l); [apply wsub_u64|by split].
Qed.

Lemma consolidations_loop_kept next_epoch queue : forall s n s' n',
  electra_ok s -> consolidations_loop next_epoch queue s n = Ok (s', n') -> kept s s'.
Proof.
  induction queue as [|c queue IH]; intros s n s' n' Hs; cbn [consolidations_loop].
  { intros [= <- _]. by apply epoch_kept_refl. }
  intros (v & Hv%ok_or_Ok & Hs')%bind_Ok_inv. destruct (v_slashed v); [by eapply IH|].
  destruct (next_epoch <? v_withdrawable_epoch v); [injection Hs' as <- _; by apply epoch_kept_refl|].
  apply bind_Ok_inv in Hs' as (s1 & H1%map_err_Ok & (s2 & H2%map_err_Ok & Hs')%bind_Ok_inv).
  assert (0 <= Z.min (default 0 (balances s !! Z.to_nat (pc_source_index c))) (v_effective_balance v)).
  { destruct (balance_default_u64 s (Z.to_nat (pc_source_index c)) Hs).
    destruct (validator_within_at _ _ _ _ (electra_base s Hs) Hv) as [[? _] _ _ _ _ _]. lia. }
  apply decrease_kept in H1 as [K1 _]; [|done|done].
  apply increase_kept in H2 as [K2 _]; [|apply K1|done].
  eapply kept_trans; [exact K1|]. eapply kept_trans; [exact K2|]. eapply IH; [apply K2|done].
Qed.

Lemma consolidations_kept s s' : electra_ok s -> process_pending_consolidations s = Ok s' -> kept s s'.
Proof.
  intros Hs ([s1 n] & [Hok Hch Hpf Hfl]%consolidations_loop_kept & Hs')%bind_Ok_inv; [|done].
  revert Hs'. cbv zeta. destruct (Z.ltb_spec MAX_PENDING_CONSOLIDATIONS_LIMIT
    (zlen (drop (Z.to_nat n) (el_pending_consolidations s)))); [done|]. intros [= <-].
  pose proof (Forall_drop _ (Z.to_nat n) _ (eo_consolidations s Hs)). split; [|exact Hch|exact Hpf|exact Hfl].
  destruct Hok. by split.
Qed.

(** ** The steps on the older parts of the state *)
Lemma altair_projection (f : AltairState -> result EpochProcessingError AltairState) s :
  on_altair_projection f s = el_on_altair f s.
Proof.
  unfold on_altair_projection, el_on_altair.
  destruct (electra_deneb_lens s (el_deneb s)) as [-> _].
  destruct (capella_altair_lens (deneb_state_to_capella (el_deneb s)) (de_altair (el_deneb s))) as [-> _].
  destruct (deneb_capella_lens (el_deneb s) (deneb_state_to_capella (el_deneb s))) as [-> _].
  destruct (f (de_altair (el_deneb s))) as [a| |]; cbn; [|done..]. f_equal.
  by destruct (electra_altair_lens s a) as (_ & _ & ->).
Qed.

Lemma deneb_projection s d :
  electra_state_to_deneb s = el_deneb s /\ update_electra_from_deneb s d = el_with_deneb s d.
Proof. apply electra_deneb_lens. Qed.

Lemma inactivity_kept s s' :
  electra_ok s -> on_altair_projection process_inactivity_updates s = Ok s' -> kept s s'.
Proof.
  intros Hs. rewrite altair_projection. intros (a & Ha & [= <-])%bind_Ok_inv.
  destruct (inactivity_updates_spec MAX_EFFECTIVE_BALANCE_ELECTRA _ (eo_altair s Hs)) as (l & Hl & Hok & _).
  rewrite Hl in Ha. injection Ha as <-. split; [by apply electra_ok_altair|done|done|by apply same_flags].
Qed.

Lemma base_step_kept (f : BeaconState -> result EpochProcessingError BeaconState) s s' :
  (forall b b', base_ok MAX_EFFECTIVE_BALANCE_ELECTRA b -> f b = Ok b' ->
     base_ok MAX_EFFECTIVE_BALANCE_ELECTRA b' /\ chain_frame b b' /\ validators b' = validators b) ->
  electra_ok s -> on_altair_projection (al_on f) s = Ok s' -> kept s s'.
Proof.
  intros Hf Hs. rewrite altair_projection. intros (a & (b & Hb & [= <-])%bind_Ok_inv & [= <-])%bind_Ok_inv.
  destruct (Hf _ b (electra_base s Hs) Hb) as (Hok & Hch & Hv).
  split; [|done|done|by apply same_flags]. apply (electra_ok_base s b); [done|done|by rewrite Hv].
Qed.

Lemma eth1_reset_kept s s' :
  electra_ok s -> on_altair_projection (al_on process_eth1_data_reset) s = Ok s' -> kept s s'.
Proof.
  apply base_step_kept. intros b b' Hb. unfold process_eth1_data_reset. case_match; intros [= <-]; [|done].
  split; [|done]. apply base_ok_clear_votes; [|done]. pose proof eth1_votes_limit. pose proof eth1_period_pos.
  pose proof slots_per_epoch_pos. nia.
Qed.

(** Applying deltas writes balances only. *)
Definition rebalanced (a a' : AltairState) : Prop :=
  exists bs, a' = al_with_base a (with_balances a bs) /\ length bs = length (balances a) /\ Forall u64 bs.

Lemma rebalanced_set (a0 a a' : AltairState) i x :
  rebalanced a0 a -> u64 x ->
  (bs ← map_err (fun _ => IndexOutOfRange i) (list_with_set (balances a) i x);
   Ok (al_with_base a (with_balances a bs))) = Ok a' -> rebalanced a0 a'.
Proof.
  intros (bs & -> & Hl & Hu) Hx (bs' & Hset & [= <-])%bind_Ok_inv. apply map_err_Ok in Hset.
  apply list_with_set_inv in Hset as [_ ->]. cbn. eexists. split; [done|].
  rewrite length_insert. split; [done|by apply Forall_insert].
Qed.

Lemma rebalanced_u64 (a0 a : AltairState) i : rebalanced a0 a -> u64 (default 0 (balances a !! i)).
Proof.
  intros (bs & -> & _ & Hu). cbn. destruct (bs !! i) as [b|] eqn:Hb; cbn; [|by split].
  by eapply (Forall_lookup_1 u64).
Qed.

Lemma apply_delta_step_kept (a0 a a' : AltairState) t i :
  rebalanced a0 a -> apply_delta_step t a i = Ok a' -> rebalanced a0 a'.
Proof.
  intros Ha (r & _ & (a1 & H1 & (p & _ & H2)%bind_Ok_inv)%bind_Ok_inv)%bind_Ok_inv.
  assert (rebalanced a0 a1) as Ha1.
  { destruct (Z.ltb_spec 0 r); [|by injection H1 as <-]. apply map_err_Ok in H1.
    pose proof (rebalanced_u64 a0 a (Z.to_nat i) Ha). eapply rebalanced_set in H1; [done|done|].
    unfold sat_add, u64, u64_max, U64 in *. lia. }
  destruct (Z.ltb_spec 0 p); [|by injection H2 as <-]. apply map_err_Ok in H2.
  pose proof (rebalanced_u64 a0 a1 (Z.to_nat i) Ha1). eapply rebalanced_set in H2; [done|done|].
  destruct (Z.ltb_spec (default 0 (balances a1 !! Z.to_nat i)) p); unfold u64, U64 in *; lia.
Qed.

Lemma rewards_kept s d :
  electra_ok s -> process_rewards_and_penalties_deneb (electra_state_to_deneb s) = Ok d ->
  kept s (update_electra_from_deneb s d).
Proof.
  intros Hs. destruct (deneb_projection s d) as [-> ->]. unfold process_rewards_and_penalties_deneb.
  case_match; [intros [= <-]; by destruct s; apply epoch_kept_refl|].
  intros (fd & _ & (ip & _ & (t & _ & (a & Ha & [= <-])%bind_Ok_inv)%bind_Ok_inv)%bind_Ok_inv)%bind_Ok_inv.
  pose proof (electra_base s Hs) as Hb.
  apply (foldM_inv _ (rebalanced (de_altair (el_deneb s)))) in Ha as (bs & -> & Hl & Hu).
  - split; [|done|done|by apply same_flags]. apply (electra_ok_base s (with_balances s bs)); [done| |done].
    by apply base_ok_balances.
  - intros i a1 a2 _ Ha1. by apply apply_delta_step_kept.
  - exists (balances s). split_and!; [by destruct s as [[[[] ? ? ? ? ?] ? ? ? ?] ? ? ? ? ? ? ? ? ?]|done|apply Hb].
Qed.

(** ** The resets *)
Lemma resets_kept s s' :
  electra_ok s ->
  on_altair_projection (fun altair =>
    altair ← al_on process_slashings_reset altair; al_on process_randao_mixes_reset altair) s = Ok s' ->
  electra_ok s' /\ s' = el_with_base s (with_randao_mixes (with_slashings s (next_slashings s)) (next_randao_mixes s)).
Proof.
  intros Hs. rewrite altair_projection.
  intros (a & (a1 & (b1 & H1%map_err_Ok & [= <-])%bind_Ok_inv & (b2 & H2%map_err_Ok & [= <-])%bind_Ok_inv)%bind_Ok_inv & [= <-])%bind_Ok_inv.
  apply set_slashing_Ok in H1 as [_ ->]. apply set_randao_mix_Ok in H2 as [_ ->]. split; [|done].
  apply (electra_ok_base s); [done| |done]. cbn.
  apply base_ok_randao_mixes; [|cbn; apply length_insert].
  apply base_ok_slashings; [by apply electra_base|apply length_insert|].
  apply Forall_insert; [apply (electra_base s Hs)|by split].
Qed.

(** ** Summaries, flags and sync committees *)
Lemma summaries_kept s c :
  electra_ok s -> process_historical_summaries_update (deneb_state_to_capella (electra_state_to_deneb s)) = Ok c ->
  kept s (update_electra_from_deneb s (update_deneb_from_capella (electra_state_to_deneb s) c)).
Proof.
  intros Hs. destruct (deneb_projection s (update_deneb_from_capella (electra_state_to_deneb s) c)) as [_ ->].
  destruct (electra_deneb_lens s (el_deneb s)) as [-> _].
  destruct (deneb_capella_lens (el_deneb s) c) as [_ ->].
  destruct (deneb_capella_lens (el_deneb s) (deneb_state_to_capella (el_deneb s))) as [Ha _].
  unfold process_historical_summaries_update. case_match.
  - intros (r1 & _ & (r2 & _ & (l & Hl%map_err_Ok%list_with_push_inv & [= <-])%bind_Ok_inv)%bind_Ok_inv)%bind_Ok_inv.
    destruct Hl as [Hl ->]. cbn in *. rewrite ?Ha. split; [|done|done|by apply same_flags].
    destruct Hs. split; try done. cbn. rewrite zlen_app. change (zlen [_]) with 1. lia.
  - intros [= <-]. rewrite Ha. cbn.
    assert (el_with_deneb s (mkDenebState (de_altair (el_deneb s)) (de_latest_execution_payload_header (el_deneb s))
      (de_next_withdrawal_index (el_deneb s)) (de_next_withdrawal_validator_index (el_deneb s))
      (de_historical_summaries (el_deneb s))) = s) as Heq by (by destruct s as [[] ? ? ? ? ? ? ? ? ?]).
    rewrite Heq. by apply epoch_kept_refl.
Qed.

Lemma flag_updates_Ok s s' :
  electra_ok s -> on_altair_projection process_participation_flag_updates s = Ok s' ->
  electra_ok s' /\ chain_frame s s' /\ payload_fields s' = payload_fields s /\ validators s' = validators s /\
  al_previous_epoch_participation s' = al_current_epoch_participation s /\
  al_current_epoch_participation s' = replicate (length (validators s)) 0.
Proof.
  intros Hs. rewrite altair_projection. intros (a & Ha & [= <-])%bind_Ok_inv.
  unfold process_participation_flag_updates in Ha. cbn in Ha. case_match; [done|]. injection Ha as <-.
  split_and!; try done. apply electra_ok_altair; [done|]. destruct (eo_altair s Hs). split; cbn; try done.
  - apply length_replicate.
  - by apply Forall_replicate.
Qed.

Lemma sync_committees_kept s s' :
  electra_ok s -> process_sync_committee_updates_electra s = Ok s' ->
  electra_ok s' /\ chain_frame s s' /\ payload_fields s' = payload_fields s /\ validators s' = validators s /\
  al_previous_epoch_participation s' = al_previous_epoch_participation s /\
  al_current_epoch_participation s' = al_current_epoch_participation s /\
  al_current_sync_committee s' = (if wadd (get_current_epoch s) 1 mod EPOCHS_PER_SYNC_COMMITTEE_PERIOD =? 0
                                  then al_next_sync_committee s else al_current_sync_committee s).
Proof.
  intros Hs. unfold process_sync_committee_updates_electra. cbv zeta. change (get_current_epoch_electra s) with (get_current_epoch s).
  case_match; [|by intros [= <-]]. intros (c & _ & [= <-])%bind_Ok_inv.
  split_and!; try done. destruct Hs as [Ha]. split; try done. destruct Ha. by split.
Qed.
End keeps.

(** The fourteen steps: justification, the steps that keep the chain's fields, the
    resets, and the rotation of flags and committees. *)
Lemma process_epoch_electra_Ok `{Crypto} `{Sp : BeaconSpec} `{Fs : ForkSpec} `{Aggregation} `{!SpecOk Sp}
    `{!ForkSpecOk Sp Fs} (s s' : ElectraState) :
  electra_ok s -> process_epoch_electra s = Ok s' ->
  exists a s1 s2 s3 s4,
    process_justification_and_finalization_altair s = Ok a /\
    s1 = el_with_deneb s (de_with_altair (el_deneb s) a) /\ electra_ok s1 /\ kept s1 s2 /\
    s3 = el_with_base s2 (with_randao_mixes (with_slashings s2 (next_slashings s2)) (next_randao_mixes s2)) /\
    kept s3 s4 /\ electra_ok s' /\ chain_frame s4 s' /\ payload_fields s' = payload_fields s /\
    al_previous_epoch_participation s' = al_current_epoch_participation s4 /\
    al_current_epoch_participation s' = replicate (length (validators s')) 0.
Proof.
  intros Hs. unfold process_epoch_electra.
  intros (s1 & H1 & Hr)%bind_Ok_inv. rewrite altair_projection in H1. apply bind_Ok_inv in H1 as (a & Ha & [= <-]).
  assert (electra_ok (el_with_deneb s (de_with_altair (el_deneb s) a))) as Hs1.
  { apply electra_ok_altair; [done|]. by apply (altair_jf_ok _ _ a (eo_altair s Hs)) in Ha as [? _]. }
  exists a. eexists. revert Hs1 Hr. set (s1 := el_with_deneb s _). intros Hs1.
  intros (t1 & K1%inactivity_kept & Hr)%bind_Ok_inv; [|done]. pose proof (kp_ok _ _ K1) as O1.
  apply bind_Ok_inv in Hr as (d & K2%rewards_kept & Hr); [|done]. pose proof (kp_ok _ _ K2) as O2.
  apply bind_Ok_inv in Hr as (t3 & K3%registry_updates_kept & Hr); [|done]. pose proof (kp_ok _ _ K3) as O3.
  apply bind_Ok_inv in Hr as (t4 & K4%slashings_kept & Hr); [|done]. pose proof (kp_ok _ _ K4) as O4.
  apply bind_Ok_inv in Hr as (t5 & K5%eth1_reset_kept & Hr); [|done]. pose proof (kp_ok _ _ K5) as O5.
  apply bind_Ok_inv in Hr as (t6 & K6%pending_deposits_kept & Hr); [|done]. pose proof (kp_ok _ _ K6) as O6.
  apply bind_Ok_inv in Hr as (t7 & K7%consolidations_kept & Hr); [|done]. pose proof (kp_ok _ _ K7) as O7.
  apply bind_Ok_inv in Hr as (t8 & K8%effective_balances_kept & Hr); [|done]. pose proof (kp_ok _ _ K8) as O8.
  apply bind_Ok_inv in Hr as (t9 & [O9 E9]%resets_kept & Hr); [|done].
  apply bind_Ok_inv in Hr as (c & K10%summaries_kept & Hr); [|done]. pose proof (kp_ok _ _ K10) as O10.
  apply bind_Ok_inv in Hr as (t11 & (O11 & C11 & F11 & V11 & P11 & Q11)%flag_updates_Ok & Hr); [|done].
  apply sync_committees_kept in Hr as (O12 & C12 & F12 & V12 & P12 & Q12 & _); [|done].
  assert (kept s1 t8) as K18 by eauto 12 using kept_trans.
  exists t8, t9. eexists. split_and!; [done|reflexivity|exact Hs1| |exact E9|exact K10|done| | | |].
  - exact K18.
  - by eapply chain_frame_trans.
  - rewrite F12, F11, (kp_payload _ _ K10), E9. exact (kp_payload _ _ K18).
  - by rewrite P12, P11.
  - by rewrite Q12, Q11, V12, V11.
Qed.

Lemma electra_epoch_progress `{Crypto} `{Sp : BeaconSpec} `{Fs : ForkSpec} `{Aggregation} `{!SpecOk Sp}
    `{!ForkSpecOk Sp Fs} (s s' : ElectraState) :
  electra_ok s -> checkpoints_ordered s -> process_epoch_electra s = Ok s' ->
  electra_ok s' /\ slot s' = slot s /\ latest_block_header s' = latest_block_header s /\
  block_roots s' = block_roots s /\ payload_fields s' = payload_fields s /\
  cp_epoch (finalized_checkpoint s) <= cp_epoch (finalized_checkpoint s') /\
  cp_epoch (current_justified_checkpoint s) <= cp_epoch (current_justified_checkpoint s') /\
  cp_epoch (finalized_checkpoint s') <= cp_epoch (previous_justified_checkpoint s') /\
  cp_epoch (previous_justified_checkpoint s') <= cp_epoch (current_justified_checkpoint s')
    <= get_current_epoch s.
Proof.
  intros Hs Ho Hs'. pose proof (bo_slot _ _ (electra_base s Hs)) as Hu.
  destruct (process_epoch_electra_Ok s s' Hs Hs') as (a & s1 & s2 & s3 & s4 & Ha & -> & _ & K2 & -> & K4 & O' & C' & F' & _).
  destruct (altair_jf_ordered s a Hu Ho Ha) as (F1 & F2 & F3 & F4 & F5).
  destruct (altair_jf_ok _ s a (eo_altair s Hs) Ha) as (_ & _ & Hslot).
  assert (latest_block_header a = latest_block_header s /\ block_roots a = block_roots s) as [Hh Hbr].
  { destruct (altair_jf_cases _ _ Ha) as [[_ ->]|(_ & b & (? & ? & -> & _)%weigh_spec & ->)]; done. }
  assert (get_current_epoch a = get_current_epoch s) as Hca by (unfold get_current_epoch; by rewrite Hslot).
  rewrite Hca in F5. pose proof (chain_frame_trans _ _ _ (kp_chain _ _ K4) C') as C. pose proof (kp_chain _ _ K2) as C2.
  rewrite (cf_slot _ _ C), (cf_header _ _ C), (cf_block_roots _ _ C), (cf_finalized _ _ C), (cf_previous _ _ C), (cf_current _ _ C).
  destruct C2 as [E1 E2 E0 _ _ _ E3 E4 E5]. cbn in *. rewrite E0, E1, E2, E3, E4, E5. done.
Qed.

(** C17: an epoch transition of Electra that succeeds keeps the state well formed
    and its slot; it never takes back a finalized or a justified epoch and keeps
    the checkpoints in order; the current participation flags become the previous
    ones (with no flag for validators registered in the step), every current flag
    is cleared, the next epoch's slashings entry is cleared and the randao mix is
    handed on. *)
Theorem electra_epoch_transition `{Crypto} `{Sp : BeaconSpec} `{Fs : ForkSpec} `{Aggregation} `{!SpecOk Sp}
    `{!ForkSpecOk Sp Fs} (s s' : ElectraState) :
  electra_ok s -> checkpoints_ordered s -> process_epoch_electra s = Ok s' ->
  electra_ok s' /\ slot s' = slot s /\
  cp_epoch (finalized_checkpoint s) <= cp_epoch (finalized_checkpoint s') /\
  cp_epoch (current_justified_checkpoint s) <= cp_epoch (current_justified_checkpoint s') /\
  cp_epoch (finalized_checkpoint s') <= cp_epoch (previous_justified_checkpoint s') /\
  cp_epoch (previous_justified_checkpoint s') <= cp_epoch (current_justified_checkpoint s')
    <= get_current_epoch s /\
  (exists n, al_previous_epoch_participation s' = al_current_epoch_participation s ++ replicate n 0) /\
  al_current_epoch_participation s' = replicate (length (validators s')) 0 /\
  slashings s' !! Z.to_nat ((get_current_epoch s + 1) mod EPOCHS_PER_SLASHINGS_VECTOR) = Some 0 /\
  get_randao_mix s' (get_current_epoch s + 1) = get_randao_mix s (get_current_epoch s).
Proof.
  intros Hs Ho Hs'. pose proof (bo_slot _ _ (electra_base s Hs)) as Hu.
  destruct (electra_epoch_progress s s' Hs Ho Hs') as (O & E & _ & _ & _ & F1 & F2 & F3 & F4).
  do 6 (split; [done|]). clear F1 F2 F3 F4.
  destruct (process_epoch_electra_Ok s s' Hs Hs') as (a & s1 & s2 & s3 & s4 & Ha & -> & O1 & [O2 C2 _ [n Hn]] & ->
    & [O4 C4 _ [m Hm]] & O' & C' & _ & P' & Q').
  set (s3 := el_with_base s2 _) in *. pose proof (chain_frame_trans _ _ _ C4 C') as C.
  assert (slashings s2 = slashings s /\ randao_mixes s2 = randao_mixes s /\ slot s2 = slot s /\
    al_current_epoch_participation (de_altair (el_deneb (el_with_deneb s (de_with_altair (el_deneb s) a))))
    = al_current_epoch_participation s) as (Hsl & Hmx & Hs2 & Hcur).
  { rewrite (cf_slashings _ _ C2), (cf_mixes _ _ C2), (cf_slot _ _ C2).
    destruct (altair_jf_cases _ _ Ha) as [[_ ->]|(_ & b & (? & ? & -> & _)%weigh_spec & ->)]; done. }
  assert (get_current_epoch s2 = get_current_epoch s) as Hce by (unfold get_current_epoch; by rewrite Hs2).
  pose proof (epoch_at_range s Hu). pose proof slashings_vector_gt0. pose proof historical_vector_gt0.
  split_and!; [|done| |].
  - exists (n + m)%nat. rewrite P', Hm. change (al_current_epoch_participation s3) with (al_current_epoch_participation s2).
    by rewrite Hn, Hcur, replicate_add, app_assoc.
  - rewrite (cf_slashings _ _ C). change (slashings s3) with (next_slashings s2). unfold next_slashings.
    rewrite Hce, wadd_small by (unfold U64; lia). apply list_lookup_insert_eq.
    pose proof (bo_slashings_length _ _ (electra_base s2 O2)) as Hl. unfold zlen in Hl.
    pose proof (Z.mod_pos_bound (get_current_epoch s + 1) _ slashings_vector_gt0). lia.
  - unfold get_randao_mix at 1, randao_mix_at. rewrite (cf_mixes _ _ C).
    change (randao_mixes s3) with (next_randao_mixes s2). unfold next_randao_mixes.
    rewrite Hce, wadd_small by (unfold U64; lia). rewrite list_lookup_insert_eq.
    + unfold get_randao_mix, randao_mix_at. by rewrite Hmx.
    + pose proof (bo_randao_mixes _ _ (electra_base s2 O2)) as Hl. unfold zlen in Hl.
      pose proof (Z.mod_pos_bound (get_current_epoch s + 1) _ historical_vector_gt0). lia.
Qed.

(** Epoch 2 of a chain with a deposit, a partial withdrawal and a consolidation
    waiting. *)
Definition ex_aggregation : Aggregation := {| aggregate_pubkeys := head |}.
Definition ex_epoch_end : ElectraState :=
  ex_electra 23 [ex_member 0 Byte.x02 32 u64_max u64_max; ex_member 1 Byte.x01 32 1 2]
    [33000000000; 32000000000]
    [mkPendingDeposit (to_le_bytes 48 2) (replicate 32 Byte.x00) 32000000000 (replicate 96 Byte.x00) 0]
    [mkPendingPartialWithdrawal 0 1000000000 9] [mkPendingConsolidation 1 0].

Lemma electra_epoch_transition_witness :
  exists s', @process_epoch_electra ex_crypto minimal minimal_forks ex_aggregation ex_epoch_end = Ok s' /\
    @electra_ok minimal minimal_forks s' /\ length (validators s') = 3%nat /\
    cp_epoch (finalized_checkpoint ex_epoch_end) <= cp_epoch (finalized_checkpoint s') /\
    cp_epoch (current_justified_checkpoint s') = 1.
Proof.
  exists (ok_value ex_epoch_end (@process_epoch_electra ex_crypto minimal minimal_forks ex_aggregation ex_epoch_end)).
  set (s' := ok_value _ _).
  assert (@process_epoch_electra ex_crypto minimal minimal_forks ex_aggregation ex_epoch_end = Ok s') as Hs
    by (vm_compute; reflexivity).
  split; [exact Hs|].
  destruct (@electra_epoch_transition ex_crypto minimal minimal_forks ex_aggregation _ _ ex_epoch_end s')
    as (Hok & _ & Hf & _); [apply ex_electra_ok; ex_ranges|repeat split; vm_compute; congruence|exact Hs|].
  split_and!; [exact Hok|vm_compute; reflexivity|exact Hf|vm_compute; reflexivity].
Defined.
