(* ===== verification/ElectraBody.v ===== *)
(** * Electra: block containers, their roots and the execution requests

    The containers of crates/pharos-types/src/electra/{attestation,body,block,
    requests}.rs and of the payload (deneb/execution_payload.rs), the change of
    withdrawal credentials (capella/operations.rs), their Merkle roots and the root
    of the state, and the wire form of the execution requests
    ([get_execution_requests_list], [parse_execution_requests_list] of
    crates/pharos-stf/src/electra/helpers.rs).  A [SszVector<u8, N>] and a
    [[u8; N]] are byte strings, hashed and encoded as [FixedBytes<N>].

    Theorem [requests_round_trip]: what the proposer rebuilds from the engine's
    request list is what the verifier derives the list from. *)

From Stdlib Require Import ZArith Lia.
From S2P Require Import Prelude SszCodec SszContainer SszBitfield SszTypes Merkle SszTree Spec BeaconState Invariant Roots Forks Withdrawals ElectraQueues AltairOps.

(** ** Limits of the lists of a block *)
Class BlockSpec : Type := {
  MAX_ATTESTER_SLASHINGS_ELECTRA : Z;
  MAX_ATTESTATIONS_ELECTRA : Z;
  MAX_BLS_TO_EXECUTION_CHANGES : Z;
  MAX_BLOB_COMMITMENTS_PER_BLOCK : Z;
  MAX_BYTES_PER_TRANSACTION : Z;
  MAX_TRANSACTIONS_PER_PAYLOAD : Z;
  MAX_EXTRA_DATA_BYTES : Z;
  MAX_DEPOSIT_REQUESTS_PER_PAYLOAD : Z;
  MAX_WITHDRAWAL_REQUESTS_PER_PAYLOAD : Z;
  MAX_CONSOLIDATION_REQUESTS_PER_PAYLOAD : Z;
}.

(** Both presets have the same values. *)
Definition preset_blocks : BlockSpec := {|
  MAX_ATTESTER_SLASHINGS_ELECTRA := 1;
  MAX_ATTESTATIONS_ELECTRA := 8;
  MAX_BLS_TO_EXECUTION_CHANGES := 16;
  MAX_BLOB_COMMITMENTS_PER_BLOCK := 4096;
  MAX_BYTES_PER_TRANSACTION := 1073741824;
  MAX_TRANSACTIONS_PER_PAYLOAD := 1048576;
  MAX_EXTRA_DATA_BYTES := 32;
  MAX_DEPOSIT_REQUESTS_PER_PAYLOAD := 8192;
  MAX_WITHDRAWAL_REQUESTS_PER_PAYLOAD := 16;
  MAX_CONSOLIDATION_REQUESTS_PER_PAYLOAD := 2;
|}.

(** ** Containers *)

(** The indexed attestation and the attester slashing have the fields of phase 0;
    only the limit of the index list is wider. *)
Record ElectraAttestation : Type := mkElectraAttestation {
  ea_aggregation_bits : Bitlist;
  ea_data : AttestationData;
  ea_signature : bytes;
  ea_committee_bits : bytes;
}.

Record BLSToExecutionChange : Type := mkBLSToExecutionChange {
  bec_validator_index : Z;
  bec_from_bls_pubkey : bytes;
  bec_to_execution_address : bytes;
}.

Record SignedBLSToExecutionChange : Type := mkSignedBLSToExecutionChange {
  sbec_message : BLSToExecutionChange;
  sbec_signature : bytes;
}.

Record ExecutionRequests : Type := mkExecutionRequests {
  er_deposits : list DepositRequest;
  er_withdrawals : list WithdrawalRequest;
  er_consolidations : list ConsolidationRequest;
}.

Record ExecutionPayload : Type := mkExecutionPayload {
  ep_parent_hash : bytes;
  ep_fee_recipient : bytes;
  ep_state_root : bytes;
  ep_receipts_root : bytes;
  ep_logs_bloom : bytes;
  ep_prev_randao : bytes;
  ep_block_number : Z;
  ep_gas_limit : Z;
  ep_gas_used : Z;
  ep_timestamp : Z;
  ep_extra_data : bytes;
  ep_base_fee_per_gas : Z;
  ep_block_hash : bytes;
  ep_transactions : list bytes;
  ep_withdrawals : list Withdrawal;
  ep_blob_gas_used : Z;
  ep_excess_blob_gas : Z;
}.

Record ElectraBody : Type := mkElectraBody {
  eb_randao_reveal : bytes;
  eb_eth1_data : Eth1Data;
  eb_graffiti : bytes;
  eb_proposer_slashings : list ProposerSlashing;
  eb_attester_slashings : list AttesterSlashing;
  eb_attestations : list ElectraAttestation;
  eb_deposits : list Deposit;
  eb_voluntary_exits : list SignedVoluntaryExit;
  eb_sync_aggregate : SyncAggregate;
  eb_execution_payload : ExecutionPayload;
  eb_bls_to_execution_changes : list SignedBLSToExecutionChange;
  eb_blob_kzg_commitments : list bytes;
  eb_execution_requests : ExecutionRequests;
}.

Record ElectraBlock : Type := mkElectraBlock {
  ebl_slot : Z;
  ebl_proposer_index : Z;
  ebl_parent_root : bytes;
  ebl_state_root : bytes;
  ebl_body : ElectraBody;
}.

Record SignedElectraBlock : Type := mkSignedElectraBlock {
  seb_message : ElectraBlock;
  seb_signature : bytes;
}.

(** ** Roots *)
Section roots.
  Context `{Crypto} `{BeaconSpec} `{ForkSpec} `{BlockSpec}.
  Local Abbreviation root := (result SszError bytes).

Definition u8_tree_hash : TreeHash Z :=
  mkTreeHash Z Basic false 1 (fun v => pad32 (to_le_bytes 1 v)) (to_le_bytes 1).
Definition u256_root (v : Z) : root := Ok (to_le_bytes 32 v).

(** [SszList<u8, N>], [Bitvector<N>] and [SszVector<T, N>] of composite elements. *)
Definition byte_list_root (N : Z) (b : bytes) : root :=
  r ← merkleize_padded sha256 (pack_bytes_to_chunks b) (div_ceil N 32);
  Ok (mix_in_length sha256 r (zlen b)).
Definition bitvector_root (N : Z) (data : bytes) : root :=
  merkleize_padded sha256 (pack_bytes_to_chunks data) (div_ceil N 256).
Definition vector_root {T} (elem_root : T -> root) (l : list T) : root :=
  roots ← mapM elem_root l; merkleize sha256 roots.

Definition MAX_AGGREGATION_BITS : Z := MAX_VALIDATORS_PER_COMMITTEE * MAX_COMMITTEES_PER_SLOT.

Definition electra_attestation_root (a : ElectraAttestation) : root :=
  derive_tree_hash_root [bitlist_root MAX_AGGREGATION_BITS (ea_aggregation_bits a);
    attestation_data_root (ea_data a); fixed_bytes_root (ea_signature a);
    bitvector_root MAX_COMMITTEES_PER_SLOT (ea_committee_bits a)].
Definition electra_indexed_attestation_root (a : IndexedAttestation) : root :=
  derive_tree_hash_root
    [basic_list_root u64_tree_hash MAX_AGGREGATION_BITS (ia_attesting_indices a);
     attestation_data_root (ia_data a); fixed_bytes_root (ia_signature a)].
Definition electra_attester_slashing_root (s : AttesterSlashing) : root :=
  derive_tree_hash_root [electra_indexed_attestation_root (as_attestation_1 s);
    electra_indexed_attestation_root (as_attestation_2 s)].
Definition sync_aggregate_root (a : SyncAggregate) : root :=
  derive_tree_hash_root [bitvector_root SYNC_COMMITTEE_SIZE (sync_committee_bits a);
    fixed_bytes_root (sync_committee_signature a)].
Definition withdrawal_root (w : Withdrawal) : root :=
  derive_tree_hash_root [u64_root (wd_index w); u64_root (wd_validator_index w);
    fixed_bytes_root (wd_address w); u64_root (wd_amount w)].
Definition transactions_root (l : list bytes) : root :=
  list_root MAX_TRANSACTIONS_PER_PAYLOAD (byte_list_root MAX_BYTES_PER_TRANSACTION) l.
Definition withdrawals_root (l : list Withdrawal) : root :=
  list_root MAX_WITHDRAWALS_PER_PAYLOAD withdrawal_root l.
Definition payload_root (p : ExecutionPayload) : root :=
  derive_tree_hash_root
    [fixed_bytes_root (ep_parent_hash p); fixed_bytes_root (ep_fee_recipient p);
     fixed_bytes_root (ep_state_root p); fixed_bytes_root (ep_receipts_root p);
     fixed_bytes_root (ep_logs_bloom p); fixed_bytes_root (ep_prev_randao p);
     u64_root (ep_block_number p); u64_root (ep_gas_limit p); u64_root (ep_gas_used p);
     u64_root (ep_timestamp p); byte_list_root MAX_EXTRA_DATA_BYTES (ep_extra_data p);
     u256_root (ep_base_fee_per_gas p); fixed_bytes_root (ep_block_hash p);
     transactions_root (ep_transactions p); withdrawals_root (ep_withdrawals p);
     u64_root (ep_blob_gas_used p); u64_root (ep_excess_blob_gas p)].
Definition payload_header_root (h : DenebHeader) : root :=
  derive_tree_hash_root
    [fixed_bytes_root (dph_parent_hash h); fixed_bytes_root (dph_fee_recipient h);
     fixed_bytes_root (dph_state_root h); fixed_bytes_root (dph_receipts_root h);
     fixed_bytes_root (dph_logs_bloom h); fixed_bytes_root (dph_prev_randao h);
     u64_root (dph_block_number h); u64_root (dph_gas_limit h); u64_root (dph_gas_used h);
     u64_root (dph_timestamp h); byte_list_root MAX_EXTRA_DATA_BYTES (dph_extra_data h);
     u256_root (dph_base_fee_per_gas h); fixed_bytes_root (dph_block_hash h);
     fixed_bytes_root (dph_transactions_root h); fixed_bytes_root (dph_withdrawals_root h);
     u64_root (dph_blob_gas_used h); u64_root (dph_excess_blob_gas h)].
Definition bls_change_root (c : BLSToExecutionChange) : root :=
  derive_tree_hash_root [u64_root (bec_validator_index c); fixed_bytes_root (bec_from_bls_pubkey c);
    fixed_bytes_root (bec_to_execution_address c)].
Definition signed_bls_change_root (c : SignedBLSToExecutionChange) : root :=
  derive_tree_hash_root [bls_change_root (sbec_message c); fixed_bytes_root (sbec_signature c)].
Definition deposit_request_root (r : DepositRequest) : root :=
  derive_tree_hash_root [fixed_bytes_root (dr_pubkey r); fixed_bytes_root (dr_withdrawal_credentials r);
    u64_root (dr_amount r); fixed_bytes_root (dr_signature r); u64_root (dr_index r)].
Definition withdrawal_request_root (r : WithdrawalRequest) : root :=
  derive_tree_hash_root [fixed_bytes_root (wr_source_address r); fixed_bytes_root (wr_validator_pubkey r);
    u64_root (wr_amount r)].
Definition consolidation_request_root (r : ConsolidationRequest) : root :=
  derive_tree_hash_root [fixed_bytes_root (cr_source_address r); fixed_bytes_root (cr_source_pubkey r);
    fixed_bytes_root (cr_target_pubkey r)].
Definition execution_requests_root (r : ExecutionRequests) : root :=
  derive_tree_hash_root
    [list_root MAX_DEPOSIT_REQUESTS_PER_PAYLOAD deposit_request_root (er_deposits r);
     list_root MAX_WITHDRAWAL_REQUESTS_PER_PAYLOAD withdrawal_request_root (er_withdrawals r);
     list_root MAX_CONSOLIDATION_REQUESTS_PER_PAYLOAD consolidation_request_root (er_consolidations r)].

Definition electra_body_root (b : ElectraBody) : root :=
  derive_tree_hash_root
    [fixed_bytes_root (eb_randao_reveal b); eth1_data_root (eb_eth1_data b);
     fixed_bytes_root (eb_graffiti b);
     list_root MAX_PROPOSER_SLASHINGS proposer_slashing_root (eb_proposer_slashings b);
     list_root MAX_ATTESTER_SLASHINGS_ELECTRA electra_attester_slashing_root (eb_attester_slashings b);
     list_root MAX_ATTESTATIONS_ELECTRA electra_attestation_root (eb_attestations b);
     list_root MAX_DEPOSITS deposit_root (eb_deposits b);
     list_root MAX_VOLUNTARY_EXITS signed_voluntary_exit_root (eb_voluntary_exits b);
     sync_aggregate_root (eb_sync_aggregate b); payload_root (eb_execution_payload b);
     list_root MAX_BLS_TO_EXECUTION_CHANGES signed_bls_change_root (eb_bls_to_execution_changes b);
     list_root MAX_BLOB_COMMITMENTS_PER_BLOCK fixed_bytes_root (eb_blob_kzg_commitments b);
     execution_requests_root (eb_execution_requests b)].

Definition electra_block_root (b : ElectraBlock) : root :=
  derive_tree_hash_root [u64_root (ebl_slot b); u64_root (ebl_proposer_index b);
    fixed_bytes_root (ebl_parent_root b); fixed_bytes_root (ebl_state_root b);
    electra_body_root (ebl_body b)].

(** ** The state *)
Definition sync_committee_root (c : SyncCommittee) : root :=
  derive_tree_hash_root [vector_root fixed_bytes_root (sc_pubkeys c);
    fixed_bytes_root (sc_aggregate_pubkey c)].
Definition historical_summary_root (h : HistoricalSummary) : root :=
  derive_tree_hash_root [fixed_bytes_root (block_summary_root h); fixed_bytes_root (state_summary_root h)].
Definition pending_deposit_root (d : PendingDeposit) : root :=
  derive_tree_hash_root [fixed_bytes_root (pd_pubkey d); fixed_bytes_root (pd_withdrawal_credentials d);
    u64_root (pd_amount d); fixed_bytes_root (pd_signature d); u64_root (pd_slot d)].
Definition pending_partial_root (w : PendingPartialWithdrawal) : root :=
  derive_tree_hash_root [u64_root (ppw_validator_index w); u64_root (ppw_amount w);
    u64_root (ppw_withdrawable_epoch w)].
Definition pending_consolidation_root (c : PendingConsolidation) : root :=
  derive_tree_hash_root [u64_root (pc_source_index c); u64_root (pc_target_index c)].

Definition electra_state_root (s : ElectraState) : root :=
  derive_tree_hash_root
    [u64_root (genesis_time s); fixed_bytes_root (genesis_validators_root s);
     u64_root (slot s); fork_root (fork s); header_root (latest_block_header s);
     basic_vector_root hash256_tree_hash (block_roots s);
     basic_vector_root hash256_tree_hash (state_roots s);
     basic_list_root hash256_tree_hash HISTORICAL_ROOTS_LIMIT (historical_roots s);
     eth1_data_root (eth1_data s);
     list_root ETH1_DATA_VOTES_LIMIT eth1_data_root (eth1_data_votes s);
     u64_root (eth1_deposit_index s);
     list_root VALIDATOR_REGISTRY_LIMIT validator_root (validators s);
     basic_list_root u64_tree_hash VALIDATOR_REGISTRY_LIMIT (balances s);
     basic_vector_root hash256_tree_hash (randao_mixes s);
     basic_vector_root u64_tree_hash (slashings s);
     basic_list_root u8_tree_hash VALIDATOR_REGISTRY_LIMIT (al_previous_epoch_participation s);
     basic_list_root u8_tree_hash VALIDATOR_REGISTRY_LIMIT (al_current_epoch_participation s);
     bitvector4_root (justification_bits s);
     checkpoint_root (previous_justified_checkpoint s);
     checkpoint_root (current_justified_checkpoint s);
     checkpoint_root (finalized_checkpoint s);
     basic_list_root u64_tree_hash VALIDATOR_REGISTRY_LIMIT (al_inactivity_scores s);
     sync_committee_root (al_current_sync_committee s);
     sync_committee_root (al_next_sync_committee s);
     payload_header_root (de_latest_execution_payload_header s);
     u64_root (de_next_withdrawal_index s); u64_root (de_next_withdrawal_validator_index s);
     list_root HISTORICAL_ROOTS_LIMIT historical_summary_root (de_historical_summaries s);
     u64_root (el_deposit_requests_start_index s); u64_root (el_deposit_balance_to_consume s);
     u64_root (el_exit_balance_to_consume s); u64_root (el_earliest_exit_epoch s);
     u64_root (el_consolidation_balance_to_consume s);
     u64_root (el_earliest_consolidation_epoch s);
     list_root MAX_PENDING_DEPOSITS_LIMIT pending_deposit_root (el_pending_deposits s);
     list_root MAX_PENDING_PARTIAL_WITHDRAWALS_LIMIT pending_partial_root
       (el_pending_partial_withdrawals s);
     list_root MAX_PENDING_CONSOLIDATIONS_LIMIT pending_consolidation_root
       (el_pending_consolidations s)].
End roots.

(** ** The requests on the wire *)
Definition deposit_request_codec : codec DepositRequest :=
  derive_codec (FCons (fixed_bytes_codec 48) (FCons root_codec (FCons u64_codec (FCons
    (fixed_bytes_codec 96) (FCons u64_codec FNil)))))
    (fun '(x0, (x1, (x2, (x3, (x4, _))))) => mkDepositRequest x0 x1 x2 x3 x4)
    (fun r => (dr_pubkey r, (dr_withdrawal_credentials r, (dr_amount r, (dr_signature r,
      (dr_index r, tt)))))).

Definition withdrawal_request_codec : codec WithdrawalRequest :=
  derive_codec (FCons (fixed_bytes_codec 20) (FCons (fixed_bytes_codec 48) (FCons u64_codec FNil)))
    (fun '(x0, (x1, (x2, _))) => mkWithdrawalRequest x0 x1 x2)
    (fun r => (wr_source_address r, (wr_validator_pubkey r, (wr_amount r, tt)))).

Definition consolidation_request_codec : codec ConsolidationRequest :=
  derive_codec (FCons (fixed_bytes_codec 20) (FCons (fixed_bytes_codec 48) (FCons
    (fixed_bytes_codec 48) FNil)))
    (fun '(x0, (x1, (x2, _))) => mkConsolidationRequest x0 x1 x2)
    (fun r => (cr_source_address r, (cr_source_pubkey r, (cr_target_pubkey r, tt)))).

Section requests.
  Context `{BlockSpec}.
  Local Abbreviation deposits_codec := (list_codec deposit_request_codec MAX_DEPOSIT_REQUESTS_PER_PAYLOAD).
  Local Abbreviation withdrawals_codec :=
    (list_codec withdrawal_request_codec MAX_WITHDRAWAL_REQUESTS_PER_PAYLOAD).
  Local Abbreviation consolidations_codec :=
    (list_codec consolidation_request_codec MAX_CONSOLIDATION_REQUESTS_PER_PAYLOAD).

Definition get_execution_requests_list (r : ExecutionRequests) : list bytes :=
  (if zlen (er_deposits r) =? 0 then []
   else [Byte.x00 :: as_ssz_bytes deposits_codec (er_deposits r)])
  ++ (if zlen (er_withdrawals r) =? 0 then []
      else [Byte.x01 :: as_ssz_bytes withdrawals_codec (er_withdrawals r)])
  ++ (if zlen (er_consolidations r) =? 0 then []
      else [Byte.x02 :: as_ssz_bytes consolidations_codec (er_consolidations r)]).

(** [.ok()?]: an error ends the parse with [None]; a decoder that aborts aborts it. *)
Definition parse_entry (requests : ExecutionRequests) (entry : bytes) : result unit ExecutionRequests :=
  match entry with
  | [] => Err tt
  | type_byte :: body =>
      match type_byte with
      | Byte.x00 =>
          l ← map_err (fun _ => tt) (from_ssz_bytes deposits_codec body);
          Ok (mkExecutionRequests l (er_withdrawals requests) (er_consolidations requests))
      | Byte.x01 =>
          l ← map_err (fun _ => tt) (from_ssz_bytes withdrawals_codec body);
          Ok (mkExecutionRequests (er_deposits requests) l (er_consolidations requests))
      | Byte.x02 =>
          l ← map_err (fun _ => tt) (from_ssz_bytes consolidations_codec body);
          Ok (mkExecutionRequests (er_deposits requests) (er_withdrawals requests) l)
      | _ => Err tt
      end
  end.

(** [Err tt] is the source's [None]. *)
Definition parse_execution_requests_list (entries : list bytes) : result unit ExecutionRequests :=
  foldM parse_entry entries (mkExecutionRequests [] [] []).
End requests.

(** ** Round trip *)
Definition wf_deposit_request : DepositRequest -> Prop :=
  wf_struct (wf_cons (wf_fixed_bytes 48) (wf_cons (wf_fixed_bytes 32) (wf_cons (wf_uint 8)
    (wf_cons (wf_fixed_bytes 96) (wf_cons (wf_uint 8) wf_nil)))))
    (fun '(x0, (x1, (x2, (x3, (x4, _))))) => mkDepositRequest x0 x1 x2 x3 x4)
    (fun r => (dr_pubkey r, (dr_withdrawal_credentials r, (dr_amount r, (dr_signature r,
      (dr_index r, tt)))))).
#[export] Instance deposit_request_codec_ok : CodecOk deposit_request_codec wf_deposit_request.
Proof. derive_ok. Qed.

Definition wf_withdrawal_request : WithdrawalRequest -> Prop :=
  wf_struct (wf_cons (wf_fixed_bytes 20) (wf_cons (wf_fixed_bytes 48) (wf_cons (wf_uint 8) wf_nil)))
    (fun '(x0, (x1, (x2, _))) => mkWithdrawalRequest x0 x1 x2)
    (fun r => (wr_source_address r, (wr_validator_pubkey r, (wr_amount r, tt)))).
#[export] Instance withdrawal_request_codec_ok : CodecOk withdrawal_request_codec wf_withdrawal_request.
Proof. derive_ok. Qed.

Definition wf_consolidation_request : ConsolidationRequest -> Prop :=
  wf_struct (wf_cons (wf_fixed_bytes 20) (wf_cons (wf_fixed_bytes 48) (wf_cons (wf_fixed_bytes 48) wf_nil)))
    (fun '(x0, (x1, (x2, _))) => mkConsolidationRequest x0 x1 x2)
    (fun r => (cr_source_address r, (cr_source_pubkey r, (cr_target_pubkey r, tt)))).
#[export] Instance consolidation_request_codec_ok :
  CodecOk consolidation_request_codec wf_consolidation_request.
Proof. derive_ok. Qed.

(** What the proof needs of the limits. *)
Class BlockSpecOk (B : BlockSpec) : Prop := {
  request_limits : 0 <= MAX_DEPOSIT_REQUESTS_PER_PAYLOAD <= 2 ^ 20 /\
    0 <= MAX_WITHDRAWAL_REQUESTS_PER_PAYLOAD <= 2 ^ 20 /\ 0 <= MAX_CONSOLIDATION_REQUESTS_PER_PAYLOAD <= 2 ^ 20;
}.
#[global] Instance preset_blocks_ok : BlockSpecOk preset_blocks.
Proof. split; cbn; lia. Qed.

Section round_trip.
  Context `{B : BlockSpec} `{!BlockSpecOk B}.

Definition wf_requests (r : ExecutionRequests) : Prop :=
  wf_list wf_deposit_request MAX_DEPOSIT_REQUESTS_PER_PAYLOAD (er_deposits r) /\
  wf_list wf_withdrawal_request MAX_WITHDRAWAL_REQUESTS_PER_PAYLOAD (er_withdrawals r) /\
  wf_list wf_consolidation_request MAX_CONSOLIDATION_REQUESTS_PER_PAYLOAD (er_consolidations r).

(** The entry of one type, left out when there is nothing to say. *)
Definition tagged (t : byte) (body : bytes) : list bytes := if zlen body =? 0 then [] else [t :: body].

Lemma list_bytes_len {T} (c : codec T) (wf : T -> Prop) N (l : list T) :
  CodecOk c wf -> IS_FIXED_SIZE c = true -> wf_list wf N l ->
  zlen (as_ssz_bytes (list_codec c N) l) = zlen l * ssz_fixed_len c.
Proof.
  intros Hc Hf [Hl _]. unfold as_ssz_bytes. cbn [list_codec ssz_append].
  rewrite (zlen_seq_encoding c wf), Hf. by apply (zlen_body_fixed c wf).
Qed.

Lemma tagged_encoding {T} (c : codec T) (wf : T -> Prop) N t (l : list T) :
  CodecOk c wf -> IS_FIXED_SIZE c = true -> wf_list wf N l ->
  tagged t (as_ssz_bytes (list_codec c N) l)
  = if zlen l =? 0 then [] else [t :: as_ssz_bytes (list_codec c N) l].
Proof.
  intros Hc Hf Hl. unfold tagged. rewrite (list_bytes_len c wf) by done.
  pose proof fixed_len_bounds as [Hpos _]. pose proof (zlen_nonneg l).
  destruct (Z.eqb_spec (zlen l) 0) as [->|], (Z.eqb_spec (zlen l * ssz_fixed_len c) 0); done || nia.
Qed.

(** Decoding the body of one type, whether it is there or not. *)
Lemma tagged_decode {T} (c : codec T) (wf : T -> Prop) N body l :
  CodecOk c wf -> IS_FIXED_SIZE c = true -> 0 <= N <= 2 ^ 20 -> ssz_fixed_len c <= 192 ->
  (if zlen body =? 0 then Ok [] else map_err (fun _ => tt) (from_ssz_bytes (list_codec c N) body)) = Ok l <->
  wf_list wf N l /\ as_ssz_bytes (list_codec c N) l = body.
Proof.
  intros Hc Hf HN Hlen. pose proof (list_codec_ok c wf N) as Hok. pose proof (fixed_len_bounds (c:=c)) as [Hpos _].
  assert (forall l, wf_list wf N l -> zlen (as_ssz_bytes (list_codec c N) l) < U32) as Hsize.
  { intros k Hk. rewrite (list_bytes_len c wf) by done. destruct Hk as [_ Hk]. pose proof (zlen_nonneg k). unfold U32. nia. }
  destruct (Z.eqb_spec (zlen body) 0) as [Hb|Hb].
  - apply zlen_0_nil in Hb as ->. split.
    + intros [= <-]. assert (wf_list wf N []) as Hnil by (split; [by apply Forall_nil|apply HN]).
      split; [done|]. apply zlen_0_nil. by rewrite (list_bytes_len c wf).
    + intros [Hl He]. f_equal. symmetry. apply zlen_0_nil. apply (f_equal zlen) in He.
      rewrite (list_bytes_len c wf) in He by done. change (zlen []) with 0 in He. nia.
  - rewrite map_err_Ok. split; [apply decode_canonical|]. intros [Hl <-]. apply decode_encode; [done|by apply Hsize].
Qed.

Lemma tagged_inj d w c d' w' c' :
  tagged Byte.x00 d ++ tagged Byte.x01 w ++ tagged Byte.x02 c
  = tagged Byte.x00 d' ++ tagged Byte.x01 w' ++ tagged Byte.x02 c' -> d = d' /\ w = w' /\ c = c'.
Proof.
  unfold tagged.
  destruct (Z.eqb_spec (zlen d) 0) as [->%zlen_0_nil|], (Z.eqb_spec (zlen w) 0) as [->%zlen_0_nil|],
    (Z.eqb_spec (zlen c) 0) as [->%zlen_0_nil|], (Z.eqb_spec (zlen d') 0) as [->%zlen_0_nil|],
    (Z.eqb_spec (zlen w') 0) as [->%zlen_0_nil|], (Z.eqb_spec (zlen c') 0) as [->%zlen_0_nil|];
    cbn; intros Heq; simplify_eq; done.
Qed.

Lemma parse_tagged d w c r :
  parse_execution_requests_list (tagged Byte.x00 d ++ tagged Byte.x01 w ++ tagged Byte.x02 c) = Ok r <->
  (if zlen d =? 0 then Ok [] else map_err (fun _ => tt)
     (from_ssz_bytes (list_codec deposit_request_codec MAX_DEPOSIT_REQUESTS_PER_PAYLOAD) d)) = Ok (er_deposits r) /\
  (if zlen w =? 0 then Ok [] else map_err (fun _ => tt)
     (from_ssz_bytes (list_codec withdrawal_request_codec MAX_WITHDRAWAL_REQUESTS_PER_PAYLOAD) w)) = Ok (er_withdrawals r) /\
  (if zlen c =? 0 then Ok [] else map_err (fun _ => tt)
     (from_ssz_bytes (list_codec consolidation_request_codec MAX_CONSOLIDATION_REQUESTS_PER_PAYLOAD) c)) = Ok (er_consolidations r).
Proof.
  unfold parse_execution_requests_list, tagged. destruct r as [rd rw rc]. cbn [er_deposits er_withdrawals er_consolidations].
  destruct (zlen d =? 0), (zlen w =? 0), (zlen c =? 0); cbn [app foldM parse_entry mbind result_bind er_deposits er_withdrawals er_consolidations];
    repeat match goal with
    | |- context [map_err ?f ?m] => destruct (map_err f m); cbn [mbind result_bind er_deposits er_withdrawals er_consolidations]
    end; naive_solver.
Qed.

(** In its canonical form (one entry for each non-empty list, ascending types)
    a request list parses to the requests [r] exactly if [r] is well formed and the
    list is the one derived from [r]: what the proposer rebuilds from the engine is
    what every verifier sends back to it, and no second canonical list gives the
    same requests. *)
Theorem requests_round_trip d w c r :
  let entries := tagged Byte.x00 d ++ tagged Byte.x01 w ++ tagged Byte.x02 c in
  (parse_execution_requests_list entries = Ok r <-> wf_requests r /\ get_execution_requests_list r = entries) /\
  (wf_requests r -> parse_execution_requests_list (get_execution_requests_list r) = Ok r).
Proof.
  intros entries. unfold entries. clear entries. destruct request_limits as (Hd & Hw & Hc).
  assert (forall r, wf_requests r -> get_execution_requests_list r =
    tagged Byte.x00 (as_ssz_bytes (list_codec deposit_request_codec MAX_DEPOSIT_REQUESTS_PER_PAYLOAD) (er_deposits r)) ++
    tagged Byte.x01 (as_ssz_bytes (list_codec withdrawal_request_codec MAX_WITHDRAWAL_REQUESTS_PER_PAYLOAD) (er_withdrawals r)) ++
    tagged Byte.x02 (as_ssz_bytes (list_codec consolidation_request_codec MAX_CONSOLIDATION_REQUESTS_PER_PAYLOAD) (er_consolidations r))) as Hget.
  { intros x (H1 & H2 & H3). unfold get_execution_requests_list.
    rewrite (tagged_encoding deposit_request_codec wf_deposit_request), (tagged_encoding withdrawal_request_codec wf_withdrawal_request),
      (tagged_encoding consolidation_request_codec wf_consolidation_request) by (done || apply _). done. }
  assert (forall d w c r, parse_execution_requests_list (tagged Byte.x00 d ++ tagged Byte.x01 w ++ tagged Byte.x02 c) = Ok r <->
    wf_requests r /\
    as_ssz_bytes (list_codec deposit_request_codec MAX_DEPOSIT_REQUESTS_PER_PAYLOAD) (er_deposits r) = d /\
    as_ssz_bytes (list_codec withdrawal_request_codec MAX_WITHDRAWAL_REQUESTS_PER_PAYLOAD) (er_withdrawals r) = w /\
    as_ssz_bytes (list_codec consolidation_request_codec MAX_CONSOLIDATION_REQUESTS_PER_PAYLOAD) (er_consolidations r) = c) as Hparse.
  { intros d' w' c' x. rewrite parse_tagged.
    rewrite (tagged_decode deposit_request_codec wf_deposit_request), (tagged_decode withdrawal_request_codec wf_withdrawal_request),
      (tagged_decode consolidation_request_codec wf_consolidation_request) by (done || apply _ || (vm_compute; congruence)).
    unfold wf_requests. tauto. }
  split.
  - rewrite Hparse. split.
    + intros (Hr & <- & <- & <-). split; [done|]. by apply Hget.
    + intros [Hr He]. split; [done|]. rewrite (Hget r Hr) in He. by apply tagged_inj in He.
  - intros Hr. rewrite (Hget r Hr). by apply Hparse.
Qed.
End round_trip.

Definition ex_requests : ExecutionRequests :=
  mkExecutionRequests [] [mkWithdrawalRequest (replicate 20 Byte.xaa) (replicate 48 Byte.x01) 7] [].

Lemma requests_round_trip_witness :
  @get_execution_requests_list preset_blocks ex_requests
  = [Byte.x01 :: replicate 20 Byte.xaa ++ replicate 48 Byte.x01 ++ Byte.x07 :: replicate 7 Byte.x00] /\
  @parse_execution_requests_list preset_blocks (@get_execution_requests_list preset_blocks ex_requests)
  = Ok ex_requests.
Proof.
  split; [vm_compute; reflexivity|].
  apply (@requests_round_trip preset_blocks _ [] [] [] ex_requests).
  assert (forall {T} (wf : T -> Prop) N, 0 <= N -> wf_list wf N []) as Hnil by (intros T wf N HN; by split; [constructor|]).
  split; [by apply Hnil|]. split; [|by apply Hnil]. split; [|by vm_compute].
  constructor; [|constructor]. split; [|reflexivity]. do 2 (split; [reflexivity|]). split; [|exact I]. by split.
Defined.
