(* ===== verification/ElectraOps.v ===== *)
(** * Electra: the operations of a block

    crates/pharos-stf/src/electra/{block.rs, operations/{attestation,block_header,
    execution_payload,proposer_slashing,process_operations,sync_aggregate}.rs}, the
    committee helpers of electra/helpers.rs, [process_randao_altair] and
    [process_eth1_data_altair] of altair/block.rs and
    capella/operations/bls_to_execution_change.rs.

    The execution engine is the interface [ExecutionEngine], as it is a trait in the
    source; batch verification of signatures is the interface [BatchVerification].
    [proposer_override] is the proposer a later fork knows in advance. *)

From stdpp Require Import gmap sorting.
From Stdlib Require Import ZArith Lia.
From S2P Require Import Prelude SszCodec SszBitfield SszTypes Merkle SszTree Shuffling Spec BeaconState Invariant Roots Accessors Mutators Operations Forks Altair AltairOps Electra Withdrawals ElectraQueues ElectraBody.

Definition DOMAIN_BLS_TO_EXECUTION_CHANGE : bytes := [Byte.x0a; Byte.x00; Byte.x00; Byte.x00].
Definition VERSIONED_HASH_VERSION_KZG : byte := Byte.x01.

Inductive PayloadVerificationStatus : Type := Valid | NotValidated | Invalid.
#[global] Instance PayloadVerificationStatus_eq_dec : EqDecision PayloadVerificationStatus.
Proof. solve_decision. Defined.

(** [ExecutionEngine::notify_new_payload_electra]. *)
Class ExecutionEngine : Type := {
  notify_new_payload_electra :
    ExecutionPayload -> list bytes -> bytes -> ExecutionRequests -> PayloadVerificationStatus;
}.

(** [bls::verify_signature_sets]; [None] is its error. *)
Class BatchVerification : Type := { verify_signature_sets : list SignatureSet -> option bool }.

(** The entries of [RuntimeConfig] a block reads. *)
Record RuntimeConfig : Type := mkRuntimeConfig {
  seconds_per_slot : Z;
  max_blobs_per_block_electra : Z;
  capella_fork_version : bytes;
}.

Section operations.
  Context `{Crypto} `{S : BeaconSpec} `{F : ForkSpec} `{Aggregation} `{BlockSpec}.
  Implicit Types s : ElectraState.
  Local Abbreviation fallible := (result StateTransitionError).

Definition proposer_or_elected s (proposer_override : option Z) : fallible Z :=
  match proposer_override with
  | Some p => Ok p
  | None => get_beacon_proposer_index_electra s
  end.

(** ** Attesters across committees (helpers.rs) *)
Definition get_committee_indices (committee_bits : bytes) : fallible (list Z) :=
  match bv_iter MAX_COMMITTEES_PER_SLOT committee_bits with
  | Ok bits => Ok (omap (fun '(i, b) => if b : bool then Some i else None) (enumerate bits))
  | _ => Panic
  end.

(** One member of a committee: [!output.contains(attester_index)]. *)
Definition attester_step (bits : Bitlist) (committee_offset : Z) (output : list Z) (entry : Z * Z)
    : fallible (list Z) :=
  let '(i, attester_index) := entry in
  bit ← bl_bit bits (wadd committee_offset i);
  Ok (if bit && negb (bool_decide (attester_index ∈ output)) then output ++ [attester_index] else output).

Definition attesters_of_committee s (attestation : ElectraAttestation) (acc : list Z * Z)
    (committee_index : Z) : fallible (list Z * Z) :=
  let '(output, committee_offset) := acc in
  committee ← get_beacon_committee s (ad_slot (ea_data attestation)) committee_index;
  output ← foldM (attester_step (ea_aggregation_bits attestation) committee_offset)
             (enumerate committee) output;
  Ok (output, wadd committee_offset (zlen committee)).

Definition get_attesting_indices_electra s (attestation : ElectraAttestation) : fallible (list Z) :=
  committee_indices ← get_committee_indices (ea_committee_bits attestation);
  '(output, _) ← foldM (attesters_of_committee s attestation) committee_indices ([], 0);
  Ok output.

Definition get_indexed_attestation_electra s (attestation : ElectraAttestation)
    : fallible IndexedAttestation :=
  attesting ← get_attesting_indices_electra s attestation;
  let attesting := merge_sort Z.le attesting in
  if MAX_AGGREGATION_BITS <? zlen attesting then Panic
  else Ok (mkIndexedAttestation attesting (ea_data attestation) (ea_signature attestation)).

(** ** attestation.rs *)
Definition indexed_attestation_signature_set_electra s (indexed_att : IndexedAttestation)
    : fallible (option SignatureSet) :=
  let indices := ia_attesting_indices indexed_att in
  if zlen indices =? 0 then Ok None
  else if negb (strictly_increasing indices) then Ok None
  else
    let pubkeys := omap (fun i => v_pubkey <$> validators s !! Z.to_nat i) indices in
    if negb (zlen pubkeys =? zlen indices) then Ok None
    else
      match aggregate_pubkeys pubkeys with
      | None => Ok None
      | Some agg_pubkey =>
          domain ← get_domain s DOMAIN_BEACON_ATTESTER
                     (Some (cp_epoch (ad_target (ia_data indexed_att))));
          msg ← compute_signing_root (attestation_data_root (ia_data indexed_att)) domain;
          Ok (Some (mkSignatureSet agg_pubkey msg (ia_signature indexed_att)))
      end.

Definition is_valid_indexed_attestation_electra `{BatchVerification} s (indexed_att : IndexedAttestation)
    (verify_signatures : bool) : fallible bool :=
  let indices := ia_attesting_indices indexed_att in
  if zlen indices =? 0 then Ok false
  else if negb (strictly_increasing indices) then Ok false
  else if negb verify_signatures then Ok true
  else
    set ← indexed_attestation_signature_set_electra s indexed_att;
    Ok (match set with
        | Some set => default false (verify_signature_sets [set])
        | None => false
        end).

(** [committee.iter().enumerate().any(..)] on the bits from [i] on. *)
Fixpoint any_bit (bits : Bitlist) (i : Z) (committee : list Z) : fallible bool :=
  match committee with
  | [] => Ok false
  | _ :: committee =>
      bit ← bl_bit bits i;
      if bit : bool then Ok true else any_bit bits (wadd i 1) committee
  end.

(** One committee of the bits: in range, with an attester; the next offset. *)
Definition committee_check s (attestation : ElectraAttestation) (committee_count committee_offset : Z)
    (committee_index : Z) : fallible Z :=
  if committee_count <=? committee_index then Err (InvalidAttestation CommitteeIndexOutOfRange)
  else
    committee ← get_beacon_committee s (ad_slot (ea_data attestation)) committee_index;
    has_attester ← any_bit (ea_aggregation_bits attestation) committee_offset committee;
    if negb has_attester then Err (InvalidAttestation EmptyAttestingIndices)
    else Ok (wadd committee_offset (zlen committee)).

Definition process_attestation_electra s (attestation : ElectraAttestation) (verify_signatures : bool)
    (proposer_override : option Z) : fallible (ElectraState * option SignatureSet) :=
  let data := ea_data attestation in
  let target_epoch := cp_epoch (ad_target data) in
  let current_epoch := compute_epoch_at_slot (slot s) SLOTS_PER_EPOCH in
  let previous_epoch := if current_epoch =? 0 then 0 else wsub current_epoch 1 in
  if negb (target_epoch =? current_epoch) && negb (target_epoch =? previous_epoch)
  then Err (InvalidAttestation TargetEpochMismatch)
  else if negb (target_epoch =? compute_epoch_at_slot (ad_slot data) SLOTS_PER_EPOCH)
  then Err (InvalidAttestation TargetEpochMismatch)
  else if slot s <? wadd (ad_slot data) MIN_ATTESTATION_INCLUSION_DELAY
  then Err (InvalidAttestation SlotTooNew)
  else if negb (ad_index data =? 0) then Err (InvalidAttestation CommitteeIndexOutOfRange)
  else
    let altair := electra_state_to_altair s in
    committee_indices ← get_committee_indices (ea_committee_bits attestation);
    let committee_count := get_committee_count_per_slot_altair altair target_epoch in
    committee_offset ← foldM (committee_check s attestation committee_count) committee_indices 0;
    if negb (bit_len (ea_aggregation_bits attestation) =? committee_offset)
    then Err (InvalidAttestation AggregationBitsLengthMismatch)
    else
      let inclusion_delay := wsub (slot s) (ad_slot data) in
      participation_flag_indices ←
        get_attestation_participation_flag_indices altair data inclusion_delay true;
      sig_set ← (if verify_signatures then
                   indexed ← get_indexed_attestation_electra s attestation;
                   set ← indexed_attestation_signature_set_electra s indexed;
                   match set with
                   | Some set => Ok (Some set)
                   | None => Err (InvalidAttestation AttInvalidSignature)
                   end
                 else Ok None);
      attesting_indices ← get_attesting_indices_electra s attestation;
      brpi ← get_base_reward_per_increment altair;
      let is_current := target_epoch =? current_epoch in
      '(altair, proposer_reward_numerator) ←
        accumulate_attestation_participation_altair altair attesting_indices
          participation_flag_indices is_current brpi;
      let a := de_altair (el_deneb s) in
      let a := al_with_previous_epoch_participation a (al_previous_epoch_participation altair) in
      let a := al_with_current_epoch_participation a (al_current_epoch_participation altair) in
      let s := el_with_deneb s (de_with_altair (el_deneb s) a) in
      let proposer_reward := proposer_reward_numerator / proposer_reward_denominator in
      proposer_index ← proposer_or_elected s proposer_override;
      s ← increase_balance_electra s proposer_index proposer_reward;
      Ok (s, sig_set).

Definition attester_slashing_step_electra (proposer_override : option Z) (epoch : Z)
    (acc : ElectraState * bool) (index : Z) : fallible (ElectraState * bool) :=
  let '(s, slashed_any) := acc in
  let is_slashable :=
    default false ((fun v => is_slashable_validator v epoch) <$> validators s !! Z.to_nat index) in
  if is_slashable then s ← slash_validator_electra s index None proposer_override; Ok (s, true)
  else Ok (s, slashed_any).

Definition process_attester_slashing_electra `{BatchVerification} s (slashing : AttesterSlashing)
    (verify_signatures : bool) (proposer_override : option Z) : fallible ElectraState :=
  let att1 := as_attestation_1 slashing in
  let att2 := as_attestation_2 slashing in
  if negb (is_slashable_attestation_data (ia_data att1) (ia_data att2))
  then Err (InvalidAttesterSlashing AttestationsNotSlashable)
  else
    valid1 ← is_valid_indexed_attestation_electra s att1 verify_signatures;
    if negb valid1 then Err (InvalidAttesterSlashing InvalidIndexedAttestation)
    else
      valid2 ← is_valid_indexed_attestation_electra s att2 verify_signatures;
      if negb valid2 then Err (InvalidAttesterSlashing InvalidIndexedAttestation)
      else
        let epoch := compute_epoch_at_slot (slot s) SLOTS_PER_EPOCH in
        let intersection := intersect (ia_attesting_indices att1) (ia_attesting_indices att2) in
        '(s, slashed_any) ← foldM (attester_slashing_step_electra proposer_override epoch)
                              intersection (s, false);
        if negb slashed_any then Err (InvalidAttesterSlashing NoSlashableIndices) else Ok s.

(** ** block_header.rs *)
Definition process_block_header_electra s (block_slot block_proposer_index : Z)
    (block_parent_root block_body_root : bytes) (proposer_override : option Z) : fallible ElectraState :=
  if negb (block_slot =? slot s) then Err (InvalidBlockHeader HeaderSlotMismatch)
  else if block_slot <=? bh_slot (latest_block_header s) then Err (InvalidBlockHeader SlotNotLater)
  else
    proposer_index ← proposer_or_elected s proposer_override;
    if negb (block_proposer_index =? proposer_index)
    then Err (InvalidBlockHeader HeaderProposerIndexMismatch)
    else
      expected_parent_root ← root_value (header_root (latest_block_header s));
      if negb (bool_decide (block_parent_root = expected_parent_root))
      then Err (InvalidBlockHeader ParentRootMismatch)
      else
        let s := el_with_base s (with_latest_block_header s
          (mkBeaconBlockHeader block_slot block_proposer_index block_parent_root zero_chunk
             block_body_root)) in
        let proposer_slashed := default false (v_slashed <$> validators s !! Z.to_nat proposer_index) in
        if proposer_slashed then Err (InvalidBlockHeader ProposerSlashed) else Ok s.

(** ** execution_payload.rs *)

(** [kzg_commitment_to_versioned_hash] of pharos-kzg. *)
Definition kzg_commitment_to_versioned_hash (commitment : bytes) : bytes :=
  <[0%nat := VERSIONED_HASH_VERSION_KZG]> (sha256 commitment).

Definition process_execution_payload `{ExecutionEngine} s (body : ElectraBody) (cfg : RuntimeConfig)
    : fallible (ElectraState * PayloadVerificationStatus) :=
  let payload := eb_execution_payload body in
  if negb (bool_decide (ep_parent_hash payload = dph_block_hash (de_latest_execution_payload_header s)))
  then Err (InvalidExecutionPayload "parent_hash mismatch")
  else
    let current_epoch := compute_epoch_at_slot (slot s) SLOTS_PER_EPOCH in
    let expected_randao := default zero_chunk
      (randao_mixes s !! Z.to_nat (current_epoch mod EPOCHS_PER_HISTORICAL_VECTOR)) in
    if negb (bool_decide (ep_prev_randao payload = expected_randao))
    then Err (InvalidExecutionPayload "prev_randao mismatch")
    else
      let expected_timestamp := wadd (genesis_time s) (wmul (slot s) (seconds_per_slot cfg)) in
      if negb (ep_timestamp payload =? expected_timestamp)
      then Err (InvalidExecutionPayload "timestamp mismatch")
      else
        let blob_count := zlen (eb_blob_kzg_commitments body) in
        if max_blobs_per_block_electra cfg <? blob_count
        then Err (TooManyBlobCommitments blob_count (max_blobs_per_block_electra cfg))
        else
          let versioned_hashes :=
            kzg_commitment_to_versioned_hash <$> eb_blob_kzg_commitments body in
          let parent_beacon_block_root := bh_parent_root (latest_block_header s) in
          let el_status := notify_new_payload_electra payload versioned_hashes
                             parent_beacon_block_root (eb_execution_requests body) in
          if bool_decide (el_status = Invalid)
          then Err (InvalidExecutionPayload "execution engine rejected payload")
          else
            transactions_root ← root_value (transactions_root (ep_transactions payload));
            withdrawals_root ← root_value (withdrawals_root (ep_withdrawals payload));
            let header := mkDenebHeader (ep_parent_hash payload) (ep_fee_recipient payload)
              (ep_state_root payload) (ep_receipts_root payload) (ep_logs_bloom payload)
              (ep_prev_randao payload) (ep_block_number payload) (ep_gas_limit payload)
              (ep_gas_used payload) (ep_timestamp payload) (ep_extra_data payload)
              (ep_base_fee_per_gas payload) (ep_block_hash payload) transactions_root
              withdrawals_root (ep_blob_gas_used payload) (ep_excess_blob_gas payload) in
            Ok (el_with_deneb s (de_with_latest_execution_payload_header (el_deneb s) header), el_status).

(** ** proposer_slashing.rs *)
Definition process_proposer_slashing_electra s (slashing : ProposerSlashing) (verify_signatures : bool)
    (proposer_override : option Z) : fallible ElectraState :=
  let header_1 := sbh_message (ps_signed_header_1 slashing) in
  let header_2 := sbh_message (ps_signed_header_2 slashing) in
  if negb (bh_slot header_1 =? bh_slot header_2)
  then Err (InvalidProposerSlashing SlashingSlotMismatch)
  else if negb (bh_proposer_index header_1 =? bh_proposer_index header_2)
  then Err (InvalidProposerSlashing SlashingProposerIndexMismatch)
  else if bool_decide (header_1 = header_2) then Err (InvalidProposerSlashing HeadersIdentical)
  else
    let proposer_idx := bh_proposer_index header_1 in
    proposer ← ok_or (validators s !! Z.to_nat proposer_idx)
                 (InvalidProposerSlashing ValidatorNotSlashable);
    let epoch := compute_epoch_at_slot (slot s) SLOTS_PER_EPOCH in
    if negb (is_slashable_validator proposer epoch)
    then Err (InvalidProposerSlashing ValidatorNotSlashable)
    else
      _ ← (if verify_signatures
           then foldM (fun _ h => check_header_signature s proposer h)
                  [ps_signed_header_1 slashing; ps_signed_header_2 slashing] tt
           else Ok tt);
      slash_validator_electra s proposer_idx None proposer_override.

(** ** sync_aggregate.rs *)
Definition process_sync_aggregate_electra s (aggregate : SyncAggregate) (verify_signatures : bool)
    (proposer_override : option Z) : fallible ElectraState :=
  proposer_index ← proposer_or_elected s proposer_override;
  let altair := electra_state_to_altair s in
  participant_pubkeys ← sync_participant_pubkeys altair aggregate;
  _ ← (if verify_signatures then check_sync_signature altair aggregate participant_pubkeys
       else Ok tt);
  '(participant_reward, proposer_reward) ← sync_aggregate_rewards_altair altair;
  committee_indices ← sync_committee_indices altair;
  altair ← foldM (sync_step (sync_committee_bits aggregate) proposer_index participant_reward
                    proposer_reward) (enumerate committee_indices) altair;
  Ok (el_with_base s (with_balances s (balances (al_base altair)))).

(** ** capella/operations/bls_to_execution_change.rs *)
Definition BLS_WITHDRAWAL_PREFIX : byte := Byte.x00.
Definition ETH1_ADDRESS_WITHDRAWAL_PREFIX : byte := Byte.x01.

Definition ca_with_validators (c : CapellaState) (vs : list Validator) : CapellaState :=
  ca_with_altair c (al_with_base (ca_altair c) (with_validators c vs)).

Definition process_bls_to_execution_change (c : CapellaState) (signed_change : SignedBLSToExecutionChange)
    (verify_signatures : bool) : fallible CapellaState :=
  let change := sbec_message signed_change in
  let index := bec_validator_index change in
  if zlen (validators c) <=? index
  then Err (InvalidBlsToExecutionChange "validator index out of bounds")
  else
    v ← ok_or (validators c !! Z.to_nat index)
          (InvalidBlsToExecutionChange "validator index out of bounds");
    let creds := v_withdrawal_credentials v in
    if negb (bool_decide (head creds = Some BLS_WITHDRAWAL_PREFIX))
    then Err (InvalidBlsToExecutionChange "withdrawal credentials not BLS prefix")
    else
      let pubkey_hash := sha256 (bec_from_bls_pubkey change) in
      if negb (bool_decide (drop 1 creds = drop 1 pubkey_hash))
      then Err (InvalidBlsToExecutionChange "withdrawal credentials pubkey hash mismatch")
      else
        _ ← (if verify_signatures then
               domain ← compute_domain DOMAIN_BLS_TO_EXECUTION_CHANGE GENESIS_FORK_VERSION
                          (genesis_validators_root c);
               signing_root ← compute_signing_root (bls_change_root change) domain;
               if default false (bls_verify (bec_from_bls_pubkey change) signing_root
                                   (sbec_signature signed_change))
               then Ok tt else Err (InvalidBlsToExecutionChange "invalid BLS signature")
             else Ok tt);
        let new_creds := ETH1_ADDRESS_WITHDRAWAL_PREFIX :: replicate 11 Byte.x00
                           ++ bec_to_execution_address change in
        vs ← map_err Ssz (list_with_set (validators c) index (v_with_credentials v new_creds));
        Ok (ca_with_validators c vs).
End operations.

(** ** altair/block.rs: the steps a later block runs on its Altair part *)
Section altair_steps.
  Context `{Crypto} `{S : BeaconSpec} `{F : ForkSpec}.
  Implicit Types a : AltairState.
  Local Abbreviation fallible := (result StateTransitionError).

Definition process_randao_altair a (randao_reveal : bytes) (verify_signatures : bool)
    : fallible AltairState :=
  let epoch := compute_epoch_at_slot (slot a) SLOTS_PER_EPOCH in
  _ ← (if verify_signatures then
         proposer_index ← get_proposer_index_altair a;
         proposer ← ok_or (validators a !! Z.to_nat proposer_index) InvalidRandaoReveal;
         domain ← get_domain_altair a DOMAIN_RANDAO (Some epoch);
         signing_root ← compute_signing_root (u64_root epoch) domain;
         if default false (bls_verify (v_pubkey proposer) signing_root randao_reveal)
         then Ok tt else Err InvalidRandaoReveal
       else Ok tt);
  let mix_idx := epoch mod EPOCHS_PER_HISTORICAL_VECTOR in
  let cur_mix := default zero_chunk (randao_mixes a !! Z.to_nat mix_idx) in
  let new_mix := xor cur_mix (sha256 randao_reveal) in
  al_on (fun b => set_randao_mix b mix_idx new_mix) a.

Definition process_eth1_data_altair a (eth1 : Eth1Data) : fallible AltairState :=
  a ← al_on (fun b => push_eth1_data_vote b eth1) a;
  let votes_count := zlen (filter (fun v => v = eth1) (eth1_data_votes (al_base a))) in
  if wmul EPOCHS_PER_ETH1_VOTING_PERIOD SLOTS_PER_EPOCH <? wmul votes_count 2
  then Ok (al_with_base a (with_eth1_data (al_base a) eth1)) else Ok a.
End altair_steps.

(** ** process_operations.rs and block.rs *)
Section block.
  Context `{Crypto} `{S : BeaconSpec} `{F : ForkSpec} `{Aggregation} `{BlockSpec} `{BatchVerification}.
  Implicit Types s : ElectraState.
  Local Abbreviation fallible := (result StateTransitionError).

(** The deposits a block owes the deposit contract. *)
Definition check_deposit_count s (body : ElectraBody) : fallible unit :=
  let eth1_deposit_index_limit :=
    Z.min (e1_deposit_count (eth1_data s)) (el_deposit_requests_start_index s) in
  if eth1_deposit_index s <? eth1_deposit_index_limit then
    let expected := Z.min MAX_DEPOSITS (eth1_deposit_index_limit - eth1_deposit_index s) in
    if negb (zlen (eb_deposits body) =? expected) then Err InvalidDepositCount else Ok tt
  else if negb (zlen (eb_deposits body) =? 0) then Err InvalidDepositCount
  else Ok tt.

(** An attestation, its signature set kept for the batch. *)
Definition collect_attestation (verify_signatures : bool) (proposer_override : option Z)
    (acc : ElectraState * list SignatureSet) (attestation : ElectraAttestation)
    : fallible (ElectraState * list SignatureSet) :=
  let '(s, att_sig_sets) := acc in
  '(s, set) ← process_attestation_electra s attestation verify_signatures proposer_override;
  Ok (s, match set with Some set => att_sig_sets ++ [set] | None => att_sig_sets end).

Definition check_batch (att_sig_sets : list SignatureSet) : fallible unit :=
  if zlen att_sig_sets =? 0 then Ok tt
  else
    match verify_signature_sets att_sig_sets with
    | Some true => Ok tt
    | _ => Err (InvalidAttestation AttInvalidSignature)
    end.

(** The credential changes on the Capella projection, copied back. *)
Definition process_bls_changes s (changes : list SignedBLSToExecutionChange) (verify_signatures : bool)
    : fallible ElectraState :=
  let deneb := electra_state_to_deneb s in
  let capella := deneb_state_to_capella deneb in
  capella ← foldM (fun c x => process_bls_to_execution_change c x verify_signatures) changes capella;
  let deneb := update_deneb_from_capella deneb capella in
  Ok (update_electra_from_deneb s deneb).

Definition process_operations_electra s (body : ElectraBody) (verify_signatures : bool)
    (cfg : RuntimeConfig) (proposer_override : option Z) : fallible ElectraState :=
  _ ← check_deposit_count s body;
  s ← foldM (fun s x => process_proposer_slashing_electra s x verify_signatures proposer_override)
        (eb_proposer_slashings body) s;
  s ← foldM (fun s x => process_attester_slashing_electra s x verify_signatures proposer_override)
        (eb_attester_slashings body) s;
  '(s, att_sig_sets) ← foldM (collect_attestation verify_signatures proposer_override)
                         (eb_attestations body) (s, []);
  _ ← check_batch att_sig_sets;
  s ← foldM (fun s x => process_deposit_electra s x verify_signatures) (eb_deposits body) s;
  s ← foldM (fun s x => process_voluntary_exit_electra s x verify_signatures
                          (capella_fork_version cfg)) (eb_voluntary_exits body) s;
  s ← process_bls_changes s (eb_bls_to_execution_changes body) verify_signatures;
  s ← foldM process_deposit_request (er_deposits (eb_execution_requests body)) s;
  s ← foldM process_withdrawal_request (er_withdrawals (eb_execution_requests body)) s;
  foldM process_consolidation_request (er_consolidations (eb_execution_requests body)) s.

(** The reveal is checked against the proposer of this fork. *)
Definition check_randao_reveal s (randao_reveal : bytes) : fallible unit :=
  let epoch := compute_epoch_at_slot (slot s) SLOTS_PER_EPOCH in
  proposer_index ← get_beacon_proposer_index_electra s;
  proposer ← ok_or (validators s !! Z.to_nat proposer_index) InvalidRandaoReveal;
  domain ← get_domain s DOMAIN_RANDAO (Some epoch);
  signing_root ← compute_signing_root (u64_root epoch) domain;
  if default false (bls_verify (v_pubkey proposer) signing_root randao_reveal)
  then Ok tt else Err InvalidRandaoReveal.

Definition process_block_electra `{ExecutionEngine} s (block : ElectraBlock) (verify_signatures : bool)
    (cfg : RuntimeConfig) : fallible (ElectraState * PayloadVerificationStatus) :=
  let body := ebl_body block in
  body_root ← root_value (electra_body_root body);
  s ← process_block_header_electra s (ebl_slot block) (ebl_proposer_index block)
        (ebl_parent_root block) body_root None;
  s ← process_withdrawals_electra s (ep_withdrawals (eb_execution_payload body));
  '(s, payload_status) ← process_execution_payload s body cfg;
  _ ← (if verify_signatures then check_randao_reveal s (eb_randao_reveal body) else Ok tt);
  let altair_state := electra_state_to_altair s in
  altair_state ← process_randao_altair altair_state (eb_randao_reveal body) false;
  altair_state ← process_eth1_data_altair altair_state (eb_eth1_data body);
  let s := update_electra_from_altair s altair_state in
  s ← process_operations_electra s body verify_signatures cfg None;
  s ← process_sync_aggregate_electra s (eb_sync_aggregate body) verify_signatures None;
  Ok (s, payload_status).
End block.
