(* ===== verification/ElectraBlock.v ===== *)
(** * Electra: what a block does to the state

    Every operation of a block keeps the state well formed ([electra_ok]), leaves
    the fields of the chain alone ([fixed]) and changes a validator only in the ways
    the protocol allows ([validator_evolves]): an exit epoch, once set, stays; a
    slashed validator stays slashed; an execution address, once set, never changes.
    [advances n] collects these promises for a step that reads [n] deposits.

    Theorem [electra_block_sound] composes them over [process_block_electra]. *)

From stdpp Require Import gmap sorting.
From Stdlib Require Import ZArith Lia.
From S2P Require Import Prelude SszCodec SszBitfield SszTypes Merkle SszTree Shuffling Spec BeaconState Invariant Roots Accessors Mutators Justification Rewards EpochUpdates Operations Genesis Forks ForkInvariant Altair AltairFacts AltairOps Electra Withdrawals ElectraQueues PendingDeposits ElectraEpoch ElectraBody ElectraOps.

(** ** What may change *)

(** The fields no operation of a block touches. *)
Definition fixed (s : ElectraState) :=
  ((genesis_time s, genesis_validators_root s, slot s, fork s, latest_block_header s),
   (block_roots s, state_roots s, historical_roots s, eth1_data s, eth1_data_votes s, randao_mixes s),
   (justification_bits s, previous_justified_checkpoint s, current_justified_checkpoint s,
    finalized_checkpoint s),
   (al_current_sync_committee s, al_next_sync_committee s, de_latest_execution_payload_header s,
    de_next_withdrawal_index s, de_next_withdrawal_validator_index s, de_historical_summaries s)).

(** Credentials with a prefix other than that of a BLS key keep their address; the
    prefix of an execution address may become that of a compounding validator. *)
Definition credentials_evolve (c c' : bytes) : Prop :=
  head c <> Some Byte.x00 ->
  drop 1 c' = drop 1 c /\ (head c' = head c \/ (head c = Some Byte.x01 /\ head c' = Some Byte.x02)).

Record validator_evolves (v v' : Validator) : Prop := {
  vev_pubkey : v_pubkey v' = v_pubkey v;
  vev_credentials : credentials_evolve (v_withdrawal_credentials v) (v_withdrawal_credentials v');
  vev_effective : v_effective_balance v' = v_effective_balance v;
  vev_eligibility : v_activation_eligibility_epoch v' = v_activation_eligibility_epoch v;
  vev_activation : v_activation_epoch v' = v_activation_epoch v;
  vev_slashed : v_slashed v = true -> v_slashed v' = true;
  vev_exit : v_exit_epoch v <> FAR_FUTURE_EPOCH -> v_exit_epoch v' = v_exit_epoch v;
}.

(** Validators keep their place; new ones come at the end. *)
Definition registry_evolves (vs vs' : list Validator) : Prop :=
  forall i v, vs !! i = Some v -> exists v', vs' !! i = Some v' /\ validator_evolves v v'.

Lemma credentials_evolve_refl c : credentials_evolve c c.
Proof. intros _. by split; [|left]. Qed.
Lemma credentials_evolve_trans c1 c2 c3 :
  credentials_evolve c1 c2 -> credentials_evolve c2 c3 -> credentials_evolve c1 c3.
Proof.
  intros H12 H23 H1. destruct (H12 H1) as [Hd1 Hh1]. destruct H23 as [Hd2 Hh2].
  { destruct Hh1 as [->|[_ ->] ]; done. }
  split; [congruence|]. destruct Hh1 as [Hh1|[Hh1 Hh1'] ], Hh2 as [Hh2|[Hh2 Hh2'] ]; try (left; congruence); right; split; congruence.
Qed.

Lemma validator_evolves_refl v : validator_evolves v v.
Proof. split; try done. apply credentials_evolve_refl. Qed.
Lemma validator_evolves_trans v1 v2 v3 :
  validator_evolves v1 v2 -> validator_evolves v2 v3 -> validator_evolves v1 v3.
Proof.
  intros [] []. split; try congruence; [by eapply credentials_evolve_trans|auto|].
  intros Hx. rewrite vev_exit1; [auto|]. by rewrite vev_exit0.
Qed.

Lemma registry_evolves_refl vs : registry_evolves vs vs.
Proof. intros i v Hv. exists v. split; [done|apply validator_evolves_refl]. Qed.
Lemma registry_evolves_trans vs1 vs2 vs3 :
  registry_evolves vs1 vs2 -> registry_evolves vs2 vs3 -> registry_evolves vs1 vs3.
Proof.
  intros H12 H23 i v Hv. destruct (H12 i v Hv) as (v2 & Hv2 & E12). destruct (H23 i v2 Hv2) as (v3 & Hv3 & E23).
  exists v3. split; [done|by eapply validator_evolves_trans].
Qed.
Lemma registry_evolves_insert vs i v v' :
  vs !! i = Some v -> validator_evolves v v' -> registry_evolves vs (<[i := v']> vs).
Proof.
  intros Hv Hev j w Hw. pose proof (lookup_lt_Some _ _ _ Hv). destruct (decide (j = i)) as [->|Hne].
  - exists v'. split; [by apply list_lookup_insert_eq|]. by simplify_eq.
  - exists w. split; [by rewrite list_lookup_insert_ne|apply validator_evolves_refl].
Qed.
Lemma registry_evolves_app vs ws : registry_evolves vs (vs ++ ws).
Proof. intros i v Hv. exists v. split; [by apply lookup_app_l_Some|apply validator_evolves_refl]. Qed.

Section advances.
  Context `{Crypto} `{Sp : BeaconSpec} `{Fs : ForkSpec} `{Aggregation} `{!SpecOk Sp} `{!ForkSpecOk Sp Fs}.
  Implicit Types s : ElectraState.

Record advances (n : Z) s s' : Prop := {
  av_ok : electra_ok s';
  av_fixed : fixed s' = fixed s;
  av_deposits : eth1_deposit_index s' mod U64 = (eth1_deposit_index s + n) mod U64;
  av_registry : registry_evolves (validators s) (validators s');
}.

Lemma advances_refl s : electra_ok s -> advances 0 s s.
Proof. intros Hs. split; [done..|by rewrite Z.add_0_r|apply registry_evolves_refl]. Qed.
Lemma advances_trans n m k s1 s2 s3 : advances n s1 s2 -> advances m s2 s3 -> k = n + m -> advances k s1 s3.
Proof.
  intros [O1 F1 D1 R1] [O2 F2 D2 R2] ->. split; [done|congruence| |by eapply registry_evolves_trans].
  rewrite D2, (mod_shift _ _ _ D1). f_equal. lia.
Qed.
Lemma advances_trans0 s1 s2 s3 : advances 0 s1 s2 -> advances 0 s2 s3 -> advances 0 s1 s3.
Proof. intros. by eapply advances_trans. Qed.

Lemma foldM_advances {A} (d : Z) (f : ElectraState -> A -> result StateTransitionError ElectraState) l s s' :
  (forall s a s', electra_ok s -> a ∈ l -> f s a = Ok s' -> advances d s s') ->
  electra_ok s -> foldM f l s = Ok s' -> advances (d * zlen l) s s'.
Proof.
  revert s. induction l as [|a l IH]; intros s Hf Hs; cbn [foldM].
  { intros [= <-]. rewrite Z.mul_0_r. by apply advances_refl. }
  intros (s1 & H1 & H2)%bind_Ok_inv. pose proof (Hf s a s1 Hs ltac:(left) H1) as A1.
  eapply advances_trans; [exact A1|apply IH; [|apply A1|exact H2]|rewrite zlen_cons; lia].
  intros s0 x s0' ? Hx. apply Hf; [done|by right].
Qed.

(** ** Single writes *)
Lemma advances_base s b :
  electra_ok (el_with_base s b) -> fixed (el_with_base s b) = fixed s ->
  eth1_deposit_index b = eth1_deposit_index s -> registry_evolves (validators s) (validators b) ->
  advances 0 s (el_with_base s b).
Proof. intros Hok Hf Hd Hr. split; [done..| |done]. cbn. by rewrite Hd, Z.add_0_r. Qed.

Lemma set_validator_advances s i v v' s' :
  electra_ok s -> validators s !! Z.to_nat i = Some v -> validator_evolves v v' ->
  validator_within MAX_EFFECTIVE_BALANCE_ELECTRA v' -> el_set_validator s i v' = Ok s' -> advances 0 s s'.
Proof.
  intros Hs Hv Hev Hw Hset. destruct (set_validator_kept s i v' s' Hs Hw Hset) as ([Hok _ _] & _ & _).
  apply bind_Ok_inv in Hset as (vs & [_ ->]%map_err_Ok%list_with_set_inv & [= <-]).
  apply advances_base; [done..|]. by eapply registry_evolves_insert.
Qed.

Lemma set_balance_advances s i b s' :
  electra_ok s -> u64 b -> el_set_balance s i b = Ok s' -> advances 0 s s' /\ validators s' = validators s.
Proof.
  intros Hs Hb Hset. destruct (set_balance_kept s i b s' Hs Hb Hset) as ([Hok _ _] & _ & _).
  apply bind_Ok_inv in Hset as (bs & _ & [= <-]). split; [|done].
  apply advances_base; [done..|]. apply registry_evolves_refl.
Qed.

Lemma decrease_advances s i d s' :
  electra_ok s -> 0 <= d -> decrease_balance_electra s i d = Ok s' -> advances 0 s s' /\ validators s' = validators s.
Proof.
  intros Hs Hd Hs'. pose proof (balance_default_u64 s (Z.to_nat i) Hs) as Hb. eapply set_balance_advances; [done| |exact Hs'].
  destruct (Z.ltb_spec (default 0 (balances s !! Z.to_nat i)) d); unfold u64, U64 in *; lia.
Qed.

Lemma increase_advances s i d s' :
  electra_ok s -> 0 <= d -> increase_balance_electra s i d = Ok s' -> advances 0 s s' /\ validators s' = validators s.
Proof.
  intros Hs Hd Hs'. pose proof (balance_default_u64 s (Z.to_nat i) Hs) as Hb. eapply set_balance_advances; [done| |exact Hs'].
  unfold sat_add, u64, u64_max, U64 in *. lia.
Qed.

(** ** Exits and slashings *)
Lemma exit_epoch_advances s b s' e :
  electra_ok s -> compute_exit_epoch_and_update_churn_electra s b = Ok (s', e) ->
  advances 0 s s' /\ validators s' = validators s /\ u64 e.
Proof.
  intros Hs Hc. destruct (exit_epoch_kept s b s' e Hs Hc) as ([Hok _ _] & Hv & _ & He).
  apply bind_Ok_inv in Hc as ([e1 rest] & _ & [= <- <-]). split; [|done].
  split; [done..|cbn; by rewrite Z.add_0_r|apply registry_evolves_refl].
Qed.

Lemma consolidation_churn_bounds s : u64 (get_consolidation_churn_limit_electra s).
Proof.
  unfold get_consolidation_churn_limit_electra, get_activation_exit_churn_limit_electra.
  assert (get_balance_churn_limit_electra s < U64) as Hc.
  { unfold get_balance_churn_limit_electra, get_total_active_balance_electra. set (t := wsum _).
    assert (u64 t) as [? ?] by apply wsum_u64. set (m := Z.max _ EFFECTIVE_BALANCE_INCREMENT).
    assert (0 <= m < U64) as Hm.
    { unfold m. pose proof increment_pos. pose proof activation_balance. pose proof electra_balance_bound. unfold U64 in *. lia. }
    destruct churn_pos as [_ Hq]. pose proof churn_electra. pose proof churn_electra_bound.
    assert (m / CHURN_LIMIT_QUOTIENT < U64) by (apply Z.div_lt_upper_bound; nia).
    set (c := Z.max _ _). assert (c < U64) by (unfold c, U64 in *; lia).
    assert (0 < EFFECTIVE_BALANCE_INCREMENT) as Hi by apply increment_pos. pose proof (Z.mod_pos_bound c _ Hi). lia. }
  pose proof (balance_churn_bounds s). pose proof churn_electra. pose proof increment_pos.
  unfold u64. lia.
Qed.

Lemma validator_evolves_exit v e w :
  v_exit_epoch v = FAR_FUTURE_EPOCH -> validator_evolves v (v_with_exit v e w).
Proof. intros Hx. split; try done. apply credentials_evolve_refl. Qed.
Lemma validator_evolves_slashed v w : validator_evolves v (v_with_slashed v w).
Proof. split; try done. apply credentials_evolve_refl. Qed.

Lemma initiate_exit_advances s i s' :
  electra_ok s -> initiate_validator_exit_electra s i = Ok s' -> advances 0 s s'.
Proof.
  intros Hs (v & Hv%ok_or_Ok & Hs')%bind_Ok_inv.
  destruct (Z.eqb_spec (v_exit_epoch v) FAR_FUTURE_EPOCH) as [Hx|_]; cbn [negb] in Hs';
    [|injection Hs' as <-; by apply advances_refl].
  apply bind_Ok_inv in Hs' as ([s1 e] & H1 & (w & Hw%ok_or_Ok & (v1 & Hv1%ok_or_Ok & Hset)%bind_Ok_inv)%bind_Ok_inv).
  destruct (exit_epoch_advances s _ s1 e Hs H1) as (A1 & Hvs & He).
  assert (u64 w) as Hwu.
  { pose proof withdrawability_delay. apply checked_add_Some in Hw as [-> ?]. unfold u64 in *. lia. }
  assert (v1 = v) as -> by (rewrite Hvs in Hv1; congruence).
  eapply advances_trans0; [exact A1|]. eapply set_validator_advances; [apply A1|exact Hv1|by apply validator_evolves_exit| |exact Hset].
  apply validator_within_exit; [|done..]. eapply validator_within_at; [apply electra_base, A1|done].
Qed.

Lemma set_slashing_advances s i x s' :
  electra_ok s -> u64 x -> el_on (fun b => set_slashing b i x) s = Ok s' -> advances 0 s s'.
Proof.
  intros Hs Hx (a & (b & Hb & [= <-])%bind_Ok_inv & [= <-])%bind_Ok_inv. apply set_slashing_Ok in Hb as [_ ->].
  apply (advances_base s); [|done..|apply registry_evolves_refl].
  apply electra_ok_base; [done| |done]. apply base_ok_slashings; [by apply electra_base|apply length_insert|].
  apply Forall_insert; [apply (electra_base s Hs)|done].
Qed.

Lemma slash_advances s i wb over s' :
  electra_ok s -> slash_validator_electra s i wb over = Ok s' -> advances 0 s s'.
Proof.
  intros Hs (s1 & H1 & (v & Hv%ok_or_Ok & (s2 & H2 & (s3 & H3 & (s4 & H4 & (p & Hp & (s5 & H5 & H6)%bind_Ok_inv)%bind_Ok_inv)%bind_Ok_inv)%bind_Ok_inv)%bind_Ok_inv)%bind_Ok_inv)%bind_Ok_inv.
  pose proof (initiate_exit_advances s i s1 Hs H1) as A1.
  pose proof (validator_within_at _ _ _ _ (electra_base s1 (av_ok _ _ _ A1)) Hv) as Hw.
  assert (advances 0 s1 s2) as A2.
  { eapply set_validator_advances; [apply A1|exact Hv|apply validator_evolves_slashed| |exact H2].
    apply validator_within_slashed; [done|]. destruct (vw_withdrawable _ _ Hw). pose proof (wadd_u64
      (compute_epoch_at_slot (slot s) SLOTS_PER_EPOCH) EPOCHS_PER_SLASHINGS_VECTOR). unfold u64 in *. lia. }
  destruct (vw_balance _ _ Hw) as [? ?].
  assert (advances 0 s2 s3) as A3.
  { eapply set_slashing_advances; [apply A2| |exact H3]. unfold sat_add, u64, u64_max.
    destruct (slashings (el_deneb s2) !! _) as [x|] eqn:Hx; [|cbn; unfold U64; lia].
    pose proof (Forall_lookup_1 u64 _ _ _ (bo_slashings _ _ (electra_base s2 (av_ok _ _ _ A2))) Hx) as [? ?].
    cbn. unfold id, U64 in *. lia. }
  destruct fork_quotients as (_ & _ & _ & _ & ? & ?).
  apply decrease_advances in H4 as [A4 _]; [|apply A3|by apply Z.div_pos].
  apply increase_advances in H5 as [A5 _]; [|apply A4|apply Z.div_pos; [apply wmul_u64|done]].
  apply increase_advances in H6 as [A6 _]; [|apply A5|apply wsub_u64].
  do 5 (eapply advances_trans0; [eassumption|]). done.
Qed.

(** ** Deposits *)
Lemma push_pending_advances s d s' :
  electra_ok s -> pending_deposit_ok d -> el_push_pending_deposit s d = Ok s' -> advances 0 s s'.
Proof.
  intros Hs Hd (l & [Hl ->]%map_err_Ok%list_with_push_inv & [= <-])%bind_Ok_inv.
  split; [|done|cbn; by rewrite Z.add_0_r|apply registry_evolves_refl]. destruct Hs. split; try done; cbn.
  - rewrite zlen_app. change (zlen [d]) with 1. lia.
  - apply Forall_app. split; [done|by constructor].
Qed.

Lemma add_validator_advances s pk wc amount s' :
  electra_ok s -> u64 amount -> add_validator_to_registry_electra s pk wc amount = Ok s' -> advances 0 s s'.
Proof.
  intros Hs Ha Hadd. destruct (add_validator_kept s pk wc amount s' Hs Ha Hadd) as [Hok _ _].
  unfold add_validator_to_registry_electra in Hadd. revert Hadd.
  intros (s1 & (a1 & (b1 & (vs & [Hl1 ->]%map_err_Ok%list_with_push_inv & [= <-])%bind_Ok_inv & [= <-])%bind_Ok_inv & [= <-])%bind_Ok_inv &
    (s2 & (a2 & (b2 & (bs & [Hl2 ->]%map_err_Ok%list_with_push_inv & [= <-])%bind_Ok_inv & [= <-])%bind_Ok_inv & [= <-])%bind_Ok_inv &
    (a3 & Hp & [= <-])%bind_Ok_inv)%bind_Ok_inv)%bind_Ok_inv.
  apply bind_Ok_inv in Hp as (pp & [_ ->]%map_err_Ok%list_with_push_inv &
    (cp & [_ ->]%map_err_Ok%list_with_push_inv & (sc & [_ ->]%map_err_Ok%list_with_push_inv & [= <-])%bind_Ok_inv)%bind_Ok_inv).
  split; [done..|cbn; by rewrite Z.add_0_r|]. apply registry_evolves_app.
Qed.

Lemma deposit_advances s d verify s' :
  electra_ok s -> u64 (dd_amount (dep_data d)) -> process_deposit_electra s d verify = Ok s' -> advances 1 s s'.
Proof.
  intros Hs Ha (leaf & _ & Hs')%bind_Ok_inv. cbv zeta in Hs'. destruct (negb _); [done|].
  set (s1 := el_with_base s (increment_eth1_deposit_index s)) in Hs'.
  assert (electra_ok s1) as Hs1.
  { apply electra_ok_base; [done| |done]. destruct (electra_base s Hs). split; try done. cbn. apply wadd_u64. }
  assert (advances 1 s s1) as A1.
  { split; [done..| |apply registry_evolves_refl]. cbn. unfold wadd. by rewrite Z.mod_mod by done. }
  eapply (advances_trans 1 0 1); [exact A1| |done].
  assert (pending_deposit_ok (mkPendingDeposit (dd_pubkey (dep_data d)) (dd_withdrawal_credentials (dep_data d))
    (dd_amount (dep_data d)) (dd_signature (dep_data d)) GENESIS_SLOT)) as Hpd by (by split).
  unfold apply_deposit_electra in Hs'. destruct (position_in _ _) as [i|]; [by eapply push_pending_advances|].
  apply bind_Ok_inv in Hs' as ([] & _ & Hs'); [|injection Hs' as <-; by apply advances_refl].
  apply bind_Ok_inv in Hs' as (s2 & H2 & H3). apply add_validator_advances in H2 as A2; [|done|by split].
  eapply advances_trans0; [exact A2|]. by eapply push_pending_advances; [apply A2|..].
Qed.

Lemma deposit_request_advances s r s' :
  electra_ok s -> u64 (dr_amount r) -> u64 (dr_index r) -> process_deposit_request s r = Ok s' -> advances 0 s s'.
Proof.
  intros Hs Ha Hi. unfold process_deposit_request. set (s1 := if _ =? _ then _ else s). intros Hs'.
  assert (advances 0 s s1) as A1.
  { unfold s1. case_match; [|by apply advances_refl].
    split; [|done|cbn; by rewrite Z.add_0_r|apply registry_evolves_refl]. destruct Hs. by split. }
  eapply advances_trans0; [exact A1|]. eapply push_pending_advances; [apply A1| |exact Hs'].
  split; cbn; [done|]. apply (bo_slot _ _ (electra_base s1 (av_ok _ _ _ A1))).
Qed.

(** ** Withdrawal and consolidation requests, voluntary exits *)
Lemma withdrawal_request_advances s r s' :
  electra_ok s -> u64 (wr_amount r) -> process_withdrawal_request s r = Ok s' -> advances 0 s s'.
Proof.
  intros Hs Ha. unfold process_withdrawal_request.
  assert (forall x, Ok (E:=StateTransitionError) s = Ok x -> advances 0 s x) as Hsame by (intros x [= <-]; by apply advances_refl).
  case_match; [by apply Hsame|]. destruct (position_in _ _) as [i|] eqn:Hi; [|by apply Hsame].
  intros (v & Hv%ok_or_Ok & Hs')%bind_Ok_inv. revert Hs'. cbv zeta.
  do 4 (case_match; [by apply Hsame|]). case_match.
  { case_match; [apply initiate_exit_advances, Hs|by apply Hsame]. }
  case_match; [|by apply Hsame]. intros ([s1 e] & Hexit & (l & [Hl ->]%map_err_Ok%list_with_push_inv & [= <-])%bind_Ok_inv)%bind_Ok_inv.
  destruct (exit_epoch_advances s _ s1 e Hs Hexit) as (A1 & _ & He). eapply advances_trans0; [exact A1|].
  split; [|done|cbn; by rewrite Z.add_0_r|apply registry_evolves_refl]. destruct (av_ok _ _ _ A1). split; try done; cbn.
  - rewrite zlen_app. set (w := mkPendingPartialWithdrawal _ _ _). change (zlen [w]) with 1. lia.
  - apply Forall_app. split; [done|]. constructor; [|constructor]. split_and!; cbn.
    + apply lookup_lt_Some in Hv. pose proof (bo_registry_limit _ _ (electra_base s Hs)). pose proof registry_limit.
      unfold zlen, u64, U64 in *. lia.
    + match goal with |- u64 (Z.min (wsub ?x ?y) ?z) => pose proof (wsub_u64 x y) end. unfold u64 in *. lia.
    + apply wadd_u64.
Qed.

Lemma queue_excess_advances s i s' :
  electra_ok s -> queue_excess_active_balance_electra s i = Ok s' -> advances 0 s s'.
Proof.
  intros Hs. unfold queue_excess_active_balance_electra. pose proof (balance_default_u64 s (Z.to_nat i) Hs) as [Hb1 Hb2].
  destruct (Z.ltb_spec MIN_ACTIVATION_BALANCE (default 0 (balances s !! Z.to_nat i))) as [Hlt|];
    [|intros [= <-]; by apply advances_refl].
  pose proof activation_balance. pose proof electra_balance_bound. pose proof increment_pos.
  intros (bs & [_ ->]%map_err_Ok%list_with_set_inv & (v & _ & Hpush)%bind_Ok_inv)%bind_Ok_inv.
  eapply advances_trans0; [|eapply push_pending_advances; [| |exact Hpush] ].
  - apply advances_base; [|done..|apply registry_evolves_refl].
    apply electra_ok_base; [done| |done]. apply base_ok_set_balance; [by apply electra_base|unfold u64, U64; lia].
  - apply electra_ok_base; [done| |done]. apply base_ok_set_balance; [by apply electra_base|unfold u64, U64; lia].
  - split; cbn; [split; unfold U64 in *; lia|by split].
Qed.

Lemma credentials_to_compounding c :
  head c = Some Byte.x01 -> credentials_evolve c (<[0%nat := Byte.x02]> c).
Proof. destruct c as [|b c]; [done|]. intros [= ->] _. split; [done|]. by right. Qed.

Lemma validator_evolves_credentials v c :
  credentials_evolve (v_withdrawal_credentials v) c -> validator_evolves v (v_with_credentials v c).
Proof. intros Hc. by split. Qed.

Lemma validator_within_credentials M v c : validator_within M v -> validator_within M (v_with_credentials v c).
Proof. intros []. by constructor. Qed.

Lemma switch_advances s i v s' :
  electra_ok s -> validators s !! Z.to_nat i = Some v -> head (v_withdrawal_credentials v) = Some Byte.x01 ->
  switch_to_compounding_validator_electra s i = Ok s' -> advances 0 s s'.
Proof.
  intros Hs Hv Hh (v' & Hv'%ok_or_Ok & (s1 & H1 & H2)%bind_Ok_inv)%bind_Ok_inv.
  assert (v' = v) as -> by congruence.
  assert (advances 0 s s1) as A1.
  { eapply set_validator_advances; [done|exact Hv| | |exact H1].
    - by apply validator_evolves_credentials, credentials_to_compounding.
    - apply validator_within_credentials. by eapply validator_within_at; [apply electra_base|]. }
  eapply advances_trans0; [exact A1|]. by eapply queue_excess_advances; [apply A1|].
Qed.

Lemma consolidation_epoch_advances s b s' e :
  electra_ok s -> compute_consolidation_epoch_and_update_churn_electra s b = Ok (s', e) ->
  advances 0 s s' /\ validators s' = validators s /\ u64 e.
Proof.
  intros Hs ([e1 rest] & Hc & [= <- <-])%bind_Ok_inv.
  destruct (churn_step_u64 _ _ _ _ _ _ _ (wadd_u64 _ _) (consolidation_churn_bounds s)
    (eo_consolidation_epoch s Hs) (eo_consolidation_balance s Hs) Hc) as [He Hr].
  split; [|done]. split; [|done|cbn; by rewrite Z.add_0_r|apply registry_evolves_refl]. destruct Hs. by split.
Qed.

Lemma registry_index_u64 s i v : electra_ok s -> validators s !! i = Some v -> u64 (Z.of_nat i).
Proof.
  intros Hs Hv%lookup_lt_Some. pose proof (bo_registry_limit _ _ (electra_base s Hs)). pose proof registry_limit.
  unfold zlen, u64, U64 in *. lia.
Qed.

Lemma eth1_credential_head v : has_eth1_withdrawal_credential v = true -> head (v_withdrawal_credentials v) = Some Byte.x01.
Proof.
  unfold has_eth1_withdrawal_credential, credential_prefix. intros Hb%bool_decide_eq_true.
  by destruct (v_withdrawal_credentials v).
Qed.

Lemma consolidation_request_advances s r s' :
  electra_ok s -> process_consolidation_request s r = Ok s' -> advances 0 s s'.
Proof.
  intros Hs. unfold process_consolidation_request. cbv zeta.
  assert (forall x, Ok (E:=StateTransitionError) s = Ok x -> advances 0 s x) as Hsame by (intros x [= <-]; by apply advances_refl).
  destruct (is_valid_switch_to_compounding_request s r (registry_index (validators s))) eqn:Hsw.
  { intros (i & Hi%ok_or_Ok & Hs')%bind_Ok_inv. unfold is_valid_switch_to_compounding_request in Hsw.
    destruct (negb _); [done|]. rewrite Hi in Hsw. destruct (validators s !! i) as [v|] eqn:Hv; [|done].
    destruct (negb (bool_decide _)); [done|]. destruct (has_eth1_withdrawal_credential v) eqn:He; [|done].
    eapply switch_advances; [done| |by apply eth1_credential_head|exact Hs']. by rewrite Nat2Z.id. }
  do 3 (case_match; [by apply Hsame|]).
  destruct (registry_index (validators s) !! cr_source_pubkey r) as [i|]; [|by apply Hsame].
  destruct (registry_index (validators s) !! cr_target_pubkey r) as [j|]; [|by apply Hsame].
  intros (source & Hi%ok_or_Ok & (target & Hj%ok_or_Ok & Hs')%bind_Ok_inv)%bind_Ok_inv. revert Hs'. cbv zeta.
  do 4 (case_match; [by apply Hsame|]). destruct (Z.eqb_spec (v_exit_epoch source) FAR_FUTURE_EPOCH) as [Hx|]; cbn [negb]; [|by apply Hsame].
  do 3 (case_match; [by apply Hsame|]).
  intros ([s1 e] & Hc & (v & Hv%ok_or_Ok & (s2 & Hset & (l & [Hl ->]%map_err_Ok%list_with_push_inv & [= <-])%bind_Ok_inv)%bind_Ok_inv)%bind_Ok_inv)%bind_Ok_inv.
  destruct (consolidation_epoch_advances s _ s1 e Hs Hc) as (A1 & Hvs & He). rewrite Hvs in Hv.
  assert (v = source) as -> by congruence. eapply advances_trans0; [exact A1|].
  assert (advances 0 s1 s2) as A2.
  { eapply set_validator_advances; [apply A1|rewrite Hvs, Nat2Z.id; exact Hi|by apply validator_evolves_exit| |exact Hset].
    apply validator_within_exit; [by eapply validator_within_at; [apply electra_base|]|done|apply wadd_u64]. }
  eapply advances_trans0; [exact A2|].
  split; [|done|cbn; by rewrite Z.add_0_r|apply registry_evolves_refl]. destruct (av_ok _ _ _ A2). split; try done; cbn.
  - rewrite zlen_app. set (c := mkPendingConsolidation _ _). change (zlen [c]) with 1. lia.
  - apply Forall_app. split; [done|]. constructor; [|constructor]. split; cbn; by eapply registry_index_u64.
Qed.

Lemma voluntary_exit_advances s e verify version s' :
  electra_ok s -> process_voluntary_exit_electra s e verify version = Ok s' -> advances 0 s s'.
Proof.
  intros Hs (v & _ & Hs')%bind_Ok_inv. revert Hs'. cbv zeta. do 5 (case_match; [done|]).
  intros (u & _ & Hs')%bind_Ok_inv. by eapply initiate_exit_advances.
Qed.

(** ** Changes of credentials *)
Lemma bls_change_Ok c x verify c' :
  process_bls_to_execution_change c x verify = Ok c' ->
  exists v, let i := Z.to_nat (bec_validator_index (sbec_message x)) in
    validators c !! i = Some v /\ head (v_withdrawal_credentials v) = Some Byte.x00 /\
    c' = ca_with_validators c (<[i := v_with_credentials v (ETH1_ADDRESS_WITHDRAWAL_PREFIX :: replicate 11 Byte.x00
           ++ bec_to_execution_address (sbec_message x))]> (validators c)).
Proof.
  unfold process_bls_to_execution_change. case_match; [done|]. intros (v & Hv%ok_or_Ok & Hs')%bind_Ok_inv. revert Hs'. cbv zeta.
  case_bool_decide as Hh; [|done]. cbn [negb]. case_match; [done|].
  intros (u & _ & (vs & [_ ->]%map_err_Ok%list_with_set_inv & [= <-])%bind_Ok_inv)%bind_Ok_inv. by exists v.
Qed.

Lemma bls_changes_loop changes verify : forall (c c' : CapellaState),
  Forall (validator_within MAX_EFFECTIVE_BALANCE_ELECTRA) (validators c) ->
  foldM (fun c x => process_bls_to_execution_change c x verify) changes c = Ok c' ->
  exists vs, c' = ca_with_validators c vs /\ length vs = length (validators c) /\
    Forall (validator_within MAX_EFFECTIVE_BALANCE_ELECTRA) vs /\ registry_evolves (validators c) vs.
Proof.
  induction changes as [|x changes IH]; intros c c' Hw; cbn [foldM].
  { intros [= <-]. exists (validators c). split_and!; [|done..|apply registry_evolves_refl].
    by destruct c as [[[] ? ? ? ? ?] ? ? ? ?]. }
  intros (c1 & (v & Hv & Hh & ->)%bls_change_Ok & Hs')%bind_Ok_inv. cbv zeta in Hs'. set (vs1 := <[_ := _]> _) in Hs'.
  assert (Forall (validator_within MAX_EFFECTIVE_BALANCE_ELECTRA) vs1) as Hw1.
  { apply Forall_insert; [done|]. apply validator_within_credentials. exact (Forall_lookup_1 _ _ _ _ Hw Hv). }
  destruct (IH (ca_with_validators c vs1) c' Hw1 Hs') as (vs & -> & Hl & Hw' & Hr).
  exists vs. cbn in Hl, Hr. unfold vs1 in Hl, Hr. rewrite length_insert in Hl. split_and!; [by destruct c as [[[] ? ? ? ? ?] ? ? ? ?]|done..|].
  eapply registry_evolves_trans; [|exact Hr]. eapply registry_evolves_insert; [exact Hv|].
  apply validator_evolves_credentials. by intros Hne.
Qed.

Lemma bls_changes_advances s changes verify s' :
  electra_ok s -> process_bls_changes s changes verify = Ok s' -> advances 0 s s'.
Proof.
  intros Hs. unfold process_bls_changes. destruct (electra_deneb_lens s (el_deneb s)) as [-> _].
  intros (c & Hc & [= <-])%bind_Ok_inv.
  destruct (deneb_capella_lens (el_deneb s) c) as [_ ->].
  match goal with |- advances _ _ (update_electra_from_deneb s ?d) => destruct (electra_deneb_lens s d) as [_ ->] end.
  apply bls_changes_loop in Hc as (vs & -> & Hl & Hw & Hr); [|apply (electra_base s Hs)].
  replace (el_with_deneb s _) with (el_with_base s (with_validators s vs))
    by (by destruct s as [[[[] ? ? ? ? ?] ? ? ? ?] ? ? ? ? ? ? ? ? ?]).
  apply advances_base; [|done..|exact Hr].
  apply electra_ok_base; [done| |exact Hl]. by apply base_ok_validators; [apply electra_base|..].
Qed.

(** ** Slashings *)
Lemma proposer_slashing_advances s x verify over s' :
  electra_ok s -> process_proposer_slashing_electra s x verify over = Ok s' -> advances 0 s s'.
Proof.
  intros Hs. unfold process_proposer_slashing_electra. cbv zeta. do 3 (case_match; [done|]).
  intros (v & _ & Hs')%bind_Ok_inv. revert Hs'. case_match; [done|]. intros (u & _ & Hs')%bind_Ok_inv.
  by eapply slash_advances.
Qed.

Lemma attester_slashing_advances `{BatchVerification} s x verify over s' :
  electra_ok s -> process_attester_slashing_electra s x verify over = Ok s' -> advances 0 s s'.
Proof.
  intros Hs. unfold process_attester_slashing_electra. cbv zeta. case_match; [done|].
  intros (v1 & _ & Hs')%bind_Ok_inv. revert Hs'. case_match; [done|]. intros (v2 & _ & Hs')%bind_Ok_inv. revert Hs'.
  case_match; [done|]. intros ([s1 any] & Hloop & Hs')%bind_Ok_inv. destruct (negb any); [done|]. injection Hs' as <-.
  apply (foldM_inv _ (fun acc => advances 0 s acc.1)) in Hloop; [done| |by apply advances_refl].
  intros i [s2 b] [s3 b'] _ Hacc. cbn [fst] in *. unfold attester_slashing_step_electra.
  case_match; [|by intros [= <- _]]. intros (s4 & Hsl & [= <- _])%bind_Ok_inv.
  eapply advances_trans0; [exact Hacc|]. eapply slash_advances; [apply Hacc|exact Hsl].
Qed.

(** ** Attestations *)
Lemma compute_committee_members {E} indices seed i count rounds l :
  compute_committee (E:=E) indices seed i count rounds = Ok l -> Forall (fun x => x ∈ indices) l.
Proof.
  unfold compute_committee. destruct (count =? 0); [done|]. intros Hm%mapM_Ok_Forall2. apply Forall_lookup.
  intros k x Hx. destruct (Forall2_lookup_r _ _ _ _ _ Hm Hx) as (j & _ & (sh & _ & Hi)%bind_Ok_inv).
  apply index_Ok_iff in Hi as [_ Hi]. by eapply list_elem_of_lookup_2.
Qed.

Lemma committee_nonneg {E} (b : BeaconState) sl i l : get_beacon_committee (E:=E) b sl i = Ok l -> Forall (Z.le 0) l.
Proof.
  intros Hl%compute_committee_members. eapply Forall_impl; [exact Hl|]. cbn.
  intros x Hx. unfold get_active_validator_indices in Hx. apply list_elem_of_omap in Hx as ([j v] & Hj & Hx).
  apply elem_of_enumerate in Hj as [Hj _]. destruct (is_active_validator v _); [|done]. by injection Hx as <-.
Qed.

Lemma attesting_nonneg s att l : get_attesting_indices_electra s att = Ok l -> Forall (Z.le 0) l.
Proof.
  intros (cis & _ & ([out off] & Hloop & [= <-])%bind_Ok_inv)%bind_Ok_inv.
  apply (foldM_inv _ (fun acc => Forall (Z.le 0) acc.1)) in Hloop; [done| |constructor].
  intros ci [o1 n1] [o2 n2] _ Ho (c & Hc%committee_nonneg & (o3 & Hin & Heq)%bind_Ok_inv)%bind_Ok_inv.
  injection Heq as <- _. cbn in Ho |- *. apply (foldM_inv _ (Forall (Z.le 0))) in Hin; [done| |done].
  intros [j x] o o' [_ Hj]%elem_of_enumerate Hall (bit & _ & Heq)%bind_Ok_inv. injection Heq as <-. case_match; [|done].
  apply Forall_app. split; [done|]. constructor; [|constructor]. exact (Forall_lookup_1 _ _ _ _ Hc Hj).
Qed.

(** The state with the flags of the accumulation. *)
Definition with_flags s (a : AltairState) : ElectraState :=
  el_with_deneb s (de_with_altair (el_deneb s)
    (al_with_current_epoch_participation
       (al_with_previous_epoch_participation (de_altair (el_deneb s)) (al_previous_epoch_participation a))
       (al_current_epoch_participation a))).

Lemma with_flags_advances new s a :
  electra_ok s -> flags_added new (electra_state_to_altair s) a -> advances 0 s (with_flags s a).
Proof.
  intros Hs [_ _ _ _ Hl _ Hok]. destruct (electra_altair_lens s a) as [Ha _]. rewrite Ha in *.
  pose proof (Hl true) as Hc. pose proof (Hl false) as Hp. pose proof (Hok true) as Oc. pose proof (Hok false) as Op. cbn in *.
  split; [|done|cbn; by rewrite Z.add_0_r|apply registry_evolves_refl].
  apply (electra_ok_altair s); [done|]. destruct (eo_altair s Hs). split; cbn; try done; try congruence; auto.
Qed.

(** What an accepted attestation did. *)
Lemma attestation_Ok s att verify over s' set :
  process_attestation_electra s att verify over = Ok (s', set) ->
  exists flags l brpi a n p,
    get_attestation_participation_flag_indices (electra_state_to_altair s) (ea_data att)
      (wsub (slot s) (ad_slot (ea_data att))) true = Ok flags /\
    get_attesting_indices_electra s att = Ok l /\
    get_base_reward_per_increment (E:=StateTransitionError) (electra_state_to_altair s) = Ok brpi /\
    accumulate_attestation_participation_altair (electra_state_to_altair s) l flags
      (cp_epoch (ad_target (ea_data att)) =? compute_epoch_at_slot (slot s) SLOTS_PER_EPOCH) brpi = Ok (a, n) /\
    proposer_or_elected (with_flags s a) over = Ok p /\
    increase_balance_electra (with_flags s a) p (n / proposer_reward_denominator) = Ok s'.
Proof.
  unfold process_attestation_electra. cbv zeta. destruct (negb _ && negb _); [done|]. destruct (negb _); [done|].
  destruct (slot s <? _); [done|]. destruct (negb _); [done|].
  intros (cis & _ & (off & _ & Hs')%bind_Ok_inv)%bind_Ok_inv. revert Hs'. destruct (negb _); [done|].
  intros (flags & Hf & (ss & _ & (l & Hl & (brpi & Hb & ([a n] & Ha & (p & Hp & (s2 & Hinc & [= <- _])%bind_Ok_inv)%bind_Ok_inv)%bind_Ok_inv)%bind_Ok_inv)%bind_Ok_inv)%bind_Ok_inv)%bind_Ok_inv.
  by exists flags, l, brpi, a, n, p.
Qed.

Lemma attestation_advances s att verify over s' set :
  electra_ok s -> process_attestation_electra s att verify over = Ok (s', set) -> advances 0 s s'.
Proof.
  intros Hs (flags & l & brpi & a & n & p & _ & Hl%attesting_nonneg & _ & Ha & _ & Hinc)%attestation_Ok.
  apply accumulate_spec in Ha as (Hf & [Hn _] & _); [|done|by split].
  pose proof (with_flags_advances _ s a Hs Hf) as A1. eapply advances_trans0; [exact A1|].
  eapply increase_advances; [apply A1| |exact Hinc]. by apply Z.div_pos.
Qed.

(** ** The sync aggregate *)
Lemma sync_aggregate_advances s agg verify over s' :
  electra_ok s -> process_sync_aggregate_electra s agg verify over = Ok s' -> advances 0 s s'.
Proof.
  intros Hs (p & _ & (pks & _ & (u & _ & ([pr pp] & Hr & (idxs & _ & (a & Hloop & [= <-])%bind_Ok_inv)%bind_Ok_inv)%bind_Ok_inv)%bind_Ok_inv)%bind_Ok_inv)%bind_Ok_inv.
  apply sync_rewards_nonneg in Hr as [Hpr Hpp]. destruct (electra_altair_lens s a) as [Hl _]. rewrite Hl in Hloop.
  assert (rebalanced (de_altair (el_deneb s)) a) as (bs & -> & Hlen & Hu).
  { revert Hloop. apply (foldM_inv _ (rebalanced (de_altair (el_deneb s)))).
    - intros [i v] a1 a2 _ H1 (b & _ & H2)%bind_Ok_inv.
      assert (forall a0 (j d : Z), rebalanced (de_altair (el_deneb s)) a0 -> 0 <= d ->
        u64 (sat_add (default 0 (balances a0 !! Z.to_nat j)) d) /\
        u64 (let cur := default 0 (balances a0 !! Z.to_nat j) in if cur <? d then 0 else cur - d)) as Hnum.
      { intros a0 j d (bs0 & -> & _ & Hu0) Hd. cbn. destruct (bs0 !! Z.to_nat j) as [x|] eqn:Hx; cbn; unfold id.
        - pose proof (Forall_lookup_1 u64 _ _ _ Hu0 Hx) as [? ?]. unfold sat_add, u64, u64_max, U64 in *.
          destruct (Z.ltb_spec x d); lia.
        - unfold sat_add, u64, u64_max, U64. destruct (Z.ltb_spec 0 d); lia. }
      destruct b.
      + apply bind_Ok_inv in H2 as (a3 & H3 & H4).
        assert (rebalanced (de_altair (el_deneb s)) a3) as R3
          by (eapply rebalanced_set; [exact H1|exact (proj1 (Hnum a1 v pr H1 Hpr))|exact H3]).
        eapply rebalanced_set; [exact R3|exact (proj1 (Hnum a3 p pp R3 Hpp))|exact H4].
      + eapply rebalanced_set; [exact H1|exact (proj2 (Hnum a1 v pr H1 Hpr))|exact H2].
    - exists (balances s). split_and!; [by destruct s as [[[[] ? ? ? ? ?] ? ? ? ?] ? ? ? ? ? ? ? ? ?]|done|].
      apply (electra_base s Hs). }
  apply advances_base; [|done..|apply registry_evolves_refl].
  apply electra_ok_base; [done| |done]. by apply base_ok_balances; [apply electra_base|..].
Qed.

(** ** All operations of a body *)

(** The amounts of a body are [u64] values. *)
Record body_ok (body : ElectraBody) : Prop := {
  bk_deposits : Forall (fun d => u64 (dd_amount (dep_data d))) (eb_deposits body);
  bk_deposit_requests : Forall (fun r => u64 (dr_amount r) /\ u64 (dr_index r)) (er_deposits (eb_execution_requests body));
  bk_withdrawal_requests : Forall (fun r => u64 (wr_amount r)) (er_withdrawals (eb_execution_requests body));
}.

Lemma foldM_advances0 {A} (f : ElectraState -> A -> result StateTransitionError ElectraState) l s s' :
  (forall s a s', electra_ok s -> a ∈ l -> f s a = Ok s' -> advances 0 s s') ->
  electra_ok s -> foldM f l s = Ok s' -> advances 0 s s'.
Proof. intros Hf Hs Hs'. exact (foldM_advances 0 f l s s' Hf Hs Hs'). Qed.

Lemma attestations_advances verify over atts s sets s' sets' :
  electra_ok s -> foldM (collect_attestation verify over) atts (s, sets) = Ok (s', sets') -> advances 0 s s'.
Proof.
  intros Hs Hloop. apply (foldM_inv _ (fun acc => advances 0 s acc.1)) in Hloop; [done| |by apply advances_refl].
  intros att [s1 l1] [s2 l2] _ Hacc ([s3 set] & H3 & Heq)%bind_Ok_inv. injection Heq as <- _. cbn in *.
  eapply advances_trans0; [exact Hacc|]. by eapply attestation_advances; [apply Hacc|].
Qed.

Lemma operations_advances `{BatchVerification} s body verify cfg over s' :
  electra_ok s -> body_ok body -> process_operations_electra s body verify cfg over = Ok s' ->
  advances (zlen (eb_deposits body)) s s'.
Proof.
  intros Hs [Hbd Hbr Hbw] (u & _ & (s1 & Hs1 & (s2 & Hs2 & ([s3 sets] & Hs3 & (u' & _ & (s4 & Hs4 & (s5 & Hs5 & (s6 & Hs6 &
    (s7 & Hs7 & (s8 & Hs8 & Hs9)%bind_Ok_inv)%bind_Ok_inv)%bind_Ok_inv)%bind_Ok_inv)%bind_Ok_inv)%bind_Ok_inv)%bind_Ok_inv)%bind_Ok_inv)%bind_Ok_inv)%bind_Ok_inv.
  apply foldM_advances0 in Hs1; [|intros; by eapply proposer_slashing_advances|done].
  apply foldM_advances0 in Hs2; [|intros; by eapply attester_slashing_advances|apply Hs1].
  apply attestations_advances in Hs3; [|apply Hs2].
  apply (foldM_advances 1) in Hs4; [| |apply Hs3].
  2: { intros s0 d s0' Hs0 Hd. apply deposit_advances; [done|]. by eapply Forall_forall in Hbd. }
  apply foldM_advances0 in Hs5; [|intros; by eapply voluntary_exit_advances|apply Hs4].
  apply bls_changes_advances in Hs6; [|apply Hs5].
  apply foldM_advances0 in Hs7; [| |apply Hs6].
  2: { intros s0 r s0' Hs0 Hr. eapply Forall_forall in Hbr as [? ?]; [|exact Hr]. by apply deposit_request_advances. }
  apply foldM_advances0 in Hs8; [| |apply Hs7].
  2: { intros s0 r s0' Hs0 Hr. apply withdrawal_request_advances; [done|]. by eapply Forall_forall in Hbw. }
  apply foldM_advances0 in Hs9; [|intros; by eapply consolidation_request_advances|apply Hs8].
  pose proof (advances_trans0 _ _ _ (advances_trans0 _ _ _ Hs1 Hs2) Hs3) as A1.
  pose proof (advances_trans0 _ _ _ (advances_trans0 _ _ _ (advances_trans0 _ _ _ (advances_trans0 _ _ _ Hs5 Hs6) Hs7) Hs8) Hs9) as A2.
  eapply (advances_trans 0 (zlen (eb_deposits body))); [exact A1| |lia].
  eapply (advances_trans (1 * zlen (eb_deposits body)) 0); [exact Hs4|exact A2|lia].
Qed.
End advances.

(** ** The steps around the operations *)
Section steps.
  Context `{Crypto} `{Sp : BeaconSpec} `{Fs : ForkSpec} `{Aggregation} `{Bs : BlockSpec}.
  Context `{!SpecOk Sp} `{!ForkSpecOk Sp Fs}.
  Implicit Types s : ElectraState.

(** The header a block leaves behind. *)
Definition header_of (block : ElectraBlock) (body_root : bytes) : BeaconBlockHeader :=
  mkBeaconBlockHeader (ebl_slot block) (ebl_proposer_index block) (ebl_parent_root block) zero_chunk body_root.
Definition with_header s h : ElectraState := el_with_base s (with_latest_block_header s h).

Lemma block_header_Ok s block body_root over s' :
  process_block_header_electra s (ebl_slot block) (ebl_proposer_index block) (ebl_parent_root block)
    body_root over = Ok s' ->
  ebl_slot block = slot s /\ bh_slot (latest_block_header s) < ebl_slot block /\
  proposer_or_elected s over = Ok (ebl_proposer_index block) /\
  header_root (latest_block_header s) = Ok (ebl_parent_root block) /\
  default false (v_slashed <$> validators s !! Z.to_nat (ebl_proposer_index block)) = false /\
  s' = with_header s (header_of block body_root).
Proof.
  unfold process_block_header_electra.
  destruct (Z.eqb_spec (ebl_slot block) (slot s)) as [Hsl|]; [|done]. cbn [negb].
  destruct (Z.leb_spec (ebl_slot block) (bh_slot (latest_block_header s))); [done|].
  intros (pi & Hpi & Hr)%bind_Ok_inv. revert Hr.
  destruct (Z.eqb_spec (ebl_proposer_index block) pi) as [<-|]; [|done]. cbn [negb].
  intros (root & Hroot & Hr)%bind_Ok_inv. revert Hr. case_bool_decide as Hp; [|done]. cbn [negb]. cbv zeta.
  destruct (default false _) eqn:Hslashed; [done|]. intros [= <-]. subst root.
  unfold root_value in Hroot. destruct (header_root _) eqn:Hh; simplify_eq. done.
Qed.

Lemma with_header_ok s h : electra_ok s -> electra_ok (with_header s h).
Proof.
  intros Hs. apply electra_ok_base; [done| |done]. pose proof (electra_base s Hs) as Hb. destruct Hb. by constructor.
Qed.

(** An elected proposer is in the registry. *)
Lemma proposer_registry s i : get_beacon_proposer_index_electra s = Ok i -> 0 < num_validators s.
Proof.
  unfold get_beacon_proposer_index_electra, compute_proposer_index_electra.
  destruct (Z.eqb_spec (zlen (get_active_validator_indices s (get_current_epoch s))) 0); [done|]. intros _.
  pose proof (active_count_bound s (get_current_epoch s)).
  pose proof (zlen_nonneg (get_active_validator_indices s (get_current_epoch s))). lia.
Qed.

(** The expected withdrawals do not read the header. *)
Lemma partials_loop_header s h epoch limit prior queue : forall ws next processed,
  partials_loop (with_header s h) epoch limit prior queue ws next processed =
  partials_loop s epoch limit prior queue ws next processed.
Proof.
  induction queue as [|p queue IH]; intros ws next processed; [done|]. cbn [partials_loop].
  change (validators (with_header s h)) with (validators s).
  destruct (_ || _); [done|]. destruct (validators s !! _); [|apply IH].
  change (get_balance_after_withdrawals_electra (with_header s h)) with (get_balance_after_withdrawals_electra s).
  destruct (is_eligible_for_partial_withdrawals_electra _ _); apply IH.
Qed.
Lemma sweep_loop_header s h epoch prior turns : forall ws next vi processed,
  sweep_loop (with_header s h) epoch prior turns ws next vi processed =
  sweep_loop s epoch prior turns ws next vi processed.
Proof.
  induction turns as [|turns IH]; intros ws next vi processed; [done|]. cbn [sweep_loop].
  destruct (_ <=? _); [done|].
  change (sweep_withdrawal (with_header s h)) with (sweep_withdrawal s).
  destruct (sweep_withdrawal s _ _ _ _); apply IH.
Qed.
Lemma expected_header s h :
  get_expected_withdrawals_electra (with_header s h) = get_expected_withdrawals_electra s.
Proof.
  unfold get_expected_withdrawals_electra, get_pending_partial_withdrawals, get_validators_sweep_withdrawals_electra.
  rewrite partials_loop_header. 
  change (partials_loop s _ _ [] _ [] _ 0) with (get_pending_partial_withdrawals s (de_next_withdrawal_index s) []).
  destruct (get_pending_partial_withdrawals _ _ _) as [ [pws index] processed]. by rewrite sweep_loop_header.
Qed.

Lemma withdrawals_step s ws s' :
  electra_ok s -> next_index_ok s -> 0 < num_validators s -> process_withdrawals_electra s ws = Ok s' ->
  electra_ok s' /\ exists k c, get_expected_withdrawals_electra s = (ws, k) /\ s' = after_withdrawals s ws k c.
Proof.
  intros Hs Hx Hn Hp. destruct (get_expected_withdrawals_electra s) as [ws' k] eqn:He.
  destruct (expected_ok s ws' k Hs Hx He) as ((next & Hlo) & Hz & Hk & _).
  destruct (withdrawals_applied s ws' k next Hs Hx Hn He Hlo Hz Hk) as (c & Hc & Hp').
  assert (ws = ws') as ->.
  { unfold process_withdrawals_electra in Hp. rewrite He in Hp. revert Hp. by case_bool_decide. }
  rewrite Hp' in Hp. injection Hp as <-. split; [by eapply withdrawals_applied_ok|by exists k, c].
Qed.

(** A 32-byte string is its own root. *)
Lemma fixed_bytes_root_32 b : length b = 32%nat -> fixed_bytes_root b = Ok b.
Proof.
  intros Hb. unfold fixed_bytes_root, pack_bytes_to_chunks.
  rewrite blocks_single by (try lia; intros ->; done).
  assert (pad32 b = b) as Hp by (unfold pad32; rewrite Hb; apply app_nil_r).
  rewrite fmap_cons, Hp. reflexivity.
Qed.

Lemma list_root_length `{!CryptoOk _} {T} N (elem_root : T -> result SszError bytes) l r :
  list_root N elem_root l = Ok r -> length r = 32%nat.
Proof.
  intros (roots & _ & (r' & _ & [= <-])%bind_Ok_inv)%bind_Ok_inv. apply sha256_length.
Qed.

(** A header stands for a payload: same block hash, same hash tree root. *)
Definition is_header_of (payload : ExecutionPayload) (h : DenebHeader) : Prop :=
  dph_block_hash h = ep_block_hash payload /\ payload_header_root h = payload_root payload.

Definition with_payload_header s h : ElectraState :=
  el_with_deneb s (de_with_latest_execution_payload_header (el_deneb s) h).

(** What the checks of the payload say of it. *)
Record payload_fits s (body : ElectraBody) (cfg : RuntimeConfig) : Prop := {
  pf_parent : ep_parent_hash (eb_execution_payload body) = dph_block_hash (de_latest_execution_payload_header s);
  pf_randao : ep_prev_randao (eb_execution_payload body) =
    default zero_chunk (randao_mixes s !! Z.to_nat (get_current_epoch s mod EPOCHS_PER_HISTORICAL_VECTOR));
  pf_timestamp : ep_timestamp (eb_execution_payload body) = wadd (genesis_time s) (wmul (slot s) (seconds_per_slot cfg));
  pf_blobs : zlen (eb_blob_kzg_commitments body) <= max_blobs_per_block_electra cfg;
}.

Lemma payload_Ok `{!CryptoOk _} `{ExecutionEngine} s body cfg s' status :
  process_execution_payload s body cfg = Ok (s', status) ->
  payload_fits s body cfg /\ status <> Invalid /\
  status = notify_new_payload_electra (eb_execution_payload body)
             (kzg_commitment_to_versioned_hash <$> eb_blob_kzg_commitments body)
             (bh_parent_root (latest_block_header s)) (eb_execution_requests body) /\
  exists h, is_header_of (eb_execution_payload body) h /\ s' = with_payload_header s h.
Proof.
  unfold process_execution_payload. cbv zeta.
  case_bool_decide as Hparent; [|done]. cbn [negb]. case_bool_decide as Hrandao; [|done]. cbn [negb].
  destruct (Z.eqb_spec (ep_timestamp (eb_execution_payload body)) (wadd (genesis_time s) (wmul (slot s) (seconds_per_slot cfg))))
    as [Htime|]; [|done]. cbn [negb].
  destruct (Z.ltb_spec (max_blobs_per_block_electra cfg) (zlen (eb_blob_kzg_commitments body))); [done|].
  case_bool_decide as Hinv; [done|].
  intros (tr & Htr & (wr & Hwr & Heq)%bind_Ok_inv)%bind_Ok_inv. injection Heq as <- <-.
  split_and!; [by constructor|done|done|]. eexists. split; [|reflexivity]. split; [done|].
  unfold root_value in Htr, Hwr. destruct (transactions_root _) as [tr'| |] eqn:Ht; simplify_eq.
  destruct (withdrawals_root _) as [wr'| |] eqn:Hw; simplify_eq.
  unfold payload_header_root, payload_root. cbn. rewrite Ht, Hw.
  by rewrite (fixed_bytes_root_32 tr) by (by eapply list_root_length); rewrite (fixed_bytes_root_32 wr) by (by eapply list_root_length).
Qed.

(** The seed's new mix and the vote for the deposit contract. *)
Definition mixed s (reveal : bytes) : list bytes :=
  let i := Z.to_nat (get_current_epoch s mod EPOCHS_PER_HISTORICAL_VECTOR) in
  <[i := xor (default zero_chunk (randao_mixes s !! i)) (sha256 reveal)]> (randao_mixes s).
Definition voted s (reveal : bytes) (e d : Eth1Data) : ElectraState :=
  el_with_base s (with_eth1_data (with_eth1_data_votes (with_randao_mixes s (mixed s reveal))
    (eth1_data_votes s ++ [e])) d).

Lemma voted_ok s reveal e d :
  electra_ok s -> zlen (eth1_data_votes s) < ETH1_DATA_VOTES_LIMIT -> electra_ok (voted s reveal e d).
Proof.
  intros Hs Hv. apply electra_ok_base; [done| |done]. pose proof (electra_base s Hs) as Hb.
  apply (base_ok_randao_mixes _ _ (mixed s reveal)) in Hb; [|by unfold mixed; rewrite length_insert].
  destruct Hb. constructor; cbn in *; try done. rewrite zlen_app. change (zlen [e]) with 1. lia.
Qed.
Lemma payload_header_ok s h : electra_ok s -> electra_ok (with_payload_header s h).
Proof. intros Hs. destruct Hs. by constructor. Qed.

Lemma randao_eth1_Ok s reveal e a1 a2 :
  process_randao_altair (electra_state_to_altair s) reveal false = Ok a1 ->
  process_eth1_data_altair a1 e = Ok a2 ->
  zlen (eth1_data_votes s) < ETH1_DATA_VOTES_LIMIT /\
  exists d, (d = eth1_data s \/ d = e) /\ update_electra_from_altair s a2 = voted s reveal e d.
Proof.
  rewrite (proj1 (electra_altair_lens s a1)), (proj1 (proj2 (electra_altair_lens s a2))).
  unfold process_randao_altair. cbn [mbind result_bind].
  intros (b1 & [_ ->]%set_randao_mix_Ok & [= <-])%bind_Ok_inv.
  intros (a3 & (b3 & (l & (Hl & ->)%map_err_Ok%list_with_push_inv & [= <-])%bind_Ok_inv & [= <-])%bind_Ok_inv & Hv)%bind_Ok_inv.
  split; [done|]. revert Hv. cbv zeta. case_match; intros [= <-].
  - exists e. split; [by right|done].
  - exists (eth1_data s). split; [by left|]. done.
Qed.
End steps.

(** ** A block as a whole *)

(** The fields of a state that only slots and epochs change. *)
Definition clock_fields (s : ElectraState) :=
  ((genesis_time s, genesis_validators_root s, slot s, fork s), (block_roots s, state_roots s, historical_roots s),
   (justification_bits s, previous_justified_checkpoint s, current_justified_checkpoint s, finalized_checkpoint s),
   (al_current_sync_committee s, al_next_sync_committee s, de_historical_summaries s)).

(** [s'] is [s] extended by a block, its payload seen by the engine as [status]; who
    may propose it is left to the fork. *)
Record appends `{Crypto} `{Sp : BeaconSpec} `{Fs : ForkSpec} `{Bs : BlockSpec} `{ExecutionEngine}
    (s : ElectraState) (block : ElectraBlock) (cfg : RuntimeConfig) (s' : ElectraState)
    (status : PayloadVerificationStatus) : Prop := {
  xt_slot : ebl_slot block = slot s;
  xt_later : bh_slot (latest_block_header s) < ebl_slot block;
  xt_parent : header_root (latest_block_header s) = Ok (ebl_parent_root block);
  xt_unslashed : default false (v_slashed <$> validators s !! Z.to_nat (ebl_proposer_index block)) = false;
  xt_head : exists r, electra_body_root (ebl_body block) = Ok r /\ latest_block_header s' = header_of block r;
  xt_payload_fits : payload_fits s (ebl_body block) cfg;
  xt_status : status <> Invalid /\
    status = notify_new_payload_electra (eb_execution_payload (ebl_body block))
      (kzg_commitment_to_versioned_hash <$> eb_blob_kzg_commitments (ebl_body block))
      (ebl_parent_root block) (eb_execution_requests (ebl_body block));
  xt_payload_header : is_header_of (eb_execution_payload (ebl_body block)) (de_latest_execution_payload_header s');
  xt_withdrawals : ep_withdrawals (eb_execution_payload (ebl_body block)) = (get_expected_withdrawals_electra s).1;
  xt_withdrawal_index :
    de_next_withdrawal_index s' =
    de_next_withdrawal_index s + zlen (ep_withdrawals (eb_execution_payload (ebl_body block)));
  xt_clock : clock_fields s' = clock_fields s;
  xt_randao : randao_mixes s' = mixed s (eb_randao_reveal (ebl_body block));
  xt_votes : eth1_data_votes s' = eth1_data_votes s ++ [eb_eth1_data (ebl_body block)];
  xt_eth1 : eth1_data s' = eth1_data s \/ eth1_data s' = eb_eth1_data (ebl_body block);
  xt_deposits : eth1_deposit_index s' = (eth1_deposit_index s + zlen (eb_deposits (ebl_body block))) mod U64;
  xt_registry : registry_evolves (validators s) (validators s');
}.

(** In Electra the proposer is elected on demand. *)
Record extends `{Crypto} `{Sp : BeaconSpec} `{Fs : ForkSpec} `{Bs : BlockSpec} `{ExecutionEngine}
    (s : ElectraState) (block : ElectraBlock) (cfg : RuntimeConfig) (s' : ElectraState)
    (status : PayloadVerificationStatus) : Prop := {
  xt_proposer : get_beacon_proposer_index_electra s = Ok (ebl_proposer_index block);
  xt_appends :> appends s block cfg s' status;
}.

(** The steps of a block, with the proposer given or elected. *)
Lemma steps_append `{Crypto} `{Sp : BeaconSpec} `{Fs : ForkSpec} `{Aggregation} `{Bs : BlockSpec}
    `{BatchVerification} `{ExecutionEngine} `{!CryptoOk _} `{!SpecOk Sp} `{!ForkSpecOk Sp Fs}
    (s : ElectraState) block verify over cfg rcfg root s1 s2 s3 st a1 a2 s5 s6 :
  electra_ok s -> next_index_ok s -> body_ok (ebl_body block) -> 0 < num_validators s ->
  electra_body_root (ebl_body block) = Ok root ->
  process_block_header_electra s (ebl_slot block) (ebl_proposer_index block) (ebl_parent_root block) root over = Ok s1 ->
  process_withdrawals_electra s1 (ep_withdrawals (eb_execution_payload (ebl_body block))) = Ok s2 ->
  process_execution_payload s2 (ebl_body block) cfg = Ok (s3, st) ->
  process_randao_altair (electra_state_to_altair s3) (eb_randao_reveal (ebl_body block)) false = Ok a1 ->
  process_eth1_data_altair a1 (eb_eth1_data (ebl_body block)) = Ok a2 ->
  process_operations_electra (update_electra_from_altair s3 a2) (ebl_body block) verify rcfg over = Ok s5 ->
  process_sync_aggregate_electra s5 (eb_sync_aggregate (ebl_body block)) verify over = Ok s6 ->
  electra_ok s6 /\ appends s block cfg s6 st.
Proof.
  intros Hs Hx Hb Hn Hr Hs1 Hs2 Hs3 Ha1 Ha2 Hs5 Hs6.
  apply block_header_Ok in Hs1 as (Hslot & Hlast & _ & Hparent & Hun & ->).
  apply withdrawals_step in Hs2 as (Hok2 & k & c & Hexp & ->); [|by apply with_header_ok|done|done].
  rewrite expected_header in Hexp.
  apply payload_Ok in Hs3 as (Hfit & Hst & Hstatus & h & Hh & ->).
  destruct (randao_eth1_Ok _ _ _ _ _ Ha1 Ha2) as (Hvotes & d & Hd & Hv). rewrite Hv in Hs5.
  assert (electra_ok (voted (with_payload_header (after_withdrawals (with_header s (header_of block root)) (ep_withdrawals (eb_execution_payload (ebl_body block))) k c) h)
           (eb_randao_reveal (ebl_body block)) (eb_eth1_data (ebl_body block)) d)) as Hok4.
  { apply voted_ok; [by apply payload_header_ok|done]. }
  apply operations_advances in Hs5; [|done|done].
  apply sync_aggregate_advances in Hs6; [|apply Hs5].
  pose proof (advances_trans _ 0 _ _ _ _ Hs5 Hs6 eq_refl) as [Hok Hfixed Hdep Hreg].
  unfold fixed in Hfixed. simplify_eq Hfixed. intros. split; [done|].
  split; try done.
  - by exists root.
  - by destruct Hfit; constructor.
  - by subst h.
  - by rewrite Hexp.
  - unfold clock_fields. congruence.
  - destruct Hd as [->| ->]; [by left|by right].
  - rewrite <- (Z.mod_small (eth1_deposit_index s6) U64) by apply (bo_deposit_index _ _ (electra_base _ Hok)).
    by rewrite Z.add_0_r in Hdep.
Qed.

Lemma block_extends `{Crypto} `{Sp : BeaconSpec} `{Fs : ForkSpec} `{Aggregation} `{Bs : BlockSpec}
    `{BatchVerification} `{ExecutionEngine} `{!CryptoOk _} `{!SpecOk Sp} `{!ForkSpecOk Sp Fs}
    (s : ElectraState) block verify cfg s' status :
  electra_ok s -> next_index_ok s -> body_ok (ebl_body block) ->
  process_block_electra s block verify cfg = Ok (s', status) ->
  electra_ok s' /\ extends s block cfg s' status.
Proof.
  intros Hs Hx Hb (root & Hroot & (s1 & Hs1 & (s2 & Hs2 & ([s3 st] & Hs3 & (u & _ & (a1 & Ha1 & (a2 & Ha2 & (s5 & Hs5 &
    (s6 & Hs6 & [= <- <-])%bind_Ok_inv)%bind_Ok_inv)%bind_Ok_inv)%bind_Ok_inv)%bind_Ok_inv)%bind_Ok_inv)%bind_Ok_inv)%bind_Ok_inv)%bind_Ok_inv.
  pose proof (block_header_Ok _ _ _ _ _ Hs1) as (_ & _ & Hprop & _).
  assert (electra_body_root (ebl_body block) = Ok root) as Hr.
  { unfold root_value in Hroot. destruct (electra_body_root _); by simplify_eq. }
  destruct (steps_append s block verify None cfg cfg root s1 s2 s3 st a1 a2 s5 s6) as [Hok Happ]; try done.
  by eapply proposer_registry.
Qed.

(** C14: a block that [process_block_electra] accepts extends the state it is given.
    It is for the state's slot, comes after the last header, names that header as its
    parent and is proposed by the elected, unslashed proposer; the state keeps its header, the
    state root left blank.  Its payload builds on the last payload, carries exactly
    the expected withdrawals, the current seed and the slot's time, was not rejected
    by the execution engine, and the state keeps a header with the payload's hash tree
    root.  The chain's fields that belong to epochs and slots (checkpoints, bits,
    roots, fork, sync committees, summaries) do not change, the seed absorbs the
    reveal, the deposit contract's vote is recorded and its index advances by the
    number of deposits.  Validators keep their place and change only as the protocol
    allows, and the state stays well formed. *)
Theorem electra_block_sound `{Crypto} `{Sp : BeaconSpec} `{Fs : ForkSpec} `{Aggregation} `{Bs : BlockSpec}
    `{BatchVerification} `{ExecutionEngine} `{!CryptoOk _} `{!SpecOk Sp} `{!ForkSpecOk Sp Fs}
    (s : ElectraState) block verify cfg s' status :
  electra_ok s -> next_index_ok s -> body_ok (ebl_body block) ->
  process_block_electra s block verify cfg = Ok (s', status) ->
  electra_ok s' /\ extends s block cfg s' status.
Proof. apply block_extends. Qed.

(** A block with an attestation, a withdrawal, a full sync aggregate and a deposit
    request, its signatures checked. *)
Definition ex_pre_block : ElectraState :=
  ex_electra 9 [ex_member 0 Byte.x01 32 u64_max u64_max; ex_member 1 Byte.x01 32 0 1]
    [32000000000; 5000000000] [] [] [].
Definition ex_engine : ExecutionEngine := {| notify_new_payload_electra := fun _ _ _ _ => Valid |}.
Definition ex_batch : BatchVerification := {| verify_signature_sets := fun _ => Some true |}.
Definition ex_config : RuntimeConfig := mkRuntimeConfig 6 9 [Byte.x03; Byte.x00; Byte.x00; Byte.x01].
Definition ex_payload : ExecutionPayload :=
  mkExecutionPayload (replicate 32 Byte.x00) (replicate 20 Byte.x00) (replicate 32 Byte.x00)
    (replicate 32 Byte.x00) (replicate 256 Byte.x00) (replicate 32 Byte.x00) 1 30000000 0 54 [] 7
    (replicate 32 Byte.xbb) [[Byte.x01]]
    [mkWithdrawal 5 1 (replicate 20 Byte.xaa) 5000000000] 0 0.
Definition ex_body : ElectraBody :=
  mkElectraBody (replicate 96 Byte.x05) (mkEth1Data (replicate 32 Byte.x00) 0 (replicate 32 Byte.x00))
    (replicate 32 Byte.x00) [] []
    [mkElectraAttestation (mkBitlist [Byte.x01] 1)
       (mkAttestationData 7 0 (replicate 32 Byte.x07) (mkCheckpoint 0 (replicate 32 Byte.x00))
          (mkCheckpoint 0 (replicate 32 Byte.x07))) (replicate 96 Byte.x00) [Byte.x01]]
    [] [] (mkSyncAggregate (replicate 4 Byte.xff) (replicate 96 Byte.x00)) ex_payload [] []
    (mkExecutionRequests
       [mkDepositRequest (to_le_bytes 48 2) (replicate 32 Byte.x00) 32000000000 (replicate 96 Byte.x00) 0] [] []).
Definition ex_block : ElectraBlock := mkElectraBlock 9 0 (replicate 32 Byte.x00) (replicate 32 Byte.x00) ex_body.
Definition ex_post_block : ElectraState :=
  (ok_value (ex_pre_block, Valid)
     (@process_block_electra ex_crypto minimal minimal_forks ex_aggregation preset_blocks ex_batch ex_engine
        ex_pre_block ex_block true ex_config)).1.
Lemma ex_block_accepted :
  @process_block_electra ex_crypto minimal minimal_forks ex_aggregation preset_blocks ex_batch ex_engine
    ex_pre_block ex_block true ex_config = Ok (ex_post_block, Valid).
Proof. vm_compute. reflexivity. Qed.
Lemma ex_post_block_fields :
  bh_slot (latest_block_header ex_post_block) = 9 /\ zlen (el_pending_deposits ex_post_block) = 1 /\
  de_next_withdrawal_index ex_post_block = 6.
Proof. vm_compute. done. Qed.

Lemma electra_block_sound_witness :
  exists s', @process_block_electra ex_crypto minimal minimal_forks ex_aggregation preset_blocks ex_batch ex_engine
    ex_pre_block ex_block true ex_config = Ok (s', Valid) /\ @electra_ok minimal minimal_forks s' /\
    (bh_slot (latest_block_header s') = 9 /\ zlen (el_pending_deposits s') = 1 /\ de_next_withdrawal_index s' = 6) /\
    dph_block_hash (de_latest_execution_payload_header s') = replicate 32 Byte.xbb.
Proof.
  exists ex_post_block. split; [exact ex_block_accepted|].
  destruct (@electra_block_sound ex_crypto minimal minimal_forks ex_aggregation preset_blocks ex_batch ex_engine _ _ _
    ex_pre_block ex_block true ex_config ex_post_block Valid) as [Hok Hx].
  - apply ex_electra_ok; ex_ranges.
  - by vm_compute.
  - split; repeat constructor; by vm_compute.
  - exact ex_block_accepted.
  - split; [exact Hok|]. split; [exact ex_post_block_fields|exact (proj1 (xt_payload_header _ _ _ _ _ Hx))].
Defined.
