(* ===== verification/ElectraTransition.v ===== *)
(** * Electra: slots and the state transition

    Models electra/state_transition.rs of pharos-stf: [process_slot_electra],
    [process_slots_electra_with_cfg] (the loop over slots, with the epoch transition
    at the last slot of an epoch) and [state_transition].  The signature, the state
    root and the hash tree roots are those of ElectraBody.v.

    Theorem [electra_transition_sound] composes the slots, the epochs and the block. *)

From stdpp Require Import gmap sorting.
From Stdlib Require Import ZArith Lia.
From S2P Require Import Prelude SszCodec SszBitfield SszTypes Merkle SszTree Shuffling Spec BeaconState Invariant Roots Accessors Mutators Justification Rewards EpochUpdates Operations Transition Genesis Forks ForkInvariant Altair AltairFacts AltairOps Electra Withdrawals ElectraQueues PendingDeposits ElectraEpoch ElectraBody ElectraOps ElectraBlock.

Section definitions.
  Context `{Crypto} `{Sp : BeaconSpec} `{Fs : ForkSpec} `{Aggregation} `{Bs : BlockSpec} `{BatchVerification}.
  Implicit Types s : ElectraState.
  Local Abbreviation fallible := (result StateTransitionError).

Definition process_slot_electra s : fallible ElectraState :=
  previous_state_root ← root_value (electra_state_root s);
  let slot_idx := slot s mod SLOTS_PER_HISTORICAL_ROOT in
  s ← el_on (fun b => set_state_root b slot_idx previous_state_root) s;
  '(s, previous_block_root) ←
    (if bool_decide (bh_state_root (latest_block_header (el_deneb s)) = zero_chunk) then
       let h := latest_block_header (el_deneb s) in
       let updated := mkBeaconBlockHeader (bh_slot h) (bh_proposer_index h) (bh_parent_root h)
                        previous_state_root (bh_body_root h) in
       r ← root_value (header_root updated);
       Ok (el_with_base s (with_latest_block_header (el_deneb s) updated), r)
     else
       r ← root_value (header_root (latest_block_header (el_deneb s)));
       Ok (s, r));
  el_on (fun b => set_block_root b slot_idx previous_block_root) s.

Definition slot_step_electra s : fallible ElectraState :=
  s ← process_slot_electra s;
  s ← (if wadd (slot (el_deneb s)) 1 mod SLOTS_PER_EPOCH =? 0 then map_err slot_error (process_epoch_electra s) else Ok s);
  Ok (el_with_base s (with_slot (el_deneb s) (wadd (slot (el_deneb s)) 1))).

(** [while state.slot < target_slot]; each turn advances the slot by one, so
    [target_slot - slot] turns are all the loop makes. *)
Fixpoint slots_loop_electra (fuel : nat) (target_slot : Z) s : fallible ElectraState :=
  match fuel with
  | O => Ok s
  | S fuel =>
      if slot s <? target_slot then s ← slot_step_electra s; slots_loop_electra fuel target_slot s else Ok s
  end.
Definition process_slots_electra_with_cfg s (target_slot : Z) : fallible ElectraState :=
  if target_slot <? slot s then Err (TargetSlotNotAfterCurrent (slot s) target_slot)
  else slots_loop_electra (Z.to_nat (target_slot - slot s)) target_slot s.

(** Step 2 of [state_transition]. *)
Definition check_block_signature s (signed_block : SignedElectraBlock) : fallible unit :=
  let block := seb_message signed_block in
  proposer ← ok_or (validators s !! Z.to_nat (ebl_proposer_index block)) InvalidBlockSignature;
  domain ← get_domain s DOMAIN_BEACON_PROPOSER None;
  signing_root ← compute_signing_root (electra_block_root block) domain;
  if default false (bls_verify (v_pubkey proposer) signing_root (seb_signature signed_block))
  then Ok tt else Err InvalidBlockSignature.

Definition electra_state_transition `{ExecutionEngine} s (signed_block : SignedElectraBlock)
    (validate_result : bool) (runtime_cfg : RuntimeConfig)
    : fallible (ElectraState * PayloadVerificationStatus) :=
  let block := seb_message signed_block in
  s ← process_slots_electra_with_cfg s (ebl_slot block);
  _ ← (if validate_result then check_block_signature s signed_block else Ok tt);
  '(s, payload_status) ← process_block_electra s block validate_result runtime_cfg;
  _ ← (if validate_result then
         actual ← root_value (electra_state_root s);
         let expected := ebl_state_root block in
         if bool_decide (actual = expected) then Ok tt else Err (StateRootMismatch expected actual)
       else Ok tt);
  Ok (s, payload_status).
End definitions.

(** ** Moving forward in time *)
Section facts.
  Context `{Crypto} `{Sp : BeaconSpec} `{Fs : ForkSpec} `{Aggregation} `{Bs : BlockSpec}.
  Context `{!SpecOk Sp} `{!ForkSpecOk Sp Fs}.
  Implicit Types s : ElectraState.

(** The state after the roots of its slot are recorded. *)
Definition recorded s (sr br : bytes) : ElectraState :=
  let i := Z.to_nat (slot s mod SLOTS_PER_HISTORICAL_ROOT) in
  el_with_base s (with_block_roots (with_latest_block_header (with_state_roots s
    (<[i := sr]> (state_roots s))) (completed_header s sr)) (<[i := br]> (block_roots s))).

Lemma process_slot_electra_Ok s s' :
  process_slot_electra s = Ok s' ->
  exists sr br, electra_state_root s = Ok sr /\ header_root (completed_header s sr) = Ok br /\ s' = recorded s sr br.
Proof.
  unfold process_slot_electra, completed_header, recorded.
  intros (sr & Hsr%root_value_Ok & (s1 & (a1 & (b1 & [_ ->]%set_state_root_Ok & [= <-])%bind_Ok_inv & [= <-])%bind_Ok_inv & Hs)%bind_Ok_inv)%bind_Ok_inv.
  exists sr. cbn in Hs. apply bind_Ok_inv in Hs as ([s2 br] & H2 & (a2 & (b2 & [_ ->]%set_block_root_Ok & [= <-])%bind_Ok_inv & [= <-])%bind_Ok_inv).
  unfold completed_header. case_bool_decide as Hz; apply bind_Ok_inv in H2 as (r & Hr%root_value_Ok & [= <- <-]); exists r.
  - by rewrite !bool_decide_true by done.
  - rewrite !bool_decide_false by done. split_and!; [done|done|]. by destruct s as [[[[] ? ? ? ? ?] ? ? ? ?] ? ? ? ? ? ? ? ? ?].
Qed.

Lemma recorded_ok s sr br : electra_ok s -> electra_ok (recorded s sr br).
Proof.
  intros Hs. apply electra_ok_base; [done| |done]. pose proof (electra_base s Hs) as Hb. destruct Hb.
  constructor; cbn in *; unfold zlen in *; rewrite ?length_insert; done.
Qed.

(** What moving forward in time keeps. *)
Record electra_progress s s' : Prop := {
  ep_ok : electra_ok s';
  ep_ordered : checkpoints_ordered s';
  ep_finalized : cp_epoch (finalized_checkpoint s) <= cp_epoch (finalized_checkpoint s');
  ep_justified : cp_epoch (current_justified_checkpoint s) <= cp_epoch (current_justified_checkpoint s');
  ep_payload : payload_fields s' = payload_fields s;
  ep_header : bh_slot (latest_block_header s') = bh_slot (latest_block_header s);
}.

Lemma electra_progress_trans s1 s2 s3 : electra_progress s1 s2 -> electra_progress s2 s3 -> electra_progress s1 s3.
Proof. intros [] []. constructor; first [done|lia|congruence]. Qed.

(** A state at its next slot. *)
Definition ticked s : ElectraState := el_with_base s (with_slot s (slot s + 1)).

Lemma ticked_ok s : electra_ok s -> slot s + 1 < U64 -> electra_ok (ticked s).
Proof.
  intros Hs Hu. apply electra_ok_base; [done| |done]. pose proof (electra_base s Hs) as Hb. destruct Hb.
  constructor; cbn; try done. destruct bo_slot. split; lia.
Qed.

Lemma ticked_ordered s :
  electra_ok s -> slot s + 1 < U64 -> 0 <= cp_epoch (finalized_checkpoint s) <= cp_epoch (previous_justified_checkpoint s) ->
  cp_epoch (previous_justified_checkpoint s) <= cp_epoch (current_justified_checkpoint s) ->
  cp_epoch (current_justified_checkpoint s) <=
    (if (slot s + 1) mod SLOTS_PER_EPOCH =? 0 then get_current_epoch s else get_previous_epoch s) ->
  checkpoints_ordered (ticked s).
Proof.
  intros Hs Hu H1 H2 H3. pose proof (bo_slot _ _ (electra_base s Hs)) as Hsl.
  pose proof (bo_slot _ _ (electra_base _ (ticked_ok s Hs Hu))) as Hsl'.
  split; [done|]. split; [done|]. rewrite previous_epoch_at by exact Hsl'.
  change (current_justified_checkpoint (ticked s)) with (current_justified_checkpoint s).
  pose proof (epoch_at_range s Hsl).
  destruct (Z.eqb_spec ((slot s + 1) mod SLOTS_PER_EPOCH) 0) as [Hm|Hm].
  - assert (get_current_epoch (ticked s) = get_current_epoch s + 1) as -> by (by apply next_slot_epoch). lia.
  - assert (get_current_epoch (ticked s) = get_current_epoch s) as -> by (by apply same_epoch).
    by rewrite previous_epoch_at in H3 by done.
Qed.

(** The end of a turn: the epoch transition if the slot is the last of its epoch. *)
Definition epoch_end s s2 : Prop :=
  if (slot s + 1) mod SLOTS_PER_EPOCH =? 0 then process_epoch_electra s = Ok s2 else s2 = s.

Lemma recorded_ticked s sr br s2 :
  electra_ok s -> checkpoints_ordered s -> slot s + 1 < U64 -> header_root (completed_header s sr) = Ok br ->
  epoch_end (recorded s sr br) s2 ->
  slot s2 = slot s /\ slot (ticked s2) = slot s + 1 /\ electra_progress s (ticked s2) /\
  exists br, header_root (latest_block_header (ticked s2)) = Ok br /\
    block_roots (ticked s2) !! Z.to_nat (slot s mod SLOTS_PER_HISTORICAL_ROOT) = Some br.
Proof.
  intros Hs Ho Hu Hbr. unfold epoch_end. pose proof (recorded_ok s sr br Hs) as Hok1. revert Hok1.
  set (s1 := recorded s sr br). intros Hok1 H2. change (slot s1) with (slot s) in H2.
  pose proof (bo_slot _ _ (electra_base s Hs)) as [Hs0 _].
  assert (bh_slot (latest_block_header s1) = bh_slot (latest_block_header s)) as Hh.
  { cbn. unfold completed_header. by case_bool_decide. }
  assert (block_roots s1 !! Z.to_nat (slot s mod SLOTS_PER_HISTORICAL_ROOT) = Some br) as Hroots.
  { apply list_lookup_insert_eq. pose proof (bo_block_roots _ _ (electra_base s Hs)) as Hl. unfold zlen in Hl.
    pose proof historical_root_pos.
    pose proof (Z.mod_pos_bound (slot s) SLOTS_PER_HISTORICAL_ROOT). lia. }
  assert (electra_ok s2 /\ slot s2 = slot s /\ latest_block_header s2 = latest_block_header s1 /\
    block_roots s2 = block_roots s1 /\ payload_fields s2 = payload_fields s /\ checkpoints_ordered (ticked s2) /\
    cp_epoch (finalized_checkpoint s) <= cp_epoch (finalized_checkpoint s2) /\
    cp_epoch (current_justified_checkpoint s) <= cp_epoch (current_justified_checkpoint s2))
    as (Hok2 & E2 & Eh & Er & Ep & Ho2 & Hf & Hj).
  { destruct (Z.eqb_spec ((slot s + 1) mod SLOTS_PER_EPOCH) 0) as [Hm|Hm].
    - apply electra_epoch_progress in H2 as (? & E & ? & ? & ? & F1 & F2 & F3 & F4 & F5); [|done|done].
      split_and!; try done. apply ticked_ordered; rewrite ?E; try done; [split; [|done]|].
      + destruct Ho as [[? _] _]. etransitivity; [|exact F1]. done.
      + change (slot s1) with (slot s). rewrite (proj2 (Z.eqb_eq _ _) Hm). unfold get_current_epoch. by rewrite E.
    - subst s2. split_and!; try done. destruct Ho as (? & ? & ?).
      apply ticked_ordered; try done. change (slot s1) with (slot s). by rewrite (proj2 (Z.eqb_neq _ _) Hm). }
  split; [done|]. split; [by rewrite <- E2|]. split.
  - constructor; try done; [apply ticked_ok; [done|lia]|]. by rewrite <- Hh, <- Eh.
  - exists br. change (latest_block_header (ticked s2)) with (latest_block_header s2).
    change (block_roots (ticked s2)) with (block_roots s2). by rewrite Eh, Er.
Qed.

Lemma slot_step_electra_Ok s s' :
  electra_ok s -> checkpoints_ordered s -> slot s + 1 < U64 -> slot_step_electra s = Ok s' ->
  slot s' = slot s + 1 /\ electra_progress s s' /\
  exists br, header_root (latest_block_header s') = Ok br /\
    block_roots s' !! Z.to_nat (slot s mod SLOTS_PER_HISTORICAL_ROOT) = Some br.
Proof.
  intros Hs Ho Hu (s1 & (sr & br & _ & Hbr & ->)%process_slot_electra_Ok & (s2 & H2 & [= <-])%bind_Ok_inv)%bind_Ok_inv.
  pose proof (bo_slot _ _ (electra_base s Hs)) as [Hs0 _].
  change (slot (el_deneb (recorded s sr br))) with (slot s) in H2. rewrite wadd_small in H2 by lia.
  assert (epoch_end (recorded s sr br) s2) as He.
  { unfold epoch_end. change (slot (recorded s sr br)) with (slot s). case_match; [by apply map_err_Ok in H2|by injection H2]. }
  destruct (recorded_ticked s sr br s2 Hs Ho Hu Hbr He) as (E2 & Ht).
  change (slot (el_deneb s2)) with (slot s2). rewrite E2, wadd_small by lia. rewrite <- E2. fold (ticked s2). by rewrite E2.
Qed.

(** The root recorded for the last slot is the one a block has to name. *)
Definition last_root_recorded s : Prop :=
  exists br, header_root (latest_block_header s) = Ok br /\
    block_roots s !! Z.to_nat ((slot s - 1) mod SLOTS_PER_HISTORICAL_ROOT) = Some br.

Lemma slots_loop_electra_Ok fuel target s s' :
  electra_ok s -> checkpoints_ordered s -> target < U64 -> Z.of_nat fuel = target - slot s ->
  slots_loop_electra fuel target s = Ok s' ->
  slot s' = target /\ electra_progress s s' /\ (slot s < target -> last_root_recorded s').
Proof.
  revert s. induction fuel as [|fuel IH]; intros s Hs Ho Ht Hfuel Hs'; cbn in Hs'.
  { injection Hs' as <-. split; [lia|]. split; [by constructor|lia]. }
  destruct (Z.ltb_spec (slot s) target); [|lia]. apply bind_Ok_inv in Hs' as (s1 & Hstep & Hs').
  apply slot_step_electra_Ok in Hstep as (Hslot & Hp & br & Hh & Hr); [|done|done|lia].
  destruct (IH s1) as (Hs1 & Hp1 & Hrec); [apply Hp|apply Hp|done|lia|done|].
  split; [done|]. split; [by eapply electra_progress_trans|]. intros _.
  destruct fuel as [|fuel]; [|apply Hrec; lia].
  cbn in Hs'. injection Hs' as <-. exists br. split; [done|]. by rewrite Hslot, Z.add_simpl_r.
Qed.

Lemma process_slots_electra_Ok target s s' :
  electra_ok s -> checkpoints_ordered s -> target < U64 -> process_slots_electra_with_cfg s target = Ok s' ->
  slot s <= target /\ slot s' = target /\ electra_progress s s' /\ (slot s < target -> last_root_recorded s').
Proof.
  intros Hs Ho Ht. unfold process_slots_electra_with_cfg. destruct (Z.ltb_spec target (slot s)); [done|].
  intros Hs'. split; [done|]. by eapply slots_loop_electra_Ok; [..|exact Hs']; [done..|lia].
Qed.
End facts.

(** ** The theorem *)

(** C11: the state transition of Electra.  A block accepted with validation is signed
    by the proposer elected for its slot, who is not slashed; the resulting state
    extends the one reached at the block's slot by the block, has the state root the
    block claims, is well formed with its checkpoints in order, and has lost nothing
    that was finalized or justified.  If slots were processed, the parent the block
    names is the root recorded for the slot before it. *)
Theorem electra_transition_sound `{Crypto} `{Sp : BeaconSpec} `{Fs : ForkSpec} `{Aggregation} `{Bs : BlockSpec}
    `{BatchVerification} `{ExecutionEngine} `{!CryptoOk _} `{!SpecOk Sp} `{!ForkSpecOk Sp Fs}
    (s : ElectraState) sb cfg s' status :
  electra_ok s -> checkpoints_ordered s -> next_index_ok s -> u64 (ebl_slot (seb_message sb)) ->
  body_ok (ebl_body (seb_message sb)) ->
  electra_state_transition s sb true cfg = Ok (s', status) ->
  let b := seb_message sb in
  electra_ok s' /\ checkpoints_ordered s' /\ slot s' = ebl_slot b /\
  electra_state_root s' = Ok (ebl_state_root b) /\
  cp_epoch (finalized_checkpoint s) <= cp_epoch (finalized_checkpoint s') /\
  cp_epoch (current_justified_checkpoint s) <= cp_epoch (current_justified_checkpoint s') /\
  exists s1, process_slots_electra_with_cfg s (ebl_slot b) = Ok s1 /\ extends s1 b cfg s' status /\
    (exists v domain signing_root,
       validators s1 !! Z.to_nat (ebl_proposer_index b) = Some v /\ v_slashed v = false /\
       get_domain (E:=StateTransitionError) s1 DOMAIN_BEACON_PROPOSER None = Ok domain /\
       compute_signing_root (E:=StateTransitionError) (electra_block_root b) domain = Ok signing_root /\
       bls_verify (v_pubkey v) signing_root (seb_signature sb) = Some true) /\
    (slot s < ebl_slot b ->
       block_roots s1 !! Z.to_nat ((ebl_slot b - 1) mod SLOTS_PER_HISTORICAL_ROOT) = Some (ebl_parent_root b)).
Proof.
  intros Hs Ho Hx [_ Hsl] Hb (s1 & Hs1 & (u1 & Hsig & ([s2 st] & Hs2 & (u2 & Hroot & [= <- <-])%bind_Ok_inv)%bind_Ok_inv)%bind_Ok_inv)%bind_Ok_inv b.
  apply bind_Ok_inv in Hsig as (v & Hv%ok_or_Ok & (domain & Hdom & (sr & Hsr & Hok)%bind_Ok_inv)%bind_Ok_inv).
  apply bind_Ok_inv in Hroot as (actual & Hact%root_value_Ok & Hroot). cbv zeta in Hroot. case_bool_decide as Heq; [subst actual|done].
  destruct (process_slots_electra_Ok _ _ _ Hs Ho Hsl Hs1) as (Hle & Hslot & [Hok1 Ho1 Hf1 Hj1 Hp1 Hh1] & Hrec).
  assert (next_index_ok s1) as Hx1.
  { unfold next_index_ok. injection Hp1 as _ -> _. exact Hx. }
  destruct (block_extends _ _ _ _ _ _ Hok1 Hx1 Hb Hs2) as [Hok2 Hext].
  pose proof (xt_clock _ _ _ _ _ Hext) as Hclock. injection Hclock as _ _ Es _ _ _ _ _ Ep Ej Ef _ _ _.
  assert (checkpoints_ordered s2) as Ho2.
  { unfold checkpoints_ordered, get_previous_epoch, get_current_epoch in *. by rewrite Es, Ep, Ej, Ef. }
  split_and!; rewrite ?Ef, ?Ej; try done; [by rewrite Es|].
  exists s1. split; [done|]. split; [done|]. split.
  - exists v, domain, sr. pose proof (xt_unslashed _ _ _ _ _ Hext) as Hun.
    rewrite Hv in Hun. split_and!; try done. by destruct (bls_verify _ _ _) as [[]|].
  - intros Hlt. destruct (Hrec Hlt) as (br & Hbr & Hl). rewrite Hslot in Hl.
    rewrite (xt_parent _ _ _ _ _ Hext) in Hbr. by injection Hbr as <-.
Qed.

(** The block of [ex_block] on a chain still in the last slot of the epoch before,
    with the state root it leads to. *)
Definition ex_before_epoch : ElectraState :=
  ex_electra 7 [ex_member 0 Byte.x01 32 u64_max u64_max; ex_member 1 Byte.x01 32 0 1]
    [32000000000; 5000000000] [] [] [].
Definition ex_signed_with (root : bytes) : SignedElectraBlock :=
  mkSignedElectraBlock (mkElectraBlock 9 0 (replicate 32 Byte.x00) root ex_body) (replicate 96 Byte.x00).
Definition ex_run (sb : SignedElectraBlock) (validate : bool) :=
  @electra_state_transition ex_crypto minimal minimal_forks ex_aggregation preset_blocks ex_batch ex_engine
    ex_before_epoch sb validate ex_config.
Definition ex_claimed_root : bytes :=
  ok_value [] (@electra_state_root ex_crypto minimal minimal_forks preset_blocks
    (ok_value (ex_before_epoch, Valid) (ex_run (ex_signed_with []) false)).1).
Definition ex_signed_block_electra : SignedElectraBlock := ex_signed_with ex_claimed_root.
Definition ex_after_transition : ElectraState :=
  (ok_value (ex_before_epoch, Valid) (ex_run ex_signed_block_electra true)).1.

Lemma ex_transition_accepted :
  @electra_state_transition ex_crypto minimal minimal_forks ex_aggregation preset_blocks ex_batch ex_engine
    ex_before_epoch ex_signed_block_electra true ex_config = Ok (ex_after_transition, Valid).
Proof. vm_compute. reflexivity. Qed.
Lemma ex_after_transition_fields : balances ex_after_transition = [32001073274; 0].
Proof. vm_compute. reflexivity. Qed.

Lemma electra_transition_sound_witness :
  exists s', @electra_state_transition ex_crypto minimal minimal_forks ex_aggregation preset_blocks ex_batch ex_engine
      ex_before_epoch ex_signed_block_electra true ex_config = Ok (s', Valid) /\
    @electra_ok minimal minimal_forks s' /\ slot s' = 9 /\ balances s' = [32001073274; 0].
Proof.
  exists ex_after_transition. split; [exact ex_transition_accepted|].
  destruct (@electra_transition_sound ex_crypto minimal minimal_forks ex_aggregation preset_blocks ex_batch ex_engine _ _ _
    ex_before_epoch ex_signed_block_electra ex_config ex_after_transition Valid) as (Hok & _ & Hslot & _).
  - apply ex_electra_ok; ex_ranges.
  - repeat split; vm_compute; congruence.
  - by vm_compute.
  - by split; vm_compute.
  - split; repeat constructor; by vm_compute.
  - exact ex_transition_accepted.
  - split; [exact Hok|]. split; [exact Hslot|exact ex_after_transition_fields].
Defined.
