(* ===== verification/ForkUpgrades.v ===== *)
(** * Upgrades from fork to fork

    The functions [upgrade_to_*] of pharos-stf: altair/upgrade.rs,
    bellatrix/upgrade.rs, capella/upgrade.rs, deneb/upgrade.rs and
    electra/upgrade.rs.  Each takes the state at the first slot of the fork's epoch;
    the version the fork brings is the entry of [RuntimeConfig] it reads.

    Theorem [altair_upgrade_translates]: the pending attestations of phase 0 become
    exactly the participation flags of Altair.  Theorem [electra_upgrade_exact]: the
    queue Electra starts with, and that no balance is lost in it. *)

From stdpp Require Import gmap sorting.
From Stdlib Require Import ZArith Lia.
From S2P Require Import Prelude SszCodec SszBitfield SszTypes Merkle SszTree Shuffling Spec BeaconState Invariant Roots Accessors Mutators Justification Rewards EpochUpdates Operations Genesis Forks ForkInvariant Altair AltairFacts AltairOps Electra Withdrawals ElectraQueues PendingDeposits ElectraEpoch ElectraBody ElectraOps ElectraBlock.

(** ** Bellatrix *)
Record BellatrixHeader : Type := mkBellatrixHeader {
  bph_parent_hash : bytes;
  bph_fee_recipient : bytes;
  bph_state_root : bytes;
  bph_receipts_root : bytes;
  bph_logs_bloom : bytes;
  bph_prev_randao : bytes;
  bph_block_number : Z;
  bph_gas_limit : Z;
  bph_gas_used : Z;
  bph_timestamp : Z;
  bph_extra_data : bytes;
  bph_base_fee_per_gas : Z;
  bph_block_hash : bytes;
  bph_transactions_root : bytes;
}.

Record BellatrixState : Type := mkBellatrixState {
  be_altair :> AltairState;
  be_latest_execution_payload_header : BellatrixHeader;
}.

(** Both presets; [BYTES_PER_LOGS_BLOOM] of pharos-types. *)
Definition BYTES_PER_LOGS_BLOOM : nat := 256.

(** [ExecutionPayloadHeader::default()]. *)
Definition default_payload_header : BellatrixHeader :=
  mkBellatrixHeader zero_chunk (replicate 20 Byte.x00) zero_chunk zero_chunk
    (replicate BYTES_PER_LOGS_BLOOM Byte.x00) zero_chunk 0 0 0 0 [] 0 zero_chunk zero_chunk.

(** A state under its new fork; states of Altair and later have no pending
    attestations. *)
Definition with_fork (s : BeaconState) (x : Fork) : BeaconState :=
  mkBeaconState (genesis_time s) (genesis_validators_root s) (slot s) x (latest_block_header s)
    (block_roots s) (state_roots s) (historical_roots s) (eth1_data s) (eth1_data_votes s)
    (eth1_deposit_index s) (validators s) (balances s) (randao_mixes s) (slashings s) [] []
    (justification_bits s) (previous_justified_checkpoint s) (current_justified_checkpoint s)
    (finalized_checkpoint s).

Section upgrades.
  Context `{Crypto} `{Sp : BeaconSpec} `{Fs : ForkSpec} `{Aggregation}.
  Local Abbreviation fallible := (result StateTransitionError).

Definition next_fork (pre : BeaconState) (current_version : bytes) : Fork :=
  mkFork (fork_current_version (fork pre)) current_version
    (compute_epoch_at_slot (slot pre) SLOTS_PER_EPOCH).

(** ** altair/upgrade.rs *)

(** A list of [validator_count] zeros, pushed one by one. *)
Definition zero_list (validator_count : Z) : fallible (list Z) :=
  foldM (fun list _ => map_err Ssz (list_with_push VALIDATOR_REGISTRY_LIMIT list 0))
    (seqZ 0 validator_count) [].

(** The flags of one attester. *)
Definition translate_flags (participation_flag_indices : list Z) (post : AltairState) (index : Z)
    : fallible AltairState :=
  let current_flags := default 0 (al_previous_epoch_participation post !! Z.to_nat index) in
  let new_flags := foldl add_flag current_flags participation_flag_indices in
  if negb (new_flags =? current_flags) then
    l ← map_err Ssz (list_with_set (al_previous_epoch_participation post) index new_flags);
    Ok (al_with_previous_epoch_participation post l)
  else Ok post.

(** The turn of the loop over the pending attestations. *)
Definition translate_attestation (post : AltairState) (attestation : PendingAttestation)
    : fallible AltairState :=
  let data := pa_data attestation in
  participation_flag_indices ←
    get_attestation_participation_flag_indices post data (pa_inclusion_delay attestation) false;
  committee ← get_beacon_committee_altair post (ad_slot data) (ad_index data);
  attesting_indices ← picked_by (bl_bit (pa_aggregation_bits attestation)) committee;
  foldM (translate_flags participation_flag_indices) attesting_indices post.

Definition upgrade_to_altair (pre : BeaconState) (altair_fork_version : bytes) : fallible AltairState :=
  let fork := next_fork pre altair_fork_version in
  let validator_count := num_validators pre in
  previous_epoch_participation ← zero_list validator_count;
  current_epoch_participation ← zero_list validator_count;
  inactivity_scores ← zero_list validator_count;
  let default_committee :=
    mkSyncCommittee (replicate (Z.to_nat SYNC_COMMITTEE_SIZE) default_pubkey) default_pubkey in
  let post := mkAltairState (with_fork pre fork) previous_epoch_participation
                current_epoch_participation inactivity_scores default_committee default_committee in
  post ← foldM translate_attestation (previous_epoch_attestations pre) post;
  current_sync_committee ← get_next_sync_committee post;
  let post := al_with_current_sync_committee post current_sync_committee in
  next_sync_committee ← get_next_sync_committee post;
  Ok (al_with_next_sync_committee post next_sync_committee).

(** ** bellatrix/upgrade.rs, capella/upgrade.rs and deneb/upgrade.rs *)
Definition upgrade_to_bellatrix (pre : AltairState) (bellatrix_fork_version : bytes)
    : fallible BellatrixState :=
  Ok (mkBellatrixState (al_with_base pre (with_fork pre (next_fork pre bellatrix_fork_version)))
        default_payload_header).

Definition upgrade_to_capella (pre : BellatrixState) (capella_fork_version : bytes)
    : fallible CapellaState :=
  let h := be_latest_execution_payload_header pre in
  let latest_execution_payload_header :=
    mkCapellaHeader (bph_parent_hash h) (bph_fee_recipient h) (bph_state_root h) (bph_receipts_root h)
      (bph_logs_bloom h) (bph_prev_randao h) (bph_block_number h) (bph_gas_limit h) (bph_gas_used h)
      (bph_timestamp h) (bph_extra_data h) (bph_base_fee_per_gas h) (bph_block_hash h)
      (bph_transactions_root h) zero_chunk in
  Ok (mkCapellaState (al_with_base pre (with_fork pre (next_fork pre capella_fork_version)))
        latest_execution_payload_header 0 0 []).

Definition upgrade_to_deneb (pre : CapellaState) (deneb_fork_version : bytes) : fallible DenebState :=
  let h := ca_latest_execution_payload_header pre in
  let latest_execution_payload_header :=
    mkDenebHeader (cph_parent_hash h) (cph_fee_recipient h) (cph_state_root h) (cph_receipts_root h)
      (cph_logs_bloom h) (cph_prev_randao h) (cph_block_number h) (cph_gas_limit h) (cph_gas_used h)
      (cph_timestamp h) (cph_extra_data h) (cph_base_fee_per_gas h) (cph_block_hash h)
      (cph_transactions_root h) (cph_withdrawals_root h) 0 0 in
  Ok (mkDenebState (al_with_base pre (with_fork pre (next_fork pre deneb_fork_version)))
        latest_execution_payload_header (ca_next_withdrawal_index pre)
        (ca_next_withdrawal_validator_index pre) (ca_historical_summaries pre)).

(** ** electra/upgrade.rs *)

(** The latest exit already scheduled, or the first a validator can have. *)
Definition latest_exit_epoch (epoch : Z) (vs : list Validator) : Z :=
  foldl (fun earliest v =>
      if negb (v_exit_epoch v =? FAR_FUTURE_EPOCH) && (earliest <? v_exit_epoch v)
      then v_exit_epoch v else earliest)
    (compute_activation_exit_epoch epoch MAX_SEED_LOOKAHEAD) vs.

(** Indices and eligibility epochs, by epoch and index. *)
Definition pre_activation (vs : list Validator) : list Z :=
  fst <$> merge_sort queue_le
    (omap (fun '(i, v) => if v_activation_epoch v =? FAR_FUTURE_EPOCH
                          then Some (i, v_activation_eligibility_epoch v) else None) (enumerate vs)).

Definition queue_entire_balance (post : ElectraState) (index : Z) : fallible ElectraState :=
  let balance := default 0 (balances post !! Z.to_nat index) in
  bs ← map_err Ssz (list_with_set (balances post) index 0);
  let post := el_with_base post (with_balances post bs) in
  v ← ok_or (validators post !! Z.to_nat index) SlotOutOfRange;
  let v' := mkValidator (v_pubkey v) (v_withdrawal_credentials v) 0 (v_slashed v) FAR_FUTURE_EPOCH
              (v_activation_epoch v) (v_exit_epoch v) (v_withdrawable_epoch v) in
  vs ← map_err Ssz (list_with_set (validators post) index v');
  let post := el_with_base post (with_validators post vs) in
  el_push_pending_deposit post
    (mkPendingDeposit (v_pubkey v) (v_withdrawal_credentials v) balance G2_POINT_AT_INFINITY 0).

Definition compounding_indices (vs : list Validator) : list Z :=
  omap (fun '(i, v) => if has_compounding_withdrawal_credential v then Some i else None) (enumerate vs).

Definition upgrade_to_electra (pre : DenebState) (electra_fork_version : bytes) : fallible ElectraState :=
  let epoch := compute_epoch_at_slot (slot pre) SLOTS_PER_EPOCH in
  let earliest_exit_epoch := wadd (latest_exit_epoch epoch (validators pre)) 1 in
  let earliest_consolidation_epoch := compute_activation_exit_epoch epoch MAX_SEED_LOOKAHEAD in
  let deneb := de_with_altair pre
    (al_with_base pre (with_fork pre (next_fork pre electra_fork_version))) in
  let post := mkElectraState deneb UNSET_DEPOSIT_REQUESTS_START_INDEX 0 0 earliest_exit_epoch 0
                earliest_consolidation_epoch [] [] [] in
  let post := el_with_exit_balance_to_consume post (get_activation_exit_churn_limit_electra post) in
  let post := el_with_consolidation_balance_to_consume post
                (get_consolidation_churn_limit_electra post) in
  post ← foldM queue_entire_balance (pre_activation (validators post)) post;
  foldM queue_excess_active_balance_electra (compounding_indices (validators (el_deneb post))) post.
End upgrades.

(** ** Electra: the queue the upgrade leaves *)
Section electra.
  Context `{Sp : BeaconSpec} `{Fs : ForkSpec} `{!SpecOk Sp} `{!ForkSpecOk Sp Fs}.
  Implicit Types s : ElectraState.
  Implicit Types vs : list Validator.

(** A validator sent back to the queue. *)
Definition queued_again (v : Validator) : Validator :=
  mkValidator (v_pubkey v) (v_withdrawal_credentials v) 0 (v_slashed v) FAR_FUTURE_EPOCH
    (v_activation_epoch v) (v_exit_epoch v) (v_withdrawable_epoch v).
Definition deposit_of vs (i amount : Z) : PendingDeposit :=
  let v := default (mkValidator [] [] 0 false 0 0 0 0) (vs !! Z.to_nat i) in
  mkPendingDeposit (v_pubkey v) (v_withdrawal_credentials v) amount G2_POINT_AT_INFINITY 0.

(** The registry and the balances once the validators [l] are queued again. *)
Definition change_at {A} (f : A -> A) (l : list Z) (xs : list A) : list A :=
  imap (fun i x => if decide (Z.of_nat i ∈ l) then f x else x) xs.

Lemma change_at_nil {A} (f : A -> A) xs : change_at f [] xs = xs.
Proof. unfold change_at. apply list_eq. intros i. rewrite list_lookup_imap. by destruct (xs !! i). Qed.

Lemma change_at_cons {A} (f : A -> A) i l xs x :
  0 <= i -> i ∉ l -> xs !! Z.to_nat i = Some x ->
  change_at f (i :: l) xs = change_at f l (<[Z.to_nat i := f x]> xs).
Proof.
  intros Hi Hl Hx. unfold change_at. apply list_eq. intros j. rewrite !list_lookup_imap.
  destruct (decide (j = Z.to_nat i)) as [->|Hne].
  - rewrite list_lookup_insert_eq, Hx by (by eapply lookup_lt_Some). cbn. rewrite Z2Nat.id by done.
    by rewrite decide_True, decide_False by (done || by left).
  - rewrite list_lookup_insert_ne by done. destruct (xs !! j) as [y|]; [|done]. cbn. f_equal.
    apply decide_ext. rewrite elem_of_cons. split; [|by right]. intros [Heq|]; [|done]. lia.
Qed.

Lemma change_at_length {A} (f : A -> A) l xs : length (change_at f l xs) = length xs.
Proof. apply length_imap. Qed.

Lemma change_at_lookup {A} (f : A -> A) l xs i :
  change_at f l xs !! i = (fun x => if decide (Z.of_nat i ∈ l) then f x else x) <$> xs !! i.
Proof. apply list_lookup_imap. Qed.

(** What a list of changes takes from the total. *)
Lemma change_at_total (f : Z -> Z) l bs :
  NoDup l -> Forall (fun i => 0 <= i < zlen bs) l ->
  zsum (change_at f l bs) +
  zsum ((fun i => default 0 (bs !! Z.to_nat i) - f (default 0 (bs !! Z.to_nat i))) <$> l) = zsum bs.
Proof.
  intros Hd. revert bs. induction Hd as [|i l Hi Hd IH]; intros bs Hl.
  { rewrite change_at_nil. cbn. lia. }
  apply Forall_cons in Hl as [Hr Hl]. destruct (lookup_lt_is_Some_2 bs (Z.to_nat i)) as [b Hb]; [unfold zlen in Hr; lia|].
  rewrite (change_at_cons f i l bs b) by (done || lia). rewrite fmap_cons, zsum_cons, Hb. change (default 0 (Some b)) with b.
  pose proof (IH (<[Z.to_nat i := f b]> bs)) as IH'. rewrite (zsum_insert _ _ b) in IH' by done.
  rewrite (list_fmap_ext _ (fun j => default 0 (bs !! Z.to_nat j) - f (default 0 (bs !! Z.to_nat j))) l) in IH'.
  - assert (Forall (fun j => 0 <= j < zlen (<[Z.to_nat i := f b]> bs)) l) as Hl'.
    { unfold zlen. rewrite length_insert. exact Hl. }
    specialize (IH' Hl'). lia.
  - intros k j Hj. apply list_elem_of_lookup_2 in Hj. eapply Forall_forall in Hl; [|exact Hj].
    rewrite list_lookup_insert_ne; [done|]. intros Heq. apply Z2Nat.inj in Heq; [congruence|lia..].
Qed.

Lemma set_in_range {T} (l : list T) i v : i < zlen l -> list_with_set l i v = Ok (<[Z.to_nat i := v]> l).
Proof. intros Hi. by apply list_with_set_Ok. Qed.

(** The first loop, in closed form. *)
Definition queued s (l : list Z) (bs : list Z) vs : ElectraState :=
  el_with_pending_deposits (el_with_base s (with_validators (with_balances s bs) vs))
    (el_pending_deposits s ++ ((fun i => deposit_of (validators s) i (default 0 (balances s !! Z.to_nat i))) <$> l)).

Lemma queue_entire_step s i v :
  0 <= i -> validators s !! Z.to_nat i = Some v -> length (balances s) = length (validators s) ->
  zlen (el_pending_deposits s) < MAX_PENDING_DEPOSITS_LIMIT ->
  queue_entire_balance s i =
  Ok (queued s [i] (<[Z.to_nat i := 0]> (balances s)) (<[Z.to_nat i := queued_again v]> (validators s))).
Proof.
  intros Hi Hv Hl Hp. pose proof (lookup_lt_Some _ _ _ Hv) as Hlt. unfold queue_entire_balance.
  rewrite set_in_range by (unfold zlen; lia). cbn [map_err mbind result_bind].
  change (validators (el_with_base s _)) with (validators s). rewrite Hv. cbn [ok_or mbind result_bind].
  rewrite set_in_range by (unfold zlen; lia). cbn [map_err mbind result_bind].
  unfold el_push_pending_deposit, list_with_push. cbn [el_with_base el_with_deneb el_pending_deposits].
  destruct (Z.leb_spec MAX_PENDING_DEPOSITS_LIMIT (zlen (el_pending_deposits s))); [lia|].
  cbn [map_err mbind result_bind]. unfold queued, deposit_of. cbn. by rewrite Hv.
Qed.

Lemma queue_entire_all l : forall s,
  NoDup l -> Forall (fun i => 0 <= i < num_validators s) l -> length (balances s) = length (validators s) ->
  zlen (el_pending_deposits s) + zlen l <= MAX_PENDING_DEPOSITS_LIMIT ->
  foldM queue_entire_balance l s =
  Ok (queued s l (change_at (fun _ => 0) l (balances s)) (change_at queued_again l (validators s))).
Proof.
  induction l as [|i l IH]; intros s Hd Hl Hb Hp; cbn [foldM].
  { rewrite !change_at_nil. unfold queued. cbn. rewrite app_nil_r. f_equal.
    by destruct s as [[[[] ? ? ? ? ?] ? ? ? ?] ? ? ? ? ? ? ? ? ?]. }
  apply NoDup_cons in Hd as [Hi Hd]. apply Forall_cons in Hl as [Hr Hl]. rewrite zlen_cons in Hp.
  pose proof (zlen_nonneg l). unfold num_validators, zlen in Hr.
  destruct (lookup_lt_is_Some_2 (validators s) (Z.to_nat i)) as [v Hv]; [lia|].
  destruct (lookup_lt_is_Some_2 (balances s) (Z.to_nat i)) as [b Hbv]; [lia|].
  rewrite (queue_entire_step s i v) by (done || lia). cbn [mbind result_bind].
  rewrite IH; [|done|..].
  - rewrite (change_at_cons _ i l (balances s) b), (change_at_cons _ i l (validators s) v) by (done || lia).
    f_equal. unfold queued. cbn. rewrite <- app_assoc. cbn. do 3 f_equal. apply list_fmap_ext.
    intros k j Hj. apply list_elem_of_lookup_2 in Hj.
    assert (Z.to_nat i <> Z.to_nat j) as Hne.
    { eapply Forall_forall in Hl; [|exact Hj]. intros Heq. apply Z2Nat.inj in Heq; [congruence|lia..]. }
    unfold deposit_of. by rewrite !list_lookup_insert_ne.
  - unfold num_validators, zlen in *. cbn. by rewrite length_insert.
  - cbn. by rewrite !length_insert.
  - cbn. rewrite zlen_app. change (zlen [_]) with 1. lia.
Qed.

(** The second loop. *)
Definition capped (b : Z) : Z := Z.min b MIN_ACTIVATION_BALANCE.
Definition excess_entry vs (bs : list Z) (i : Z) : option PendingDeposit :=
  let b := default 0 (bs !! Z.to_nat i) in
  if MIN_ACTIVATION_BALANCE <? b then Some (deposit_of vs i (b - MIN_ACTIVATION_BALANCE)) else None.
Definition excess_queued s (l : list Z) (bs : list Z) : ElectraState :=
  el_with_pending_deposits (el_with_base s (with_balances s bs))
    (el_pending_deposits s ++ omap (excess_entry (validators s) (balances s)) l).

Lemma queue_excess_step s i b :
  0 <= i < num_validators s -> balances s !! Z.to_nat i = Some b ->
  zlen (el_pending_deposits s) < MAX_PENDING_DEPOSITS_LIMIT ->
  queue_excess_active_balance_electra s i = Ok (excess_queued s [i] (<[Z.to_nat i := capped b]> (balances s))).
Proof.
  intros Hi Hb Hp. pose proof (lookup_lt_Some _ _ _ Hb) as Hlt. unfold num_validators, zlen in Hi.
  destruct (lookup_lt_is_Some_2 (validators s) (Z.to_nat i)) as [v Hv]; [lia|].
  unfold queue_excess_active_balance_electra, excess_queued, excess_entry, capped. cbn [omap list_omap].
  rewrite Hb. change (default 0 (Some b)) with b. destruct (Z.ltb_spec MIN_ACTIVATION_BALANCE b).
  - rewrite set_in_range by (unfold zlen; lia). cbn [map_err mbind result_bind].
    change (validators (el_with_base s _)) with (validators s). rewrite Hv. cbn [ok_or mbind result_bind].
    unfold el_push_pending_deposit, list_with_push. cbn [el_with_base el_with_deneb el_pending_deposits].
    destruct (Z.leb_spec MAX_PENDING_DEPOSITS_LIMIT (zlen (el_pending_deposits s))); [lia|].
    cbn [map_err mbind result_bind]. unfold deposit_of. rewrite Hv, Z.min_r by lia. done.
  - rewrite Z.min_l, list_insert_id, app_nil_r by (done || lia).
    by destruct s as [[[[] ? ? ? ? ?] ? ? ? ?] ? ? ? ? ? ? ? ? ?].
Qed.

Lemma queue_excess_all l : forall s,
  NoDup l -> Forall (fun i => 0 <= i < num_validators s) l -> length (balances s) = length (validators s) ->
  zlen (el_pending_deposits s) + zlen l <= MAX_PENDING_DEPOSITS_LIMIT ->
  foldM queue_excess_active_balance_electra l s = Ok (excess_queued s l (change_at capped l (balances s))).
Proof.
  induction l as [|i l IH]; intros s Hd Hl Hb Hp; cbn [foldM].
  { rewrite change_at_nil. unfold excess_queued. cbn. rewrite app_nil_r. f_equal.
    by destruct s as [[[[] ? ? ? ? ?] ? ? ? ?] ? ? ? ? ? ? ? ? ?]. }
  apply NoDup_cons in Hd as [Hi Hd]. apply Forall_cons in Hl as [Hr Hl]. rewrite zlen_cons in Hp.
  pose proof (zlen_nonneg l).
  destruct (lookup_lt_is_Some_2 (balances s) (Z.to_nat i)) as [b Hbv]; [unfold num_validators, zlen in Hr; lia|].
  rewrite (queue_excess_step s i b) by (done || lia). cbn [mbind result_bind]. rewrite IH; [|done|..].
  - rewrite (change_at_cons _ i l (balances s) b) by (done || lia). f_equal. unfold excess_queued. cbn [validators balances
      with_balances el_with_pending_deposits el_with_base el_with_deneb de_with_altair al_with_base el_deneb de_altair al_base el_pending_deposits].
    change (i :: l) with ([i] ++ l). rewrite omap_app, app_assoc. do 2 f_equal. apply list_omap_ext, Forall_Forall2_diag.
    eapply Forall_impl; [apply Forall_forall; intros j Hj; exact Hj|]. cbn. intros j Hj.
    assert (Z.to_nat i <> Z.to_nat j) as Hne.
    { eapply Forall_forall in Hl; [|exact Hj]. intros Heq. apply Z2Nat.inj in Heq; [congruence|lia..]. }
    unfold excess_entry. by rewrite !list_lookup_insert_ne.
  - exact Hl.
  - cbn. by rewrite length_insert.
  - assert (zlen (omap (excess_entry (validators s) (balances s)) [i]) <= 1).
    { cbn. by destruct (excess_entry _ _ i). }
    cbn -[omap]. rewrite zlen_app. lia.
Qed.

(** The indices the loops walk over. *)
Lemma elem_of_pre_activation vs i :
  i ∈ pre_activation vs <->
  0 <= i /\ exists v, vs !! Z.to_nat i = Some v /\ v_activation_epoch v = FAR_FUTURE_EPOCH.
Proof.
  unfold pre_activation. rewrite list_elem_of_fmap. setoid_rewrite merge_sort_Permutation.
  pose proof (elem_of_selected (fun v => v_activation_epoch v =? FAR_FUTURE_EPOCH) v_activation_eligibility_epoch vs) as Hsel.
  split.
  - intros ([j e] & -> & (Hj & v & Hv & Hf%Z.eqb_eq & _)%Hsel). eauto.
  - intros (Hi & v & Hv & Hf). exists (i, v_activation_eligibility_epoch v). split; [done|].
    apply Hsel. split; [done|]. exists v. split_and!; [done|by apply Z.eqb_eq|done].
Qed.

Lemma pre_activation_NoDup vs : NoDup (pre_activation vs).
Proof.
  unfold pre_activation. rewrite merge_sort_Permutation.
  rewrite (selected_keys (fun v => v_activation_epoch v =? FAR_FUTURE_EPOCH) v_activation_eligibility_epoch).
  apply (NoDup_omap_enumerate_from (fun v => v_activation_epoch v =? FAR_FUTURE_EPOCH)).
Qed.

Lemma elem_of_compounding vs i :
  i ∈ compounding_indices vs <->
  0 <= i /\ exists v, vs !! Z.to_nat i = Some v /\ has_compounding_withdrawal_credential v = true.
Proof.
  unfold compounding_indices. rewrite list_elem_of_omap. split.
  - intros ([j v] & (Hj & Hv)%elem_of_enumerate & Hb). destruct (has_compounding_withdrawal_credential v) eqn:HP; simplify_eq. eauto.
  - intros (Hi & v & Hv & HP). exists (i, v). rewrite elem_of_enumerate, HP. done.
Qed.
Lemma compounding_NoDup vs : NoDup (compounding_indices vs).
Proof. apply (NoDup_omap_enumerate_from has_compounding_withdrawal_credential). Qed.

Lemma in_registry_range vs i v : 0 <= i -> vs !! Z.to_nat i = Some v -> 0 <= i < zlen vs.
Proof. intros Hi Hv%lookup_lt_Some. unfold zlen. lia. Qed.
Lemma pre_activation_range vs : Forall (fun i => 0 <= i < zlen vs) (pre_activation vs).
Proof. apply Forall_forall. intros i (Hi & v & Hv & _)%elem_of_pre_activation. by eapply in_registry_range. Qed.
Lemma compounding_range vs : Forall (fun i => 0 <= i < zlen vs) (compounding_indices vs).
Proof. apply Forall_forall. intros i (Hi & v & Hv & _)%elem_of_compounding. by eapply in_registry_range. Qed.

Lemma NoDup_range_length (l : list Z) n : NoDup l -> Forall (fun i => 0 <= i < n) l -> zlen l <= Z.max 0 n.
Proof.
  intros Hd Hl. assert (l ⊆+ seqZ 0 n) as Hs%submseteq_length.
  { apply NoDup_submseteq; [done|]. intros i Hi. eapply Forall_forall in Hl; [|exact Hi]. apply elem_of_seqZ. lia. }
  rewrite length_seqZ in Hs. unfold zlen. lia.
Qed.

(** Queueing a validator again keeps its credentials. *)
Lemma deposit_of_again l vs i amount : deposit_of (change_at queued_again l vs) i amount = deposit_of vs i amount.
Proof.
  unfold deposit_of. rewrite change_at_lookup. destruct (vs !! Z.to_nat i) as [v|]; [|done]. cbn. by case_decide.
Qed.
Lemma excess_again l vs bs (k : list Z) :
  omap (excess_entry (change_at queued_again l vs) bs) k = omap (excess_entry vs bs) k.
Proof.
  induction k as [|i k IH]; [done|]. cbn. rewrite IH. unfold excess_entry. by rewrite deposit_of_again.
Qed.
Lemma compounding_again l vs : compounding_indices (change_at queued_again l vs) = compounding_indices vs.
Proof.
  unfold compounding_indices, enumerate, change_at. generalize 0.
  set (f := fun (i : nat) (x : Validator) => if decide (Z.of_nat i ∈ l) then queued_again x else x).
  assert (forall i x, has_compounding_withdrawal_credential (f i x) = has_compounding_withdrawal_credential x) as Hf.
  { intros i x. unfold f. by case_decide. }
  clearbody f. revert f Hf. induction vs as [|v vs IH]; intros f Hf k; [done|]. cbn. rewrite Hf.
  destruct (has_compounding_withdrawal_credential v); cbn; [f_equal|]; apply IH; intros; apply Hf.
Qed.

(** The exits already scheduled come before the first new one. *)
Lemma latest_exit_spec epoch vs :
  let e := latest_exit_epoch epoch vs in
  compute_activation_exit_epoch epoch MAX_SEED_LOOKAHEAD <= e /\
  (forall i v, vs !! i = Some v -> v_exit_epoch v <> FAR_FUTURE_EPOCH -> v_exit_epoch v <= e) /\
  (Forall (fun v => u64 (v_exit_epoch v)) vs -> compute_activation_exit_epoch epoch MAX_SEED_LOOKAHEAD < u64_max -> e < u64_max).
Proof.
  unfold latest_exit_epoch. generalize (compute_activation_exit_epoch epoch MAX_SEED_LOOKAHEAD).
  induction vs as [|v vs IH]; intros e0; cbn [foldl]; cbv zeta.
  { split_and!; [done|by intros ? ? ?|done]. }
  set (e1 := if negb (v_exit_epoch v =? FAR_FUTURE_EPOCH) && (e0 <? v_exit_epoch v) then v_exit_epoch v else e0). destruct (IH e1) as (H1 & H2 & H3).
  assert (e0 <= e1 /\ (v_exit_epoch v <> FAR_FUTURE_EPOCH -> v_exit_epoch v <= e1) /\
    (u64 (v_exit_epoch v) -> e0 < u64_max -> e1 < u64_max)) as (K1 & K2 & K3).
  { unfold e1. destruct (Z.eqb_spec (v_exit_epoch v) FAR_FUTURE_EPOCH); cbn [negb andb]; [split_and!; done|].
    destruct (Z.ltb_spec e0 (v_exit_epoch v)); split_and!; try (intros; lia).
    intros [_ Hu] _. unfold FAR_FUTURE_EPOCH, u64_max, U64 in *. lia. }
  split_and!; [lia| |].
  - intros [|i] w Hw Hf; cbn in Hw; [simplify_eq; etransitivity; [by apply K2|done]|by eapply H2].
  - intros [Hv Hvs]%Forall_cons Hu. auto.
Qed.

(** ** The upgraded state *)
Record deneb_ok (s : DenebState) : Prop := {
  dk_altair : altair_ok MAX_EFFECTIVE_BALANCE_ELECTRA s;
  dk_withdrawal_index : u64 (de_next_withdrawal_index s);
  dk_withdrawal_validator_index : u64 (de_next_withdrawal_validator_index s);
  dk_summaries : zlen (de_historical_summaries s) <= HISTORICAL_ROOTS_LIMIT;
}.

(** The balances once the validators that wait for activation are emptied. *)
Definition emptied (pre : DenebState) : list Z := change_at (fun _ => 0) (pre_activation (validators pre)) (balances pre).
(** The queue: entire balances first, then the excess of compounding validators. *)
Definition first_queue (pre : DenebState) : list PendingDeposit :=
  ((fun i => deposit_of (validators pre) i (default 0 (balances pre !! Z.to_nat i))) <$> pre_activation (validators pre)) ++
  omap (excess_entry (validators pre) (emptied pre)) (compounding_indices (validators pre)).

Definition upgraded_base (pre : DenebState) (version : bytes) : BeaconState :=
  with_balances (with_validators (with_fork pre (next_fork pre version))
    (change_at queued_again (pre_activation (validators pre)) (validators pre)))
    (change_at capped (compounding_indices (validators pre)) (emptied pre)).
Definition before_queue (pre : DenebState) (version : bytes) : ElectraState :=
  mkElectraState (de_with_altair pre (al_with_base pre (with_fork pre (next_fork pre version))))
    UNSET_DEPOSIT_REQUESTS_START_INDEX 0 0
    (wadd (latest_exit_epoch (get_current_epoch pre) (validators pre)) 1) 0
    (compute_activation_exit_epoch (get_current_epoch pre) MAX_SEED_LOOKAHEAD) [] [] [].
Definition upgraded (pre : DenebState) (version : bytes) : ElectraState :=
  mkElectraState (de_with_altair pre (al_with_base pre (upgraded_base pre version)))
    UNSET_DEPOSIT_REQUESTS_START_INDEX 0 (get_activation_exit_churn_limit_electra (before_queue pre version))
    (wadd (latest_exit_epoch (get_current_epoch pre) (validators pre)) 1)
    (get_consolidation_churn_limit_electra (before_queue pre version))
    (compute_activation_exit_epoch (get_current_epoch pre) MAX_SEED_LOOKAHEAD) (first_queue pre) [] [].

Lemma upgrade_electra_Ok pre version :
  deneb_ok pre -> 2 * num_validators pre <= MAX_PENDING_DEPOSITS_LIMIT ->
  upgrade_to_electra pre version = Ok (upgraded pre version).
Proof.
  intros Hok Hn. pose proof (ao_base _ _ (dk_altair pre Hok)) as Hb. pose proof (bo_balances_length _ _ Hb) as Hl.
  assert (0 <= num_validators pre) by (unfold num_validators, zlen; lia).
  pose proof (NoDup_range_length _ _ (pre_activation_NoDup _) (pre_activation_range (validators pre))) as Hz1.
  pose proof (NoDup_range_length _ _ (compounding_NoDup _) (compounding_range (validators pre))) as Hz2.
  change (zlen (validators pre)) with (num_validators pre) in Hz1, Hz2.
  unfold upgrade_to_electra. cbv zeta.
  rewrite queue_entire_all; [cbn [mbind result_bind]|apply pre_activation_NoDup|apply pre_activation_range|exact Hl|change (0 + zlen (pre_activation (validators pre)) <= MAX_PENDING_DEPOSITS_LIMIT); lia].
  change (validators (el_deneb (queued _ _ _ ?vs))) with vs. rewrite compounding_again.
  change (validators (el_with_consolidation_balance_to_consume _ _)) with (validators pre).
  change (balances (el_with_consolidation_balance_to_consume _ _)) with (balances pre).
  rewrite queue_excess_all.
  - f_equal. unfold upgraded, first_queue. rewrite <- (excess_again (pre_activation (validators pre))). reflexivity.
  - apply compounding_NoDup.
  - unfold num_validators. change (validators (queued _ _ _ ?vs)) with vs. unfold zlen. rewrite change_at_length. apply compounding_range.
  - change (validators (queued _ _ _ ?vs)) with vs. change (balances (queued _ _ ?bs _)) with bs. by rewrite !change_at_length.
  - change (el_pending_deposits (queued _ _ _ _)) with ((fun i => deposit_of (validators pre) i (default 0 (balances pre !! Z.to_nat i)))
      <$> pre_activation (validators pre)). rewrite zlen_fmap. lia.
Qed.

Lemma first_queue_total (pre : DenebState) :
  length (balances pre) = length (validators pre) ->
  zsum (change_at capped (compounding_indices (validators pre)) (emptied pre)) + zsum (pd_amount <$> first_queue pre) =
  zsum (balances pre).
Proof.
  intros Hl. unfold first_queue. rewrite fmap_app, zsum_app, <- list_fmap_compose.
  assert (zlen (balances pre) = zlen (validators pre)) as Hz by (unfold zlen; by rewrite Hl).
  pose proof (change_at_total (fun _ => 0) _ (balances pre) (pre_activation_NoDup (validators pre))) as H1.
  pose proof (change_at_total capped _ (emptied pre) (compounding_NoDup (validators pre))) as H2.
  fold (emptied pre) in H1.
  assert (zlen (emptied pre) = zlen (validators pre)) as Hz'.
  { unfold zlen, emptied. by rewrite change_at_length, Hl. }
  rewrite Hz in H1. rewrite Hz' in H2. specialize (H1 (pre_activation_range _)). specialize (H2 (compounding_range _)).
  assert (forall bs (l : list Z), zsum (pd_amount <$> omap (excess_entry (validators pre) bs) l) =
    zsum ((fun i => default 0 (bs !! Z.to_nat i) - capped (default 0 (bs !! Z.to_nat i))) <$> l)) as He.
  { intros bs l. induction l as [|i l IH]; [done|]. cbn [omap list_omap]. rewrite fmap_cons, zsum_cons.
    unfold excess_entry at 1, capped at 1. set (b := default 0 (bs !! Z.to_nat i)).
    destruct (Z.ltb_spec MIN_ACTIVATION_BALANCE b); [rewrite fmap_cons, zsum_cons; cbn [pd_amount deposit_of]|];
      rewrite IH; lia. }
  rewrite He. rewrite <- H1, <- H2.
  rewrite (list_fmap_ext (fun i => default 0 (balances pre !! Z.to_nat i) - 0) (fun i => default 0 (balances pre !! Z.to_nat i)))
    by (intros; lia). 
  unfold compose. cbn [pd_amount deposit_of]. lia.
Qed.

Lemma first_queue_ok pre : deneb_ok pre -> Forall pending_deposit_ok (first_queue pre).
Proof.
  intros Hok. pose proof (ao_base _ _ (dk_altair pre Hok)) as Hb.
  assert (forall bs i, Forall u64 bs -> u64 (default 0 (bs !! i))) as Hu.
  { intros bs i Hbs. destruct (bs !! i) as [b|] eqn:Hi; [exact (Forall_lookup_1 _ _ _ _ Hbs Hi)|by split]. }
  assert (Forall u64 (emptied pre)) as He.
  { apply Forall_lookup. intros i b. unfold emptied. rewrite change_at_lookup.
    destruct (balances pre !! i) as [b0|] eqn:Hi; [|done]. cbn. intros [= <-].
    case_decide; [by split|]. exact (Forall_lookup_1 _ _ _ _ (bo_balances _ _ Hb) Hi). }
  unfold first_queue. apply Forall_app. split.
  - apply Forall_fmap, Forall_forall. intros i _. split; cbn; [apply Hu, Hb|by split].
  - apply Forall_forall. intros d (i & _ & Hd)%list_elem_of_omap. unfold excess_entry in Hd.
    destruct (Z.ltb_spec MIN_ACTIVATION_BALANCE (default 0 (emptied pre !! Z.to_nat i))); [|done].
    injection Hd as <-. pose proof (Hu _ (Z.to_nat i) He) as [Hb1 Hb2]. pose proof activation_balance. pose proof increment_pos.
    split; cbn; [split; lia|by split].
Qed.

Lemma upgraded_ok pre version :
  deneb_ok pre -> 2 * num_validators pre <= MAX_PENDING_DEPOSITS_LIMIT -> electra_ok (upgraded pre version).
Proof.
  intros Hok Hn. destruct (dk_altair pre Hok) as [Hb]. pose proof Hb as Hb'. destruct Hb'.
  pose proof increment_pos. pose proof activation_balance. pose proof electra_balance_bound.
  assert (base_ok MAX_EFFECTIVE_BALANCE_ELECTRA (upgraded_base pre version)) as Hbase.
  { constructor; cbn; try done.
    - unfold zlen. by rewrite change_at_length.
    - unfold emptied. by rewrite !change_at_length.
    - apply Forall_lookup. intros i v. rewrite change_at_lookup. destruct (validators pre !! i) as [v0|] eqn:Hv; [|done].
      cbn. intros [= <-]. pose proof (Forall_lookup_1 _ _ _ _ bo_validators Hv) as Hw. case_decide; [|done].
      destruct Hw. split; cbn; first [done|lia|by rewrite Z.mod_0_l by lia].
    - apply Forall_lookup. intros i b. rewrite change_at_lookup. unfold emptied. rewrite change_at_lookup.
      destruct (balances pre !! i) as [b0|] eqn:Hbi; [|done]. cbn. intros [= <-].
      pose proof (Forall_lookup_1 _ _ _ _ bo_balances Hbi) as [? ?]. unfold capped, u64, U64 in *.
      repeat case_decide; lia. }
  pose proof (first_queue_ok pre Hok). pose proof (exit_churn_bounds (before_queue pre version)).
  pose proof (consolidation_churn_bounds (before_queue pre version)). pose proof pending_limits as (? & ? & ?).
  destruct Hok as [Ha]. constructor; cbn; try done.
  - apply altair_ok_base; [exact Ha|exact Hbase|]. cbn. apply change_at_length.
  - split; unfold U64 in *; lia.
  - apply wadd_u64.
  - apply wadd_u64.
  - unfold first_queue. rewrite zlen_app, zlen_fmap.
    pose proof (NoDup_range_length _ _ (pre_activation_NoDup _) (pre_activation_range (validators pre))) as Hz1.
    pose proof (NoDup_range_length _ _ (compounding_NoDup _) (compounding_range (validators pre))) as Hz2.
    assert (zlen (omap (excess_entry (validators pre) (emptied pre)) (compounding_indices (validators pre))) <=
      zlen (compounding_indices (validators pre))).
    { generalize (compounding_indices (validators pre)). intros l. induction l as [|i l IH]; [done|]. cbn.
      destruct (excess_entry _ _ i); rewrite ?zlen_cons; lia. }
    unfold num_validators in Hn. pose proof (zlen_nonneg (validators pre)). lia.
  - change (zlen []) with 0. lia.
  - change (zlen []) with 0. lia.
Qed.

(** The epoch a validator became eligible. *)
Definition eligibility_of vs (i : Z) : Z := default 0 (v_activation_eligibility_epoch <$> vs !! Z.to_nat i).

#[local] Existing Instance queue_le_trans.
#[local] Existing Instance queue_le_total.
Lemma pre_activation_sorted vs :
  StronglySorted (fun i j => queue_le (i, eligibility_of vs i) (j, eligibility_of vs j)) (pre_activation vs).
Proof.
  unfold pre_activation. set (l := omap _ _).
  assert (Forall (fun p => p.2 = eligibility_of vs p.1) (merge_sort queue_le l)) as Hl.
  { rewrite merge_sort_Permutation. apply Forall_forall. intros [i e] Hi.
    apply (elem_of_selected (fun v => v_activation_epoch v =? FAR_FUTURE_EPOCH) v_activation_eligibility_epoch) in Hi
      as (_ & v & Hv & _ & ->). unfold eligibility_of. cbn. by rewrite Hv. }
  pose proof (StronglySorted_merge_sort queue_le l) as Hs. induction Hs as [|p q Hs IH Hq]; [constructor|].
  apply Forall_cons in Hl as [Hp Hl]. cbn. constructor; [by apply IH|]. apply Forall_fmap.
  apply Forall_forall. intros r Hr. eapply Forall_forall in Hq, Hl; [|exact Hr..]. cbn.
  destruct p, r. cbn in *. by subst.
Qed.

Lemma latest_exit_bound pre i v :
  deneb_ok pre -> validators pre !! i = Some v -> v_exit_epoch v <> FAR_FUTURE_EPOCH ->
  v_exit_epoch v < el_earliest_exit_epoch (upgraded pre []).
Proof.
  intros Hok Hv Hf. pose proof (ao_base _ _ (dk_altair pre Hok)) as Hb.
  pose proof (epoch_at_range pre (bo_slot _ _ Hb)). pose proof seed_lookahead.
  destruct (latest_exit_spec (get_current_epoch pre) (validators pre)) as (H1 & H2 & H3). cbn.
  assert (compute_activation_exit_epoch (get_current_epoch pre) MAX_SEED_LOOKAHEAD = get_current_epoch pre + 1 + MAX_SEED_LOOKAHEAD) as He.
  { unfold compute_activation_exit_epoch. rewrite (wadd_small (get_current_epoch pre) 1) by (unfold U64; lia).
    by rewrite wadd_small by (unfold U64; lia). }
  rewrite He in H1, H3. pose proof (H2 i v Hv Hf).
  assert (Forall (fun v => u64 (v_exit_epoch v)) (validators pre)) as Hu.
  { eapply Forall_impl; [apply (bo_validators _ _ Hb)|]. intros w Hw. apply Hw. }
  specialize (H3 Hu). rewrite wadd_small; unfold u64_max, U64 in *; lia.
Qed.
End electra.

(** ** The theorem *)

(** The upgrade to Electra of a well-formed state of Deneb succeeds, keeps the
    state well formed and loses no balance: what leaves the balances is the total of
    the queue.  The queue holds first the entire balance of every validator still
    waiting for activation, by eligibility epoch and index, then what each compounding
    validator has above [MIN_ACTIVATION_BALANCE].  A waiting validator is left with
    nothing and has to become eligible again; every other validator is untouched and
    keeps its balance, capped if it is compounding.  Every exit already scheduled comes
    before the first the exit queue will give out. *)
Theorem electra_upgrade_exact `{Sp : BeaconSpec} `{Fs : ForkSpec} `{!SpecOk Sp} `{!ForkSpecOk Sp Fs}
    (pre : DenebState) version :
  deneb_ok pre -> 2 * num_validators pre <= MAX_PENDING_DEPOSITS_LIMIT ->
  exists post, upgrade_to_electra pre version = Ok post /\ electra_ok post /\
    fork post = mkFork (fork_current_version (fork pre)) version (get_current_epoch pre) /\
    zsum (balances post) + zsum (pd_amount <$> el_pending_deposits post) = zsum (balances pre) /\
    el_pending_deposits post =
      ((fun i => deposit_of (validators pre) i (default 0 (balances pre !! Z.to_nat i))) <$> pre_activation (validators pre)) ++
      omap (excess_entry (validators pre) (emptied pre)) (compounding_indices (validators pre)) /\
    StronglySorted (fun i j => queue_le (i, eligibility_of (validators pre) i) (j, eligibility_of (validators pre) j))
      (pre_activation (validators pre)) /\
    (forall i v b, validators pre !! i = Some v -> balances pre !! i = Some b ->
       if decide (v_activation_epoch v = FAR_FUTURE_EPOCH)
       then validators post !! i = Some (queued_again v) /\ balances post !! i = Some 0
       else validators post !! i = Some v /\
            balances post !! i = Some (if has_compounding_withdrawal_credential v then capped b else b)) /\
    (forall i v, validators pre !! i = Some v -> v_exit_epoch v <> FAR_FUTURE_EPOCH ->
       v_exit_epoch v < el_earliest_exit_epoch post).
Proof.
  intros Hok Hn. pose proof (ao_base _ _ (dk_altair pre Hok)) as Hb.
  exists (upgraded pre version). split; [by apply upgrade_electra_Ok|]. split; [by apply upgraded_ok|].
  split; [done|]. split; [apply first_queue_total, Hb|]. split; [done|]. split; [apply pre_activation_sorted|].
  split; [|intros i v Hv Hf; by eapply latest_exit_bound].
  intros i v b Hv Hbi. cbn. rewrite !change_at_lookup. unfold emptied. rewrite change_at_lookup, Hv, Hbi. cbn.
  assert (Z.of_nat i ∈ pre_activation (validators pre) <-> v_activation_epoch v = FAR_FUTURE_EPOCH) as Hpre.
  { rewrite elem_of_pre_activation, Nat2Z.id, Hv. split; [intros (_ & w & [= <-] & ?); done|]. intros. split; [lia|eauto]. }
  assert (Z.of_nat i ∈ compounding_indices (validators pre) <-> has_compounding_withdrawal_credential v = true) as Hcomp.
  { rewrite elem_of_compounding, Nat2Z.id, Hv. split; [intros (_ & w & [= <-] & ?); done|]. intros. split; [lia|eauto]. }
  destruct (decide (v_activation_epoch v = FAR_FUTURE_EPOCH)) as [Hf|Hf].
  - rewrite !(decide_True _ _ (proj2 Hpre Hf)). split; [done|]. f_equal. pose proof activation_balance. pose proof increment_pos.
    unfold capped. case_decide; lia.
  - rewrite !(decide_False _ _ (fun H => Hf (proj1 Hpre H))). split; [done|]. f_equal.
    destruct (has_compounding_withdrawal_credential v); [by rewrite decide_True by (by apply Hcomp)|].
    rewrite decide_False; [done|]. by intros ?%Hcomp.
Qed.

(** A compounding validator with an excess, one that leaves and one that waits. *)
Definition ex_waiting : Validator :=
  mkValidator (to_le_bytes 48 2) (Byte.x01 :: replicate 11 Byte.x00 ++ replicate 20 Byte.xaa) 32000000000 false 1
    FAR_FUTURE_EPOCH FAR_FUTURE_EPOCH FAR_FUTURE_EPOCH.
Definition ex_deneb : DenebState :=
  mkDenebState (ex_altair 16 [ex_member 0 Byte.x02 32 u64_max u64_max; ex_member 1 Byte.x01 32 9 300; ex_waiting]
    [40000000000; 32000000000; 32000000000]) ex_payload_header 5 0 [].

Lemma electra_upgrade_exact_witness :
  exists post, @upgrade_to_electra minimal minimal_forks ex_deneb [Byte.x05; Byte.x00; Byte.x00; Byte.x01] = Ok post /\
    @electra_ok minimal minimal_forks post /\
    zsum (balances post) + zsum (pd_amount <$> el_pending_deposits post) = 104000000000 /\
    pd_amount <$> el_pending_deposits post = [32000000000; 8000000000].
Proof.
  destruct (@electra_upgrade_exact minimal minimal_forks _ _ ex_deneb [Byte.x05; Byte.x00; Byte.x00; Byte.x01])
    as (post & Hpost & Hok & _ & Hsum & Hq & _).
  - split; [|by vm_compute..]. apply ex_altair_ok; ex_ranges.
  - by vm_compute.
  - exists post. split; [exact Hpost|]. split; [exact Hok|]. split; [rewrite Hsum|rewrite Hq]; vm_compute; reflexivity.
Defined.

(** ** Altair: from pending attestations to flags *)
Section altair.
  Context `{Crypto} `{Sp : BeaconSpec} `{Fs : ForkSpec} `{Aggregation}.
  Implicit Types a : AltairState.

(** A pending attestation of [a] gives validator [i] the flag [k]. *)
Definition attests a (att : PendingAttestation) (i k : Z) : Prop :=
  exists flags committee attesters,
    get_attestation_participation_flag_indices a (pa_data att) (pa_inclusion_delay att) false = Ok flags /\
    get_beacon_committee_altair a (ad_slot (pa_data att)) (ad_index (pa_data att)) = Ok committee /\
    picked_by (E:=StateTransitionError) (bl_bit (pa_aggregation_bits att)) committee = Ok attesters /\
    i ∈ attesters /\ k ∈ flags.

(** None of this reads more than the registry, the roots and the checkpoints. *)
Lemma attests_base a a' att i k : al_base a = al_base a' -> attests a att i k <-> attests a' att i k.
Proof. destruct a, a'. cbn. intros <-. done. Qed.
Lemma next_sync_committee_base a a' :
  al_base a = al_base a' -> get_next_sync_committee a = get_next_sync_committee a'.
Proof. destruct a, a'. cbn. intros <-. reflexivity. Qed.

Lemma flag_indices_range a data delay late flags :
  get_attestation_participation_flag_indices a data delay late = Ok flags -> Forall (fun k => 0 <= k < 3) flags.
Proof.
  intros (target & _ & (head & _ & Hf)%bind_Ok_inv)%bind_Ok_inv. cbv zeta in Hf. destruct (negb _); [done|].
  apply bind_Ok_inv in Hf as (q & _ & Heq). injection Heq as <-. rewrite !Forall_app.
  split_and!; case_match; repeat constructor; done.
Qed.

Lemma joined_flags flags f :
  Forall (fun k => 0 <= k < 3) flags -> flags_joined flags f (foldl add_flag f flags) /\ (flags_ok f -> flags_ok (foldl add_flag f flags)).
Proof.
  intros Hk. revert f. induction Hk as [|k flags Hk Hf IH]; intros f; cbn.
  { split; [|done]. intros j _. by rewrite bool_decide_false, orb_false_r by set_solver. }
  destruct (IH (add_flag f k)) as [Hj Hok]. split; [|intros; apply Hok, add_flag_ok; [lia|done]].
  intros j Hj0. rewrite (Hj j Hj0), has_flag_add by lia. destruct (Z.eqb_spec j k) as [->|Hne].
  - by rewrite orb_true_r, (bool_decide_true (k ∈ k :: flags)), orb_true_r by left.
  - rewrite orb_false_r. f_equal. apply bool_decide_ext. set_solver.
Qed.

Lemma translate_flags_spec flags a i a' :
  0 <= i -> Forall (fun k => 0 <= k < 3) flags -> translate_flags flags a i = Ok a' ->
  flags_added (fun c j k => c = false /\ j = i /\ k ∈ flags) a a'.
Proof.
  intros Hi Hk. unfold translate_flags. set (f := default 0 _). destruct (joined_flags flags f Hk) as [Hj Hok].
  destruct (Z.eqb_spec (foldl add_flag f flags) f) as [Heq|Hne]; cbn [negb].
  - intros [= <-]. split; try done. intros c j k Hj0 Hk0. split; [tauto|]. intros [?|(-> & -> & Hin)]; [done|].
    unfold flagged, participation. fold f. rewrite <- Heq, (Hj k Hk0), bool_decide_true by done. apply orb_true_r.
  - intros (l & [Hlt ->]%map_err_Ok%list_with_set_Ok & [= <-])%bind_Ok_inv.
    by apply (participation_insert_added a false).
Qed.

Lemma translate_attestation_spec a att a' :
  translate_attestation a att = Ok a' -> flags_added (fun c i k => c = false /\ attests a att i k) a a'.
Proof.
  intros (flags & Hf & (committee & Hc & (l & Hl & Hloop)%bind_Ok_inv)%bind_Ok_inv)%bind_Ok_inv.
  assert (forall i k, attests a att i k <-> i ∈ l /\ k ∈ flags) as Hatt.
  { intros i k. split; [|intros []; by exists flags, committee, l]. intros (f' & c' & l' & E1 & E2 & E3 & ? & ?).
    rewrite Hf in E1. injection E1 as <-. rewrite Hc in E2. injection E2 as <-. rewrite Hl in E3. by injection E3 as <-. }
  pose proof (flag_indices_range _ _ _ _ _ Hf) as Hk.
  assert (Forall (Z.le 0) l) as Hnn.
  { apply Forall_forall. intros x Hx. assert (x ∈ committee) as Hxc.
    { unfold picked_by in Hl. apply bind_Ok_inv in Hl as (p & Hp%mapM_Ok_Forall2 & [= <-]).
      apply list_elem_of_omap in Hx as (o & Ho & Hox). apply list_elem_of_lookup in Ho as [n Hn].
      destruct (Forall2_lookup_r _ _ _ _ _ Hp Hn) as ([j y] & Hj & (b & _ & [= <-])%bind_Ok_inv).
      destruct b; [|done]. cbn in Hox. injection Hox as ->. apply list_elem_of_lookup_2, elem_of_enumerate in Hj as [_ Hj].
      by eapply list_elem_of_lookup_2. }
    eapply Forall_forall in Hxc; [|exact (compute_committee_members _ _ _ _ _ _ Hc)].
    cbn in Hxc. apply list_elem_of_omap in Hxc as ([j v] & [Hj _]%elem_of_enumerate & Hv). case_match; [|done]. by simplify_eq. }
  assert (flags_added (fun c i k => c = false /\ i ∈ l /\ k ∈ flags) a a') as Hadd.
  { clear Hatt Hl Hc Hf. revert a Hloop. induction Hnn as [|i l Hi Hnn IH]; intros a Hloop; cbn in Hloop.
    { injection Hloop as <-. split; try done. intros. set_solver. }
    apply bind_Ok_inv in Hloop as (a1 & H1%translate_flags_spec & H2); [|done..].
    eapply flags_added_trans; [exact H1|by apply IH|]. intros c j k _ _. rewrite elem_of_cons. tauto. }
  destruct Hadd. split; try done. intros c i k Hi Hk0. rewrite fa_flags by done. rewrite Hatt. done.
Qed.

Lemma translate_all_spec atts : forall a a',
  foldM translate_attestation atts a = Ok a' ->
  flags_added (fun c i k => c = false /\ exists att, att ∈ atts /\ attests a att i k) a a'.
Proof.
  induction atts as [|att atts IH]; intros a a'; cbn [foldM].
  { intros [= <-]. split; try done. intros. set_solver. }
  intros (a1 & H1%translate_attestation_spec & H2%IH)%bind_Ok_inv.
  eapply flags_added_trans; [exact H1|exact H2|]. intros c i k _ _.
  setoid_rewrite (attests_base a1 a); [|apply (fa_base _ _ _ H1)]. setoid_rewrite elem_of_cons. split.
  - intros (-> & x & [->|Hx] & Ha); [by left|right; eauto].
  - intros [ [-> Ha]|(-> & x & Hx & Ha)]; [split; [done|]; exists att; eauto|split; [done|]; exists x; eauto].
Qed.

Lemma translate_current atts a a' :
  foldM translate_attestation atts a = Ok a' -> al_current_epoch_participation a' = al_current_epoch_participation a.
Proof.
  intros Hl. eapply (foldM_inv _ (fun x => al_current_epoch_participation x = al_current_epoch_participation a)) in Hl;
    [done| |done].
  intros att b b' _ Hb (flags & _ & (c & _ & (l & _ & Hloop)%bind_Ok_inv)%bind_Ok_inv)%bind_Ok_inv.
  eapply (foldM_inv _ (fun x => al_current_epoch_participation x = al_current_epoch_participation a)) in Hloop; [done| |done].
  intros i x x' _ Hx. unfold translate_flags. case_match; [|by intros [= <-]]. by intros (? & _ & [= <-])%bind_Ok_inv.
Qed.

Lemma zero_list_Ok n l : 0 <= n -> zero_list n = Ok l -> l = replicate (Z.to_nat n) 0.
Proof.
  intros Hn. unfold zero_list. rewrite <- (app_nil_l (replicate _ _)). generalize (@nil Z) as l0.
  replace (Z.to_nat n) with (length (seqZ 0 n)) by apply length_seqZ.
  generalize (seqZ 0 n) as k. intros k. induction k as [|x k IH]; intros l0; cbn [foldM].
  { intros [= <-]. by rewrite app_nil_r. }
  intros (l1 & [_ ->]%map_err_Ok%list_with_push_inv & Hl%IH)%bind_Ok_inv. by rewrite Hl, <- app_assoc.
Qed.
End altair.

(** The upgrade to Altair.  Every field phase 0 and Altair share is kept, under
    the new fork.  Validator [i] gets flag [k] for the previous epoch exactly if one of
    the pending attestations of phase 0 with [i] among its attesters earns [k]; no flag
    is set for the current epoch and every inactivity score is zero.  Both sync
    committees are the one elected on the upgraded state, which is well formed. *)
Theorem altair_upgrade_translates `{Crypto} `{Sp : BeaconSpec} `{Fs : ForkSpec} `{Aggregation} (M : Z)
    (pre : BeaconState) version post :
  base_ok M pre -> upgrade_to_altair pre version = Ok post ->
  al_base post = with_fork pre (next_fork pre version) /\ altair_ok M post /\
  (forall i k, 0 <= i -> 0 <= k < 3 ->
     flagged post false i k = true <-> exists att, att ∈ previous_epoch_attestations pre /\ attests post att i k) /\
  al_current_epoch_participation post = replicate (length (validators pre)) 0 /\
  al_inactivity_scores post = replicate (length (validators pre)) 0 /\
  get_next_sync_committee post = Ok (al_current_sync_committee post) /\
  al_next_sync_committee post = al_current_sync_committee post.
Proof.
  intros Hb. unfold upgrade_to_altair. intros (pp & Hpp & (cp & Hcp & (sc & Hsc & (a1 & Hloop & (c1 & Hc1 & (c2 & Hc2 &
    [= <-])%bind_Ok_inv)%bind_Ok_inv)%bind_Ok_inv)%bind_Ok_inv)%bind_Ok_inv)%bind_Ok_inv.
  assert (0 <= num_validators pre) as Hn by (unfold num_validators, zlen; lia).
  apply zero_list_Ok in Hpp, Hcp, Hsc; [|done..]. unfold num_validators, zlen in Hpp, Hcp, Hsc.
  rewrite Nat2Z.id in Hpp, Hcp, Hsc. subst pp cp sc.
  pose proof (translate_current _ _ _ Hloop) as Hcur. cbn in Hcur. apply translate_all_spec in Hloop as [Hbase Hscores _ _ Hlen Hflags Hok].
  cbn in Hbase, Hscores. pose proof (Hok false) as Hokp. pose proof (Hok true) as Hokc. pose proof (Hlen false) as Hlp.
  pose proof (Hlen true) as Hlc. cbn in Hokp, Hokc, Hlp, Hlc.
  rewrite length_replicate in Hlp, Hlc.
  assert (Forall flags_ok (replicate (length (validators pre)) 0)) as Hz by (by apply Forall_replicate).
  split; [done|]. split.
  - split; cbn; rewrite ?Hbase, ?Hscores, ?length_replicate; try done; [by destruct Hb|auto|auto|].
    apply Forall_replicate. by split.
  - split_and!; try done.
    + intros i k Hi Hk. transitivity (flagged a1 false i k = true); [done|]. rewrite Hflags by done.
      assert (flagged (mkAltairState (with_fork pre (next_fork pre version)) (replicate (length (validators pre)) 0)
        (replicate (length (validators pre)) 0) (replicate (length (validators pre)) 0)
        (mkSyncCommittee (replicate (Z.to_nat SYNC_COMMITTEE_SIZE) default_pubkey) default_pubkey)
        (mkSyncCommittee (replicate (Z.to_nat SYNC_COMMITTEE_SIZE) default_pubkey) default_pubkey)) false i k = false) as Hzero.
      { unfold flagged, participation. cbn.
        assert (default 0 (replicate (length (validators pre)) 0 !! Z.to_nat i) = 0) as ->.
        { destruct (replicate _ _ !! _) eqn:Hr; [by apply lookup_replicate in Hr as [-> _]|done]. }
        by rewrite has_flag_testbit, Z.testbit_0_l by lia. }
      rewrite Hzero. split.
      * intros [?|(_ & att & Hatt & Ha)]; [done|]. exists att. split; [done|]. eapply attests_base; [|exact Ha]. exact Hbase.
      * intros (att & Hatt & Ha). right. split; [done|]. exists att. split; [done|]. eapply attests_base; [|exact Ha]. symmetry. exact Hbase.
    + cbn. erewrite (next_sync_committee_base _ a1) in Hc2 by done. rewrite Hc1 in Hc2. by injection Hc2.
Qed.

(** An epoch with one pending attestation, timely and for the right head. *)
Definition ex_phase0 : BeaconState :=
  with_previous_epoch_attestations
    (ex_base 16 [ex_member 0 Byte.x00 32 u64_max u64_max] [32000000000])
    [mkPendingAttestation (mkBitlist [Byte.x01] 1)
       (mkAttestationData 15 0 (replicate 32 Byte.x07) (mkCheckpoint 0 (replicate 32 Byte.x00))
          (mkCheckpoint 1 (replicate 32 Byte.x07))) 1 0].
Definition ex_altair_version : bytes := [Byte.x01; Byte.x00; Byte.x00; Byte.x01].
Definition ex_upgraded : AltairState :=
  ok_value (ex_altair 0 [] []) (@upgrade_to_altair ex_crypto minimal minimal_forks ex_aggregation ex_phase0 ex_altair_version).

Lemma ex_upgrade_accepted :
  @upgrade_to_altair ex_crypto minimal minimal_forks ex_aggregation ex_phase0 ex_altair_version = Ok ex_upgraded.
Proof. vm_compute. reflexivity. Qed.
Lemma ex_upgraded_flags : al_previous_epoch_participation ex_upgraded = [7].
Proof. vm_compute. reflexivity. Qed.

Lemma altair_upgrade_translates_witness :
  exists post, @upgrade_to_altair ex_crypto minimal minimal_forks ex_aggregation ex_phase0 ex_altair_version = Ok post /\
    @altair_ok minimal 32000000000 post /\ al_previous_epoch_participation post = [7] /\
    fork_current_version (fork post) = ex_altair_version.
Proof.
  exists ex_upgraded. split; [exact ex_upgrade_accepted|].
  destruct (@altair_upgrade_translates ex_crypto minimal minimal_forks ex_aggregation 32000000000 ex_phase0 ex_altair_version ex_upgraded)
    as (Hbase & Hok & _).
  - assert (@base_ok minimal 32000000000 (ex_base 16 [ex_member 0 Byte.x00 32 u64_max u64_max] [32000000000])) as Hb
      by (apply ex_base_ok; ex_ranges).
    destruct Hb. by constructor.
  - exact ex_upgrade_accepted.
  - split; [exact Hok|]. split; [exact ex_upgraded_flags|]. rewrite Hbase. reflexivity.
Defined.
