(* ===== verification/AltairBody.v ===== *)
(** * Altair: blocks and their roots

    The containers [BeaconBlockBody], [BeaconBlock] and [SignedBeaconBlock] of
    pharos-types/src/altair and the hash tree roots of a block and of a state.  A body
    of Altair is one of phase 0 with a sync aggregate. *)

From stdpp Require Import gmap sorting.
From Stdlib Require Import ZArith Lia.
From S2P Require Import Prelude SszCodec SszBitfield SszTypes Merkle SszTree Shuffling Spec BeaconState Invariant Roots Accessors Mutators Forks ForkInvariant Altair AltairOps Electra Withdrawals ElectraQueues ElectraBody.

Record AltairBody : Type := mkAltairBody {
  ab_base :> BeaconBlockBody;
  ab_sync_aggregate : SyncAggregate;
}.

Record AltairBlock : Type := mkAltairBlock {
  abl_slot : Z;
  abl_proposer_index : Z;
  abl_parent_root : bytes;
  abl_state_root : bytes;
  abl_body : AltairBody;
}.

Record SignedAltairBlock : Type := mkSignedAltairBlock {
  sab_message : AltairBlock;
  sab_signature : bytes;
}.

Section roots.
  Context `{Crypto} `{S : BeaconSpec} `{F : ForkSpec}.
  Local Abbreviation root := (result SszError bytes).

Definition altair_body_root (b : AltairBody) : root :=
  derive_tree_hash_root
    [fixed_bytes_root (body_randao_reveal b); eth1_data_root (body_eth1_data b);
     fixed_bytes_root (body_graffiti b);
     list_root MAX_PROPOSER_SLASHINGS proposer_slashing_root (body_proposer_slashings b);
     list_root MAX_ATTESTER_SLASHINGS attester_slashing_root (body_attester_slashings b);
     list_root MAX_ATTESTATIONS attestation_root (body_attestations b);
     list_root MAX_DEPOSITS deposit_root (body_deposits b);
     list_root MAX_VOLUNTARY_EXITS signed_voluntary_exit_root (body_voluntary_exits b);
     sync_aggregate_root (ab_sync_aggregate b)].

Definition altair_block_root (b : AltairBlock) : root :=
  derive_tree_hash_root [u64_root (abl_slot b); u64_root (abl_proposer_index b);
    fixed_bytes_root (abl_parent_root b); fixed_bytes_root (abl_state_root b);
    altair_body_root (abl_body b)].

(** The fields of a state, in order. *)
Definition altair_state_fields (s : AltairState) : list root :=
  [u64_root (genesis_time s); fixed_bytes_root (genesis_validators_root s);
   u64_root (slot s); fork_root (fork s); header_root (latest_block_header s);
   basic_vector_root hash256_tree_hash (block_roots s);
   basic_vector_root hash256_tree_hash (state_roots s);
   basic_list_root hash256_tree_hash HISTORICAL_ROOTS_LIMIT (historical_roots s);
   eth1_data_root (eth1_data s);
   list_root ETH1_DATA_VOTES_LIMIT eth1_data_root (eth1_data_votes s);
   u64_root (eth1_deposit_index s);
   list_root VALIDATOR_REGISTRY_LIMIT validator_root (validators s);
   basic_list_root u64_tree_hash VALIDATOR_REGISTRY_LIMIT (balances s);
   basic_vector_root hash256_tree_hash (randao_mixes s);
   basic_vector_root u64_tree_hash (slashings s);
   basic_list_root u8_tree_hash VALIDATOR_REGISTRY_LIMIT (al_previous_epoch_participation s);
   basic_list_root u8_tree_hash VALIDATOR_REGISTRY_LIMIT (al_current_epoch_participation s);
   bitvector4_root (justification_bits s);
   checkpoint_root (previous_justified_checkpoint s);
   checkpoint_root (current_justified_checkpoint s);
   checkpoint_root (finalized_checkpoint s);
   basic_list_root u64_tree_hash VALIDATOR_REGISTRY_LIMIT (al_inactivity_scores s);
   sync_committee_root (al_current_sync_committee s);
   sync_committee_root (al_next_sync_committee s)].
Definition altair_state_root (s : AltairState) : root := derive_tree_hash_root (altair_state_fields s).
End roots.
