(* ===== verification/LightClient.v ===== *)
(** * The Altair light client

    altair/light_client.rs of pharos-stf: the store of a light client with its
    handlers ([initialize_light_client_store], [process_light_client_update],
    [process_light_client_store_force_update]) and the server that creates the
    bootstraps and updates ([create_light_client_bootstrap],
    [create_light_client_update], [update_light_client_snapshots]).

    Theorem [light_client_safe]: whatever a client is fed, every committee it holds is
    one it was led to from the trusted block by signatures of the committees before,
    and its finalized header only advances. *)

From stdpp Require Import gmap sorting.
From Stdlib Require Import ZArith Lia.
From S2P Require Import Prelude SszCodec SszBitfield SszTypes Merkle SszTree Shuffling Spec BeaconState Invariant Roots Accessors Mutators Operations Transition Genesis Forks ForkInvariant Altair AltairOps Electra ElectraBody ElectraBlock AltairBody.

(** ** Containers *)
Definition FINALIZED_ROOT_GINDEX : Z := 105.
Definition CURRENT_SYNC_COMMITTEE_GINDEX : Z := 54.
Definition NEXT_SYNC_COMMITTEE_GINDEX : Z := 55.
Definition FINALITY_BRANCH_DEPTH : nat := 6.
Definition CURRENT_SYNC_COMMITTEE_BRANCH_DEPTH : nat := 5.
Definition NEXT_SYNC_COMMITTEE_BRANCH_DEPTH : nat := 5.

Record LightClientHeader : Type := mkLightClientHeader { lch_beacon : BeaconBlockHeader }.

Record LightClientBootstrap : Type := mkLightClientBootstrap {
  lcb_header : LightClientHeader;
  lcb_current_sync_committee : SyncCommittee;
  lcb_current_sync_committee_branch : list bytes;
}.

Record LightClientUpdate : Type := mkLightClientUpdate {
  lcu_attested_header : LightClientHeader;
  lcu_next_sync_committee : SyncCommittee;
  lcu_next_sync_committee_branch : list bytes;
  lcu_finalized_header : LightClientHeader;
  lcu_finality_branch : list bytes;
  lcu_sync_aggregate : SyncAggregate;
  lcu_signature_slot : Z;
}.

Record LightClientFinalityUpdate : Type := mkLightClientFinalityUpdate {
  lcf_attested_header : LightClientHeader;
  lcf_finalized_header : LightClientHeader;
  lcf_finality_branch : list bytes;
  lcf_sync_aggregate : SyncAggregate;
  lcf_signature_slot : Z;
}.

Record LightClientOptimisticUpdate : Type := mkLightClientOptimisticUpdate {
  lco_attested_header : LightClientHeader;
  lco_sync_aggregate : SyncAggregate;
  lco_signature_slot : Z;
}.

Record LightClientStore : Type := mkLightClientStore {
  lcs_finalized_header : LightClientHeader;
  lcs_current_sync_committee : SyncCommittee;
  lcs_next_sync_committee : SyncCommittee;
  lcs_best_valid_update : option LightClientUpdate;
  lcs_optimistic_header : LightClientHeader;
  lcs_previous_max_active_participants : Z;
  lcs_current_max_active_participants : Z;
}.

Inductive LightClientError : Type :=
  | TrustedBlockRootMismatch
  | InvalidCurrentSyncCommitteeBranch
  | InsufficientParticipants
  | InvalidSlotOrder
  | SignaturePeriodOutOfRange
  | NotRelevant
  | InvalidFinalityBranch
  | InvalidNextSyncCommitteeBranch
  | NextSyncCommitteeMismatch
  | LightClientInvalidSignature
  | LightClientBls.

#[global] Instance sync_committee_eq_dec : EqDecision SyncCommittee.
Proof. solve_decision. Defined.
#[global] Instance light_client_header_eq_dec : EqDecision LightClientHeader.
Proof. solve_decision. Defined.

(** The fork constants of the preset. *)
Class LightClientSpec : Type := {
  ALTAIR_FORK_EPOCH : Z;
  ALTAIR_FORK_VERSION : bytes;
}.
Definition mainnet_light_client : LightClientSpec :=
  {| ALTAIR_FORK_EPOCH := 74240; ALTAIR_FORK_VERSION := [Byte.x01; Byte.x00; Byte.x00; Byte.x00] |}.
Definition minimal_light_client : LightClientSpec :=
  {| ALTAIR_FORK_EPOCH := 0; ALTAIR_FORK_VERSION := [Byte.x01; Byte.x00; Byte.x00; Byte.x01] |}.

(** [Default::default()] of the containers. *)
Definition default_header : LightClientHeader :=
  mkLightClientHeader (mkBeaconBlockHeader 0 0 zero_chunk zero_chunk zero_chunk).

Section light_client.
  Context `{Crypto} `{Sp : BeaconSpec} `{Fs : ForkSpec} `{Ls : LightClientSpec}.
  Local Abbreviation fallible := (result LightClientError).
  Implicit Types store : LightClientStore.
  Implicit Types update : LightClientUpdate.

Definition default_sync_committee : SyncCommittee :=
  mkSyncCommittee (replicate (Z.to_nat SYNC_COMMITTEE_SIZE) default_pubkey) default_pubkey.

(** ** Generalized indices and branches *)
Definition floorlog2 (n : Z) : Z := Z.log2 n.
Definition get_subtree_index (gindex : Z) : Z := gindex mod 2 ^ floorlog2 gindex.

(** Leading zero hashes normalise a branch of an older state. *)
Definition is_valid_normalized_merkle_branch (leaf : bytes) (branch : list bytes) (gindex : Z)
    (root : bytes) : bool :=
  let depth := floorlog2 gindex in
  let index := get_subtree_index gindex in
  let num_extra := sat_sub (zlen branch) depth in
  if existsb (fun extra => negb (bool_decide (extra = zero_chunk))) (take (Z.to_nat num_extra) branch)
  then false
  else is_valid_merkle_branch leaf (drop (Z.to_nat num_extra) branch) depth index root.

(** ** Participants and periods *)
Definition participant_bits (aggregate : SyncAggregate) : fallible (list bool) :=
  match bv_iter SYNC_COMMITTEE_SIZE (sync_committee_bits aggregate) with Ok l => Ok l | _ => Panic end.
Definition count_participants (aggregate : SyncAggregate) : fallible Z :=
  bits ← participant_bits aggregate; Ok (zlen (filter (fun b => b = true) bits)).

Definition compute_sync_committee_period (epoch : Z) : Z := epoch / EPOCHS_PER_SYNC_COMMITTEE_PERIOD.
Definition compute_sync_committee_period_at_slot (sl : Z) : Z :=
  compute_sync_committee_period (compute_epoch_at_slot sl SLOTS_PER_EPOCH).

(** ** The store *)
Definition is_sync_committee_update update : bool :=
  negb (bool_decide (lcu_next_sync_committee_branch update = replicate 5 zero_chunk)).
Definition is_finality_update update : bool :=
  negb (bool_decide (lcu_finality_branch update = replicate 6 zero_chunk)).
Definition is_next_sync_committee_known store : bool :=
  negb (bool_decide (lcs_next_sync_committee store = default_sync_committee)).
Definition get_safety_threshold store : Z :=
  Z.max (lcs_previous_max_active_participants store) (lcs_current_max_active_participants store) / 2.

Definition slot_of (h : LightClientHeader) : Z := bh_slot (lch_beacon h).

(** The last comparisons of [is_better_update], from the finality of the sync
    committee on. *)
Definition is_better_update_tail new_update old_update (new_n old_n : Z) : bool :=
  if negb (new_n =? old_n) then old_n <? new_n
  else if negb (slot_of (lcu_attested_header new_update) =? slot_of (lcu_attested_header old_update))
  then slot_of (lcu_attested_header new_update) <? slot_of (lcu_attested_header old_update)
  else lcu_signature_slot new_update <? lcu_signature_slot old_update.

Definition update_relevant update : bool :=
  is_sync_committee_update update
  && (compute_sync_committee_period_at_slot (slot_of (lcu_attested_header update))
      =? compute_sync_committee_period_at_slot (lcu_signature_slot update)).
Definition sync_committee_finality update : bool :=
  compute_sync_committee_period_at_slot (slot_of (lcu_finalized_header update))
  =? compute_sync_committee_period_at_slot (slot_of (lcu_attested_header update)).

Definition is_better_update new_update old_update : fallible bool :=
  let max_active := SYNC_COMMITTEE_SIZE in
  new_n ← count_participants (lcu_sync_aggregate new_update);
  old_n ← count_participants (lcu_sync_aggregate old_update);
  let new_super := wmul max_active 2 <=? wmul new_n 3 in
  let old_super := wmul max_active 2 <=? wmul old_n 3 in
  if negb (Bool.eqb new_super old_super) then Ok new_super
  else if negb new_super && negb (new_n =? old_n) then Ok (old_n <? new_n)
  else
    let new_relevant := update_relevant new_update in
    let old_relevant := update_relevant old_update in
    if negb (Bool.eqb new_relevant old_relevant) then Ok new_relevant
    else
      let new_fin := is_finality_update new_update in
      let old_fin := is_finality_update old_update in
      if negb (Bool.eqb new_fin old_fin) then Ok new_fin
      else
        let new_sc_fin := sync_committee_finality new_update in
        let old_sc_fin := sync_committee_finality old_update in
        if new_fin && negb (Bool.eqb new_sc_fin old_sc_fin) then Ok new_sc_fin
        else Ok (is_better_update_tail new_update old_update new_n old_n).

Definition compute_fork_version (epoch : Z) : bytes :=
  if ALTAIR_FORK_EPOCH <=? epoch then ALTAIR_FORK_VERSION else GENESIS_FORK_VERSION.

Definition initialize_light_client_store (trusted_block_root : bytes) (bootstrap : LightClientBootstrap)
    : fallible LightClientStore :=
  header_root ← root_value (header_root (lch_beacon (lcb_header bootstrap)));
  if negb (bool_decide (header_root = trusted_block_root)) then Err TrustedBlockRootMismatch
  else
    committee_root ← root_value (sync_committee_root (lcb_current_sync_committee bootstrap));
    if negb (is_valid_normalized_merkle_branch committee_root
               (lcb_current_sync_committee_branch bootstrap) CURRENT_SYNC_COMMITTEE_GINDEX
               (bh_state_root (lch_beacon (lcb_header bootstrap))))
    then Err InvalidCurrentSyncCommitteeBranch
    else Ok (mkLightClientStore (lcb_header bootstrap) (lcb_current_sync_committee bootstrap)
               default_sync_committee None (lcb_header bootstrap) 0 0).

(** ** Validation *)
Definition check_finality_branch update : fallible unit :=
  if negb (is_finality_update update) then
    if negb (bool_decide (lcu_finalized_header update = default_header)) then Err InvalidFinalityBranch
    else Ok tt
  else
    finalized_root ←
      (if slot_of (lcu_finalized_header update) =? 0 then
         if negb (bool_decide (lcu_finalized_header update = default_header))
         then Err InvalidFinalityBranch else Ok zero_chunk
       else root_value (header_root (lch_beacon (lcu_finalized_header update))));
    if negb (is_valid_normalized_merkle_branch finalized_root (lcu_finality_branch update)
               FINALIZED_ROOT_GINDEX (bh_state_root (lch_beacon (lcu_attested_header update))))
    then Err InvalidFinalityBranch else Ok tt.

Definition check_next_sync_committee store update (update_attested_period store_period : Z) : fallible unit :=
  if negb (is_sync_committee_update update) then
    if negb (bool_decide (lcu_next_sync_committee update = default_sync_committee))
    then Err InvalidNextSyncCommitteeBranch else Ok tt
  else if (update_attested_period =? store_period) && is_next_sync_committee_known store
          && negb (bool_decide (lcu_next_sync_committee update = lcs_next_sync_committee store))
  then Err NextSyncCommitteeMismatch
  else
    nsc_root ← root_value (sync_committee_root (lcu_next_sync_committee update));
    if negb (is_valid_normalized_merkle_branch nsc_root (lcu_next_sync_committee_branch update)
               NEXT_SYNC_COMMITTEE_GINDEX (bh_state_root (lch_beacon (lcu_attested_header update))))
    then Err InvalidNextSyncCommitteeBranch else Ok tt.

(** The keys whose bit is set. *)
Definition participant_pubkeys (bits : list bool) (committee : SyncCommittee) : list bytes :=
  omap (fun '(bit, pk) => if bit : bool then Some pk else None) (zip bits (sc_pubkeys committee)).

Definition check_sync_committee_signature update (sync_committee : SyncCommittee)
    (genesis_validators_root : bytes) : fallible unit :=
  bits ← participant_bits (lcu_sync_aggregate update);
  let fork_version_slot :=
    if 0 <? lcu_signature_slot update then lcu_signature_slot update - 1 else 0 in
  let epoch := compute_epoch_at_slot fork_version_slot SLOTS_PER_EPOCH in
  let fork_version := compute_fork_version epoch in
  domain ← compute_domain DOMAIN_SYNC_COMMITTEE fork_version genesis_validators_root;
  signing_root ← compute_signing_root (header_root (lch_beacon (lcu_attested_header update))) domain;
  match bls_fast_aggregate_verify (participant_pubkeys bits sync_committee) signing_root
          (sync_committee_signature (lcu_sync_aggregate update)) with
  | None => Err LightClientBls
  | Some false => Err LightClientInvalidSignature
  | Some true => Ok tt
  end.

Definition validate_light_client_update store update (current_slot : Z) (genesis_validators_root : bytes)
    : fallible unit :=
  n_participants ← count_participants (lcu_sync_aggregate update);
  if n_participants <? 1 then Err InsufficientParticipants
  else
    let update_attested_slot := slot_of (lcu_attested_header update) in
    let update_finalized_slot := slot_of (lcu_finalized_header update) in
    if negb ((lcu_signature_slot update <=? current_slot)
             && (update_attested_slot <? lcu_signature_slot update)
             && (update_finalized_slot <=? update_attested_slot))
    then Err InvalidSlotOrder
    else
      let store_period := compute_sync_committee_period_at_slot (slot_of (lcs_finalized_header store)) in
      let update_sig_period := compute_sync_committee_period_at_slot (lcu_signature_slot update) in
      let known := is_next_sync_committee_known store in
      if (if known then negb (update_sig_period =? store_period)
                        && negb (update_sig_period =? wadd store_period 1)
          else negb (update_sig_period =? store_period))
      then Err SignaturePeriodOutOfRange
      else
        let update_attested_period := compute_sync_committee_period_at_slot update_attested_slot in
        let update_has_next_sync_committee :=
          negb known && is_sync_committee_update update && (update_attested_period =? store_period) in
        if negb ((slot_of (lcs_finalized_header store) <? update_attested_slot)
                 || update_has_next_sync_committee)
        then Err NotRelevant
        else
          _ ← check_finality_branch update;
          _ ← check_next_sync_committee store update update_attested_period store_period;
          check_sync_committee_signature update
            (if update_sig_period =? store_period then lcs_current_sync_committee store
             else lcs_next_sync_committee store)
            genesis_validators_root.

(** ** Updates of the store *)
Definition apply_light_client_update store update : LightClientStore :=
  let store_period := compute_sync_committee_period_at_slot (slot_of (lcs_finalized_header store)) in
  let update_finalized_period :=
    compute_sync_committee_period_at_slot (slot_of (lcu_finalized_header update)) in
  let store :=
    if negb (is_next_sync_committee_known store) then
      mkLightClientStore (lcs_finalized_header store) (lcs_current_sync_committee store)
        (lcu_next_sync_committee update) (lcs_best_valid_update store) (lcs_optimistic_header store)
        (lcs_previous_max_active_participants store) (lcs_current_max_active_participants store)
    else if update_finalized_period =? wadd store_period 1 then
      mkLightClientStore (lcs_finalized_header store) (lcs_next_sync_committee store)
        (lcu_next_sync_committee update) (lcs_best_valid_update store) (lcs_optimistic_header store)
        (lcs_current_max_active_participants store) 0
    else store in
  if slot_of (lcs_finalized_header store) <? slot_of (lcu_finalized_header update) then
    let optimistic_header :=
      if slot_of (lcs_optimistic_header store) <? slot_of (lcu_finalized_header update)
      then lcu_finalized_header update else lcs_optimistic_header store in
    mkLightClientStore (lcu_finalized_header update) (lcs_current_sync_committee store)
      (lcs_next_sync_committee store) (lcs_best_valid_update store) optimistic_header
      (lcs_previous_max_active_participants store) (lcs_current_max_active_participants store)
  else store.

Definition with_best_valid_update store (best : option LightClientUpdate) : LightClientStore :=
  mkLightClientStore (lcs_finalized_header store) (lcs_current_sync_committee store)
    (lcs_next_sync_committee store) best (lcs_optimistic_header store)
    (lcs_previous_max_active_participants store) (lcs_current_max_active_participants store).
Definition with_finalized_header update (h : LightClientHeader) : LightClientUpdate :=
  mkLightClientUpdate (lcu_attested_header update) (lcu_next_sync_committee update)
    (lcu_next_sync_committee_branch update) h (lcu_finality_branch update)
    (lcu_sync_aggregate update) (lcu_signature_slot update).

Definition process_light_client_store_force_update store (current_slot : Z) : LightClientStore :=
  let update_timeout := wmul SLOTS_PER_EPOCH EPOCHS_PER_SYNC_COMMITTEE_PERIOD in
  match lcs_best_valid_update store with
  | Some best =>
      if wadd (slot_of (lcs_finalized_header store)) update_timeout <? current_slot then
        let store := with_best_valid_update store None in
        let best :=
          if slot_of (lcu_finalized_header best) <=? slot_of (lcs_finalized_header store)
          then with_finalized_header best (lcu_attested_header best) else best in
        apply_light_client_update store best
      else store
  | None => store
  end.

(** The part of [process_light_client_update] before the finalized header. *)
Definition note_update store update (n_participants : Z) : fallible LightClientStore :=
  update_is_better ← match lcs_best_valid_update store with
                     | None => Ok true
                     | Some best => is_better_update update best
                     end;
  let store := if update_is_better : bool then with_best_valid_update store (Some update) else store in
  let current_max := Z.max (lcs_current_max_active_participants store) n_participants in
  let store :=
    mkLightClientStore (lcs_finalized_header store) (lcs_current_sync_committee store)
      (lcs_next_sync_committee store) (lcs_best_valid_update store) (lcs_optimistic_header store)
      (lcs_previous_max_active_participants store) current_max in
  if (get_safety_threshold store <? n_participants)
     && (slot_of (lcs_optimistic_header store) <? slot_of (lcu_attested_header update))
  then
    Ok (mkLightClientStore (lcs_finalized_header store) (lcs_current_sync_committee store)
          (lcs_next_sync_committee store) (lcs_best_valid_update store) (lcu_attested_header update)
          (lcs_previous_max_active_participants store) (lcs_current_max_active_participants store))
  else Ok store.

Definition process_light_client_update store update (current_slot : Z) (genesis_validators_root : bytes)
    : fallible LightClientStore :=
  _ ← validate_light_client_update store update current_slot genesis_validators_root;
  n_participants ← count_participants (lcu_sync_aggregate update);
  store ← note_update store update n_participants;
  let update_has_finalized_next_sync_committee :=
    negb (is_next_sync_committee_known store) && is_sync_committee_update update
    && is_finality_update update && sync_committee_finality update in
  if (wmul SYNC_COMMITTEE_SIZE 2 <=? wmul n_participants 3)
     && ((slot_of (lcs_finalized_header store) <? slot_of (lcu_finalized_header update))
         || update_has_finalized_next_sync_committee)
  then Ok (with_best_valid_update (apply_light_client_update store update) None)
  else Ok store.

(** ** The server *)
Definition block_to_light_client_header {E} (block : AltairBlock) : result E LightClientHeader :=
  body_root ← root_value (altair_body_root (abl_body block));
  Ok (mkLightClientHeader (mkBeaconBlockHeader (abl_slot block) (abl_proposer_index block)
        (abl_parent_root block) (abl_state_root block) body_root)).

Definition beacon_state_field_hashes {E} (state : AltairState) : result E (list bytes) :=
  mapM root_value (altair_state_fields state).

(** [build_single_proof_from_leaves(..).branch]. *)
Definition proof_branch {E} (leaves : list bytes) (gindex : Z) : result E (list bytes) :=
  match build_single_proof_from_leaves sha256 leaves gindex with
  | Ok proof => Ok (branch proof)
  | _ => Panic
  end.

Definition compute_state_proof {E} (state : AltairState) (field_gindex : Z) : result E (list bytes) :=
  field_hashes ← beacon_state_field_hashes state;
  if (32 <=? field_gindex) && (field_gindex <=? 55) then proof_branch field_hashes field_gindex
  else if field_gindex =? FINALIZED_ROOT_GINDEX then
    epoch_root ← root_value (u64_root (cp_epoch (finalized_checkpoint state)));
    root_root ← root_value (fixed_bytes_root (cp_root (finalized_checkpoint state)));
    checkpoint_branch ← proof_branch [epoch_root; root_root] 3;
    state_branch ← proof_branch field_hashes 52;
    Ok (checkpoint_branch ++ state_branch)
  else Ok [].

(** Padding to the length of the vector, whose default is zero. *)
Definition branch_vector (depth : nat) (branch_vec : list bytes) : list bytes :=
  let branch_vec := branch_vec ++ replicate (depth - length branch_vec) zero_chunk in
  if bool_decide (length branch_vec = depth) then branch_vec else replicate depth zero_chunk.

(** The root of the block a state was left by. *)
Definition own_block_root {E} (state : AltairState) : result E bytes :=
  let h := latest_block_header state in
  r ← root_value (altair_state_root state);
  root_value (header_root (mkBeaconBlockHeader (bh_slot h) (bh_proposer_index h) (bh_parent_root h) r
    (bh_body_root h))).

Definition create_light_client_bootstrap {E} (state : AltairState) (block : AltairBlock)
    : result E (option LightClientBootstrap) :=
  if negb (slot state =? bh_slot (latest_block_header state)) then Ok None
  else
    own_root ← own_block_root state;
    block_root ← root_value (altair_block_root block);
    if negb (bool_decide (own_root = block_root)) then Ok None
    else
      branch_hashes ← compute_state_proof state CURRENT_SYNC_COMMITTEE_GINDEX;
      header ← block_to_light_client_header block;
      Ok (Some (mkLightClientBootstrap header (al_current_sync_committee state)
                  (branch_vector CURRENT_SYNC_COMMITTEE_BRANCH_DEPTH branch_hashes))).

Definition create_light_client_update (block : AltairBlock) (attested_state : AltairState)
    (attested_block : AltairBlock) (finalized_block : option AltairBlock)
    : fallible (option LightClientUpdate) :=
  n_participants ← count_participants (ab_sync_aggregate (abl_body block));
  if n_participants <? 1 then Ok None
  else
    let update_signature_period := compute_sync_committee_period_at_slot (abl_slot block) in
    if negb (slot attested_state =? bh_slot (latest_block_header attested_state)) then Ok None
    else
      attested_block_root ← own_block_root attested_state;
      claimed_root ← root_value (altair_block_root attested_block);
      if negb (bool_decide (attested_block_root = claimed_root)) then Ok None
      else if negb (bool_decide (attested_block_root = abl_parent_root block)) then Ok None
      else
        let update_attested_period := compute_sync_committee_period_at_slot (abl_slot attested_block) in
        '(next_sync_committee, next_sync_committee_branch) ←
          (if update_attested_period =? update_signature_period then
             nsc_branch ← compute_state_proof attested_state NEXT_SYNC_COMMITTEE_GINDEX;
             Ok (al_next_sync_committee attested_state,
                 branch_vector NEXT_SYNC_COMMITTEE_BRANCH_DEPTH nsc_branch)
           else Ok (default_sync_committee, replicate NEXT_SYNC_COMMITTEE_BRANCH_DEPTH zero_chunk));
        '(finalized_header, finality_branch) ←
          match finalized_block with
          | Some fin_block =>
              header ← (if negb (abl_slot fin_block =? 0) then block_to_light_client_header fin_block
                        else Ok default_header);
              fin_branch ← compute_state_proof attested_state FINALIZED_ROOT_GINDEX;
              Ok (header, branch_vector FINALITY_BRANCH_DEPTH fin_branch)
          | None => Ok (default_header, replicate FINALITY_BRANCH_DEPTH zero_chunk)
          end;
        attested_header ← block_to_light_client_header attested_block;
        Ok (Some (mkLightClientUpdate attested_header next_sync_committee next_sync_committee_branch
                    finalized_header finality_branch (ab_sync_aggregate (abl_body block))
                    (abl_slot block))).

Definition create_light_client_finality_update update : LightClientFinalityUpdate :=
  mkLightClientFinalityUpdate (lcu_attested_header update) (lcu_finalized_header update)
    (lcu_finality_branch update) (lcu_sync_aggregate update) (lcu_signature_slot update).
Definition create_light_client_optimistic_update update : LightClientOptimisticUpdate :=
  mkLightClientOptimisticUpdate (lcu_attested_header update) (lcu_sync_aggregate update)
    (lcu_signature_slot update).

(** The snapshots a node keeps, by block root and by period. *)
Record Snapshots : Type := mkSnapshots {
  sn_bootstraps : gmap bytes LightClientBootstrap;
  sn_updates : gmap Z LightClientUpdate;
  sn_finality_update : option LightClientFinalityUpdate;
  sn_optimistic_update : option LightClientOptimisticUpdate;
}.

(** Steps 3 to 5 of [update_light_client_snapshots]. *)
Definition store_update (store : Snapshots) update : fallible Snapshots :=
  let period := compute_sync_committee_period_at_slot (slot_of (lcu_attested_header update)) in
  should_store ← match sn_updates store !! period with
                 | Some existing => is_better_update update existing
                 | None => Ok true
                 end;
  let updates := if should_store : bool then <[period := update]> (sn_updates store)
                 else sn_updates store in
  let finality := if is_finality_update update
                  then Some (create_light_client_finality_update update)
                  else sn_finality_update store in
  Ok (mkSnapshots (sn_bootstraps store) updates finality
        (Some (create_light_client_optimistic_update update))).

Definition update_light_client_snapshots (post_state : AltairState) (block : AltairBlock)
    (attested : option (AltairState * AltairBlock)) (finalized_block : option AltairBlock)
    (store : Snapshots) : fallible Snapshots :=
  block_root ← root_value (altair_block_root block);
  bootstrap ← create_light_client_bootstrap post_state block;
  let store := match bootstrap with
               | Some b => mkSnapshots (<[block_root := b]> (sn_bootstraps store)) (sn_updates store)
                             (sn_finality_update store) (sn_optimistic_update store)
               | None => store
               end in
  maybe_update ← match attested with
                 | Some (att_s, att_b) => create_light_client_update block att_s att_b finalized_block
                 | None => Ok None
                 end;
  match maybe_update with
  | Some update => store_update store update
  | None => Ok store
  end.
End light_client.

(** ** What a client may trust *)
Section safety.
  Context `{Crypto} `{Sp : BeaconSpec} `{Fs : ForkSpec} `{Ls : LightClientSpec} `{!SpecOk Sp} `{!ForkSpecOk Sp Fs}.
  Context (gvr : bytes).
  Implicit Types store : LightClientStore.
  Implicit Types update u : LightClientUpdate.
  Local Abbreviation period sl := (compute_sync_committee_period_at_slot sl).

(** A committee with its branch to a state root. *)
Definition proves (c : SyncCommittee) (branch : list bytes) (gindex : Z) (h : LightClientHeader) : Prop :=
  exists r, sync_committee_root c = Ok r /\
    is_valid_normalized_merkle_branch r branch gindex (bh_state_root (lch_beacon h)) = true.

Definition signed_by (c : SyncCommittee) u : Prop := check_sync_committee_signature u c gvr = Ok tt.

(** The committees a client can be led to: the one in the trusted block's state for
    its period, and the one that a header signed by a trusted committee announces for
    the period after it. *)
Inductive trusted (root : bytes) : Z -> SyncCommittee -> Prop :=
  | trusted_bootstrap b :
      header_root (lch_beacon (lcb_header b)) = Ok root ->
      proves (lcb_current_sync_committee b) (lcb_current_sync_committee_branch b)
        CURRENT_SYNC_COMMITTEE_GINDEX (lcb_header b) ->
      trusted root (period (slot_of (lcb_header b))) (lcb_current_sync_committee b)
  | trusted_next c u :
      trusted root (period (lcu_signature_slot u)) c -> signed_by c u ->
      proves (lcu_next_sync_committee u) (lcu_next_sync_committee_branch u)
        NEXT_SYNC_COMMITTEE_GINDEX (lcu_attested_header u) ->
      trusted root (period (slot_of (lcu_attested_header u)) + 1) (lcu_next_sync_committee u).

(** An update signed by the committee of its period. *)
Definition vouched (root : bytes) u : Prop :=
  exists c, trusted root (period (lcu_signature_slot u)) c /\ signed_by c u.
Definition two_thirds u : Prop :=
  exists n, count_participants (lcu_sync_aggregate u) = Ok n /\ wmul SYNC_COMMITTEE_SIZE 2 <= wmul n 3.

(** An update whose finalized header is in the attested state. *)
Definition proves_final u : Prop :=
  exists r, header_root (lch_beacon (lcu_finalized_header u)) = Ok r /\
    is_valid_normalized_merkle_branch r (lcu_finality_branch u) FINALIZED_ROOT_GINDEX
      (bh_state_root (lch_beacon (lcu_attested_header u))) = true.

(** Where a finalized header comes from: the trusted block, a header that two thirds
    of a trusted committee attest to be final, or, once updates were forced, any
    header a trusted committee signed or attests to be final. *)
Inductive final (root : bytes) : bool -> LightClientHeader -> Prop :=
  | final_trusted forced h : header_root (lch_beacon h) = Ok root -> final root forced h
  | final_voted forced u :
      vouched root u -> two_thirds u -> proves_final u -> final root forced (lcu_finalized_header u)
  | final_forced_voted u : vouched root u -> proves_final u -> final root true (lcu_finalized_header u)
  | final_forced_signed u : vouched root u -> final root true (lcu_attested_header u).

(** And an optimistic one. *)
Inductive seen (root : bytes) : LightClientHeader -> Prop :=
  | seen_final forced h : final root forced h -> seen root h
  | seen_signed u : vouched root u -> seen root (lcu_attested_header u).

Record store_safe (root : bytes) (forced : bool) store : Prop := {
  ss_final : final root forced (lcs_finalized_header store);
  ss_current : trusted root (period (slot_of (lcs_finalized_header store))) (lcs_current_sync_committee store);
  ss_next : is_next_sync_committee_known store = true ->
    trusted root (period (slot_of (lcs_finalized_header store)) + 1) (lcs_next_sync_committee store);
  ss_seen : seen root (lcs_optimistic_header store);
  ss_order : slot_of (lcs_finalized_header store) <= slot_of (lcs_optimistic_header store);
  ss_slot : u64 (slot_of (lcs_finalized_header store));
  ss_best : forall u, lcs_best_valid_update store = Some u ->
    (u64 (slot_of (lcu_attested_header u)) /\ u64 (slot_of (lcu_finalized_header u))) /\
    exists t, validate_light_client_update store u t gvr = Ok tt;
}.

(** ** Validation, inverted *)
Lemma period_mono a b : a <= b -> period a <= period b.
Proof.
  intros Hab. unfold compute_sync_committee_period_at_slot, compute_sync_committee_period, compute_epoch_at_slot.
  pose proof slots_per_epoch_pos. pose proof sync_period. apply Z.div_le_mono; [lia|]. apply Z.div_le_mono; lia.
Qed.
Lemma period_small sl : u64 sl -> 0 <= period sl < 2 ^ 63.
Proof.
  intros [? Hu]. unfold compute_sync_committee_period_at_slot, compute_sync_committee_period, compute_epoch_at_slot, U64 in *.
  pose proof slots_per_epoch_pos. pose proof sync_period.
  assert (0 <= sl / SLOTS_PER_EPOCH < 2 ^ 63) by (split; [apply Z.div_pos; lia|apply Z.div_lt_upper_bound; nia]).
  split; [apply Z.div_pos; lia|]. apply Z.div_lt_upper_bound; nia.
Qed.

Record validated store u (t : Z) : Prop := {
  va_signed_late : slot_of (lcu_attested_header u) < lcu_signature_slot u <= t;
  va_finalized : slot_of (lcu_finalized_header u) <= slot_of (lcu_attested_header u);
  va_period : let p := period (slot_of (lcs_finalized_header store)) in
    period (lcu_signature_slot u) = p \/
    (is_next_sync_committee_known store = true /\ period (lcu_signature_slot u) = p + 1);
  va_relevant : slot_of (lcs_finalized_header store) < slot_of (lcu_attested_header u) \/
    (is_next_sync_committee_known store = false /\ is_sync_committee_update u = true /\
     period (slot_of (lcu_attested_header u)) = period (slot_of (lcs_finalized_header store)));
  va_finality : check_finality_branch u = Ok tt;
  va_next : is_sync_committee_update u = false -> lcu_next_sync_committee u = default_sync_committee;
  va_proves : is_sync_committee_update u = true ->
    proves (lcu_next_sync_committee u) (lcu_next_sync_committee_branch u) NEXT_SYNC_COMMITTEE_GINDEX
      (lcu_attested_header u);
  va_signature : signed_by
    (if period (lcu_signature_slot u) =? period (slot_of (lcs_finalized_header store))
     then lcs_current_sync_committee store else lcs_next_sync_committee store) u;
}.

Lemma validate_Ok store u t :
  u64 (slot_of (lcs_finalized_header store)) ->
  validate_light_client_update store u t gvr = Ok tt -> validated store u t.
Proof.
  intros Hu. unfold validate_light_client_update. pose proof (period_small _ Hu) as Hp.
  intros (n & _ & Hv)%bind_Ok_inv. destruct (n <? 1); [done|]. cbv zeta in Hv.
  destruct ((lcu_signature_slot u <=? t) && (slot_of (lcu_attested_header u) <? lcu_signature_slot u)
    && (slot_of (lcu_finalized_header u) <=? slot_of (lcu_attested_header u))) eqn:Hord; [|done]. cbn [negb] in Hv. rewrite !andb_true_iff, !Z.leb_le, Z.ltb_lt in Hord.
  match type of Hv with (if ?b then _ else _) = _ => destruct b eqn:Hper; [done|] end.
  rewrite wadd_small in Hper by (unfold U64; lia).
  match type of Hv with (if negb ?b then _ else _) = _ => destruct b eqn:Hrel; [|done] end. cbn [negb] in Hv.
  apply bind_Ok_inv in Hv as ([] & Hfin & ([] & Hnext & Hsig)%bind_Ok_inv).
  assert (is_sync_committee_update u = false -> lcu_next_sync_committee u = default_sync_committee) as Hn1.
  { intros Hf. unfold check_next_sync_committee in Hnext. rewrite Hf in Hnext. cbn [negb] in Hnext.
    revert Hnext. by case_bool_decide. }
  assert (is_sync_committee_update u = true -> proves (lcu_next_sync_committee u) (lcu_next_sync_committee_branch u)
    NEXT_SYNC_COMMITTEE_GINDEX (lcu_attested_header u)) as Hn2.
  { intros Hf. unfold check_next_sync_committee in Hnext. rewrite Hf in Hnext. cbn [negb] in Hnext.
    match type of Hnext with (if ?b then _ else _) = _ => destruct b; [done|] end. apply bind_Ok_inv in Hnext as (r & Hr%root_value_Ok & Hb). exists r. split; [done|].
    by destruct (is_valid_normalized_merkle_branch _ _ _ _). }
  split; try done; try lia.
  - cbv zeta. destruct (is_next_sync_committee_known store).
    + rewrite andb_false_iff, !negb_false_iff, !Z.eqb_eq in Hper. tauto.
    + rewrite negb_false_iff, Z.eqb_eq in Hper. by left.
  - rewrite orb_true_iff, Z.ltb_lt, !andb_true_iff, negb_true_iff, Z.eqb_eq in Hrel. tauto.
Qed.

(** Only the finalized header and the committees matter to validation. *)
Lemma validate_same store store' u t :
  lcs_finalized_header store' = lcs_finalized_header store ->
  lcs_current_sync_committee store' = lcs_current_sync_committee store ->
  lcs_next_sync_committee store' = lcs_next_sync_committee store ->
  validate_light_client_update store' u t gvr = validate_light_client_update store u t gvr.
Proof. destruct store, store'. cbn. intros -> -> ->. reflexivity. Qed.

Lemma validated_vouched root forced store u t :
  store_safe root forced store -> validated store u t -> vouched root u.
Proof.
  intros Hs Hv. pose proof (va_signature _ _ _ Hv) as Hsig. pose proof (va_period _ _ _ Hv) as Hp. cbv zeta in Hp.
  eexists. split; [|exact Hsig]. destruct (Z.eqb_spec (period (lcu_signature_slot u)) (period (slot_of (lcs_finalized_header store))))
    as [->|Hne]; [apply Hs|]. destruct Hp as [?|[Hk ->] ]; [done|]. by apply Hs.
Qed.

Lemma final_weaken root h forced : final root false h -> final root forced h.
Proof. intros Hf. inversion Hf; subst; by constructor. Qed.

(** The committee an update announces is trusted for the period after it. *)
Lemma announced root forced store u t :
  store_safe root forced store -> validated store u t -> lcu_next_sync_committee u <> default_sync_committee ->
  trusted root (period (slot_of (lcu_attested_header u)) + 1) (lcu_next_sync_committee u).
Proof.
  intros Hs Hv Hd. destruct (validated_vouched _ _ _ _ _ Hs Hv) as (c & Hc & Hsig).
  destruct (is_sync_committee_update u) eqn:Hu; [|by rewrite (va_next _ _ _ Hv Hu) in Hd].
  eapply trusted_next; [exact Hc|exact Hsig|by apply (va_proves _ _ _ Hv)].
Qed.

(** [apply_light_client_update] in two steps: the committees, then the headers. *)
Definition rotated store update : LightClientStore :=
  if negb (is_next_sync_committee_known store) then
    mkLightClientStore (lcs_finalized_header store) (lcs_current_sync_committee store)
      (lcu_next_sync_committee update) (lcs_best_valid_update store) (lcs_optimistic_header store)
      (lcs_previous_max_active_participants store) (lcs_current_max_active_participants store)
  else if period (slot_of (lcu_finalized_header update)) =? wadd (period (slot_of (lcs_finalized_header store))) 1 then
    mkLightClientStore (lcs_finalized_header store) (lcs_next_sync_committee store)
      (lcu_next_sync_committee update) (lcs_best_valid_update store) (lcs_optimistic_header store)
      (lcs_current_max_active_participants store) 0
  else store.
Definition advanced store (h : LightClientHeader) : LightClientStore :=
  if slot_of (lcs_finalized_header store) <? slot_of h then
    mkLightClientStore h (lcs_current_sync_committee store) (lcs_next_sync_committee store)
      (lcs_best_valid_update store)
      (if slot_of (lcs_optimistic_header store) <? slot_of h then h else lcs_optimistic_header store)
      (lcs_previous_max_active_participants store) (lcs_current_max_active_participants store)
  else store.
Lemma apply_steps store u : apply_light_client_update store u = advanced (rotated store u) (lcu_finalized_header u).
Proof. reflexivity. Qed.

Lemma advance_safe root forced store h :
  let store' := advanced store h in
  let p := period (slot_of (lcs_finalized_header store')) in
  lcs_best_valid_update store = None -> final root forced (lcs_finalized_header store) ->
  seen root (lcs_optimistic_header store) ->
  slot_of (lcs_finalized_header store) <= slot_of (lcs_optimistic_header store) ->
  u64 (slot_of (lcs_finalized_header store)) -> u64 (slot_of h) ->
  (slot_of (lcs_finalized_header store) < slot_of h -> final root forced h) ->
  trusted root p (lcs_current_sync_committee store) ->
  (is_next_sync_committee_known store = true -> trusted root (p + 1) (lcs_next_sync_committee store)) ->
  store_safe root forced store' /\ slot_of (lcs_finalized_header store) <= slot_of (lcs_finalized_header store') /\
  lcs_best_valid_update store' = None.
Proof.
  unfold advanced. cbv zeta. intros Hb Hfin Hseen Hord Hu Huh Hf Hcur Hnext.
  destruct (Z.ltb_spec (slot_of (lcs_finalized_header store)) (slot_of h)) as [Hlt|Hge].
  2: { split; [|split; [lia|done] ]. split; try done. intros u. by rewrite Hb. }
  cbn [lcs_finalized_header lcs_best_valid_update]. split; [|split; [lia|done] ].
  split; cbn [lcs_finalized_header lcs_current_sync_committee lcs_next_sync_committee lcs_optimistic_header
    lcs_best_valid_update] in *; try done; [by apply Hf| | |intros u; by rewrite Hb].
  - case_match; [|done]. eapply seen_final. by apply Hf.
  - destruct (Z.ltb_spec (slot_of (lcs_optimistic_header store)) (slot_of h)); lia.
Qed.

(** Applying a validated update, its finalized header possibly replaced by [h]. *)
Lemma apply_safe root forced forced' store u t h :
  store_safe root forced store -> validated store u t -> lcs_best_valid_update store = None ->
  (forall h, final root forced h -> final root forced' h) ->
  slot_of h <= slot_of (lcu_attested_header u) -> u64 (slot_of h) ->
  (slot_of (lcs_finalized_header store) < slot_of h -> final root forced' h) ->
  let store' := apply_light_client_update store (with_finalized_header u h) in
  store_safe root forced' store' /\ slot_of (lcs_finalized_header store) <= slot_of (lcs_finalized_header store') /\
  lcs_best_valid_update store' = None.
Proof.
  intros Hs Hv Hbest Hw Hle Hu Hf. cbv zeta.
  pose proof (period_small _ (ss_slot _ _ _ Hs)) as Hp0.
  pose proof (period_mono _ _ Hle) as Hp1. destruct (va_signed_late _ _ _ Hv) as [Hlate _].
  pose proof (period_mono (slot_of (lcu_attested_header u)) (lcu_signature_slot u) ltac:(lia)) as Hp2.
  pose proof (va_period _ _ _ Hv) as Hper. cbv zeta in Hper. pose proof (va_relevant _ _ _ Hv) as Hrel.
  pose proof (announced root forced store u t Hs Hv) as Hann.
  assert (slot_of (lcs_finalized_header store) < slot_of h ->
    period (slot_of (lcs_finalized_header store)) <= period (slot_of h)) as Hadv by (intros; apply period_mono; lia).
  destruct Hs as [S1 S2 S3 S4 S5 S6 S7]. rewrite apply_steps. unfold rotated.
  cbn [lcu_finalized_header with_finalized_header lcu_next_sync_committee].
  set (p := period (slot_of (lcs_finalized_header store))) in *. rewrite wadd_small by (unfold U64; lia).
  destruct (is_next_sync_committee_known store) eqn:Hk; cbn [negb].
  2: { destruct Hper as [Hper|[? _] ]; [|done].
    assert (period (slot_of (lcu_attested_header u)) = p) as Hatt.
    { destruct Hrel as [Hlt%Z.lt_le_incl%period_mono|(_ & _ & ?)]; [fold p in Hlt; lia|done]. }
    match goal with |- context [advanced ?st h] => apply (advance_safe _ _ st h) end; cbn [lcs_finalized_header lcs_best_valid_update lcs_optimistic_header lcs_current_sync_committee
      lcs_next_sync_committee]; auto.
    all: unfold advanced; cbn [lcs_finalized_header];
      destruct (Z.ltb_spec (slot_of (lcs_finalized_header store)) (slot_of h)) as [Hlt|Hge];
      cbn [lcs_finalized_header]; [specialize (Hadv Hlt); replace (period (slot_of h)) with p by lia|fold p]; try done.
    all: unfold is_next_sync_committee_known; cbn [lcs_next_sync_committee]; rewrite <- Hatt;
      intros Hn; apply Hann; by case_bool_decide. }
  specialize (S3 eq_refl).
  destruct (Z.eqb_spec (period (slot_of h)) (p + 1)) as [Hph|Hph].
  - assert (slot_of (lcs_finalized_header store) < slot_of h) as Hlt.
    { destruct (Z.lt_ge_cases (slot_of (lcs_finalized_header store)) (slot_of h)) as [|Hge%period_mono]; [done|].
      fold p in Hge. lia. }
    match goal with |- context [advanced ?st h] => apply (advance_safe _ _ st h) end; cbn [lcs_finalized_header lcs_best_valid_update lcs_optimistic_header lcs_current_sync_committee
      lcs_next_sync_committee]; auto.
    all: unfold advanced; cbn [lcs_finalized_header]; rewrite (proj2 (Z.ltb_lt _ _) Hlt); cbn [lcs_finalized_header]; rewrite Hph; try done.
    unfold is_next_sync_committee_known; cbn [lcs_next_sync_committee]. intros Hn.
    replace (p + 1) with (period (slot_of (lcu_attested_header u))) by lia. apply Hann. by case_bool_decide.
  - match goal with |- context [advanced ?st h] => apply (advance_safe _ _ st h) end; auto.
    all: unfold advanced; cbn [lcs_finalized_header];
      destruct (Z.ltb_spec (slot_of (lcs_finalized_header store)) (slot_of h)) as [Hlt|Hge];
      cbn [lcs_finalized_header]; [specialize (Hadv Hlt); replace (period (slot_of h)) with p by lia|fold p]; done.
Qed.

Lemma finality_proves u : check_finality_branch u = Ok tt -> 0 < slot_of (lcu_finalized_header u) -> proves_final u.
Proof.
  unfold check_finality_branch. intros Hc Hs. destruct (is_finality_update u); cbn [negb] in Hc.
  - destruct (Z.eqb_spec (slot_of (lcu_finalized_header u)) 0); [lia|].
    apply bind_Ok_inv in Hc as (r & Hr%root_value_Ok & Hb). exists r. split; [done|].
    by destruct (is_valid_normalized_merkle_branch _ _ _ _).
  - case_bool_decide as Hd; [|done]. rewrite Hd in Hs. cbn in Hs. lia.
Qed.

Lemma with_finalized_self u : with_finalized_header u (lcu_finalized_header u) = u.
Proof. by destruct u. Qed.

Lemma apply_best store u best :
  with_best_valid_update (apply_light_client_update store u) best =
  apply_light_client_update (with_best_valid_update store best) u.
Proof.
  rewrite !apply_steps. unfold rotated, advanced, with_best_valid_update, is_next_sync_committee_known.
  cbn [lcs_finalized_header lcs_next_sync_committee]. destruct (negb _); [|destruct (_ =? _)];
    cbn [lcs_finalized_header]; by destruct (_ <? _).
Qed.

(** A store up to what is noted of the update at hand. *)
Record same_trust store store' : Prop := {
  st_final : lcs_finalized_header store' = lcs_finalized_header store;
  st_current : lcs_current_sync_committee store' = lcs_current_sync_committee store;
  st_next : lcs_next_sync_committee store' = lcs_next_sync_committee store;
}.

Lemma same_trust_safe root forced store store' :
  store_safe root forced store -> same_trust store store' -> seen root (lcs_optimistic_header store') ->
  slot_of (lcs_optimistic_header store) <= slot_of (lcs_optimistic_header store') ->
  (forall u, lcs_best_valid_update store' = Some u ->
    (u64 (slot_of (lcu_attested_header u)) /\ u64 (slot_of (lcu_finalized_header u))) /\
    exists t, validate_light_client_update store u t gvr = Ok tt) ->
  store_safe root forced store'.
Proof.
  intros [] [Ef Ec En] Hseen Hslot Hbest. split; unfold is_next_sync_committee_known in *; rewrite ?Ef, ?Ec, ?En; try done; [lia|].
  intros u Hu. destruct (Hbest u Hu) as [Hr (t & Ht)]. split; [done|]. exists t. by rewrite (validate_same store).
Qed.

Lemma same_trust_validated store store' u t : same_trust store store' -> validated store u t -> validated store' u t.
Proof.
  intros [Ef Ec En] []. split; unfold is_next_sync_committee_known in *; by rewrite ?Ef, ?Ec, ?En.
Qed.

Lemma forget_safe root forced store :
  store_safe root forced store -> store_safe root forced (with_best_valid_update store None).
Proof. intros Hs. eapply same_trust_safe; [exact Hs|by split|by apply Hs|done|done]. Qed.

Lemma note_safe root forced store u n t store' :
  store_safe root forced store -> validate_light_client_update store u t gvr = Ok tt ->
  u64 (slot_of (lcu_attested_header u)) -> u64 (slot_of (lcu_finalized_header u)) ->
  note_update store u n = Ok store' -> store_safe root forced store' /\ same_trust store store'.
Proof.
  intros Hs Hval Hua Huf (better & _ & Hn)%bind_Ok_inv. cbv zeta in Hn.
  pose proof (validate_Ok store u t (ss_slot _ _ _ Hs) Hval) as Hv.
  assert (forall b : bool, (forall u', lcs_best_valid_update (if b then with_best_valid_update store (Some u) else store) = Some u' ->
    (u64 (slot_of (lcu_attested_header u')) /\ u64 (slot_of (lcu_finalized_header u'))) /\
    exists t, validate_light_client_update store u' t gvr = Ok tt)) as Hbest.
  { intros [|] u' Hu'; [|by apply Hs]. injection Hu' as <-. eauto. }
  match type of Hn with (if ?b then _ else _) = _ => destruct b eqn:Hopt end; injection Hn as <-;
    (assert (forall st, same_trust store st -> forall st', same_trust st st' -> same_trust store st') as Htr
      by (intros ? [? ? ?] ? [? ? ?]; split; congruence)).
  - rewrite andb_true_iff, !Z.ltb_lt in Hopt. destruct Hopt as [_ Hopt]. cbn [lcs_optimistic_header] in Hopt.
    split; [eapply same_trust_safe; [exact Hs|..]|]; try (destruct better; by split).
    + apply seen_signed. by eapply validated_vouched.
    + cbn [lcs_optimistic_header]. destruct better; cbn [lcs_optimistic_header with_best_valid_update] in Hopt; lia.
    + apply Hbest.
  - split; [eapply same_trust_safe; [exact Hs|..]|]; try (destruct better; by split).
    + destruct better; apply Hs.
    + destruct better; cbn; lia.
    + apply Hbest.
Qed.

Lemma process_safe root forced store u t store' :
  store_safe root forced store -> u64 (slot_of (lcu_attested_header u)) -> u64 (slot_of (lcu_finalized_header u)) ->
  process_light_client_update store u t gvr = Ok store' ->
  store_safe root forced store' /\ slot_of (lcs_finalized_header store) <= slot_of (lcs_finalized_header store').
Proof.
  intros Hs Hua Huf ([] & Hval & (n & Hn & (st & Hnote & Hp)%bind_Ok_inv)%bind_Ok_inv)%bind_Ok_inv.
  destruct (note_safe _ _ _ _ _ _ _ Hs Hval Hua Huf Hnote) as [Hst Hsame].
  pose proof (validate_Ok store u t (ss_slot _ _ _ Hs) Hval) as Hv.
  cbv zeta in Hp.
  match type of Hp with (if ?b then _ else _) = _ => destruct b eqn:Hc end; injection Hp as <-.
  2: { split; [done|]. by rewrite (st_final _ _ Hsame). }
  rewrite andb_true_iff, Z.leb_le in Hc. destruct Hc as [Hmaj _].
  pose proof (same_trust_validated _ _ _ _ Hsame Hv) as Hv'.
  rewrite apply_best, <- (with_finalized_self u), <- (st_final _ _ Hsame).
  destruct (apply_safe root forced forced (with_best_valid_update st None) u t (lcu_finalized_header u)) as (H1 & H2 & _); try done.
  - by apply forget_safe.
  - eapply same_trust_validated; [|exact Hv']. by split.
  - apply Hv.
  - intros Hlt. cbn [lcs_finalized_header with_best_valid_update] in Hlt. apply final_voted.
    + by eapply validated_vouched.
    + by exists n.
    + apply finality_proves; [apply Hv|]. pose proof (ss_slot _ _ _ Hst) as [? _]. lia.
Qed.

Lemma force_safe root forced store t :
  store_safe root forced store ->
  let store' := process_light_client_store_force_update store t in
  store_safe root true store' /\ slot_of (lcs_finalized_header store) <= slot_of (lcs_finalized_header store').
Proof.
  intros Hs. cbv zeta. assert (forall h, final root forced h -> final root true h) as Hw.
  { intros h Hf. destruct Hf; eauto using final. }
  assert (store_safe root true store) as Hs' by (destruct Hs; split; auto).
  unfold process_light_client_store_force_update. destruct (lcs_best_valid_update store) as [best|] eqn:Hb; [|split; [done|lia] ].
  case_match; [|split; [done|lia] ]. cbv zeta.
  destruct (ss_best _ _ _ Hs best Hb) as [ [Hua Huf] (t' & Hval)].
  pose proof (validate_Ok store best t' (ss_slot _ _ _ Hs) Hval) as Hv.
  assert (validated (with_best_valid_update store None) best t') as Hv' by (eapply same_trust_validated; [|exact Hv]; by split).
  pose proof (validated_vouched _ _ _ _ _ Hs Hv) as Hvouch.
  pose proof (fun h => apply_safe root true true (with_best_valid_update store None) best t' h (forget_safe _ _ _ Hs') Hv' eq_refl) as Happ.
  cbn [lcs_finalized_header with_best_valid_update] in Happ |- *.
  destruct (Z.leb_spec (slot_of (lcu_finalized_header best)) (slot_of (lcs_finalized_header store))) as [Hle|Hgt].
  - destruct (Happ (lcu_attested_header best)) as (H1 & H2 & _); [tauto|lia|done|intros; by apply final_forced_signed|done].
  - rewrite <- (with_finalized_self best) at 1 2.
    destruct (Happ (lcu_finalized_header best)) as (H1 & H2 & _); [tauto|apply Hv|done| |done].
    intros _. apply final_forced_voted; [done|]. apply finality_proves; [apply Hv|]. pose proof (ss_slot _ _ _ Hs) as [? _]. lia.
Qed.

(** ** A client's inputs *)
Inductive input : Type :=
  | Received (update : LightClientUpdate) (current_slot : Z)
  | TimedOut (current_slot : Z).
Definition input_ok (i : input) : Prop :=
  match i with
  | Received u _ => u64 (slot_of (lcu_attested_header u)) /\ u64 (slot_of (lcu_finalized_header u))
  | TimedOut _ => True
  end.
Definition timed_out (i : input) : bool := match i with TimedOut _ => true | _ => false end.

(** A refused update leaves the store as it is. *)
Definition client_step store (i : input) : LightClientStore :=
  match i with
  | Received u t => match process_light_client_update store u t gvr with Ok store' => store' | _ => store end
  | TimedOut t => process_light_client_store_force_update store t
  end.

Lemma client_step_safe root forced store i :
  store_safe root forced store -> input_ok i ->
  store_safe root (timed_out i || forced) (client_step store i) /\
  slot_of (lcs_finalized_header store) <= slot_of (lcs_finalized_header (client_step store i)).
Proof.
  intros Hs Hi. destruct i as [u t|t]; [|by eapply force_safe].
  cbn [client_step timed_out orb]. destruct (process_light_client_update store u t gvr) eqn:Hp; [|split; [done|lia]..].
  destruct Hi. by eapply process_safe.
Qed.

Lemma initialize_safe root boot store :
  initialize_light_client_store root boot = Ok store -> u64 (slot_of (lcb_header boot)) ->
  store_safe root false store.
Proof.
  intros (r & Hr%root_value_Ok & Hi)%bind_Ok_inv Hu. case_bool_decide as Hroot; [|done]. cbn [negb] in Hi.
  apply bind_Ok_inv in Hi as (cr & Hcr%root_value_Ok & Hi).
  destruct (is_valid_normalized_merkle_branch _ _ _ _) eqn:Hb; [|done]. injection Hi as <-. subst r.
  split; cbn [lcs_finalized_header lcs_current_sync_committee lcs_optimistic_header lcs_best_valid_update]; try done.
  - by apply final_trusted.
  - apply trusted_bootstrap; [done|]. by exists cr.
  - unfold is_next_sync_committee_known. cbn [lcs_next_sync_committee]. by case_bool_decide.
  - eapply (seen_final _ false). by apply final_trusted.
Qed.

End safety.

(** ** A chain of four blocks of the minimal preset *)
(** A digest that keeps every other byte. *)
Fixpoint evens (x : bytes) : bytes :=
  match x with a :: _ :: x => a :: evens x | _ => x end.
Definition ex_mix (x : bytes) : bytes :=
  Byte.x01 :: resize 31 Byte.x02 (evens x).
Definition ex_light : Crypto := {|
  sha256 := ex_mix;
  bls_verify := fun _ _ _ => Some true;
  bls_fast_aggregate_verify := fun _ _ _ => Some true;
|}.
#[global] Instance ex_light_ok : CryptoOk ex_light.
Proof. constructor. intros x. cbn. by rewrite length_resize. Qed.

Section chain.
  #[local] Existing Instance ex_light.
  #[local] Existing Instance minimal.
  #[local] Existing Instance minimal_forks.
  #[local] Existing Instance minimal_light_client.

Definition ex_lc_body : AltairBody :=
  mkAltairBody (mkBeaconBlockBody (replicate 96 Byte.x05) (mkEth1Data zero_chunk 0 zero_chunk) zero_chunk
    [] [] [] [] []) (mkSyncAggregate (replicate 4 Byte.xff) (replicate 96 Byte.x00)).
(** The block of a slot on a parent, and the state it leaves. *)
Definition ex_lc_state (sl : Z) (parent : bytes) (finalized : Checkpoint) : AltairState :=
  let s := ex_altair sl [ex_member 1 Byte.x01 32 u64_max u64_max] [32000000000] in
  let h := mkBeaconBlockHeader sl 0 parent zero_chunk (ok_value zero_chunk (altair_body_root ex_lc_body)) in
  mkAltairState (with_finalized_checkpoint (with_latest_block_header s h) finalized)
    (al_previous_epoch_participation s) (al_current_epoch_participation s) (al_inactivity_scores s)
    (mkSyncCommittee (replicate 32 (to_le_bytes 48 1)) (to_le_bytes 48 1))
    (mkSyncCommittee (replicate 32 (to_le_bytes 48 2)) (to_le_bytes 48 2)).
Definition ex_lc_block (sl : Z) (parent : bytes) (finalized : Checkpoint) : AltairBlock :=
  mkAltairBlock sl 0 parent (ok_value zero_chunk (altair_state_root (ex_lc_state sl parent finalized))) ex_lc_body.
Definition ex_lc_root (b : AltairBlock) : bytes := ok_value zero_chunk (altair_block_root b).

Definition ex_no_checkpoint : Checkpoint := mkCheckpoint 0 zero_chunk.
Definition ex_lc_8 : AltairBlock := ex_lc_block 8 zero_chunk ex_no_checkpoint.
Definition ex_lc_16 : AltairBlock := ex_lc_block 16 (ex_lc_root ex_lc_8) ex_no_checkpoint.
Definition ex_lc_checkpoint : Checkpoint := mkCheckpoint 2 (ex_lc_root ex_lc_16).
Definition ex_lc_attested : AltairState := ex_lc_state 33 (ex_lc_root ex_lc_16) ex_lc_checkpoint.
Definition ex_lc_33 : AltairBlock := ex_lc_block 33 (ex_lc_root ex_lc_16) ex_lc_checkpoint.
Definition ex_lc_34 : AltairBlock := ex_lc_block 34 (ex_lc_root ex_lc_33) ex_lc_checkpoint.

Definition ex_bootstrap : LightClientBootstrap :=
  default (mkLightClientBootstrap default_header default_sync_committee [])
    (ok_value (E:=unit) None (create_light_client_bootstrap (ex_lc_state 8 zero_chunk ex_no_checkpoint) ex_lc_8)).
Definition ex_update : LightClientUpdate :=
  default (mkLightClientUpdate default_header default_sync_committee [] default_header []
             (mkSyncAggregate [] []) 0)
    (ok_value None (create_light_client_update ex_lc_34 ex_lc_attested ex_lc_33 (Some ex_lc_16))).
Definition ex_store : LightClientStore :=
  ok_value (mkLightClientStore default_header default_sync_committee default_sync_committee None default_header 0 0)
    (initialize_light_client_store (ex_lc_root ex_lc_8) ex_bootstrap).

Lemma ex_store_initialized :
  initialize_light_client_store (ex_lc_root ex_lc_8) ex_bootstrap = Ok ex_store.
Proof. vm_compute. reflexivity. Qed.
Lemma ex_update_applied :
  let store := foldl (client_step zero_chunk) ex_store [Received ex_update 34; TimedOut 35] in
  slot_of (lcs_finalized_header store) = 16 /\ slot_of (lcs_optimistic_header store) = 33 /\
  is_next_sync_committee_known store = true.
Proof. vm_compute. split; [|split]; reflexivity. Qed.
End chain.

