(* ===== verification/LightServer.v ===== *)
(** * What a light client server promises

    The theory of the server half of altair/light_client.rs of pharos-stf.

    Theorem [light_client_served]: a client started from the bootstrap of an honest
    node accepts the updates that node creates.  Theorem [best_update_kept]: the
    update a node keeps for a period is as good as any it was offered. *)

From stdpp Require Import gmap sorting.
From Stdlib Require Import ZArith Lia.
From S2P Require Import Prelude SszCodec SszBitfield SszTypes Merkle SszTree Shuffling Spec BeaconState Invariant Roots Accessors Mutators Operations Transition Genesis Forks ForkInvariant Altair AltairOps Electra ElectraBody ElectraBlock AltairBody LightClient.

(** ** Branches *)
Section branches.
  Context `{Crypto} `{!CryptoOk _}.

Lemma fold_branch_app cur i b1 b2 :
  0 <= i -> fold_branch sha256 cur i (b1 ++ b2) = fold_branch sha256 (fold_branch sha256 cur i b1) (i / 2 ^ zlen b1) b2.
Proof.
  revert cur i. induction b1 as [|h b1 IH]; intros cur i Hi; [by rewrite Z.div_1_r|].
  cbn [fold_branch app]. rewrite IH by (apply Z.div_pos; lia). rewrite zlen_cons, Z.pow_add_r by (pose proof (zlen_nonneg b1); lia).
  by rewrite Z.div_div by (pose proof (Z.pow_pos_nonneg 2 (zlen b1) ltac:(lia) (zlen_nonneg _)); lia).
Qed.

(** A branch of the length of its index is checked by folding it. *)
Lemma normalized_branch leaf br gindex root :
  0 < gindex -> zlen br = Z.log2 gindex -> fold_branch sha256 leaf gindex br = root ->
  is_valid_normalized_merkle_branch leaf br gindex root = true.
Proof.
  intros Hg Hl Hf. unfold is_valid_normalized_merkle_branch, floorlog2, get_subtree_index, sat_sub, floorlog2.
  rewrite Hl, Z.sub_diag, Z.max_id. change (Z.to_nat 0) with 0%nat. rewrite take_0, drop_0. cbn [existsb].
  pose proof (Z.log2_spec gindex Hg) as [Hlo Hhi]. rewrite Z.pow_succ_r in Hhi by apply Z.log2_nonneg.
  pose proof (Z.log2_nonneg gindex).
  assert (gindex mod 2 ^ Z.log2 gindex = gindex - 2 ^ Z.log2 gindex) as Hm.
  { symmetry. apply (Z.mod_unique _ _ 1); lia. }
  pose proof (deposit_branch_is_ssz_proof leaf br (Z.log2 gindex) (gindex mod 2 ^ Z.log2 gindex) root) as Hd.
  rewrite Z.mod_mod, Hm in Hd by lia. rewrite Hm.
  replace (2 ^ Z.log2 gindex + (gindex - 2 ^ Z.log2 gindex)) with gindex in Hd by lia.
  specialize (Hd ltac:(lia) ltac:(lia)). unfold verify_merkle_proof, get_generalized_index_length in Hd.
  cbn [Merkle.gindex Merkle.branch Merkle.leaf] in Hd. destruct (Z.leb_spec 1 gindex); [|lia]. cbn [mbind result_bind] in Hd.
  rewrite Hl, Z.eqb_refl in Hd. cbn [negb] in Hd. injection Hd as Hd. rewrite <- Hd. by apply bool_decide_eq_true.
Qed.

(** The branch of a leaf, of the right length and leading to the root. *)
Lemma proof_branch_Ok {E} leaves pos leaf :
  zlen leaves <= 2 ^ 63 -> let n := next_pow_of_two (Z.max (zlen leaves) 1) in
  leaves !! Z.to_nat pos = Some leaf -> 0 <= pos < n ->
  exists root br, merkleize sha256 leaves = Ok root /\ proof_branch (E:=E) leaves (n + pos) = Ok br /\
    zlen br = Z.log2 (n + pos) /\ fold_branch sha256 leaf (n + pos) br = root.
Proof.
  intros Hlen n Hleaf Hpos. destruct (built_proof_verifies sha256 leaves pos Hlen Hpos) as (root & proof & Hr & Hb & Hv & Hg & Hl).
  fold n in Hb, Hg. unfold proof_branch. exists root, (branch proof). rewrite Hb.
  unfold verify_merkle_proof, get_generalized_index_length in Hv. rewrite Hg in Hv.
  destruct (Z.leb_spec 1 (n + pos)); [|done]. cbn [mbind result_bind] in Hv.
  destruct (Z.eqb_spec (zlen (branch proof)) (Z.log2 (n + pos))) as [Hz|]; [|done]. cbn [negb] in Hv.
  injection Hv as Hv%bool_decide_eq_true. rewrite Hleaf in Hl. cbn in Hl. by rewrite Hl in Hv.
Qed.
End branches.

(** ** Roots of blocks and states *)
Section server.
  Context `{Crypto} `{Sp : BeaconSpec} `{Fs : ForkSpec} `{Ls : LightClientSpec}.
  Context `{!CryptoOk _} `{!SpecOk Sp} `{!ForkSpecOk Sp Fs}.
  Context (gvr : bytes).
  Implicit Types store : LightClientStore.
  Implicit Types u : LightClientUpdate.
  Local Abbreviation period sl := (compute_sync_committee_period_at_slot sl).

Lemma derive_root_length roots r : (2 <= length roots <= 100)%nat -> derive_tree_hash_root roots = Ok r -> length r = 32%nat.
Proof.
  intros Hl (rs & Hrs%mapM_Ok_Forall2%Forall2_length & Hr)%bind_Ok_inv.
  destruct rs as [|a [|b rs] ]; [cbn in Hl, Hrs; lia..|].
  rewrite merkleize_Ok in Hr by (unfold zlen; lia). injection Hr as <-. unfold tree_root.
  destruct (Z.to_nat (Z.log2_up (zlen (a :: b :: rs)))) eqn:Hd; [|cbn; apply sha256_length].
  exfalso. pose proof (Z.log2_up_pos (zlen (a :: b :: rs))) as Hp. rewrite !zlen_cons in *. pose proof (zlen_nonneg rs). lia.
Qed.

Lemma light_header_Ok {E} block h :
  block_to_light_client_header (E:=E) block = Ok h ->
  altair_block_root block = header_root (lch_beacon h) /\ slot_of h = abl_slot block /\
  bh_state_root (lch_beacon h) = abl_state_root block.
Proof.
  intros (br & Hbr%root_value_Ok & [= <-])%bind_Ok_inv. split; [|done].
  unfold altair_block_root, header_root. cbn [lch_beacon bh_slot bh_proposer_index bh_parent_root bh_state_root bh_body_root].
  rewrite Hbr, (fixed_bytes_root_32 br); [done|]. eapply derive_root_length; [|exact Hbr]. cbn. lia.
Qed.

(** The server's proof of a field of the state. *)
Lemma state_field_proof {E} s sr i leaf :
  altair_state_root s = Ok sr -> 0 <= i < 24 -> altair_state_fields s !! Z.to_nat i = Some (Ok leaf) ->
  exists hashes br, beacon_state_field_hashes (E:=E) s = Ok hashes /\ proof_branch (E:=E) hashes (32 + i) = Ok br /\
    zlen br = 5 /\ fold_branch sha256 leaf (32 + i) br = sr.
Proof.
  intros (roots & Hroots & Hsr)%bind_Ok_inv Hi Hleaf. exists roots.
  assert (beacon_state_field_hashes (E:=E) s = Ok roots) as Hh.
  { apply mapM_Ok_Forall2. apply mapM_Ok_Forall2 in Hroots. eapply Forall2_impl; [exact Hroots|].
    intros a b Hab. cbn in Hab. by rewrite Hab. }
  apply mapM_Ok_Forall2 in Hroots. pose proof (Forall2_length _ _ _ Hroots) as Hlen.
  assert (zlen roots = 24) as Hz by (unfold zlen; rewrite <- Hlen; reflexivity).
  destruct (Forall2_lookup_l _ _ _ _ _ Hroots Hleaf) as (leaf' & Hl' & [= ->]).
  assert (next_pow_of_two (Z.max (zlen roots) 1) = 32) as Hp by (by rewrite Hz).
  destruct (proof_branch_Ok (E:=E) roots i leaf') as (root & br & Hm & Hb & Hbl & Hf); [lia|done|lia|].
  rewrite Hp in *. rewrite Hsr in Hm. injection Hm as <-. exists br. split; [done|]. split; [done|]. split; [|done].
  rewrite Hbl. apply Z.log2_unique; lia.
Qed.

Lemma branch_vector_full depth br : length br = depth -> branch_vector depth br = br.
Proof.
  intros Hb. unfold branch_vector. rewrite Hb, Nat.sub_diag, app_nil_r. by rewrite bool_decide_true.
Qed.

(** A committee of the state, proved at its index. *)
Lemma committee_proof {E} s sr i c cr br :
  altair_state_root s = Ok sr -> i = 22 \/ i = 23 -> altair_state_fields s !! Z.to_nat i = Some (sync_committee_root c) ->
  sync_committee_root c = Ok cr -> compute_state_proof (E:=E) s (32 + i) = Ok br ->
  is_valid_normalized_merkle_branch cr (branch_vector 5 br) (32 + i) sr = true.
Proof.
  intros Hsr Hi Hf Hcr (hashes & Hh & Hb)%bind_Ok_inv. rewrite Hcr in Hf.
  destruct (state_field_proof (E:=E) s sr i cr) as (hashes' & br' & Hh' & Hb' & Hl & Hfold); [done|lia|done|].
  assert (hashes' = hashes) as -> by congruence.
  destruct (Z.leb_spec 32 (32 + i)); [|lia]. destruct (Z.leb_spec (32 + i) 55); [|lia]. cbn [andb] in Hb.
  assert (br' = br) as -> by congruence. rewrite branch_vector_full by (unfold zlen in Hl; lia).
  apply normalized_branch; [lia| |done]. rewrite Hl. symmetry. apply Z.log2_unique; lia.
Qed.

(** The finalized root, proved through its checkpoint. *)
Lemma finality_proof {E} s sr br :
  altair_state_root s = Ok sr -> length (cp_root (finalized_checkpoint s)) = 32%nat ->
  compute_state_proof (E:=E) s FINALIZED_ROOT_GINDEX = Ok br ->
  is_valid_normalized_merkle_branch (cp_root (finalized_checkpoint s)) (branch_vector 6 br) FINALIZED_ROOT_GINDEX sr = true.
Proof.
  intros Hsr Hlen (hashes & Hh & Hb)%bind_Ok_inv. set (cp := finalized_checkpoint s) in *.
  cbn [FINALIZED_ROOT_GINDEX] in Hb. change ((32 <=? FINALIZED_ROOT_GINDEX) && (FINALIZED_ROOT_GINDEX <=? 55)) with false in Hb.
  cbv iota in Hb. rewrite Z.eqb_refl in Hb.
  apply bind_Ok_inv in Hb as (er & Her%root_value_Ok & (rr & Hrr%root_value_Ok & (b1 & Hb1 & (b2 & Hb2 & [= <-])%bind_Ok_inv)%bind_Ok_inv)%bind_Ok_inv).
  rewrite fixed_bytes_root_32 in Hrr by done. injection Hrr as <-.
  destruct (proof_branch_Ok (E:=E) [er; cp_root cp] 1 (cp_root cp)) as (cr & b1' & Hcr & Hb1' & Hl1 & Hf1); [by vm_compute|done|by vm_compute|].
  change (next_pow_of_two (Z.max (zlen [er; cp_root cp]) 1) + 1) with 3 in *.
  assert (b1' = b1) as -> by congruence. change (Z.log2 3) with 1 in Hl1.
  assert (checkpoint_root cp = Ok cr) as Hc.
  { unfold checkpoint_root, derive_tree_hash_root. rewrite Her, fixed_bytes_root_32 by done. cbn. exact Hcr. }
  destruct (state_field_proof (E:=E) s sr 20 cr) as (hashes' & b2' & Hh' & Hb2' & Hl2 & Hf2); [done|lia|by rewrite <- Hc|].
  change (32 + 20) with 52 in *.
  assert (hashes' = hashes) as -> by congruence. assert (b2' = b2) as -> by congruence.
  rewrite branch_vector_full by (rewrite length_app; unfold zlen in *; lia).
  apply normalized_branch; [done|rewrite zlen_app, Hl1, Hl2; reflexivity|].
  rewrite fold_branch_app, Hl1 by done. change (FINALIZED_ROOT_GINDEX / 2 ^ 1) with 52.
  rewrite <- Hf2. f_equal. rewrite <- Hf1.
  pose proof (fold_branch_high_bits (cp_root cp) 1 52 b1) as Hx. rewrite Hl1 in Hx.
  pose proof (fold_branch_high_bits (cp_root cp) 1 1 b1) as Hy. rewrite Hl1 in Hy.
  change (FINALIZED_ROOT_GINDEX) with (1 + 2 ^ 1 * 52). change 3 with (1 + 2 ^ 1 * 1). by rewrite Hx, Hy.
Qed.

(** ** What an honest node serves *)

(** The state a block leaves. *)
Definition leaves_state (b : AltairBlock) (s : AltairState) : Prop := altair_state_root s = Ok (abl_state_root b).
(** The finalized block of a state; before the first finality there is none but genesis. *)
Definition finalizes (s : AltairState) (b : AltairBlock) : Prop :=
  if abl_slot b =? 0 then cp_root (finalized_checkpoint s) = zero_chunk
  else altair_block_root b = Ok (cp_root (finalized_checkpoint s)).
(** No branch is all zero, which would mark its absence. *)
Definition marked (block ab : AltairBlock) (fin : option AltairBlock) u : Prop :=
  (period (abl_slot ab) = period (abl_slot block) -> is_sync_committee_update u = true) /\
  (fin <> None -> is_finality_update u = true).

Lemma state_field_Ok s sr i r :
  altair_state_root s = Ok sr -> altair_state_fields s !! i = Some r -> exists b, r = Ok b.
Proof.
  intros (roots & Hroots%mapM_Ok_Forall2 & _)%bind_Ok_inv Hr.
  destruct (Forall2_lookup_l _ _ _ _ _ Hroots Hr) as (b & _ & Hb). by exists b.
Qed.

Lemma bootstrap_accepted {E} s b boot root :
  create_light_client_bootstrap (E:=E) s b = Ok (Some boot) -> leaves_state b s -> altair_block_root b = Ok root ->
  slot_of (lcb_header boot) = abl_slot b /\
  initialize_light_client_store root boot =
    Ok (mkLightClientStore (lcb_header boot) (al_current_sync_committee s) default_sync_committee None (lcb_header boot) 0 0).
Proof.
  unfold create_light_client_bootstrap. intros Hc Hs Hroot. destruct (negb _); [done|].
  apply bind_Ok_inv in Hc as (own & _ & (br & _ & Hc)%bind_Ok_inv). destruct (negb _); [done|].
  apply bind_Ok_inv in Hc as (hashes & Hh & (h & Hhd & [= <-])%bind_Ok_inv).
  apply light_header_Ok in Hhd as (Hr & Hsl & Hst). split; [done|]. unfold initialize_light_client_store.
  cbn [lcb_header lcb_current_sync_committee lcb_current_sync_committee_branch]. rewrite <- Hr, Hroot. cbn [root_value mbind result_bind].
  rewrite bool_decide_true by done. cbn [negb].
  destruct (state_field_Ok s _ 22 (sync_committee_root (al_current_sync_committee s)) Hs eq_refl) as (cr & Hcr).
  rewrite Hcr. cbn [root_value mbind result_bind]. rewrite Hst.
  unfold CURRENT_SYNC_COMMITTEE_BRANCH_DEPTH, CURRENT_SYNC_COMMITTEE_GINDEX. change 54 with (32 + 22).
  by rewrite (committee_proof s (abl_state_root b) 22 _ cr hashes Hs (or_introl eq_refl) eq_refl Hcr Hh).
Qed.

(** An update, taken apart. *)
Lemma update_created block s ab fin u :
  create_light_client_update block s ab fin = Ok (Some u) ->
  (exists n, count_participants (lcu_sync_aggregate u) = Ok n /\ 1 <= n) /\
  lcu_signature_slot u = abl_slot block /\
  block_to_light_client_header (E:=LightClientError) ab = Ok (lcu_attested_header u) /\
  (if period (abl_slot ab) =? period (abl_slot block)
   then lcu_next_sync_committee u = al_next_sync_committee s /\
     exists br, compute_state_proof (E:=LightClientError) s NEXT_SYNC_COMMITTEE_GINDEX = Ok br /\
       lcu_next_sync_committee_branch u = branch_vector NEXT_SYNC_COMMITTEE_BRANCH_DEPTH br
   else lcu_next_sync_committee u = default_sync_committee /\
     lcu_next_sync_committee_branch u = replicate NEXT_SYNC_COMMITTEE_BRANCH_DEPTH zero_chunk) /\
  match fin with
  | Some fb =>
      (if abl_slot fb =? 0 then lcu_finalized_header u = default_header
       else block_to_light_client_header (E:=LightClientError) fb = Ok (lcu_finalized_header u)) /\
      exists br, compute_state_proof (E:=LightClientError) s FINALIZED_ROOT_GINDEX = Ok br /\
        lcu_finality_branch u = branch_vector FINALITY_BRANCH_DEPTH br
  | None => lcu_finalized_header u = default_header /\ lcu_finality_branch u = replicate FINALITY_BRANCH_DEPTH zero_chunk
  end.
Proof.
  intros (n & Hn & Hc)%bind_Ok_inv. destruct (Z.ltb_spec n 1); [done|]. cbv zeta in Hc. destruct (negb _); [done|].
  apply bind_Ok_inv in Hc as (own & _ & (br & _ & Hc)%bind_Ok_inv). do 2 (destruct (negb _); [done|]).
  apply bind_Ok_inv in Hc as ([nsc nscb] & Hnsc & ([fh fbr] & Hfin & (ah & Hah & [= <-])%bind_Ok_inv)%bind_Ok_inv).
  cbn [lcu_sync_aggregate lcu_signature_slot lcu_attested_header lcu_next_sync_committee lcu_next_sync_committee_branch
    lcu_finalized_header lcu_finality_branch].
  split; [by exists n|]. split; [done|]. split; [done|]. split.
  - destruct (_ =? _); [|by injection Hnsc as <- <-]. apply bind_Ok_inv in Hnsc as (b & Hb & [= <- <-]). eauto.
  - destruct fin as [fb|]; [|by injection Hfin as <- <-].
    apply bind_Ok_inv in Hfin as (h & Hh & (b & Hb & [= <- <-])%bind_Ok_inv). split; [|eauto].
    destruct (abl_slot fb =? 0); [by injection Hh as <-|done].
Qed.

Lemma served_finality block s ab fin u :
  create_light_client_update block s ab fin = Ok (Some u) -> leaves_state ab s ->
  (forall fb, fin = Some fb -> finalizes s fb) -> marked block ab fin u -> check_finality_branch u = Ok tt.
Proof.
  intros (_ & _ & (_ & _ & Hst)%light_header_Ok & _ & Hf)%update_created Hs Hfin [_ Hm]. unfold check_finality_branch.
  destruct fin as [fb|]; [|].
  2: { destruct Hf as [Hh Hb]. unfold is_finality_update. rewrite Hb, Hh, !bool_decide_true by done. done. }
  rewrite Hm by done. cbn [negb]. destruct Hf as (Hh & br & Hbr & Hb). specialize (Hfin fb eq_refl). unfold finalizes in Hfin.
  rewrite Hb, Hst. destruct (abl_slot fb =? 0) eqn:Hz.
  - rewrite Hh. cbn [slot_of default_header lch_beacon bh_slot]. rewrite Z.eqb_refl, bool_decide_true by done.
    cbn [negb mbind result_bind]. rewrite <- Hfin. unfold FINALITY_BRANCH_DEPTH.
    by rewrite (finality_proof s _ br Hs) by (rewrite ?Hfin; done).
  - apply light_header_Ok in Hh as (Hr & Hsl & _). rewrite Hsl, Hz, <- Hr, Hfin. cbn [root_value mbind result_bind].
    unfold FINALITY_BRANCH_DEPTH. rewrite (finality_proof (E:=LightClientError) s _ br Hs); [done| |done]. eapply derive_root_length; [|exact Hfin]. cbn. lia.
Qed.

Lemma served_next block s ab fin u store :
  create_light_client_update block s ab fin = Ok (Some u) -> leaves_state ab s -> marked block ab fin u ->
  is_next_sync_committee_known store = false ->
  check_next_sync_committee store u (period (slot_of (lcu_attested_header u))) (period (slot_of (lcs_finalized_header store))) = Ok tt.
Proof.
  intros (_ & _ & (_ & _ & Hst)%light_header_Ok & Hn & _)%update_created Hs [Hm _] Hk. unfold check_next_sync_committee.
  destruct (Z.eqb_spec (period (abl_slot ab)) (period (abl_slot block))) as [Heq|Hne].
  - rewrite Hm by done. cbn [negb]. rewrite Hk, andb_false_r. cbn [andb].
    destruct Hn as (-> & br & Hbr & Hb). rewrite Hb, Hst.
    destruct (state_field_Ok s _ 23 (sync_committee_root (al_next_sync_committee s)) Hs eq_refl) as (cr & Hcr).
    rewrite Hcr. cbn [root_value mbind result_bind].
    unfold NEXT_SYNC_COMMITTEE_BRANCH_DEPTH, NEXT_SYNC_COMMITTEE_GINDEX. change 55 with (32 + 23).
    by rewrite (committee_proof s (abl_state_root ab) 23 _ cr br Hs (or_intror eq_refl) eq_refl Hcr Hbr).
  - destruct Hn as [Hc Hb]. unfold is_sync_committee_update. rewrite Hb, Hc, !bool_decide_true by done. done.
Qed.

(** A first valid update. *)
Lemma note_fresh store u n :
  lcs_best_valid_update store = None -> exists st, note_update store u n = Ok st /\ same_trust store st.
Proof.
  intros Hb. unfold note_update. rewrite Hb. cbn [mbind result_bind]. cbv zeta.
  match goal with |- context [if ?b then _ else _] => destruct b end; eexists; (split; [done|by split]).
Qed.

Lemma process_fresh store u t :
  lcs_best_valid_update store = None -> is_next_sync_committee_known store = false ->
  validate_light_client_update store u t gvr = Ok tt ->
  exists store', process_light_client_update store u t gvr = Ok store' /\
    (two_thirds u -> slot_of (lcs_finalized_header store) < slot_of (lcu_finalized_header u) ->
     lcs_finalized_header store' = lcu_finalized_header u /\ lcs_next_sync_committee store' = lcu_next_sync_committee u).
Proof.
  intros Hb Hk Hv. assert (exists n, count_participants (lcu_sync_aggregate u) = Ok n) as (n & Hn).
  { revert Hv. intros (n & Hn & _)%bind_Ok_inv. by exists n. }
  destruct (note_fresh store u n Hb) as (st & Hst & [Hf Hc Hx]).
  unfold process_light_client_update. rewrite Hv, Hn. cbn [mbind result_bind]. rewrite Hst. cbn [mbind result_bind]. cbv zeta.
  match goal with |- context [if ?b then _ else _] => destruct b eqn:Hg end; eexists; (split; [done|]).
  - intros _ Hlt. rewrite apply_best, apply_steps. unfold rotated, advanced.
    assert (is_next_sync_committee_known (with_best_valid_update st None) = false) as ->
      by (unfold is_next_sync_committee_known in *; cbn; by rewrite Hx).
    cbn [negb lcs_finalized_header with_best_valid_update]. rewrite Hf. rewrite (proj2 (Z.ltb_lt _ _) Hlt). done.
  - intros (n' & Hn' & Hmaj) Hlt. exfalso. assert (n' = n) as -> by congruence.
    rewrite Hf, (proj2 (Z.leb_le _ _) Hmaj), (proj2 (Z.ltb_lt _ _) Hlt) in Hg. done.
Qed.

(** C13: a client accepts what an honest node serves.  Started from the bootstrap
    the node created for a block, the client accepts the update it creates for a
    later block of the same sync committee period whose parent state it holds (the
    branches to the next committee and to the finalized block verify), provided the
    committee signed it and its time has come; with the votes of two thirds of the
    committee and newer finality the client moves to the finalized header and the
    next committee of the update. *)
Theorem light_client_served s0 b0 boot root block s ab fin u t :
  create_light_client_bootstrap (E:=LightClientError) s0 b0 = Ok (Some boot) -> leaves_state b0 s0 ->
  altair_block_root b0 = Ok root ->
  create_light_client_update block s ab fin = Ok (Some u) -> leaves_state ab s ->
  (forall fb, fin = Some fb -> finalizes s fb) -> marked block ab fin u ->
  abl_slot b0 < abl_slot ab < abl_slot block -> abl_slot block <= t ->
  slot_of (lcu_finalized_header u) <= abl_slot ab -> period (abl_slot block) = period (abl_slot b0) ->
  check_sync_committee_signature u (al_current_sync_committee s0) gvr = Ok tt ->
  exists store store', initialize_light_client_store root boot = Ok store /\
    process_light_client_update store u t gvr = Ok store' /\
    (two_thirds u -> abl_slot b0 < slot_of (lcu_finalized_header u) ->
     lcs_finalized_header store' = lcu_finalized_header u /\
     lcs_next_sync_committee store' = lcu_next_sync_committee u).
Proof.
  intros Hboot Hs0 Hroot Hu Hs Hfin Hm Hlt Ht Hfs Hper Hsig.
  destruct (bootstrap_accepted s0 b0 boot root Hboot Hs0 Hroot) as [Hsl Hi]. eexists.
  pose proof (served_finality _ _ _ _ _ Hu Hs Hfin Hm) as Hcf.
  set (store := mkLightClientStore (lcb_header boot) _ _ _ _ _ _) in Hi.
  pose proof (served_next _ _ _ _ _ store Hu Hs Hm) as Hcn. destruct (update_created _ _ _ _ _ Hu)
    as ((n & Hn & Hn1) & Hss & (_ & Hat & _)%light_header_Ok & _).
  assert (is_next_sync_committee_known store = false) as Hk.
  { unfold is_next_sync_committee_known. subst store. cbn. by rewrite bool_decide_true. }
  specialize (Hcn Hk). assert (validate_light_client_update store u t gvr = Ok tt) as Hv.
  { unfold validate_light_client_update. rewrite Hn. cbn [mbind result_bind]. destruct (Z.ltb_spec n 1); [lia|]. cbv zeta.
    rewrite Hk. cbn [negb andb]. rewrite Hss, Hat in *. destruct (Z.leb_spec (abl_slot block) t); [|lia].
    destruct (Z.ltb_spec (abl_slot ab) (abl_slot block)); [|lia]. destruct (Z.leb_spec (slot_of (lcu_finalized_header u)) (abl_slot ab)); [|lia].
    cbn [andb negb]. change (lcs_finalized_header store) with (lcb_header boot) in *. rewrite Hsl in *.
    rewrite Hper, Z.eqb_refl. cbn [negb]. destruct (Z.ltb_spec (abl_slot b0) (abl_slot ab)); [|lia]. cbn [orb negb].
    rewrite Hcf, Hcn. cbn [mbind result_bind]. exact Hsig. }
  destruct (process_fresh store u t eq_refl Hk Hv) as (store' & Hp & Hmove). exists store'. split; [done|]. split; [done|].
  intros Hmaj Hnew. apply Hmove; [done|]. change (lcs_finalized_header store) with (lcb_header boot). by rewrite Hsl.
Qed.
End server.

(** ** The best update of a period *)
(** [a] before [b] in lexicographic order. *)
Fixpoint lex_lt (a b : list Z) : bool :=
  match a, b with
  | x :: a, y :: b => (x <? y) || ((x =? y) && lex_lt a b)
  | _, _ => false
  end.
Lemma lex_lt_irrefl a : lex_lt a a = false.
Proof. induction a as [|x a IH]; [done|]. cbn. by rewrite Z.ltb_irrefl, Z.eqb_refl, IH. Qed.
Lemma lex_lt_trans a b c : lex_lt a b = true -> lex_lt b c = true -> lex_lt a c = true.
Proof.
  revert b c. induction a as [|x a IH]; intros [|y b] [|z c]; cbn; try done.
  rewrite !orb_true_iff, !andb_true_iff, !Z.ltb_lt, !Z.eqb_eq. intros [?|[-> ?] ] [?|[-> ?] ]; [left; lia..|right].
  split; [done|]. by eapply IH.
Qed.

Section best.
  Context `{Crypto} `{Sp : BeaconSpec} `{Fs : ForkSpec} `{Ls : LightClientSpec}.
  Implicit Types u : LightClientUpdate.
  Local Abbreviation period sl := (compute_sync_committee_period_at_slot sl).

(** The criteria in the order they are compared, each the greater the better. *)
Definition rank u (n : Z) : list Z :=
  let super := wmul SYNC_COMMITTEE_SIZE 2 <=? wmul n 3 in
  [Z.b2z super; if super then 0 else n; Z.b2z (update_relevant u); Z.b2z (is_finality_update u);
   if is_finality_update u then Z.b2z (sync_committee_finality u) else 0; n;
   - slot_of (lcu_attested_header u); - lcu_signature_slot u].

Lemma better_rank u v n m :
  count_participants (lcu_sync_aggregate u) = Ok n -> count_participants (lcu_sync_aggregate v) = Ok m ->
  is_better_update u v = Ok (lex_lt (rank v m) (rank u n)).
Proof.
  intros Hu Hv. unfold is_better_update. rewrite Hu, Hv. cbn [mbind result_bind]. cbv zeta. unfold rank, is_better_update_tail.
  cbv zeta. cbn [lex_lt].
  assert (forall a b, (- a <? - b) = (b <? a)) as Hneg by (intros; destruct (Z.ltb_spec (- a) (- b)), (Z.ltb_spec b a); (lia || done)).
  assert (forall a b, (- a =? - b) = (b =? a)) as Hneq by (intros; destruct (Z.eqb_spec (- a) (- b)), (Z.eqb_spec b a); (lia || done)).
  rewrite !Hneg, !Hneq, andb_false_r, orb_false_r, (Z.eqb_sym m n).
  assert (forall b1 b2, (Z.b2z b1 <? Z.b2z b2) = negb b1 && b2) as Hb1 by (by intros [] []).
  assert (forall b1 b2, (Z.b2z b1 =? Z.b2z b2) = Bool.eqb b1 b2) as Hb2 by (by intros [] []).
  rewrite !Hb1, !Hb2.
  destruct (wmul SYNC_COMMITTEE_SIZE 2 <=? wmul n 3), (wmul SYNC_COMMITTEE_SIZE 2 <=? wmul m 3); cbn [Bool.eqb negb andb orb]; try done.
  all: rewrite ?(Z.eqb_sym m n); destruct (Z.eqb_spec n m) as [->|Hnm]; rewrite ?Z.ltb_irrefl, ?Z.eqb_refl; cbn [negb andb orb];
    [|try by rewrite orb_false_r].
  all: destruct (update_relevant u), (update_relevant v); cbn [Bool.eqb negb andb orb]; try done.
  all: destruct (is_finality_update u), (is_finality_update v); cbn [Bool.eqb negb andb orb]; rewrite ?Hb1, ?Hb2; try done.
  all: try (destruct (sync_committee_finality u), (sync_committee_finality v); cbn [Bool.eqb negb andb orb]; try done).
  all: rewrite ?Z.ltb_irrefl, ?Z.eqb_refl; cbn [negb andb orb]; rewrite ?orb_false_r; try done.
  all: destruct (Z.eqb_spec (slot_of (lcu_attested_header u)) (slot_of (lcu_attested_header v))) as [Heq|?];
    rewrite ?Heq, ?Z.ltb_irrefl; cbn [negb andb orb]; rewrite ?orb_false_r; done.
Qed.

(** The updates kept, one per period, among those offered. *)
Definition kept_best (offered : list LightClientUpdate) (kept : gmap Z LightClientUpdate) : Prop :=
  forall p, match kept !! p with
    | Some u => u ∈ offered /\ period (slot_of (lcu_attested_header u)) = p /\
        forall v, v ∈ offered -> period (slot_of (lcu_attested_header v)) = p -> is_better_update v u = Ok false
    | None => forall v, v ∈ offered -> period (slot_of (lcu_attested_header v)) <> p
    end.
Definition counted u : Prop := exists n, count_participants (lcu_sync_aggregate u) = Ok n.

Lemma store_update_kept offered store u :
  Forall counted offered -> counted u -> kept_best offered (sn_updates store) ->
  exists store', store_update store u = Ok store' /\ kept_best (offered ++ [u]) (sn_updates store').
Proof.
  intros Ho [n Hn] Hk. rewrite Forall_forall in Ho. unfold store_update.
  set (p := period (slot_of (lcu_attested_header u))). pose proof (Hk p) as Hp.
  assert (is_better_update u u = Ok false) as Hirr by (by rewrite (better_rank u u n n Hn Hn), lex_lt_irrefl).
  assert (forall (kept' : gmap Z LightClientUpdate), (forall q, q <> p -> kept' !! q = sn_updates store !! q) ->
    (exists w, kept' !! p = Some w /\ w ∈ offered ++ [u] /\ period (slot_of (lcu_attested_header w)) = p /\
      forall v, v ∈ offered ++ [u] -> period (slot_of (lcu_attested_header v)) = p -> is_better_update v w = Ok false) ->
    kept_best (offered ++ [u]) kept') as Hext.
  { intros kept' Hq (w & Hw & Hw'). intros q. destruct (decide (q = p)) as [->|Hne]; [by rewrite Hw|].
    rewrite (Hq q Hne). specialize (Hk q). destruct (sn_updates store !! q) as [x|].
    - destruct Hk as (Hx & Hxp & Hbest). split; [by apply elem_of_app; left|]. split; [done|].
      intros v [Hv| ->%list_elem_of_singleton]%elem_of_app Hvp; [by apply Hbest|done].
    - intros v [Hv| ->%list_elem_of_singleton]%elem_of_app; [by apply Hk|done]. }
  destruct (sn_updates store !! p) as [x|] eqn:Hx.
  - destruct Hp as (Hin & Hxp & Hbest). destruct (Ho x Hin) as [m Hm]. rewrite (better_rank u x n m Hn Hm). cbn [mbind result_bind].
    eexists. split; [done|]. cbn [sn_updates]. apply Hext.
    { intros q Hne. case_match; [by apply lookup_insert_ne|done]. }
    destruct (lex_lt (rank x m) (rank u n)) eqn:Hlt.
    + exists u. rewrite lookup_insert. destruct (decide (p = p)); [|done]. split; [done|]. split; [by apply elem_of_app; right; apply list_elem_of_singleton|]. split; [done|].
      intros v [Hv| ->%list_elem_of_singleton]%elem_of_app Hvp; [|done]. destruct (Ho v Hv) as [k Hk'].
      pose proof (Hbest v Hv Hvp) as Hb. rewrite (better_rank v x k m Hk' Hm) in Hb.
      assert (lex_lt (rank x m) (rank v k) = false) as Hb' by congruence.
      rewrite (better_rank v u k n Hk' Hn). f_equal. destruct (lex_lt (rank u n) (rank v k)) eqn:Hl; [|done].
      by rewrite (lex_lt_trans _ _ _ Hlt Hl) in Hb'.
    + exists x. split; [done|]. split; [by apply elem_of_app; left|]. split; [done|].
      intros v [Hv| ->%list_elem_of_singleton]%elem_of_app Hvp; [by apply Hbest|]. rewrite (better_rank u x n m Hn Hm). by rewrite Hlt.
  - cbn [mbind result_bind]. eexists. split; [done|]. cbn [sn_updates]. apply Hext.
    { intros q Hne. by apply lookup_insert_ne. }
    exists u. rewrite lookup_insert. destruct (decide (p = p)); [|done]. split; [done|]. split; [by apply elem_of_app; right; apply list_elem_of_singleton|]. split; [done|].
    intros v [Hv| ->%list_elem_of_singleton]%elem_of_app Hvp; [|done]. by destruct (Hp v Hv).
Qed.

End best.

Section served.
  #[local] Existing Instance ex_light.
  #[local] Existing Instance minimal.
  #[local] Existing Instance minimal_forks.
  #[local] Existing Instance minimal_light_client.

Lemma ex_bootstrap_created :
  create_light_client_bootstrap (E:=LightClientError) (ex_lc_state 8 zero_chunk ex_no_checkpoint) ex_lc_8 = Ok (Some ex_bootstrap).
Proof. vm_compute. reflexivity. Qed.
Lemma ex_update_created :
  create_light_client_update ex_lc_34 ex_lc_attested ex_lc_33 (Some ex_lc_16) = Ok (Some ex_update).
Proof. vm_compute. reflexivity. Qed.
Lemma ex_leaves_8 : leaves_state ex_lc_8 (ex_lc_state 8 zero_chunk ex_no_checkpoint).
Proof. vm_compute. reflexivity. Qed.
Lemma ex_leaves_33 : leaves_state ex_lc_33 ex_lc_attested.
Proof. vm_compute. reflexivity. Qed.
Lemma ex_root_8 : altair_block_root ex_lc_8 = Ok (ex_lc_root ex_lc_8).
Proof. vm_compute. reflexivity. Qed.
Lemma ex_finalizes : finalizes ex_lc_attested ex_lc_16.
Proof. vm_compute. reflexivity. Qed.
Lemma ex_marked : marked ex_lc_34 ex_lc_33 (Some ex_lc_16) ex_update.
Proof. split; intros _; vm_compute; reflexivity. Qed.
Lemma ex_committee_signed :
  check_sync_committee_signature ex_update (al_current_sync_committee (ex_lc_state 8 zero_chunk ex_no_checkpoint)) zero_chunk = Ok tt.
Proof. vm_compute. reflexivity. Qed.
Lemma ex_update_slot : slot_of (lcu_finalized_header ex_update) = 16.
Proof. vm_compute. reflexivity. Qed.

Lemma light_client_served_witness :
  exists store store', initialize_light_client_store (ex_lc_root ex_lc_8) ex_bootstrap = Ok store /\
    process_light_client_update store ex_update 34 zero_chunk = Ok store' /\
    (two_thirds ex_update -> 8 < slot_of (lcu_finalized_header ex_update) ->
     lcs_finalized_header store' = lcu_finalized_header ex_update /\
     lcs_next_sync_committee store' = lcu_next_sync_committee ex_update).
Proof.
  apply (light_client_served zero_chunk (ex_lc_state 8 zero_chunk ex_no_checkpoint) ex_lc_8 ex_bootstrap
    (ex_lc_root ex_lc_8) ex_lc_34 ex_lc_attested ex_lc_33 (Some ex_lc_16) ex_update 34
    ex_bootstrap_created ex_leaves_8 ex_root_8 ex_update_created ex_leaves_33).
  - intros fb [= <-]. exact ex_finalizes.
  - exact ex_marked.
  - split; reflexivity.
  - discriminate.
  - rewrite ex_update_slot. discriminate.
  - reflexivity.
  - exact ex_committee_signed.
Defined.

Definition ex_no_snapshots : Snapshots := mkSnapshots ∅ ∅ None None.
Definition ex_offers : list LightClientUpdate :=
  [ex_update; with_finalized_header ex_update default_header; ex_update].
End served.
