(* ===== verification/ForkExamples.v ===== *)
(** * Fork choice on concrete stores

    A small store of the minimal preset and one of the mainnet preset: the
    theorems on the fork choice applied to them, and three behaviours of the
    handlers worth knowing. *)

From Stdlib Require Import ZArith Lia.
From S2P Require Import Prelude SszCodec SszBitfield SszTypes Merkle SszTree Shuffling Spec BeaconState Invariant Roots Accessors Mutators Justification Rewards EpochUpdates Operations Transition ForkStore ForkHead ForkHandlers ForkSafety Optimistic.

(** ** A store *)
Definition root_of (x : byte) : Root := replicate 32 x.
Definition block_at (sl : Z) (parent : byte) : BeaconBlock :=
  mkBeaconBlock sl 0 (root_of parent) zero_chunk (b_body ex_block).

(** [x0a] at slot 8, [x0b] on it at slot 16, and [x0c], [x0d] on that at
    slot 17. *)
Definition ex_blocks : gmap Root BeaconBlock :=
  <[root_of Byte.x0a := block_at 8 Byte.x01]> (<[root_of Byte.x0b := block_at 16 Byte.x0a]>
  (<[root_of Byte.x0c := block_at 17 Byte.x0b]> {[root_of Byte.x0d := block_at 17 Byte.x0b]})).

Definition ex_store : Store :=
  let anchor := mkCheckpoint 0 (root_of Byte.x0a) in
  mkStore 108 0 anchor anchor anchor anchor zero_chunk {[5]} ex_blocks
    ((fun _ => ex_state 17) <$> ex_blocks) ∅ {[anchor := ex_state 17]}
    (<[0 := mkLatestMessage 2 (root_of Byte.x0c)]> (<[1 := mkLatestMessage 2 (root_of Byte.x0d)]>
       {[5 := mkLatestMessage 2 (root_of Byte.x0d)]}))
    ∅ ∅ 6.

Lemma parents_older_alt bs :
  map_Forall (fun _ b => match bs !! b_parent_root b with Some p => b_slot p < b_slot b | None => True end) bs ->
  parents_older bs.
Proof. intros Hf r b p Hr Hp. specialize (Hf r b Hr). cbn in Hf. by rewrite Hp in Hf. Qed.

Lemma ex_blocks_older : parents_older ex_blocks.
Proof.
  apply parents_older_alt. unfold ex_blocks.
  repeat (apply map_Forall_insert_2; [by vm_compute|]). apply map_Forall_empty.
Qed.

(** Two votes tie, one of them for the greater root; the equivocator's vote does
    not count. *)
Example ex_head : @get_head minimal unit ex_store = Ok (root_of Byte.x0d).
Proof. vm_compute. reflexivity. Qed.

Lemma get_ancestor_correct_witness :
  first_not_after (st_blocks ex_store) (root_of Byte.x0d) 10 (root_of Byte.x0a).
Proof. apply (get_ancestor_correct ex_store ex_blocks_older (root_of Byte.x0d) 10). Defined.

Lemma get_head_ghost_witness :
  exists h, @get_head minimal unit ex_store = Ok h /\
    @ghost minimal ex_store (@effective_base ex_store) h.
Proof.
  destruct (@get_head_ghost minimal ex_store ex_blocks_older unit) as (h & Hh & Hg & _).
  exists h. split; [exact Hh|exact Hg].
Defined.


Lemma votes_inherited_witness :
  get_attestation_score ex_store (root_of Byte.x0d) (ex_state 17) [0; 1; 5] <=
  get_attestation_score ex_store (root_of Byte.x0a) (ex_state 17) [0; 1; 5].
Proof.
  apply (@votes_inherited minimal _ ex_store (ex_state 17) [0; 1; 5] _ _ (block_at 17 Byte.x0b) (block_at 8 Byte.x01)).
  - exact ex_blocks_older.
  - exact ex_state_17_wf.
  - vm_compute. reflexivity.
  - vm_compute. reflexivity.
  - vm_compute. reflexivity.
  - eapply ancestor_parent; [vm_compute; reflexivity|].
    eapply ancestor_parent; [vm_compute; reflexivity|]. apply ancestor_self.
Defined.

(** 33 slots later, in the middle of an epoch. *)
Lemma on_tick_correct_witness :
  @get_current_slot minimal (@on_tick minimal ex_store 310) = 51 /\
  @on_tick minimal ex_store 310 = ticked ex_store 310 true true.
Proof.
  destruct (@on_tick_correct minimal _ ex_store 310) as [Hs Ht].
  - vm_compute. repeat split; discriminate.
  - split; [rewrite Hs; reflexivity|rewrite Ht; reflexivity].
Defined.

(** ** The index of an attestation

    [on_attestation] validates an attestation of the right target without
    looking at its committee index; an index past the committees of the slot
    then aborts in the shuffling instead of being reported as invalid. *)
Definition ex_bad_index : Attestation :=
  mkAttestation (mkBitlist [Byte.x03] 1)
    (mkAttestationData 17 8 (root_of Byte.x0c) (mkCheckpoint 0 zero_chunk)
      (mkCheckpoint 2 (root_of Byte.x0b))) (replicate 96 Byte.x00).

Theorem on_attestation_aborts_on_index :
  @validate_on_attestation minimal ex_store (att_data ex_bad_index) false = Ok tt /\
  (@on_attestation ex_crypto minimal ex_store ex_bad_index false).2 = Panic.
Proof. split; vm_compute; reflexivity. Qed.

(** ** Block timeliness

    The slot clock reads the slot length of the network, but the attestation
    deadline is a share of the preset's: on a network of the mainnet preset with
    slots of 6 seconds, a block that arrives in the middle of its slot, past the
    deadline at a third of it, is recorded as timely. *)
Definition ex_devnet : Store := set_st_time ex_store (17 * 6 + 3).

Theorem late_block_is_timely :
  st_seconds_per_slot ex_devnet = 6 /\ @time_into_current_slot_ms mainnet ex_devnet = 3000 /\
  ATTESTATION_DUE_BPS (BeaconSpec := mainnet) * 6000 / BASIS_POINTS = 1999 /\
  st_block_timeliness (@record_block_timeliness mainnet ex_devnet (root_of Byte.x0c)) !! root_of Byte.x0c = Some true.
Proof. split_and!; vm_compute; reflexivity. Qed.

(** ** Importing a block *)

(** A digest that tells the example blocks apart. *)
Definition mix_digest (x : bytes) : bytes :=
  let b i := byte.unsigned (default Byte.x00 (x !! i)) in
  replicate 32 (byte.of_Z ((b 0%nat + 3 * b 31%nat + 5 * b 32%nat + 7 * b 63%nat) mod 256)).
Definition mix_crypto : Crypto := {|
  sha256 := mix_digest;
  bls_verify := fun _ _ _ => Some true;
  bls_fast_aggregate_verify := fun _ _ _ => Some true;
|}.

Definition anchor_header : BeaconBlockHeader :=
  mkBeaconBlockHeader 0 0 (root_of Byte.x01) zero_chunk (ok_value [] (@body_root mix_crypto minimal (b_body ex_block))).
Definition anchor_state : BeaconState := with_latest_block_header (ex_state 16) anchor_header.
Definition anchor_block : BeaconBlock :=
  mkBeaconBlock 0 0 (root_of Byte.x01) (ok_value [] (@state_root mix_crypto minimal anchor_state)) (b_body ex_block).

Definition next_before : BeaconState := ok_value anchor_state (@process_slots mix_crypto minimal anchor_state 17).
Definition next_block_at (root : bytes) : BeaconBlock :=
  mkBeaconBlock 17 (ok_value 0 (@get_beacon_proposer_index mix_crypto minimal unit next_before))
    (ok_value [] (@header_root mix_crypto (latest_block_header next_before))) root (b_body ex_block).
Definition next_block : SignedBeaconBlock :=
  mkSignedBeaconBlock
    (next_block_at (ok_value [] (@state_root mix_crypto minimal
       (ok_value next_before (@process_block mix_crypto minimal next_before (next_block_at zero_chunk) true)))))
    (replicate 96 Byte.x00).
Definition anchor_store : Store :=
  ok_value ex_store (@get_forkchoice_store mix_crypto minimal unit anchor_state anchor_block).
Definition next_state : BeaconState :=
  ok_value anchor_state (@phase0_state_transition mix_crypto minimal anchor_state next_block true).
(** The store after the block of slot 17 arrived in time. *)
Definition next_store : Store :=
  (@on_block mix_crypto minimal (@on_tick minimal anchor_store 102) next_block next_state 102).1.

Example next_block_imported :
  (@on_block mix_crypto minimal (@on_tick minimal anchor_store 102) next_block next_state 102).2 = Ok tt /\
  @get_head minimal unit next_store = Ok (root_of Byte.x30) /\
  st_proposer_boost_root next_store = root_of Byte.x30.
Proof. split_and!; vm_compute; reflexivity. Qed.

Lemma on_block_effect_witness :
  exists st' res, @on_block mix_crypto minimal (@on_tick minimal anchor_store 102) next_block next_state 102 = (st', res) /\
    st_time st' = 102.
Proof.
  destruct (@on_block mix_crypto minimal (@on_tick minimal anchor_store 102) next_block next_state 102)
    as [st' res] eqn:E.
  exists st', res. split; [reflexivity|].
  destruct (@on_block_effect mix_crypto minimal _ _ _ _ _ _ E) as [(-> & _)|(r & _ & _ & _ & _ & -> & _)];
    vm_compute; reflexivity.
Defined.

Lemma fork_choice_monotone_witness :
  cp_epoch (st_finalized anchor_store) <= cp_epoch (st_finalized next_store).
Proof.
  apply le_finalized, (@fork_choice_monotone mix_crypto minimal anchor_store next_store). unfold next_store.
  eapply rtc_l; [apply (step_tick anchor_store 102)|].
  eapply rtc_l; [apply (step_block _ next_block next_state 102)|]. apply rtc_refl.
Defined.

Lemma anchor_store_Ok : @get_forkchoice_store mix_crypto minimal unit anchor_state anchor_block = Ok anchor_store.
Proof. apply ok_value_Ok. vm_compute. reflexivity. Qed.

Lemma anchor_root : @block_root mix_crypto minimal anchor_block = Ok (root_of Byte.xc0).
Proof. vm_compute. reflexivity. Qed.

Lemma anchor_chain :
  st_blocks (@on_tick minimal anchor_store 102) = {[root_of Byte.xc0 := anchor_block]} /\
  st_block_states (@on_tick minimal anchor_store 102) = {[root_of Byte.xc0 := anchor_state]}.
Proof.
  destruct (@on_tick_same minimal anchor_store 102) as [-> ->].
  destruct (get_forkchoice_store_Ok _ _ _ anchor_store_Ok) as (r & Hr & -> & ->).
  rewrite anchor_root in Hr. injection Hr as <-. split; reflexivity.
Qed.

Lemma reachable_store_ok_witness :
  @chain_ok minimal next_store /\
  exists h, @get_head minimal unit next_store = Ok h /\ @ghost minimal next_store (effective_base next_store) h.
Proof.
  destruct anchor_chain as [Hblocks Hstates].
  apply (@reachable_store_ok mix_crypto minimal _ unit anchor_state anchor_block anchor_store next_store).
  - apply wf_set_latest_block_header. apply ex_state_wf. unfold u64, U64. lia.
  - vm_compute. split_and!; discriminate.
  - reflexivity.
  - intros r Hr. rewrite anchor_root in Hr. injection Hr as <-. vm_compute. discriminate.
  - exact anchor_store_Ok.
  - unfold next_store. eapply rtc_l; [apply (vstep_tick anchor_store 102)|]. eapply rtc_l; [|apply rtc_refl].
    apply (vstep_block _ next_block anchor_state next_state 102 (root_of Byte.x30)).
    + rewrite Hstates. apply lookup_singleton_Some. split; [vm_compute; reflexivity|reflexivity].
    + apply ok_value_Ok. vm_compute. reflexivity.
    + split; [vm_compute; discriminate|vm_compute; reflexivity].
    + constructor.
    + vm_compute. reflexivity.
    + rewrite Hblocks. intros b' [Hr _]%lookup_singleton_Some. vm_compute in Hr. discriminate.
    + rewrite Hblocks. intros c cb [<- <-]%lookup_singleton_Some Hp. vm_compute in Hp. discriminate.
Defined.
