(* ===== verification/Slashing.v ===== *)
(** * Slashing protection of the validator client

    crates/pharos-validator/src/slashing.rs (the EIP-3076 database), the two
    slashable signing paths of signing.rs and run.rs.

    The two SQLite tables are finite maps on their primary keys; the statements
    of the source are read as SQL on those maps.  Whether a [commit] reaches the
    disk is an argument of the operations ([durable]): a transaction that does
    not commit is rolled back.  Columns are [i64], so a [u64] is stored through
    [as i64]. *)

From Stdlib Require Import ZArith Lia String.
From stdpp Require Import strings pretty.
From S2P Require Import Prelude Text SszCodec SszBitfield SszTypes Merkle SszTree Shuffling Spec BeaconState Invariant Roots Accessors Mutators Justification Rewards EpochUpdates Operations Transition.

(** ** slashing.rs *)
Definition I63 : Z := 2 ^ 63.

(** [as i64] and back. *)
Definition as_i64 (z : Z) : Z := if z <? I63 then z else z - U64.
Definition i64_as_u64 (z : Z) : Z := z mod U64.

Inductive SlashingError : Type :=
  | DoubleBlockProposal (slot : Z)
  | BlockBelowLowWatermark (slot min_slot : Z)
  | DoubleAttestation (target_epoch : Z)
  | AttestationTargetBelowLowWatermark (target_epoch min_target : Z)
  | AttestationSourceBelowLowWatermark (source_epoch min_source : Z)
  | SurroundVote (new_src new_tgt ex_src ex_tgt : Z)
  | SurroundedVote (new_src new_tgt ex_src ex_tgt : Z)
  | Sqlite.

(** [signed_block(pubkey, slot, signing_root)] and
    [signed_attestation(pubkey, source_epoch, target_epoch, signing_root)]. *)
Record SlashingDb : Type := mkSlashingDb {
  signed_block : gmap (string * Z) (option string);
  signed_attestation : gmap (string * Z) (Z * option string);
}.

Definition empty_db : SlashingDb := mkSlashingDb ∅ ∅.

(** The rows of a table with [pubkey = ?1]. *)
Definition rows_of {A} (table : gmap (string * Z) A) (pubkey : string) : list (Z * A) :=
  omap (fun '((pk, k), row) => if decide (pk = pubkey) then Some (k, row) else None) (map_to_list table).

(** [SELECT MIN(..)]: null on no rows. *)
Definition sql_min (l : list Z) : option Z :=
  foldr (fun x acc => Some (match acc with Some y => Z.min x y | None => x end)) None l.

(** The comparison of the stored with the new signing root. *)
Definition same_root (stored new : option string) : bool :=
  match stored, new with
  | Some a, Some b => bool_decide (a = b)
  | None, None => true
  | _, _ => false
  end.

Abbreviation db_outcome E := (SlashingDb * result E unit)%type.

Definition check_and_record_block_proposal (db : SlashingDb) (pubkey : string) (slot : Z)
    (signing_root : option string) (durable : bool) : db_outcome SlashingError :=
  let slot_i := as_i64 slot in
  let min_slot := i64_as_u64 <$> sql_min (fst <$> rows_of (signed_block db) pubkey) in
  let below := match min_slot with Some min => slot <? min | None => false end in
  if below then (db, Err (BlockBelowLowWatermark slot (default 0 min_slot)))
  else
    match signed_block db !! (pubkey, slot_i) with
    | Some stored_root =>
        if same_root stored_root signing_root then (db, Ok tt)
        else (db, Err (DoubleBlockProposal slot))
    | None =>
        if durable
        then (mkSlashingDb (<[(pubkey, slot_i) := signing_root]> (signed_block db)) (signed_attestation db), Ok tt)
        else (db, Err Sqlite)
    end.

(** [?2 < source_epoch AND ?3 > target_epoch OR ?2 > source_epoch AND ?3 < target_epoch]. *)
Definition surrounds (src_i tgt_i : Z) (row : Z * (Z * option string)) : bool :=
  let '(target_epoch, (source_epoch, _)) := row in
  ((src_i <? source_epoch) && (target_epoch <? tgt_i)) || ((source_epoch <? src_i) && (tgt_i <? target_epoch)).

Definition check_and_record_attestation (db : SlashingDb) (pubkey : string) (source_epoch target_epoch : Z)
    (signing_root : option string) (durable : bool) : db_outcome SlashingError :=
  let src_i := as_i64 source_epoch in
  let tgt_i := as_i64 target_epoch in
  let rows := rows_of (signed_attestation db) pubkey in
  let min_src := i64_as_u64 <$> sql_min ((fun row => fst (snd row)) <$> rows) in
  let min_tgt := i64_as_u64 <$> sql_min (fst <$> rows) in
  let existing := signed_attestation db !! (pubkey, tgt_i) in
  if match min_src with Some min => source_epoch <? min | None => false end
  then (db, Err (AttestationSourceBelowLowWatermark source_epoch (default 0 min_src)))
  else if match min_tgt with Some min => target_epoch <=? min | None => false end then
    match existing with
    | Some (_, stored_root) =>
        if same_root stored_root signing_root then (db, Ok tt) else (db, Err (DoubleAttestation target_epoch))
    | None => (db, Err (AttestationTargetBelowLowWatermark target_epoch (default 0 min_tgt)))
    end
  else
    match existing with
    | Some (_, stored_root) =>
        if same_root stored_root signing_root then (db, Ok tt) else (db, Err (DoubleAttestation target_epoch))
    | None =>
        match List.find (surrounds src_i tgt_i) rows with
        | Some (ex_tgt_i, (ex_src_i, _)) =>
            let ex_src := i64_as_u64 ex_src_i in
            let ex_tgt := i64_as_u64 ex_tgt_i in
            if (source_epoch <? ex_src) && (ex_tgt <? target_epoch)
            then (db, Err (SurroundVote source_epoch target_epoch ex_src ex_tgt))
            else (db, Err (SurroundedVote source_epoch target_epoch ex_src ex_tgt))
        | None =>
            if durable
            then (mkSlashingDb (signed_block db)
                    (<[(pubkey, tgt_i) := (src_i, signing_root)]> (signed_attestation db)), Ok tt)
            else (db, Err Sqlite)
        end
    end.

(** ** signing.rs *)
Inductive SigningError : Type :=
  | SigningSlashing (e : SlashingError)
  | SignerFailed.

Record ForkContext : Type := mkForkContext {
  fc_current_version : bytes;
  fc_genesis_validators_root : bytes;
}.

Section signing.
  Context `{Crypto} `{Hex}.

Definition domain_for (fork : ForkContext) (domain_type : bytes) : result SigningError bytes :=
  compute_domain domain_type (fc_current_version fork) (fc_genesis_validators_root fork).

(** The signing root of an object with root [object_root]. *)
Definition signing_root_for (fork : ForkContext) (domain_type : bytes) (object_root : result SszError bytes)
    : result SigningError bytes :=
  domain ← domain_for fork domain_type; compute_signing_root object_root domain.

(** [sign_beacon_block] and [sign_attestation] up to the call of the signer:
    the signing root the signer is asked to sign. *)
Definition authorize_block (db : SlashingDb) (pubkey : string) (object_root : result SszError bytes) (slot : Z)
    (fork : ForkContext) (durable : bool) : SlashingDb * result SigningError bytes :=
  match signing_root_for fork DOMAIN_BEACON_PROPOSER object_root with
  | Ok signing_root =>
      let '(db, checked) := check_and_record_block_proposal db pubkey slot (Some (to_hex signing_root)) durable in
      (db, map_err SigningSlashing checked ≫= fun _ => Ok signing_root)
  | Err e => (db, Err e)
  | Panic => (db, Panic)
  end.

Definition authorize_attestation (db : SlashingDb) (pubkey : string) (object_root : result SszError bytes)
    (source_epoch target_epoch : Z) (fork : ForkContext) (durable : bool)
    : SlashingDb * result SigningError bytes :=
  match signing_root_for fork DOMAIN_BEACON_ATTESTER object_root with
  | Ok signing_root =>
      let '(db, checked) := check_and_record_attestation db pubkey source_epoch target_epoch
                              (Some (to_hex signing_root)) durable in
      (db, map_err SigningSlashing checked ≫= fun _ => Ok signing_root)
  | Err e => (db, Err e)
  | Panic => (db, Panic)
  end.

(** [signer.sign(..)] of a local or remote key; [None] is an error. *)
Definition sign_beacon_block (signer : bytes -> option bytes) (db : SlashingDb) (pubkey : string)
    (object_root : result SszError bytes) (slot : Z) (fork : ForkContext) (durable : bool)
    : SlashingDb * result SigningError bytes :=
  let '(db, authorized) := authorize_block db pubkey object_root slot fork durable in
  (db, signing_root ← authorized; ok_or (signer signing_root) SignerFailed).

Definition sign_attestation (signer : bytes -> option bytes) (db : SlashingDb) (pubkey : string)
    (object_root : result SszError bytes) (source_epoch target_epoch : Z) (fork : ForkContext) (durable : bool)
    : SlashingDb * result SigningError bytes :=
  let '(db, authorized) := authorize_attestation db pubkey object_root source_epoch target_epoch fork durable in
  (db, signing_root ← authorized; ok_or (signer signing_root) SignerFailed).

(** ** run.rs: the messages the duties hand to the signing paths

    [run_proposer] signs the block the beacon node returned for the slot of the
    duty; [run_attester] signs the returned data, with its index cleared from
    Electra on, and takes the epochs from that data. *)
Context `{BeaconSpec}.

Inductive duty : Type :=
  | Propose (pubkey : string) (slot : Z) (block : BeaconBlock) (fork : ForkContext) (durable : bool)
  | Attest (pubkey : string) (data : AttestationData) (is_electra : bool) (fork : ForkContext) (durable : bool).

Definition typed_att (data : AttestationData) (is_electra : bool) : AttestationData :=
  if is_electra
  then mkAttestationData (ad_slot data) 0 (ad_beacon_block_root data) (ad_source data) (ad_target data)
  else data.

(** The database and what has been handed to the signer. *)
Record VcState : Type := mkVcState {
  vc_db : SlashingDb;
  vc_blocks : list (string * BeaconBlock);
  vc_attestations : list (string * AttestationData);
}.

(** Up to the signer: what follows sends the signature to the beacon node. *)
Definition run_proposer (vc : VcState) (pubkey : string) (slot : Z) (block : BeaconBlock) (fork : ForkContext)
    (durable : bool) : VcState :=
  let '(db, r) := authorize_block (vc_db vc) pubkey (block_root block) slot fork durable in
  mkVcState db (if is_ok r then (pubkey, block) :: vc_blocks vc else vc_blocks vc) (vc_attestations vc).

Definition run_attester (vc : VcState) (pubkey : string) (data : AttestationData) (is_electra : bool)
    (fork : ForkContext) (durable : bool) : VcState :=
  let data := typed_att data is_electra in
  let '(db, r) := authorize_attestation (vc_db vc) pubkey (attestation_data_root data)
                    (cp_epoch (ad_source data)) (cp_epoch (ad_target data)) fork durable in
  mkVcState db (vc_blocks vc) (if is_ok r then (pubkey, data) :: vc_attestations vc else vc_attestations vc).

Definition run_duty (vc : VcState) (d : duty) : VcState :=
  match d with
  | Propose pubkey slot block fork durable => run_proposer vc pubkey slot block fork durable
  | Attest pubkey data is_electra fork durable => run_attester vc pubkey data is_electra fork durable
  end.

Definition run_duties (db : SlashingDb) (duties : list duty) : VcState :=
  foldl run_duty (mkVcState db [] []) duties.
End signing.

(** ** Facts on the tables *)
Lemma elem_of_rows {A} (table : gmap (string * Z) A) pk k row :
  (k, row) ∈ rows_of table pk <-> table !! (pk, k) = Some row.
Proof.
  unfold rows_of. rewrite list_elem_of_omap. split.
  - intros ([[pk' k'] row'] & Hin & Heq). case_decide; [|done]. simplify_eq.
    by apply elem_of_map_to_list in Hin.
  - intros Hl. exists ((pk, k), row). split; [by apply elem_of_map_to_list|]. by rewrite decide_True.
Qed.

Lemma as_i64_inj a b : u64 a -> u64 b -> as_i64 a = as_i64 b -> a = b.
Proof. unfold as_i64, u64. assert (U64 = 2 * I63) by done. repeat case_match; zbool; lia. Qed.

Lemma as_i64_small z : z < I63 -> as_i64 z = z.
Proof. intros Hz. unfold as_i64. by rewrite (proj2 (Z.ltb_lt _ _) Hz). Qed.

Lemma same_root_Some stored h : same_root stored (Some h) = true <-> stored = Some h.
Proof. destruct stored; cbn; [rewrite bool_decide_eq_true; naive_solver|naive_solver]. Qed.

(** An accepted proposal is recorded, now or before. *)
Lemma check_block_proposal_Ok db pk slot h durable db' :
  check_and_record_block_proposal db pk slot (Some h) durable = (db', Ok tt) ->
  signed_attestation db' = signed_attestation db /\
  signed_block db' = <[(pk, as_i64 slot) := Some h]> (signed_block db) /\
  (forall stored, signed_block db !! (pk, as_i64 slot) = Some stored -> stored = Some h).
Proof.
  unfold check_and_record_block_proposal. destruct (match _ <$> _ with Some _ => _ | None => _ end); [done|].
  destruct (signed_block db !! (pk, as_i64 slot)) as [stored|] eqn:Hs.
  - destruct (same_root stored (Some h)) eqn:Hr; [|done]. apply same_root_Some in Hr as ->. intros [= <-].
    split_and!; [done|by rewrite insert_id|by intros ? [= <-]].
  - destruct durable; [|done]. by intros [= <-].
Qed.

(** An accepted attestation was recorded before, or is new and neither
    surrounds nor is surrounded by any recorded one. *)
Lemma check_attestation_Ok db pk s t h durable db' :
  check_and_record_attestation db pk s t (Some h) durable = (db', Ok tt) ->
  (db' = db /\ exists s', signed_attestation db !! (pk, as_i64 t) = Some (s', Some h)) \/
  (signed_attestation db !! (pk, as_i64 t) = None /\ signed_block db' = signed_block db /\
   signed_attestation db' = <[(pk, as_i64 t) := (as_i64 s, Some h)]> (signed_attestation db) /\
   forall t' row, signed_attestation db !! (pk, t') = Some row -> surrounds (as_i64 s) (as_i64 t) (t', row) = false).
Proof.
  unfold check_and_record_attestation. destruct (match _ <$> sql_min (_ <$> _) with Some _ => _ | None => _ end); [done|].
  destruct (signed_attestation db !! (pk, as_i64 t)) as [[s' stored]|] eqn:He.
  - intros Hm. left. destruct (same_root stored (Some h)) eqn:Hr; [|by repeat case_match].
    apply same_root_Some in Hr as ->. repeat case_match; simplify_eq; eauto.
  - destruct (match _ with Some min => t <=? min | None => false end); [done|].
    repeat (case_match; try done). intros [= <-]. right. split_and!; try done. intros t' row Hrow.
    eapply List.find_none; [done|]. by apply list_elem_of_In, elem_of_rows.
Qed.

Lemma authorize_block_Ok `{Crypto} `{Hex} db pk root slot f durable db' r :
  authorize_block db pk root slot f durable = (db', r) ->
  (is_ok r = false /\ db' = db) \/
  exists sr, r = Ok sr /\ signing_root_for f DOMAIN_BEACON_PROPOSER root = Ok sr /\
    signed_attestation db' = signed_attestation db /\
    signed_block db' = <[(pk, as_i64 slot) := Some (to_hex sr)]> (signed_block db) /\
    (forall stored, signed_block db !! (pk, as_i64 slot) = Some stored -> stored = Some (to_hex sr)).
Proof.
  unfold authorize_block. destruct (signing_root_for _ _ _) as [sr| |] eqn:Hsr; [|by intros [= <- <-]; left..].
  destruct (check_and_record_block_proposal _ _ _ _ _) as [db1 c] eqn:Hc. intros [= <- <-].
  destruct c as [[]| |]; [right; exists sr; split_and!; try done; by eapply check_block_proposal_Ok| |]; left;
    (split; [done|]); revert Hc; unfold check_and_record_block_proposal; repeat case_match; congruence.
Qed.

Lemma authorize_attestation_Ok `{Crypto} `{Hex} db pk root s t f durable db' r :
  authorize_attestation db pk root s t f durable = (db', r) ->
  (is_ok r = false /\ db' = db) \/
  exists sr, r = Ok sr /\ signing_root_for f DOMAIN_BEACON_ATTESTER root = Ok sr /\
    check_and_record_attestation db pk s t (Some (to_hex sr)) durable = (db', Ok tt).
Proof.
  unfold authorize_attestation. destruct (signing_root_for _ _ _) as [sr| |] eqn:Hsr; [|by intros [= <- <-]; left..].
  destruct (check_and_record_attestation _ _ _ _ _ _) as [db1 c] eqn:Hc. intros [= <- <-].
  destruct c as [[]| |]; [right; by exists sr| |]; left;
    (split; [done|]); revert Hc; unfold check_and_record_attestation; repeat case_match; congruence.
Qed.

(** ** The messages signed are never slashable *)
Section safety.
  Context `{Crypto} `{HexOk} `{BeaconSpec}.

Definition att_root (f : ForkContext) (d : AttestationData) : result SigningError bytes :=
  signing_root_for f DOMAIN_BEACON_ATTESTER (attestation_data_root d).
Definition proposal_root (f : ForkContext) (b : BeaconBlock) : result SigningError bytes :=
  signing_root_for f DOMAIN_BEACON_PROPOSER (block_root b).

Definition att_request (duties : list duty) (pk : string) (d : AttestationData) (f : ForkContext) : Prop :=
  exists data is_electra durable, Attest pk data is_electra f durable ∈ duties /\ d = typed_att data is_electra.
Definition block_request (duties : list duty) (pk : string) (b : BeaconBlock) (f : ForkContext) : Prop :=
  exists slot durable, Propose pk slot b f durable ∈ duties.

(** What the requests satisfy: epochs below [2^63], blocks of the slot they are
    proposed for, and no two different messages with one signing root. *)
Record honest_duties (duties : list duty) : Prop := {
  hd_epochs : forall pk d f, att_request duties pk d f ->
    0 <= cp_epoch (ad_source d) < I63 /\ 0 <= cp_epoch (ad_target d) < I63;
  hd_slots : forall pk slot b f durable, Propose pk slot b f durable ∈ duties -> slot = b_slot b /\ u64 slot;
  hd_votes : forall pk d1 f1 d2 f2 sr, att_request duties pk d1 f1 -> att_request duties pk d2 f2 ->
    att_root f1 d1 = Ok sr -> att_root f2 d2 = Ok sr -> d1 = d2;
  hd_blocks : forall pk b1 f1 b2 f2 sr, block_request duties pk b1 f1 -> block_request duties pk b2 f2 ->
    proposal_root f1 b1 = Ok sr -> proposal_root f2 b2 = Ok sr -> b1 = b2;
}.

(** No two votes of a key in the table surround each other, and a row with the
    signing root of a request has its epochs. *)
Record consistent_db (duties : list duty) (db : SlashingDb) : Prop := {
  cd_surround : forall pk t1 s1 r1 t2 s2 r2,
    signed_attestation db !! (pk, t1) = Some (s1, r1) -> signed_attestation db !! (pk, t2) = Some (s2, r2) ->
    ~ (s1 < s2 /\ t2 < t1);
  cd_rows : forall pk t s d f sr, signed_attestation db !! (pk, t) = Some (s, Some (to_hex sr)) ->
    att_request duties pk d f -> att_root f d = Ok sr ->
    s = cp_epoch (ad_source d);
}.

Record vc_inv (duties : list duty) (vc : VcState) : Prop := {
  vi_db : consistent_db duties (vc_db vc);
  vi_votes : forall pk d, (pk, d) ∈ vc_attestations vc -> exists f sr, att_request duties pk d f /\ att_root f d = Ok sr /\
    signed_attestation (vc_db vc) !! (pk, cp_epoch (ad_target d)) = Some (cp_epoch (ad_source d), Some (to_hex sr));
  vi_blocks : forall pk b, (pk, b) ∈ vc_blocks vc -> exists f sr, block_request duties pk b f /\ proposal_root f b = Ok sr /\
    signed_block (vc_db vc) !! (pk, as_i64 (b_slot b)) = Some (Some (to_hex sr));
}.

Lemma run_propose_inv duties vc pk slot b f durable :
  honest_duties duties -> vc_inv duties vc -> Propose pk slot b f durable ∈ duties ->
  vc_inv duties (run_duty vc (Propose pk slot b f durable)).
Proof using.
  intros Hd [Hdb Hv Hb] Hin. cbn [run_duty]. unfold run_proposer. destruct (authorize_block _ _ _ _ _ _) as [db r] eqn:Ha.
  destruct (authorize_block_Ok _ _ _ _ _ _ _ _ Ha) as [[-> ->]|(sr & -> & Hsr & Hatt & Hblk & Hold)]; [by split|].
  destruct (hd_slots _ Hd _ _ _ _ _ Hin) as [-> Hu]. cbn [is_ok]. split; cbn.
  - destruct Hdb as [Hs Hr]. split; rewrite Hatt; [exact Hs|exact Hr].
  - intros pk' d Hin'. rewrite Hatt. by apply Hv.
  - intros pk' b' [[= -> ->]|Hin']%elem_of_cons; rewrite Hblk.
    { exists f, sr. split_and!; [by exists (b_slot b), durable|done|by rewrite lookup_insert_eq]. }
    destruct (Hb _ _ Hin') as (f' & sr' & Hreq & Hsr' & Hl). exists f', sr'. split_and!; [done..|].
    destruct (decide ((pk, as_i64 (b_slot b)) = (pk', as_i64 (b_slot b')))) as [Heq|Hne];
      [|by rewrite lookup_insert_ne].
    rewrite <- Heq in *. rewrite lookup_insert_eq. f_equal. symmetry. by apply Hold.
Qed.

Lemma consistent_insert duties db db' pk d f sr :
  honest_duties duties -> consistent_db duties db -> att_request duties pk d f -> att_root f d = Ok sr ->
  signed_attestation db' = <[(pk, cp_epoch (ad_target d)) := (cp_epoch (ad_source d), Some (to_hex sr))]> (signed_attestation db) ->
  (forall t row, signed_attestation db !! (pk, t) = Some row ->
    surrounds (cp_epoch (ad_source d)) (cp_epoch (ad_target d)) (t, row) = false) ->
  consistent_db duties db'.
Proof.
  intros Hd [Hs Hr] Hreq Hsr Hdb' Hns. split; rewrite Hdb'.
  - intros pk' t1 s1 r1 t2 s2 r2.
    assert (Hno : forall t s r, signed_attestation db !! (pk, t) = Some (s, r) ->
      ~ (cp_epoch (ad_source d) < s /\ t < cp_epoch (ad_target d)) /\
      ~ (s < cp_epoch (ad_source d) /\ cp_epoch (ad_target d) < t)).
    { intros t s r Hl. specialize (Hns _ _ Hl). unfold surrounds in Hns. zbool. lia. }
    intros [[[= <- <-] [= <- <-]]|[_ Hl1]]%lookup_insert_Some [[[= ] [= <- <-]]|[_ Hl2]]%lookup_insert_Some; subst.
    + lia.
    + by destruct (Hno _ _ _ Hl2).
    + by destruct (Hno _ _ _ Hl1).
    + by eapply Hs.
  - intros pk' t s d' f' sr' [[[= <- <-] Hrow]|[_ Hl]]%lookup_insert_Some Hreq' Hsr'; [|by eapply Hr].
    assert (cp_epoch (ad_source d) = s /\ to_hex sr = to_hex sr') as [<- <-%to_hex_inj] by (split; congruence).
    by rewrite (hd_votes _ Hd _ _ _ _ _ _ Hreq Hreq' Hsr Hsr').
Qed.

Lemma run_attest_inv duties vc pk data el f durable :
  honest_duties duties -> vc_inv duties vc -> Attest pk data el f durable ∈ duties ->
  vc_inv duties (run_duty vc (Attest pk data el f durable)).
Proof.
  intros Hd [Hdb Hv Hb] Hin. cbn [run_duty]. unfold run_attester. set (d := typed_att data el).
  assert (Hreq : att_request duties pk d f) by (by exists data, el, durable).
  destruct (hd_epochs _ Hd _ _ _ Hreq) as [Hsrc Htgt].
  destruct (authorize_attestation _ _ _ _ _ _ _) as [db r] eqn:Ha.
  destruct (authorize_attestation_Ok _ _ _ _ _ _ _ _ _ Ha) as [[-> ->]|(sr & -> & Hsr & Hc)]; [by split|].
  apply check_attestation_Ok in Hc. rewrite !as_i64_small in Hc by lia.
  destruct Hc as [[-> [s' Hrow]]|(Hnew & Hblk & Hatt & Hns)]; split; cbn; try done.
  - intros pk' d' [[= -> ->]|?]%elem_of_cons; [|by apply Hv]. exists f, sr. split_and!; [done..|].
    by rewrite Hrow, (cd_rows _ _ Hdb _ _ _ _ _ _ Hrow Hreq Hsr).
  - by eapply consistent_insert.
  - intros pk' d' [[= -> ->]|Hin']%elem_of_cons; rewrite Hatt.
    { exists f, sr. by rewrite lookup_insert_eq. }
    destruct (Hv _ _ Hin') as (f' & sr' & Hreq' & Hsr' & Hl). exists f', sr'.
    rewrite lookup_insert_ne by congruence. done.
  - by rewrite Hblk.
Qed.

Lemma run_duties_inv duties db :
  honest_duties duties -> consistent_db duties db -> vc_inv duties (run_duties db duties).
Proof.
  intros Hd Hdb. unfold run_duties.
  assert (Hall : forall todo vc, (forall d, d ∈ todo -> d ∈ duties) -> vc_inv duties vc -> vc_inv duties (foldl run_duty vc todo)).
  { intros todo. induction todo as [|[] todo IH]; intros vc Hsub Hvc; cbn [foldl]; [done|apply IH..];
      try (intros; apply Hsub; by right); [apply run_propose_inv|apply run_attest_inv]; try done; apply Hsub; by left. }
  apply Hall; [done|]. split; [done|intros ?? []%elem_of_nil..].
Qed.

(** C1: the validator client never signs a slashable pair of messages.  Let the
    blocks of the duties be of the duties' slots, the epochs fit the columns and
    no two requests of a key collide in their signing roots ([honest_duties]),
    and let the database be consistent.  Then, in any order of the duties and
    with any failures of the disk, no two attestations handed to the signer for
    one key are a double or a surround vote, and no two blocks handed to it for
    one key share a slot without being the same block. *)
Theorem no_slashable_messages duties db :
  honest_duties duties -> consistent_db duties db ->
  let vc := run_duties db duties in
  (forall pk d1 d2, (pk, d1) ∈ vc_attestations vc -> (pk, d2) ∈ vc_attestations vc ->
    is_slashable_attestation_data d1 d2 = false) /\
  (forall pk b1 b2, (pk, b1) ∈ vc_blocks vc -> (pk, b2) ∈ vc_blocks vc -> b_slot b1 = b_slot b2 -> b1 = b2).
Proof.
  intros Hd Hdb vc. destruct (run_duties_inv _ _ Hd Hdb) as [Hcd Hv Hb]. fold vc in Hcd, Hv, Hb. split.
  - intros pk d1 d2 (f1 & sr1 & Hq1 & Hr1 & Hl1)%Hv (f2 & sr2 & Hq2 & Hr2 & Hl2)%Hv.
    unfold is_slashable_attestation_data. apply orb_false_iff. split.
    + apply andb_false_iff. destruct (Z.eqb_spec (cp_epoch (ad_target d1)) (cp_epoch (ad_target d2))) as [Heq|]; [left|by right].
      rewrite Heq, Hl2 in Hl1. apply bool_decide_eq_false. intros []. eapply (hd_votes _ Hd); [exact Hq1|exact Hq2|exact Hr1|].
      rewrite Hr2. f_equal. apply to_hex_inj. congruence.
    + pose proof (cd_surround _ _ Hcd _ _ _ _ _ _ _ Hl1 Hl2) as Hs. apply andb_false_iff.
      destruct (Z.ltb_spec (cp_epoch (ad_source d1)) (cp_epoch (ad_source d2))); [right|by left].
      apply Z.ltb_ge. lia.
  - intros pk b1 b2 (f1 & sr1 & Hq1 & Hr1 & Hl1)%Hb (f2 & sr2 & Hq2 & Hr2 & Hl2)%Hb Heq.
    rewrite Heq, Hl2 in Hl1. eapply (hd_blocks _ Hd); [exact Hq1|exact Hq2|exact Hr1|].
    rewrite Hr2. f_equal. apply to_hex_inj. congruence.
Qed.
End safety.
