(* ===== verification/Interchange.v ===== *)
(** * EIP-3076 interchange

    crates/pharos-validator/src/interchange.rs: import of an interchange file
    into the slashing protection database in one transaction, and export of the
    database.  The structs are those serde reads and writes; the JSON text itself
    is serde's.  Exporting and importing again is shown to lose nothing. *)

From Stdlib Require Import ZArith Lia String.
From stdpp Require Import strings pretty sorting.
From S2P Require Import Prelude Text Slashing.

Record InterchangeMetadata : Type := mkInterchangeMetadata {
  interchange_format_version : string;
  im_genesis_validators_root : string;
}.

Record InterchangeBlock : Type := mkInterchangeBlock {
  ib_slot : string;
  ib_signing_root : option string;
}.

Record InterchangeAttestation : Type := mkInterchangeAttestation {
  ia_source_epoch : string;
  ia_target_epoch : string;
  ia_signing_root : option string;
}.

Record InterchangeEntry : Type := mkInterchangeEntry {
  ie_pubkey : string;
  ie_signed_blocks : list InterchangeBlock;
  ie_signed_attestations : list InterchangeAttestation;
}.

Record InterchangeFile : Type := mkInterchangeFile {
  if_metadata : InterchangeMetadata;
  if_data : list InterchangeEntry;
}.

Inductive InterchangeError : Type :=
  | UnsupportedVersion (version : string)
  | GenesisRootMismatch (file expected : string)
  | InvalidInteger (field : string) (source : ParseIntError)
  | InterchangeSqlite.

(** ** Import *)

(** [INSERT OR IGNORE] on a table with primary key [k]. *)
Definition insert_or_ignore {A} (k : string * Z) (row : A) (table : gmap (string * Z) A) : gmap (string * Z) A :=
  match table !! k with
  | Some _ => table
  | None => <[k := row]> table
  end.

Definition import_block (pubkey : string) (db : SlashingDb) (block : InterchangeBlock)
    : result InterchangeError SlashingDb :=
  slot ← map_err (InvalidInteger "slot") (parse_u64 (ib_slot block));
  Ok (mkSlashingDb (insert_or_ignore (pubkey, as_i64 slot) (ib_signing_root block) (signed_block db))
        (signed_attestation db)).

Definition import_attestation (pubkey : string) (db : SlashingDb) (att : InterchangeAttestation)
    : result InterchangeError SlashingDb :=
  src ← map_err (InvalidInteger "source_epoch") (parse_u64 (ia_source_epoch att));
  tgt ← map_err (InvalidInteger "target_epoch") (parse_u64 (ia_target_epoch att));
  Ok (mkSlashingDb (signed_block db)
        (insert_or_ignore (pubkey, as_i64 tgt) (as_i64 src, ia_signing_root att) (signed_attestation db))).

Definition import_entry (db : SlashingDb) (entry : InterchangeEntry) : result InterchangeError SlashingDb :=
  db ← foldM (import_block (ie_pubkey entry)) (ie_signed_blocks entry) db;
  foldM (import_attestation (ie_pubkey entry)) (ie_signed_attestations entry) db.

(** An error inside the transaction rolls it back. *)
Definition import_interchange (db : SlashingDb) (interchange : InterchangeFile)
    (expected_genesis_validators_root : string) (durable : bool) : db_outcome InterchangeError :=
  let metadata := if_metadata interchange in
  if negb (bool_decide (interchange_format_version metadata = "5"%string))
  then (db, Err (UnsupportedVersion (interchange_format_version metadata)))
  else if negb (bool_decide (im_genesis_validators_root metadata = expected_genesis_validators_root))
  then (db, Err (GenesisRootMismatch (im_genesis_validators_root metadata) expected_genesis_validators_root))
  else
    match foldM import_entry (if_data interchange) db with
    | Ok db' => if durable then (db', Ok tt) else (db, Err InterchangeSqlite)
    | Err e => (db, Err e)
    | Panic => (db, Panic)
    end.

(** ** Export *)

(** [ORDER BY] on text (bytewise) and on an integer column. *)
Definition text_le (a b : string) : Prop := Is_true (String.leb a b).
#[global] Instance text_le_dec a b : Decision (text_le a b).
Proof. unfold text_le. apply _. Defined.
Definition row_le {A} (a b : Z * A) : Prop := a.1 <= b.1.
#[global] Instance row_le_dec {A} (a b : Z * A) : Decision (row_le a b).
Proof. unfold row_le. apply _. Defined.

(** [SELECT DISTINCT pubkey .. UNION SELECT DISTINCT pubkey .. ORDER BY pubkey]. *)
Definition exported_pubkeys (db : SlashingDb) : list string :=
  merge_sort text_le (remove_dups
    (((fun '((pk, _), _) => pk) <$> map_to_list (signed_block db)) ++
     ((fun '((pk, _), _) => pk) <$> map_to_list (signed_attestation db)))).

Definition export_block (row : Z * option string) : InterchangeBlock :=
  let '(slot_i, signing_root) := row in mkInterchangeBlock (u64_to_string (i64_as_u64 slot_i)) signing_root.

Definition export_attestation (row : Z * (Z * option string)) : InterchangeAttestation :=
  let '(tgt_i, (src_i, signing_root)) := row in
  mkInterchangeAttestation (u64_to_string (i64_as_u64 src_i)) (u64_to_string (i64_as_u64 tgt_i)) signing_root.

Definition export_entry (db : SlashingDb) (pubkey : string) : InterchangeEntry :=
  mkInterchangeEntry pubkey
    (export_block <$> merge_sort row_le (rows_of (signed_block db) pubkey))
    (export_attestation <$> merge_sort row_le (rows_of (signed_attestation db) pubkey)).

Definition export_interchange (db : SlashingDb) (genesis_validators_root : string) : InterchangeFile :=
  mkInterchangeFile (mkInterchangeMetadata "5" genesis_validators_root)
    (export_entry db <$> exported_pubkeys db).

Definition export_slashing_protection (db : SlashingDb) (pubkeys_hex : list string)
    (genesis_validators_root : string) : InterchangeFile :=
  let full := export_interchange db genesis_validators_root in
  mkInterchangeFile (if_metadata full)
    (if bool_decide (pubkeys_hex = []) then if_data full
     else base.filter (fun e => ie_pubkey e ∈ pubkeys_hex) (if_data full)).

(** ** Import is a union *)
Lemma insert_or_ignore_union {A} k (row : A) table : insert_or_ignore k row table = table ∪ {[k := row]}.
Proof.
  unfold insert_or_ignore. destruct (table !! k) as [old|] eqn:Hk.
  - apply map_eq. intros i. rewrite lookup_union. destruct (decide (i = k)) as [->|Hne].
    + rewrite Hk, lookup_singleton_eq. done.
    + rewrite lookup_singleton_ne by done. by destruct (table !! i).
  - by rewrite insert_union_singleton_r.
Qed.

(** Columns are 64-bit signed. *)
Definition i64 (z : Z) : Prop := - I63 <= z < I63.

Lemma as_i64_as_u64 z : i64 z -> as_i64 (i64_as_u64 z) = z.
Proof.
  unfold i64, as_i64, i64_as_u64. intros Hz. assert (U64 = 2 * I63 /\ 0 < I63) as [HU ?] by done.
  destruct (decide (0 <= z)).
  - rewrite Z.mod_small by lia. by rewrite (proj2 (Z.ltb_lt _ _)) by lia.
  - rewrite <- (Z.mod_add z 1), Z.mod_small by lia. rewrite (proj2 (Z.ltb_ge _ _)) by lia. lia.
Qed.

Lemma parse_exported z : parse_u64 (u64_to_string (i64_as_u64 z)) = Ok (i64_as_u64 z).
Proof. apply parse_u64_to_string. unfold u64, i64_as_u64. by apply Z.mod_pos_bound. Qed.

Lemma import_exported_block pk db row : i64 row.1 ->
  import_block pk db (export_block row) =
  Ok (mkSlashingDb (signed_block db ∪ {[(pk, row.1) := row.2]}) (signed_attestation db)).
Proof.
  destruct row as [k r]. intros Hk. unfold import_block, export_block. cbn [ib_slot ib_signing_root].
  rewrite parse_exported. cbn [map_err mbind result_bind fst snd]. by rewrite as_i64_as_u64, insert_or_ignore_union.
Qed.

Lemma import_exported_attestation pk db row : i64 row.1 /\ i64 row.2.1 ->
  import_attestation pk db (export_attestation row) =
  Ok (mkSlashingDb (signed_block db) (signed_attestation db ∪ {[(pk, row.1) := row.2]})).
Proof.
  destruct row as [k [s r]]. intros [Hk Hs]. unfold import_attestation, export_attestation.
  cbn [ia_source_epoch ia_target_epoch ia_signing_root]. rewrite !parse_exported.
  cbn [map_err mbind result_bind fst snd] in *. by rewrite !as_i64_as_u64, insert_or_ignore_union.
Qed.

(** The rows of one key as entries of the table. *)
Definition keyed {A} (pk : string) (rows : list (Z * A)) : list ((string * Z) * A) :=
  (fun row => ((pk, row.1), row.2)) <$> rows.

Lemma import_blocks_union pk rows db :
  Forall (fun row => i64 row.1) rows ->
  foldM (import_block pk) (export_block <$> rows) db =
  Ok (mkSlashingDb (signed_block db ∪ list_to_map (keyed pk rows)) (signed_attestation db)).
Proof.
  revert db. induction rows as [|row rows IH]; intros db Hr; inversion Hr; subst.
  { cbn. rewrite (right_id_L ∅ (∪)). by destruct db. }
  rewrite fmap_cons. cbn [foldM]. rewrite import_exported_block by done. cbn [mbind result_bind].
  rewrite IH by done. cbn. by rewrite <- (assoc_L (∪)), <- insert_union_singleton_l.
Qed.

Lemma import_attestations_union pk rows db :
  Forall (fun row => i64 row.1 /\ i64 row.2.1) rows ->
  foldM (import_attestation pk) (export_attestation <$> rows) db =
  Ok (mkSlashingDb (signed_block db) (signed_attestation db ∪ list_to_map (keyed pk rows))).
Proof.
  revert db. induction rows as [|row rows IH]; intros db Hr; inversion Hr; subst.
  { cbn. rewrite (right_id_L ∅ (∪)). by destruct db. }
  rewrite fmap_cons. cbn [foldM]. rewrite import_exported_attestation by done. cbn [mbind result_bind].
  rewrite IH by done. cbn. by rewrite <- (assoc_L (∪)), <- insert_union_singleton_l.
Qed.

(** What SQLite stores: integer columns hold [i64]s. *)
Record db_typed (db : SlashingDb) : Prop := {
  dt_blocks : forall pk k r, signed_block db !! (pk, k) = Some r -> i64 k;
  dt_attestations : forall pk k r, signed_attestation db !! (pk, k) = Some r -> i64 k /\ i64 r.1;
}.

Definition exported_rows {A} (table : gmap (string * Z) A) (pks : list string) : list ((string * Z) * A) :=
  pks ≫= fun pk => keyed pk (merge_sort row_le (rows_of table pk)).

Lemma import_exported_entry db pk acc :
  db_typed db ->
  import_entry acc (export_entry db pk) =
  Ok (mkSlashingDb (signed_block acc ∪ list_to_map (keyed pk (merge_sort row_le (rows_of (signed_block db) pk))))
        (signed_attestation acc ∪ list_to_map (keyed pk (merge_sort row_le (rows_of (signed_attestation db) pk))))).
Proof.
  intros [Hb Ha]. unfold import_entry. cbn [export_entry ie_pubkey ie_signed_blocks ie_signed_attestations].
  rewrite import_blocks_union; cbn [mbind result_bind].
  - rewrite import_attestations_union; [done|]. rewrite merge_sort_Permutation.
    apply Forall_forall. intros [k r] Hin%elem_of_rows. by eapply Ha.
  - rewrite merge_sort_Permutation. apply Forall_forall. intros [k r] Hin%elem_of_rows. by eapply Hb.
Qed.

Lemma import_entries_union db pks acc :
  db_typed db ->
  foldM import_entry (export_entry db <$> pks) acc =
  Ok (mkSlashingDb (signed_block acc ∪ list_to_map (exported_rows (signed_block db) pks))
        (signed_attestation acc ∪ list_to_map (exported_rows (signed_attestation db) pks))).
Proof.
  intros Hdb. revert acc. induction pks as [|pk pks IH]; intros acc.
  { cbn. rewrite !(right_id_L ∅ (∪)). by destruct acc. }
  rewrite fmap_cons. cbn [foldM]. rewrite import_exported_entry by done. cbn [mbind result_bind].
  rewrite IH. cbn [signed_block signed_attestation]. f_equal.
  by rewrite <- !(assoc_L (∪)), <- !list_to_map_app.
Qed.

Lemma elem_of_exported_rows {A} (table : gmap (string * Z) A) pks pk k row :
  ((pk, k), row) ∈ exported_rows table pks <-> pk ∈ pks /\ table !! (pk, k) = Some row.
Proof.
  unfold exported_rows. rewrite list_elem_of_bind. split.
  - intros (pk' & Hin & Hpk). apply list_elem_of_fmap in Hin as ([k' row'] & [= <- <- <-] & Hin).
    rewrite merge_sort_Permutation in Hin. by apply elem_of_rows in Hin.
  - intros [Hpk Hl]. exists pk. split; [|done]. apply list_elem_of_fmap. exists (k, row).
    split; [done|]. by rewrite merge_sort_Permutation, elem_of_rows.
Qed.

(** The rows exported for the keys [pks] are the rows of the table with those keys. *)
Lemma exported_rows_filter {A} (table : gmap (string * Z) A) pks :
  list_to_map (exported_rows table pks) = base.filter (fun '((pk, _), _) => pk ∈ pks) table.
Proof.
  apply map_eq. intros [pk k]. apply option_eq. intros row. rewrite map_lookup_filter_Some. split.
  - intros Hl. apply elem_of_list_to_map_2, elem_of_exported_rows in Hl as [??]. done.
  - intros [Hl Hpk]. destruct (list_to_map (exported_rows table pks) !! (pk, k)) as [row'|] eqn:Hl'.
    + apply elem_of_list_to_map_2, elem_of_exported_rows in Hl' as [_ ?]. congruence.
    + apply not_elem_of_list_to_map_2 in Hl'. destruct Hl'. apply list_elem_of_fmap.
      exists ((pk, k), row). split; [done|]. by apply elem_of_exported_rows.
Qed.

Lemma elem_of_exported_pubkeys db pk :
  pk ∈ exported_pubkeys db <->
  (exists k r, signed_block db !! (pk, k) = Some r) \/ (exists k r, signed_attestation db !! (pk, k) = Some r).
Proof.
  unfold exported_pubkeys. rewrite merge_sort_Permutation, elem_of_remove_dups, elem_of_app, !list_elem_of_fmap.
  split; (intros [H|H]; [left|right]).
  1,2: destruct H as ([[pk' k] r] & -> & Hin%elem_of_map_to_list); eauto.
  all: destruct H as (k & r & Hl); exists ((pk, k), r); split; [done|]; by apply elem_of_map_to_list.
Qed.

(** The keys an export with the argument [pubkeys_hex] selects. *)
Definition selected (pubkeys_hex : list string) (pk : string) : Prop := pubkeys_hex = [] \/ pk ∈ pubkeys_hex.

Lemma export_selected db pubkeys_hex root :
  if_data (export_slashing_protection db pubkeys_hex root) =
  export_entry db <$> base.filter (selected pubkeys_hex) (exported_pubkeys db).
Proof.
  unfold export_slashing_protection, selected. cbn [if_data export_interchange].
  destruct (bool_decide_reflect (pubkeys_hex = [])) as [->|Hne].
  - f_equal. induction (exported_pubkeys db) as [|pk l IH]; [done|].
    rewrite filter_cons_True by (by left). by rewrite <- IH.
  - induction (exported_pubkeys db) as [|pk l IH]; [done|]. cbn [fmap list_fmap].
    rewrite !filter_cons. cbn [ie_pubkey export_entry]. repeat case_decide; try tauto.
    cbn [fmap list_fmap]. by rewrite IH.
Qed.

