(* ===== verification/Doppelganger.v ===== *)
(** * Doppelganger protection of the validator client

    crates/pharos-validator/src/doppelganger.rs: the guard that holds signing
    back after startup, and the background loop that asks the beacon node whether
    the local validators are already live.  The answers of the beacon node and
    the time they take are an argument; times are in milliseconds.  The slot
    clock of the run loop is that of run.rs and duties.rs. *)

From Stdlib Require Import ZArith Lia String.
From stdpp Require Import strings numbers.
From S2P Require Import Prelude.

(** ** The guard *)
Inductive ValidatorState : Type :=
  | HoldOff (clear_epoch : Z)
  | Cleared.

Definition HOLDOFF_EPOCHS : Z := 2.

Record DoppelgangerGuard : Type := mkDoppelgangerGuard {
  dg_enabled : bool;
  dg_states : gmap string ValidatorState;
}.

Definition guard_new (enabled : bool) (pubkeys_hex : list string) (startup_epoch : Z) : DoppelgangerGuard :=
  mkDoppelgangerGuard enabled
    (foldl (fun states pk =>
       <[pk := if enabled then HoldOff (sat_add startup_epoch HOLDOFF_EPOCHS) else Cleared]> states)
     ∅ pubkeys_hex).

Definition may_sign (g : DoppelgangerGuard) (pubkey_hex : string) (current_epoch : Z) : bool :=
  if negb (dg_enabled g) then true
  else
    match dg_states g !! pubkey_hex with
    | Some Cleared => true
    | Some (HoldOff clear_epoch) => clear_epoch <=? current_epoch
    | None => false
    end.

Definition advance_state (current_epoch : Z) (state : ValidatorState) : ValidatorState :=
  match state with
  | HoldOff clear_epoch => if clear_epoch <=? current_epoch then Cleared else state
  | Cleared => Cleared
  end.

Definition advance (g : DoppelgangerGuard) (current_epoch : Z) : DoppelgangerGuard :=
  mkDoppelgangerGuard (dg_enabled g) (advance_state current_epoch <$> dg_states g).

(** ** The polling loop *)
Inductive LoopOutcome : Type :=
  | Exited (epoch at_ms : Z)
  | Finished (at_ms : Z).

Section polling.
  (** [bn.validator_liveness(epoch, ..)] sent at a time: the [is_live] flags, or
      an error, and the milliseconds until the answer. *)
  Variable bn : Z -> Z -> option (list bool) * Z.
  Variable epoch_duration : Z.

(** Whether the check exits the process. *)
Definition doppelganger_seen (response : option (list bool)) : bool :=
  match response with
  | Some results => existsb id results
  | None => false
  end.

Fixpoint poll_epochs (epochs : list Z) (now : Z) : LoopOutcome :=
  match epochs with
  | [] => Finished now
  | check_epoch :: rest =>
      let '(response, elapsed) := bn check_epoch now in
      if doppelganger_seen response then Exited check_epoch (now + elapsed)
      else poll_epochs rest (now + elapsed + epoch_duration)
  end.

(** The requests sent: epoch and time. *)
Fixpoint polls (epochs : list Z) (now : Z) : list (Z * Z) :=
  match epochs with
  | [] => []
  | check_epoch :: rest =>
      let '(response, elapsed) := bn check_epoch now in
      (check_epoch, now) ::
        (if doppelganger_seen response then [] else polls rest (now + elapsed + epoch_duration))
  end.
End polling.

(** [first_check..clear_epoch]. *)
Definition checked_epochs (startup_epoch : Z) : list Z :=
  let clear_epoch := sat_add startup_epoch HOLDOFF_EPOCHS in
  let first_check := sat_sub startup_epoch 1 in
  seqZ first_check (clear_epoch - first_check).

Definition run_doppelganger_loop (bn : Z -> Z -> option (list bool) * Z) (enabled : bool)
    (validator_indices : list Z) (startup_epoch slots_per_epoch slot_duration_ms now : Z) : LoopOutcome :=
  if negb enabled || bool_decide (validator_indices = []) then Finished now
  else poll_epochs bn (slot_duration_ms * (slots_per_epoch mod U32)) (checked_epochs startup_epoch) now.

(** ** The slot clock of the run loop *)

(** The slot the loop wakes up for next, its start and its epoch. *)
Definition next_slot (genesis_time slot_duration_ms now_ms : Z) : Z :=
  wadd (sat_sub now_ms (sat_mul genesis_time 1000) / slot_duration_ms) 1.
Definition slot_start_ms (genesis_time slot_duration_ms slot : Z) : Z :=
  wadd (sat_mul genesis_time 1000) (wmul slot slot_duration_ms).

Definition current_slot_from_wall_clock (genesis_time_secs slot_duration_ms now_ms : Z) : Z :=
  if slot_duration_ms =? 0 then 0
  else sat_sub now_ms (sat_mul genesis_time_secs 1000) / slot_duration_ms.
Definition current_epoch_from_wall_clock (genesis_time_secs slot_duration_ms slots_per_epoch now_ms : Z) : Z :=
  if (slot_duration_ms =? 0) || (slots_per_epoch =? 0) then 0
  else current_slot_from_wall_clock genesis_time_secs slot_duration_ms now_ms / slots_per_epoch.

(** ** The guard opens at the clear epoch, never earlier *)
Lemma guard_new_lookup enabled pks startup pk :
  dg_states (guard_new enabled pks startup) !! pk =
  if bool_decide (pk ∈ pks)
  then Some (if enabled then HoldOff (sat_add startup HOLDOFF_EPOCHS) else Cleared) else None.
Proof.
  unfold guard_new. cbn [dg_states]. induction pks as [|pk' pks IH] using rev_ind; [done|].
  rewrite foldl_app. cbn [foldl]. destruct (decide (pk' = pk)) as [->|Hne].
  - rewrite lookup_insert_eq, bool_decide_eq_true_2; [done|]. apply elem_of_app. right. by left.
  - rewrite lookup_insert_ne, IH by done. rewrite (bool_decide_ext (pk ∈ pks ++ [pk']) (pk ∈ pks)); [done|].
    rewrite elem_of_app, list_elem_of_singleton. naive_solver.
Qed.

Lemma may_sign_advance g pk e e' : e <= e' -> may_sign (advance g e) pk e' = may_sign g pk e'.
Proof.
  intros He. unfold may_sign, advance. cbn. destruct (negb _); [done|]. rewrite lookup_fmap.
  destruct (dg_states g !! pk) as [[c|]|]; cbn; [|done..]. destruct (Z.leb_spec c e); [|done].
  symmetry. apply Z.leb_le. lia.
Qed.

Lemma may_sign_new enabled pks startup pk e :
  may_sign (guard_new enabled pks startup) pk e =
  negb enabled || (bool_decide (pk ∈ pks) && (sat_add startup HOLDOFF_EPOCHS <=? e)).
Proof. unfold may_sign. rewrite guard_new_lookup. destruct enabled; cbn; [|done]. by case_bool_decide. Qed.

(** Whatever epochs the run loop has observed before, up to the current one, a
    local key may sign exactly from [HOLDOFF_EPOCHS] epochs after startup on,
    and a key that is not local never. *)
Theorem may_sign_spec enabled pks startup observed pk e :
  Forall (fun e' => e' <= e) observed ->
  may_sign (foldl advance (guard_new enabled pks startup) observed) pk e =
  negb enabled || (bool_decide (pk ∈ pks) && (sat_add startup HOLDOFF_EPOCHS <=? e)).
Proof.
  intros Hobs. rewrite <- may_sign_new. revert Hobs. generalize (guard_new enabled pks startup).
  induction observed as [|e' observed IH]; [done|]. intros g [??]%Forall_cons. cbn [foldl].
  by rewrite IH, may_sign_advance.
Qed.

(** ** What the loop detects *)
Section polling_facts.
  Variable bn : Z -> Z -> option (list bool) * Z.
  Variable epoch_duration : Z.
  Hypothesis elapsed_nonneg : forall e t, 0 <= (bn e t).2.

Lemma poll_epochs_detects epochs now e :
  e ∈ epochs -> (forall t, doppelganger_seen (bn e t).1 = true) ->
  exists e' t, e' ∈ epochs /\ poll_epochs bn epoch_duration epochs now = Exited e' t.
Proof using.
  intros He Hlive. revert now. induction epochs as [|e0 epochs IH]; intros now; [by apply elem_of_nil in He|].
  cbn [poll_epochs]. destruct (bn e0 now) as [resp el] eqn:Hb.
  destruct (doppelganger_seen resp) eqn:Hseen; [exists e0, (now + el); split; [by left|done]|].
  apply elem_of_cons in He as [->|He].
  { specialize (Hlive now). rewrite Hb in Hlive. cbn in Hlive. congruence. }
  destruct (IH He (now + el + epoch_duration)) as (e' & t & Hin & ->). exists e', t. split; [by right|done].
Qed.

(** The [i]-th poll is sent at least [i] epochs after the first. *)
Lemma polls_spaced epochs now i e t :
  0 <= epoch_duration -> polls bn epoch_duration epochs now !! i = Some (e, t) ->
  epochs !! i = Some e /\ now + Z.of_nat i * epoch_duration <= t.
Proof using elapsed_nonneg.
  intros Hd. revert now i. induction epochs as [|e0 epochs IH]; intros now i; [done|]. cbn [polls].
  pose proof (elapsed_nonneg e0 now) as Hel. destruct (bn e0 now) as [resp el]. cbn in Hel.
  destruct i as [|i]; cbn [lookup list_lookup].
  { intros [= <- <-]. split; [done|lia]. }
  destruct (doppelganger_seen resp); [done|]. intros [Hl Ht]%IH. split; [done|lia].
Qed.
End polling_facts.

Lemma checked_epochs_spec startup e :
  0 <= startup -> startup + 2 < U64 -> e ∈ checked_epochs startup <-> startup - 1 <= e < startup + 2 /\ 0 <= e.
Proof.
  intros Hs Hu. unfold checked_epochs, sat_add, sat_sub, u64_max, HOLDOFF_EPOCHS. rewrite elem_of_seqZ. lia.
Qed.

(** A validator the beacon node reports live in the epoch before startup, the
    epoch of startup or the one after makes the client exit. *)
Theorem doppelganger_detected bn indices startup spe ms now e :
  0 <= startup -> startup + 2 < U64 -> indices <> [] -> startup - 1 <= e < startup + 2 -> 0 <= e ->
  (forall t, doppelganger_seen (bn e t).1 = true) ->
  exists e' t, startup - 1 <= e' < startup + 2 /\
    run_doppelganger_loop bn true indices startup spe ms now = Exited e' t.
Proof.
  intros Hs Hu Hi He He0 Hlive. unfold run_doppelganger_loop. rewrite bool_decide_eq_false_2 by done. cbn [negb orb].
  destruct (poll_epochs_detects bn (ms * (spe mod U32)) (checked_epochs startup) now e) as (e' & t & Hin & ->).
  - by apply checked_epochs_spec.
  - done.
  - exists e', t. split; [|done]. by apply checked_epochs_spec in Hin as [? _].
Qed.

(** The poll of the epoch after startup is sent at least two epochs after the
    loop began: by then the guard has let the keys sign since the beginning of
    the clear epoch, for as long as the loop began after its epoch did. *)
Theorem last_poll_after_signing bn pks pk startup epoch_duration start_of_startup now t :
  (forall e t', 0 <= (bn e t').2) -> 0 <= epoch_duration -> 1 <= startup -> startup + 2 < U64 -> pk ∈ pks ->
  (startup + 1, t) ∈ polls bn epoch_duration (checked_epochs startup) now ->
  let start_of_clear := start_of_startup + HOLDOFF_EPOCHS * epoch_duration in
  may_sign (guard_new true pks startup) pk (startup + HOLDOFF_EPOCHS) = true /\
  start_of_clear + (now - start_of_startup) <= t.
Proof.
  intros Hel Hd Hs Hu Hpk [i Hi]%list_elem_of_lookup start_of_clear. split.
  - rewrite may_sign_new. rewrite bool_decide_eq_true_2 by done. cbn.
    apply Z.leb_le. unfold sat_add, HOLDOFF_EPOCHS, u64_max. lia.
  - destruct (polls_spaced bn epoch_duration Hel _ _ _ _ _ Hd Hi) as [Hl Ht].
    unfold checked_epochs, sat_add, sat_sub, u64_max, HOLDOFF_EPOCHS in Hl.
    apply lookup_seqZ in Hl as [Hl _]. unfold start_of_clear, HOLDOFF_EPOCHS.
    assert (i = 2%nat) as -> by lia. lia.
Qed.
