(* ===== verification/ValidatorExamples.v ===== *)
(** * Runs of the validator client model

    A concrete hex codec, the witnesses of the validator client's theorems, and
    the inputs on which its code differs from its documentation. *)

From Stdlib Require Import ZArith Lia Ascii String.
From stdpp Require Import strings.
From S2P Require Import Prelude Text SszCodec SszTypes Merkle Spec BeaconState Roots Accessors Operations ForkExamples Slashing Interchange Doppelganger.

(** ** A hex codec *)
Definition hex_digit (z : Z) : ascii := Ascii.ascii_of_N (Z.to_N (if z <? 10 then 48 + z else 87 + z)).
Definition hex_value (c : ascii) : option Z :=
  let n := Z.of_N (Ascii.N_of_ascii c) in
  if (48 <=? n) && (n <=? 57) then Some (n - 48)
  else if (97 <=? n) && (n <=? 102) then Some (n - 87)
  else if (65 <=? n) && (n <=? 70) then Some (n - 55) else None.

Fixpoint lower_hex_encode (b : bytes) : string :=
  match b with
  | [] => EmptyString
  | x :: b =>
      String (hex_digit (byte.unsigned x / 16)) (String (hex_digit (byte.unsigned x mod 16)) (lower_hex_encode b))
  end.
Fixpoint lower_hex_decode (s : string) : option bytes :=
  match s with
  | EmptyString => Some []
  | String h (String l s) =>
      match hex_value h, hex_value l, lower_hex_decode s with
      | Some h, Some l, Some b => Some (byte.of_Z (16 * h + l) :: b)
      | _, _, _ => None
      end
  | _ => None
  end.

#[global] Instance lower_hex : Hex := {| hex_encode := lower_hex_encode; hex_decode := lower_hex_decode |}.
#[global] Instance lower_hex_ok : HexOk lower_hex.
Proof.
  split. induction b as [|x b IH]; [done|]. cbn [hex_decode hex_encode lower_hex] in *.
  cbn [lower_hex_encode lower_hex_decode]. rewrite IH. destruct x; reflexivity.
Qed.

(** A digest that depends on every byte. *)
Definition sum_digest (x : bytes) : bytes :=
  replicate 32 (byte.of_Z (foldl (fun acc b => (7 * acc + byte.unsigned b + 1) mod 251) 7 x)).
Definition sum_crypto : Crypto := {|
  sha256 := sum_digest;
  bls_verify := fun _ _ _ => Some true;
  bls_fast_aggregate_verify := fun _ _ _ => Some true;
|}.

(** ** A client that votes twice and proposes once *)
Definition ex_fork : ForkContext := mkForkContext (replicate 4 Byte.x00) (root_of Byte.x01).
Definition ex_vote (source target : Z) : AttestationData :=
  mkAttestationData (8 * target) 0 (root_of Byte.x0a) (mkCheckpoint source (root_of Byte.x0a))
    (mkCheckpoint target (root_of Byte.x0b)).
Definition ex_duties : list duty :=
  [ Attest "k" (ex_vote 1 2) false ex_fork true;
    Propose "k" 17 (block_at 17 Byte.x0b) ex_fork true;
    Attest "k" (ex_vote 2 3) true ex_fork true;
    Attest "k" (ex_vote 1 4) false ex_fork true ].
Definition ex_run : VcState := @run_duties sum_crypto lower_hex minimal empty_db ex_duties.

Lemma ex_requests pk d f : att_request ex_duties pk d f ->
  f = ex_fork /\ (d = ex_vote 1 2 \/ d = ex_vote 2 3 \/ d = ex_vote 1 4).
Proof.
  intros (data & el & durable & Hin & ->). unfold ex_duties in Hin. rewrite !elem_of_cons, elem_of_nil in Hin.
  destruct Hin as [[=]|[[=]|[[=]|[[=]|[]]]]]; subst; cbn; auto.
Qed.

Lemma ex_honest : @honest_duties sum_crypto minimal ex_duties.
Proof.
  split.
  - intros pk d f [_ [->|[->| ->]]]%ex_requests; cbn; unfold I63; lia.
  - intros pk slot b f durable Hin. unfold ex_duties in Hin. rewrite !elem_of_cons, elem_of_nil in Hin.
    destruct Hin as [[=]|[[=]|[[=]|[[=]|[]]]]]; subst. split; [done|]. unfold u64, U64. lia.
  - intros pk d1 f1 d2 f2 sr [-> H1]%ex_requests [-> H2]%ex_requests E1 E2.
    destruct H1 as [->|[->| ->]], H2 as [->|[->| ->]]; try done;
      vm_compute in E1; vm_compute in E2; congruence.
  - intros pk b1 f1 b2 f2 sr (s1 & r1 & H1) (s2 & r2 & H2) _ _. unfold ex_duties in H1, H2.
    rewrite !elem_of_cons, elem_of_nil in H1, H2.
    destruct H1 as [[=]|[[=]|[[=]|[[=]|[]]]]], H2 as [[=]|[[=]|[[=]|[[=]|[]]]]]; by subst.
Qed.

Lemma ex_consistent : @consistent_db sum_crypto lower_hex ex_duties empty_db.
Proof. split; cbn; intros *; by rewrite lookup_empty. Qed.

Lemma no_slashable_messages_witness :
  length (vc_attestations ex_run) = 2%nat /\ length (vc_blocks ex_run) = 1%nat /\
  is_slashable_attestation_data (ex_vote 2 3) (ex_vote 1 2) = false.
Proof.
  split; [vm_compute; reflexivity|]. split; [vm_compute; reflexivity|].
  apply (proj1 (@no_slashable_messages sum_crypto lower_hex lower_hex_ok minimal ex_duties empty_db ex_honest ex_consistent) "k"%string);
    vm_compute; repeat constructor.
Defined.

(** The record of a proposal is that of the duty's slot, whatever slot the
    block returned by the beacon node has: two different blocks of slot 17 are
    handed to the signer in the duties of the slots 17 and 18. *)
Theorem duty_slot_double_proposal :
  exists duties b1 b2,
    let vc := @run_duties sum_crypto lower_hex minimal empty_db duties in
    ("k"%string, b1) ∈ vc_blocks vc /\ ("k"%string, b2) ∈ vc_blocks vc /\ b_slot b1 = b_slot b2 /\ b1 <> b2.
Proof.
  exists [Propose "k" 17 (block_at 17 Byte.x0b) ex_fork true; Propose "k" 18 (block_at 17 Byte.x0c) ex_fork true],
    (block_at 17 Byte.x0b), (block_at 17 Byte.x0c).
  split_and!; [vm_compute; repeat constructor..|done|done].
Qed.

(** ** Interchange *)
Definition ex_db : SlashingDb :=
  mkSlashingDb {[("k"%string, 17) := Some "0x01"%string]}
    (<[("k"%string, 2) := (1, None)]> {[("l"%string, 3) := (2, Some "0x02"%string)]}).

Lemma ex_db_typed : db_typed ex_db.
Proof.
  split; cbn; intros pk k r.
  - intros [[= <- <-] _]%lookup_singleton_Some. unfold i64, I63. lia.
  - intros [[[= <- <-] <-]|[_ [[= <- <-] <-]%lookup_singleton_Some]]%lookup_insert_Some; unfold i64, I63; cbn; lia.
Qed.


(** Importing takes over both votes of a surround pair. *)
Theorem import_keeps_slashable_votes :
  let vote s t := mkInterchangeAttestation s t None in
  let file := mkInterchangeFile (mkInterchangeMetadata "5" "0x00")
                [mkInterchangeEntry "k" [] [vote "1" "4"; vote "2" "3"]%string] in
  exists db, import_interchange empty_db file "0x00" true = (db, Ok tt) /\
    signed_attestation db !! ("k"%string, 4) = Some (1, None) /\
    signed_attestation db !! ("k"%string, 3) = Some (2, None).
Proof. eexists. split_and!; vm_compute; reflexivity. Qed.

(** ** Doppelganger protection *)
Lemma may_sign_spec_witness :
  may_sign (foldl advance (guard_new true ["k"%string] 10) [10; 11; 12]) "k" 12 = true.
Proof. rewrite (may_sign_spec true ["k"%string] 10 [10; 11; 12] "k" 12); [reflexivity|repeat constructor; lia]. Defined.

Lemma doppelganger_detected_witness :
  exists e' t, 9 <= e' < 12 /\
    run_doppelganger_loop (fun e _ => (if e =? 11 then Some [false; true] else None, 20)) true [3; 4] 10 32 12000 5000
    = Exited e' t.
Proof.
  apply (doppelganger_detected _ [3; 4] 10 32 12000 5000 11); [lia|unfold U64; lia|done|lia|lia|].
  intros t. reflexivity.
Defined.
