(* ===== verification/NodeExamples.v ===== *)
(** * Runs of the pools and the slasher

    A concrete cache, the witnesses of the theorems on the operation pools and
    the slasher, and the surround vote whose slashing cannot be included. *)

From Stdlib Require Import ZArith Lia.
From stdpp Require Import list gmap.
From S2P Require Import Prelude SszCodec SszBitfield SszTypes Merkle Spec BeaconState Roots Accessors Operations Pools Slasher ForkExamples ValidatorExamples.

(** ** A cache: entries with distinct keys, most recent first *)
Record list_lru (K V : Type) : Type := mkListLru {
  ll_cap : Z;
  ll_entries : list (K * V);
  ll_nodup : NoDup ll_entries.*1;
}.
Arguments mkListLru {K V}.
Arguments ll_cap {K V}.
Arguments ll_entries {K V}.
Arguments ll_nodup {K V}.

Lemma nodup_sub {K V} (l k : list (K * V)) : l `sublist_of` k -> NoDup k.*1 -> NoDup l.*1.
Proof. intros Hs Hk. eapply sublist_NoDup; [exact Hk|]. by apply sublist_fmap. Qed.

Lemma nodup_put {K V} `{EqDecision K} n k (v : V) (l : list (K * V)) :
  NoDup l.*1 -> NoDup (take n ((k, v) :: without k l)).*1.
Proof.
  intros Hl. eapply nodup_sub; [apply sublist_take|]. cbn. constructor; [|by eapply nodup_sub; [apply without_sublist|]].
  intros ([k' v'] & -> & [Hne _]%elem_of_without)%list_elem_of_fmap. done.
Qed.

Definition list_lru_put {K V} `{EqDecision K} (k : K) (v : V) (c : list_lru K V) : list_lru K V :=
  mkListLru (ll_cap c) (take (Z.to_nat (ll_cap c)) ((k, v) :: without k (ll_entries c)))
    (nodup_put _ k v _ (ll_nodup c)).
Definition list_lru_pop {K V} `{EqDecision K} (k : K) (c : list_lru K V) : list_lru K V :=
  mkListLru (ll_cap c) (without k (ll_entries c)) (nodup_sub _ _ (without_sublist _ k) (ll_nodup c)).
Definition list_lru_new {K V} (cap : Z) : list_lru K V := mkListLru cap [] (NoDup_nil_2 (A := K)).

#[global] Instance list_Lru : Lru := {|
  lru := list_lru;
  lru_new := @list_lru_new;
  lru_cap := fun K V c => ll_cap c;
  lru_iter := fun K V c => ll_entries c;
  lru_peek := fun K V _ k c => assoc k (ll_entries c);
  lru_put := fun K V _ => list_lru_put;
  lru_pop := fun K V _ => list_lru_pop;
|}.
#[global] Instance list_LruOk : LruOk list_Lru.
Proof. split; try done. intros K V c. apply ll_nodup. Qed.

(** ** Attestations in a pool *)
Definition one_bit (i : byte) : Bitlist := mkBitlist [i] 4.
Definition ex_att (bits : byte) (sig : byte) : Attestation :=
  mkAttestation (one_bit bits) (ex_vote 1 2) (replicate 96 sig).
Definition ex_aggregate (l : list bytes) : option bytes := Some (replicate 96 Byte.x09).
Definition ex_pool : lru AttKey Attestation :=
  lru_put (mkAttKey (ok_value [] (@attestation_data_root sum_crypto (ex_vote 1 2))) 0) (ex_att Byte.x01 Byte.x01) (lru_new 8).

Lemma ex_bits_wf b : byte.unsigned b < 16 -> wf_bitlist 2048 (one_bit b).
Proof.
  intros Hb. split; [|by vm_compute]. split_and!; [by vm_compute|by vm_compute|]. cbn [bit_len bl_data one_bit].
  change (le_combine [b]) with (Z.lor (byte.unsigned b) (Z.shiftl 0 8)). rewrite Z.shiftl_0_l, Z.lor_0_r. done.
Qed.

Lemma insert_attestation_correct_witness :
  exists cache', @insert_attestation list_Lru sum_crypto ex_aggregate ex_pool (ex_att Byte.x02 Byte.x02) = Ok cache' /\
    exists k e, (k, e) ∈ lru_iter cache' /\ att_data e = ex_vote 1 2 /\
      Forall2 (fun a b : bool => a = true -> b = true) [false; true; false; false] (bl_bits (att_aggregation_bits e)).
Proof.
  destruct (@insert_attestation_correct list_Lru list_LruOk sum_crypto ex_aggregate (fun _ _ s => length s = 96%nat)
    ltac:(by intros ?????? _ _ _ _ [= <-]) 2048 ex_pool (ex_att Byte.x02 Byte.x02)
    (ok_value [] (@attestation_data_root sum_crypto (ex_vote 1 2)))) as (cache' & Hi & _ & k & e & Hin & Hd & Hb).
  - reflexivity.
  - intros k att Hin. apply list_elem_of_singleton in Hin as [= -> ->]. split; [|reflexivity].
    split; [apply ex_bits_wf; reflexivity|reflexivity].
  - split; [apply ex_bits_wf; reflexivity|reflexivity].
  - reflexivity.
  - intros k e Hin _. apply list_elem_of_singleton in Hin as [= -> ->]. split; reflexivity.
  - exists cache'. split; [exact Hi|]. exists k, e. split; [exact Hin|]. split; [exact Hd|exact Hb].
Defined.

Lemma drain_for_block_correct_witness :
  let p := mkOperationPools ex_pool (lru_new 8) (lru_new 8) (lru_new 8) (lru_new 8) (lru_new 8) in
  let '(p', ops) := @drain_for_block list_Lru minimal 16 p 17 in
  zlen (bo_attestations ops) <= 128.
Proof.
  intros p. pose proof (@drain_for_block_correct list_Lru list_LruOk minimal minimal_ok 16 p 17 ltac:(lia) ltac:(lia)) as Hd.
  destruct (drain_for_block 16 p 17) as [p' ops].
  destruct Hd as [(_ & _ & H & _) _]; [|exact H].
  intros k att Hin. apply list_elem_of_singleton in Hin as [= -> ->]. split; [vm_compute; congruence|reflexivity].
Defined.

(** ** The slasher *)
Definition ex_indexed (source target : Z) : IndexedAttestation :=
  mkIndexedAttestation [42] (ex_vote source target) (replicate 96 Byte.x00).
Definition empty_slasher : AttestationSlasher := mkAttestationSlasher ∅ pools_new.
(** After the vote from 3 to 7. *)
Definition ex_slasher : AttestationSlasher :=
  mkAttestationSlasher
    {[42 := [mkAttestRecord 3 7 (ok_value [] (@attestation_data_root sum_crypto (ex_vote 3 7))) (ex_indexed 3 7)]]} pools_new.

Lemma ex_slasher_run : @observe list_Lru sum_crypto empty_slasher (ex_indexed 3 7) 8 = Ok ex_slasher.
Proof. vm_compute. reflexivity. Qed.

Lemma observe_correct_witness :
  exists sl' emitted, @observe list_Lru sum_crypto ex_slasher (ex_indexed 1 10) 10 = Ok sl' /\ emitted <> [] /\
    sl_op_pools sl' = foldl (fun p prior => insert_attester_slashing (mkAttesterSlashing prior (ex_indexed 1 10)) p) pools_new emitted.
Proof.
  destruct (@observe_correct list_Lru sum_crypto ex_slasher (ex_indexed 1 10)
    (ok_value [] (@attestation_data_root sum_crypto (ex_vote 1 10))) 10) as (sl' & emitted & Ho & _ & Hp & _ & Hc).
  - intros v history r Hl Hr. unfold ex_slasher in Hl. cbn [sl_records] in Hl. apply lookup_singleton_Some in Hl as [<- <-]. apply list_elem_of_singleton in Hr as ->.
    split_and!; reflexivity.
  - intros v history r Hl Hr Heq. unfold ex_slasher in Hl. cbn [sl_records] in Hl. apply lookup_singleton_Some in Hl as [<- <-]. apply list_elem_of_singleton in Hr as ->.
    exfalso. revert Heq. vm_compute. congruence.
  - reflexivity.
  - vm_compute. congruence.
  - exists sl', emitted. split; [exact Ho|]. split; [|exact Hp].
    apply (Hc 42 [mkAttestRecord 3 7 (ok_value [] (@attestation_data_root sum_crypto (ex_vote 3 7))) (ex_indexed 3 7)]
      (mkAttestRecord 3 7 (ok_value [] (@attestation_data_root sum_crypto (ex_vote 3 7))) (ex_indexed 3 7))).
    + by left.
    + reflexivity.
    + by left.
    + vm_compute. congruence.
    + reflexivity.
Defined.

(** A validator votes from 3 to 7 and then from 1 to 10.  The slasher finds the
    surround vote, and the block produced next carries a slashing of it that no
    state accepts. *)
Theorem surround_vote_spoils_block :
  exists sl1 sl2 slashing,
    @observe list_Lru sum_crypto empty_slasher (ex_indexed 3 7) 8 = Ok sl1 /\
    @observe list_Lru sum_crypto sl1 (ex_indexed 1 10) 10 = Ok sl2 /\
    bo_attester_slashings (@drain_for_block list_Lru minimal 16 (sl_op_pools sl2) 81).2 = [slashing] /\
    forall s verify, @process_attester_slashing sum_crypto minimal s slashing verify = Err (InvalidAttesterSlashing AttestationsNotSlashable).
Proof.
  exists ex_slasher. eexists _, (mkAttesterSlashing (ex_indexed 3 7) (ex_indexed 1 10)).
  split; [exact ex_slasher_run|]. split; [vm_compute; reflexivity|]. split; [vm_compute; reflexivity|].
  intros s verify. apply surrounding_vote_slashing_rejected. reflexivity.
Qed.

(** ** Double proposals *)
Definition ex_header (body : byte) : SignedBeaconBlockHeader :=
  mkSignedBeaconBlockHeader (mkBeaconBlockHeader 10 3 zero_chunk zero_chunk (root_of body)) (replicate 96 Byte.x00).
Definition ex_headers : ProposerSlasher :=
  mkProposerSlasher {[(10, 3, ok_value [] (@header_root sum_crypto (sbh_message (ex_header Byte.x0a)))) := ex_header Byte.x0a]}
    pools_new.

Lemma observe_header_correct_witness :
  exists sl', @observe_header list_Lru sum_crypto ex_headers (ex_header Byte.x0b) = Ok sl' /\
    @header_rows_ok sum_crypto (pr_headers sl').
Proof.
  destruct (@observe_header_correct list_Lru sum_crypto ex_headers (ex_header Byte.x0b)
    (ok_value [] (@header_root sum_crypto (sbh_message (ex_header Byte.x0b))))) as (sl' & Ho & Hr & _).
  - intros sl p root h Hl. unfold ex_headers in Hl. cbn [pr_headers] in Hl. apply lookup_singleton_Some in Hl as [[= <- <- <-] <-]. split_and!; reflexivity.
  - reflexivity.
  - exists sl'. split; [exact Ho|exact Hr].
Defined.
