(* ===== verification/Rpc.v ===== *)
(** * Networking: the framing of requests and responses

    crates/pharos-network/src/rpc/varint.rs and the helpers of rpc/codec.rs that read
    and write length-prefixed, snappy-framed payloads.  A stream is the bytes that
    are still to be read; the [snap] crate is an interface.

    Theorem [varint_exact]: [read_varint] accepts exactly what [write_varint] writes.
    Theorem [payload_round_trip]: what [write_ssz_snappy] writes is read back with
    nothing of the next chunk consumed.  Theorem [payload_bounded]: whatever a peer
    sends, a payload that is accepted has the declared length, which is within the
    bound of its type. *)

From stdpp Require Import base list.
From Stdlib Require Import ZArith Lia.
From coqutil Require Import Byte.
From S2P Require Import Prelude SszCodec.

(** ** Streams *)
Inductive IoError : Type :=
  | UnexpectedEof
  | VarintTooLong
  | VarintOverflow
  | VarintNotMinimal
  | SszLengthOutOfBounds
  | FrameTooLarge
  | BadStreamId
  | FrameBeforeStreamId
  | FrameTooShort
  | FrameExceedsLength
  | SnappyFailed
  | UnknownChunkType (t : Z)
  | SszDecodeFailed
  | MissingForkContext
  | UnknownContextBytes
  | WrongForkContext
  | TooManyChunks
  | StreamClosedEarly
  | BadRequestLength.

(** A reader takes bytes off the stream; [async] only marks where it may wait. *)
Definition io (A : Type) : Type := bytes -> result IoError (A * bytes).
#[global] Instance io_ret : MRet io := fun A a s => Ok (a, s).
#[global] Instance io_bind : MBind io := fun A B f m s =>
  match m s with Ok (a, s) => f a s | Err e => Err e | Panic => Panic end.
#[global] Instance io_fmap : FMap io := fun A B f m s =>
  match m s with Ok (a, s) => Ok (f a, s) | Err e => Err e | Panic => Panic end.
Definition io_fail {A} (e : IoError) : io A := fun _ => Err e.

Definition read_exact (n : Z) : io bytes := fun s =>
  if n <=? zlen s then Ok (take (Z.to_nat n) s, drop (Z.to_nat n) s) else Err UnexpectedEof.
(** [read] of one byte: [None] at the end of the stream. *)
Definition read_one : io (option byte) := fun s =>
  match s with [] => Ok (None, []) | b :: s => Ok (Some b, s) end.

Lemma io_bind_Ok {A B} (m : io A) (f : A -> io B) s b r :
  (m ≫= f) s = Ok (b, r) <-> exists a r', m s = Ok (a, r') /\ f a r' = Ok (b, r).
Proof. unfold mbind, io_bind. destruct (m s) as [ [a r']| |]; naive_solver. Qed.

Lemma read_exact_Ok n s b r : 0 <= n -> read_exact n s = Ok (b, r) <-> zlen b = n /\ s = b ++ r.
Proof.
  intros Hn. unfold read_exact, zlen. destruct (Z.leb_spec n (Z.of_nat (length s))) as [Hle|Hlt]; split.
  - intros [= <- <-]. rewrite take_drop, length_take. split; [lia|done].
  - intros [Hb ->]. rewrite take_app_length', drop_app_length' by lia. done.
  - done.
  - intros [Hb ->]. rewrite length_app in Hlt. lia.
Qed.

(** ** Varints *)
(** The loop of [read_varint]; [turns] is [10 - byte_count]. *)
Fixpoint read_varint_loop (turns : nat) (value shift byte_count : Z) : io Z :=
  match turns with
  | O => io_fail VarintTooLong
  | S turns =>
      buf ← read_exact 1;
      let b := byte.unsigned (default Byte.x00 (head buf)) in
      if (shift =? 63) && negb (Z.land b 254 =? 0) then io_fail VarintOverflow
      else
        let low7 := Z.land b 127 in
        let value := Z.lor value (Z.shiftl low7 shift mod U64) in
        if Z.land b 128 =? 0 then
          if (1 <? byte_count + 1) && (b =? 0) then io_fail VarintNotMinimal else mret value
        else read_varint_loop turns value (shift + 7) (byte_count + 1)
  end.
Definition read_varint : io Z := read_varint_loop 10 0 0 0.

(** [loop] of [write_varint]: ten turns write any [u64]. *)
Fixpoint write_varint_loop (turns : nat) (value : Z) : bytes :=
  match turns with
  | O => []
  | S turns =>
      let b := Z.land value 127 in
      let value := Z.shiftr value 7 in
      let b := if negb (value =? 0) then Z.lor b 128 else b in
      byte.of_Z b :: (if value =? 0 then [] else write_varint_loop turns value)
  end.
Definition write_varint (value : Z) : bytes := write_varint_loop 10 value.

Lemma byte_of_Z_small z : 0 <= z < 256 -> byte.unsigned (byte.of_Z z) = z.
Proof. intros Hz. rewrite byte.unsigned_of_Z. by apply Z.mod_small. Qed.

(** *** Seven bits at a time *)
Lemma land_127 b : Z.land b 127 = b mod 128.
Proof. change 127 with (Z.ones 7). by rewrite Z.land_ones. Qed.
Lemma land_128 b : (Z.land (byte.unsigned b) 128 =? 0) = (byte.unsigned b <? 128).
Proof. by destruct b. Qed.
Lemma land_254 b : (Z.land (byte.unsigned b) 254 =? 0) = (byte.unsigned b <? 2).
Proof. by destruct b. Qed.
Lemma shift_7 v : Z.shiftr v 7 = v / 128.
Proof. by rewrite Z.shiftr_div_pow2. Qed.

Lemma write_varint_step turns v :
  0 <= v ->
  write_varint_loop (S turns) v =
    if v <? 128 then [byte.of_Z v] else byte.of_Z (v mod 128 + 128) :: write_varint_loop turns (v / 128).
Proof.
  intros Hv. cbn [write_varint_loop]. rewrite shift_7, land_127. destruct (Z.ltb_spec v 128).
  - rewrite (Z.div_small v) by lia. cbn [Z.eqb negb]. by rewrite Z.mod_small by lia.
  - assert (1 <= v / 128) by (apply Z.div_le_lower_bound; lia). destruct (Z.eqb_spec (v / 128) 0); [lia|]. cbn [negb].
    change 128 with (Z.shiftl 1 7) at 2. rewrite lor_high; [done|lia| |lia]. by apply Z.mod_pos_bound.
Qed.

Lemma varint_fits k value w : (k <= 9)%nat -> 0 <= value < 2 ^ (7 * Z.of_nat k) -> 0 <= w < 128 -> w < 2 \/ k <> 9%nat ->
  value + w * 2 ^ (7 * Z.of_nat k) < U64.
Proof.
  intros Hk Hv Hw Hlast. unfold U64. destruct (Nat.eq_dec k 9%nat) as [->|].
  - change (2 ^ (7 * Z.of_nat 9)) with (2 ^ 63) in *. lia.
  - assert (2 ^ (7 * Z.of_nat k) <= 2 ^ 56) by (apply Z.pow_le_mono_r; lia). nia.
Qed.

(** One byte, with the bit operations read as arithmetic. *)
Lemma read_varint_step turns k value b s :
  (k <= 9)%nat -> 0 <= value < 2 ^ (7 * Z.of_nat k) ->
  read_varint_loop (S turns) value (7 * Z.of_nat k) (Z.of_nat k) (b :: s) =
    if (7 * Z.of_nat k =? 63) && negb (byte.unsigned b <? 2) then Err VarintOverflow
    else if byte.unsigned b <? 128 then
      if (0 <? Z.of_nat k) && (byte.unsigned b =? 0) then Err VarintNotMinimal
      else Ok (value + byte.unsigned b * 2 ^ (7 * Z.of_nat k), s)
    else read_varint_loop turns (value + byte.unsigned b mod 128 * 2 ^ (7 * Z.of_nat k)) (7 * Z.of_nat (S k)) (Z.of_nat (S k)) s.
Proof.
  intros Hk Hv. pose proof (byte.unsigned_range b) as Hb. cbn [read_varint_loop]. unfold mbind, io_bind.
  replace (read_exact 1 (b :: s)) with (Ok ([b], s) : result IoError _)
    by (symmetry; apply read_exact_Ok; [lia|done]).
  cbn [head default from_option id]. rewrite land_254, land_128, land_127.
  destruct ((7 * Z.of_nat k =? 63) && negb (byte.unsigned b <? 2)) eqn:Hover; [done|].
  assert (0 <= byte.unsigned b mod 128 < 128) by (apply Z.mod_pos_bound; lia).
  assert (Z.shiftl (byte.unsigned b mod 128) (7 * Z.of_nat k) < U64) as Hfit.
  { rewrite Z.shiftl_mul_pow2 by lia. pose proof (varint_fits k value (byte.unsigned b mod 128)) as Hfits. enough (byte.unsigned b mod 128 < 2 \/ k <> 9%nat) by lia.
    destruct (Z.eqb_spec (7 * Z.of_nat k) 63), (Z.ltb_spec (byte.unsigned b) 2); try done; [left; rewrite Z.mod_small; lia|right; lia..]. }
  rewrite (Z.mod_small (Z.shiftl _ _)) by (split; [apply Z.shiftl_nonneg; lia|done]). rewrite lor_high by lia.
  destruct (Z.ltb_spec (byte.unsigned b) 128) as [Hsmall|Hlarge].
  - rewrite (Z.mod_small (byte.unsigned b)) by lia. replace (1 <? Z.of_nat k + 1) with (0 <? Z.of_nat k); [by destruct ((0 <? Z.of_nat k) && (byte.unsigned b =? 0))|].
    destruct (Z.ltb_spec 0 (Z.of_nat k)), (Z.ltb_spec 1 (Z.of_nat k + 1)); try done; lia.
  - f_equal; lia.
Qed.

(** After [10 - turns] bytes that stood for [value]. *)
Lemma read_varint_loop_Ok turns k value s v rest :
  (k + turns = 10)%nat -> 0 <= value < 2 ^ (7 * Z.of_nat k) ->
  read_varint_loop turns value (7 * Z.of_nat k) (Z.of_nat k) s = Ok (v, rest) <->
  exists w, 0 <= w /\ v = value + w * 2 ^ (7 * Z.of_nat k) /\ v < U64 /\ (0 < Z.of_nat k -> w <> 0) /\
    (turns <> 0)%nat /\ s = write_varint_loop turns w ++ rest.
Proof.
  revert k value s. induction turns as [|turns IH]; intros k value s Hk Hval.
  - cbn. split; [done|]. intros (w & _ & _ & _ & _ & ? & _). done.
  - assert (0 < 2 ^ (7 * Z.of_nat k)) as Hpow by (apply Z.pow_pos_nonneg; lia).
    assert (2 ^ (7 * Z.of_nat (S k)) = 128 * 2 ^ (7 * Z.of_nat k)) as HpowS
      by (replace (7 * Z.of_nat (S k)) with (7 + 7 * Z.of_nat k) by lia; by rewrite Z.pow_add_r by lia).
    destruct s as [|b s].
    { cbn [read_varint_loop]. split; [done|]. intros (w & Hw & _ & _ & _ & _ & Hs). rewrite write_varint_step in Hs by done.
      by destruct (w <? 128). }
    rewrite read_varint_step by (done || lia). pose proof (byte.unsigned_range b) as Hb.
    assert (0 <= byte.unsigned b mod 128 < 128) as Hmod by (apply Z.mod_pos_bound; lia).
    assert (forall w, v = value + w * 2 ^ (7 * Z.of_nat k) -> v < U64 -> k = 9%nat -> w < 2) as Hlast
      by (intros w Hw Hv ->; change (2 ^ (7 * Z.of_nat 9)) with (2 ^ 63) in Hw; unfold U64 in Hv; lia).
    split.
    + intros Hread. destruct ((7 * Z.of_nat k =? 63) && negb (byte.unsigned b <? 2)) eqn:Hover; [done|].
      destruct (Z.ltb_spec (byte.unsigned b) 128) as [Hsmall|Hlarge].
      * destruct ((0 <? Z.of_nat k) && (byte.unsigned b =? 0)) eqn:Hzero; [done|]. injection Hread as <- <-.
        exists (byte.unsigned b). split; [lia|]. split; [done|]. split; [|split; [|split; [done|]]].
        -- apply varint_fits; [lia|done|lia|]. destruct (Z.eqb_spec (7 * Z.of_nat k) 63), (Z.ltb_spec (byte.unsigned b) 2); try done; [left|right|right]; lia.
        -- intros Hpos. destruct (Z.eqb_spec (byte.unsigned b) 0); [|done]. rewrite (proj2 (Z.ltb_lt _ _) Hpos) in Hzero. done.
        -- rewrite write_varint_step by lia. rewrite (proj2 (Z.ltb_lt _ _) Hsmall). by rewrite byte.of_Z_unsigned.
      * apply IH in Hread as (w & Hw & Hv & Hlt & Hpos & Hturns & ->); [|lia|rewrite HpowS; nia].
        exists (byte.unsigned b mod 128 + 128 * w). specialize (Hpos ltac:(lia)).
        split; [lia|]. split; [rewrite HpowS in Hv; lia|]. split; [done|]. split; [lia|]. split; [done|].
        rewrite write_varint_step by lia. rewrite (proj2 (Z.ltb_ge _ _)) by lia. cbn [app].
        f_equal; [|f_equal; f_equal].
        -- rewrite <- (byte.of_Z_unsigned b) at 1. f_equal. clear - Hb Hlarge. Z.to_euclidean_division_equations. lia.
        -- apply Z.div_unique with (byte.unsigned b mod 128); lia.
    + intros (w & Hw & Hv & Hlt & Hpos & _ & Hs). rewrite write_varint_step in Hs by done.
      destruct (Z.ltb_spec w 128) as [Hsmall|Hlarge]; injection Hs as Hb' Hs.
      * assert (byte.unsigned b = w) as -> by (rewrite Hb'; apply byte_of_Z_small; lia). subst s v.
        destruct (Z.eqb_spec (7 * Z.of_nat k) 63) as [Hk9|Hk9]; [rewrite (proj2 (Z.ltb_lt w 2)) by (apply Hlast; try done; lia)|]; cbn [andb negb];
          rewrite (proj2 (Z.ltb_lt w 128) Hsmall); (destruct ((0 <? Z.of_nat k) && (w =? 0)) eqn:Hzero; [|done]);
          apply andb_true_iff in Hzero as [?%Z.ltb_lt ?%Z.eqb_eq]; exfalso; apply Hpos; lia.
      * assert (byte.unsigned b = w mod 128 + 128) as Hbw
          by (rewrite Hb'; apply byte_of_Z_small; pose proof (Z.mod_pos_bound w 128); lia).
        pose proof (Z.div_mod w 128 ltac:(lia)) as Hdm. pose proof (Z.mod_pos_bound w 128 ltac:(lia)) as Hwm.
        assert (k <> 9%nat) as Hk9 by (intros ->; specialize (Hlast w Hv Hlt eq_refl); lia).
        destruct (Z.eqb_spec (7 * Z.of_nat k) 63); [lia|]. cbn [andb]. rewrite (proj2 (Z.ltb_ge (byte.unsigned b) 128)) by lia.
        assert (byte.unsigned b mod 128 = w mod 128) as Hlow by (rewrite Hbw; rewrite <- (Z.mul_1_l 128) at 2; rewrite Z.mod_add, Z.mod_mod by lia; done).
        rewrite Hlow. apply IH; [lia|rewrite HpowS; nia|]. exists (w / 128). rewrite HpowS. repeat split; [|lia|done|lia|lia|done]; lia.
Qed.

Lemma varint_exact s v rest : read_varint s = Ok (v, rest) <-> u64 v /\ s = write_varint v ++ rest.
Proof.
  unfold read_varint, write_varint.
  pose proof (read_varint_loop_Ok 10 0 0 s v rest eq_refl ltac:(done)) as Hloop.
  change (7 * Z.of_nat 0) with 0 in Hloop. change (Z.of_nat 0) with 0 in Hloop. rewrite Hloop. unfold u64. split.
  - intros (w & Hw & Hv & Hlt & _ & _ & ->). rewrite Z.mul_1_r, Z.add_0_l in Hv. subst. done.
  - intros [Hv ->]. exists v. repeat split; try done; lia.
Qed.
Lemma read_varint_write v rest : u64 v -> read_varint (write_varint v ++ rest) = Ok (v, rest).
Proof. intros Hv. by apply varint_exact. Qed.

(** ** Snappy *)
(** The [snap] crate.  [decompress] is [snap::raw::Decoder::decompress] into the
    given buffer; [frame_encode] is [snap::write::FrameEncoder] over a whole input;
    [compress_vec] and [decompress_vec] are those of the raw encoder and decoder. *)
Class Snappy := {
  decompress_len : bytes -> option Z;
  decompress : bytes -> bytes -> option bytes;
  frame_encode : bytes -> bytes;
  compress_vec : bytes -> option bytes;
  decompress_vec : bytes -> option bytes;
}.

Definition stream_identifier : bytes := [Byte.x73; Byte.x4e; Byte.x61; Byte.x50; Byte.x70; Byte.x59].

(** The type of a chunk and its length in three bytes. *)
Definition chunk_header (chunk_type : byte) (n : Z) : bytes := chunk_type :: to_le_bytes 3 n.

(** A data chunk that stands for [data]: compressed or as it is, after a checksum. *)
Inductive data_chunk `{Snappy} (data : bytes) : bytes -> Prop :=
  | compressed_chunk crc block :
      zlen crc = 4 -> decompress_len block = Some (zlen data) ->
      (forall buf, zlen buf = zlen data -> decompress block buf = Some data) ->
      zlen crc + zlen block <= 65540 ->
      data_chunk data (chunk_header Byte.x00 (zlen crc + zlen block) ++ crc ++ block)
  | uncompressed_chunk crc :
      zlen crc = 4 -> zlen data <= 65536 ->
      data_chunk data (chunk_header Byte.x01 (zlen crc + zlen data) ++ crc ++ data).

(** The framing format, as far as the reader relies on it: the encoder turns a
    nonempty input into the stream identifier and the data chunks of consecutive
    nonempty parts; a block announces a [u32] as its length, and decompression into a
    slice does not change the length of the slice.  A raw block announces the length
    it decompresses to, and compressing is undone by decompressing. *)
Class SnappyOk `{Snappy} : Prop := {
  frame_encode_chunks data : data <> [] ->
    exists parts chunks, concat parts = data /\ Forall (fun p => p <> []) parts /\ Forall2 data_chunk parts chunks /\
      frame_encode data = chunk_header Byte.xff 6 ++ stream_identifier ++ concat chunks;
  decompress_len_range block n : decompress_len block = Some n -> 0 <= n < 2 ^ 32;
  decompress_length block buf out : decompress block buf = Some out -> zlen out = zlen buf;
  decompress_vec_len block out : decompress_vec block = Some out -> decompress_len block = Some (zlen out);
  decompress_compress data block : compress_vec data = Some block -> decompress_vec block = Some data;
}.

Definition MAX_SNAPPY_FRAME_PAYLOAD : Z := 65540.

Section snappy.
Context `{Snappy}.

(** One chunk: the bytes decoded so far and whether the identifier was seen. *)
Definition read_chunk (expected : Z) (decoded : bytes) (saw_stream_id : bool) : io (bytes * bool) :=
  header ← read_exact 4;
  let chunk_type := byte.unsigned (nth 0 header Byte.x00) in
  let chunk_len := from_le_bytes [nth 1 header Byte.x00; nth 2 header Byte.x00; nth 3 header Byte.x00; Byte.x00] in
  if MAX_SNAPPY_FRAME_PAYLOAD <? chunk_len then io_fail FrameTooLarge
  else if chunk_type =? 255 then
    if negb (chunk_len =? 6) then io_fail BadStreamId
    else
      payload ← read_exact 6;
      if negb (bool_decide (payload = stream_identifier)) then io_fail BadStreamId else mret (decoded, true)
  else if chunk_type =? 0 then
    if negb saw_stream_id then io_fail FrameBeforeStreamId
    else if chunk_len <? 4 then io_fail FrameTooShort
    else
      payload ← read_exact chunk_len;
      let compressed := drop 4 payload in
      match decompress_len compressed with
      | None => io_fail SnappyFailed
      | Some frame_decoded_len =>
          if expected <? zlen decoded + frame_decoded_len then io_fail FrameExceedsLength
          else
            match decompress compressed (replicate (Z.to_nat frame_decoded_len) Byte.x00) with
            | None => io_fail SnappyFailed
            | Some out => mret (decoded ++ out, saw_stream_id)
            end
      end
  else if chunk_type =? 1 then
    if negb saw_stream_id then io_fail FrameBeforeStreamId
    else if chunk_len <? 4 then io_fail FrameTooShort
    else
      payload ← read_exact chunk_len;
      let raw := drop 4 payload in
      if expected <? zlen decoded + zlen raw then io_fail FrameExceedsLength
      else mret (decoded ++ raw, saw_stream_id)
  else if 128 <=? chunk_type then
    _ ← read_exact chunk_len; mret (decoded, saw_stream_id)
  else io_fail (UnknownChunkType chunk_type).

(** [while decoded.len() < expected]: a chunk takes at least its header off the
    stream, so the loop ends. *)
Fixpoint snappy_loop (fuel : nat) (expected : Z) (decoded : bytes) (saw_stream_id : bool) : io bytes :=
  match fuel with
  | O => io_fail UnexpectedEof
  | S fuel =>
      if zlen decoded <? expected then
        '(decoded, saw_stream_id) ← read_chunk expected decoded saw_stream_id;
        snappy_loop fuel expected decoded saw_stream_id
      else mret decoded
  end.
Definition read_bounded_snappy (expected : Z) : io bytes := fun s => snappy_loop (S (length s)) expected [] false s.

Definition write_ssz_snappy (ssz : bytes) : bytes := write_varint (zlen ssz) ++ frame_encode ssz.

(** [D::from_ssz_bytes] of the payload, its error and abort kept apart. *)
Definition decode_payload {D} (c : codec D) (b : bytes) : io D := fun s =>
  match from_ssz_bytes c b with Ok d => Ok (d, s) | Err _ => Err SszDecodeFailed | Panic => Panic end.
Definition read_ssz_snappy_payload {D} (c : codec D) (max_ssz : Z) : io D :=
  ssz_len ← read_varint;
  if max_ssz <? ssz_len then io_fail SszLengthOutOfBounds
  else b ← read_bounded_snappy ssz_len; decode_payload c b.

(** *** The loop *)
Lemma read_exact_rest n s b r : read_exact n s = Ok (b, r) -> (length r <= length s)%nat /\ (0 < n -> (length r < length s)%nat).
Proof.
  unfold read_exact. destruct (n <=? zlen s) eqn:Hn; [|done]. intros [= _ <-]. rewrite length_drop.
  apply Z.leb_le in Hn. unfold zlen in Hn. lia.
Qed.

Ltac io_cases H := repeat match type of H with
  | (if ?b then _ else _) _ = Ok _ => destruct b eqn:?
  | match ?x with Some _ => _ | None => _ end _ = Ok _ => destruct x eqn:?
  | io_fail _ _ = Ok _ => done
  | (_ ≫= _) _ = Ok _ => apply io_bind_Ok in H as (? & ? & ?Hread & H)
  end.

Lemma read_chunk_rest e d i s x r : read_chunk e d i s = Ok (x, r) -> (length r < length s)%nat.
Proof.
  unfold read_chunk. intros H'. cbv zeta in H'. io_cases H'; injection H' as _ <-;
    repeat match goal with H : read_exact _ _ = Ok _ |- _ => apply read_exact_rest in H end; lia.
Qed.

Lemma snappy_loop_fuel n m e d i s :
  (length s < n)%nat -> (length s < m)%nat -> snappy_loop n e d i s = snappy_loop m e d i s.
Proof.
  revert m d i s. induction n as [|n IH]; intros [|m] d i s Hn Hm; [lia..|]. cbn [snappy_loop].
  destruct (zlen d <? e); [|done]. unfold mbind, io_bind.
  destruct (read_chunk e d i s) as [ [[d' i'] r]| |] eqn:Hc; [|done..]. apply read_chunk_rest in Hc. apply IH; lia.
Qed.

(** *** What the encoder writes is read *)
Lemma read_exact_app n b r : zlen b = n -> read_exact n (b ++ r) = Ok (b, r).
Proof. intros Hn. apply read_exact_Ok; [unfold zlen in Hn; lia|done]. Qed.

Lemma chunk_header_read t n : 0 <= n < 2 ^ 24 ->
  zlen (chunk_header t n) = 4 /\ nth 0 (chunk_header t n) Byte.x00 = t /\
  from_le_bytes [nth 1 (chunk_header t n) Byte.x00; nth 2 (chunk_header t n) Byte.x00; nth 3 (chunk_header t n) Byte.x00; Byte.x00] = n.
Proof.
  intros Hn. unfold chunk_header. rewrite zlen_cons, zlen_to_le_bytes. split; [done|]. split; [done|].
  rewrite <- (from_to_le_bytes 3 n Hn) at 4. pose proof (length_to_le_bytes 3 n) as Hlen.
  by destruct (to_le_bytes 3 n) as [|b0 [|b1 [|b2 [|]]]].
Qed.

(** A chunk is read by its type, with its payload taken off the stream. *)
Lemma read_chunk_framed t n payload e d i rest :
  zlen payload = n -> n <= MAX_SNAPPY_FRAME_PAYLOAD ->
  read_chunk e d i (chunk_header t n ++ payload ++ rest) =
    (let chunk_type := byte.unsigned t in
     if chunk_type =? 255 then
       if negb (n =? 6) then Err BadStreamId
       else if negb (bool_decide (payload = stream_identifier)) then Err BadStreamId else Ok ((d, true), rest)
     else if chunk_type =? 0 then
       if negb i then Err FrameBeforeStreamId
       else if n <? 4 then Err FrameTooShort
       else
         match decompress_len (drop 4 payload) with
         | None => Err SnappyFailed
         | Some len =>
             if e <? zlen d + len then Err FrameExceedsLength
             else match decompress (drop 4 payload) (replicate (Z.to_nat len) Byte.x00) with
                  | None => Err SnappyFailed
                  | Some out => Ok ((d ++ out, i), rest)
                  end
         end
     else if chunk_type =? 1 then
       if negb i then Err FrameBeforeStreamId
       else if n <? 4 then Err FrameTooShort
       else if e <? zlen d + zlen (drop 4 payload) then Err FrameExceedsLength
       else Ok ((d ++ drop 4 payload, i), rest)
     else if 128 <=? chunk_type then Ok ((d, i), rest)
     else Err (UnknownChunkType chunk_type)).
Proof.
  intros Hn Hmax. pose proof (zlen_nonneg payload) as Hpos. unfold MAX_SNAPPY_FRAME_PAYLOAD in *.
  destruct (chunk_header_read t n) as (Hh & Ht & Hl); [lia|]. unfold read_chunk, mbind at 1, io_bind at 1.
  rewrite read_exact_app by done. cbv zeta. rewrite Ht, Hl. unfold MAX_SNAPPY_FRAME_PAYLOAD.
  rewrite (proj2 (Z.ltb_ge _ _)) by lia. unfold mbind, io_bind.
  repeat match goal with
    | |- (if ?b then _ else _) _ = (if ?b then _ else _) => destruct b eqn:?
    | |- io_fail _ _ = _ => done
    end; rewrite ?(read_exact_app n) by done.
  - assert (n = 6) as Hn6 by (destruct (Z.eqb_spec n 6); done). rewrite (read_exact_app 6) by lia. by destruct (bool_decide _).
  - destruct (decompress_len (drop 4 payload)) as [len|]; [|done]. destruct (e <? zlen d + len); [done|].
    by destruct (decompress _ _).
  - by destruct (e <? _).
  - done.
Qed.

Lemma read_chunk_data part chunk e d rest :
  data_chunk part chunk -> zlen d + zlen part <= e -> read_chunk e d true (chunk ++ rest) = Ok ((d ++ part, true), rest).
Proof.
  intros [crc block Hcrc Hlen Hdec Hmax|crc Hcrc Hmax] He; rewrite <- !(assoc_L (++)), (assoc_L (++) crc).
  - rewrite read_chunk_framed by (unfold MAX_SNAPPY_FRAME_PAYLOAD; rewrite ?zlen_app; lia). cbv zeta. cbn [Z.eqb negb byte.unsigned].
    rewrite (proj2 (Z.ltb_ge _ 4)) by (pose proof (zlen_nonneg block); lia). rewrite drop_app_length' by (unfold zlen in Hcrc; lia).
    rewrite Hlen, (proj2 (Z.ltb_ge _ _)) by lia. rewrite Hdec; [done|]. rewrite zlen_replicate. unfold zlen; lia.
  - rewrite read_chunk_framed by (unfold MAX_SNAPPY_FRAME_PAYLOAD; rewrite ?zlen_app; lia). cbv zeta. cbn [Z.eqb negb byte.unsigned].
    rewrite (proj2 (Z.ltb_ge _ 4)) by (pose proof (zlen_nonneg part); lia). rewrite drop_app_length' by (unfold zlen in Hcrc; lia).
    by rewrite (proj2 (Z.ltb_ge _ _)) by lia.
Qed.

Lemma read_chunk_identifier e d i rest :
  read_chunk e d i (chunk_header Byte.xff 6 ++ stream_identifier ++ rest) = Ok ((d, true), rest).
Proof. by rewrite read_chunk_framed. Qed.

Lemma data_chunk_nonempty part chunk : data_chunk part chunk -> chunk <> [].
Proof. by intros [crc block|crc]. Qed.

Lemma snappy_loop_chunks parts chunks :
  Forall2 data_chunk parts chunks -> Forall (fun p => p <> []) parts ->
  forall fuel d rest, (length (concat chunks ++ rest) < fuel)%nat ->
  snappy_loop fuel (zlen (d ++ concat parts)) d true (concat chunks ++ rest) = Ok (d ++ concat parts, rest).
Proof.
  induction 1 as [|part chunk parts chunks Hc _ IH]; intros Hne fuel d rest Hfuel; (destruct fuel as [|fuel]; [lia|]); cbn [snappy_loop concat].
  - rewrite app_nil_r, Z.ltb_irrefl. done.
  - apply Forall_cons in Hne as [Hp Hne]. rewrite (proj2 (Z.ltb_lt _ _)).
    2: { rewrite !zlen_app. pose proof (zlen_nonneg (concat parts)). destruct part; [done|]. rewrite zlen_cons. pose proof (zlen_nonneg part). lia. }
    unfold mbind, io_bind. rewrite <- (assoc_L (++) chunk), (read_chunk_data part); [|done|rewrite !zlen_app; pose proof (zlen_nonneg (concat parts)); lia].
    rewrite (assoc_L (++) d). apply IH; [done|]. apply data_chunk_nonempty in Hc. cbn [concat] in Hfuel. rewrite !length_app in *. destruct chunk; [done|]. cbn [length] in Hfuel. lia.
Qed.

Lemma read_bounded_exact `{!SnappyOk} data rest :
  data <> [] -> read_bounded_snappy (zlen data) (frame_encode data ++ rest) = Ok (data, rest).
Proof.
  intros Hne. destruct (frame_encode_chunks data Hne) as (parts & chunks & <- & Hparts & Hch & ->).
  unfold read_bounded_snappy. rewrite <- !(assoc_L (++)). cbn [snappy_loop].
  rewrite (proj2 (Z.ltb_lt _ _)).
  2: { unfold zlen. destruct (concat parts); [done|]. cbn. lia. }
  unfold mbind, io_bind. rewrite read_chunk_identifier. rewrite <- (app_nil_l (concat parts)) at 1.
  rewrite (snappy_loop_chunks parts chunks); [done..|]. rewrite !length_app. cbn. lia.
Qed.

(** *** Nothing else is accepted *)
Lemma read_chunk_bound `{!SnappyOk} e d i s d' i' r : zlen d <= e -> read_chunk e d i s = Ok ((d', i'), r) -> zlen d' <= e.
Proof.
  unfold read_chunk. intros Hd H'. cbv zeta in H'. io_cases H'; injection H' as <- _ _; try done; rewrite zlen_app.
  - match goal with H : decompress _ _ = Some _ |- _ => apply decompress_length in H; rewrite zlen_replicate in H end.
    match goal with H : decompress_len _ = Some _ |- _ => apply decompress_len_range in H end.
    match goal with H : (_ <? _ + _) = false |- _ => apply Z.ltb_ge in H end. lia.
  - match goal with H : (_ <? _ + _) = false |- _ => apply Z.ltb_ge in H end. lia.
Qed.

Lemma snappy_loop_length `{!SnappyOk} n e d i s out r : zlen d <= e -> snappy_loop n e d i s = Ok (out, r) -> zlen out = e.
Proof.
  revert d i s. induction n as [|n IH]; intros d i s Hd; cbn [snappy_loop]; [done|].
  destruct (Z.ltb_spec (zlen d) e); [|intros [= <- _]; lia]. intros ([d' i'] & s' & Hc & Hl)%io_bind_Ok.
  eapply IH; [|exact Hl]. by eapply read_chunk_bound.
Qed.

Lemma read_bounded_length `{!SnappyOk} n s out r : 0 <= n -> read_bounded_snappy n s = Ok (out, r) -> zlen out = n.
Proof. intros Hn. by apply snappy_loop_length. Qed.

(** *** Payloads *)
Lemma payload_round_trip `{!SnappyOk} {D} (c : codec D) wf `{!CodecOk c wf} max v rest :
  wf v -> as_ssz_bytes c v <> [] -> zlen (as_ssz_bytes c v) <= max < U32 ->
  read_ssz_snappy_payload c max (write_ssz_snappy (as_ssz_bytes c v) ++ rest) = Ok (v, rest).
Proof.
  intros Hwf Hne Hmax. pose proof (zlen_nonneg (as_ssz_bytes c v)) as Hpos. unfold U32 in Hmax.
  unfold read_ssz_snappy_payload, write_ssz_snappy. rewrite <- (assoc_L (++)). unfold mbind, io_bind.
  rewrite read_varint_write by (unfold u64, U64; lia). rewrite (proj2 (Z.ltb_ge _ _)) by lia.
  rewrite read_bounded_exact by done. unfold decode_payload. rewrite (decode_encode (c:=c)); [done..|unfold U32; lia].
Qed.

(** A reader takes a prefix off the stream. *)
Definition takes_prefix {A} (m : io A) : Prop := forall s a r, m s = Ok (a, r) -> exists p, s = p ++ r.
Lemma read_exact_prefix n : takes_prefix (read_exact n).
Proof. intros s b r. unfold read_exact. destruct (_ <=? _); [|done]. intros [= _ <-]. eexists. symmetry. apply take_drop. Qed.
Lemma io_ret_prefix {A} (a : A) : takes_prefix (mret a).
Proof. intros s x r [= _ <-]. by exists []. Qed.
Lemma io_fail_prefix {A} e : takes_prefix (@io_fail A e).
Proof. done. Qed.
Lemma io_bind_prefix {A B} (m : io A) (f : A -> io B) : takes_prefix m -> (forall a, takes_prefix (f a)) -> takes_prefix (m ≫= f).
Proof.
  intros Hm Hf s b r (a & s' & Ha & Hb)%io_bind_Ok. apply Hm in Ha as [p ->]. apply Hf in Hb as [q ->].
  exists (p ++ q). by rewrite (assoc_L (++)).
Qed.
Lemma io_fmap_prefix {A B} (f : A -> B) (m : io A) : takes_prefix m -> takes_prefix (f <$> m).
Proof. intros Hm s b r. unfold fmap, io_fmap. destruct (m s) as [ [a r']| |] eqn:Ha; [|done..]. intros [= _ <-]. by eapply Hm. Qed.
Lemma io_if_prefix {A} (b : bool) (m1 m2 : io A) : takes_prefix m1 -> takes_prefix m2 -> takes_prefix (if b then m1 else m2).
Proof. by destruct b. Qed.

Ltac prefix := repeat first
  [ apply read_exact_prefix | apply io_fail_prefix | apply io_ret_prefix
  | apply io_bind_prefix; [|intros ?] | apply io_if_prefix | progress cbv beta zeta ].

Lemma read_chunk_prefix e d i : takes_prefix (read_chunk e d i).
Proof. unfold read_chunk. prefix. destruct (decompress_len _); prefix. destruct (decompress _ _); prefix. Qed.

Lemma snappy_loop_prefix n e d i : takes_prefix (snappy_loop n e d i).
Proof.
  revert d i. induction n as [|n IH]; intros d i; cbn [snappy_loop]; [prefix|].
  apply io_if_prefix; [|prefix]. apply io_bind_prefix; [apply read_chunk_prefix|intros [d' i']; apply IH].
Qed.
Lemma payload_prefix {D} (c : codec D) max : takes_prefix (read_ssz_snappy_payload c max).
Proof.
  apply io_bind_prefix; [intros s v r [_ ->]%varint_exact; by eexists|intros n]. apply io_if_prefix; [prefix|].
  apply io_bind_prefix; [intros s; apply snappy_loop_prefix|intros b]. intros s v r. unfold decode_payload.
  destruct (from_ssz_bytes c b); [|done..]. intros [= _ <-]. by exists [].
Qed.

(** Whatever a peer sends, an accepted payload is the encoding of a value of its
    type, of the announced length, within the bound. *)
Lemma payload_bounded `{!SnappyOk} {D} (c : codec D) wf `{!CodecOk c wf} max s v rest :
  read_ssz_snappy_payload c max s = Ok (v, rest) ->
  wf v /\ zlen (as_ssz_bytes c v) <= max /\ exists frames, s = write_varint (zlen (as_ssz_bytes c v)) ++ frames ++ rest.
Proof.
  intros (n & s1 & Hn & Hr)%io_bind_Ok. apply varint_exact in Hn as [[Hn _] ->].
  destruct (Z.ltb_spec max n); [done|]. apply io_bind_Ok in Hr as (b & s2 & Hb & Hd).
  pose proof (read_bounded_length _ _ _ _ Hn Hb) as Hlen. apply snappy_loop_prefix in Hb as [frames ->].
  unfold decode_payload in Hd. destruct (from_ssz_bytes c b) as [d| |] eqn:Hdec; [|done..]. injection Hd as <- <-.
  apply (decode_canonical (c:=c)) in Hdec as [Hwf <-]. split; [done|]. split; [lia|]. exists frames. by rewrite Hlen.
Qed.

Definition no_abort {A} (m : io A) : Prop := forall s, m s <> Panic.
Lemma read_exact_no_abort n : no_abort (read_exact n).
Proof. intros s. unfold read_exact. by destruct (_ <=? _). Qed.
Lemma io_fail_no_abort {A} e : no_abort (@io_fail A e).
Proof. done. Qed.
Lemma io_ret_no_abort {A} (a : A) : no_abort (mret a).
Proof. done. Qed.
Lemma io_bind_no_abort {A B} (m : io A) (f : A -> io B) : no_abort m -> (forall a, no_abort (f a)) -> no_abort (m ≫= f).
Proof. intros Hm Hf s. unfold mbind, io_bind. specialize (Hm s). destruct (m s) as [ [a s']| |]; [apply Hf|done..]. Qed.
Lemma io_fmap_no_abort {A B} (f : A -> B) (m : io A) : no_abort m -> no_abort (f <$> m).
Proof. intros Hm s. unfold fmap, io_fmap. specialize (Hm s). by destruct (m s) as [ [a r]| |]. Qed.
Lemma io_if_no_abort {A} (b : bool) (m1 m2 : io A) : no_abort m1 -> no_abort m2 -> no_abort (if b then m1 else m2).
Proof. by destruct b. Qed.

Ltac no_abort := repeat first
  [ apply read_exact_no_abort | apply io_fail_no_abort | apply io_ret_no_abort
  | apply io_bind_no_abort; [|intros ?] | apply io_if_no_abort | progress cbv beta zeta ].

Lemma read_varint_no_abort : no_abort read_varint.
Proof.
  assert (forall turns value shift count, no_abort (read_varint_loop turns value shift count)) as Hloop; [|apply Hloop].
  induction turns as [|turns IH]; intros value shift count; cbn [read_varint_loop]; no_abort. apply IH.
Qed.

Lemma read_bounded_no_abort n : no_abort (read_bounded_snappy n).
Proof.
  assert (forall fuel d i, no_abort (snappy_loop fuel n d i)) as Hloop; [|intros s; apply Hloop].
  induction fuel as [|fuel IH]; intros d i; cbn [snappy_loop]; no_abort; [|destruct a; apply IH].
  unfold read_chunk. no_abort. destruct (decompress_len _); no_abort. destruct (decompress _ _); no_abort.
Qed.

Lemma payload_no_abort {D} (c : codec D) wf `{!CodecOk c wf} max : no_abort (read_ssz_snappy_payload c max).
Proof.
  unfold read_ssz_snappy_payload. apply io_bind_no_abort; [apply read_varint_no_abort|intros n]. apply io_if_no_abort; [no_abort|]. apply io_bind_no_abort; [apply read_bounded_no_abort|intros b].
  intros s. unfold decode_payload. destruct (from_ssz_bytes c b) eqn:Hd; [done..|]. by apply (decode_no_panic (c:=c)) in Hd.
Qed.
End snappy.
