(* ===== verification/RpcTypes.v ===== *)
(** * Networking: the containers of requests and responses

    The structs of crates/pharos-types that travel in requests and responses, with the
    codecs of their [#[derive(Encode, Decode)]] and the hand-written ones of the
    requests that are a bare list.  The lemmas at the end bound their encodings. *)

From stdpp Require Import base list.
From Stdlib Require Import ZArith Lia.
From S2P Require Import Prelude SszCodec SszContainer SszBitfield SszTypes.

Definition ATTESTATION_SUBNET_COUNT : Z := 64.
Definition SYNC_COMMITTEE_SUBNET_COUNT : Z := 4.
Definition BYTES_PER_BLOB : Z := 131072.
Definition BYTES_PER_CELL : Z := 2048.
Definition KZG_COMMITMENT_INCLUSION_PROOF_DEPTH : Z := 17.
Definition NUMBER_OF_COLUMNS : Z := 128.
Definition MAX_REQUEST_BLOCKS : Z := 1024.
Definition MAX_REQUEST_BLOCKS_DENEB : Z := 128.
Definition MAX_REQUEST_BLOB_SIDECARS : Z := 768.

#[export] Instance u8_codec_ok : CodecOk (uint_codec 1) (wf_uint 1).
Proof. apply uint_codec_ok; [lia|done]. Qed.
#[export] Instance attnets_codec_ok : CodecOk (bitvector_codec ATTESTATION_SUBNET_COUNT) (wf_bitvector ATTESTATION_SUBNET_COUNT).
Proof. by apply bitvector_codec_ok. Qed.
#[export] Instance syncnets_codec_ok : CodecOk (bitvector_codec SYNC_COMMITTEE_SUBNET_COUNT) (wf_bitvector SYNC_COMMITTEE_SUBNET_COUNT).
Proof. by apply bitvector_codec_ok. Qed.
#[export] Instance kzg_codec_ok : CodecOk (fixed_bytes_codec 48) (wf_fixed_bytes 48).
Proof. apply fixed_bytes_codec_ok; [lia|done]. Qed.
#[export] Instance blob_codec_ok : CodecOk (vector_codec (uint_codec 1) BYTES_PER_BLOB) (wf_vector (wf_uint 1) BYTES_PER_BLOB).
Proof. by apply vector_codec_ok; [apply _|..]. Qed.
#[export] Instance cell_codec_ok : CodecOk (vector_codec (uint_codec 1) BYTES_PER_CELL) (wf_vector (wf_uint 1) BYTES_PER_CELL).
Proof. by apply vector_codec_ok; [apply _|..]. Qed.
#[export] Instance inclusion_proof_codec_ok :
  CodecOk (vector_codec root_codec KZG_COMMITMENT_INCLUSION_PROOF_DEPTH) (wf_vector (wf_fixed_bytes 32) KZG_COMMITMENT_INCLUSION_PROOF_DEPTH).
Proof. by apply vector_codec_ok; [apply _|..]. Qed.

(** ** Containers *)
Record Status : Type := mkStatus {
  st_fork_digest : bytes;
  st_finalized_root : bytes;
  st_finalized_epoch : Z;
  st_head_root : bytes;
  st_head_slot : Z;
}.

Definition status_codec : codec Status :=
  derive_codec (FCons (fixed_bytes_codec 4) (FCons root_codec (FCons u64_codec (FCons
    root_codec (FCons u64_codec FNil)))))
    (fun '(x0, (x1, (x2, (x3, (x4, _))))) => mkStatus x0 x1 x2 x3 x4)
    (fun r => (st_fork_digest r, (st_finalized_root r, (st_finalized_epoch r, (st_head_root r,
      (st_head_slot r, tt)))))).
Definition wf_status : Status -> Prop :=
  wf_struct (wf_cons (wf_fixed_bytes 4) (wf_cons (wf_fixed_bytes 32) (wf_cons (wf_uint 8)
    (wf_cons (wf_fixed_bytes 32) (wf_cons (wf_uint 8) wf_nil)))))
    (fun '(x0, (x1, (x2, (x3, (x4, _))))) => mkStatus x0 x1 x2 x3 x4)
    (fun r => (st_fork_digest r, (st_finalized_root r, (st_finalized_epoch r, (st_head_root r,
      (st_head_slot r, tt)))))).
#[export] Instance status_codec_ok : CodecOk status_codec wf_status.
Proof. derive_ok. Qed.

Record StatusV2 : Type := mkStatusV2 {
  st2_fork_digest : bytes;
  st2_finalized_root : bytes;
  st2_finalized_epoch : Z;
  st2_head_root : bytes;
  st2_head_slot : Z;
  st2_earliest_available_slot : Z;
}.

Definition status_v2_codec : codec StatusV2 :=
  derive_codec (FCons (fixed_bytes_codec 4) (FCons root_codec (FCons u64_codec (FCons
    root_codec (FCons u64_codec (FCons u64_codec FNil))))))
    (fun '(x0, (x1, (x2, (x3, (x4, (x5, _)))))) => mkStatusV2 x0 x1 x2 x3 x4 x5)
    (fun r => (st2_fork_digest r, (st2_finalized_root r, (st2_finalized_epoch r, (st2_head_root
      r, (st2_head_slot r, (st2_earliest_available_slot r, tt))))))).
Definition wf_status_v2 : StatusV2 -> Prop :=
  wf_struct (wf_cons (wf_fixed_bytes 4) (wf_cons (wf_fixed_bytes 32) (wf_cons (wf_uint 8)
    (wf_cons (wf_fixed_bytes 32) (wf_cons (wf_uint 8) (wf_cons (wf_uint 8) wf_nil))))))
    (fun '(x0, (x1, (x2, (x3, (x4, (x5, _)))))) => mkStatusV2 x0 x1 x2 x3 x4 x5)
    (fun r => (st2_fork_digest r, (st2_finalized_root r, (st2_finalized_epoch r, (st2_head_root
      r, (st2_head_slot r, (st2_earliest_available_slot r, tt))))))).
#[export] Instance status_v2_codec_ok : CodecOk status_v2_codec wf_status_v2.
Proof. derive_ok. Qed.

Record BeaconBlocksByRangeRequest : Type := mkBeaconBlocksByRangeRequest {
  bbr_start_slot : Z;
  bbr_count : Z;
  bbr_step : Z;
}.

Definition blocks_by_range_codec : codec BeaconBlocksByRangeRequest :=
  derive_codec (FCons u64_codec (FCons u64_codec (FCons u64_codec FNil)))
    (fun '(x0, (x1, (x2, _))) => mkBeaconBlocksByRangeRequest x0 x1 x2)
    (fun r => (bbr_start_slot r, (bbr_count r, (bbr_step r, tt)))).
Definition wf_blocks_by_range : BeaconBlocksByRangeRequest -> Prop :=
  wf_struct (wf_cons (wf_uint 8) (wf_cons (wf_uint 8) (wf_cons (wf_uint 8) wf_nil)))
    (fun '(x0, (x1, (x2, _))) => mkBeaconBlocksByRangeRequest x0 x1 x2)
    (fun r => (bbr_start_slot r, (bbr_count r, (bbr_step r, tt)))).
#[export] Instance blocks_by_range_codec_ok : CodecOk blocks_by_range_codec wf_blocks_by_range.
Proof. derive_ok. Qed.

Record BeaconBlocksByHeadRequest : Type := mkBeaconBlocksByHeadRequest {
  bbh_beacon_root : bytes;
  bbh_count : Z;
}.

Definition blocks_by_head_codec : codec BeaconBlocksByHeadRequest :=
  derive_codec (FCons root_codec (FCons u64_codec FNil))
    (fun '(x0, (x1, _)) => mkBeaconBlocksByHeadRequest x0 x1)
    (fun r => (bbh_beacon_root r, (bbh_count r, tt))).
Definition wf_blocks_by_head : BeaconBlocksByHeadRequest -> Prop :=
  wf_struct (wf_cons (wf_fixed_bytes 32) (wf_cons (wf_uint 8) wf_nil))
    (fun '(x0, (x1, _)) => mkBeaconBlocksByHeadRequest x0 x1)
    (fun r => (bbh_beacon_root r, (bbh_count r, tt))).
#[export] Instance blocks_by_head_codec_ok : CodecOk blocks_by_head_codec wf_blocks_by_head.
Proof. derive_ok. Qed.

Record MetaData : Type := mkMetaData {
  md_seq_number : Z;
  md_attnets : bytes;
}.

Definition metadata_codec : codec MetaData :=
  derive_codec (FCons u64_codec (FCons (bitvector_codec ATTESTATION_SUBNET_COUNT) FNil))
    (fun '(x0, (x1, _)) => mkMetaData x0 x1)
    (fun r => (md_seq_number r, (md_attnets r, tt))).
Definition wf_metadata : MetaData -> Prop :=
  wf_struct (wf_cons (wf_uint 8) (wf_cons (wf_bitvector ATTESTATION_SUBNET_COUNT) wf_nil))
    (fun '(x0, (x1, _)) => mkMetaData x0 x1)
    (fun r => (md_seq_number r, (md_attnets r, tt))).
#[export] Instance metadata_codec_ok : CodecOk metadata_codec wf_metadata.
Proof. derive_ok. Qed.

Record AltairMetaData : Type := mkAltairMetaData {
  amd_seq_number : Z;
  amd_attnets : bytes;
  amd_syncnets : bytes;
}.

Definition altair_metadata_codec : codec AltairMetaData :=
  derive_codec (FCons u64_codec (FCons (bitvector_codec ATTESTATION_SUBNET_COUNT) (FCons
    (bitvector_codec SYNC_COMMITTEE_SUBNET_COUNT) FNil)))
    (fun '(x0, (x1, (x2, _))) => mkAltairMetaData x0 x1 x2)
    (fun r => (amd_seq_number r, (amd_attnets r, (amd_syncnets r, tt)))).
Definition wf_altair_metadata : AltairMetaData -> Prop :=
  wf_struct (wf_cons (wf_uint 8) (wf_cons (wf_bitvector ATTESTATION_SUBNET_COUNT) (wf_cons
    (wf_bitvector SYNC_COMMITTEE_SUBNET_COUNT) wf_nil)))
    (fun '(x0, (x1, (x2, _))) => mkAltairMetaData x0 x1 x2)
    (fun r => (amd_seq_number r, (amd_attnets r, (amd_syncnets r, tt)))).
#[export] Instance altair_metadata_codec_ok : CodecOk altair_metadata_codec wf_altair_metadata.
Proof. derive_ok. Qed.

Record MetaDataV3 : Type := mkMetaDataV3 {
  md3_seq_number : Z;
  md3_attnets : bytes;
  md3_syncnets : bytes;
  md3_custody_group_count : Z;
}.

Definition metadata_v3_codec : codec MetaDataV3 :=
  derive_codec (FCons u64_codec (FCons (bitvector_codec ATTESTATION_SUBNET_COUNT) (FCons
    (bitvector_codec SYNC_COMMITTEE_SUBNET_COUNT) (FCons u64_codec FNil))))
    (fun '(x0, (x1, (x2, (x3, _)))) => mkMetaDataV3 x0 x1 x2 x3)
    (fun r => (md3_seq_number r, (md3_attnets r, (md3_syncnets r, (md3_custody_group_count r,
      tt))))).
Definition wf_metadata_v3 : MetaDataV3 -> Prop :=
  wf_struct (wf_cons (wf_uint 8) (wf_cons (wf_bitvector ATTESTATION_SUBNET_COUNT) (wf_cons
    (wf_bitvector SYNC_COMMITTEE_SUBNET_COUNT) (wf_cons (wf_uint 8) wf_nil))))
    (fun '(x0, (x1, (x2, (x3, _)))) => mkMetaDataV3 x0 x1 x2 x3)
    (fun r => (md3_seq_number r, (md3_attnets r, (md3_syncnets r, (md3_custody_group_count r,
      tt))))).
#[export] Instance metadata_v3_codec_ok : CodecOk metadata_v3_codec wf_metadata_v3.
Proof. derive_ok. Qed.

Record ErrorMessage : Type := mkErrorMessage {
  em_message : list Z;
}.

Definition error_message_codec : codec ErrorMessage :=
  derive_codec (FCons (list_codec (uint_codec 1) 256) FNil)
    (fun '(x0, _) => mkErrorMessage x0)
    (fun r => (em_message r, tt)).
Definition wf_error_message : ErrorMessage -> Prop :=
  wf_struct (wf_cons (wf_list (wf_uint 1) 256) wf_nil)
    (fun '(x0, _) => mkErrorMessage x0)
    (fun r => (em_message r, tt)).
#[export] Instance error_message_codec_ok : CodecOk error_message_codec wf_error_message.
Proof. derive_ok. Qed.

Record BlobIdentifier : Type := mkBlobIdentifier {
  bi_block_root : bytes;
  bi_index : Z;
}.

Definition blob_identifier_codec : codec BlobIdentifier :=
  derive_codec (FCons root_codec (FCons u64_codec FNil))
    (fun '(x0, (x1, _)) => mkBlobIdentifier x0 x1)
    (fun r => (bi_block_root r, (bi_index r, tt))).
Definition wf_blob_identifier : BlobIdentifier -> Prop :=
  wf_struct (wf_cons (wf_fixed_bytes 32) (wf_cons (wf_uint 8) wf_nil))
    (fun '(x0, (x1, _)) => mkBlobIdentifier x0 x1)
    (fun r => (bi_block_root r, (bi_index r, tt))).
#[export] Instance blob_identifier_codec_ok : CodecOk blob_identifier_codec wf_blob_identifier.
Proof. derive_ok. Qed.

Record BlobSidecar : Type := mkBlobSidecar {
  bs_index : Z;
  bs_blob : list Z;
  bs_kzg_commitment : bytes;
  bs_kzg_proof : bytes;
  bs_signed_block_header : SignedBeaconBlockHeader;
  bs_kzg_commitment_inclusion_proof : list bytes;
}.

Definition blob_sidecar_codec : codec BlobSidecar :=
  derive_codec (FCons u64_codec (FCons (vector_codec (uint_codec 1) BYTES_PER_BLOB) (FCons
    (fixed_bytes_codec 48) (FCons (fixed_bytes_codec 48) (FCons signed_beacon_block_header_codec
    (FCons (vector_codec root_codec KZG_COMMITMENT_INCLUSION_PROOF_DEPTH) FNil))))))
    (fun '(x0, (x1, (x2, (x3, (x4, (x5, _)))))) => mkBlobSidecar x0 x1 x2 x3 x4 x5)
    (fun r => (bs_index r, (bs_blob r, (bs_kzg_commitment r, (bs_kzg_proof r,
      (bs_signed_block_header r, (bs_kzg_commitment_inclusion_proof r, tt))))))).
Definition wf_blob_sidecar : BlobSidecar -> Prop :=
  wf_struct (wf_cons (wf_uint 8) (wf_cons (wf_vector (wf_uint 1) BYTES_PER_BLOB) (wf_cons
    (wf_fixed_bytes 48) (wf_cons (wf_fixed_bytes 48) (wf_cons wf_signed_beacon_block_header
    (wf_cons (wf_vector (wf_fixed_bytes 32) KZG_COMMITMENT_INCLUSION_PROOF_DEPTH) wf_nil))))))
    (fun '(x0, (x1, (x2, (x3, (x4, (x5, _)))))) => mkBlobSidecar x0 x1 x2 x3 x4 x5)
    (fun r => (bs_index r, (bs_blob r, (bs_kzg_commitment r, (bs_kzg_proof r,
      (bs_signed_block_header r, (bs_kzg_commitment_inclusion_proof r, tt))))))).
#[export] Instance blob_sidecar_codec_ok : CodecOk blob_sidecar_codec wf_blob_sidecar.
Proof. derive_ok. Qed.

Record BlobSidecarsByRangeRequest : Type := mkBlobSidecarsByRangeRequest {
  bsr_start_slot : Z;
  bsr_count : Z;
}.

Definition blobs_by_range_codec : codec BlobSidecarsByRangeRequest :=
  derive_codec (FCons u64_codec (FCons u64_codec FNil))
    (fun '(x0, (x1, _)) => mkBlobSidecarsByRangeRequest x0 x1)
    (fun r => (bsr_start_slot r, (bsr_count r, tt))).
Definition wf_blobs_by_range : BlobSidecarsByRangeRequest -> Prop :=
  wf_struct (wf_cons (wf_uint 8) (wf_cons (wf_uint 8) wf_nil))
    (fun '(x0, (x1, _)) => mkBlobSidecarsByRangeRequest x0 x1)
    (fun r => (bsr_start_slot r, (bsr_count r, tt))).
#[export] Instance blobs_by_range_codec_ok : CodecOk blobs_by_range_codec wf_blobs_by_range.
Proof. derive_ok. Qed.

Record DataColumnsByRootIdentifier : Type := mkDataColumnsByRootIdentifier {
  ci_block_root : bytes;
  ci_columns : list Z;
}.

Definition columns_identifier_codec : codec DataColumnsByRootIdentifier :=
  derive_codec (FCons root_codec (FCons (list_codec u64_codec NUMBER_OF_COLUMNS) FNil))
    (fun '(x0, (x1, _)) => mkDataColumnsByRootIdentifier x0 x1)
    (fun r => (ci_block_root r, (ci_columns r, tt))).
Definition wf_columns_identifier : DataColumnsByRootIdentifier -> Prop :=
  wf_struct (wf_cons (wf_fixed_bytes 32) (wf_cons (wf_list (wf_uint 8) NUMBER_OF_COLUMNS)
    wf_nil))
    (fun '(x0, (x1, _)) => mkDataColumnsByRootIdentifier x0 x1)
    (fun r => (ci_block_root r, (ci_columns r, tt))).
#[export] Instance columns_identifier_codec_ok : CodecOk columns_identifier_codec wf_columns_identifier.
Proof. derive_ok. Qed.

Record DataColumnSidecarsByRangeRequest : Type := mkDataColumnSidecarsByRangeRequest {
  cr_start_slot : Z;
  cr_count : Z;
  cr_columns : list Z;
}.

Definition columns_by_range_codec : codec DataColumnSidecarsByRangeRequest :=
  derive_codec (FCons u64_codec (FCons u64_codec (FCons (list_codec u64_codec
    NUMBER_OF_COLUMNS) FNil)))
    (fun '(x0, (x1, (x2, _))) => mkDataColumnSidecarsByRangeRequest x0 x1 x2)
    (fun r => (cr_start_slot r, (cr_count r, (cr_columns r, tt)))).
Definition wf_columns_by_range : DataColumnSidecarsByRangeRequest -> Prop :=
  wf_struct (wf_cons (wf_uint 8) (wf_cons (wf_uint 8) (wf_cons (wf_list (wf_uint 8)
    NUMBER_OF_COLUMNS) wf_nil)))
    (fun '(x0, (x1, (x2, _))) => mkDataColumnSidecarsByRangeRequest x0 x1 x2)
    (fun r => (cr_start_slot r, (cr_count r, (cr_columns r, tt)))).
#[export] Instance columns_by_range_codec_ok : CodecOk columns_by_range_codec wf_columns_by_range.
Proof. derive_ok. Qed.

Record DataColumnSidecar : Type := mkDataColumnSidecar {
  dcs_index : Z;
  dcs_column : list (list Z);
  dcs_kzg_commitments : list bytes;
  dcs_kzg_proofs : list bytes;
  dcs_signed_block_header : SignedBeaconBlockHeader;
  dcs_kzg_commitments_inclusion_proof : list bytes;
}.

Definition data_column_sidecar_codec : codec DataColumnSidecar :=
  derive_codec (FCons u64_codec (FCons (list_codec (vector_codec (uint_codec 1)
    BYTES_PER_CELL) 4096) (FCons (list_codec (fixed_bytes_codec 48) 4096) (FCons (list_codec
    (fixed_bytes_codec 48) 4096) (FCons signed_beacon_block_header_codec (FCons (vector_codec
    root_codec 4) FNil))))))
    (fun '(x0, (x1, (x2, (x3, (x4, (x5, _)))))) => mkDataColumnSidecar x0 x1 x2 x3 x4 x5)
    (fun r => (dcs_index r, (dcs_column r, (dcs_kzg_commitments r, (dcs_kzg_proofs r,
      (dcs_signed_block_header r, (dcs_kzg_commitments_inclusion_proof r, tt))))))).
Definition wf_data_column_sidecar : DataColumnSidecar -> Prop :=
  wf_struct (wf_cons (wf_uint 8) (wf_cons (wf_list (wf_vector (wf_uint 1) BYTES_PER_CELL)
    4096) (wf_cons (wf_list (wf_fixed_bytes 48) 4096) (wf_cons (wf_list (wf_fixed_bytes 48)
    4096) (wf_cons wf_signed_beacon_block_header (wf_cons (wf_vector (wf_fixed_bytes 32) 4)
    wf_nil))))))
    (fun '(x0, (x1, (x2, (x3, (x4, (x5, _)))))) => mkDataColumnSidecar x0 x1 x2 x3 x4 x5)
    (fun r => (dcs_index r, (dcs_column r, (dcs_kzg_commitments r, (dcs_kzg_proofs r,
      (dcs_signed_block_header r, (dcs_kzg_commitments_inclusion_proof r, tt))))))).
#[export] Instance data_column_sidecar_codec_ok : CodecOk data_column_sidecar_codec wf_data_column_sidecar.
Proof. derive_ok. Qed.

(** ** Requests that are a bare list *)
(** The hand-written [Encode] and [Decode] of a struct with one list field: the
    encoding of the field, without the offset a derived container would have. *)
Definition transparent_codec {T R} (c : codec T) (build : T -> R) (field : R -> T) : codec R :=
  Codec false (ssz_fixed_len c) (fun r => ssz_bytes_len c (field r)) (fun r buf => ssz_append c (field r) buf)
    (fun bs => v ← from_ssz_bytes c bs; Ok (build v)).

Lemma transparent_codec_ok {T R} (c : codec T) (build : T -> R) (field : R -> T) wf :
  CodecOk c wf -> IS_FIXED_SIZE c = false -> (forall r, build (field r) = r) -> (forall v, field (build v) = v) ->
  CodecOk (transparent_codec c build field) (fun r => wf (field r)).
Proof.
  intros Hc Hvar Hbf Hfb. unfold transparent_codec. split; cbn; unfold as_ssz_bytes; cbn.
  - intros v buf. apply (append_app (c:=c)).
  - apply (fixed_len_bounds (c:=c)).
  - intros _. by apply (variable_fixed_len (c:=c)).
  - done.
  - intros v Hv Hlen. by apply (bytes_len_exact (c:=c)).
  - intros v Hv Hlen. pose proof (decode_encode (c:=c) (field v) Hv Hlen) as Hd. unfold as_ssz_bytes in Hd. rewrite Hd. cbn. by rewrite Hbf.
  - intros bs v. destruct (from_ssz_bytes c bs) as [t| |] eqn:Hd; [|done..]. intros [= <-].
    rewrite Hfb. by apply (decode_canonical (c:=c)) in Hd.
  - intros bs. pose proof (decode_no_panic (c:=c) bs). by destruct (from_ssz_bytes c bs).
Qed.

Record BeaconBlocksByRootRequest : Type := mkBeaconBlocksByRootRequest { bbo_block_roots : list bytes }.
Definition blocks_by_root_codec : codec BeaconBlocksByRootRequest :=
  transparent_codec (list_codec root_codec MAX_REQUEST_BLOCKS) mkBeaconBlocksByRootRequest bbo_block_roots.
Definition wf_blocks_by_root (r : BeaconBlocksByRootRequest) : Prop :=
  wf_list (wf_fixed_bytes 32) MAX_REQUEST_BLOCKS (bbo_block_roots r).
#[export] Instance blocks_by_root_codec_ok : CodecOk blocks_by_root_codec wf_blocks_by_root.
Proof. apply (transparent_codec_ok _ _ _ (wf_list (wf_fixed_bytes 32) MAX_REQUEST_BLOCKS)); [codec_ok|done|by intros []|done]. Qed.

Record BlobSidecarsByRootRequest : Type := mkBlobSidecarsByRootRequest { bso_blob_ids : list BlobIdentifier }.
Definition blobs_by_root_codec : codec BlobSidecarsByRootRequest :=
  transparent_codec (list_codec blob_identifier_codec MAX_REQUEST_BLOB_SIDECARS) mkBlobSidecarsByRootRequest bso_blob_ids.
Definition wf_blobs_by_root (r : BlobSidecarsByRootRequest) : Prop :=
  wf_list wf_blob_identifier MAX_REQUEST_BLOB_SIDECARS (bso_blob_ids r).
#[export] Instance blobs_by_root_codec_ok : CodecOk blobs_by_root_codec wf_blobs_by_root.
Proof. apply (transparent_codec_ok _ _ _ (wf_list wf_blob_identifier MAX_REQUEST_BLOB_SIDECARS)); [codec_ok|done|by intros []|done]. Qed.

Record DataColumnSidecarsByRootRequest : Type := mkDataColumnSidecarsByRootRequest { co_ids : list DataColumnsByRootIdentifier }.
Definition columns_by_root_codec : codec DataColumnSidecarsByRootRequest :=
  transparent_codec (list_codec columns_identifier_codec MAX_REQUEST_BLOCKS_DENEB) mkDataColumnSidecarsByRootRequest co_ids.
Definition wf_columns_by_root (r : DataColumnSidecarsByRootRequest) : Prop :=
  wf_list wf_columns_identifier MAX_REQUEST_BLOCKS_DENEB (co_ids r).
#[export] Instance columns_by_root_codec_ok : CodecOk columns_by_root_codec wf_columns_by_root.
Proof. apply (transparent_codec_ok _ _ _ (wf_list wf_columns_identifier MAX_REQUEST_BLOCKS_DENEB)); [codec_ok|done|by intros []|done]. Qed.

(** ** The lengths of encodings *)
Definition sized {T} (c : codec T) (wf : T -> Prop) (lo hi : Z) : Prop :=
  forall v, wf v -> lo <= zlen (as_ssz_bytes c v) <= hi.

Lemma sized_fixed {T} (c : codec T) wf `{!CodecOk c wf} n : IS_FIXED_SIZE c = true -> ssz_fixed_len c = n -> sized c wf n n.
Proof. intros Hf <- v Hv. rewrite (fixed_len_exact (c:=c)) by done. lia. Qed.

Lemma sized_list {T} (c : codec T) wf N lo hi `{!CodecOk c wf} :
  sized c wf lo hi -> 0 <= hi -> sized (list_codec c N) (wf_list wf N) 0 (Z.max 0 N * ((if IS_FIXED_SIZE c then 0 else 4) + hi)).
Proof.
  intros Hs Hhi l [Hl HN]. change (as_ssz_bytes (list_codec c N) l) with (seq_ssz_append c l []).
  split; [apply zlen_nonneg|]. rewrite (zlen_seq_encoding c wf).
  assert (zlen (body c l) <= zlen l * hi) as Hbody.
  { clear HN. induction Hl as [|v l Hv _ IH]; [done|]. rewrite zlen_body_cons, zlen_cons. apply Hs in Hv. lia. }
  pose proof (zlen_nonneg l). destruct (IS_FIXED_SIZE c); nia.
Qed.

(** The variable part of a container. *)
Inductive fields_sized : forall {T}, Fields T -> (T -> Prop) -> Z -> Z -> Prop :=
  | sized_nil : fields_sized FNil wf_nil 0 0
  | sized_cons_fixed {A B} (c : codec A) wfa (fs : Fields B) wfb lo hi :
      IS_FIXED_SIZE c = true -> fields_sized fs wfb lo hi -> fields_sized (FCons c fs) (wf_cons wfa wfb) lo hi
  | sized_cons_var {A B} (c : codec A) wfa (fs : Fields B) wfb lo hi lo' hi' :
      IS_FIXED_SIZE c = false -> sized c wfa lo' hi' -> fields_sized fs wfb lo hi ->
      fields_sized (FCons c fs) (wf_cons wfa wfb) (lo' + lo) (hi' + hi).

Lemma sized_derive {T R} (fs : Fields T) wf (build : T -> R) fields lo hi lo' hi' :
  FieldsOk fs wf -> flen fs + lo = lo' -> flen fs + hi = hi' -> fields_sized fs wf lo hi ->
  sized (derive_codec fs build fields) (wf_struct wf build fields) lo' hi'.
Proof.
  intros Hok <- <- Hs r [Hr _]. change (as_ssz_bytes (derive_codec fs build fields) r) with (fields_append fs (fields r) []).
  rewrite (zlen_fields_append fs wf) by done. enough (lo <= zlen (varpart fs (fields r)) <= hi) by lia.
  generalize dependent (fields r). clear r fields build Hok.
  induction Hs as [|A B c wfa fs wfb lo hi Hf _ IH|A B c wfa fs wfb lo hi lo' hi' Hf Hc _ IH]; intros v; [done|..];
    destruct v as [a v]; intros [Ha Hv]; cbn [varpart]; rewrite Hf; [apply IH; done|].
  rewrite zlen_app. apply Hc in Ha. apply IH in Hv. cbn in *. lia.
Qed.

Lemma columns_sized : sized (list_codec u64_codec NUMBER_OF_COLUMNS) (wf_list (wf_uint 8) NUMBER_OF_COLUMNS) 0 (NUMBER_OF_COLUMNS * 8).
Proof. apply (sized_list u64_codec (wf_uint 8) NUMBER_OF_COLUMNS 8 8); [by apply sized_fixed; [apply _|..]|done]. Qed.
Lemma columns_by_range_sized : sized columns_by_range_codec wf_columns_by_range 20 (20 + NUMBER_OF_COLUMNS * 8).
Proof.
  apply (sized_derive _ _ _ _ 0 (NUMBER_OF_COLUMNS * 8)); [repeat first [apply FieldsOk_nil|apply FieldsOk_cons; [codec_ok|]]|done|done|].
  do 2 (apply sized_cons_fixed; [done|]). apply (sized_cons_var _ _ _ _ 0 0 0 (NUMBER_OF_COLUMNS * 8)); [done|apply columns_sized|constructor].
Qed.
Lemma columns_identifier_sized : sized columns_identifier_codec wf_columns_identifier 36 (36 + NUMBER_OF_COLUMNS * 8).
Proof.
  apply (sized_derive _ _ _ _ 0 (NUMBER_OF_COLUMNS * 8)); [repeat first [apply FieldsOk_nil|apply FieldsOk_cons; [codec_ok|]]|done|done|].
  apply sized_cons_fixed; [done|]. apply (sized_cons_var _ _ _ _ 0 0 0 (NUMBER_OF_COLUMNS * 8)); [done|apply columns_sized|constructor].
Qed.
Lemma columns_by_root_sized :
  sized columns_by_root_codec wf_columns_by_root 0 (MAX_REQUEST_BLOCKS_DENEB * (4 + 32 + 4 + NUMBER_OF_COLUMNS * 8)).
Proof. intros r Hr. apply (sized_list columns_identifier_codec _ MAX_REQUEST_BLOCKS_DENEB _ _ columns_identifier_sized ltac:(done) _ Hr). Qed.
Lemma blocks_by_root_sized : sized blocks_by_root_codec wf_blocks_by_root 0 (MAX_REQUEST_BLOCKS * 32).
Proof.
  intros r Hr. apply (sized_list root_codec (wf_fixed_bytes 32) MAX_REQUEST_BLOCKS 32 32); [by apply sized_fixed; [apply _|..]|done|done].
Qed.
Lemma blobs_by_root_sized : sized blobs_by_root_codec wf_blobs_by_root 0 (MAX_REQUEST_BLOB_SIDECARS * 40).
Proof.
  intros r Hr. apply (sized_list blob_identifier_codec wf_blob_identifier MAX_REQUEST_BLOB_SIDECARS 40 40); [by apply sized_fixed; [apply _|..]|done|done].
Qed.
Lemma error_message_sized : sized error_message_codec wf_error_message 4 260.
Proof.
  apply (sized_derive _ _ _ _ 0 256); [repeat first [apply FieldsOk_nil|apply FieldsOk_cons; [codec_ok|]]|done|done|].
  apply (sized_cons_var _ _ _ _ 0 0 0 256); [done| |constructor].
  apply (sized_list (uint_codec 1) (wf_uint 1) 256 1 1); [by apply sized_fixed; [apply _|..]|done].
Qed.
Lemma data_column_sidecar_sized : sized data_column_sidecar_codec wf_data_column_sidecar 356 (356 + 4096 * (2048 + 48 + 48)).
Proof.
  apply (sized_derive _ _ _ _ 0 (4096 * 2048 + (4096 * 48 + 4096 * 48))); [repeat first [apply FieldsOk_nil|apply FieldsOk_cons; [codec_ok|]]|done|done|].
  apply sized_cons_fixed; [done|]. apply (sized_cons_var _ _ _ _ 0 (4096 * 48 + 4096 * 48) 0 (4096 * 2048)); [done| |].
  { apply (sized_list (vector_codec (uint_codec 1) BYTES_PER_CELL) _ 4096 2048 2048); [by apply sized_fixed; [apply _|..]|done]. }
  apply (sized_cons_var _ _ _ _ 0 (4096 * 48) 0 (4096 * 48)); [done| |].
  { apply (sized_list (fixed_bytes_codec 48) _ 4096 48 48); [by apply sized_fixed; [apply _|..]|done]. }
  apply (sized_cons_var _ _ _ _ 0 0 0 (4096 * 48)); [done| |by repeat (apply sized_cons_fixed; [done|]); constructor].
  apply (sized_list (fixed_bytes_codec 48) _ 4096 48 48); [by apply sized_fixed; [apply _|..]|done].
Qed.
