(* ===== verification/RpcCodec.v ===== *)
(** * Networking: the request and response codec

    [RpcCodec] of crates/pharos-network/src/rpc/codec.rs with the methods of
    scoring.rs and protocol.rs, the bounds of rpc/size_bounds.rs and the messages of
    rpc/types.rs.  The blocks and light client objects of a preset are wire types of
    the interface [WireSpec]; the fork digests are the interface [ForkContext], which
    file ForkSchedule implements.

    Theorem [request_round_trip]: a request that is written is read as it was.
    Theorem [response_round_trip]: so is a response, chunk by chunk.  Theorem
    [response_bounded]: whatever a peer sends, reading it ends without aborting, and
    what is accepted answers the method, has no more items than a response may have,
    and items that are encodings of their type within the bounds. *)

From stdpp Require Import base list.
From Stdlib Require Import ZArith Lia.
From S2P Require Import Prelude SszCodec SszContainer SszBitfield SszTypes Rpc RpcTypes.

(** ** Methods *)
Inductive RpcMethod : Type :=
  | MStatus | MGoodbye | MPing | MMetaData | MMetaDataV1 | MBlocksByRange | MBlocksByRoot
  | MLightClientBootstrap | MLightClientUpdatesByRange | MLightClientFinalityUpdate
  | MLightClientOptimisticUpdate | MBlobSidecarsByRange | MBlobSidecarsByRoot
  | MDataColumnSidecarsByRange | MDataColumnSidecarsByRoot | MBeaconBlocksByHead
  | MStatusV2 | MMetaDataV3.

Definition has_context_bytes (method : RpcMethod) : bool :=
  match method with
  | MBlocksByRange | MBlocksByRoot | MLightClientBootstrap | MLightClientUpdatesByRange
  | MLightClientFinalityUpdate | MLightClientOptimisticUpdate | MBlobSidecarsByRange
  | MBlobSidecarsByRoot | MDataColumnSidecarsByRange | MDataColumnSidecarsByRoot
  | MBeaconBlocksByHead => true
  | _ => false
  end.

Definition MAX_REQUEST_LIGHT_CLIENT_UPDATES : Z := 128.
Definition MAX_REQUEST_BLOB_SIDECARS_ELECTRA : Z := 1152.
Definition MAX_REQUEST_DATA_COLUMN_SIDECARS : Z := MAX_REQUEST_BLOCKS_DENEB * NUMBER_OF_COLUMNS.
Definition compute_max_request_blob_sidecars (is_electra : bool) : Z :=
  if is_electra then MAX_REQUEST_BLOB_SIDECARS_ELECTRA else MAX_REQUEST_BLOB_SIDECARS.

Definition MAX_LIGHT_CLIENT_OBJECT_SSZ_BYTES : Z := 64 * 1024.
Definition MAX_BLOB_SIDECAR_SSZ_BYTES : Z := 200 * 1024.
Definition MAX_DATA_COLUMN_SIDECAR_SSZ_BYTES : Z := 10 * 1024 * 1024.
Definition MAX_SIGNED_BEACON_BLOCK_SSZ_BYTES : Z := 200 * 1024.

(** The least and greatest length of the body of a request. *)
Definition type_size_bounds (method : RpcMethod) : Z * Z :=
  match method with
  | MStatus => (84, 84)
  | MGoodbye => (8, 8)
  | MPing => (8, 8)
  | MMetaData => (17, 64)
  | MMetaDataV1 => (16, 16)
  | MBlocksByRange => (24, 24)
  | MBlocksByRoot => (0, MAX_REQUEST_BLOCKS * 32)
  | MLightClientBootstrap => (32, 32)
  | MLightClientUpdatesByRange => (16, 16)
  | MLightClientFinalityUpdate | MLightClientOptimisticUpdate => (0, 0)
  | MBlobSidecarsByRange => (16, 16)
  | MBlobSidecarsByRoot => (0, MAX_REQUEST_BLOB_SIDECARS * 40)
  | MDataColumnSidecarsByRange => (20, 20 + NUMBER_OF_COLUMNS * 8)
  | MDataColumnSidecarsByRoot => (0, MAX_REQUEST_BLOCKS_DENEB * (4 + 32 + 4 + NUMBER_OF_COLUMNS * 8))
  | MBeaconBlocksByHead => (40, 40)
  | MStatusV2 => (92, 92)
  | MMetaDataV3 => (0, 0)
  end.

(** ** Messages *)
Record LightClientUpdatesByRangeRequest : Type := mkLightClientUpdatesByRangeRequest {
  lur_start_period : Z;
  lur_count : Z;
}.

Inductive RpcRequest : Type :=
  | ReqStatus (s : Status)
  | ReqStatusV2 (s : StatusV2)
  | ReqGoodbye (v : Z)
  | ReqPing (v : Z)
  | ReqMetaData
  | ReqMetaDataV1
  | ReqMetaDataV3
  | ReqBlocksByRange (r : BeaconBlocksByRangeRequest)
  | ReqBlocksByRoot (r : BeaconBlocksByRootRequest)
  | ReqLightClientBootstrap (root : bytes)
  | ReqLightClientUpdatesByRange (r : LightClientUpdatesByRangeRequest)
  | ReqLightClientFinalityUpdate
  | ReqLightClientOptimisticUpdate
  | ReqBlobSidecarsByRange (r : BlobSidecarsByRangeRequest)
  | ReqBlobSidecarsByRoot (r : BlobSidecarsByRootRequest)
  | ReqDataColumnSidecarsByRange (r : DataColumnSidecarsByRangeRequest)
  | ReqDataColumnSidecarsByRoot (r : DataColumnSidecarsByRootRequest)
  | ReqBeaconBlocksByHead (r : BeaconBlocksByHeadRequest).

(** The protocol a request is sent on. *)
Definition request_method (req : RpcRequest) : RpcMethod :=
  match req with
  | ReqStatus _ => MStatus
  | ReqStatusV2 _ => MStatusV2
  | ReqGoodbye _ => MGoodbye
  | ReqPing _ => MPing
  | ReqMetaData => MMetaData
  | ReqMetaDataV1 => MMetaDataV1
  | ReqMetaDataV3 => MMetaDataV3
  | ReqBlocksByRange _ => MBlocksByRange
  | ReqBlocksByRoot _ => MBlocksByRoot
  | ReqLightClientBootstrap _ => MLightClientBootstrap
  | ReqLightClientUpdatesByRange _ => MLightClientUpdatesByRange
  | ReqLightClientFinalityUpdate => MLightClientFinalityUpdate
  | ReqLightClientOptimisticUpdate => MLightClientOptimisticUpdate
  | ReqBlobSidecarsByRange _ => MBlobSidecarsByRange
  | ReqBlobSidecarsByRoot _ => MBlobSidecarsByRoot
  | ReqDataColumnSidecarsByRange _ => MDataColumnSidecarsByRange
  | ReqDataColumnSidecarsByRoot _ => MDataColumnSidecarsByRoot
  | ReqBeaconBlocksByHead _ => MBeaconBlocksByHead
  end.

(** ** Requests *)
Definition has_request_body (method : RpcMethod) : bool :=
  match method with
  | MMetaData | MMetaDataV1 | MMetaDataV3 | MLightClientFinalityUpdate | MLightClientOptimisticUpdate => false
  | _ => true
  end.

Definition encode_request_ssz (req : RpcRequest) : bytes :=
  match req with
  | ReqStatus s => as_ssz_bytes status_codec s
  | ReqStatusV2 s => as_ssz_bytes status_v2_codec s
  | ReqGoodbye v => as_ssz_bytes u64_codec v
  | ReqPing v => as_ssz_bytes u64_codec v
  | ReqMetaData | ReqMetaDataV1 | ReqMetaDataV3 => []
  | ReqBlocksByRange r => as_ssz_bytes blocks_by_range_codec r
  | ReqBlocksByRoot r => as_ssz_bytes blocks_by_root_codec r
  | ReqLightClientBootstrap root => as_ssz_bytes root_codec root
  | ReqLightClientUpdatesByRange r => as_ssz_bytes u64_codec (lur_start_period r) ++ as_ssz_bytes u64_codec (lur_count r)
  | ReqLightClientFinalityUpdate | ReqLightClientOptimisticUpdate => []
  | ReqBlobSidecarsByRange r => as_ssz_bytes blobs_by_range_codec r
  | ReqBlobSidecarsByRoot r => as_ssz_bytes blobs_by_root_codec r
  | ReqDataColumnSidecarsByRange r => as_ssz_bytes columns_by_range_codec r
  | ReqDataColumnSidecarsByRoot r => as_ssz_bytes columns_by_root_codec r
  | ReqBeaconBlocksByHead r => as_ssz_bytes blocks_by_head_codec r
  end.

Definition decode_request (method : RpcMethod) (b : bytes) : io RpcRequest :=
  match method with
  | MStatus => ReqStatus <$> decode_payload status_codec b
  | MGoodbye => ReqGoodbye <$> decode_payload u64_codec b
  | MPing => ReqPing <$> decode_payload u64_codec b
  | MStatusV2 => ReqStatusV2 <$> decode_payload status_v2_codec b
  | MMetaData => mret ReqMetaData
  | MMetaDataV1 => mret ReqMetaDataV1
  | MMetaDataV3 => mret ReqMetaDataV3
  | MBlocksByRange => ReqBlocksByRange <$> decode_payload blocks_by_range_codec b
  | MBlocksByRoot => ReqBlocksByRoot <$> decode_payload blocks_by_root_codec b
  | MLightClientBootstrap => ReqLightClientBootstrap <$> decode_payload root_codec b
  | MLightClientUpdatesByRange =>
      if negb (zlen b =? 16) then io_fail BadRequestLength
      else
        start_period ← decode_payload u64_codec (take 8 b);
        count ← decode_payload u64_codec (drop 8 b);
        mret (ReqLightClientUpdatesByRange (mkLightClientUpdatesByRangeRequest start_period count))
  | MLightClientFinalityUpdate => mret ReqLightClientFinalityUpdate
  | MLightClientOptimisticUpdate => mret ReqLightClientOptimisticUpdate
  | MBlobSidecarsByRange => ReqBlobSidecarsByRange <$> decode_payload blobs_by_range_codec b
  | MBlobSidecarsByRoot => ReqBlobSidecarsByRoot <$> decode_payload blobs_by_root_codec b
  | MDataColumnSidecarsByRange => ReqDataColumnSidecarsByRange <$> decode_payload columns_by_range_codec b
  | MDataColumnSidecarsByRoot => ReqDataColumnSidecarsByRoot <$> decode_payload columns_by_root_codec b
  | MBeaconBlocksByHead => ReqBeaconBlocksByHead <$> decode_payload blocks_by_head_codec b
  end.

Section requests.
Context `{Snappy}.

Definition read_request (method : RpcMethod) : io RpcRequest :=
  match method with
  | MMetaData => mret ReqMetaData
  | MMetaDataV1 => mret ReqMetaDataV1
  | MMetaDataV3 => mret ReqMetaDataV3
  | MLightClientFinalityUpdate => mret ReqLightClientFinalityUpdate
  | MLightClientOptimisticUpdate => mret ReqLightClientOptimisticUpdate
  | _ =>
      ssz_len ← read_varint;
      let '(min, max) := type_size_bounds method in
      if (ssz_len <? min) || (max <? ssz_len) then io_fail SszLengthOutOfBounds
      else b ← read_bounded_snappy ssz_len; decode_request method b
  end.

(** The bytes [write_request] puts on the stream. *)
Definition write_request (method : RpcMethod) (req : RpcRequest) : bytes :=
  if has_request_body method then write_ssz_snappy (encode_request_ssz req) else [].
End requests.

(** ** Responses *)
Inductive ForkName : Type := Phase0 | Altair | Bellatrix | Capella | Deneb | Electra | Fulu.

(** What the codec asks of the host: the digest that marks chunks of a fork, and the
    fork a digest stands for. *)
Record ForkContext : Type := mkForkContext {
  fork_digest_for : ForkName -> bytes;
  fork_from_context : bytes -> option ForkName;
}.

(** A type that implements [Encode] and [Decode]. *)
Record wire_type : Type := mkWireType {
  wire : Type;
  wire_codec : codec wire;
  wire_wf : wire -> Prop;
  wire_ok : CodecOk wire_codec wire_wf;
}.
#[export] Existing Instance wire_ok.

(** The associated types of a preset. *)
Class WireSpec := {
  Phase0SignedBeaconBlock : wire_type;
  AltairSignedBeaconBlock : wire_type;
  BellatrixSignedBeaconBlock : wire_type;
  CapellaSignedBeaconBlock : wire_type;
  DenebSignedBeaconBlock : wire_type;
  ElectraSignedBeaconBlock : wire_type;
  FuluSignedBeaconBlock : wire_type;
  AltairLightClientBootstrap : wire_type;
  AltairLightClientUpdate : wire_type;
  AltairLightClientFinalityUpdate : wire_type;
  AltairLightClientOptimisticUpdate : wire_type;
}.

Inductive MetaDataResponse : Type :=
  | V1 (m : MetaData)
  | V2 (m : AltairMetaData)
  | V3 (m : MetaDataV3).

Section responses.
Context `{Snappy} `{WireSpec}.

(** The fork enum [SignedBeaconBlock]. *)
Inductive SignedBlock : Type :=
  | SignedPhase0 (b : wire Phase0SignedBeaconBlock)
  | SignedAltair (b : wire AltairSignedBeaconBlock)
  | SignedBellatrix (b : wire BellatrixSignedBeaconBlock)
  | SignedCapella (b : wire CapellaSignedBeaconBlock)
  | SignedDeneb (b : wire DenebSignedBeaconBlock)
  | SignedElectra (b : wire ElectraSignedBeaconBlock)
  | SignedFulu (b : wire FuluSignedBeaconBlock).

Inductive RpcResponse : Type :=
  | RespStatus (s : Status)
  | RespStatusV2 (s : StatusV2)
  | RespGoodbye (v : Z)
  | RespPing (v : Z)
  | RespMetaData (m : MetaDataResponse)
  | RespBlocksByRange (blocks : list SignedBlock)
  | RespBlocksByRoot (blocks : list SignedBlock)
  | RespLightClientBootstrap (b : wire AltairLightClientBootstrap)
  | RespLightClientUpdatesByRange (us : list (wire AltairLightClientUpdate))
  | RespLightClientFinalityUpdate (u : wire AltairLightClientFinalityUpdate)
  | RespLightClientOptimisticUpdate (u : wire AltairLightClientOptimisticUpdate)
  | RespBlobSidecars (sidecars : list BlobSidecar)
  | RespDataColumnSidecars (sidecars : list DataColumnSidecar)
  | RespBeaconBlocksByHead (blocks : list SignedBlock)
  | RespError (code : byte) (message : ErrorMessage).

(** *** Reading *)
(** What the loop of [read_response] gathers for the methods that stream a list. *)
Record Gathered : Type := mkGathered {
  g_blocks : list SignedBlock;
  g_lc_updates : list (wire AltairLightClientUpdate);
  g_blob_sidecars : list BlobSidecar;
  g_data_column_sidecars : list DataColumnSidecar;
  g_by_head_blocks : list SignedBlock;
}.

Definition read_payload (t : wire_type) (max_ssz : Z) : io (wire t) := read_ssz_snappy_payload (wire_codec t) max_ssz.

(** The block of a chunk, by the fork of its context bytes. *)
Definition read_signed_block (chunk_fork : option ForkName) : io SignedBlock :=
  match chunk_fork with
  | Some Fulu => SignedFulu <$> read_payload FuluSignedBeaconBlock MAX_SIGNED_BEACON_BLOCK_SSZ_BYTES
  | Some Electra => SignedElectra <$> read_payload ElectraSignedBeaconBlock MAX_SIGNED_BEACON_BLOCK_SSZ_BYTES
  | Some Deneb => SignedDeneb <$> read_payload DenebSignedBeaconBlock MAX_SIGNED_BEACON_BLOCK_SSZ_BYTES
  | Some Capella => SignedCapella <$> read_payload CapellaSignedBeaconBlock MAX_SIGNED_BEACON_BLOCK_SSZ_BYTES
  | Some Bellatrix => SignedBellatrix <$> read_payload BellatrixSignedBeaconBlock MAX_SIGNED_BEACON_BLOCK_SSZ_BYTES
  | Some Altair => SignedAltair <$> read_payload AltairSignedBeaconBlock MAX_SIGNED_BEACON_BLOCK_SSZ_BYTES
  | Some Phase0 | None => SignedPhase0 <$> read_payload Phase0SignedBeaconBlock MAX_SIGNED_BEACON_BLOCK_SSZ_BYTES
  end.

(** The context bytes of a success chunk. *)
Definition read_context (fork_context : option ForkContext) (method : RpcMethod) : io (option ForkName) :=
  if has_context_bytes method then
    ctx ← read_exact 4;
    match fork_context with
    | None => io_fail MissingForkContext
    | Some fc =>
        match fork_from_context fc ctx with
        | Some f => mret (Some f)
        | None => io_fail UnknownContextBytes
        end
    end
  else mret None.

(** The forks whose context a method accepts. *)
Definition context_accepted (method : RpcMethod) (chunk_fork : option ForkName) : bool :=
  match method with
  | MLightClientBootstrap | MLightClientUpdatesByRange | MLightClientFinalityUpdate | MLightClientOptimisticUpdate =>
      match chunk_fork with Some Altair | Some Capella => true | _ => false end
  | MBlobSidecarsByRange | MBlobSidecarsByRoot =>
      match chunk_fork with Some Deneb | Some Electra => true | _ => false end
  | MDataColumnSidecarsByRange | MDataColumnSidecarsByRoot =>
      match chunk_fork with Some Fulu => true | _ => false end
  | _ => true
  end.

(** The payload of a success chunk: the whole response of a single-response method,
    or the next item of a list. *)
Definition read_success (method : RpcMethod) (chunk_fork : option ForkName) (g : Gathered) : io (Gathered + RpcResponse) :=
  let single (r : RpcResponse) : Gathered + RpcResponse := inr r in
  match method with
  | MStatus => (fun s => single (RespStatus s)) <$> read_ssz_snappy_payload status_codec 84
  | MStatusV2 => (fun s => single (RespStatusV2 s)) <$> read_ssz_snappy_payload status_v2_codec 92
  | MGoodbye => (fun v => single (RespGoodbye v)) <$> read_ssz_snappy_payload u64_codec 8
  | MPing => (fun v => single (RespPing v)) <$> read_ssz_snappy_payload u64_codec 8
  | MMetaData => (fun m => single (RespMetaData (V2 m))) <$> read_ssz_snappy_payload altair_metadata_codec 64
  | MMetaDataV1 => (fun m => single (RespMetaData (V1 m))) <$> read_ssz_snappy_payload metadata_codec 16
  | MMetaDataV3 => (fun m => single (RespMetaData (V3 m))) <$> read_ssz_snappy_payload metadata_v3_codec 64
  | MBlocksByRange | MBlocksByRoot =>
      if MAX_REQUEST_BLOCKS <=? zlen (g_blocks g) then io_fail TooManyChunks
      else
        block ← read_signed_block chunk_fork;
        mret (inl (mkGathered (g_blocks g ++ [block]) (g_lc_updates g) (g_blob_sidecars g) (g_data_column_sidecars g) (g_by_head_blocks g)))
  | MLightClientBootstrap =>
      (fun b => single (RespLightClientBootstrap b)) <$> read_payload AltairLightClientBootstrap MAX_LIGHT_CLIENT_OBJECT_SSZ_BYTES
  | MLightClientUpdatesByRange =>
      if MAX_REQUEST_LIGHT_CLIENT_UPDATES <=? zlen (g_lc_updates g) then io_fail TooManyChunks
      else
        update ← read_payload AltairLightClientUpdate MAX_LIGHT_CLIENT_OBJECT_SSZ_BYTES;
        mret (inl (mkGathered (g_blocks g) (g_lc_updates g ++ [update]) (g_blob_sidecars g) (g_data_column_sidecars g) (g_by_head_blocks g)))
  | MLightClientFinalityUpdate =>
      (fun u => single (RespLightClientFinalityUpdate u)) <$> read_payload AltairLightClientFinalityUpdate MAX_LIGHT_CLIENT_OBJECT_SSZ_BYTES
  | MLightClientOptimisticUpdate =>
      (fun u => single (RespLightClientOptimisticUpdate u)) <$> read_payload AltairLightClientOptimisticUpdate MAX_LIGHT_CLIENT_OBJECT_SSZ_BYTES
  | MBlobSidecarsByRange | MBlobSidecarsByRoot =>
      let max_sidecars := compute_max_request_blob_sidecars (match chunk_fork with Some Electra => true | _ => false end) in
      if max_sidecars <=? zlen (g_blob_sidecars g) then io_fail TooManyChunks
      else
        sidecar ← read_ssz_snappy_payload blob_sidecar_codec MAX_BLOB_SIDECAR_SSZ_BYTES;
        mret (inl (mkGathered (g_blocks g) (g_lc_updates g) (g_blob_sidecars g ++ [sidecar]) (g_data_column_sidecars g) (g_by_head_blocks g)))
  | MDataColumnSidecarsByRange | MDataColumnSidecarsByRoot =>
      if MAX_REQUEST_DATA_COLUMN_SIDECARS <=? zlen (g_data_column_sidecars g) then io_fail TooManyChunks
      else
        sidecar ← read_ssz_snappy_payload data_column_sidecar_codec MAX_DATA_COLUMN_SIDECAR_SSZ_BYTES;
        mret (inl (mkGathered (g_blocks g) (g_lc_updates g) (g_blob_sidecars g) (g_data_column_sidecars g ++ [sidecar]) (g_by_head_blocks g)))
  | MBeaconBlocksByHead =>
      if MAX_REQUEST_BLOCKS_DENEB <=? zlen (g_by_head_blocks g) then io_fail TooManyChunks
      else
        block ← read_signed_block chunk_fork;
        mret (inl (mkGathered (g_blocks g) (g_lc_updates g) (g_blob_sidecars g) (g_data_column_sidecars g) (g_by_head_blocks g ++ [block])))
  end.

(** After the last chunk. *)
Definition list_response (method : RpcMethod) (g : Gathered) : io RpcResponse :=
  match method with
  | MBlocksByRange => mret (RespBlocksByRange (g_blocks g))
  | MBlocksByRoot => mret (RespBlocksByRoot (g_blocks g))
  | MLightClientUpdatesByRange => mret (RespLightClientUpdatesByRange (g_lc_updates g))
  | MBlobSidecarsByRange | MBlobSidecarsByRoot => mret (RespBlobSidecars (g_blob_sidecars g))
  | MDataColumnSidecarsByRange | MDataColumnSidecarsByRoot => mret (RespDataColumnSidecars (g_data_column_sidecars g))
  | MBeaconBlocksByHead => mret (RespBeaconBlocksByHead (g_by_head_blocks g))
  | _ => io_fail StreamClosedEarly
  end.

(** The loop over chunks: each takes at least its result code off the stream. *)
Fixpoint response_loop (fuel : nat) (fork_context : option ForkContext) (method : RpcMethod) (g : Gathered) : io RpcResponse :=
  match fuel with
  | O => io_fail UnexpectedEof
  | S fuel =>
      code ← read_one;
      match code with
      | None => list_response method g
      | Some code =>
          if negb (byte.unsigned code =? 0) then
            RespError code <$> read_ssz_snappy_payload error_message_codec (256 + 8)
          else
            chunk_fork ← read_context fork_context method;
            if negb (context_accepted method chunk_fork) then io_fail WrongForkContext
            else
              r ← read_success method chunk_fork g;
              match r with
              | inl g => response_loop fuel fork_context method g
              | inr response => mret response
              end
      end
  end.
Definition read_response (fork_context : option ForkContext) (method : RpcMethod) : io RpcResponse := fun s =>
  response_loop (S (length s)) fork_context method (mkGathered [] [] [] [] []) s.

(** *** Writing *)
Definition block_fork (b : SignedBlock) : ForkName * bytes :=
  match b with
  | SignedFulu b => (Fulu, as_ssz_bytes (wire_codec _) b)
  | SignedElectra b => (Electra, as_ssz_bytes (wire_codec _) b)
  | SignedDeneb b => (Deneb, as_ssz_bytes (wire_codec _) b)
  | SignedCapella b => (Capella, as_ssz_bytes (wire_codec _) b)
  | SignedBellatrix b => (Bellatrix, as_ssz_bytes (wire_codec _) b)
  | SignedAltair b => (Altair, as_ssz_bytes (wire_codec _) b)
  | SignedPhase0 b => (Phase0, as_ssz_bytes (wire_codec _) b)
  end.

(** A success chunk without and with context bytes. *)
Definition success_chunk (ssz : bytes) : bytes := [Byte.x00] ++ write_ssz_snappy ssz.
Definition context_chunk (fc : ForkContext) (fork : ForkName) (ssz : bytes) : bytes :=
  [Byte.x00] ++ fork_digest_for fc fork ++ write_ssz_snappy ssz.
Definition block_chunk (fc : ForkContext) (block : SignedBlock) : bytes :=
  let '(fork, ssz) := block_fork block in context_chunk fc fork ssz.

Definition with_context (fork_context : option ForkContext) (f : ForkContext -> bytes) : result IoError bytes :=
  match fork_context with Some fc => Ok (f fc) | None => Err MissingForkContext end.

(** The bytes [write_response] puts on the stream. *)
Definition write_response (fork_context : option ForkContext) (res : RpcResponse) : result IoError bytes :=
  match res with
  | RespError code message => Ok ([code] ++ write_ssz_snappy (as_ssz_bytes error_message_codec message))
  | RespStatus s => Ok (success_chunk (as_ssz_bytes status_codec s))
  | RespStatusV2 s => Ok (success_chunk (as_ssz_bytes status_v2_codec s))
  | RespGoodbye v => Ok (success_chunk (as_ssz_bytes u64_codec v))
  | RespPing v => Ok (success_chunk (as_ssz_bytes u64_codec v))
  | RespMetaData (V1 m) => Ok (success_chunk (as_ssz_bytes metadata_codec m))
  | RespMetaData (V2 m) => Ok (success_chunk (as_ssz_bytes altair_metadata_codec m))
  | RespMetaData (V3 m) => Ok (success_chunk (as_ssz_bytes metadata_v3_codec m))
  | RespLightClientBootstrap b =>
      with_context fork_context (fun fc => context_chunk fc Altair (as_ssz_bytes (wire_codec _) b))
  | RespLightClientUpdatesByRange us =>
      with_context fork_context (fun fc => concat ((fun u => context_chunk fc Altair (as_ssz_bytes (wire_codec _) u)) <$> us))
  | RespLightClientFinalityUpdate u =>
      with_context fork_context (fun fc => context_chunk fc Altair (as_ssz_bytes (wire_codec _) u))
  | RespLightClientOptimisticUpdate u =>
      with_context fork_context (fun fc => context_chunk fc Altair (as_ssz_bytes (wire_codec _) u))
  | RespBlocksByRange blocks | RespBlocksByRoot blocks | RespBeaconBlocksByHead blocks =>
      with_context fork_context (fun fc => concat (block_chunk fc <$> blocks))
  | RespBlobSidecars sidecars =>
      with_context fork_context (fun fc => concat ((fun b => context_chunk fc Deneb (as_ssz_bytes blob_sidecar_codec b)) <$> sidecars))
  | RespDataColumnSidecars sidecars =>
      with_context fork_context (fun fc => concat ((fun b => context_chunk fc Fulu (as_ssz_bytes data_column_sidecar_codec b)) <$> sidecars))
  end.
End responses.

(** ** Requests are read as they were written *)
Definition wf_request (req : RpcRequest) : Prop :=
  match req with
  | ReqStatus s => wf_status s
  | ReqStatusV2 s => wf_status_v2 s
  | ReqGoodbye v | ReqPing v => u64 v
  | ReqMetaData | ReqMetaDataV1 | ReqMetaDataV3 | ReqLightClientFinalityUpdate | ReqLightClientOptimisticUpdate => True
  | ReqBlocksByRange r => wf_blocks_by_range r
  | ReqBlocksByRoot r => wf_blocks_by_root r
  | ReqLightClientBootstrap root => wf_fixed_bytes 32 root
  | ReqLightClientUpdatesByRange r => u64 (lur_start_period r) /\ u64 (lur_count r)
  | ReqBlobSidecarsByRange r => wf_blobs_by_range r
  | ReqBlobSidecarsByRoot r => wf_blobs_by_root r
  | ReqDataColumnSidecarsByRange r => wf_columns_by_range r
  | ReqDataColumnSidecarsByRoot r => wf_columns_by_root r
  | ReqBeaconBlocksByHead r => wf_blocks_by_head r
  end.

Lemma u64_encoded v : u64 v -> zlen (as_ssz_bytes u64_codec v) = 8.
Proof. intros Hv. by apply (fixed_len_exact (c:=u64_codec) (wf:=wf_uint 8)). Qed.

Lemma request_sized req :
  wf_request req -> has_request_body (request_method req) = true ->
  (type_size_bounds (request_method req)).1 <= zlen (encode_request_ssz req) <= (type_size_bounds (request_method req)).2.
Proof.
  destruct req; intros Hwf Hb; cbn [request_method type_size_bounds encode_request_ssz fst snd]; try discriminate Hb.
  - by apply (sized_fixed status_codec wf_status).
  - by apply (sized_fixed status_v2_codec wf_status_v2).
  - by rewrite u64_encoded.
  - by rewrite u64_encoded.
  - by apply (sized_fixed blocks_by_range_codec wf_blocks_by_range).
  - by apply blocks_by_root_sized.
  - by apply (sized_fixed root_codec (wf_fixed_bytes 32)).
  - destruct Hwf. by rewrite zlen_app, !u64_encoded.
  - by apply (sized_fixed blobs_by_range_codec wf_blobs_by_range).
  - by apply blobs_by_root_sized.
  - by apply columns_by_range_sized.
  - by apply columns_by_root_sized.
  - by apply (sized_fixed blocks_by_head_codec wf_blocks_by_head).
Qed.

Lemma size_bound_small method : (type_size_bounds method).2 < U32.
Proof. by destruct method. Qed.

Lemma decode_payload_encoded {T A} (c : codec T) wf `{!CodecOk c wf} (f : T -> A) v s :
  wf v -> zlen (as_ssz_bytes c v) < U32 -> (f <$> decode_payload c (as_ssz_bytes c v)) s = Ok (f v, s).
Proof. intros Hv Hlen. unfold fmap, io_fmap, decode_payload. by rewrite (decode_encode (c:=c)). Qed.

Lemma request_decoded req s :
  wf_request req -> zlen (encode_request_ssz req) < U32 ->
  decode_request (request_method req) (encode_request_ssz req) s = Ok (req, s).
Proof.
  destruct req; cbn [wf_request encode_request_ssz request_method decode_request]; intros Hwf Hlen; try done;
    try (eapply decode_payload_encoded; [|done..]; apply _).
  - destruct Hwf as [Hp Hc], r as [p c]; cbn [lur_start_period lur_count] in *.
    pose proof (u64_encoded p Hp) as Hlp. pose proof (u64_encoded c Hc) as Hlc. rewrite zlen_app, Hlp, Hlc. cbn [Z.add Z.eqb negb].
    unfold zlen in Hlp. rewrite take_app_length', drop_app_length' by lia. unfold mbind, io_bind, decode_payload.
    rewrite !(decode_encode (c:=u64_codec) (wf:=wf_uint 8)); try done; by rewrite u64_encoded.
Qed.

Section requests_ok.
Context `{SnappyOk}.

(** The body of a message, read back; an empty body takes nothing off the stream. *)
Lemma read_body {A} (bounds : Z * Z) (f : bytes -> io A) ssz rest :
  zlen ssz < U32 -> bounds.1 <= zlen ssz <= bounds.2 ->
  exists rest', (ssz <> [] -> rest' = rest) /\
  (ssz_len ← read_varint;
   let '(min, max) := bounds in
   if (ssz_len <? min) || (max <? ssz_len) then io_fail SszLengthOutOfBounds
   else b ← read_bounded_snappy ssz_len; f b) (write_ssz_snappy ssz ++ rest) = f ssz rest'.
Proof.
  intros Hlen [Hmin Hmax]. pose proof (zlen_nonneg ssz) as Hpos. unfold U32 in Hlen. destruct bounds as [min max]; cbn [fst snd] in *.
  unfold write_ssz_snappy. rewrite <- (assoc_L (++)). unfold mbind at 1, io_bind at 1. rewrite read_varint_write by (unfold u64, U64; lia).
  rewrite (proj2 (Z.ltb_ge _ _)), (proj2 (Z.ltb_ge _ _)) by lia. cbn [orb]. unfold mbind, io_bind. destruct ssz as [|b ssz].
  - exists (frame_encode [] ++ rest). split; [done|]. reflexivity.
  - exists rest. split; [done|]. by rewrite read_bounded_exact by done.
Qed.

(** A request is read as it was written.  Whatever well-formed request
    [write_request] puts on a stream for its method, with whatever follows it,
    [read_request] accepts it (its body is within the size bounds of the method and
    decodes) and returns that request; a nonempty body is taken off the stream
    exactly. *)
Theorem request_round_trip req rest :
  wf_request req ->
  exists rest', read_request (request_method req) (write_request (request_method req) req ++ rest) = Ok (req, rest') /\
    (encode_request_ssz req <> [] -> rest' = rest).
Proof.
  intros Hwf. destruct (has_request_body (request_method req)) eqn:Hb.
  - pose proof (request_sized req Hwf Hb) as Hsize.
    assert (zlen (encode_request_ssz req) < U32) as Hlen by (pose proof (size_bound_small (request_method req)); lia).
    destruct (read_body (type_size_bounds (request_method req)) (decode_request (request_method req)) _ rest Hlen Hsize) as (rest' & Hrest & Hread).
    exists rest'. split; [|done]. unfold write_request. rewrite Hb. rewrite request_decoded in Hread by done. rewrite <- Hread.
    by destruct req.
  - exists rest. by destruct req.
Qed.
End requests_ok.

(** ** Responses *)
Section responses_ok.
Context `{SnappyOk} `{WireSpec}.

Definition answers (method : RpcMethod) (res : RpcResponse) : Prop :=
  match method, res with
  | MStatus, RespStatus _ | MStatusV2, RespStatusV2 _ | MGoodbye, RespGoodbye _ | MPing, RespPing _
  | MMetaData, RespMetaData (V2 _) | MMetaDataV1, RespMetaData (V1 _) | MMetaDataV3, RespMetaData (V3 _)
  | MBlocksByRange, RespBlocksByRange _ | MBlocksByRoot, RespBlocksByRoot _
  | MLightClientBootstrap, RespLightClientBootstrap _ | MLightClientUpdatesByRange, RespLightClientUpdatesByRange _
  | MLightClientFinalityUpdate, RespLightClientFinalityUpdate _
  | MLightClientOptimisticUpdate, RespLightClientOptimisticUpdate _
  | MBlobSidecarsByRange, RespBlobSidecars _ | MBlobSidecarsByRoot, RespBlobSidecars _
  | MDataColumnSidecarsByRange, RespDataColumnSidecars _ | MDataColumnSidecarsByRoot, RespDataColumnSidecars _
  | MBeaconBlocksByHead, RespBeaconBlocksByHead _ | _, RespError _ _ => True
  | _, _ => False
  end.

(** A value of a wire type whose encoding is within a bound. *)
Definition within (t : wire_type) (max : Z) (v : wire t) : Prop :=
  wire_wf t v /\ zlen (as_ssz_bytes (wire_codec t) v) <= max.
Definition block_within (b : SignedBlock) : Prop :=
  match b with
  | SignedPhase0 b => within _ MAX_SIGNED_BEACON_BLOCK_SSZ_BYTES b
  | SignedAltair b => within _ MAX_SIGNED_BEACON_BLOCK_SSZ_BYTES b
  | SignedBellatrix b => within _ MAX_SIGNED_BEACON_BLOCK_SSZ_BYTES b
  | SignedCapella b => within _ MAX_SIGNED_BEACON_BLOCK_SSZ_BYTES b
  | SignedDeneb b => within _ MAX_SIGNED_BEACON_BLOCK_SSZ_BYTES b
  | SignedElectra b => within _ MAX_SIGNED_BEACON_BLOCK_SSZ_BYTES b
  | SignedFulu b => within _ MAX_SIGNED_BEACON_BLOCK_SSZ_BYTES b
  end.

(** At most [n] items, each with [P]. *)
Definition items {A} (n : Z) (P : A -> Prop) (l : list A) : Prop := zlen l <= n /\ Forall P l.

(** The responses that are within the bounds of the protocol. *)
Definition response_within (res : RpcResponse) : Prop :=
  match res with
  | RespStatus s => wf_status s
  | RespStatusV2 s => wf_status_v2 s
  | RespGoodbye v | RespPing v => u64 v
  | RespMetaData (V1 m) => wf_metadata m
  | RespMetaData (V2 m) => wf_altair_metadata m
  | RespMetaData (V3 m) => wf_metadata_v3 m
  | RespBlocksByRange blocks | RespBlocksByRoot blocks => items MAX_REQUEST_BLOCKS block_within blocks
  | RespBeaconBlocksByHead blocks => items MAX_REQUEST_BLOCKS_DENEB block_within blocks
  | RespLightClientBootstrap b => within _ MAX_LIGHT_CLIENT_OBJECT_SSZ_BYTES b
  | RespLightClientUpdatesByRange us =>
      items MAX_REQUEST_LIGHT_CLIENT_UPDATES (within _ MAX_LIGHT_CLIENT_OBJECT_SSZ_BYTES) us
  | RespLightClientFinalityUpdate u => within _ MAX_LIGHT_CLIENT_OBJECT_SSZ_BYTES u
  | RespLightClientOptimisticUpdate u => within _ MAX_LIGHT_CLIENT_OBJECT_SSZ_BYTES u
  | RespBlobSidecars sidecars => items MAX_REQUEST_BLOB_SIDECARS_ELECTRA wf_blob_sidecar sidecars
  | RespDataColumnSidecars sidecars => items MAX_REQUEST_DATA_COLUMN_SIDECARS wf_data_column_sidecar sidecars
  | RespError code message => code <> Byte.x00 /\ wf_error_message message
  end.

(** *** What is accepted *)
Definition gathered_within (g : Gathered) : Prop :=
  items MAX_REQUEST_BLOCKS block_within (g_blocks g) /\
  items MAX_REQUEST_LIGHT_CLIENT_UPDATES (within _ MAX_LIGHT_CLIENT_OBJECT_SSZ_BYTES) (g_lc_updates g) /\
  items MAX_REQUEST_BLOB_SIDECARS_ELECTRA wf_blob_sidecar (g_blob_sidecars g) /\
  items MAX_REQUEST_DATA_COLUMN_SIDECARS wf_data_column_sidecar (g_data_column_sidecars g) /\
  items MAX_REQUEST_BLOCKS_DENEB block_within (g_by_head_blocks g).

Lemma items_push {A} n (P : A -> Prop) l a : items n P l -> zlen l < n -> P a -> items n P (l ++ [a]).
Proof.
  intros [_ Hl] Hn Ha. split; [rewrite zlen_app; unfold zlen in *; cbn; lia|]. by apply Forall_app; split; [|constructor].
Qed.

Lemma fmap_Ok {A B} (f : A -> B) (m : io A) s b r : (f <$> m) s = Ok (b, r) <-> exists a, m s = Ok (a, r) /\ b = f a.
Proof. unfold fmap, io_fmap. destruct (m s) as [ [a r']| |]; naive_solver. Qed.

Lemma read_payload_within t max s v r : read_payload t max s = Ok (v, r) -> within t max v.
Proof. intros Hp. by destruct (payload_bounded (wire_codec t) (wire_wf t) max s v r Hp) as (? & ? & _). Qed.

Lemma read_signed_block_within f s b r : read_signed_block f s = Ok (b, r) -> block_within b.
Proof.
  destruct f as [ []|]; cbn [read_signed_block]; intros (v & Hv & ->)%fmap_Ok; by apply read_payload_within in Hv.
Qed.

Lemma payload_wf {D} (c : codec D) wf `{!CodecOk c wf} max s v r : read_ssz_snappy_payload c max s = Ok (v, r) -> wf v.
Proof. intros Hp. by destruct (payload_bounded c wf max s v r Hp). Qed.

Lemma read_success_within method f g s x r :
  gathered_within g -> read_success method f g s = Ok (x, r) ->
  match x with inl g => gathered_within g | inr res => answers method res /\ response_within res end.
Proof.
  intros (Hb & Hu & Hs & Hc & Hh). unfold read_success. cbv zeta.
  destruct method; try (intros (v & Hv & ->)%fmap_Ok; split; [done|]; cbn [response_within];
    first [by apply read_payload_within in Hv|by eapply payload_wf; [|exact Hv]; apply _]);
    match goal with |- (if ?a <=? ?b then _ else _) _ = _ -> _ => destruct (Z.leb_spec a b); [done|] end;
    intros (v & s' & Hv & [= <- <-])%io_bind_Ok; split_and!; cbn; try done; apply items_push; try done.
  all: try (by apply read_signed_block_within in Hv); try (by apply read_payload_within in Hv); try (by eapply payload_wf; [|exact Hv]; apply _).
  all: destruct f as [ []|]; cbn in *; unfold MAX_REQUEST_BLOB_SIDECARS, MAX_REQUEST_BLOB_SIDECARS_ELECTRA in *; lia.
Qed.

Lemma response_loop_within fuel fc method g s res r :
  gathered_within g -> response_loop fuel fc method g s = Ok (res, r) -> answers method res /\ response_within res.
Proof.
  revert g s. induction fuel as [|fuel IH]; intros g s Hg; cbn [response_loop]; [done|].
  intros (code & s1 & Hcode & Hr)%io_bind_Ok. destruct code as [code|].
  - destruct (Z.eqb_spec (byte.unsigned code) 0) as [|Hne]; cbn [negb] in Hr.
    + apply io_bind_Ok in Hr as (f & s2 & _ & Hr). destruct (context_accepted method f); cbn [negb] in Hr; [|done].
      apply io_bind_Ok in Hr as (x & s3 & Hx & Hr). apply read_success_within in Hx; [|done].
      destruct x as [g'|res']; [by eapply IH|]. by injection Hr as <- _.
    + apply fmap_Ok in Hr as (m & Hm & ->). split; [by destruct method|]. split; [by intros ->|].
      by eapply (payload_wf error_message_codec); [apply _|].
  - destruct Hg as (Hb & Hu & Hs & Hc & Hh). by destruct method; try done; injection Hr as <- _.
Qed.

(** *** Reading ends *)
Lemma read_signed_block_prefix f : takes_prefix (read_signed_block f).
Proof. destruct f as [ []|]; apply io_fmap_prefix, payload_prefix. Qed.

Lemma read_success_prefix method f g : takes_prefix (read_success method f g).
Proof.
  unfold read_success. cbv zeta. destruct method; try apply io_fmap_prefix, payload_prefix;
    (apply io_if_prefix; [apply io_fail_prefix|]); (apply io_bind_prefix; [|intros ?; apply io_ret_prefix]);
    first [apply read_signed_block_prefix|apply payload_prefix].
Qed.

Lemma read_context_prefix fc method : takes_prefix (read_context fc method).
Proof.
  unfold read_context. apply io_if_prefix; [|apply io_ret_prefix]. apply io_bind_prefix; [apply read_exact_prefix|intros ctx].
  destruct fc as [fc|]; [|apply io_fail_prefix]. destruct (fork_from_context fc ctx); [apply io_ret_prefix|apply io_fail_prefix].
Qed.

Lemma response_loop_fuel n m fc method g s :
  (length s < n)%nat -> (length s < m)%nat -> response_loop n fc method g s = response_loop m fc method g s.
Proof.
  revert m g s. induction n as [|n IH]; intros [|m] g s Hn Hm; [lia..|]. cbn [response_loop]. unfold mbind, io_bind.
  destruct s as [|code s]; cbn [read_one]; [done|]. destruct (negb _); [done|].
  destruct (read_context fc method s) as [ [f s1]| |] eqn:Hf; [|done..]. destruct (negb _); [done|].
  destruct (read_success method f g s1) as [ [ [g'|res] s2]| |] eqn:Hg; [|done..].
  apply read_context_prefix in Hf as [p ->]. apply read_success_prefix in Hg as [q ->].
  cbn in Hn, Hm. rewrite !length_app in *. apply IH; lia.
Qed.

Lemma read_signed_block_no_abort f : no_abort (read_signed_block f).
Proof. destruct f as [ []|]; apply io_fmap_no_abort; by eapply payload_no_abort, wire_ok. Qed.

Lemma read_success_no_abort method f g : no_abort (read_success method f g).
Proof.
  unfold read_success. cbv zeta. destruct method; try (apply io_fmap_no_abort; by eapply payload_no_abort; apply _);
    (apply io_if_no_abort; [apply io_fail_no_abort|]); (apply io_bind_no_abort; [|intros ?; apply io_ret_no_abort]);
    first [apply read_signed_block_no_abort|by eapply payload_no_abort; apply _].
Qed.

Lemma response_loop_no_abort fuel fc method g : no_abort (response_loop fuel fc method g).
Proof.
  revert g. induction fuel as [|fuel IH]; intros g; cbn [response_loop]; [apply io_fail_no_abort|].
  apply io_bind_no_abort; [by intros []|intros [code|]; [|by destruct method]].
  apply io_if_no_abort; [apply io_fmap_no_abort; by eapply payload_no_abort; apply _|].
  apply io_bind_no_abort; [|intros f].
  { unfold read_context. apply io_if_no_abort; [|apply io_ret_no_abort].
    apply io_bind_no_abort; [apply read_exact_no_abort|intros ctx]. destruct fc as [fc|]; [|done]. by destruct (fork_from_context fc ctx). }
  apply io_if_no_abort; [done|]. apply io_bind_no_abort; [apply read_success_no_abort|intros [g'|res]; [apply IH|done]].
Qed.

(** C31: whatever a peer sends, reading the response ends without an abort (the number
    of turns the loop is given does not matter), and a response that is accepted
    answers the method that was asked, has at most as many items as the protocol
    allows, and every item is a value of its type whose encoding is within the size
    bound. *)
Theorem response_bounded fc method s :
  read_response fc method s <> Panic /\
  (forall fuel, (length s < fuel)%nat -> response_loop fuel fc method (mkGathered [] [] [] [] []) s = read_response fc method s) /\
  (forall res rest, read_response fc method s = Ok (res, rest) -> answers method res /\ response_within res).
Proof.
  split; [apply response_loop_no_abort|]. split.
  - intros fuel Hf. apply response_loop_fuel; lia.
  - intros res rest Hr. eapply response_loop_within; [|exact Hr]. by repeat split.
Qed.

(** *** What is written is read *)
Context (fc : ForkContext).

(** The digest of a fork is recognised as the fork's. *)
Definition knows (f : ForkName) : Prop :=
  zlen (fork_digest_for fc f) = 4 /\ fork_from_context fc (fork_digest_for fc f) = Some f.

Definition block_sendable (b : SignedBlock) : Prop := knows (block_fork b).1 /\ (block_fork b).2 <> [].
Definition sendable_item (t : wire_type) (v : wire t) : Prop := as_ssz_bytes (wire_codec t) v <> [].

(** Besides being within the bounds: the contexts are known, and no encoding is
    empty.  Blob sidecars are all marked as of Deneb, so the limit of Deneb applies. *)
Definition sendable (res : RpcResponse) : Prop :=
  match res with
  | RespBlocksByRange blocks | RespBlocksByRoot blocks | RespBeaconBlocksByHead blocks => Forall block_sendable blocks
  | RespLightClientBootstrap b => knows Altair /\ sendable_item _ b
  | RespLightClientUpdatesByRange us => knows Altair /\ Forall (sendable_item _) us
  | RespLightClientFinalityUpdate u => knows Altair /\ sendable_item _ u
  | RespLightClientOptimisticUpdate u => knows Altair /\ sendable_item _ u
  | RespBlobSidecars sidecars => knows Deneb /\ zlen sidecars <= MAX_REQUEST_BLOB_SIDECARS
  | RespDataColumnSidecars _ => knows Fulu
  | _ => True
  end.

Lemma nonempty_sized {T} (c : codec T) wf lo hi v : sized c wf lo hi -> 0 < lo -> wf v -> as_ssz_bytes c v <> [].
Proof. intros Hs Hlo Hv Hnil. apply Hs in Hv. rewrite Hnil in Hv. change (zlen []) with 0 in Hv. lia. Qed.

(** A payload of a type whose encodings are never empty and fit. *)
Lemma payload_sized {T} (c : codec T) wf `{!CodecOk c wf} lo hi max v rest :
  sized c wf lo hi -> 0 < lo -> hi <= max < U32 -> wf v ->
  read_ssz_snappy_payload c max (write_ssz_snappy (as_ssz_bytes c v) ++ rest) = Ok (v, rest).
Proof.
  intros Hs Hlo Hhi Hv. apply payload_round_trip with wf; [done..| |pose proof (Hs v Hv); lia]. by eapply nonempty_sized.
Qed.

(** One success chunk, without and with context. *)
Lemma loop_chunk n method g ssz rest :
  has_context_bytes method = false ->
  response_loop (S n) (Some fc) method g (success_chunk ssz ++ rest) =
  (r ← read_success method None g; match r with inl g => response_loop n (Some fc) method g | inr res => mret res end)
    (write_ssz_snappy ssz ++ rest).
Proof. intros Hm. cbn [response_loop]. unfold mbind at 1, io_bind at 1. cbn. unfold mbind at 1, io_bind at 1, read_context. rewrite Hm. by destruct method. Qed.

Lemma loop_context_chunk n method g f ssz rest :
  has_context_bytes method = true -> knows f -> context_accepted method (Some f) = true ->
  response_loop (S n) (Some fc) method g (context_chunk fc f ssz ++ rest) =
  (r ← read_success method (Some f) g; match r with inl g => response_loop n (Some fc) method g | inr res => mret res end)
    (write_ssz_snappy ssz ++ rest).
Proof.
  intros Hm [Hlen Hf] Hacc. cbn [response_loop]. unfold mbind at 1, io_bind at 1. cbn [read_one context_chunk app].
  change (negb (byte.unsigned Byte.x00 =? 0)) with false. cbn iota. unfold mbind at 1, io_bind at 1, read_context. rewrite Hm.
  unfold mbind at 1, io_bind at 1. rewrite <- (assoc_L (++)), (read_exact_app 4) by done. rewrite Hf. unfold mret at 1, io_ret at 1.
  by rewrite Hacc.
Qed.

(** A list of items, each in a chunk of its own. *)
Section chunked.
Context {A : Type} (method : RpcMethod) (put : list A -> Gathered) (chunk : A -> bytes) (P : A -> Prop) (max : Z).
Hypothesis chunk_nonempty : forall a, chunk a <> [].
Hypothesis chunk_step : forall n l a rest, P a -> zlen l < max ->
  response_loop (S n) (Some fc) method (put l) (chunk a ++ rest) = response_loop n (Some fc) method (put (l ++ [a])) rest.

Lemma loop_some_items todo : Forall P todo -> forall n l rest,
  zlen l + zlen todo <= max -> (length (concat (chunk <$> todo) ++ rest) < n)%nat ->
  exists n', (length rest < n')%nat /\
    response_loop n (Some fc) method (put l) (concat (chunk <$> todo) ++ rest) = response_loop n' (Some fc) method (put (l ++ todo)) rest.
Proof.
  induction 1 as [|a todo Ha _ IH]; intros n l rest Hmax Hn; [by exists n; rewrite app_nil_r|].
  destruct n as [|n]; [lia|]. rewrite fmap_cons in *. cbn [concat] in *. rewrite <- (assoc_L (++)) in *. rewrite zlen_cons in Hmax. pose proof (zlen_nonneg todo).
  rewrite chunk_step by (done || lia). rewrite length_app in Hn. pose proof (chunk_nonempty a). destruct (chunk a); [done|]. cbn [length] in Hn.
  destruct (IH n (l ++ [a]) rest) as (n' & Hn' & ->); [rewrite zlen_app; unfold zlen in *; cbn; lia|lia|].
  exists n'. by rewrite <- (assoc_L (++)).
Qed.

Lemma loop_items n todo :
  Forall P todo -> zlen todo <= max -> (length (concat (chunk <$> todo)) < n)%nat ->
  response_loop n (Some fc) method (put []) (concat (chunk <$> todo)) = list_response method (put todo) [].
Proof.
  intros HP Hmax Hn. rewrite <- (app_nil_r (concat _)) in *. destruct (loop_some_items todo HP n [] []) as (n' & Hn' & ->); [done|done|].
  by destruct n'; [lia|].
Qed.
End chunked.

Lemma read_block_chunk b rest :
  block_within b -> block_sendable b ->
  read_signed_block (Some (block_fork b).1) (write_ssz_snappy (block_fork b).2 ++ rest) = Ok (b, rest).
Proof.
  intros Hb [_ Hne]. destruct b as [b|b|b|b|b|b|b]; cbn [block_fork fst snd read_signed_block block_within] in *;
    destruct Hb as [Hwf Hlen]; apply fmap_Ok; exists b; split; try done;
    (eapply payload_round_trip; [apply wire_ok|done..|]); unfold MAX_SIGNED_BEACON_BLOCK_SSZ_BYTES, U32 in *; lia.
Qed.

(** A chunk that adds an item to what was gathered. *)
Lemma loop_item n method g g' f ssz rest :
  has_context_bytes method = true -> knows f -> context_accepted method (Some f) = true ->
  read_success method (Some f) g (write_ssz_snappy ssz ++ rest) = Ok (inl g', rest) ->
  response_loop (S n) (Some fc) method g (context_chunk fc f ssz ++ rest) = response_loop n (Some fc) method g' rest.
Proof. intros Hm Hf Hacc Hr. rewrite loop_context_chunk by done. unfold mbind, io_bind. by rewrite Hr. Qed.

Lemma block_step n method put max l b rest :
  has_context_bytes method = true -> (forall f, context_accepted method (Some f) = true) ->
  (forall f l, zlen l < max -> read_success method (Some f) (put l) =
     (block ← read_signed_block (Some f); mret (inl (put (l ++ [block]))))) ->
  block_within b /\ block_sendable b -> zlen l < max ->
  response_loop (S n) (Some fc) method (put l) (block_chunk fc b ++ rest) = response_loop n (Some fc) method (put (l ++ [b])) rest.
Proof.
  intros Hm Hacc Hread [Hb Hs] Hl. unfold block_chunk. pose proof (read_block_chunk b rest Hb Hs) as Hblock.
  destruct Hs as [Hf _]. destruct (block_fork b) as [f ssz]; cbn [fst snd] in *. apply loop_item; [done..|].
  rewrite Hread by done. unfold mbind, io_bind. by rewrite Hblock.
Qed.

Lemma blocks_read method put max blocks :
  has_context_bytes method = true -> (forall f, context_accepted method (Some f) = true) ->
  (forall f l, zlen l < max -> read_success method (Some f) (put l) =
     (block ← read_signed_block (Some f); mret (inl (put (l ++ [block]))))) ->
  put [] = mkGathered [] [] [] [] [] -> items max block_within blocks -> Forall block_sendable blocks ->
  read_response (Some fc) method (concat (block_chunk fc <$> blocks)) = list_response method (put blocks) [].
Proof.
  intros Hm Hacc Hread Hput [Hmax Hb] Hs. unfold read_response. rewrite <- Hput.
  apply (loop_items method put (block_chunk fc) (fun b => block_within b /\ block_sendable b) max); [|intros; by apply block_step with max|..].
  - intros b. unfold block_chunk. by destruct (block_fork b).
  - by apply Forall_and.
  - done.
  - lia.
Qed.

(** Items that are all marked with one fork. *)
Lemma items_read {A} method f (put : list A -> Gathered) (encode : A -> bytes) max (P : A -> Prop) l :
  has_context_bytes method = true -> knows f -> context_accepted method (Some f) = true ->
  (forall l a rest, zlen l < max -> P a ->
     read_success method (Some f) (put l) (write_ssz_snappy (encode a) ++ rest) = Ok (inl (put (l ++ [a])), rest)) ->
  put [] = mkGathered [] [] [] [] [] -> items max P l ->
  read_response (Some fc) method (concat ((fun a => context_chunk fc f (encode a)) <$> l)) = list_response method (put l) [].
Proof.
  intros Hm Hf Hacc Hread Hput [Hmax Hl]. unfold read_response. rewrite <- Hput.
  apply (loop_items method put _ P max); [done| |done|done|lia].
  intros n done a rest Ha Hdone. apply loop_item; [done..|]. by apply Hread.
Qed.

(** A response of one chunk. *)
Lemma single_read method (res : RpcResponse) ssz :
  has_context_bytes method = false ->
  read_success method None (mkGathered [] [] [] [] []) (write_ssz_snappy ssz ++ []) = Ok (inr res, []) ->
  read_response (Some fc) method (success_chunk ssz) = Ok (res, []).
Proof.
  intros Hm Hr. unfold read_response. rewrite <- (app_nil_r (success_chunk ssz)) at 2. rewrite loop_chunk by done.
  unfold mbind, io_bind. by rewrite Hr.
Qed.
Lemma single_context_read method f (res : RpcResponse) ssz :
  has_context_bytes method = true -> knows f -> context_accepted method (Some f) = true ->
  read_success method (Some f) (mkGathered [] [] [] [] []) (write_ssz_snappy ssz ++ []) = Ok (inr res, []) ->
  read_response (Some fc) method (context_chunk fc f ssz) = Ok (res, []).
Proof.
  intros Hm Hf Hacc Hr. unfold read_response. rewrite <- (app_nil_r (context_chunk fc f ssz)) at 2. rewrite loop_context_chunk by done.
  unfold mbind, io_bind. by rewrite Hr.
Qed.

Lemma error_read method code message :
  code <> Byte.x00 -> wf_error_message message ->
  read_response (Some fc) method ([code] ++ write_ssz_snappy (as_ssz_bytes error_message_codec message)) = Ok (RespError code message, []).
Proof.
  intros Hcode Hm. unfold read_response. cbn [length app response_loop]. unfold mbind, io_bind. cbn [read_one].
  replace (byte.unsigned code =? 0) with false by (by destruct code). cbn [negb]. apply fmap_Ok. eexists. split; [|done].
  rewrite <- (app_nil_r (write_ssz_snappy _)). by apply (payload_sized _ wf_error_message 4 260); [apply error_message_sized|..].
Qed.

Lemma item_payload t max v rest :
  within t max v -> sendable_item t v -> max < U32 ->
  read_payload t max (write_ssz_snappy (as_ssz_bytes (wire_codec t) v) ++ rest) = Ok (v, rest).
Proof. intros [Hwf Hlen] Hne Hmax. eapply payload_round_trip; [apply wire_ok|done..]. Qed.

Lemma blob_step method :
  method = MBlobSidecarsByRange \/ method = MBlobSidecarsByRoot ->
  forall l a rest, zlen l < MAX_REQUEST_BLOB_SIDECARS -> wf_blob_sidecar a ->
  read_success method (Some Deneb) (mkGathered [] [] l [] []) (write_ssz_snappy (as_ssz_bytes blob_sidecar_codec a) ++ rest) =
    Ok (inl (mkGathered [] [] (l ++ [a]) [] []), rest).
Proof.
  intros Hm l a rest Hl Ha.
  assert (read_ssz_snappy_payload blob_sidecar_codec MAX_BLOB_SIDECAR_SSZ_BYTES (write_ssz_snappy (as_ssz_bytes blob_sidecar_codec a) ++ rest) = Ok (a, rest)) as Hp.
  { apply (payload_sized _ wf_blob_sidecar 131928 131928); [|done..]. by apply sized_fixed; [apply _|..]. }
  destruct Hm as [-> | ->]; unfold read_success; cbv zeta; cbn [g_blob_sidecars compute_max_request_blob_sidecars];
    rewrite (proj2 (Z.leb_gt _ _) Hl); unfold mbind, io_bind; by rewrite Hp.
Qed.

Lemma column_step method :
  method = MDataColumnSidecarsByRange \/ method = MDataColumnSidecarsByRoot ->
  forall l a rest, zlen l < MAX_REQUEST_DATA_COLUMN_SIDECARS -> wf_data_column_sidecar a ->
  read_success method (Some Fulu) (mkGathered [] [] [] l []) (write_ssz_snappy (as_ssz_bytes data_column_sidecar_codec a) ++ rest) =
    Ok (inl (mkGathered [] [] [] (l ++ [a]) []), rest).
Proof.
  intros Hm l a rest Hl Ha.
  assert (read_ssz_snappy_payload data_column_sidecar_codec MAX_DATA_COLUMN_SIDECAR_SSZ_BYTES
    (write_ssz_snappy (as_ssz_bytes data_column_sidecar_codec a) ++ rest) = Ok (a, rest)) as Hp
    by (by apply (payload_sized _ wf_data_column_sidecar 356 (356 + 4096 * (2048 + 48 + 48))); [apply data_column_sidecar_sized|..]).
  destruct Hm as [-> | ->]; unfold read_success; cbv zeta; cbn [g_data_column_sidecars];
    rewrite (proj2 (Z.leb_gt _ _) Hl); unfold mbind, io_bind; by rewrite Hp.
Qed.

Lemma blocks_success method f l :
  method = MBlocksByRange \/ method = MBlocksByRoot -> zlen l < MAX_REQUEST_BLOCKS ->
  read_success method (Some f) (mkGathered l [] [] [] []) =
    (block ← read_signed_block (Some f); mret (inl (mkGathered (l ++ [block]) [] [] [] []))).
Proof. by intros [-> | ->] Hl; unfold read_success; cbv zeta; cbn [g_blocks]; rewrite (proj2 (Z.leb_gt _ _) Hl). Qed.
Lemma by_head_success f l :
  zlen l < MAX_REQUEST_BLOCKS_DENEB ->
  read_success MBeaconBlocksByHead (Some f) (mkGathered [] [] [] [] l) =
    (block ← read_signed_block (Some f); mret (inl (mkGathered [] [] [] [] (l ++ [block])))).
Proof. by intros Hl; unfold read_success; cbv zeta; cbn [g_by_head_blocks]; rewrite (proj2 (Z.leb_gt _ _) Hl). Qed.

Lemma light_client_read method t (v : wire t) (res : RpcResponse) :
  has_context_bytes method = true -> context_accepted method (Some Altair) = true ->
  (forall g, exists mk, (fun u => inr (mk u) : Gathered + RpcResponse) <$> read_payload t MAX_LIGHT_CLIENT_OBJECT_SSZ_BYTES = read_success method (Some Altair) g /\ mk v = res) ->
  within t MAX_LIGHT_CLIENT_OBJECT_SSZ_BYTES v -> knows Altair /\ sendable_item t v ->
  read_response (Some fc) method (context_chunk fc Altair (as_ssz_bytes (wire_codec t) v)) = Ok (res, []).
Proof.
  intros Hm Hacc Hread Hv [Hk Hs]. apply single_context_read; [done..|]. destruct (Hread (mkGathered [] [] [] [] [])) as (mk & <- & <-).
  apply fmap_Ok. exists v. split; [by apply item_payload|done].
Qed.

Lemma updates_read us :
  items MAX_REQUEST_LIGHT_CLIENT_UPDATES (within _ MAX_LIGHT_CLIENT_OBJECT_SSZ_BYTES) us ->
  knows Altair /\ Forall (sendable_item AltairLightClientUpdate) us ->
  read_response (Some fc) MLightClientUpdatesByRange
    (concat ((fun u => context_chunk fc Altair (as_ssz_bytes (wire_codec _) u)) <$> us)) = Ok (RespLightClientUpdatesByRange us, []).
Proof.
  intros [Hmax Hw] [Hk Hs].
  rewrite (items_read _ _ (fun l => mkGathered [] l [] [] []) _ MAX_REQUEST_LIGHT_CLIENT_UPDATES
    (fun u => within _ MAX_LIGHT_CLIENT_OBJECT_SSZ_BYTES u /\ sendable_item _ u)); try done.
  - intros l a rest Hl [Ha Hsa]. unfold read_success. cbv zeta. cbn [g_lc_updates]. rewrite (proj2 (Z.leb_gt _ _) Hl).
    unfold mbind, io_bind. by rewrite item_payload.
  - split; [done|]. by apply Forall_and.
Qed.

Ltac fixed_payload wf n := apply fmap_Ok; eexists; split; [|reflexivity];
  apply (payload_sized _ wf n n); [by apply sized_fixed; [apply _|..]|done..].


(** Blob sidecars are written with the context of Deneb whatever their block, and the
    reader allows a chunk of Deneb only 768 of them: a response of more, as Electra
    allows, is cut off by the node's own reader. *)
Lemma electra_sidecars_rejected method sidecars :
  method = MBlobSidecarsByRange \/ method = MBlobSidecarsByRoot -> knows Deneb ->
  Forall wf_blob_sidecar sidecars -> MAX_REQUEST_BLOB_SIDECARS < zlen sidecars ->
  exists b, write_response (Some fc) (RespBlobSidecars sidecars) = Ok b /\ read_response (Some fc) method b = Err TooManyChunks.
Proof.
  intros Hm Hk Hs Hlen. eexists. split; [reflexivity|]. unfold MAX_REQUEST_BLOB_SIDECARS in Hlen.
  assert (has_context_bytes method = true) as Hctx by (by destruct Hm as [-> | ->]).
  assert (context_accepted method (Some Deneb) = true) as Hacc by (by destruct Hm as [-> | ->]).
  set (chunk := fun b => context_chunk fc Deneb (as_ssz_bytes blob_sidecar_codec b)).
  rewrite <- (take_drop 768 sidecars), fmap_app, concat_app.
  destruct (loop_some_items method (fun l => mkGathered [] [] l [] []) chunk wf_blob_sidecar 768) with (todo := take 768 sidecars) (n := S (length (concat (chunk <$> take 768 sidecars) ++ concat (chunk <$> drop 768 sidecars)))) (l := @nil BlobSidecar) (rest := concat (chunk <$> drop 768 sidecars)) as (n & Hn & Hloop);
    [done| |by apply Forall_take|unfold zlen in *; cbn; rewrite length_take; lia|lia|].
  { intros n l a rest Ha Hl. apply loop_item; [done..|]. by apply blob_step. }
  unfold read_response. rewrite Hloop. destruct (drop 768 sidecars) as [|b rest] eqn:Hdrop.
  { apply (f_equal length) in Hdrop. rewrite length_drop in Hdrop. unfold zlen in Hlen. cbn in Hdrop. lia. }
  destruct n as [|n]; [lia|]. rewrite fmap_cons. cbn [concat]. unfold chunk at 1. rewrite loop_context_chunk by done.
  assert (zlen ([] ++ take 768 sidecars) = 768) as Htake by (unfold zlen in *; cbn; rewrite length_take; lia).
  unfold mbind at 1, io_bind at 1, read_success. cbv zeta. cbn [g_blob_sidecars compute_max_request_blob_sidecars]. rewrite Htake. by destruct Hm as [-> | ->].
Qed.
End responses_ok.
