(* ===== verification/ForkSchedule.v ===== *)
(** * Fork schedule and fork digests

    crates/pharos-types/src/fork.rs, [get_blob_parameters] of
    crates/pharos-types/src/fulu/mod.rs, and the fork context that
    crates/pharos-node/src/host_impl.rs gives to the networking codec.

    Theorem [schedule_exact]: on a schedule with ascending epochs the fork at an epoch
    is the last one activated, and the next fork is the first one after it.  Theorem
    [host_context_exact]: the node maps context bytes to the first fork with that
    digest, so it implements the interface of the codec for forks of different
    digests. *)

From stdpp Require Import base list.
From Stdlib Require Import ZArith Lia.
From coqutil Require Import Byte.
From S2P Require Import Prelude SszCodec SszTypes Spec Roots Genesis Rpc RpcTypes RpcCodec.

(** ** Schedule *)
Record BlobScheduleEntry : Type := mkBlobScheduleEntry {
  bse_epoch : Z;
  bse_max_blobs_per_block : Z;
}.

Record ForkSchedule : Type := mkForkSchedule {
  genesis_fork_version : bytes;
  altair_fork_version : bytes;
  altair_fork_epoch : Z;
  bellatrix_fork_version : bytes;
  bellatrix_fork_epoch : Z;
  capella_fork_version : bytes;
  capella_fork_epoch : Z;
  deneb_fork_version : bytes;
  deneb_fork_epoch : Z;
  electra_fork_version : bytes;
  electra_fork_epoch : Z;
  fulu_fork_version : bytes;
  fulu_fork_epoch : Z;
  blob_schedule : list BlobScheduleEntry;
  genesis_validators_root : bytes;
}.

(** A row: activation epoch, previous version, current version, fork epoch. *)
Definition fork_table (s : ForkSchedule) : list (Z * bytes * bytes * Z) :=
  [(altair_fork_epoch s, genesis_fork_version s, altair_fork_version s, altair_fork_epoch s);
   (bellatrix_fork_epoch s, altair_fork_version s, bellatrix_fork_version s, bellatrix_fork_epoch s);
   (capella_fork_epoch s, bellatrix_fork_version s, capella_fork_version s, capella_fork_epoch s);
   (deneb_fork_epoch s, capella_fork_version s, deneb_fork_version s, deneb_fork_epoch s);
   (electra_fork_epoch s, deneb_fork_version s, electra_fork_version s, electra_fork_epoch s);
   (fulu_fork_epoch s, electra_fork_version s, fulu_fork_version s, fulu_fork_epoch s)].

Definition row_activation (row : Z * bytes * bytes * Z) : Z := row.1.1.1.
Definition row_version (row : Z * bytes * bytes * Z) : bytes := row.1.2.

(** [for row in table.iter().rev() { if epoch >= activation { return .. } }]. *)
Definition fork_at_epoch (s : ForkSchedule) (epoch : Z) : Fork :=
  match find (fun row => row_activation row <=? epoch) (reverse (fork_table s)) with
  | Some (_, prev_version, curr_version, fork_epoch) => mkFork prev_version curr_version fork_epoch
  | None => mkFork (genesis_fork_version s) (genesis_fork_version s) 0
  end.

Definition current_fork_version (s : ForkSchedule) (epoch : Z) : bytes := fork_current_version (fork_at_epoch s epoch).

Definition next_fork_version (s : ForkSchedule) (epoch : Z) : bytes :=
  match find (fun row => epoch <? row_activation row) (fork_table s) with
  | Some row => row_version row
  | None => fulu_fork_version s
  end.

Definition next_fork_epoch (s : ForkSchedule) (epoch : Z) : Z :=
  match find (fun row => epoch <? row_activation row) (fork_table s) with
  | Some row => row_activation row
  | None => U64 - 1
  end.

(** ** Blob parameters *)
Record BlobParameters : Type := mkBlobParameters {
  bp_epoch : Z;
  bp_max_blobs_per_block : Z;
}.

(** [max_by_key]: the last of the entries with the greatest key. *)
Definition max_by_epoch (l : list BlobScheduleEntry) : option BlobScheduleEntry :=
  foldl (fun best e => match best with
                       | Some b => if bse_epoch e <? bse_epoch b then Some b else Some e
                       | None => Some e
                       end) None l.

Definition get_blob_parameters (epoch : Z) (schedule : list BlobScheduleEntry) (electra_epoch max_blobs_electra : Z) : BlobParameters :=
  match max_by_epoch (filter (fun e => bse_epoch e <= epoch) schedule) with
  | Some e => mkBlobParameters (bse_epoch e) (bse_max_blobs_per_block e)
  | None => mkBlobParameters electra_epoch max_blobs_electra
  end.

(** ** Digests *)
Definition xor_bytes (a b : bytes) : bytes :=
  zip_with (fun x y => byte.of_Z (Z.lxor (byte.unsigned x) (byte.unsigned y))) a b.

Section digests.
Context `{Crypto}.

(** [compute_fork_data_root(..)[0..4]]. *)
Definition compute_fork_digest (current_version gvr : bytes) : result SszError bytes :=
  root ← fork_data_root (mkForkData current_version gvr);
  slice root 0 4.

Definition compute_fork_digest_fulu (base_version gvr : bytes) (params : BlobParameters) : result SszError bytes :=
  base ← compute_fork_digest base_version gvr;
  let preimage := to_le_bytes 8 (bp_epoch params) ++ to_le_bytes 8 (bp_max_blobs_per_block params) in
  blob_bytes ← slice (sha256 preimage) 0 4;
  Ok (xor_bytes base blob_bytes).

Definition compute_fork_digest_for_epoch (version gvr : bytes) (epoch fulu_epoch : Z) (schedule : list BlobScheduleEntry)
    (electra_epoch max_blobs_electra : Z) : result SszError bytes :=
  if epoch <? fulu_epoch then compute_fork_digest version gvr
  else compute_fork_digest_fulu version gvr (get_blob_parameters epoch schedule electra_epoch max_blobs_electra).

(** ** The fork context of the node *)
(** What [HostImpl] reads: the schedule, the genesis time and root, the slot duration
    of the configuration, and the preset. *)
Record Host : Type := mkHost {
  fork_schedule : ForkSchedule;
  host_genesis_validators_root : bytes;
  genesis_time_secs : Z;
  seconds_per_slot : Z;
  host_slots_per_epoch : Z;
  max_blobs_per_block_electra : Z;
}.

Definition host_current_epoch (h : Host) (now_ms : Z) : Z :=
  let now_secs := now_ms / 1000 in
  if now_secs <? genesis_time_secs h then 0
  else
    let elapsed_ms := sat_mul (now_secs - genesis_time_secs h) 1000 in
    let slot_ms := Z.max (sat_mul (seconds_per_slot h) 1000) 1 in
    let elapsed_slots := elapsed_ms / slot_ms in
    elapsed_slots / host_slots_per_epoch h.

Definition fulu_aware_fork_digest (h : Host) (epoch : Z) : result SszError bytes :=
  let sched := fork_schedule h in
  compute_fork_digest_for_epoch (current_fork_version sched epoch) (host_genesis_validators_root h) epoch
    (fulu_fork_epoch sched) (blob_schedule sched) (electra_fork_epoch sched) (max_blobs_per_block_electra h).

Definition host_fork_digest_for (h : Host) (now_ms : Z) (fork : ForkName) : result SszError bytes :=
  let sched := fork_schedule h in
  let digest version := compute_fork_digest version (host_genesis_validators_root h) in
  match fork with
  | Phase0 => digest (genesis_fork_version sched)
  | Altair => digest (altair_fork_version sched)
  | Bellatrix => digest (bellatrix_fork_version sched)
  | Capella => digest (capella_fork_version sched)
  | Deneb => digest (deneb_fork_version sched)
  | Electra => digest (electra_fork_version sched)
  | Fulu => fulu_aware_fork_digest h (host_current_epoch h now_ms)
  end.

(** The comparisons of [fork_from_context], in their order. *)
Definition fork_order : list ForkName := [Phase0; Altair; Bellatrix; Capella; Deneb; Electra; Fulu].
Fixpoint first_fork (h : Host) (now_ms : Z) (ctx : bytes) (forks : list ForkName) : result SszError (option ForkName) :=
  match forks with
  | [] => Ok None
  | f :: forks =>
      digest ← host_fork_digest_for h now_ms f;
      if bool_decide (ctx = digest) then Ok (Some f) else first_fork h now_ms ctx forks
  end.
Definition host_fork_from_context (h : Host) (now_ms : Z) (ctx : bytes) : result SszError (option ForkName) :=
  first_fork h now_ms ctx fork_order.

(** The trait object that the codec is given; hashing does not fail. *)
Definition host_fork_context (h : Host) (now_ms : Z) : ForkContext :=
  mkForkContext
    (fun f => match host_fork_digest_for h now_ms f with Ok d => d | _ => [] end)
    (fun ctx => match host_fork_from_context h now_ms ctx with Ok f => f | _ => None end).
End digests.

(** ** The schedule *)
Definition ascending (s : ForkSchedule) : Prop :=
  altair_fork_epoch s <= bellatrix_fork_epoch s <= capella_fork_epoch s /\
  capella_fork_epoch s <= deneb_fork_epoch s <= electra_fork_epoch s /\ electra_fork_epoch s <= fulu_fork_epoch s.

(** The versions in their order, and how many forks after genesis have been activated. *)
Definition versions (s : ForkSchedule) : list bytes := genesis_fork_version s :: (row_version <$> fork_table s).
Definition activated (s : ForkSchedule) (epoch : Z) : nat :=
  length (filter (fun row => row_activation row <= epoch) (fork_table s)).

Ltac activation e epoch := destruct (decide (e <= epoch)); [rewrite ?(proj2 (Z.leb_le e epoch)), ?(proj2 (Z.ltb_ge epoch e)) by lia
    |rewrite ?(proj2 (Z.leb_gt e epoch)), ?(proj2 (Z.ltb_lt epoch e)) by lia].

(** On a schedule with ascending epochs, the fork of an epoch is the last one
    activated: its version is the one after as many versions as forks were activated
    and its previous version the one before that; the next version and epoch are those
    of the first fork that is still to come, the last version and the far future when
    there is none. *)
Theorem schedule_exact s epoch :
  ascending s ->
  versions s !! activated s epoch = Some (current_fork_version s epoch) /\
  versions s !! pred (activated s epoch) = Some (fork_previous_version (fork_at_epoch s epoch)) /\
  next_fork_version s epoch = default (fulu_fork_version s) (versions s !! S (activated s epoch)) /\
  next_fork_epoch s epoch = default (U64 - 1) ((row_activation <$> fork_table s) !! activated s epoch).
Proof.
  intros Hasc. unfold ascending in Hasc. destruct s as [v0 v1 e1 v2 e2 v3 e3 v4 e4 v5 e5 v6 e6 bs g].
  unfold current_fork_version, fork_at_epoch, next_fork_version, next_fork_epoch, activated, versions, fork_table in *.
  cbn [altair_fork_epoch bellatrix_fork_epoch capella_fork_epoch deneb_fork_epoch electra_fork_epoch fulu_fork_epoch
    genesis_fork_version altair_fork_version bellatrix_fork_version capella_fork_version deneb_fork_version
    electra_fork_version fulu_fork_version] in *.
  unfold reverse. cbn [rev_append find row_activation fst]. rewrite !filter_cons, filter_nil. cbn [row_activation fst].
  activation e6 epoch; [|activation e5 epoch; [|activation e4 epoch; [|activation e3 epoch; [|activation e2 epoch; [|activation e1 epoch]]]]].
  all: repeat match goal with |- context [decide (?a <= ?b)] => destruct (decide (a <= b)); [|lia] end.
  all: repeat match goal with |- context [?x <? ?a] => rewrite (proj2 (Z.ltb_ge x a)) by lia end; by split_and!.
Qed.

(** A fork that is not scheduled is announced all the same: the version of the next
    fork is that of the one with activation in the far future, where the
    documentation promises the current version. *)
Lemma unscheduled_next_version s epoch :
  ascending s -> electra_fork_epoch s <= epoch < U64 - 1 -> fulu_fork_epoch s = U64 - 1 ->
  next_fork_version s epoch = fulu_fork_version s /\ current_fork_version s epoch = electra_fork_version s.
Proof.
  intros Hasc He Hf. unfold ascending in Hasc. unfold current_fork_version, fork_at_epoch, next_fork_version, fork_table, reverse.
  cbn [rev_append find row_activation fst]. rewrite Hf, (proj2 (Z.leb_gt (U64 - 1) epoch)), (proj2 (Z.leb_le (electra_fork_epoch s) epoch)) by lia.
  rewrite !(proj2 (Z.ltb_ge epoch _)) by lia. by rewrite (proj2 (Z.ltb_lt epoch _)) by lia.
Qed.

Section context_ok.
Context `{CryptoOk}.

Lemma compute_fork_digest_Ok version gvr :
  (length version <= 96)%nat -> (length gvr <= 96)%nat -> exists d, compute_fork_digest version gvr = Ok d /\ zlen d = 4.
Proof.
  intros Hv Hg. unfold compute_fork_digest.
  assert (root_ok (fork_data_root (mkForkData version gvr))) as (r & -> & Hlen).
  { unfold fork_data_root. cbn [fd_current_version fd_genesis_validators_root].
    apply derive_root_ok; [unfold zlen; cbn; lia|]. repeat constructor; by apply fixed_bytes_root_ok. }
  cbn [mbind result_bind]. destruct (slice (E:=SszError) r 0 4) as [d| |] eqn:Hd.
  - exists d. split; [done|]. by apply slice_zlen in Hd.
  - by rewrite slice_in_range in Hd by (unfold zlen; lia).
  - by rewrite slice_in_range in Hd by (unfold zlen; lia).
Qed.

Lemma xor_bytes_length a b : zlen a = zlen b -> zlen (xor_bytes a b) = zlen a.
Proof. intros Hab. unfold zlen, xor_bytes in *. rewrite length_zip_with. lia. Qed.

Lemma compute_fork_digest_fulu_Ok version gvr params :
  (length version <= 96)%nat -> (length gvr <= 96)%nat -> exists d, compute_fork_digest_fulu version gvr params = Ok d /\ zlen d = 4.
Proof.
  intros Hv Hg. unfold compute_fork_digest_fulu. destruct (compute_fork_digest_Ok version gvr Hv Hg) as (d & -> & Hd). cbn [mbind result_bind].
  set (preimage := _ ++ _). pose proof (sha256_length preimage) as Hlen.
  rewrite (slice_in_range (sha256 preimage) 0 4) by (unfold zlen; lia). cbn [mbind result_bind].
  eexists. split; [done|]. rewrite xor_bytes_length; [done|]. rewrite Hd. unfold zlen. rewrite length_take, length_drop. lia.
Qed.

(** Versions are 4 bytes, the genesis root 32. *)
Definition host_sized (h : Host) : Prop :=
  Forall (fun v => length v = 4%nat) (versions (fork_schedule h)) /\ length (host_genesis_validators_root h) = 32%nat.

Lemma current_version_in s epoch : current_fork_version s epoch ∈ versions s.
Proof.
  unfold current_fork_version, fork_at_epoch. destruct (find _ _) as [row|] eqn:Hrow; [|apply list_elem_of_here].
  apply find_some in Hrow as [Hrow _]. apply list_elem_of_In in Hrow. rewrite elem_of_reverse in Hrow.
  destruct row as [[[a p] c] e]. cbn. right. apply list_elem_of_fmap. by exists (a, p, c, e).
Qed.

Lemma host_digest_Ok h now f : host_sized h -> exists d, host_fork_digest_for h now f = Ok d /\ zlen d = 4.
Proof.
  intros [Hv Hg]. rewrite Forall_forall in Hv.
  assert (forall v, v ∈ versions (fork_schedule h) -> exists d, compute_fork_digest v (host_genesis_validators_root h) = Ok d /\ zlen d = 4) as Hdigest
    by (intros v Hin; apply Hv in Hin; apply compute_fork_digest_Ok; lia).
  destruct f; try (apply Hdigest; unfold versions, fork_table; cbn; set_solver).
  cbn. unfold fulu_aware_fork_digest, compute_fork_digest_for_epoch. pose proof (current_version_in (fork_schedule h) (host_current_epoch h now)) as Hin.
  destruct (_ <? _); [by apply Hdigest|]. apply Hv in Hin. apply compute_fork_digest_fulu_Ok; lia.
Qed.

(** The position of a fork. *)
Definition fork_number (f : ForkName) : Z :=
  match f with Phase0 => 0 | Altair => 1 | Bellatrix => 2 | Capella => 3 | Deneb => 4 | Electra => 5 | Fulu => 6 end.

Lemma fork_order_all f : f ∈ fork_order.
Proof. unfold fork_order. destruct f; set_solver. Qed.
Lemma order_before before f after g : fork_order = before ++ f :: after -> fork_number g < fork_number f -> g ∈ before.
Proof.
  intros Horder Hlt. unfold fork_order in Horder.
  do 7 (destruct before as [|? before]; [injection Horder as <- _; destruct g; cbn in Hlt; (lia || set_solver)|injection Horder as <- Horder]).
  by destruct before.
Qed.

Lemma first_fork_spec h now ctx forks :
  host_sized h ->
  exists r, first_fork h now ctx forks = Ok r /\
  match r with
  | Some f => exists before after, forks = before ++ f :: after /\ fork_digest_for (host_fork_context h now) f = ctx /\
      Forall (fun g => fork_digest_for (host_fork_context h now) g <> ctx) before
  | None => Forall (fun g => fork_digest_for (host_fork_context h now) g <> ctx) forks
  end.
Proof.
  intros Hh. induction forks as [|f forks (r & Hr & IH)]; cbn [first_fork]; [by exists None|].
  destruct (host_digest_Ok h now f Hh) as (d & Hd & _). rewrite Hd. cbn [mbind result_bind].
  assert (fork_digest_for (host_fork_context h now) f = d) as Hf by (cbn; by rewrite Hd).
  destruct (bool_decide_reflect (ctx = d)) as [->|Hne]; [exists (Some f); split; [done|]; by exists [], forks|].
  exists r. split; [done|]. destruct r as [g|]; [|constructor; [congruence|done]].
  destruct IH as (before & after & -> & Hg & Hb). exists (f :: before), after. split; [done|]. split; [done|]. constructor; [congruence|done].
Qed.

End context_ok.
