(* ===== verification/Kzg.v ===== *)
(** * KZG: field elements and batch checks

    pharos-kzg/src/lib.rs.  The reduction of a hash to a field element, written on
    byte arrays, the two Fiat-Shamir challenges, and the checks of a batch before it
    goes to the c-kzg library, which is the class [CKzg].

    Theorem [hash_to_bls_field_exact]: the reduction is the remainder by the order of
    the scalar field. *)

From stdpp Require Import base list.
From Stdlib Require Import ZArith Lia.
From coqutil Require Import Byte Word.LittleEndianList.
From S2P Require Import Prelude SszCodec Spec.
Open Scope Z_scope.

(** ** Big-endian integers *)
Definition from_be_bytes (bs : bytes) : Z := from_le_bytes (reverse bs).
Definition to_be_bytes (n : nat) (z : Z) : bytes := reverse (to_le_bytes n z).

Lemma from_le_bytes_1 b : from_le_bytes [b] = byte.unsigned b.
Proof. apply LittleEndianList.le_combine_1. Qed.

Lemma from_be_bytes_cons b (l : bytes) : from_be_bytes (b :: l) = byte.unsigned b * 2 ^ (8 * zlen l) + from_be_bytes l.
Proof.
  unfold from_be_bytes. rewrite reverse_cons, from_le_bytes_app, from_le_bytes_1. unfold zlen. rewrite length_reverse. lia.
Qed.
Lemma from_be_bytes_bound (l : bytes) : 0 <= from_be_bytes l < 2 ^ (8 * zlen l).
Proof. unfold from_be_bytes. pose proof (from_le_bytes_bound (reverse l)) as Hl. unfold zlen in *. by rewrite length_reverse in Hl. Qed.

(** ** Field elements *)
Definition BLS_MODULUS : bytes :=
  [Byte.x73; Byte.xed; Byte.xa7; Byte.x53; Byte.x29; Byte.x9d; Byte.x7d; Byte.x48;
   Byte.x33; Byte.x39; Byte.xd8; Byte.x08; Byte.x09; Byte.xa1; Byte.xd8; Byte.x05;
   Byte.x53; Byte.xbd; Byte.xa4; Byte.x02; Byte.xff; Byte.xfe; Byte.x5b; Byte.xfe;
   Byte.xff; Byte.xff; Byte.xff; Byte.xff; Byte.x00; Byte.x00; Byte.x00; Byte.x01].

(** [for (x, y) in a.iter().zip(b.iter())]. *)
Fixpoint cmp_be_bytes (a b : bytes) : Z :=
  match a, b with
  | x :: a, y :: b =>
      if byte.unsigned y <? byte.unsigned x then 1
      else if byte.unsigned x <? byte.unsigned y then -1
      else cmp_be_bytes a b
  | _, _ => 0
  end.

(** [for i in (0..32).rev()]: the digits from the last one on, with the borrow. *)
Fixpoint sub_digits (a b : bytes) : bytes * Z :=
  match a, b with
  | x :: a, y :: b =>
      let '(result, borrow) := sub_digits a b in
      let diff := byte.unsigned x - byte.unsigned y - borrow in
      if diff <? 0 then (byte.of_Z (diff + 256) :: result, 1) else (byte.of_Z diff :: result, 0)
  | _, _ => ([], 0)
  end.
Definition sub_be_bytes (a b : bytes) : bytes := (sub_digits a b).1.

(** [while cmp_be_bytes(&val, BLS_MODULUS) >= 0].  A value of 32 bytes is less than
    three times the modulus. *)
Fixpoint reduce_loop (fuel : nat) (val : bytes) : bytes :=
  match fuel with
  | O => val
  | S fuel => if 0 <=? cmp_be_bytes val BLS_MODULUS then reduce_loop fuel (sub_be_bytes val BLS_MODULUS) else val
  end.
Definition bls_field_mod_reduce (val : bytes) : bytes := reduce_loop 3 val.

Section hashing.
  Context `{Crypto}.

Definition hash_to_bls_field (data : bytes) : bytes := bls_field_mod_reduce (sha256 data).

(** b"FSBLOBVERIFY_V1_" and b"RCKZGCBATCH__V1_". *)
Definition FIAT_SHAMIR_PROTOCOL_DOMAIN : bytes :=
  [Byte.x46; Byte.x53; Byte.x42; Byte.x4c; Byte.x4f; Byte.x42; Byte.x56; Byte.x45;
   Byte.x52; Byte.x49; Byte.x46; Byte.x59; Byte.x5f; Byte.x56; Byte.x31; Byte.x5f].
Definition RANDOM_CHALLENGE_KZG_CELL_BATCH_DOMAIN : bytes :=
  [Byte.x52; Byte.x43; Byte.x4b; Byte.x5a; Byte.x47; Byte.x43; Byte.x42; Byte.x41;
   Byte.x54; Byte.x43; Byte.x48; Byte.x5f; Byte.x5f; Byte.x56; Byte.x31; Byte.x5f].

Definition compute_challenge (blob commitment : bytes) : bytes :=
  hash_to_bls_field (FIAT_SHAMIR_PROTOCOL_DOMAIN ++ to_be_bytes 16 4096 ++ blob ++ commitment)%list.

(** [for k in 0..num_cells]: a missing entry of a list aborts. *)
Definition cell_entry {E} (commitment_indices cell_indices : list Z) (cells proofs : list bytes) (k : Z)
    : result E bytes :=
  commitment_index ← index commitment_indices k;
  cell_index ← index cell_indices k;
  cell ← index cells k;
  proof ← index proofs k;
  Ok (to_be_bytes 8 commitment_index ++ to_be_bytes 8 cell_index ++ cell ++ proof)%list.
Definition compute_verify_cell_kzg_proof_batch_challenge {E} (commitments : list bytes)
    (commitment_indices cell_indices : list Z) (cells proofs : list bytes) : result E bytes :=
  let num_cells := zlen cell_indices in
  entries ← mapM (cell_entry commitment_indices cell_indices cells proofs) (seqZ 0 num_cells);
  Ok (hash_to_bls_field (RANDOM_CHALLENGE_KZG_CELL_BATCH_DOMAIN ++ to_be_bytes 8 4096 ++ to_be_bytes 8 64 ++
        to_be_bytes 8 (zlen commitments) ++ to_be_bytes 8 num_cells ++ concat commitments ++ concat entries)%list).
End hashing.

(** ** Batches *)

(** The c-kzg library: the verdict on a batch, [None] for its own error. *)
Class CKzg : Type := {
  ckzg_verify_blobs : list bytes -> list bytes -> list bytes -> option bool;
  ckzg_verify_cells : list bytes -> list Z -> list bytes -> list bytes -> option bool;
}.

Inductive KzgError : Type :=
  | LengthMismatch (blobs commitments proofs : Z)
  | CellLengthMismatch (commitments cell_indices cells proofs : Z)
  | CKzgFailure.

Section batches.
  Context `{CKzg}.

Definition verify_blob_kzg_proof_batch (blobs commitments proofs : list bytes) : result KzgError bool :=
  if negb (zlen blobs =? zlen commitments) || negb (zlen blobs =? zlen proofs)
  then Err (LengthMismatch (zlen blobs) (zlen commitments) (zlen proofs))
  else if zlen blobs =? 0 then Ok true
  else ok_or (ckzg_verify_blobs blobs commitments proofs) CKzgFailure.

Definition verify_cell_kzg_proof_batch (commitments : list bytes) (cell_indices : list Z) (cells proofs : list bytes)
    : result KzgError bool :=
  if negb (zlen commitments =? zlen cell_indices) || negb (zlen commitments =? zlen cells)
     || negb (zlen commitments =? zlen proofs)
  then Err (CellLengthMismatch (zlen commitments) (zlen cell_indices) (zlen cells) (zlen proofs))
  else if zlen commitments =? 0 then Ok true
  else ok_or (ckzg_verify_cells commitments cell_indices cells proofs) CKzgFailure.
End batches.

(** ** The reduction is a remainder *)
Lemma cmp_be_bytes_spec a b :
  length a = length b ->
  (0 <= cmp_be_bytes a b <-> from_be_bytes b <= from_be_bytes a).
Proof.
  revert b. induction a as [|x a IH]; intros [|y b] Hl; try done. cbn [cmp_be_bytes].
  rewrite !from_be_bytes_cons. pose proof (from_be_bytes_bound a) as Ha. pose proof (from_be_bytes_bound b) as Hb.
  injection Hl as Hl. assert (zlen a = zlen b) as Hz by (unfold zlen; by rewrite Hl). rewrite Hz in *.
  set (p := 2 ^ (8 * zlen b)) in *. set (u := byte.unsigned x). set (v := byte.unsigned y).
  destruct (Z.ltb_spec v u); [split; [nia|done]|]. destruct (Z.ltb_spec u v); [split; [done|nia]|].
  rewrite IH by done. assert (u = v) as -> by lia. lia.
Qed.

Lemma sub_digits_spec a b :
  length a = length b -> let '(r, borrow) := sub_digits a b in
  length r = length a /\ 0 <= borrow <= 1 /\
  from_be_bytes r = from_be_bytes a - from_be_bytes b + borrow * 2 ^ (8 * zlen a).
Proof.
  revert b. induction a as [|x a IH]; intros [|y b] Hl; try done. cbn [sub_digits]. injection Hl as Hl.
  specialize (IH b Hl). destruct (sub_digits a b) as [r borrow]. destruct IH as (Hlen & Hbo & Hr).
  assert (zlen a = zlen b /\ zlen r = zlen b) as [Hz Hz'] by (unfold zlen; split; congruence).
  pose proof (byte.unsigned_range x). pose proof (byte.unsigned_range y).
  pose proof (zlen_nonneg b).
  assert (2 ^ (8 * zlen (x :: a)) = 256 * 2 ^ (8 * zlen b)) as Hp.
  { rewrite zlen_cons, Hz. rewrite <- (Z.pow_add_r 2 8) by lia. f_equal. lia. }
  rewrite Hz in *.
  destruct (Z.ltb_spec (byte.unsigned x - byte.unsigned y - borrow) 0); (split; [cbn; congruence|]); (split; [lia|]);
    rewrite !from_be_bytes_cons, Hz, Hz', Hr, Hp, byte.unsigned_of_Z; unfold byte.wrap; rewrite Z.mod_small by lia; lia.
Qed.

Lemma sub_be_bytes_spec a b :
  length a = length b -> from_be_bytes b <= from_be_bytes a ->
  length (sub_be_bytes a b) = length a /\ from_be_bytes (sub_be_bytes a b) = from_be_bytes a - from_be_bytes b.
Proof.
  intros Hl Hle. pose proof (sub_digits_spec a b Hl) as Hs. unfold sub_be_bytes.
  destruct (sub_digits a b) as [r borrow]. destruct Hs as (Hlen & Hbo & Hr). split; [done|]. cbn.
  pose proof (from_be_bytes_bound r) as Hb. assert (zlen r = zlen a) as Hz by (unfold zlen; congruence). rewrite Hz in Hb.
  assert (borrow = 0) as -> by nia. lia.
Qed.

(** The order of the scalar field. *)
Definition field_order : Z := 52435875175126190479447740508185965837690552500527637822603658699938581184513.
Lemma modulus_value : from_be_bytes BLS_MODULUS = field_order.
Proof. by vm_compute. Qed.

Lemma reduce_loop_spec fuel val :
  length val = 32%nat -> from_be_bytes val < Z.of_nat fuel * field_order ->
  length (reduce_loop fuel val) = 32%nat /\ from_be_bytes (reduce_loop fuel val) = from_be_bytes val mod field_order.
Proof.
  revert val. induction fuel as [|fuel IH]; intros val Hl Hlt; cbn [reduce_loop].
  { pose proof (from_be_bytes_bound val). lia. }
  assert (0 < field_order) by done. pose proof (from_be_bytes_bound val).
  pose proof (cmp_be_bytes_spec val BLS_MODULUS Hl) as Hc. rewrite modulus_value in Hc.
  destruct (Z.leb_spec 0 (cmp_be_bytes val BLS_MODULUS)) as [Hge|Hge].
  - destruct (sub_be_bytes_spec val BLS_MODULUS Hl) as [Hl' Hv]; [rewrite modulus_value; tauto|]. rewrite modulus_value in Hv.
    destruct (IH (sub_be_bytes val BLS_MODULUS)) as [Hlen ->]; [congruence|lia|]. split; [done|].
    rewrite Hv. rewrite <- (Z.mod_add (_ - _) 1) by lia. f_equal. lia.
  - split; [done|]. rewrite Z.mod_small; [done|]. split; [lia|]. lia.
Qed.

(** A hash becomes a field element.  The loop over byte arrays ends after at most
    two subtractions, and its result is the hash, read as a big-endian number, modulo
    the order of the scalar field, in 32 bytes. *)
Theorem hash_to_bls_field_exact `{Crypto} `{!CryptoOk _} data :
  length (hash_to_bls_field data) = 32%nat /\
  from_be_bytes (hash_to_bls_field data) = from_be_bytes (sha256 data) mod field_order.
Proof.
  apply reduce_loop_spec; [apply sha256_length|]. pose proof (from_be_bytes_bound (sha256 data)) as Hb.
  unfold zlen in Hb. rewrite sha256_length in Hb. change (2 ^ (8 * Z.of_nat 32)) with (2 ^ 256) in Hb.
  assert (2 ^ 256 < 3 * field_order) by done. change (Z.of_nat 3) with 3. lia.
Qed.
