(* ===== verification/Fulu.v ===== *)
(** * Fulu: proposers known ahead, and the state transition

    fulu/ of pharos-stf.  A Fulu state is an Electra state with the proposers of the
    coming slots, [fu_proposer_lookahead]; the steps of Electra run on its Electra
    part ([fulu_state_to_electra], [update_fulu_from_electra]).  Models helpers.rs
    (the election of an epoch, the proposer read from the window),
    epoch/process_proposer_lookahead.rs, epoch/mod.rs, operations/execution_payload.rs
    (the blob limit of the schedule), block.rs, state_transition.rs and upgrade.rs.

    The theorems are in FuluChain.v. *)

From stdpp Require Import gmap sorting.
From Stdlib Require Import ZArith Lia String.
From S2P Require Import ForkSchedule Prelude SszCodec SszBitfield SszTypes Merkle SszTree Shuffling Spec BeaconState Invariant Roots Accessors Mutators Justification Rewards EpochUpdates Operations Transition Genesis Forks ForkInvariant Altair AltairFacts AltairOps Electra Withdrawals ElectraQueues PendingDeposits ElectraEpoch ElectraBody ElectraOps ElectraBlock ElectraTransition ForkUpgrades.
Open Scope Z_scope.

(** ** Constants *)
Class FuluSpec : Type := {
  LOOKAHEAD_WINDOW : Z;
  NUMBER_OF_COLUMNS : Z;
  NUMBER_OF_CUSTODY_GROUPS : Z;
}.
Definition mainnet_fulu : FuluSpec := {|
  LOOKAHEAD_WINDOW := 64; NUMBER_OF_COLUMNS := 128; NUMBER_OF_CUSTODY_GROUPS := 128 |}.
Definition minimal_fulu : FuluSpec := {|
  LOOKAHEAD_WINDOW := 16; NUMBER_OF_COLUMNS := 128; NUMBER_OF_CUSTODY_GROUPS := 128 |}.

Class FuluSpecOk (S : BeaconSpec) (U : FuluSpec) : Prop := {
  lookahead_window : LOOKAHEAD_WINDOW = (MIN_SEED_LOOKAHEAD + 1) * SLOTS_PER_EPOCH;
  custody_group_count : 0 < NUMBER_OF_CUSTODY_GROUPS <= NUMBER_OF_COLUMNS;
  columns_divide : NUMBER_OF_COLUMNS mod NUMBER_OF_CUSTODY_GROUPS = 0;
  columns_bound : NUMBER_OF_COLUMNS <= 2 ^ 20;
}.
#[global] Instance mainnet_fulu_ok : FuluSpecOk mainnet mainnet_fulu.
Proof. split; repeat split; by vm_compute. Qed.
#[global] Instance minimal_fulu_ok : FuluSpecOk minimal minimal_fulu.
Proof. split; repeat split; by vm_compute. Qed.

(** ** The state *)
Record FuluState : Type := mkFuluState {
  fu_electra :> ElectraState;
  fu_proposer_lookahead : list Z;
}.

(** The fields of [RuntimeConfig] that Fulu reads. *)
Record FuluConfig : Type := mkFuluConfig {
  fc_runtime :> RuntimeConfig;
  fc_fulu_fork_version : bytes;
  fc_electra_fork_epoch : Z;
  fc_blob_schedule : list BlobScheduleEntry;
}.

Definition fulu_state_to_electra (s : FuluState) : ElectraState :=
mkElectraState (mkDenebState (mkAltairState (mkBeaconState (genesis_time s)
    (genesis_validators_root s) (slot s) (fork s) (latest_block_header s)
    (block_roots s) (state_roots s) (historical_roots s) (eth1_data s)
    (eth1_data_votes s) (eth1_deposit_index s) (validators s) (balances s)
    (randao_mixes s) (slashings s) (previous_epoch_attestations s)
    (current_epoch_attestations s) (justification_bits s) (previous_justified_checkpoint
    s) (current_justified_checkpoint s) (finalized_checkpoint s))
    (al_previous_epoch_participation s) (al_current_epoch_participation s)
    (al_inactivity_scores s) (al_current_sync_committee s) (al_next_sync_committee
    s)) (de_latest_execution_payload_header s) (de_next_withdrawal_index s)
    (de_next_withdrawal_validator_index s) (de_historical_summaries s))
    (el_deposit_requests_start_index s) (el_deposit_balance_to_consume s)
    (el_exit_balance_to_consume s) (el_earliest_exit_epoch s)
    (el_consolidation_balance_to_consume s) (el_earliest_consolidation_epoch s)
    (el_pending_deposits s) (el_pending_partial_withdrawals s) (el_pending_consolidations s).

Definition update_fulu_from_electra (s : FuluState) (electra : ElectraState) : FuluState :=
mkFuluState (mkElectraState (mkDenebState (mkAltairState (mkBeaconState (genesis_time electra)
    (genesis_validators_root electra) (slot electra) (fork electra) (latest_block_header electra)
    (block_roots electra) (state_roots electra) (historical_roots electra) (eth1_data electra)
    (eth1_data_votes electra) (eth1_deposit_index electra) (validators electra) (balances electra)
    (randao_mixes electra) (slashings electra) (previous_epoch_attestations electra)
    (current_epoch_attestations electra) (justification_bits electra) (previous_justified_checkpoint
    electra) (current_justified_checkpoint electra) (finalized_checkpoint electra))
    (al_previous_epoch_participation electra) (al_current_epoch_participation electra)
    (al_inactivity_scores electra) (al_current_sync_committee electra) (al_next_sync_committee
    electra)) (de_latest_execution_payload_header electra) (de_next_withdrawal_index electra)
    (de_next_withdrawal_validator_index electra) (de_historical_summaries electra))
    (el_deposit_requests_start_index electra) (el_deposit_balance_to_consume electra)
    (el_exit_balance_to_consume electra) (el_earliest_exit_epoch electra)
    (el_consolidation_balance_to_consume electra) (el_earliest_consolidation_epoch electra)
    (el_pending_deposits electra) (el_pending_partial_withdrawals electra)
    (el_pending_consolidations electra))
  (fu_proposer_lookahead s).

(** A new Electra part; a new window. *)
Definition fu_with_electra (s : FuluState) (e : ElectraState) : FuluState :=
  mkFuluState e (fu_proposer_lookahead s).
Definition fu_with_lookahead (s : FuluState) (l : list Z) : FuluState :=
  mkFuluState (fu_electra s) l.
Definition fu_on {E} (f : BeaconState -> result E BeaconState) (s : FuluState) : result E FuluState :=
  e ← el_on f (fu_electra s); Ok (fu_with_electra s e).

(** [SszVector::<_, LOOKAHEAD_WINDOW>::from_vec]. *)
Definition lookahead_from_vec `{FuluSpec} (v : list Z) : result SszError (list Z) :=
  if zlen v =? LOOKAHEAD_WINDOW then Ok v else Err (VectorLengthMismatch (zlen v) LOOKAHEAD_WINDOW).

Section fulu.
  Context `{Crypto} `{Sp : BeaconSpec} `{Fs : ForkSpec} `{Aggregation} `{Bs : BlockSpec} `{Us : FuluSpec}.
  Implicit Types s : FuluState.
  Local Abbreviation fallible := (result StateTransitionError).

(** The state as a container: the window is its last field. *)
Definition fulu_state_root s : result SszError bytes :=
  derive_tree_hash_root
    [u64_root (genesis_time s); fixed_bytes_root (genesis_validators_root s);
     u64_root (slot s); fork_root (fork s); header_root (latest_block_header s);
     basic_vector_root hash256_tree_hash (block_roots s);
     basic_vector_root hash256_tree_hash (state_roots s);
     basic_list_root hash256_tree_hash HISTORICAL_ROOTS_LIMIT (historical_roots s);
     eth1_data_root (eth1_data s);
     list_root ETH1_DATA_VOTES_LIMIT eth1_data_root (eth1_data_votes s);
     u64_root (eth1_deposit_index s);
     list_root VALIDATOR_REGISTRY_LIMIT validator_root (validators s);
     basic_list_root u64_tree_hash VALIDATOR_REGISTRY_LIMIT (balances s);
     basic_vector_root hash256_tree_hash (randao_mixes s);
     basic_vector_root u64_tree_hash (slashings s);
     basic_list_root u8_tree_hash VALIDATOR_REGISTRY_LIMIT (al_previous_epoch_participation s);
     basic_list_root u8_tree_hash VALIDATOR_REGISTRY_LIMIT (al_current_epoch_participation s);
     bitvector4_root (justification_bits s);
     checkpoint_root (previous_justified_checkpoint s);
     checkpoint_root (current_justified_checkpoint s);
     checkpoint_root (finalized_checkpoint s);
     basic_list_root u64_tree_hash VALIDATOR_REGISTRY_LIMIT (al_inactivity_scores s);
     sync_committee_root (al_current_sync_committee s);
     sync_committee_root (al_next_sync_committee s);
     payload_header_root (de_latest_execution_payload_header s);
     u64_root (de_next_withdrawal_index s); u64_root (de_next_withdrawal_validator_index s);
     list_root HISTORICAL_ROOTS_LIMIT historical_summary_root (de_historical_summaries s);
     u64_root (el_deposit_requests_start_index s); u64_root (el_deposit_balance_to_consume s);
     u64_root (el_exit_balance_to_consume s); u64_root (el_earliest_exit_epoch s);
     u64_root (el_consolidation_balance_to_consume s);
     u64_root (el_earliest_consolidation_epoch s);
     list_root MAX_PENDING_DEPOSITS_LIMIT pending_deposit_root (el_pending_deposits s);
     list_root MAX_PENDING_PARTIAL_WITHDRAWALS_LIMIT pending_partial_root
       (el_pending_partial_withdrawals s);
     list_root MAX_PENDING_CONSOLIDATIONS_LIMIT pending_consolidation_root
       (el_pending_consolidations s);
     basic_vector_root u64_tree_hash (fu_proposer_lookahead s)].

(** ** helpers.rs

    The election reads the state through [BeaconStateView]; [s] is any state with the
    fields of Electra. *)

(** One proposer for each slot of [epoch]. *)
Definition compute_proposer_indices (s : ElectraState) (epoch : Z) (seed : bytes) (indices : list Z)
    : fallible (list Z) :=
  let start_slot := compute_start_slot_at_epoch epoch SLOTS_PER_EPOCH in
  mapM (fun i =>
          let seed_i := sha256 (seed ++ to_le_bytes 8 (wadd start_slot i)) in
          compute_proposer_index_electra s indices seed_i)
    (seqZ 0 SLOTS_PER_EPOCH).

Definition get_beacon_proposer_indices (s : ElectraState) (epoch : Z) : fallible (list Z) :=
  let indices := get_active_validator_indices s epoch in
  let seed := get_seed s epoch DOMAIN_BEACON_PROPOSER in
  compute_proposer_indices s epoch seed indices.

Definition get_beacon_proposer_index_fulu s : Z :=
  let idx := slot s mod SLOTS_PER_EPOCH in
  default 0 (fu_proposer_lookahead s !! Z.to_nat idx).

(** ** epoch/ *)

(** The window moves by one epoch: its first [SLOTS_PER_EPOCH] entries go, those of
    the epoch that is now determined come.  The election only aborts, it has no error
    of its own. *)
Definition process_proposer_lookahead s : result EpochProcessingError FuluState :=
  let current_epoch := compute_epoch_at_slot (slot s) SLOTS_PER_EPOCH in
  let lookahead_epoch := wadd (wadd current_epoch MIN_SEED_LOOKAHEAD) 1 in
  new_tail ← map_err epoch_error (get_beacon_proposer_indices s lookahead_epoch);
  let next := (drop (Z.to_nat SLOTS_PER_EPOCH) (fu_proposer_lookahead s) ++ new_tail)%list in
  next ← map_err EpochSsz (lookahead_from_vec next);
  Ok (fu_with_lookahead s next).

Definition process_epoch_fulu s : result EpochProcessingError FuluState :=
  let electra := fulu_state_to_electra s in
  electra ← process_epoch_electra electra;
  let s := update_fulu_from_electra s electra in
  process_proposer_lookahead s.

(** ** operations/execution_payload.rs *)
Definition process_execution_payload_fulu `{ExecutionEngine} s (body : ElectraBody) (cfg : FuluConfig)
    : fallible (FuluState * PayloadVerificationStatus) :=
  let payload := eb_execution_payload body in
  if negb (bool_decide (ep_parent_hash payload = dph_block_hash (de_latest_execution_payload_header s)))
  then Err (InvalidExecutionPayload "parent_hash mismatch")
  else
    let current_epoch := compute_epoch_at_slot (slot s) SLOTS_PER_EPOCH in
    let expected_randao := default zero_chunk
      (randao_mixes s !! Z.to_nat (current_epoch mod EPOCHS_PER_HISTORICAL_VECTOR)) in
    if negb (bool_decide (ep_prev_randao payload = expected_randao))
    then Err (InvalidExecutionPayload "prev_randao mismatch")
    else
      let expected_timestamp := wadd (genesis_time s) (wmul (slot s) (seconds_per_slot cfg)) in
      if negb (ep_timestamp payload =? expected_timestamp)
      then Err (InvalidExecutionPayload "timestamp mismatch")
      else
        let blob_params := get_blob_parameters current_epoch (fc_blob_schedule cfg)
                             (fc_electra_fork_epoch cfg) (max_blobs_per_block_electra cfg) in
        let blob_count := zlen (eb_blob_kzg_commitments body) in
        if bp_max_blobs_per_block blob_params <? blob_count
        then Err (TooManyBlobCommitments blob_count (bp_max_blobs_per_block blob_params))
        else
          let versioned_hashes :=
            kzg_commitment_to_versioned_hash <$> eb_blob_kzg_commitments body in
          let parent_beacon_block_root := bh_parent_root (latest_block_header s) in
          let el_status := notify_new_payload_electra payload versioned_hashes
                             parent_beacon_block_root (eb_execution_requests body) in
          if bool_decide (el_status = Invalid)
          then Err (InvalidExecutionPayload "execution engine rejected payload")
          else
            transactions_root ← root_value (transactions_root (ep_transactions payload));
            withdrawals_root ← root_value (withdrawals_root (ep_withdrawals payload));
            let header := mkDenebHeader (ep_parent_hash payload) (ep_fee_recipient payload)
              (ep_state_root payload) (ep_receipts_root payload) (ep_logs_bloom payload)
              (ep_prev_randao payload) (ep_block_number payload) (ep_gas_limit payload)
              (ep_gas_used payload) (ep_timestamp payload) (ep_extra_data payload)
              (ep_base_fee_per_gas payload) (ep_block_hash payload) transactions_root
              withdrawals_root (ep_blob_gas_used payload) (ep_excess_blob_gas payload) in
            Ok (fu_with_electra s (el_with_deneb s
                  (de_with_latest_execution_payload_header (el_deneb s) header)), el_status).

(** ** block.rs *)

(** The reveal is checked against the proposer of the window. *)
Definition check_randao_reveal_fulu s (fulu_proposer : Z) (randao_reveal : bytes) : fallible unit :=
  let epoch := compute_epoch_at_slot (slot s) SLOTS_PER_EPOCH in
  proposer ← ok_or (validators s !! Z.to_nat fulu_proposer) InvalidRandaoReveal;
  domain ← get_domain s DOMAIN_RANDAO (Some epoch);
  signing_root ← compute_signing_root (u64_root epoch) domain;
  if default false (bls_verify (v_pubkey proposer) signing_root randao_reveal)
  then Ok tt else Err InvalidRandaoReveal.

(** An Electra step on the Electra part. *)
Definition on_electra (f : ElectraState -> fallible ElectraState) s : fallible FuluState :=
  electra ← f (fulu_state_to_electra s); Ok (update_fulu_from_electra s electra).

Definition randao_and_eth1 (body : ElectraBody) (electra : ElectraState) : fallible ElectraState :=
  let altair_state := electra_state_to_altair electra in
  altair_state ← process_randao_altair altair_state (eb_randao_reveal body) false;
  altair_state ← process_eth1_data_altair altair_state (eb_eth1_data body);
  Ok (update_electra_from_altair electra altair_state).

Definition process_block_fulu `{BatchVerification} `{ExecutionEngine} s (block : ElectraBlock)
    (verify_signatures : bool) (cfg : FuluConfig) : fallible (FuluState * PayloadVerificationStatus) :=
  let body := ebl_body block in
  let fulu_proposer := get_beacon_proposer_index_fulu s in
  body_root ← root_value (electra_body_root body);
  s ← on_electra (fun e => process_block_header_electra e (ebl_slot block) (ebl_proposer_index block)
                             (ebl_parent_root block) body_root (Some fulu_proposer)) s;
  s ← on_electra (fun e => process_withdrawals_electra e (ep_withdrawals (eb_execution_payload body))) s;
  '(s, payload_status) ← process_execution_payload_fulu s body cfg;
  _ ← (if verify_signatures then check_randao_reveal_fulu s fulu_proposer (eb_randao_reveal body) else Ok tt);
  s ← on_electra (randao_and_eth1 body) s;
  s ← on_electra (fun e => process_operations_electra e body verify_signatures cfg (Some fulu_proposer)) s;
  s ← on_electra (fun e => process_sync_aggregate_electra e (eb_sync_aggregate body) verify_signatures
                             (Some fulu_proposer)) s;
  Ok (s, payload_status).

(** ** state_transition.rs *)
Definition process_slot_fulu s : fallible FuluState :=
  previous_state_root ← root_value (fulu_state_root s);
  let slot_idx := slot s mod SLOTS_PER_HISTORICAL_ROOT in
  s ← fu_on (fun b => set_state_root b slot_idx previous_state_root) s;
  '(s, previous_block_root) ←
    (let h := latest_block_header (fu_electra s) in
     if bool_decide (bh_state_root h = zero_chunk) then
       let updated := mkBeaconBlockHeader (bh_slot h) (bh_proposer_index h) (bh_parent_root h)
                        previous_state_root (bh_body_root h) in
       r ← root_value (header_root updated);
       Ok (fu_with_electra s (el_with_base s (with_latest_block_header s updated)), r)
     else
       r ← root_value (header_root h);
       Ok (s, r));
  fu_on (fun b => set_block_root b slot_idx previous_block_root) s.

(** One turn of the loop over slots. *)
Definition slot_step_fulu s : fallible FuluState :=
  s ← process_slot_fulu s;
  s ← (if wadd (slot (fu_electra s)) 1 mod SLOTS_PER_EPOCH =? 0
       then map_err slot_error (process_epoch_fulu s) else Ok s);
  Ok (fu_with_electra s (el_with_base s (with_slot s (wadd (slot (fu_electra s)) 1)))).

(** [while state.slot < target_slot], in [target_slot - slot] turns. *)
Fixpoint slots_loop_fulu (fuel : nat) (target_slot : Z) s : fallible FuluState :=
  match fuel with
  | O => Ok s
  | S fuel =>
      if slot s <? target_slot then s ← slot_step_fulu s; slots_loop_fulu fuel target_slot s else Ok s
  end.
Definition process_slots_fulu_with_cfg s (target_slot : Z) : fallible FuluState :=
  if target_slot <? slot s then Err (TargetSlotNotAfterCurrent (slot s) target_slot)
  else slots_loop_fulu (Z.to_nat (target_slot - slot s)) target_slot s.

Definition fulu_state_transition `{BatchVerification} `{ExecutionEngine} s (signed_block : SignedElectraBlock)
    (validate_result : bool) (cfg : FuluConfig) : fallible (FuluState * PayloadVerificationStatus) :=
  let block := seb_message signed_block in
  s ← process_slots_fulu_with_cfg s (ebl_slot block);
  _ ← (if validate_result then check_block_signature s signed_block else Ok tt);
  '(s, payload_status) ← process_block_fulu s block validate_result cfg;
  _ ← (if validate_result then
         actual ← root_value (fulu_state_root s);
         let expected := ebl_state_root block in
         if bool_decide (actual = expected) then Ok tt else Err (StateRootMismatch expected actual)
       else Ok tt);
  Ok (s, payload_status).

(** ** upgrade.rs *)
Definition initialize_proposer_lookahead s : fallible FuluState :=
  let current_epoch := compute_epoch_at_slot (slot s) SLOTS_PER_EPOCH in
  epochs ← mapM (fun offset => get_beacon_proposer_indices s (sat_add current_epoch offset))
             (seqZ 0 (MIN_SEED_LOOKAHEAD + 1));
  let window := take (Z.to_nat LOOKAHEAD_WINDOW) (concat epochs) in
  let window := (window ++ replicate (Z.to_nat LOOKAHEAD_WINDOW - length window) 0)%list in
  window ← map_err Ssz (lookahead_from_vec window);
  Ok (fu_with_lookahead s window).

Definition upgrade_to_fulu (pre : ElectraState) (cfg : FuluConfig) : fallible FuluState :=
  lookahead ← map_err Ssz (lookahead_from_vec (replicate (Z.to_nat LOOKAHEAD_WINDOW) 0));
  let post := mkFuluState (el_with_base pre (with_fork pre (next_fork pre (fc_fulu_fork_version cfg)))) lookahead in
  initialize_proposer_lookahead post.
End fulu.

(** ** The projections are projections *)
Lemma fulu_electra_lens (s : FuluState) e :
  fulu_state_to_electra s = fu_electra s /\ update_fulu_from_electra s e = fu_with_electra s e.
Proof.
  by destruct s as [[[[[] ? ? ? ? ?] ? ? ? ?] ? ? ? ? ? ? ? ? ?] ?], e as [[[[] ? ? ? ? ?] ? ? ? ?] ? ? ? ? ? ? ? ? ?].
Qed.
