(* ===== verification/FuluChain.v ===== *)
(** * Fulu: theorems

    What the definitions of Fulu.v promise.  [fulu_ok]: the Electra part is well
    formed and the window names a member of the registry for every slot of the
    current epoch and of the [MIN_SEED_LOOKAHEAD] epochs after it.  Slots, epochs and
    blocks keep it ([fulu_step], rule induction over [fulu_run]).

    Theorem [proposers_known_ahead]: whatever blocks come, the proposer of a slot in the
    window is the one the window named.  Theorem [fulu_transition_sound]: the state
    transition.  Theorem [upgrade_elects_on_demand]: the upgrade fills the window with
    exactly the proposers Electra would elect slot by slot. *)

From stdpp Require Import gmap sorting.
From Stdlib Require Import ZArith Lia.
From S2P Require Import ForkSchedule Prelude SszCodec SszBitfield SszTypes Merkle SszTree Shuffling Spec BeaconState Invariant Roots Accessors Mutators Justification Rewards EpochUpdates Operations Transition Genesis Forks ForkInvariant Altair AltairFacts AltairOps Electra Withdrawals ElectraQueues PendingDeposits ElectraEpoch ElectraBody ElectraOps ElectraBlock ElectraTransition ForkUpgrades Fulu.
Open Scope Z_scope.

(** ** Elections *)
Section elections.
  Context `{Crypto} `{Sp : BeaconSpec} `{Fs : ForkSpec} `{!SpecOk Sp}.
  Implicit Types s : ElectraState.

(** The state seen at another slot. *)
Definition at_slot s (t : Z) : ElectraState := el_with_base s (with_slot s t).

Lemma loop_nat_returns {S R} (step : S -> S + R) n x r : loop_nat step n x = inr r -> exists y, step y = inr r.
Proof.
  revert x. induction n as [|n IH]; intros x; cbn; [done|]. destruct (step x) as [x'|r'] eqn:Hx; [apply IH|].
  intros [= ->]. by exists x.
Qed.

(** An elected proposer is one of the candidates and has a place in the registry. *)
Lemma elected_candidate s indices seed i :
  compute_proposer_index_electra s indices seed = Ok i -> i ∈ indices /\ is_Some (validators s !! Z.to_nat i).
Proof.
  unfold compute_proposer_index_electra. case_match; [done|]. rewrite loop_upto_nat.
  destruct (loop_nat _ _ _) as [|r] eqn:Hloop; [done|]. intros ->.
  apply loop_nat_returns in Hloop as (y & Hy). revert Hy.
  destruct (candidate_electra _ _ _ _) as [[c []]| |] eqn:Hc; try done. intros [= ->].
  unfold candidate_electra in Hc. case_match; [done|].
  apply bind_Ok_inv in Hc as (sh & _ & (c & Hi & (part & _ & (eb & (v & Hv & _)%bind_Ok_inv & [= <- _])%bind_Ok_inv)%bind_Ok_inv)%bind_Ok_inv).
  split; [|unfold expect in Hv; by destruct (validators s !! _)].
  apply index_Ok_iff in Hi as [_ Hi]. by eapply list_elem_of_lookup_2.
Qed.

Definition member s (i : Z) : Prop := 0 <= i < num_validators s.

Lemma elected_member s epoch seed i :
  compute_proposer_index_electra s (get_active_validator_indices s epoch) seed = Ok i -> member s i.
Proof.
  intros [(Hi & _)%elem_of_active Hv]%elected_candidate. split; [done|].
  apply lookup_lt_is_Some in Hv. unfold num_validators, zlen. lia.
Qed.

Lemma on_demand_member s i : get_beacon_proposer_index_electra s = Ok i -> member s i.
Proof. unfold get_beacon_proposer_index_electra. cbv zeta. apply elected_member. Qed.

(** The election of a whole epoch is the election of each of its slots. *)
Definition epoch_fits (epoch : Z) : Prop := 0 <= epoch /\ (epoch + 1) * SLOTS_PER_EPOCH <= U64.

Lemma start_slot_small epoch i :
  epoch_fits epoch -> 0 <= i < SLOTS_PER_EPOCH ->
  wadd (compute_start_slot_at_epoch epoch SLOTS_PER_EPOCH) i = epoch * SLOTS_PER_EPOCH + i.
Proof.
  intros [He Hu] Hi. unfold compute_start_slot_at_epoch. rewrite wmul_small, wadd_small; nia.
Qed.

Lemma election_at s epoch i :
  epoch_fits epoch -> 0 <= i < SLOTS_PER_EPOCH ->
  compute_proposer_index_electra s (get_active_validator_indices s epoch)
    (sha256 (get_seed s epoch DOMAIN_BEACON_PROPOSER ++
       to_le_bytes 8 (wadd (compute_start_slot_at_epoch epoch SLOTS_PER_EPOCH) i))) =
  get_beacon_proposer_index_electra (at_slot s (epoch * SLOTS_PER_EPOCH + i)).
Proof.
  intros He Hi. rewrite start_slot_small by done. unfold get_beacon_proposer_index_electra.
  assert (get_current_epoch (at_slot s (epoch * SLOTS_PER_EPOCH + i)) = epoch) as ->; [|done].
  unfold get_current_epoch, compute_epoch_at_slot. cbn. rewrite Z.div_add_l by lia.
  rewrite Z.div_small by lia. lia.
Qed.

Lemma elected_epoch s epoch l :
  epoch_fits epoch ->
  get_beacon_proposer_indices s epoch = Ok l <->
  zlen l = SLOTS_PER_EPOCH /\
  forall i p, 0 <= i -> l !! Z.to_nat i = Some p ->
    get_beacon_proposer_index_electra (at_slot s (epoch * SLOTS_PER_EPOCH + i)) = Ok p.
Proof.
  intros He. unfold get_beacon_proposer_indices, compute_proposer_indices. cbv zeta.
  rewrite mapM_Ok_Forall2, Forall2_lookup. pose proof slots_per_epoch_gt0 as Hspe. split.
  - intros Hl. assert (length l = Z.to_nat SLOTS_PER_EPOCH) as Hlen.
    { rewrite <- (length_seqZ 0 SLOTS_PER_EPOCH). symmetry. apply (Forall2_length (fun _ _ => True)).
      apply Forall2_lookup. intros i. specialize (Hl i). destruct Hl; by constructor. }
    split; [unfold zlen; lia|]. intros i p Hi Hp. pose proof (lookup_lt_Some _ _ _ Hp).
    specialize (Hl (Z.to_nat i)). rewrite Hp, lookup_seqZ_lt in Hl by lia. inversion Hl as [? ? Hx|]; subst.
    rewrite Z2Nat.id, Z.add_0_l in Hx by lia. by rewrite election_at in Hx by (done || lia).
  - intros [Hlen Hl] i. destruct (l !! i) as [p|] eqn:Hp.
    + pose proof (lookup_lt_Some _ _ _ Hp). unfold zlen in Hlen. rewrite lookup_seqZ_lt by lia. constructor.
      rewrite Z.add_0_l, election_at by (done || lia). apply Hl; [lia|]. by rewrite Nat2Z.id.
    + apply lookup_ge_None in Hp. unfold zlen in Hlen. rewrite lookup_seqZ_ge by lia. constructor.
Qed.

Lemma elected_members s epoch l :
  get_beacon_proposer_indices s epoch = Ok l -> zlen l = SLOTS_PER_EPOCH /\ Forall (member s) l.
Proof.
  unfold get_beacon_proposer_indices, compute_proposer_indices. cbv zeta. rewrite mapM_Ok_Forall2. intros Hl. split.
  - apply Forall2_length in Hl. rewrite length_seqZ in Hl. pose proof slots_per_epoch_gt0. unfold zlen. lia.
  - clear -Hl. induction Hl as [|i p k l Hp _ IH]; constructor; [|done]. by eapply elected_member.
Qed.
End elections.

(** ** The invariant *)
Section steps.
  Context `{Crypto} `{Sp : BeaconSpec} `{Fs : ForkSpec} `{Aggregation} `{Bs : BlockSpec} `{Us : FuluSpec}.
  Context `{!SpecOk Sp} `{!ForkSpecOk Sp Fs} `{!FuluSpecOk Sp Us}.
  Implicit Types s : FuluState.

Record fulu_ok s : Prop := {
  fo_electra : electra_ok s;
  fo_window : zlen (fu_proposer_lookahead s) = LOOKAHEAD_WINDOW;
  fo_members : Forall (member s) (fu_proposer_lookahead s);
}.

Lemma window_bounds : SLOTS_PER_EPOCH <= LOOKAHEAD_WINDOW.
Proof. rewrite lookahead_window. pose proof slots_per_epoch_gt0. pose proof seed_lookahead. nia. Qed.

Lemma window_entry s i :
  fulu_ok s -> 0 <= i < LOOKAHEAD_WINDOW -> exists p, fu_proposer_lookahead s !! Z.to_nat i = Some p /\ member s p.
Proof.
  intros [_ Hw Hm] Hi. unfold zlen in Hw.
  destruct (lookup_lt_is_Some_2 (fu_proposer_lookahead s) (Z.to_nat i)) as [p Hp]; [lia|].
  exists p. split; [done|]. by eapply Forall_lookup_1.
Qed.

(** The proposer of a slot, as the window has it. *)
Definition window_proposer s (t : Z) : option Z :=
  fu_proposer_lookahead s !! Z.to_nat (t - get_current_epoch s * SLOTS_PER_EPOCH).

Lemma slot_offset s : slot s - get_current_epoch s * SLOTS_PER_EPOCH = slot s mod SLOTS_PER_EPOCH.
Proof. unfold get_current_epoch, compute_epoch_at_slot. rewrite Z.mod_eq by (pose proof slots_per_epoch_gt0; lia). lia. Qed.

Lemma fulu_proposer_entry s :
  fulu_ok s -> window_proposer s (slot s) = Some (get_beacon_proposer_index_fulu s) /\
  member s (get_beacon_proposer_index_fulu s).
Proof.
  intros Hs. unfold window_proposer, get_beacon_proposer_index_fulu. rewrite slot_offset.
  pose proof (Z.mod_pos_bound (slot s) _ slots_per_epoch_gt0). pose proof window_bounds.
  destruct (window_entry s (slot s mod SLOTS_PER_EPOCH) Hs) as (p & -> & Hp); [lia|]. done.
Qed.

Lemma members_grow (s s' : ElectraState) l :
  num_validators s <= num_validators s' -> Forall (member s) l -> Forall (member s') l.
Proof. intros Hn Hl. eapply Forall_impl; [exact Hl|]. intros i []. split; lia. Qed.

(** A new Electra part whose registry has not shrunk. *)
Lemma fulu_ok_electra s (e : ElectraState) :
  fulu_ok s -> electra_ok e -> num_validators s <= num_validators e -> fulu_ok (fu_with_electra s e).
Proof. intros [_ Hw Hm] He Hn. split; [done..|]. by eapply members_grow. Qed.

(** ** Epochs *)
Lemma epoch_registry_grows (s s' : ElectraState) :
  electra_ok s -> process_epoch_electra s = Ok s' -> num_validators s <= num_validators s'.
Proof.
  intros Hs Hs'. destruct (process_epoch_electra_Ok s s' Hs Hs') as
    (a & s1 & s2 & s3 & s4 & Ha & -> & _ & [_ _ _ [n Hn]] & -> & [_ _ _ [m Hm]] & Hok' & _ & _ & Hp & _).
  pose proof (ao_previous_length _ _ (eo_altair _ Hok')) as Hl. rewrite Hp, Hm in Hl.
  assert (al_current_epoch_participation a = al_current_epoch_participation s) as Hcur.
  { destruct (altair_jf_cases _ _ Ha) as [[_ ->]|(_ & b & (? & ? & -> & _)%weigh_spec & ->)]; done. }
  match type of Hm with _ = ?x ++ _ => change x with (al_current_epoch_participation s2) in Hl end.
  rewrite Hn in Hl. match type of Hn with _ = ?x ++ _ => change x with (al_current_epoch_participation a) in Hl end.
  rewrite Hcur, !length_app in Hl. pose proof (ao_current_length _ _ (eo_altair _ Hs)).
  unfold num_validators, zlen. lia.
Qed.

Lemma shifted_length (l tail : list Z) :
  zlen l = LOOKAHEAD_WINDOW -> zlen tail = SLOTS_PER_EPOCH ->
  zlen (drop (Z.to_nat SLOTS_PER_EPOCH) l ++ tail) = LOOKAHEAD_WINDOW.
Proof. intros Hl Ht. pose proof slots_per_epoch_gt0. pose proof window_bounds. unfold zlen in *. rewrite length_app, length_drop. lia. Qed.

(** The window one epoch later. *)
Definition window_moves s s' : Prop :=
  exists tail, get_beacon_proposer_indices s' (get_current_epoch s + MIN_SEED_LOOKAHEAD + 1) = Ok tail /\
    fu_proposer_lookahead s' = drop (Z.to_nat SLOTS_PER_EPOCH) (fu_proposer_lookahead s) ++ tail.

Lemma lookahead_Ok s s' :
  u64 (slot s) -> process_proposer_lookahead s = Ok s' ->
  fu_electra s' = fu_electra s /\ window_moves s s' /\ zlen (fu_proposer_lookahead s') = LOOKAHEAD_WINDOW.
Proof.
  intros Hu (tail & Htail%map_err_Ok & (next & Hnext%map_err_Ok & [= <-])%bind_Ok_inv)%bind_Ok_inv.
  unfold lookahead_from_vec in Hnext. destruct (Z.eqb_spec (zlen (drop (Z.to_nat SLOTS_PER_EPOCH) (fu_proposer_lookahead s) ++ tail)) LOOKAHEAD_WINDOW); [|done].
  injection Hnext as <-. split; [done|]. split; [|done]. exists tail. split; [|done].
  pose proof (epoch_at_range s Hu). pose proof historical_vector_pos. pose proof seed_lookahead as [? _].
  change (compute_epoch_at_slot (slot s) SLOTS_PER_EPOCH) with (get_current_epoch s) in Htail.
  rewrite wadd_small, wadd_small in Htail by (rewrite ?wadd_small; unfold U64; lia). done.
Qed.

Lemma epoch_fulu_Ok s s' :
  fulu_ok s -> checkpoints_ordered s -> process_epoch_fulu s = Ok s' ->
  process_epoch_electra s = Ok (fu_electra s') /\ fulu_ok s' /\ window_moves s s'.
Proof.
  intros Hs Ho. unfold process_epoch_fulu. rewrite (proj1 (fulu_electra_lens s s)).
  intros (e & He & Hl)%bind_Ok_inv. rewrite (proj2 (fulu_electra_lens s e)) in Hl.
  destruct (electra_epoch_progress s e (fo_electra s Hs) Ho He) as (Hok & Hslot & _).
  pose proof (epoch_registry_grows s e (fo_electra s Hs) He) as Hn.
  apply lookahead_Ok in Hl as (Ee & (tail & Htail & Hla) & Hw);
    [|change (u64 (slot e)); apply (bo_slot _ _ (electra_base e Hok))].
  change (fu_electra (fu_with_electra s e)) with e in Ee. rewrite Ee in *.
  assert (get_current_epoch e = get_current_epoch s) as Hep by (unfold get_current_epoch; by rewrite Hslot).
  change (get_current_epoch (fu_with_electra s e)) with (get_current_epoch e) in Htail. rewrite Hep in Htail.
  change (fu_proposer_lookahead (fu_with_electra s e)) with (fu_proposer_lookahead s) in Hla.
  split; [done|]. split.
  - split; [by rewrite Ee|done|]. rewrite Hla, Ee. apply Forall_app. split.
    + apply Forall_drop. eapply members_grow; [done|apply Hs].
    + by apply elected_members in Htail as [_ ?].
  - exists tail. rewrite Ee. done.
Qed.

(** The length of the window is never the reason to fail. *)
Lemma lookahead_total s tail :
  zlen (fu_proposer_lookahead s) = LOOKAHEAD_WINDOW -> u64 (slot s) ->
  get_beacon_proposer_indices s (get_current_epoch s + MIN_SEED_LOOKAHEAD + 1) = Ok tail ->
  process_proposer_lookahead s =
    Ok (fu_with_lookahead s (drop (Z.to_nat SLOTS_PER_EPOCH) (fu_proposer_lookahead s) ++ tail)).
Proof.
  intros Hw Hu Ht. unfold process_proposer_lookahead.
  pose proof (epoch_at_range s Hu). pose proof historical_vector_pos. pose proof seed_lookahead as [? _].
  change (compute_epoch_at_slot (slot s) SLOTS_PER_EPOCH) with (get_current_epoch s).
  rewrite wadd_small, wadd_small by (rewrite ?wadd_small; unfold U64; lia). rewrite Ht. cbn [map_err mbind result_bind].
  apply elected_members in Ht as [Ht _]. unfold lookahead_from_vec.
  by rewrite (proj2 (Z.eqb_eq _ _) (shifted_length _ _ Hw Ht)).
Qed.

(** ** Slots *)
Lemma process_slot_fulu_Ok s s' :
  process_slot_fulu s = Ok s' ->
  exists sr br, fulu_state_root s = Ok sr /\ header_root (completed_header s sr) = Ok br /\
    s' = fu_with_electra s (recorded s sr br).
Proof.
  unfold process_slot_fulu, completed_header, recorded.
  intros (sr & Hsr%root_value_Ok & (s1 & (e1 & (a1 & (b1 & [_ ->]%set_state_root_Ok & [= <-])%bind_Ok_inv & [= <-])%bind_Ok_inv & [= <-])%bind_Ok_inv & Hs)%bind_Ok_inv)%bind_Ok_inv.
  exists sr. cbn in Hs. apply bind_Ok_inv in Hs as ([s2 br] & H2 & (e2 & (a2 & (b2 & [_ ->]%set_block_root_Ok & [= <-])%bind_Ok_inv & [= <-])%bind_Ok_inv & [= <-])%bind_Ok_inv).
  unfold completed_header. case_bool_decide as Hz; apply bind_Ok_inv in H2 as (r & Hr%root_value_Ok & [= <- <-]); exists r.
  - by rewrite !bool_decide_true by done.
  - rewrite !bool_decide_false by done. split_and!; [done|done|].
    by destruct s as [[[[[] ? ? ? ? ?] ? ? ? ?] ? ? ? ? ? ? ? ? ?] ?].
Qed.

(** What a slot does to the window. *)
Definition window_after s s' : Prop :=
  if (slot s + 1) mod SLOTS_PER_EPOCH =? 0 then window_moves s s'
  else fu_proposer_lookahead s' = fu_proposer_lookahead s.

Lemma slot_step_fulu_Ok s s' :
  fulu_ok s -> checkpoints_ordered s -> slot s + 1 < U64 -> slot_step_fulu s = Ok s' ->
  slot s' = slot s + 1 /\ electra_progress s s' /\ fulu_ok s' /\ window_after s s' /\
  exists br, header_root (latest_block_header s') = Ok br /\
    block_roots s' !! Z.to_nat (slot s mod SLOTS_PER_HISTORICAL_ROOT) = Some br.
Proof.
  intros Hs Ho Hu (s1 & (sr & br & _ & Hbr & ->)%process_slot_fulu_Ok & (s2 & H2 & [= <-])%bind_Ok_inv)%bind_Ok_inv.
  pose proof (fo_electra s Hs) as He. pose proof (bo_slot _ _ (electra_base s He)) as [Hs0 _].
  set (s1 := fu_with_electra s (recorded s sr br)) in *.
  assert (fulu_ok s1) as Hs1 by (by apply fulu_ok_electra; [|apply recorded_ok|]).
  change (slot (fu_electra s1)) with (slot s) in H2. rewrite wadd_small in H2 by lia.
  assert (epoch_end (recorded s sr br) (fu_electra s2) /\ fulu_ok s2 /\ window_after s s2) as (Hend & Hs2 & Hw).
  { unfold epoch_end, window_after. change (slot (recorded s sr br)) with (slot s).
    case_match; [|by injection H2 as <-]. by apply map_err_Ok, epoch_fulu_Ok in H2. }
  destruct (recorded_ticked s sr br s2 He Ho Hu Hbr Hend) as (E2 & Et & Hp & Hroot).
  change (slot (fu_electra s2)) with (slot s2). rewrite E2, wadd_small by lia. rewrite <- E2.
  change (el_with_base (fu_electra s2) _) with (ticked s2).
  split; [by rewrite E2|]. split; [done|]. split; [apply fulu_ok_electra; [done|apply Hp|done]|]. split; [done|].
  by rewrite E2.
Qed.

Lemma slot_window s s' t :
  fulu_ok s -> slot s' = slot s + 1 -> window_after s s' ->
  get_current_epoch s' * SLOTS_PER_EPOCH <= t < (get_current_epoch s + MIN_SEED_LOOKAHEAD + 1) * SLOTS_PER_EPOCH ->
  window_proposer s' t = window_proposer s t.
Proof.
  intros Hs Hslot Hw Ht. pose proof slots_per_epoch_gt0. unfold window_proposer, window_after in *.
  assert (get_current_epoch s' = (slot s + 1) / SLOTS_PER_EPOCH) as He.
  { unfold get_current_epoch, compute_epoch_at_slot. by rewrite Hslot. }
  destruct (Z.eqb_spec ((slot s + 1) mod SLOTS_PER_EPOCH) 0) as [Hm|Hm].
  - destruct Hw as (tail & _ & ->). rewrite He, next_slot_epoch in * by done.
    pose proof (fo_window s Hs) as Hl. rewrite lookahead_window in Hl. unfold zlen in Hl.
    rewrite lookup_app_l by (rewrite length_drop; nia). rewrite lookup_drop. f_equal. lia.
  - rewrite He, same_epoch in * by done. by rewrite Hw.
Qed.

(** ** Blocks *)

(** The configuration with the blob limit of the state's epoch. *)
Definition limit_at (s : ElectraState) (cfg : FuluConfig) : RuntimeConfig :=
  mkRuntimeConfig (seconds_per_slot cfg)
    (bp_max_blobs_per_block (get_blob_parameters (get_current_epoch s) (fc_blob_schedule cfg)
       (fc_electra_fork_epoch cfg) (max_blobs_per_block_electra cfg)))
    (capella_fork_version cfg).

(** The payload step is that of Electra under the scheduled limit. *)
Lemma payload_fulu_Ok `{ExecutionEngine} s body cfg s' st :
  process_execution_payload_fulu s body cfg = Ok (s', st) ->
  exists e, process_execution_payload s body (limit_at s cfg) = Ok (e, st) /\ s' = fu_with_electra s e.
Proof.
  unfold process_execution_payload_fulu, process_execution_payload, limit_at, get_current_epoch.
  cbn [seconds_per_slot max_blobs_per_block_electra]. cbv zeta.
  do 5 (case_match; [done|]). intros (tr & -> & (wr & -> & Heq)%bind_Ok_inv)%bind_Ok_inv. injection Heq as <- <-.
  eexists. split; [reflexivity|done].
Qed.

Lemma on_electra_Ok f s s' : on_electra f s = Ok s' -> exists e, f (fu_electra s) = Ok e /\ s' = fu_with_electra s e.
Proof.
  unfold on_electra. rewrite (proj1 (fulu_electra_lens s s)). intros (e & He & [= <-])%bind_Ok_inv.
  exists e. split; [done|]. apply fulu_electra_lens.
Qed.

Lemma appends_registry `{ExecutionEngine} (s : ElectraState) block cfg (s' : ElectraState) st :
  appends s block cfg s' st -> num_validators s <= num_validators s'.
Proof.
  intros Happ. pose proof (xt_registry _ _ _ _ _ Happ) as Hr. unfold num_validators, zlen.
  destruct (decide (length (validators s) <= length (validators s'))%nat) as [|Hlt]; [lia|].
  destruct (lookup_lt_is_Some_2 (validators s) (length (validators s'))) as [v Hv]; [lia|].
  apply Hr in Hv as (v' & Hv' & _). apply lookup_lt_Some in Hv'. lia.
Qed.

(** The window names the proposer, whose key the reveal was checked with. *)
Definition reveal_checked s (block : ElectraBlock) : Prop :=
  exists v domain signing_root,
    v_pubkey <$> validators s !! Z.to_nat (ebl_proposer_index block) = Some v /\
    get_domain (E:=StateTransitionError) s DOMAIN_RANDAO (Some (get_current_epoch s)) = Ok domain /\
    compute_signing_root (E:=StateTransitionError) (u64_root (get_current_epoch s)) domain = Ok signing_root /\
    bls_verify v signing_root (eb_randao_reveal (ebl_body block)) = Some true.

Lemma reveal_Ok s p reveal u :
  check_randao_reveal_fulu s p reveal = Ok u ->
  exists v domain signing_root, v_pubkey <$> validators s !! Z.to_nat p = Some v /\
    get_domain (E:=StateTransitionError) s DOMAIN_RANDAO (Some (get_current_epoch s)) = Ok domain /\
    compute_signing_root (E:=StateTransitionError) (u64_root (get_current_epoch s)) domain = Ok signing_root /\
    bls_verify v signing_root reveal = Some true.
Proof.
  intros (v & Hv%ok_or_Ok & (d & Hd & (r & Hr & Hb)%bind_Ok_inv)%bind_Ok_inv)%bind_Ok_inv.
  exists (v_pubkey v), d, r. change (validators (al_base (de_altair (el_deneb (fu_electra s))))) with (validators s) in Hv.
  rewrite Hv. split_and!; try done. by destruct (bls_verify _ _ _) as [[]|].
Qed.

(** What a block of Fulu does: the block of Electra, by the proposer of the window, which stays. *)
Record fulu_extends `{ExecutionEngine} s block cfg s' st : Prop := {
  fx_proposer : window_proposer s (slot s) = Some (ebl_proposer_index block);
  fx_window : fu_proposer_lookahead s' = fu_proposer_lookahead s;
  fx_appends :> appends s block (limit_at s cfg) s' st;
}.

Lemma process_block_fulu_Ok `{BatchVerification} `{ExecutionEngine} `{!CryptoOk _} s block verify cfg s' st :
  fulu_ok s -> next_index_ok s -> body_ok (ebl_body block) -> process_block_fulu s block verify cfg = Ok (s', st) ->
  fulu_ok s' /\ fulu_extends s block cfg s' st /\ (verify = true -> reveal_checked s block).
Proof.
  intros Hs Hx Hb (root & Hroot & (s1 & (e1 & He1 & ->)%on_electra_Ok & (s2 & (e2 & He2 & ->)%on_electra_Ok & ([s3 st'] & Hs3 &
    (u & Hu & (s4 & (e4 & He4 & ->)%on_electra_Ok & (s5 & (e5 & He5 & ->)%on_electra_Ok & (s6 & (e6 & He6 & ->)%on_electra_Ok &
    [= <- <-])%bind_Ok_inv)%bind_Ok_inv)%bind_Ok_inv)%bind_Ok_inv)%bind_Ok_inv)%bind_Ok_inv)%bind_Ok_inv)%bind_Ok_inv.
  pose proof (fo_electra s Hs) as He. destruct (fulu_proposer_entry s Hs) as [Hwp Hmem].
  assert (0 < num_validators s) as Hn by (destruct Hmem; lia).
  pose proof (block_header_Ok _ _ _ _ _ He1) as (_ & _ & Hprop & _ & _ & E1). injection Hprop as Hprop.
  apply payload_fulu_Ok in Hs3 as (e3 & Hs3 & ->). cbn [fu_electra fu_with_electra] in *.
  apply bind_Ok_inv in He4 as (a1 & Ha1 & (a2 & Ha2 & [= <-])%bind_Ok_inv).
  assert (slot e2 = slot s /\ validators e2 = validators s /\ fork e2 = fork s /\ genesis_validators_root e2 = genesis_validators_root s)
    as (Eslot & Evals & Efork & Egvr).
  { rewrite E1 in He2. apply withdrawals_step in He2 as (_ & k & c & _ & ->); [done|by apply with_header_ok|done|done]. }
  assert (limit_at e2 cfg = limit_at s cfg) as Elim by (unfold limit_at, get_current_epoch; by rewrite Eslot).
  pose proof (payload_Ok _ _ _ _ _ Hs3) as (_ & _ & _ & h & _ & E3). rewrite Elim in Hs3.
  destruct (steps_append s block verify (Some (get_beacon_proposer_index_fulu s)) (limit_at s cfg) cfg root e1 e2 e3 st' a1 a2 e5 e6)
    as [Hok Happ]; try done.
  { unfold root_value in Hroot. destruct (electra_body_root _); by simplify_eq. }
  split; [|split].
  - apply (fulu_ok_electra s); [done|done|]. by eapply appends_registry.
  - split; [by rewrite Hwp, Hprop|done|done].
  - intros ->. apply reveal_Ok in Hu as (v & d & r & Hv & Hd & Hr & Hbls). rewrite Hprop in Hv. subst e3.
    exists v, d, r. cbn in Hv, Hd, Hr, Hbls. unfold get_domain, get_current_epoch in *. cbn in *.
    rewrite ?Eslot, ?Evals, ?Efork, ?Egvr in *. done.
Qed.
End steps.

(** ** Runs: slots and blocks in any order *)
Section runs.
  Context `{Crypto} `{Sp : BeaconSpec} `{Fs : ForkSpec} `{Aggregation} `{Bs : BlockSpec} `{Us : FuluSpec}.
  Context `{BatchVerification} `{ExecutionEngine}.
  Context `{!CryptoOk _} `{!SpecOk Sp} `{!ForkSpecOk Sp Fs} `{!FuluSpecOk Sp Us}.
  Implicit Types s : FuluState.
  Implicit Types cfg : FuluConfig.

(** A slot passes, or a block is accepted.  The guards say that the slot number and
    the withdrawal counter have room. *)
Inductive fulu_step cfg s : FuluState -> Prop :=
  | step_slot s' : slot s + 1 < U64 -> slot_step_fulu s = Ok s' -> fulu_step cfg s s'
  | step_block block verify s' st :
      next_index_ok s -> body_ok (ebl_body block) -> process_block_fulu s block verify cfg = Ok (s', st) ->
      fulu_step cfg s s'.
Definition fulu_run cfg : FuluState -> FuluState -> Prop := rtc (fulu_step cfg).

Lemma clock_ordered (s s' : ElectraState) :
  clock_fields s' = clock_fields s -> checkpoints_ordered s -> checkpoints_ordered s' /\ slot s' = slot s.
Proof.
  intros Hc Ho. injection Hc as _ _ Es _ _ _ _ _ Ep Ej Ef _ _ _.
  split; [|done]. unfold checkpoints_ordered, get_previous_epoch, get_current_epoch in *. by rewrite Es, Ep, Ej, Ef.
Qed.

Lemma step_Ok cfg s s' :
  fulu_ok s -> checkpoints_ordered s -> fulu_step cfg s s' ->
  fulu_ok s' /\ checkpoints_ordered s' /\ slot s <= slot s' /\
  forall t, get_current_epoch s' * SLOTS_PER_EPOCH <= t < (get_current_epoch s + MIN_SEED_LOOKAHEAD + 1) * SLOTS_PER_EPOCH ->
    window_proposer s' t = window_proposer s t.
Proof.
  intros Hs Ho [s1 Hu Hstep|block verify s1 st Hx Hb Hblock].
  - apply slot_step_fulu_Ok in Hstep as (Hslot & Hp & Hok & Hw & _); [|done..].
    split; [done|]. split; [apply Hp|]. split; [lia|]. intros t. by apply slot_window.
  - apply process_block_fulu_Ok in Hblock as (Hok & [_ Hla Happ] & _); [|done..].
    destruct (clock_ordered _ _ (xt_clock _ _ _ _ _ Happ) Ho) as [Ho1 Hslot].
    split; [done|]. split; [done|]. split; [lia|]. intros t _. unfold window_proposer, get_current_epoch.
    by rewrite Hla, Hslot.
Qed.

Lemma epoch_mono (s s' : BeaconState) : slot s <= slot s' -> get_current_epoch s <= get_current_epoch s'.
Proof. intros Hle. unfold get_current_epoch, compute_epoch_at_slot. apply Z.div_le_mono; [apply slots_per_epoch_gt0|done]. Qed.

Lemma run_Ok cfg s s' :
  fulu_run cfg s s' -> fulu_ok s -> checkpoints_ordered s ->
  fulu_ok s' /\ checkpoints_ordered s' /\ slot s <= slot s' /\
  forall t, get_current_epoch s' * SLOTS_PER_EPOCH <= t < (get_current_epoch s + MIN_SEED_LOOKAHEAD + 1) * SLOTS_PER_EPOCH ->
    window_proposer s' t = window_proposer s t.
Proof.
  induction 1 as [s|s s1 s' Hstep _ IH]; intros Hs Ho; [by split_and!|].
  destruct (step_Ok cfg s s1 Hs Ho Hstep) as (Hs1 & Ho1 & Hle & Hw). destruct (IH Hs1 Ho1) as (Hs' & Ho' & Hle' & Hw').
  split_and!; [done|done|lia|]. pose proof slots_per_epoch_gt0.
  pose proof (epoch_mono s s1 Hle). pose proof (epoch_mono s1 s' Hle').
  intros t Ht. rewrite Hw' by nia. apply Hw. nia.
Qed.

(** C1: proposers are known ahead.  Whatever slots pass and whatever blocks are
    accepted, the proposer of a slot inside the window of a state is the member of the
    registry that the window names: a later state still names it, the code reads it as
    the proposer when the slot comes, and a block accepted in that slot is from it. *)
Theorem proposers_known_ahead cfg s s' t :
  fulu_ok s -> checkpoints_ordered s -> fulu_run cfg s s' ->
  get_current_epoch s' * SLOTS_PER_EPOCH <= t < (get_current_epoch s + MIN_SEED_LOOKAHEAD + 1) * SLOTS_PER_EPOCH ->
  fulu_ok s' /\
  exists p, window_proposer s t = Some p /\ window_proposer s' t = Some p /\ member s p /\
    (slot s' = t -> get_beacon_proposer_index_fulu s' = p) /\
    (forall block verify s2 st, slot s' = t -> next_index_ok s' -> body_ok (ebl_body block) ->
       process_block_fulu s' block verify cfg = Ok (s2, st) -> ebl_proposer_index block = p).
Proof.
  intros Hs Ho Hrun Ht. destruct (run_Ok cfg s s' Hrun Hs Ho) as (Hs' & _ & Hle & Hw). split; [done|].
  pose proof slots_per_epoch_gt0. pose proof (epoch_mono s s' Hle).
  destruct (window_entry s (t - get_current_epoch s * SLOTS_PER_EPOCH) Hs) as (p & Hp & Hm); [rewrite lookahead_window; nia|].
  change (window_proposer s t = Some p) in Hp. exists p. rewrite (Hw t Ht). split_and!; try done.
  - intros <-. destruct (fulu_proposer_entry s' Hs') as [Hw' _]. rewrite (Hw _ Ht), Hp in Hw'. by injection Hw'.
  - intros block verify s2 st <- Hx Hb Hblock.
    apply process_block_fulu_Ok in Hblock as (_ & [Hw' _ _] & _); [|done..].
    rewrite (Hw _ Ht), Hp in Hw'. by injection Hw'.
Qed.

(** ** The state transition *)
Lemma slots_loop_fulu_Ok cfg fuel target s s' :
  fulu_ok s -> checkpoints_ordered s -> target < U64 -> Z.of_nat fuel = target - slot s ->
  slots_loop_fulu fuel target s = Ok s' ->
  slot s' = target /\ electra_progress s s' /\ fulu_ok s' /\ fulu_run cfg s s' /\ (slot s < target -> last_root_recorded s').
Proof.
  revert s. induction fuel as [|fuel IH]; intros s Hs Ho Ht Hfuel Hs'; cbn in Hs'.
  { injection Hs' as <-. pose proof (fo_electra s Hs). split; [lia|]. split; [by constructor|]. split; [done|]. split; [done|lia]. }
  destruct (Z.ltb_spec (slot s) target); [|lia]. apply bind_Ok_inv in Hs' as (s1 & Hstep & Hs').
  assert (fulu_step cfg s s1) as Hst by (apply step_slot; [lia|done]).
  apply slot_step_fulu_Ok in Hstep as (Hslot & Hp & Hs1 & _ & br & Hh & Hr); [|done|done|lia].
  destruct (IH s1) as (E1 & Hp1 & Hok & Hrun & Hrec); [done|apply Hp|done|lia|done|].
  split; [done|]. split; [by eapply electra_progress_trans|]. split; [done|]. split; [by eapply rtc_l|]. intros _.
  destruct fuel as [|fuel]; [|apply Hrec; lia].
  cbn in Hs'. injection Hs' as <-. exists br. split; [done|]. by rewrite Hslot, Z.add_simpl_r.
Qed.

Lemma process_slots_fulu_Ok cfg target s s' :
  fulu_ok s -> checkpoints_ordered s -> target < U64 -> process_slots_fulu_with_cfg s target = Ok s' ->
  slot s <= target /\ slot s' = target /\ electra_progress s s' /\ fulu_ok s' /\ fulu_run cfg s s' /\
  (slot s < target -> last_root_recorded s').
Proof.
  intros Hs Ho Ht. unfold process_slots_fulu_with_cfg. destruct (Z.ltb_spec target (slot s)); [done|].
  intros Hs'. split; [done|]. by eapply slots_loop_fulu_Ok; [..|exact Hs']; [done..|lia].
Qed.

(** C2: the state transition of Fulu.  A block accepted with validation is from the
    proposer the window names for its slot, who is not slashed and whose key verifies
    both the block's signature and its reveal; the resulting state extends the one reached at the
    block's slot by the block, with the blob limit of that epoch; it has the state root
    the block claims, is well formed with its checkpoints in order, has the same
    window, and has lost nothing that was finalized or justified.  If slots
    were processed, the parent the block names is the root recorded for the slot before
    it. *)
Theorem fulu_transition_sound s sb cfg s' status :
  fulu_ok s -> checkpoints_ordered s -> next_index_ok s -> u64 (ebl_slot (seb_message sb)) ->
  body_ok (ebl_body (seb_message sb)) ->
  fulu_state_transition s sb true cfg = Ok (s', status) ->
  let b := seb_message sb in
  fulu_ok s' /\ checkpoints_ordered s' /\ slot s' = ebl_slot b /\ fulu_run cfg s s' /\
  fulu_state_root s' = Ok (ebl_state_root b) /\
  cp_epoch (finalized_checkpoint s) <= cp_epoch (finalized_checkpoint s') /\
  cp_epoch (current_justified_checkpoint s) <= cp_epoch (current_justified_checkpoint s') /\
  exists s1, process_slots_fulu_with_cfg s (ebl_slot b) = Ok s1 /\ fulu_extends s1 b cfg s' status /\
    reveal_checked s1 b /\
    (exists v domain signing_root,
       validators s1 !! Z.to_nat (ebl_proposer_index b) = Some v /\ v_slashed v = false /\
       get_domain (E:=StateTransitionError) s1 DOMAIN_BEACON_PROPOSER None = Ok domain /\
       compute_signing_root (E:=StateTransitionError) (electra_block_root b) domain = Ok signing_root /\
       bls_verify (v_pubkey v) signing_root (seb_signature sb) = Some true) /\
    (slot s < ebl_slot b ->
       block_roots s1 !! Z.to_nat ((ebl_slot b - 1) mod SLOTS_PER_HISTORICAL_ROOT) = Some (ebl_parent_root b)).
Proof.
  intros Hs Ho Hx [_ Hsl] Hb (s1 & Hs1 & (u1 & Hsig & ([s2 st] & Hs2 & (u2 & Hroot & [= <- <-])%bind_Ok_inv)%bind_Ok_inv)%bind_Ok_inv)%bind_Ok_inv b.
  apply bind_Ok_inv in Hsig as (v & Hv%ok_or_Ok & (domain & Hdom & (sr & Hsr & Hok)%bind_Ok_inv)%bind_Ok_inv).
  apply bind_Ok_inv in Hroot as (actual & Hact%root_value_Ok & Hroot). cbv zeta in Hroot. case_bool_decide as Heq; [subst actual|done].
  destruct (process_slots_fulu_Ok cfg _ _ _ Hs Ho Hsl Hs1) as (Hle & Hslot & [_ Ho1 Hf1 Hj1 Hp1 _] & Hok1 & Hrun & Hrec).
  assert (next_index_ok s1) as Hx1 by (unfold next_index_ok; injection Hp1 as _ -> _; exact Hx).
  assert (fulu_run cfg s s2) as Hrun2 by (eapply rtc_r; [exact Hrun|by eapply step_block]).
  destruct (process_block_fulu_Ok _ _ _ _ _ _ Hok1 Hx1 Hb Hs2) as (Hok2 & Hext & Hrev).
  pose proof (xt_clock _ _ _ _ _ Hext) as Hclock. destruct (clock_ordered _ _ Hclock Ho1) as [Ho2 Es].
  injection Hclock as _ _ _ _ _ _ _ _ _ Ej Ef _ _ _.
  split_and!; rewrite ?Ef, ?Ej; try done; [by rewrite Es|].
  exists s1. split; [done|]. split; [done|]. split; [by apply Hrev|]. split.
  - exists v, domain, sr. pose proof (xt_unslashed _ _ _ _ _ Hext) as Hun.
    rewrite Hv in Hun. split_and!; try done. by destruct (bls_verify _ _ _) as [[]|].
  - intros Hlt. destruct (Hrec Hlt) as (br & Hbr & Hl). rewrite Hslot in Hl.
    rewrite (xt_parent _ _ _ _ _ Hext) in Hbr. by injection Hbr as <-.
Qed.
End runs.

(** ** The upgrade *)
Section upgrade.
  Context `{Crypto} `{Sp : BeaconSpec} `{Fs : ForkSpec} `{Aggregation} `{Us : FuluSpec}.
  Context `{!SpecOk Sp} `{!ForkSpecOk Sp Fs} `{!FuluSpecOk Sp Us}.

(** The Electra part after the upgrade: only the fork changes. *)
Definition forked (pre : ElectraState) cfg : ElectraState :=
  el_with_base pre (with_fork pre (next_fork pre (fc_fulu_fork_version cfg))).

Lemma forked_ok pre cfg : electra_ok pre -> electra_ok (forked pre cfg).
Proof.
  intros Hs. apply electra_ok_base; [done| |done]. pose proof (electra_base pre Hs) as Hb. destruct Hb.
  constructor; cbn; try done.
Qed.

Lemma padded_full (l : list Z) :
  zlen l = LOOKAHEAD_WINDOW ->
  take (Z.to_nat LOOKAHEAD_WINDOW) l ++
    replicate (Z.to_nat LOOKAHEAD_WINDOW - length (take (Z.to_nat LOOKAHEAD_WINDOW) l)) 0 = l.
Proof.
  unfold zlen. intros Hl. rewrite take_ge by lia.
  replace (Z.to_nat LOOKAHEAD_WINDOW - length l)%nat with 0%nat by lia. apply app_nil_r.
Qed.

Lemma lookahead_from_vec_full (l : list Z) : zlen l = LOOKAHEAD_WINDOW -> lookahead_from_vec l = Ok l.
Proof. intros Hl. unfold lookahead_from_vec. by rewrite (proj2 (Z.eqb_eq _ _) Hl). Qed.

(** The elections of the first epochs, each by the state itself. *)
Definition elected_window (pre : ElectraState) (w : list Z) : Prop :=
  zlen w = LOOKAHEAD_WINDOW /\
  forall i p, 0 <= i -> w !! Z.to_nat i = Some p ->
    get_beacon_proposer_index_electra (at_slot pre (get_current_epoch pre * SLOTS_PER_EPOCH + i)) = Ok p.

Definition window_fits (pre : ElectraState) : Prop :=
  (get_current_epoch pre + MIN_SEED_LOOKAHEAD + 1) * SLOTS_PER_EPOCH <= U64.

Lemma epochs_elected (pre : ElectraState) epochs :
  u64 (slot pre) -> window_fits pre ->
  mapM (fun offset => get_beacon_proposer_indices pre (sat_add (get_current_epoch pre) offset))
    (seqZ 0 (MIN_SEED_LOOKAHEAD + 1)) = Ok epochs ->
  elected_window pre (concat epochs).
Proof.
  intros Hu Hf. rewrite mapM_Ok_Forall2. intros He. pose proof slots_per_epoch_gt0 as Hspe. pose proof seed_lookahead as [? _].
  pose proof (epoch_at_range pre Hu). pose proof historical_vector_pos. unfold window_fits in Hf.
  assert (forall k l, epochs !! k = Some l -> (k < Z.to_nat (MIN_SEED_LOOKAHEAD + 1))%nat /\
    get_beacon_proposer_indices pre (get_current_epoch pre + Z.of_nat k) = Ok l) as Hk.
  { intros k l Hl. pose proof (Forall2_length _ _ _ He) as Hlen. rewrite length_seqZ in Hlen.
    pose proof (lookup_lt_Some _ _ _ Hl). split; [lia|].
    eapply Forall2_lookup_lr in He; [| |exact Hl]; [|apply lookup_seqZ_lt; lia]. cbn in He.
    unfold sat_add, u64_max in He. rewrite Z.min_l in He by (unfold U64; lia). done. }
  assert (Forall (fun l => length l = Z.to_nat SLOTS_PER_EPOCH) epochs) as Hlens.
  { apply Forall_lookup. intros k l [_ [Hl _]%elected_members]%Hk. unfold zlen in Hl. lia. }
  pose proof (concat_blocks_length epochs _ Hlens) as Hc. apply Forall2_length in He. rewrite length_seqZ in He.
  split; [unfold zlen; rewrite Hc, lookahead_window, <- He, Nat2Z.inj_mul, !Z2Nat.id by lia; lia|].
  intros i p Hi Hp. pose proof (lookup_lt_Some _ _ _ Hp) as Hlt. rewrite Hc in Hlt.
  apply Nat2Z.inj_lt in Hlt. rewrite Nat2Z.inj_mul, !Z2Nat.id in Hlt by lia.
  assert (SLOTS_PER_EPOCH <> 0) as Hne by lia. pose proof (Z.div_mod i SLOTS_PER_EPOCH Hne) as Hdm. pose proof (Z.mod_pos_bound i _ Hspe) as Hmod.
  assert (0 <= i / SLOTS_PER_EPOCH < Z.of_nat (length epochs)) as Hdiv.
  { split; [by apply Z.div_pos|]. apply Z.div_lt_upper_bound; lia. }
  destruct (lookup_lt_is_Some_2 epochs (Z.to_nat (i / SLOTS_PER_EPOCH))) as [l Hl]; [lia|].
  replace (Z.to_nat i) with (Z.to_nat (i / SLOTS_PER_EPOCH) * Z.to_nat SLOTS_PER_EPOCH + Z.to_nat (i mod SLOTS_PER_EPOCH))%nat in Hp
    by (apply Nat2Z.inj; rewrite Nat2Z.inj_add, Nat2Z.inj_mul, !Z2Nat.id by lia; lia).
  rewrite (concat_blocks_lookup _ _ _ _ l) in Hp by (done || lia).
  apply Hk in Hl as [Hlt' Hel]. rewrite Z2Nat.id in Hel by lia.
  apply elected_epoch in Hel as [_ Hel].
  2: { split; [lia|]. etransitivity; [|exact Hf]. apply Z.mul_le_mono_nonneg_r; lia. }
  specialize (Hel _ _ (proj1 Hmod) Hp).
  assert (get_current_epoch pre * SLOTS_PER_EPOCH + i =
    (get_current_epoch pre + i / SLOTS_PER_EPOCH) * SLOTS_PER_EPOCH + i mod SLOTS_PER_EPOCH) as -> by lia.
  exact Hel.
Qed.

Lemma elected_window_unique (pre : ElectraState) w1 w2 : elected_window pre w1 -> elected_window pre w2 -> w1 = w2.
Proof.
  intros [Hl1 H1'] [Hl2 H2']. unfold zlen in *. apply (list_eq_same_length _ _ (length w1)); [lia|done|].
  intros i x y _ Hx Hy. specialize (H1' (Z.of_nat i) x ltac:(lia)). specialize (H2' (Z.of_nat i) y ltac:(lia)).
  rewrite Nat2Z.id in *. specialize (H1' Hx). specialize (H2' Hy). rewrite H1' in H2'. by injection H2'.
Qed.

(** Elections that all succeed make up the window. *)
Lemma window_epochs (pre : ElectraState) w :
  u64 (slot pre) -> window_fits pre -> elected_window pre w ->
  exists epochs, mapM (fun offset => get_beacon_proposer_indices pre (sat_add (get_current_epoch pre) offset))
    (seqZ 0 (MIN_SEED_LOOKAHEAD + 1)) = Ok epochs /\ concat epochs = w.
Proof.
  intros Hu Hf Hw. pose proof slots_per_epoch_gt0 as Hspe. pose proof seed_lookahead as [? _].
  pose proof (epoch_at_range pre Hu). pose proof historical_vector_pos. pose proof Hw as [Hl Hel].
  set (part k := take (Z.to_nat SLOTS_PER_EPOCH) (drop (Z.to_nat (k * SLOTS_PER_EPOCH)) w)).
  set (epochs := part <$> seqZ 0 (MIN_SEED_LOOKAHEAD + 1)).
  assert (mapM (fun offset => get_beacon_proposer_indices pre (sat_add (get_current_epoch pre) offset))
    (seqZ 0 (MIN_SEED_LOOKAHEAD + 1)) = Ok epochs) as He.
  { apply mapM_Ok_Forall2, Forall2_fmap_r, Forall_Forall2_diag, Forall_forall. intros k [Hk0 Hk]%elem_of_seqZ.
    unfold sat_add, u64_max. rewrite Z.min_l by (unfold U64; lia).
    assert (k * SLOTS_PER_EPOCH + SLOTS_PER_EPOCH <= zlen w) as Hfit by (rewrite Hl, lookahead_window; nia).
    apply elected_epoch.
    { split; [lia|]. etransitivity; [|exact Hf]. apply Z.mul_le_mono_nonneg_r; lia. }
    unfold part. split; [unfold zlen in *; rewrite length_take, length_drop; nia|].
    intros i p Hi Hp. apply lookup_take_Some in Hp as [Hp Hlt]. rewrite lookup_drop in Hp.
    rewrite <- Z2Nat.inj_add in Hp by nia. apply Hel in Hp; [|nia].
    assert ((get_current_epoch pre + k) * SLOTS_PER_EPOCH + i =
      get_current_epoch pre * SLOTS_PER_EPOCH + (k * SLOTS_PER_EPOCH + i)) as -> by lia. exact Hp. }
  exists epochs. split; [done|]. eapply elected_window_unique; [|exact Hw]. by apply epochs_elected.
Qed.

(** C3: the upgrade to Fulu.  It succeeds exactly if Electra's election succeeds in
    every slot of the window, and then the window lists those proposers; of the other
    fields only the fork changes.  The new state is well formed, and at every
    slot of the window Fulu reads the proposer Electra would have elected. *)
Theorem upgrade_elects_on_demand (pre : ElectraState) cfg :
  electra_ok pre -> window_fits pre ->
  (forall post, upgrade_to_fulu pre cfg = Ok post <->
     fu_electra post = forked pre cfg /\ elected_window pre (fu_proposer_lookahead post)) /\
  (forall post, upgrade_to_fulu pre cfg = Ok post ->
     fulu_ok post /\
     fork post = mkFork (fork_current_version (fork pre)) (fc_fulu_fork_version cfg) (get_current_epoch pre) /\
     forall t, get_current_epoch pre * SLOTS_PER_EPOCH <= t < (get_current_epoch pre + MIN_SEED_LOOKAHEAD + 1) * SLOTS_PER_EPOCH ->
       exists p, window_proposer post t = Some p /\ get_beacon_proposer_index_electra (at_slot pre t) = Ok p).
Proof.
  intros Hok Hf. pose proof (bo_slot _ _ (electra_base pre Hok)) as Hu.
  assert (forall post, upgrade_to_fulu pre cfg = Ok post <->
    fu_electra post = forked pre cfg /\ elected_window pre (fu_proposer_lookahead post)) as Hiff.
  { intros post. unfold upgrade_to_fulu. rewrite lookahead_from_vec_full.
    2: { unfold zlen. rewrite length_replicate. pose proof window_bounds. pose proof slots_per_epoch_gt0. lia. }
    cbn [map_err mbind result_bind]. cbv zeta. unfold initialize_proposer_lookahead. cbn [fu_electra].
    fold (forked pre cfg).
    change (compute_epoch_at_slot (slot (forked pre cfg)) SLOTS_PER_EPOCH) with (get_current_epoch pre).
    change (get_beacon_proposer_indices (forked pre cfg)) with (get_beacon_proposer_indices pre). split.
    - intros (epochs & He & Hp)%bind_Ok_inv. apply epochs_elected in He as [Hl Hel]; [|done..].
      rewrite padded_full, lookahead_from_vec_full in Hp by done. by injection Hp as <-.
    - intros [Hpost Hw]. destruct (window_epochs pre _ Hu Hf Hw) as (epochs & -> & Hc). cbn [mbind result_bind].
      rewrite Hc, padded_full, lookahead_from_vec_full by apply Hw. destruct post. cbn in *. by subst. }
  split; [done|]. intros post Hup. apply Hiff in Hup as [Hpost Hw]. pose proof Hw as [Hl Hel].
  assert (forall p i, fu_proposer_lookahead post !! i = Some p -> member (forked pre cfg) p) as Hmem.
  { intros p i Hp. specialize (Hel (Z.of_nat i) p ltac:(lia)). rewrite Nat2Z.id in Hel. exact (on_demand_member _ _ (Hel Hp)). }
  split; [|split].
  - split; [rewrite Hpost; by apply forked_ok|done|]. rewrite Hpost. apply Forall_lookup. intros i p. by apply Hmem.
  - by rewrite Hpost.
  - intros t Ht. unfold window_proposer. rewrite Hpost. change (get_current_epoch (forked pre cfg)) with (get_current_epoch pre).
    unfold zlen in Hl. rewrite lookahead_window in Hl.
    destruct (lookup_lt_is_Some_2 (fu_proposer_lookahead post) (Z.to_nat (t - get_current_epoch pre * SLOTS_PER_EPOCH))) as [p Hp]; [lia|].
    exists p. split; [done|]. apply Hel in Hp; [|lia].
    replace (get_current_epoch pre * SLOTS_PER_EPOCH + (t - get_current_epoch pre * SLOTS_PER_EPOCH)) with t in Hp by lia. exact Hp.
Qed.
End upgrade.
