(* ===== verification/DataColumns.v ===== *)
(** * Fulu: data column sidecars

    fulu/data_columns.rs of pharos-stf: the checks of a sidecar (structure, proofs of
    its cells, inclusion of the commitments in the block body), the inclusion proof,
    the sidecars of a block.  The custody of a node is in Custody.v.

    Theorem [produced_sidecars_verify]: a block's sidecars pass the checks and hold the
    cells of their column.  Theorem [sidecar_bound_to_body]: a sidecar that passes has
    the commitments of the body, up to a collision of the hash. *)

From stdpp Require Import gmap list.
From Stdlib Require Import ZArith Lia.
From coqutil Require Import Byte.
From S2P Require Import RpcTypes LightClient LightServer Prelude SszCodec SszBitfield SszTypes Merkle SszTree Spec BeaconState Roots Accessors Operations Genesis Forks Electra ElectraBody ElectraOps ElectraBlock Fulu Kzg.
Open Scope Z_scope.

Inductive DataColumnVerifyError : Type :=
  | ColumnIndexOutOfRange (index number_of_columns : Z)
  | NoCommitments
  | TooManyCommitments (got max : Z)
  | ColumnLengthMismatch (column commitments proofs : Z)
  | KzgProofInvalid
  | KzgFailure (e : KzgError)
  | InclusionProofInvalid.

Definition KZG_COMMITMENTS_INCLUSION_PROOF_DEPTH : Z := 4.
Definition BLOB_KZG_COMMITMENTS_GINDEX : Z := 16 + 11.
Definition get_subtree_index (gindex : Z) : Z := gindex mod 16.
Definition BODY_FIELD_TREE_SIZE : nat := 16.

(** [<[u8; n]>::try_from(slice).expect(..)]. *)
Definition expect_array {A E} (n : Z) (l : list A) : result E (list A) := if zlen l =? n then Ok l else Panic.

Section columns.
  Context `{Crypto} `{Sp : BeaconSpec} `{Fs : ForkSpec} `{Bs : BlockSpec} `{Us : FuluSpec}.
  Local Abbreviation fallible := (result DataColumnVerifyError).
  Implicit Types sidecar : DataColumnSidecar.

(** ** Checks *)
Definition verify_data_column_sidecar sidecar (max_blobs_per_block : Z) : fallible unit :=
  if NUMBER_OF_COLUMNS <=? dcs_index sidecar
  then Err (ColumnIndexOutOfRange (dcs_index sidecar) NUMBER_OF_COLUMNS)
  else
    let commitments := dcs_kzg_commitments sidecar in
    if zlen commitments =? 0 then Err NoCommitments
    else if max_blobs_per_block <? zlen commitments
    then Err (TooManyCommitments (zlen commitments) max_blobs_per_block)
    else
      let column_len := zlen (dcs_column sidecar) in
      let proofs_len := zlen (dcs_kzg_proofs sidecar) in
      if negb (column_len =? zlen commitments) || negb (column_len =? proofs_len)
      then Err (ColumnLengthMismatch column_len (zlen commitments) proofs_len)
      else Ok tt.

(** A cell is a vector of [u8]; its bytes go to the verifier. *)
Definition verify_data_column_sidecar_kzg_proofs `{CKzg} sidecar : fallible unit :=
  let cells := dcs_column sidecar in
  let cell_indices := replicate (length cells) (dcs_index sidecar) in
  commitment_arrs ← mapM (expect_array 48) (dcs_kzg_commitments sidecar);
  proof_arrs ← mapM (expect_array 48) (dcs_kzg_proofs sidecar);
  cell_arrs ← mapM (fun cell => expect_array 2048 (byte.of_Z <$> cell)) cells;
  valid ← map_err KzgFailure (verify_cell_kzg_proof_batch commitment_arrs cell_indices cell_arrs proof_arrs);
  if valid : bool then Ok tt else Err KzgProofInvalid.

Definition verify_data_column_sidecar_inclusion_proof sidecar : fallible unit :=
  leaf ← root_value (list_root MAX_BLOB_COMMITMENTS_PER_BLOCK fixed_bytes_root (dcs_kzg_commitments sidecar));
  let branch := dcs_kzg_commitments_inclusion_proof sidecar in
  let index := get_subtree_index BLOB_KZG_COMMITMENTS_GINDEX in
  let root := bh_body_root (sbh_message (dcs_signed_block_header sidecar)) in
  if is_valid_merkle_branch leaf branch KZG_COMMITMENTS_INCLUSION_PROOF_DEPTH index root
  then Ok tt else Err InclusionProofInvalid.

(** ** Production *)
Definition build_kzg_commitments_inclusion_proof (all_body_field_hashes : list bytes) : fallible (list bytes) :=
  let body_leaves := take BODY_FIELD_TREE_SIZE (all_body_field_hashes ++
        replicate (BODY_FIELD_TREE_SIZE - length all_body_field_hashes) zero_chunk) in
  branch ← proof_branch body_leaves BLOB_KZG_COMMITMENTS_GINDEX;
  expect_array 4 branch.

(** The thirteen roots of the fields of a body. *)
Definition body_field_hashes {E} (b : ElectraBody) : result E (list bytes) :=
  mapM root_value
    [fixed_bytes_root (eb_randao_reveal b); eth1_data_root (eb_eth1_data b);
     fixed_bytes_root (eb_graffiti b);
     list_root MAX_PROPOSER_SLASHINGS proposer_slashing_root (eb_proposer_slashings b);
     list_root MAX_ATTESTER_SLASHINGS_ELECTRA electra_attester_slashing_root (eb_attester_slashings b);
     list_root MAX_ATTESTATIONS_ELECTRA electra_attestation_root (eb_attestations b);
     list_root MAX_DEPOSITS deposit_root (eb_deposits b);
     list_root MAX_VOLUNTARY_EXITS signed_voluntary_exit_root (eb_voluntary_exits b);
     sync_aggregate_root (eb_sync_aggregate b); payload_root (eb_execution_payload b);
     list_root MAX_BLS_TO_EXECUTION_CHANGES signed_bls_change_root (eb_bls_to_execution_changes b);
     list_root MAX_BLOB_COMMITMENTS_PER_BLOCK fixed_bytes_root (eb_blob_kzg_commitments b);
     execution_requests_root (eb_execution_requests b)].

(** The cells and proofs of one column, a blob without an entry there left out. *)
Definition column_of (cells_and_kzg_proofs : list (list (list Z) * list bytes)) (ci : Z) : list (list Z * bytes) :=
  omap (fun '(cells, proofs) =>
          match cells !! Z.to_nat ci, proofs !! Z.to_nat ci with
          | Some cell, Some proof => Some (cell, proof)
          | _, _ => None
          end) cells_and_kzg_proofs.

Definition get_data_column_sidecars (signed_block_header : SignedBeaconBlockHeader)
    (kzg_commitments inclusion_proof : list bytes) (cells_and_kzg_proofs : list (list (list Z) * list bytes))
    : fallible (list DataColumnSidecar) :=
  let blobs := zlen cells_and_kzg_proofs in
  if negb (blobs =? zlen kzg_commitments)
  then Err (ColumnLengthMismatch blobs (zlen kzg_commitments) blobs)
  else if MAX_BLOB_COMMITMENTS_PER_BLOCK <? zlen kzg_commitments
  then Err (TooManyCommitments (zlen kzg_commitments) MAX_BLOB_COMMITMENTS_PER_BLOCK)
  else if negb (zlen inclusion_proof =? KZG_COMMITMENTS_INCLUSION_PROOF_DEPTH) then Err InclusionProofInvalid
  else
    mapM (fun column_index =>
            let entries := column_of cells_and_kzg_proofs column_index in
            if MAX_BLOB_COMMITMENTS_PER_BLOCK <? zlen entries
            then Err (TooManyCommitments blobs MAX_BLOB_COMMITMENTS_PER_BLOCK)
            else Ok (mkDataColumnSidecar column_index entries.*1 kzg_commitments entries.*2
                       signed_block_header inclusion_proof))
      (seqZ 0 NUMBER_OF_COLUMNS).

Definition get_data_column_sidecars_from_block (signed_block_header : SignedBeaconBlockHeader)
    (kzg_commitments body_field_hashes : list bytes) (cells_and_kzg_proofs : list (list (list Z) * list bytes))
    : fallible (list DataColumnSidecar) :=
  inclusion_proof ← build_kzg_commitments_inclusion_proof body_field_hashes;
  get_data_column_sidecars signed_block_header kzg_commitments inclusion_proof cells_and_kzg_proofs.
End columns.

(** ** What the checks accept *)
Section facts.
  Context `{Crypto} `{Sp : BeaconSpec} `{Fs : ForkSpec} `{Bs : BlockSpec} `{Us : FuluSpec} `{!CryptoOk _}.
  Implicit Types sidecar : DataColumnSidecar.

(** The structural check is exactly its four conditions. *)
Lemma structure_Ok sidecar max :
  verify_data_column_sidecar sidecar max = Ok tt <->
  dcs_index sidecar < NUMBER_OF_COLUMNS /\ 0 < zlen (dcs_kzg_commitments sidecar) <= max /\
  zlen (dcs_column sidecar) = zlen (dcs_kzg_commitments sidecar) /\
  zlen (dcs_kzg_proofs sidecar) = zlen (dcs_kzg_commitments sidecar).
Proof.
  unfold verify_data_column_sidecar. pose proof (zlen_nonneg (dcs_kzg_commitments sidecar)).
  destruct (Z.leb_spec NUMBER_OF_COLUMNS (dcs_index sidecar)); [split; [done|lia]|].
  destruct (Z.eqb_spec (zlen (dcs_kzg_commitments sidecar)) 0); [split; [done|lia]|].
  destruct (Z.ltb_spec max (zlen (dcs_kzg_commitments sidecar))); [split; [done|lia]|].
  destruct (Z.eqb_spec (zlen (dcs_column sidecar)) (zlen (dcs_kzg_commitments sidecar))); cbn [negb orb]; [|split; [done|lia]].
  destruct (Z.eqb_spec (zlen (dcs_column sidecar)) (zlen (dcs_kzg_proofs sidecar))); cbn [negb]; split; try done; lia.
Qed.

(** The inclusion check is a proof at generalized index 27 of the body. *)
Lemma inclusion_Ok sidecar :
  verify_data_column_sidecar_inclusion_proof sidecar = Ok tt <->
  exists leaf, list_root MAX_BLOB_COMMITMENTS_PER_BLOCK fixed_bytes_root (dcs_kzg_commitments sidecar) = Ok leaf /\
    verify_merkle_proof sha256 (bh_body_root (sbh_message (dcs_signed_block_header sidecar)))
      (mkProof leaf (dcs_kzg_commitments_inclusion_proof sidecar) 27) = Ok true.
Proof.
  unfold verify_data_column_sidecar_inclusion_proof.
  change (get_subtree_index BLOB_KZG_COMMITMENTS_GINDEX) with 11. change KZG_COMMITMENTS_INCLUSION_PROOF_DEPTH with 4.
  pose proof (fun leaf => deposit_branch_is_ssz_proof leaf (dcs_kzg_commitments_inclusion_proof sidecar) 4 11
    (bh_body_root (sbh_message (dcs_signed_block_header sidecar))) ltac:(done) ltac:(done)) as Hd.
  change (2 ^ 4 + 11 mod 2 ^ 4) with 27 in Hd. split.
  - intros (leaf & Hleaf & Hv)%bind_Ok_inv. exists leaf. rewrite Hd.
    unfold root_value in Hleaf. destruct (list_root _ _ _); simplify_eq. split; [done|]. by destruct (is_valid_merkle_branch _ _ _ _ _).
  - intros (leaf & -> & Hv). cbn [root_value mbind result_bind]. rewrite Hd in Hv. by injection Hv as ->.
Qed.

(** ** The branch of a body *)
Lemma body_hashes_root b hashes :
  body_field_hashes (E:=DataColumnVerifyError) b = Ok hashes ->
  electra_body_root b = merkleize sha256 hashes /\ length hashes = 13%nat /\
  exists leaf, hashes !! 11%nat = Some leaf /\
    list_root MAX_BLOB_COMMITMENTS_PER_BLOCK fixed_bytes_root (eb_blob_kzg_commitments b) = Ok leaf.
Proof.
  unfold body_field_hashes, electra_body_root, derive_tree_hash_root. set (roots := [_; _; _; _; _; _; _; _; _; _; _; _; _]).
  intros Hh. apply mapM_Ok_Forall2 in Hh.
  assert (Forall2 (fun r h => r = Ok h) roots hashes) as Hf.
  { eapply Forall2_impl; [exact Hh|]. intros r h Hr. unfold root_value in Hr. destruct r; by simplify_eq. }
  split; [|split].
  - assert (mapM id roots = Ok hashes) as Hm by (by apply mapM_Ok_Forall2).
    fold roots. rewrite Hm. done.
  - apply Forall2_length in Hf. done.
  - destruct (lookup_lt_is_Some_2 hashes 11) as [leaf Hl]; [apply Forall2_length in Hf; cbn in Hf; lia|].
    exists leaf. split; [done|]. exact (Forall2_lookup_lr _ roots hashes 11%nat _ _ Hf eq_refl Hl).
Qed.

Definition is_digest (h : bytes) : Prop := length h = 32%nat.

Lemma hash_pairs_digests l : Forall is_digest (hash_pairs sha256 l).
Proof. induction l as [|a|a b l IH] using list_ind2; cbn; try constructor; [apply sha256_length|done]. Qed.
Lemma siblings_digests fuel layer pos br :
  Forall is_digest layer -> collect_siblings sha256 fuel layer pos = Ok br -> Forall is_digest br.
Proof.
  revert layer pos br. induction fuel as [|fuel IH]; intros layer pos br Hl; cbn [collect_siblings]; [by intros [= <-]|].
  case_match; [|by intros [= <-]]. intros (x & Hx & (rest & Hrest & [= <-])%bind_Ok_inv)%bind_Ok_inv.
  constructor; [|by eapply IH, Hrest; apply hash_pairs_digests].
  apply index_Ok_iff in Hx as [_ Hx]. by eapply Forall_lookup_1.
Qed.
Lemma proof_branch_digests {E} leaves g br :
  Forall is_digest leaves -> proof_branch (E:=E) leaves g = Ok br -> Forall is_digest br.
Proof.
  intros Hl. unfold proof_branch, build_single_proof_from_leaves. case_match eqn:Hb; [|done..]. intros [= <-].
  revert Hb. case_match; [done|].
  intros (x & _ & (d & _ & (br & Hbr & [= <-])%bind_Ok_inv)%bind_Ok_inv)%bind_Ok_inv. cbn.
  eapply siblings_digests, Hbr. apply Forall_app. split; [done|]. by apply Forall_replicate.
Qed.

Lemma body_branch hashes leaf :
  length hashes = 13%nat -> hashes !! 11%nat = Some leaf ->
  exists root br, merkleize sha256 hashes = Ok root /\
    build_kzg_commitments_inclusion_proof hashes = Ok br /\ zlen br = 4 /\
    verify_merkle_proof sha256 root (mkProof leaf br 27) = Ok true /\
    (Forall is_digest hashes -> Forall is_digest br).
Proof.
  intros Hlen Hleaf. unfold build_kzg_commitments_inclusion_proof, BODY_FIELD_TREE_SIZE. rewrite Hlen.
  rewrite take_ge by (rewrite length_app, length_replicate; lia).
  set (leaves := (hashes ++ replicate (16 - 13) zero_chunk)%list).
  assert (zlen leaves = 16) as Hz by (unfold zlen, leaves; rewrite length_app, length_replicate; lia).
  destruct (proof_branch_Ok (E:=DataColumnVerifyError) leaves 11 leaf) as (root & br & Hr & Hbr & Hl & Hf);
    rewrite ?Hz; try done.
  { unfold leaves. by apply lookup_app_l_Some. }
  rewrite Hz in Hbr, Hl, Hf. change (next_pow_of_two (Z.max 16 1) + 11) with 27 in *.
  exists root, br. split; [|split; [|split; [done|split]]].
  - rewrite <- Hr. rewrite !merkleize_Ok by (unfold zlen, leaves; rewrite ?length_app, ?length_replicate; lia).
    rewrite Hz. assert (zlen hashes = 13) as -> by (unfold zlen; lia).
    change (Z.to_nat (Z.log2_up 13)) with 4%nat. change (Z.to_nat (Z.log2_up 16)) with 4%nat.
    unfold tree_root, leaves. by rewrite tree_root_from_pad.
  - change BLOB_KZG_COMMITMENTS_GINDEX with 27. rewrite Hbr. cbn [mbind result_bind]. unfold expect_array. by rewrite Hl.
  - unfold verify_merkle_proof, get_generalized_index_length. cbn [Merkle.gindex Merkle.branch Merkle.leaf mbind result_bind].
    change (1 <=? 27) with true. cbn [mbind result_bind]. rewrite Hl. cbn. by rewrite Hf, bool_decide_true.
  - intros Hd. eapply proof_branch_digests, Hbr. apply Forall_app. split; [done|]. by apply Forall_replicate.
Qed.

(** ** Columns *)
Lemma column_of_full cells ci :
  0 <= ci < NUMBER_OF_COLUMNS ->
  Forall (fun cp => NUMBER_OF_COLUMNS <= zlen cp.1 /\ NUMBER_OF_COLUMNS <= zlen cp.2) cells ->
  Forall2 (fun cp e => cp.1 !! Z.to_nat ci = Some e.1 /\ cp.2 !! Z.to_nat ci = Some e.2) cells (column_of cells ci).
Proof.
  intros Hci. induction 1 as [|[cs ps] cells [Hc Hp] _ IH]; [constructor|]. cbn in Hc, Hp. unfold zlen in Hc, Hp.
  destruct (lookup_lt_is_Some_2 cs (Z.to_nat ci)) as [c Ec]; [lia|].
  destruct (lookup_lt_is_Some_2 ps (Z.to_nat ci)) as [p Ep]; [lia|].
  unfold column_of in *. cbn [omap list_omap]. rewrite Ec, Ep. by constructor.
Qed.

(** What a sidecar of column [i] holds of the blobs. *)
Definition holds_column (cells : list (list (list Z) * list bytes)) (i : Z) sidecar : Prop :=
  forall j cs ps, cells !! j = Some (cs, ps) ->
    dcs_column sidecar !! j = cs !! Z.to_nat i /\ dcs_kzg_proofs sidecar !! j = ps !! Z.to_nat i.

Lemma column_holds cells i header commitments proof :
  0 <= i < NUMBER_OF_COLUMNS ->
  Forall (fun cp => NUMBER_OF_COLUMNS <= zlen cp.1 /\ NUMBER_OF_COLUMNS <= zlen cp.2) cells ->
  let entries := column_of cells i in
  zlen entries = zlen cells /\
  holds_column cells i (mkDataColumnSidecar i entries.*1 commitments entries.*2 header proof).
Proof.
  intros Hi Hc entries. pose proof (column_of_full cells i Hi Hc) as Hf. split.
  - apply Forall2_length in Hf. unfold zlen, entries. by rewrite Hf.
  - intros j cs ps Hj. destruct (Forall2_lookup_l _ _ _ _ _ Hf Hj) as (e & He & Hc1 & Hp1). cbn [dcs_column dcs_kzg_proofs].
    rewrite !list_lookup_fmap. fold entries in He. rewrite He. cbn in *. by rewrite Hc1, Hp1.
Qed.

(** C1: the data columns of a block.  For a block with commitments within the limits
    and the cells of every blob, the node produces one sidecar per column; each has its
    index, passes the structural check and the inclusion check against the header, and
    holds exactly the cell and the proof of its column for every blob. *)
Theorem produced_sidecars_verify b header hashes cells max :
  body_field_hashes (E:=DataColumnVerifyError) b = Ok hashes ->
  electra_body_root b = Ok (bh_body_root (sbh_message header)) ->
  0 <= NUMBER_OF_COLUMNS ->
  0 < zlen (eb_blob_kzg_commitments b) <= max ->
  zlen (eb_blob_kzg_commitments b) <= MAX_BLOB_COMMITMENTS_PER_BLOCK ->
  zlen cells = zlen (eb_blob_kzg_commitments b) ->
  Forall (fun cp => NUMBER_OF_COLUMNS <= zlen cp.1 /\ NUMBER_OF_COLUMNS <= zlen cp.2) cells ->
  exists sidecars,
    get_data_column_sidecars_from_block header (eb_blob_kzg_commitments b) hashes cells = Ok sidecars /\
    zlen sidecars = NUMBER_OF_COLUMNS /\
    forall i sidecar, sidecars !! i = Some sidecar ->
      dcs_index sidecar = Z.of_nat i /\ dcs_kzg_commitments sidecar = eb_blob_kzg_commitments b /\
      verify_data_column_sidecar sidecar max = Ok tt /\
      verify_data_column_sidecar_inclusion_proof sidecar = Ok tt /\
      holds_column cells (Z.of_nat i) sidecar.
Proof.
  intros Hh Hroot Hcols Hmax Hlim Hcells Hfull.
  destruct (body_hashes_root b hashes Hh) as (Hr & Hlen & leaf & Hleaf & Hlist).
  destruct (body_branch hashes leaf Hlen Hleaf) as (root & br & Hm & Hbr & Hzbr & Hv & _).
  assert (root = bh_body_root (sbh_message header)) as -> by (rewrite Hr, Hm in Hroot; by injection Hroot).
  unfold get_data_column_sidecars_from_block. rewrite Hbr. cbn [mbind result_bind]. unfold get_data_column_sidecars.
  rewrite Hcells, Z.eqb_refl, (proj2 (Z.ltb_ge _ _) Hlim), Hzbr. cbn [negb].
  change (4 =? KZG_COMMITMENTS_INCLUSION_PROOF_DEPTH) with true. cbn [negb].
  set (make i := mkDataColumnSidecar i (column_of cells i).*1 (eb_blob_kzg_commitments b) (column_of cells i).*2 header br).
  exists (make <$> seqZ 0 NUMBER_OF_COLUMNS). split; [|split].
  - apply mapM_Ok_Forall2, Forall2_fmap_r, Forall_Forall2_diag, Forall_forall. intros i Hi%elem_of_seqZ.
    destruct (column_holds cells i header (eb_blob_kzg_commitments b) br) as [Hz _]; [lia|done|].
    cbv zeta. rewrite (proj2 (Z.ltb_ge _ _)) by lia. done.
  - unfold zlen. rewrite length_fmap, length_seqZ. lia.
  - intros i sidecar Hs. rewrite list_lookup_fmap in Hs. apply fmap_Some in Hs as (i' & Hi' & ->).
    apply lookup_seqZ in Hi' as [-> Hi']. rewrite Z.add_0_l.
    destruct (column_holds cells (Z.of_nat i) header (eb_blob_kzg_commitments b) br) as [Hz Hhold]; [lia|done|].
    split_and!; [done|done| | |done].
    + apply structure_Ok. cbn [dcs_index dcs_kzg_commitments dcs_column dcs_kzg_proofs make]. rewrite !zlen_fmap. lia.
    + apply inclusion_Ok. exists leaf. split; [done|exact Hv].
Qed.

(** A sidecar is bound to its block.  If the header of a sidecar is that of a body
    and the inclusion check passes, then the sidecar's commitments have the list root
    of the body's commitments, or a collision of SHA-256 is computed from the sidecar. *)
Theorem sidecar_bound_to_body b hashes sidecar leaf leaf' :
  body_field_hashes (E:=DataColumnVerifyError) b = Ok hashes ->
  electra_body_root b = Ok (bh_body_root (sbh_message (dcs_signed_block_header sidecar))) ->
  Forall is_digest hashes -> Forall is_digest (dcs_kzg_commitments_inclusion_proof sidecar) ->
  verify_data_column_sidecar_inclusion_proof sidecar = Ok tt ->
  list_root MAX_BLOB_COMMITMENTS_PER_BLOCK fixed_bytes_root (eb_blob_kzg_commitments b) = Ok leaf ->
  list_root MAX_BLOB_COMMITMENTS_PER_BLOCK fixed_bytes_root (dcs_kzg_commitments sidecar) = Ok leaf' ->
  leaf' = leaf \/
  exists br x y, build_kzg_commitments_inclusion_proof hashes = Ok br /\
    find_collision sha256 leaf' leaf 27 (dcs_kzg_commitments_inclusion_proof sidecar) br = Some (x, y) /\
    x <> y /\ sha256 x = sha256 y.
Proof.
  intros Hh Hroot Hd32 H32 Hinc Hleaf Hleaf'. apply inclusion_Ok in Hinc as (l & Hl & Hv). rewrite Hleaf' in Hl. injection Hl as <-.
  destruct (body_hashes_root b hashes Hh) as (Hr & Hlen & l & Hl & Hlist). rewrite Hleaf in Hlist. injection Hlist as <-.
  destruct (body_branch hashes leaf Hlen Hl) as (root & br & Hm & Hbr & Hzbr & Hv' & Hd).
  assert (root = bh_body_root (sbh_message (dcs_signed_block_header sidecar))) as -> by (rewrite Hr, Hm in Hroot; by injection Hroot).
  destruct (decide (leaf' = leaf)) as [|Hne]; [by left|right]. exists br.
  unfold verify_merkle_proof, get_generalized_index_length in Hv, Hv'. cbn [Merkle.gindex Merkle.branch Merkle.leaf] in *.
  change (1 <=? 27) with true in *. cbn [mbind result_bind] in *. rewrite Hzbr in Hv'. change (Z.log2 27) with 4 in *.
  destruct (Z.eqb_spec (zlen (dcs_kzg_commitments_inclusion_proof sidecar)) 4) as [Hz|]; [|done]. cbn [negb Z.eqb] in *.
  injection Hv as Hv%bool_decide_eq_true. injection Hv' as Hv'%bool_decide_eq_true.
  destruct (find_collision_complete sha256 (dcs_kzg_commitments_inclusion_proof sidecar) br leaf' leaf 27) as (x & y & Hx);
    try done; [apply sha256_length| |by apply Hd| |by rewrite Hv|].
  { by rewrite (list_root_length _ _ _ _ Hleaf), (list_root_length _ _ _ _ Hleaf'). }
  { unfold zlen in *. lia. }
  by exists x, y.
Qed.
End facts.
