(* ===== verification/Custody.v ===== *)
(** * Custody of data columns and the availability of a block's data

    The custody groups of a node and their columns (fulu/data_columns.rs of
    pharos-stf); the custody state of a node, its requirement and its columns
    (custody.rs of pharos-node), the slot it advertises (host_impl.rs) and the
    checkers of data availability (data_availability.rs).  The database is the record
    [SidecarStore].

    Theorem [custody_groups_exact]: the groups are the first distinct ones in the walk
    over the node ids that the specification describes.  Theorem [custody_columns_exact]:
    the columns of a node.  Theorem [custody_state_exact]: the count is the highest
    ever required, the watermark the lowest slot held.  Theorem [availability_exact]:
    when a block's data counts as available. *)

From stdpp Require Import gmap list sorting.
From Stdlib Require Import ZArith Lia.
From coqutil Require Import Byte.
From S2P Require Import ForkSchedule RpcTypes LightClient LightServer Prelude SszCodec SszBitfield SszTypes Merkle SszTree Spec BeaconState Roots Accessors Operations Genesis Forks Electra ElectraBody ElectraOps ElectraBlock Fulu Kzg DataColumns.
Open Scope Z_scope.

(** ** Custody groups *)

(** [for byte in id.iter_mut().rev()]: the digits from the last one on; the flag says
    that the loop has not returned yet. *)
Fixpoint increment_digits (id : bytes) : bytes * bool :=
  match id with
  | [] => ([], true)
  | b :: id =>
      let '(id, carry) := increment_digits id in
      if negb carry then (b :: id, false)
      else if byte.unsigned b =? 255 then (Byte.x00 :: id, true)
      else (byte.of_Z (byte.unsigned b + 1) :: id, false)
  end.
Definition increment_uint256_be (id : bytes) : bytes := (increment_digits id).1.

Definition bytes_to_uint64_le (bs : bytes) : Z := from_le_bytes (take 8 bs).

(** [sort_unstable] of [u64]s. *)
Definition sort_unstable (l : list Z) : list Z := merge_sort Z.le l.

(** [dedup]: equal neighbours become one. *)
Fixpoint dedup (l : list Z) : list Z :=
  match l with
  | x :: ((y :: _) as l') => if x =? y then dedup l' else x :: dedup l'
  | l => l
  end.

Section custody.
  Context `{Crypto} `{Us : FuluSpec} {E : Type}.
  Local Abbreviation outcome := (result E (list Z)).

Definition custody_group_of (current_id : bytes) : Z :=
  bytes_to_uint64_le (sha256 (reverse current_id)) mod NUMBER_OF_CUSTODY_GROUPS.

(** One turn of the loop: the next id and the groups so far, or the groups. *)
Definition custody_step (custody_group_count : Z) (st : bytes * list Z) : (bytes * list Z) + list Z :=
  let '(current_id, custody_groups) := st in
  if zlen custody_groups <? custody_group_count then
    let custody_group := custody_group_of current_id in
    inl (increment_uint256_be current_id,
         if bool_decide (custody_group ∈ custody_groups) then custody_groups
         else (custody_groups ++ [custody_group])%list)
  else inr custody_groups.

(** After [2^256] turns every id has been seen: a loop that has not returned at the next
    one goes on for ever ([Panic]). *)
Definition get_custody_groups (node_id : bytes) (custody_group_count : Z) : outcome :=
  if NUMBER_OF_CUSTODY_GROUPS <? custody_group_count then Panic
  else if custody_group_count =? NUMBER_OF_CUSTODY_GROUPS then Ok (seqZ 0 NUMBER_OF_CUSTODY_GROUPS)
  else
    match loop_upto (2 ^ 256 + 1)%positive (custody_step custody_group_count) (node_id, []) with
    | inr groups => Ok (sort_unstable groups)
    | inl _ => Panic
    end.

Definition compute_columns_for_custody_group (custody_group : Z) : outcome :=
  if NUMBER_OF_CUSTODY_GROUPS <=? custody_group then Panic
  else
    let columns_per_group := NUMBER_OF_COLUMNS / NUMBER_OF_CUSTODY_GROUPS in
    Ok ((fun i => wadd (wmul NUMBER_OF_CUSTODY_GROUPS i) custody_group) <$> seqZ 0 columns_per_group).

(** custody.rs *)
Definition custody_columns_for_cgc (node_id : bytes) (cgc : Z) : outcome :=
  groups ← get_custody_groups node_id cgc;
  columns ← mapM compute_columns_for_custody_group groups;
  Ok (dedup (sort_unstable (concat columns))).
End custody.

(** ** The custody state of a node *)
Record CustodyState : Type := mkCustodyState {
  cgc : Z;
  last_updated_slot : Z;
  lowest_column_slot : Z;
}.
Definition new_custody_state (initial_cgc : Z) : CustodyState := mkCustodyState initial_cgc 0 u64_max.

Definition observe_column_slot (c : CustodyState) (slot : Z) : CustodyState :=
  mkCustodyState (cgc c) (last_updated_slot c) (Z.min (lowest_column_slot c) slot).

Definition try_raise (c : CustodyState) (new_cgc at_slot : Z) : CustodyState * bool :=
  if cgc c <? new_cgc then (mkCustodyState new_cgc at_slot (lowest_column_slot c), true) else (c, false).

(** Constants of the custody of validators. *)
Definition SAMPLES_PER_SLOT : Z := 8.
Definition CUSTODY_REQUIREMENT : Z := 4.
Definition VALIDATOR_CUSTODY_REQUIREMENT : Z := 8.
Definition BALANCE_PER_ADDITIONAL_CUSTODY_GROUP : Z := 32000000000.

Definition get_validators_custody_requirement `{FuluSpec} (s : BeaconState) (validator_indices : list Z) : Z :=
  let total_node_balance :=
    wsum (v_effective_balance <$> omap (fun idx => validators s !! Z.to_nat idx) validator_indices) in
  let count := total_node_balance / BALANCE_PER_ADDITIONAL_CUSTODY_GROUP in
  Z.min (Z.max count VALIDATOR_CUSTODY_REQUIREMENT) NUMBER_OF_CUSTODY_GROUPS.

(** One turn of the adjustment loop, as far as the state goes: nothing without
    validators or without the finalized state. *)
Definition custody_turn `{FuluSpec} `{BeaconSpec} (c : CustodyState) (validator_indices : list Z)
    (finalized : option BeaconState) (finalized_epoch : Z) : CustodyState * bool :=
  match validator_indices, finalized with
  | [], _ | _, None => (c, false)
  | _, Some s => try_raise c (get_validators_custody_requirement s validator_indices)
                   (sat_mul finalized_epoch SLOTS_PER_EPOCH)
  end.

(** host_impl.rs *)
Definition clamp_earliest_available (watermark current_epoch fulu_fork_epoch min_epochs slots_per_epoch : Z) : Z :=
  if watermark =? u64_max then sat_mul (sat_add current_epoch 1) slots_per_epoch
  else
    let serve_floor := sat_mul (Z.max (sat_sub current_epoch min_epochs) fulu_fork_epoch) slots_per_epoch in
    Z.max watermark serve_floor.

(** ** Data availability *)
Inductive DataAvailabilityVerdict : Type := Available | NotAvailable | Irrelevant.
#[export] Instance verdict_eq_dec : EqDecision DataAvailabilityVerdict.
Proof. solve_decision. Defined.

(** What the database returns; [None] is a read error. *)
Record SidecarStore : Type := mkSidecarStore {
  get_blob_sidecars_by_root : bytes -> option (list BlobSidecar);
  get_data_column_sidecar : bytes -> Z -> option (option DataColumnSidecar);
}.

Section availability.
  Context `{Crypto} `{Sp : BeaconSpec} `{Us : FuluSpec} `{CKzg} {E : Type}.
  Implicit Types store : SidecarStore.

(** The blob and the proof for the [i]-th commitment. *)
Definition blob_entry (sidecars : list BlobSidecar) (i : Z) : option (bytes * bytes) :=
  match find (fun s => bs_index s =? i) sidecars with
  | Some sidecar =>
      if zlen (bs_blob sidecar) =? 131072 then Some (byte.of_Z <$> bs_blob sidecar, bs_kzg_proof sidecar) else None
  | None => None
  end.

Definition blob_is_data_available store (block_root : bytes) (kzg_commitments : list bytes) : DataAvailabilityVerdict :=
  if zlen kzg_commitments =? 0 then Irrelevant
  else
    match get_blob_sidecars_by_root store block_root with
    | None => NotAvailable
    | Some sidecars =>
        if zlen sidecars <? zlen kzg_commitments then NotAvailable
        else
          match mapM (blob_entry sidecars) (seqZ 0 (zlen kzg_commitments)) with
          | None => NotAvailable
          | Some entries =>
              match verify_blob_kzg_proof_batch entries.*1 kzg_commitments entries.*2 with
              | Ok true => Available
              | _ => NotAvailable
              end
          end
    end.

(** [ColumnAvailabilityChecker::new]: the columns of the groups to sample, a
    [BTreeSet]. *)
Definition expected_columns (node_id : bytes) (custody_group_count : Z) : result E (list Z) :=
  let sampling_size := Z.min (Z.max SAMPLES_PER_SLOT custody_group_count) NUMBER_OF_CUSTODY_GROUPS in
  groups ← get_custody_groups node_id sampling_size;
  columns ← mapM compute_columns_for_custody_group groups;
  Ok (dedup (sort_unstable (concat columns))).

Definition sidecar_limit (cfg : FuluConfig) (sidecar : DataColumnSidecar) : Z :=
  let slot := bh_slot (sbh_message (dcs_signed_block_header sidecar)) in
  bp_max_blobs_per_block (get_blob_parameters (slot / SLOTS_PER_EPOCH) (fc_blob_schedule cfg)
    (fc_electra_fork_epoch cfg) (max_blobs_per_block_electra cfg)).

(** [for &column_index in &self.expected_columns]. *)
Fixpoint check_columns store (cfg : FuluConfig) (block_root : bytes) (expected : list Z)
    : result E DataAvailabilityVerdict :=
  match expected with
  | [] => Ok Available
  | column_index :: expected =>
      match get_data_column_sidecar store block_root column_index with
      | None | Some None => Ok NotAvailable
      | Some (Some sidecar) =>
          match verify_data_column_sidecar sidecar (sidecar_limit cfg sidecar) with
          | Panic => Panic
          | Err _ => Ok NotAvailable
          | Ok _ =>
              match verify_data_column_sidecar_kzg_proofs sidecar with
              | Panic => Panic
              | Err _ => Ok NotAvailable
              | Ok _ => check_columns store cfg block_root expected
              end
          end
      end
  end.

Definition column_is_data_available store cfg (expected : list Z) (block_root : bytes) (kzg_commitments : list bytes)
    : result E DataAvailabilityVerdict :=
  if zlen kzg_commitments =? 0 then Ok Irrelevant else check_columns store cfg block_root expected.

Definition combine_da_verdicts (blob column : DataAvailabilityVerdict) : DataAvailabilityVerdict :=
  match blob, column with
  | Available, _ | _, Available => Available
  | Irrelevant, Irrelevant => Irrelevant
  | _, _ => NotAvailable
  end.

Definition is_data_available store cfg (expected : list Z) (block_root : bytes) (kzg_commitments : list bytes)
    : result E DataAvailabilityVerdict :=
  column_verdict ← column_is_data_available store cfg expected block_root kzg_commitments;
  if bool_decide (column_verdict = Available) then Ok Available
  else
    let blob_verdict := blob_is_data_available store block_root kzg_commitments in
    Ok (combine_da_verdicts blob_verdict column_verdict).
End availability.

(** ** The walk over ids *)
Lemma increment_digits_spec id :
  let '(r, carry) := increment_digits id in
  length r = length id /\
  from_be_bytes r + (if carry : bool then 2 ^ (8 * zlen id) else 0) = from_be_bytes id + 1.
Proof.
  induction id as [|b id IH]; [done|]. cbn [increment_digits]. destruct (increment_digits id) as [r carry].
  destruct IH as [Hl Hv]. assert (zlen r = zlen id) as Hz by (unfold zlen; by rewrite Hl).
  pose proof (byte.unsigned_range b). pose proof (zlen_nonneg id).
  assert (2 ^ (8 * zlen (b :: id)) = 256 * 2 ^ (8 * zlen id)) as Hp.
  { rewrite zlen_cons, <- (Z.pow_add_r 2 8) by lia. f_equal. lia. }
  destruct carry; cbn [negb].
  - destruct (Z.eqb_spec (byte.unsigned b) 255) as [Hb|Hb]; (split; [cbn; congruence|]).
    + rewrite !from_be_bytes_cons, Hp, Hz, Hb. change (byte.unsigned Byte.x00) with 0. lia.
    + rewrite !from_be_bytes_cons, Hz, byte.unsigned_of_Z. unfold byte.wrap. rewrite Z.mod_small by lia. lia.
  - split; [cbn; congruence|]. rewrite !from_be_bytes_cons, Hz. lia.
Qed.

Lemma increment_spec id :
  length (increment_uint256_be id) = length id /\
  from_be_bytes (increment_uint256_be id) = (from_be_bytes id + 1) mod 2 ^ (8 * zlen id).
Proof.
  unfold increment_uint256_be. pose proof (increment_digits_spec id) as Hs. destruct (increment_digits id) as [r carry].
  destruct Hs as [Hl Hv]. split; [done|]. cbn. rewrite <- Hv. pose proof (from_be_bytes_bound r) as Hb.
  assert (zlen r = zlen id) as Hz by (unfold zlen; by rewrite Hl). rewrite Hz in Hb.
  destruct carry; [|rewrite Z.add_0_r, Z.mod_small; done].
  rewrite <- (Z.mod_small _ _ Hb) at 1. symmetry.
  replace (from_be_bytes r + 2 ^ (8 * zlen id)) with (from_be_bytes r + 1 * 2 ^ (8 * zlen id)) by ring.
  apply Z.mod_add. lia.
Qed.

Section walk.
  Context `{Crypto} `{Us : FuluSpec}.
  Implicit Types (v : Z) (n k : nat).

(** The group of the [n]-th id after [v], and the distinct groups of the first [n] ids,
    in the order of their first appearance. *)
Definition group_at v n : Z :=
  from_le_bytes (take 8 (sha256 (to_le_bytes 32 ((v + Z.of_nat n) mod 2 ^ 256)))) mod NUMBER_OF_CUSTODY_GROUPS.
Fixpoint seen v n : list Z :=
  match n with
  | O => []
  | S n => if bool_decide (group_at v n ∈ seen v n) then seen v n else (seen v n ++ [group_at v n])%list
  end.

Lemma seen_prefix v n k : (n <= k)%nat -> seen v n `prefix_of` seen v k.
Proof.
  induction 1 as [|k _ IH]; [done|]. etrans; [exact IH|]. cbn. case_bool_decide; [done|]. by eexists.
Qed.
Lemma seen_length_mono v n k : (n <= k)%nat -> zlen (seen v n) <= zlen (seen v k).
Proof. intros Hn%(seen_prefix v). apply prefix_length in Hn. unfold zlen. lia. Qed.
Lemma seen_NoDup v n : NoDup (seen v n).
Proof.
  induction n as [|n IH]; cbn; [constructor|]. case_bool_decide as Hg; [done|].
  apply NoDup_app. split; [done|]. split; [|apply NoDup_singleton]. by intros x Hx ->%list_elem_of_singleton.
Qed.
Lemma seen_range `{BeaconSpec} `{!FuluSpecOk _ _} v n : Forall (fun g => 0 <= g < NUMBER_OF_CUSTODY_GROUPS) (seen v n).
Proof.
  pose proof custody_group_count. induction n as [|n IH]; cbn; [constructor|]. case_bool_decide; [done|].
  apply Forall_app. split; [done|]. apply Forall_singleton, Z.mod_pos_bound. lia.
Qed.
Lemma seen_take v n k c : (n <= k)%nat -> c <= zlen (seen v n) -> take (Z.to_nat c) (seen v k) = take (Z.to_nat c) (seen v n).
Proof.
  intros [l ->]%(seen_prefix v) Hc. apply take_app_le. unfold zlen in Hc. lia.
Qed.

Lemma custody_group_of_at v n id :
  length id = 32%nat -> from_be_bytes id = (v + Z.of_nat n) mod 2 ^ 256 -> custody_group_of id = group_at v n.
Proof.
  intros Hl Hv. unfold custody_group_of, group_at, bytes_to_uint64_le. rewrite <- Hv. unfold from_be_bytes.
  rewrite to_from_le_bytes; [done|]. by rewrite length_reverse.
Qed.

(** The loop after [n] turns: still looking, or done with the first [c] groups. *)
Lemma custody_walk c node_id n :
  length node_id = 32%nat -> 0 <= c -> let v := from_be_bytes node_id in
  (forall m, n = S m -> c <= zlen (seen v m) ->
     loop_nat (custody_step c) n (node_id, []) = inr (take (Z.to_nat c) (seen v n))) /\
  ((forall m, n = S m -> zlen (seen v m) < c) -> exists id,
     loop_nat (custody_step c) n (node_id, []) = inl (id, seen v n) /\
     length id = 32%nat /\ from_be_bytes id = (v + Z.of_nat n) mod 2 ^ 256).
Proof.
  intros Hl Hc v. assert (0 <= v < 2 ^ 256) as Hv.
  { pose proof (from_be_bytes_bound node_id) as Hb. unfold zlen in Hb. by rewrite Hl in Hb. }
  induction n as [|n [IHr IHl]].
  { split; [done|]. intros _. exists node_id. rewrite Z.add_0_r, Z.mod_small by done. done. }
  assert (loop_nat (custody_step c) (S n) (node_id, [])
          = match loop_nat (custody_step c) n (node_id, []) with inl st => custody_step c st | inr r => inr r end) as Hstep.
  { replace (S n) with (n + 1)%nat by lia. rewrite loop_nat_add. destruct (loop_nat _ n _) as [st|r]; [|done].
    cbn. by destruct (custody_step c st). }
  assert ((exists m, n = S m /\ c <= zlen (seen v m)) \/ (forall m, n = S m -> zlen (seen v m) < c)) as [(m & -> & Hm)|Hm].
  { destruct n as [|m]; [by right|]. destruct (Z.le_gt_cases c (zlen (seen v m))); [left; eauto|].
    right. by intros ? [= <-]. }
  - pose proof (seen_length_mono v m (S m) ltac:(lia)) as Hmono. split.
    + intros ? [= <-] Hc'. rewrite Hstep, (IHr m eq_refl Hm). f_equal. symmetry. apply seen_take; [lia|done].
    + intros Hlt. specialize (Hlt _ eq_refl). lia.
  - destruct (IHl Hm) as (id & Hloop & Hid & Hval). rewrite Hstep, Hloop. cbn [custody_step]. split.
    + intros ? [= <-] Hle. rewrite (proj2 (Z.ltb_ge _ _) Hle), (seen_take v n) by (lia || done).
      rewrite take_ge; [done|]. destruct n as [|m]; [cbn; lia|]. specialize (Hm m eq_refl). cbn.
      case_bool_decide; [unfold zlen in Hm; lia|]. rewrite length_app. cbn. unfold zlen in Hm. lia.
    + intros Hlt. rewrite (proj2 (Z.ltb_lt _ _) (Hlt n eq_refl)).
      rewrite (custody_group_of_at v n id Hid Hval). destruct (increment_spec id) as [Hl' Hv'].
      eexists. split; [reflexivity|]. split; [congruence|]. rewrite Hv', Hval. unfold zlen. rewrite Hid.
      change (2 ^ (8 * Z.of_nat 32)) with (2 ^ 256). rewrite Zplus_mod_idemp_l. f_equal. lia.
Qed.
End walk.

(** ** Sorting *)
Lemma sort_unstable_perm l : sort_unstable l ≡ₚ l.
Proof. apply merge_sort_Permutation. Qed.
Lemma sort_unstable_sorted l : StronglySorted Z.le (sort_unstable l).
Proof. apply StronglySorted_merge_sort; [intros ???; apply Z.le_trans|intros ??; apply Z.le_ge_cases]. Qed.

Lemma dedup_elem x l : x ∈ dedup l <-> x ∈ l.
Proof.
  induction l as [|a [|b l] IH]; [done|done|]. cbn [dedup]. destruct (Z.eqb_spec a b) as [->|].
  - rewrite IH. set_solver.
  - rewrite !elem_of_cons, IH, elem_of_cons. done.
Qed.
Lemma dedup_sorted l : StronglySorted Z.le l -> StronglySorted Z.lt (dedup l).
Proof.
  induction 1 as [|a l Hs IH Hall]; [constructor|]. destruct l as [|b l]; [repeat constructor|]. cbn [dedup] in *.
  destruct (Z.eqb_spec a b) as [->|Hne]; [done|]. constructor; [done|]. apply Forall_forall. intros x Hx%(dedup_elem x (b :: l)).
  apply Forall_cons in Hall as [Hab Hall]. apply StronglySorted_inv in Hs as [_ Hb].
  apply elem_of_cons in Hx as [->|Hx]; [lia|]. rewrite Forall_forall in Hb. specialize (Hb x Hx). lia.
Qed.
Lemma sorted_NoDup l : StronglySorted Z.lt l -> NoDup l.
Proof.
  induction 1 as [|a l _ IH Hall]; constructor; [|done]. intros Ha. rewrite Forall_forall in Hall. specialize (Hall a Ha). lia.
Qed.
Lemma dedup_NoDup l : NoDup l -> dedup l = l.
Proof.
  induction l as [|a [|b l] IH]; [done|done|]. intros [Ha Hl]%NoDup_cons. cbn [dedup] in *. rewrite (IH Hl).
  destruct (Z.eqb_spec a b) as [->|]; [set_solver|done].
Qed.
Lemma sort_strict l : NoDup l -> StronglySorted Z.lt (sort_unstable l).
Proof.
  intros Hl. rewrite <- (dedup_NoDup (sort_unstable l)); [apply dedup_sorted, sort_unstable_sorted|].
  by rewrite sort_unstable_perm.
Qed.

Section groups.
  Context `{Crypto} `{Us : FuluSpec} {Sp : BeaconSpec} {Hok : FuluSpecOk Sp Us} {E : Type}.
  Local Abbreviation N := NUMBER_OF_CUSTODY_GROUPS.

Lemma custody_groups_found node_id count k :
  length node_id = 32%nat -> 0 <= count < N -> Z.of_nat k <= 2 ^ 256 -> count <= zlen (seen (from_be_bytes node_id) k) ->
  get_custody_groups node_id count
  = Ok (E := E) (sort_unstable (take (Z.to_nat count) (seen (from_be_bytes node_id) k))).
Proof.
  intros Hl Hc Hk Hs. unfold get_custody_groups. rewrite (proj2 (Z.ltb_ge _ _)), (proj2 (Z.eqb_neq _ _)) by lia.
  rewrite loop_upto_nat. assert (exists m, Pos.to_nat (2 ^ 256 + 1) = S m /\ Z.of_nat m = 2 ^ 256) as (m & -> & Hm).
  { exists (Pos.to_nat (2 ^ 256)). rewrite Pos2Nat.inj_add. split; [change (Pos.to_nat 1) with 1%nat; lia|].
    by rewrite positive_nat_Z. }
  assert (k <= m)%nat as Hkm by lia. pose proof (seen_length_mono (from_be_bytes node_id) k m Hkm) as Hmono.
  assert (0 <= count) as Hc0 by lia. assert (count <= zlen (seen (from_be_bytes node_id) m)) as Hsm by lia.
  rewrite (proj1 (custody_walk count node_id (S m) Hl Hc0) m eq_refl Hsm).
  do 2 f_equal. apply seen_take; lia.
Qed.

Lemma custody_groups_lost node_id count k :
  length node_id = 32%nat -> 0 <= count < N -> Z.of_nat k = 2 ^ 256 -> zlen (seen (from_be_bytes node_id) k) < count ->
  get_custody_groups node_id count = Panic (E := E).
Proof.
  intros Hl Hc Hk Hs. unfold get_custody_groups. rewrite (proj2 (Z.ltb_ge _ _)), (proj2 (Z.eqb_neq _ _)) by lia.
  rewrite loop_upto_nat. assert (Pos.to_nat (2 ^ 256 + 1) = S k) as ->.
  { rewrite Pos2Nat.inj_add. change (Pos.to_nat 1) with 1%nat. assert (Pos.to_nat (2 ^ 256) = k); [|lia].
    apply Nat2Z.inj. rewrite Hk. by rewrite positive_nat_Z. }
  assert (0 <= count) as Hc0 by lia. destruct (proj2 (custody_walk count node_id (S k) Hl Hc0)) as (id & -> & _); [|done]. by intros ? [= <-].
Qed.

(** C1: [get_custody_groups] takes a node's groups from the walk over the 256-bit
    integers that starts at the node id and wraps around: the group of an id is the first
    eight bytes of the digest of its little-endian encoding, little-endian, modulo the
    number of groups.  Asked for fewer groups than there are, it returns, in increasing
    order, exactly the first [count] distinct groups of that walk, as soon as some [k]
    ids bring that many; and if all the [2^256] ids do not, it never returns.  Asked
    for all groups it returns them all; asked for more it panics. *)
Theorem custody_groups_exact node_id count k :
  length node_id = 32%nat -> 0 <= count -> Z.of_nat k <= 2 ^ 256 ->
  let v := from_be_bytes node_id in
  (N < count -> get_custody_groups node_id count = Panic (E := E)) /\
  (count = N -> get_custody_groups node_id count = Ok (E := E) (seqZ 0 N)) /\
  (count < N -> count <= zlen (seen v k) -> exists groups,
     get_custody_groups node_id count = Ok (E := E) groups /\ StronglySorted Z.lt groups /\
     groups ≡ₚ take (Z.to_nat count) (seen v k)) /\
  (count < N -> Z.of_nat k = 2 ^ 256 -> zlen (seen v k) < count ->
     get_custody_groups node_id count = Panic (E := E)).
Proof.
  intros Hl Hc Hk v. split_and!.
  - intros Hlt. unfold get_custody_groups. by rewrite (proj2 (Z.ltb_lt _ _) Hlt).
  - intros ->. unfold get_custody_groups. by rewrite Z.ltb_irrefl, Z.eqb_refl.
  - intros Hlt Hs. rewrite (custody_groups_found node_id count k) by done. eexists. split; [done|].
    split; [apply sort_strict, (sublist_NoDup _ (seen v k)); [apply seen_NoDup|apply sublist_take]|apply sort_unstable_perm].
  - intros Hlt Hk' Hs. by apply (custody_groups_lost node_id count k).
Qed.

(** What a result of [get_custody_groups] satisfies. *)
Lemma custody_groups_inv node_id count groups :
  length node_id = 32%nat -> 0 <= count -> get_custody_groups (E := E) node_id count = Ok groups ->
  NoDup groups /\ Forall (fun g => 0 <= g < N) groups /\ zlen groups = count /\
  (count = N /\ groups = seqZ 0 N \/ exists k, count < N /\ Z.of_nat k = 2 ^ 256 /\ count <= zlen (seen (from_be_bytes node_id) k) /\
     groups = sort_unstable (take (Z.to_nat count) (seen (from_be_bytes node_id) k))).
Proof.
  pose proof custody_group_count. intros Hl Hc Hg. destruct (Z.lt_trichotomy count N) as [Hlt|[->|Hgt]].
  - assert (exists k, Z.of_nat k = 2 ^ 256) as [k Hk] by (exists (Z.to_nat (2 ^ 256)); rewrite Z2Nat.id; lia).
    destruct (Z.le_gt_cases count (zlen (seen (from_be_bytes node_id) k))) as [Hs|Hs].
    2:{ by rewrite (custody_groups_lost node_id count k) in Hg. }
    rewrite (custody_groups_found node_id count k) in Hg by lia. injection Hg as <-.
    split_and!; [rewrite sort_unstable_perm|rewrite sort_unstable_perm| |right; exists k; split_and!; done].
    + apply (sublist_NoDup _ (seen (from_be_bytes node_id) k)); [apply seen_NoDup|apply sublist_take].
    + apply Forall_take, seen_range.
    + unfold zlen in *. rewrite sort_unstable_perm, length_take. lia.
  - unfold get_custody_groups in Hg. rewrite Z.ltb_irrefl, Z.eqb_refl in Hg. injection Hg as <-.
    split_and!; [apply NoDup_seqZ|apply Forall_seqZ; lia|unfold zlen; rewrite length_seqZ; lia|by left; split].
  - unfold get_custody_groups in Hg. by rewrite (proj2 (Z.ltb_lt _ _) Hgt) in Hg.
Qed.

Lemma custody_groups_mono node_id c c' groups groups' :
  length node_id = 32%nat -> 0 <= c <= c' -> get_custody_groups (E := E) node_id c = Ok groups ->
  get_custody_groups (E := E) node_id c' = Ok groups' -> groups ⊆ groups'.
Proof.
  intros Hl Hc Hg Hg' x Hx. apply custody_groups_inv in Hg as (_ & Hr & Hn & Hg); [|done|lia].
  apply custody_groups_inv in Hg' as (_ & _ & _ & Hg'); [|done|lia].
  destruct Hg' as [[_ ->]|(k' & Hlt & Hk' & Hs' & ->)].
  { rewrite Forall_forall in Hr. specialize (Hr x Hx). apply elem_of_seqZ. lia. }
  destruct Hg as [[-> _]|(k & _ & Hk & Hs & ->)]; [lia|]. rewrite sort_unstable_perm in *. assert (k' = k) as -> by lia.
  apply elem_of_take in Hx as (i & Hi & Hx). apply elem_of_take. exists i. split; [done|lia].
Qed.

Local Abbreviation per_group := (NUMBER_OF_COLUMNS / NUMBER_OF_CUSTODY_GROUPS).
Definition group_columns (g : Z) : list Z := (fun i => N * i + g) <$> seqZ 0 per_group.

Lemma columns_split : NUMBER_OF_COLUMNS = N * per_group /\ 0 < per_group.
Proof.
  pose proof custody_group_count. pose proof columns_divide.
  assert (N <> 0) as HN by lia. pose proof (Z.div_mod NUMBER_OF_COLUMNS N HN) as Hd. split; [lia|].
  apply Z.div_str_pos. lia.
Qed.

Lemma compute_columns_Ok g : 0 <= g < N -> compute_columns_for_custody_group g = Ok (E := E) (group_columns g).
Proof.
  intros Hg. pose proof columns_split as [Hs Hp]. pose proof columns_bound. unfold compute_columns_for_custody_group.
  rewrite (proj2 (Z.leb_gt _ _)) by lia. f_equal. apply list_fmap_ext. intros j i [-> Hi]%lookup_seqZ.
  unfold wadd, wmul, u64. rewrite Zplus_mod_idemp_l, Z.mod_small; [done|]. rewrite Z.add_0_l. split; [nia|].
  apply Z.le_lt_trans with NUMBER_OF_COLUMNS; [nia|]. eapply Z.le_lt_trans; [done|]. done.
Qed.

Lemma group_columns_elem c g : 0 <= g < N -> c ∈ group_columns g <-> 0 <= c < NUMBER_OF_COLUMNS /\ c mod N = g.
Proof.
  intros Hg. pose proof columns_split as [Hs Hp]. unfold group_columns. rewrite list_elem_of_fmap. split.
  - intros (i & -> & Hi%elem_of_seqZ). split; [nia|]. rewrite Z.add_comm, Z.mul_comm, Z.mod_add, Z.mod_small by lia. done.
  - intros [Hc <-]. exists (c / N). assert (N <> 0) as HN by lia. pose proof (Z.div_mod c N HN). split; [lia|]. apply elem_of_seqZ.
    split; [apply Z.div_pos; lia|]. apply Z.div_lt_upper_bound; lia.
Qed.

Lemma columns_of_groups groups :
  NoDup groups -> Forall (fun g => 0 <= g < N) groups -> exists columns,
  mapM compute_columns_for_custody_group groups = Ok (E := E) columns /\
  StronglySorted Z.lt (dedup (sort_unstable (concat columns))) /\
  (forall c, c ∈ dedup (sort_unstable (concat columns)) <-> 0 <= c < NUMBER_OF_COLUMNS /\ c mod N ∈ groups) /\
  zlen (dedup (sort_unstable (concat columns))) = zlen groups * per_group.
Proof.
  intros Hnd Hr. exists (group_columns <$> groups). rewrite Forall_forall in Hr. pose proof columns_split as [Hs Hp].
  assert (concat (group_columns <$> groups) = groups ≫= group_columns) as Hcat.
  { clear. induction groups as [|g l IH]; [done|]. cbn. by rewrite <- IH. }
  assert (NoDup (concat (group_columns <$> groups))) as Hnc.
  { rewrite Hcat. apply NoDup_bind; [| |done].
    - intros g g' c Hg Hg' Hc%group_columns_elem Hc'%group_columns_elem; [lia|by apply Hr..].
    - intros g Hg. apply NoDup_fmap_2_strong; [|apply NoDup_seqZ]. intros i j _ _ Hij. pose proof custody_group_count.
      apply (Z.mul_reg_l _ _ N); lia. }
  split_and!.
  - apply mapM_Ok_Forall2, Forall2_fmap_r, Forall_Forall2_diag, Forall_forall. intros g Hg. by apply compute_columns_Ok, Hr.
  - apply dedup_sorted, sort_unstable_sorted.
  - intros c. rewrite dedup_elem, sort_unstable_perm, Hcat, list_elem_of_bind. split.
    + intros (g & Hc & Hg). apply group_columns_elem in Hc as [Hc <-]; [done|by apply Hr].
    + intros [Hc Hg]. eexists. split; [|exact Hg]. by apply group_columns_elem; [apply Hr|].
  - rewrite dedup_NoDup by (by rewrite sort_unstable_perm). unfold zlen. rewrite sort_unstable_perm.
    rewrite (concat_blocks_length _ (Z.to_nat per_group)), length_fmap; [rewrite Nat2Z.inj_mul; lia|].
    apply Forall_fmap, Forall_forall. intros g _. cbn. unfold group_columns. by rewrite length_fmap, length_seqZ.
Qed.

Lemma custody_columns_Ok node_id cgc groups :
  length node_id = 32%nat -> 0 <= cgc -> get_custody_groups (E := E) node_id cgc = Ok groups -> exists columns,
  custody_columns_for_cgc node_id cgc = Ok (E := E) columns /\ StronglySorted Z.lt columns /\
  (forall c, c ∈ columns <-> 0 <= c < NUMBER_OF_COLUMNS /\ c mod N ∈ groups) /\
  zlen columns = cgc * per_group.
Proof.
  intros Hl Hc Hg. pose proof Hg as (Hnd & Hr & <- & _)%custody_groups_inv; [|done..].
  destruct (columns_of_groups groups Hnd Hr) as (cols & Hcols & Hsorted & Helem & Hlen).
  eexists. split; [|done]. unfold custody_columns_for_cgc. rewrite Hg. cbn. by rewrite Hcols.
Qed.

Lemma expected_columns_unfold node_id count :
  expected_columns (E := E) node_id count
  = custody_columns_for_cgc node_id (Z.min (Z.max SAMPLES_PER_SLOT count) N).
Proof. done. Qed.

(** C2: a node that custodies [cgc] groups keeps exactly the columns whose index is, modulo
    the number of groups, one of its groups, each once, in increasing order:
    [cgc] times the columns of a group.  A checker of data
    availability built for [count] groups samples the first [max 8 count] groups (at most
    all) of the same walk, so it requires every column the node
    custodies as long as the node's count does not exceed what the checker was built for. *)
Theorem custody_columns_exact node_id cgc groups :
  length node_id = 32%nat -> 0 <= cgc -> get_custody_groups (E := E) node_id cgc = Ok groups -> exists columns,
  custody_columns_for_cgc node_id cgc = Ok (E := E) columns /\ StronglySorted Z.lt columns /\
  (forall c, c ∈ columns <-> 0 <= c < NUMBER_OF_COLUMNS /\ c mod N ∈ groups) /\
  zlen columns = cgc * per_group /\
  (forall count expected, cgc <= Z.max SAMPLES_PER_SLOT count ->
     expected_columns node_id count = Ok (E := E) expected -> columns ⊆ expected).
Proof.
  intros Hl Hc Hg. destruct (custody_columns_Ok node_id cgc groups Hl Hc Hg) as (columns & Hcols & Hs & Helem & Hlen).
  exists columns. do 4 (split; [done|]). intros count expected Hle Hex c Hin.
  assert (cgc <= N) as HcN. { unfold get_custody_groups in Hg. case (Z.ltb_spec N cgc) as [|?] in Hg; [done|lia]. }
  rewrite expected_columns_unfold in Hex. pose proof Hex as (groups' & Hg' & _)%bind_Ok_inv.
  assert (0 <= Z.min (Z.max SAMPLES_PER_SLOT count) N) as Hpos by lia.
  destruct (custody_columns_Ok node_id _ groups' Hl Hpos Hg') as (exp' & Hexp' & _ & Helem' & _).
  rewrite Hex in Hexp'. injection Hexp' as <-. apply Helem'. apply Helem in Hin as [Hb Hin]. split; [done|].
  revert Hin. apply (custody_groups_mono node_id cgc (Z.min (Z.max SAMPLES_PER_SLOT count) N) groups groups' Hl); [lia|done..].
Qed.
End groups.

(** ** The custody state over time *)

(** What can happen to the state: a sidecar is stored, or the loop takes a turn. *)
Inductive custody_event : Type :=
  | ColumnStored (slot : Z)
  | Turn (validator_indices : list Z) (finalized : option BeaconState) (finalized_epoch : Z).

Section history.
  Context `{Us : FuluSpec} `{Sp : BeaconSpec}.

Definition custody_event_step (c : CustodyState) (e : custody_event) : CustodyState :=
  match e with
  | ColumnStored slot => observe_column_slot c slot
  | Turn indices finalized epoch => (custody_turn c indices finalized epoch).1
  end.
Definition stored_slots (events : list custody_event) : list Z :=
  omap (fun e => match e with ColumnStored slot => Some slot | _ => None end) events.

(** The counts required at the turns that had validators and a finalized state. *)
Definition required_at (e : custody_event) : option Z :=
  match e with
  | Turn (i :: indices) (Some s) _ => Some (get_validators_custody_requirement s (i :: indices))
  | _ => None
  end.

Lemma requirement_bounds `{!FuluSpecOk Sp Us} s indices :
  Z.min VALIDATOR_CUSTODY_REQUIREMENT NUMBER_OF_CUSTODY_GROUPS
  <= get_validators_custody_requirement s indices <= NUMBER_OF_CUSTODY_GROUPS.
Proof. unfold get_validators_custody_requirement. lia. Qed.

Lemma event_cgc c e : cgc (custody_event_step c e) = Z.max (cgc c) (default (cgc c) (required_at e)).
Proof.
  destruct e as [slot|[|i indices] [s|] epoch]; cbn; try lia. unfold try_raise.
  case (Z.ltb_spec (cgc c) (get_validators_custody_requirement s (i :: indices))); cbn; lia.
Qed.

(** Over any sequence of stored sidecars and turns of the adjustment loop, the
    custody group count is the highest of the initial one and all those ever required - it
    never falls - the watermark is the lowest slot of a stored sidecar, and the count stays
    one for which the groups are defined if it starts so.  The slot advertised
    to peers is then never below the watermark nor below the window the
    specification has a node serve. *)
Theorem custody_state_exact `{!FuluSpecOk Sp Us} c events current_epoch fulu_fork_epoch min_epochs :
  let c' := fold_left custody_event_step events c in
  cgc c' = foldr Z.max (cgc c) (omap required_at events) /\
  lowest_column_slot c' = foldr Z.min (lowest_column_slot c) (stored_slots events) /\
  (cgc c <= NUMBER_OF_CUSTODY_GROUPS -> cgc c' <= NUMBER_OF_CUSTODY_GROUPS) /\
  (lowest_column_slot c' < u64_max ->
   let advertised := clamp_earliest_available (lowest_column_slot c') current_epoch fulu_fork_epoch min_epochs SLOTS_PER_EPOCH in
   lowest_column_slot c' <= advertised /\
   sat_mul (Z.max (sat_sub current_epoch min_epochs) fulu_fork_epoch) SLOTS_PER_EPOCH <= advertised).
Proof.
  cbv zeta. assert (forall l a b, foldr Z.max (Z.max a b) l = Z.max b (foldr Z.max a l)) as Hmax.
  { intros l a b. induction l as [|x l IH]; cbn; lia. }
  assert (forall l a b, foldr Z.min (Z.min a b) l = Z.min b (foldr Z.min a l)) as Hmin.
  { intros l a b. induction l as [|x l IH]; cbn; lia. }
  split_and!.
  - revert c. induction events as [|e events IH]; intros c; [done|]. cbn [fold_left omap list_omap]. rewrite IH, event_cgc, Hmax.
    destruct (required_at e); cbn; [done|]. clear. induction (omap required_at events); cbn; lia.
  - revert c. induction events as [|e events IH]; intros c; [done|]. cbn [fold_left]. rewrite IH. unfold stored_slots. cbn.
    destruct e as [slot|[|i indices] [s|] epoch]; cbn; [apply Hmin|try done..]. unfold try_raise. by case (_ <? _).
  - revert c. induction events as [|e events IH]; intros c Hc; [done|]. cbn [fold_left]. apply IH. rewrite event_cgc.
    destruct e as [slot|[|i indices] [s|] epoch]; cbn; try lia. pose proof (requirement_bounds s (i :: indices)). lia.
  - intros Hw. unfold clamp_earliest_available. rewrite (proj2 (Z.eqb_neq _ _)) by lia. lia.
Qed.
End history.

(** ** When data is available *)
Section availability_facts.
  Context `{Crypto} `{Sp : BeaconSpec} `{Us : FuluSpec} `{CKzg} {E : Type}.
  Implicit Types (store : SidecarStore) (sidecar : DataColumnSidecar).

Definition cell_bytes (cell : list Z) : bytes := byte.of_Z <$> cell.

(** The array lengths the Rust types of a decoded sidecar fix. *)
Definition sidecar_shaped sidecar : Prop :=
  Forall (fun c => length c = 48%nat) (dcs_kzg_commitments sidecar) /\
  Forall (fun p => length p = 48%nat) (dcs_kzg_proofs sidecar) /\
  Forall (fun cell => length cell = 2048%nat) (dcs_column sidecar).

(** Column [c] of the block is stored, well formed, and its cells match the commitments. *)
Definition column_held store cfg (block_root : bytes) (c : Z) : Prop :=
  exists sidecar, get_data_column_sidecar store block_root c = Some (Some sidecar) /\
    verify_data_column_sidecar sidecar (sidecar_limit cfg sidecar) = Ok tt /\
    ckzg_verify_cells (dcs_kzg_commitments sidecar) (replicate (length (dcs_column sidecar)) (dcs_index sidecar))
      (cell_bytes <$> dcs_column sidecar) (dcs_kzg_proofs sidecar) = Some true.

(** A blob of full size is stored for every commitment, and the blobs match them. *)
Definition blobs_held store (block_root : bytes) (kzg_commitments : list bytes) : Prop :=
  exists sidecars entries, get_blob_sidecars_by_root store block_root = Some sidecars /\
    zlen kzg_commitments <= zlen sidecars /\
    Forall2 (fun i e => blob_entry sidecars i = Some e) (seqZ 0 (zlen kzg_commitments)) entries /\
    ckzg_verify_blobs entries.*1 kzg_commitments entries.*2 = Some true.

Lemma expect_arrays {A} n (l : list (list A)) :
  Forall (fun x => length x = n) l -> mapM (expect_array (E := DataColumnVerifyError) (Z.of_nat n)) l = Ok l.
Proof.
  intros Hl. apply mapM_Ok_Forall2, Forall_Forall2_diag. eapply Forall_impl; [exact Hl|]. intros x Hx. cbn.
  unfold expect_array. unfold zlen. by rewrite Hx, Z.eqb_refl.
Qed.

Lemma kzg_proofs_value sidecar max :
  sidecar_shaped sidecar -> verify_data_column_sidecar sidecar max = Ok tt ->
  verify_data_column_sidecar_kzg_proofs sidecar
  = match ckzg_verify_cells (dcs_kzg_commitments sidecar) (replicate (length (dcs_column sidecar)) (dcs_index sidecar))
            (cell_bytes <$> dcs_column sidecar) (dcs_kzg_proofs sidecar) with
    | Some true => Ok tt
    | Some false => Err KzgProofInvalid
    | None => Err (KzgFailure CKzgFailure)
    end.
Proof.
  intros (Hc & Hp & Hcells) (_ & [Hpos _] & Hcol & Hpr)%structure_Ok. unfold verify_data_column_sidecar_kzg_proofs.
  rewrite (expect_arrays 48 _ Hc : mapM (expect_array 48) _ = _). cbn [mbind result_bind].
  rewrite (expect_arrays 48 _ Hp : mapM (expect_array 48) _ = _). cbn [mbind result_bind].
  assert (mapM (fun cell => expect_array (E := DataColumnVerifyError) 2048 (byte.of_Z <$> cell)) (dcs_column sidecar)
          = Ok (cell_bytes <$> dcs_column sidecar)) as ->.
  { apply mapM_Ok_Forall2, Forall2_fmap_r, Forall_Forall2_diag. eapply Forall_impl; [exact Hcells|]. intros x Hx. cbn.
    unfold expect_array, zlen. by rewrite length_fmap, Hx. }
  cbn [mbind result_bind]. unfold verify_cell_kzg_proof_batch.
  assert (zlen (replicate (length (dcs_column sidecar)) (dcs_index sidecar)) = zlen (dcs_column sidecar)) as ->
    by (unfold zlen; by rewrite length_replicate).
  assert (zlen (cell_bytes <$> dcs_column sidecar) = zlen (dcs_column sidecar)) as -> by (unfold zlen; by rewrite length_fmap).
  rewrite Hcol, Hpr, !Z.eqb_refl, (proj2 (Z.eqb_neq _ _)) by lia. cbn [negb orb].
  by destruct (ckzg_verify_cells _ _ _ _) as [[]|].
Qed.

Definition shaped_in store (block_root : bytes) (c : Z) : Prop :=
  forall sidecar, get_data_column_sidecar store block_root c = Some (Some sidecar) -> sidecar_shaped sidecar.

Lemma check_columns_cons store cfg block_root c expected :
  shaped_in store block_root c ->
  (column_held store cfg block_root c /\
   check_columns (E := E) store cfg block_root (c :: expected) = check_columns store cfg block_root expected) \/
  (~ column_held store cfg block_root c /\
   check_columns (E := E) store cfg block_root (c :: expected) = Ok NotAvailable).
Proof.
  intros Hsh. cbn [check_columns]. unfold column_held.
  destruct (get_data_column_sidecar store block_root c) as [[sidecar|]|] eqn:Hget; [|right; split; [naive_solver|done]..].
  pose proof (Hsh sidecar Hget) as Hshape.
  destruct (verify_data_column_sidecar sidecar (sidecar_limit cfg sidecar)) as [[]|e|] eqn:Hv.
  2:{ right. split; [|done]. intros (sc & [= <-] & Hsc & _). by rewrite Hv in Hsc. }
  2:{ exfalso. unfold verify_data_column_sidecar in Hv. by repeat case (_ <=? _) in Hv || case (_ <? _) in Hv || case (_ =? _) in Hv. }
  rewrite (kzg_proofs_value sidecar _ Hshape Hv).
  destruct (ckzg_verify_cells _ _ _ _) as [[]|] eqn:Hk; [left; by eauto|right; split; [|done]..];
    intros (sc & [= <-] & _ & Hsc); by rewrite Hk in Hsc.
Qed.

Lemma check_columns_spec store cfg block_root expected :
  Forall (shaped_in store block_root) expected ->
  exists verdict, check_columns (E := E) store cfg block_root expected = Ok verdict /\ verdict <> Irrelevant /\
    (verdict = Available <-> Forall (column_held store cfg block_root) expected).
Proof.
  induction 1 as [|c expected Hc _ (verdict & Hv & Hne & Hiff)]; [by exists Available|].
  destruct (check_columns_cons store cfg block_root c expected Hc) as [[Hh ->]|[Hh ->]].
  - exists verdict. rewrite Hiff. split; [done|]. split; [done|]. rewrite Forall_cons. tauto.
  - exists NotAvailable. do 2 (split; [done|]). split; [done|]. by intros [? _]%Forall_cons.
Qed.

Lemma blob_verdict_spec store block_root kzg_commitments :
  kzg_commitments <> [] ->
  blob_is_data_available store block_root kzg_commitments <> Irrelevant /\
  (blob_is_data_available store block_root kzg_commitments = Available <-> blobs_held store block_root kzg_commitments).
Proof.
  intros Hne. unfold blob_is_data_available, blobs_held. pose proof (zlen_nonneg kzg_commitments).
  destruct (Z.eqb_spec (zlen kzg_commitments) 0) as [Hz|Hz]; [by destruct kzg_commitments|].
  destruct (get_blob_sidecars_by_root store block_root) as [sidecars|]; [|naive_solver].
  destruct (Z.ltb_spec (zlen sidecars) (zlen kzg_commitments)); [split; [done|]; split; [done|]; intros (? & ? & [= <-] & ? & _); lia|].
  destruct (mapM (blob_entry sidecars) _) as [entries|] eqn:Hm.
  2:{ split; [done|]. split; [done|]. intros (? & entries & [= <-] & _ & Hf%mapM_Some & _). by rewrite Hf in Hm. }
  apply mapM_Some in Hm. assert (zlen entries = zlen kzg_commitments) as Hl.
  { apply Forall2_length in Hm. rewrite length_seqZ in Hm. unfold zlen in *. lia. }
  unfold verify_blob_kzg_proof_batch, zlen. rewrite !length_fmap. fold (zlen entries) (zlen kzg_commitments).
  rewrite Hl, Z.eqb_refl, (proj2 (Z.eqb_neq _ _) Hz). cbn [negb orb]. 
  assert (forall entries', Forall2 (fun i e => blob_entry sidecars i = Some e) (seqZ 0 (zlen kzg_commitments)) entries' -> entries' = entries) as Huniq.
  { intros entries' Hf%mapM_Some. apply mapM_Some in Hm. rewrite Hm in Hf. by injection Hf. }
  destruct (ckzg_verify_blobs _ _ _) as [[]|] eqn:Hk; cbn [ok_or]; (split; [done|]); split; try done.
  - intros _. exists sidecars, entries. done.
  - intros (? & entries' & [= <-] & _ & ->%Huniq & Hk'). by rewrite Hk in Hk'.
  - intros (? & entries' & [= <-] & _ & ->%Huniq & Hk'). by rewrite Hk in Hk'.
Qed.

(** C4: the verdict on a block's data is always given: irrelevant exactly when the block
    commits to no blobs, and otherwise available exactly when every expected column is
    stored, well formed under the blob limit of its epoch, and has cells that match its
    commitments, or - for blocks before the column format - a full-size blob is stored
    for every commitment and the blobs match them.  A database error counts as absence. *)
Theorem availability_exact store cfg expected block_root kzg_commitments :
  Forall (shaped_in store block_root) expected ->
  exists verdict, is_data_available (E := E) store cfg expected block_root kzg_commitments = Ok verdict /\
    (verdict = Irrelevant <-> kzg_commitments = []) /\
    (verdict = Available <-> kzg_commitments <> [] /\
       (Forall (column_held store cfg block_root) expected \/ blobs_held store block_root kzg_commitments)).
Proof.
  intros Hsh. unfold is_data_available, column_is_data_available.
  destruct kzg_commitments as [|k ks]; [exists Irrelevant; split; [done|]; split; [done|]; split; [done|]; by intros [? _]|]. rewrite (proj2 (Z.eqb_neq _ _)) by done.
  destruct (check_columns_spec store cfg block_root expected Hsh) as (verdict & -> & Hne & Hiff). cbn [mbind result_bind].
  destruct (blob_verdict_spec store block_root (k :: ks) ltac:(done)) as [Hbne Hbiff].
  setoid_rewrite <- Hiff. setoid_rewrite <- Hbiff. case_bool_decide as Hav; [exists Available; do 2 (split; [done|]); split; [by auto|done]|].
  eexists. split; [done|].
  destruct verdict, (blob_is_data_available store block_root (k :: ks)); cbn; (split; [|split]); (done || intuition congruence).
Qed.
End availability_facts.
