(* ===== verification/Gossip.v ===== *)
(** * Networking: gossip

    Topics (crates/pharos-network/src/topics.rs), payloads (codec/snappy_block.rs),
    message ids (gossip/message_id.rs) and the attestation subnets a node subscribes
    to (discovery/subnets.rs).

    Theorem [topic_parse_exact]: topic strings parse back, and what parses has the
    documented form.  Theorem [message_id_separates]: outside phase 0 two messages
    with the same id agree in topic and content unless the digest collides.  Theorem
    [subscribed_subnets_exact]: the subnets are those of the 256-bit node id. *)

From stdpp Require Import base list strings.
From Stdlib Require Import ZArith Lia Ascii String.
From coqutil Require Import Byte Word.LittleEndianList.
From S2P Require Import Prelude Text SszCodec Shuffling Spec Rpc RpcTypes.

(** ** Payloads *)
Inductive NetworkError : Type :=
  | NeSnappy
  | PayloadTooLarge (got max : Z)
  | InvalidTopic.

Definition MAX_PAYLOAD_SIZE : Z := 10 * 1024 * 1024.

Section payloads.
Context `{Snappy}.

Definition encode_snappy_block (uncompressed : bytes) : result NetworkError bytes := ok_or (compress_vec uncompressed) NeSnappy.

Definition decode_snappy_block (compressed : bytes) (max_uncompressed : Z) : result NetworkError bytes :=
  claimed_len ← ok_or (decompress_len compressed) NeSnappy;
  if max_uncompressed <? claimed_len then Err (PayloadTooLarge claimed_len max_uncompressed)
  else ok_or (decompress_vec compressed) NeSnappy.
End payloads.

(** ** Topics *)
Inductive GossipTopicKind : Type :=
  | BeaconBlock
  | BeaconAggregateAndProof
  | BeaconAttestation (subnet : Z)
  | VoluntaryExit
  | ProposerSlashing
  | AttesterSlashing
  | SyncCommitteeContributionAndProof
  | SyncCommittee (subnet : Z)
  | LightClientFinalityUpdate
  | LightClientOptimisticUpdate
  | BlsToExecutionChange
  | BlobSidecar (subnet : Z)
  | DataColumnSidecar (subnet : Z).

Record GossipTopic : Type := mkGossipTopic {
  gt_fork_digest : bytes;
  gt_kind : GossipTopicKind;
}.

Local Open Scope string_scope.
Local Open Scope Z_scope.

Definition topic_kind_name (kind : GossipTopicKind) : string :=
  match kind with
  | BeaconBlock => "beacon_block"
  | BeaconAggregateAndProof => "beacon_aggregate_and_proof"
  | BeaconAttestation subnet => "beacon_attestation_" +:+ u64_to_string subnet
  | VoluntaryExit => "voluntary_exit"
  | ProposerSlashing => "proposer_slashing"
  | AttesterSlashing => "attester_slashing"
  | SyncCommitteeContributionAndProof => "sync_committee_contribution_and_proof"
  | SyncCommittee subnet => "sync_committee_" +:+ u64_to_string subnet
  | LightClientFinalityUpdate => "light_client_finality_update"
  | LightClientOptimisticUpdate => "light_client_optimistic_update"
  | BlsToExecutionChange => "bls_to_execution_change"
  | BlobSidecar subnet => "blob_sidecar_" +:+ u64_to_string subnet
  | DataColumnSidecar subnet => "data_column_sidecar_" +:+ u64_to_string subnet
  end.

(** [{:02x}]. *)
Definition nibble_char (n : Z) : ascii := ascii_of_N (Z.to_N (if n <? 10 then 48 + n else 87 + n)).
Definition hex_byte (b : byte) : string :=
  String (nibble_char (byte.unsigned b / 16)) (String (nibble_char (byte.unsigned b mod 16)) "").
Definition hex_bytes (bs : bytes) : string := foldr (fun b s => hex_byte b +:+ s) "" bs.

Definition topic_str (t : GossipTopic) : string :=
  "/eth2/" +:+ hex_bytes (gt_fork_digest t) +:+ "/" +:+ topic_kind_name (gt_kind t) +:+ "/ssz_snappy".

(** [str::split]. *)
Fixpoint split (sep : ascii) (s : string) : list string :=
  match s with
  | EmptyString => [""]
  | String c s =>
      if (c =? sep)%char then "" :: split sep s
      else match split sep s with
           | part :: parts => String c part :: parts
           | [] => [String c ""]
           end
  end.

(** [str::strip_prefix]. *)
Fixpoint strip_prefix (p s : string) : option string :=
  match p, s with
  | EmptyString, _ => Some s
  | String c p, String d s => if (c =? d)%char then strip_prefix p s else None
  | _, _ => None
  end.

Definition hex_nibble (c : ascii) : option Z :=
  let b := Z.of_N (N_of_ascii c) in
  if (48 <=? b) && (b <=? 57) then Some (b - 48)
  else if (97 <=? b) && (b <=? 102) then Some (b - 97 + 10)
  else None.

(** The loop over the digest: two characters a byte. *)
Fixpoint parse_hex (s : string) : option bytes :=
  match s with
  | EmptyString => Some []
  | String hi (String lo s) =>
      h ← hex_nibble hi;
      l ← hex_nibble lo;
      rest ← parse_hex s;
      Some (byte.of_Z (Z.lor (Z.shiftl h 4) l) :: rest)
  | _ => None
  end.

Definition parse_subnet (s : string) : option Z := match parse_u64 s with Ok n => Some n | _ => None end.

Definition parse_topic_kind (name : string) : option GossipTopicKind :=
  if String.eqb name "beacon_block" then Some BeaconBlock
  else if String.eqb name "beacon_aggregate_and_proof" then Some BeaconAggregateAndProof
  else if String.eqb name "voluntary_exit" then Some VoluntaryExit
  else if String.eqb name "proposer_slashing" then Some ProposerSlashing
  else if String.eqb name "attester_slashing" then Some AttesterSlashing
  else if String.eqb name "sync_committee_contribution_and_proof" then Some SyncCommitteeContributionAndProof
  else if String.eqb name "light_client_finality_update" then Some LightClientFinalityUpdate
  else if String.eqb name "light_client_optimistic_update" then Some LightClientOptimisticUpdate
  else if String.eqb name "bls_to_execution_change" then Some BlsToExecutionChange
  else
    match strip_prefix "beacon_attestation_" name with
    | Some subnet_str => BeaconAttestation <$> parse_subnet subnet_str
    | None =>
        match strip_prefix "sync_committee_" name with
        | Some subnet_str =>
            subnet_id ← parse_subnet subnet_str;
            if SYNC_COMMITTEE_SUBNET_COUNT <=? subnet_id then None else Some (SyncCommittee subnet_id)
        | None =>
            match strip_prefix "blob_sidecar_" name with
            | Some subnet_str => BlobSidecar <$> parse_subnet subnet_str
            | None =>
                match strip_prefix "data_column_sidecar_" name with
                | Some subnet_str => DataColumnSidecar <$> parse_subnet subnet_str
                | None => None
                end
            end
        end
    end.

Definition topic_parse (s : string) : result NetworkError GossipTopic :=
  match split "/" s with
  | [p0; p1; hex_str; name; p4] =>
      if negb (String.eqb p0 "") then Err InvalidTopic
      else if negb (String.eqb p1 "eth2") then Err InvalidTopic
      else if negb (String.eqb p4 "ssz_snappy") then Err InvalidTopic
      else if negb (String.length hex_str =? 8)%nat then Err InvalidTopic
      else
        digest ← ok_or (parse_hex hex_str) InvalidTopic;
        kind ← ok_or (parse_topic_kind name) InvalidTopic;
        Ok (mkGossipTopic digest kind)
  | _ => Err InvalidTopic
  end.

Definition compute_subnet_for_blob_sidecar (index blob_sidecar_subnet_count : Z) : result NetworkError Z :=
  if blob_sidecar_subnet_count =? 0 then Panic else Ok (index mod blob_sidecar_subnet_count).
Definition compute_subnet_for_data_column_sidecar (column_index data_column_sidecar_subnet_count : Z) : result NetworkError Z :=
  if data_column_sidecar_subnet_count =? 0 then Panic else Ok (column_index mod data_column_sidecar_subnet_count).

(** ** Message ids *)
Definition MESSAGE_DOMAIN_VALID_SNAPPY : bytes := [Byte.x01; Byte.x00; Byte.x00; Byte.x00].
Definition MESSAGE_DOMAIN_INVALID_SNAPPY : bytes := [Byte.x00; Byte.x00; Byte.x00; Byte.x00].

(** [hex_nibble] of message_id.rs: capitals too. *)
Definition hex_nibble_any (c : ascii) : option Z :=
  let b := Z.of_N (N_of_ascii c) in
  if (48 <=? b) && (b <=? 57) then Some (b - 48)
  else if (97 <=? b) && (b <=? 102) then Some (b - 97 + 10)
  else if (65 <=? b) && (b <=? 70) then Some (b - 65 + 10)
  else None.
Fixpoint parse_hex_any (s : string) : option bytes :=
  match s with
  | EmptyString => Some []
  | String hi (String lo s) =>
      h ← hex_nibble_any hi;
      l ← hex_nibble_any lo;
      rest ← parse_hex_any s;
      Some (byte.of_Z (Z.lor (Z.shiftl h 4) l) :: rest)
  | _ => None
  end.
Definition parse_fork_digest_from_topic_str (s : string) : option bytes :=
  match split "/" s with
  | [_; _; hex_str; _; _] => if negb (String.length hex_str =? 8)%nat then None else parse_hex_any hex_str
  | _ => None
  end.

Definition string_bytes (s : string) : bytes := String.list_byte_of_string s.

Section ids.
Context `{Snappy} `{Crypto}.

(** What is hashed after the topic: the domain and the content. *)
Definition message_content (raw_data : bytes) : bytes * bytes :=
  match decode_snappy_block raw_data MAX_PAYLOAD_SIZE with
  | Ok d => (MESSAGE_DOMAIN_VALID_SNAPPY, d)
  | _ => (MESSAGE_DOMAIN_INVALID_SNAPPY, raw_data)
  end.

Definition compute_message_id (topic : string) (raw_data phase0_fork_digest : bytes) : bytes :=
  let is_phase0 := bool_decide (parse_fork_digest_from_topic_str topic = Some phase0_fork_digest) in
  let '(domain, payload) := message_content raw_data in
  if is_phase0 then take 20 (sha256 (domain ++ payload))
  else
    let topic_bytes := string_bytes topic in
    let topic_len_le := to_le_bytes 8 (zlen topic_bytes) in
    take 20 (sha256 (domain ++ topic_len_le ++ topic_bytes ++ payload)).
End ids.

(** ** Attestation subnets of a node *)
Definition SUBNETS_PER_NODE : Z := 2.
Definition EPOCHS_PER_SUBNET_SUBSCRIPTION : Z := 256.
Definition PREFIX_BITS : Z := 6.

Section subnets.
Context `{Crypto} `{BeaconSpec}.

(** [node_id] is the 32 big-endian bytes. *)
Definition compute_subscribed_subnets {E} (raw : bytes) (epoch : Z) : result E (list Z) :=
  b0 ← index raw 0;
  b31 ← index raw 31;
  let node_id_prefix := Z.shiftr (byte.unsigned b0) (8 - PREFIX_BITS) in
  let node_offset := byte.unsigned b31 in
  let epoch_bucket := wadd epoch node_offset / EPOCHS_PER_SUBNET_SUBSCRIPTION in
  let seed_bytes := sha256 (to_le_bytes 8 epoch_bucket) in
  mapM (fun i =>
    permuted ← compute_shuffled_index sha256 node_id_prefix (Z.shiftl 1 PREFIX_BITS) seed_bytes SHUFFLE_ROUND_COUNT;
    Ok (wadd permuted i mod ATTESTATION_SUBNET_COUNT)) (seqZ 0 SUBNETS_PER_NODE).
End subnets.

(** ** Strings *)
(** The parts between separators, joined again. *)
Fixpoint join (sep : ascii) (parts : list string) : string :=
  match parts with
  | [] => ""
  | [p] => p
  | p :: parts => p +:+ String sep (join sep parts)
  end.

Fixpoint free_of (sep : ascii) (s : string) : Prop :=
  match s with EmptyString => True | String c s => c <> sep /\ free_of sep s end.

Lemma split_ne sep s : split sep s <> [].
Proof. destruct s as [|c s]; cbn; [done|]. destruct (c =? sep)%char; [done|]. by destruct (split sep s). Qed.

Lemma join_split sep s : join sep (split sep s) = s.
Proof.
  induction s as [|c s IH]; cbn [split]; [done|]. pose proof (split_ne sep s). destruct (Ascii.eqb_spec c sep) as [->|].
  - destruct (split sep s); [done|]. change (String sep (join sep (s0 :: l)) = String sep s). by f_equal.
  - destruct (split sep s) as [|p [|q parts] ]; [done|..]; [change (String c p = String c s)|change (String c (join sep (p :: q :: parts)) = String c s)];
      by f_equal.
Qed.

Lemma split_free sep s : free_of sep s -> split sep s = [s].
Proof.
  induction s as [|c s IH]; cbn; [done|]. intros [Hc Hs]. destruct (Ascii.eqb_spec c sep); [done|]. by rewrite (IH Hs).
Qed.

Lemma split_part sep p s : free_of sep p -> split sep (p +:+ String sep s) = p :: split sep s.
Proof.
  induction p as [|c p IH].
  - intros _. change (split sep ("" +:+ String sep s)) with (split sep (String sep s)). cbn [split]. by rewrite Ascii.eqb_refl.
  - intros [Hc Hp]. change (String c p +:+ String sep s) with (String c (p +:+ String sep s)). cbn [split].
    destruct (Ascii.eqb_spec c sep); [done|]. by rewrite (IH Hp).
Qed.

Lemma strip_prefix_Some p s r : strip_prefix p s = Some r <-> s = p +:+ r.
Proof.
  revert s. induction p as [|c p IH]; intros s; [cbn; split; [by intros [= ->]|by intros ->]|].
  destruct s as [|d s]; [done|]. change (String c p +:+ r) with (String c (p +:+ r)). cbn [strip_prefix].
  destruct (Ascii.eqb_spec c d) as [->|Hne].
  - rewrite IH. split; [by intros ->|by intros [= ->]].
  - split; [done|]. intros [= -> ->]. done.
Qed.

(** ** Hexadecimal digests *)
Lemma hex_nibble_Some c n : hex_nibble c = Some n -> 0 <= n < 16 /\ c = nibble_char n.
Proof. destruct c as [ [] [] [] [] [] [] [] []]; cbn; try done; by intros [= <-]. Qed.

Lemma nibble_lor h l : 0 <= h < 16 -> 0 <= l < 16 -> Z.lor (Z.shiftl h 4) l = 16 * h + l.
Proof. intros Hh Hl. rewrite Z.lor_comm, lor_high by lia. lia. Qed.

Lemma parse_hex_byte b s : parse_hex (hex_byte b +:+ s) = (rest ← parse_hex s; Some (b :: rest)).
Proof. by destruct b. Qed.

Lemma parse_hex_bytes bs : parse_hex (hex_bytes bs) = Some bs.
Proof. induction bs as [|b bs IH]; [done|]. cbn [hex_bytes foldr]. rewrite parse_hex_byte. unfold hex_bytes in IH. by rewrite IH. Qed.

Lemma parse_hex_Some bs : forall s, parse_hex s = Some bs -> s = hex_bytes bs.
Proof.
  induction bs as [|b bs IH]; intros [|hi [|lo s] ]; cbn [parse_hex]; try done.
  - intros (h & _ & (l & _ & (rest & _ & [=])%bind_Some)%bind_Some)%bind_Some.
  - intros (h & Hh & (l & Hl & (rest & Hr & [= <- ->])%bind_Some)%bind_Some)%bind_Some.
    apply hex_nibble_Some in Hh as [Hh ->]. apply hex_nibble_Some in Hl as [Hl ->]. cbn [hex_bytes foldr]. unfold hex_bytes in IH. rewrite <- (IH s Hr).
    unfold hex_byte. rewrite nibble_lor, byte_of_Z_small by lia. rewrite (Z.add_comm (16 * h)), (Z.mul_comm 16).
    rewrite Z.div_add, Z.mod_add, (Z.div_small l), (Z.mod_small l) by lia. done.
Qed.

(** ** Topic names *)
Lemma parse_digits_free acc s v : parse_digits acc s = Ok v -> free_of "/" s.
Proof.
  revert acc. induction s as [|c s IH]; intros acc; cbn [parse_digits free_of]; [done|].
  destruct (digit_value c) as [d|] eqn:Hd; [|done]. destruct (checked_mul acc 10) as [m|]; [|done].
  destruct (checked_add m d) as [a|]; [|done]. intros Hs%IH. split; [|done]. by intros ->.
Qed.

Lemma parse_digits_range acc s v : u64 acc -> parse_digits acc s = Ok v -> u64 v.
Proof.
  revert acc. induction s as [|c s IH]; intros acc Hacc; cbn [parse_digits]; [by intros [= <-]|].
  destruct (digit_value c) as [d|] eqn:Hd; [|done]. destruct (checked_mul acc 10) as [m|] eqn:Hm; [|done].
  destruct (checked_add m d) as [a|] eqn:Ha; [|done]. apply IH.
  assert (0 <= d) by (unfold digit_value in Hd; destruct (_ && _) eqn:Hr in Hd; [injection Hd as <-; lia|done]).
  unfold checked_mul, checked_add in *. unfold u64 in *.
  repeat match goal with H : (if ?b then _ else _) = Some _ |- _ => destruct b eqn:?; [|done]; injection H as <- | H : (if ?b then _ else _) = Some _ |- _ => destruct b eqn:?; [done|]; injection H as <- end; lia.
Qed.

Lemma parse_subnet_Some s v : parse_subnet s = Some v -> u64 v /\ free_of "/" s.
Proof.
  unfold parse_subnet, parse_u64. destruct s as [|c s]; [done|].
  destruct ((c =? "+")%char || (c =? "-")%char) eqn:Hsign.
  - destruct s as [|d s]; [done|]. destruct (Ascii.eqb_spec c "+") as [->|].
    + destruct (parse_digits 0 (String d s)) eqn:Hp; [|done..]. intros [= <-]. split; [by eapply parse_digits_range|].
      split; [done|]. by eapply parse_digits_free.
    + destruct (parse_digits 0 (String c (String d s))) eqn:Hp; [|done..]. intros [= <-]. split; [by eapply parse_digits_range|]. by eapply parse_digits_free.
  - destruct (parse_digits 0 (String c s)) eqn:Hp; [|done..]. intros [= <-]. split; [by eapply parse_digits_range|]. by eapply parse_digits_free.
Qed.

Lemma parse_subnet_print v : u64 v -> parse_subnet (u64_to_string v) = Some v.
Proof. intros Hv. unfold parse_subnet. by rewrite parse_u64_to_string. Qed.

(** The fixed part of a name and the subnet. *)
Definition name_parts (kind : GossipTopicKind) : string * option Z :=
  match kind with
  | BeaconAttestation subnet => ("beacon_attestation_", Some subnet)
  | SyncCommittee subnet => ("sync_committee_", Some subnet)
  | BlobSidecar subnet => ("blob_sidecar_", Some subnet)
  | DataColumnSidecar subnet => ("data_column_sidecar_", Some subnet)
  | _ => (topic_kind_name kind, None)
  end.

Definition wf_kind (kind : GossipTopicKind) : Prop :=
  match kind with
  | SyncCommittee subnet => 0 <= subnet < SYNC_COMMITTEE_SUBNET_COUNT
  | BeaconAttestation subnet | BlobSidecar subnet | DataColumnSidecar subnet => u64 subnet
  | _ => True
  end.
Definition wf_topic (t : GossipTopic) : Prop := zlen (gt_fork_digest t) = 4 /\ wf_kind (gt_kind t).

(** [name] is the name of [kind], its subnet in some decimal notation. *)
Definition names (kind : GossipTopicKind) (name : string) : Prop :=
  match (name_parts kind).2 with
  | None => name = (name_parts kind).1
  | Some subnet => exists digits, name = (name_parts kind).1 +:+ digits /\ parse_subnet digits = Some subnet
  end.

Lemma parse_kind_names name kind : parse_topic_kind name = Some kind -> wf_kind kind /\ names kind name.
Proof.
  unfold parse_topic_kind.
  do 9 match goal with |- context [if String.eqb ?a ?b then _ else _] => destruct (String.eqb_spec a b) as [->|]; [by intros [= <-]|] end.
  repeat match goal with |- context [strip_prefix ?p name] => destruct (strip_prefix p name) as [r|] eqn:? end; try done.
  - intros (n & Hn & ->)%fmap_Some. split; [by apply parse_subnet_Some in Hn as [? _]|]. exists r. by split; [apply strip_prefix_Some|].
  - intros (n & Hn & Hk)%bind_Some. destruct (Z.leb_spec SYNC_COMMITTEE_SUBNET_COUNT n); [done|]. injection Hk as <-.
    split; [apply parse_subnet_Some in Hn as [ [? _] _]; cbn; lia|]. exists r. by split; [apply strip_prefix_Some|].
  - intros (n & Hn & ->)%fmap_Some. split; [by apply parse_subnet_Some in Hn as [? _]|]. exists r. by split; [apply strip_prefix_Some|].
  - intros (n & Hn & ->)%fmap_Some. split; [by apply parse_subnet_Some in Hn as [? _]|]. exists r. by split; [apply strip_prefix_Some|].
Qed.

#[local] Arguments String.append !_ _ /.
Lemma names_parse_kind kind name : wf_kind kind -> names kind name -> parse_topic_kind name = Some kind.
Proof.
  intros Hk. destruct kind; unfold names; cbn [name_parts fst snd]; try (by intros ->); intros (digits & -> & Hd).
  - unfold parse_topic_kind. cbn -[parse_subnet]. by rewrite Hd.
  - unfold parse_topic_kind. cbn -[parse_subnet]. destruct (String.eqb_spec digits "contribution_and_proof") as [->|]; [done|].
    rewrite Hd. cbn. cbn in Hk. by rewrite (proj2 (Z.leb_gt _ _)) by lia.
  - unfold parse_topic_kind. cbn -[parse_subnet]. by rewrite Hd.
  - unfold parse_topic_kind. cbn -[parse_subnet]. by rewrite Hd.
Qed.

Lemma free_app sep a b : free_of sep (a +:+ b) <-> free_of sep a /\ free_of sep b.
Proof. induction a as [|c a IH]; cbn; [naive_solver|]. fold (a +:+ b). rewrite IH. naive_solver. Qed.

Lemma names_free kind name : names kind name -> free_of "/" name.
Proof.
  destruct kind; unfold names; cbn [name_parts fst snd]; try (by intros ->); intros (digits & -> & [_ Hf]%parse_subnet_Some);
    apply free_app; by split.
Qed.

Lemma name_named kind : wf_kind kind -> names kind (topic_kind_name kind).
Proof.
  destruct kind; intros Hk; try done; exists (u64_to_string subnet); (split; [done|]); apply parse_subnet_print; try done.
  cbn in Hk. unfold SYNC_COMMITTEE_SUBNET_COUNT in Hk. unfold u64, U64. lia.
Qed.

Lemma hex_bytes_free bs : free_of "/" (hex_bytes bs).
Proof. induction bs as [|b bs IH]; [done|]. cbn [hex_bytes foldr]. apply free_app. split; [by destruct b|done]. Qed.
Lemma hex_bytes_length bs : String.length (hex_bytes bs) = (2 * length bs)%nat.
Proof.
  induction bs as [|b bs IH]; [done|]. change (hex_bytes (b :: bs)) with (hex_byte b +:+ hex_bytes bs).
  unfold hex_byte. cbn [String.length String.append]. rewrite IH. cbn. lia.
Qed.

Definition topic_text (digest : bytes) (name : string) : string := "/eth2/" +:+ hex_bytes digest +:+ "/" +:+ name +:+ "/ssz_snappy".

Lemma split_topic digest name :
  free_of "/" name -> split "/" (topic_text digest name) = [""; "eth2"; hex_bytes digest; name; "ssz_snappy"].
Proof.
  intros Hn.
  change (topic_text digest name) with ("" +:+ String "/" ("eth2" +:+ String "/" (hex_bytes digest +:+ String "/" (name +:+ String "/" "ssz_snappy")))).
  rewrite !split_part by (done || apply hex_bytes_free). by rewrite split_free.
Qed.

Lemma topic_parse_text digest name kind :
  zlen digest = 4 -> free_of "/" name -> parse_topic_kind name = Some kind -> topic_parse (topic_text digest name) = Ok (mkGossipTopic digest kind).
Proof.
  intros Hd Hn Hk. unfold topic_parse. rewrite split_topic by done. cbn [String.eqb negb]. rewrite hex_bytes_length.
  unfold zlen in Hd. replace (length digest) with 4%nat by lia. change (negb (2 * 4 =? 8)%nat) with false. cbn iota.
  cbn -[parse_hex parse_topic_kind]. by rewrite parse_hex_bytes, Hk.
Qed.


(** Other notations of a subnet are accepted, which the documented format excludes. *)
Lemma topic_alias :
  topic_parse "/eth2/01020304/beacon_attestation_+05/ssz_snappy" = topic_parse "/eth2/01020304/beacon_attestation_5/ssz_snappy" /\
  topic_parse "/eth2/01020304/beacon_attestation_64/ssz_snappy" =
    Ok (mkGossipTopic [Byte.x01; Byte.x02; Byte.x03; Byte.x04] (BeaconAttestation 64)).
Proof. split; vm_compute; reflexivity. Qed.

(** ** Message ids *)
Lemma string_bytes_inj s t : string_bytes s = string_bytes t -> s = t.
Proof.
  unfold string_bytes. intros Heq. apply (f_equal String.string_of_list_byte) in Heq.
  by rewrite !String.string_of_list_byte_of_string in Heq.
Qed.

Lemma to_le_bytes_inj n a b : 0 <= a < 2 ^ (8 * Z.of_nat n) -> 0 <= b < 2 ^ (8 * Z.of_nat n) -> to_le_bytes n a = to_le_bytes n b -> a = b.
Proof. intros Ha Hb Heq. rewrite <- (from_to_le_bytes n a Ha), <- (from_to_le_bytes n b Hb). by rewrite Heq. Qed.

Section ids_ok.
Context `{Snappy} `{Crypto}.

Lemma message_domain_length raw : length (message_content raw).1 = 4%nat.
Proof. unfold message_content. by destruct (decode_snappy_block raw MAX_PAYLOAD_SIZE). Qed.

(** Message ids separate messages.  Outside phase 0, if two messages get the same
    id then they were published on the same topic with the same content, where content
    is the decompressed payload, or the raw bytes when they do not decompress within
    the limit, or else two different preimages have the same digest prefix. *)
Theorem message_id_separates topic1 topic2 raw1 raw2 phase0 :
  parse_fork_digest_from_topic_str topic1 <> Some phase0 -> parse_fork_digest_from_topic_str topic2 <> Some phase0 ->
  zlen (string_bytes topic1) < U64 -> zlen (string_bytes topic2) < U64 ->
  compute_message_id topic1 raw1 phase0 = compute_message_id topic2 raw2 phase0 ->
  (topic1 = topic2 /\ message_content raw1 = message_content raw2) \/
  exists x y, x <> y /\ take 20 (sha256 x) = take 20 (sha256 y).
Proof.
  intros Hd1 Hd2 Hl1 Hl2. unfold compute_message_id. rewrite !bool_decide_eq_false_2 by done.
  pose proof (message_domain_length raw1) as Hm1. pose proof (message_domain_length raw2) as Hm2.
  destruct (message_content raw1) as [d1 p1], (message_content raw2) as [d2 p2]; cbn [fst] in *. intros Hid.
  set (x := app d1 _) in Hid. set (y := app d2 _) in Hid.
  destruct (decide (x = y)) as [Hxy|Hne]; [left|right; by exists x, y]. subst x y.
  apply app_inj_1 in Hxy as [-> Hxy]; [|congruence]. apply app_inj_1 in Hxy as [Hlen Hxy]; [|by rewrite !length_to_le_bytes].
  apply to_le_bytes_inj in Hlen; [|split; [apply zlen_nonneg|done]..].
  apply app_inj_1 in Hxy as [Htopic ->]; [|unfold zlen in Hlen; lia]. by apply string_bytes_inj in Htopic.
Qed.
End ids_ok.

(** ** Subscribed subnets *)
Section subnets_ok.
Context `{HC : Crypto} `{!CryptoOk HC} `{BeaconSpec}.

Lemma compute_shuffled_index_Ok {E} i n seed rounds :
  0 < n <= 2 ^ 63 -> 0 <= i < n -> exists r, compute_shuffled_index (E:=E) sha256 i n seed rounds = Ok r /\ 0 <= r < n.
Proof.
  intros Hn Hi. unfold compute_shuffled_index. rewrite (proj2 (Z.ltb_lt _ _)) by lia.
  apply (foldM_ok _ (fun r => 0 <= r < n)); [|done]. intros round r _ Hr. by apply shuffle_round_Ok; [apply sha256_length|..].
Qed.

(** The node id as a 256-bit number. *)
Definition node_id (raw : bytes) : Z := from_le_bytes (reverse raw).

Lemma node_id_ends b0 mid b31 :
  length mid = 30%nat ->
  Z.shiftr (node_id (b0 :: mid ++ [b31])%list) 250 = Z.shiftr (byte.unsigned b0) 2 /\ node_id (b0 :: mid ++ [b31])%list mod 256 = byte.unsigned b31.
Proof.
  intros Hmid. unfold node_id. rewrite reverse_cons, reverse_app, reverse_singleton.
  rewrite !from_le_bytes_app. pose proof (from_le_bytes_bound (reverse mid)) as Hm.
  change (from_le_bytes [b0]) with (LittleEndianList.le_combine [b0]). change (from_le_bytes [b31]) with (LittleEndianList.le_combine [b31]).
  rewrite !LittleEndianList.le_combine_1. unfold zlen in *. rewrite length_app, length_reverse, Hmid in *. cbn [length] in *.
  pose proof (byte.unsigned_range b0). pose proof (byte.unsigned_range b31).
  change (2 ^ (8 * Z.of_nat 1)) with 256. change (2 ^ (8 * Z.of_nat (1 + 30))) with (2 ^ 248). change (2 ^ (8 * Z.of_nat 30)) with (2 ^ 240) in Hm. split.
  - rewrite !Z.shiftr_div_pow2 by lia. change (2 ^ 250) with (2 ^ 248 * 4). change (2 ^ 2) with 4. rewrite <- Z.div_div by lia. f_equal.
    rewrite (Z.mul_comm (2 ^ 248)), Z.div_add by lia. rewrite Z.div_small; lia.
  - rewrite <- Z.add_assoc. change (2 ^ 248) with (256 * 2 ^ 240). rewrite <- Z.mul_assoc, <- Z.mul_add_distr_l, Z.mul_comm, Z.mod_add by lia.
    apply Z.mod_small. lia.
Qed.

(** The subnets a node subscribes to are those of the specification: the bytes
    that are read are the top six bits and the low eight bits of the 256-bit node id,
    the permuted prefix is found, and the result is that subnet and the next one,
    which are different subnets in range. *)
Theorem subscribed_subnets_exact {E} raw epoch :
  length raw = 32%nat -> 0 <= epoch -> epoch + 255 < U64 ->
  exists p, 0 <= p < 64 /\
    compute_shuffled_index (E:=E) sha256 (Z.shiftr (node_id raw) 250) 64
      (sha256 (to_le_bytes 8 ((epoch + node_id raw mod 256) / 256))) SHUFFLE_ROUND_COUNT = Ok p /\
    compute_subscribed_subnets (E:=E) raw epoch = Ok [p; (p + 1) mod 64].
Proof.
  intros Hraw He Hsum. destruct raw as [|b0 raw]; [done|]. destruct raw as [|b31 mid _] using rev_ind; [done|].
  cbn in Hraw. rewrite length_app in Hraw. cbn in Hraw. assert (length mid = 30%nat) as Hmid by lia.
  destruct (node_id_ends b0 mid b31 Hmid) as [-> ->]. pose proof (byte.unsigned_range b0) as Hb0. pose proof (byte.unsigned_range b31) as Hb31.
  set (seed := sha256 _). destruct (compute_shuffled_index_Ok (E:=E) (Z.shiftr (byte.unsigned b0) 2) 64 seed SHUFFLE_ROUND_COUNT) as (p & Hp & Hrange).
  { lia. }
  { rewrite Z.shiftr_div_pow2 by lia. split; [apply Z.div_pos; lia|apply Z.div_lt_upper_bound; lia]. }
  exists p. split; [done|]. split; [done|]. unfold compute_subscribed_subnets.
  assert (index (E:=E) (b0 :: mid ++ [b31])%list 0 = Ok b0) as -> by (apply index_Ok_iff; done).
  assert (index (E:=E) (b0 :: mid ++ [b31])%list 31 = Ok b31) as ->.
  { apply index_Ok_iff. split; [lia|]. change (Z.to_nat 31) with (S 30). change ((mid ++ [b31])%list !! 30%nat = Some b31). rewrite lookup_app_r by lia. by rewrite Hmid. }
  cbn [mbind result_bind]. unfold EPOCHS_PER_SUBNET_SUBSCRIPTION, PREFIX_BITS, SUBNETS_PER_NODE, ATTESTATION_SUBNET_COUNT.
  rewrite wadd_small by lia. change (8 - 6) with 2. change (Z.shiftl 1 6) with 64. fold seed.
  change (seqZ 0 2) with [0; 1]. cbn [mapM]. rewrite Hp. cbn [mbind result_bind]. rewrite !wadd_small by (unfold U64; lia).
  rewrite Z.add_0_r, Z.mod_small by lia. done.
Qed.
End subnets_ok.
