(* ===== verification/NetworkExamples.v ===== *)
(** * Networking: examples

    A snappy implementation that stores every byte in a chunk of its own, wire types
    that are all numbers, and a node with a schedule of seven forks; the theorems on
    the networking codec applied to them. *)

From stdpp Require Import base list strings.
From Stdlib Require Import ZArith Lia Ascii String.
From coqutil Require Import Byte.
From S2P Require Import Prelude SszCodec SszTypes Spec Accessors Rpc RpcTypes RpcCodec ForkSchedule Gossip.

Local Open Scope Z_scope.

(** ** A snappy implementation *)
Definition ex_chunk (b : byte) : bytes := chunk_header Byte.x01 5 ++ [Byte.x00; Byte.x00; Byte.x00; Byte.x00] ++ [b].
Definition ex_block (b : bytes) : option bytes :=
  match b with Byte.x00 :: rest => if zlen rest <? 2 ^ 32 then Some rest else None | _ => None end.
Definition ex_snappy : Snappy := {|
  decompress_len b := zlen <$> ex_block b;
  decompress b buf := rest ← ex_block b; if zlen rest =? zlen buf then Some rest else None;
  frame_encode data := chunk_header Byte.xff 6 ++ stream_identifier ++ concat (ex_chunk <$> data);
  compress_vec data := if zlen data <? 2 ^ 32 then Some (Byte.x00 :: data) else None;
  decompress_vec := ex_block;
|}.
#[local] Existing Instance ex_snappy.
#[local] Instance ex_snappy_ok : SnappyOk.
Proof.
  split.
  - intros data Hne. exists ((fun b => [b]) <$> data), (ex_chunk <$> data). split_and!; [|..|done].
    + clear Hne. induction data as [|b data IH]; [done|]. cbn. by rewrite IH.
    + apply Forall_fmap. by apply Forall_true.
    + clear Hne. induction data as [|b data IH]; [constructor|]. cbn. constructor; [|done].
      by apply (uncompressed_chunk [b] [Byte.x00; Byte.x00; Byte.x00; Byte.x00]).
  - intros b n (rest & Hb & ->)%fmap_Some. cbn in Hb. unfold ex_block in Hb. destruct b as [|[] rest']; try done.
    destruct (Z.ltb_spec (zlen rest') (2 ^ 32)); [|done]. injection Hb as <-. split; [apply zlen_nonneg|done].
  - intros b buf out (rest & _ & Hr)%bind_Some. destruct (Z.eqb_spec (zlen rest) (zlen buf)); [|done]. by injection Hr as <-.
  - intros b out Hb. cbn in *. by rewrite Hb.
  - intros data b. cbn. destruct (zlen data <? 2 ^ 32) eqn:Hl; [|done]. intros [= <-]. cbn. by rewrite Hl.
Qed.

(** ** Wire types and a node *)
Definition ex_wire_type : wire_type := mkWireType Z u64_codec (wf_uint 8) u64_codec_ok.
#[local] Instance ex_wire : WireSpec := {|
  Phase0SignedBeaconBlock := ex_wire_type;
  AltairSignedBeaconBlock := ex_wire_type;
  BellatrixSignedBeaconBlock := ex_wire_type;
  CapellaSignedBeaconBlock := ex_wire_type;
  DenebSignedBeaconBlock := ex_wire_type;
  ElectraSignedBeaconBlock := ex_wire_type;
  FuluSignedBeaconBlock := ex_wire_type;
  AltairLightClientBootstrap := ex_wire_type;
  AltairLightClientUpdate := ex_wire_type;
  AltairLightClientFinalityUpdate := ex_wire_type;
  AltairLightClientOptimisticUpdate := ex_wire_type;
|}.

(** A digest that keeps the first bytes, so that versions stay apart. *)
Definition ex_prefix_crypto : Crypto := {|
  sha256 x := take 32 (x ++ replicate 32 Byte.x00);
  bls_verify := fun _ _ _ => Some true;
  bls_fast_aggregate_verify := fun _ _ _ => Some true;
|}.
#[local] Existing Instance ex_prefix_crypto.
#[local] Instance ex_prefix_crypto_ok : CryptoOk ex_prefix_crypto.
Proof. constructor. intros x. cbn [sha256 ex_prefix_crypto]. rewrite length_take, length_app, length_replicate. lia. Qed.

Definition ex_version (b : byte) : bytes := [b; Byte.x00; Byte.x00; Byte.x00].
Definition ex_schedule : ForkSchedule :=
  mkForkSchedule (ex_version Byte.x00) (ex_version Byte.x01) 2 (ex_version Byte.x02) 4 (ex_version Byte.x03) 6
    (ex_version Byte.x04) 8 (ex_version Byte.x05) 10 (ex_version Byte.x06) 12
    [mkBlobScheduleEntry 16 9; mkBlobScheduleEntry 32 12] (replicate 32 Byte.x00).
Definition ex_host : Host := mkHost ex_schedule (replicate 32 Byte.x00) 1000 6 8 9.
(** Epoch 20. *)
Definition ex_now : Z := 1961000.


(** Across a blob parameter boundary the digest of Fulu changes, and with it the
    context of the blocks before the boundary is unknown to the node. *)
Lemma bpo_boundary_unknown :
  let old := fork_digest_for (host_fork_context ex_host ex_now) Fulu in
  let later := ex_now + 16 * 8 * 6000 in
  host_current_epoch ex_host later = 36 /\ fork_from_context (host_fork_context ex_host later) old = None.
Proof. vm_compute. split; reflexivity. Qed.

Lemma schedule_exact_witness :
  current_fork_version ex_schedule 9 = ex_version Byte.x04 /\ next_fork_epoch ex_schedule 9 = 10.
Proof.
  destruct (schedule_exact ex_schedule 9) as (Hc & _ & _ & Hn); [unfold ascending; cbn; lia|].
  split; [reflexivity|exact Hn].
Defined.

(** Blocks of two forks in one response. *)
Definition ex_blocks : RpcResponse := RespBlocksByRange [SignedElectra 7; SignedFulu 8].

(** A status response with one byte missing, then the whole. *)
Definition ex_status : Status :=
  mkStatus (ex_version Byte.x05) (replicate 32 Byte.x01) 3 (replicate 32 Byte.x02) 40.
Lemma response_bounded_witness :
  let s := success_chunk (as_ssz_bytes status_codec ex_status) in
  read_response None MStatus (take 700 s) = Err UnexpectedEof /\
  read_response None MStatus s = Ok (RespStatus ex_status, []) /\
  response_within (RespStatus ex_status).
Proof.
  intros s. split; [vm_cast_no_check (@eq_refl (result IoError (RpcResponse * bytes)) (Err UnexpectedEof))|].
  assert (read_response None MStatus s = Ok (RespStatus ex_status, [])) as Hs
    by vm_cast_no_check (@eq_refl (result IoError (RpcResponse * bytes)) (Ok (RespStatus ex_status, []))).
  split; [exact Hs|]. destruct (response_bounded None MStatus s) as (_ & _ & Hb). exact (proj2 (Hb _ _ Hs)).
Defined.

Lemma request_round_trip_witness :
  exists rest, read_request MBlocksByRange (write_request MBlocksByRange (ReqBlocksByRange (mkBeaconBlocksByRangeRequest 100 16 1)) ++ [Byte.x07]) =
    Ok (ReqBlocksByRange (mkBeaconBlocksByRangeRequest 100 16 1), rest).
Proof.
  destruct (request_round_trip (ReqBlocksByRange (mkBeaconBlocksByRangeRequest 100 16 1)) [Byte.x07]) as (rest & Hr & _).
  - by repeat split.
  - by exists rest.
Defined.


(** A payload and its compressed form get one id, on one topic. *)
Lemma message_id_separates_witness :
  let t := "/eth2/05000000/beacon_block/ssz_snappy"%string in
  let phase0 := ex_version Byte.x00 in
  compute_message_id t [Byte.x00; Byte.x07] phase0 = compute_message_id t [Byte.x00; Byte.x07] phase0 /\
  ((t = t /\ message_content [Byte.x00; Byte.x07] = message_content [Byte.x00; Byte.x07]) \/
   exists x y, x <> y /\ take 20 (sha256 x) = take 20 (sha256 y)).
Proof.
  intros t phase0. split; [reflexivity|].
  apply (message_id_separates t t [Byte.x00; Byte.x07] [Byte.x00; Byte.x07] phase0); vm_compute; first [reflexivity|discriminate].
Defined.

Lemma subscribed_subnets_exact_witness :
  exists p, 0 <= p < 64 /\ @compute_subscribed_subnets ex_prefix_crypto minimal unit (Byte.xff :: replicate 30 Byte.x00 ++ [Byte.x05])%list 1000 = Ok [p; (p + 1) mod 64].
Proof.
  destruct (@subscribed_subnets_exact ex_prefix_crypto _ minimal unit (Byte.xff :: replicate 30 Byte.x00 ++ [Byte.x05])%list 1000) as (p & Hp & _ & Hs);
    [reflexivity|lia|vm_compute; reflexivity|]. exists p. split; [exact Hp|exact Hs].
Defined.
