(* ===== verification/FuluExamples.v ===== *)
(** * Fulu: concrete inputs

    An upgrade, a block accepted across an epoch boundary and its slots one by one:
    the theorems of FuluChain.v at work. *)

From stdpp Require Import gmap sorting.
From Stdlib Require Import ZArith Lia.
From S2P Require Import ForkSchedule Prelude SszCodec SszBitfield SszTypes Merkle SszTree Shuffling Spec BeaconState Invariant Roots Accessors Mutators Justification Rewards EpochUpdates Operations Transition Genesis Forks ForkInvariant Altair AltairFacts AltairOps Electra Withdrawals ElectraQueues PendingDeposits ElectraEpoch ElectraBody ElectraOps ElectraBlock ElectraTransition ForkUpgrades Fulu FuluChain.
Open Scope Z_scope.

(** ** The chain of ElectraTransition.v, upgraded in its slot 7 *)
Definition ex_fulu_config : FuluConfig :=
  mkFuluConfig ex_config [Byte.x06; Byte.x00; Byte.x00; Byte.x01] 0 [mkBlobScheduleEntry 0 9; mkBlobScheduleEntry 1 15].
Definition ex_fulu : FuluState := mkFuluState (@forked minimal ex_before_epoch ex_fulu_config) (replicate 16 0).

Lemma ex_before_epoch_ok : @electra_ok minimal minimal_forks ex_before_epoch.
Proof. apply ex_electra_ok; ex_ranges. Qed.
Lemma ex_fulu_ok : @fulu_ok minimal minimal_forks minimal_fulu ex_fulu.
Proof.
  split; [apply forked_ok, ex_before_epoch_ok|by vm_compute|].
  change (fu_proposer_lookahead ex_fulu) with (replicate 16 0). apply Forall_replicate. split; by vm_compute.
Qed.
Lemma ex_fulu_ordered : @checkpoints_ordered minimal ex_fulu.
Proof. repeat split; vm_compute; congruence. Qed.

Lemma ex_upgraded : @upgrade_to_fulu ex_crypto minimal minimal_forks minimal_fulu ex_before_epoch ex_fulu_config = Ok ex_fulu.
Proof. vm_compute. reflexivity. Qed.

Lemma upgrade_elects_on_demand_witness :
  @upgrade_to_fulu ex_crypto minimal minimal_forks minimal_fulu ex_before_epoch ex_fulu_config = Ok ex_fulu /\
  exists p, @window_proposer minimal ex_fulu 13 = Some p /\
    @get_beacon_proposer_index_electra ex_crypto minimal minimal_forks (at_slot ex_before_epoch 13) = Ok p.
Proof.
  split; [exact ex_upgraded|].
  destruct (@upgrade_elects_on_demand ex_crypto minimal minimal_forks minimal_fulu _ _ ex_before_epoch ex_fulu_config) as [_ Hup].
  - exact ex_before_epoch_ok.
  - by vm_compute.
  - destruct (Hup ex_fulu ex_upgraded) as (_ & _ & Ht). apply Ht. split; vm_compute; congruence.
Defined.

(** ** A block in slot 9, two slots and an epoch later *)
Definition ex_run_fulu (sb : SignedElectraBlock) (validate : bool) :=
  @fulu_state_transition ex_crypto minimal minimal_forks ex_aggregation preset_blocks minimal_fulu ex_batch ex_engine
    ex_fulu sb validate ex_fulu_config.
Definition ex_fulu_root : bytes :=
  ok_value [] (@fulu_state_root ex_crypto minimal minimal_forks preset_blocks
    (ok_value (ex_fulu, Valid) (ex_run_fulu (ex_signed_with []) false)).1).
Definition ex_signed_fulu : SignedElectraBlock := ex_signed_with ex_fulu_root.
Definition ex_after_fulu : FuluState := (ok_value (ex_fulu, Valid) (ex_run_fulu ex_signed_fulu true)).1.

Lemma ex_fulu_accepted :
  @fulu_state_transition ex_crypto minimal minimal_forks ex_aggregation preset_blocks minimal_fulu ex_batch ex_engine
    ex_fulu ex_signed_fulu true ex_fulu_config = Ok (ex_after_fulu, Valid).
Proof. vm_compute. reflexivity. Qed.
Lemma ex_after_fulu_fields : balances ex_after_fulu = [32001073274; 0] /\ fu_proposer_lookahead ex_after_fulu = replicate 16 0.
Proof. vm_compute. done. Qed.

Lemma fulu_transition_sound_witness :
  exists s', @fulu_state_transition ex_crypto minimal minimal_forks ex_aggregation preset_blocks minimal_fulu ex_batch ex_engine
    ex_fulu ex_signed_fulu true ex_fulu_config = Ok (s', Valid) /\
    @fulu_ok minimal minimal_forks minimal_fulu s' /\ slot s' = 9 /\
    (balances s' = [32001073274; 0] /\ fu_proposer_lookahead s' = replicate 16 0).
Proof.
  exists ex_after_fulu. split; [exact ex_fulu_accepted|].
  destruct (@fulu_transition_sound ex_crypto minimal minimal_forks ex_aggregation preset_blocks minimal_fulu ex_batch ex_engine
    _ _ _ _ ex_fulu ex_signed_fulu ex_fulu_config ex_after_fulu Valid) as (Hok & _ & Hslot & _).
  - exact ex_fulu_ok.
  - exact ex_fulu_ordered.
  - by vm_compute.
  - by split; vm_compute.
  - split; repeat constructor; by vm_compute.
  - exact ex_fulu_accepted.
  - split; [exact Hok|]. split; [exact Hslot|exact ex_after_fulu_fields].
Defined.

(** The same two slots and the block as steps: the proposer of slot 9 was in the
    window of slot 7. *)
Definition ex_slot (s : FuluState) : FuluState :=
  ok_value s (@slot_step_fulu ex_crypto minimal minimal_forks ex_aggregation preset_blocks minimal_fulu s).
Definition ex_fulu_9 : FuluState := ex_slot (ex_slot ex_fulu).

Lemma ex_slot_8 :
  @slot_step_fulu ex_crypto minimal minimal_forks ex_aggregation preset_blocks minimal_fulu ex_fulu = Ok (ex_slot ex_fulu).
Proof. vm_compute. reflexivity. Qed.
Lemma ex_slot_9 :
  @slot_step_fulu ex_crypto minimal minimal_forks ex_aggregation preset_blocks minimal_fulu (ex_slot ex_fulu) = Ok ex_fulu_9.
Proof. vm_compute. reflexivity. Qed.
Lemma ex_run_to_9 :
  @fulu_run ex_crypto minimal minimal_forks ex_aggregation preset_blocks minimal_fulu ex_batch ex_engine
    ex_fulu_config ex_fulu ex_fulu_9.
Proof.
  eapply rtc_l; [apply step_slot; [by vm_compute|exact ex_slot_8]|].
  eapply rtc_l; [apply step_slot; [by vm_compute|exact ex_slot_9]|]. apply rtc_refl.
Qed.
Lemma ex_fulu_9_slot : slot ex_fulu_9 = 9.
Proof. vm_compute. reflexivity. Qed.

Lemma proposers_known_ahead_witness :
  exists p, @window_proposer minimal ex_fulu 9 = Some p /\ @get_beacon_proposer_index_fulu minimal ex_fulu_9 = p.
Proof.
  destruct (@proposers_known_ahead ex_crypto minimal minimal_forks ex_aggregation preset_blocks minimal_fulu ex_batch ex_engine
    _ _ _ _ ex_fulu_config ex_fulu ex_fulu_9 9) as (_ & p & Hp & _ & _ & Hnow & _).
  - exact ex_fulu_ok.
  - exact ex_fulu_ordered.
  - exact ex_run_to_9.
  - split; vm_compute; congruence.
  - exists p. split; [exact Hp|exact (Hnow ex_fulu_9_slot)].
Defined.
