(* ===== verification/ColumnExamples.v ===== *)
(** * Data columns: concrete inputs

    The sidecars of a block with two blobs, the custody of a node and the verdict
    on stored columns: the theorems of Kzg.v, DataColumns.v and Custody.v at work. *)

From stdpp Require Import gmap list sorting.
From Stdlib Require Import ZArith Lia.
From S2P Require Import ForkSchedule RpcTypes LightClient LightServer Prelude SszCodec SszBitfield SszTypes Merkle SszTree Spec BeaconState Roots Accessors Operations Genesis Forks Altair AltairOps Electra Withdrawals ElectraBody ElectraOps ElectraBlock Fulu Kzg DataColumns Custody.
Open Scope Z_scope.

(** ** A field element *)
(** The digest [ff..ff] is twice the order and a rest. *)
Lemma hash_to_bls_field_exact_witness :
  length (@hash_to_bls_field ex_crypto [Byte.xff]) = 32%nat /\
  from_be_bytes (@hash_to_bls_field ex_crypto [Byte.xff]) = 2 ^ 256 - 1 - 2 * field_order.
Proof. exact (@hash_to_bls_field_exact ex_crypto ex_crypto_ok [Byte.xff]). Defined.

(** ** A block with two blobs *)
#[local] Existing Instances minimal minimal_forks preset_blocks minimal_fulu.
Section blobs.
#[local] Existing Instance ex_crypto.

Definition ex_commitments : list bytes := [replicate 48 Byte.x01; replicate 48 Byte.x02].
Definition ex_blob_body : ElectraBody :=
  mkElectraBody (replicate 96 Byte.x05) (mkEth1Data (replicate 32 Byte.x00) 0 (replicate 32 Byte.x00))
    (replicate 32 Byte.x00) [] [] [] [] [] (mkSyncAggregate (replicate 4 Byte.xff) (replicate 96 Byte.x00))
    ex_payload [] ex_commitments (mkExecutionRequests [] [] []).
Definition ex_hashes : list bytes :=
  ok_value [] (body_field_hashes (E := DataColumnVerifyError) ex_blob_body).
Definition ex_blob_header : SignedBeaconBlockHeader :=
  mkSignedBeaconBlockHeader
    (mkBeaconBlockHeader 9 0 (replicate 32 Byte.x00) (replicate 32 Byte.x00)
       (ok_value [] (electra_body_root ex_blob_body)))
    (replicate 96 Byte.x00).
(** Cell [i] of blob [b] holds [i] and [b]. *)
Definition ex_cells : list (list (list Z) * list bytes) :=
  (fun b => ((fun i => [i; b]) <$> seqZ 0 128, (fun i => [byte.of_Z i; byte.of_Z b]) <$> seqZ 0 128)) <$> [0; 1].
Definition ex_sidecars : list DataColumnSidecar :=
  ok_value [] (get_data_column_sidecars_from_block ex_blob_header ex_commitments ex_hashes ex_cells).
Definition ex_column_7 : DataColumnSidecar :=
  default (mkDataColumnSidecar 0 [] [] [] ex_blob_header []) (ex_sidecars !! 7%nat).

Lemma ex_body_hashes : body_field_hashes (E := DataColumnVerifyError) ex_blob_body = Ok ex_hashes.
Proof. vm_compute. reflexivity. Qed.
Lemma ex_blob_body_root : electra_body_root ex_blob_body = Ok (bh_body_root (sbh_message ex_blob_header)).
Proof. vm_compute. reflexivity. Qed.
Lemma ex_sidecars_made :
  get_data_column_sidecars_from_block ex_blob_header (eb_blob_kzg_commitments ex_blob_body) ex_hashes ex_cells = Ok ex_sidecars.
Proof. vm_compute. reflexivity. Qed.
Lemma ex_column_7_at : ex_sidecars !! 7%nat = Some ex_column_7.
Proof. vm_compute. reflexivity. Qed.

Lemma produced_sidecars_verify_witness :
  verify_data_column_sidecar ex_column_7 6 = Ok tt /\ verify_data_column_sidecar_inclusion_proof ex_column_7 = Ok tt /\
  dcs_column ex_column_7 = [[7; 0]; [7; 1]].
Proof.
  destruct (produced_sidecars_verify ex_blob_body ex_blob_header ex_hashes ex_cells 6) as (sidecars & Hs & _ & Hall).
  - exact ex_body_hashes.
  - exact ex_blob_body_root.
  - by vm_compute.
  - by vm_compute.
  - by vm_compute.
  - by vm_compute.
  - repeat constructor; by vm_compute.
  - pose proof (Ok_value_unique _ _ _ Hs ex_sidecars_made) as ->.
    destruct (Hall 7%nat ex_column_7 ex_column_7_at) as (_ & _ & Hv & Hi & _).
    split; [exact Hv|]. split; [exact Hi|]. by vm_compute.
Defined.

(** The sidecar of the block's own column carries the block's commitments. *)
Definition ex_leaf : bytes :=
  ok_value [] (list_root MAX_BLOB_COMMITMENTS_PER_BLOCK fixed_bytes_root ex_commitments).
Lemma sidecar_bound_to_body_witness :
  ex_leaf = ex_leaf \/
  exists br x y, build_kzg_commitments_inclusion_proof ex_hashes = Ok br /\
    find_collision sha256 ex_leaf ex_leaf 27 (dcs_kzg_commitments_inclusion_proof ex_column_7) br = Some (x, y) /\
    x <> y /\ sha256 x = sha256 y.
Proof.
  apply (sidecar_bound_to_body ex_blob_body ex_hashes ex_column_7 ex_leaf ex_leaf).
  - exact ex_body_hashes.
  - exact ex_blob_body_root.
  - repeat constructor; by vm_compute.
  - vm_compute. repeat constructor.
  - by vm_compute.
  - vm_compute. reflexivity.
  - vm_compute. reflexivity.
Defined.
End blobs.

(** ** The custody of a node *)

(** A digest that keeps the first bytes: the group of an id is its value modulo 128. *)
Definition ex_low_crypto : Crypto := {|
  sha256 x := take 32 (x ++ replicate 32 Byte.x00);
  bls_verify := fun _ _ _ => Some true;
  bls_fast_aggregate_verify := fun _ _ _ => Some true;
|}.
Section custody.
#[local] Existing Instance ex_low_crypto.
Definition ex_node_id : bytes := (replicate 31 Byte.x00 ++ [Byte.x7e])%list.

Lemma custody_groups_exact_witness :
  exists groups, get_custody_groups (E := unit) ex_node_id 4 = Ok groups /\ StronglySorted Z.lt groups /\
    groups ≡ₚ [126; 127; 0; 1].
Proof.
  destruct (custody_groups_exact (E := unit) ex_node_id 4 5) as (_ & _ & Hfound & _).
  - by vm_compute.
  - by vm_compute.
  - by vm_compute.
  - apply Hfound; by vm_compute.
Defined.

Lemma ex_groups : get_custody_groups (E := unit) ex_node_id 4 = Ok [0; 1; 126; 127].
Proof. vm_compute. reflexivity. Qed.
Lemma custody_columns_exact_witness :
  exists columns, custody_columns_for_cgc (E := unit) ex_node_id 4 = Ok columns /\ zlen columns = 4 /\
    126 ∈ columns /\
    (forall expected, expected_columns (E := unit) ex_node_id 4 = Ok expected -> columns ⊆ expected).
Proof.
  destruct (custody_columns_exact (E := unit) ex_node_id 4 [0; 1; 126; 127]) as (columns & Hc & _ & Hin & Hlen & Hsub).
  - by vm_compute.
  - by vm_compute.
  - exact ex_groups.
  - exists columns. split; [exact Hc|]. split; [exact Hlen|]. split; [|intros expected; apply Hsub; by vm_compute].
    apply Hin. split; [by vm_compute|]. change (126 mod NUMBER_OF_CUSTODY_GROUPS) with 126. set_solver.
Defined.

(** A checker built for the initial count does not require the columns of a count raised
    beyond the sampling size: column 7 is in the custody of the node and is not expected. *)
Lemma raised_custody_not_expected :
  exists raised expected, custody_columns_for_cgc (E := unit) ex_node_id 10 = Ok raised /\
    expected_columns (E := unit) ex_node_id CUSTODY_REQUIREMENT = Ok expected /\ 7 ∈ raised /\ 7 ∉ expected.
Proof.
  exists [0; 1; 2; 3; 4; 5; 6; 7; 126; 127], [0; 1; 2; 3; 4; 5; 126; 127].
  do 2 (split; [by vm_compute|]). split; set_solver.
Qed.

(** ** The custody state: 320 ether of validators, then less *)
Definition ex_registry (n : nat) : BeaconState := with_validators (ex_state 16) (replicate n (ex_validator 0 u64_max)).
Definition ex_events : list custody_event :=
  [ColumnStored 100; Turn [0; 1; 2; 3; 4; 5; 6; 7; 8; 9] (Some (ex_registry 10)) 3; ColumnStored 90;
   Turn [0] (Some (ex_registry 10)) 4; Turn [] None 5].
Lemma custody_state_exact_witness :
  let c := fold_left custody_event_step ex_events (new_custody_state CUSTODY_REQUIREMENT) in
  cgc c = 10 /\ lowest_column_slot c = 90 /\
  90 <= clamp_earliest_available (lowest_column_slot c) 20 2 16 SLOTS_PER_EPOCH.
Proof.
  destruct (custody_state_exact (new_custody_state CUSTODY_REQUIREMENT) ex_events 20 2 16) as (Hc & Hl & _ & Ha).
  split; [etransitivity; [exact Hc|by vm_compute]|]. split; [exact Hl|]. apply Ha. by vm_compute.
Defined.
End custody.

(** ** A verdict *)
Definition ex_ckzg : CKzg := {|
  ckzg_verify_blobs := fun _ _ _ => Some true;
  ckzg_verify_cells := fun _ _ _ _ => Some true;
|}.
Definition ex_stored (c : Z) : DataColumnSidecar :=
  mkDataColumnSidecar c [replicate 2048 c] [replicate 48 Byte.x01] [replicate 48 Byte.x02] ex_blob_header [].
(** Columns 3 and 5 are stored, no blobs are. *)
Definition ex_store : SidecarStore :=
  mkSidecarStore (fun _ => Some []) (fun _ c => Some (if (c =? 3) || (c =? 5) then Some (ex_stored c) else None)).
Definition ex_da_config : FuluConfig := mkFuluConfig ex_config [Byte.x06; Byte.x00; Byte.x00; Byte.x01] 0 [].

Section verdict.
#[local] Existing Instances ex_low_crypto ex_ckzg.
Lemma ex_shaped c : shaped_in ex_store [] c.
Proof.
  intros sidecar Hs. cbn in Hs. destruct ((c =? 3) || (c =? 5)); [|done]. injection Hs as <-.
  repeat constructor; by rewrite ?length_replicate.
Qed.
Lemma ex_held c : c = 3 \/ c = 5 -> column_held ex_store ex_da_config [] c.
Proof. intros [-> | ->]; eexists; (split; [reflexivity|]); split; vm_compute; reflexivity. Qed.

Lemma availability_exact_witness :
  is_data_available (E := unit) ex_store ex_da_config [3; 5] [] ex_commitments = Ok Available /\
  exists verdict, is_data_available (E := unit) ex_store ex_da_config [3; 4] [] ex_commitments = Ok verdict /\
    verdict <> Irrelevant.
Proof.
  destruct (availability_exact (E := unit) ex_store ex_da_config [3; 5] [] ex_commitments) as (verdict & Hv & _ & Hav).
  { apply Forall_true, ex_shaped. }
  destruct (availability_exact (E := unit) ex_store ex_da_config [3; 4] [] ex_commitments) as (verdict' & Hv' & Hirr & _).
  { apply Forall_true, ex_shaped. }
  split.
  - rewrite Hv. f_equal. apply Hav. split; [done|]. left. apply Forall_cons; split; [apply ex_held; auto|]. apply Forall_singleton, ex_held. auto.
  - exists verdict'. split; [exact Hv'|]. intros Hx. apply Hirr in Hx. discriminate.
Defined.
End verdict.
